(* ===== verification/_CoqProject ===== *)
-Q . S2P
Prelude.v
Handles.v
Ring.v
FrameAllocator.v
PhysicalMemory.v
Events.v
SharedMemory.v
Jobs.v
Channels.v
Scheduler.v
TicketLock.v
BlockDevice.v
Partition.v
Gpt.v
KernelHeap.v
VirtualMemory.v
UserMemory.v
ElfLoader.v
ElfImage.v
ReliableFile.v
KernelMemory.v
RamFs.v
RamFsSpec.v
RamFsRepr.v
RamFsProof.v
RamFsMove.v
RamFsTheorems.v
DiskLayout.v
Packet.v
Network.v
Protocols.v
NetworkStack.v
NetworkTheorems.v
ParserSafety.v
Dhcp.v
TcpClient.v
TcpStream.v
TcpTheorems.v
TcpCalls.v
Scheduler2.v
Sockets.v
SocketTheorems.v
KStatus.v
Utf8.v
EventRing.v
Devices.v
Drivers.v
DriverBinding.v
