(* ===== verification/Prelude.v ===== *)
(** * KuroganeOS kernel core: a verification library

    KuroganeOS is a 64-bit x86 operating system; src/kernel holds its C++ kernel.
    This library models the parts of the kernel that carry its logic and can be
    stated without hardware: memory management, inter-process communication,
    scheduling, devices and their drivers, block storage and its partitioning, program
    loading, the RAM file system, the crash-safe replacement of files, and the network
    stack with its TCP client and sockets.  Every definition that models code translates the lines of src/ it
    stands for (PROJECT.json lists them); what the code calls outside src/ (device
    drivers' callbacks, the hardware) is a parameter.

    ** The parts and how they interact

    - [PhysicalMemory] (memory/physical_memory.cpp) is the bitmap allocator of page
      frames.  It is an instance of the class [FrameAllocator], against which its
      clients are verified.
    - [KernelHeap] (memory/allocator.cpp) is [kmalloc] and [kfree] over a byte-addressed
      memory: block headers, allocation prefixes and links are bytes.
    - [VirtualMemory] (memory/virtual_memory.cpp) maps, unmaps and queries pages in
      four-level page tables that live in memory behind a backend (allocation of
      tables, physical to virtual translation, invalidation); the backend's
      documented contract is the class [PageTables].
    - [UserMemory] is the interface the program loader has to both: the class
      [UserMemory] and its instance for any page tables and frame allocator.
    - [ElfLoader] (user/elf_loader.cpp) holds the validation and loading of static
      ELF64 images, with the theory of validation; [ElfImage] has the ownership of
      an image's pages and the theorems.
    - [Handles] and [Ring] are the generation-tagged handles and the ring buffers
      that the IPC tables share.  [Events] (ipc/event.cpp), [SharedMemory]
      (ipc/shared_memory.cpp, a client of [FrameAllocator]), [Channels]
      (ipc/channel.cpp: services, connections, message queues) and [Jobs]
      (task/job.cpp) are tables of fixed size whose entries processes reach by handle.
    - [Scheduler] (task/scheduler.cpp) is the cooperative scheduler; its task callbacks
      may call it back.  [Scheduler2] (task/scheduler2.cpp) is the policy of the
      preemptive scheduler: run queues per processor, affinities, priorities and
      stealing.  [TicketLock] (sync/spinlock.hpp) is the lock that brackets the
      entry points of the tables, as interleaved atomic accesses.
    - [BlockDevice] (storage/block_device.hpp) checks every transfer before it reaches a
      driver; [Partition] (storage/partition_device.cpp) is a device that is a window
      of another; both are stated against the class [Disk], a device with contents.
      [Gpt] (storage/gpt.cpp) reads partition tables from a block device.
    - [ReliableFile] (install/reliable_file.cpp) replaces a file through a journal of
      renames over a backend that may fail or lose power.
    - [KernelMemory] is the interface the file system has to the heap, with the
      instance that [KernelHeap] gives.  [RamFs] (fs/ramfs.cpp) holds the operations of
      the RAM file system over its table of entries and that interface; [RamFsSpec]
      a file system as a tree of files and the operations on it; [RamFsRepr]
      what it means that the table represents a tree; [RamFsProof] and [RamFsMove]
      the simulation of the operations; [RamFsTheorems] the theorems.
    - [DiskLayout] (install/disk_layout.cpp, libk/crc.cpp) writes the partition table
      of a new installation, which [Gpt] reads back.
    - [Packet], [Network] and [Protocols] are the packets of net/network.cpp and
      net/protocols.cpp in a byte-addressed memory: byte access, copies and the
      internet checksum; Ethernet, ARP, IPv4 and ICMP; UDP, TCP, DHCP and DNS, with the
      exact bytes each serialiser writes and each parser accepts.  [ParserSafety] has
      the theorems on the parsers alone.
    - [NetworkStack] (net/network.cpp) is the stack: neighbour table, resolution,
      reception, sending, inboxes, and the loopback interface; its device is a
      parameter.  [NetworkTheorems] has its invariant and its end-to-end theorems.
      [Dhcp] (net/dhcp.cpp) acquires a lease over an interface.
    - [TcpClient] (net/tcp_client.cpp) is a connection over that stack: the handshake,
      the stream buffer and the queue of segments that arrive early, sending with
      acknowledgements and retransmission, closing; each call in a form that polls
      once and in one that waits.  The timer and the pause of a waiting call are the
      class [Clock].  [TcpStream] says what a client holds of the stream its peer
      sends ([core], [queue]) and that arriving segments keep this; [TcpTheorems] has
      the theorems on the stream, [TcpCalls] those on the calls.
    - [Sockets] (net/socket.cpp) is the table of sockets over both, with the transport
      behind it as the class [Backend]; [SocketTheorems] has its invariant and theorems.
    - [Utf8] (libk/utf8.cpp) decodes and validates texts.  [EventRing]
      (diagnostics/event_ring.cpp) is the lock-free ring of diagnostic events, as
      interleaved accesses to shared memory.
    - [Devices] (drivers/core/device_manager.cpp) is the table of devices, a forest
      reached by id and by handle; [Drivers] (drivers/core/driver_manager.cpp) binds them
      to drivers, whose callbacks (the class [Callbacks]) may call both managers back
      ([Lawful]); [DriverBinding] has the theorems for callbacks that do not ([Quiet]).
      [KStatus] holds the result codes (libk/status.hpp).

    ** How state and operations are represented

    A component's globals are the fields of a record [State] (or [World], [Image]);
    an entry point is a function from the state and its arguments to the new state
    and its results, with the early returns of the code in order.  Machine words
    are integers with their wrap-around written out (this file).  Pointers are
    integers with 0 for null; a nullable out-parameter is a boolean or an option.
    Sequences of calls are lists of operations folded over the state, or step
    relations ([Scheduler], [TicketLock], [ReliableFile]).  A run of
    [EventRing] is the list of the threads that make its accesses.  A loop that is not
    structural has fuel; in each case a theorem shows that the fuel suffices:
    [KernelHeap.walk_fuel] is the number of headers that fit in the heap, plus one
    (every walk of a well-formed heap ends earlier, part of [heap_invariant]);
    [ElfLoader.segment_fuel] is the page limit of an image plus one
    ([elf_load_terminates]); the loops of [Gpt] run over a number of entries and
    bytes that the parser has checked; in [RamFs] the parser of a path has one more
    step than the text has bytes, and the walks up to the root, over a subtree and
    of a destruction have [parent_fuel], [subtree_fuel] and [destroy_fuel], more than
    the depth and the number of entries the limits allow (part of [ramfs_history]);
    [Packet.fold_fuel] folds the carries of a 32-bit sum ([fold_loop_done]),
    [Protocols.skip_fuel] exceeds the 127 labels of a name, and the loops over options
    and labels have one more step than there are bytes ([parsers_terminate],
    [dns_query_roundtrip]).  [iterate] (this file) runs the ten million polls of [Dhcp]
    and the waits of [TcpClient], counted in binary so that concrete runs evaluate;
    without a timer a wait polls 800000 times, so that 800001 rounds of [fuel] are
    enough, and [flush_fuel] is more than the elements of the queue that a flush can
    free ([TcpCalls.tcp_calls_return]).

    ** What the theorems show

    - memory safety across components: frames belong to one shared-memory object at
      most and are never lost ([SharedMemory.shm_frame_isolation]); allocations of
      the heap are disjoint and the heap's bytes always encode a tiling list of
      blocks ([KernelHeap.heap_invariant], [kmalloc_ok], [kfree_ok]); mapping changes
      one page and failing to map changes none ([VirtualMemory.map_page_ok],
      [map_page_rolls_back], [unmap_page_ok]); an image owns exactly the pages it
      added ([ElfImage.elf_image_roundtrip]);
    - functional correctness: a loaded image is in memory byte for byte
      ([ElfImage.elf_load_ok]); the loader accepts exactly the well-formed images
      ([elf_validate_iff]); the frame allocator hands out the lowest free frame
      ([PhysicalMemory.alloc_frame_ok]); GPT tables are decoded faithfully
      ([Gpt.gpt_entries_faithful]) and an installation's table is accepted
      ([DiskLayout.installed_disk_parses]); paths are parsed as the reference parser
      does ([RamFsTheorems.parse_path_correct]); the UTF-8 decoder accepts exactly the
      encodings of scalar values ([Utf8.decode_exact], [validate_iff]);
    - devices and drivers: the table of devices stays a consistent forest
      ([Devices.devices_invariant]), registrations have exactly the documented outcomes
      ([register_device_ok]), handles die with a change of owner
      ([device_handle_stale]); a successful bind holds whatever the callbacks did
      ([Drivers.bind_device_owner]), and with quiet callbacks binding is a search by
      priority ([DriverBinding.bind_device_reference]) and the counts of attached devices
      are exact ([attached_counts]);
    - the event ring: readers return recorded events, whole and in order, as long as no
      writer is overtaken by 64 others ([EventRing.events_not_torn]), all of the most
      recent when nothing interferes ([quiet_read]);
    - refinement of abstract specifications: a channel is a bounded FIFO list
      ([Channels.transfer_fifo]); a partition is a disk ([Partition.partition_refines_disk]);
      the lock is a FIFO queue ([TicketLock.ticket_lock_refines_queue]); a replaced
      file is a set of candidate contents ([ReliableFile.history_refines_candidates]);
      the RAM file system is a tree of files ([RamFsTheorems.ramfs_history],
      [ramfs_move]); the loopback interface is a queue ([NetworkTheorems.loopback_refines_queue]);
    - the network: no parser reads outside its packet and all of them end
      ([ParserSafety.parsers_confined], [parsers_terminate]); a corrupted byte is
      detected ([corruption_detected]); datagrams, pings and address resolution work
      between two stacks ([NetworkTheorems.udp_delivered], [ping_roundtrip],
      [arp_resolution]); a lease is always a server's, and a client that is answered
      gets it ([Dhcp.acquire_sound], [acquire_completes]);
    - the TCP client: what the application reads is a prefix of the peer's stream, and
      the end is reported after all of it ([TcpTheorems.tcp_stream_prefix]); segments
      in any order make up the stream ([reassembly_complete]); accepted bytes are what
      the other client reads, within the window ([TcpCalls.tcp_end_to_end]); [send]
      succeeds only when all is acknowledged ([tcp_send_outcome]); every call returns
      ([tcp_calls_return]);
    - sockets: processes are isolated from each other ([SocketTheorems.socket_isolation]),
      closed handles stay stale ([closed_handle_stale]), datagrams on the loopback
      arrive whole, once and in order ([loopback_delivery], [datagram_fifo]), a
      connection attempt ends ([connect_deadline]), a port is always found
      ([ephemeral_port_found]), and the tables agree ([socket_invariant]);
    - the preemptive policy: a thread runs on one processor at a time
      ([Scheduler2.dispatch_exclusive]), the most important one is picked
      ([pick_next_ok]), equals take turns ([round_robin]), and the tables agree
      ([scheduler2_invariant]);
    - invariants of every table under any sequence of calls ([Events.events_invariant],
      [Jobs.jobs_invariant], [Channels.channels_invariant], [Scheduler.scheduler_invariant],
      [RamFsTheorems.ramfs_invariant], [NetworkTheorems.neighbor_table_invariant]);
    - liveness: a ready task is dispatched ([Scheduler.ready_task_is_dispatched]), a
      waiting connection is accepted ([Channels.accept_ok]), waiting for the lock is
      bounded ([TicketLock.ticket_lock_bounded_wait]), recovery completes
      ([ReliableFile.replace_recovers]);
    - defects of the code, as theorems about the model: grant slots of shared memory
      leak ([SharedMemory.shm_grant_slots_leak]), a stale pending connection is
      delivered to the wrong service ([Channels.accept_misroutes]), [try_lock]
      compares wrapped counters ([TicketLock.try_lock_wraps]), and the retry of a
      [send] of several chunks repeats acknowledged bytes
      ([TcpCalls.send_retry_duplicates]), and an overtaken writer of the event ring can
      tear an event that a reader accepts ([EventRing.torn_event_returned]); a failure
      reported during [attach] makes the count of attached devices wrong
      ([DriverBinding.early_failure_miscounts]).

    ** Not modelled

    Concurrency is modelled for the lock and the event ring only: the other components are verified
    call by call, as their callers serialise them (with that lock, or by the
    external synchronisation that virtual_memory.hpp requires).  [status_message]
    functions are constant tables of strings.  Drivers, interrupt and boot code,
    context switching, the desktop and the user-space programs act on hardware
    state or draw pixels.  The theorem on the end of the waiting TCP calls is for a
    machine whose timer does not run; with a running timer they end when it advances,
    and what they leave is proved for any clock.  The two large disk formats
    (fs/kurofs.cpp, fs/fat32.cpp) and the path router over them (fs/vfs.cpp) could be
    modelled the same way and are not. *)

From Stdlib Require Export ZArith Lia ZifyBool.
From stdpp Require Export base numbers list gmap.

#[global] Open Scope Z_scope.

(** ** Machine words

    A [w]-bit unsigned integer is a [Z] kept in [0, 2^w); the wrap-around of an
    arithmetic operation is written out with [u8], [u16], [u32] and [u64]. *)

Definition u8 (x : Z) : Z := x mod 2 ^ 8.
Definition u16 (x : Z) : Z := x mod 2 ^ 16.
Definition u32 (x : Z) : Z := x mod 2 ^ 32.
Definition u64 (x : Z) : Z := x mod 2 ^ 64.

Definition UINT16_MAX : Z := 2 ^ 16 - 1.
Definition UINT32_MAX : Z := 2 ^ 32 - 1.
Definition UINT64_MAX : Z := 2 ^ 64 - 1.

(** [uintptr_t] and [size_t] are 64 bits wide on the x86-64 target. *)
Definition UINTPTR_MAX : Z := UINT64_MAX.
Definition SIZE_MAX : Z := UINT64_MAX.

Definition is_u8 (x : Z) : Prop := 0 <= x < 2 ^ 8.
Definition is_u32 (x : Z) : Prop := 0 <= x < 2 ^ 32.
Definition is_u64 (x : Z) : Prop := 0 <= x < 2 ^ 64.

(** Bitwise complement of a 64-bit word. *)
Definition not64 (x : Z) : Z := u64 (Z.lnot x).

Declare Scope word_scope.
Delimit Scope word_scope with word.
Notation "x ⊕ y" := (u64 (x + y)) (at level 50, left associativity) : word_scope.
Notation "x ⊖ y" := (u64 (x - y)) (at level 50, left associativity) : word_scope.
Notation "x ⊗ y" := (u64 (x * y)) (at level 40, left associativity) : word_scope.
#[global] Open Scope word_scope.

(** ** Tactics *)

(** Linear arithmetic with division and remainder by constants. *)
Ltac zdm := Z.div_mod_to_equations; lia.

(** Evaluate the word bounds and solve with [lia]. *)
Ltac word_unfold :=
  unfold is_u8, is_u32, is_u64, UINTPTR_MAX, SIZE_MAX, UINT64_MAX, UINT32_MAX,
    UINT16_MAX in *;
  change (2 ^ 8) with 256 in *; change (2 ^ 16) with 65536 in *;
  change (2 ^ 32) with 4294967296 in *;
  change (2 ^ 64) with 18446744073709551616 in *.
Ltac word_lia := word_unfold; lia.

(** Split every [if]/[match] of the goal and the hypotheses, discarding the
    branches whose equations clash. *)
Ltac split_cases := repeat (case_match; simplify_eq/=; try done).

(** Pass one early return of a function whose result is assumed to be another. *)
Ltac guard_step :=
  match goal with
  | |- (if ?b then _ else _) = _ -> _ => destruct b eqn:?; [intros; discriminate|]
  end.

Create HintDb kuro discriminated.

(** ** Words *)

Lemma u64_range x : is_u64 (u64 x).
Proof. unfold u64. apply Z.mod_pos_bound. lia. Qed.

Lemma u64_small x : is_u64 x -> u64 x = x.
Proof. apply Z.mod_small. Qed.

Lemma u32_range x : is_u32 (u32 x).
Proof. unfold u32. apply Z.mod_pos_bound. lia. Qed.

Lemma u32_small x : is_u32 x -> u32 x = x.
Proof. apply Z.mod_small. Qed.

Lemma u8_small x : is_u8 x -> u8 x = x.
Proof. apply Z.mod_small. Qed.

#[export] Hint Resolve u64_range u32_range : kuro.

(** Masking with [2^k - 1] is the remainder. *)
Lemma land_low x k : 0 <= k -> Z.land x (2 ^ k - 1) = x mod 2 ^ k.
Proof. intros. rewrite <- Z.land_ones, Z.ones_equiv by lia. f_equal. Qed.

Lemma land_range x y n : 0 <= n -> 0 <= x < 2 ^ n -> 0 <= Z.land x y < 2 ^ n.
Proof.
  intros Hn Hx.
  rewrite <- (Z.mod_small x (2 ^ n)), <- Z.land_ones by lia.
  rewrite <- Z.land_assoc, (Z.land_comm (Z.ones n)), Z.land_assoc, Z.land_ones by lia.
  apply Z.mod_pos_bound. lia.
Qed.

(** A field of [m] bits at offset [k]. *)
Lemma land_field x m k :
  0 <= m -> 0 <= k ->
  Z.land x (Z.shiftl (2 ^ m - 1) k) = ((x / 2 ^ k) mod 2 ^ m) * 2 ^ k.
Proof.
  intros Hm Hk.
  rewrite <- (land_low _ m), <- Z.shiftr_div_pow2, <- Z.shiftl_mul_pow2 by lia.
  apply Z.bits_inj'; intros n Hn.
  rewrite Z.land_spec, !Z.shiftl_spec by lia.
  destruct (Z.lt_ge_cases n k).
  - rewrite !(Z.testbit_neg_r _ (n - k)) by lia. apply andb_false_r.
  - rewrite Z.land_spec, Z.shiftr_spec by lia. do 2 f_equal. lia.
Qed.

(** A disjunction of fields that do not overlap is their sum. *)
Lemma lor_shift_add a b k :
  0 <= k -> 0 <= b < 2 ^ k -> Z.lor (Z.shiftl a k) b = a * 2 ^ k + b.
Proof.
  intros Hk Hb. rewrite <- Z.shiftl_mul_pow2 by lia.
  rewrite <- (Z.lxor_lor (Z.shiftl a k) b), <- Z.add_nocarry_lxor; try done;
    apply Z.bits_inj'; intros n Hn; rewrite Z.land_spec, Z.bits_0, Z.shiftl_spec by lia;
    (destruct (Z.lt_ge_cases n k);
      [rewrite (Z.testbit_neg_r _ (n - k)) by lia; done|]);
    rewrite <- (Z.mod_small b (2 ^ k)), Z.mod_pow2_bits_high by lia; apply andb_false_r.
Qed.

Lemma testbit_land_pow2 x k :
  0 <= k -> (Z.land x (Z.shiftl 1 k) =? 0) = negb (Z.testbit x k).
Proof.
  intros Hk. rewrite Z.shiftl_1_l. destruct (Z.testbit x k) eqn:E; cbn.
  - apply Z.eqb_neq. intros H. apply (f_equal (fun z => Z.testbit z k)) in H.
    rewrite Z.land_spec, E, Z.pow2_bits_true, Z.bits_0 in H by lia. done.
  - apply Z.eqb_eq. apply Z.bits_inj'; intros n Hn.
    rewrite Z.land_spec, Z.bits_0. destruct (Z.eq_dec n k) as [->|].
    + rewrite E. done.
    + rewrite Z.pow2_bits_false by lia. apply andb_false_r.
Qed.

(** ** Arrays

    A fixed-size array is a list; [find_index] is the loop that stops at the
    first index satisfying a test. *)
Section arrays.
Context {A : Type}.
Implicit Types (l : list A) (f : A -> bool).

Fixpoint find_index f l : option nat :=
  match l with
  | [] => None
  | x :: l' => if f x then Some O else S <$> find_index f l'
  end.

(** The number of elements that satisfy [f]. *)
Fixpoint countb f l : Z :=
  match l with
  | [] => 0
  | x :: l' => Z.b2z (f x) + countb f l'
  end.

Lemma find_index_Some f l i :
  find_index f l = Some i <->
  (exists x, l !! i = Some x /\ f x = true) /\
  (forall j y, (j < i)%nat -> l !! j = Some y -> f y = false).
Proof.
  revert i; induction l as [|x l IH]; intros i; simpl.
  - split; [done|]. intros [(x & Hx & _) _]. by rewrite lookup_nil in Hx.
  - destruct (f x) eqn:Hf.
    + split.
      * intros [= <-]. split; [by exists x|]. intros j y Hj. lia.
      * intros [_ H]. destruct i; [done|]. specialize (H O x). simpl in H.
        rewrite H in Hf by (lia || done). done.
    + rewrite fmap_Some. split.
      * intros (i' & Hi & ->). apply IH in Hi as [(y & ? & ?) Hlt]. split; [by exists y|].
        intros [|j] z Hj Hz; simpl in *; [congruence|]. eapply Hlt; [|done]. lia.
      * intros [(y & Hy & Hfy) H]. destruct i as [|i]; simpl in *; [congruence|].
        exists i. split; [|done]. apply IH. split; [by exists y|].
        intros j z Hj Hz. apply (H (S j)); [lia|done].
Qed.

Lemma find_index_None f l :
  find_index f l = None <-> forall i x, l !! i = Some x -> f x = false.
Proof.
  induction l as [|x l IH]; simpl.
  - split; [|done]. intros _ i y Hy. by rewrite lookup_nil in Hy.
  - destruct (f x) eqn:Hf.
    + split; [done|]. intros H. by rewrite (H O x) in Hf.
    + rewrite fmap_None, IH. split.
      * intros H [|i] y; simpl; [congruence|apply H].
      * intros H i y Hy. by apply (H (S i)).
Qed.

Lemma find_index_lt f l i : find_index f l = Some i -> (i < length l)%nat.
Proof.
  intros H. apply find_index_Some in H as [(x & Hx & _) _].
  by eapply lookup_lt_Some.
Qed.

Lemma countb_nonneg f l : 0 <= countb f l.
Proof. induction l; simpl; [lia|]. destruct (f a); simpl; lia. Qed.

Lemma countb_app f l k : countb f (l ++ k) = countb f l + countb f k.
Proof. induction l; simpl; lia. Qed.

Lemma countb_insert f l i x y :
  l !! i = Some x -> countb f (<[i:=y]> l) = countb f l - Z.b2z (f x) + Z.b2z (f y).
Proof.
  revert i; induction l as [|z l IH]; intros [|i] H; simpl in *; simplify_eq.
  - lia.
  - rewrite (IH _ H). lia.
Qed.

Lemma countb_ext f g l : (forall x, x ∈ l -> f x = g x) -> countb f l = countb g l.
Proof.
  induction l as [|x l IH]; intros H; simpl; [done|].
  rewrite (H x), IH; [done| |constructor]. intros y Hy. apply H. by constructor.
Qed.

Lemma countb_le_length f l : countb f l <= Z.of_nat (length l).
Proof. induction l as [|x l IH]; simpl; [lia|]. destruct (f x); simpl; lia. Qed.

End arrays.

Lemma countb_fmap {A B} (f : B -> bool) (h : A -> B) l :
  countb f (h <$> l) = countb (fun x => f (h x)) l.
Proof. induction l as [|x l IH]; [done|]. rewrite fmap_cons. cbn [countb]. by rewrite IH. Qed.

Lemma countb_update (f g : Z -> bool) l i :
  NoDup l -> i ∈ l -> (forall j, j ≠ i -> f j = g j) ->
  countb g l = countb f l - Z.b2z (f i) + Z.b2z (g i).
Proof.
  induction l as [|x l IH]; intros Hnd Hi Hfg; [by apply elem_of_nil in Hi|].
  apply NoDup_cons in Hnd as [Hx Hnd]. cbn [countb].
  destruct (decide (x = i)) as [->|Hne].
  - rewrite (countb_ext g f l); [lia|].
    intros y Hy. symmetry. apply Hfg. by intros ->.
  - apply elem_of_cons in Hi as [->|Hi]; [done|].
    rewrite (IH Hnd Hi Hfg), (Hfg x) by done. lia.
Qed.

Lemma countb_true_all {A} (f : A -> bool) l :
  countb f l = Z.of_nat (length l) <-> forall x, x ∈ l -> f x = true.
Proof.
  induction l as [|x l IH]; cbn [countb length].
  - split; [|done]. intros _ x Hx. by apply elem_of_nil in Hx.
  - pose proof (countb_le_length f l). split.
    + intros E y Hy. destruct (f x) eqn:Hf; cbn in E; [|lia].
      apply elem_of_cons in Hy as [->|Hy]; [done|]. apply IH; [lia|done].
    + intros Ha. rewrite (Ha x) by constructor. cbn.
      assert (countb f l = Z.of_nat (length l)) as ->; [|lia].
      apply IH. intros y Hy. apply Ha. by constructor.
Qed.

Lemma countb_false_all {A} (f : A -> bool) l :
  (forall x, x ∈ l -> f x = false) -> countb f l = 0.
Proof.
  induction l as [|x l IH]; intros H; cbn [countb]; [done|].
  rewrite (H x), IH by (constructor || (intros y Hy; apply H; by constructor)). done.
Qed.

(** Counting an interval. *)
Lemma countb_interval a b n :
  0 <= a <= b -> b <= n -> countb (fun i => (a <=? i) && (i <? b)) (seqZ 0 n) = b - a.
Proof.
  intros Hab Hn. replace n with (a + ((b - a) + (n - b))) by lia.
  rewrite !seqZ_app, !countb_app by lia.
  rewrite (countb_false_all _ (seqZ 0 a)), (countb_false_all _ (seqZ _ (n - b))).
  - rewrite (proj2 (countb_true_all _ (seqZ (0 + a) (b - a)))); [rewrite length_seqZ; lia|].
    intros x Hx%elem_of_seqZ. lia.
  - intros x Hx%elem_of_seqZ. lia.
  - intros x Hx%elem_of_seqZ. lia.
Qed.

(** The loop [for (i = start; i < start + n; ++i)] that stops at the first [i]
    satisfying [p]. *)
Fixpoint for_find (p : Z -> bool) (n : nat) (i : Z) : option Z :=
  match n with
  | O => None
  | S n' => if p i then Some i else for_find p n' (i + 1)
  end.

Lemma for_find_Some p n i k :
  for_find p n i = Some k <->
  i <= k < i + Z.of_nat n /\ p k = true /\ (forall j, i <= j < k -> p j = false).
Proof.
  revert i; induction n as [|n IH]; intros i; cbn [for_find]; [split; [done|lia]|].
  destruct (p i) eqn:Hp.
  - split.
    + intros [= <-]. split; [lia|]. split; [done|]. intros; lia.
    + intros (Hk & Hpk & Hlt). destruct (decide (i = k)) as [->|]; [done|].
      rewrite Hlt in Hp by lia. done.
  - rewrite IH. split; intros (Hk & Hpk & Hlt).
    + split; [lia|]. split; [done|]. intros j Hj.
      destruct (decide (j = i)) as [->|]; [done|]. apply Hlt. lia.
    + destruct (decide (i = k)) as [->|]; [congruence|].
      split; [lia|]. split; [done|]. intros j Hj. apply Hlt. lia.
Qed.

Lemma for_find_None p n i :
  for_find p n i = None <-> forall j, i <= j < i + Z.of_nat n -> p j = false.
Proof.
  revert i; induction n as [|n IH]; intros i; cbn [for_find].
  - split; [intros _ j Hj; lia|done].
  - destruct (p i) eqn:Hp.
    + split; [done|]. intros H. rewrite H in Hp by lia. done.
    + rewrite IH. split; intros H j Hj.
      * destruct (decide (j = i)) as [->|]; [done|]. apply H. lia.
      * apply H. lia.
Qed.

(** Reading a list of machine words at an index, 0 when out of range. *)
Definition word_at (l : list Z) (i : Z) : Z := nth (Z.to_nat i) l 0.

Lemma word_at_lookup l i x : l !! Z.to_nat i = Some x -> word_at l i = x.
Proof. intros H. unfold word_at. by rewrite (nth_lookup_Some _ _ _ _ H). Qed.

Lemma lookup_word_at l i :
  0 <= i < Z.of_nat (length l) -> l !! Z.to_nat i = Some (word_at l i).
Proof.
  intros Hi. destruct (lookup_lt_is_Some_2 l (Z.to_nat i)) as [x Hx]; [lia|].
  by rewrite (word_at_lookup _ _ _ Hx).
Qed.

Lemma word_at_insert l i j x :
  0 <= i < Z.of_nat (length l) -> 0 <= j ->
  word_at (<[Z.to_nat i:=x]> l) j = if decide (i = j) then x else word_at l j.
Proof.
  intros Hi Hj. case_decide as E.
  - subst. apply word_at_lookup. apply list_lookup_insert_eq. lia.
  - unfold word_at. rewrite !nth_lookup, list_lookup_insert_ne by lia. done.
Qed.

(** [alter] as an update of the element that is there. *)
Lemma alter_insert {A} (f : A -> A) i (l : list A) x : l !! i = Some x -> alter f i l = <[i := f x]> l.
Proof.
  intros Hx. apply list_eq. intros j. destruct (decide (i = j)) as [<-|].
  - rewrite list_lookup_alter_eq, Hx, list_lookup_insert_eq by (by eapply lookup_lt_Some). done.
  - by rewrite list_lookup_alter_ne, list_lookup_insert_ne.
Qed.

Lemma alter_fixed {A} (f : A -> A) i (l : list A) :
  (forall x, l !! i = Some x -> f x = x) -> alter f i l = l.
Proof.
  intros H. apply list_eq. intros j. destruct (decide (i = j)) as [<-|].
  - rewrite list_lookup_alter_eq. destruct (l !! i) as [x|] eqn:E; [|done]. simpl. by rewrite H.
  - by rewrite list_lookup_alter_ne.
Qed.

(** Quotients as bounds. *)
Lemma div_le_iff d f i : 0 < f -> d / f <= i <-> d < (i + 1) * f.
Proof.
  intros Hf. split; intros H.
  - pose proof (Z.mul_succ_div_gt d f Hf). nia.
  - apply Z.lt_succ_r, Z.div_lt_upper_bound; lia.
Qed.

Lemma le_div_iff d f i : 0 < f -> i <= d / f <-> i * f <= d.
Proof.
  intros Hf. split; intros H.
  - pose proof (Z.mul_div_le d f Hf). nia.
  - apply Z.div_le_lower_bound; lia.
Qed.

(** ** Power-of-two test, as written in both allocators. *)
Definition is_power_of_two (value : Z) : bool :=
  negb (value =? 0) && (Z.land value (value ⊖ 1) =? 0).

Lemma is_power_of_two_sound v :
  is_u64 v -> is_power_of_two v = true -> exists k, 0 <= k < 64 /\ v = 2 ^ k.
Proof.
  intros Hv H. unfold is_power_of_two in H.
  apply andb_true_iff in H as [H1 H2]. apply negb_true_iff, Z.eqb_neq in H1.
  apply Z.eqb_eq in H2. rewrite u64_small in H2 by word_lia.
  exists (Z.log2 v). assert (0 < v) as Hpos by (unfold is_u64 in Hv; lia).
  pose proof (Z.log2_spec v Hpos) as [Hlo Hhi].
  assert (0 <= Z.log2 v < 64) as Hl.
  { split; [apply Z.log2_nonneg|]. apply Z.log2_lt_pow2; unfold is_u64 in Hv; lia. }
  split; [done|]. destruct (Z.eq_dec v (2 ^ Z.log2 v)) as [|Hne]; [done|exfalso].
  assert (Z.testbit (Z.land v (v - 1)) (Z.log2 v) = true) as E.
  { rewrite Z.land_spec, Z.bit_log2 by done. simpl.
    replace (Z.log2 v) with (Z.log2 (v - 1)).
    - apply Z.bit_log2. lia.
    - apply Z.log2_unique; [apply Z.log2_nonneg|]. lia. }
  by rewrite H2, Z.bits_0 in E.
Qed.

(** ** Loops with a bound *)

(** At most [p] rounds of a loop body that goes on with [inl] and leaves with
    [inr]; binary, so that a large bound costs nothing when the loop is left. *)
Fixpoint iterate {S R : Type} (p : positive) (body : S -> S + R) (s : S) : S + R :=
  match p with
  | xH => body s
  | xO p' => match iterate p' body s with inl s => iterate p' body s | inr r => inr r end
  | xI p' =>
      match body s with
      | inl s => match iterate p' body s with inl s => iterate p' body s | inr r => inr r end
      | inr r => inr r
      end
  end.

(** The rounds are those of a loop. *)
Fixpoint repeat_body {S R : Type} (n : nat) (body : S -> S + R) (s : S) : S + R :=
  match n with
  | O => inl s
  | Datatypes.S n' => match body s with inl s => repeat_body n' body s | inr r => inr r end
  end.

Lemma repeat_body_add {S R : Type} n1 n2 (body : S -> S + R) : forall s,
  repeat_body (n1 + n2) body s = match repeat_body n1 body s with inl s => repeat_body n2 body s | inr r => inr r end.
Proof. induction n1 as [|n1 IH]; intros s; cbn [Nat.add repeat_body]; [done|]. by destruct (body s). Qed.

Lemma iterate_repeat {S R : Type} (p : positive) (body : S -> S + R) : forall s,
  iterate p body s = repeat_body (Pos.to_nat p) body s.
Proof.
  induction p as [p IH|p IH|]; intros s; cbn [iterate].
  - replace (Pos.to_nat p~1) with (Datatypes.S (Pos.to_nat p + Pos.to_nat p)) by lia. cbn [repeat_body].
    destruct (body s) as [s1|r]; [|done]. rewrite repeat_body_add, <- IH. destruct (iterate p body s1); [apply IH|done].
  - replace (Pos.to_nat p~0) with (Pos.to_nat p + Pos.to_nat p)%nat by lia. rewrite repeat_body_add, <- IH.
    destruct (iterate p body s); [apply IH|done].
  - change (Pos.to_nat 1) with 1%nat. cbn [repeat_body]. by destruct (body s).
Qed.

Lemma iterate_inr {S R : Type} (p : positive) (body : S -> S + R) : forall s r,
  iterate p body s = inr r -> exists s', body s' = inr r.
Proof.
  induction p as [p IH|p IH|]; intros s r; cbn [iterate].
  - destruct (body s) as [s1|r1] eqn:E; [|intros [= <-]; by exists s]. destruct (iterate p body s1) as [s2|r2] eqn:E2; [apply IH|].
    intros [= <-]. by apply (IH s1).
  - destruct (iterate p body s) as [s2|r2] eqn:E2; [apply IH|]. intros [= <-]. by apply (IH s).
  - by exists s.
Qed.
