(* ===== verification/Handles.v ===== *)
(** * Generation-tagged handles

    Every object table of the IPC layer hands out 64-bit handles of the form
    [(generation << 32) | (kind << 16) | (index + 1)] and checks them field by
    field (kernel/ipc/channel.cpp, event.cpp, shared_memory.cpp).  This file
    holds the arithmetic of that encoding and the generation counter; the
    components define their own [encode]/[decode] as the source does and use
    these lemmas. *)

From S2P Require Import Prelude.

Definition kIndexMask : Z := 0xFF.
Definition kKindMask : Z := Z.shiftl 0xFF 16.
Definition kMaximumGeneration : Z := 0x7FFFFFFF.

Definition next_generation (generation : Z) : Z :=
  if (generation =? 0) || (kMaximumGeneration <=? generation) then 1 else generation + 1.

(** A generation a live slot can carry. *)
Definition gen_ok (g : Z) : Prop := 1 <= g <= kMaximumGeneration.

Lemma next_generation_ok g : 0 <= g -> gen_ok (next_generation g).
Proof. unfold next_generation, gen_ok, kMaximumGeneration. repeat case_match; lia. Qed.

Lemma next_generation_ne g : 0 <= g -> next_generation g ≠ g.
Proof. unfold next_generation, kMaximumGeneration. repeat case_match; lia. Qed.

#[export] Hint Resolve next_generation_ok next_generation_ne : kuro.

(** The fields of a handle whose parts are in range; [k] is the byte-16 field
    with, for channels, the side flag as its ninth bit. *)
Section fields.
Context (g k low : Z).
Hypothesis Hg : 0 <= g < 2 ^ 32.
Hypothesis Hk : 0 <= k < 2 ^ 16.
Hypothesis Hl : 0 <= low < 2 ^ 8.

Definition handle_value : Z := g * 2 ^ 32 + k * 2 ^ 16 + low.

Lemma handle_lor :
  Z.lor (Z.lor (Z.shiftl g 32) (Z.shiftl k 16)) low = handle_value.
Proof.
  assert (0 <= k * 2 ^ 16 < 2 ^ 32) by lia.
  rewrite (Z.shiftl_mul_pow2 k), (lor_shift_add g) by lia.
  replace (g * 2 ^ 32 + k * 2 ^ 16) with ((g * 2 ^ 16 + k) * 2 ^ 16) by lia.
  rewrite <- Z.shiftl_mul_pow2, lor_shift_add by lia. unfold handle_value. lia.
Qed.

Lemma handle_index : Z.land handle_value kIndexMask = low.
Proof.
  change kIndexMask with (2 ^ 8 - 1). rewrite land_low by lia. unfold handle_value. zdm.
Qed.

Lemma handle_kind : Z.land handle_value kKindMask = Z.shiftl (k mod 256) 16.
Proof.
  unfold kKindMask. change 0xFF with (2 ^ 8 - 1). rewrite land_field by lia.
  rewrite Z.shiftl_mul_pow2 by lia. f_equal.
  replace (handle_value / 2 ^ 16) with (g * 2 ^ 16 + k) by (unfold handle_value; zdm).
  zdm.
Qed.

Lemma handle_side : Z.land handle_value (Z.shiftl 1 24) = Z.shiftl ((k / 256) mod 2) 24.
Proof.
  change 1 with (2 ^ 1 - 1) at 1. rewrite land_field by lia.
  rewrite Z.shiftl_mul_pow2 by lia. f_equal.
  replace (handle_value / 2 ^ 24) with (g * 2 ^ 8 + k / 256) by (unfold handle_value; zdm).
  zdm.
Qed.

Lemma handle_generation : u32 (Z.shiftr handle_value 32) = g.
Proof.
  rewrite Z.shiftr_div_pow2 by lia.
  replace (handle_value / 2 ^ 32) with g by (unfold handle_value; zdm).
  apply u32_small. done.
Qed.

Lemma handle_range : 0 <= handle_value < 2 ^ 64.
Proof. unfold handle_value. lia. Qed.

End fields.
