(* ===== verification/Ring.v ===== *)
(** * Circular buffers

    The message queues and the pending-connection queue of kernel/ipc/channel.cpp
    are arrays with a head, a tail and a count.  [ring_list] is the sequence
    such a buffer denotes; the lemmas say that storing at the tail appends to it
    and advancing the head drops its first element. *)

From S2P Require Import Prelude.

Section ring.
Context {A : Type} (d : A).
Implicit Types (buf : list A) (head tail count : nat).

Definition ring_list buf head count : list A :=
  (fun off => nth ((head + off) mod length buf) buf d) <$> seq 0 count.

Record ring_ok (cap : nat) buf head tail count : Prop := {
  ring_cap : length buf = cap;
  ring_pos : (0 < cap)%nat;
  ring_head : (head < cap)%nat;
  ring_count : (count <= cap)%nat;
  ring_tail : tail = ((head + count) mod cap)%nat;
}.

Lemma ring_list_length buf head count : length (ring_list buf head count) = count.
Proof. unfold ring_list. by rewrite length_fmap, length_seq. Qed.

Lemma ring_list_lookup buf head count off :
  (off < count)%nat ->
  ring_list buf head count !! off = Some (nth ((head + off) mod length buf) buf d).
Proof. intros H. unfold ring_list. by rewrite list_lookup_fmap, lookup_seq_lt. Qed.

(** Positions within one lap of the head are distinct. *)
Lemma ring_mod_ne cap head i j :
  (0 < cap)%nat -> (i < j < cap + i)%nat -> ((head + i) mod cap ≠ (head + j) mod cap)%nat.
Proof.
  intros Hc Hij E. pose proof (Nat.div_mod_eq (head + i) cap) as E1.
  pose proof (Nat.div_mod_eq (head + j) cap) as E2. rewrite E in E1.
  set (a := ((head + i) / cap)%nat) in *. set (b := ((head + j) / cap)%nat) in *.
  set (r := ((head + j) mod cap)%nat) in *. clearbody a b r.
  destruct (Nat.lt_trichotomy a b) as [H|[->|H]]; [|lia|]; nia.
Qed.

Lemma nth_insert_ne buf i j x : i ≠ j -> nth j (<[i := x]> buf) d = nth j buf d.
Proof. intros. rewrite !nth_lookup, list_lookup_insert_ne by done. done. Qed.

Lemma ring_mod_lt cap n : (0 < cap)%nat -> (n mod cap < cap)%nat.
Proof. intros. apply Nat.mod_upper_bound. lia. Qed.

(** Storing at the tail appends. *)
Lemma ring_push cap buf head tail count x :
  ring_ok cap buf head tail count -> (count < cap)%nat ->
  ring_ok cap (<[tail := x]> buf) head ((tail + 1) mod cap) (S count) /\
  ring_list (<[tail := x]> buf) head (S count) = ring_list buf head count ++ [x].
Proof.
  intros [Hcap Hpos Hhead Hcount Htail] Hc. split.
  - constructor; [by rewrite length_insert|lia..|]. rewrite Htail.
    rewrite Nat.Div0.add_mod_idemp_l. f_equal. lia.
  - apply list_eq_same_length with (n := S count);
      [by rewrite length_app, ring_list_length; simpl; lia|by rewrite ring_list_length|].
    intros off y z Hoff. rewrite ring_list_lookup by done. rewrite length_insert, Hcap.
    destruct (decide (off = count)) as [->|Hne].
    + rewrite <- Htail, lookup_app_r, ring_list_length, Nat.sub_diag by (rewrite ring_list_length; lia).
      rewrite nth_lookup, list_lookup_insert_eq
        by (rewrite Hcap; subst tail; by apply ring_mod_lt).
      simpl. congruence.
    + rewrite lookup_app_l, ring_list_lookup, Hcap by (rewrite ?ring_list_length; lia).
      rewrite nth_insert_ne; [congruence|]. rewrite Htail.
      intros E. symmetry in E. revert E. apply ring_mod_ne; lia.
Qed.

(** Clearing the head entry and advancing drops the first element. *)
Lemma ring_pop cap buf head tail count x :
  ring_ok cap buf head tail (S count) ->
  ring_ok cap (<[head := x]> buf) ((head + 1) mod cap) tail count /\
  ring_list buf head (S count) =
    nth head buf d :: ring_list (<[head := x]> buf) ((head + 1) mod cap) count.
Proof.
  intros [Hcap Hpos Hhead Hcount Htail]. split.
  - constructor; [by rewrite length_insert|done|by apply ring_mod_lt|lia|].
    rewrite Htail, Nat.Div0.add_mod_idemp_l. f_equal. lia.
  - apply list_eq_same_length with (n := S count);
      [by simpl; rewrite ring_list_length|by rewrite ring_list_length|].
    intros [|off] y z Hoff; rewrite ring_list_lookup by lia.
    + rewrite Nat.add_0_r, Hcap, Nat.mod_small by lia. simpl. congruence.
    + simpl. rewrite ring_list_lookup, length_insert, Hcap by lia.
      rewrite Nat.Div0.add_mod_idemp_l.
      replace (head + 1 + off)%nat with (head + S off)%nat by lia.
      rewrite nth_insert_ne; [congruence|].
      pose proof (ring_mod_ne cap head 0 (S off) Hpos) as H.
      rewrite !Nat.add_0_r, (Nat.mod_small head) in H by lia. apply H. lia.
Qed.

(** Advancing the head without clearing the entry. *)
Lemma ring_advance cap buf head tail count :
  ring_ok cap buf head tail (S count) ->
  ring_ok cap buf ((head + 1) mod cap) tail count /\
  ring_list buf head (S count) = nth head buf d :: ring_list buf ((head + 1) mod cap) count.
Proof.
  intros H. destruct (ring_pop cap buf head tail count (nth head buf d) H) as [H1 H2].
  rewrite list_insert_id in H1, H2; [done|..];
    apply nth_lookup_Some_2 || (rewrite nth_lookup; destruct H;
      destruct (lookup_lt_is_Some_2 buf head) as [y Hy]; [lia|by rewrite Hy]).
Qed.

(** A buffer written from its start. *)
Lemma ring_packed cap l pad :
  (0 < cap)%nat -> length (l ++ pad) = cap ->
  ring_ok cap (l ++ pad) 0 (length l mod cap) (length l) /\
  ring_list (l ++ pad) 0 (length l) = l.
Proof.
  intros Hpos Hlen. rewrite length_app in Hlen. split; [constructor; rewrite ?length_app; done || lia|].
  apply list_eq_same_length with (n := length l); [done|by rewrite ring_list_length|].
  intros off y z Hoff. rewrite ring_list_lookup by done.
  rewrite length_app, Hlen, Nat.mod_small, app_nth1 by lia. simpl.
  rewrite nth_lookup. intros [= <-] Hz. by rewrite Hz.
Qed.

Lemma ring_empty cap buf :
  length buf = cap -> (0 < cap)%nat -> ring_ok cap buf 0 0 0.
Proof. intros. constructor; [done|lia..|]. by rewrite Nat.Div0.mod_0_l. Qed.

End ring.
