(* ===== verification/FrameAllocator.v ===== *)
(** * The interface a frame allocator offers to its clients

    [kernel/ipc/shared_memory.cpp] and the page-table code only call
    [memory::alloc_frame] and [memory::free_frame].  The class below states what
    those two calls promise, over an arbitrary state type; the bitmap allocator
    of PhysicalMemory.v is an instance and the clients' theorems are proved
    against the class. *)

From S2P Require Import Prelude.

Class FrameAllocator (S : Type) := {
  fa_alloc : S -> S * Z;
  fa_free : S -> Z -> S;
  (** the allocator's own invariant *)
  fa_ok : S -> Prop;
  (** the addresses handed out and not yet returned *)
  fa_owned : S -> gset Z;

  fa_alloc_null : forall s s', fa_ok s -> fa_alloc s = (s', 0) -> s' = s;
  fa_alloc_fresh : forall s s' a, fa_ok s -> fa_alloc s = (s', a) -> a ≠ 0 ->
    fa_ok s' /\ (a ∉ fa_owned s) /\ fa_owned s' = {[a]} ∪ fa_owned s;
  fa_free_owned : forall s a, fa_ok s -> a ∈ fa_owned s ->
    fa_ok (fa_free s a) /\ fa_owned (fa_free s a) = fa_owned s ∖ {[a]};
  fa_owned_nonnull : forall s, fa_ok s -> 0 ∉ fa_owned s;

  (** frames have one size and are aligned to it, so that they do not overlap *)
  fa_frame_size : S -> Z;
  fa_alloc_size : forall s s' a, fa_ok s -> fa_alloc s = (s', a) -> fa_frame_size s' = fa_frame_size s;
  fa_free_size : forall s a, fa_ok s -> fa_frame_size (fa_free s a) = fa_frame_size s;
  fa_owned_aligned : forall s a, fa_ok s -> a ∈ fa_owned s -> is_u64 a /\ a mod fa_frame_size s = 0;
}.
