(* ===== verification/PhysicalMemory.v ===== *)
(** * The physical frame allocator (kernel/memory/physical_memory.cpp)

    The file-scope variables are the fields of [State]; [g_bitmap] is [None]
    when the C++ pointer is null and otherwise holds the bytes of the bitmap.
    Addresses are [Z] with 0 for [nullptr].  *)

From S2P Require Import Prelude FrameAllocator.

(** ** State and operations *)

Definition STATIC_BITMAP_BYTES : Z := 128 * 1024.

Record State := mkState {
  g_bitmap : option (list Z);
  g_bitmap_bytes : Z;
  g_base : Z;
  g_end : Z;
  g_frame_count : Z;
  g_frame_size : Z;
  g_used_frames : Z;
  g_reserved_frames : Z;
  g_bitmap_reserved_first : Z;
  g_bitmap_reserved_count : Z;
  g_zero_frame_reserved : bool;
}.

Definition reset_state : State := mkState None 0 0 0 0 4096 0 0 0 0 false.

Definition with_bitmap (s : State) (bm : list Z) (used : Z) : State :=
  mkState (Some bm) (g_bitmap_bytes s) (g_base s) (g_end s) (g_frame_count s)
    (g_frame_size s) used (g_reserved_frames s) (g_bitmap_reserved_first s)
    (g_bitmap_reserved_count s) (g_zero_frame_reserved s).

Definition bitmap (s : State) : list Z := default [] (g_bitmap s).

Definition bitmap_bit (s : State) (frame_index : Z) : bool :=
  negb (Z.land (word_at (bitmap s) (frame_index / 8))
          (u8 (Z.shiftl 1 (frame_index mod 8))) =? 0).

Definition set_bitmap_bit (bm : list Z) (frame_index : Z) : list Z :=
  <[Z.to_nat (frame_index / 8) :=
      Z.lor (word_at bm (frame_index / 8)) (u8 (Z.shiftl 1 (frame_index mod 8)))]> bm.

Definition clear_bitmap_bit (bm : list Z) (frame_index : Z) : list Z :=
  <[Z.to_nat (frame_index / 8) :=
      Z.land (word_at bm (frame_index / 8))
        (u8 (Z.lnot (u8 (Z.shiftl 1 (frame_index mod 8)))))]> bm.

Definition reserve_frame (s : State) (frame_index : Z) : State :=
  if negb (bitmap_bit s frame_index)
  then with_bitmap s (set_bitmap_bit (bitmap s) frame_index) (g_used_frames s ⊕ 1)
  else s.

Definition is_reserved_frame (s : State) (frame_index : Z) : bool :=
  if g_zero_frame_reserved s && (frame_index =? 0) then true
  else negb (g_bitmap_reserved_count s =? 0) &&
       (g_bitmap_reserved_first s <=? frame_index) &&
       (frame_index - g_bitmap_reserved_first s <? g_bitmap_reserved_count s).

(** [for (i = 0; i < g_bitmap_reserved_count; ++i) reserve_frame(first + i)] *)
Fixpoint reserve_frames (n : nat) (frame_index : Z) (s : State) : State :=
  match n with
  | O => s
  | S n' => reserve_frames n' (frame_index + 1) (reserve_frame s frame_index)
  end.

Definition with_reserved_range (s : State) (first count : Z) : State :=
  mkState (g_bitmap s) (g_bitmap_bytes s) (g_base s) (g_end s) (g_frame_count s)
    (g_frame_size s) (g_used_frames s) (g_reserved_frames s) first count
    (g_zero_frame_reserved s).

Definition with_zero_reserved (s : State) : State :=
  mkState (g_bitmap s) (g_bitmap_bytes s) (g_base s) (g_end s) (g_frame_count s)
    (g_frame_size s) (g_used_frames s) (g_reserved_frames s)
    (g_bitmap_reserved_first s) (g_bitmap_reserved_count s) true.

Definition with_reserved_frames (s : State) (n : Z) : State :=
  mkState (g_bitmap s) (g_bitmap_bytes s) (g_base s) (g_end s) (g_frame_count s)
    (g_frame_size s) (g_used_frames s) n (g_bitmap_reserved_first s)
    (g_bitmap_reserved_count s) (g_zero_frame_reserved s).

(** Lines 126-144: frames that overlap the bitmap's own storage. *)
Definition reserve_bitmap_storage (s : State) (bitmap_start bitmap_end : Z) : State :=
  let overlap_start := if g_base s <? bitmap_start then bitmap_start else g_base s in
  let overlap_end := if bitmap_end <? g_end s then bitmap_end else g_end s in
  if overlap_start <? overlap_end then
    let first := (overlap_start - g_base s) / g_frame_size s in
    let last_frame := ((overlap_end - 1) - g_base s) / g_frame_size s in
    let count := last_frame - first + 1 in
    reserve_frames (Z.to_nat count) first (with_reserved_range s first count)
  else s.

(** Lines 146-157: frame 0 of a range based at address 0. *)
Definition reserve_zero_frame (s : State) : State :=
  let s := if g_base s =? 0 then reserve_frame (with_zero_reserved s) 0 else s in
  let n := g_bitmap_reserved_count s in
  with_reserved_frames s
    (if g_zero_frame_reserved s &&
        negb (negb (g_bitmap_reserved_count s =? 0) && (g_bitmap_reserved_first s =? 0))
     then n + 1 else n).

(** [bitmap_storage] is the address of the storage, 0 for a null pointer. *)
Definition initialize (base size frame_size bitmap_storage bitmap_storage_size : Z)
  : State * bool :=
  if (bitmap_storage =? 0) || (frame_size =? 0) || negb (is_power_of_two frame_size) ||
     (UINTPTR_MAX <? frame_size) || negb (Z.land base (frame_size ⊖ 1) =? 0) ||
     (size <? frame_size)
  then (reset_state, false)
  else
  let frame_count := size / frame_size in
  if (frame_count =? 0) || (SIZE_MAX - 7 <? frame_count) then (reset_state, false) else
  let bitmap_bytes := (frame_count + 7) / 8 in
  if bitmap_storage_size <? bitmap_bytes then (reset_state, false) else
  let managed_size := frame_count ⊗ frame_size in
  if UINTPTR_MAX - base <? managed_size then (reset_state, false) else
  if UINTPTR_MAX - bitmap_storage <? bitmap_bytes then (reset_state, false) else
  let s := mkState (Some (replicate (Z.to_nat bitmap_bytes) 0)) bitmap_bytes base
             (base ⊕ managed_size) frame_count frame_size 0 0 0 0 false in
  (reserve_zero_frame
     (reserve_bitmap_storage s bitmap_storage (bitmap_storage + bitmap_bytes)), true).

(** [init_physical_memory] passes the address the linker gave [g_static_bitmap]. *)
Definition init_physical_memory (static_bitmap base size frame_size : Z) : State :=
  fst (initialize base size frame_size static_bitmap STATIC_BITMAP_BYTES).

Definition init_physical_memory_with_bitmap
    (base size frame_size bitmap_storage bitmap_storage_size : Z) : State * bool :=
  initialize base size frame_size bitmap_storage bitmap_storage_size.

Definition frame_index_for_address (s : State) (address : Z) : option Z :=
  match g_bitmap s with
  | None => None
  | Some _ =>
    if (address <? g_base s) || (g_end s <=? address) then None else
    let offset := address - g_base s in
    if negb (offset mod g_frame_size s =? 0) then None else
    let frame_index := offset / g_frame_size s in
    if frame_index <? g_frame_count s then Some frame_index else None
  end.

(** The body of both allocation loops once a clear bit has been found. *)
Definition take_frame (s : State) (i : Z) : State * Z :=
  (with_bitmap s (set_bitmap_bit (bitmap s) i) (g_used_frames s ⊕ 1),
   g_base s ⊕ (i ⊗ g_frame_size s)).

Definition alloc_frame (s : State) : State * Z :=
  match g_bitmap s with
  | None => (s, 0)
  | Some _ =>
    match for_find (fun i => negb (bitmap_bit s i)) (Z.to_nat (g_frame_count s)) 0 with
    | Some i => take_frame s i
    | None => (s, 0)
    end
  end.

(** The loop leaves through its [break] ([beyond]) or at a clear bit. *)
Definition alloc_frame_below (s : State) (exclusive_limit : Z) : State * Z :=
  match g_bitmap s with
  | None => (s, 0)
  | Some _ =>
    if (exclusive_limit <=? g_base s) || (exclusive_limit <? g_frame_size s) then (s, 0) else
    let address i := g_base s ⊕ (i ⊗ g_frame_size s) in
    let beyond i := (exclusive_limit <=? address i) ||
                    (exclusive_limit - address i <? g_frame_size s) in
    match for_find (fun i => beyond i || negb (bitmap_bit s i))
            (Z.to_nat (g_frame_count s)) 0 with
    | Some i => if beyond i then (s, 0) else take_frame s i
    | None => (s, 0)
    end
  end.

Definition try_free_frame (s : State) (frame : Z) : State * bool :=
  match frame_index_for_address s frame with
  | None => (s, false)
  | Some frame_index =>
    if is_reserved_frame s frame_index || negb (bitmap_bit s frame_index) then (s, false) else
    (with_bitmap s (clear_bitmap_bit (bitmap s) frame_index)
       (if 0 <? g_used_frames s then g_used_frames s - 1 else g_used_frames s), true)
  end.

Definition free_frame (s : State) (frame : Z) : State := fst (try_free_frame s frame).

Definition is_frame_allocated (s : State) (frame : Z) : bool :=
  match frame_index_for_address s frame with
  | None => false
  | Some frame_index => bitmap_bit s frame_index
  end.

Definition physical_memory_initialized (s : State) : bool :=
  match g_bitmap s with Some _ => true | None => false end.
Definition total_frames (s : State) : Z := g_frame_count s.
Definition used_frames (s : State) : Z := g_used_frames s.
Definition free_frames (s : State) : Z := g_frame_count s ⊖ g_used_frames s.
Definition reserved_frames (s : State) : Z := g_reserved_frames s.

(** ** Well-formed states

    [wf s] is the invariant of an initialised allocator: the bitmap has one bit
    per frame, the managed range does not wrap, the used counter is the number
    of set bits and every reserved frame is marked as used. *)

Definition frame_indices (s : State) : list Z := seqZ 0 (g_frame_count s).

Record wf_core (s : State) : Prop := {
  wf_init : is_Some (g_bitmap s);
  wf_bytes : Z.of_nat (length (bitmap s)) = (g_frame_count s + 7) / 8;
  wf_u8 : Forall is_u8 (bitmap s);
  wf_size : 0 < g_frame_size s;
  wf_base : 0 <= g_base s;
  wf_aligned : g_base s mod g_frame_size s = 0;
  wf_count : 0 < g_frame_count s;
  wf_end : g_end s = g_base s + g_frame_count s * g_frame_size s;
  wf_max : g_end s <= UINTPTR_MAX;
  wf_used : g_used_frames s = countb (bitmap_bit s) (frame_indices s);
}.

Record wf (s : State) : Prop := {
  wf_is_core : wf_core s;
  wf_reserved : forall i, 0 <= i < g_frame_count s -> is_reserved_frame s i = true ->
                  bitmap_bit s i = true;
  wf_zero : g_base s = 0 -> g_zero_frame_reserved s = true;
}.

(** The address of frame [i]. *)
Definition frame_addr (s : State) (i : Z) : Z := g_base s + i * g_frame_size s.

(** The same managed range and the same reservations. *)
Record same_range (s s' : State) : Prop := {
  sr_base : g_base s' = g_base s;
  sr_end : g_end s' = g_end s;
  sr_count : g_frame_count s' = g_frame_count s;
  sr_size : g_frame_size s' = g_frame_size s;
  sr_first : g_bitmap_reserved_first s' = g_bitmap_reserved_first s;
  sr_rcount : g_bitmap_reserved_count s' = g_bitmap_reserved_count s;
  sr_zero : g_zero_frame_reserved s' = g_zero_frame_reserved s;
}.

(** ** The bitmap *)

Lemma bitmap_bit_testbit s i :
  bitmap_bit s i = Z.testbit (word_at (bitmap s) (i / 8)) (i mod 8).
Proof.
  unfold bitmap_bit. pose proof (Z.mod_pos_bound i 8 ltac:(lia)).
  rewrite u8_small.
  - rewrite testbit_land_pow2 by lia. apply negb_involutive.
  - rewrite Z.shiftl_1_l. unfold is_u8. split; [lia|]. apply Z.pow_lt_mono_r; lia.
Qed.

Lemma u8_pow2 k : 0 <= k < 8 -> u8 (Z.shiftl 1 k) = 2 ^ k.
Proof.
  intros. rewrite Z.shiftl_1_l. apply u8_small. unfold is_u8.
  split; [lia|]. apply Z.pow_lt_mono_r; lia.
Qed.

Lemma with_bitmap_bit s bm u i :
  bitmap_bit (with_bitmap s bm u) i = Z.testbit (word_at bm (i / 8)) (i mod 8).
Proof. apply bitmap_bit_testbit. Qed.

Lemma length_set_bitmap_bit bm i : length (set_bitmap_bit bm i) = length bm.
Proof. apply length_insert. Qed.

Lemma length_clear_bitmap_bit bm i : length (clear_bitmap_bit bm i) = length bm.
Proof. apply length_insert. Qed.

Section bits.
Context (bm : list Z) (i : Z).
Hypothesis Hi : 0 <= i / 8 < Z.of_nat (length bm).

Lemma set_bitmap_bit_spec j :
  0 <= j -> Z.testbit (word_at (set_bitmap_bit bm i) (j / 8)) (j mod 8) =
            (i =? j) || Z.testbit (word_at bm (j / 8)) (j mod 8).
Proof.
  intros Hj. unfold set_bitmap_bit.
  pose proof (Z.mod_pos_bound i 8 ltac:(lia)). pose proof (Z.mod_pos_bound j 8 ltac:(lia)).
  rewrite word_at_insert by zdm. rewrite u8_pow2 by lia. case_decide as E.
  - rewrite Z.lor_spec, <- E, orb_comm. f_equal.
    destruct (Z.eqb_spec i j) as [->|Hne].
    + apply Z.pow2_bits_true. lia.
    + apply Z.pow2_bits_false. zdm.
  - destruct (Z.eqb_spec i j) as [->|]; done.
Qed.

Lemma clear_bitmap_bit_spec j :
  0 <= j -> Z.testbit (word_at (clear_bitmap_bit bm i) (j / 8)) (j mod 8) =
            negb (i =? j) && Z.testbit (word_at bm (j / 8)) (j mod 8).
Proof.
  intros Hj. unfold clear_bitmap_bit.
  pose proof (Z.mod_pos_bound i 8 ltac:(lia)). pose proof (Z.mod_pos_bound j 8 ltac:(lia)).
  rewrite word_at_insert by zdm. rewrite u8_pow2 by lia. case_decide as E.
  - rewrite Z.land_spec, <- E, andb_comm. f_equal.
    unfold u8. rewrite Z.mod_pow2_bits_low, Z.lnot_spec by lia. f_equal.
    destruct (Z.eqb_spec i j) as [->|Hne].
    + apply Z.pow2_bits_true. lia.
    + apply Z.pow2_bits_false. zdm.
  - destruct (Z.eqb_spec i j) as [->|]; done.
Qed.

Lemma word_at_u8 k : Forall is_u8 bm -> 0 <= k < Z.of_nat (length bm) -> is_u8 (word_at bm k).
Proof. intros HF Hk. rewrite Forall_lookup in HF. by eapply HF, lookup_word_at. Qed.

Lemma set_bitmap_bit_u8 : Forall is_u8 bm -> Forall is_u8 (set_bitmap_bit bm i).
Proof.
  intros HF. apply Forall_insert; [done|].
  pose proof (Z.mod_pos_bound i 8 ltac:(lia)). pose proof (word_at_u8 _ HF Hi) as Hw.
  rewrite u8_pow2 by lia. unfold is_u8 in *. split.
  - apply Z.lor_nonneg. lia.
  - destruct (decide (Z.lor (word_at bm (i / 8)) (2 ^ (i mod 8)) = 0)) as [->|]; [lia|].
    apply Z.log2_lt_pow2.
    + assert (0 <= Z.lor (word_at bm (i / 8)) (2 ^ (i mod 8))) by (apply Z.lor_nonneg; lia). lia.
    + rewrite Z.log2_lor, Z.log2_pow2 by lia. apply Z.max_lub_lt; [|lia].
      destruct (decide (word_at bm (i / 8) = 0)) as [->|]; [done|].
      apply Z.log2_lt_pow2; lia.
Qed.

Lemma clear_bitmap_bit_u8 : Forall is_u8 bm -> Forall is_u8 (clear_bitmap_bit bm i).
Proof.
  intros HF. apply Forall_insert; [done|]. apply land_range; [lia|]. by apply word_at_u8.
Qed.

End bits.

(** ** Setting and clearing one bit of a well-formed state *)

#[export] Hint Resolve wf_is_core : kuro.

Lemma frame_byte_in_range s i :
  wf_core s -> 0 <= i < g_frame_count s -> 0 <= i / 8 < Z.of_nat (length (bitmap s)).
Proof. intros Hwf Hi. rewrite (wf_bytes _ Hwf). zdm. Qed.

Lemma used_range s : wf_core s -> 0 <= g_used_frames s <= g_frame_count s.
Proof.
  intros Hwf. rewrite (wf_used _ Hwf). pose proof (wf_count _ Hwf).
  split; [apply countb_nonneg|].
  pose proof (countb_le_length (bitmap_bit s) (frame_indices s)) as H1.
  unfold frame_indices in *. rewrite length_seqZ in H1. lia.
Qed.

Lemma count_max s : wf_core s -> g_frame_count s <= UINTPTR_MAX.
Proof.
  intros Hwf. pose proof (wf_end _ Hwf). pose proof (wf_max _ Hwf).
  pose proof (wf_size _ Hwf). pose proof (wf_base _ Hwf). pose proof (wf_count _ Hwf). nia.
Qed.

Lemma used_lt_count s i :
  wf_core s -> 0 <= i < g_frame_count s -> bitmap_bit s i = false ->
  g_used_frames s < g_frame_count s.
Proof.
  intros Hwf Hi Hb. pose proof (used_range _ Hwf) as Hu. rewrite (wf_used _ Hwf) in *.
  destruct (decide (countb (bitmap_bit s) (frame_indices s) = g_frame_count s)) as [E|]; [|lia].
  exfalso. assert (bitmap_bit s i = true); [|congruence].
  apply (proj1 (countb_true_all (bitmap_bit s) (frame_indices s))).
  - unfold frame_indices in *. rewrite length_seqZ. lia.
  - unfold frame_indices. apply elem_of_seqZ. lia.
Qed.

Lemma used_pos s i :
  wf_core s -> 0 <= i < g_frame_count s -> bitmap_bit s i = true -> 0 < g_used_frames s.
Proof.
  intros Hwf Hi Hb. rewrite (wf_used _ Hwf).
  set (f := fun j => if decide (j = i) then false else bitmap_bit s j).
  rewrite (countb_update f (bitmap_bit s) _ i).
  - unfold f at 2. rewrite decide_True, Hb by done.
    pose proof (countb_nonneg f (frame_indices s)). simpl. lia.
  - apply NoDup_seqZ.
  - apply elem_of_seqZ. lia.
  - intros j Hj. unfold f. by rewrite decide_False.
Qed.

Lemma with_bitmap_core s bm u i (b : bool) :
  wf_core s -> 0 <= i < g_frame_count s ->
  length bm = length (bitmap s) -> Forall is_u8 bm ->
  (forall j, 0 <= j -> bitmap_bit (with_bitmap s bm u) j =
                       if decide (j = i) then b else bitmap_bit s j) ->
  u = g_used_frames s - Z.b2z (bitmap_bit s i) + Z.b2z b ->
  wf_core (with_bitmap s bm u).
Proof.
  intros Hwf Hi Hlen HF Hbit Hu. destruct Hwf.
  constructor; simpl; try done.
  - change (bitmap (with_bitmap s bm u)) with bm. by rewrite Hlen.
  - rewrite Hu, wf_used0. unfold frame_indices. simpl.
    rewrite (countb_ext (bitmap_bit (with_bitmap s bm u))
      (fun j => if decide (j = i) then b else bitmap_bit s j)).
    2: { intros j Hj. apply Hbit. apply elem_of_seqZ in Hj. lia. }
    rewrite (countb_update (bitmap_bit s)
      (fun j => if decide (j = i) then b else bitmap_bit s j) _ i).
    + cbv beta. by rewrite decide_True.
    + apply NoDup_seqZ.
    + apply elem_of_seqZ. lia.
    + intros j Hj. cbv beta. by rewrite decide_False.
Qed.

Section one_bit.
Context (s : State) (i : Z).
Hypothesis Hwf : wf_core s.
Hypothesis Hi : 0 <= i < g_frame_count s.

Lemma set_bit_at u j :
  0 <= j -> bitmap_bit (with_bitmap s (set_bitmap_bit (bitmap s) i) u) j =
            if decide (j = i) then true else bitmap_bit s j.
Proof.
  intros Hj. rewrite with_bitmap_bit, set_bitmap_bit_spec, <- bitmap_bit_testbit
    by (done || by apply frame_byte_in_range).
  case_decide as E; [subst; by rewrite Z.eqb_refl|].
  destruct (Z.eqb_spec i j); [lia|done].
Qed.

Lemma clear_bit_at u j :
  0 <= j -> bitmap_bit (with_bitmap s (clear_bitmap_bit (bitmap s) i) u) j =
            if decide (j = i) then false else bitmap_bit s j.
Proof.
  intros Hj. rewrite with_bitmap_bit, clear_bitmap_bit_spec, <- bitmap_bit_testbit
    by (done || by apply frame_byte_in_range).
  case_decide as E; [subst; by rewrite Z.eqb_refl|].
  destruct (Z.eqb_spec i j); [lia|done].
Qed.

Lemma set_bit_core :
  bitmap_bit s i = false ->
  wf_core (with_bitmap s (set_bitmap_bit (bitmap s) i) (g_used_frames s ⊕ 1)).
Proof.
  intros Hb. pose proof (used_lt_count _ _ Hwf Hi Hb). pose proof (used_range _ Hwf).
  pose proof (count_max _ Hwf).
  apply (with_bitmap_core _ _ _ i true); try done.
  - apply length_insert.
  - apply set_bitmap_bit_u8; [by apply frame_byte_in_range|apply Hwf].
  - intros j Hj. by apply set_bit_at.
  - rewrite Hb, u64_small by word_lia. simpl. lia.
Qed.

Lemma clear_bit_core :
  bitmap_bit s i = true ->
  wf_core (with_bitmap s (clear_bitmap_bit (bitmap s) i)
    (if 0 <? g_used_frames s then g_used_frames s - 1 else g_used_frames s)).
Proof.
  intros Hb. pose proof (used_range _ Hwf).
  pose proof (used_pos _ _ Hwf Hi Hb) as Hpos.
  apply (with_bitmap_core _ _ _ i false); try done.
  - apply length_insert.
  - apply clear_bitmap_bit_u8; [by apply frame_byte_in_range|apply Hwf].
  - intros j Hj. by apply clear_bit_at.
  - rewrite Hb. destruct (Z.ltb_spec 0 (g_used_frames s)); simpl; lia.
Qed.

End one_bit.

(** ** Addresses *)

Lemma frame_addr_range s i :
  wf_core s -> 0 <= i < g_frame_count s ->
  g_base s <= frame_addr s i /\ frame_addr s i + g_frame_size s <= g_end s.
Proof.
  intros Hwf Hi. unfold frame_addr. rewrite (wf_end _ Hwf).
  pose proof (wf_size _ Hwf). pose proof (wf_base _ Hwf). nia.
Qed.

Lemma frame_addr_word s i :
  wf_core s -> 0 <= i < g_frame_count s ->
  g_base s ⊕ (i ⊗ g_frame_size s) = frame_addr s i.
Proof.
  intros Hwf Hi. destruct (frame_addr_range s i Hwf Hi) as [H1 H2].
  pose proof (wf_max _ Hwf). pose proof (wf_size _ Hwf). pose proof (wf_base _ Hwf).
  unfold frame_addr in *. rewrite (u64_small (i * _)) by (word_unfold; nia).
  apply u64_small. word_lia.
Qed.

Lemma frame_addr_inj s i j :
  0 < g_frame_size s -> frame_addr s i = frame_addr s j -> i = j.
Proof. unfold frame_addr. nia. Qed.

Lemma frame_index_frame_addr s i :
  wf_core s -> 0 <= i < g_frame_count s ->
  frame_index_for_address s (frame_addr s i) = Some i.
Proof.
  intros Hwf Hi. unfold frame_index_for_address.
  destruct (frame_addr_range s i Hwf Hi). pose proof (wf_size _ Hwf).
  destruct (wf_init _ Hwf) as [bm ->].
  replace (frame_addr s i - g_base s) with (i * g_frame_size s)
    by (unfold frame_addr; lia).
  rewrite Z.mod_mul, Z.div_mul by lia. simpl.
  repeat case_match; try done; lia.
Qed.

Lemma frame_index_Some s a i :
  wf_core s -> frame_index_for_address s a = Some i ->
  0 <= i < g_frame_count s /\ a = frame_addr s i.
Proof.
  intros Hwf H. unfold frame_index_for_address in H. pose proof (wf_size _ Hwf).
  destruct (wf_init _ Hwf) as [bm Hbm]. rewrite Hbm in H.
  repeat case_match; simplify_eq/=. split.
  - split; [|lia]. apply Z.div_pos; lia.
  - unfold frame_addr. pose proof (Z.div_mod (a - g_base s) (g_frame_size s)). lia.
Qed.

(** A frame that is not reserved never lies at address 0. *)
Lemma frame_addr_nonnull s i :
  wf s -> 0 <= i < g_frame_count s -> is_reserved_frame s i = false -> frame_addr s i ≠ 0.
Proof.
  intros Hwf Hi Hr E. pose proof (wf_is_core _ Hwf) as Hc.
  pose proof (wf_size _ Hc). pose proof (wf_base _ Hc). unfold frame_addr in E.
  assert (g_base s = 0 /\ i = 0) as [Hb ->] by nia.
  unfold is_reserved_frame in Hr. by rewrite (wf_zero _ Hwf Hb) in Hr.
Qed.

Lemma clear_not_reserved s i :
  wf s -> 0 <= i < g_frame_count s -> bitmap_bit s i = false -> is_reserved_frame s i = false.
Proof.
  intros Hwf Hi Hb. destruct (is_reserved_frame s i) eqn:E; [|done].
  by rewrite (wf_reserved _ Hwf i Hi E) in Hb.
Qed.

(** ** The effect of taking and releasing a frame *)

(** [s'] is [s] with the bit of frame [i] set to [b]. *)
Record bit_changed (s s' : State) (i : Z) (b : bool) : Prop := {
  bc_wf : wf s';
  bc_range : same_range s s';
  bc_bits : forall j, 0 <= j -> bitmap_bit s' j = if decide (j = i) then b else bitmap_bit s j;
  bc_used : g_used_frames s' = g_used_frames s - Z.b2z (bitmap_bit s i) + Z.b2z b;
}.

Lemma same_range_refl s : same_range s s.
Proof. by constructor. Qed.

Lemma same_range_with_bitmap s bm u : same_range s (with_bitmap s bm u).
Proof. by constructor. Qed.

#[export] Hint Resolve same_range_refl same_range_with_bitmap : kuro.

Lemma is_reserved_same s s' i : same_range s s' -> is_reserved_frame s' i = is_reserved_frame s i.
Proof.
  intros H. unfold is_reserved_frame.
  by rewrite (sr_first _ _ H), (sr_rcount _ _ H), (sr_zero _ _ H).
Qed.

Lemma frame_addr_same s s' i : same_range s s' -> frame_addr s' i = frame_addr s i.
Proof. intros H. unfold frame_addr. by rewrite (sr_base _ _ H), (sr_size _ _ H). Qed.

Lemma take_frame_spec s i s' a :
  wf s -> 0 <= i < g_frame_count s -> bitmap_bit s i = false -> take_frame s i = (s', a) ->
  a = frame_addr s i /\ a ≠ 0 /\ bit_changed s s' i true.
Proof.
  intros Hwf Hi Hb [= <- <-]. pose proof (wf_is_core _ Hwf) as Hc.
  pose proof (clear_not_reserved _ _ Hwf Hi Hb) as Hr.
  pose proof (used_lt_count _ _ Hc Hi Hb). pose proof (used_range _ Hc). pose proof (count_max _ Hc).
  rewrite frame_addr_word by done. split; [done|]. split; [by apply frame_addr_nonnull|].
  assert (forall j, 0 <= j -> bitmap_bit (with_bitmap s (set_bitmap_bit (bitmap s) i)
    (g_used_frames s ⊕ 1)) j = if decide (j = i) then true else bitmap_bit s j) as Hbits
    by (intros; by apply set_bit_at).
  split; [|auto with kuro|done|simpl; rewrite Hb, u64_small by word_lia; simpl; lia].
  split; [by apply set_bit_core| |apply Hwf].
  intros j Hj Hrj. rewrite Hbits by lia. case_decide; [done|]. by apply (wf_reserved _ Hwf).
Qed.

Lemma try_free_spec s i :
  wf s -> 0 <= i < g_frame_count s -> bitmap_bit s i = true -> is_reserved_frame s i = false ->
  exists s', try_free_frame s (frame_addr s i) = (s', true) /\ bit_changed s s' i false.
Proof.
  intros Hwf Hi Hb Hr. pose proof (wf_is_core _ Hwf) as Hc. unfold try_free_frame.
  rewrite frame_index_frame_addr, Hb, Hr by done. simpl. eexists; split; [done|].
  pose proof (clear_bit_core s i Hc Hi Hb) as Hc'.
  assert (forall u j, 0 <= j -> bitmap_bit (with_bitmap s (clear_bitmap_bit (bitmap s) i) u) j =
    if decide (j = i) then false else bitmap_bit s j) as Hbits by (intros; by apply clear_bit_at).
  pose proof (used_pos _ _ Hc Hi Hb) as Hpos.
  split; [|auto with kuro|intros; by apply Hbits|].
  - split; [done| |apply Hwf]. intros j Hj Hrj. rewrite Hbits by lia.
    case_decide; [subst|by apply (wf_reserved _ Hwf)].
    change (is_reserved_frame s i = true) in Hrj. congruence.
  - simpl. rewrite Hb. destruct (Z.ltb_spec 0 (g_used_frames s)); simpl; lia.
Qed.

(** ** Initialisation *)

Lemma reserve_frame_core s i :
  wf_core s -> 0 <= i < g_frame_count s ->
  wf_core (reserve_frame s i) /\ same_range s (reserve_frame s i) /\
  (forall j, 0 <= j -> bitmap_bit (reserve_frame s i) j = (j =? i) || bitmap_bit s j).
Proof.
  intros Hwf Hi. unfold reserve_frame. destruct (bitmap_bit s i) eqn:Hb; simpl.
  - split; [done|]. split; [auto with kuro|]. intros j Hj.
    destruct (Z.eqb_spec j i) as [->|]; [by rewrite Hb|done].
  - split; [by apply set_bit_core|]. split; [auto with kuro|]. intros j Hj.
    rewrite set_bit_at by done. case_decide; destruct (Z.eqb_spec j i); done || lia.
Qed.

Lemma same_range_trans s1 s2 s3 : same_range s1 s2 -> same_range s2 s3 -> same_range s1 s3.
Proof. intros [] []. constructor; congruence. Qed.

Lemma reserve_frames_core n : forall s i,
  wf_core s -> 0 <= i -> i + Z.of_nat n <= g_frame_count s ->
  wf_core (reserve_frames n i s) /\ same_range s (reserve_frames n i s) /\
  (forall j, 0 <= j -> bitmap_bit (reserve_frames n i s) j =
                       ((i <=? j) && (j <? i + Z.of_nat n)) || bitmap_bit s j).
Proof.
  induction n as [|n IH]; intros s i Hwf Hi Hn; cbn [reserve_frames].
  - split; [done|]. split; [auto with kuro|]. intros j Hj.
    destruct (bitmap_bit s j); lia.
  - destruct (reserve_frame_core s i Hwf) as (Hw & Hr & Hb); [lia|].
    destruct (IH (reserve_frame s i) (i + 1)) as (Hw' & Hr' & Hb'); [done|lia| |].
    { rewrite (sr_count _ _ Hr). lia. }
    split; [done|]. split; [by eapply same_range_trans|].
    intros j Hj. rewrite Hb', Hb by done. destruct (bitmap_bit s j); lia.
Qed.

(** The frames the allocator keeps for itself: those that intersect the bitmap
    storage [b_start, b_end), and frame 0 of a range based at address 0. *)
Definition must_reserve (s : State) (b_start b_end i : Z) : Prop :=
  (frame_addr s i < b_end /\ b_start < frame_addr s i + g_frame_size s) \/
  (g_base s = 0 /\ i = 0).

(** An initialised state whose bits are exactly the reserved frames. *)
Definition bits_are_reserved (s : State) : Prop :=
  forall i, 0 <= i < g_frame_count s -> bitmap_bit s i = is_reserved_frame s i.

(** What [reserve_bitmap_storage] establishes. *)
Record storage_reserved (s s' : State) (b_start b_end : Z) : Prop := {
  st_core : wf_core s';
  st_bits : bits_are_reserved s';
  st_base : g_base s' = g_base s;
  st_size : g_frame_size s' = g_frame_size s;
  st_count : g_frame_count s' = g_frame_count s;
  st_zero : g_zero_frame_reserved s' = false;
  st_first : 0 <= g_bitmap_reserved_first s';
  st_rcount : 0 <= g_bitmap_reserved_count s';
  st_last : g_bitmap_reserved_first s' + g_bitmap_reserved_count s' <= g_frame_count s';
  st_reserved : forall i, 0 <= i < g_frame_count s -> is_reserved_frame s' i = true <->
    frame_addr s i < b_end /\ b_start < frame_addr s i + g_frame_size s;
}.

Section storage.
Context (s : State) (b_start b_end : Z).
Hypothesis Hwf : wf_core s.
Hypothesis Hb : b_start < b_end.
Hypothesis Hz : g_zero_frame_reserved s = false.
Hypothesis Hc : g_bitmap_reserved_count s = 0.
Hypothesis Hf : g_bitmap_reserved_first s = 0.
Hypothesis Hclear : forall i, 0 <= i < g_frame_count s -> bitmap_bit s i = false.

Lemma reserve_range_spec first last :
  0 <= first -> first <= last -> last < g_frame_count s ->
  (forall i, 0 <= i < g_frame_count s -> first <= i <= last <->
     frame_addr s i < b_end /\ b_start < frame_addr s i + g_frame_size s) ->
  storage_reserved s
    (reserve_frames (Z.to_nat (last - first + 1)) first
       (with_reserved_range s first (last - first + 1))) b_start b_end.
Proof.
  intros Hf0 Hfl Hll Hiff.
  assert (wf_core (with_reserved_range s first (last - first + 1))) as Hwf'
    by (destruct Hwf; by constructor).
  destruct (reserve_frames_core (Z.to_nat (last - first + 1)) _ first Hwf')
    as (Hw & Hr & Hbits); [done|simpl; lia|].
  set (s' := reserve_frames _ _ _) in *.
  assert (forall i, is_reserved_frame s' i = (first <=? i) && (i <=? last)) as Hres.
  { intros i. rewrite (is_reserved_same _ _ _ Hr). unfold is_reserved_frame. simpl.
    rewrite Hz. simpl. lia. }
  destruct Hr; simpl in *. split; try congruence || lia.
  - intros i Hi. rewrite Hbits, Hres by lia.
    change (bitmap_bit (with_reserved_range _ _ _) i) with (bitmap_bit s i).
    rewrite Hclear by lia. lia.
  - intros i Hi. rewrite Hres, <- Hiff by done. lia.
Qed.

Lemma reserve_bitmap_storage_spec :
  storage_reserved s (reserve_bitmap_storage s b_start b_end) b_start b_end.
Proof.
  unfold reserve_bitmap_storage.
  pose proof (wf_size _ Hwf) as Hfs. pose proof (wf_end _ Hwf) as Hend.
  pose proof (wf_count _ Hwf) as Hcnt.
  set (lo := if g_base s <? b_start then b_start else g_base s).
  set (hi := if b_end <? g_end s then b_end else g_end s).
  assert (lo = Z.max b_start (g_base s)) as Hlo by (unfold lo; case_match; lia).
  assert (hi = Z.min b_end (g_end s)) as Hhi by (unfold hi; case_match; lia).
  destruct (Z.ltb_spec lo hi) as [Hlt|Hge].
  - apply reserve_range_spec.
    + apply Z.div_pos; lia.
    + apply Z.div_le_mono; lia.
    + apply Z.div_lt_upper_bound; lia.
    + intros i Hi. rewrite div_le_iff, le_div_iff by done. unfold frame_addr. nia.
  - assert (forall i, is_reserved_frame s i = false) as Hres.
    { intros i. unfold is_reserved_frame. by rewrite Hz, Hc. }
    split; try done; try lia.
    + intros i Hi. by rewrite Hclear, Hres.
    + intros i Hi. rewrite Hres. split; [done|].
      pose proof (frame_addr_range s i Hwf Hi). lia.
Qed.

End storage.

Lemma bits_reserved_wf s :
  wf_core s -> bits_are_reserved s -> (g_base s = 0 -> g_zero_frame_reserved s = true) -> wf s.
Proof. intros Hc Hb Hz. split; [done| |done]. intros i Hi Hr. by rewrite Hb. Qed.

(** [reserve_zero_frame] completes the reservation and counts it. *)
Lemma reserve_zero_frame_spec s s1 b_start b_end :
  storage_reserved s s1 b_start b_end ->
  let s' := reserve_zero_frame s1 in
  wf s' /\ bits_are_reserved s' /\ g_base s' = g_base s /\
  g_frame_size s' = g_frame_size s /\ g_frame_count s' = g_frame_count s /\
  (forall i, 0 <= i < g_frame_count s' ->
     is_reserved_frame s' i = true <-> must_reserve s' b_start b_end i) /\
  g_reserved_frames s' = countb (is_reserved_frame s') (frame_indices s').
Proof.
  intros [Hc Hbits Hba Hfs Hcnt Hz Hf Hrc Hl Hres]. unfold reserve_zero_frame.
  pose proof (wf_count _ Hc) as Hpos.
  assert (countb (is_reserved_frame s1) (frame_indices s1) = g_bitmap_reserved_count s1) as Hn.
  { rewrite (countb_ext _ (fun i => (g_bitmap_reserved_first s1 <=? i) && (i <?
      g_bitmap_reserved_first s1 + g_bitmap_reserved_count s1))).
    - unfold frame_indices. rewrite countb_interval; lia.
    - intros i _. unfold is_reserved_frame. rewrite Hz. simpl. lia. }
  destruct (Z.eqb_spec (g_base s1) 0) as [E0|E0].
  - assert (wf_core (with_zero_reserved s1)) as Hc1 by (destruct Hc; by constructor).
    destruct (reserve_frame_core _ 0 Hc1) as (Hw & Hr & Hb); [simpl; lia|].
    set (s2 := reserve_frame _ _) in *.
    assert (forall i, is_reserved_frame s2 i = (i =? 0) || is_reserved_frame s1 i) as Hres2.
    { intros i. rewrite (is_reserved_same _ _ _ Hr). unfold is_reserved_frame. simpl.
      rewrite Hz. simpl. by destruct (i =? 0). }
    destruct Hr; simpl in *.
    assert (bits_are_reserved s2) as Hbits2.
    { intros i Hi. rewrite Hb, Hres2 by lia.
      change (bitmap_bit (with_zero_reserved s1) i) with (bitmap_bit s1 i).
      rewrite Hbits by lia. done. }
    split; [apply bits_reserved_wf; [destruct Hw; by constructor|done|done]|].
    split; [done|]. repeat (split; [congruence|]). split.
    + intros i Hi. change (is_reserved_frame (with_reserved_frames s2 _) i) with
        (is_reserved_frame s2 i). rewrite Hres2. unfold must_reserve, frame_addr in *. simpl.
      rewrite orb_true_iff, Hres, Z.eqb_eq by lia.
      replace (g_base s2) with (g_base s) by congruence.
      replace (g_frame_size s2) with (g_frame_size s) by congruence.
      rewrite <- Hba, E0. tauto.
    + change (countb (is_reserved_frame (with_reserved_frames s2 _)) _) with
        (countb (is_reserved_frame s2) (frame_indices s2)).
      rewrite (countb_update (is_reserved_frame s1) (is_reserved_frame s2) _ 0).
      * unfold frame_indices in *. rewrite sr_count0, Hn, Hres2. simpl.
        unfold is_reserved_frame. rewrite sr_zero0, sr_first0, sr_rcount0, Hz. simpl.
        repeat case_match; simpl; lia.
      * apply NoDup_seqZ.
      * apply elem_of_seqZ. lia.
      * intros i Hi. rewrite Hres2. by destruct (Z.eqb_spec i 0).
  - split; [apply bits_reserved_wf; [destruct Hc; by constructor|done|done]|].
    split; [done|]. repeat (split; [done|]). split.
    + intros i Hi. change (is_reserved_frame (with_reserved_frames s1 _) i) with
        (is_reserved_frame s1 i). unfold must_reserve, frame_addr in *. simpl in *.
      rewrite Hres by lia. rewrite Hba, Hfs in *. tauto.
    + rewrite Hz. simpl. by rewrite <- Hn.
Qed.

(** The state [initialize] builds before reserving anything. *)
Lemma initial_bitmap_core base frame_size frame_count bytes :
  0 <= base -> 0 < frame_size -> base mod frame_size = 0 -> 0 < frame_count ->
  bytes = (frame_count + 7) / 8 -> base + frame_count * frame_size <= UINTPTR_MAX ->
  let s := mkState (Some (replicate (Z.to_nat bytes) 0)) bytes base
             (base + frame_count * frame_size) frame_count frame_size 0 0 0 0 false in
  wf_core s /\ (forall i, 0 <= i < frame_count -> bitmap_bit s i = false).
Proof.
  intros Hb Hfs Hal Hc Hbytes Hmax. cbn zeta. set (s := mkState _ _ _ _ _ _ _ _ _ _ _).
  assert (forall i, bitmap_bit s i = false) as Hclear.
  { intros i. rewrite bitmap_bit_testbit. unfold s, bitmap, word_at. simpl.
    rewrite nth_lookup. destruct (replicate _ 0 !! _) eqn:E; [|apply Z.bits_0].
    apply lookup_replicate in E as [-> _]. apply Z.bits_0. }
  split; [|auto]. constructor; simpl; try done.
  - unfold s, bitmap. simpl. rewrite length_replicate, Hbytes. zdm.
  - by apply Forall_replicate.
  - symmetry. apply countb_false_all. auto.
Qed.

Lemma initialize_steps base size frame_size storage storage_size s :
  is_u64 base -> is_u64 size -> is_u64 frame_size -> is_u64 storage ->
  initialize base size frame_size storage storage_size = (s, true) ->
  exists s0 bytes, s = reserve_zero_frame (reserve_bitmap_storage s0 storage (storage + bytes)) /\
    wf_core s0 /\ (forall i, 0 <= i < g_frame_count s0 -> bitmap_bit s0 i = false) /\
    g_zero_frame_reserved s0 = false /\ g_bitmap_reserved_count s0 = 0 /\
    g_bitmap_reserved_first s0 = 0 /\ g_base s0 = base /\ g_frame_size s0 = frame_size /\
    g_frame_count s0 = size / frame_size /\ 0 < bytes /\
    bytes = (size / frame_size + 7) / 8 /\ bytes <= storage_size.
Proof.
  intros Hb Hs Hf Hst H. unfold initialize in H.
  repeat (case_match; [by simplify_eq|]). injection H as <-.
  match goal with H : _ || _ = false |- _ => repeat rewrite orb_false_iff in H;
    destruct H as (((((Hst0 & Hf0) & Hp) & Hmx) & Hal) & Hsz) end.
  apply negb_false_iff in Hp, Hal. apply Z.eqb_eq in Hal. apply Z.eqb_neq in Hst0, Hf0.
  destruct (is_power_of_two_sound _ Hf Hp) as (k & Hk & Ek).
  assert (0 < frame_size) as Hfpos by word_lia.
  set (n := size / frame_size) in *.
  assert (n * frame_size <= size /\ 0 < n) as [Hn1 Hn0].
  { split; [unfold n; rewrite Z.mul_comm; by apply Z.mul_div_le|].
    apply Z.div_str_pos. lia. }
  assert (base + n * frame_size <= UINTPTR_MAX /\ n ⊗ frame_size = n * frame_size) as [Hend Hmul].
  { rewrite u64_small in * by (word_unfold; nia). split; [lia|done]. }
  rewrite Hmul in *.
  assert (base mod frame_size = 0) as Hmod.
  { rewrite u64_small in Hal by word_lia. rewrite Ek in *. by rewrite land_low in Hal by lia. }
  rewrite (u64_small (base + _)) by (word_unfold; nia).
  destruct (initial_bitmap_core base frame_size n ((n + 7) / 8)) as [Hc Hclear]; try done; [word_lia|].
  eexists _, ((n + 7) / 8).
  split; [done|]. split; [exact Hc|]. split; [exact Hclear|]. simpl.
  repeat (split; [done|]). split; [|split; [done|lia]]. apply Z.div_str_pos. lia.
Qed.

Lemma initialize_spec base size frame_size storage storage_size s :
  is_u64 base -> is_u64 size -> is_u64 frame_size -> is_u64 storage ->
  initialize base size frame_size storage storage_size = (s, true) ->
  wf s /\ bits_are_reserved s /\ g_base s = base /\ g_frame_size s = frame_size /\
  g_frame_count s = size / frame_size /\ (size / frame_size + 7) / 8 <= storage_size /\
  (forall i, 0 <= i < g_frame_count s -> is_reserved_frame s i = true <->
     must_reserve s storage (storage + (size / frame_size + 7) / 8) i) /\
  g_reserved_frames s = countb (is_reserved_frame s) (frame_indices s).
Proof.
  intros Hb Hs Hf Hst H.
  destruct (initialize_steps _ _ _ _ _ _ Hb Hs Hf Hst H) as
    (s0 & bytes & -> & Hc & Hclear & Hz & Hrc & Hrf & <- & <- & Hcnt & Hpos & Hbytes & Hle).
  destruct (reserve_zero_frame_spec s0 (reserve_bitmap_storage s0 storage (storage + bytes))
    storage (storage + bytes)) as (Hwf & Hbits & Hb' & Hf' & Hc' & Hres & Hn).
  { apply reserve_bitmap_storage_spec; try done. lia. }
  cbv zeta in *. rewrite <- Hbytes.
  repeat (split; [done || congruence|]). done.
Qed.

Lemma reserved_used s :
  wf s -> bits_are_reserved s ->
  g_used_frames s = countb (is_reserved_frame s) (frame_indices s).
Proof.
  intros Hwf Hb. rewrite (wf_used _ (wf_is_core _ Hwf)). apply countb_ext.
  intros i Hi. apply Hb. apply elem_of_seqZ in Hi. lia.
Qed.

(** Two bitmaps with the same bits are the same bytes. *)
Lemma bitmap_ext bm bm' :
  length bm = length bm' -> Forall is_u8 bm -> Forall is_u8 bm' ->
  (forall j, 0 <= j < 8 * Z.of_nat (length bm) ->
     Z.testbit (word_at bm (j / 8)) (j mod 8) = Z.testbit (word_at bm' (j / 8)) (j mod 8)) ->
  bm = bm'.
Proof.
  intros Hlen HF HF' H. apply list_eq_same_length with (length bm); [done..|].
  intros i x y Hi Hx Hy.
  rewrite Forall_lookup in HF, HF'. pose proof (HF _ _ Hx) as Bx. pose proof (HF' _ _ Hy) as By.
  apply Z.bits_inj'; intros n Hn. destruct (decide (n < 8)) as [Hn8|Hn8].
  - specialize (H (8 * Z.of_nat i + n) ltac:(lia)).
    replace ((8 * Z.of_nat i + n) / 8) with (Z.of_nat i) in H by zdm.
    replace ((8 * Z.of_nat i + n) mod 8) with n in H by zdm.
    rewrite (word_at_lookup bm (Z.of_nat i) x), (word_at_lookup bm' (Z.of_nat i) y) in H
      by (by rewrite Nat2Z.id). done.
  - unfold is_u8 in *. rewrite <- (Z.mod_small x (2 ^ 8)), <- (Z.mod_small y (2 ^ 8)) by done.
    rewrite !Z.mod_pow2_bits_high by lia. done.
Qed.

Lemma alloc_frame_cases s s' a :
  wf s -> alloc_frame s = (s', a) ->
  (a = 0 /\ s' = s /\ forall i, 0 <= i < g_frame_count s -> bitmap_bit s i = true) \/
  (exists i, 0 <= i < g_frame_count s /\ a = frame_addr s i /\ a ≠ 0 /\
     bitmap_bit s i = false /\ (forall j, 0 <= j < i -> bitmap_bit s j = true) /\
     take_frame s i = (s', a) /\ bit_changed s s' i true).
Proof.
  intros Hwf H. unfold alloc_frame in H. pose proof (wf_is_core _ Hwf) as Hc.
  pose proof (wf_count _ Hc). destruct (wf_init _ Hc) as [bm Hbm]. rewrite Hbm in H.
  case_match eqn:E.
  - apply for_find_Some in E as (Hi & Hb & Hlt). right.
    assert (0 <= z < g_frame_count s) by lia. apply negb_true_iff in Hb.
    destruct (take_frame_spec s z s' a) as (-> & ? & ?); [done..|].
    exists z. repeat (split; [done|]). split; [|done].
    intros j Hj. apply negb_false_iff, Hlt. lia.
  - injection H as <- <-. left. repeat (split; [done|]). intros i Hi.
    apply negb_false_iff. rewrite for_find_None in E. apply E. lia.
Qed.

Lemma alloc_frame_below_cases s limit s' a :
  wf s -> alloc_frame_below s limit = (s', a) ->
  (a = 0 /\ s' = s /\ forall i, 0 <= i < g_frame_count s ->
     frame_addr s i + g_frame_size s <= limit -> bitmap_bit s i = true) \/
  (exists i, 0 <= i < g_frame_count s /\ a = frame_addr s i /\ a ≠ 0 /\
     a + g_frame_size s <= limit /\ bitmap_bit s i = false /\
     (forall j, 0 <= j < i -> bitmap_bit s j = true) /\ bit_changed s s' i true).
Proof.
  intros Hwf H. unfold alloc_frame_below in H. pose proof (wf_is_core _ Hwf) as Hc.
  pose proof (wf_count _ Hc). pose proof (wf_size _ Hc). pose proof (wf_base _ Hc).
  destruct (wf_init _ Hc) as [bm Hbm]. rewrite Hbm in H.
  case_match eqn:E0.
  { injection H as <- <-. left. repeat (split; [done|]). intros i Hi Hl.
    pose proof (frame_addr_range s i Hc Hi). lia. }
  case_match eqn:E.
  - apply for_find_Some in E as (Hi & Hb & Hlt).
    assert (0 <= z < g_frame_count s) as Hz by lia.
    rewrite (frame_addr_word s z Hc Hz) in *. case_match eqn:Hbey.
    + injection H as <- <-. left. repeat (split; [done|]). intros i Hi' Hl.
      assert (i < z) as Hiz by (unfold frame_addr in *; nia).
      specialize (Hlt i ltac:(lia)). cbv beta in Hlt. rewrite frame_addr_word in Hlt by done. lia.
    + right. cbn [orb] in Hb. apply negb_true_iff in Hb.
      destruct (take_frame_spec s z s' a) as (-> & ? & ?); [done..|].
      exists z. repeat (split; [done || lia|]). split; [|done].
      intros j Hj. specialize (Hlt j ltac:(lia)). cbv beta in Hlt. lia.
  - injection H as <- <-. left. repeat (split; [done|]). intros i Hi Hl.
    rewrite for_find_None in E. specialize (E i ltac:(lia)).
    cbv beta in E. rewrite frame_addr_word in E by done. lia.
Qed.

Lemma try_free_cases s a s' b :
  wf s -> try_free_frame s a = (s', b) ->
  (b = false /\ s' = s /\ forall i, 0 <= i < g_frame_count s -> a = frame_addr s i ->
     bitmap_bit s i = false \/ is_reserved_frame s i = true) \/
  (b = true /\ exists i, 0 <= i < g_frame_count s /\ a = frame_addr s i /\
     bitmap_bit s i = true /\ is_reserved_frame s i = false /\ bit_changed s s' i false).
Proof.
  intros Hwf H. pose proof (wf_is_core _ Hwf) as Hc. pose proof (wf_size _ Hc) as Hs.
  destruct (frame_index_for_address s a) as [i|] eqn:E.
  - apply frame_index_Some in E as [Hi ->]; [|done].
    destruct (bitmap_bit s i) eqn:Hb, (is_reserved_frame s i) eqn:Hr.
    2: { right. destruct (try_free_spec s i Hwf Hi Hb Hr) as (s1 & E1 & Hbc).
         rewrite E1 in H. injection H as <- <-. split; [done|]. by exists i. }
    all: left; unfold try_free_frame in H; rewrite frame_index_frame_addr, Hb, Hr in H by done;
      injection H as <- <-; repeat (split; [done|]);
      intros j Hj ->%frame_addr_inj; auto.
  - unfold try_free_frame in H. rewrite E in H. injection H as <- <-. left.
    repeat (split; [done|]). intros i Hi ->. by rewrite frame_index_frame_addr in E.
Qed.

(** ** The bitmap allocator implements the frame-allocator interface *)

(** The frames handed out by the allocator: marked, and not reserved. *)
Definition owned_frames (s : State) : gset Z :=
  list_to_set (frame_addr s <$>
    base.filter (fun i => bitmap_bit s i = true /\ is_reserved_frame s i = false) (frame_indices s)).

Lemma elem_of_owned s a :
  a ∈ owned_frames s <-> exists i, 0 <= i < g_frame_count s /\ a = frame_addr s i /\
    bitmap_bit s i = true /\ is_reserved_frame s i = false.
Proof.
  unfold owned_frames, frame_indices. rewrite elem_of_list_to_set, list_elem_of_fmap. split.
  - intros (i & -> & Hi). apply list_elem_of_filter in Hi as [[? ?] Hi%elem_of_seqZ].
    exists i. repeat split; done || lia.
  - intros (i & Hi & -> & ? & ?). exists i. split; [done|].
    apply list_elem_of_filter. split; [done|]. apply elem_of_seqZ. lia.
Qed.

Lemma bit_changed_owned s s' i b :
  wf s -> bit_changed s s' i b -> 0 <= i < g_frame_count s -> is_reserved_frame s i = false ->
  owned_frames s' = if b then {[frame_addr s i]} ∪ owned_frames s
                    else owned_frames s ∖ {[frame_addr s i]}.
Proof.
  intros Hwf [Hwf' Hr Hb _] Hi Hri. pose proof (wf_size _ (wf_is_core _ Hwf)) as Hs.
  apply set_eq. intros a. rewrite elem_of_owned, (sr_count _ _ Hr).
  setoid_rewrite (frame_addr_same _ _ _ Hr). setoid_rewrite (is_reserved_same _ _ _ Hr).
  destruct b; [rewrite elem_of_union|rewrite elem_of_difference];
    rewrite elem_of_singleton, elem_of_owned; split.
  - intros (j & Hj & -> & Hbj & Hrj). rewrite Hb in Hbj by lia.
    case_decide; subst; [by left|right]. by exists j.
  - intros [->|(j & Hj & -> & Hbj & Hrj)].
    + exists i. rewrite Hb, decide_True by (done || lia). done.
    + exists j. rewrite Hb by lia. case_decide; subst; done.
  - intros (j & Hj & -> & Hbj & Hrj). rewrite Hb in Hbj by lia.
    case_decide; [done|]. split; [by exists j|]. by intros ->%frame_addr_inj.
  - intros [(j & Hj & -> & Hbj & Hrj) Hne]. exists j.
    rewrite Hb, decide_False by (lia || congruence). done.
Qed.

#[export, refine] Instance bitmap_frame_allocator : FrameAllocator State := {|
  fa_alloc := alloc_frame;
  fa_free := free_frame;
  fa_ok := wf;
  fa_owned := owned_frames;
  fa_frame_size := g_frame_size;
|}.
Proof.
  - intros s s' Hwf H.
    destruct (alloc_frame_cases _ _ _ Hwf H) as [(_ & -> & _)|(i & _ & _ & ? & _)]; done.
  - intros s s' a Hwf H Ha.
    destruct (alloc_frame_cases _ _ _ Hwf H) as [(-> & _)|(i & Hi & -> & _ & Hb & _ & _ & Hbc)];
      [done|].
    pose proof (clear_not_reserved _ _ Hwf Hi Hb) as Hr.
    split; [apply Hbc|]. split; [|by apply (bit_changed_owned _ _ _ true Hwf Hbc)].
    pose proof (wf_size _ (wf_is_core _ Hwf)).
    rewrite elem_of_owned. intros (j & Hj & E & Hbj & _).
    apply frame_addr_inj in E; [congruence|done].
  - intros s a Hwf (i & Hi & -> & Hb & Hr)%elem_of_owned.
    destruct (try_free_spec s i Hwf Hi Hb Hr) as (s1 & E & Hbc).
    unfold free_frame. rewrite E. simpl. split; [apply Hbc|].
    by apply (bit_changed_owned _ _ _ false Hwf Hbc).
  - intros s Hwf (i & Hi & E & Hb & Hr)%elem_of_owned.
    by apply (frame_addr_nonnull s i Hwf Hi Hr).
  - intros s s' a Hwf H.
    destruct (alloc_frame_cases _ _ _ Hwf H) as [(_ & -> & _)|(? & _ & _ & _ & _ & _ & _ & [_ Hr _ _])];
      [done|apply Hr].
  - intros s a Hwf. unfold free_frame. destruct (try_free_frame s a) as [s1 b] eqn:E.
    destruct (try_free_cases _ _ _ _ Hwf E) as [(_ & -> & _)|(_ & ? & _ & _ & _ & _ & [_ Hr _ _])];
      [done|apply Hr].
  - intros s a Hwf (i & Hi & -> & _ & _)%elem_of_owned. pose proof (wf_is_core _ Hwf) as Hc.
    pose proof (frame_addr_range s i Hc Hi) as [H1 H2].
    pose proof (wf_base _ Hc). pose proof (wf_max _ Hc). pose proof (wf_size _ Hc).
    split; [word_lia|]. unfold frame_addr. rewrite Z.mod_add by lia. apply (wf_aligned _ Hc).
Defined.

(** ** The allocator as a state machine *)

Inductive step : State -> State -> Prop :=
| step_alloc s : step s (fst (alloc_frame s))
| step_below s limit : step s (fst (alloc_frame_below s limit))
| step_free s a : step s (fst (try_free_frame s a)).

Inductive reachable (s0 : State) : State -> Prop :=
| reach_start : reachable s0 s0
| reach_step s s' : reachable s0 s -> step s s' -> reachable s0 s'.

Lemma step_wf s s' : wf s -> step s s' -> wf s' /\ same_range s s'.
Proof.
  intros Hwf Hs. revert Hwf. destruct Hs; intros Hwf; simpl.
  - destruct (alloc_frame s) as [s1 a] eqn:E.
    destruct (alloc_frame_cases _ _ _ Hwf E) as [(_ & -> & _)|(? & _ & _ & _ & _ & _ & _ & [])];
      auto with kuro.
  - destruct (alloc_frame_below s limit) as [s1 a] eqn:E.
    destruct (alloc_frame_below_cases _ _ _ _ Hwf E)
      as [(_ & -> & _)|(? & _ & _ & _ & _ & _ & _ & [])]; auto with kuro.
  - destruct (try_free_frame s a) as [s1 b] eqn:E.
    destruct (try_free_cases _ _ _ _ Hwf E) as [(_ & -> & _)|(_ & ? & _ & _ & _ & _ & [])];
      auto with kuro.
Qed.

Lemma reachable_wf s0 s : wf s0 -> reachable s0 s -> wf s /\ same_range s0 s.
Proof.
  intros Hwf. induction 1 as [|s s' _ [IH1 IH2] Hs]; [auto with kuro|].
  destruct (step_wf _ _ IH1 Hs). split; [done|]. by eapply same_range_trans.
Qed.

(** A concrete allocator: eight 4 KiB frames at 1 MiB with the bitmap inside
    the second frame. *)
Definition example_state : State :=
  fst (initialize 0x100000 0x8000 0x1000 0x101010 64).

Lemma example_wf : wf example_state.
Proof.
  eapply (initialize_spec 0x100000 0x8000 0x1000 0x101010 64); try word_lia. reflexivity.
Qed.

(** ** Properties *)

(** A successful [initialize] of the frame allocator yields a well-formed
    state that manages exactly [size / frame_size] frames from [base], marks as
    used exactly the frames that overlap its own bitmap storage or lie at
    address 0, and reports that number as both used and reserved. *)
Theorem frame_initialize_ok base size frame_size storage storage_size s :
  is_u64 base -> is_u64 size -> is_u64 frame_size -> is_u64 storage ->
  initialize base size frame_size storage storage_size = (s, true) ->
  wf s /\ g_base s = base /\ g_frame_size s = frame_size /\
  total_frames s = size / frame_size /\ (total_frames s + 7) / 8 <= storage_size /\
  (forall i, 0 <= i < total_frames s ->
     bitmap_bit s i = true <-> must_reserve s storage (storage + (total_frames s + 7) / 8) i) /\
  used_frames s = reserved_frames s.
Proof.
  intros Hb Hs Hf Hst H.
  destruct (initialize_spec _ _ _ _ _ _ Hb Hs Hf Hst H)
    as (Hwf & Hbits & <- & <- & Hc & Hle & Hres & Hn).
  unfold total_frames, used_frames, reserved_frames. rewrite <- Hc in *.
  repeat (split; [done|]). split; [|by rewrite Hn, reserved_used].
  intros i Hi. rewrite Hbits by done. by apply Hres.
Qed.

Lemma initialize_ok_witness :
  wf example_state /\ total_frames example_state = 8 /\ used_frames example_state = 1.
Proof.
  destruct (frame_initialize_ok 0x100000 0x8000 0x1000 0x101010 64 example_state)
    as (H & _ & _ & H8 & _ & _ & _); try word_lia; [reflexivity|].
  split; [exact H|]. split; [exact H8|reflexivity].
Defined.

(** [alloc_frame] hands out the lowest free frame, never a reserved one and
    never address 0, changes only that frame's bit and the used counter, and
    returns null exactly when every frame is in use, leaving the state as it is. *)
Theorem alloc_frame_ok s s' a :
  wf s -> alloc_frame s = (s', a) ->
  (a = 0 /\ s' = s /\ forall i, 0 <= i < total_frames s -> bitmap_bit s i = true) \/
  (exists i, 0 <= i < total_frames s /\ a = frame_addr s i /\ a ≠ 0 /\
     is_reserved_frame s i = false /\ bitmap_bit s i = false /\
     (forall j, 0 <= j < i -> bitmap_bit s j = true) /\ bit_changed s s' i true).
Proof.
  intros Hwf H.
  destruct (alloc_frame_cases _ _ _ Hwf H) as [?|(i & Hi & -> & Ha & Hb & Hlow & _ & Hbc)];
    [by left|right].
  exists i. repeat (split; [done || by apply clear_not_reserved|]). done.
Qed.

Lemma alloc_frame_ok_witness : exists s' i,
  alloc_frame example_state = (s', 0x100000) /\ bit_changed example_state s' i true.
Proof.
  destruct (alloc_frame example_state) as [s' a] eqn:E.
  destruct (alloc_frame_ok _ _ _ example_wf E)
    as [(-> & _)|(i & _ & _ & _ & _ & _ & _ & Hbc)]; [vm_compute in E; discriminate|].
  exists s', i. split; [|exact Hbc]. vm_compute in E. injection E as <- <-. reflexivity.
Defined.

(** [alloc_frame_below] returns a whole frame that ends at or below the DMA
    limit, or null with the state unchanged, and it returns null only when
    every frame that ends below the limit is in use. *)
Theorem alloc_frame_below_ok s limit s' a :
  wf s -> alloc_frame_below s limit = (s', a) ->
  (a = 0 /\ s' = s /\ forall i, 0 <= i < total_frames s ->
     frame_addr s i + g_frame_size s <= limit -> bitmap_bit s i = true) \/
  (exists i, 0 <= i < total_frames s /\ a = frame_addr s i /\ a ≠ 0 /\
     a + g_frame_size s <= limit /\ bitmap_bit s i = false /\
     (forall j, 0 <= j < i -> bitmap_bit s j = true) /\ bit_changed s s' i true).
Proof. apply alloc_frame_below_cases. Qed.

Lemma alloc_frame_below_ok_witness : exists s' i,
  alloc_frame_below example_state 0x101000 = (s', 0x100000) /\
  bit_changed example_state s' i true.
Proof.
  destruct (alloc_frame_below example_state 0x101000) as [s' a] eqn:E.
  destruct (alloc_frame_below_ok _ _ _ _ example_wf E)
    as [(-> & _)|(i & _ & _ & _ & _ & _ & _ & Hbc)]; [vm_compute in E; discriminate|].
  exists s', i. split; [|exact Hbc]. vm_compute in E. injection E as <- <-. reflexivity.
Defined.

(** [try_free_frame] releases exactly the addresses of frames that are in
    use and not reserved; every other pointer (unaligned, out of range, free or
    reserved) is rejected with the state unchanged. *)
Theorem try_free_frame_ok s a s' b :
  wf s -> try_free_frame s a = (s', b) ->
  (b = false /\ s' = s /\ forall i, 0 <= i < total_frames s -> a = frame_addr s i ->
     bitmap_bit s i = false \/ is_reserved_frame s i = true) \/
  (b = true /\ exists i, 0 <= i < total_frames s /\ a = frame_addr s i /\
     bitmap_bit s i = true /\ is_reserved_frame s i = false /\ bit_changed s s' i false).
Proof. apply try_free_cases. Qed.

Lemma try_free_frame_ok_witness :
  try_free_frame example_state 0x101000 = (example_state, false) /\
  is_reserved_frame example_state 1 = true.
Proof.
  destruct (try_free_frame example_state 0x101000) as [s' b] eqn:E.
  destruct (try_free_frame_ok _ _ _ _ example_wf E) as [(-> & -> & H)|(-> & _)];
    [|vm_compute in E; discriminate].
  split; [reflexivity|]. destruct (H 1) as [Hb|Hr]; [split; vm_compute; congruence|reflexivity| |exact Hr].
  vm_compute in Hb. discriminate.
Defined.

(** Freeing the frame an allocation returned restores the allocator's state
    exactly, bitmap bytes and counters included. *)
Theorem alloc_free_roundtrip s s' a :
  wf s -> alloc_frame s = (s', a) -> a ≠ 0 -> try_free_frame s' a = (s, true).
Proof.
  intros Hwf H Ha. pose proof (wf_is_core _ Hwf) as Hc.
  destruct (alloc_frame_cases _ _ _ Hwf H)
    as [(-> & _)|(i & Hi & -> & _ & Hb & _ & Ht & [Hwf' Hr Hbits Hu])]; [done|].
  pose proof (clear_not_reserved _ _ Hwf Hi Hb) as Hnr.
  rewrite <- (frame_addr_same _ _ _ Hr).
  unfold try_free_frame. rewrite frame_index_frame_addr, (is_reserved_same _ _ _ Hr), Hnr, Hbits,
    decide_True by (try apply Hwf'; try rewrite (sr_count _ _ Hr); done || lia).
  cbn [orb negb]. rewrite Hb in Hu. injection Ht as <-.
  destruct (wf_init _ Hc) as [bm Hbm].
  assert (bitmap s = bm) as Hbm' by (unfold bitmap; by rewrite Hbm).
  pose proof (frame_byte_in_range _ _ Hc Hi) as Hby. f_equal.
  transitivity (with_bitmap s bm (g_used_frames s)); [|by destruct s; simpl in *; subst].
  pose proof (used_range _ Hc). unfold with_bitmap at 1. simpl in *.
  rewrite Hu. replace (0 <? _) with true by lia. unfold with_bitmap. do 2 f_equal; [|lia].
  unfold bitmap at 1. simpl. apply bitmap_ext.
  - by rewrite length_clear_bitmap_bit, length_set_bitmap_bit, Hbm'.
  - apply clear_bitmap_bit_u8; [by rewrite length_set_bitmap_bit|].
    apply set_bitmap_bit_u8; [done|apply Hc].
  - rewrite <- Hbm'. apply Hc.
  - intros j Hj. rewrite clear_bitmap_bit_spec by (rewrite ?length_set_bitmap_bit; lia).
    rewrite set_bitmap_bit_spec by (done || lia). rewrite <- Hbm'.
    destruct (Z.eqb_spec i j) as [<-|]; [|done].
    by rewrite <- bitmap_bit_testbit, Hb.
Qed.

Lemma alloc_free_roundtrip_witness :
  try_free_frame (fst (alloc_frame example_state)) 0x100000 = (example_state, true).
Proof.
  apply alloc_free_roundtrip; [exact example_wf|vm_compute; reflexivity|discriminate].
Defined.

(** In every state reachable from a well-formed one by any sequence of
    allocations and (possibly bogus) frees, the invariant holds, the managed
    range is unchanged, used and free frames add up to the total, and every
    reserved frame is still marked. *)
Theorem reachable_accounting s0 s :
  wf s0 -> reachable s0 s ->
  wf s /\ same_range s0 s /\ used_frames s + free_frames s = total_frames s /\
  (forall i, 0 <= i < total_frames s -> is_reserved_frame s0 i = true -> bitmap_bit s i = true).
Proof.
  intros Hwf Hr. destruct (reachable_wf _ _ Hwf Hr) as [Hwf' Hsr].
  pose proof (wf_is_core _ Hwf') as Hc. pose proof (used_range _ Hc). pose proof (count_max _ Hc).
  split; [done|]. split; [done|]. unfold used_frames, free_frames, total_frames in *.
  rewrite u64_small by word_lia. split; [lia|]. intros i Hi Hri.
  apply (wf_reserved _ Hwf' i Hi). by rewrite (is_reserved_same _ _ _ Hsr).
Qed.

Lemma reachable_accounting_witness :
  let s := fst (try_free_frame (fst (alloc_frame example_state)) 0x101000) in
  wf s /\ used_frames s + free_frames s = total_frames s.
Proof.
  pose proof (reachable_accounting example_state
    (fst (try_free_frame (fst (alloc_frame example_state)) 0x101000)) example_wf) as H.
  destruct H as (H1 & _ & H2 & _).
  - eapply reach_step; [|apply step_free].
    eapply reach_step; [apply reach_start|apply step_alloc].
  - split; [exact H1|exact H2].
Defined.
