(* ===== verification/Events.v ===== *)
(** * IPC events (kernel/ipc/event.cpp)

    A table of 32 event objects, each with an owner, a signalled flag, a reset
    mode and up to eight grants.  The file-scope variables are the fields of
    [State]; every entry point runs under one lock, so it is one function on
    [State].  A null out-pointer is the [bool] argument [has_handle]. *)

From S2P Require Import Prelude Handles.

(** ** Data *)

Definition INVALID_PROCESS_ID : Z := 0.
Definition INVALID_HANDLE : Z := 0.
Definition MAX_EVENTS : nat := 32.
Definition MAX_GRANTS_PER_EVENT : nat := 8.
Definition kKindEvent : Z := Z.shiftl 4 16.

(** [enum class ResetMode : uint8_t]; any byte can be passed in. *)
Definition ResetMode_Auto : Z := 0.
Definition ResetMode_Manual : Z := 1.

Inductive Status :=
| Ok | AlreadyInitialized | NotInitialized | InvalidArgument | CapacityReached
| StaleHandle | AccessDenied | AlreadyGranted | WouldBlock.

#[export] Instance Status_eq_dec : EqDecision Status.
Proof. solve_decision. Defined.

Record GrantSlot := mkGrant { grant_pid : Z; grant_open : bool }.

Record EventSlot := mkEvent {
  generation : Z;
  owner_pid : Z;
  mode : Z;
  signaled : bool;
  owner_open : bool;
  active : bool;
  grants : list GrantSlot;
}.

Record State := mkState { g_events : list EventSlot; g_initialized : bool }.

(** [clear_bytes] of a grant and of a slot whose generation is kept. *)
Definition empty_grant : GrantSlot := mkGrant 0 false.
Definition empty_slot (generation : Z) : EventSlot :=
  mkEvent generation 0 0 false false false (replicate MAX_GRANTS_PER_EVENT empty_grant).

Definition with_signaled (slot : EventSlot) (b : bool) : EventSlot :=
  mkEvent (generation slot) (owner_pid slot) (mode slot) b (owner_open slot) (active slot)
    (grants slot).
Definition with_owner_open (slot : EventSlot) (b : bool) : EventSlot :=
  mkEvent (generation slot) (owner_pid slot) (mode slot) (signaled slot) b (active slot)
    (grants slot).
Definition with_grants (slot : EventSlot) (g : list GrantSlot) : EventSlot :=
  mkEvent (generation slot) (owner_pid slot) (mode slot) (signaled slot) (owner_open slot)
    (active slot) g.

Definition store (s : State) (index : nat) (slot : EventSlot) : State :=
  mkState (<[index := slot]> (g_events s)) (g_initialized s).

(** The statically initialised table, before [initialize]. *)
Definition boot_state : State := mkState (replicate MAX_EVENTS (empty_slot 0)) false.

(** ** Helpers *)

Definition encode (index : nat) (generation : Z) : Z :=
  Z.lor (Z.lor (Z.shiftl generation 32) kKindEvent) (Z.of_nat index + 1).

Definition decode (s : State) (handle : Z) : Status + (nat * EventSlot) :=
  if negb (Z.land handle kKindMask =? kKindEvent) then inl StaleHandle else
  let encoded := Z.land handle kIndexMask in
  if (encoded =? 0) || (Z.of_nat MAX_EVENTS <? encoded) then inl StaleHandle else
  let index := Z.to_nat (encoded - 1) in
  match g_events s !! index with
  | None => inl StaleHandle
  | Some slot =>
    if negb (active slot) || negb (generation slot =? u32 (Z.shiftr handle 32))
    then inl StaleHandle else inr (index, slot)
  end.

Definition grant_for (pid : Z) (grant : GrantSlot) : bool :=
  grant_open grant && (grant_pid grant =? pid).

Definition find_grant (slot : EventSlot) (pid : Z) : option nat :=
  find_index (grant_for pid) (grants slot).

Definition can_access (slot : EventSlot) (pid : Z) : bool :=
  ((owner_pid slot =? pid) && owner_open slot) ||
  match find_grant slot pid with Some _ => true | None => false end.

Definition has_open_reference (slot : EventSlot) : bool :=
  if owner_open slot then true else existsb grant_open (grants slot).

Definition reclaim (slot : EventSlot) : EventSlot := empty_slot (generation slot).

Definition maybe_reclaim (slot : EventSlot) : EventSlot :=
  if active slot && negb (has_open_reference slot) then reclaim slot else slot.

(** ** Entry points *)

Definition initialize (s : State) : State * Status :=
  if g_initialized s then (s, AlreadyInitialized) else
  (mkState (replicate MAX_EVENTS (empty_slot 0)) true, Ok).

(** The handle is the value left in [*handle]. *)
Definition create (s : State) (owner : Z) (md : Z) (sig has_handle : bool) : State * Status * Z :=
  if negb (g_initialized s) then (s, NotInitialized, INVALID_HANDLE) else
  if (owner =? INVALID_PROCESS_ID) || negb has_handle ||
     (negb (md =? ResetMode_Auto) && negb (md =? ResetMode_Manual))
  then (s, InvalidArgument, INVALID_HANDLE) else
  match find_index (fun slot => negb (active slot)) (g_events s) with
  | None => (s, CapacityReached, INVALID_HANDLE)
  | Some index =>
    let gen := next_generation (default 0 (generation <$> g_events s !! index)) in
    (store s index (mkEvent gen owner md sig true true
                      (replicate MAX_GRANTS_PER_EVENT empty_grant)), Ok, encode index gen)
  end.

Definition grant (s : State) (owner handle target : Z) : State * Status :=
  if negb (g_initialized s) then (s, NotInitialized) else
  if (owner =? INVALID_PROCESS_ID) || (target =? INVALID_PROCESS_ID) || (owner =? target)
  then (s, InvalidArgument) else
  match decode s handle with
  | inl status => (s, status)
  | inr (index, slot) =>
    if negb (owner_pid slot =? owner) || negb (owner_open slot) then (s, AccessDenied) else
    if existsb (grant_for target) (grants slot) then (s, AlreadyGranted) else
    match find_index (fun g => negb (grant_open g)) (grants slot) with
    | None => (s, CapacityReached)
    | Some k => (store s index (with_grants slot (<[k := mkGrant target true]> (grants slot))), Ok)
    end
  end.

(** The common prologue of [signal], [reset] and [poll]. *)
Definition accessible (s : State) (pid handle : Z) : Status + (nat * EventSlot) :=
  if negb (g_initialized s) then inl NotInitialized else
  if pid =? INVALID_PROCESS_ID then inl InvalidArgument else
  match decode s handle with
  | inl status => inl status
  | inr (index, slot) =>
    if negb (can_access slot pid) then inl AccessDenied else inr (index, slot)
  end.

Definition signal (s : State) (pid handle : Z) : State * Status :=
  match accessible s pid handle with
  | inl status => (s, status)
  | inr (index, slot) => (store s index (with_signaled slot true), Ok)
  end.

Definition reset (s : State) (pid handle : Z) : State * Status :=
  match accessible s pid handle with
  | inl status => (s, status)
  | inr (index, slot) => (store s index (with_signaled slot false), Ok)
  end.

Definition poll (s : State) (pid handle : Z) : State * Status :=
  match accessible s pid handle with
  | inl status => (s, status)
  | inr (index, slot) =>
    if negb (signaled slot) then (s, WouldBlock) else
    if mode slot =? ResetMode_Auto then (store s index (with_signaled slot false), Ok)
    else (s, Ok)
  end.

Definition close (s : State) (pid handle : Z) : State * Status :=
  if negb (g_initialized s) then (s, NotInitialized) else
  if pid =? INVALID_PROCESS_ID then (s, InvalidArgument) else
  match decode s handle with
  | inl status => (s, status)
  | inr (index, slot) =>
    if (owner_pid slot =? pid) && owner_open slot
    then (store s index (maybe_reclaim (with_owner_open slot false)), Ok)
    else match find_grant slot pid with
         | None => (s, AccessDenied)
         | Some k =>
           (store s index (maybe_reclaim (with_grants slot (<[k := empty_grant]> (grants slot)))), Ok)
         end
  end.

Definition release_slot (pid : Z) (slot : EventSlot) : EventSlot :=
  if negb (active slot) then slot else
  let slot := if owner_pid slot =? pid then with_owner_open slot false else slot in
  maybe_reclaim (with_grants slot
    ((fun g => if grant_for pid g then empty_grant else g) <$> grants slot)).

Definition release_process (s : State) (pid : Z) : State :=
  if negb (g_initialized s) || (pid =? INVALID_PROCESS_ID) then s else
  mkState (release_slot pid <$> g_events s) (g_initialized s).

(** One call of the component's interface. *)
Inductive Op :=
| OpInitialize
| OpCreate (owner md : Z) (sig has_handle : bool)
| OpGrant (owner handle target : Z)
| OpSignal (pid handle : Z)
| OpReset (pid handle : Z)
| OpPoll (pid handle : Z)
| OpClose (pid handle : Z)
| OpRelease (pid : Z).

Definition exec (s : State) (op : Op) : State :=
  match op with
  | OpInitialize => fst (initialize s)
  | OpCreate owner md sig has_handle => fst (fst (create s owner md sig has_handle))
  | OpGrant owner handle target => fst (grant s owner handle target)
  | OpSignal pid handle => fst (signal s pid handle)
  | OpReset pid handle => fst (reset s pid handle)
  | OpPoll pid handle => fst (poll s pid handle)
  | OpClose pid handle => fst (close s pid handle)
  | OpRelease pid => release_process s pid
  end.

(** Whether [pid] can operate on the object [handle] names. *)
Definition can_use (s : State) (pid handle : Z) : bool :=
  match decode s handle with
  | inl _ => false
  | inr (_, slot) => can_access slot pid
  end.

(** ** The invariant *)

(** A slot in use.  Open grants name distinct processes other than the owner. *)
Record live_slot (slot : EventSlot) : Prop := {
  ls_active : active slot = true;
  ls_gen : gen_ok (generation slot);
  ls_owner : owner_pid slot ≠ 0;
  ls_mode : mode slot = ResetMode_Auto \/ mode slot = ResetMode_Manual;
  ls_len : length (grants slot) = MAX_GRANTS_PER_EVENT;
  ls_grant : forall k g, grants slot !! k = Some g -> grant_open g = true ->
               grant_pid g ≠ 0 /\ grant_pid g ≠ owner_pid slot;
  ls_uniq : forall k k' g g', grants slot !! k = Some g -> grants slot !! k' = Some g' ->
              grant_open g = true -> grant_open g' = true -> grant_pid g = grant_pid g' -> k = k';
}.

(** A slot is live and referenced, or it is all zero but for its generation. *)
Definition wf_slot (slot : EventSlot) : Prop :=
  (live_slot slot /\ has_open_reference slot = true) \/
  (slot = empty_slot (generation slot) /\ 0 <= generation slot <= kMaximumGeneration).

Definition wf (s : State) : Prop :=
  length (g_events s) = MAX_EVENTS /\ Forall wf_slot (g_events s).

Lemma event_empty_slot_wf g : 0 <= g <= kMaximumGeneration -> wf_slot (empty_slot g).
Proof. intros H. by right. Qed.

Lemma event_store_wf s i slot : wf s -> wf_slot slot -> wf (store s i slot).
Proof. intros [Hl HF] Hs. split; simpl; [by rewrite length_insert|by apply Forall_insert]. Qed.

Lemma event_wf_lookup s i slot : wf s -> g_events s !! i = Some slot -> wf_slot slot.
Proof. intros [_ HF] H. rewrite Forall_lookup in HF. by eapply HF. Qed.

Lemma event_wf_slot_live slot : wf_slot slot -> active slot = true -> live_slot slot.
Proof. intros [[? _]|[-> _]]; [done|]. simpl. done. Qed.

Lemma event_maybe_reclaim_wf slot : live_slot slot -> wf_slot (maybe_reclaim slot).
Proof.
  intros H. unfold maybe_reclaim. rewrite (ls_active _ H). simpl.
  destruct (has_open_reference slot) eqn:E; simpl; [by left|].
  apply event_empty_slot_wf. pose proof (ls_gen _ H). unfold gen_ok in *. lia.
Qed.

#[export] Hint Resolve event_empty_slot_wf event_store_wf event_maybe_reclaim_wf : kuro.

(** Changing the grants of a live slot to ones that were already there. *)
Lemma with_grants_live slot gs :
  live_slot slot -> length gs = length (grants slot) ->
  (forall k g, gs !! k = Some g -> grant_open g = true -> grants slot !! k = Some g) ->
  live_slot (with_grants slot gs).
Proof.
  intros [] Hlen Hsub. constructor; simpl; try done.
  - by rewrite Hlen.
  - intros k g Hk Ho. eapply ls_grant0; [by apply Hsub|done].
  - intros k k' g g' Hk Hk' Ho Ho'. eapply ls_uniq0; [by apply Hsub|by apply Hsub|done..].
Qed.

Lemma with_owner_open_live slot b : live_slot slot -> live_slot (with_owner_open slot b).
Proof. intros []. by constructor. Qed.

Lemma with_signaled_wf slot b : live_slot slot -> wf_slot slot -> wf_slot (with_signaled slot b).
Proof.
  intros Hlive [[_ Hr]|[E _]]; [|destruct Hlive; rewrite E in *; done].
  left. split; [destruct Hlive; by constructor|done].
Qed.

Lemma replicate_empty_open n k g :
  replicate n empty_grant !! k = Some g -> grant_open g = false.
Proof. intros H. apply lookup_replicate in H as [-> _]. done. Qed.

Lemma fresh_slot_wf g owner md sig :
  gen_ok g -> owner ≠ 0 -> md = ResetMode_Auto \/ md = ResetMode_Manual ->
  wf_slot (mkEvent g owner md sig true true (replicate MAX_GRANTS_PER_EVENT empty_grant)).
Proof.
  intros Hg Ho Hm. left. split; [|done].
  constructor; cbn [active generation owner_pid mode grants]; try done.
  - intros k g' Hk Hg'. by rewrite (replicate_empty_open _ _ _ Hk) in Hg'.
  - intros k k' g' g'' Hk _ Hg'. by rewrite (replicate_empty_open _ _ _ Hk) in Hg'.
Qed.

(** ** Decoding *)

Lemma event_decode_inr s h i slot :
  decode s h = inr (i, slot) ->
  g_events s !! i = Some slot /\ active slot = true /\
  generation slot = u32 (Z.shiftr h 32) /\ Z.land h kKindMask = kKindEvent /\
  Z.land h kIndexMask = Z.of_nat i + 1.
Proof.
  unfold decode.
  destruct (negb (Z.land h kKindMask =? kKindEvent)) eqn:E1; [done|].
  destruct ((Z.land h kIndexMask =? 0) || _) eqn:E2; [done|].
  destruct (g_events s !! _) as [sl|] eqn:E3; [|done].
  destruct (negb (active sl) || _) eqn:E4; [done|]. intros [= <- <-].
  apply orb_false_iff in E4 as [E4%negb_false_iff E5%negb_false_iff].
  assert (0 <= Z.land h kIndexMask) by (apply Z.land_nonneg; right; done).
  repeat split; done || lia.
Qed.

Lemma event_decode_live s h i slot : wf s -> decode s h = inr (i, slot) -> live_slot slot /\ wf_slot slot.
Proof.
  intros Hwf H. apply event_decode_inr in H as (Hl & Ha & _).
  pose proof (event_wf_lookup _ _ _ Hwf Hl). split; [by apply event_wf_slot_live|done].
Qed.

(** Replacing a slot by one with the same tag changes what a handle denotes,
    not which handles are valid. *)
Lemma event_decode_store s i old new h :
  g_events s !! i = Some old -> active new = active old -> generation new = generation old ->
  decode (store s i new) h =
  match decode s h with
  | inl e => inl e
  | inr (j, slot) => inr (j, if decide (j = i) then new else slot)
  end.
Proof.
  intros Hi Ha Hg. unfold decode. simpl.
  destruct (negb (Z.land h kKindMask =? kKindEvent)); [done|].
  destruct ((Z.land h kIndexMask =? 0) || _); [done|].
  set (j := Z.to_nat _). destruct (decide (j = i)) as [->|Hne].
  - rewrite Hi, list_lookup_insert_eq by (by eapply lookup_lt_Some).
    rewrite Ha, Hg. destruct (negb (active old) || _); [done|]. by rewrite decide_True.
  - rewrite list_lookup_insert_ne by done. destruct (g_events s !! j) as [sl|]; [|done].
    destruct (negb (active sl) || _); [done|]. by rewrite decide_False.
Qed.

Lemma event_encode_value i g :
  0 <= g < 2 ^ 32 -> (i < MAX_EVENTS)%nat -> encode i g = handle_value g 4 (Z.of_nat i + 1).
Proof. intros Hg Hi. unfold encode, MAX_EVENTS in *. apply handle_lor; lia. Qed.

Lemma event_decode_encode s i slot :
  g_events s !! i = Some slot -> (i < MAX_EVENTS)%nat -> active slot = true ->
  gen_ok (generation slot) -> decode s (encode i (generation slot)) = inr (i, slot).
Proof.
  intros Hi Hlt Ha Hg. unfold gen_ok, kMaximumGeneration, MAX_EVENTS in *.
  unfold decode. rewrite event_encode_value by (unfold MAX_EVENTS; lia).
  rewrite handle_kind, handle_index, handle_generation by lia.
  change (Z.shiftl (4 mod 256) 16) with kKindEvent. rewrite Z.eqb_refl. simpl.
  replace ((Z.of_nat i + 1 =? 0) || (Z.of_nat MAX_EVENTS <? Z.of_nat i + 1)) with false
    by (unfold MAX_EVENTS; lia).
  replace (Z.to_nat (Z.of_nat i + 1 - 1)) with i by lia.
  by rewrite Hi, Ha, Z.eqb_refl.
Qed.

(** ** Access *)

Lemma grant_for_true pid g : grant_for pid g = true <-> grant_open g = true /\ grant_pid g = pid.
Proof. unfold grant_for. rewrite andb_true_iff, Z.eqb_eq. done. Qed.

Lemma can_access_true slot pid :
  can_access slot pid = true <->
  (owner_pid slot = pid /\ owner_open slot = true) \/
  exists k g, grants slot !! k = Some g /\ grant_open g = true /\ grant_pid g = pid.
Proof.
  unfold can_access, find_grant. rewrite orb_true_iff, andb_true_iff, Z.eqb_eq.
  apply or_iff_compat_l. destruct (find_index _ _) as [k|] eqn:E.
  - apply find_index_Some in E as [(g & Hg & Hf) _]. apply grant_for_true in Hf as [? ?].
    split; [|done]. intros _. by exists k, g.
  - rewrite find_index_None in E. split; [done|]. intros (k & g & Hk & Ho & Hp).
    pose proof (E _ _ Hk) as Hf. rewrite (proj2 (grant_for_true pid g)) in Hf by done. done.
Qed.

Lemma accessible_inr s pid h i slot :
  accessible s pid h = inr (i, slot) ->
  g_initialized s = true /\ pid ≠ 0 /\ decode s h = inr (i, slot) /\ can_access slot pid = true.
Proof.
  unfold accessible, INVALID_PROCESS_ID. repeat case_match; intros; simplify_eq.
  repeat split; try done; try lia; by apply negb_false_iff.
Qed.

(** ** Every operation preserves the invariant *)

Lemma event_create_wf s owner md sig hh : wf s -> wf (fst (fst (create s owner md sig hh))).
Proof.
  intros Hwf. unfold create, INVALID_PROCESS_ID, ResetMode_Auto, ResetMode_Manual.
  repeat case_match; simpl; try done. apply event_store_wf; [done|].
  apply find_index_Some in H1 as [(slot & Hi & _) _]. rewrite Hi. simpl.
  apply fresh_slot_wf; [|lia|unfold ResetMode_Auto, ResetMode_Manual; lia].
  apply next_generation_ok.
  destruct (event_wf_lookup _ _ _ Hwf Hi) as [[Hl _]|[_ ?]]; [|lia].
  pose proof (ls_gen _ Hl). unfold gen_ok in *. lia.
Qed.

Lemma grant_slot_live slot k g0 target :
  live_slot slot -> grants slot !! k = Some g0 -> target ≠ 0 -> target ≠ owner_pid slot ->
  existsb (grant_for target) (grants slot) = false ->
  live_slot (with_grants slot (<[k := mkGrant target true]> (grants slot))).
Proof.
  intros [] Hk Ht Hto Hex.
  assert (forall j g, grants slot !! j = Some g -> grant_open g = true -> grant_pid g ≠ target)
    as Hnone.
  { intros j g Hj Ho Hp. assert (existsb (grant_for target) (grants slot) = true); [|congruence].
    apply existsb_exists. exists g. split; [|by apply grant_for_true].
    apply list_elem_of_In. by eapply list_elem_of_lookup_2. }
  constructor; simpl; try done.
  - by rewrite length_insert.
  - intros j g Hj Ho. apply list_lookup_insert_Some in Hj as [(-> & <- & _)|[_ Hj]]; [done|].
    by eapply ls_grant0.
  - intros j j' g g' Hj Hj' Ho Ho' E.
    apply list_lookup_insert_Some in Hj as [(-> & <- & _)|[? Hj]];
      apply list_lookup_insert_Some in Hj' as [(<- & <- & _)|[? Hj']]; try done; simpl in *.
    + exfalso. by apply (Hnone _ _ Hj' Ho').
    + exfalso. by apply (Hnone _ _ Hj Ho).
    + by eapply ls_uniq0.
Qed.

Lemma event_grant_wf s owner h target : wf s -> wf (fst (grant s owner h target)).
Proof.
  intros Hwf. unfold grant. repeat case_match; simpl; try done. apply event_store_wf; [done|].
  match goal with Hd : decode _ _ = _, Hf : find_index _ _ = _, Ho : negb (_ =? _) || _ = false |- _ =>
    destruct (event_decode_live _ _ _ _ Hwf Hd) as [Hl Hw];
    apply find_index_Some in Hf as [(g0 & Hk & _) _];
    apply orb_false_iff in Ho as [Ho%negb_false_iff Hopen%negb_false_iff] end.
  left. unfold INVALID_PROCESS_ID in *. split; [eapply grant_slot_live; [done..|lia|lia|done]|].
  unfold has_open_reference. simpl. by rewrite Hopen.
Qed.

Lemma accessible_wf s pid h i slot b :
  wf s -> accessible s pid h = inr (i, slot) -> wf (store s i (with_signaled slot b)).
Proof.
  intros Hwf (_ & _ & Hd & _)%accessible_inr. destruct (event_decode_live _ _ _ _ Hwf Hd).
  apply event_store_wf; [done|]. by apply with_signaled_wf.
Qed.

Lemma clear_grant_live slot k :
  live_slot slot -> live_slot (with_grants slot (<[k := empty_grant]> (grants slot))).
Proof.
  intros H. apply with_grants_live; [done|apply length_insert|].
  intros j g Hj Ho. apply list_lookup_insert_Some in Hj as [(_ & <- & _)|[_ Hj]]; done.
Qed.

Lemma event_close_wf s pid h : wf s -> wf (fst (close s pid h)).
Proof.
  intros Hwf. unfold close. repeat case_match; simpl; try done;
    (destruct (event_decode_live _ _ _ _ Hwf H1) as [Hl Hw]); apply event_store_wf; try done;
    apply event_maybe_reclaim_wf; [by apply with_owner_open_live|by apply clear_grant_live].
Qed.

Lemma release_live pid slot :
  live_slot slot ->
  let slot1 := if owner_pid slot =? pid then with_owner_open slot false else slot in
  live_slot (with_grants slot1
    ((fun g => if grant_for pid g then empty_grant else g) <$> grants slot1)).
Proof.
  intros Hl slot1. assert (live_slot slot1) as Hl1
    by (unfold slot1; case_match; [by apply with_owner_open_live|done]).
  apply with_grants_live; [done|apply length_fmap|]. intros k g Hk Ho.
  apply list_lookup_fmap_Some in Hk as (g0 & -> & Hk).
  by destruct (grant_for pid g0).
Qed.

Lemma event_release_slot_wf pid slot : wf_slot slot -> wf_slot (release_slot pid slot).
Proof.
  intros Hw. unfold release_slot. destruct (active slot) eqn:Ha; simpl; [|done].
  apply event_maybe_reclaim_wf, release_live. by apply event_wf_slot_live.
Qed.

Lemma event_release_wf s pid : wf s -> wf (release_process s pid).
Proof.
  intros [Hl HF]. unfold release_process. case_match; [done|]. split; simpl.
  - by rewrite length_fmap.
  - apply Forall_fmap. eapply Forall_impl; [done|]. intros. by apply event_release_slot_wf.
Qed.

Lemma event_boot_wf b : wf (mkState (replicate MAX_EVENTS (empty_slot 0)) b).
Proof. split; [done|]. by apply Forall_replicate, event_empty_slot_wf. Qed.

Lemma event_exec_wf s op : wf s -> wf (exec s op).
Proof.
  intros Hwf. destruct op; simpl.
  - unfold initialize. case_match; [done|]. apply event_boot_wf.
  - by apply event_create_wf.
  - by apply event_grant_wf.
  - unfold signal. repeat case_match; [done|]. by eapply accessible_wf.
  - unfold reset. repeat case_match; [done|]. by eapply accessible_wf.
  - unfold poll. repeat case_match; try done. by eapply accessible_wf.
  - by apply event_close_wf.
  - by apply event_release_wf.
Qed.

Lemma event_run_wf ops s : wf s -> wf (fold_left exec ops s).
Proof. revert s; induction ops; intros s Hwf; simpl; [done|]. by apply IHops, event_exec_wf. Qed.

(** ** Access after close and after process exit *)

Lemma maybe_reclaim_inactive_or_same slot :
  active slot = true ->
  active (maybe_reclaim slot) = false \/ maybe_reclaim slot = slot.
Proof. intros Ha. unfold maybe_reclaim. rewrite Ha. case_match; [by left|by right]. Qed.

Lemma release_process_decode s pid h :
  g_initialized s = true -> pid ≠ 0 ->
  decode (release_process s pid) h =
  match decode s h with
  | inl e => inl e
  | inr (i, slot) => if active (release_slot pid slot) then inr (i, release_slot pid slot)
                     else inl StaleHandle
  end.
Proof.
  intros Hi Hp. unfold release_process, INVALID_PROCESS_ID. rewrite Hi.
  replace (pid =? 0) with false by lia. simpl. unfold decode. simpl.
  destruct (negb (Z.land h kKindMask =? kKindEvent)); [done|].
  destruct ((Z.land h kIndexMask =? 0) || _); [done|].
  rewrite list_lookup_fmap. destruct (g_events s !! _) as [slot|]; simpl; [|done].
  assert (generation (release_slot pid slot) = generation slot) as Hgen.
  { unfold release_slot, maybe_reclaim, reclaim. by repeat case_match. }
  rewrite Hgen. destruct (active slot) eqn:Ha; simpl.
  - destruct (generation slot =? _); simpl; [|by rewrite orb_true_r].
    by destruct (active (release_slot pid slot)).
  - unfold release_slot. by rewrite Ha; simpl; rewrite Ha.
Qed.

(** [release_slot] drops the process and nobody else. *)
Lemma release_slot_access pid slot pid' :
  live_slot slot ->
  (active (release_slot pid slot) && can_access (release_slot pid slot) pid') =
  (negb (pid =? pid') && can_access slot pid').
Proof.
  intros Hl. unfold release_slot. rewrite (ls_active _ Hl). simpl.
  set (slot1 := if owner_pid slot =? pid then _ else _).
  set (slot2 := with_grants slot1 _).
  assert (can_access slot2 pid' = negb (pid =? pid') && can_access slot pid') as Hacc.
  { apply eq_iff_eq_true. rewrite andb_true_iff, !can_access_true, negb_true_iff, Z.eqb_neq.
    unfold slot2, slot1. split.
    - intros [(Ho & Hop)|(k & g & Hk & Ho & Hp)].
      + simpl in *. destruct (Z.eqb_spec (owner_pid slot) pid); simpl in *; [done|].
        split; [congruence|]. by left.
      + simpl in Hk. apply list_lookup_fmap_Some in Hk as (g0 & -> & Hk).
        destruct (grant_for pid g0) eqn:Hf; [done|]. split.
        * intros ->. rewrite (proj2 (grant_for_true pid' g0)) in Hf by done. done.
        * right. exists k, g0. by destruct (owner_pid slot =? pid).
    - intros [Hne [(Ho & Hop)|(k & g & Hk & Ho & Hp)]].
      + left. destruct (Z.eqb_spec (owner_pid slot) pid); simpl; [congruence|done].
      + right. exists k, g. split; [|done]. simpl.
        apply list_lookup_fmap_Some. exists g. split; [|by destruct (owner_pid slot =? pid)].
        destruct (grant_for pid g) eqn:Hf; [|done]. apply grant_for_true in Hf as [_ ?]. congruence. }
  assert (active slot2 = true) as Ha2 by (unfold slot2, slot1; simpl; case_match; apply Hl).
  rewrite <- Hacc. clearbody slot2. unfold maybe_reclaim. rewrite Ha2. simpl.
  destruct (has_open_reference slot2) eqn:Href; simpl; [by rewrite Ha2|].
  destruct (can_access slot2 pid') eqn:E; [|done]. exfalso.
  unfold has_open_reference in Href. case_match; [done|].
  apply can_access_true in E as [[_ ?]|(k & g & Hk & Ho & _)]; [congruence|].
  assert (existsb grant_open (grants slot2) = true); [|congruence].
  apply existsb_exists. exists g. split; [|done].
  apply list_elem_of_In. by eapply list_elem_of_lookup_2.
Qed.

(** ** Properties *)

(** A table after [initialize] in which process 7 owns an auto-reset event
    (handle [h0]) granted to process 8. *)
Definition example_state : State :=
  fold_left exec [OpInitialize; OpCreate 7 ResetMode_Auto true true; OpGrant 7 (encode 0 1) 8]
    boot_state.

(** Whatever calls are made, in whatever order and with whatever handles,
    every event slot stays either live with at least one open reference, a
    valid generation and pairwise distinct grantees, or completely cleared: no
    event is leaked and none is kept half torn down. *)
Theorem events_invariant ops : wf (fold_left exec ops boot_state).
Proof. apply event_run_wf, event_boot_wf. Qed.

(** A successful [create] returns a non-zero handle that was stale before,
    now names the new event for its owner only, and leaves every handle that
    was valid before naming the same event. *)
Theorem create_event_ok s owner md sig has_handle s' h :
  wf s -> create s owner md sig has_handle = (s', Ok, h) ->
  h ≠ INVALID_HANDLE /\ decode s h = inl StaleHandle /\
  (forall pid, can_use s' pid h = true <-> pid = owner) /\
  (forall h' i slot, decode s h' = inr (i, slot) -> decode s' h' = inr (i, slot)).
Proof.
  intros Hwf H. pose proof (event_create_wf s owner md sig has_handle Hwf) as Hwf'.
  rewrite H in Hwf'. simpl in Hwf'. unfold create in H.
  destruct (negb (g_initialized s)); [done|]. destruct (_ || _); [done|].
  destruct (find_index _ _) as [i|] eqn:Ef; [|done]. injection H as <- <-.
  pose proof (find_index_lt _ _ _ Ef) as Hlt. apply find_index_Some in Ef as [(old & Hi & Hold) _].
  rewrite Hi in *. simpl in *. apply negb_true_iff in Hold.
  set (g := next_generation (generation old)) in *. set (new := mkEvent g _ _ _ _ _ _) in *.
  destruct Hwf as [Hlen HF]. rewrite Hlen in Hlt.
  assert (g_events (store s i new) !! i = Some new) as Hnew
    by (apply list_lookup_insert_eq; lia).
  pose proof (event_wf_slot_live _ (event_wf_lookup _ _ _ Hwf' Hnew) eq_refl) as Hlive.
  pose proof (ls_gen _ Hlive) as Hg. pose proof (event_decode_encode _ _ _ Hnew Hlt eq_refl Hg) as Hd.
  change (generation new) with g in *.
  assert (0 <= g < 2 ^ 32) as Hg32 by (unfold gen_ok, kMaximumGeneration in Hg; lia).
  split; [|split; [|split]].
  - rewrite event_encode_value by done. unfold handle_value, INVALID_HANDLE, gen_ok in *. lia.
  - destruct (decode s (encode i g)) as [[]|[j slot]] eqn:E; try done;
      try (exfalso; unfold decode in E; repeat case_match; congruence).
    exfalso. apply event_decode_inr in E as (Hj & Ha & _ & _ & Hidx).
    rewrite event_encode_value, handle_index in Hidx by (done || unfold MAX_EVENTS in *; lia).
    replace j with i in Hj by lia. congruence.
  - intros pid. unfold can_use. rewrite Hd, can_access_true. simpl. split.
    + intros [[? _]|(k & gr & Hk & Ho & _)]; [done|].
      rewrite (replicate_empty_open 8 k gr Hk) in Ho. done.
    + intros ->. by left.
  - intros h' j slot (Hj & Ha & Hgen & Hk & Hidx)%event_decode_inr. unfold decode.
    rewrite Hk, Z.eqb_refl, Hidx. simpl. pose proof (lookup_lt_Some _ _ _ Hj) as Hjl.
    rewrite Hlen in Hjl. replace (_ || _) with false by lia.
    replace (Z.to_nat (Z.of_nat j + 1 - 1)) with j by lia.
    rewrite list_lookup_insert_ne, Hj, Ha, <- Hgen, Z.eqb_refl by congruence. done.
Qed.

Lemma create_event_ok_witness :
  can_use (fst (fst (create example_state 9 ResetMode_Manual false true))) 9 (encode 1 1) = true /\
  decode example_state (encode 1 1) = inl StaleHandle.
Proof.
  destruct (create_event_ok example_state 9 ResetMode_Manual false true
    (fst (fst (create example_state 9 ResetMode_Manual false true))) (encode 1 1)) as (_ & Hs & Hu & _).
  - apply event_run_wf, event_boot_wf.
  - vm_compute. reflexivity.
  - split; [apply Hu; reflexivity|exact Hs].
Defined.

(** Polling consumes an auto-reset event: a poll that returns Ok makes the
    next poll of the same event, by any process, block until a new signal; a
    manual-reset event stays signalled. *)
Theorem poll_consumes s pid h s' i slot :
  wf s -> decode s h = inr (i, slot) -> poll s pid h = (s', Ok) ->
  signaled slot = true /\
  (mode slot = ResetMode_Auto ->
     forall pid', can_use s pid' h = true -> pid' ≠ 0 ->
       poll s' pid' h = (s', WouldBlock) /\
       snd (poll (fst (signal s' pid h)) pid' h) = Ok) /\
  (mode slot = ResetMode_Manual -> s' = s).
Proof.
  intros Hwf Hd H. unfold poll in H. destruct (accessible s pid h) as [st|[j sl]] eqn:Ea;
    [unfold accessible in Ea; repeat case_match; congruence|].
  apply accessible_inr in Ea as (Hi & Hp & Hd' & Hacc).
  rewrite Hd in Hd'. injection Hd' as <- <-.
  destruct (signaled slot) eqn:Hs; [|done]. simpl in H. split; [done|].
  destruct (event_decode_inr _ _ _ _ Hd) as (Hl & _). split.
  - intros Hm pid' Hu Hp'. rewrite Hm, Z.eqb_refl in H. injection H as <-.
    assert (forall b, decode (store s i (with_signaled slot b)) h = inr (i, with_signaled slot b))
      as Hds by (intros b; rewrite (event_decode_store _ _ _ _ _ Hl), Hd, decide_True by done; done).
    unfold can_use in Hu. rewrite Hd in Hu.
    assert (forall b q, can_access (with_signaled slot b) q = can_access slot q) as Hca by done.
    assert (forall b q, q ≠ 0 -> can_access slot q = true ->
      accessible (store s i (with_signaled slot b)) q h = inr (i, with_signaled slot b)) as Hac.
    { intros b q Hq Hcq. unfold accessible, INVALID_PROCESS_ID. simpl. rewrite Hi, Hds, Hca, Hcq.
      replace (q =? 0) with false by lia. done. }
    split; [unfold poll; by rewrite Hac|].
    unfold signal. rewrite Hac by done. simpl.
    replace (store (store s i _) i _) with (store s i (with_signaled slot true)).
    + unfold poll. rewrite Hac by done. simpl. by rewrite Hm.
    + unfold store. simpl. by rewrite list_insert_insert_eq.
  - intros Hm. rewrite Hm in H. by injection H as <-.
Qed.

Lemma poll_consumes_witness :
  poll (fst (poll example_state 7 (encode 0 1))) 8 (encode 0 1) =
  (fst (poll example_state 7 (encode 0 1)), WouldBlock).
Proof.
  destruct (poll_consumes example_state 7 (encode 0 1) (fst (poll example_state 7 (encode 0 1)))
    0%nat (mkEvent 1 7 0 true true true (mkGrant 8 true :: replicate 7 empty_grant)))
    as (_ & H & _); [apply event_run_wf, event_boot_wf|vm_compute; reflexivity..|].
  apply H; [reflexivity..|discriminate].
Defined.

(** When a process exits, [release_process] takes away its access to every
    event and changes no other process's access to any event. *)
Theorem release_process_revokes s pid :
  wf s -> g_initialized s = true -> pid ≠ INVALID_PROCESS_ID ->
  forall h pid', can_use (release_process s pid) pid' h =
                 (negb (pid =? pid') && can_use s pid' h).
Proof.
  intros Hwf Hi Hp h pid'. unfold can_use. rewrite release_process_decode by done.
  destruct (decode s h) as [st|[i slot]] eqn:Hd; [by rewrite andb_false_r|].
  destruct (event_decode_live _ _ _ _ Hwf Hd) as [Hl _].
  rewrite <- (release_slot_access pid slot pid' Hl).
  by destruct (active (release_slot pid slot)).
Qed.

Lemma release_process_revokes_witness :
  can_use (release_process example_state 8) 8 (encode 0 1) = false /\
  can_use (release_process example_state 8) 7 (encode 0 1) = true.
Proof.
  split.
  - rewrite (release_process_revokes example_state 8); [reflexivity| |reflexivity|discriminate].
    apply event_run_wf, event_boot_wf.
  - rewrite (release_process_revokes example_state 8); [reflexivity| |reflexivity|discriminate].
    apply event_run_wf, event_boot_wf.
Defined.
