(* ===== verification/SharedMemory.v ===== *)
(** * Shared memory objects (kernel/ipc/shared_memory.cpp)

    A table of 16 objects of at most 16 pages.  The pages come from
    [memory::alloc_frame] and go back through [memory::free_frame]: the model is
    parameterised by an allocator that satisfies the interface of
    FrameAllocator.v and threads its state.  [page_bytes] is the content of the
    physical pages, written by [zero_frame]. *)

From S2P Require Import Prelude Handles FrameAllocator PhysicalMemory.

(** ** Data *)

Definition INVALID_PROCESS_ID : Z := 0.
Definition INVALID_HANDLE : Z := 0.
Definition MAX_OBJECTS : nat := 16.
Definition MAX_PAGES_PER_OBJECT : nat := 16.
Definition MAX_GRANTS_PER_OBJECT : nat := 8.
Definition PAGE_SIZE : Z := 4096.
Definition kKindSharedMemory : Z := Z.shiftl 3 16.

Inductive Status :=
| Ok | AlreadyInitialized | NotInitialized | InvalidArgument | OutOfRange | OutOfMemory
| CapacityReached | StaleHandle | AccessDenied | AlreadyGranted | NotFound | Busy.

#[export] Instance Status_eq_dec : EqDecision Status.
Proof. solve_decision. Defined.

Record AccessSlot := mkAccess { a_pid : Z; a_mappings : Z; a_open : bool }.

Record ObjectSlot := mkObject {
  generation : Z;
  owner_pid : Z;
  frames : list Z;
  page_count : Z;
  size : Z;
  owner_mappings : Z;
  active : bool;
  owner_open : bool;
  grants : list AccessSlot;
}.

Record View := mkView { v_frames : list Z; v_page_count : Z; v_size : Z }.

Definition empty_access : AccessSlot := mkAccess 0 0 false.
Definition empty_view : View := mkView (replicate MAX_PAGES_PER_OBJECT 0) 0 0.

(** [clear_bytes] of a slot whose generation is kept. *)
Definition empty_slot (generation : Z) : ObjectSlot :=
  mkObject generation 0 (replicate MAX_PAGES_PER_OBJECT 0) 0 0 0 false false
    (replicate MAX_GRANTS_PER_OBJECT empty_access).

(** The pointers [access_slot] returns: the owner's fields or those of a grant. *)
Inductive AccessRef := OwnerRef | GrantRef (k : nat).

Definition ref_open (slot : ObjectSlot) (r : AccessRef) : bool :=
  match r with
  | OwnerRef => owner_open slot
  | GrantRef k => default false (a_open <$> grants slot !! k)
  end.

Definition ref_mappings (slot : ObjectSlot) (r : AccessRef) : Z :=
  match r with
  | OwnerRef => owner_mappings slot
  | GrantRef k => default 0 (a_mappings <$> grants slot !! k)
  end.

Definition with_owner (slot : ObjectSlot) (mappings : Z) (open : bool) : ObjectSlot :=
  mkObject (generation slot) (owner_pid slot) (frames slot) (page_count slot) (size slot)
    mappings (active slot) open (grants slot).

Definition with_grants (slot : ObjectSlot) (g : list AccessSlot) : ObjectSlot :=
  mkObject (generation slot) (owner_pid slot) (frames slot) (page_count slot) (size slot)
    (owner_mappings slot) (active slot) (owner_open slot) g.

Definition set_mappings (slot : ObjectSlot) (r : AccessRef) (m : Z) : ObjectSlot :=
  match r with
  | OwnerRef => with_owner slot m (owner_open slot)
  | GrantRef k =>
    with_grants slot (alter (fun a => mkAccess (a_pid a) m (a_open a)) k (grants slot))
  end.

Definition set_open (slot : ObjectSlot) (r : AccessRef) (b : bool) : ObjectSlot :=
  match r with
  | OwnerRef => with_owner slot (owner_mappings slot) b
  | GrantRef k =>
    with_grants slot (alter (fun a => mkAccess (a_pid a) (a_mappings a) b) k (grants slot))
  end.

Definition encode (index : nat) (generation : Z) : Z :=
  Z.lor (Z.lor (Z.shiftl generation 32) kKindSharedMemory) (Z.of_nat index + 1).

Definition grant_live (a : AccessSlot) : bool := a_open a || negb (a_mappings a =? 0).

Definition find_grant (slot : ObjectSlot) (pid : Z) : option nat :=
  find_index (fun a => (a_pid a =? pid) && grant_live a) (grants slot).

Definition has_live_access (slot : ObjectSlot) : bool :=
  if owner_open slot || negb (owner_mappings slot =? 0) then true
  else existsb grant_live (grants slot).

Definition access_slot (slot : ObjectSlot) (pid : Z) : Status + AccessRef :=
  if pid =? owner_pid slot
  then if owner_open slot || negb (owner_mappings slot =? 0) then inr OwnerRef else inl AccessDenied
  else match find_grant slot pid with
       | None => inl AccessDenied
       | Some k => inr (GrantRef k)
       end.

(** ** Operations *)

Section shared_memory.
Context {F : Type} `{FA : FrameAllocator F}.

Record State := mkState {
  g_objects : list ObjectSlot;
  g_initialized : bool;
  allocator : F;
  page_bytes : gmap Z (list Z);
}.

Definition store (s : State) (index : nat) (slot : ObjectSlot) : State :=
  mkState (<[index := slot]> (g_objects s)) (g_initialized s) (allocator s) (page_bytes s).

Definition with_memory (s : State) (fa : F) (bytes : gmap Z (list Z)) : State :=
  mkState (g_objects s) (g_initialized s) fa bytes.

Definition zero_frame (bytes : gmap Z (list Z)) (frame : Z) : gmap Z (list Z) :=
  <[frame := replicate (Z.to_nat PAGE_SIZE) 0]> bytes.

Definition decode (s : State) (handle : Z) : Status + (nat * ObjectSlot) :=
  if negb (Z.land handle kKindMask =? kKindSharedMemory) then inl StaleHandle else
  let encoded := Z.land handle kIndexMask in
  if (encoded =? 0) || (Z.of_nat MAX_OBJECTS <? encoded) then inl StaleHandle else
  let index := Z.to_nat (encoded - 1) in
  match g_objects s !! index with
  | None => inl StaleHandle
  | Some slot =>
    if negb (active slot) || negb (generation slot =? u32 (Z.shiftr handle 32))
    then inl StaleHandle else inr (index, slot)
  end.

(** The frames [reclaim] returns, in the order it returns them. *)
Definition free_all (fa : F) (fs : list Z) : F :=
  fold_left (fun fa frame => if frame =? 0 then fa else fa_free fa frame) fs fa.

Definition reclaim (s : State) (index : nat) (slot : ObjectSlot) : State :=
  let fa := free_all (allocator s) (take (Z.to_nat (page_count slot)) (frames slot)) in
  store (with_memory s fa (page_bytes s)) index (empty_slot (generation slot)).

(** Writing back a modified slot and then [maybe_reclaim]. *)
Definition maybe_reclaim (s : State) (index : nat) (slot : ObjectSlot) : State :=
  if active slot && negb (has_live_access slot) then reclaim s index slot
  else store s index slot.

Definition initialize (s : State) : State * Status :=
  if g_initialized s then (s, AlreadyInitialized) else
  (mkState (replicate MAX_OBJECTS (empty_slot 0)) true (allocator s) (page_bytes s), Ok).

(** The allocation loop of [create]: [inl] when [alloc_frame] returned null at
    page [index], with the earlier pages already returned. *)
Fixpoint allocate_pages (n : nat) (index : nat) (fs : list Z) (fa : F)
    (bytes : gmap Z (list Z)) : F * gmap Z (list Z) * option (list Z) :=
  match n with
  | O => (fa, bytes, Some fs)
  | S n' =>
    let (fa', frame) := fa_alloc fa in
    if frame =? 0
    then (fold_left fa_free (take index fs) fa', bytes, None)
    else allocate_pages n' (S index) (<[index := frame]> fs) fa' (zero_frame bytes frame)
  end.

Definition create (s : State) (owner sz : Z) (has_handle : bool) : State * Status * Z :=
  if negb (g_initialized s) then (s, NotInitialized, INVALID_HANDLE) else
  if (owner =? INVALID_PROCESS_ID) || negb has_handle || (sz =? 0)
  then (s, InvalidArgument, INVALID_HANDLE) else
  if Z.of_nat MAX_PAGES_PER_OBJECT * PAGE_SIZE <? sz then (s, OutOfRange, INVALID_HANDLE) else
  let pages := (sz + PAGE_SIZE - 1) / PAGE_SIZE in
  match find_index (fun slot => negb (active slot)) (g_objects s) with
  | None => (s, CapacityReached, INVALID_HANDLE)
  | Some index =>
    let gen := next_generation (default 0 (generation <$> g_objects s !! index)) in
    match allocate_pages (Z.to_nat pages) 0 (replicate MAX_PAGES_PER_OBJECT 0)
            (allocator s) (page_bytes s) with
    | (fa, bytes, None) =>
      (store (with_memory s fa bytes) index (empty_slot gen), OutOfMemory, INVALID_HANDLE)
    | (fa, bytes, Some fs) =>
      (store (with_memory s fa bytes) index
         (mkObject gen owner fs pages sz 0 true true
            (replicate MAX_GRANTS_PER_OBJECT empty_access)), Ok, encode index gen)
    end
  end.

(** The two loops of [grant] over the grant array. *)
Definition grant_target (gs : list AccessSlot) (target : Z) : Status * option nat :=
  match find_index (fun a => (a_pid a =? target) && grant_live a) gs with
  | Some k => if default false (a_open <$> gs !! k) then (AlreadyGranted, None) else (Ok, Some k)
  | None =>
    match find_index (fun a => (a_pid a =? INVALID_PROCESS_ID) && (a_mappings a =? 0)) gs with
    | Some k => (Ok, Some k)
    | None => (CapacityReached, None)
    end
  end.

Definition grant (s : State) (owner handle target : Z) : State * Status :=
  if negb (g_initialized s) then (s, NotInitialized) else
  if (owner =? INVALID_PROCESS_ID) || (target =? INVALID_PROCESS_ID) || (owner =? target)
  then (s, InvalidArgument) else
  match decode s handle with
  | inl status => (s, status)
  | inr (index, slot) =>
    if negb (owner_pid slot =? owner) || negb (owner_open slot) then (s, AccessDenied) else
    match grant_target (grants slot) target with
    | (status, None) => (s, status)
    | (status, Some k) =>
      (store s index (with_grants slot
         (alter (fun a => mkAccess target (a_mappings a) true) k (grants slot))), status)
    end
  end.

Definition acquire (s : State) (pid handle : Z) (has_view : bool) : State * Status * View :=
  if negb (g_initialized s) then (s, NotInitialized, empty_view) else
  if (pid =? INVALID_PROCESS_ID) || negb has_view then (s, InvalidArgument, empty_view) else
  match decode s handle with
  | inl status => (s, status, empty_view)
  | inr (index, slot) =>
    match access_slot slot pid with
    | inl _ => (s, AccessDenied, empty_view)
    | inr r =>
      if negb (ref_open slot r) then (s, AccessDenied, empty_view) else
      if ref_mappings slot r =? UINT16_MAX then (s, Busy, empty_view) else
      (store s index (set_mappings slot r (ref_mappings slot r + 1)), Ok,
       mkView (take (Z.to_nat (page_count slot)) (frames slot) ++
                 replicate (MAX_PAGES_PER_OBJECT - Z.to_nat (page_count slot)) 0)
         (page_count slot) (size slot))
    end
  end.

Definition release (s : State) (pid handle : Z) : State * Status :=
  if negb (g_initialized s) then (s, NotInitialized) else
  if pid =? INVALID_PROCESS_ID then (s, InvalidArgument) else
  match decode s handle with
  | inl status => (s, status)
  | inr (index, slot) =>
    match access_slot slot pid with
    | inl _ => (s, NotFound)
    | inr r =>
      if ref_mappings slot r =? 0 then (s, NotFound) else
      (maybe_reclaim s index (set_mappings slot r (ref_mappings slot r - 1)), Ok)
    end
  end.

Definition close (s : State) (pid handle : Z) : State * Status :=
  if negb (g_initialized s) then (s, NotInitialized) else
  if pid =? INVALID_PROCESS_ID then (s, InvalidArgument) else
  match decode s handle with
  | inl status => (s, status)
  | inr (index, slot) =>
    match access_slot slot pid with
    | inl _ => (s, AccessDenied)
    | inr r =>
      if negb (ref_open slot r) then (s, AccessDenied) else
      (maybe_reclaim s index (set_open slot r false), Ok)
    end
  end.

(** The body of the loop of [release_process] on one active slot. *)
Definition drop_process (pid : Z) (slot : ObjectSlot) : ObjectSlot :=
  let slot := if owner_pid slot =? pid then with_owner slot 0 false else slot in
  with_grants slot
    ((fun a => if a_pid a =? pid then mkAccess (a_pid a) 0 false else a) <$> grants slot).

Fixpoint release_loop (n index : nat) (pid : Z) (s : State) : State :=
  match n with
  | O => s
  | S n' =>
    release_loop n' (S index) pid
      match g_objects s !! index with
      | Some slot => if active slot then maybe_reclaim s index (drop_process pid slot) else s
      | None => s
      end
  end.

Definition release_process (s : State) (pid : Z) : State :=
  if negb (g_initialized s) || (pid =? INVALID_PROCESS_ID) then s else
  release_loop MAX_OBJECTS 0 pid s.

Inductive Op :=
| OpInitialize
| OpCreate (owner sz : Z) (has_handle : bool)
| OpGrant (owner handle target : Z)
| OpAcquire (pid handle : Z) (has_view : bool)
| OpRelease (pid handle : Z)
| OpClose (pid handle : Z)
| OpExit (pid : Z).

Definition exec (s : State) (op : Op) : State :=
  match op with
  | OpInitialize => fst (initialize s)
  | OpCreate owner sz has_handle => fst (fst (create s owner sz has_handle))
  | OpGrant owner handle target => fst (grant s owner handle target)
  | OpAcquire pid handle has_view => fst (fst (acquire s pid handle has_view))
  | OpRelease pid handle => fst (release s pid handle)
  | OpClose pid handle => fst (close s pid handle)
  | OpExit pid => release_process s pid
  end.

(** The table before [initialize], over an allocator in some state. *)
Definition boot_state (fa : F) (bytes : gmap Z (list Z)) : State :=
  mkState (replicate MAX_OBJECTS (empty_slot 0)) false fa bytes.


(** ** The invariant *)

(** The frames a slot holds, and all the frames held by the table. *)
Definition slot_frames (slot : ObjectSlot) : list Z :=
  if active slot then take (Z.to_nat (page_count slot)) (frames slot) else [].

Definition object_frames (s : State) : list Z := g_objects s ≫= slot_frames.

Definition u16_ok (m : Z) : Prop := 0 <= m <= UINT16_MAX.

Record live_slot (slot : ObjectSlot) : Prop := {
  ls_active : active slot = true;
  ls_gen : gen_ok (generation slot);
  ls_owner : owner_pid slot ≠ 0;
  ls_size : 0 < size slot <= Z.of_nat MAX_PAGES_PER_OBJECT * PAGE_SIZE;
  ls_pages : page_count slot = (size slot + PAGE_SIZE - 1) / PAGE_SIZE;
  ls_frames : length (frames slot) = MAX_PAGES_PER_OBJECT;
  ls_grants : length (grants slot) = MAX_GRANTS_PER_OBJECT;
  ls_omap : u16_ok (owner_mappings slot);
  ls_gmap : Forall (fun a => u16_ok (a_mappings a)) (grants slot);
}.

Definition wf_slot (slot : ObjectSlot) : Prop :=
  (live_slot slot /\ has_live_access slot = true) \/
  (slot = empty_slot (generation slot) /\ 0 <= generation slot <= kMaximumGeneration).

(** [other] are the frames the rest of the kernel holds.  The frames owned from
    the allocator are exactly those and the frames of the live objects, and no
    frame belongs to two objects or to an object and to the rest. *)
Record wf (other : gset Z) (s : State) : Prop := {
  wf_init : g_initialized s = true;
  wf_len : length (g_objects s) = MAX_OBJECTS;
  wf_slots : Forall wf_slot (g_objects s);
  wf_alloc : fa_ok (allocator s);
  wf_nodup : NoDup (object_frames s);
  wf_disj : other ## list_to_set (object_frames s);
  wf_owned : fa_owned (allocator s) = other ∪ list_to_set (object_frames s);
}.

Lemma shm_empty_slot_wf g : 0 <= g <= kMaximumGeneration -> wf_slot (empty_slot g).
Proof. intros H. by right. Qed.

Lemma shm_wf_slot_live slot : wf_slot slot -> active slot = true -> live_slot slot.
Proof. intros [[? _]|[-> _]]; [done|]. by simpl. Qed.

Lemma shm_wf_slot_gen slot : wf_slot slot -> 0 <= generation slot.
Proof. intros [[H _]|[_ ?]]; [|lia]. pose proof (ls_gen _ H). unfold gen_ok in *. lia. Qed.

Lemma shm_wf_lookup other s i slot : wf other s -> g_objects s !! i = Some slot -> wf_slot slot.
Proof. intros Hwf H. pose proof (wf_slots _ _ Hwf) as HF. rewrite Forall_lookup in HF. by eapply HF. Qed.

(** ** Frames of the table when one slot is replaced *)

Lemma frames_split s i slot :
  g_objects s !! i = Some slot ->
  object_frames s ≡ₚ slot_frames slot ++ (delete i (g_objects s) ≫= slot_frames).
Proof.
  intros H. unfold object_frames. rewrite (delete_Permutation _ _ _ H) at 1. done.
Qed.

Lemma frames_store s i old new :
  g_objects s !! i = Some old ->
  object_frames (store s i new) ≡ₚ slot_frames new ++ (delete i (g_objects s) ≫= slot_frames).
Proof.
  intros H. rewrite (frames_split (store s i new) i new); simpl.
  - replace (delete i (<[i:=new]> (g_objects s))) with (delete i (g_objects s)); [done|].
    rewrite !delete_take_drop. by rewrite take_insert_ge, drop_insert_lt by lia.
  - apply list_lookup_insert_eq. by eapply lookup_lt_Some.
Qed.

Lemma wf_replace other s i old new fa bytes :
  wf other s -> g_objects s !! i = Some old -> wf_slot new -> fa_ok fa ->
  NoDup (slot_frames new) ->
  (forall a, a ∈ slot_frames new -> a ∈ slot_frames old \/ (a ∉ fa_owned (allocator s))) ->
  fa_owned fa = (fa_owned (allocator s) ∖ list_to_set (slot_frames old)) ∪
                list_to_set (slot_frames new) ->
  wf other (store (with_memory s fa bytes) i new).
Proof.
  intros [Hini Hlen HF Hok Hnd Hdj Hown] Hi Hnew Hfa Hnd' Hfresh Howned.
  pose proof (frames_split _ _ _ Hi) as Ps. pose proof (frames_store (with_memory s fa bytes) i old new Hi) as Pn.
  change (g_objects (with_memory s fa bytes)) with (g_objects s) in Pn.
  set (R := delete i (g_objects s) ≫= slot_frames) in *.
  assert (list_to_set (object_frames s) =@{gset Z} list_to_set (slot_frames old) ∪ list_to_set R)
    as Es by (rewrite Ps; apply list_to_set_app_L).
  assert (list_to_set (object_frames (store (with_memory s fa bytes) i new)) =@{gset Z}
    list_to_set (slot_frames new) ∪ list_to_set R)
    as En by (rewrite Pn; apply list_to_set_app_L).
  rewrite Ps in Hnd. apply NoDup_app in Hnd as (Hno & Hdis & HnR).
  rewrite Es in *.
  assert (forall a, a ∈ slot_frames new -> a ∉ R) as HnewR.
  { intros a Ha HR. destruct (Hfresh a Ha) as [Ho|Ho]; [by apply (Hdis a)|].
    apply Ho. rewrite Hown. set_solver. }
  assert (forall a, a ∈ slot_frames new -> a ∉ other) as Hnewo.
  { intros a Ha Hot. destruct (Hfresh a Ha) as [Ho|Ho]; [set_solver|].
    apply Ho. rewrite Hown. set_solver. }
  constructor; simpl; try done.
  - by rewrite length_insert.
  - by apply Forall_insert.
  - rewrite Pn. apply NoDup_app. split; [done|]. split; [|done]. apply HnewR.
  - rewrite En. set_solver.
  - rewrite Howned, Hown, En. clear - Hdj Hdis.
    apply set_eq. intros a. rewrite !elem_of_union, elem_of_difference, !elem_of_union,
      !elem_of_list_to_set. set_solver.
Qed.

(** ** The allocator calls *)

Lemma free_all_spec fs : forall fa,
  fa_ok fa -> NoDup fs -> list_to_set fs ⊆ fa_owned fa ->
  fa_ok (free_all fa fs) /\ fa_owned (free_all fa fs) = fa_owned fa ∖ list_to_set fs.
Proof.
  induction fs as [|f fs IH]; intros fa Hok Hnd Hsub; simpl.
  - split; [done|]. set_solver.
  - apply NoDup_cons in Hnd as [Hf Hnd]. assert (f ∈ fa_owned fa) as Hfo by set_solver.
    destruct (Z.eqb_spec f 0) as [->|Hne]; [by destruct (fa_owned_nonnull fa Hok)|].
    destruct (fa_free_owned fa f Hok Hfo) as [Hok' Eo].
    destruct (IH (fa_free fa f) Hok' Hnd) as [H1 H2]; [rewrite Eo; set_solver|].
    split; [done|]. unfold free_all in *. rewrite H2, Eo. set_solver.
Qed.

Lemma fold_free_all fs fa : 0 ∉ fs -> fold_left fa_free fs fa = free_all fa fs.
Proof.
  revert fa. induction fs as [|f fs IH]; intros fa H; simpl; [done|].
  destruct (Z.eqb_spec f 0) as [->|]; [set_solver|]. apply IH. set_solver.
Qed.

(** What the allocation loop has acquired so far, on top of [base]. *)
Definition acquired (base : gset Z) (fa : F) (held : list Z) : Prop :=
  fa_ok fa /\ NoDup held /\ fa_owned fa = base ∪ list_to_set held /\ base ## list_to_set held.

Lemma take_S_insert (fs : list Z) index f :
  (index < length fs)%nat -> take (S index) (<[index := f]> fs) = take index fs ++ [f].
Proof.
  intros H. rewrite (take_S_r _ _ f) by (by apply list_lookup_insert_eq).
  by rewrite take_insert_ge.
Qed.

Definition zeroed (bytes : gmap Z (list Z)) (a : Z) : Prop :=
  bytes !! a = Some (replicate (Z.to_nat PAGE_SIZE) 0).

Lemma allocate_pages_spec base n : forall index fs fa bytes fa' bytes' r,
  (index + n <= length fs)%nat -> acquired base fa (take index fs) ->
  (forall a, a ∈ take index fs -> zeroed bytes a) ->
  allocate_pages n index fs fa bytes = (fa', bytes', r) ->
  match r with
  | Some fs' => length fs' = length fs /\ acquired base fa' (take (index + n) fs') /\
                (forall a, a ∈ take (index + n) fs' -> zeroed bytes' a)
  | None => fa_ok fa' /\ fa_owned fa' = base
  end.
Proof.
  induction n as [|n IH]; intros index fs fa bytes fa' bytes' r Hn Hacq Hz H; simpl in H.
  - injection H as <- <- <-. rewrite Nat.add_0_r. done.
  - destruct (fa_alloc fa) as [fa1 f] eqn:Ef. destruct Hacq as (Hok & Hnd & Ho & Hd).
    destruct (Z.eqb_spec f 0) as [->|Hf].
    + injection H as <- <- <-. apply fa_alloc_null in Ef as ->; [|done].
      assert (0 ∉ take index fs) as H0.
      { intros Hin. apply (fa_owned_nonnull fa Hok). rewrite Ho. set_solver. }
      rewrite fold_free_all by done.
      destruct (free_all_spec (take index fs) fa Hok Hnd) as [Hok' Eo]; [rewrite Ho; set_solver|].
      split; [done|]. rewrite Eo, Ho. set_solver.
    + destruct (fa_alloc_fresh fa fa1 f Hok Ef Hf) as (Hok' & Hfresh & Eo).
      rewrite Ho in Hfresh, Eo.
      assert (f ∉ take index fs) as Hfn by set_solver.
      specialize (IH (S index) (<[index:=f]> fs) fa1 (zero_frame bytes f) fa' bytes' r).
      rewrite length_insert in IH. replace (S index + n)%nat with (index + S n)%nat in IH by lia.
      apply IH; [lia| | |done]; rewrite take_S_insert by lia.
      * split; [done|]. split; [|split].
        -- apply NoDup_app. split; [done|]. split; [set_solver|apply NoDup_singleton].
        -- rewrite Eo, list_to_set_app_L. set_solver.
        -- rewrite list_to_set_app_L. set_solver.
      * intros a Ha. unfold zeroed, zero_frame. destruct (decide (f = a)) as [->|Hne].
        -- apply lookup_insert_eq.
        -- rewrite lookup_insert_ne by done. apply Hz. set_solver.
Qed.

(** ** Every operation preserves the invariant *)

Section preservation.
Context (other : gset Z).

Lemma slot_frames_nodup s i slot : wf other s -> g_objects s !! i = Some slot -> NoDup (slot_frames slot).
Proof.
  intros Hwf Hi. pose proof (wf_nodup _ _ Hwf) as Hnd. rewrite (frames_split _ _ _ Hi) in Hnd.
  by apply NoDup_app in Hnd as [? _].
Qed.

Lemma slot_frames_owned s i slot :
  wf other s -> g_objects s !! i = Some slot ->
  list_to_set (slot_frames slot) ⊆ fa_owned (allocator s).
Proof.
  intros Hwf Hi. rewrite (wf_owned _ _ Hwf). intros a Ha%elem_of_list_to_set.
  apply elem_of_union_r, elem_of_list_to_set. rewrite (frames_split _ _ _ Hi). set_solver.
Qed.

Lemma shm_store_wf s i old new :
  wf other s -> g_objects s !! i = Some old -> wf_slot new ->
  slot_frames new = slot_frames old -> wf other (store s i new).
Proof.
  intros Hwf Hi Hnew E.
  pose proof (slot_frames_owned _ _ _ Hwf Hi) as Hsub.
  apply (wf_replace other s i old new (allocator s) (page_bytes s)); try done.
  - apply Hwf.
  - rewrite E. by eapply slot_frames_nodup.
  - intros a Ha. left. by rewrite <- E.
  - rewrite E. apply set_eq. intros a. rewrite elem_of_union, elem_of_difference.
    destruct (decide (a ∈@{gset Z} list_to_set (slot_frames old))); set_solver.
Qed.

Lemma shm_maybe_reclaim_wf s i old new :
  wf other s -> g_objects s !! i = Some old -> live_slot new ->
  slot_frames new = slot_frames old -> wf other (maybe_reclaim s i new).
Proof.
  intros Hwf Hi Hl E. unfold maybe_reclaim. rewrite (ls_active _ Hl). simpl.
  destruct (has_live_access new) eqn:Hacc; simpl; [eapply shm_store_wf; [done..|by left|done]|].
  unfold reclaim. assert (take (Z.to_nat (page_count new)) (frames new) = slot_frames old) as ->.
  { rewrite <- E. unfold slot_frames. by rewrite (ls_active _ Hl). }
  destruct (free_all_spec (slot_frames old) (allocator s)) as [Hok Hown].
  - apply Hwf.
  - by eapply slot_frames_nodup.
  - by eapply slot_frames_owned.
  - apply (wf_replace other s i old); try done.
    + apply shm_empty_slot_wf. pose proof (ls_gen _ Hl). unfold gen_ok in *. lia.
    + apply NoDup_nil_2.
    + intros a Ha. by apply elem_of_nil in Ha.
    + rewrite Hown. simpl. set_solver.
Qed.

Lemma shm_decode_inr s h i slot :
  decode s h = inr (i, slot) -> g_objects s !! i = Some slot /\ active slot = true.
Proof.
  unfold decode. destruct (negb (Z.land h kKindMask =? kKindSharedMemory)); [done|].
  destruct ((Z.land h kIndexMask =? 0) || _); [done|].
  destruct (g_objects s !! _) as [sl|] eqn:E; [|done].
  destruct (negb (active sl) || _) eqn:E4; [done|]. intros [= <- <-].
  apply orb_false_iff in E4 as [E4%negb_false_iff _]. done.
Qed.

Lemma shm_decode_live s h i slot :
  wf other s -> decode s h = inr (i, slot) -> g_objects s !! i = Some slot /\ live_slot slot.
Proof.
  intros Hwf (Hi & Ha)%shm_decode_inr. split; [done|].
  apply shm_wf_slot_live; [by eapply shm_wf_lookup|done].
Qed.

Lemma set_mappings_live slot r m : live_slot slot -> u16_ok m -> live_slot (set_mappings slot r m).
Proof.
  intros [] Hm. destruct r; constructor; simpl; try done.
  - by rewrite length_alter.
  - apply Forall_alter; done.
Qed.

Lemma set_open_live slot r b : live_slot slot -> live_slot (set_open slot r b).
Proof.
  intros []. destruct r; constructor; simpl; try done.
  - by rewrite length_alter.
  - apply Forall_alter; done.
Qed.

Lemma drop_process_live pid slot : live_slot slot -> live_slot (drop_process pid slot).
Proof.
  intros Hl. unfold drop_process.
  set (slot1 := if owner_pid slot =? pid then with_owner slot 0 false else slot).
  assert (live_slot slot1) as [] by (unfold slot1; case_match; [destruct Hl; by constructor|done]).
  constructor; simpl; try done.
  - by rewrite length_fmap.
  - apply Forall_fmap. eapply Forall_impl; [done|]. intros x Hx. simpl. by destruct (a_pid x =? pid).
Qed.

Lemma ref_mappings_ok slot r : live_slot slot -> u16_ok (ref_mappings slot r).
Proof.
  intros Hl. destruct r as [|k]; simpl; [apply Hl|].
  destruct (grants slot !! k) eqn:E; simpl; [|done].
  pose proof (ls_gmap _ Hl) as HF. rewrite Forall_lookup in HF. by eapply HF.
Qed.

Lemma slot_frames_set_mappings slot r m : slot_frames (set_mappings slot r m) = slot_frames slot.
Proof. by destruct r. Qed.
Lemma slot_frames_set_open slot r b : slot_frames (set_open slot r b) = slot_frames slot.
Proof. by destruct r. Qed.
Lemma slot_frames_drop pid slot : slot_frames (drop_process pid slot) = slot_frames slot.
Proof. unfold drop_process, slot_frames. simpl. by destruct (owner_pid slot =? pid). Qed.

Lemma create_pages sz :
  0 < sz <= Z.of_nat MAX_PAGES_PER_OBJECT * PAGE_SIZE ->
  1 <= (sz + PAGE_SIZE - 1) / PAGE_SIZE <= 16.
Proof. unfold PAGE_SIZE, MAX_PAGES_PER_OBJECT. intros. zdm. Qed.

(** [create]: the object it publishes owns fresh, zeroed frames; on failure
    nothing is owned that was not owned before. *)
Lemma create_cases s owner sz hh s' st h :
  wf other s -> is_u64 sz -> create s owner sz hh = (s', st, h) ->
  wf other s' /\
  (st = Ok -> exists i slot, g_objects s' !! i = Some slot /\ active slot = true /\
     (i < MAX_OBJECTS)%nat /\
     (exists old, g_objects s !! i = Some old /\ active old = false /\
        generation slot = next_generation (generation old)) /\
     h = encode i (generation slot) /\ owner_pid slot = owner /\ owner_open slot = true /\
     gen_ok (generation slot) /\ size slot = sz /\
     Z.of_nat (length (slot_frames slot)) = (sz + PAGE_SIZE - 1) / PAGE_SIZE /\
     (forall a, a ∈ slot_frames slot -> a ≠ 0 /\ (a ∉ fa_owned (allocator s)) /\
                zeroed (page_bytes s') a)).
Proof.
  intros Hwf Hsz H. unfold create, INVALID_PROCESS_ID in H.
  destruct (negb (g_initialized s)); [by injection H as <- <- _|].
  destruct ((owner =? 0) || negb hh || (sz =? 0)) eqn:E1; [by injection H as <- <- _|].
  destruct (_ <? sz) eqn:E2; [by injection H as <- <- _|].
  destruct (find_index _ _) as [i|] eqn:Ef; [|by injection H as <- <- _].
  apply find_index_lt in Ef as Hlt. apply find_index_Some in Ef as [(old & Hi & Hold%negb_true_iff) _].
  rewrite Hi in H. change (default 0 (generation <$> Some old)) with (generation old) in H.
  rewrite (wf_len _ _ Hwf) in Hlt.
  pose proof (shm_wf_lookup _ _ _ _ Hwf Hi) as Hwo. pose proof (shm_wf_slot_gen _ Hwo) as Hg0.
  pose proof (next_generation_ok _ Hg0) as Hg. set (g := next_generation (generation old)) in *.
  assert (0 < sz <= Z.of_nat MAX_PAGES_PER_OBJECT * PAGE_SIZE) as Hs by (unfold is_u64 in *; lia).
  pose proof (create_pages sz Hs) as Hp. set (pages := (sz + PAGE_SIZE - 1) / PAGE_SIZE) in *.
  assert (slot_frames old = []) as Eold by (unfold slot_frames; by rewrite Hold).
  destruct (allocate_pages _ _ _ _ _) as [[fa bytes] r] eqn:Ea.
  apply (allocate_pages_spec (fa_owned (allocator s))) in Ea;
    [|rewrite length_replicate; unfold MAX_PAGES_PER_OBJECT; lia
     |split; [apply Hwf|]; simpl; split; [apply NoDup_nil_2|set_solver]
     |simpl; intros a Ha; by apply elem_of_nil in Ha].
  destruct r as [fs|]; injection H as <- <- <-.
  - destruct Ea as (Hlen & (Hok & Hnd & Hown & Hdj) & Hz). rewrite Nat.add_0_l in *.
    set (new := mkObject g owner fs pages sz 0 true true _).
    assert (slot_frames new = take (Z.to_nat pages) fs) as Enew by done.
    rewrite length_replicate in Hlen. rewrite <- Enew in *.
    assert (live_slot new) as Hnew.
    { constructor; simpl; try done; [lia|].
      repeat (apply Forall_cons; split; [done|]). by apply Forall_nil. }
    split.
    + apply (wf_replace other s i old); try done; [by left| |].
      * intros a Ha. right. set_solver.
      * rewrite Hown, Eold. simpl. set_solver.
    + intros _. exists i, new.
      split; [apply list_lookup_insert_eq; simpl; by rewrite (wf_len _ _ Hwf)|]. split; [done|]. split; [done|]. split; [by exists old|].
      repeat (split; [done|]). split.
      * rewrite Enew, length_take. unfold MAX_PAGES_PER_OBJECT in Hlen. lia.
      * intros a Ha. split; [|split; [set_solver|by apply Hz]]. intros ->.
        apply (fa_owned_nonnull fa Hok). rewrite Hown. set_solver.
  - destruct Ea as [Hok Hown]. split; [|done].
    apply (wf_replace other s i old); try done.
    + apply shm_empty_slot_wf. unfold gen_ok in Hg. lia.
    + apply NoDup_nil_2.
    + intros a Ha. by apply elem_of_nil in Ha.
    + rewrite Hown, Eold. simpl. set_solver.
Qed.

Lemma shm_grant_wf s owner h target : wf other s -> wf other (fst (grant s owner h target)).
Proof.
  intros Hwf. unfold grant. repeat case_match; simpl; try done.
  match goal with Hd : decode _ _ = _, Ho : negb (_ =? _) || _ = false |- _ =>
    destruct (shm_decode_live _ _ _ _ Hwf Hd) as [Hi Hl];
    apply orb_false_iff in Ho as [_ Hopen%negb_false_iff] end.
  eapply shm_store_wf; [done..| |done]. left. split.
  - destruct Hl. constructor; simpl; try done; [by rewrite length_alter|by apply Forall_alter].
  - unfold has_live_access. simpl. by rewrite Hopen.
Qed.

Lemma has_live_access_mapped slot r m :
  live_slot slot -> ref_open slot r = true -> has_live_access (set_mappings slot r m) = true.
Proof.
  intros Hl Ho. unfold has_live_access. destruct r as [|k]; simpl in *; [by rewrite Ho|].
  destruct (owner_open slot || _); [done|].
  destruct (grants slot !! k) as [a|] eqn:E; [|done]. simpl in Ho.
  apply existsb_exists. eexists. split.
  - apply list_elem_of_In, (list_elem_of_lookup_2 _ k). rewrite list_lookup_alter_eq, E. done.
  - unfold grant_live. simpl. by rewrite Ho.
Qed.

Lemma acquire_wf s pid h hv : wf other s -> wf other (fst (fst (acquire s pid h hv))).
Proof.
  intros Hwf. unfold acquire. repeat case_match; simpl; try done.
  match goal with Hd : decode _ _ = _, Ho : negb (ref_open _ ?r) = false |- _ =>
    destruct (shm_decode_live _ _ _ _ Hwf Hd) as [Hi Hl]; apply negb_false_iff in Ho;
    pose proof (ref_mappings_ok _ r Hl) as Hm end.
  eapply shm_store_wf; [done..| |apply slot_frames_set_mappings]. left.
  split; [apply set_mappings_live; [done|]|by apply has_live_access_mapped].
  unfold u16_ok in *. lia.
Qed.

Lemma shm_release_wf s pid h : wf other s -> wf other (fst (release s pid h)).
Proof.
  intros Hwf. unfold release. repeat case_match; simpl; try done.
  match goal with Hd : decode _ _ = _, Ha : access_slot _ _ = inr ?r |- _ =>
    destruct (shm_decode_live _ _ _ _ Hwf Hd) as [Hi Hl]; pose proof (ref_mappings_ok _ r Hl) as Hm end.
  eapply shm_maybe_reclaim_wf; [done..| |apply slot_frames_set_mappings].
  apply set_mappings_live; [done|]. unfold u16_ok in *. lia.
Qed.

Lemma shm_close_wf s pid h : wf other s -> wf other (fst (close s pid h)).
Proof.
  intros Hwf. unfold close. repeat case_match; simpl; try done.
  match goal with Hd : decode _ _ = _ |- _ =>
    destruct (shm_decode_live _ _ _ _ Hwf Hd) as [Hi Hl] end.
  eapply shm_maybe_reclaim_wf; [done..|by apply set_open_live|apply slot_frames_set_open].
Qed.

Lemma release_loop_wf n : forall index pid s, wf other s -> wf other (release_loop n index pid s).
Proof.
  induction n as [|n IH]; intros index pid s Hwf; simpl; [done|]. apply IH.
  destruct (g_objects s !! index) as [slot|] eqn:Hi; [|done].
  destruct (active slot) eqn:Ha; [|done].
  eapply shm_maybe_reclaim_wf; [done..|apply drop_process_live|apply slot_frames_drop].
  apply shm_wf_slot_live; [by eapply shm_wf_lookup|done].
Qed.

(** The operations with arguments a caller can pass. *)
Definition op_ok (op : Op) : Prop :=
  match op with OpCreate _ sz _ => is_u64 sz | _ => True end.

Lemma shm_exec_wf s op : op_ok op -> wf other s -> wf other (exec s op).
Proof.
  intros Hop Hwf. destruct op; simpl in *.
  - unfold initialize. by rewrite (wf_init _ _ Hwf).
  - destruct (create s owner sz has_handle) as [[s' st] h] eqn:E.
    by apply (create_cases _ _ _ _ _ _ _ Hwf Hop E).
  - by apply shm_grant_wf.
  - by apply acquire_wf.
  - by apply shm_release_wf.
  - by apply shm_close_wf.
  - unfold release_process. case_match; [done|]. by apply release_loop_wf.
Qed.

Lemma shm_run_wf ops s : Forall op_ok ops -> wf other s -> wf other (fold_left exec ops s).
Proof.
  revert s; induction ops as [|op ops IH]; intros s HF Hwf; simpl; [done|].
  apply Forall_cons in HF as [H1 H2]. by apply IH, shm_exec_wf.
Qed.

End preservation.

Lemma initialize_wf s :
  g_initialized s = false -> fa_ok (allocator s) ->
  wf (fa_owned (allocator s)) (fst (initialize s)).
Proof.
  intros Hi Hok. unfold initialize. rewrite Hi. simpl.
  constructor; simpl; [done|done| |done|apply NoDup_nil_2|set_solver|set_solver].
  by apply (Forall_replicate wf_slot MAX_OBJECTS), shm_empty_slot_wf.
Qed.

(** ** A mapping keeps the object alive *)

(** Process [pid] holds at least one mapping of the object. *)
Definition holds (pid : Z) (slot : ObjectSlot) : Prop :=
  (owner_pid slot = pid /\ owner_mappings slot ≠ 0) \/
  (owner_pid slot ≠ pid /\
   exists k a, grants slot !! k = Some a /\ a_pid a = pid /\ a_mappings a ≠ 0).

Lemma holds_live pid slot : holds pid slot -> has_live_access slot = true.
Proof.
  unfold has_live_access. intros [[_ H]|(_ & k & a & Hk & _ & Hm)].
  - replace (owner_mappings slot =? 0) with false by lia. by rewrite orb_true_r.
  - case_match; [done|]. apply existsb_exists. exists a. split.
    + apply list_elem_of_In. by eapply list_elem_of_lookup_2.
    + unfold grant_live. replace (a_mappings a =? 0) with false by lia. apply orb_true_r.
Qed.

(** The object at index [i] is still there, the same object with the same
    frames, and [pid] still maps it. *)
Definition still_held (pid : Z) (i : nat) (slot : ObjectSlot) (s : State) : Prop :=
  exists slot', g_objects s !! i = Some slot' /\ active slot' = true /\
    generation slot' = generation slot /\ slot_frames slot' = slot_frames slot /\ holds pid slot'.

(** Writing a slot that preserves the holder keeps every held object. *)
Lemma maybe_reclaim_held pid s i j slot old new :
  g_objects s !! i = Some slot -> active slot = true -> holds pid slot ->
  g_objects s !! j = Some old ->
  (active old = true -> holds pid old -> holds pid new /\ active new = true /\
     generation new = generation old /\ slot_frames new = slot_frames old) ->
  still_held pid i slot (maybe_reclaim s j new) /\ still_held pid i slot (store s j new).
Proof.
  intros Hi Ha Hh Hj Hnew. destruct (decide (j = i)) as [->|Hne].
  - rewrite Hi in Hj. injection Hj as <-. destruct (Hnew Ha Hh) as (Hh' & Ha' & Hg & Hf).
    pose proof (lookup_lt_Some _ _ _ Hi).
    assert (still_held pid i slot (store s i new)) as Hs
      by (exists new; simpl; rewrite list_lookup_insert_eq by done; done).
    split; [|done]. unfold maybe_reclaim. rewrite (holds_live _ _ Hh'), andb_false_r. done.
  - assert (still_held pid i slot (store s j new)) as Hs
      by (exists slot; simpl; rewrite list_lookup_insert_ne by done; done).
    split; [|done]. unfold maybe_reclaim. case_match; [|done].
    exists slot. simpl. rewrite list_lookup_insert_ne by done. done.
Qed.

Lemma access_slot_pid slot pid r :
  access_slot slot pid = inr r ->
  match r with
  | OwnerRef => owner_pid slot = pid
  | GrantRef k => owner_pid slot ≠ pid /\ exists a, grants slot !! k = Some a /\ a_pid a = pid
  end.
Proof.
  unfold access_slot, find_grant. destruct (Z.eqb_spec pid (owner_pid slot)) as [->|Hne].
  - case_match; [|done]. by intros [= <-].
  - destruct (find_index _ _) as [k|] eqn:E; [|done]. intros [= <-].
    apply find_index_Some in E as [(a & Hk & Hp) _]. split; [done|]. exists a. split; [done|]. lia.
Qed.

Lemma alter_other_holds pid slot k f :
  (forall a, grants slot !! k = Some a -> a_pid a = pid -> a_mappings a ≠ 0 ->
             a_pid (f a) = pid /\ a_mappings (f a) ≠ 0) ->
  holds pid slot -> holds pid (with_grants slot (alter f k (grants slot))).
Proof.
  intros Hf [?|(Hne & j & a & Hj & Hp & Hm)]; [by left|right]. split; [done|]. simpl.
  destruct (decide (k = j)) as [->|Hkj].
  - exists j, (f a). rewrite list_lookup_alter_eq, Hj. split; [done|]. by apply Hf.
  - exists j, a. by rewrite list_lookup_alter_ne.
Qed.

Lemma set_mappings_holds pid pid' slot r m :
  access_slot slot pid' = inr r -> pid' ≠ pid -> holds pid slot -> holds pid (set_mappings slot r m).
Proof.
  intros Hr%access_slot_pid Hne Hh. destruct r as [|k]; simpl.
  - destruct Hh as [[? ?]|[? ?]]; [congruence|]. by right.
  - destruct Hr as (_ & a0 & Hk & Hp). apply alter_other_holds; [|done].
    intros a Ha Hp'. congruence.
Qed.

Lemma set_open_holds pid slot r b : holds pid slot -> holds pid (set_open slot r b).
Proof.
  intros Hh. destruct r as [|k]; simpl.
  - destruct Hh as [[? ?]|[? ?]]; [by left|by right].
  - by apply alter_other_holds.
Qed.

Lemma drop_process_holds pid pid' slot :
  pid' ≠ pid -> holds pid slot -> holds pid (drop_process pid' slot).
Proof.
  intros Hne Hh. unfold drop_process.
  destruct (Z.eqb_spec (owner_pid slot) pid') as [E|E];
    (destruct Hh as [[Ho Hm]|(Ho & k & a & Hk & Hp & Hm)]; [try congruence; by left|]);
    right; (split; [done|]); exists k, a; (split; [|done]); simpl; rewrite list_lookup_fmap, Hk;
    simpl; replace (a_pid a =? pid') with false by lia; done.
Qed.

Lemma drop_process_same pid slot :
  active (drop_process pid slot) = active slot /\ generation (drop_process pid slot) = generation slot.
Proof. unfold drop_process. simpl. by destruct (owner_pid slot =? pid). Qed.

Lemma set_mappings_same slot r m :
  active (set_mappings slot r m) = active slot /\
  generation (set_mappings slot r m) = generation slot /\
  slot_frames (set_mappings slot r m) = slot_frames slot.
Proof. by destruct r. Qed.

Lemma set_open_same slot r b :
  active (set_open slot r b) = active slot /\
  generation (set_open slot r b) = generation slot /\
  slot_frames (set_open slot r b) = slot_frames slot.
Proof. by destruct r. Qed.

Lemma still_held_trans pid i slot slot' s :
  generation slot' = generation slot -> slot_frames slot' = slot_frames slot ->
  still_held pid i slot' s -> still_held pid i slot s.
Proof.
  intros Hg Hf (sl & ? & ? & ? & ? & ?). exists sl. repeat split; try done; congruence.
Qed.

Lemma release_loop_held pid pid' i n : forall index s slot,
  pid' ≠ pid -> g_objects s !! i = Some slot -> active slot = true -> holds pid slot ->
  still_held pid i slot (release_loop n index pid' s).
Proof.
  induction n as [|n IH]; intros index s slot Hne Hi Ha Hh; simpl; [by exists slot|].
  destruct (g_objects s !! index) as [sl|] eqn:Hj; [|by apply IH].
  destruct (active sl) eqn:Hsl; [|by apply IH].
  destruct (maybe_reclaim_held pid s i index slot sl (drop_process pid' sl) Hi Ha Hh Hj)
    as [(slot' & Hi' & Ha' & Hg' & Hf' & Hh') _].
  { intros _ Hhs. destruct (drop_process_same pid' sl) as [-> ->].
    rewrite slot_frames_drop. split; [by apply drop_process_holds|done]. }
  apply (still_held_trans _ _ _ slot'); [done..|]. by apply IH.
Qed.

(** The process that makes a call. *)
Definition op_pid (op : Op) : option Z :=
  match op with
  | OpInitialize => None
  | OpCreate owner _ _ => Some owner
  | OpGrant owner _ _ => Some owner
  | OpAcquire pid _ _ => Some pid
  | OpRelease pid _ => Some pid
  | OpClose pid _ => Some pid
  | OpExit pid => Some pid
  end.

Lemma create_held other s owner sz hh pid i slot :
  wf other s -> is_u64 sz -> g_objects s !! i = Some slot -> active slot = true -> holds pid slot ->
  still_held pid i slot (fst (fst (create s owner sz hh))).
Proof.
  intros Hwf Hsz Hi Ha Hh. unfold create. repeat case_match; simpl; try (by exists slot);
    match goal with Hf : find_index _ _ = Some ?j |- _ =>
      apply find_index_Some in Hf as [(old & Hj & Hold%negb_true_iff) _];
      exists slot; simpl; rewrite list_lookup_insert_ne by congruence; done end.
Qed.

Lemma grant_held s owner h target pid i slot :
  pid ≠ 0 -> g_objects s !! i = Some slot -> active slot = true -> holds pid slot ->
  still_held pid i slot (fst (grant s owner h target)).
Proof.
  intros Hp Hi Ha Hh. unfold grant. repeat case_match; simpl; try (by exists slot).
  match goal with Hd : decode _ _ = _, Hg : grant_target ?gs _ = (_, Some ?k) |- _ =>
    apply shm_decode_inr in Hd as [Hj _]; rename Hg into Hgt end.
  eapply maybe_reclaim_held; [done..|]. intros Ha' Hh'. split; [|done].
  apply alter_other_holds; [|done]. intros a Hk Hpa Hm. simpl. split; [|done].
  unfold grant_target, INVALID_PROCESS_ID in Hgt. repeat case_match; simplify_eq;
    match goal with Hf : find_index _ _ = Some _ |- _ =>
      apply find_index_Some in Hf as [(a0 & Hk0 & Hp0) _]; rewrite Hk in Hk0; simplify_eq; lia end.
Qed.

Lemma exec_held other s op pid i slot :
  wf other s -> op_ok op -> pid ≠ 0 -> op_pid op ≠ Some pid ->
  g_objects s !! i = Some slot -> active slot = true -> holds pid slot ->
  still_held pid i slot (exec s op).
Proof.
  intros Hwf Hop Hp Hne Hi Ha Hh. destruct op; simpl in *.
  - unfold initialize. rewrite (wf_init _ _ Hwf). by exists slot.
  - by eapply create_held.
  - by apply grant_held.
  - unfold acquire. repeat case_match; simpl; try (by exists slot).
    match goal with Hd : decode _ _ = _ |- _ => apply shm_decode_inr in Hd as [Hj _] end.
    eapply maybe_reclaim_held; [done..|]. intros Ha' Hh'.
    split; [eapply set_mappings_holds; [done|congruence|done]|].
    rewrite <- Ha'. apply set_mappings_same.
  - unfold release. repeat case_match; simpl; try (by exists slot).
    match goal with Hd : decode _ _ = _ |- _ => apply shm_decode_inr in Hd as [Hj _] end.
    eapply maybe_reclaim_held; [done..|]. intros Ha' Hh'.
    split; [eapply set_mappings_holds; [done|congruence|done]|].
    rewrite <- Ha'. apply set_mappings_same.
  - unfold close. repeat case_match; simpl; try (by exists slot).
    match goal with Hd : decode _ _ = _ |- _ => apply shm_decode_inr in Hd as [Hj _] end.
    eapply maybe_reclaim_held; [done..|]. intros Ha' Hh'.
    split; [by apply set_open_holds|]. rewrite <- Ha'. apply set_open_same.
  - unfold release_process. case_match; [by exists slot|].
    apply release_loop_held; [congruence|done..].
Qed.

Lemma shm_encode_value i g :
  0 <= g < 2 ^ 32 -> (i < MAX_OBJECTS)%nat -> encode i g = handle_value g 3 (Z.of_nat i + 1).
Proof. intros Hg Hi. unfold encode, MAX_OBJECTS in *. apply handle_lor; lia. Qed.

Lemma shm_decode_encode s i slot :
  g_objects s !! i = Some slot -> (i < MAX_OBJECTS)%nat -> active slot = true ->
  gen_ok (generation slot) -> decode s (encode i (generation slot)) = inr (i, slot).
Proof.
  intros Hi Hlt Ha Hg. unfold gen_ok, kMaximumGeneration, MAX_OBJECTS in *.
  unfold decode. rewrite shm_encode_value by (unfold MAX_OBJECTS; lia).
  rewrite handle_kind, handle_index, handle_generation by lia.
  change (Z.shiftl (3 mod 256) 16) with kKindSharedMemory. rewrite Z.eqb_refl. simpl.
  replace ((Z.of_nat i + 1 =? 0) || (Z.of_nat MAX_OBJECTS <? Z.of_nat i + 1)) with false
    by (unfold MAX_OBJECTS; lia).
  replace (Z.to_nat (Z.of_nat i + 1 - 1)) with i by lia.
  by rewrite Hi, Ha, Z.eqb_refl.
Qed.

End shared_memory.
Arguments State F : clear implicits.

(** ** Properties *)

(** The table over the bitmap allocator: two processes share a two-page object
    that process 9 has mapped. *)
Definition example_ops : list Op :=
  [OpCreate 7 5000 true; OpGrant 7 (encode 0 1) 9; OpAcquire 9 (encode 0 1) true].

Definition example_boot : State PhysicalMemory.State :=
  boot_state PhysicalMemory.example_state ∅.

Definition example_table : State PhysicalMemory.State :=
  fold_left exec example_ops (fst (initialize example_boot)).

(** [count] rounds of granting the object to process 9 and of process 9 closing
    its handle. *)
Definition grant_close_rounds (count : nat) : list Op :=
  concat (replicate count [OpGrant 7 (encode 0 1) 9; OpClose 9 (encode 0 1)]).

Lemma shm_example_wf :
  wf (fa_owned PhysicalMemory.example_state) (fst (initialize example_boot)).
Proof. apply (initialize_wf example_boot); [done|]. apply PhysicalMemory.example_wf. Qed.

Lemma example_ops_ok : Forall op_ok example_ops.
Proof. repeat (apply Forall_cons; split; [simpl; done || word_lia|]). by apply Forall_nil. Qed.

(** C1: Over any frame allocator and any sequence of calls, no physical frame
    belongs to two shared-memory objects or to an object and the rest of the
    kernel, and the frames owned from the allocator are exactly those owned
    before plus those of the live objects: nothing is leaked, nothing is freed
    twice, and every live object still has a reference. *)
Theorem shm_frame_isolation {F} `{FA : FrameAllocator F} (s0 : State F) ops :
  g_initialized s0 = false -> fa_ok (allocator s0) -> Forall op_ok ops ->
  let s := fold_left exec ops (fst (initialize s0)) in
  NoDup (object_frames s) /\
  fa_owned (allocator s0) ## list_to_set (object_frames s) /\
  fa_owned (allocator s) = fa_owned (allocator s0) ∪ list_to_set (object_frames s) /\
  Forall wf_slot (g_objects s).
Proof.
  intros Hi Hok Hops s.
  destruct (shm_run_wf (fa_owned (allocator s0)) ops (fst (initialize s0)) Hops) as [];
    [by apply initialize_wf|done].
Qed.

Lemma shm_frame_isolation_witness :
  NoDup (object_frames example_table) /\ object_frames example_table = [0x100000; 0x102000].
Proof.
  destruct (shm_frame_isolation example_boot example_ops) as (H & _).
  - reflexivity.
  - exact PhysicalMemory.example_wf.
  - exact example_ops_ok.
  - split; [exact H|]. vm_compute. reflexivity.
Defined.

(** A successful [create] returns a non-zero handle that names a new object
    of its owner with [ceil(size / 4096)] pages, each a non-null frame nobody
    owned before and filled with zeros. *)
Theorem shm_create_ok {F} `{FA : FrameAllocator F} other (s : State F) owner sz has_handle s' h :
  wf other s -> is_u64 sz -> create s owner sz has_handle = (s', Ok, h) ->
  h ≠ INVALID_HANDLE /\
  exists i slot, decode s' h = inr (i, slot) /\ owner_pid slot = owner /\
    access_slot slot owner = inr OwnerRef /\ size slot = sz /\
    Z.of_nat (length (slot_frames slot)) = (sz + PAGE_SIZE - 1) / PAGE_SIZE /\
    NoDup (slot_frames slot) /\
    (forall a, a ∈ slot_frames slot -> a ≠ 0 /\ (a ∉ fa_owned (allocator s)) /\
               zeroed (page_bytes s') a).
Proof.
  intros Hwf Hsz H. destruct (create_cases other _ _ _ _ _ _ _ Hwf Hsz H) as [Hwf' Hok].
  destruct (Hok eq_refl) as (i & slot & Hi & Ha & Hlt & _ & -> & Hown & Hop & Hg & Hsize & Hlen & Hf).
  split.
  - rewrite shm_encode_value by (done || unfold gen_ok, kMaximumGeneration in *; lia).
    unfold handle_value, INVALID_HANDLE, gen_ok in *. lia.
  - exists i, slot. split; [by apply shm_decode_encode|]. split; [done|]. split.
    { unfold access_slot. by rewrite Hown, Z.eqb_refl, Hop. }
    split; [done|]. split; [done|]. split; [|done]. by eapply slot_frames_nodup.
Qed.

Lemma shm_create_ok_witness :
  exists slot, decode (fst (fst (create (fst (initialize example_boot)) 7 5000 true)))
                 (encode 0 1) = inr (0%nat, slot) /\ length (slot_frames slot) = 2%nat.
Proof.
  destruct (shm_create_ok _ _ 7 5000 true
    (fst (fst (create (fst (initialize example_boot)) 7 5000 true))) (encode 0 1) shm_example_wf)
    as (_ & i & slot & Hd & _ & _ & _ & Hl & _); [word_lia|vm_compute; reflexivity|].
  exists slot. split; [|apply Nat2Z.inj; rewrite Hl; reflexivity].
  assert (i = 0%nat) as ->; [|exact Hd].
  vm_compute in Hd. congruence.
Defined.

(** No use after free: while a process holds a mapping of an object, no call
    by any other process (close, release, grant, exit, even of the owner) can
    take the object away: it stays active, the same generation, with the same
    frames, and the mapping count of the process stays non-zero. *)
Theorem shm_mapping_keeps_frames {F} `{FA : FrameAllocator F} other (s : State F) op pid i slot :
  wf other s -> op_ok op -> pid ≠ INVALID_PROCESS_ID -> op_pid op ≠ Some pid ->
  g_objects s !! i = Some slot -> active slot = true -> holds pid slot ->
  exists slot', g_objects (exec s op) !! i = Some slot' /\ active slot' = true /\
    generation slot' = generation slot /\ slot_frames slot' = slot_frames slot /\ holds pid slot'.
Proof. apply exec_held. Qed.

Lemma shm_mapping_keeps_frames_witness :
  exists slot', g_objects (exec example_table (OpExit 7)) !! 0%nat = Some slot' /\
    active slot' = true /\ slot_frames slot' = [0x100000; 0x102000].
Proof.
  destruct (g_objects example_table !! 0%nat) as [slot|] eqn:E; [|vm_compute in E; discriminate].
  destruct (shm_mapping_keeps_frames (fa_owned PhysicalMemory.example_state) example_table
    (OpExit 7) 9 0 slot) as (slot' & H1 & H2 & _ & H3 & _).
  - apply shm_run_wf; [exact example_ops_ok|exact shm_example_wf].
  - exact I.
  - discriminate.
  - discriminate.
  - exact E.
  - vm_compute in E. injection E as <-. reflexivity.
  - vm_compute in E. injection E as <-. right. split; [discriminate|].
    exists 0%nat, (mkAccess 9 1 true). repeat split. discriminate.
  - exists slot'. split; [exact H1|]. split; [exact H2|]. rewrite H3.
    vm_compute in E. injection E as <-. reflexivity.
Defined.

Lemma grant_exhausted {F} `{FA : FrameAllocator F} (s : State F) h i slot target :
  g_initialized s = true -> decode s h = inr (i, slot) -> owner_pid slot = 7 ->
  owner_open slot = true -> grants slot = replicate MAX_GRANTS_PER_OBJECT (mkAccess 9 0 false) ->
  target ≠ 0 -> target ≠ 7 -> grant s 7 h target = (s, CapacityReached).
Proof.
  intros Hi Hd Ho Hop Hg H0 H7. unfold grant, INVALID_PROCESS_ID. rewrite Hi, Hd, Ho, Hop, Hg.
  replace (target =? 0) with false by lia. replace (7 =? target) with false by lia. simpl.
  unfold grant_target, grant_live. simpl. by rewrite !andb_false_r.
Qed.

(** A defect of the code: a grant slot is never returned to the pool when
    its process closes the handle ([close] clears [open] but keeps [pid], and
    [grant] reuses only slots whose [pid] is 0).  After eight rounds of granting
    to and closing by the same process the owner can no longer grant the object
    to anyone, although no grant is open and none has a mapping. *)
Theorem shm_grant_slots_leak :
  let s := fold_left exec (OpCreate 7 4096 true :: grant_close_rounds 8)
             (fst (initialize example_boot)) in
  (forall target, target ≠ 0 -> target ≠ 7 -> grant s 7 (encode 0 1) target = (s, CapacityReached)) /\
  exists slot, decode s (encode 0 1) = inr (0%nat, slot) /\ existsb grant_live (grants slot) = false.
Proof.
  cbv zeta. set (s := fold_left _ _ _).
  assert (exists slot, decode s (encode 0 1) = inr (0%nat, slot) /\ owner_pid slot = 7 /\
    owner_open slot = true /\
    grants slot = replicate MAX_GRANTS_PER_OBJECT (mkAccess 9 0 false)) as (slot & Hd & Ho & Hop & Hg)
    by (vm_compute; eexists; repeat split).
  assert (g_initialized s = true) as Hi by (vm_compute; reflexivity). clearbody s.
  split; [|exists slot; by rewrite Hg].
  intros target H0 H7. by apply (grant_exhausted s _ 0 slot).
Qed.
