(* ===== verification/Jobs.v ===== *)
(** * Process jobs (kernel/task/job.cpp)

    A table of 16 jobs, each a named group of at most 16 processes.  A job
    lives as long as it has a member.  A C string is the list of the characters
    before its terminator; reading past them yields the terminator. *)

From S2P Require Import Prelude.

(** ** Data *)

Definition INVALID_PROCESS_ID : Z := 0.
Definition INVALID_JOB_ID : Z := 0.
Definition MAX_JOBS : nat := 16.
Definition MAX_JOB_MEMBERS : nat := 16.
Definition MAX_JOB_NAME : nat := 31.
Definition kIndexMask : Z := 0xFF.
Definition kMaximumGeneration : Z := Z.shiftr UINT64_MAX 8.

Inductive Status :=
| Ok | NotInitialized | AlreadyInitialized | InvalidArgument | NameTooLong | AlreadyExists
| NotFound | AccessDenied | CapacityReached.

#[export] Instance Status_eq_dec : EqDecision Status.
Proof. solve_decision. Defined.

Record Slot := mkSlot {
  id : Z;
  generation : Z;
  owner_pid : Z;
  members : list Z;
  member_count : nat;
  active : bool;
  name : list Z;
}.

Record Stat := mkStat {
  stat_id : Z; stat_owner_pid : Z; stat_member_count : nat; stat_orphaned : bool;
  stat_name : list Z;
}.

Record State := mkState { g_slots : list Slot; g_initialized : bool }.

Definition empty_slot (generation : Z) : Slot :=
  mkSlot 0 generation 0 (replicate MAX_JOB_MEMBERS 0) 0 false (replicate (S MAX_JOB_NAME) 0).

Definition with_members (slot : Slot) (m : list Z) (n : nat) : Slot :=
  mkSlot (id slot) (generation slot) (owner_pid slot) m n (active slot) (name slot).

Definition with_owner (slot : Slot) (pid : Z) : Slot :=
  mkSlot (id slot) (generation slot) pid (members slot) (member_count slot) (active slot)
    (name slot).

Definition store (s : State) (index : nat) (slot : Slot) : State :=
  mkState (<[index := slot]> (g_slots s)) (g_initialized s).

(** ** Helpers *)

(** [text_length]: the terminator's index, or [limit + 1]. *)
Definition text_length (text : option (list Z)) (limit : nat) : nat :=
  match text with
  | None => S limit
  | Some t =>
    match for_find (fun index => word_at t index =? 0) (S limit) 0 with
    | Some index => Z.to_nat index
    | None => S limit
    end
  end.

Definition next_generation (generation : Z) : Z :=
  if (generation =? 0) || (kMaximumGeneration <=? generation) then 1 else generation + 1.

Definition encode (index : nat) (generation : Z) : Z :=
  Z.lor (u64 (Z.shiftl generation 8)) (Z.of_nat index + 1).

Definition decode (s : State) (job : Z) : option (nat * Slot) :=
  if job =? INVALID_JOB_ID then None else
  let encoded := Z.land job kIndexMask in
  if (encoded =? 0) || (Z.of_nat MAX_JOBS <? encoded) then None else
  let index := Z.to_nat (encoded - 1) in
  match g_slots s !! index with
  | None => None
  | Some slot => if negb (active slot) || negb (id slot =? job) then None else Some (index, slot)
  end.

Definition has_member (slot : Slot) (pid : Z) : bool :=
  existsb (Z.eqb pid) (take (member_count slot) (members slot)).

Definition add_member (slot : Slot) (pid : Z) : Status * Slot :=
  if pid =? INVALID_PROCESS_ID then (InvalidArgument, slot) else
  if has_member slot pid then (AlreadyExists, slot) else
  if (MAX_JOB_MEMBERS <=? member_count slot)%nat then (CapacityReached, slot) else
  (Ok, with_members slot (<[member_count slot := pid]> (members slot)) (S (member_count slot))).

(** [for (move = index + 1; move < count; ++move) members[move - 1] = members[move]] *)
Fixpoint shift_down (n move : nat) (m : list Z) : list Z :=
  match n with
  | O => m
  | S n' => shift_down n' (S move) (<[(move - 1)%nat := word_at m (Z.of_nat move)]> m)
  end.

Definition remove_member (slot : Slot) (pid : Z) : bool * Slot :=
  match find_index (Z.eqb pid) (take (member_count slot) (members slot)) with
  | None => (false, slot)
  | Some index =>
    let count := (member_count slot - 1)%nat in
    let m := shift_down (member_count slot - S index) (S index) (members slot) in
    (true, with_members slot (<[count := INVALID_PROCESS_ID]> m) count)
  end.

Definition reclaim_if_empty (slot : Slot) : Slot :=
  if negb (active slot) || negb (member_count slot =? 0)%nat then slot
  else empty_slot (generation slot).

(** ** Entry points *)

Definition initialize (s : State) : State * Status :=
  if g_initialized s then (s, AlreadyInitialized) else
  (mkState (replicate MAX_JOBS (empty_slot 0)) true, Ok).

Definition copy_name (nm : list Z) (length : nat) : list Z :=
  take length nm ++ replicate (S MAX_JOB_NAME - length) 0.

Definition create (s : State) (owner : Z) (nm : option (list Z)) (has_out : bool)
  : State * Status * Z :=
  if negb (g_initialized s) then (s, NotInitialized, INVALID_JOB_ID) else
  if (owner =? INVALID_PROCESS_ID) || negb has_out then (s, InvalidArgument, INVALID_JOB_ID) else
  let length := text_length nm MAX_JOB_NAME in
  if (length =? 0)%nat then (s, InvalidArgument, INVALID_JOB_ID) else
  if (MAX_JOB_NAME <? length)%nat then (s, NameTooLong, INVALID_JOB_ID) else
  match find_index (fun slot => negb (active slot)) (g_slots s) with
  | None => (s, CapacityReached, INVALID_JOB_ID)
  | Some index =>
    let gen := next_generation (default 0 (generation <$> g_slots s !! index)) in
    let job := encode index gen in
    (store s index
       (mkSlot job gen owner (<[0%nat := owner]> (replicate MAX_JOB_MEMBERS 0)) 1 true
          (copy_name (default [] nm) length)), Ok, job)
  end.

Definition attach (s : State) (owner job target : Z) : State * Status :=
  if negb (g_initialized s) then (s, NotInitialized) else
  if (owner =? INVALID_PROCESS_ID) || (target =? INVALID_PROCESS_ID) then (s, InvalidArgument) else
  match decode s job with
  | None => (s, NotFound)
  | Some (index, slot) =>
    if negb (owner_pid slot =? owner) then (s, AccessDenied) else
    let (status, slot') := add_member slot target in (store s index slot', status)
  end.

Definition detach (s : State) (owner job target : Z) : State * Status :=
  if negb (g_initialized s) then (s, NotInitialized) else
  if (owner =? INVALID_PROCESS_ID) || (target =? INVALID_PROCESS_ID) then (s, InvalidArgument) else
  match decode s job with
  | None => (s, NotFound)
  | Some (index, slot) =>
    if negb (owner_pid slot =? owner) || (target =? owner_pid slot) then (s, AccessDenied) else
    let (removed, slot') := remove_member slot target in
    (store s index slot', if removed : bool then Ok else NotFound)
  end.

Definition inherit_member (s : State) (job child : Z) : State * Status :=
  if negb (g_initialized s) then (s, NotInitialized) else
  if child =? INVALID_PROCESS_ID then (s, InvalidArgument) else
  match decode s job with
  | None => (s, NotFound)
  | Some (index, slot) =>
    let (status, slot') := add_member slot child in (store s index slot', status)
  end.

Definition release_slot (pid : Z) (slot : Slot) : Slot :=
  if negb (active slot) then slot else
  let slot := snd (remove_member slot pid) in
  let slot := if owner_pid slot =? pid then with_owner slot INVALID_PROCESS_ID else slot in
  reclaim_if_empty slot.

Definition release_process (s : State) (pid : Z) : State :=
  if pid =? INVALID_PROCESS_ID then s else
  if negb (g_initialized s) then s else
  mkState (release_slot pid <$> g_slots s) (g_initialized s).

(** The name is copied up to and including its terminator; the rest is zero. *)
Definition stat (s : State) (job : Z) (has_out : bool) : Status * option Stat :=
  if negb (g_initialized s) then (NotInitialized, None) else
  if negb has_out then (InvalidArgument, None) else
  match decode s job with
  | None => (NotFound, None)
  | Some (_, slot) =>
    (Ok, Some (mkStat (id slot) (owner_pid slot) (member_count slot)
                 (owner_pid slot =? INVALID_PROCESS_ID)
                 (copy_name (name slot) (text_length (Some (name slot)) MAX_JOB_NAME))))
  end.

Definition contains (s : State) (job pid : Z) : bool :=
  if negb (g_initialized s) || (pid =? INVALID_PROCESS_ID) then false else
  match decode s job with
  | None => false
  | Some (_, slot) => has_member slot pid
  end.

Inductive Op :=
| OpInitialize
| OpCreate (owner : Z) (nm : option (list Z)) (has_out : bool)
| OpAttach (owner job target : Z)
| OpDetach (owner job target : Z)
| OpInherit (job child : Z)
| OpRelease (pid : Z).

Definition exec (s : State) (op : Op) : State :=
  match op with
  | OpInitialize => fst (initialize s)
  | OpCreate owner nm has_out => fst (fst (create s owner nm has_out))
  | OpAttach owner job target => fst (attach s owner job target)
  | OpDetach owner job target => fst (detach s owner job target)
  | OpInherit job child => fst (inherit_member s job child)
  | OpRelease pid => release_process s pid
  end.

(** The statically initialised table, before [initialize]. *)
Definition boot_state : State := mkState (replicate MAX_JOBS (empty_slot 0)) false.

(** ** The members of a job as a list *)

Definition member_list (slot : Slot) : list Z := take (member_count slot) (members slot).

Lemma has_member_elem slot pid : has_member slot pid = true <-> pid ∈ member_list slot.
Proof.
  unfold has_member, member_list. rewrite existsb_exists. setoid_rewrite list_elem_of_In.
  split; [intros (x & Hx & E); apply Z.eqb_eq in E; by subst|].
  intros H. exists pid. by rewrite Z.eqb_refl.
Qed.

Lemma shift_down_length n : forall move m, length (shift_down n move m) = length m.
Proof. induction n; intros move m; simpl; [done|]. by rewrite IHn, length_insert. Qed.

Lemma shift_down_lookup n : forall move m j,
  (1 <= move)%nat -> (move + n <= length m)%nat ->
  shift_down n move m !! j =
  if decide (move - 1 <= j < move - 1 + n)%nat then m !! S j else m !! j.
Proof.
  induction n as [|n IH]; intros move m j Hm Hl; simpl; [by rewrite decide_False by lia|].
  rewrite IH by (rewrite ?length_insert; lia).
  assert (forall k, k ≠ (move - 1)%nat -> <[(move - 1)%nat := word_at m (Z.of_nat move)]> m !! k = m !! k)
    as Hne by (intros k Hk; by apply list_lookup_insert_ne).
  destruct (decide (S move - 1 <= j < S move - 1 + n)%nat).
  - rewrite decide_True, Hne by lia. done.
  - destruct (decide (j = move - 1)%nat) as [->|Hj].
    + rewrite decide_True, list_lookup_insert_eq by lia.
      replace (S (move - 1)) with (Z.to_nat (Z.of_nat move)) by lia.
      symmetry. apply lookup_word_at. lia.
    + rewrite decide_False, Hne by lia. done.
Qed.

(** Removing a member deletes it from the list and zeroes the freed entry. *)
Lemma remove_member_list slot pid slot' :
  (member_count slot <= length (members slot))%nat -> remove_member slot pid = (true, slot') ->
  exists i, member_list slot !! i = Some pid /\ member_list slot' = delete i (member_list slot) /\
    member_count slot' = (member_count slot - 1)%nat /\ length (members slot') = length (members slot) /\
    (forall j, (member_count slot' < j)%nat -> (member_count slot <= j)%nat ->
       members slot' !! j = members slot !! j) /\
    members slot' !! member_count slot' = Some 0.
Proof.
  intros Hc H. unfold remove_member in H.
  destruct (find_index _ _) as [i|] eqn:Ef; [|done]. injection H as <-.
  apply find_index_Some in Ef as [(x & Hx & E%Z.eqb_eq) _]. subst x.
  pose proof Hx as Hx'. apply lookup_take_Some in Hx' as [Hi Hlt].
  exists i. split; [done|]. unfold member_list. simpl.
  set (c := member_count slot) in *. set (m := members slot) in *.
  assert (forall j, shift_down (c - S i) (S i) m !! j =
    if decide (i <= j < c - 1)%nat then m !! S j else m !! j) as Hsd.
  { intros j. rewrite shift_down_lookup by lia. repeat case_decide; done || lia. }
  repeat split.
  - rewrite take_insert_ge by lia. apply list_eq. intros j.
    rewrite lookup_take, list_lookup_delete, Hsd.
    repeat case_decide; rewrite ?lookup_take_lt, ?lookup_take_ge by lia; done || lia.
  - by rewrite length_insert, shift_down_length.
  - intros j Hj1 Hj2. rewrite list_lookup_insert_ne, Hsd, decide_False by lia. done.
  - apply list_lookup_insert_eq. rewrite shift_down_length. lia.
Qed.

Lemma remove_member_none slot pid slot' :
  remove_member slot pid = (false, slot') -> slot' = slot /\ (pid ∉ member_list slot).
Proof.
  unfold remove_member. destruct (find_index _ _) eqn:Ef; [done|]. intros [= <-].
  split; [done|]. intros Hin. apply list_elem_of_lookup in Hin as [i Hi].
  rewrite find_index_None in Ef. specialize (Ef _ _ Hi). by rewrite Z.eqb_refl in Ef.
Qed.

(** ** The invariant *)

Definition gen_ok (g : Z) : Prop := 1 <= g <= kMaximumGeneration.

Record live_slot (i : nat) (slot : Slot) : Prop := {
  ls_active : active slot = true;
  ls_gen : gen_ok (generation slot);
  ls_id : id slot = encode i (generation slot);
  ls_len : length (members slot) = MAX_JOB_MEMBERS;
  ls_count : (member_count slot <= MAX_JOB_MEMBERS)%nat;
  ls_nodup : NoDup (member_list slot);
  ls_nonzero : 0 ∉ member_list slot;
  ls_owner : owner_pid slot = 0 \/ owner_pid slot ∈ member_list slot;
  ls_rest : Forall (eq 0) (drop (member_count slot) (members slot));
}.

Definition wf_slot (i : nat) (slot : Slot) : Prop :=
  (live_slot i slot /\ (0 < member_count slot)%nat) \/
  (slot = empty_slot (generation slot) /\ 0 <= generation slot <= kMaximumGeneration).

Definition wf (s : State) : Prop :=
  length (g_slots s) = MAX_JOBS /\ forall i slot, g_slots s !! i = Some slot -> wf_slot i slot.

Lemma kMaximumGeneration_eq : kMaximumGeneration = 2 ^ 56 - 1.
Proof. reflexivity. Qed.

Lemma job_next_generation_ok g : 0 <= g -> gen_ok (next_generation g).
Proof.
  unfold next_generation, gen_ok. rewrite kMaximumGeneration_eq. repeat case_match; lia.
Qed.

Lemma job_wf_slot_live i slot : wf_slot i slot -> active slot = true -> live_slot i slot.
Proof. intros [[? _]|[-> _]]; [done|]. by simpl. Qed.

Lemma job_wf_slot_gen i slot : wf_slot i slot -> 0 <= generation slot.
Proof. intros [[H _]|[_ ?]]; [|lia]. pose proof (ls_gen _ _ H). unfold gen_ok in *. lia. Qed.

Lemma job_store_wf s i slot : wf s -> wf_slot i slot -> wf (store s i slot).
Proof.
  intros [Hl HF] Hs. split; simpl; [by rewrite length_insert|].
  intros j x [(<- & <- & _)|[_ Hx]]%list_lookup_insert_Some; auto.
Qed.

Lemma job_encode_value i g :
  gen_ok g -> (i < MAX_JOBS)%nat -> encode i g = g * 2 ^ 8 + (Z.of_nat i + 1).
Proof.
  unfold gen_ok, encode, MAX_JOBS. rewrite kMaximumGeneration_eq. intros Hg Hi.
  rewrite u64_small by (rewrite Z.shiftl_mul_pow2 by lia; word_lia).
  apply lor_shift_add; lia.
Qed.

Lemma encode_index i g :
  gen_ok g -> (i < MAX_JOBS)%nat -> Z.land (encode i g) kIndexMask = Z.of_nat i + 1.
Proof.
  intros Hg Hi. rewrite job_encode_value by done. change kIndexMask with (2 ^ 8 - 1).
  rewrite land_low by lia. unfold MAX_JOBS in Hi. zdm.
Qed.

Lemma job_decode_Some s job i slot :
  decode s job = Some (i, slot) ->
  g_slots s !! i = Some slot /\ active slot = true /\ id slot = job.
Proof.
  unfold decode. destruct (job =? _); [done|]. destruct (_ || _); [done|].
  destruct (g_slots s !! _) as [sl|] eqn:Hl; [|done].
  destruct (active sl) eqn:Ha; [|done]. destruct (id sl =? job) eqn:Hid; [|done].
  intros [= <- <-]. split; [done|]. split; [done|]. lia.
Qed.

(** An identifier is accepted exactly when an active slot carries it. *)
Lemma decode_iff s job i slot :
  wf s -> decode s job = Some (i, slot) <->
  g_slots s !! i = Some slot /\ active slot = true /\ id slot = job.
Proof.
  intros [Hlen Hwf]. split; [apply job_decode_Some|]. intros (Hi & Ha & <-).
  pose proof (job_wf_slot_live _ _ (Hwf _ _ Hi) Ha) as Hl.
  pose proof (lookup_lt_Some _ _ _ Hi) as Hlt. rewrite Hlen in Hlt.
  pose proof (ls_gen _ _ Hl) as Hg. rewrite (ls_id _ _ Hl).
  unfold decode. rewrite encode_index by done.
  assert (encode i (generation slot) ≠ 0) as Hne
    by (rewrite job_encode_value by done; unfold gen_ok in Hg; lia).
  unfold INVALID_JOB_ID. replace (_ =? 0) with false by lia.
  replace (_ || _) with false by (unfold MAX_JOBS in *; lia).
  replace (Z.to_nat (Z.of_nat i + 1 - 1)) with i by lia.
  by rewrite Hi, Ha, (ls_id _ _ Hl), Z.eqb_refl.
Qed.

Lemma job_decode_live s job i slot :
  wf s -> decode s job = Some (i, slot) -> live_slot i slot /\ (0 < member_count slot)%nat.
Proof.
  intros [_ Hwf] (Hi & Ha & _)%job_decode_Some.
  destruct (Hwf _ _ Hi) as [|[E _]]; [done|]. rewrite E in Ha. done.
Qed.

(** ** Preservation *)

Lemma job_live_length i slot : live_slot i slot -> length (member_list slot) = member_count slot.
Proof. intros []. unfold member_list. rewrite length_take. lia. Qed.

(** A successful [add_member] appends the new process. *)
Lemma add_member_Ok i slot pid slot' :
  live_slot i slot -> add_member slot pid = (Ok, slot') ->
  live_slot i slot' /\ member_list slot' = member_list slot ++ [pid] /\
  member_count slot' = S (member_count slot) /\ (pid ∉ member_list slot) /\ pid ≠ 0 /\
  owner_pid slot' = owner_pid slot /\ id slot' = id slot.
Proof.
  intros Hl H. unfold add_member in H. destruct (Z.eqb_spec pid INVALID_PROCESS_ID) as [|Hp]; [done|].
  destruct (has_member slot pid) eqn:Hm; [done|].
  assert (pid ∉ member_list slot) as Hnin by (rewrite <- has_member_elem, Hm; done).
  destruct (Nat.leb_spec MAX_JOB_MEMBERS (member_count slot)) as [|Hc]; [done|].
  injection H as <-. pose proof (ls_len _ _ Hl) as Hlen.
  assert (member_list (with_members slot (<[member_count slot:=pid]> (members slot))
    (S (member_count slot))) = member_list slot ++ [pid]) as Hml.
  { unfold member_list. simpl. rewrite (take_S_r _ _ pid) by (apply list_lookup_insert_eq; lia).
    by rewrite take_insert_ge by lia. }
  split; [|by rewrite Hml]. destruct Hl. constructor; rewrite ?Hml; simpl; try done.
  - by rewrite length_insert.
  - apply NoDup_app. split; [done|]. split; [|apply NoDup_singleton].
    intros x Hx ->%list_elem_of_singleton. done.
  - rewrite elem_of_app, list_elem_of_singleton. unfold INVALID_PROCESS_ID in Hp. intuition.
  - rewrite elem_of_app. tauto.
  - rewrite drop_insert_lt by lia. replace (S _) with (member_count slot + 1)%nat by lia.
    rewrite <- drop_drop. by apply Forall_drop.
Qed.

Lemma add_member_fail slot pid st slot' :
  add_member slot pid = (st, slot') -> st ≠ Ok -> slot' = slot.
Proof. unfold add_member. repeat case_match; intros; by simplify_eq. Qed.

Lemma add_member_wf i slot pid :
  live_slot i slot -> (0 < member_count slot)%nat -> wf_slot i (snd (add_member slot pid)).
Proof.
  intros Hl Hc. left. destruct (add_member slot pid) as [st slot'] eqn:E. simpl.
  destruct (decide (st = Ok)) as [->|Hne].
  - destruct (add_member_Ok _ _ _ _ Hl E) as (? & _ & -> & _). split; [done|lia].
  - by rewrite (add_member_fail _ _ _ _ E Hne).
Qed.

Lemma elem_of_delete_nodup (l : list Z) i x y :
  NoDup l -> l !! i = Some x -> y ∈ delete i l <-> y ∈ l /\ y ≠ x.
Proof.
  intros Hnd Hi. pose proof (delete_Permutation l i x Hi) as HP.
  set (d := delete i l) in *. clearbody d. rewrite HP in Hnd. apply NoDup_cons in Hnd as [Hx _]. rewrite HP, elem_of_cons.
  split; [|tauto]. intros Hy. split; [by right|]. intros ->. done.
Qed.

(** What [remove_member] does to a live slot. *)
Lemma remove_member_live i slot pid :
  live_slot i slot ->
  let slot' := snd (remove_member slot pid) in
  fst (remove_member slot pid) = bool_decide (pid ∈ member_list slot) /\
  (forall q, q ∈ member_list slot' <-> q ∈ member_list slot /\ q ≠ pid) /\
  (pid ≠ owner_pid slot -> live_slot i slot') /\
  live_slot i (with_owner slot' INVALID_PROCESS_ID) /\
  owner_pid slot' = owner_pid slot /\ active slot' = true /\ generation slot' = generation slot /\
  id slot' = id slot.
Proof.
  intros Hl. pose proof (ls_len _ _ Hl) as Hlen. pose proof (ls_count _ _ Hl) as Hcnt.
  pose proof (ls_nodup _ _ Hl) as Hnd. pose proof (ls_active _ _ Hl) as Ha.
  destruct (remove_member slot pid) as [[] slot'] eqn:E; simpl.
  2:{ destruct (remove_member_none _ _ _ E) as [-> Hn]. rewrite bool_decide_false by done.
      split; [done|]. split; [intros q; split; [|tauto]; intros Hq; split; [done|by intros ->]|].
      split; [done|]. split; [|done]. destruct Hl. constructor; try done. by left. }
  destruct (remove_member_list slot pid slot') as (k & Hk & Hml & Hc & Hlen' & Hj & Hz);
    [lia|done|].
  assert (forall q, q ∈ member_list slot' <-> q ∈ member_list slot /\ q ≠ pid) as Hmem
    by (intros q; rewrite Hml; by apply elem_of_delete_nodup).
  assert (id slot' = id slot /\ generation slot' = generation slot /\
    owner_pid slot' = owner_pid slot /\ active slot' = active slot) as (Hid & Hg & Ho & Hact).
  { unfold remove_member in E. case_match; by simplify_eq. }
  assert (Forall (eq 0) (drop (member_count slot') (members slot'))) as Hrest.
  { apply Forall_lookup. intros j x Hx. rewrite lookup_drop in Hx. destruct j as [|j].
    - rewrite Nat.add_0_r, Hz in Hx. by injection Hx.
    - rewrite Hj in Hx by lia.
      eapply (proj1 (Forall_lookup _ _) (ls_rest _ _ Hl) (member_count slot' + S j - member_count slot)%nat).
      rewrite lookup_drop. rewrite <- Hx. f_equal. lia. }
  assert (NoDup (member_list slot')) as Hnd'.
  { pose proof (delete_Permutation _ _ _ Hk) as HP. rewrite Hml.
    set (d := delete _ _) in *. clearbody d. rewrite HP in Hnd.
    by apply NoDup_cons in Hnd as [_ ?]. }
  split; [symmetry; apply bool_decide_true; by eapply list_elem_of_lookup_2|].
  split; [done|]. rewrite Ho, Hact, Hg, Hid. destruct Hl.
  split; [|split; [|done]].
  - intros Hp. constructor; rewrite ?Hid, ?Hg, ?Ho, ?Hact; try done; try lia.
    + by rewrite Hmem; intros [? _].
    + rewrite Hmem. destruct ls_owner0; [by left|]. right. split; [done|congruence].
  - constructor; simpl; rewrite ?Hid, ?Hg, ?Ho, ?Hact; try done; try lia.
    + change (member_list (with_owner slot' INVALID_PROCESS_ID)) with (member_list slot').
      by rewrite Hmem; intros [? _].
    + by left.
Qed.

Lemma live_member_pos i slot q : live_slot i slot -> q ∈ member_list slot -> (0 < member_count slot)%nat.
Proof.
  intros Hl Hq. rewrite <- (job_live_length _ _ Hl). destruct (member_list slot); [by apply elem_of_nil in Hq|].
  simpl. lia.
Qed.

Lemma reclaim_wf i slot : live_slot i slot -> wf_slot i (reclaim_if_empty slot).
Proof.
  intros Hl. unfold reclaim_if_empty. rewrite (ls_active _ _ Hl). simpl.
  destruct (Nat.eqb_spec (member_count slot) 0) as [E|E]; simpl.
  - right. split; [done|]. simpl. pose proof (ls_gen _ _ Hl). unfold gen_ok in *. lia.
  - left. split; [done|lia].
Qed.

Lemma job_release_slot_wf i pid slot :
  pid ≠ 0 -> wf_slot i slot -> wf_slot i (release_slot pid slot).
Proof.
  intros Hp Hw. unfold release_slot. destruct (active slot) eqn:Ha; simpl; [|done].
  destruct (remove_member_live i slot pid) as (_ & _ & Hne & Hown & Ho & _);
    [by apply job_wf_slot_live|]. apply reclaim_wf.
  destruct (Z.eqb_spec (owner_pid (snd (remove_member slot pid))) pid); [done|].
  apply Hne. congruence.
Qed.

Lemma job_boot_wf b : wf (mkState (replicate MAX_JOBS (empty_slot 0)) b).
Proof.
  split; [done|]. intros i slot H. change (replicate MAX_JOBS (empty_slot 0) !! i = Some slot) in H.
  apply lookup_replicate in H as [-> _]. right. split; [done|]. cbn. rewrite kMaximumGeneration_eq. lia.
Qed.

Lemma job_create_wf s owner nm b : wf s -> wf (fst (fst (create s owner nm b))).
Proof.
  intros Hwf. unfold create. destruct (negb (g_initialized s)); [done|].
  destruct (Z.eqb_spec owner INVALID_PROCESS_ID) as [|Hp]; [done|]. destruct (negb b); [done|].
  cbn [orb]. destruct (_ =? 0)%nat; [done|]. destruct (MAX_JOB_NAME <? _)%nat; [done|].
  destruct (find_index _ _) as [i|] eqn:Ef; [|done]. cbn [fst].
  apply find_index_Some in Ef as [(old & Hi & _) _]. rewrite Hi. cbn [fmap option_fmap option_map default].
  pose proof (job_wf_slot_gen _ _ (proj2 Hwf _ _ Hi)) as Hg.
  apply job_store_wf; [done|]. left. split; [|simpl; lia].
  constructor; cbn -[next_generation encode]; try done.
  - by apply job_next_generation_ok.
  - unfold MAX_JOB_MEMBERS. lia.
  - apply NoDup_singleton.
  - rewrite list_elem_of_singleton. unfold INVALID_PROCESS_ID in Hp. congruence.
  - right. constructor.
  - repeat constructor.
Qed.

Lemma attach_wf s owner job target : wf s -> wf (fst (attach s owner job target)).
Proof.
  intros Hwf. unfold attach. destruct (negb _); [done|]. destruct (_ || _); [done|].
  destruct (decode s job) as [[i slot]|] eqn:Hd; [|done]. destruct (negb _); [done|].
  destruct (job_decode_live _ _ _ _ Hwf Hd) as [Hl Hc].
  pose proof (add_member_wf i slot target Hl Hc). destruct (add_member slot target).
  by apply job_store_wf.
Qed.

Lemma detach_wf s owner job target : wf s -> wf (fst (detach s owner job target)).
Proof.
  intros Hwf. unfold detach. destruct (g_initialized s) eqn:Hi; [|done]. cbn [negb].
  destruct (Z.eqb_spec owner INVALID_PROCESS_ID) as [|Hp]; [done|].
  destruct (target =? _); [done|]. cbn [orb].
  destruct (decode s job) as [[i slot]|] eqn:Hd; [|done].
  destruct (Z.eqb_spec (owner_pid slot) owner) as [Ho|]; [|done].
  destruct (Z.eqb_spec target (owner_pid slot)) as [|Ht]; [done|]. cbn [orb negb].
  destruct (job_decode_live _ _ _ _ Hwf Hd) as [Hl Hc].
  destruct (remove_member_live i slot target Hl) as (_ & Hm & Hlive & _).
  destruct (remove_member slot target) as [r slot'] eqn:E. cbn [fst snd] in *.
  apply job_store_wf; [done|]. left. split; [by apply Hlive|].
  apply (live_member_pos i _ owner); [by apply Hlive|]. apply Hm. split; [|congruence].
  unfold INVALID_PROCESS_ID in Hp. destruct (ls_owner _ _ Hl) as [E0|]; [congruence|by subst owner].
Qed.

Lemma inherit_wf s job child : wf s -> wf (fst (inherit_member s job child)).
Proof.
  intros Hwf. unfold inherit_member. destruct (negb _); [done|]. destruct (_ =? _); [done|].
  destruct (decode s job) as [[i slot]|] eqn:Hd; [|done].
  destruct (job_decode_live _ _ _ _ Hwf Hd) as [Hl Hc].
  pose proof (add_member_wf i slot child Hl Hc). destruct (add_member slot child).
  by apply job_store_wf.
Qed.

Lemma job_release_wf s pid : wf s -> wf (release_process s pid).
Proof.
  intros Hwf. unfold release_process. destruct (Z.eqb_spec pid INVALID_PROCESS_ID) as [|Hp]; [done|].
  destruct (negb _); [done|]. destruct Hwf as [Hl HF]. split; simpl; [by rewrite length_fmap|].
  intros i x Hx. apply list_lookup_fmap_Some in Hx as (slot & -> & Hs).
  by apply job_release_slot_wf, HF.
Qed.

Lemma job_exec_wf s op : wf s -> wf (exec s op).
Proof.
  intros Hwf. destruct op; simpl.
  - unfold initialize. case_match; [done|]. apply job_boot_wf.
  - by apply job_create_wf.
  - by apply attach_wf.
  - by apply detach_wf.
  - by apply inherit_wf.
  - by apply job_release_wf.
Qed.

Lemma job_run_wf ops s : wf s -> wf (fold_left exec ops s).
Proof. revert s; induction ops; intros s Hwf; simpl; [done|]. by apply IHops, job_exec_wf. Qed.

(** ** Membership as a relation between jobs and processes *)

Lemma contains_iff s job pid :
  g_initialized s = true -> pid ≠ 0 ->
  contains s job pid = true <->
  exists i slot, decode s job = Some (i, slot) /\ pid ∈ member_list slot.
Proof.
  intros Hi Hp. unfold contains. rewrite Hi. unfold INVALID_PROCESS_ID.
  replace (pid =? 0) with false by lia. cbn [orb negb].
  destruct (decode s job) as [[i slot]|].
  - rewrite has_member_elem. split; [by exists i, slot|]. intros (j & sl & [= <- <-] & ?). done.
  - split; [done|]. by intros (? & ? & ? & _).
Qed.

Lemma contains_zero s job : contains s job 0 = false.
Proof. unfold contains. by rewrite orb_true_r. Qed.

(** Storing a slot that keeps its identity changes only that job. *)
Lemma job_decode_store s job i slot slot' j :
  wf s -> wf (store s i slot') -> decode s job = Some (i, slot) -> id slot' = id slot ->
  active slot' = true ->
  decode (store s i slot') j = if decide (j = job) then Some (i, slot') else decode s j.
Proof.
  intros Hwf Hwf' Hd Hid Ha. pose proof (job_decode_Some _ _ _ _ Hd) as (Hi & Hact & Hjob).
  pose proof (lookup_lt_Some _ _ _ Hi) as Hlt. case_decide as Ej.
  - subst j. apply (decode_iff _ _ _ _ Hwf'). simpl. rewrite list_lookup_insert_eq by done.
    split; [done|]. split; [done|congruence].
  - apply option_eq. intros [k sl]. rewrite (decode_iff _ _ _ _ Hwf'), (decode_iff _ _ _ _ Hwf).
    simpl. rewrite list_lookup_insert_Some. split.
    + intros ([(<- & <- & _)|[Hk Hx]] & ? & ?); [congruence|done].
    + intros (Hx & ? & ?). split; [|done]. right. split; [|done]. intros <-. congruence.
Qed.

Lemma contains_store s job i slot slot' j q :
  wf s -> wf (store s i slot') -> decode s job = Some (i, slot) -> id slot' = id slot ->
  active slot' = true -> g_initialized s = true -> q ≠ 0 ->
  contains (store s i slot') j q =
  if j =? job then bool_decide (q ∈ member_list slot') else contains s j q.
Proof.
  intros Hwf Hwf' Hd Hid Ha Hinit Hq.
  pose proof (job_decode_store s job i slot slot' j Hwf Hwf' Hd Hid Ha) as E.
  unfold contains. simpl. rewrite E, Hinit. unfold INVALID_PROCESS_ID.
  replace (q =? 0) with false by lia. cbn [negb orb].
  destruct (Z.eqb_spec j job) as [->|]; [|by rewrite decide_False].
  rewrite decide_True by done. apply eq_iff_eq_true. by rewrite has_member_elem, bool_decide_eq_true.
Qed.

Lemma contains_slot s job i slot q :
  decode s job = Some (i, slot) -> g_initialized s = true -> q ≠ 0 ->
  contains s job q = bool_decide (q ∈ member_list slot).
Proof.
  intros Hd Hinit Hq. apply eq_iff_eq_true. rewrite contains_iff, bool_decide_eq_true by done.
  rewrite Hd. split; [|by eauto]. by intros (? & ? & [= <- <-] & ?).
Qed.

(** The owner's successful [attach] and [detach], on the slot. *)
Lemma attach_Ok s owner job target s' :
  attach s owner job target = (s', Ok) ->
  exists i slot slot', decode s job = Some (i, slot) /\ owner_pid slot = owner /\
    g_initialized s = true /\ add_member slot target = (Ok, slot') /\ s' = store s i slot'.
Proof.
  unfold attach. destruct (g_initialized s); [|done]. cbn [negb]. destruct (_ || _); [done|].
  destruct (decode s job) as [[i slot]|]; [|done].
  destruct (Z.eqb_spec (owner_pid slot) owner); [|done]. cbn [negb].
  destruct (add_member slot target) as [st slot'] eqn:E. intros [= <- ->]. by exists i, slot, slot'.
Qed.

Lemma detach_Ok s owner job target s' :
  detach s owner job target = (s', Ok) ->
  exists i slot slot', decode s job = Some (i, slot) /\ owner_pid slot = owner /\
    g_initialized s = true /\ target ≠ owner /\ target ≠ 0 /\
    remove_member slot target = (true, slot') /\ s' = store s i slot'.
Proof.
  unfold detach, INVALID_PROCESS_ID. destruct (g_initialized s); [|done]. cbn [negb].
  destruct (owner =? 0); [done|]. destruct (Z.eqb_spec target 0); [done|]. cbn [orb].
  destruct (decode s job) as [[i slot]|]; [|done].
  destruct (Z.eqb_spec (owner_pid slot) owner); [|done].
  destruct (Z.eqb_spec target (owner_pid slot)); [done|]. cbn [negb orb].
  destruct (remove_member slot target) as [[] slot'] eqn:E; intros [= <-].
  exists i, slot, slot'. by repeat split; congruence.
Qed.

Lemma store_same s i slot : g_slots s !! i = Some slot -> g_slots (store s i slot) = g_slots s.
Proof. intros. simpl. by apply list_insert_id. Qed.

Lemma attach_fail s owner job target s' st :
  attach s owner job target = (s', st) -> st ≠ Ok -> g_slots s' = g_slots s.
Proof.
  unfold attach. destruct (negb _); [by intros [= <- <-]|]. destruct (_ || _); [by intros [= <- <-]|].
  destruct (decode s job) as [[i slot]|] eqn:Hd; [|by intros [= <- <-]].
  destruct (negb _); [by intros [= <- <-]|].
  destruct (add_member slot target) as [st0 slot'] eqn:E. intros [= <- <-] Hne.
  rewrite (add_member_fail _ _ _ _ E Hne). apply store_same. by apply job_decode_Some in Hd as [? _].
Qed.

Lemma detach_fail s owner job target s' st :
  detach s owner job target = (s', st) -> st ≠ Ok -> g_slots s' = g_slots s.
Proof.
  unfold detach. destruct (negb _); [by intros [= <- <-]|]. destruct (_ || _); [by intros [= <- <-]|].
  destruct (decode s job) as [[i slot]|] eqn:Hd; [|by intros [= <- <-]].
  destruct (_ || _); [by intros [= <- <-]|].
  destruct (remove_member slot target) as [[] slot'] eqn:E; intros [= <- <-] Hne; [done|].
  rewrite (proj1 (remove_member_none _ _ _ E)). apply store_same. by apply job_decode_Some in Hd as [? _].
Qed.

Lemma release_decode s pid job i slot :
  wf s -> g_initialized s = true -> pid ≠ 0 ->
  decode (release_process s pid) job = Some (i, slot) <->
  exists old, decode s job = Some (i, old) /\ slot = release_slot pid old /\ active slot = true.
Proof.
  intros Hwf Hinit Hp. rewrite (decode_iff _ _ _ _ (job_release_wf s pid Hwf)).
  unfold release_process, INVALID_PROCESS_ID. rewrite Hinit. replace (pid =? 0) with false by lia.
  cbn [negb g_slots]. rewrite list_lookup_fmap_Some.
  assert (forall old, g_slots s !! i = Some old -> active (release_slot pid old) = true ->
    active old = true /\ id (release_slot pid old) = id old) as Hid.
  { intros old Ho. unfold release_slot. destruct (active old) eqn:Ha; cbn [negb]; [|congruence].
    intros Hr. split; [done|].
    destruct (remove_member_live i old pid) as (_ & _ & _ & _ & _ & _ & _ & Hid);
      [by apply job_wf_slot_live; [apply Hwf|]|].
    unfold reclaim_if_empty in *. repeat case_match; try done; by simplify_eq. }
  split.
  - intros ((old & -> & Ho) & Ha & <-). exists old. destruct (Hid _ Ho Ha) as [? E].
    split; [|done]. apply decode_iff; [done|]. by rewrite E.
  - intros (old & (Ho & Ha' & <-)%job_decode_Some & -> & Ha). destruct (Hid _ Ho Ha).
    split; [|done]. by exists old.
Qed.

(** Releasing a process empties it out of the slot, and the slot is cleared only
    when nobody else is left. *)
Lemma release_slot_members i slot pid q :
  live_slot i slot ->
  (active (release_slot pid slot) = true /\ q ∈ member_list (release_slot pid slot)) <->
  (q ∈ member_list slot /\ q ≠ pid).
Proof.
  intros Hl. destruct (remove_member_live i slot pid Hl) as (_ & Hm & _ & Hl' & _ & Ha & _).
  rewrite <- Hm. unfold release_slot. rewrite (ls_active _ _ Hl). cbn [negb].
  set (sl := snd (remove_member slot pid)) in *.
  set (sl' := if owner_pid sl =? pid then _ else _).
  assert (active sl' = true /\ member_list sl' = member_list sl /\ member_count sl' = member_count sl)
    as (Ha' & Hml & Hc) by (unfold sl'; by case_match).
  rewrite <- Hml. unfold reclaim_if_empty. rewrite Ha'. cbn [negb orb].
  destruct (Nat.eqb_spec (member_count sl') 0) as [E|E]; cbn [negb]; [|tauto].
  split; [by intros [? _]|]. unfold member_list. rewrite E, take_0. by intros ?%elem_of_nil.
Qed.

(** ** Properties *)

(** Process 5 has created the job "ab" and attached process 6. *)
Definition example_state : State :=
  fold_left exec
    [OpInitialize; OpCreate 5 (Some [97; 98]) true; OpAttach 5 (encode 0 1) 6] boot_state.

(** C40: Whatever calls are made, in whatever order and with whatever ids, every
    job slot stays either cleared or live with between 1 and 16 distinct,
    non-zero members, an owner that is a member unless the job is orphaned, an
    id that encodes its own index and generation, and zeroes behind the last
    member: a job never outlives its members. *)
Theorem jobs_invariant ops : wf (fold_left exec ops boot_state).
Proof. apply job_run_wf, job_boot_wf. Qed.

(** Job membership as a relation: a successful [attach] adds exactly the
    pair (job, target), a successful [detach] removes exactly that pair, both
    only at the request of the job's current owner, and a call that reports an
    error changes nothing. *)
Theorem membership_update_ok s owner job target :
  wf s ->
  (forall s', attach s owner job target = (s', Ok) ->
     (exists i slot, decode s job = Some (i, slot) /\ owner_pid slot = owner) /\
     forall j q, contains s' j q = contains s j q || ((j =? job) && (q =? target))) /\
  (forall s', detach s owner job target = (s', Ok) ->
     (exists i slot, decode s job = Some (i, slot) /\ owner_pid slot = owner) /\
     forall j q, contains s' j q = contains s j q && negb ((j =? job) && (q =? target))) /\
  (forall s' st, attach s owner job target = (s', st) -> st ≠ Ok -> g_slots s' = g_slots s) /\
  (forall s' st, detach s owner job target = (s', st) -> st ≠ Ok -> g_slots s' = g_slots s).
Proof.
  intros Hwf. split; [|split; [|split; [apply attach_fail|apply detach_fail]]].
  - intros s' H. pose proof (attach_wf s owner job target Hwf) as Hwf'. rewrite H in Hwf'.
    apply attach_Ok in H as (i & slot & slot' & Hd & Ho & Hinit & Hadd & ->). cbn [fst] in Hwf'.
    split; [by exists i, slot|]. intros j q.
    destruct (job_decode_live _ _ _ _ Hwf Hd) as [Hl _].
    destruct (add_member_Ok _ _ _ _ Hl Hadd) as (Hl' & Hml & _ & _ & Ht & _ & Hid).
    destruct (decide (q = 0)) as [->|Hq].
    { rewrite !contains_zero. replace (0 =? target) with false by lia. by rewrite andb_false_r. }
    rewrite (contains_store s job i slot slot' j q) by (done || apply Hl').
    destruct (Z.eqb_spec j job) as [->|]; [|by rewrite orb_false_r]. cbn [andb].
    rewrite (contains_slot s job i slot q) by done. apply eq_iff_eq_true.
    rewrite orb_true_iff, !bool_decide_eq_true, Hml, elem_of_app, list_elem_of_singleton, Z.eqb_eq.
    done.
  - intros s' H. pose proof (detach_wf s owner job target Hwf) as Hwf'. rewrite H in Hwf'.
    apply detach_Ok in H as (i & slot & slot' & Hd & Ho & Hinit & Hto & Ht & Hrem & ->).
    cbn [fst] in Hwf'. split; [by exists i, slot|]. intros j q.
    destruct (job_decode_live _ _ _ _ Hwf Hd) as [Hl _].
    destruct (remove_member_live i slot target Hl) as (_ & Hm & _ & _ & _ & Ha & _ & Hid).
    rewrite Hrem in *. cbn [snd] in *.
    destruct (decide (q = 0)) as [->|Hq]; [by rewrite !contains_zero|].
    rewrite (contains_store s job i slot slot' j q) by done.
    destruct (Z.eqb_spec j job) as [->|]; [|by rewrite andb_true_r]. cbn [andb].
    rewrite (contains_slot s job i slot q) by done. apply eq_iff_eq_true.
    rewrite andb_true_iff, !bool_decide_eq_true, Hm, negb_true_iff, Z.eqb_neq. done.
Qed.

Lemma membership_update_ok_witness :
  contains (fst (attach example_state 5 (encode 0 1) 9)) (encode 0 1) 9 = true /\
  contains (fst (detach example_state 5 (encode 0 1) 6)) (encode 0 1) 6 = false.
Proof.
  destruct (membership_update_ok example_state 5 (encode 0 1) 9) as (Ha & _); [apply job_run_wf, job_boot_wf|].
  destruct (membership_update_ok example_state 5 (encode 0 1) 6) as (_ & Hd & _); [apply job_run_wf, job_boot_wf|].
  split.
  - destruct (Ha (fst (attach example_state 5 (encode 0 1) 9))) as [_ ->]; [vm_compute; reflexivity|].
    vm_compute. reflexivity.
  - destruct (Hd (fst (detach example_state 5 (encode 0 1) 6))) as [_ ->]; [vm_compute; reflexivity|].
    vm_compute. reflexivity.
Defined.

(** When a process exits, [release_process] removes it from every job it
    belonged to and changes no other process's membership of any job; a job
    whose last member left is gone, and its id no longer resolves. *)
Theorem release_job_members s pid :
  wf s -> g_initialized s = true -> pid ≠ INVALID_PROCESS_ID ->
  (forall job q, contains (release_process s pid) job q = contains s job q && negb (q =? pid)) /\
  (forall job, decode (release_process s pid) job = None <->
     forall q, q ≠ 0 -> q ≠ pid -> contains s job q = false).
Proof.
  unfold INVALID_PROCESS_ID. intros Hwf Hinit Hp.
  assert (g_initialized (release_process s pid) = true) as Hinit'.
  { unfold release_process. by repeat case_match. }
  assert (forall job q, contains (release_process s pid) job q = contains s job q && negb (q =? pid))
    as Hc.
  { intros job q. destruct (decide (q = 0)) as [->|Hq]; [by rewrite !contains_zero|].
    apply eq_iff_eq_true. rewrite andb_true_iff, !contains_iff, negb_true_iff, Z.eqb_neq by done.
    split.
    - intros (i & slot & (old & Hd & -> & Ha)%release_decode & Hin); [|done..].
      destruct (job_decode_live _ _ _ _ Hwf Hd) as [Hl _].
      destruct (proj1 (release_slot_members i old pid q Hl) (conj Ha Hin)). eauto.
    - intros [(i & old & Hd & Hin) Hne]. destruct (job_decode_live _ _ _ _ Hwf Hd) as [Hl _].
      destruct (proj2 (release_slot_members i old pid q Hl) (conj Hin Hne)) as [Ha Hin'].
      exists i, (release_slot pid old). split; [|done]. apply release_decode; eauto. }
  split; [done|]. intros job. split.
  - intros Hn q Hq Hqp. specialize (Hc job q). replace (q =? pid) with false in Hc by lia.
    rewrite andb_true_r in Hc. rewrite <- Hc. unfold contains. rewrite Hn. by case_match.
  - intros Hall. destruct (decode (release_process s pid) job) as [[i slot]|] eqn:Hd; [exfalso|done].
    destruct (job_decode_live _ _ _ _ (job_release_wf s pid Hwf) Hd) as [Hl Hpos].
    rewrite <- (job_live_length _ _ Hl) in Hpos.
    destruct (member_list slot) as [|q l] eqn:Eml; [simpl in Hpos; lia|].
    assert (q ∈ member_list slot) as Hin by (rewrite Eml; constructor).
    assert (q ≠ 0) as Hq by (intros ->; by apply (ls_nonzero _ _ Hl)).
    assert (contains (release_process s pid) job q = true) as Ht by (apply contains_iff; eauto).
    rewrite Hc in Ht. apply andb_true_iff in Ht as [Ht Hne].
    rewrite Hall in Ht by lia. done.
Qed.

Lemma release_job_members_witness :
  contains (release_process example_state 6) (encode 0 1) 5 = true /\
  decode (release_process (release_process example_state 6) 5) (encode 0 1) = None.
Proof.
  split.
  - rewrite (proj1 (release_job_members example_state 6 (job_run_wf _ _ (job_boot_wf _)) eq_refl ltac:(discriminate))).
    vm_compute. reflexivity.
  - vm_compute. reflexivity.
Defined.
