(* ===== verification/Channels.v ===== *)
(** * IPC services and channels (kernel/ipc/channel.cpp)

    Named endpoints with a queue of pending connections, and bidirectional
    channels with one bounded message queue per direction.  The file-scope
    tables are the fields of [State]; every entry point holds one lock for its
    whole body, so it is one function on [State].  A null pointer is [None] or a
    [false] flag; the value left in an out-parameter is part of the result. *)

From S2P Require Import Prelude Handles Ring.

(** ** Data *)

Definition INVALID_PROCESS_ID : Z := 0.
Definition INVALID_HANDLE : Z := 0.
Definition MAX_ENDPOINTS : nat := 16.
Definition MAX_CHANNELS : nat := 16.
Definition MAX_PENDING_CONNECTIONS : nat := 8.
Definition MAX_MESSAGES_PER_DIRECTION : nat := 4.
Definition MAX_SERVICE_NAME : nat := 31.
Definition MAX_MESSAGE_SIZE : nat := 256.

Definition kSideMask : Z := Z.shiftl 1 24.
Definition kKindEndpoint : Z := Z.shiftl 1 16.
Definition kKindChannel : Z := Z.shiftl 2 16.

Inductive Status :=
| Ok | AlreadyInitialized | NotInitialized | InvalidArgument | InvalidName | NameTooLong
| AlreadyExists | NotFound | StaleHandle | AccessDenied | CapacityReached | WouldBlock
| VersionMismatch | PeerClosed.

#[export] Instance Status_eq_dec : EqDecision Status.
Proof. solve_decision. Defined.

Record Message := mkMessage { sender_pid : Z; size : nat; bytes : list Z }.

Record ServiceMetadata := mkMetadata {
  service_version : Z; minimum_client_version : Z; capabilities : Z }.

Record ServiceNegotiation := mkNegotiation {
  minimum_version : Z; maximum_version : Z; selected_version : Z;
  neg_service_version : Z; neg_minimum_client_version : Z; neg_capabilities : Z;
  neg_owner_pid : Z }.

Record ServiceInfo := mkInfo {
  info_service_version : Z; info_minimum_client_version : Z; info_capabilities : Z;
  info_owner_pid : Z }.

Record MessageQueue := mkQueue {
  messages : list Message; head : nat; tail : nat; count : nat }.

Record EndpointSlot := mkEndpoint {
  ep_generation : Z;
  owner_pid : Z;
  ep_name : list Z;
  pending : list nat;
  pending_head : nat;
  pending_tail : nat;
  pending_count : nat;
  metadata : ServiceMetadata;
  versioned : bool;
  ep_active : bool;
}.

Record ChannelSlot := mkChannel {
  generation : Z;
  client_pid : Z;
  server_pid : Z;
  to_server : MessageQueue;
  to_client : MessageQueue;
  active : bool;
  client_open : bool;
  server_open : bool;
  accepted : bool;
}.

Record State := mkState {
  g_endpoints : list EndpointSlot; g_channels : list ChannelSlot; g_initialized : bool }.

(** Zero-initialised values, as [clear_bytes] and [= {}] leave them. *)
Definition empty_message : Message := mkMessage 0 0 (replicate MAX_MESSAGE_SIZE 0).
Definition empty_queue : MessageQueue :=
  mkQueue (replicate MAX_MESSAGES_PER_DIRECTION empty_message) 0 0 0.
Definition empty_metadata : ServiceMetadata := mkMetadata 0 0 0.
Definition empty_endpoint (generation : Z) : EndpointSlot :=
  mkEndpoint generation 0 (replicate (S MAX_SERVICE_NAME) 0)
    (replicate MAX_PENDING_CONNECTIONS 0%nat) 0 0 0 empty_metadata false false.
Definition empty_channel (generation : Z) : ChannelSlot :=
  mkChannel generation 0 0 empty_queue empty_queue false false false false.

Definition with_pending (ep : EndpointSlot) (p : list nat) (h t c : nat) : EndpointSlot :=
  mkEndpoint (ep_generation ep) (owner_pid ep) (ep_name ep) p h t c (metadata ep)
    (versioned ep) (ep_active ep).
Definition with_open (c : ChannelSlot) (client server : bool) : ChannelSlot :=
  mkChannel (generation c) (client_pid c) (server_pid c) (to_server c) (to_client c) (active c)
    client server (accepted c).
Definition with_accepted (c : ChannelSlot) : ChannelSlot :=
  mkChannel (generation c) (client_pid c) (server_pid c) (to_server c) (to_client c) (active c)
    (client_open c) (server_open c) true.
Definition with_queues (c : ChannelSlot) (ts tc : MessageQueue) : ChannelSlot :=
  mkChannel (generation c) (client_pid c) (server_pid c) ts tc (active c)
    (client_open c) (server_open c) (accepted c).

Definition with_endpoints (s : State) (e : list EndpointSlot) : State :=
  mkState e (g_channels s) (g_initialized s).
Definition with_channels (s : State) (c : list ChannelSlot) : State :=
  mkState (g_endpoints s) c (g_initialized s).

Definition boot_state : State :=
  mkState (replicate MAX_ENDPOINTS (empty_endpoint 0)) (replicate MAX_CHANNELS (empty_channel 0))
    false.

(** ** Names *)

Definition valid_name_character (value : Z) : bool :=
  ((97 <=? value) && (value <=? 122)) || ((65 <=? value) && (value <=? 90)) ||
  ((48 <=? value) && (value <=? 57)) || (value =? 46) || (value =? 95) || (value =? 45).

Definition validate_name (name : option (list Z)) (length : nat) : Status :=
  match name with
  | None => InvalidArgument
  | Some text =>
    if (length =? 0)%nat then InvalidArgument else
    if (MAX_SERVICE_NAME <? length)%nat then NameTooLong else
    if forallb (fun index => negb (word_at text index =? 0) && valid_name_character (word_at text index))
         (seqZ 0 (Z.of_nat length))
    then Ok else InvalidName
  end.

(** The stored length: [while (stored <= MAX && name[stored] != 0) ++stored]. *)
Definition stored_length (name : list Z) : nat :=
  match for_find (fun index => word_at name index =? 0) (S MAX_SERVICE_NAME) 0 with
  | Some index => Z.to_nat index
  | None => S MAX_SERVICE_NAME
  end.

Definition name_equal (ep : EndpointSlot) (name : list Z) (length : nat) : bool :=
  (stored_length (ep_name ep) =? length)%nat &&
  forallb (fun index => word_at (ep_name ep) index =? word_at name index)
    (seqZ 0 (Z.of_nat length)).

(** ** Handles *)

Definition encode_endpoint (index : nat) (generation : Z) : Z :=
  Z.lor (Z.lor (Z.shiftl generation 32) kKindEndpoint) (Z.of_nat index + 1).

Definition encode_channel (index : nat) (generation : Z) (server_side : bool) : Z :=
  Z.lor (Z.lor (Z.lor (Z.shiftl generation 32) kKindChannel) (if server_side then kSideMask else 0))
    (Z.of_nat index + 1).

Definition decode_index (handle : Z) (maximum : nat) : option nat :=
  let encoded := Z.land handle kIndexMask in
  if (encoded =? 0) || (Z.of_nat maximum <? encoded) then None else Some (Z.to_nat (encoded - 1)).

Definition decode_endpoint (s : State) (owner handle : Z) : Status + (nat * EndpointSlot) :=
  if negb (Z.land handle kKindMask =? kKindEndpoint) || negb (Z.land handle kSideMask =? 0)
  then inl StaleHandle else
  match decode_index handle MAX_ENDPOINTS with
  | None => inl StaleHandle
  | Some index =>
    match g_endpoints s !! index with
    | None => inl StaleHandle
    | Some slot =>
      if negb (ep_active slot) || negb (ep_generation slot =? u32 (Z.shiftr handle 32))
      then inl StaleHandle else
      if negb (owner_pid slot =? owner) then inl AccessDenied else inr (index, slot)
    end
  end.

Definition decode_channel (s : State) (owner handle : Z) : Status + (nat * ChannelSlot * bool) :=
  if negb (Z.land handle kKindMask =? kKindChannel) then inl StaleHandle else
  match decode_index handle MAX_CHANNELS with
  | None => inl StaleHandle
  | Some index =>
    match g_channels s !! index with
    | None => inl StaleHandle
    | Some slot =>
      if negb (active slot) || negb (generation slot =? u32 (Z.shiftr handle 32))
      then inl StaleHandle else
      let server := negb (Z.land handle kSideMask =? 0) in
      let expected := if server then server_pid slot else client_pid slot in
      let open := if server then server_open slot else client_open slot in
      if negb (expected =? owner) then inl AccessDenied else
      if negb open then inl StaleHandle else inr (index, slot, server)
    end
  end.

(** ** Slots *)

Definition reset_channel (slot : ChannelSlot) : ChannelSlot := empty_channel (generation slot).

Definition maybe_free_channel (slot : ChannelSlot) : ChannelSlot :=
  if negb (client_open slot) && negb (server_open slot) then reset_channel slot else slot.

Definition pending_live (channels : list ChannelSlot) (ep : EndpointSlot) (channel_index : nat) : bool :=
  match channels !! channel_index with
  | None => false
  | Some channel =>
    active channel && negb (accepted channel) && client_open channel && server_open channel &&
    (server_pid channel =? owner_pid ep)
  end.

(** The pending channel indices from the head on, as both loops visit them. *)
Definition pending_list (ep : EndpointSlot) : list nat :=
  ring_list 0%nat (pending ep) (pending_head ep) (pending_count ep).

Definition compact_pending (channels : list ChannelSlot) (ep : EndpointSlot) : EndpointSlot :=
  let retained := List.filter (pending_live channels ep) (pending_list ep) in
  with_pending ep (retained ++ replicate (MAX_PENDING_CONNECTIONS - length retained) 0%nat)
    0 (length retained mod MAX_PENDING_CONNECTIONS) (length retained).

(** The [while] loop of [cancel_pending]; the bound is [pending_count]. *)
Fixpoint cancel_loop (n : nat) (ep : EndpointSlot) (channels : list ChannelSlot)
  : EndpointSlot * list ChannelSlot :=
  match n with
  | O => (ep, channels)
  | S n' =>
    let channel_index := nth (pending_head ep) (pending ep) 0%nat in
    let ep' := with_pending ep (pending ep) ((pending_head ep + 1) mod MAX_PENDING_CONNECTIONS)
                 (pending_tail ep) n' in
    match channels !! channel_index with
    | None => cancel_loop n' ep' channels
    | Some channel =>
      if negb (active channel) || accepted channel || negb (server_pid channel =? owner_pid ep)
      then cancel_loop n' ep' channels
      else cancel_loop n' ep'
             (<[channel_index := maybe_free_channel (with_open channel (client_open channel) false)]>
                channels)
    end
  end.

Definition cancel_pending (ep : EndpointSlot) (channels : list ChannelSlot)
  : EndpointSlot * list ChannelSlot :=
  let ep1 := compact_pending channels ep in
  let '(ep2, channels') := cancel_loop (pending_count ep1) ep1 channels in
  (with_pending ep2 (pending ep2) 0 0 (pending_count ep2), channels').

(** ** Message queues *)

Definition payload (data : option (list Z)) (n : nat) : list Z :=
  word_at (default [] data) <$> seqZ 0 (Z.of_nat n).

Definition push_message (queue : MessageQueue) (sender : Z) (data : option (list Z)) (n : nat)
  : MessageQueue * Status :=
  if (MAX_MESSAGES_PER_DIRECTION <=? count queue)%nat then (queue, WouldBlock) else
  let message := mkMessage sender n (payload data n ++ replicate (MAX_MESSAGE_SIZE - n) 0) in
  (mkQueue (<[tail queue := message]> (messages queue)) (head queue)
     ((tail queue + 1) mod MAX_MESSAGES_PER_DIRECTION) (S (count queue)), Ok).

Definition pop_message (queue : MessageQueue) : MessageQueue * Status * Message :=
  if (count queue =? 0)%nat then (queue, WouldBlock, empty_message) else
  (mkQueue (<[head queue := empty_message]> (messages queue))
     ((head queue + 1) mod MAX_MESSAGES_PER_DIRECTION) (tail queue) (count queue - 1), Ok,
   nth (head queue) (messages queue) empty_message).

(** ** Entry points *)

Definition initialize (s : State) : State * Status :=
  if g_initialized s then (s, AlreadyInitialized) else
  (mkState (replicate MAX_ENDPOINTS (empty_endpoint 0)) (replicate MAX_CHANNELS (empty_channel 0))
     true, Ok).

Definition copy_name (text : list Z) (length : nat) : list Z :=
  (word_at text <$> seqZ 0 (Z.of_nat length)) ++ replicate (S MAX_SERVICE_NAME - length) 0.

Definition bad_metadata (m : option ServiceMetadata) : bool :=
  match m with
  | None => false
  | Some m => (service_version m =? 0) || (minimum_client_version m =? 0) ||
              (service_version m <? minimum_client_version m)
  end.

Definition bind (s : State) (owner : Z) (name : option (list Z)) (name_length : nat)
    (has_endpoint : bool) (md : option ServiceMetadata) : State * Status * Z :=
  if negb (g_initialized s) then (s, NotInitialized, INVALID_HANDLE) else
  if (owner =? INVALID_PROCESS_ID) || negb has_endpoint
  then (s, InvalidArgument, INVALID_HANDLE) else
  match validate_name name name_length with
  | Ok =>
    let text := default [] name in
    if bad_metadata md then (s, InvalidArgument, INVALID_HANDLE) else
    if existsb (fun slot => ep_active slot && name_equal slot text name_length) (g_endpoints s)
    then (s, AlreadyExists, INVALID_HANDLE) else
    match find_index (fun slot => negb (ep_active slot)) (g_endpoints s) with
    | None => (s, CapacityReached, INVALID_HANDLE)
    | Some index =>
      let gen := next_generation (default 0 (ep_generation <$> g_endpoints s !! index)) in
      let slot := mkEndpoint gen owner (copy_name text name_length)
                    (replicate MAX_PENDING_CONNECTIONS 0%nat) 0 0 0
                    (default empty_metadata md)
                    (match md with Some _ => true | None => false end) true in
      (with_endpoints s (<[index := slot]> (g_endpoints s)), Ok, encode_endpoint index gen)
    end
  | status => (s, status, INVALID_HANDLE)
  end.

Definition find_service (s : State) (text : list Z) (name_length : nat) : option nat :=
  find_index (fun slot => ep_active slot && name_equal slot text name_length) (g_endpoints s).

Definition query (s : State) (name : option (list Z)) (name_length : nat) (has_info : bool)
  : Status * ServiceInfo :=
  let none := mkInfo 0 0 0 0 in
  if negb (g_initialized s) then (NotInitialized, none) else
  if negb has_info then (InvalidArgument, none) else
  match validate_name name name_length with
  | Ok =>
    match find_service s (default [] name) name_length ≫= (fun i => g_endpoints s !! i) with
    | None => (NotFound, none)
    | Some slot =>
      if negb (versioned slot) then (VersionMismatch, none) else
      (Ok, mkInfo (service_version (metadata slot)) (minimum_client_version (metadata slot))
             (capabilities (metadata slot)) (owner_pid slot))
    end
  | status => (status, none)
  end.

(** The version range check: [inr] is [selected_version]. *)
Definition negotiate (ep : EndpointSlot) (neg : option ServiceNegotiation) : Status + Z :=
  match neg with
  | None => inr 0
  | Some n =>
    if (minimum_version n =? 0) || (maximum_version n <? minimum_version n)
    then inl InvalidArgument else
    if negb (versioned ep) then inl VersionMismatch else
    let lower := if minimum_client_version (metadata ep) <? minimum_version n
                 then minimum_version n else minimum_client_version (metadata ep) in
    let upper := if maximum_version n <? service_version (metadata ep)
                 then maximum_version n else service_version (metadata ep) in
    if upper <? lower then inl VersionMismatch else inr upper
  end.

Definition fill_negotiation (ep : EndpointSlot) (selected : Z) (n : ServiceNegotiation)
  : ServiceNegotiation :=
  mkNegotiation (minimum_version n) (maximum_version n) selected
    (service_version (metadata ep)) (minimum_client_version (metadata ep))
    (capabilities (metadata ep)) (owner_pid ep).

Definition connect (s : State) (client : Z) (name : option (list Z)) (name_length : nat)
    (has_channel : bool) (neg : option ServiceNegotiation)
  : State * Status * Z * option ServiceNegotiation :=
  let error st := (s, st, INVALID_HANDLE, neg) in
  if negb (g_initialized s) then error NotInitialized else
  if (client =? INVALID_PROCESS_ID) || negb has_channel then error InvalidArgument else
  match validate_name name name_length with
  | Ok =>
    match find_service s (default [] name) name_length with
    | None => error NotFound
    | Some ei =>
      match g_endpoints s !! ei with
      | None => error NotFound
      | Some ep0 =>
        match negotiate ep0 neg with
        | inl status => error status
        | inr selected =>
          let ep := compact_pending (g_channels s) ep0 in
          let s1 := with_endpoints s (<[ei := ep]> (g_endpoints s)) in
          if (MAX_PENDING_CONNECTIONS <=? pending_count ep)%nat
          then (s1, WouldBlock, INVALID_HANDLE, neg) else
          match find_index (fun slot => negb (active slot)) (g_channels s) with
          | None => (s1, CapacityReached, INVALID_HANDLE, neg)
          | Some index =>
            let gen := next_generation (default 0 (generation <$> g_channels s !! index)) in
            let slot := mkChannel gen client (owner_pid ep) empty_queue empty_queue
                          true true true false in
            let ep' := with_pending ep (<[pending_tail ep := index]> (pending ep))
                         (pending_head ep)
                         ((pending_tail ep + 1) mod MAX_PENDING_CONNECTIONS)
                         (S (pending_count ep)) in
            (mkState (<[ei := ep']> (g_endpoints s)) (<[index := slot]> (g_channels s))
               (g_initialized s), Ok, encode_channel index gen false,
             fill_negotiation ep selected <$> neg)
          end
        end
      end
    end
  | status => error status
  end.

(** The [while] loop of [accept]: the endpoint after the pops and the accepted
    channel index, if any. *)
Fixpoint accept_loop (n : nat) (channels : list ChannelSlot) (ep : EndpointSlot)
  : EndpointSlot * option nat :=
  match n with
  | O => (with_pending ep (pending ep) 0 0 (pending_count ep), None)
  | S n' =>
    let index := nth (pending_head ep) (pending ep) 0%nat in
    let ep' := with_pending ep (pending ep) ((pending_head ep + 1) mod MAX_PENDING_CONNECTIONS)
                 (pending_tail ep) n' in
    if negb (pending_live channels ep' index) then accept_loop n' channels ep'
    else (ep', Some index)
  end.

Definition accept (s : State) (server handle : Z) (has_channel : bool) : State * Status * Z :=
  if negb (g_initialized s) then (s, NotInitialized, INVALID_HANDLE) else
  if (server =? INVALID_PROCESS_ID) || negb has_channel
  then (s, InvalidArgument, INVALID_HANDLE) else
  match decode_endpoint s server handle with
  | inl status => (s, status, INVALID_HANDLE)
  | inr (ei, ep0) =>
    let ep := compact_pending (g_channels s) ep0 in
    let '(ep', found) := accept_loop (pending_count ep) (g_channels s) ep in
    let s1 := with_endpoints s (<[ei := ep']> (g_endpoints s)) in
    match found with
    | None => (s1, WouldBlock, INVALID_HANDLE)
    | Some index =>
      (with_channels s1 (alter with_accepted index (g_channels s)), Ok,
       encode_channel index (default 0 (generation <$> g_channels s !! index)) true)
    end
  end.

Definition out_queue (slot : ChannelSlot) (server_side : bool) : MessageQueue :=
  if server_side then to_client slot else to_server slot.
Definition in_queue (slot : ChannelSlot) (server_side : bool) : MessageQueue :=
  out_queue slot (negb server_side).
Definition with_out_queue (slot : ChannelSlot) (server_side : bool) (q : MessageQueue) : ChannelSlot :=
  if server_side then with_queues slot (to_server slot) q else with_queues slot q (to_client slot).
Definition peer_open (slot : ChannelSlot) (server_side : bool) : bool :=
  if server_side then client_open slot else server_open slot.

Definition send (s : State) (sender handle : Z) (data : option (list Z)) (n : nat)
  : State * Status :=
  if negb (g_initialized s) then (s, NotInitialized) else
  if (sender =? INVALID_PROCESS_ID) || (MAX_MESSAGE_SIZE <? n)%nat ||
     (negb (n =? 0)%nat && match data with None => true | Some _ => false end)
  then (s, InvalidArgument) else
  match decode_channel s sender handle with
  | inl status => (s, status)
  | inr (index, slot, server_side) =>
    if negb (peer_open slot server_side) then (s, PeerClosed) else
    let (queue, status) := push_message (out_queue slot server_side) sender data n in
    (with_channels s (<[index := with_out_queue slot server_side queue]> (g_channels s)), status)
  end.

Definition receive (s : State) (receiver handle : Z) (has_message : bool)
  : State * Status * Message :=
  if negb (g_initialized s) then (s, NotInitialized, empty_message) else
  if (receiver =? INVALID_PROCESS_ID) || negb has_message
  then (s, InvalidArgument, empty_message) else
  match decode_channel s receiver handle with
  | inl status => (s, status, empty_message)
  | inr (index, slot, server_side) =>
    let '(queue, status, message) := pop_message (in_queue slot server_side) in
    let s' := with_channels s
                (<[index := with_out_queue slot (negb server_side) queue]> (g_channels s)) in
    match status with
    | WouldBlock => (s', if peer_open slot server_side then WouldBlock else PeerClosed, message)
    | status => (s', status, message)
    end
  end.

(** The endpoint as [close] and [release_process] leave it after [cancel_pending]. *)
Definition close_endpoint (ep : EndpointSlot) : EndpointSlot :=
  mkEndpoint (ep_generation ep) INVALID_PROCESS_ID (<[0%nat := 0]> (ep_name ep)) (pending ep)
    (pending_head ep) (pending_tail ep) (pending_count ep) (metadata ep) (versioned ep) false.

Definition close (s : State) (owner handle : Z) : State * Status :=
  if negb (g_initialized s) then (s, NotInitialized) else
  if (owner =? INVALID_PROCESS_ID) || (handle =? INVALID_HANDLE) then (s, InvalidArgument) else
  if Z.land handle kKindMask =? kKindEndpoint then
    match decode_endpoint s owner handle with
    | inl status => (s, status)
    | inr (ei, ep) =>
      let '(ep', channels') := cancel_pending ep (g_channels s) in
      (mkState (<[ei := close_endpoint ep']> (g_endpoints s)) channels' (g_initialized s), Ok)
    end
  else if Z.land handle kKindMask =? kKindChannel then
    match decode_channel s owner handle with
    | inl status => (s, status)
    | inr (index, slot, server_side) =>
      let slot' := if server_side then with_open slot (client_open slot) false
                   else with_open slot false (if accepted slot then server_open slot else false) in
      (with_channels s (<[index := maybe_free_channel slot']> (g_channels s)), Ok)
    end
  else (s, StaleHandle).

(** The first loop of [release_process], over the endpoints from [index] on. *)
Fixpoint release_endpoints (n index : nat) (pid : Z) (eps : list EndpointSlot)
    (channels : list ChannelSlot) : list EndpointSlot * list ChannelSlot :=
  match n with
  | O => (eps, channels)
  | S n' =>
    match eps !! index with
    | None => (eps, channels)
    | Some ep =>
      if negb (ep_active ep) || negb (owner_pid ep =? pid)
      then release_endpoints n' (S index) pid eps channels
      else let '(ep', channels') := cancel_pending ep channels in
           release_endpoints n' (S index) pid (<[index := close_endpoint ep']> eps) channels'
    end
  end.

Definition release_channel (pid : Z) (slot : ChannelSlot) : ChannelSlot :=
  if negb (active slot) then slot else
  let slot1 := if client_pid slot =? pid
               then with_open slot false (if accepted slot then server_open slot else false)
               else slot in
  let slot2 := if server_pid slot1 =? pid then with_open slot1 (client_open slot1) false
               else slot1 in
  maybe_free_channel slot2.

Definition release_process (s : State) (pid : Z) : State :=
  if negb (g_initialized s) || (pid =? INVALID_PROCESS_ID) then s else
  let '(eps, channels) := release_endpoints MAX_ENDPOINTS 0 pid (g_endpoints s) (g_channels s) in
  mkState eps (release_channel pid <$> channels) (g_initialized s).

(** One call of the component's interface. *)
Inductive Op :=
| OpInitialize
| OpBind (owner : Z) (name : option (list Z)) (n : nat) (has : bool) (md : option ServiceMetadata)
| OpConnect (client : Z) (name : option (list Z)) (n : nat) (has : bool)
    (neg : option ServiceNegotiation)
| OpAccept (server handle : Z) (has : bool)
| OpSend (sender handle : Z) (data : option (list Z)) (n : nat)
| OpReceive (receiver handle : Z) (has : bool)
| OpClose (owner handle : Z)
| OpRelease (pid : Z).

Definition exec (s : State) (op : Op) : State :=
  match op with
  | OpInitialize => fst (initialize s)
  | OpBind owner name n has md => fst (fst (bind s owner name n has md))
  | OpConnect client name n has neg => fst (fst (fst (connect s client name n has neg)))
  | OpAccept server handle has => fst (fst (accept s server handle has))
  | OpSend sender handle data n => fst (send s sender handle data n)
  | OpReceive receiver handle has => fst (fst (receive s receiver handle has))
  | OpClose owner handle => fst (close s owner handle)
  | OpRelease pid => release_process s pid
  end.

(** ** The invariant *)

Definition queue_list (q : MessageQueue) : list Message :=
  ring_list empty_message (messages q) (head q) (count q).

(** A message a queue may hold: sent by the process at the queue's writing end. *)
Definition message_ok (sender : Z) (m : Message) : Prop :=
  sender_pid m = sender /\ (size m <= MAX_MESSAGE_SIZE)%nat /\ length (bytes m) = MAX_MESSAGE_SIZE.

Definition queue_ok (sender : Z) (q : MessageQueue) : Prop :=
  ring_ok MAX_MESSAGES_PER_DIRECTION (messages q) (head q) (tail q) (count q) /\
  Forall (message_ok sender) (queue_list q).

(** A channel in use.  Before it is accepted it lives exactly as long as its
    client side. *)
Record live_channel (c : ChannelSlot) : Prop := {
  lc_active : active c = true;
  lc_gen : gen_ok (generation c);
  lc_client : client_pid c ≠ 0;
  lc_server : server_pid c ≠ 0;
  lc_to_server : queue_ok (client_pid c) (to_server c);
  lc_to_client : queue_ok (server_pid c) (to_client c);
  lc_unaccepted : accepted c = false -> client_open c = false -> server_open c = false;
}.

Definition wf_channel (c : ChannelSlot) : Prop :=
  (live_channel c /\ client_open c || server_open c = true) \/
  (c = empty_channel (generation c) /\ 0 <= generation c <= kMaximumGeneration).

(** The service name an endpoint carries. *)
Definition service_name (ep : EndpointSlot) : list Z :=
  take (stored_length (ep_name ep)) (ep_name ep).

Definition name_ok (name : list Z) : Prop :=
  exists text n, (0 < n <= MAX_SERVICE_NAME)%nat /\ name = copy_name text n /\
    forall i, 0 <= i < Z.of_nat n -> word_at text i ≠ 0 /\ valid_name_character (word_at text i) = true.

Record wf_endpoint (ep : EndpointSlot) : Prop := {
  we_ring : ring_ok MAX_PENDING_CONNECTIONS (pending ep) (pending_head ep) (pending_tail ep)
              (pending_count ep);
  we_nodup : NoDup (pending_list ep);
  we_gen : 0 <= ep_generation ep <= kMaximumGeneration;
  we_active_gen : ep_active ep = true -> gen_ok (ep_generation ep);
  we_owner : ep_active ep = true -> owner_pid ep ≠ 0;
  we_name : ep_active ep = true -> name_ok (ep_name ep);
  we_meta : ep_active ep = true -> versioned ep = true ->
            minimum_client_version (metadata ep) ≠ 0 /\
            minimum_client_version (metadata ep) <= service_version (metadata ep);
  we_closed : ep_active ep = false -> pending_count ep = 0%nat;
}.

(** No two services in use share a name. *)
Definition names_unique (eps : list EndpointSlot) : Prop :=
  forall i j a b, eps !! i = Some a -> eps !! j = Some b -> ep_active a = true ->
    ep_active b = true -> service_name a = service_name b -> i = j.

(** A connection that waits to be accepted is queued at a service of its server. *)
Definition queued (eps : list EndpointSlot) (chans : list ChannelSlot) : Prop :=
  forall c slot, chans !! c = Some slot -> active slot = true -> accepted slot = false ->
    server_open slot = true ->
    exists e ep, eps !! e = Some ep /\ ep_active ep = true /\ owner_pid ep = server_pid slot /\
      c ∈ pending_list ep.

Record tables_ok (eps : list EndpointSlot) (chans : list ChannelSlot) : Prop := {
  to_eps_len : length eps = MAX_ENDPOINTS;
  to_chans_len : length chans = MAX_CHANNELS;
  to_eps : Forall wf_endpoint eps;
  to_chans : Forall wf_channel chans;
  to_names : names_unique eps;
  to_queued : queued eps chans;
}.

Definition wf (s : State) : Prop := tables_ok (g_endpoints s) (g_channels s).

(** ** Message queues denote bounded FIFO lists *)

Lemma chan_empty_queue_ok sender : queue_ok sender empty_queue.
Proof. split; [apply ring_empty; [done|unfold MAX_MESSAGES_PER_DIRECTION; lia]|constructor]. Qed.

Lemma push_message_spec sender q data n q' :
  queue_ok sender q -> (n <= MAX_MESSAGE_SIZE)%nat -> push_message q sender data n = (q', Ok) ->
  queue_ok sender q' /\
  queue_list q' = queue_list q ++
    [mkMessage sender n (payload data n ++ replicate (MAX_MESSAGE_SIZE - n) 0)].
Proof.
  intros [Hr Hf] Hn H. unfold push_message in H.
  destruct (Nat.leb_spec MAX_MESSAGES_PER_DIRECTION (count q)) as [|Hc]; [done|]. injection H as <-.
  set (m := mkMessage _ _ _).
  destruct (ring_push empty_message _ _ _ _ _ m Hr Hc) as [Hr' Hl'].
  assert (message_ok sender m) as Hm.
  { split; [done|]. split; [done|]. cbn [m bytes]. unfold payload.
    rewrite length_app, length_replicate, length_fmap, length_seqZ. lia. }
  unfold queue_ok, queue_list in *. cbn [messages head tail count].
  rewrite Hl'. split; [|done]. split; [done|]. apply Forall_app. split; [done|].
  by apply Forall_singleton.
Qed.

Lemma pop_message_spec sender q q' m :
  queue_ok sender q -> pop_message q = (q', Ok, m) ->
  queue_ok sender q' /\ queue_list q = m :: queue_list q'.
Proof.
  intros [Hr Hf] H. unfold pop_message in H. destruct (Nat.eqb_spec (count q) 0) as [|Hc]; [done|].
  injection H as <- <-. destruct (count q) as [|c] eqn:Ec; [done|].
  destruct (ring_pop empty_message _ _ _ _ _ empty_message Hr) as [Hr' Hl'].
  unfold queue_ok, queue_list in *. cbn [messages head tail count]. rewrite Ec in *.
  simpl (S c - 1)%nat. rewrite Nat.sub_0_r. rewrite Hl' in Hf. apply Forall_cons in Hf as [_ Hf].
  by rewrite Hl'.
Qed.

Lemma queue_list_length q : length (queue_list q) = count q.
Proof. apply ring_list_length. Qed.

Lemma push_message_full q sender data n :
  snd (push_message q sender data n) = Ok <-> (count q < MAX_MESSAGES_PER_DIRECTION)%nat.
Proof. unfold push_message. destruct (Nat.leb_spec MAX_MESSAGES_PER_DIRECTION (count q)); simpl; split; done || lia. Qed.

Lemma pop_message_Ok q : snd (fst (pop_message q)) = Ok <-> queue_list q ≠ [].
Proof.
  rewrite <- length_zero_iff_nil, queue_list_length. unfold pop_message.
  by destruct (Nat.eqb_spec (count q) 0).
Qed.

Lemma pop_message_block q :
  queue_list q = [] -> pop_message q = (q, WouldBlock, empty_message).
Proof.
  rewrite <- length_zero_iff_nil, queue_list_length. unfold pop_message. by intros ->.
Qed.

(** ** Names *)

Lemma word_at_map (text : list Z) n i :
  0 <= i < Z.of_nat n ->
  word_at ((word_at text <$> seqZ 0 (Z.of_nat n)) ++ replicate (S MAX_SERVICE_NAME - n) 0) i =
  word_at text i.
Proof.
  intros Hi. apply word_at_lookup.
  rewrite lookup_app_l by (rewrite length_fmap, length_seqZ; lia).
  rewrite list_lookup_fmap, lookup_seqZ_lt by lia. simpl. do 2 f_equal. lia.
Qed.

Lemma stored_length_copy text n :
  (n <= MAX_SERVICE_NAME)%nat -> (forall i, 0 <= i < Z.of_nat n -> word_at text i ≠ 0) ->
  stored_length (copy_name text n) = n.
Proof.
  intros Hn Hz. unfold stored_length.
  assert (for_find (fun i => word_at (copy_name text n) i =? 0) (S MAX_SERVICE_NAME) 0 =
    Some (Z.of_nat n)) as ->; [|lia].
  apply for_find_Some. unfold MAX_SERVICE_NAME in *. split; [lia|]. unfold copy_name. split.
  - apply Z.eqb_eq. apply word_at_lookup.
    rewrite lookup_app_r by (rewrite length_fmap, length_seqZ; lia).
    apply lookup_replicate. rewrite length_fmap, length_seqZ. unfold MAX_SERVICE_NAME. lia.
  - intros j Hj. rewrite word_at_map by lia. apply Z.eqb_neq, Hz. lia.
Qed.

Lemma service_name_copy ep text n :
  ep_name ep = copy_name text n -> (n <= MAX_SERVICE_NAME)%nat ->
  (forall i, 0 <= i < Z.of_nat n -> word_at text i ≠ 0) ->
  service_name ep = (word_at text <$> seqZ 0 (Z.of_nat n)).
Proof.
  intros E Hn Hz. unfold service_name. rewrite E, stored_length_copy by done. unfold copy_name.
  rewrite take_app_le, take_ge; [done|..]; rewrite length_fmap, length_seqZ; lia.
Qed.

Lemma fmap_seqZ_eq (f g : Z -> Z) n :
  f <$> seqZ 0 n = g <$> seqZ 0 n <-> forall i, 0 <= i < n -> f i = g i.
Proof.
  split.
  - intros E i Hi. apply (f_equal (fun l => l !! Z.to_nat i)) in E.
    rewrite !list_lookup_fmap, lookup_seqZ_lt in E by lia. simpl in E.
    replace (0 + Z.of_nat (Z.to_nat i)) with i in E by lia. congruence.
  - intros H. apply list_fmap_ext. intros k x Hx%list_elem_of_lookup_2%elem_of_seqZ. apply H. lia.
Qed.

(** [name_equal] compares the stored name with the requested one. *)
Lemma name_equal_iff ep text n :
  name_ok (ep_name ep) ->
  name_equal ep text n = true <-> service_name ep = (word_at text <$> seqZ 0 (Z.of_nat n)).
Proof.
  intros (t & m & Hm & E & Hv).
  assert (forall i, 0 <= i < Z.of_nat m -> word_at t i ≠ 0) as Hz by (intros i Hi; by apply Hv).
  rewrite (service_name_copy ep t m) by (done || lia).
  unfold name_equal. rewrite E, stored_length_copy by (done || lia).
  rewrite andb_true_iff, Nat.eqb_eq, forallb_forall. split.
  - intros [-> H]. apply fmap_seqZ_eq. intros i Hi. specialize (H i). rewrite Z.eqb_eq in H.
    unfold copy_name in H. rewrite word_at_map in H by lia. apply H.
    apply list_elem_of_In, elem_of_seqZ. lia.
  - intros H. assert (m = n) as ->.
    { apply (f_equal length) in H. rewrite !length_fmap, !length_seqZ in H. lia. }
    split; [done|]. intros i Hi%list_elem_of_In%elem_of_seqZ. apply Z.eqb_eq.
    unfold copy_name. rewrite word_at_map by lia. rewrite fmap_seqZ_eq in H. apply H. lia.
Qed.

Lemma validate_name_Ok name n :
  validate_name name n = Ok -> exists text, name = Some text /\
    (0 < n <= MAX_SERVICE_NAME)%nat /\
    forall i, 0 <= i < Z.of_nat n -> word_at text i ≠ 0 /\ valid_name_character (word_at text i) = true.
Proof.
  unfold validate_name. destruct name as [text|]; [|done].
  destruct (Nat.eqb_spec n 0); [done|]. destruct (Nat.ltb_spec MAX_SERVICE_NAME n); [done|].
  destruct (forallb _ _) eqn:E; [|done]. intros _. exists text. split; [done|]. split; [lia|].
  intros i Hi. rewrite forallb_forall in E. specialize (E i).
  rewrite andb_true_iff, negb_true_iff, Z.eqb_neq in E. apply E.
  apply list_elem_of_In, elem_of_seqZ. lia.
Qed.

(** ** Pending connections *)

Lemma pending_live_true chans ep i :
  pending_live chans ep i = true <-> exists c, chans !! i = Some c /\ active c = true /\
    accepted c = false /\ client_open c = true /\ server_open c = true /\
    server_pid c = owner_pid ep.
Proof.
  unfold pending_live. destruct (chans !! i) as [c|].
  - rewrite !andb_true_iff, negb_true_iff, Z.eqb_eq. split.
    + intros ((((? & ?) & ?) & ?) & ?). by exists c.
    + intros (c' & [= <-] & ?). tauto.
  - split; [done|]. by intros (? & ? & _).
Qed.

Definition live_pending (chans : list ChannelSlot) (ep : EndpointSlot) : list nat :=
  List.filter (pending_live chans ep) (pending_list ep).

Lemma live_pending_elem chans ep i :
  i ∈ live_pending chans ep <-> i ∈ pending_list ep /\ pending_live chans ep i = true.
Proof. unfold live_pending. rewrite !list_elem_of_In. apply filter_In. Qed.

Lemma live_pending_nodup chans ep : NoDup (pending_list ep) -> NoDup (live_pending chans ep).
Proof. rewrite !NoDup_ListNoDup. apply List.NoDup_filter. Qed.

Lemma live_pending_length chans ep :
  (pending_count ep <= MAX_PENDING_CONNECTIONS)%nat ->
  (length (live_pending chans ep) <= MAX_PENDING_CONNECTIONS)%nat.
Proof.
  intros H. unfold live_pending. pose proof (filter_length_le (pending_live chans ep) (pending_list ep)) as Hl.
  unfold pending_list in *. rewrite ring_list_length in Hl. lia.
Qed.

(** [compact_pending] keeps the live entries, in order, from index 0 on. *)
Lemma compact_pending_spec chans ep :
  wf_endpoint ep ->
  ring_ok MAX_PENDING_CONNECTIONS (pending (compact_pending chans ep)) 0
    (pending_tail (compact_pending chans ep)) (pending_count (compact_pending chans ep)) /\
  pending_list (compact_pending chans ep) = live_pending chans ep /\
  pending_count (compact_pending chans ep) = length (live_pending chans ep).
Proof.
  intros Hw. pose proof (live_pending_length chans ep (ring_count _ _ _ _ _ (we_ring _ Hw))) as Hl.
  fold (live_pending chans ep) in *. unfold compact_pending. fold (live_pending chans ep).
  cbn [with_pending pending pending_tail pending_count]. unfold pending_list at 1.
  cbn [with_pending pending pending_head pending_count].
  destruct (ring_packed 0%nat MAX_PENDING_CONNECTIONS (live_pending chans ep)
    (replicate (MAX_PENDING_CONNECTIONS - length (live_pending chans ep)) 0%nat)) as [H1 H2].
  - unfold MAX_PENDING_CONNECTIONS. lia.
  - rewrite length_app, length_replicate. lia.
  - done.
Qed.

(** Replacing the pending queue of an endpoint. *)
Lemma with_pending_wf ep p h t c :
  wf_endpoint ep -> ring_ok MAX_PENDING_CONNECTIONS p h t c ->
  NoDup (ring_list 0%nat p h c) -> (ep_active ep = false -> c = 0%nat) ->
  wf_endpoint (with_pending ep p h t c).
Proof. intros [] ? ? ?. by constructor. Qed.

Lemma compact_pending_wf chans ep : wf_endpoint ep -> wf_endpoint (compact_pending chans ep).
Proof.
  intros Hw. destruct (compact_pending_spec chans ep Hw) as (Hr & Hl & Hc).
  apply with_pending_wf; [done|exact Hr| |].
  - change (NoDup (pending_list (compact_pending chans ep))). rewrite Hl.
    apply live_pending_nodup, Hw.
  - intros Ha. change (pending_count (compact_pending chans ep) = 0%nat). rewrite Hc.
    unfold live_pending, pending_list. by rewrite (we_closed _ Hw Ha).
Qed.

(** Taking the entry at the head. *)
Lemma pending_advance ep n :
  ring_ok MAX_PENDING_CONNECTIONS (pending ep) (pending_head ep) (pending_tail ep) (S n) ->
  let ep' := with_pending ep (pending ep) ((pending_head ep + 1) mod MAX_PENDING_CONNECTIONS)
               (pending_tail ep) n in
  ring_ok MAX_PENDING_CONNECTIONS (pending ep') (pending_head ep') (pending_tail ep') n /\
  ring_list 0%nat (pending ep) (pending_head ep) (S n) =
    nth (pending_head ep) (pending ep) 0%nat :: pending_list ep'.
Proof. intros Hr. apply (ring_advance 0%nat _ _ _ _ _ Hr). Qed.

(** The state of a live pending channel after its endpoint is closed. *)
Definition cancelled (c : ChannelSlot) : ChannelSlot := with_open c (client_open c) false.

Lemma cancel_loop_spec n : forall ep chans l,
  ring_ok MAX_PENDING_CONNECTIONS (pending ep) (pending_head ep) (pending_tail ep) n ->
  pending_count ep = n ->
  pending_list ep = l -> NoDup l -> (forall i, i ∈ l -> pending_live chans ep i = true) ->
  exists h, (h < MAX_PENDING_CONNECTIONS)%nat /\
  cancel_loop n ep chans =
    (with_pending ep (pending ep) h (pending_tail ep) 0, foldl (fun cs i => alter cancelled i cs) chans l).
Proof.
  induction n as [|n IH]; intros ep chans l Hr Hc Hl Hnd Hlive; simpl.
  - exists (pending_head ep). split; [apply Hr|]. unfold pending_list in Hl. rewrite Hc in Hl.
    subst l. simpl. destruct ep; simpl in *. by subst.
  - destruct (pending_advance ep n Hr) as [Hr' Hl']. unfold pending_list in Hl. rewrite Hc, Hl' in Hl.
    set (i := nth (pending_head ep) (pending ep) 0%nat) in *.
    set (ep' := with_pending ep _ _ _ n) in *. destruct l as [|i' l']; [done|].
    injection Hl as <- Hl. apply NoDup_cons in Hnd as [Hi Hnd].
    destruct (proj1 (pending_live_true chans ep i)) as (c & Hci & Ha & Hacc & Hco & Hso & Hsp);
      [apply Hlive; constructor|].
    rewrite Hci, Ha, Hacc, Hsp, Z.eqb_refl. simpl.
    assert (maybe_free_channel (with_open c (client_open c) false) = cancelled c) as ->
      by (unfold cancelled, maybe_free_channel; simpl; by rewrite Hco).
    rewrite <- (alter_insert cancelled i chans c Hci).
    destruct (IH ep' (alter cancelled i chans) l' Hr' eq_refl Hl Hnd) as (h & Hh & E).
    { intros j Hj. assert (j ≠ i) by (intros ->; done).
      unfold pending_live. rewrite list_lookup_alter_ne by done. apply Hlive. by constructor. }
    exists h. split; [done|]. rewrite E. done.
Qed.

Lemma foldl_alter_lookup {A} (f : A -> A) l : forall (cs : list A) j,
  NoDup l -> foldl (fun cs i => alter f i cs) cs l !! j = if decide (j ∈ l) then f <$> cs !! j else cs !! j.
Proof.
  induction l as [|i l IH]; intros cs j Hnd; cbn [foldl]; [done|].
  apply NoDup_cons in Hnd as [Hi Hnd]. rewrite IH by done.
  destruct (decide (j = i)) as [->|Hne].
  - rewrite decide_False, decide_True by (done || constructor). apply list_lookup_alter_eq.
  - rewrite list_lookup_alter_ne by done.
    destruct (decide (j ∈ l)); [rewrite decide_True by (by constructor); done|].
    rewrite decide_False; [done|]. by intros [|]%elem_of_cons.
Qed.

Lemma foldl_alter_length {A} (f : A -> A) l : forall (cs : list A),
  length (foldl (fun cs i => alter f i cs) cs l) = length cs.
Proof. induction l as [|i l IH]; intros cs; cbn [foldl]; [done|]. by rewrite IH, length_alter. Qed.

(** [cancel_pending] empties the queue and closes the server side of exactly the
    live connections in it. *)
Lemma cancel_pending_spec ep chans :
  wf_endpoint ep ->
  exists p chans', cancel_pending ep chans = (with_pending ep p 0 0 0, chans') /\
    length p = MAX_PENDING_CONNECTIONS /\ length chans' = length chans /\
    forall j, chans' !! j =
      if decide (j ∈ live_pending chans ep) then cancelled <$> chans !! j else chans !! j.
Proof.
  intros Hw. destruct (compact_pending_spec chans ep Hw) as (Hr & Hl & Hc).
  unfold cancel_pending. set (ep1 := compact_pending chans ep) in *.
  destruct (cancel_loop_spec (pending_count ep1) ep1 chans (live_pending chans ep)) as (h & _ & E).
  - exact Hr.
  - done.
  - done.
  - apply live_pending_nodup, Hw.
  - intros i Hi. by apply live_pending_elem in Hi as [_ ?].
  - rewrite E. eexists _, _. split; [unfold with_pending; simpl; reflexivity|].
    split; [apply (ring_cap _ _ _ _ _ Hr)|]. split; [apply foldl_alter_length|].
    intros j. apply foldl_alter_lookup, live_pending_nodup, Hw.
Qed.

(** After compaction [accept] takes the first entry. *)
Lemma accept_loop_spec chans ep :
  wf_endpoint ep ->
  let ep1 := compact_pending chans ep in
  match live_pending chans ep with
  | [] => accept_loop (pending_count ep1) chans ep1 =
          (with_pending ep1 (pending ep1) 0 0 0, None)
  | i :: l => exists ep', accept_loop (pending_count ep1) chans ep1 = (ep', Some i) /\
      wf_endpoint ep' /\ pending_list ep' = l /\
      ep_active ep' = ep_active ep /\ owner_pid ep' = owner_pid ep /\ ep_name ep' = ep_name ep
  end.
Proof.
  intros Hw ep1. destruct (compact_pending_spec chans ep Hw) as (Hr & Hl & Hc). fold ep1 in Hr, Hl, Hc.
  pose proof (live_pending_nodup chans ep (we_nodup _ Hw)) as Hnd.
  assert (pending_head ep1 = 0%nat /\ ep_active ep1 = ep_active ep /\ owner_pid ep1 = owner_pid ep /\
    ep_name ep1 = ep_name ep) as (Hh & Ha & Ho & Hn) by done.
  assert (wf_endpoint ep1) as Hw1 by (by apply compact_pending_wf). clearbody ep1.
  destruct (live_pending chans ep) as [|i l] eqn:E; cbn [length] in Hc; rewrite Hc; cbn [accept_loop].
  - by rewrite Hc.
  - rewrite Hc, <- Hh in Hr. destruct (pending_advance ep1 (length l) Hr) as [Hr' Hl'].
    unfold pending_list in Hl. rewrite Hc, Hl' in Hl. injection Hl as Hi Hl.
    rewrite Hi. set (ep2 := with_pending ep1 _ _ _ _) in *.
    assert (pending_live chans ep2 i = true) as ->.
    { replace (pending_live chans ep2 i) with (pending_live chans ep i)
        by (unfold pending_live; simpl; by rewrite Ho).
      apply (live_pending_elem chans ep i). rewrite E. constructor. }
    exists ep2. split; [done|]. split; [|done].
    apply with_pending_wf; [done|exact Hr'| |].
    + change (NoDup (pending_list ep2)). rewrite Hl. by apply NoDup_cons in Hnd as [_ ?].
    + intros Ha'. exfalso. rewrite Ha in Ha'.
      unfold live_pending, pending_list in E. by rewrite (we_closed _ Hw Ha') in E.
Qed.

(** ** Preservation *)

Lemma wf_channel_live c : wf_channel c -> active c = true -> live_channel c.
Proof. intros [[? _]|[-> _]]; [done|]. by simpl. Qed.

Lemma wf_channel_gen c : wf_channel c -> 0 <= generation c.
Proof. intros [[H _]|[_ ?]]; [|lia]. pose proof (lc_gen _ H). unfold gen_ok in *. lia. Qed.

Lemma wf_channel_client c :
  wf_channel c -> active c = true -> accepted c = false -> client_open c = true.
Proof.
  intros [[H Ho]|[-> _]] Ha Hacc; [|done]. destruct (client_open c) eqn:E; [done|].
  by rewrite (lc_unaccepted _ H Hacc E) in Ho.
Qed.

Lemma empty_channel_wf g : 0 <= g <= kMaximumGeneration -> wf_channel (empty_channel g).
Proof. intros. by right. Qed.

(** Closing sides of a live channel. *)
Lemma maybe_free_wf c client server :
  live_channel c -> (accepted c = false -> client = false -> server = false) ->
  wf_channel (maybe_free_channel (with_open c client server)).
Proof.
  intros Hl Hu. unfold maybe_free_channel. simpl.
  destruct (negb client && negb server) eqn:E.
  - apply empty_channel_wf. simpl. pose proof (lc_gen _ Hl). unfold gen_ok in *. lia.
  - left. split; [destruct Hl; by constructor|]. simpl. by destruct client, server.
Qed.

Section preservation.
Context (eps : list EndpointSlot) (chans : list ChannelSlot).
Context (Hok : tables_ok eps chans).

Lemma eps_lookup e ep : eps !! e = Some ep -> wf_endpoint ep.
Proof. intros H. pose proof (to_eps _ _ Hok) as HF. rewrite Forall_lookup in HF. by eapply HF. Qed.

Lemma chans_lookup i c : chans !! i = Some c -> wf_channel c.
Proof. intros H. pose proof (to_chans _ _ Hok) as HF. rewrite Forall_lookup in HF. by eapply HF. Qed.

(** A waiting connection is live in the queue that holds it. *)
Lemma waiting_live c slot ep :
  chans !! c = Some slot -> active slot = true -> accepted slot = false -> server_open slot = true ->
  owner_pid ep = server_pid slot -> pending_live chans ep c = true.
Proof.
  intros Hc Ha Hacc Hs Ho. apply pending_live_true. exists slot.
  by rewrite (wf_channel_client slot) by eauto using chans_lookup.
Qed.

Lemma eps_insert_ok e ep ep' :
  eps !! e = Some ep -> wf_endpoint ep' -> ep_active ep' = ep_active ep ->
  owner_pid ep' = owner_pid ep -> ep_name ep' = ep_name ep ->
  (forall c, c ∈ live_pending chans ep -> c ∈ pending_list ep') ->
  tables_ok (<[e := ep']> eps) chans.
Proof.
  intros He Hw Ha Ho Hn Hp. pose proof (lookup_lt_Some _ _ _ He) as Hlt.
  assert (forall i a, <[e := ep']> eps !! i = Some a -> exists a0, eps !! i = Some a0 /\
    ep_active a0 = ep_active a /\ service_name a0 = service_name a) as Hback.
  { intros i a [(<- & <- & _)|[_ Hi]]%list_lookup_insert_Some; [|by exists a].
    exists ep. unfold service_name. by rewrite Ha, Hn. }
  constructor; try apply Hok.
  - rewrite length_insert. apply Hok.
  - apply Forall_insert; [apply Hok|done].
  - intros i j a b Hi Hj Haa Hab E. destruct (Hback _ _ Hi) as (a0 & Hi0 & Ea & Na).
    destruct (Hback _ _ Hj) as (b0 & Hj0 & Eb & Nb).
    eapply (to_names _ _ Hok i j a0 b0); congruence.
  - intros c slot Hc Hact Hacc Hs.
    destruct (to_queued _ _ Hok c slot Hc Hact Hacc Hs) as (e0 & ep0 & He0 & Ha0 & Ho0 & Hin).
    destruct (decide (e0 = e)) as [->|Hne].
    + rewrite He in He0. injection He0 as <-. exists e, ep'.
      rewrite list_lookup_insert_eq by done. split; [done|]. split; [congruence|].
      split; [congruence|]. apply Hp, live_pending_elem. split; [done|].
      by apply (waiting_live c slot).
    + exists e0, ep0. by rewrite list_lookup_insert_ne.
Qed.

Lemma chans_insert_ok i c c' :
  chans !! i = Some c -> wf_channel c' ->
  (active c' = true -> accepted c' = false -> server_open c' = true ->
   exists e ep, eps !! e = Some ep /\ ep_active ep = true /\ owner_pid ep = server_pid c' /\
     i ∈ pending_list ep) ->
  tables_ok eps (<[i := c']> chans).
Proof.
  intros Hi Hw Hq. constructor; try apply Hok.
  - rewrite length_insert. apply Hok.
  - apply Forall_insert; [apply Hok|done].
  - intros j slot [(<- & <- & _)|[_ Hj]]%list_lookup_insert_Some; [done|].
    by apply (to_queued _ _ Hok).
Qed.

(** Updating a channel without starting a new wait. *)
Lemma chans_update_ok i c c' :
  chans !! i = Some c -> wf_channel c' ->
  (active c' = true -> accepted c' = false -> server_open c' = true ->
   active c = true /\ accepted c = false /\ server_open c = true /\ server_pid c' = server_pid c) ->
  tables_ok eps (<[i := c']> chans).
Proof.
  intros Hi Hw Hq. eapply chans_insert_ok; [done..|]. intros Ha Hacc Hs.
  destruct (Hq Ha Hacc Hs) as (? & ? & ? & ->). by apply (to_queued _ _ Hok).
Qed.

Lemma new_endpoint_ok e old ep :
  eps !! e = Some old -> ep_active old = false -> wf_endpoint ep ->
  (forall j b, eps !! j = Some b -> ep_active b = true -> service_name b ≠ service_name ep) ->
  tables_ok (<[e := ep]> eps) chans.
Proof.
  intros He Hold Hw Hn. constructor; try apply Hok.
  - rewrite length_insert. apply Hok.
  - apply Forall_insert; [apply Hok|done].
  - intros i j a b [(<- & <- & _)|[Hi0 Hi]]%list_lookup_insert_Some
      [(<- & <- & _)|[Hj0 Hj]]%list_lookup_insert_Some Ha Hb E; [done| | |].
    + exfalso. by apply (Hn _ _ Hj Hb).
    + exfalso. by apply (Hn _ _ Hi Ha).
    + by eapply (to_names _ _ Hok i j a b).
  - intros c slot Hc Ha Hacc Hs.
    destruct (to_queued _ _ Hok c slot Hc Ha Hacc Hs) as (e0 & ep0 & He0 & Ha0 & Hr).
    exists e0, ep0. rewrite list_lookup_insert_ne by congruence. done.
Qed.

(** Closing an endpoint with its pending connections. *)
Lemma close_endpoint_ok e ep ep' chans' :
  eps !! e = Some ep -> ep_active ep = true -> cancel_pending ep chans = (ep', chans') ->
  tables_ok (<[e := close_endpoint ep']> eps) chans'.
Proof.
  intros He Ha Hc. pose proof (eps_lookup _ _ He) as Hw.
  destruct (cancel_pending_spec ep chans Hw) as (p & ch' & E & Hp & Hlen & Hl).
  rewrite E in Hc. injection Hc as <- <-. constructor.
  - rewrite length_insert. apply Hok.
  - rewrite Hlen. apply Hok.
  - apply Forall_insert; [apply Hok|]. destruct Hw. constructor; simpl; try done.
    + apply ring_empty; [done|unfold MAX_PENDING_CONNECTIONS; lia].
    + constructor.
  - apply Forall_lookup. intros j c Hj. rewrite Hl in Hj. case_decide as Hd; [|by eapply chans_lookup].
    apply live_pending_elem in Hd as [_ (c0 & Hc0 & Hact & Hacc & Hco & _)%pending_live_true].
    rewrite Hc0 in Hj. injection Hj as <-. left.
    destruct (wf_channel_live c0) as []; [by eapply chans_lookup|done|].
    split; [by constructor|]. simpl. by rewrite Hco.
  - intros i j a b [(<- & <- & _)|[Hi0 Hi]]%list_lookup_insert_Some; [done|].
    intros [(<- & <- & _)|[Hj0 Hj]]%list_lookup_insert_Some; [done|].
    by apply (to_names _ _ Hok).
  - intros c slot Hcs Hact Hacc Hs. rewrite Hl in Hcs. case_decide as Hd.
    { apply fmap_Some in Hcs as (c0 & _ & ->). done. }
    destruct (to_queued _ _ Hok c slot Hcs Hact Hacc Hs) as (e0 & ep0 & He0 & Ha0 & Ho0 & Hin).
    destruct (decide (e0 = e)) as [->|Hne].
    + exfalso. rewrite He in He0. injection He0 as <-. apply Hd, live_pending_elem.
      split; [done|]. by apply (waiting_live c slot).
    + exists e0, ep0. by rewrite list_lookup_insert_ne.
Qed.

End preservation.

Definition side_pid (c : ChannelSlot) (server_side : bool) : Z :=
  if server_side then server_pid c else client_pid c.
Definition side_open (c : ChannelSlot) (server_side : bool) : bool :=
  if server_side then server_open c else client_open c.

Lemma decode_index_Some h m i :
  decode_index h m = Some i -> Z.land h kIndexMask = Z.of_nat i + 1 /\ (i < m)%nat.
Proof.
  unfold decode_index. destruct (_ || _) eqn:E; [done|]. intros [= <-].
  assert (0 <= Z.land h kIndexMask) by (apply Z.land_nonneg; right; done). lia.
Qed.

Lemma decode_index_value h m i :
  Z.land h kIndexMask = Z.of_nat i + 1 -> (i < m)%nat -> decode_index h m = Some i.
Proof.
  intros E Hi. unfold decode_index. rewrite E. replace (_ || _) with false by lia.
  f_equal. lia.
Qed.

Lemma decode_endpoint_inr s pid h e ep :
  decode_endpoint s pid h = inr (e, ep) ->
  g_endpoints s !! e = Some ep /\ ep_active ep = true /\ owner_pid ep = pid.
Proof.
  unfold decode_endpoint. destruct (_ || _); [done|].
  destruct (decode_index _ _) as [i|]; [|done].
  destruct (g_endpoints s !! i) as [sl|] eqn:E; [|done].
  destruct (ep_active sl) eqn:Ha; [|done]. simpl.
  destruct (ep_generation sl =? _); [|done]. simpl.
  destruct (Z.eqb_spec (owner_pid sl) pid); [|done]. by intros [= <- <-].
Qed.

(** What a channel handle that a process may use denotes. *)
Record channel_ref (s : State) (pid h : Z) (i : nat) (slot : ChannelSlot) (side : bool) : Prop := {
  cr_lookup : g_channels s !! i = Some slot;
  cr_active : active slot = true;
  cr_gen : generation slot = u32 (Z.shiftr h 32);
  cr_side : side = negb (Z.land h kSideMask =? 0);
  cr_pid : side_pid slot side = pid;
  cr_open : side_open slot side = true;
  cr_kind : Z.land h kKindMask = kKindChannel;
  cr_index : Z.land h kIndexMask = Z.of_nat i + 1;
}.

Lemma decode_channel_inr s pid h i slot side :
  decode_channel s pid h = inr (i, slot, side) -> channel_ref s pid h i slot side.
Proof.
  unfold decode_channel. destruct (Z.eqb_spec (Z.land h kKindMask) kKindChannel) as [Hk|]; [|done].
  simpl. destruct (decode_index _ _) as [j|] eqn:Hi; [|done].
  apply decode_index_Some in Hi as [Hi _].
  destruct (g_channels s !! j) as [sl|] eqn:E; [|done].
  destruct (active sl) eqn:Ha; [|done]. simpl.
  destruct (Z.eqb_spec (generation sl) (u32 (Z.shiftr h 32))); [|done]. simpl.
  set (sd := negb (Z.land h kSideMask =? 0)). fold (side_pid sl sd). fold (side_open sl sd).
  destruct (Z.eqb_spec (side_pid sl sd) pid); [|done]. simpl.
  destruct (side_open sl sd) eqn:Ho; [|done]. intros [= <- <- <-]. by constructor.
Qed.

Lemma channel_ref_decode s pid h i slot side :
  length (g_channels s) = MAX_CHANNELS -> channel_ref s pid h i slot side ->
  decode_channel s pid h = inr (i, slot, side).
Proof.
  intros Hlen []. unfold decode_channel. rewrite cr_kind0, Z.eqb_refl. simpl.
  rewrite (decode_index_value _ _ i)
    by (done || (rewrite <- Hlen; by eapply lookup_lt_Some)).
  rewrite cr_lookup0, cr_active0, <- cr_gen0, Z.eqb_refl. simpl. rewrite <- cr_side0.
  fold (side_pid slot side). fold (side_open slot side).
  by rewrite cr_pid0, Z.eqb_refl, cr_open0.
Qed.

Lemma decode_channel_iff s pid h i slot side :
  wf s -> decode_channel s pid h = inr (i, slot, side) <-> channel_ref s pid h i slot side.
Proof.
  intros Hwf. split; [apply decode_channel_inr|]. apply channel_ref_decode, Hwf.
Qed.

Lemma channel_ref_wf s pid h i slot side :
  wf s -> channel_ref s pid h i slot side -> live_channel slot.
Proof.
  intros Hwf []. apply wf_channel_live; [|done]. by eapply (chans_lookup _ _ Hwf).
Qed.

Lemma out_queue_ok c side : live_channel c -> queue_ok (side_pid c side) (out_queue c side).
Proof. intros []. by destruct side. Qed.

Lemma with_out_queue_wf c side q :
  wf_channel c -> active c = true -> queue_ok (side_pid c side) q ->
  wf_channel (with_out_queue c side q).
Proof.
  intros [[[] Ho]|[-> _]] Ha Hq; [|done]. left. destruct side; by split; [constructor|].
Qed.

(** ** Every entry point preserves the invariant *)

Lemma boot_ok b :
  wf (mkState (replicate MAX_ENDPOINTS (empty_endpoint 0)) (replicate MAX_CHANNELS (empty_channel 0)) b).
Proof.
  assert (0 <= 0 <= kMaximumGeneration) as H0 by (unfold kMaximumGeneration; lia).
  constructor; cbn [g_endpoints g_channels]; try done.
  - apply Forall_replicate. constructor; try done.
    + apply ring_empty; [done|unfold MAX_PENDING_CONNECTIONS; lia].
    + constructor.
  - by apply Forall_replicate, empty_channel_wf.
  - intros i j a b' [-> _]%lookup_replicate _ Ha. done.
  - intros c slot [-> _]%lookup_replicate Ha. done.
Qed.

Lemma bind_wf s owner name n has md : wf s -> wf (fst (fst (bind s owner name n has md))).
Proof.
  intros Hwf. unfold bind. destruct (negb (g_initialized s)); [done|].
  destruct (Z.eqb_spec owner INVALID_PROCESS_ID) as [|Hp]; [done|]. destruct (negb has); [done|]. simpl.
  destruct (validate_name name n) eqn:Hv; try done.
  apply validate_name_Ok in Hv as (text & -> & Hn & Hv).
  change (default [] (Some text)) with text. destruct (bad_metadata md) eqn:Hmd; [done|].
  destruct (existsb _ _) eqn:Hex; [done|]. destruct (find_index _ _) as [e|] eqn:Hf; [|done].
  apply find_index_Some in Hf as [(old & He & Hold%negb_true_iff) _]. rewrite He.
  cbn [fst fmap option_fmap option_map default].
  pose proof (we_gen _ (eps_lookup _ _ Hwf _ _ He)) as Hg.
  pose proof (next_generation_ok (ep_generation old) ltac:(lia)) as Hg'.
  set (ep := mkEndpoint _ _ _ _ _ _ _ _ _ _).
  assert (forall i, 0 <= i < Z.of_nat n -> word_at text i ≠ 0) as Hz by (intros i Hi; by apply Hv).
  apply (new_endpoint_ok _ _ Hwf e old); [done..| |].
  - constructor; cbn -[next_generation]; try done.
    + apply ring_empty; [done|unfold MAX_PENDING_CONNECTIONS; lia].
    + constructor.
    + unfold gen_ok in Hg'. lia.
    + intros _. by exists text, n.
    + intros _. destruct md as [m|]; [|done]. simpl in *. intros _. lia.
  - intros j b Hj Hb E. rewrite (service_name_copy ep text n) in E by (done || lia).
    assert (existsb (fun slot => ep_active slot && name_equal slot text n) (g_endpoints s) = true); [|congruence].
    apply existsb_exists. exists b. split; [apply list_elem_of_In; by eapply list_elem_of_lookup_2|].
    rewrite Hb. apply name_equal_iff; [|done]. by apply (we_name _ (eps_lookup _ _ Hwf _ _ Hj)).
Qed.

(** What the successful [connect] found and stored. *)
Record connected (s : State) (client : Z) (text : list Z) (n : nat)
    (neg : option ServiceNegotiation) (e : nat) (ep : EndpointSlot) (i : nat) (old : ChannelSlot)
    (selected : Z) : Prop := {
  cn_init : g_initialized s = true;
  cn_client : client ≠ 0;
  cn_service : find_service s text n = Some e;
  cn_ep : g_endpoints s !! e = Some ep;
  cn_selected : negotiate ep neg = inr selected;
  cn_room : (pending_count (compact_pending (g_channels s) ep) < MAX_PENDING_CONNECTIONS)%nat;
  cn_free : g_channels s !! i = Some old;
  cn_inactive : active old = false;
}.

Definition push_pending (ep : EndpointSlot) (i : nat) : EndpointSlot :=
  with_pending ep (<[pending_tail ep := i]> (pending ep)) (pending_head ep)
    ((pending_tail ep + 1) mod MAX_PENDING_CONNECTIONS) (S (pending_count ep)).

Definition new_channel (gen client server : Z) : ChannelSlot :=
  mkChannel gen client server empty_queue empty_queue true true true false.

Definition connected_state (s : State) (client : Z) (e : nat) (ep : EndpointSlot) (i : nat)
    (old : ChannelSlot) : State :=
  mkState (<[e := push_pending (compact_pending (g_channels s) ep) i]> (g_endpoints s))
    (<[i := new_channel (next_generation (generation old)) client (owner_pid ep)]> (g_channels s))
    (g_initialized s).

Lemma connect_cases s client name n has neg s' st h neg' :
  connect s client name n has neg = (s', st, h, neg') ->
  (st ≠ Ok /\ h = INVALID_HANDLE /\ neg' = neg /\
   (s' = s \/ exists e ep, g_endpoints s !! e = Some ep /\
      s' = with_endpoints s (<[e := compact_pending (g_channels s) ep]> (g_endpoints s)))) \/
  (st = Ok /\ exists text e ep i old selected, name = Some text /\ validate_name name n = Ok /\
     connected s client text n neg e ep i old selected /\
     s' = connected_state s client e ep i old /\
     h = encode_channel i (next_generation (generation old)) false /\
     neg' = (fill_negotiation ep selected <$> neg)).
Proof.
  unfold connect. destruct (g_initialized s) eqn:Hi; cbn [negb orb]; [|intros [= <- <- <- <-]; left; auto].
  destruct (Z.eqb_spec client INVALID_PROCESS_ID) as [|Hc]; [intros [= <- <- <- <-]; left; auto|].
  destruct has; cbn [negb orb]; [|intros [= <- <- <- <-]; left; auto].
  destruct (validate_name name n) eqn:Hv; try (intros [= <- <- <- <-]; left; by auto).
  destruct (validate_name_Ok _ _ Hv) as (text & -> & _).
  change (default [] (Some text)) with text.
  destruct (find_service s text n) as [e|] eqn:Hf; [|intros [= <- <- <- <-]; left; by auto].
  destruct (g_endpoints s !! e) as [ep|] eqn:He; [|intros [= <- <- <- <-]; left; by auto].
  destruct (negotiate ep neg) as [st0|sel] eqn:Hneg.
  { intros [= <- <- <- <-]; left. split; [|by auto]. intros ->. unfold negotiate in Hneg.
    repeat case_match; congruence. }
  cbv zeta. destruct (Nat.leb_spec MAX_PENDING_CONNECTIONS
    (pending_count (compact_pending (g_channels s) ep))) as [|Hroom].
  { intros [= <- <- <- <-]; left. split; [done|]. split; [done|]. split; [done|]. right. by exists e, ep. }
  destruct (find_index _ _) as [i|] eqn:Hix.
  2:{ intros [= <- <- <- <-]; left. split; [done|]. split; [done|]. split; [done|]. right. by exists e, ep. }
  apply find_index_Some in Hix as [(old & Hold & Ha%negb_true_iff) _].
  rewrite Hold. intros [= <- <- <- <-]. right. split; [done|].
  exists text, e, ep, i, old, sel. split; [done|]. split; [done|]. split; [by constructor|].
  unfold connected_state. by rewrite Hi.
Qed.

Lemma compact_state_wf s e ep :
  wf s -> g_endpoints s !! e = Some ep ->
  wf (with_endpoints s (<[e := compact_pending (g_channels s) ep]> (g_endpoints s))).
Proof.
  intros Hwf He. pose proof (eps_lookup _ _ Hwf _ _ He) as Hw.
  apply (eps_insert_ok _ _ Hwf e ep); try done; [by apply compact_pending_wf|].
  intros c Hc. by destruct (compact_pending_spec (g_channels s) ep Hw) as (_ & -> & _).
Qed.

Lemma push_pending_spec chans ep i old :
  wf_endpoint ep -> ep_active ep = true -> chans !! i = Some old -> active old = false ->
  (pending_count (compact_pending chans ep) < MAX_PENDING_CONNECTIONS)%nat ->
  wf_endpoint (push_pending (compact_pending chans ep) i) /\
  pending_list (push_pending (compact_pending chans ep) i) = live_pending chans ep ++ [i].
Proof.
  intros Hw Ha Hi Hold Hroom. destruct (compact_pending_spec chans ep Hw) as (Hr & Hl & Hc).
  destruct (ring_push 0%nat _ _ _ _ _ i Hr Hroom) as [Hr' Hl'].
  assert (pending_list (push_pending (compact_pending chans ep) i) = live_pending chans ep ++ [i]) as E
    by (rewrite <- Hl; exact Hl').
  split; [|done]. apply with_pending_wf; [by apply compact_pending_wf|exact Hr'| |].
  - change (NoDup (pending_list (push_pending (compact_pending chans ep) i))). rewrite E.
    apply NoDup_app. split; [apply live_pending_nodup, Hw|]. split; [|apply NoDup_singleton].
    intros x [_ (c & Hx & Hact & _)%pending_live_true]%live_pending_elem ->%list_elem_of_singleton.
    congruence.
  - intros Hf. change (ep_active ep = false) in Hf. congruence.
Qed.

Lemma find_service_Some s text n e ep :
  find_service s text n = Some e -> g_endpoints s !! e = Some ep ->
  ep_active ep = true /\ name_equal ep text n = true.
Proof.
  intros [(ep' & He & H%andb_true_iff) _]%find_index_Some He'. congruence.
Qed.

Lemma connect_wf s client name n has neg : wf s -> wf (fst (fst (fst (connect s client name n has neg)))).
Proof.
  intros Hwf. destruct (connect s client name n has neg) as [[[s' st] h] neg'] eqn:E. cbn [fst].
  apply connect_cases in E as [(_ & _ & _ & [->|(e & ep & He & ->)])|(_ & text & e & ep & i & old & sel & _ & _ & Hcn & -> & _)].
  - done.
  - by apply compact_state_wf.
  - destruct Hcn. destruct (find_service_Some _ _ _ _ _ cn_service0 cn_ep0) as [Ha _].
    pose proof (eps_lookup _ _ Hwf _ _ cn_ep0) as Hw.
    destruct (push_pending_spec (g_channels s) ep i old) as [Hw' Hl]; [done..|].
    unfold connected_state. set (ep' := push_pending _ i) in *.
    assert (tables_ok (<[e := ep']> (g_endpoints s)) (g_channels s)) as Hok.
    { apply (eps_insert_ok _ _ Hwf e ep); try done. intros c Hc. rewrite Hl. set_solver. }
    apply (chans_insert_ok _ _ Hok i old); [done| |].
    + left. split; [|done]. constructor; simpl; try done; try apply chan_empty_queue_ok.
      * apply next_generation_ok. eapply wf_channel_gen, (chans_lookup _ _ Hwf); done.
      * by apply (we_owner _ Hw).
    + intros _ _ _. exists e, ep'. rewrite list_lookup_insert_eq by (by eapply lookup_lt_Some).
      split; [done|]. split; [done|]. split; [done|]. rewrite Hl. set_solver.
Qed.

(** The outcome of [accept] on an endpoint the caller owns: the oldest live
    pending connection, or [WouldBlock] when there is none. *)
Lemma accept_cases s server h has s' st ch :
  wf s -> accept s server h has = (s', st, ch) ->
  (s' = s /\ st ≠ Ok /\ ch = INVALID_HANDLE) \/
  exists e ep ep', decode_endpoint s server h = inr (e, ep) /\ wf_endpoint ep' /\
    ep_active ep' = ep_active ep /\ owner_pid ep' = owner_pid ep /\ ep_name ep' = ep_name ep /\
    g_initialized s' = g_initialized s /\
    match live_pending (g_channels s) ep with
    | [] => st = WouldBlock /\ ch = INVALID_HANDLE /\ pending_list ep' = [] /\
            s' = with_endpoints s (<[e := ep']> (g_endpoints s))
    | i :: l => st = Ok /\ pending_list ep' = l /\
        s' = mkState (<[e := ep']> (g_endpoints s)) (alter with_accepted i (g_channels s))
               (g_initialized s) /\
        ch = encode_channel i (default 0 (generation <$> g_channels s !! i)) true
    end.
Proof.
  intros Hwf. unfold accept. destruct (negb _); [intros [= <- <- <-]; by left|].
  destruct (_ || _); [intros [= <- <- <-]; by left|].
  destruct (decode_endpoint s server h) as [st0|[e ep]] eqn:Hd.
  { intros [= <- <- <-]. left. split; [done|]. split; [|done]. intros ->.
    unfold decode_endpoint in Hd. repeat case_match; congruence. }
  destruct (decode_endpoint_inr _ _ _ _ _ Hd) as (He & Ha & Ho).
  pose proof (eps_lookup _ _ Hwf _ _ He) as Hw.
  pose proof (accept_loop_spec (g_channels s) ep Hw) as Hl. cbv zeta in Hl |- *.
  destruct (live_pending (g_channels s) ep) as [|i l] eqn:El.
  - rewrite Hl. intros [= <- <- <-]. right.
    set (ep1 := compact_pending (g_channels s) ep) in *.
    exists e, ep, (with_pending ep1 (pending ep1) 0 0 0). split; [done|].
    destruct (compact_pending_spec (g_channels s) ep Hw) as (Hr & _ & _).
    split; [apply with_pending_wf; [by apply compact_pending_wf| |constructor|done]|].
    + apply ring_empty; [apply Hr|unfold MAX_PENDING_CONNECTIONS; lia].
    + rewrite El. done.
  - destruct Hl as (ep' & -> & Hw' & Hpl & Hrest). intros [= <- <- <-]. right.
    exists e, ep, ep'. rewrite El. destruct Hrest as (? & ? & ?). done.
Qed.

Lemma with_accepted_wf c : wf_channel c -> active c = true -> wf_channel (with_accepted c).
Proof. intros [[[] Ho]|[-> _]] Ha; [|done]. left. by split; [constructor|]. Qed.

Lemma accept_wf s server h has : wf s -> wf (fst (fst (accept s server h has))).
Proof.
  intros Hwf. destruct (accept s server h has) as [[s' st] ch] eqn:E. cbn [fst].
  apply accept_cases in E as [(-> & _)|(e & ep & ep' & Hd & Hw' & Ha & Ho & Hn & _ & H)]; [done| |done].
  destruct (decode_endpoint_inr _ _ _ _ _ Hd) as (He & _ & _).
  destruct (live_pending (g_channels s) ep) as [|i l] eqn:El.
  - destruct H as (_ & _ & _ & ->). apply (eps_insert_ok _ _ Hwf e ep); try done.
    intros c. rewrite El. by intros ?%elem_of_nil.
  - destruct H as (_ & Hpl & -> & _).
    assert (i ∈ live_pending (g_channels s) ep) as Hi by (rewrite El; constructor).
    apply live_pending_elem in Hi as [_ (c & Hc & Hca & _)%pending_live_true].
    rewrite (alter_insert with_accepted i _ c) by done.
    assert (tables_ok (g_endpoints s) (<[i := with_accepted c]> (g_channels s))) as Hok.
    { apply (chans_update_ok _ _ Hwf i c); [done| |done].
      apply with_accepted_wf; [by eapply (chans_lookup _ _ Hwf)|done]. }
    apply (eps_insert_ok _ _ Hok e ep); try done. intros j [Hj Hlive]%live_pending_elem.
    rewrite Hpl. assert (j ∈ i :: l) as Hin.
    { rewrite <- El. apply live_pending_elem. split; [done|].
      apply pending_live_true in Hlive as (cj & [(-> & <- & _)|[_ Hcj]]%list_lookup_insert_Some & Hr); [by destruct Hr as (_ & ? & _)|].
      apply pending_live_true. by exists cj. }
    apply elem_of_cons in Hin as [->|]; [|done]. exfalso.
    apply pending_live_true in Hlive as (cj & Hcj & _ & Hacc & _).
    rewrite list_lookup_insert_eq in Hcj by (by eapply lookup_lt_Some). by injection Hcj as <-.
Qed.

(** Replacing one message queue of a channel. *)
Lemma queue_update_wf s i c side q :
  wf s -> g_channels s !! i = Some c -> active c = true -> queue_ok (side_pid c side) q ->
  wf (with_channels s (<[i := with_out_queue c side q]> (g_channels s))).
Proof.
  intros Hwf Hi Ha Hq. apply (chans_update_ok _ _ Hwf i c); [done| |].
  - apply with_out_queue_wf; [by eapply (chans_lookup _ _ Hwf)|done..].
  - by destruct side.
Qed.

Lemma push_message_ok sender q data n :
  queue_ok sender q -> (n <= MAX_MESSAGE_SIZE)%nat ->
  queue_ok sender (fst (push_message q sender data n)).
Proof.
  intros Hq Hn. destruct (push_message q sender data n) as [q' st] eqn:E.
  destruct (decide (st = Ok)) as [->|Hne]; [by eapply push_message_spec|].
  unfold push_message in E. case_match; by simplify_eq.
Qed.

Lemma pop_message_ok sender q : queue_ok sender q -> queue_ok sender (fst (fst (pop_message q))).
Proof.
  intros Hq. destruct (pop_message q) as [[q' st] m] eqn:E.
  destruct (decide (st = Ok)) as [->|Hne]; [by eapply pop_message_spec|].
  unfold pop_message in E. case_match; by simplify_eq.
Qed.

Lemma send_wf s sender h data n : wf s -> wf (fst (send s sender h data n)).
Proof.
  intros Hwf. unfold send. destruct (negb _); [done|]. destruct (_ || _) eqn:Eg; [done|].
  apply orb_false_iff in Eg as [[_ Hn]%orb_false_iff _].
  destruct (decode_channel s sender h) as [|[[i c] side]] eqn:Hd; [done|].
  apply decode_channel_inr in Hd. pose proof (channel_ref_wf _ _ _ _ _ _ Hwf Hd) as Hl.
  destruct (negb _); [done|]. apply Nat.ltb_ge in Hn.
  pose proof (push_message_ok _ _ data n (out_queue_ok c side Hl) Hn) as Hq.
  rewrite (cr_pid _ _ _ _ _ _ Hd) in Hq. destruct (push_message _ _ _ _) as [q st] eqn:E.
  apply queue_update_wf; [done|apply Hd|apply Hd|]. by rewrite (cr_pid _ _ _ _ _ _ Hd).
Qed.

Lemma receive_wf s receiver h has : wf s -> wf (fst (fst (receive s receiver h has))).
Proof.
  intros Hwf. unfold receive. destruct (negb _); [done|]. destruct (_ || _); [done|].
  destruct (decode_channel s receiver h) as [|[[i c] side]] eqn:Hd; [done|].
  apply decode_channel_inr in Hd. pose proof (channel_ref_wf _ _ _ _ _ _ Hwf Hd) as Hl.
  pose proof (pop_message_ok _ _ (out_queue_ok c (negb side) Hl)) as Hq. unfold in_queue.
  destruct (pop_message _) as [[q st] m].
  assert (wf (with_channels s (<[i := with_out_queue c (negb side) q]> (g_channels s)))) as Hw
    by (apply queue_update_wf; [done|apply Hd|apply Hd|done]).
  by destruct st.
Qed.

Lemma chan_close_wf s owner h : wf s -> wf (fst (close s owner h)).
Proof.
  intros Hwf. unfold close. destruct (negb _); [done|]. destruct (_ || _); [done|].
  destruct (_ =? kKindEndpoint).
  - destruct (decode_endpoint s owner h) as [|[e ep]] eqn:Hd; [done|].
    destruct (decode_endpoint_inr _ _ _ _ _ Hd) as (He & Ha & _).
    destruct (cancel_pending ep (g_channels s)) as [ep' chans'] eqn:E.
    by apply (close_endpoint_ok _ _ Hwf e ep).
  - destruct (_ =? kKindChannel); [|done].
    destruct (decode_channel s owner h) as [|[[i c] side]] eqn:Hd; [done|].
    apply decode_channel_inr in Hd. pose proof (channel_ref_wf _ _ _ _ _ _ Hwf Hd) as Hl.
    cbn [fst]. apply (chans_update_ok _ _ Hwf i c); [apply Hd| |].
    + destruct side; apply maybe_free_wf; try done. by intros ->.
    + unfold maybe_free_channel. destruct side; simpl; repeat case_match; simpl; try done;
        destruct (accepted c) eqn:Ea; done.
Qed.

(** The endpoint loop of [release_process]. *)
Lemma release_endpoints_spec n : forall index pid eps chans eps' chans',
  tables_ok eps chans -> pid ≠ 0 -> (index + n = MAX_ENDPOINTS)%nat ->
  (forall j ep, (j < index)%nat -> eps !! j = Some ep -> ep_active ep = true -> owner_pid ep ≠ pid) ->
  release_endpoints n index pid eps chans = (eps', chans') ->
  tables_ok eps' chans' /\
  (forall j ep, eps' !! j = Some ep -> ep_active ep = true -> owner_pid ep ≠ pid) /\
  (forall j ep, eps !! j = Some ep -> owner_pid ep ≠ pid -> eps' !! j = Some ep) /\
  (forall j c, chans !! j = Some c -> chans' !! j = Some c \/
     (accepted c = false /\ server_pid c = pid /\ chans' !! j = Some (cancelled c))).
Proof.
  induction n as [|n IH]; intros index pid eps chans eps' chans' Hok Hp Hix Hlt H; cbn [release_endpoints] in H.
  - injection H as <- <-. split; [done|]. split; [|by auto].
    intros j ep Hj. apply (Hlt j); [|done]. pose proof (lookup_lt_Some _ _ _ Hj) as Hl.
    rewrite (to_eps_len _ _ Hok) in Hl. lia.
  - destruct (lookup_lt_is_Some_2 eps index) as [ep He];
      [rewrite (to_eps_len _ _ Hok); lia|]. rewrite He in H.
    destruct (ep_active ep) eqn:Ha; [destruct (Z.eqb_spec (owner_pid ep) pid) as [Ho|Ho]|]; simpl in H.
    2,3: eapply (IH (S index)); [done|done|lia| |done]; intros j ep0 Hj Hj0 Ha0;
      destruct (decide (j = index)) as [->|]; [congruence|apply (Hlt j); [lia|done..]].
    destruct (cancel_pending ep chans) as [ep1 chans1] eqn:Ec.
    pose proof (close_endpoint_ok _ _ Hok _ _ _ _ He Ha Ec) as Hok1.
    destruct (cancel_pending_spec ep chans (eps_lookup _ _ Hok _ _ He)) as (p & ch & E & _ & _ & Hl).
    rewrite E in Ec. injection Ec as <- <-.
    pose proof (lookup_lt_Some _ _ _ He) as Hlt'.
    destruct (IH (S index) pid _ _ eps' chans' Hok1 Hp ltac:(lia)) as (R1 & R2 & R3 & R4).
    { intros j ep0 Hj [(<- & <- & _)|[Hne Hj0]]%list_lookup_insert_Some Ha0; [done|].
      apply (Hlt j); [lia|done..]. }
    { done. }
    split; [done|]. split; [done|]. split.
    + intros j ep0 Hj Hne. apply R3; [|done]. rewrite list_lookup_insert_ne by congruence. done.
    + intros j c Hc. specialize (Hl j). case_decide as Hd.
      * rewrite Hc in Hl. simpl in Hl. right.
        apply live_pending_elem in Hd as [_ (c0 & Hc0 & _ & Hacc & _ & _ & Hsp)%pending_live_true].
        rewrite Hc in Hc0. injection Hc0 as <-. split; [done|]. split; [congruence|].
        destruct (R4 j _ Hl) as [|(_ & _ & ->)]; done.
      * rewrite Hc in Hl. by apply R4.
Qed.

Lemma release_channel_wf pid c : wf_channel c -> wf_channel (release_channel pid c).
Proof.
  intros Hw. unfold release_channel. destruct (active c) eqn:Ha; [|done]. simpl.
  pose proof (wf_channel_live _ Hw Ha) as Hl.
  assert (forall cl sv, (accepted c = false -> cl = false -> sv = false) ->
    wf_channel (maybe_free_channel (with_open c cl sv))) as H by (intros; by apply maybe_free_wf).
  destruct (client_pid c =? pid); simpl; destruct (server_pid c =? pid); simpl.
  - apply (H false false). done.
  - apply H. by intros ->.
  - apply H. done.
  - assert (maybe_free_channel c = maybe_free_channel (with_open c (client_open c) (server_open c))) as ->
      by (by destruct c). apply H. apply Hl.
Qed.

(** A channel still waiting after [release_channel] was not touched by it. *)
Lemma release_channel_waiting pid c :
  let c' := release_channel pid c in
  active c' = true -> accepted c' = false -> server_open c' = true -> c' = c.
Proof.
  unfold release_channel. destruct (active c) eqn:Ha; simpl; [|done].
  destruct (client_pid c =? pid); simpl; destruct (server_pid c =? pid); simpl;
    unfold maybe_free_channel; simpl; repeat case_match; simpl; done || congruence.
Qed.

Lemma release_shape s pid :
  wf s -> g_initialized s = true -> pid ≠ 0 ->
  exists eps chans, release_process s pid = mkState eps (release_channel pid <$> chans) true /\
    tables_ok eps chans /\
    (forall j ep, eps !! j = Some ep -> ep_active ep = true -> owner_pid ep ≠ pid) /\
    (forall j ep, g_endpoints s !! j = Some ep -> owner_pid ep ≠ pid -> eps !! j = Some ep) /\
    (forall j c, g_channels s !! j = Some c -> chans !! j = Some c \/
       (accepted c = false /\ server_pid c = pid /\ chans !! j = Some (cancelled c))).
Proof.
  intros Hwf Hinit Hp. unfold release_process. rewrite Hinit. unfold INVALID_PROCESS_ID.
  replace (pid =? 0) with false by lia. cbn [orb negb].
  destruct (release_endpoints _ _ _ _ _) as [eps chans] eqn:E.
  exists eps, chans. split; [done|].
  apply (release_endpoints_spec MAX_ENDPOINTS 0 pid (g_endpoints s) (g_channels s));
    [done|done|done| |done]. intros j ep Hj. lia.
Qed.

Lemma chan_release_wf s pid : wf s -> wf (release_process s pid).
Proof.
  intros Hwf. destruct (g_initialized s) eqn:Hinit; [|unfold release_process; by rewrite Hinit].
  destruct (Z.eq_dec pid 0) as [->|Hp]; [unfold release_process; by rewrite Hinit|].
  destruct (release_shape s pid Hwf Hinit Hp) as (eps & chans & -> & Hok & _).
  constructor; simpl; try apply Hok.
  - rewrite length_fmap. apply Hok.
  - apply Forall_fmap. eapply Forall_impl; [apply Hok|]. intros. by apply release_channel_wf.
  - intros j slot Hj Ha Hacc Hs. apply list_lookup_fmap_Some in Hj as (c & -> & Hc).
    pose proof (release_channel_waiting pid c Ha Hacc Hs) as E. rewrite E in *.
    exact (to_queued _ _ Hok j c Hc Ha Hacc Hs).
Qed.

Lemma chan_exec_wf s op : wf s -> wf (exec s op).
Proof.
  intros Hwf. destruct op; simpl.
  - unfold initialize. case_match; [done|]. apply boot_ok.
  - by apply bind_wf.
  - by apply connect_wf.
  - by apply accept_wf.
  - by apply send_wf.
  - by apply receive_wf.
  - by apply chan_close_wf.
  - by apply chan_release_wf.
Qed.

Lemma chan_run_wf ops s : wf s -> wf (fold_left exec ops s).
Proof. revert s; induction ops; intros s Hwf; simpl; [done|]. by apply IHops, chan_exec_wf. Qed.

(** ** Handles of new channels *)

Lemma encode_channel_value i g side :
  gen_ok g -> (i < MAX_CHANNELS)%nat ->
  encode_channel i g side = handle_value g (if side then 258 else 2) (Z.of_nat i + 1).
Proof.
  unfold gen_ok, kMaximumGeneration, MAX_CHANNELS. intros Hg Hi. unfold encode_channel.
  rewrite <- (Z.lor_assoc (Z.shiftl g 32) kKindChannel).
  replace (Z.lor kKindChannel _) with (Z.shiftl (if side then 258 else 2) 16) by (by destruct side).
  apply handle_lor; destruct side; lia.
Qed.

Lemma encode_channel_ref s i g side c :
  g_channels s !! i = Some c -> (i < MAX_CHANNELS)%nat -> active c = true -> gen_ok g ->
  generation c = g -> side_open c side = true ->
  channel_ref s (side_pid c side) (encode_channel i g side) i c side.
Proof.
  intros Hi Hlt Ha Hg Hgen Ho. rewrite encode_channel_value by done.
  unfold gen_ok, kMaximumGeneration, MAX_CHANNELS in *.
  constructor; try done.
  - rewrite handle_generation by (destruct side; lia). done.
  - unfold kSideMask. rewrite handle_side by (destruct side; lia). by destruct side.
  - rewrite handle_kind by (destruct side; lia). by destruct side.
  - apply handle_index; destruct side; lia.
Qed.

(** ** One send or receive, on the abstract queues *)

Lemma channel_ref_queue s pid h j c side i ci sd q :
  g_channels s !! i = Some ci -> channel_ref s pid h j c side ->
  channel_ref (with_channels s (<[i := with_out_queue ci sd q]> (g_channels s))) pid h j
    (if decide (j = i) then with_out_queue c sd q else c) side.
Proof.
  intros Hi []. case_decide as E.
  - subst j. assert (ci = c) as -> by congruence.
    constructor; simpl; try done; try (by destruct sd, side).
    apply list_lookup_insert_eq. by eapply lookup_lt_Some.
  - constructor; simpl; try done. by rewrite list_lookup_insert_ne.
Qed.

Lemma out_queue_with c sd q sd' :
  out_queue (with_out_queue c sd q) sd' = if bool_decide (sd' = sd) then q else out_queue c sd'.
Proof. by destruct sd, sd'. Qed.

Definition new_message (pid : Z) (data : option (list Z)) (n : nat) : Message :=
  mkMessage pid n (payload data n ++ replicate (MAX_MESSAGE_SIZE - n) 0).

Lemma send_Ok s pid h i c side data n s' :
  wf s -> channel_ref s pid h i c side -> send s pid h data n = (s', Ok) ->
  exists q, s' = with_channels s (<[i := with_out_queue c side q]> (g_channels s)) /\
    queue_list q = queue_list (out_queue c side) ++ [new_message pid data n] /\
    (length (queue_list (out_queue c side)) < MAX_MESSAGES_PER_DIRECTION)%nat.
Proof.
  intros Hwf Hr H. unfold send in H. rewrite (proj2 (decode_channel_iff _ _ _ _ _ _ Hwf) Hr) in H.
  destruct (negb _); [done|]. destruct (_ || _) eqn:Eg; [done|].
  apply orb_false_iff in Eg as [[_ Hn%Nat.ltb_ge]%orb_false_iff _].
  destruct (negb _); [done|].
  pose proof (out_queue_ok c side (channel_ref_wf _ _ _ _ _ _ Hwf Hr)) as Hq.
  rewrite (cr_pid _ _ _ _ _ _ Hr) in Hq.
  destruct (push_message _ _ _ _) as [q st] eqn:E. injection H as <- ->.
  destruct (push_message_spec _ _ _ _ _ Hq Hn E) as [_ Hl].
  exists q. split; [done|]. split; [done|].
  rewrite queue_list_length. apply (push_message_full _ pid data n). by rewrite E.
Qed.

Lemma receive_Ok s pid h i c side s' m :
  wf s -> channel_ref s pid h i c side -> receive s pid h true = (s', Ok, m) ->
  exists q, s' = with_channels s (<[i := with_out_queue c (negb side) q]> (g_channels s)) /\
    queue_list (in_queue c side) = m :: queue_list q /\ sender_pid m = side_pid c (negb side).
Proof.
  intros Hwf Hr H. unfold receive in H. rewrite (proj2 (decode_channel_iff _ _ _ _ _ _ Hwf) Hr) in H.
  destruct (negb _); [done|]. destruct (_ || _); [done|].
  pose proof (out_queue_ok c (negb side) (channel_ref_wf _ _ _ _ _ _ Hwf Hr)) as Hq.
  destruct (pop_message _) as [[q st] m'] eqn:E.
  destruct (decide (st = Ok)) as [->|Hne]; [|by destruct st; repeat case_match].
  injection H as <- <-. destruct (pop_message_spec _ _ _ _ Hq E) as [_ Hl].
  exists q. split; [done|]. split; [done|]. destruct Hq as [_ HF].
  unfold in_queue in Hl. rewrite Hl in HF. by apply Forall_cons in HF as [[? _] _].
Qed.

(** A run of sends by one side and receives by the other over one channel: the
    messages whose send succeeded and the messages received. *)
Inductive Transfer := Send (data : option (list Z)) (n : nat) | Receive.

Fixpoint transfer (s : State) (w hw r hr : Z) (ops : list Transfer)
  : State * list Message * list Message :=
  match ops with
  | [] => (s, [], [])
  | Send data n :: ops' =>
    let '(s1, st) := send s w hw data n in
    let '(s2, sent, got) := transfer s1 w hw r hr ops' in
    (s2, if decide (st = Ok) then new_message w data n :: sent else sent, got)
  | Receive :: ops' =>
    let '(s1, st, m) := receive s r hr true in
    let '(s2, sent, got) := transfer s1 w hw r hr ops' in
    (s2, sent, if decide (st = Ok) then m :: got else got)
  end.

Lemma send_fail s pid h data n s' st :
  send s pid h data n = (s', st) -> st ≠ Ok -> g_channels s' = g_channels s.
Proof.
  unfold send. destruct (negb _); [by intros [= <- <-]|]. destruct (_ || _); [by intros [= <- <-]|].
  destruct (decode_channel s pid h) as [|[[i c] side]] eqn:Hd; [by intros [= <- <-]|].
  apply decode_channel_inr in Hd. destruct (negb _); [by intros [= <- <-]|].
  destruct (push_message _ _ _ _) as [q st0] eqn:E. intros [= <- <-] Hne. simpl.
  unfold push_message in E. destruct (_ <=? _)%nat; [|congruence]. injection E as <- _.
  apply list_insert_id. destruct Hd. rewrite cr_lookup0. by destruct c, side.
Qed.

Lemma receive_fail s pid h has s' st m :
  receive s pid h has = (s', st, m) -> st ≠ Ok -> g_channels s' = g_channels s.
Proof.
  unfold receive. destruct (negb _); [by intros [= <- <- _]|]. destruct (_ || _); [by intros [= <- <- _]|].
  destruct (decode_channel s pid h) as [|[[i c] side]] eqn:Hd; [by intros [= <- <- _]|].
  apply decode_channel_inr in Hd. destruct (pop_message _) as [[q st0] m0] eqn:E.
  unfold pop_message in E. destruct (_ =? _)%nat; [|injection E as <- <- <-; by intros [= <- <- _]].
  injection E as <- <- <-. intros [= <- _ _] _. simpl.
  apply list_insert_id. destruct Hd. rewrite cr_lookup0. by destruct c, side.
Qed.

Lemma channel_ref_same s s' pid h i c side :
  g_channels s' = g_channels s -> channel_ref s pid h i c side -> channel_ref s' pid h i c side.
Proof. intros E []. constructor; congruence. Qed.

Lemma transfer_spec ops : forall s w hw r hr i c side s' sent got,
  wf s -> channel_ref s w hw i c side -> channel_ref s r hr i c (negb side) ->
  transfer s w hw r hr ops = (s', sent, got) ->
  exists c', channel_ref s' w hw i c' side /\ channel_ref s' r hr i c' (negb side) /\
    queue_list (out_queue c side) ++ sent = got ++ queue_list (out_queue c' side).
Proof.
  induction ops as [|[data n|] ops IH]; intros s w hw r hr i c side s' sent got Hwf Hw Hr H;
    cbn [transfer] in H.
  - injection H as <- <- <-. exists c. by rewrite app_nil_r.
  - destruct (send s w hw data n) as [s1 st] eqn:E.
    destruct (transfer s1 w hw r hr ops) as [[s2 sent'] got'] eqn:Et. injection H as <- <- <-.
    pose proof (send_wf s w hw data n Hwf) as Hwf1. rewrite E in Hwf1. cbn [fst] in Hwf1.
    destruct (decide (st = Ok)) as [->|Hne].
    + destruct (send_Ok _ _ _ _ _ _ _ _ _ Hwf Hw E) as (q & -> & Hl & _).
      pose proof (channel_ref_queue _ _ _ _ _ _ i c side q (cr_lookup _ _ _ _ _ _ Hw) Hw) as Hw1.
      pose proof (channel_ref_queue _ _ _ _ _ _ i c side q (cr_lookup _ _ _ _ _ _ Hw) Hr) as Hr1.
      rewrite decide_True in Hw1, Hr1 by done.
      destruct (IH _ _ _ _ _ _ _ _ _ _ _ Hwf1 Hw1 Hr1 Et) as (c' & ? & ? & Hq).
      exists c'. split; [done|]. split; [done|]. rewrite <- Hq, out_queue_with, bool_decide_true by done.
      by rewrite Hl, <- app_assoc.
    + pose proof (send_fail _ _ _ _ _ _ _ E Hne) as Es.
      eapply IH; [exact Hwf1|by eapply channel_ref_same..|done].
  - destruct (receive s r hr true) as [[s1 st] m] eqn:E.
    destruct (transfer s1 w hw r hr ops) as [[s2 sent'] got'] eqn:Et. injection H as <- <- <-.
    pose proof (receive_wf s r hr true Hwf) as Hwf1. rewrite E in Hwf1. cbn [fst] in Hwf1.
    destruct (decide (st = Ok)) as [->|Hne].
    + destruct (receive_Ok _ _ _ _ _ _ _ _ Hwf Hr E) as (q & -> & Hl & _).
      unfold in_queue in Hl. rewrite negb_involutive in *.
      pose proof (channel_ref_queue _ _ _ _ _ _ i c side q (cr_lookup _ _ _ _ _ _ Hw) Hw) as Hw1.
      pose proof (channel_ref_queue _ _ _ _ _ _ i c side q (cr_lookup _ _ _ _ _ _ Hw) Hr) as Hr1.
      rewrite decide_True in Hw1, Hr1 by done.
      destruct (IH _ _ _ _ _ _ _ _ _ _ _ Hwf1 Hw1 Hr1 Et) as (c' & ? & ? & Hq).
      exists c'. split; [done|]. split; [done|]. rewrite Hl. simpl. rewrite <- Hq.
      by rewrite out_queue_with, bool_decide_true.
    + pose proof (receive_fail _ _ _ _ _ _ _ E Hne) as Es.
      eapply IH; [exact Hwf1|by eapply channel_ref_same..|done].
Qed.

Lemma transfer_wf ops : forall s w hw r hr, wf s -> wf (fst (fst (transfer s w hw r hr ops))).
Proof.
  induction ops as [|[data n|] ops IH]; intros s w hw r hr Hwf; cbn [transfer]; [done| |].
  - pose proof (send_wf s w hw data n Hwf). destruct (send s w hw data n) as [s1 st].
    specialize (IH s1 w hw r hr). destruct (transfer s1 w hw r hr ops) as [[s2 sent'] got'].
    by apply IH.
  - pose proof (receive_wf s r hr true Hwf). destruct (receive s r hr true) as [[s1 st] m].
    specialize (IH s1 w hw r hr). destruct (transfer s1 w hw r hr ops) as [[s2 sent'] got'].
    by apply IH.
Qed.

Lemma negotiate_max ep r selected :
  negotiate ep (Some r) = inr selected ->
  selected = Z.min (maximum_version r) (service_version (metadata ep)) /\
  Z.max (minimum_version r) (minimum_client_version (metadata ep)) <= selected.
Proof.
  unfold negotiate. destruct (_ || _); [done|]. destruct (negb _); [done|].
  repeat case_match; intros [= <-]; lia.
Qed.

(** What [release_channel] leaves of the sides of a channel. *)
Lemma release_channel_closed pid c side :
  pid ≠ 0 -> active (release_channel pid c) = true -> side_pid (release_channel pid c) side = pid ->
  side_open (release_channel pid c) side = false.
Proof.
  intros Hp. unfold release_channel. destruct (active c) eqn:Ha; simpl; [|congruence].
  destruct (Z.eqb_spec (client_pid c) pid); simpl; destruct (Z.eqb_spec (server_pid c) pid); simpl;
    unfold maybe_free_channel; simpl; repeat case_match; simpl; destruct side; simpl; done || congruence.
Qed.

Lemma release_channel_other pid c side :
  active c = true -> accepted c = true -> side_open c side = true -> side_pid c side ≠ pid ->
  let c' := release_channel pid c in
  active c' = true /\ generation c' = generation c /\ side_pid c' side = side_pid c side /\
  side_open c' side = true /\ in_queue c' side = in_queue c side /\
  peer_open c' side = peer_open c side && negb (side_pid c (negb side) =? pid).
Proof.
  intros Ha Hacc Ho Hp. unfold release_channel. rewrite Ha, Hacc. simpl.
  destruct (Z.eqb_spec (client_pid c) pid) as [E1|E1]; simpl;
    destruct (Z.eqb_spec (server_pid c) pid) as [E2|E2]; simpl; destruct side; simpl in *; try congruence;
    unfold maybe_free_channel; simpl; rewrite ?Ho, ?andb_false_r; simpl;
    rewrite ?andb_false_r, ?andb_true_r, ?(proj2 (Z.eqb_eq _ _) E1), ?(proj2 (Z.eqb_eq _ _) E2),
      ?(proj2 (Z.eqb_neq _ _) E1), ?(proj2 (Z.eqb_neq _ _) E2), ?andb_false_r, ?andb_true_r; done.
Qed.

Lemma decode_endpoint_same s s' pid h e ep :
  decode_endpoint s pid h = inr (e, ep) -> g_endpoints s' !! e = Some ep ->
  decode_endpoint s' pid h = decode_endpoint s pid h.
Proof.
  intros H He. rewrite H. revert H. unfold decode_endpoint.
  destruct (negb (Z.land h kKindMask =? kKindEndpoint) || _); [done|].
  destruct (decode_index _ _) as [i|]; [|done].
  destruct (g_endpoints s !! i) as [sl|]; [|done].
  destruct (negb (ep_active sl) || _) eqn:E1; [done|].
  destruct (negb (owner_pid sl =? pid)) eqn:E2; [done|]. intros [= -> ->]. by rewrite He, E1, E2.
Qed.

(** ** Properties *)

(** The service "ab" of process 7, with client 9 connected and accepted. *)
Definition svc : option (list Z) := Some [97; 98].
Definition example_state : State :=
  fold_left exec
    [OpInitialize; OpBind 7 svc 2 true None; OpConnect 9 svc 2 true None;
     OpAccept 7 (encode_endpoint 0 1) true;
     OpSend 9 (encode_channel 0 1 false) (Some [1; 2; 3]) 3] boot_state.

(** Whatever calls are made, in whatever order and with whatever handles:
    every message queue is a well-formed ring whose messages were sent by the
    process at its writing end, every channel slot is live with an open side or
    cleared, service names in use are pairwise distinct, and every connection
    that waits to be accepted is in the pending queue of a service of its
    server, so no connection request is ever lost. *)
Theorem channels_invariant ops : wf (fold_left exec ops boot_state).
Proof. apply chan_run_wf, boot_ok. Qed.

(** C2: Message delivery is exactly once, in order and unaltered: over any
    interleaving of sends by one side of a channel and receives by the other,
    the messages received followed by those still queued are the messages queued
    at the start followed by those whose send succeeded, and the queue never
    holds more than 4. *)
Theorem transfer_fifo s w hw r hr i c side ops s' sent got :
  wf s -> decode_channel s w hw = inr (i, c, side) -> decode_channel s r hr = inr (i, c, negb side) ->
  transfer s w hw r hr ops = (s', sent, got) ->
  exists c', decode_channel s' w hw = inr (i, c', side) /\
    queue_list (out_queue c side) ++ sent = got ++ queue_list (out_queue c' side) /\
    (length (queue_list (out_queue c' side)) <= MAX_MESSAGES_PER_DIRECTION)%nat.
Proof.
  intros Hwf Hw Hr H. apply decode_channel_inr in Hw. apply decode_channel_inr in Hr.
  destruct (transfer_spec _ _ _ _ _ _ _ _ _ _ _ _ Hwf Hw Hr H) as (c' & Hw' & _ & Hq).
  pose proof (transfer_wf ops s w hw r hr Hwf) as Hwf'. rewrite H in Hwf'.
  exists c'. split; [by apply decode_channel_iff|]. split; [done|]. rewrite queue_list_length.
  destruct (out_queue_ok c' side) as [Hring _]; [by eapply channel_ref_wf|]. apply Hring.
Qed.

(** The client sends twice, the server receives once: [1;2;3] was queued already. *)
Lemma transfer_fifo_witness :
  exists c', decode_channel (fst (fst (transfer example_state 9 (encode_channel 0 1 false) 7
      (encode_channel 0 1 true) [Send (Some [4]) 1; Receive; Send None 0])))
      9 (encode_channel 0 1 false) = inr (0%nat, c', false) /\
    length (queue_list (out_queue c' false)) = 2%nat.
Proof.
  destruct (transfer_fifo example_state 9 (encode_channel 0 1 false) 7 (encode_channel 0 1 true) 0
    (nth 0 (g_channels example_state) (empty_channel 0)) false
    [Send (Some [4]) 1; Receive; Send None 0]
    (fst (fst (transfer example_state 9 (encode_channel 0 1 false) 7 (encode_channel 0 1 true)
       [Send (Some [4]) 1; Receive; Send None 0])))
    [new_message 9 (Some [4]) 1; new_message 9 None 0]
    [new_message 9 (Some [1; 2; 3]) 3]) as (c' & Hd & Hq & _).
  - apply chan_run_wf, boot_ok.
  - vm_compute. reflexivity.
  - vm_compute. reflexivity.
  - vm_compute. reflexivity.
  - exists c'. split; [exact Hd|]. apply (f_equal length) in Hq. rewrite !length_app in Hq.
    vm_compute in Hd. injection Hd as <-. vm_compute. reflexivity.
Defined.

(** The outcome of [send] and [receive] on a handle the caller may use: a
    send fails with PeerClosed once the peer has closed, with WouldBlock exactly
    when 4 messages are queued, and otherwise succeeds; a receive delivers the
    oldest message even after the peer has closed, and on an empty queue reports
    WouldBlock while the peer is open and PeerClosed after. *)
Theorem send_receive_status s pid h i c side data n :
  wf s -> g_initialized s = true -> pid ≠ 0 -> decode_channel s pid h = inr (i, c, side) ->
  (n <= MAX_MESSAGE_SIZE)%nat -> (n = 0%nat \/ is_Some data) ->
  snd (send s pid h data n) =
    (if negb (peer_open c side) then PeerClosed
     else if (length (queue_list (out_queue c side)) <? MAX_MESSAGES_PER_DIRECTION)%nat then Ok
     else WouldBlock) /\
  snd (fst (receive s pid h true)) =
    (match queue_list (in_queue c side) with
     | _ :: _ => Ok
     | [] => if peer_open c side then WouldBlock else PeerClosed
     end) /\
  snd (receive s pid h true) = hd empty_message (queue_list (in_queue c side)).
Proof.
  intros Hwf Hinit Hp Hd Hn Hdata. split.
  - unfold send. rewrite Hinit, Hd. unfold INVALID_PROCESS_ID.
    replace (_ || _) with false.
    2:{ symmetry. apply orb_false_iff. split; [lia|]. destruct Hdata as [->|[x ->]]; [done|].
        apply andb_false_r. }
    cbn [negb]. destruct (negb (peer_open c side)); [done|].
    rewrite queue_list_length. unfold push_message.
    destruct (Nat.leb_spec MAX_MESSAGES_PER_DIRECTION (count (out_queue c side)));
      destruct (Nat.ltb_spec (count (out_queue c side)) MAX_MESSAGES_PER_DIRECTION); done || lia.
  - unfold receive. rewrite Hinit, Hd. unfold INVALID_PROCESS_ID.
    replace (pid =? 0) with false by lia. cbn [negb orb].
    pose proof (pop_message_Ok (in_queue c side)) as Hpop.
    pose proof (pop_message_block (in_queue c side)) as Hblock.
    apply decode_channel_inr in Hd. pose proof (channel_ref_wf _ _ _ _ _ _ Hwf Hd) as Hl.
    pose proof (out_queue_ok c (negb side) Hl) as Hq. fold (in_queue c side) in Hq.
    destruct (queue_list (in_queue c side)) as [|m l] eqn:El.
    + rewrite Hblock by done. by destruct (peer_open c side).
    + destruct (pop_message (in_queue c side)) as [[q st] m'] eqn:E.
      cbn [fst snd] in Hpop. destruct Hpop as [_ Hpop]. rewrite (Hpop ltac:(done)) in *.
      destruct (pop_message_spec _ _ _ _ Hq E) as [_ Hl']. rewrite El in Hl'.
      injection Hl' as -> _. done.
Qed.

Lemma send_receive_status_witness :
  snd (send example_state 7 (encode_channel 0 1 true) (Some [5]) 1) = Ok /\
  snd (fst (receive example_state 7 (encode_channel 0 1 true) true)) = Ok.
Proof.
  destruct (send_receive_status example_state 7 (encode_channel 0 1 true) 0
    (nth 0 (g_channels example_state) (empty_channel 0)) true (Some [5]) 1) as (Hs & Hr & _).
  - apply chan_run_wf, boot_ok.
  - vm_compute. reflexivity.
  - discriminate.
  - vm_compute. reflexivity.
  - unfold MAX_MESSAGE_SIZE. lia.
  - right. exists [5]. reflexivity.
  - rewrite Hs, Hr. split; vm_compute; reflexivity.
Defined.

(** A successful [connect] goes to the one service in use with the requested
    name; the returned handle was usable by nobody before and now gives the
    client its side of a fresh, empty channel to that service's owner, which is
    queued last among the service's live pending connections; the negotiated
    version is the greatest one both sides support; and every channel handle
    that was usable stays usable for the same channel. *)
Theorem connect_ok s client name n has neg s' h neg' :
  wf s -> connect s client name n has neg = (s', Ok, h, neg') ->
  exists text e ep ep' i g, name = Some text /\ g_endpoints s !! e = Some ep /\ ep_active ep = true /\
    service_name ep = (word_at text <$> seqZ 0 (Z.of_nat n)) /\
    g_endpoints s' !! e = Some ep' /\ pending_list ep' = live_pending (g_channels s) ep ++ [i] /\
    decode_channel s' client h = inr (i, new_channel g client (owner_pid ep), false) /\
    (forall pid, decode_channel s pid h = inl StaleHandle) /\
    (forall pid h' r, decode_channel s pid h' = inr r -> decode_channel s' pid h' = inr r) /\
    (forall r, neg = Some r -> exists r', neg' = Some r' /\
       let ok v := Z.max (minimum_version r) (minimum_client_version (metadata ep)) <= v <=
                   Z.min (maximum_version r) (service_version (metadata ep)) in
       ok (selected_version r') /\ forall v, ok v -> v <= selected_version r').
Proof.
  intros Hwf H. pose proof (connect_wf s client name n has neg Hwf) as Hwf'. rewrite H in Hwf'.
  cbn [fst] in Hwf'.
  apply connect_cases in H as [(? & _)|(_ & text & e & ep & i & old & sel & -> & _ & Hcn & -> & -> & ->)]; [done|].
  destruct Hcn. destruct (find_service_Some _ _ _ _ _ cn_service0 cn_ep0) as [Ha Hne].
  pose proof (eps_lookup _ _ Hwf _ _ cn_ep0) as Hw.
  destruct (push_pending_spec (g_channels s) ep i old) as [_ Hpl]; [done..|].
  pose proof (lookup_lt_Some _ _ _ cn_free0) as Hlt. pose proof Hlt as Hlt'.
  rewrite (to_chans_len _ _ Hwf) in Hlt'.
  set (g := next_generation (generation old)) in *.
  assert (gen_ok g) as Hg
    by (apply next_generation_ok; eapply wf_channel_gen, (chans_lookup _ _ Hwf); done).
  eexists text, e, ep, _, i, g. split; [done|]. split; [done|]. split; [done|].
  split; [by apply name_equal_iff; [apply (we_name _ Hw)|]|].
  split; [apply list_lookup_insert_eq; by eapply lookup_lt_Some|]. split; [done|].
  set (c := new_channel g client (owner_pid ep)).
  pose proof (encode_channel_ref (connected_state s client e ep i old) i g false c) as Href.
  split; [apply decode_channel_iff; [done|]; apply Href; try done; by apply list_lookup_insert_eq|].
  split; [|split].
  - intros pid. destruct (Href ltac:(by apply list_lookup_insert_eq) Hlt' eq_refl Hg eq_refl eq_refl) as [].
    unfold decode_channel. rewrite cr_kind0, Z.eqb_refl, (decode_index_value _ _ i), cn_free0, cn_inactive0 by done.
    done.
  - intros pid h' [[j cj] sd] [] %decode_channel_inr. apply decode_channel_iff; [done|].
    constructor; try done. simpl. rewrite list_lookup_insert_ne; [done|]. congruence.
  - intros r ->. eexists. split; [done|]. simpl. apply negotiate_max in cn_selected0.
    split; [lia|intros v Hv; lia].
Qed.

Lemma connect_ok_witness :
  exists i g server,
    decode_channel (fst (fst (fst (connect example_state 11 svc 2 true None)))) 11
      (encode_channel 1 1 false) = inr (i, new_channel g 11 server, false).
Proof.
  destruct (connect_ok example_state 11 svc 2 true None
    (fst (fst (fst (connect example_state 11 svc 2 true None)))) (encode_channel 1 1 false) None)
    as (text & e & ep & ep' & i & g & _ & _ & _ & _ & _ & _ & Hd & _).
  - apply chan_run_wf, boot_ok.
  - vm_compute. reflexivity.
  - exists i, g, (owner_pid ep). exact Hd.
Defined.

Lemma endpoint_ref s e ep :
  wf s -> g_endpoints s !! e = Some ep -> ep_active ep = true ->
  decode_endpoint s (owner_pid ep) (encode_endpoint e (ep_generation ep)) = inr (e, ep).
Proof.
  intros Hwf He Ha. pose proof (we_active_gen _ (eps_lookup _ _ Hwf _ _ He) Ha) as Hg.
  pose proof (lookup_lt_Some _ _ _ He) as Hlt. rewrite (to_eps_len _ _ Hwf) in Hlt.
  unfold gen_ok, kMaximumGeneration, MAX_ENDPOINTS in *.
  assert (encode_endpoint e (ep_generation ep) = handle_value (ep_generation ep) 1 (Z.of_nat e + 1)) as ->
    by (unfold encode_endpoint, kKindEndpoint; apply handle_lor; lia).
  unfold decode_endpoint, kSideMask. rewrite handle_kind, handle_side by lia.
  change (negb (Z.shiftl (1 mod 256) 16 =? kKindEndpoint) || negb (Z.shiftl ((1 / 256) mod 2) 24 =? 0))
    with false. cbv iota.
  rewrite (decode_index_value _ _ e) by (rewrite ?handle_index; unfold MAX_ENDPOINTS; lia).
  rewrite He, Ha, handle_generation, Z.eqb_refl, Z.eqb_refl by lia. done.
Qed.

(** A connection that waits to be accepted can be accepted: its server has a
    service handle on which [accept] succeeds at once.  Whatever connection an
    [accept] returns was waiting, un-accepted, for that very process, the handle
    gives the caller the server side of it, and it is no longer waiting. *)
Theorem accept_ok s :
  wf s -> g_initialized s = true ->
  (forall i c, g_channels s !! i = Some c -> active c = true -> accepted c = false ->
     server_open c = true ->
     exists h s' ch, accept s (server_pid c) h true = (s', Ok, ch)) /\
  (forall server h s' ch, accept s server h true = (s', Ok, ch) ->
     exists i c, g_channels s !! i = Some c /\ active c = true /\ accepted c = false /\
       server_pid c = server /\ decode_channel s' server ch = inr (i, with_accepted c, true)).
Proof.
  intros Hwf Hinit. split.
  - intros i c Hi Ha Hacc Hso.
    destruct (to_queued _ _ Hwf i c Hi Ha Hacc Hso) as (e & ep & He & Hea & Ho & Hin).
    pose proof (endpoint_ref s e ep Hwf He Hea) as Hd. rewrite Ho in Hd.
    exists (encode_endpoint e (ep_generation ep)).
    destruct (accept s (server_pid c) (encode_endpoint e (ep_generation ep)) true) as [[s' st] ch] eqn:E.
    exists s', ch. do 2 f_equal. destruct (accept_cases _ _ _ _ _ _ _ Hwf E) as [(-> & Hne & _)|H].
    + exfalso. unfold accept in E. rewrite Hinit, Hd in E. unfold INVALID_PROCESS_ID in E.
      pose proof (we_owner _ (eps_lookup _ _ Hwf _ _ He) Hea) as Hz.
      replace (server_pid c =? 0) with false in E by lia. cbn [negb orb] in E. cbv zeta in E.
      pose proof (accept_loop_spec (g_channels s) ep (eps_lookup _ _ Hwf _ _ He)) as Hl. cbv zeta in Hl.
      destruct (live_pending (g_channels s) ep) as [|j l] eqn:El.
      * assert (i ∈ live_pending (g_channels s) ep) as Hlp; [|rewrite El in Hlp; by apply elem_of_nil in Hlp].
        apply live_pending_elem. split; [done|]. by apply (waiting_live _ _ Hwf i c).
      * destruct Hl as (ep' & Hl & _). rewrite Hl in E. by injection E as _ <- _.
    + destruct H as (e' & ep0 & ep' & Hd' & _ & _ & _ & _ & _ & H).
      rewrite Hd in Hd'. injection Hd' as <- <-.
      assert (i ∈ live_pending (g_channels s) ep) as Hlp
        by (apply live_pending_elem; split; [done|]; by apply (waiting_live _ _ Hwf i c)).
      destruct (live_pending (g_channels s) ep); [by apply elem_of_nil in Hlp|]. by destruct H as [-> _].
  - intros server h s' ch E. pose proof (accept_wf s server h true Hwf) as Hwf'.
    rewrite E in Hwf'. cbn [fst] in Hwf'.
    apply accept_cases in E as [(_ & ? & _)|(e & ep & ep' & Hd & _ & _ & _ & _ & _ & H)]; [done| |done].
    destruct (decode_endpoint_inr _ _ _ _ _ Hd) as (He & _ & Ho).
    destruct (live_pending (g_channels s) ep) as [|i l] eqn:El; [by destruct H|].
    destruct H as (_ & _ & -> & ->).
    assert (i ∈ live_pending (g_channels s) ep) as Hlp by (rewrite El; constructor).
    apply live_pending_elem in Hlp as [_ (c & Hc & Ha & Hacc & _ & Hso & Hsp)%pending_live_true].
    exists i, c. rewrite Hsp, Ho. do 4 (split; [done|]). apply decode_channel_iff; [done|].
    rewrite Hc. simpl. pose proof (lookup_lt_Some _ _ _ Hc) as Hlt. rewrite (to_chans_len _ _ Hwf) in Hlt.
    replace server with (side_pid (with_accepted c) true) by (simpl; congruence).
    apply encode_channel_ref; try done.
    + simpl. by rewrite list_lookup_alter_eq, Hc.
    + apply (lc_gen c). apply wf_channel_live; [|done]. by eapply (chans_lookup _ _ Hwf).
Qed.

(** The state before the example's [accept]. *)
Lemma accept_ok_witness :
  exists h s' ch, accept
    (fold_left exec [OpInitialize; OpBind 7 svc 2 true None; OpConnect 9 svc 2 true None] boot_state)
    7 h true = (s', Ok, ch).
Proof.
  destruct (accept_ok
    (fold_left exec [OpInitialize; OpBind 7 svc 2 true None; OpConnect 9 svc 2 true None] boot_state))
    as [H _].
  - apply chan_run_wf, boot_ok.
  - vm_compute. reflexivity.
  - apply (H 0%nat (new_channel 1 9 7)); vm_compute; reflexivity.
Defined.

(** When a process exits, [release_process] leaves it without any service or
    channel handle; every other process keeps its services, and keeps its side
    of every accepted channel with the messages already sent to it, the peer
    being reported closed exactly when the peer was the process that exited. *)
Theorem release_ipc_ok s pid :
  wf s -> g_initialized s = true -> pid ≠ INVALID_PROCESS_ID ->
  let s' := release_process s pid in
  (forall h r, decode_endpoint s' pid h ≠ inr r) /\
  (forall h r, decode_channel s' pid h ≠ inr r) /\
  (forall q h r, q ≠ pid -> decode_endpoint s q h = inr r -> decode_endpoint s' q h = inr r) /\
  (forall q h i c side, q ≠ pid -> decode_channel s q h = inr (i, c, side) -> accepted c = true ->
     exists c', decode_channel s' q h = inr (i, c', side) /\ in_queue c' side = in_queue c side /\
       peer_open c' side = peer_open c side && negb (side_pid c (negb side) =? pid)).
Proof.
  intros Hwf Hinit Hp s'. unfold INVALID_PROCESS_ID in Hp. pose proof (chan_release_wf s pid Hwf) as Hwf'.
  fold s' in Hwf'. destruct (release_shape s pid Hwf Hinit Hp) as (eps & chans & E & Hok & Hno & Hkeep & Hch).
  fold s' in E. split; [|split; [|split]].
  - intros h [e ep] (He & Ha & Ho)%decode_endpoint_inr. rewrite E in He. by apply (Hno e ep).
  - intros h [[i c] side] []%decode_channel_inr. rewrite E in cr_lookup0. simpl in cr_lookup0.
    apply list_lookup_fmap_Some in cr_lookup0 as (c0 & -> & Hc0).
    rewrite (release_channel_closed pid c0 side) in cr_open0 by done. done.
  - intros q h [e ep] Hq Hd. destruct (decode_endpoint_inr _ _ _ _ _ Hd) as (He & _ & Ho).
    rewrite <- Hd. apply decode_endpoint_same with (e := e) (ep := ep); [done|].
    rewrite E. apply Hkeep; [done|congruence].
  - intros q h i c side Hq []%decode_channel_inr Hacc.
    assert (chans !! i = Some c) as Hc
      by (destruct (Hch i c cr_lookup0) as [|(? & _)]; [done|congruence]).
    destruct (release_channel_other pid c side) as (H1 & H2 & H3 & H4 & H5 & H6); [done..|congruence|].
    exists (release_channel pid c). split; [|done]. apply decode_channel_iff; [done|].
    constructor; try congruence. rewrite E. simpl. by rewrite list_lookup_fmap, Hc.
Qed.

Lemma release_ipc_ok_witness :
  (forall h r, decode_channel (release_process example_state 9) 9 h ≠ inr r) /\
  (forall h r, decode_endpoint example_state 7 h = inr r ->
     decode_endpoint (release_process example_state 9) 7 h = inr r).
Proof.
  destruct (release_ipc_ok example_state 9) as (_ & H2 & H3 & _).
  - apply chan_run_wf, boot_ok.
  - vm_compute. reflexivity.
  - discriminate.
  - split; [exact H2|]. intros h r. apply H3. discriminate.
Defined.

(** The pending queue of a service can hold a stale entry that names another
    service's connection: process 7 offers the services "a" and "b", a client
    connects to "a" and closes, and a client connects to "b" and gets the same
    channel slot.  [accept] on "a" then returns the connection made to "b", and
    [accept] on "b" blocks although a client is connected to it. *)
Theorem accept_misroutes :
  let name_a := Some [97] in
  let name_b := Some [98] in
  let s := fold_left exec
    [OpInitialize; OpBind 7 name_a 1 true None; OpBind 7 name_b 1 true None;
     OpConnect 9 name_a 1 true None; OpClose 9 (encode_channel 0 1 false);
     OpConnect 10 name_b 1 true None] boot_state in
  snd (fst (accept s 7 (encode_endpoint 0 1) true)) = Ok /\
  snd (accept s 7 (encode_endpoint 0 1) true) = encode_channel 0 2 true /\
  (client_pid <$> g_channels s !! 0%nat) = Some 10 /\
  snd (fst (accept (fst (fst (accept s 7 (encode_endpoint 0 1) true))) 7 (encode_endpoint 1 1) true))
    = WouldBlock.
Proof. vm_compute. repeat split. Qed.
