(* ===== verification/Scheduler.v ===== *)
(** * The cooperative task scheduler (kernel/task/scheduler.cpp)

    32 task slots, dispatched round-robin by [run_pending] and released by
    [tick] with wrap-around 64-bit time.  The file-scope variables are the fields
    of [State].  The code uses atomics because [tick] runs in interrupt context:
    in the model an interrupt can happen between any two calls of the interface
    (a callback's script may contain ticks), not between an atomic load and the
    compare-exchange that follows it, so every compare-exchange loop ends at its
    first iteration.  A task's callback is code outside this file: it is the
    parameter [script], the calls of the scheduler interface that a callback with
    a given context makes in a given state.  Flags that only ever hold 0 and 1
    are [bool]; [INVALID_SLOT] is [None]. *)

From S2P Require Import Prelude.

(** ** Data *)

Definition MAX_TASKS : nat := 32.
Definition MAX_TASK_NAME_LENGTH : nat := 31.
Definition MAX_FORWARD_TICK_DELTA : Z := 0x7fffffffffffffff.
Definition INVALID_TASK_ID : Z := 0.
Definition TASK_ID_SLOT_MASK : Z := 0xff.
Definition TASK_ID_MAX_GENERATION : Z := Z.shiftr UINT64_MAX 8.

Inductive Status :=
| Ok | NotInitialized | AlreadyInitialized | InvalidArgument | NameTooLong | PeriodTooLarge
| CapacityReached | NotFound | InvalidState | AlreadySuspended | NotSuspended | NotRunning
| CancellationPending | ClockRegression | Busy | ReentrantCall | BudgetExhausted | IterationStopped.

#[export] Instance Status_eq_dec : EqDecision Status.
Proof. solve_decision. Defined.

Inductive TaskState := Empty | Waiting | Ready | Running | Suspended.

#[export] Instance TaskState_eq_dec : EqDecision TaskState.
Proof. solve_decision. Defined.

Record TaskSlot := mkSlot {
  state : TaskState;
  pending : bool;
  cancel_requested : bool;
  suspend_requested : bool;
  yield_requested : bool;
  id : Z;
  generation : Z;
  name : list Z;
  callback : Z;
  context : Z;
  period_ticks : Z;
  next_release : Z;
  run_count : Z;
  release_count : Z;
  coalesced_release_count : Z;
  yield_count : Z;
  last_run_tick : Z;
}.

Record TaskStat := mkStat {
  st_id : Z; st_name : list Z; st_state : TaskState; st_period_ticks : Z; st_next_release : Z;
  st_run_count : Z; st_release_count : Z; st_coalesced_release_count : Z; st_yield_count : Z;
  st_last_run_tick : Z; st_pending : bool; st_cancellation_pending : bool;
  st_suspension_pending : bool;
}.

Record SchedulerMetrics := mkMetrics {
  tick_calls : Z; rejected_tick_calls : Z; tasks_created : Z; tasks_completed : Z;
  tasks_cancelled : Z; releases : Z; coalesced_releases : Z; callbacks_executed : Z;
  yield_requests : Z; suspensions : Z; resumptions : Z; budget_exhaustions : Z;
}.

Record RunResult := mkResult { executed : nat; ready_remaining : nat }.

Record State := mkState {
  g_tasks : list TaskSlot;
  g_metrics : SchedulerMetrics;
  g_initialized : bool;
  g_run_active : bool;
  g_now : Z;
  g_dispatch_cursor : nat;
  g_current_slot : option nat;
}.

Definition empty_slot (generation : Z) : TaskSlot :=
  mkSlot Empty false false false false 0 generation (replicate (S MAX_TASK_NAME_LENGTH) 0)
    0 0 0 0 0 0 0 0 0.
Definition zero_metrics : SchedulerMetrics := mkMetrics 0 0 0 0 0 0 0 0 0 0 0 0.

(** ** Field updates *)

Definition with_state (s : TaskSlot) (x : TaskState) : TaskSlot :=
  mkSlot x (pending s) (cancel_requested s) (suspend_requested s) (yield_requested s) (id s)
    (generation s) (name s) (callback s) (context s) (period_ticks s) (next_release s)
    (run_count s) (release_count s) (coalesced_release_count s) (yield_count s)
    (last_run_tick s).
Definition with_pending (s : TaskSlot) (b : bool) : TaskSlot :=
  mkSlot (state s) b (cancel_requested s) (suspend_requested s) (yield_requested s) (id s)
    (generation s) (name s) (callback s) (context s) (period_ticks s) (next_release s)
    (run_count s) (release_count s) (coalesced_release_count s) (yield_count s)
    (last_run_tick s).
Definition with_requests (s : TaskSlot) (c u y : bool) : TaskSlot :=
  mkSlot (state s) (pending s) c u y (id s) (generation s) (name s) (callback s) (context s)
    (period_ticks s) (next_release s) (run_count s) (release_count s)
    (coalesced_release_count s) (yield_count s) (last_run_tick s).
Definition with_next_release (s : TaskSlot) (t : Z) : TaskSlot :=
  mkSlot (state s) (pending s) (cancel_requested s) (suspend_requested s) (yield_requested
    s) (id s) (generation s) (name s) (callback s) (context s) (period_ticks s) t (run_count
    s) (release_count s) (coalesced_release_count s) (yield_count s) (last_run_tick s).
Definition with_releases (s : TaskSlot) (r c : Z) : TaskSlot :=
  mkSlot (state s) (pending s) (cancel_requested s) (suspend_requested s) (yield_requested
    s) (id s) (generation s) (name s) (callback s) (context s) (period_ticks s)
    (next_release s) (run_count s) r c (yield_count s) (last_run_tick s).
Definition with_run (s : TaskSlot) (n t : Z) : TaskSlot :=
  mkSlot (state s) (pending s) (cancel_requested s) (suspend_requested s) (yield_requested
    s) (id s) (generation s) (name s) (callback s) (context s) (period_ticks s)
    (next_release s) n (release_count s) (coalesced_release_count s) (yield_count s) t.
Definition with_yield_count (s : TaskSlot) (n : Z) : TaskSlot :=
  mkSlot (state s) (pending s) (cancel_requested s) (suspend_requested s) (yield_requested
    s) (id s) (generation s) (name s) (callback s) (context s) (period_ticks s)
    (next_release s) (run_count s) (release_count s) (coalesced_release_count s) n
    (last_run_tick s).

Definition with_tasks (s : State) (t : list TaskSlot) : State :=
  mkState t (g_metrics s) (g_initialized s) (g_run_active s) (g_now s) (g_dispatch_cursor s) (g_current_slot s).
Definition with_metrics (s : State) (m : SchedulerMetrics) : State :=
  mkState (g_tasks s) m (g_initialized s) (g_run_active s) (g_now s) (g_dispatch_cursor s) (g_current_slot s).
Definition with_run_active (s : State) (b : bool) : State :=
  mkState (g_tasks s) (g_metrics s) (g_initialized s) b (g_now s) (g_dispatch_cursor s) (g_current_slot s).
Definition with_now (s : State) (t : Z) : State :=
  mkState (g_tasks s) (g_metrics s) (g_initialized s) (g_run_active s) t (g_dispatch_cursor s) (g_current_slot s).
Definition with_cursor (s : State) (c : nat) : State :=
  mkState (g_tasks s) (g_metrics s) (g_initialized s) (g_run_active s) (g_now s) c (g_current_slot s).
Definition with_current (s : State) (c : option nat) : State :=
  mkState (g_tasks s) (g_metrics s) (g_initialized s) (g_run_active s) (g_now s) (g_dispatch_cursor s) c.

Definition store (s : State) (index : nat) (slot : TaskSlot) : State :=
  with_tasks s (<[index := slot]> (g_tasks s)).

(** The counters of [g_metrics]. *)
Inductive Metric :=
| M_tick_calls | M_rejected_tick_calls | M_tasks_created | M_tasks_completed
| M_tasks_cancelled | M_releases
| M_coalesced_releases | M_callbacks_executed | M_yield_requests
| M_suspensions | M_resumptions | M_budget_exhaustions.

#[export] Instance Metric_eq_dec : EqDecision Metric.
Proof. solve_decision. Defined.

Definition saturating_add (current increment : Z) : Z :=
  if increment =? 0 then current
  else if UINT64_MAX - current <? increment then UINT64_MAX else current + increment.

Definition bump (s : State) (k : Metric) (n : Z) : State :=
  let m := g_metrics s in
  let f field k' := if decide (k = k') then saturating_add field n else field in
  with_metrics s (mkMetrics (f (tick_calls m) M_tick_calls) (f (rejected_tick_calls m)
    M_rejected_tick_calls) (f (tasks_created m) M_tasks_created) (f (tasks_completed m)
    M_tasks_completed) (f (tasks_cancelled m) M_tasks_cancelled) (f (releases m) M_releases)
    (f (coalesced_releases m) M_coalesced_releases) (f (callbacks_executed m)
    M_callbacks_executed) (f (yield_requests m) M_yield_requests) (f (suspensions m)
    M_suspensions) (f (resumptions m) M_resumptions) (f (budget_exhaustions m)
    M_budget_exhaustions)).

(** ** Helpers *)

(** The name's terminator must be among its first 32 characters, not first. *)
Definition validate_name (nm : option (list Z)) : Status + nat :=
  match nm with
  | None => inl InvalidArgument
  | Some text =>
    match for_find (fun i => word_at text i =? 0) (S MAX_TASK_NAME_LENGTH) 0 with
    | None => inl NameTooLong
    | Some i => if i =? 0 then inl InvalidArgument else inr (Z.to_nat i)
    end
  end.

Definition next_generation (generation : Z) : Z :=
  if (generation =? 0) || (TASK_ID_MAX_GENERATION <=? generation) then 1 else generation + 1.

(** [make_task_id] on the slot's new generation. *)
Definition make_task_id (generation : Z) (index : nat) : Z :=
  Z.lor (u64 (Z.shiftl generation 8)) (Z.of_nat index + 1).

Definition decode_task_id (task : Z) : option nat :=
  if task =? INVALID_TASK_ID then None else
  let encoded_slot := Z.land task TASK_ID_SLOT_MASK in
  if (encoded_slot =? 0) || (Z.of_nat MAX_TASKS <? encoded_slot) then None
  else Some (Z.to_nat (encoded_slot - 1)).

Definition find_task (s : State) (task : Z) : option (nat * TaskSlot) :=
  match decode_task_id task with
  | None => None
  | Some index =>
    match g_tasks s !! index with
    | None => None
    | Some slot =>
      if bool_decide (state slot = Empty) || negb (id slot =? task) then None else Some (index, slot)
    end
  end.

Definition time_reached (current deadline : Z) : bool :=
  (current ⊖ deadline) <=? MAX_FORWARD_TICK_DELTA.

(** [retire_slot]: [clear_slot_after_empty] and the counter. *)
Definition retire_slot (s : State) (index : nat) (slot : TaskSlot) (completed cancelled : bool) : State :=
  let s := store s index (empty_slot (generation slot)) in
  let s := if completed then bump s M_tasks_completed 1 else s in
  if cancelled then bump s M_tasks_cancelled 1 else s.

Definition mark_due_releases (s : State) (index : nat) (current : Z) : State :=
  match g_tasks s !! index with
  | None => s
  | Some slot =>
    if bool_decide (state slot = Empty) || bool_decide (state slot = Suspended) then s else
    let period := period_ticks slot in
    if period =? 0 then s else
    let deadline := next_release slot in
    if negb (time_reached current deadline) then s else
    let elapsed := current ⊖ deadline in
    let count := (elapsed / period) ⊕ 1 in
    let coalesced := count - (if pending slot then 0 else 1) in
    let slot := with_pending (with_next_release slot (deadline ⊕ (count ⊗ period))) true in
    let slot := with_releases slot (saturating_add (release_count slot) count)
                  (saturating_add (coalesced_release_count slot) coalesced) in
    let slot := if bool_decide (state slot = Waiting) then with_state slot Ready else slot in
    bump (bump (store s index slot) M_releases count) M_coalesced_releases coalesced
  end.

Definition is_ready (slot : TaskSlot) : bool := bool_decide (state slot = Ready).

Definition count_ready_tasks (s : State) : nat := length (List.filter is_ready (g_tasks s)).

(** The first ready slot from the cursor on; it is marked running. *)
Definition claim_next_ready (s : State) : option (State * nat) :=
  match find_index (fun offset => match g_tasks s !! ((g_dispatch_cursor s + offset) mod MAX_TASKS)%nat with
                                  | Some slot => is_ready slot
                                  | None => false
                                  end) (seq 0 MAX_TASKS) with
  | None => None
  | Some offset =>
    let index := ((g_dispatch_cursor s + offset) mod MAX_TASKS)%nat in
    Some (with_cursor
            (with_tasks s (alter (fun slot => with_state (with_pending slot false) Running) index (g_tasks s)))
            ((index + 1) mod MAX_TASKS), index)
  end.

(** The name is copied up to its terminator; the rest is zero. *)
Definition copy_task_stat (slot : TaskSlot) : TaskStat :=
  let len := match for_find (fun i => word_at (name slot) i =? 0) (S MAX_TASK_NAME_LENGTH) 0 with
             | Some i => Z.to_nat i
             | None => S MAX_TASK_NAME_LENGTH
             end in
  mkStat (id slot) (take len (name slot) ++ replicate (S MAX_TASK_NAME_LENGTH - len) 0) (state slot)
    (period_ticks slot) (next_release slot) (run_count slot) (release_count slot)
    (coalesced_release_count slot) (yield_count slot) (last_run_tick slot) (pending slot)
    (cancel_requested slot) (suspend_requested slot).

(** ** Entry points *)

Definition clear_all (s : State) : list TaskSlot := (fun slot => empty_slot (generation slot)) <$> g_tasks s.

Definition initialize (s : State) (initial_now : Z) : State * Status :=
  if g_initialized s then (s, AlreadyInitialized) else
  (mkState (clear_all s) zero_metrics true false initial_now 0 None, Ok).

Definition reset (s : State) (initial_now : Z) : State * Status :=
  if negb (g_initialized s) then (s, NotInitialized) else
  if g_run_active s then (s, Busy) else
  (mkState (clear_all s) zero_metrics true (g_run_active s) initial_now 0 None, Ok).

(** [cb] is the callback's address, 0 for a null pointer. *)
Definition create (s : State) (nm : option (list Z)) (cb ctx period : Z) (has_id : bool)
  : State * Status * Z :=
  if negb (g_initialized s) then (s, NotInitialized, INVALID_TASK_ID) else
  if (cb =? 0) || negb has_id then (s, InvalidArgument, INVALID_TASK_ID) else
  if MAX_FORWARD_TICK_DELTA <? period then (s, PeriodTooLarge, INVALID_TASK_ID) else
  match validate_name nm with
  | inl status => (s, status, INVALID_TASK_ID)
  | inr len =>
    match find_index (fun slot => bool_decide (state slot = Empty)) (g_tasks s) with
    | None => (s, CapacityReached, INVALID_TASK_ID)
    | Some index =>
      let gen := next_generation (default 0 (generation <$> g_tasks s !! index)) in
      let task := make_task_id gen index in
      let text := take len (default [] nm) ++ replicate (S MAX_TASK_NAME_LENGTH - len) 0 in
      let s :=
        if period =? 0 then
          bump (store s index
                  (mkSlot Ready true false false false task gen text cb ctx 0 0 0 1 0 0 0))
            M_releases 1
        else
          mark_due_releases
            (store s index
               (mkSlot Waiting false false false false task gen text cb ctx period
                  (g_now s ⊕ period) 0 0 0 0 0)) index (g_now s) in
      (bump s M_tasks_created 1, Ok, task)
    end
  end.

(** [g_current_slot != index], the test for a call about another running task. *)
Definition is_current (s : State) (index : nat) : bool := bool_decide (g_current_slot s = Some index).

Definition cancel (s : State) (task : Z) : State * Status :=
  if negb (g_initialized s) then (s, NotInitialized) else
  match find_task s task with
  | None => (s, NotFound)
  | Some (index, slot) =>
    if bool_decide (state slot = Running) then
      if negb (is_current s index) || negb (id slot =? task) then (s, Busy) else
      if cancel_requested slot then (s, CancellationPending) else
      (store s index (with_requests slot true (suspend_requested slot) (yield_requested slot)), Ok)
    else (bump (store s index (empty_slot (generation slot))) M_tasks_cancelled 1, Ok)
  end.

Definition suspend (s : State) (task : Z) : State * Status :=
  if negb (g_initialized s) then (s, NotInitialized) else
  match find_task s task with
  | None => (s, NotFound)
  | Some (index, slot) =>
    if bool_decide (state slot = Suspended) then (s, AlreadySuspended) else
    if bool_decide (state slot = Running) then
      if negb (is_current s index) || negb (id slot =? task) then (s, Busy) else
      if suspend_requested slot then (s, AlreadySuspended) else
      (store s index (with_requests slot (cancel_requested slot) true (yield_requested slot)), Ok)
    else if negb (bool_decide (state slot = Ready)) && negb (bool_decide (state slot = Waiting))
    then (s, InvalidState)
    else (bump (store s index (with_state slot Suspended)) M_suspensions 1, Ok)
  end.

Definition resume (s : State) (task : Z) : State * Status :=
  if negb (g_initialized s) then (s, NotInitialized) else
  match find_task s task with
  | None => (s, NotFound)
  | Some (index, slot) =>
    if bool_decide (state slot = Running) then
      if negb (is_current s index) || negb (id slot =? task) then (s, Busy) else
      if negb (suspend_requested slot) then (s, NotSuspended) else
      (store s index (with_requests slot (cancel_requested slot) false (yield_requested slot)), Ok)
    else if negb (bool_decide (state slot = Suspended)) then (s, NotSuspended)
    else
      let slot := with_next_release slot (g_now s ⊕ period_ticks slot) in
      let slot := if period_ticks slot =? 0 then with_pending slot true else slot in
      let s := if pending slot then store s index (with_state slot Ready)
               else mark_due_releases (store s index (with_state slot Waiting)) index (g_now s) in
      (bump s M_resumptions 1, Ok)
  end.

(** [for (i = 0; i < MAX_TASKS; ++i) mark_due_releases(g_tasks[i], current)] *)
Definition mark_all (s : State) (current : Z) : State :=
  fold_left (fun s i => mark_due_releases s i current) (seq 0 MAX_TASKS) s.

Definition tick (s : State) (current : Z) : State * Status :=
  if negb (g_initialized s) then (s, NotInitialized) else
  let forward_delta := current ⊖ g_now s in
  if MAX_FORWARD_TICK_DELTA <? forward_delta
  then (bump s M_rejected_tick_calls 1, ClockRegression)
  else (mark_all (bump (with_now s current) M_tick_calls 1) current, Ok).

Definition yield (s : State) : State * Status :=
  if negb (g_initialized s) then (s, NotInitialized) else
  match g_current_slot s with
  | None => (s, NotRunning)
  | Some index =>
    match g_tasks s !! index with
    | None => (s, NotRunning)
    | Some slot =>
      if negb (bool_decide (state slot = Running)) then (s, NotRunning) else
      if cancel_requested slot then (s, CancellationPending) else
      if yield_requested slot then (s, Ok) else
      let slot := with_requests slot (cancel_requested slot) (suspend_requested slot) true in
      (bump (store s index (with_yield_count slot (saturating_add (yield_count slot) 1)))
         M_yield_requests 1, Ok)
    end
  end.

Definition stat (s : State) (task : Z) (has_out : bool) : Status * option TaskStat :=
  if negb (g_initialized s) then (NotInitialized, None) else
  if negb has_out then (InvalidArgument, None) else
  match find_task s task with
  | None => (NotFound, None)
  | Some (_, slot) => (Ok, Some (copy_task_stat slot))
  end.

Definition get_metrics (s : State) (has_out : bool) : Status * option SchedulerMetrics :=
  if negb (g_initialized s) then (NotInitialized, None) else
  if negb has_out then (InvalidArgument, None) else (Ok, Some (g_metrics s)).

Definition current_task (s : State) : Z :=
  match g_current_slot s with
  | None => INVALID_TASK_ID
  | Some index => default 0 (id <$> g_tasks s !! index)
  end.

Definition now (s : State) : Z := g_now s.

(** One call of the interface. *)
Inductive Op :=
| OpInitialize (initial_now : Z)
| OpReset (initial_now : Z)
| OpCreate (nm : option (list Z)) (cb ctx period : Z) (has_id : bool)
| OpCancel (task : Z)
| OpSuspend (task : Z)
| OpResume (task : Z)
| OpTick (current : Z)
| OpYield
| OpRunPending (budget : nat).

(** A call made by a callback.  A nested [run_pending] stops at its guard: while
    a callback runs [g_run_active] is set. *)
Definition call (s : State) (op : Op) : State * Status :=
  match op with
  | OpInitialize t => initialize s t
  | OpReset t => reset s t
  | OpCreate nm cb ctx period has_id => fst (create s nm cb ctx period has_id)
  | OpCancel task => cancel s task
  | OpSuspend task => suspend s task
  | OpResume task => resume s task
  | OpTick t => tick s t
  | OpYield => yield s
  | OpRunPending _ => (s, if g_initialized s then ReentrantCall else NotInitialized)
  end.

Section scheduler.
Context (script : Z -> Z -> State -> list Op).

Definition run_calls (s : State) (ops : list Op) : State := fold_left (fun s op => fst (call s op)) ops s.

(** The part of the loop body before and including the callback. *)
Definition begin_dispatch (s : State) (index : nat) : State :=
  match g_tasks s !! index with
  | None => s
  | Some slot =>
    let slot := with_run (with_requests slot false false false)
                  (saturating_add (run_count slot) 1) (g_now s) in
    let s := with_current (bump (store s index slot) M_callbacks_executed 1) (Some index) in
    let s := if callback slot =? 0 then s
             else run_calls s (script (callback slot) (context slot) s) in
    with_current s None
  end.

(** The part after the callback: what the task asked for decides its next state. *)
Definition end_dispatch (s : State) (index : nat) : State :=
  match g_tasks s !! index with
  | None => s
  | Some slot0 =>
    let slot := with_requests slot0 false false false in
    if cancel_requested slot0 then retire_slot s index slot false true else
    let slot := if yield_requested slot0 then with_pending slot true else slot in
    if suspend_requested slot0
    then bump (store s index (with_state slot Suspended)) M_suspensions 1 else
    if (period_ticks slot =? 0) && negb (pending slot)
    then retire_slot s index slot true false
    else store s index (with_state slot (if pending slot then Ready else Waiting))
  end.

(** The [while] loop: the state and the slots dispatched, in order. *)
Fixpoint run_loop (budget : nat) (s : State) : State * list nat :=
  match budget with
  | O => (s, [])
  | S budget' =>
    match claim_next_ready s with
    | None => (s, [])
    | Some (s, index) =>
      let '(s, l) := run_loop budget' (end_dispatch (begin_dispatch s index) index) in
      (s, index :: l)
    end
  end.

Definition run_pending (s : State) (budget : nat) : State * Status * RunResult :=
  if negb (g_initialized s) then (s, NotInitialized, mkResult 0 0) else
  if g_run_active s then (s, ReentrantCall, mkResult 0 0) else
  let '(s, l) := run_loop budget (with_run_active s true) in
  let remaining := count_ready_tasks s in
  let s := with_run_active s false in
  let result := mkResult (length l) remaining in
  if negb (remaining =? 0)%nat then (bump s M_budget_exhaustions 1, BudgetExhausted, result)
  else (s, Ok, result).

Definition exec (s : State) (op : Op) : State :=
  match op with
  | OpRunPending budget => fst (fst (run_pending s budget))
  | _ => fst (call s op)
  end.

(** [list] ([list_tasks]): the callback of the iteration is [visit]: the calls it makes and
    whether it asks to go on.  The result includes the reports visited. *)
Fixpoint list_loop (visit : TaskStat -> State -> list Op * bool) (snapshot : list Z) (s : State)
  : State * Status * list TaskStat :=
  match snapshot with
  | [] => (s, Ok, [])
  | task :: rest =>
    match stat s task true with
    | (NotFound, _) => list_loop visit rest s
    | (Ok, Some report) =>
      let '(ops, continue) := visit report s in
      let s' := run_calls s ops in
      if negb continue then (s', IterationStopped, [report]) else
      let '(s'', st, reports) := list_loop visit rest s' in (s'', st, report :: reports)
    | (status, _) => (s, status, [])
    end
  end.

Definition list_tasks (s : State) (visit : option (TaskStat -> State -> list Op * bool))
  : State * Status * list TaskStat :=
  if negb (g_initialized s) then (s, NotInitialized, []) else
  match visit with
  | None => (s, InvalidArgument, [])
  | Some visit =>
    list_loop visit
      (id <$> List.filter (fun slot => negb (bool_decide (state slot = Empty))) (g_tasks s)) s
  end.

End scheduler.

Definition boot_state : State :=
  mkState (replicate MAX_TASKS (empty_slot 0)) zero_metrics false false 0 0 None.

(** ** The invariant *)

Definition gen_ok (g : Z) : Prop := 1 <= g <= TASK_ID_MAX_GENERATION.

(** A slot in use; [run] says whether its callback is being executed.  The next
    release of a periodic task that is not suspended lies 1 to [period] ticks
    ahead, in wrap-around time. *)
Record live_slot (now : Z) (run : bool) (i : nat) (slot : TaskSlot) : Prop := {
  ls_state : state slot ≠ Empty;
  ls_gen : gen_ok (generation slot);
  ls_id : id slot = make_task_id (generation slot) i;
  ls_period : 0 <= period_ticks slot <= MAX_FORWARD_TICK_DELTA;
  ls_deadline : period_ticks slot ≠ 0 -> state slot ≠ Suspended ->
    1 <= next_release slot ⊖ now <= period_ticks slot;
  ls_ready : state slot = Ready -> pending slot = true;
  ls_waiting : state slot = Waiting -> pending slot = false /\ period_ticks slot ≠ 0;
  ls_running : state slot = Running <-> run = true;
  ls_requests : state slot ≠ Running ->
    cancel_requested slot = false /\ suspend_requested slot = false /\ yield_requested slot = false;
}.

Definition slot_ok (now : Z) (run : bool) (i : nat) (slot : TaskSlot) : Prop :=
  live_slot now run i slot \/
  (slot = empty_slot (generation slot) /\ 0 <= generation slot <= TASK_ID_MAX_GENERATION /\ run = false).

Definition tasks_ok (r : option nat) (now : Z) (tasks : list TaskSlot) : Prop :=
  length tasks = MAX_TASKS /\
  forall i slot, tasks !! i = Some slot -> slot_ok now (bool_decide (r = Some i)) i slot.

(** [r] is the slot whose callback is running. *)
Record inv (r : option nat) (s : State) : Prop := {
  inv_tasks : tasks_ok r (g_now s) (g_tasks s);
  inv_cursor : (g_dispatch_cursor s < MAX_TASKS)%nat;
  inv_current : g_current_slot s = r;
  inv_active : r ≠ None -> g_run_active s = true;
  inv_init : g_run_active s = true -> g_initialized s = true;
}.

(** The state between two calls from outside. *)
Definition wf (s : State) : Prop := inv None s /\ g_run_active s = false.

Definition op_ok (op : Op) : Prop :=
  match op with OpCreate _ _ _ period _ => is_u64 period | _ => True end.

(** ** Identifiers *)

Lemma sched_max_generation : TASK_ID_MAX_GENERATION = 2 ^ 56 - 1.
Proof. reflexivity. Qed.

Lemma sched_next_generation_ok g : 0 <= g -> gen_ok (next_generation g).
Proof. unfold next_generation, gen_ok. rewrite sched_max_generation. repeat case_match; lia. Qed.

Lemma make_task_id_value g i :
  gen_ok g -> (i < MAX_TASKS)%nat -> make_task_id g i = g * 2 ^ 8 + (Z.of_nat i + 1).
Proof.
  unfold gen_ok, make_task_id, MAX_TASKS. rewrite sched_max_generation. intros Hg Hi.
  rewrite u64_small by (rewrite Z.shiftl_mul_pow2 by lia; word_lia). apply lor_shift_add; lia.
Qed.

Lemma decode_make_task_id g i :
  gen_ok g -> (i < MAX_TASKS)%nat -> decode_task_id (make_task_id g i) = Some i.
Proof.
  intros Hg Hi. unfold decode_task_id. rewrite make_task_id_value by done.
  change TASK_ID_SLOT_MASK with (2 ^ 8 - 1). rewrite land_low by lia.
  unfold gen_ok, MAX_TASKS, INVALID_TASK_ID in *.
  replace ((g * 2 ^ 8 + (Z.of_nat i + 1)) mod 2 ^ 8) with (Z.of_nat i + 1) by zdm.
  replace (_ =? 0) with false by lia. replace (_ || _) with false by lia. f_equal. lia.
Qed.

Lemma find_task_Some s task i slot :
  find_task s task = Some (i, slot) ->
  g_tasks s !! i = Some slot /\ state slot ≠ Empty /\ id slot = task.
Proof.
  unfold find_task. destruct (decode_task_id task) as [j|]; [|done].
  destruct (g_tasks s !! j) as [sl|] eqn:E; [|done].
  destruct (bool_decide (state sl = Empty)) eqn:E1; [done|]. destruct (Z.eqb_spec (id sl) task); [|done].
  intros [= <- <-]. apply bool_decide_eq_false in E1. done.
Qed.

Lemma slot_ok_live now run i slot : slot_ok now run i slot -> state slot ≠ Empty -> live_slot now run i slot.
Proof. intros [|(-> & _)]; [done|]. by simpl. Qed.

Lemma slot_ok_gen now run i slot : slot_ok now run i slot -> 0 <= generation slot <= TASK_ID_MAX_GENERATION.
Proof. intros [H|(_ & ? & _)]; [|done]. pose proof (ls_gen _ _ _ _ H). unfold gen_ok in *. lia. Qed.

Lemma empty_slot_ok now i g :
  0 <= g <= TASK_ID_MAX_GENERATION -> slot_ok now false i (empty_slot g).
Proof. intros. by right. Qed.

(** A live task is found by its identifier. *)
Lemma find_task_id r now s i slot :
  tasks_ok r now (g_tasks s) -> g_tasks s !! i = Some slot -> state slot ≠ Empty ->
  find_task s (id slot) = Some (i, slot).
Proof.
  intros [Hlen Hok] Hi Hs. pose proof (slot_ok_live _ _ _ _ (Hok _ _ Hi) Hs) as [].
  pose proof (lookup_lt_Some _ _ _ Hi) as Hlt. rewrite Hlen in Hlt.
  unfold find_task. rewrite ls_id0, decode_make_task_id, Hi by done.
  by rewrite bool_decide_false, ls_id0, Z.eqb_refl by done.
Qed.

(** ** Replacing slots *)

Lemma tasks_insert r now tasks i slot :
  tasks_ok r now tasks -> slot_ok now (bool_decide (r = Some i)) i slot ->
  tasks_ok r now (<[i := slot]> tasks).
Proof.
  intros [Hlen Hok] Hs. split; [by rewrite length_insert|].
  intros j x [(<- & <- & _)|[_ Hx]]%list_lookup_insert_Some; auto.
Qed.

Lemma inv_store r s i slot :
  inv r s -> slot_ok (g_now s) (bool_decide (r = Some i)) i slot -> inv r (store s i slot).
Proof. intros [] Hs. constructor; try done. by apply tasks_insert. Qed.

Lemma inv_bump r s k n : inv r s -> inv r (bump s k n).
Proof. intros []. by constructor. Qed.

#[local] Hint Resolve inv_bump inv_store : kuro.

Lemma clear_all_ok s now now' r : tasks_ok r now (g_tasks s) -> tasks_ok None now' (clear_all s).
Proof.
  intros [Hlen Hok]. unfold clear_all. split; [by rewrite length_fmap|].
  intros i x Hx. apply list_lookup_fmap_Some in Hx as (slot & -> & Hs).
  apply empty_slot_ok. by eapply slot_ok_gen, Hok.
Qed.

(** ** Releases in wrap-around time *)

(** [mark_due_releases] on the slot alone. *)
Definition mark_slot (current : Z) (slot : TaskSlot) : TaskSlot :=
  if bool_decide (state slot = Empty) || bool_decide (state slot = Suspended) then slot else
  if period_ticks slot =? 0 then slot else
  if negb (time_reached current (next_release slot)) then slot else
  let count := ((current ⊖ next_release slot) / period_ticks slot) ⊕ 1 in
  let slot1 := with_releases
      (with_pending (with_next_release slot (next_release slot ⊕ (count ⊗ period_ticks slot))) true)
      (saturating_add (release_count slot) count)
      (saturating_add (coalesced_release_count slot) (count - (if pending slot then 0 else 1))) in
  if bool_decide (state slot = Waiting) then with_state slot1 Ready else slot1.

Record same_rest (s s' : State) : Prop := {
  sr_now : g_now s' = g_now s;
  sr_init : g_initialized s' = g_initialized s;
  sr_active : g_run_active s' = g_run_active s;
  sr_cursor : g_dispatch_cursor s' = g_dispatch_cursor s;
  sr_current : g_current_slot s' = g_current_slot s;
}.

Lemma mark_due_spec s i current :
  g_tasks (mark_due_releases s i current) = alter (mark_slot current) i (g_tasks s) /\
  same_rest s (mark_due_releases s i current).
Proof.
  unfold mark_due_releases. destruct (g_tasks s !! i) as [slot|] eqn:Hi.
  2:{ split; [|done]. symmetry. apply alter_fixed. intros x Hx. congruence. }
  rewrite (alter_insert _ _ _ _ Hi). unfold mark_slot.
  destruct (_ || _); [by rewrite list_insert_id|]. cbv zeta.
  destruct (period_ticks slot =? 0); [by rewrite list_insert_id|].
  destruct (negb _); [by rewrite list_insert_id|]. split; [|done].
  simpl. by destruct (bool_decide (state slot = Waiting)).
Qed.

(** The release deadline after time advances by [delta] past a deadline that
    was [d] ticks ahead. *)
Lemma release_arith now current deadline period :
  let d := deadline ⊖ now in
  let delta := current ⊖ now in
  let count := ((current ⊖ deadline) / period) ⊕ 1 in
  0 < period <= MAX_FORWARD_TICK_DELTA -> 1 <= d <= period -> delta <= MAX_FORWARD_TICK_DELTA ->
  (time_reached current deadline = true <-> d <= delta) /\
  (delta < d -> deadline ⊖ current = d - delta) /\
  (d <= delta -> count = (delta - d) / period + 1 /\
     (deadline ⊕ (count ⊗ period)) ⊖ current = d + count * period - delta /\
     1 <= d + count * period - delta <= period).
Proof.
  intros d delta count Hp Hd Hdelta. unfold MAX_FORWARD_TICK_DELTA in *.
  assert (0 <= delta) by (unfold delta; pose proof (u64_range (current - now)) as Hr; unfold is_u64 in Hr; lia).
  assert (current ⊖ deadline = u64 (delta - d)) as Hcd.
  { unfold delta, d, u64. rewrite <- Zminus_mod. f_equal. lia. }
  assert (deadline ⊖ current = u64 (d - delta)) as Hdc.
  { unfold delta, d, u64. rewrite <- Zminus_mod. f_equal. lia. }
  unfold time_reached. rewrite Hcd, Hdc. clearbody d delta.
  destruct (Z.le_gt_cases d delta) as [Hle|Hgt].
  - assert (u64 (delta - d) = delta - d) as E by (apply u64_small; word_lia).
    unfold count. rewrite E. pose proof (Z.div_le_mono (delta - d) (2 ^ 63) period) as _.
    assert (0 <= (delta - d) / period <= delta - d) as Hq.
    { split; [apply Z.div_pos; lia|]. apply Z.div_le_upper_bound; nia. }
    assert (u64 ((delta - d) / period + 1) = (delta - d) / period + 1) as Ec by (apply u64_small; word_lia).
    split; [unfold MAX_FORWARD_TICK_DELTA; lia|]. split; [lia|]. intros _.
    rewrite Hcd, E, Ec. split; [done|].
    set (c := (delta - d) / period + 1). assert (1 <= d + c * period - delta <= period) as Hb.
    { unfold c. pose proof (Z.div_mod (delta - d) period). pose proof (Z.mod_pos_bound (delta - d) period). nia. }
    split; [|done]. unfold u64 in Hdc |- *. rewrite Zminus_mod_idemp_l.
    replace (deadline + (c * period) mod 2 ^ 64 - current) with
      ((deadline - current) + (c * period) mod 2 ^ 64) by lia.
    rewrite Zplus_mod_idemp_r, <- (Zplus_mod_idemp_l (deadline - current)), Hdc, Zplus_mod_idemp_l.
    replace (d - delta + c * period) with (d + c * period - delta) by lia.
    apply Z.mod_small. word_lia.
  - assert (u64 (d - delta) = d - delta) as E by (apply u64_small; word_lia).
    assert (u64 (delta - d) = delta - d + 2 ^ 64) as E2.
    { rewrite <- (u64_small (delta - d + 2 ^ 64)) by word_lia. unfold u64.
      rewrite <- (Z.mod_add (delta - d) 1 (2 ^ 64)) by lia. done. }
    rewrite E, E2. split; [unfold MAX_FORWARD_TICK_DELTA; lia|]. split; lia.
Qed.

(** Marking keeps a slot's invariant as time moves forward. *)
Lemma mark_slot_ok now current run i slot :
  current ⊖ now <= MAX_FORWARD_TICK_DELTA -> slot_ok now run i slot ->
  slot_ok current run i (mark_slot current slot).
Proof.
  intros Hdelta [Hl|(E & Hg & Hr)].
  2:{ right. rewrite E. by unfold mark_slot. }
  left. unfold mark_slot. rewrite bool_decide_false by apply Hl. cbn [orb].
  destruct (bool_decide (state slot = Suspended)) eqn:Hs.
  { apply bool_decide_eq_true in Hs. destruct Hl. constructor; try done. }
  apply bool_decide_eq_false in Hs.
  destruct (Z.eqb_spec (period_ticks slot) 0) as [Hp|Hp]; [destruct Hl; by constructor|].
  pose proof (ls_period _ _ _ _ Hl) as Hper. pose proof (ls_deadline _ _ _ _ Hl Hp Hs) as Hdl.
  destruct (release_arith now current (next_release slot) (period_ticks slot)) as (Hreach & Hno & Hyes);
    [lia|done..|].
  destruct (time_reached current (next_release slot)) eqn:Et; cbn [negb].
  - destruct (Hyes (proj1 Hreach eq_refl)) as (_ & Hd & Hb). cbv zeta.
    set (count := (_ / _) ⊕ 1) in *.
    destruct (bool_decide (state slot = Waiting)) eqn:Hw;
      [apply bool_decide_eq_true in Hw|apply bool_decide_eq_false in Hw];
      destruct Hl; constructor; cbn -[u64]; try done.
    + intros _ _. rewrite Hd. done.
    + rewrite Hw in ls_running0. rewrite <- ls_running0. done.
    + intros _. apply ls_requests0. congruence.
    + intros _ _. rewrite Hd. done.
  - assert (current ⊖ now < next_release slot ⊖ now) as Hlt
      by (apply Z.nle_gt; rewrite <- Hreach; done).
    destruct Hl. constructor; try done. intros _ _. rewrite Hno by done.
    pose proof (u64_range (current - now)) as Hr. unfold is_u64 in Hr. lia.
Qed.

(** ** Every call preserves the invariant *)

Lemma sched_self_delta t : t ⊖ t = 0.
Proof. by rewrite Z.sub_diag. Qed.

Lemma mark_due_inv r s i : inv r s -> inv r (mark_due_releases s i (g_now s)).
Proof.
  intros [Ht]. destruct (mark_due_spec s i (g_now s)) as [Et []].
  constructor; rewrite ?sr_now0, ?sr_init0, ?sr_active0, ?sr_cursor0, ?sr_current0; try done.
  rewrite Et. destruct Ht as [Hlen Hok]. split; [by rewrite length_alter|]. intros j x Hx.
  destruct (decide (i = j)) as [<-|Hne].
  - rewrite list_lookup_alter_eq in Hx. apply fmap_Some in Hx as (y & Hy & ->).
    apply (mark_slot_ok (g_now s)); [|by apply Hok]. rewrite sched_self_delta. done.
  - rewrite list_lookup_alter_ne in Hx by done. by apply Hok.
Qed.

Lemma mark_fold_spec l : forall s current, NoDup l ->
  let s' := fold_left (fun s i => mark_due_releases s i current) l s in
  same_rest s s' /\ length (g_tasks s') = length (g_tasks s) /\
  forall j, g_tasks s' !! j = if decide (j ∈ l) then mark_slot current <$> g_tasks s !! j else g_tasks s !! j.
Proof.
  induction l as [|i l IH]; intros s current Hnd; cbn [fold_left].
  - split; [by constructor|]. split; [done|]. intros j.
    rewrite decide_False by apply not_elem_of_nil. done.
  - apply NoDup_cons in Hnd as [Hi Hnd].
    destruct (IH (mark_due_releases s i current) current Hnd) as ([] & Hlen & Hl).
    destruct (mark_due_spec s i current) as [Et []]. rewrite Et in Hlen, Hl.
    split; [constructor; congruence|]. rewrite length_alter in Hlen. split; [done|]. intros j. rewrite Hl.
    destruct (decide (j = i)) as [->|Hne].
    + rewrite decide_False, decide_True by (done || constructor). apply list_lookup_alter_eq.
    + rewrite list_lookup_alter_ne by done. destruct (decide (j ∈ l)) as [Hj|Hj].
      * rewrite decide_True by (by constructor). done.
      * rewrite decide_False by (by intros [|]%elem_of_cons). done.
Qed.

(** The state after a [tick] that is accepted. *)
Lemma tick_spec s current :
  g_initialized s = true -> current ⊖ g_now s <= MAX_FORWARD_TICK_DELTA ->
  length (g_tasks s) = MAX_TASKS ->
  let s' := fst (tick s current) in
  snd (tick s current) = Ok /\ g_now s' = current /\ g_initialized s' = true /\
  g_run_active s' = g_run_active s /\ g_dispatch_cursor s' = g_dispatch_cursor s /\
  g_current_slot s' = g_current_slot s /\
  g_tasks s' = mark_slot current <$> g_tasks s.
Proof.
  intros Hi Hd Hlen. unfold tick. rewrite Hi. cbn [negb]. cbv zeta.
  replace (_ <? _) with false by lia. cbn [fst snd]. unfold mark_all.
  destruct (mark_fold_spec (seq 0 MAX_TASKS) (bump (with_now s current) M_tick_calls 1) current)
    as ([] & Hl & Hlk); [apply NoDup_seq|].
  split; [done|]. rewrite sr_now0, sr_init0, sr_active0, sr_cursor0, sr_current0.
  do 5 (split; [done|]). apply list_eq. intros j. rewrite Hlk, list_lookup_fmap.
  change (g_tasks (bump (with_now s current) M_tick_calls 1)) with (g_tasks s).
  case_decide as Hj; [done|]. destruct (g_tasks s !! j) as [x|] eqn:E; [|done]. exfalso. apply Hj.
  apply elem_of_seq. apply lookup_lt_Some in E. lia.
Qed.

Lemma tick_inv r s current : inv r s -> inv r (fst (tick s current)).
Proof.
  intros Hinv. destruct (g_initialized s) eqn:Hi; [|unfold tick; rewrite Hi; done].
  destruct (Z.leb_spec (current ⊖ g_now s) MAX_FORWARD_TICK_DELTA) as [Hd|Hd].
  - pose proof (inv_tasks _ _ Hinv) as [Hlen Hok].
    destruct (tick_spec s current Hi Hd Hlen) as (_ & Hn & Hi' & Ha & Hc & Hcur & Ht).
    destruct Hinv. constructor; rewrite ?Hn, ?Hi', ?Ha, ?Hc, ?Hcur, ?Ht; try done.
    split; [by rewrite length_fmap|]. intros j x Hx.
    apply list_lookup_fmap_Some in Hx as (y & -> & Hy). apply (mark_slot_ok (g_now s)); [done|].
    by apply Hok.
  - unfold tick. rewrite Hi. cbn [negb]. cbv zeta. replace (_ <? _) with true by lia.
    by apply inv_bump.
Qed.

Lemma sched_initialize_inv r s t : inv r s -> inv r (fst (initialize s t)).
Proof.
  intros []. unfold initialize. destruct (g_initialized s) eqn:Hi; [by constructor|]. cbn [fst].
  assert (r = None) as ->.
  { destruct r; [|done]. specialize (inv_active0 ltac:(done)). by apply inv_init0 in inv_active0. }
  constructor; cbn -[MAX_TASKS]; try done; [by eapply clear_all_ok|unfold MAX_TASKS; lia].
Qed.

Lemma sched_reset_inv r s t : inv r s -> inv r (fst (reset s t)).
Proof.
  intros Hinv. unfold reset. destruct (negb (g_initialized s)); [done|].
  destruct (g_run_active s) eqn:Ha; [done|]. cbn [fst]. destruct Hinv.
  assert (r = None) as -> by (destruct r; [|done]; by rewrite inv_active0 in Ha).
  constructor; cbn -[MAX_TASKS]; try done; [by eapply clear_all_ok|unfold MAX_TASKS; lia].
Qed.

(** The two kinds of new slot. *)
Lemma new_slot_ok now i g text cb ctx period :
  gen_ok g -> 0 <= period <= MAX_FORWARD_TICK_DELTA ->
  slot_ok now false i (mkSlot Ready true false false false (make_task_id g i) g text cb ctx 0 0 0 1 0 0 0) /\
  (period ≠ 0 -> slot_ok now false i
     (mkSlot Waiting false false false false (make_task_id g i) g text cb ctx period (now ⊕ period) 0 0 0 0 0)).
Proof.
  intros Hg Hp. unfold MAX_FORWARD_TICK_DELTA in *.
  split; [|intros Hne]; left; constructor; cbn [state pending cancel_requested suspend_requested
    yield_requested id generation period_ticks next_release]; try done; unfold MAX_FORWARD_TICK_DELTA; try lia.
  intros _ _. assert ((now ⊕ period) ⊖ now = period) as ->; [|lia].
  unfold u64. rewrite Zminus_mod_idemp_l. replace (now + period - now) with period by lia.
  apply Z.mod_small. lia.
Qed.

Lemma create_inv r s nm cb ctx period has_id :
  is_u64 period -> inv r s -> inv r (fst (fst (create s nm cb ctx period has_id))).
Proof.
  intros Hu Hinv. unfold create. destruct (negb (g_initialized s)); [done|]. destruct (_ || _); [done|].
  destruct (Z.ltb_spec MAX_FORWARD_TICK_DELTA period) as [|Hp]; [done|].
  destruct (validate_name nm) as [|len]; [done|].
  destruct (find_index _ _) as [i|] eqn:Hf; [|done]. cbn [fst].
  apply find_index_Some in Hf as [(old & Hi & He%bool_decide_eq_true) _]. rewrite Hi.
  cbn [fmap option_fmap option_map default]. unfold is_u64 in Hu.
  pose proof (proj2 (inv_tasks _ _ Hinv) _ _ Hi) as Hold.
  pose proof (sched_next_generation_ok (generation old) (proj1 (slot_ok_gen _ _ _ _ Hold))) as Hg.
  assert (bool_decide (r = Some i) = false) as Hr.
  { destruct Hold as [Hl|(_ & _ & ?)]; [|done]. by destruct (ls_state _ _ _ _ Hl). }
  set (text := _ ++ _). set (g := next_generation _) in *.
  destruct (new_slot_ok (g_now s) i g text cb ctx period Hg) as [H0 H1]; [lia|].
  apply inv_bump. destruct (Z.eqb_spec period 0) as [->|Hne].
  - apply inv_bump, inv_store; [done|]. by rewrite Hr.
  - apply (mark_due_inv r (store s i _)), inv_store; [done|]. rewrite Hr. by apply H1.
Qed.

Lemma find_task_live r s task i slot :
  inv r s -> find_task s task = Some (i, slot) ->
  live_slot (g_now s) (bool_decide (r = Some i)) i slot /\ g_tasks s !! i = Some slot.
Proof.
  intros Hinv (Hi & Hne & _)%find_task_Some. split; [|done].
  apply slot_ok_live; [|done]. by apply (inv_tasks _ _ Hinv).
Qed.

Lemma live_not_running now run i slot : live_slot now run i slot -> state slot ≠ Running -> run = false.
Proof. intros Hl Hs. destruct run; [|done]. exfalso. by apply Hs, (ls_running _ _ _ _ Hl). Qed.

Lemma with_requests_ok now run i slot c u y :
  live_slot now run i slot -> state slot = Running -> slot_ok now run i (with_requests slot c u y).
Proof. intros [] Hr. left. by constructor. Qed.

Lemma sched_cancel_inv r s task : inv r s -> inv r (fst (cancel s task)).
Proof.
  intros Hinv. unfold cancel. destruct (negb _); [done|].
  destruct (find_task s task) as [[i slot]|] eqn:Hf; [|done].
  destruct (find_task_live _ _ _ _ _ Hinv Hf) as [Hl Hi].
  destruct (bool_decide (state slot = Running)) eqn:Hs.
  - destruct (_ || _); [done|]. destruct (cancel_requested slot); [done|].
    apply inv_store; [done|]. apply with_requests_ok; [done|]. by apply bool_decide_eq_true in Hs.
  - apply bool_decide_eq_false in Hs. apply inv_bump, inv_store; [done|].
    rewrite (live_not_running _ _ _ _ Hl Hs). apply empty_slot_ok.
    pose proof (ls_gen _ _ _ _ Hl). unfold gen_ok in *. lia.
Qed.

Lemma suspended_ok now run i slot :
  live_slot now run i slot -> state slot ≠ Running -> slot_ok now run i (with_state slot Suspended).
Proof.
  intros Hl Hs. pose proof (live_not_running _ _ _ _ Hl Hs) as ->. destruct Hl. left.
  constructor; cbn; try done. intros _. by apply ls_requests0.
Qed.

Lemma suspend_inv r s task : inv r s -> inv r (fst (suspend s task)).
Proof.
  intros Hinv. unfold suspend. destruct (negb _); [done|].
  destruct (find_task s task) as [[i slot]|] eqn:Hf; [|done].
  destruct (find_task_live _ _ _ _ _ Hinv Hf) as [Hl Hi].
  destruct (bool_decide (state slot = Suspended)); [done|].
  destruct (bool_decide (state slot = Running)) eqn:Hs.
  - destruct (_ || _); [done|]. destruct (suspend_requested slot); [done|].
    apply inv_store; [done|]. apply with_requests_ok; [done|]. by apply bool_decide_eq_true in Hs.
  - destruct (_ && _); [done|]. apply bool_decide_eq_false in Hs.
    apply inv_bump, inv_store; [done|]. by apply suspended_ok.
Qed.

(** A suspended task made ready or waiting again, with its deadline renewed. *)
Lemma resumed_ok now i slot b :
  live_slot now false i slot -> state slot = Suspended -> (b = false -> period_ticks slot ≠ 0) ->
  slot_ok now false i
    (with_state (with_pending (with_next_release slot (now ⊕ period_ticks slot)) b)
       (if b then Ready else Waiting)).
Proof.
  intros [] Hs Hb. left. constructor; cbn -[u64]; try done.
  - by destruct b.
  - intros Hp _. assert ((now ⊕ period_ticks slot) ⊖ now = period_ticks slot) as ->; [|lia].
    unfold u64. rewrite Zminus_mod_idemp_l.
    replace (now + period_ticks slot - now) with (period_ticks slot) by lia.
    apply Z.mod_small. unfold MAX_FORWARD_TICK_DELTA in *. lia.
  - by destruct b.
  - destruct b; [done|]. intros _. by split; [|apply Hb].
  - by destruct b.
  - intros _. apply ls_requests0. congruence.
Qed.

Lemma resume_inv r s task : inv r s -> inv r (fst (resume s task)).
Proof.
  intros Hinv. unfold resume. destruct (negb _); [done|].
  destruct (find_task s task) as [[i slot]|] eqn:Hf; [|done].
  destruct (find_task_live _ _ _ _ _ Hinv Hf) as [Hl Hi].
  destruct (bool_decide (state slot = Running)) eqn:Hr.
  - destruct (_ || _); [done|]. destruct (negb _); [done|].
    apply inv_store; [done|]. apply with_requests_ok; [done|]. by apply bool_decide_eq_true in Hr.
  - destruct (bool_decide (state slot = Suspended)) eqn:Hs; [|done].
    apply bool_decide_eq_false in Hr. apply bool_decide_eq_true in Hs.
    pose proof (live_not_running _ _ _ _ Hl Hr) as Erun. rewrite Erun in Hl.
    cbn [negb]. cbv zeta. set (n := with_next_release slot _).
    set (n' := if period_ticks n =? 0 then _ else _).
    assert (n' = with_pending n (pending n')) as En
      by (unfold n'; destruct slot; by destruct (period_ticks n =? 0)).
    assert (pending n' = false -> period_ticks slot ≠ 0) as Hpn.
    { unfold n'. destruct (Z.eqb_spec (period_ticks n) 0) as [|Hne]; [done|]. intros _. exact Hne. }
    pose proof (resumed_ok (g_now s) i slot (pending n') Hl Hs Hpn) as Hok. fold n in Hok.
    rewrite <- En in Hok. apply inv_bump. destruct (pending n') eqn:Ep.
    + apply inv_store; [done|]. by rewrite Erun.
    + apply (mark_due_inv r (store s i _)), inv_store; [done|]. by rewrite Erun.
Qed.

Lemma yield_inv r s : inv r s -> inv r (fst (yield s)).
Proof.
  intros Hinv. unfold yield. destruct (negb _); [done|].
  destruct (g_current_slot s) as [i|] eqn:Hc; [|done].
  destruct (g_tasks s !! i) as [slot|] eqn:Hi; [|done].
  destruct (bool_decide (state slot = Running)) eqn:Hs; [|done]. cbn [negb].
  destruct (cancel_requested slot); [done|]. destruct (yield_requested slot); [done|].
  apply inv_bump, inv_store; [done|]. apply bool_decide_eq_true in Hs.
  assert (live_slot (g_now s) (bool_decide (r = Some i)) i slot) as []
    by (apply slot_ok_live; [by apply (inv_tasks _ _ Hinv)|congruence]).
  left. by constructor.
Qed.

Lemma sched_call_inv r s op : op_ok op -> inv r s -> inv r (fst (call s op)).
Proof.
  intros Hop Hinv. destruct op; cbn [call].
  - by apply sched_initialize_inv.
  - by apply sched_reset_inv.
  - by apply create_inv.
  - by apply sched_cancel_inv.
  - by apply suspend_inv.
  - by apply resume_inv.
  - by apply tick_inv.
  - by apply yield_inv.
  - done.
Qed.

(** ** The dispatch loop *)

(** The loop's state: [r] is the slot claimed but not yet finished. *)
Record mid (r : option nat) (s : State) : Prop := {
  mid_tasks : tasks_ok r (g_now s) (g_tasks s);
  mid_cursor : (g_dispatch_cursor s < MAX_TASKS)%nat;
  mid_current : g_current_slot s = None;
  mid_active : g_run_active s = true;
  mid_init : g_initialized s = true;
}.

Lemma mid_store r s i slot :
  mid r s -> slot_ok (g_now s) (bool_decide (r = Some i)) i slot -> mid r (store s i slot).
Proof. intros [] Hs. constructor; try done. by apply tasks_insert. Qed.

Lemma mid_bump r s k n : mid r s -> mid r (bump s k n).
Proof. intros []. by constructor. Qed.

(** Which slot is claimed: the first ready one from the cursor on. *)
Definition ready_at (s : State) (i : nat) : Prop :=
  exists slot, g_tasks s !! i = Some slot /\ state slot = Ready.

Lemma claim_Some s s1 index :
  claim_next_ready s = Some (s1, index) ->
  exists offset, (offset < MAX_TASKS)%nat /\ index = ((g_dispatch_cursor s + offset) mod MAX_TASKS)%nat /\
    ready_at s index /\
    (forall o, (o < offset)%nat -> ~ ready_at s ((g_dispatch_cursor s + o) mod MAX_TASKS)%nat) /\
    s1 = with_cursor
      (with_tasks s (alter (fun slot => with_state (with_pending slot false) Running) index (g_tasks s)))
      ((index + 1) mod MAX_TASKS).
Proof.
  unfold claim_next_ready. destruct (find_index _ _) as [o|] eqn:Hf; [|done].
  pose proof (find_index_lt _ _ _ Hf) as Hlt. rewrite length_seq in Hlt.
  apply find_index_Some in Hf as [(x & Hx & Hr) Hbefore].
  rewrite lookup_seq_lt in Hx by done. injection Hx as <-. intros [= <- <-].
  exists o. split; [done|]. split; [done|]. split.
  - destruct (g_tasks s !! _) as [slot|] eqn:E; [|done]. exists slot.
    split; [done|]. by apply bool_decide_eq_true in Hr.
  - split; [|done]. intros o' Ho (slot & Hs & Hst). specialize (Hbefore o' o' Ho).
    rewrite lookup_seq_lt in Hbefore by lia. specialize (Hbefore eq_refl). rewrite Hs in Hbefore.
    unfold is_ready in Hbefore. by rewrite bool_decide_true in Hbefore.
Qed.

Lemma claim_None s :
  length (g_tasks s) = MAX_TASKS -> (g_dispatch_cursor s < MAX_TASKS)%nat ->
  claim_next_ready s = None -> forall i, ~ ready_at s i.
Proof.
  intros Hlen Hc. unfold claim_next_ready. destruct (find_index _ _) eqn:Hf; [done|]. intros _ i (slot & Hi & Hs).
  rewrite find_index_None in Hf. pose proof (lookup_lt_Some _ _ _ Hi) as Hlt. rewrite Hlen in Hlt.
  set (o := ((i + MAX_TASKS - g_dispatch_cursor s) mod MAX_TASKS)%nat).
  assert ((g_dispatch_cursor s + o) mod MAX_TASKS = i)%nat as Eo.
  { unfold o. rewrite Nat.Div0.add_mod_idemp_r.
    replace (g_dispatch_cursor s + (i + MAX_TASKS - g_dispatch_cursor s))%nat with (i + 1 * MAX_TASKS)%nat by lia.
    rewrite Nat.Div0.mod_add. apply Nat.mod_small. lia. }
  assert (o < MAX_TASKS)%nat as Ho by (apply Nat.mod_upper_bound; unfold MAX_TASKS; lia).
  specialize (Hf o o (lookup_seq_lt _ _ _ Ho)). simpl (0 + o)%nat in Hf.
  rewrite Eo, Hi in Hf. unfold is_ready in Hf. by rewrite bool_decide_true in Hf.
Qed.

Lemma tasks_change r r' now tasks i slot :
  tasks_ok r now tasks -> slot_ok now (bool_decide (r' = Some i)) i slot ->
  (forall j, j ≠ i -> bool_decide (r = Some j) = bool_decide (r' = Some j)) ->
  tasks_ok r' now (<[i := slot]> tasks).
Proof.
  intros [Hlen Hok] Hs Hr. split; [by rewrite length_insert|].
  intros j x [(<- & <- & _)|[Hj Hx]]%list_lookup_insert_Some; [done|]. rewrite <- Hr by done. by apply Hok.
Qed.

Lemma none_some_bool i j : j ≠ i -> bool_decide ((None : option nat) = Some j) = bool_decide (Some i = Some j).
Proof. intros. rewrite !bool_decide_false; congruence. Qed.

Lemma claim_mid s s1 index : mid None s -> claim_next_ready s = Some (s1, index) -> mid (Some index) s1.
Proof.
  intros [] Hcl. apply claim_Some in Hcl as (o & Ho & Eidx & (slot & Hi & Hs) & _ & ->).
  constructor; cbn -[Nat.modulo MAX_TASKS]; try done.
  - rewrite (alter_insert _ _ _ _ Hi).
    apply (tasks_change None); [done| |intros; by apply none_some_bool].
    rewrite bool_decide_true by done. left.
    pose proof (proj2 mid_tasks0 _ _ Hi) as Hok. apply slot_ok_live in Hok; [|congruence].
    destruct Hok. constructor; cbn; try done. intros Hp _. apply ls_deadline0; [done|congruence].
  - apply Nat.mod_upper_bound. unfold MAX_TASKS. lia.
Qed.

(** The fields that only [initialize], [reset] and [run_pending] change. *)
Definition control (s : State) : bool * bool * nat * option nat :=
  (g_initialized s, g_run_active s, g_dispatch_cursor s, g_current_slot s).

Lemma mark_due_control s i t : control (mark_due_releases s i t) = control s.
Proof. destruct (mark_due_spec s i t) as [_ []]. unfold control. congruence. Qed.

Lemma tick_control s t : control (fst (tick s t)) = control s.
Proof.
  unfold tick. destruct (negb _); [done|]. cbv zeta. destruct (_ <? _); [done|]. cbn [fst].
  unfold mark_all. destruct (mark_fold_spec (seq 0 MAX_TASKS) (bump (with_now s t) M_tick_calls 1) t)
    as ([] & _); [apply NoDup_seq|]. unfold control. rewrite sr_init0, sr_active0, sr_cursor0, sr_current0. done.
Qed.

Lemma create_control s nm cb ctx period b : control (fst (fst (create s nm cb ctx period b))) = control s.
Proof.
  unfold create. destruct (negb (g_initialized s)); [done|]. destruct (_ || _); [done|].
  destruct (_ <? _); [done|]. destruct (validate_name nm); [done|]. destruct (find_index _ _); [|done].
  cbn [fst]. destruct (period =? 0); [done|].
  match goal with |- control (bump ?x _ _) = _ => change (control (bump x M_tasks_created 1)) with (control x) end.
  by rewrite mark_due_control.
Qed.

Lemma resume_control s task : control (fst (resume s task)) = control s.
Proof.
  unfold resume. destruct (negb (g_initialized s)); [done|]. destruct (find_task s task) as [[i slot]|]; [|done].
  destruct (bool_decide (state slot = Running)); [by repeat case_match|].
  destruct (negb _); [done|]. cbn [fst].
  match goal with |- control (bump ?x ?k ?n) = _ => change (control (bump x k n)) with (control x) end.
  destruct (pending _); [done|]. by rewrite mark_due_control.
Qed.

Lemma call_control s op :
  g_run_active s = true -> g_initialized s = true -> control (fst (call s op)) = control s.
Proof.
  intros Ha Hi. destruct op; cbn [call].
  - unfold initialize. by rewrite Hi.
  - unfold reset. by rewrite Hi, Ha.
  - apply create_control.
  - unfold cancel. by repeat case_match.
  - unfold suspend. by repeat case_match.
  - apply resume_control.
  - apply tick_control.
  - unfold yield. by repeat case_match.
  - done.
Qed.

Lemma call_active s op : g_run_active s = false -> g_run_active (fst (call s op)) = false.
Proof.
  intros Ha. destruct op; cbn [call].
  - unfold initialize. by case_match.
  - unfold reset. by repeat case_match.
  - pose proof (create_control s nm cb ctx period has_id) as E. unfold control in E. congruence.
  - unfold cancel. by repeat case_match.
  - unfold suspend. by repeat case_match.
  - pose proof (resume_control s task) as E. unfold control in E. congruence.
  - pose proof (tick_control s current) as E. unfold control in E. congruence.
  - unfold yield. by repeat case_match.
  - done.
Qed.

Section dispatch.
Context (script : Z -> Z -> State -> list Op).
Hypothesis script_ok : forall cb ctx s, Forall op_ok (script cb ctx s).

Lemma run_calls_inv r ops : forall s, Forall op_ok ops -> inv r s -> inv r (run_calls s ops).
Proof.
  induction ops as [|op ops IH]; intros s Hf Hinv; cbn; [done|].
  apply Forall_cons in Hf as [Hop Hf]. apply IH; [done|]. by apply sched_call_inv.
Qed.

(** The state in which the callback of slot [i] starts. *)
Definition callback_start (s : State) (i : nat) (slot : TaskSlot) : State :=
  with_current
    (bump (store s i (with_run (with_requests slot false false false)
                        (saturating_add (run_count slot) 1) (g_now s))) M_callbacks_executed 1)
    (Some i).

Lemma callback_start_inv s i slot :
  mid (Some i) s -> g_tasks s !! i = Some slot -> inv (Some i) (callback_start s i slot).
Proof.
  intros [] Hi. constructor; cbn -[saturating_add]; try done. apply tasks_insert; [done|].
  pose proof (proj2 mid_tasks0 _ _ Hi) as Hok. rewrite bool_decide_true in * by done.
  destruct Hok as [[]|(_ & _ & ?)]; [|done]. left.
  assert (state slot = Running) as Hr by (by apply ls_running0). by constructor.
Qed.

Lemma begin_dispatch_eq s i slot :
  g_tasks s !! i = Some slot ->
  begin_dispatch script s i =
  with_current (if callback slot =? 0 then callback_start s i slot
                else run_calls (callback_start s i slot)
                       (script (callback slot) (context slot) (callback_start s i slot))) None.
Proof. intros Hi. unfold begin_dispatch. by rewrite Hi. Qed.

Lemma begin_dispatch_mid s i : (i < MAX_TASKS)%nat -> mid (Some i) s -> mid (Some i) (begin_dispatch script s i).
Proof.
  intros Hlt Hm. destruct (lookup_lt_is_Some_2 (g_tasks s) i) as [slot Hi];
    [rewrite (proj1 (mid_tasks _ _ Hm)); done|]. rewrite (begin_dispatch_eq _ _ _ Hi).
  pose proof (callback_start_inv s i slot Hm Hi) as Hs.
  assert (inv (Some i) (if callback slot =? 0 then callback_start s i slot
    else run_calls (callback_start s i slot)
           (script (callback slot) (context slot) (callback_start s i slot)))) as [].
  { destruct (callback slot =? 0); [done|]. apply run_calls_inv; [apply script_ok|done]. }
  constructor; cbn; try done; auto.
Qed.

Lemma mid_finish s i slot :
  mid (Some i) s -> slot_ok (g_now s) false i slot -> mid None (store s i slot).
Proof.
  intros [] Hs. constructor; try done. apply (tasks_change (Some i)); [done| |].
  - by rewrite bool_decide_false.
  - intros j Hj. symmetry. by apply none_some_bool.
Qed.

(** The slot after its callback, with what the task asked for carried out. *)
Lemma end_dispatch_mid s i : (i < MAX_TASKS)%nat -> mid (Some i) s -> mid None (end_dispatch s i).
Proof.
  intros Hlt Hm. unfold end_dispatch. destruct (lookup_lt_is_Some_2 (g_tasks s) i) as [slot Hi];
    [rewrite (proj1 (mid_tasks _ _ Hm)); done|]. rewrite Hi.
  pose proof (proj2 (mid_tasks _ _ Hm) _ _ Hi) as Hok. rewrite bool_decide_true in Hok by done.
  destruct Hok as [Hl|(_ & _ & ?)]; [|done].
  assert (state slot = Running) as Hr by (by apply (ls_running _ _ _ _ Hl)).
  assert (forall g, g = generation slot -> slot_ok (g_now s) false i (empty_slot g)) as He.
  { intros g ->. apply empty_slot_ok. pose proof (ls_gen _ _ _ _ Hl). unfold gen_ok in *. lia. }
  cbv zeta. destruct (cancel_requested slot).
  { unfold retire_slot. apply mid_bump, mid_finish; [done|]. by apply He. }
  set (slot1 := if yield_requested slot then _ else _).
  assert (forall st, st ≠ Running -> st ≠ Empty -> (st = Ready -> pending slot1 = true) ->
    (st = Waiting -> pending slot1 = false /\ period_ticks slot1 ≠ 0) ->
    slot_ok (g_now s) false i (with_state slot1 st)) as Hst.
  { intros st H1 H2 H3 H4. left. destruct Hl.
    assert (period_ticks slot ≠ 0 -> 1 <= next_release slot ⊖ g_now s <= period_ticks slot) as Hd
      by (intros; apply ls_deadline0; congruence).
    constructor; unfold slot1 in *; destruct (yield_requested slot); cbn in *; try done; by auto. }
  destruct (suspend_requested slot); [apply mid_bump, mid_finish; [done|]; by apply Hst|].
  destruct (Z.eqb_spec (period_ticks slot1) 0) as [Hp|Hp].
  - destruct (pending slot1) eqn:Ep; cbn [andb negb].
    + apply mid_finish; [done|]. apply Hst; by rewrite ?Ep.
    + unfold retire_slot. apply mid_bump, mid_finish; [done|]. apply He.
      unfold slot1. by destruct (yield_requested slot).
  - cbn [andb]. apply mid_finish; [done|]. by destruct (pending slot1) eqn:Ep; apply Hst.
Qed.

(** A whole iteration. *)
Lemma dispatch_mid s s1 i :
  mid None s -> claim_next_ready s = Some (s1, i) ->
  mid None (end_dispatch (begin_dispatch script s1 i) i).
Proof.
  intros Hm Hc. pose proof (claim_mid _ _ _ Hm Hc) as Hm1.
  apply claim_Some in Hc as (o & Ho & -> & _).
  assert ((g_dispatch_cursor s + o) mod MAX_TASKS < MAX_TASKS)%nat
    by (apply Nat.mod_upper_bound; unfold MAX_TASKS; lia).
  by apply end_dispatch_mid, begin_dispatch_mid.
Qed.

Lemma run_loop_spec budget : forall s s' l,
  mid None s -> run_loop script budget s = (s', l) ->
  mid None s' /\ (length l <= budget)%nat /\
  ((length l < budget)%nat -> forall i, ~ ready_at s' i).
Proof.
  induction budget as [|budget IH]; intros s s' l Hm H; cbn [run_loop] in H.
  - injection H as <- <-. split; [done|]. cbn. split; lia.
  - destruct (claim_next_ready s) as [[s1 i]|] eqn:Hc.
    + destruct (run_loop script budget _) as [s2 l2] eqn:Hr. injection H as <- <-.
      destruct (IH _ _ _ (dispatch_mid _ _ _ Hm Hc) Hr) as (? & ? & Hn). cbn [length].
      split; [done|]. split; [lia|]. intros. apply Hn. lia.
    + injection H as <- <-. split; [done|]. cbn. split; [lia|]. intros _.
      apply claim_None; [apply Hm..|done].
Qed.

Lemma count_ready_zero s : count_ready_tasks s = 0%nat <-> forall i, ~ ready_at s i.
Proof.
  unfold count_ready_tasks. rewrite length_zero_iff_nil. split.
  - intros E i (slot & Hi & Hs).
    assert (List.In slot (List.filter is_ready (g_tasks s))) as Hin; [|by rewrite E in Hin].
    apply filter_In. split; [apply list_elem_of_In; by eapply list_elem_of_lookup_2|].
    unfold is_ready. by rewrite bool_decide_true.
  - intros H. destruct (List.filter is_ready (g_tasks s)) as [|x l] eqn:E; [done|exfalso].
    assert (List.In x (List.filter is_ready (g_tasks s))) as Hin by (rewrite E; by left).
    apply filter_In in Hin as [Hin Hr]. apply list_elem_of_In, list_elem_of_lookup in Hin as [i Hi].
    apply (H i). exists x. split; [done|]. by apply bool_decide_eq_true in Hr.
Qed.

Lemma wf_mid s : wf s -> g_initialized s = true -> mid None (with_run_active s true).
Proof. intros [[] _] Hi. by constructor. Qed.

Lemma run_pending_cases s budget s' st result :
  wf s -> run_pending script s budget = (s', st, result) ->
  wf s' /\
  ((g_initialized s = false /\ st = NotInitialized /\ s' = s /\ result = mkResult 0 0) \/
   exists s1 l, g_initialized s = true /\ mid None s1 /\
     run_loop script budget (with_run_active s true) = (s1, l) /\
     g_tasks s' = g_tasks s1 /\
     result = mkResult (length l) (count_ready_tasks s1) /\
     st = if (count_ready_tasks s1 =? 0)%nat then Ok else BudgetExhausted).
Proof.
  intros Hwf H. unfold run_pending in H. destruct (g_initialized s) eqn:Hi; cbn [negb] in H.
  2:{ injection H as <- <- <-. split; [done|]. by left. }
  destruct (g_run_active s) eqn:Ha; [by destruct Hwf; congruence|].
  destruct (run_loop script budget _) as [s1 l] eqn:Hr.
  destruct (run_loop_spec _ _ _ _ (wf_mid s Hwf Hi) Hr) as (Hm & Hle & Hn).
  assert (wf (with_run_active s1 false)) as Hw by (destruct Hm; split; [by constructor|done]).
  cbv zeta in H. destruct (count_ready_tasks s1 =? 0)%nat eqn:Ec; cbn [negb] in H; injection H as <- <- <-.
  - split; [done|]. right. exists s1, l. by rewrite Ec.
  - split; [destruct Hw; split; [by apply inv_bump|done]|]. right. exists s1, l. by rewrite Ec.
Qed.

Lemma sched_exec_wf s op : op_ok op -> wf s -> wf (exec script s op).
Proof.
  intros Hop Hwf. destruct op; try (destruct Hwf as [Hinv Ha]; split; [by apply (sched_call_inv None s)|by apply (call_active s)]).
  cbn [exec]. destruct (run_pending script s budget) as [[s' st] res] eqn:E.
  by destruct (run_pending_cases _ _ _ _ _ Hwf E) as [? _].
Qed.
End dispatch.

(** ** A ready task stays ready until it is dispatched *)

Definition ready_task (s : State) (j : nat) (t : Z) : Prop :=
  exists slot, g_tasks s !! j = Some slot /\ state slot = Ready /\ id slot = t.

Lemma ready_store s i slot j t : i ≠ j -> ready_task s j t -> ready_task (store s i slot) j t.
Proof. intros Hne (x & Hx & Hr). exists x. split; [|done]. simpl. by rewrite list_lookup_insert_ne. Qed.

Lemma mark_slot_ready t slot :
  state slot = Ready -> state (mark_slot t slot) = Ready /\ id (mark_slot t slot) = id slot.
Proof.
  intros Hs. unfold mark_slot. rewrite !(bool_decide_false (state slot = _)) by congruence. cbn [orb].
  by repeat case_match.
Qed.

Lemma ready_mark s i now j t : ready_task s j t -> ready_task (mark_due_releases s i now) j t.
Proof.
  intros (x & Hx & Hr & Ht). destruct (mark_due_spec s i now) as [Et _]. unfold ready_task. rewrite Et.
  destruct (decide (i = j)) as [->|Hne].
  - exists (mark_slot now x). rewrite list_lookup_alter_eq, Hx.
    destruct (mark_slot_ready now x Hr). split; [done|]. split; [done|congruence].
  - exists x. by rewrite list_lookup_alter_ne.
Qed.

Lemma ready_tick s now j t :
  length (g_tasks s) = MAX_TASKS -> ready_task s j t -> ready_task (fst (tick s now)) j t.
Proof.
  intros Hlen Hr. destruct (g_initialized s) eqn:Hi; [|unfold tick; rewrite Hi; done].
  destruct (Z.leb_spec (now ⊖ g_now s) MAX_FORWARD_TICK_DELTA) as [Hd|Hd].
  - destruct (tick_spec s now Hi Hd Hlen) as (_ & _ & _ & _ & _ & _ & Et).
    destruct Hr as (x & Hx & Hs & Ht). exists (mark_slot now x). rewrite Et, list_lookup_fmap, Hx.
    destruct (mark_slot_ready now x Hs). split; [done|]. split; [done|congruence].
  - unfold tick. rewrite Hi. cbn [negb]. cbv zeta. replace (_ <? _) with true by lia. exact Hr.
Qed.

Lemma ready_create s nm cb ctx period b j t :
  ready_task s j t -> ready_task (fst (fst (create s nm cb ctx period b))) j t.
Proof.
  intros Hr. unfold create. destruct (negb (g_initialized s)); [done|]. destruct (_ || _); [done|].
  destruct (_ <? _); [done|]. destruct (validate_name nm); [done|].
  destruct (find_index _ _) as [i|] eqn:Hf; [|done]. cbn [fst].
  apply find_index_Some in Hf as [(old & Hi & He%bool_decide_eq_true) _].
  assert (i ≠ j) as Hne by (intros ->; destruct Hr as (x & Hx & Hs & _); congruence).
  destruct (period =? 0).
  - exact (ready_store s i _ j t Hne Hr).
  - apply (ready_mark (store s i _) i (g_now s) j t). by apply ready_store.
Qed.

(** Only cancelling or suspending the task itself can take it off the ready set
    before it is dispatched. *)
Lemma call_keeps_ready r s op j t :
  inv r s -> g_run_active s = true -> op ≠ OpCancel t -> op ≠ OpSuspend t -> ready_task s j t ->
  ready_task (fst (call s op)) j t.
Proof.
  intros Hinv Ha Hnc Hns Hr. pose proof (inv_init _ _ Hinv Ha) as Hi.
  assert (forall task i slot, find_task s task = Some (i, slot) -> task ≠ t -> i ≠ j) as Hother.
  { intros task i slot (Hl & _ & Hid)%find_task_Some Hne ->. destruct Hr as (x & Hx & _ & Ht). congruence. }
  destruct op; cbn [call].
  - unfold initialize. by rewrite Hi.
  - unfold reset. by rewrite Hi, Ha.
  - by apply ready_create.
  - unfold cancel. destruct (negb _); [done|]. destruct (find_task s task) as [[i slot]|] eqn:Hf; [|done].
    assert (i ≠ j) by (eapply Hother; [done|congruence]).
    destruct (bool_decide _); [destruct (_ || _); [done|]; destruct (cancel_requested slot); [done|]|];
      by apply ready_store.
  - unfold suspend. destruct (negb _); [done|]. destruct (find_task s task) as [[i slot]|] eqn:Hf; [|done].
    assert (i ≠ j) by (eapply Hother; [done|congruence]).
    destruct (bool_decide _); [done|].
    destruct (bool_decide _); [destruct (_ || _); [done|]; destruct (suspend_requested slot); [done|]|
      destruct (_ && _); [done|]]; by apply ready_store.
  - unfold resume. destruct (negb _); [done|]. destruct (find_task s task) as [[i slot]|] eqn:Hf; [|done].
    destruct (decide (i = j)) as [->|Hne].
    + apply find_task_Some in Hf as (Hl & _). pose proof Hr as (x & Hx & Hs & _).
      assert (x = slot) as -> by congruence. rewrite !(bool_decide_false (state slot = _)) by congruence. done.
    + destruct (bool_decide _); [destruct (_ || _); [done|]; destruct (negb _); [done|]; by apply ready_store|].
      destruct (negb _); [done|]. cbn [fst]. destruct (pending _).
      * exact (ready_store s i _ j t Hne Hr).
      * apply (ready_mark (store s i _) i (g_now s) j t). by apply ready_store.
  - apply ready_tick; [apply (inv_tasks _ _ Hinv)|done].
  - unfold yield. destruct (negb _); [done|]. destruct (g_current_slot s) as [i|] eqn:Hc; [|done].
    destruct (g_tasks s !! i) as [slot|] eqn:Hl; [|done].
    destruct (bool_decide (state slot = Running)) eqn:Hs; [|done]. apply bool_decide_eq_true in Hs. cbn [negb].
    destruct (cancel_requested slot); [done|]. destruct (yield_requested slot); [done|].
    apply (ready_store s i); [|done]. intros ->. destruct Hr as (x & Hx & Hrd & _). congruence.
  - done.
Qed.

Section fairness.
Context (script : Z -> Z -> State -> list Op).
Hypothesis script_ok : forall cb ctx s, Forall op_ok (script cb ctx s).
Context (j : nat) (t : Z).
Hypothesis leave_alone : forall cb ctx s op, op ∈ script cb ctx s -> op ≠ OpCancel t /\ op ≠ OpSuspend t.

Lemma run_calls_keeps r ops : forall s,
  Forall op_ok ops -> (forall op, op ∈ ops -> op ≠ OpCancel t /\ op ≠ OpSuspend t) ->
  inv r s -> g_run_active s = true -> ready_task s j t ->
  ready_task (run_calls s ops) j t /\ control (run_calls s ops) = control s.
Proof.
  induction ops as [|op ops IH]; intros s Hf Hl Hinv Ha Hr; cbn; [done|].
  apply Forall_cons in Hf as [Hop Hf]. destruct (Hl op) as [H1 H2]; [constructor|].
  pose proof (call_control s op Ha (inv_init _ _ Hinv Ha)) as Hc.
  destruct (IH (fst (call s op))) as [? Hc'].
  - done.
  - intros op' Hop'. apply Hl. by constructor.
  - by apply sched_call_inv.
  - unfold control in Hc. congruence.
  - by eapply call_keeps_ready.
  - split; [done|]. unfold run_calls in Hc'. congruence.
Qed.

Lemma callback_start_control s i slot :
  g_current_slot s = None ->
  control (with_current (callback_start s i slot) None) = control s.
Proof. intros Hc. unfold control, callback_start. cbn. by rewrite Hc. Qed.

(** One iteration that dispatches another slot leaves the ready task ready and
    moves the cursor just past the dispatched slot. *)
Lemma dispatch_keeps s i :
  (i < MAX_TASKS)%nat -> mid (Some i) s -> i ≠ j -> ready_task s j t ->
  ready_task (end_dispatch (begin_dispatch script s i) i) j t /\
  g_dispatch_cursor (end_dispatch (begin_dispatch script s i) i) = g_dispatch_cursor s.
Proof.
  intros Hlt Hm Hne Hr. destruct (lookup_lt_is_Some_2 (g_tasks s) i) as [slot Hi];
    [rewrite (proj1 (mid_tasks _ _ Hm)); done|]. rewrite (begin_dispatch_eq _ _ _ _ Hi).
  pose proof (callback_start_inv s i slot Hm Hi) as Hs.
  set (s1 := if callback slot =? 0 then _ else _).
  assert (ready_task s1 j t /\ control s1 = control (callback_start s i slot)) as [Hr1 Hc1].
  { assert (ready_task (callback_start s i slot) j t) as Hr0 by (by apply (ready_store s i)).
    unfold s1. destruct (callback slot =? 0); [done|]. apply (run_calls_keeps (Some i)); try done.
    - intros op Hop. by eapply leave_alone.
    - by apply (inv_active _ _ Hs). }
  assert (g_dispatch_cursor s1 = g_dispatch_cursor s) as Hc2 by (unfold control in Hc1; simpl in Hc1; congruence).
  unfold end_dispatch. destruct (g_tasks (with_current s1 None) !! i) as [sl|]; [|done].
  cbv zeta. unfold retire_slot.
  destruct (cancel_requested sl); [split; [by apply (ready_store s1 i)|done]|].
  destruct (suspend_requested sl); [split; [by apply (ready_store s1 i)|done]|].
  destruct (_ && _); split; done || by apply (ready_store s1 i).
Qed.

(** How far the cursor is from the slot. *)
Definition dist (cursor : nat) : nat := ((j + MAX_TASKS - cursor) mod MAX_TASKS)%nat.

Lemma dist_index cursor :
  (cursor < MAX_TASKS)%nat -> (j < MAX_TASKS)%nat -> ((cursor + dist cursor) mod MAX_TASKS)%nat = j.
Proof.
  intros Hc Hj. unfold dist. rewrite Nat.Div0.add_mod_idemp_r.
  replace (cursor + (j + MAX_TASKS - cursor))%nat with (j + 1 * MAX_TASKS)%nat by lia.
  rewrite Nat.Div0.mod_add. by apply Nat.mod_small.
Qed.

Lemma dist_step cursor o :
  (cursor < MAX_TASKS)%nat -> (j < MAX_TASKS)%nat -> (o < dist cursor)%nat ->
  (dist ((((cursor + o) mod MAX_TASKS) + 1) mod MAX_TASKS) < dist cursor)%nat.
Proof.
  intros Hc Hj. rewrite Nat.Div0.add_mod_idemp_l.
  assert (forall n, (n < 2 * MAX_TASKS)%nat ->
    (n mod MAX_TASKS = if decide (n < MAX_TASKS) then n else n - MAX_TASKS)%nat) as Hmod.
  { intros n Hn. case_decide; [by apply Nat.mod_small|].
    replace n with ((n - MAX_TASKS) + 1 * MAX_TASKS)%nat at 1 by lia.
    rewrite Nat.Div0.mod_add. apply Nat.mod_small. lia. }
  assert (dist cursor < MAX_TASKS)%nat by (apply Nat.mod_upper_bound; unfold MAX_TASKS; lia).
  intros Ho. rewrite (Hmod (cursor + o + 1)%nat) by lia. unfold dist in *.
  rewrite (Hmod (j + MAX_TASKS - cursor)%nat) in * by lia. revert Ho.
  repeat case_decide; intros Ho; rewrite Hmod by lia; repeat case_decide; lia.
Qed.

Lemma ready_dispatched budget : forall s,
  mid None s -> ready_task s j t -> (dist (g_dispatch_cursor s) < budget)%nat ->
  j ∈ snd (run_loop script budget s).
Proof.
  induction budget as [|budget IH]; intros s Hm Hr Hd; [lia|]. cbn [run_loop].
  assert (j < MAX_TASKS)%nat as Hj.
  { destruct Hr as (x & Hx & _). apply lookup_lt_Some in Hx. by rewrite (proj1 (mid_tasks _ _ Hm)) in Hx. }
  assert (ready_at s j) as Hra by (destruct Hr as (x & Hx & ? & _); by exists x).
  destruct (claim_next_ready s) as [[s1 i]|] eqn:Hc.
  2:{ exfalso. by apply (claim_None s (proj1 (mid_tasks _ _ Hm)) (mid_cursor _ _ Hm) Hc j). }
  pose proof (claim_mid _ _ _ Hm Hc) as Hm1. pose proof (dispatch_mid script script_ok _ _ _ Hm Hc) as Hm2.
  apply claim_Some in Hc as (o & Ho & Ei & _ & Hfirst & Es1).
  destruct (run_loop script budget _) as [s3 l] eqn:Hrun. cbn [snd].
  destruct (decide (i = j)) as [->|Hne]; [constructor|]. right.
  assert (o < dist (g_dispatch_cursor s))%nat as Hod.
  { destruct (Nat.lt_trichotomy o (dist (g_dispatch_cursor s))) as [|[->|Hgt]]; [done| |].
    - rewrite (dist_index _ (mid_cursor _ _ Hm) Hj) in Ei. done.
    - exfalso. apply (Hfirst _ Hgt). by rewrite (dist_index _ (mid_cursor _ _ Hm) Hj). }
  assert (i < MAX_TASKS)%nat as Hi by (rewrite Ei; apply Nat.mod_upper_bound; unfold MAX_TASKS; lia).
  destruct (dispatch_keeps s1 i Hi Hm1 Hne) as [Hr2 Hc2].
  { rewrite Es1. destruct Hr as (x & Hx & Hrest). exists x. split; [|done]. cbn -[MAX_TASKS].
    by rewrite list_lookup_alter_ne. }
  replace l with (snd (run_loop script budget (end_dispatch (begin_dispatch script s1 i) i))) by (by rewrite Hrun).
  apply IH; [done..|]. rewrite Hc2. pose proof (dist_step _ o (mid_cursor _ _ Hm) Hj Hod) as Hlt.
  rewrite Es1. cbn [with_cursor g_dispatch_cursor]. rewrite Ei. lia.
Qed.

End fairness.

(** ** Properties *)

Lemma sched_boot_wf : wf boot_state.
Proof.
  split; [|done]. constructor; try done.
  - split; [done|]. intros i slot Hi.
    change (replicate MAX_TASKS (empty_slot 0) !! i = Some slot) in Hi.
    apply lookup_replicate in Hi as [-> _]. rewrite bool_decide_false by done. apply empty_slot_ok.
    rewrite sched_max_generation. lia.
  - cbn. unfold MAX_TASKS. lia.
Qed.

Lemma sched_run_wf script ops s :
  (forall cb ctx s, Forall op_ok (script cb ctx s)) -> Forall op_ok ops -> wf s ->
  wf (fold_left (exec script) ops s).
Proof.
  intros Hs. revert s; induction ops as [|op ops IH]; intros s Hf Hwf; cbn; [done|].
  apply Forall_cons in Hf as [Hop Hf]. apply IH; [done|]. by apply sched_exec_wf.
Qed.

(** Callback 1 yields once; callback 2 cancels itself through [current_task];
    during every callback a timer interrupt moves time to [g_now + 1]. *)
Definition example_script (cb ctx : Z) (s : State) : list Op :=
  OpTick (g_now s ⊕ 1) :: (if cb =? 1 then [OpYield] else [OpCancel (current_task s)]).

(** Time starts two ticks before it wraps; a task of period 3, a one-shot task. *)
Definition example_ops : list Op :=
  [OpInitialize (UINT64_MAX - 1); OpCreate (Some [97]) 1 0 3 true; OpCreate (Some [98]) 2 0 0 true;
   OpTick (UINT64_MAX ⊕ 2)].

Definition example_state : State := fold_left (exec example_script) example_ops boot_state.

Lemma example_script_ok cb ctx s : Forall op_ok (example_script cb ctx s).
Proof. unfold example_script. destruct (cb =? 1); repeat constructor. Qed.

Lemma sched_example_ops_ok : Forall op_ok example_ops.
Proof. repeat (apply Forall_cons; split; [simpl; done || word_lia|]). by apply Forall_nil. Qed.

Lemma sched_example_wf : wf example_state.
Proof. apply sched_run_wf; [exact example_script_ok|exact sched_example_ops_ok|exact sched_boot_wf]. Qed.

(** Whatever calls are made, by the kernel between dispatches or by the task
    callbacks and timer interrupts during them, the scheduler is left with: no
    slot running and no current task, every task in use known by an id that
    encodes its slot and generation, every ready task with a pending release
    and every waiting task without one (no wake-up is lost), no one-shot task
    waiting forever, and the next release of every periodic task that is not
    suspended between 1 and [period] ticks ahead in wrap-around time. *)
Theorem scheduler_invariant script ops :
  (forall cb ctx s, Forall op_ok (script cb ctx s)) -> Forall op_ok ops ->
  wf (fold_left (exec script) ops boot_state).
Proof. intros Hs Ho. by apply sched_run_wf, sched_boot_wf. Qed.

Lemma scheduler_invariant_witness :
  wf (fold_left (exec example_script) (example_ops ++ [OpRunPending 5]) boot_state) /\
  count_ready_tasks (fold_left (exec example_script) (example_ops ++ [OpRunPending 5]) boot_state) = 1%nat.
Proof.
  split.
  - apply scheduler_invariant; [exact example_script_ok|].
    apply Forall_app. split; [exact sched_example_ops_ok|]. repeat constructor.
  - vm_compute. reflexivity.
Defined.

(** Periodic release: a [tick] to a time at most 2^63 - 1 ticks ahead
    releases a periodic task that is not suspended exactly as often as its
    deadlines fall into the elapsed interval, even when the clock wraps: with
    the deadline [d] ticks ahead and [delta] ticks elapsed, nothing changes when
    [delta < d]; otherwise the release counter grows (saturating) by
    [(delta - d) / period + 1], the task is pending and no longer waiting, and
    the new deadline is 1 to [period] ticks ahead.  A tick that would move time
    backwards is rejected and changes no task. *)
Theorem tick_releases s current i slot :
  wf s -> g_initialized s = true -> g_tasks s !! i = Some slot ->
  state slot ≠ Empty -> state slot ≠ Suspended -> period_ticks slot ≠ 0 ->
  let s' := fst (tick s current) in
  let d := next_release slot ⊖ g_now s in
  let delta := current ⊖ g_now s in
  if MAX_FORWARD_TICK_DELTA <? delta then g_tasks s' = g_tasks s /\ g_now s' = g_now s
  else g_now s' = current /\
    exists slot', g_tasks s' !! i = Some slot' /\
    (delta < d -> slot' = slot) /\
    (d <= delta ->
       release_count slot' = saturating_add (release_count slot) ((delta - d) / period_ticks slot + 1) /\
       pending slot' = true /\ state slot' ≠ Waiting /\ id slot' = id slot /\
       1 <= next_release slot' ⊖ current <= period_ticks slot).
Proof.
  intros [Hinv Ha] Hinit Hi He Hs Hp s' d delta.
  destruct (Z.ltb_spec MAX_FORWARD_TICK_DELTA delta) as [Hlt|Hle].
  { unfold s', tick. rewrite Hinit. cbn [negb]. cbv zeta. fold delta.
    replace (MAX_FORWARD_TICK_DELTA <? delta) with true by lia. done. }
  pose proof (inv_tasks _ _ Hinv) as [Hlen Hok].
  destruct (tick_spec s current Hinit Hle Hlen) as (_ & Hn & _ & _ & _ & _ & Ht). fold s' in Hn, Ht.
  split; [done|]. exists (mark_slot current slot). rewrite Ht, list_lookup_fmap, Hi. split; [done|].
  pose proof (slot_ok_live _ _ _ _ (Hok _ _ Hi) He) as Hl.
  pose proof (ls_period _ _ _ _ Hl) as Hper. pose proof (ls_deadline _ _ _ _ Hl Hp Hs) as Hdl.
  destruct (release_arith (g_now s) current (next_release slot) (period_ticks slot)) as (Hreach & _ & Hyes);
    [lia|done..|]. fold d delta in Hreach, Hyes. unfold mark_slot.
  rewrite !(bool_decide_false (state slot = _)) by done. cbn [orb].
  replace (period_ticks slot =? 0) with false by lia. split.
  - intros Hd. destruct (time_reached current (next_release slot)); [|done].
    pose proof (proj1 Hreach eq_refl). lia.
  - intros Hd. rewrite (proj2 Hreach Hd). cbn [negb]. cbv zeta. destruct (Hyes Hd) as (Hc & Hnext & Hb).
    rewrite Hc in *. destruct (bool_decide (state slot = Waiting)) eqn:Hw; cbn -[u64 saturating_add].
    + rewrite Hnext. done.
    + apply bool_decide_eq_false in Hw. rewrite Hnext. done.
Qed.

Lemma tick_releases_witness :
  exists slot', g_tasks (fst (tick example_state 9)) !! 0%nat = Some slot' /\ pending slot' = true.
Proof.
  pose (slot := nth 0 (g_tasks example_state) (empty_slot 0)).
  assert (g_initialized example_state = true) as H1 by (vm_compute; reflexivity).
  assert (g_tasks example_state !! 0%nat = Some slot) as H2 by (vm_compute; reflexivity).
  assert (state slot ≠ Empty) as H3 by (vm_compute; discriminate).
  assert (state slot ≠ Suspended) as H4 by (vm_compute; discriminate).
  assert (period_ticks slot ≠ 0) as H5 by (vm_compute; discriminate).
  assert ((MAX_FORWARD_TICK_DELTA <? (9 ⊖ g_now example_state)) = false) as H6 by (vm_compute; reflexivity).
  assert (next_release slot ⊖ g_now example_state <= 9 ⊖ g_now example_state) as H7
    by (vm_compute; discriminate).
  pose proof (tick_releases example_state 9 0 slot sched_example_wf H1 H2 H3 H4 H5) as H.
  cbv zeta in H. rewrite H6 in H. destruct H as (_ & slot' & Hl & _ & H).
  exists slot'. split; [exact Hl|]. exact (proj1 (proj2 (H H7))).
Defined.

(** [run_pending] always returns, after at most [budget] callbacks; it
    reports BudgetExhausted exactly when ready tasks are left, which happens
    only when the whole budget was used, and [ready_remaining] is their number;
    a call from inside a callback is refused. *)
Theorem run_pending_result script s budget s' st result :
  (forall cb ctx s, Forall op_ok (script cb ctx s)) -> wf s -> g_initialized s = true ->
  run_pending script s budget = (s', st, result) ->
  (executed result <= budget)%nat /\ ready_remaining result = count_ready_tasks s' /\
  (st = Ok <-> forall i, ~ ready_at s' i) /\
  (st ≠ Ok -> st = BudgetExhausted /\ executed result = budget) /\
  run_pending script (with_run_active s true) budget = (with_run_active s true, ReentrantCall, mkResult 0 0).
Proof.
  intros Hs Hwf Hi H.
  destruct (run_pending_cases script Hs _ _ _ _ _ Hwf H) as [_ [(? & _)|(s1 & l & _ & Hm & Hr & Ht & -> & ->)]];
    [congruence|].
  destruct (run_loop_spec script Hs _ _ _ _ (wf_mid s Hwf Hi) Hr) as (_ & Hle & Hn).
  assert (count_ready_tasks s' = count_ready_tasks s1) as Ec by (unfold count_ready_tasks; by rewrite Ht).
  assert ((forall i, ~ ready_at s' i) <-> forall i, ~ ready_at s1 i) as Er by (unfold ready_at; by rewrite Ht).
  cbn [executed ready_remaining]. split; [done|]. split; [done|]. rewrite Er, <- count_ready_zero.
  split; [|split].
  - destruct (Nat.eqb_spec (count_ready_tasks s1) 0); split; done || lia.
  - intros Hne. destruct (Nat.eqb_spec (count_ready_tasks s1) 0) as [|Hc]; [done|]. split; [done|].
    destruct (Nat.lt_ge_cases (length l) budget) as [Hlt|]; [|lia].
    exfalso. apply Hc, count_ready_zero. by apply Hn.
  - unfold run_pending. cbn [with_run_active g_initialized g_run_active]. by rewrite Hi.
Qed.

Lemma run_pending_result_witness :
  (executed (snd (run_pending example_script example_state 5)) <= 5)%nat /\
  snd (fst (run_pending example_script example_state 5)) = BudgetExhausted.
Proof.
  destruct (run_pending example_script example_state 5) as [[s' st] result] eqn:E.
  destruct (run_pending_result example_script example_state 5 s' st result) as (H & _).
  - exact example_script_ok.
  - exact sched_example_wf.
  - vm_compute. reflexivity.
  - exact E.
  - split; [exact H|]. vm_compute in E. injection E as <- <- <-. reflexivity.
Defined.

(** Round-robin fairness: a task that is ready when [run_pending] starts is
    dispatched within 32 callbacks, whatever the other tasks do (yield, create,
    cancel or suspend each other, run past timer ticks), as long as none of
    them cancels or suspends it. *)
Theorem ready_task_is_dispatched script s j t budget :
  (forall cb ctx s, Forall op_ok (script cb ctx s)) ->
  (forall cb ctx s op, op ∈ script cb ctx s -> op ≠ OpCancel t /\ op ≠ OpSuspend t) ->
  wf s -> g_initialized s = true -> ready_task s j t -> (MAX_TASKS <= budget)%nat ->
  j ∈ snd (run_loop script budget (with_run_active s true)).
Proof.
  intros Hs Hl Hwf Hi Hr Hb. apply (ready_dispatched script Hs j t Hl); [by apply wf_mid|done|].
  assert (dist j (g_dispatch_cursor (with_run_active s true)) < MAX_TASKS)%nat
    by (apply Nat.mod_upper_bound; unfold MAX_TASKS; lia). lia.
Qed.

Lemma ready_task_is_dispatched_witness :
  0%nat ∈ snd (run_loop (fun _ _ s => [OpTick (g_now s ⊕ 1); OpYield]) 32
    (with_run_active example_state true)).
Proof.
  apply (ready_task_is_dispatched _ example_state 0 (make_task_id 1 0)).
  - intros. repeat constructor.
  - intros cb ctx s op Hop. apply elem_of_cons in Hop as [->|Hop]; [split; discriminate|].
    apply elem_of_cons in Hop as [->|Hop]; [split; discriminate|]. by apply elem_of_nil in Hop.
  - exact sched_example_wf.
  - vm_compute. reflexivity.
  - exists (nth 0 (g_tasks example_state) (empty_slot 0)).
    split; [vm_compute; reflexivity|]. split; vm_compute; reflexivity.
  - unfold MAX_TASKS. lia.
Defined.
