(* ===== verification/TicketLock.v ===== *)
(** * Ticket spin lock (sync/spinlock.hpp)

    The atomic operations of [TicketSpinLock] are the steps of a transition system
    whose threads interleave in any order; a step of a thread is one atomic access.
    The accesses are taken to be sequentially consistent, which the acquire and
    release orderings of the code provide for the data the lock protects.

    [issued] and [served] count the tickets drawn and the releases without
    wrapping; they are history variables that no step of the code reads. *)

From S2P Require Import Prelude.

(** Where a thread is in [lock], [try_lock] or the critical section. *)
Inductive PC :=
  | Outside
  (** in the loop of [lock], with its local [ticket] *)
  | Spinning (ticket : Z)
  (** in [try_lock]: after loading [serving_], and after finding [next_ticket_]
      equal to it; [since] is the history variable [served] at the first load *)
  | TryServing (serving since : Z)
  | TryNext (next since : Z)
  | Holding.

#[export] Instance PC_eq_dec : EqDecision PC.
Proof. solve_decision. Defined.

Record State := mkState {
  next_ticket : Z; serving : Z; threads : gmap nat PC; issued : Z; served : Z }.

Definition initial (ids : gset nat) : State := mkState 0 0 (gset_to_gmap Outside ids) 0 0.

(** The operation that a thread outside starts. *)
Inductive Command := CLock | CTryLock.

Inductive Event :=
  | Draw (i : nat) | Enter (i : nat) | TryEnter (i : nat) | Leave (i : nat) | Internal (i : nat).

Definition at_pc (s : State) (i : nat) (pc : PC) : State :=
  mkState (next_ticket s) (serving s) (<[i := pc]> (threads s)) (issued s) (served s).

(** [__atomic_fetch_add(&next_ticket_, 1)]. *)
Definition draw (s : State) : State :=
  mkState (u32 (next_ticket s + 1)) (serving s) (threads s) (issued s + 1) (served s).

Definition lock (s : State) (i : nat) : State * Event :=
  (at_pc (draw s) i (Spinning (next_ticket s)), Draw i).

(** One turn of [while (load(&serving_) != ticket)]. *)
Definition lock_spin (s : State) (i : nat) (ticket : Z) : State * Event :=
  if serving s =? ticket then (at_pc s i Holding, Enter i) else (s, Internal i).

Definition try_lock (s : State) (i : nat) : State * Event :=
  (at_pc s i (TryServing (serving s) (served s)), Internal i).

Definition try_lock_load (s : State) (i : nat) (loaded since : Z) : State * Event :=
  if negb (next_ticket s =? loaded) then (at_pc s i Outside, Internal i)
  else (at_pc s i (TryNext (next_ticket s) since), Internal i).

Definition try_lock_exchange (s : State) (i : nat) (next : Z) : State * Event :=
  if next_ticket s =? next then (at_pc (draw s) i Holding, TryEnter i)
  else (at_pc s i Outside, Internal i).

(** [__atomic_fetch_add(&serving_, 1)]. *)
Definition unlock (s : State) (i : nat) : State * Event :=
  (at_pc (mkState (next_ticket s) (u32 (serving s + 1)) (threads s) (issued s) (served s + 1)) i Outside, Leave i).

(** The next atomic access of thread [i]. *)
Definition thread_step (s : State) (i : nat) (command : Command) : option (State * Event) :=
  match threads s !! i with
  | Some Outside => Some (match command with CLock => lock s i | CTryLock => try_lock s i end)
  | Some (Spinning ticket) => Some (lock_spin s i ticket)
  | Some (TryServing loaded since) => Some (try_lock_load s i loaded since)
  | Some (TryNext next _) => Some (try_lock_exchange s i next)
  | Some Holding => Some (unlock s i)
  | None => None
  end.

Inductive exec : State -> list Event -> State -> Prop :=
  | exec_nil s : exec s [] s
  | exec_step s i command s1 ev evs s2 :
      thread_step s i command = Some (s1, ev) -> exec s1 evs s2 -> exec s (ev :: evs) s2.

(** No thread stays in [try_lock] while 2^32 tickets are drawn. *)
Definition timely (s : State) : Prop :=
  forall i v since, threads s !! i = Some (TryServing v since) \/ threads s !! i = Some (TryNext v since) ->
    issued s - since < 2 ^ 32.

(** Executions all of whose states are [timely]. *)
Inductive timely_exec : State -> list Event -> State -> Prop :=
  | timely_nil s : timely s -> timely_exec s [] s
  | timely_step s i command s1 ev evs s2 :
      timely s -> thread_step s i command = Some (s1, ev) -> timely_exec s1 evs s2 ->
      timely_exec s (ev :: evs) s2.

(** ** Specification: a queue of threads, whose head may hold the lock *)

Record Queue := mkQueue { waiting : list nat; held : bool }.

(** [None] when the event is not allowed. *)
Definition queue_step (q : Queue) (ev : Event) : option Queue :=
  match ev with
  | Draw i => Some (mkQueue (waiting q ++ [i]) (held q))
  | Enter i =>
      match waiting q, held q with
      | j :: _, false => if decide (i = j) then Some (mkQueue (waiting q) true) else None
      | _, _ => None
      end
  | TryEnter i =>
      match waiting q with [] => Some (mkQueue [i] true) | _ => None end
  | Leave i =>
      match waiting q, held q with
      | j :: rest, true => if decide (i = j) then Some (mkQueue rest false) else None
      | _, _ => None
      end
  | Internal _ => Some q
  end.

Fixpoint queue_run (q : Queue) (evs : list Event) : option Queue :=
  match evs with
  | [] => Some q
  | ev :: evs' => queue_step q ev ≫= fun q' => queue_run q' evs'
  end.

(** ** Simulation *)

Definition in_queue (s : State) (q : Queue) (i : nat) (j : nat) : Prop :=
  threads s !! i = Some (Spinning (u32 (served s + Z.of_nat j))) /\ (j = O -> held q = false) \/
  threads s !! i = Some Holding /\ j = O /\ held q = true.

Record simulates (s : State) (q : Queue) : Prop := {
  sim_next : next_ticket s = u32 (issued s);
  sim_serving : serving s = u32 (served s);
  sim_issued : issued s = served s + Z.of_nat (length (waiting q));
  sim_nodup : NoDup (waiting q);
  (** the thread at position [j] of the queue *)
  sim_queue : forall j i, waiting q !! j = Some i -> in_queue s q i j;
  (** the threads with a ticket are in the queue *)
  sim_member : forall i, (exists t, threads s !! i = Some (Spinning t)) \/ threads s !! i = Some Holding ->
    i ∈ waiting q;
  sim_held : held q = true -> waiting q ≠ [];
  (** what a thread in [try_lock] has seen *)
  sim_try : forall i v since,
    threads s !! i = Some (TryServing v since) \/ threads s !! i = Some (TryNext v since) ->
    v = u32 since /\ since <= served s }.

Lemma u32_inj_close a b : u32 a = u32 b -> a <= b < a + 2 ^ 32 -> a = b.
Proof. unfold u32. intros H Hab. zdm. Qed.

Lemma u32_succ a : u32 (u32 a + 1) = u32 (a + 1).
Proof. unfold u32. by rewrite Zplus_mod_idemp_l. Qed.

(** The program counters of the threads that have a ticket. *)
Definition queued (pc : PC) : bool := match pc with Spinning _ | Holding => true | _ => false end.

Lemma sim_not_queued s q i pc :
  simulates s q -> threads s !! i = Some pc -> queued pc = false -> i ∉ waiting q.
Proof.
  intros Hs Hi Hq [j Hj]%list_elem_of_lookup. apply (sim_queue _ _ Hs) in Hj.
  destruct Hj as [[E _]|[E _]]; rewrite E in Hi; by simplify_eq.
Qed.

(** [in_queue] looks at one thread and at [served]. *)
Lemma in_queue_ext s s' q q' i j :
  threads s' !! i = threads s !! i -> served s' = served s -> held q' = held q ->
  in_queue s q i j -> in_queue s' q' i j.
Proof. intros E1 E2 E3. unfold in_queue. by rewrite E1, E2, E3. Qed.

Lemma queue_bound s q : simulates s q -> (length (waiting q) <= size (threads s))%nat.
Proof.
  intros Hs. rewrite <- (size_dom (D := gset nat)).
  rewrite <- (size_list_to_set (C := gset nat) (waiting q)) by apply (sim_nodup _ _ Hs).
  apply subseteq_size. intros i Hi%elem_of_list_to_set%list_elem_of_lookup.
  destruct Hi as [j Hj]. apply (sim_queue _ _ Hs) in Hj. apply elem_of_dom.
  destruct Hj as [[-> _]|[-> _]]; done.
Qed.

(** A thread without a ticket moves to a place without a ticket. *)
Lemma sim_internal s q i pc pc' :
  simulates s q -> threads s !! i = Some pc -> queued pc = false -> queued pc' = false ->
  (forall v since, pc' = TryServing v since \/ pc' = TryNext v since -> v = u32 since /\ since <= served s) ->
  simulates (at_pc s i pc') q.
Proof.
  intros Hs Hi Hpc Hpc' Htry. pose proof (sim_not_queued _ _ _ _ Hs Hi Hpc) as Hni.
  destruct Hs as [H1 H2 H3 H4 H5 H6 H7 H8]. split; try done.
  - intros j k Hk. eapply in_queue_ext; [| | |by apply H5]; try done. cbn. apply lookup_insert_ne.
    intros ->. apply Hni. by eapply list_elem_of_lookup_2.
  - intros k Hk. cbn in Hk. destruct (decide (i = k)) as [<-|Hne].
    + rewrite lookup_insert_eq in Hk. naive_solver.
    + rewrite lookup_insert_ne in Hk by done. by apply H6.
  - intros k v since Hk. cbn in Hk. destruct (decide (i = k)) as [<-|Hne].
    + rewrite lookup_insert_eq in Hk. apply Htry. naive_solver.
    + rewrite lookup_insert_ne in Hk by done. by eapply H8.
Qed.

(** Taking a ticket: [i] goes to the end of the queue, holding the lock at once
    only when the queue was empty. *)
Lemma sim_draw s q i pc pc' h :
  simulates s q -> threads s !! i = Some pc -> queued pc = false ->
  (pc' = Spinning (next_ticket s) /\ h = held q) \/ (pc' = Holding /\ waiting q = [] /\ h = true) ->
  simulates (at_pc (draw s) i pc') (mkQueue (waiting q ++ [i]) h).
Proof.
  intros Hs Hi Hpc Hcase. pose proof (sim_not_queued _ _ _ _ Hs Hi Hpc) as Hni.
  destruct Hs as [H1 H2 H3 H4 H5 H6 H7 H8]. split; cbn.
  - by rewrite H1, u32_succ.
  - done.
  - rewrite length_app. cbn. lia.
  - apply NoDup_app. split; [done|]. split; [|apply NoDup_singleton].
    intros k Hk ->%list_elem_of_singleton. done.
  - intros j k [Hk|[Hlen Hk]]%lookup_app_Some.
    + assert (k ≠ i) by (intros ->; apply Hni; by eapply list_elem_of_lookup_2).
      destruct Hcase as [[-> ->]|(_ & Hnil & _)]; [|by rewrite Hnil in Hk].
      eapply in_queue_ext; [| | |by apply H5]; try done. cbn. by rewrite lookup_insert_ne.
    + apply list_lookup_singleton_Some in Hk as [Hj <-]. unfold in_queue. cbn.
      rewrite lookup_insert_eq. destruct Hcase as [[-> ->]|(-> & Hnil & ->)].
      * left. split; [|intros ->; destruct (held q); [|done]].
        -- do 2 f_equal. rewrite H1, H3. f_equal. lia.
        -- assert (waiting q = []) as Hnil by (apply nil_length_inv; lia). by destruct H7.
      * right. rewrite Hnil in Hj. cbn in Hj. split_and!; [done|lia|done].
  - intros k Hk. apply elem_of_app. destruct (decide (i = k)) as [<-|Hne].
    + right. by apply list_elem_of_singleton.
    + rewrite lookup_insert_ne in Hk by done. left. by apply H6.
  - intros _ E. by apply app_nil in E as [_ ?].
  - intros k v since Hk. destruct (decide (i = k)) as [<-|Hne].
    + rewrite lookup_insert_eq in Hk. naive_solver.
    + rewrite lookup_insert_ne in Hk by done. by eapply H8.
Qed.


(** A thread that sees its ticket served is the head of the queue, and the lock is
    free. *)
Lemma sim_enter s q i :
  simulates s q -> Z.of_nat (size (threads s)) < 2 ^ 32 ->
  threads s !! i = Some (Spinning (serving s)) ->
  waiting q !! O = Some i /\ held q = false.
Proof.
  intros Hs Hsz Hi. assert (i ∈ waiting q) as [j Hj]%list_elem_of_lookup
    by (apply (sim_member _ _ Hs); eauto).
  pose proof (queue_bound _ _ Hs). pose proof (lookup_lt_Some _ _ _ Hj).
  destruct (sim_queue _ _ Hs _ _ Hj) as [[E Hh]|[E _]]; rewrite E in Hi; simplify_eq.
  assert (j = O) as ->; [|auto].
  rewrite (sim_serving _ _ Hs) in Hi.
  assert (served s = served s + Z.of_nat j); [|lia].
  apply u32_inj_close; [done|lia].
Qed.

(** The head enters. *)
Lemma sim_set_holding s q i :
  simulates s q -> waiting q !! O = Some i -> held q = false ->
  simulates (at_pc s i Holding) (mkQueue (waiting q) true).
Proof.
  intros [H1 H2 H3 H4 H5 H6 H7 H8] Hi Hh. split; cbn; try done.
  - intros j k Hk. destruct (decide (i = k)) as [<-|Hne].
    + right. cbn. rewrite lookup_insert_eq. split_and!; try done. by eapply NoDup_lookup.
    + destruct (H5 _ _ Hk) as [[E _]|(_ & _ & E)]; [|congruence].
      left. cbn. rewrite lookup_insert_ne by done. split; [done|]. intros ->. congruence.
  - intros k Hk. destruct (decide (i = k)) as [<-|Hne]; [by eapply list_elem_of_lookup_2|].
    rewrite lookup_insert_ne in Hk by done. by apply H6.
  - intros _ E. by rewrite E in Hi.
  - intros k v since Hk. destruct (decide (i = k)) as [<-|Hne].
    + rewrite lookup_insert_eq in Hk. naive_solver.
    + rewrite lookup_insert_ne in Hk by done. by eapply H8.
Qed.

Lemma sim_holding s q i :
  simulates s q -> threads s !! i = Some Holding -> exists rest, waiting q = i :: rest /\ held q = true.
Proof.
  intros Hs Hi. assert (i ∈ waiting q) as [j Hj]%list_elem_of_lookup
    by (apply (sim_member _ _ Hs); eauto).
  destruct (sim_queue _ _ Hs _ _ Hj) as [[E _]|(_ & -> & Hh)]; [rewrite E in Hi; simplify_eq|].
  destruct (waiting q) as [|k rest]; simplify_eq/=. eauto.
Qed.

(** The head leaves. *)
Lemma sim_leave s q i rest :
  simulates s q -> waiting q = i :: rest -> held q = true ->
  simulates (unlock s i).1 (mkQueue rest false).
Proof.
  intros [H1 H2 H3 H4 H5 H6 H7 H8] Hw Hh. rewrite Hw in *. apply NoDup_cons in H4 as [Hi H4].
  split; cbn; try done.
  - by rewrite H2, u32_succ.
  - cbn in H3. lia.
  - intros j k Hk. assert (k ≠ i) by (intros ->; apply Hi; by eapply list_elem_of_lookup_2).
    left. cbn. rewrite lookup_insert_ne by done. split; [|done].
    destruct (H5 (S j) k Hk) as [[E _]|(_ & [=] & _)]. rewrite E. do 3 f_equal. lia.
  - intros k Hk. destruct (decide (i = k)) as [<-|Hne].
    + rewrite lookup_insert_eq in Hk. naive_solver.
    + rewrite lookup_insert_ne in Hk by done. apply H6, elem_of_cons in Hk. by destruct Hk.
  - intros k v since Hk. destruct (decide (i = k)) as [<-|Hne].
    + rewrite lookup_insert_eq in Hk. naive_solver.
    + rewrite lookup_insert_ne in Hk by done. destruct (H8 _ _ _ Hk). split; [done|lia].
Qed.

Lemma sim_exchange s q i v since :
  simulates s q -> timely s -> threads s !! i = Some (TryNext v since) -> next_ticket s = v -> waiting q = [].
Proof.
  intros Hs Ht Hi Hv. destruct (sim_try _ _ Hs i v since) as [E Hle]; [by right|].
  rewrite (sim_next _ _ Hs), E in Hv. pose proof (sim_issued _ _ Hs) as HN.
  pose proof (Ht i v since ltac:(by right)).
  apply nil_length_inv. symmetry in Hv. apply u32_inj_close in Hv; lia.
Qed.

Lemma step_threads s i command s1 ev :
  thread_step s i command = Some (s1, ev) -> s1 = s \/ exists pc', threads s1 = <[i := pc']> (threads s).
Proof.
  unfold thread_step, lock, try_lock, lock_spin, try_lock_load, try_lock_exchange, unlock. intros H.
  split_cases; try (by left); right; cbn; eauto.
Qed.

Lemma step_size s i command s1 ev :
  thread_step s i command = Some (s1, ev) -> size (threads s1) = size (threads s).
Proof.
  intros H. destruct (step_threads _ _ _ _ _ H) as [-> |[pc' ->]]; [done|].
  unfold thread_step in H. apply map_size_insert_Some. by destruct (threads s !! i).
Qed.

Lemma sim_step s q i command s1 ev :
  simulates s q -> Z.of_nat (size (threads s)) < 2 ^ 32 -> timely s ->
  thread_step s i command = Some (s1, ev) ->
  exists q1, queue_step q ev = Some q1 /\ simulates s1 q1.
Proof.
  intros Hs Hsz Ht Hstep. unfold thread_step, lock, try_lock, unlock in Hstep.
  destruct (threads s !! i) as [[|t|v since|v since|]|] eqn:Hi; [destruct command|..]; simplify_eq/=.
  - eexists. split; [done|]. eapply sim_draw; try done. by left.
  - eexists. split; [done|]. eapply sim_internal; try done.
    intros v since [[= <- <-]|[=]]. rewrite (sim_serving _ _ Hs). split; [done|lia].
  - unfold lock_spin in Hstep. destruct (Z.eqb_spec (serving s) t) as [<-|]; simplify_eq/=; [|by eexists].
    destruct (sim_enter _ _ _ Hs Hsz Hi) as [Hw Hh]. exists (mkQueue (waiting q) true).
    split; [|by apply sim_set_holding].
    destruct (waiting q); simplify_eq/=. rewrite Hh. by rewrite decide_True.
  - destruct (sim_try _ _ Hs i v since) as [E Hle]; [by left|]. unfold try_lock_load in Hstep.
    destruct (Z.eqb_spec (next_ticket s) v) as [E'|]; simplify_eq/=; eexists; (split; [done|]);
      eapply sim_internal; try done; try naive_solver.
  - unfold try_lock_exchange in Hstep. destruct (Z.eqb_spec (next_ticket s) v) as [E'|]; simplify_eq/=.
    + pose proof (sim_exchange _ _ _ _ _ Hs Ht Hi eq_refl) as Hw. exists (mkQueue [i] true).
      rewrite Hw. split; [done|].
      replace [i] with (waiting q ++ [i]) by (by rewrite Hw). eapply sim_draw; try done. by right.
    + eexists. split; [done|]. eapply sim_internal; try done. naive_solver.
  - destruct (sim_holding _ _ _ Hs Hi) as (rest & Hw & Hh). exists (mkQueue rest false).
    split; [|by apply (sim_leave _ _ _ _ Hs)]. rewrite Hw, Hh. by rewrite decide_True.
Qed.

Lemma sim_exec s q evs s' :
  simulates s q -> Z.of_nat (size (threads s)) < 2 ^ 32 -> timely_exec s evs s' ->
  exists q', queue_run q evs = Some q' /\ simulates s' q' /\ size (threads s') = size (threads s).
Proof.
  intros Hs Hsz He. revert q Hs Hsz.
  induction He as [s Ht|s i command s1 ev evs s2 Ht Hstep He IH]; intros q Hs Hsz; [by exists q|].
  destruct (sim_step _ _ _ _ _ _ Hs Hsz Ht Hstep) as (q1 & E1 & Hs1).
  pose proof (step_size _ _ _ _ _ Hstep) as Hsize.
  destruct (IH q1 Hs1 ltac:(by rewrite Hsize)) as (q' & E' & Hs' & Hsz').
  exists q'. cbn. rewrite E1. cbn. split_and!; try done. congruence.
Qed.

Lemma sim_initial ids : simulates (initial ids) (mkQueue [] false).
Proof.
  split; cbn; try done; [constructor|..].
  - intros i [[t H]|H]; by apply lookup_gset_to_gmap_Some in H as [_ [=]].
  - intros i v since [H|H]; by apply lookup_gset_to_gmap_Some in H as [_ [=]].
Qed.

Lemma sim_start ids evs s :
  Z.of_nat (size ids) < 2 ^ 32 -> timely_exec (initial ids) evs s ->
  exists q, queue_run (mkQueue [] false) evs = Some q /\ simulates s q /\ Z.of_nat (size (threads s)) < 2 ^ 32.
Proof.
  intros Hsz He. assert (size (threads (initial ids)) = size ids) as E.
  { cbn. by rewrite <- (size_dom (D := gset nat)), dom_gset_to_gmap. }
  destruct (sim_exec _ _ _ _ (sim_initial ids) ltac:(by rewrite E) He) as (q & ? & ? & E').
  exists q. split_and!; try done. by rewrite E', E.
Qed.

(** *** Waiting *)

Definition is_leave (ev : Event) : bool := match ev with Leave _ => true | _ => false end.

Lemma step_waits s q i command s1 ev q1 w j t :
  simulates s q -> simulates s1 q1 -> queue_step q ev = Some q1 ->
  thread_step s i command = Some (s1, ev) ->
  threads s !! w = Some (Spinning t) -> waiting q !! j = Some w -> ev ≠ Enter w ->
  threads s1 !! w = Some (Spinning t) /\
  exists j1, waiting q1 !! j1 = Some w /\ (j = j1 + (if is_leave ev then 1 else 0))%nat.
Proof.
  intros Hs Hs1 Hq Hstep Hw Hj Hev. split.
  - destruct (decide (i = w)) as [->|Hne].
    + unfold thread_step in Hstep. rewrite Hw in Hstep. unfold lock_spin in Hstep. by split_cases.
    + destruct (step_threads _ _ _ _ _ Hstep) as [-> |[pc' E]]; [done|]. clear E.
      unfold thread_step, lock, try_lock, lock_spin, try_lock_load, try_lock_exchange, unlock in Hstep.
      split_cases; cbn; by rewrite ?lookup_insert_ne.
  - destruct (waiting q) as [|k rest] eqn:Eq; [by rewrite lookup_nil in Hj|].
    destruct ev; cbn in Hq; rewrite ?Eq in Hq; cbn [is_leave]; split_cases; simplify_eq;
      try (exists j; split; [by rewrite ?Eq|lia]).
    + exists j. split; [by apply (lookup_app_l_Some (k :: rest))|lia].
    + destruct j as [|j]; simplify_eq/=; [|exists j; split; [done|lia]].
      destruct (sim_queue _ _ Hs O w) as [[_ E]|[E _]]; [by rewrite Eq|by specialize (E eq_refl); congruence|congruence].
Qed.

Lemma exec_waits s q evs s' w j t :
  simulates s q -> Z.of_nat (size (threads s)) < 2 ^ 32 -> timely_exec s evs s' ->
  threads s !! w = Some (Spinning t) -> waiting q !! j = Some w -> Enter w ∉ evs ->
  threads s' !! w = Some (Spinning t) /\
  exists q' j', simulates s' q' /\ waiting q' !! j' = Some w /\ Z.of_nat j = Z.of_nat j' + countb is_leave evs /\
    Z.of_nat (size (threads s')) < 2 ^ 32.
Proof.
  intros Hs Hsz He. revert q j Hs Hsz.
  induction He as [s Ht|s i command s1 ev evs s2 Ht Hstep He IH]; intros q j Hs Hsz Hw Hj Hev.
  - split; [done|]. exists q, j. split_and!; try done. cbn. lia.
  - destruct (sim_step _ _ _ _ _ _ Hs Hsz Ht Hstep) as (q1 & E1 & Hs1).
    pose proof (step_size _ _ _ _ _ Hstep) as Hsize.
    apply not_elem_of_cons in Hev as [Hne Hev].
    destruct (step_waits _ _ _ _ _ _ _ _ _ _ Hs Hs1 E1 Hstep Hw Hj ltac:(done)) as (Hw1 & j1 & Hj1 & Ej).
    destruct (IH q1 j1 Hs1 ltac:(by rewrite Hsize) Hw1 Hj1 Hev) as (? & q' & j' & ? & ? & E & ?).
    split; [done|]. exists q', j'. split_and!; try done. cbn [countb]. destruct (is_leave ev); cbn; lia.
Qed.


(** waiting is bounded.  A thread spinning on [ticket] enters after exactly
    [ticket - serving_] (mod 2^32) releases: until it enters it keeps its ticket and
    there are at most that many, and once there have been that many its next read
    of [serving_] lets it in.  Meanwhile the lock never stands idle: when nobody
    holds it, some waiting thread can enter at once. *)
Theorem ticket_lock_bounded_wait ids evs0 s i ticket evs s' :
  Z.of_nat (size ids) < 2 ^ 32 -> timely_exec (initial ids) evs0 s ->
  threads s !! i = Some (Spinning ticket) ->
  timely_exec s evs s' -> Enter i ∉ evs ->
  let ahead := u32 (ticket - serving s) in
  threads s' !! i = Some (Spinning ticket) /\
  countb is_leave evs <= ahead /\
  (countb is_leave evs = ahead -> (forall k, threads s' !! k ≠ Some Holding) -> forall command,
    thread_step s' i command = Some (at_pc s' i Holding, Enter i)) /\
  ((forall k, threads s' !! k ≠ Some Holding) -> exists k t, threads s' !! k = Some (Spinning t) /\
    forall command, thread_step s' k command = Some (at_pc s' k Holding, Enter k)).
Proof.
  intros Hsz He Hi He' Hev ahead. destruct (sim_start _ _ _ Hsz He) as (q & _ & Hs & Hsz').
  assert (i ∈ waiting q) as [j Hj]%list_elem_of_lookup by (apply (sim_member _ _ Hs); eauto).
  assert (ahead = Z.of_nat j) as Ha.
  { pose proof (queue_bound _ _ Hs). pose proof (lookup_lt_Some _ _ _ Hj).
    destruct (sim_queue _ _ Hs _ _ Hj) as [[E _]|[E _]]; rewrite E in Hi; simplify_eq.
    unfold ahead. rewrite (sim_serving _ _ Hs). unfold u32. rewrite <- Zminus_mod.
    replace (served s + Z.of_nat j - served s) with (Z.of_nat j) by lia. apply Z.mod_small. lia. }
  destruct (exec_waits _ _ _ _ _ _ _ Hs Hsz' He' Hi Hj Hev) as (Hi' & q' & j' & Hs' & Hj' & E & _).
  assert (forall k, waiting q' !! O = Some k -> (forall k, threads s' !! k ≠ Some Holding) ->
    exists t, threads s' !! k = Some (Spinning t) /\
      forall command, thread_step s' k command = Some (at_pc s' k Holding, Enter k)) as Henter.
  { intros k Hk Hno. destruct (sim_queue _ _ Hs' _ _ Hk) as [[Ek _]|[Ek _]]; [|by destruct (Hno k)].
    eexists. split; [done|]. intros command. unfold thread_step, lock_spin. rewrite Ek.
    rewrite (sim_serving _ _ Hs'), Z.add_0_r, Z.eqb_refl. done. }
  split; [done|]. split; [lia|]. split.
  - intros Ec Hno. assert (j' = O) as -> by lia. by destruct (Henter i Hj' Hno) as (t & _ & ?).
  - intros Hno. destruct (waiting q') as [|k rest]; [by rewrite lookup_nil in Hj'|].
    exists k. by apply Henter.
Qed.

(** *** What [timely] excludes *)

Lemma exec_app s evs s1 evs' s2 : exec s evs s1 -> exec s1 evs' s2 -> exec s (evs ++ evs') s2.
Proof. intros H; revert s2 evs'. induction H; intros s3 evs'' H'; [done|]. cbn. eauto using exec_step. Qed.

(** The state in which thread 0 has read both words as [v], and thread 1 is at
    [pc], after [n] tickets. *)
Definition stalled (n m : Z) (pc : PC) : State :=
  mkState (u32 n) (u32 m) (<[1%nat := pc]> {[0%nat := TryNext 0 0]}) n m.

Lemma stalled_cycle n :
  exec (stalled n n Outside) [Draw 1; Enter 1; Leave 1] (stalled (n + 1) (n + 1) Outside).
Proof.
  eapply (exec_step _ 1 CLock).
  { unfold thread_step, stalled. cbn [threads]. rewrite lookup_insert_eq. reflexivity. }
  eapply (exec_step _ 1 CLock).
  { unfold thread_step, lock_spin, stalled. cbn [threads at_pc draw next_ticket].
    rewrite lookup_insert_eq. cbn [serving]. rewrite Z.eqb_refl. reflexivity. }
  eapply (exec_step _ 1 CLock).
  { unfold thread_step. cbn [threads at_pc]. rewrite lookup_insert_eq. reflexivity. }
  unfold unlock, at_pc, draw, stalled. cbn. rewrite !insert_insert_eq, !u32_succ. constructor.
Qed.

Lemma stalled_cycles n : exists evs, exec (stalled 0 0 Outside) evs (stalled (Z.of_nat n) (Z.of_nat n) Outside).
Proof.
  induction n as [|n [evs IH]]; [exists []; constructor|].
  exists (evs ++ [Draw 1; Enter 1; Leave 1]). eapply exec_app; [done|].
  rewrite Nat2Z.inj_succ. apply stalled_cycle.
Qed.

(** without that proviso [try_lock] can break mutual exclusion: it compares the
    two counters only modulo 2^32, so if one thread is held up between its loads and
    its compare-and-exchange while another takes the lock 2^32 times, the exchange
    succeeds although the lock is taken. *)
Theorem try_lock_wraps :
  exists evs s, exec (initial {[0%nat; 1%nat]}) evs s /\
    threads s !! 0%nat = Some Holding /\ threads s !! 1%nat = Some Holding.
Proof.
  destruct (stalled_cycles (Z.to_nat (2 ^ 32 - 1))) as [evs He]. rewrite Z2Nat.id in He by lia.
  exists ([Internal 0; Internal 0] ++ evs ++ [Draw 1; Enter 1; TryEnter 0]).
  eexists. split; [|split].
  - eapply exec_app; [|eapply exec_app; [exact He|]].
    + do 2 (eapply (exec_step _ 0 CTryLock); [reflexivity|]). 
      replace (stalled 0 0 Outside) with
        (at_pc (at_pc (initial {[0%nat; 1%nat]}) 0 (TryServing 0 0)) 0 (TryNext 0 0)); [constructor|].
      reflexivity.
    + eapply (exec_step _ 1 CLock); [reflexivity|].
      eapply (exec_step _ 1 CLock); [reflexivity|].
      eapply (exec_step _ 0 CLock); [reflexivity|]. constructor.
  - reflexivity.
  - reflexivity.
Qed.

(** ** Concrete executions *)

Definition timelyb (s : State) : bool :=
  forallb (fun p => match p.2 with
    | TryServing _ since | TryNext _ since => issued s - since <? 2 ^ 32
    | _ => true end) (map_to_list (threads s)).

Lemma timelyb_sound s : timelyb s = true -> timely s.
Proof.
  unfold timelyb. rewrite forallb_forall. intros H i v since [Hi|Hi];
    apply elem_of_map_to_list, list_elem_of_In, H in Hi; cbn in Hi; lia.
Qed.

(** Runs a schedule: which thread makes its next access. *)
Fixpoint run_schedule (s : State) (schedule : list (nat * Command)) : option (list Event * State) :=
  if timelyb s then
    match schedule with
    | [] => Some ([], s)
    | (i, command) :: rest =>
        match thread_step s i command with
        | Some (s1, ev) =>
            match run_schedule s1 rest with Some (evs, s2) => Some (ev :: evs, s2) | None => None end
        | None => None
        end
    end
  else None.

Lemma run_schedule_sound s schedule evs s' :
  run_schedule s schedule = Some (evs, s') -> timely_exec s evs s'.
Proof.
  revert s evs s'; induction schedule as [|[i command] rest IH]; intros s evs s' H; cbn [run_schedule] in H;
    destruct (timelyb s) eqn:Ht; try done; apply timelyb_sound in Ht.
  - simplify_eq. by constructor.
  - destruct (thread_step s i command) as [[s1 ev]|] eqn:Hs; [|done].
    destruct (run_schedule s1 rest) as [[evs' s2]|] eqn:Hr; simplify_eq. eauto using timely_exec.
Qed.

(** Thread 0 takes the lock with [try_lock]; thread 1 draws a ticket and spins. *)
Definition contended : State :=
  mkState 2 0 {[0%nat := Holding; 1%nat := Spinning 1]} 2 0.

Lemma contended_exec :
  timely_exec (initial {[0%nat; 1%nat]})
    [Internal 0; Internal 0; TryEnter 0; Draw 1; Internal 1] contended.
Proof.
  apply (run_schedule_sound _ [(0%nat, CTryLock); (0%nat, CTryLock); (0%nat, CTryLock); (1%nat, CLock); (1%nat, CLock)]).
  vm_compute. reflexivity.
Qed.


Definition released : State := mkState 2 1 {[0%nat := Outside; 1%nat := Spinning 1]} 2 1.

Lemma ticket_lock_bounded_wait_witness :
  thread_step released 1 CLock = Some (at_pc released 1 Holding, Enter 1).
Proof.
  assert (Z.of_nat (size ({[0%nat; 1%nat]} : gset nat)) < 2 ^ 32) as Hsz by (vm_compute; reflexivity).
  assert (timely_exec contended [Leave 0] released) as Hr.
  { apply (run_schedule_sound _ [(0%nat, CLock)]). vm_compute. reflexivity. }
  destruct (ticket_lock_bounded_wait {[0%nat; 1%nat]} _ contended 1 1 [Leave 0] released
    Hsz contended_exec eq_refl Hr) as (_ & _ & H & _).
  - by intros [[=]|H%elem_of_nil]%elem_of_cons.
  - apply H; [reflexivity|]. intros k Hk.
    destruct (decide (k = 0%nat)) as [->|]; [done|]. destruct (decide (k = 1%nat)) as [->|]; [done|].
    unfold released in Hk. cbn [threads] in Hk. by rewrite lookup_insert_ne, lookup_singleton_ne in Hk by done.
Defined.
