(* ===== verification/BlockDevice.v ===== *)
(** * Block devices (kernel/storage/block_device.hpp)

    The validating wrappers every storage client goes through.  A device's
    callbacks are function pointers to a driver: they are fields of the record,
    functions on [IO], the state of the hardware and the block counter of
    system_metrics.  A driver may return any byte as its status.  [Disk] is the
    interface a working driver offers; partition_device.cpp both uses and
    implements it. *)

From S2P Require Import Prelude.

(** ** Data *)

Inductive Status :=
| Ok | InvalidArgument | InvalidGeometry | MissingCallback | OutOfRange | ArithmeticOverflow
| BufferTooSmall | ReadOnly | Unsupported | IoError | DeviceFault | BackendFailure | NoDevice
| DeviceBusy | TimedOut | ControllerFault | CommandFailed | AddressNotSupported.

#[export] Instance Status_eq_dec : EqDecision Status.
Proof. solve_decision. Defined.

Definition all_statuses : list Status :=
  [Ok; InvalidArgument; InvalidGeometry; MissingCallback; OutOfRange; ArithmeticOverflow;
   BufferTooSmall; ReadOnly; Unsupported; IoError; DeviceFault; BackendFailure; NoDevice;
   DeviceBusy; TimedOut; ControllerFault; CommandFailed; AddressNotSupported].

(** The codes of kernel/libk/status.hpp that [to_kstatus] maps to. *)
Inductive KStatus :=
| KOk | KInvalidArgument | KIoError | KTimeout | KNotSupported | KBusy | KInternalError
| KOutOfRange | KBufferTooSmall | KNoDevice | KDeviceFault | KReadOnly.

Section device.
Context {W : Type}.

Record IO := mkIO { world : W; g_disk_blocks : Z }.

(** A read callback returns the bytes it stored at the destination. *)
Record Device := mkDevice {
  sector_size : Z;
  sector_count : Z;
  dev_read : option (IO -> Z -> Z -> IO * Z * list Z);
  dev_write : option (IO -> Z -> Z -> list Z -> IO * Z);
  dev_flush : option (IO -> IO * Z);
}.

(** ** Operations *)

(** [is_known_status] and the cast of the byte the driver returned. *)
Definition known_status (code : Z) : option Status :=
  if code <? 0 then None else all_statuses !! Z.to_nat code.

(** The byte a status is returned as. *)
Definition status_code (status : Status) : Z :=
  default 0 (Z.of_nat <$> find_index (fun s => bool_decide (s = status)) all_statuses).

Definition normalize_backend_status (code : Z) : Status := default BackendFailure (known_status code).

Definition validate (device : option Device) : Status :=
  match device with
  | None => InvalidArgument
  | Some d =>
    if (sector_size d =? 0) || (sector_count d =? 0) then InvalidGeometry else
    match dev_read d, dev_write d, dev_flush d with
    | Some _, Some _, Some _ => Ok
    | _, _, _ => MissingCallback
    end
  end.

Definition validate_transfer (device : option Device) (first_block block_count : Z)
    (has_buffer : bool) (buffer_size : Z) : Status :=
  match validate device, device with
  | Ok, Some d =>
    if negb has_buffer || (block_count =? 0) then InvalidArgument else
    if (sector_count d <=? first_block) || (sector_count d - first_block <? block_count)
    then OutOfRange else
    if SIZE_MAX / sector_size d <? block_count then ArithmeticOverflow else
    let required_size := block_count ⊗ sector_size d in
    if buffer_size <? required_size then BufferTooSmall else Ok
  | status, _ => status
  end.

(** system_metrics: a saturating counter. *)
Definition record_disk_blocks (io : IO) (blocks : Z) : IO :=
  if blocks =? 0 then io else
  mkIO (world io)
    (if UINT64_MAX - g_disk_blocks io <? blocks then UINT64_MAX else g_disk_blocks io + blocks).

Definition read_blocks (device : option Device) (io : IO) (first_block block_count : Z)
    (has_destination : bool) (destination_size : Z) : IO * Status * list Z :=
  match validate_transfer device first_block block_count has_destination destination_size with
  | Ok =>
    match device ≫= dev_read with
    | None => (io, MissingCallback, [])
    | Some read =>
      let '(io, code, bytes) := read io first_block block_count in
      let result := normalize_backend_status code in
      (if bool_decide (result = Ok) then record_disk_blocks io block_count else io, result, bytes)
    end
  | status => (io, status, [])
  end.

(** [source] is [None] for a null pointer. *)
Definition write_blocks (device : option Device) (io : IO) (first_block block_count : Z)
    (source : option (list Z)) (source_size : Z) : IO * Status :=
  match validate_transfer device first_block block_count
          (match source with Some _ => true | None => false end) source_size with
  | Ok =>
    match device ≫= dev_write with
    | None => (io, MissingCallback)
    | Some write =>
      let '(io, code) := write io first_block block_count (default [] source) in
      let result := normalize_backend_status code in
      (if bool_decide (result = Ok) then record_disk_blocks io block_count else io, result)
    end
  | status => (io, status)
  end.

Definition flush (device : option Device) (io : IO) : IO * Status :=
  match validate device with
  | Ok =>
    match device ≫= dev_flush with
    | None => (io, MissingCallback)
    | Some f => let '(io, code) := f io in (io, normalize_backend_status code)
    end
  | status => (io, status)
  end.

Definition to_kstatus (status : Status) : KStatus :=
  match status with
  | Ok => KOk
  | InvalidArgument | InvalidGeometry | MissingCallback => KInvalidArgument
  | OutOfRange | ArithmeticOverflow => KOutOfRange
  | BufferTooSmall => KBufferTooSmall
  | ReadOnly => KReadOnly
  | Unsupported | AddressNotSupported => KNotSupported
  | IoError | BackendFailure | CommandFailed => KIoError
  | DeviceFault | ControllerFault => KDeviceFault
  | NoDevice => KNoDevice
  | DeviceBusy => KBusy
  | TimedOut => KTimeout
  end.

(** ** The interface of a working driver

    [content w i] is sector [i] of the medium in hardware state [w].  The laws
    cover the requests the wrappers let through. *)
Definition range_bytes (f : Z -> list Z) (first count : Z) : list Z :=
  mjoin (f <$> seqZ first count).

Definition sector_of (ss : Z) (data : list Z) (k : Z) : list Z :=
  take (Z.to_nat ss) (drop (Z.to_nat (k * ss)) data).

Class Disk (d : Device) (content : W -> Z -> list Z) : Prop := {
  disk_geometry : 0 < sector_size d < 2 ^ 32 /\ 0 < sector_count d < 2 ^ 64;
  disk_sector : forall w i, 0 <= i < sector_count d -> length (content w i) = Z.to_nat (sector_size d);
  disk_read : exists read, dev_read d = Some read /\
    forall io first count, 0 <= first -> 1 <= count -> first + count <= sector_count d ->
      read io first count = (io, 0, range_bytes (content (world io)) first count);
  disk_write : exists write, dev_write d = Some write /\
    forall io first count data, 0 <= first -> 1 <= count -> first + count <= sector_count d ->
      (Z.to_nat (count * sector_size d) <= length data)%nat ->
      exists w', write io first count data = (mkIO w' (g_disk_blocks io), 0) /\
        forall i, 0 <= i < sector_count d ->
          content w' i = if (first <=? i) && (i <? first + count)
                         then sector_of (sector_size d) data (i - first) else content (world io) i;
  disk_flush : exists f, dev_flush d = Some f /\ forall io, f io = (io, 0);
}.

(** ** Facts *)

Lemma normalize_status_code st : normalize_backend_status (status_code st) = st.
Proof. by destruct st. Qed.

Lemma normalize_ok : normalize_backend_status 0 = Ok.
Proof. reflexivity. Qed.

Lemma validate_Ok device :
  validate device = Ok -> exists d r w f, device = Some d /\ sector_size d ≠ 0 /\ sector_count d ≠ 0 /\
    dev_read d = Some r /\ dev_write d = Some w /\ dev_flush d = Some f.
Proof.
  unfold validate. destruct device as [d|]; [|done].
  destruct (Z.eqb_spec (sector_size d) 0); [done|]. destruct (Z.eqb_spec (sector_count d) 0); [done|].
  cbn [orb]. destruct (dev_read d) as [r|] eqn:Er; [|done]. destruct (dev_write d) as [w|] eqn:Ew; [|done].
  destruct (dev_flush d) as [f|] eqn:Ef; [|done]. intros _. by exists d, r, w, f.
Qed.

(** The transfers that pass: non-empty, inside the device, and small enough for
    the buffer, all without overflow. *)
Lemma validate_transfer_Ok d first count has size :
  0 < sector_size d -> is_u64 first -> is_u64 count ->
  validate_transfer (Some d) first count has size = Ok <->
  validate (Some d) = Ok /\ has = true /\ 1 <= count /\ first + count <= sector_count d /\
  count * sector_size d <= SIZE_MAX /\ count * sector_size d <= size.
Proof.
  intros Hss Hf Hc. unfold validate_transfer. unfold is_u64 in *.
  destruct (validate (Some d)) eqn:Hv; try (split; [done|]; by intros (? & _)).
  destruct has; cbn [negb orb]; [|split; [done|]; by intros (_ & ? & _)].
  destruct (Z.eqb_spec count 0); [split; [done|]; lia|].
  destruct (_ || _) eqn:Er; [split; [done|]; lia|].
  assert (SIZE_MAX / sector_size d < count <-> SIZE_MAX < count * sector_size d) as Hdiv.
  { rewrite Z.lt_nge, Z.lt_nge, (le_div_iff SIZE_MAX (sector_size d) count Hss). done. }
  destruct (Z.ltb_spec (SIZE_MAX / sector_size d) count) as [Ho|Ho].
  { split; [done|]. intros (_ & _ & _ & _ & Hle & _). apply Hdiv in Ho. lia. }
  assert (count * sector_size d <= SIZE_MAX) as Hle by lia.
  rewrite u64_small by (unfold is_u64, SIZE_MAX, UINT64_MAX in *; nia).
  destruct (Z.ltb_spec size (count * sector_size d)); split; try done; try lia.
  intros _. repeat split; done || lia.
Qed.

Lemma disk_validate d content : Disk d content -> validate (Some d) = Ok.
Proof.
  intros [Hg _ (r & Hr & _) (w & Hw & _) (f & Hf & _)]. unfold validate. rewrite Hr, Hw, Hf.
  replace (_ || _) with false by lia. done.
Qed.

Lemma range_bytes_cons (f : Z -> list Z) first n :
  0 <= n -> range_bytes f first (n + 1) = f first ++ range_bytes f (first + 1) n.
Proof.
  intros. unfold range_bytes. rewrite seqZ_cons by lia.
  replace (Z.pred (n + 1)) with n by lia. done.
Qed.

Lemma range_bytes_length (f : Z -> list Z) n first count :
  (forall i, first <= i < first + count -> length (f i) = n) -> 0 <= count ->
  length (range_bytes f first count) = (Z.to_nat count * n)%nat.
Proof.
  intros Hf Hc. rewrite <- (Z2Nat.id count) in Hf |- * by lia.
  rewrite Nat2Z.id. revert first Hf. induction (Z.to_nat count) as [|k IH]; intros first Hf; [done|].
  rewrite Nat2Z.inj_succ, <- Z.add_1_r, range_bytes_cons, length_app, Hf, IH by (lia || (intros; apply Hf; lia)).
  lia.
Qed.

(** Transfers on a working driver that pass the checks succeed. *)
Lemma disk_read_blocks d content io first count size :
  Disk d content -> 0 <= first -> 1 <= count -> first + count <= sector_count d ->
  count * sector_size d <= SIZE_MAX -> count * sector_size d <= size ->
  read_blocks (Some d) io first count true size =
  (record_disk_blocks io count, Ok, range_bytes (content (world io)) first count).
Proof.
  intros Hd Hf Hc Hr Hm Hs. pose proof (disk_geometry (Disk := Hd)) as Hg.
  unfold read_blocks. rewrite (proj2 (validate_transfer_Ok d first count true size ltac:(lia)
    ltac:(unfold is_u64; lia) ltac:(unfold is_u64; lia))) by (by repeat split; eauto using disk_validate).
  destruct (disk_read (Disk := Hd)) as (read & Er & Hread). cbn. rewrite Er.
  by rewrite (Hread io first count Hf Hc Hr).
Qed.

Lemma disk_write_blocks d content io first count data size :
  Disk d content -> 0 <= first -> 1 <= count -> first + count <= sector_count d ->
  count * sector_size d <= SIZE_MAX -> count * sector_size d <= size -> size <= Z.of_nat (length data) ->
  exists w', write_blocks (Some d) io first count (Some data) size =
      (record_disk_blocks (mkIO w' (g_disk_blocks io)) count, Ok) /\
    forall i, 0 <= i < sector_count d ->
      content w' i = if (first <=? i) && (i <? first + count)
                     then sector_of (sector_size d) data (i - first) else content (world io) i.
Proof.
  intros Hd Hf Hc Hr Hm Hs Hl. pose proof (disk_geometry (Disk := Hd)) as Hg.
  unfold write_blocks. rewrite (proj2 (validate_transfer_Ok d first count true size ltac:(lia)
    ltac:(unfold is_u64; lia) ltac:(unfold is_u64; lia))) by (by repeat split; eauto using disk_validate).
  destruct (disk_write (Disk := Hd)) as (write & Ew & Hwrite). cbn. rewrite Ew.
  destruct (Hwrite io first count data Hf Hc Hr ltac:(lia)) as (w' & -> & Hw). by exists w'.
Qed.

Lemma record_world io n : world (record_disk_blocks io n) = world io.
Proof. unfold record_disk_blocks. by case_match. Qed.

End device.

Arguments IO : clear implicits.
Arguments Device : clear implicits.

(** ** Properties *)

(** A driver for a medium held in memory: sector [i] is [w i], cut or padded to
    the sector size. *)
Definition ram_content (ss : Z) (w : Z -> list Z) (i : Z) : list Z :=
  take (Z.to_nat ss) (w i ++ replicate (Z.to_nat ss) 0).

Definition ram_write (ss : Z) (w : Z -> list Z) (first count : Z) (data : list Z) (i : Z) : list Z :=
  if (first <=? i) && (i <? first + count) then sector_of ss data (i - first) else w i.

Definition ram_device (ss n : Z) : Device (Z -> list Z) :=
  mkDevice ss n
    (Some (fun io first count => (io, 0, range_bytes (ram_content ss (world io)) first count)))
    (Some (fun io first count data => (mkIO (ram_write ss (world io) first count data) (g_disk_blocks io), 0)))
    (Some (fun io => (io, 0))).

Lemma ram_disk ss n : 0 < ss < 2 ^ 32 -> 0 < n < 2 ^ 64 -> Disk (ram_device ss n) (ram_content ss).
Proof.
  intros Hs Hn. constructor; cbn [ram_device sector_size sector_count dev_read dev_write dev_flush].
  - done.
  - intros w i _. unfold ram_content. rewrite length_take, length_app, length_replicate. lia.
  - by eexists.
  - eexists. split; [done|]. intros io first count data Hf Hc Hr Hl. eexists. split; [done|].
    intros i Hi. unfold ram_content, ram_write. destruct (_ && _) eqn:E; [|done].
    assert (length (sector_of ss data (i - first)) = Z.to_nat ss) as Hlen.
    { unfold sector_of. rewrite length_take, length_drop. nia. }
    by rewrite take_app_le, take_ge by lia.
  - by eexists.
Qed.

(** Every transfer is checked before it reaches the driver: [read_blocks] and
    [write_blocks] call the driver only for a non-null buffer and a non-empty
    block range inside the device whose size in bytes does not overflow and fits
    the buffer, and pass the range on unchanged; every other request is refused
    with an error and without any effect; and a status byte the block layer does
    not know is reported as BackendFailure. *)
Theorem transfer_checked {W} (d : Device W) io first count has source size :
  0 < sector_size d -> is_u64 first -> is_u64 count -> validate (Some d) = Ok ->
  let fits := 1 <= count /\ first + count <= sector_count d /\
              count * sector_size d <= SIZE_MAX /\ count * sector_size d <= size in
  (has = true /\ fits ->
     exists read, dev_read d = Some read /\
       snd (fst (read_blocks (Some d) io first count has size)) =
         normalize_backend_status (snd (fst (read io first count))) /\
       snd (read_blocks (Some d) io first count has size) = snd (read io first count)) /\
  (~ (has = true /\ fits) ->
     exists st, read_blocks (Some d) io first count has size = (io, st, []) /\ st ≠ Ok) /\
  (is_Some source /\ fits ->
     exists write, dev_write d = Some write /\
       snd (write_blocks (Some d) io first count source size) =
         normalize_backend_status (snd (write io first count (default [] source)))) /\
  (~ (is_Some source /\ fits) ->
     exists st, write_blocks (Some d) io first count source size = (io, st) /\ st ≠ Ok).
Proof.
  intros Hss Hf Hc Hv fits. destruct (validate_Ok _ Hv) as (d' & r & w & f & [= <-] & _ & _ & Hr & Hw & _).
  pose proof (validate_transfer_Ok d first count has size Hss Hf Hc) as Hread.
  pose proof (validate_transfer_Ok d first count (match source with Some _ => true | None => false end)
    size Hss Hf Hc) as Hwrite.
  assert (is_Some source <-> (match source with Some _ => true | None => false end) = true) as Hsrc
    by (destruct source; split; done || by intros [? ?]).
  unfold read_blocks, write_blocks. cbn [mbind option_bind]. rewrite Hr, Hw.
  set (given := match source with Some _ => true | None => false end) in *.
  split; [|split; [|split]].
  - intros [Hh Hfit]. exists r. rewrite (proj2 Hread) by done.
    by destruct (r io first count) as [[io' code] bytes].
  - intros Hno. destruct (validate_transfer (Some d) first count has size) eqn:E; try by eexists.
    exfalso. apply Hno. destruct (proj1 Hread eq_refl) as (_ & ? & ?). done.
  - intros [Hh Hfit]. exists w. rewrite (proj2 Hwrite) by (by rewrite <- Hsrc).
    by destruct (w io first count _) as [io' code].
  - intros Hno. destruct (validate_transfer (Some d) first count given size) eqn:E; try by eexists.
    exfalso. apply Hno. destruct (proj1 Hwrite eq_refl) as (_ & ? & ?). by rewrite Hsrc.
Qed.

(** Two blocks from block 3 of a device of four. *)
Lemma transfer_checked_witness :
  exists st, read_blocks (Some (ram_device 1 4)) (mkIO (fun i => [i]) 0) 3 2 true 2 =
    (mkIO (fun i => [i]) 0, st, []) /\ st ≠ Ok.
Proof.
  apply (transfer_checked (ram_device 1 4) (mkIO (fun i => [i]) 0) 3 2 true None 2);
    [reflexivity|word_lia|word_lia|reflexivity|]. cbn. lia.
Defined.
