(* ===== verification/Partition.v ===== *)
(** * Partition views (kernel/storage/partition_device.cpp)

    A bounded view of a parent block device.  The callbacks of the view receive
    the wrapper itself as their context, so they are functions of the wrapper's
    fields; [block_device] is the public device embedded in it. *)

From S2P Require Import Prelude BlockDevice.

Section partition.
Context {W : Type}.

(** [struct partition::Device]; the sector size and count are those of its
    embedded [block_device]. *)
Record PartitionDevice := mkPartition {
  p_sector_size : Z;
  p_sector_count : Z;
  parent : option (Device W);
  first_lba : Z;
  initialized : bool;
}.

Definition validate_request (p : PartitionDevice) (first_block block_count : Z) (has_buffer : bool)
  : Status + (Device W * Z) :=
  match parent p with
  | None => inl InvalidArgument
  | Some par =>
    if negb (initialized p) || negb has_buffer || (block_count =? 0) then inl InvalidArgument else
    match validate (Some par) with
    | Ok =>
      if (p_sector_count p <=? first_block) || (p_sector_count p - first_block <? block_count)
      then inl OutOfRange else inr (par, first_lba p ⊕ first_block)
    | status => inl status
    end
  end.

(** The block layer calls the callbacks with a non-null buffer. *)
Definition read_partition (p : PartitionDevice) (io : IO W) (first_block block_count : Z)
  : IO W * Z * list Z :=
  match validate_request p first_block block_count true with
  | inl status => (io, status_code status, [])
  | inr (par, absolute_first_block) =>
    match dev_read par with
    | None => (io, status_code MissingCallback, [])
    | Some read =>
      let '(io, code, bytes) := read io absolute_first_block block_count in
      (io, status_code (normalize_backend_status code), bytes)
    end
  end.

Definition write_partition (p : PartitionDevice) (io : IO W) (first_block block_count : Z)
    (source : list Z) : IO W * Z :=
  match validate_request p first_block block_count true with
  | inl status => (io, status_code status)
  | inr (par, absolute_first_block) =>
    match dev_write par with
    | None => (io, status_code MissingCallback)
    | Some write =>
      let '(io, code) := write io absolute_first_block block_count source in
      (io, status_code (normalize_backend_status code))
    end
  end.

Definition flush_partition (p : PartitionDevice) (io : IO W) : IO W * Z :=
  match parent p with
  | None => (io, status_code InvalidArgument)
  | Some par =>
    if negb (initialized p) then (io, status_code InvalidArgument) else
    let '(io, status) := flush (Some par) io in (io, status_code status)
  end.

Definition block_device (p : PartitionDevice) : Device W :=
  mkDevice (p_sector_size p) (p_sector_count p) (Some (read_partition p))
    (Some (write_partition p)) (Some (flush_partition p)).

(** The wrapper stored in [*output]; [None] when it is left as it was. *)
Definition initialize (has_output : bool) (par : option (Device W)) (first_lba sector_count : Z)
  : option PartitionDevice * Status :=
  match par with
  | None => (None, InvalidArgument)
  | Some d =>
    if negb has_output || (sector_count =? 0) then (None, InvalidArgument) else
    match validate (Some d) with
    | Ok =>
      if (BlockDevice.sector_count d <=? first_lba) ||
         (BlockDevice.sector_count d - first_lba <? sector_count)
      then (None, OutOfRange)
      else (Some (mkPartition (sector_size d) sector_count (Some d) first_lba true), Ok)
    | status => (None, status)
    end
  end.

Definition as_block_device (p : option PartitionDevice) : option (Device W) :=
  match p with
  | Some p => if initialized p then Some (block_device p) else None
  | None => None
  end.

(** ** A partition of a working disk is a working disk *)

Definition window (content : W -> Z -> list Z) (first : Z) (w : W) (i : Z) : list Z :=
  content w (first + i).

Lemma initialize_Ok has par first count p st :
  initialize has par first count = (p, st) -> (st = Ok <-> is_Some p) /\
  (st = Ok -> exists d, par = Some d /\ has = true /\ validate (Some d) = Ok /\ count ≠ 0 /\
     first < sector_count d /\ count <= sector_count d - first /\
     p = Some (mkPartition (sector_size d) count (Some d) first true)).
Proof.
  unfold initialize. destruct par as [d|]; [|intros [= <- <-]; split; [split; [done|by intros []]|done]].
  destruct has; [|intros [= <- <-]; split; [split; [done|by intros []]|done]]. cbn [negb orb].
  destruct (Z.eqb_spec count 0); [intros [= <- <-]; split; [split; [done|by intros []]|done]|].
  destruct (validate (Some d)) eqn:Hv; try (intros [= <- <-]; split; [split; [done|by intros []]|done]).
  destruct (_ || _) eqn:Er; [intros [= <- <-]; split; [split; [done|by intros []]|done]|].
  intros [= <- <-]. split; [done|]. intros _. exists d. repeat split; done || lia.
Qed.

Lemma validate_request_Ok d ss count first f n :
  validate (Some d) = Ok -> 0 <= f -> 1 <= n -> f + n <= count -> is_u64 (first + f) ->
  validate_request (mkPartition ss count (Some d) first true) f n true = inr (d, first + f).
Proof.
  intros Hv Hf Hn Hr Hu. unfold validate_request. cbn [parent initialized p_sector_count first_lba negb orb].
  replace (n =? 0) with false by lia. rewrite Hv. replace (_ || _) with false by lia.
  by rewrite u64_small.
Qed.

Lemma range_bytes_window content first w a n :
  range_bytes (content w) (first + a) n = range_bytes (window content first w) a n.
Proof.
  unfold range_bytes, window. f_equal. apply list_eq. intros k. rewrite !list_lookup_fmap.
  destruct (decide (Z.of_nat k < n)).
  - rewrite !lookup_seqZ_lt by lia. cbn. do 2 f_equal. lia.
  - rewrite !lookup_seqZ_ge by lia. done.
Qed.

Global Instance partition_disk d content first count :
  Disk d content -> 0 <= first -> 0 < count -> first + count <= sector_count d ->
  Disk (block_device (mkPartition (sector_size d) count (Some d) first true)) (window content first).
Proof.
  intros Hd Hf Hc Hr. pose proof (disk_geometry (Disk := Hd)) as Hg. pose proof (disk_validate d content Hd) as Hv.
  constructor; cbn [block_device sector_size sector_count dev_read dev_write dev_flush p_sector_size p_sector_count].
  - lia.
  - intros w i Hi. apply (disk_sector (Disk := Hd)). lia.
  - eexists. split; [done|]. intros io a n Ha Hn Hle. unfold read_partition.
    rewrite validate_request_Ok by (done || unfold is_u64; lia).
    destruct (disk_read (Disk := Hd)) as (read & -> & Hread). rewrite Hread by lia.
    by rewrite range_bytes_window.
  - eexists. split; [done|]. intros io a n data Ha Hn Hle Hl. unfold write_partition.
    rewrite validate_request_Ok by (done || unfold is_u64; lia).
    destruct (disk_write (Disk := Hd)) as (write & -> & Hwrite).
    destruct (Hwrite io (first + a) n data) as (w' & -> & Hw); [lia..|done|].
    exists w'. split; [done|]. intros i Hi. unfold window. rewrite Hw by lia.
    replace (first + a <=? first + i) with (a <=? i) by lia.
    replace (first + i <? first + a + n) with (i <? a + n) by lia.
    destruct (_ && _); [|done]. f_equal. lia.
  - eexists. split; [done|]. intros io. unfold flush_partition. cbn [parent initialized negb].
    destruct (disk_flush (Disk := Hd)) as (fl & Efl & Hfl). unfold flush. rewrite Hv. cbn. by rewrite Efl, Hfl.
Qed.

(** Whatever is written through the partition, the rest of the parent is kept. *)
Lemma partition_write_outside d content first count io a n source size io' st :
  Disk d content -> 0 <= first -> 0 < count -> first + count <= sector_count d ->
  is_u64 a -> is_u64 n -> (forall data, source = Some data -> size <= Z.of_nat (length data)) ->
  write_blocks (Some (block_device (mkPartition (sector_size d) count (Some d) first true))) io a n source size
    = (io', st) ->
  forall i, 0 <= i < sector_count d -> ~ (first <= i < first + count) ->
    content (world io') i = content (world io) i.
Proof.
  intros Hd Hf Hc Hr Ha Hn Hsrc H i Hi Hout. pose proof (disk_geometry (Disk := Hd)) as Hg.
  pose proof (disk_validate d content Hd) as Hv. unfold write_blocks in H.
  destruct (validate_transfer _ a n _ size) eqn:Ev; try (injection H as <- _; done).
  apply validate_transfer_Ok in Ev as (_ & Hs & Hn1 & Hle & _ & Hsz); [|cbn; lia|done..].
  destruct source as [data|]; [|done]. specialize (Hsrc data eq_refl). cbn in H, Hle, Hsz.
  unfold write_partition in H. unfold is_u64 in Ha.
  rewrite validate_request_Ok in H by (done || unfold is_u64; lia).
  destruct (disk_write (Disk := Hd)) as (write & Ew & Hwrite). rewrite Ew in H.
  destruct (Hwrite io (first + a) n data) as (w' & E & Hw); [lia..|].
  cbn in H. rewrite E in H. cbn in H. injection H as <- _. rewrite record_world. cbn [world].
  rewrite Hw by done. replace (_ && _) with false by lia. done.
Qed.

(** ** Properties *)

(** On a working disk, [initialize] succeeds exactly for a non-empty range
    that lies inside the parent, and otherwise leaves its output unchanged.  The
    device it sets up is itself a working disk of exactly that many sectors whose
    sector [i] is the parent's sector [first_lba + i], and no request made
    through it, valid or not, changes a parent sector outside the range. *)
Theorem partition_refines_disk (d : Device W) content first count :
  Disk d content -> is_u64 first -> is_u64 count ->
  (snd (initialize true (Some d) first count) = Ok <-> 1 <= count /\ first + count <= sector_count d) /\
  (snd (initialize true (Some d) first count) ≠ Ok -> fst (initialize true (Some d) first count) = None) /\
  forall p, initialize true (Some d) first count = (Some p, Ok) ->
    as_block_device (Some p) = Some (block_device p) /\ sector_count (block_device p) = count /\
    Disk (block_device p) (window content first) /\
    forall io a n source size io' st, is_u64 a -> is_u64 n ->
      (forall data, source = Some data -> size <= Z.of_nat (length data)) ->
      write_blocks (as_block_device (Some p)) io a n source size = (io', st) ->
      forall i, 0 <= i < sector_count d -> ~ (first <= i < first + count) ->
        content (world io') i = content (world io) i.
Proof.
  intros Hd Hf Hc. pose proof (disk_validate d content Hd) as Hv. unfold is_u64 in Hf, Hc.
  destruct (initialize true (Some d) first count) as [p st] eqn:E.
  destruct (initialize_Ok _ _ _ _ _ _ E) as [Hiff Hok]. cbn [fst snd]. split; [|split].
  - split.
    + intros H. destruct (Hok H) as (d' & [= <-] & _ & _ & ? & ? & ? & _). lia.
    + intros Hle. unfold initialize in E. rewrite Hv in E. cbn [negb orb] in E.
      replace (count =? 0) with false in E by lia.
      replace (_ || _) with false in E by lia. by injection E as _ <-.
  - intros Hne. destruct p as [p|]; [|done]. exfalso. apply Hne, Hiff. by eexists.
  - intros p' [= -> ->]. destruct (Hok eq_refl) as (d' & [= <-] & _ & _ & ? & ? & ? & [= ->]).
    split; [done|]. split; [done|]. split; [apply partition_disk; done || lia|].
    intros io a n source size io' st Ha Hn Hsrc Hw.
    apply (partition_write_outside d content first count io a n source size io' st); done || lia.
Qed.

End partition.

Arguments PartitionDevice : clear implicits.

(** Sectors 1 and 2 of a four-sector disk. *)
Lemma partition_refines_disk_witness :
  snd (initialize true (Some (ram_device 1 4)) 1 2) = Ok /\
  fst (initialize true (Some (ram_device 1 4)) 3 2) = None.
Proof.
  split.
  - apply (partition_refines_disk (ram_device 1 4) (ram_content 1) 1 2);
      [apply ram_disk; lia|word_lia|word_lia|cbn; lia].
  - apply (partition_refines_disk (ram_device 1 4) (ram_content 1) 3 2);
      [apply ram_disk; lia|word_lia|word_lia|cbn; discriminate].
Defined.
