(* ===== verification/Gpt.v ===== *)
(** * GUID partition tables (kernel/storage/gpt.cpp)

    [parse_primary] reads the primary header and the entry array through the
    block layer, checks them and returns the partitions.  Its straight-line body
    is split into the header checks ([parse_header]), the two loops over the
    entry array ([crc_loop], [entries_loop]) and the checks of one entry
    ([parse_entry]).  A byte buffer is a list; reading past its end yields 0. *)

From S2P Require Import Prelude BlockDevice Partition.

(** ** Data *)

Definition GPT_REVISION_1_0 : Z := 0x00010000.
Definition GPT_MINIMUM_HEADER_SIZE : Z := 92.
Definition GPT_MINIMUM_ENTRY_SIZE : Z := 128.
Definition GPT_MAXIMUM_ENTRY_SIZE : Z := 1024.
Definition GPT_MAXIMUM_ENTRY_COUNT : Z := 4096.
Definition GPT_MAXIMUM_SECTOR_SIZE : Z := 4096.
Definition GPT_PARTITION_NAME_CODE_UNITS : nat := 36.
Definition GPT_MAXIMUM_PARTITIONS : nat := 128.
Definition NO_ENTRY_INDEX : Z := UINT32_MAX.
Definition PRIMARY_HEADER_LBA : Z := 1.

Definition HEADER_SIGNATURE_OFFSET : Z := 0.
Definition HEADER_REVISION_OFFSET : Z := 8.
Definition HEADER_SIZE_OFFSET : Z := 12.
Definition HEADER_CRC_OFFSET : Z := 16.
Definition HEADER_RESERVED_OFFSET : Z := 20.
Definition HEADER_CURRENT_LBA_OFFSET : Z := 24.
Definition HEADER_BACKUP_LBA_OFFSET : Z := 32.
Definition HEADER_FIRST_USABLE_OFFSET : Z := 40.
Definition HEADER_LAST_USABLE_OFFSET : Z := 48.
Definition HEADER_DISK_GUID_OFFSET : Z := 56.
Definition HEADER_ENTRY_LBA_OFFSET : Z := 72.
Definition HEADER_ENTRY_COUNT_OFFSET : Z := 80.
Definition HEADER_ENTRY_SIZE_OFFSET : Z := 84.
Definition HEADER_ENTRY_CRC_OFFSET : Z := 88.
Definition ENTRY_TYPE_GUID_OFFSET : Z := 0.
Definition ENTRY_UNIQUE_GUID_OFFSET : Z := 16.
Definition ENTRY_FIRST_LBA_OFFSET : Z := 32.
Definition ENTRY_LAST_LBA_OFFSET : Z := 40.
Definition ENTRY_ATTRIBUTES_OFFSET : Z := 48.
Definition ENTRY_NAME_OFFSET : Z := 56.

Inductive GptStatus :=
| GptOk | GptInvalidArgument | InvalidBlockDevice | UnsupportedSectorSize | BlockDeviceError
| InvalidSignature | UnsupportedRevision | InvalidHeaderSize | InvalidReservedField
| InvalidHeaderCrc | InvalidCurrentLba | InvalidBackupLba | InvalidUsableRange
| InvalidEntryLayout | EntryCountLimitExceeded | EntrySizeLimitExceeded | AddressOverflow
| OutOfBounds | InvalidEntryArrayCrc | InvalidPartitionRange | OverlappingPartitions
| PartitionLimitExceeded.

#[export] Instance GptStatus_eq_dec : EqDecision GptStatus.
Proof. solve_decision. Defined.

Record GptPartition := mkGptPartition {
  type_guid : list Z;
  unique_guid : list Z;
  first_lba : Z;
  last_lba : Z;
  attributes : Z;
  name : list Z;
  name_length : nat;
  source_entry_index : Z;
}.

Record Table := mkTable {
  revision : Z; header_size : Z; current_lba : Z; backup_lba : Z;
  first_usable_lba : Z; last_usable_lba : Z; disk_guid : list Z;
  entry_array_lba : Z; declared_entry_count : Z; entry_size : Z;
  partitions : list GptPartition;
}.

Record ParseResult := mkResult { status : GptStatus; block_status : Status; entry_index : Z }.

Definition failure (st : GptStatus) : ParseResult := mkResult st Ok NO_ENTRY_INDEX.

(** ** Bytes *)

Definition read_u32 (bytes : list Z) (off : Z) : Z :=
  Z.lor (Z.lor (Z.lor (word_at bytes off) (Z.shiftl (word_at bytes (off + 1)) 8))
           (Z.shiftl (word_at bytes (off + 2)) 16)) (Z.shiftl (word_at bytes (off + 3)) 24).

Definition read_u64 (bytes : list Z) (off : Z) : Z :=
  Z.lor (read_u32 bytes off) (Z.shiftl (read_u32 bytes (off + 4)) 32).

Definition read_u16 (bytes : list Z) (off : Z) : Z :=
  Z.lor (word_at bytes off) (u16 (Z.shiftl (word_at bytes (off + 1)) 8)).

(** [copy_bytes] of [count] bytes from an offset. *)
Definition slice (bytes : list Z) (off : Z) (count : nat) : list Z :=
  (fun k => word_at bytes (off + k)) <$> seqZ 0 (Z.of_nat count).

Definition equal_bytes (left : list Z) (off : Z) (right : list Z) : bool :=
  forallb (fun k => word_at left (off + k) =? word_at right k) (seqZ 0 (Z.of_nat (length right))).

Definition is_zero_guid (bytes : list Z) (off : Z) : bool :=
  forallb (fun k => word_at bytes (off + k) =? 0) (seqZ 0 16).

Definition crc_bit (crc : Z) : Z :=
  let low_bit_mask := u32 (0 - Z.land crc 1) in
  Z.lxor (Z.shiftr crc 1) (Z.land 0xEDB88320 low_bit_mask).

Definition crc_byte (crc byte : Z) : Z := Nat.iter 8 crc_bit (Z.lxor crc byte).

Definition crc32_update (crc : Z) (bytes : list Z) (count : nat) : Z :=
  fold_left crc_byte (take count bytes) crc.

Definition crc32 (bytes : list Z) (count : nat) : Z :=
  Z.lxor (crc32_update UINT32_MAX bytes count) UINT32_MAX.

Definition ranges_overlap (first_left last_left first_right last_right : Z) : bool :=
  (first_left <=? last_right) && (first_right <=? last_left).

Definition EFI_PART : list Z := [69; 70; 73; 32; 80; 65; 82; 84].

(** ** The header *)

Record Header := mkHeader {
  h_header_size : Z; h_backup_lba : Z; h_first_usable : Z; h_last_usable : Z;
  h_guid : list Z; h_entry_array_lba : Z; h_entry_count : Z; h_entry_size : Z; h_entry_crc : Z;
  h_entry_bytes : Z; h_entry_blocks : Z;
}.

(** Storing 0 at four offsets. *)
Definition clear_crc (header : list Z) : list Z :=
  let o := Z.to_nat HEADER_CRC_OFFSET in
  <[(o + 3)%nat := 0]> (<[(o + 2)%nat := 0]> (<[(o + 1)%nat := 0]> (<[o := 0]> header))).

Definition parse_header (ss sectors : Z) (header0 : list Z) : GptStatus + Header :=
  if negb (equal_bytes header0 HEADER_SIGNATURE_OFFSET EFI_PART) then inl InvalidSignature else
  if negb (read_u32 header0 HEADER_REVISION_OFFSET =? GPT_REVISION_1_0) then inl UnsupportedRevision else
  let size := read_u32 header0 HEADER_SIZE_OFFSET in
  if (size <? GPT_MINIMUM_HEADER_SIZE) || (ss <? size) then inl InvalidHeaderSize else
  if negb (read_u32 header0 HEADER_RESERVED_OFFSET =? 0) then inl InvalidReservedField else
  let recorded_header_crc := read_u32 header0 HEADER_CRC_OFFSET in
  let header := clear_crc header0 in
  if negb (crc32 header (Z.to_nat size) =? recorded_header_crc) then inl InvalidHeaderCrc else
  let current := read_u64 header HEADER_CURRENT_LBA_OFFSET in
  let backup := read_u64 header HEADER_BACKUP_LBA_OFFSET in
  let first_usable := read_u64 header HEADER_FIRST_USABLE_OFFSET in
  let last_usable := read_u64 header HEADER_LAST_USABLE_OFFSET in
  let entry_lba := read_u64 header HEADER_ENTRY_LBA_OFFSET in
  let entry_count := read_u32 header HEADER_ENTRY_COUNT_OFFSET in
  let esize := read_u32 header HEADER_ENTRY_SIZE_OFFSET in
  let entry_crc := read_u32 header HEADER_ENTRY_CRC_OFFSET in
  if negb (current =? PRIMARY_HEADER_LBA) then inl InvalidCurrentLba else
  if negb (backup =? sectors - 1) || (backup =? current) then inl InvalidBackupLba else
  if (last_usable <? first_usable) || (sectors <=? last_usable) || (first_usable <=? current) ||
     (backup <=? last_usable) then inl InvalidUsableRange else
  if entry_count =? 0 then inl InvalidEntryLayout else
  if GPT_MAXIMUM_ENTRY_COUNT <? entry_count then inl EntryCountLimitExceeded else
  if (esize <? GPT_MINIMUM_ENTRY_SIZE) || (GPT_MAXIMUM_ENTRY_SIZE <? esize) ||
     negb (esize mod 8 =? 0) then inl EntrySizeLimitExceeded else
  if UINT64_MAX / esize <? entry_count then inl AddressOverflow else
  let entry_bytes := entry_count ⊗ esize in
  let entry_blocks := ((entry_bytes ⊖ 1) / ss) ⊕ 1 in
  if entry_lba <=? current then inl InvalidEntryLayout else
  if (sectors <=? entry_lba) || (sectors - entry_lba <? entry_blocks) then inl OutOfBounds else
  let entry_array_last := entry_lba ⊕ entry_blocks ⊖ 1 in
  if first_usable <=? entry_array_last then inl InvalidEntryLayout else
  if backup <=? entry_blocks then inl InvalidUsableRange else
  let backup_entry_array_first := backup ⊖ entry_blocks in
  if backup_entry_array_first <=? last_usable then inl InvalidUsableRange else
  inr (mkHeader size backup first_usable last_usable (slice header HEADER_DISK_GUID_OFFSET 16)
         entry_lba entry_count esize entry_crc entry_bytes entry_blocks).

(** ** One entry *)

Definition parse_name (entry : list Z) : list Z :=
  (fun k => read_u16 entry (ENTRY_NAME_OFFSET + k * 2)) <$> seqZ 0 (Z.of_nat GPT_PARTITION_NAME_CODE_UNITS).

(** [if (code_unit != 0 && name_length == name_index) name_length = name_index + 1] *)
Definition parse_name_length (units : list Z) : nat :=
  fold_left (fun n '(k, unit) => if negb (unit =? 0) && (n =? k)%nat then S k else n)
    (imap (fun k unit => (k, unit)) units) 0%nat.

(** [inr None] is an unused entry. *)
Definition parse_entry (hdr : Header) (parsed : list GptPartition) (index : Z) (entry : list Z)
  : GptStatus + option GptPartition :=
  if is_zero_guid entry ENTRY_TYPE_GUID_OFFSET then inr None else
  let partition_first := read_u64 entry ENTRY_FIRST_LBA_OFFSET in
  let partition_last := read_u64 entry ENTRY_LAST_LBA_OFFSET in
  if (partition_last <? partition_first) || (partition_first <? h_first_usable hdr) ||
     (h_last_usable hdr <? partition_last) then inl InvalidPartitionRange else
  if existsb (fun p => ranges_overlap partition_first partition_last (first_lba p) (last_lba p)) parsed
  then inl OverlappingPartitions else
  if (GPT_MAXIMUM_PARTITIONS <=? length parsed)%nat then inl PartitionLimitExceeded else
  let units := parse_name entry in
  inr (Some (mkGptPartition (slice entry ENTRY_TYPE_GUID_OFFSET 16) (slice entry ENTRY_UNIQUE_GUID_OFFSET 16)
         partition_first partition_last (read_u64 entry ENTRY_ATTRIBUTES_OFFSET) units
         (parse_name_length units) index)).

(** ** Reading the table *)

Section gpt.
Context {W : Type}.

Definition read_one_sector (d : Device W) (io : IO W) (lba : Z) : IO W * Status * list Z :=
  read_blocks (Some d) io lba 1 true (sector_size d).

(** The [while] loop of [read_entry_bytes]: [acc] holds the bytes copied so far.
    Every iteration copies at least one byte, so [byte_count] iterations are
    enough. *)
Fixpoint read_entry_loop (fuel : nat) (d : Device W) (io : IO W) (entry_lba current_offset : Z)
    (byte_count : Z) (acc : list Z) : IO W * Status * list Z :=
  if byte_count <=? Z.of_nat (length acc) then (io, Ok, acc) else
  match fuel with
  | O => (io, DeviceFault, acc)
  | S fuel' =>
    let relative_lba := current_offset / sector_size d in
    if UINT64_MAX - relative_lba <? entry_lba then (io, ArithmeticOverflow, acc) else
    match read_one_sector d io (entry_lba + relative_lba) with
    | (io, Ok, sector) =>
      let within_sector := current_offset mod sector_size d in
      let available := sector_size d - within_sector in
      let remaining := byte_count - Z.of_nat (length acc) in
      let amount := if remaining <? available then remaining else available in
      read_entry_loop fuel' d io entry_lba (current_offset ⊕ amount) byte_count
        (acc ++ slice sector within_sector (Z.to_nat amount))
    | (io, st, _) => (io, st, acc)
    end
  end.

Definition read_entry_bytes (d : Device W) (io : IO W) (entry_lba byte_offset byte_count : Z)
  : IO W * Status * list Z :=
  read_entry_loop (Z.to_nat byte_count) d io entry_lba byte_offset byte_count [].

(** The CRC loop over the entry array. *)
Fixpoint crc_loop (blocks : nat) (d : Device W) (io : IO W) (lba remaining crc : Z)
  : IO W * (Status + Z) :=
  match blocks with
  | O => (io, inr crc)
  | S blocks' =>
    match read_one_sector d io lba with
    | (io, Ok, sector) =>
      let amount := if remaining <? sector_size d then remaining else sector_size d in
      crc_loop blocks' d io (lba + 1) (remaining - amount) (crc32_update crc sector (Z.to_nat amount))
    | (io, st, _) => (io, inl st)
    end
  end.

Fixpoint entries_loop (n : nat) (d : Device W) (io : IO W) (hdr : Header) (index : Z)
    (parsed : list GptPartition) : IO W * (ParseResult + list GptPartition) :=
  match n with
  | O => (io, inr parsed)
  | S n' =>
    match read_entry_bytes d io (h_entry_array_lba hdr) (index ⊗ h_entry_size hdr) (h_entry_size hdr) with
    | (io, Ok, entry) =>
      match parse_entry hdr parsed index entry with
      | inl st => (io, inl (mkResult st Ok index))
      | inr None => entries_loop n' d io hdr (index + 1) parsed
      | inr (Some p) => entries_loop n' d io hdr (index + 1) (parsed ++ [p])
      end
    | (io, st, _) => (io, inl (mkResult BlockDeviceError st index))
    end
  end.

(** The table stored in [*output], [None] when it is left as it was. *)
Definition parse_primary (device : option (Device W)) (io : IO W) (has_output : bool)
  : IO W * ParseResult * option Table :=
  if negb has_output then (io, failure GptInvalidArgument, None) else
  match validate device, device with
  | Ok, Some d =>
    if (sector_size d <? 512) || (GPT_MAXIMUM_SECTOR_SIZE <? sector_size d)
    then (io, failure UnsupportedSectorSize, None) else
    if sector_count d <=? PRIMARY_HEADER_LBA then (io, failure OutOfBounds, None) else
    match read_one_sector d io PRIMARY_HEADER_LBA with
    | (io, Ok, bytes) =>
      let header := bytes ++ replicate (Z.to_nat GPT_MAXIMUM_SECTOR_SIZE - length bytes) 0 in
      match parse_header (sector_size d) (sector_count d) header with
      | inl st => (io, failure st, None)
      | inr hdr =>
        match crc_loop (Z.to_nat (h_entry_blocks hdr)) d io (h_entry_array_lba hdr)
                (h_entry_bytes hdr) UINT32_MAX with
        | (io, inl st) => (io, mkResult BlockDeviceError st NO_ENTRY_INDEX, None)
        | (io, inr crc) =>
          if negb (Z.lxor crc UINT32_MAX =? h_entry_crc hdr)
          then (io, failure InvalidEntryArrayCrc, None) else
          match entries_loop (Z.to_nat (h_entry_count hdr)) d io hdr 0 [] with
          | (io, inl result) => (io, result, None)
          | (io, inr parsed) =>
            (io, mkResult GptOk Ok NO_ENTRY_INDEX,
             Some (mkTable GPT_REVISION_1_0 (h_header_size hdr) PRIMARY_HEADER_LBA (h_backup_lba hdr)
                     (h_first_usable hdr) (h_last_usable hdr) (h_guid hdr) (h_entry_array_lba hdr)
                     (h_entry_count hdr) (h_entry_size hdr) parsed))
          end
        end
      end
    | (io, st, _) => (io, mkResult BlockDeviceError st NO_ENTRY_INDEX, None)
    end
  | st, _ => (io, mkResult InvalidBlockDevice st NO_ENTRY_INDEX, None)
  end.

End gpt.

(** ** What the checks establish *)

(** A layout that passed [parse_header]. *)
Record header_ok (ss sectors : Z) (h : Header) : Prop := {
  ho_usable : 1 < h_first_usable h <= h_last_usable h;
  ho_backup : h_backup_lba h = sectors - 1;
  ho_entry_count : h_entry_count h ≠ 0 /\ h_entry_count h <= GPT_MAXIMUM_ENTRY_COUNT;
  ho_entry_size : GPT_MINIMUM_ENTRY_SIZE <= h_entry_size h <= GPT_MAXIMUM_ENTRY_SIZE /\ h_entry_size h mod 8 = 0;
  ho_bytes : h_entry_bytes h = h_entry_count h ⊗ h_entry_size h;
  ho_blocks : h_entry_blocks h = ((h_entry_bytes h ⊖ 1) / ss) ⊕ 1;
  ho_array : 1 < h_entry_array_lba h /\ h_entry_array_lba h + h_entry_blocks h <= sectors;
  ho_array_last : h_entry_array_lba h ⊕ h_entry_blocks h ⊖ 1 < h_first_usable h;
  ho_backup_array : h_last_usable h < h_backup_lba h ⊖ h_entry_blocks h /\ h_last_usable h < h_backup_lba h;
}.

Lemma parse_header_ok ss sectors header h :
  parse_header ss sectors header = inr h -> header_ok ss sectors h.
Proof.
  unfold parse_header. cbv zeta. do 5 guard_step. set (hd := clear_crc header). clearbody hd.
  unfold PRIMARY_HEADER_LBA. repeat guard_step.
  intros [= <-]. constructor; cbn -[u64 read_u32 read_u64]; try done; lia.
Qed.

(** The ranges of two entries. *)
Definition disjoint_ranges (p q : GptPartition) : Prop := last_lba p < first_lba q \/ last_lba q < first_lba p.

Record partitions_ok (h : Header) (l : list GptPartition) : Prop := {
  po_count : (length l <= GPT_MAXIMUM_PARTITIONS)%nat;
  po_range : Forall (fun p => h_first_usable h <= first_lba p <= last_lba p /\ last_lba p <= h_last_usable h) l;
  po_disjoint : forall i j p q, i ≠ j -> l !! i = Some p -> l !! j = Some q -> disjoint_ranges p q;
}.

(** An entry as it is decoded, the checks aside. *)
Definition entry_partition (index : Z) (entry : list Z) : option GptPartition :=
  if is_zero_guid entry ENTRY_TYPE_GUID_OFFSET then None else
  Some (mkGptPartition (slice entry ENTRY_TYPE_GUID_OFFSET 16) (slice entry ENTRY_UNIQUE_GUID_OFFSET 16)
          (read_u64 entry ENTRY_FIRST_LBA_OFFSET) (read_u64 entry ENTRY_LAST_LBA_OFFSET)
          (read_u64 entry ENTRY_ATTRIBUTES_OFFSET) (parse_name entry)
          (parse_name_length (parse_name entry)) index).

Lemma parse_entry_inr h l index entry r :
  partitions_ok h l -> parse_entry h l index entry = inr r ->
  r = entry_partition index entry /\ partitions_ok h (l ++ option_list r).
Proof.
  intros Hl H. unfold parse_entry in H. unfold entry_partition. destruct (is_zero_guid _ _).
  { injection H as <-. split; [done|]. cbn. by rewrite app_nil_r. }
  cbv zeta in H. destruct (_ || _) eqn:Er; [done|]. destruct (existsb _ _) eqn:Ex; [done|].
  destruct (Nat.leb_spec GPT_MAXIMUM_PARTITIONS (length l)) as [|Hlen]; [done|]. injection H as <-.
  split; [done|]. set (p := mkGptPartition _ _ _ _ _ _ _ _).
  change (option_list (Some p)) with [p].
  assert (forall i q, l !! i = Some q -> disjoint_ranges p q) as Hp.
  { intros i q Hq. unfold disjoint_ranges, p. cbn [first_lba last_lba].
    assert (ranges_overlap (read_u64 entry ENTRY_FIRST_LBA_OFFSET) (read_u64 entry ENTRY_LAST_LBA_OFFSET)
      (first_lba q) (last_lba q) = false) as Eo.
    { apply not_true_iff_false. intros Ht. apply not_true_iff_false in Ex. apply Ex, existsb_exists.
      exists q. split; [|done]. apply list_elem_of_In. by eapply list_elem_of_lookup_2. }
    unfold ranges_overlap in Eo. lia. }
  destruct Hl. constructor.
  - rewrite length_app. cbn [length]. lia.
  - apply Forall_app. split; [done|]. apply Forall_singleton. unfold p. cbn [first_lba last_lba]. lia.
  - intros i j a b Hij Hi Hj.
    apply lookup_app_Some in Hi as [Hi|[Hi0 Hi]]; apply lookup_app_Some in Hj as [Hj|[Hj0 Hj]].
    + by eapply po_disjoint0.
    + apply list_lookup_singleton_Some in Hj as [_ <-]. pose proof (Hp _ _ Hi). unfold disjoint_ranges in *. lia.
    + apply list_lookup_singleton_Some in Hi as [_ <-]. by eapply Hp.
    + apply list_lookup_singleton_Some in Hi as [? _]. apply list_lookup_singleton_Some in Hj as [? _]. lia.
Qed.

Section device.
Context {W : Type}.

Lemma entries_loop_ok n : forall (d : Device W) io hdr index l io' l',
  partitions_ok hdr l -> entries_loop n d io hdr index l = (io', inr l') -> partitions_ok hdr l'.
Proof.
  induction n as [|n IH]; intros d io hdr index l io' l' Hl H; cbn [entries_loop] in H.
  - by injection H as _ <-.
  - destruct (read_entry_bytes _ _ _ _ _) as [[io1 st] entry]. destruct st; try done.
    destruct (parse_entry hdr l index entry) as [|[p|]] eqn:E; [done|..];
      destruct (parse_entry_inr _ _ _ _ _ Hl E) as [_ Hl'].
    + eapply (IH d io1 hdr (index + 1) (l ++ [p])); done.
    + by eapply (IH d io1 hdr (index + 1) l).
Qed.

(** How [parse_primary] succeeds. *)
Lemma parse_primary_Some device (io : IO W) has io' res t :
  parse_primary device io has = (io', res, Some t) ->
  exists d hdr bytes io1 io2 crc, device = Some d /\ validate (Some d) = Ok /\ res = mkResult GptOk Ok NO_ENTRY_INDEX /\
    512 <= sector_size d <= 4096 /\ 1 < sector_count d /\
    read_one_sector d io PRIMARY_HEADER_LBA = (io1, Ok, bytes) /\
    parse_header (sector_size d) (sector_count d)
      (bytes ++ replicate (Z.to_nat GPT_MAXIMUM_SECTOR_SIZE - length bytes) 0) = inr hdr /\
    crc_loop (Z.to_nat (h_entry_blocks hdr)) d io1 (h_entry_array_lba hdr) (h_entry_bytes hdr) UINT32_MAX
      = (io2, inr crc) /\ Z.lxor crc UINT32_MAX = h_entry_crc hdr /\
    entries_loop (Z.to_nat (h_entry_count hdr)) d io2 hdr 0 [] = (io', inr (partitions t)) /\
    t = mkTable GPT_REVISION_1_0 (h_header_size hdr) PRIMARY_HEADER_LBA (h_backup_lba hdr)
          (h_first_usable hdr) (h_last_usable hdr) (h_guid hdr) (h_entry_array_lba hdr)
          (h_entry_count hdr) (h_entry_size hdr) (partitions t).
Proof.
  unfold parse_primary. destruct has; [|done]. cbn [negb].
  destruct (validate device) eqn:Hv; try done. destruct device as [d|]; [|done].
  destruct (_ || _) eqn:Es; [done|]. destruct (sector_count d <=? _) eqn:Ec; [done|].
  destruct (read_one_sector d io PRIMARY_HEADER_LBA) as [[io1 st] bytes] eqn:Er. destruct st; try done.
  cbv zeta. destruct (parse_header _ _ _) as [|hdr] eqn:Eh; [done|].
  destruct (crc_loop _ _ _ _ _ _) as [io2 [|crc]] eqn:El; [done|].
  destruct (Z.eqb_spec (Z.lxor crc UINT32_MAX) (h_entry_crc hdr)) as [Ecrc|]; [|done]. cbn [negb].
  destruct (entries_loop _ _ _ _ _ _) as [io3 [|l]] eqn:Ee; [done|]. intros [= <- <- <-].
  exists d, hdr, bytes, io1, io2, crc. unfold GPT_MAXIMUM_SECTOR_SIZE, PRIMARY_HEADER_LBA in *.
  repeat split; done || lia.
Qed.

Lemma no_partitions_ok h : partitions_ok h [].
Proof. constructor; [cbn; lia|constructor|]. intros i j p q _ Hi. by rewrite lookup_nil in Hi. Qed.

Lemma parse_primary_layout device (io : IO W) has io' res t :
  parse_primary device io has = (io', res, Some t) ->
  exists d hdr, device = Some d /\ header_ok (sector_size d) (sector_count d) hdr /\
    partitions_ok hdr (partitions t) /\ first_usable_lba t = h_first_usable hdr /\
    last_usable_lba t = h_last_usable hdr /\ backup_lba t = h_backup_lba hdr.
Proof.
  intros H. apply parse_primary_Some in H
    as (d & hdr & bytes & io1 & io2 & crc & -> & _ & _ & _ & _ & _ & Hh & _ & _ & He & Et).
  exists d, hdr. split; [done|]. split; [by eapply parse_header_ok|].
  split; [eapply entries_loop_ok; [apply no_partitions_ok|done]|]. rewrite Et. done.
Qed.

(** Exactly one of the error statuses is reported when nothing is stored. *)
Lemma entries_loop_error n : forall (d : Device W) io hdr index l io' r,
  entries_loop n d io hdr index l = (io', inl r) ->
  status r ≠ GptOk /\ (block_status r ≠ Ok <-> status r = InvalidBlockDevice \/ status r = BlockDeviceError).
Proof.
  induction n as [|n IH]; intros d io hdr index l io' r H; cbn [entries_loop] in H; [done|].
  destruct (read_entry_bytes _ _ _ _ _) as [[io1 st] entry]. destruct (decide (st = Ok)) as [->|Hne].
  - destruct (parse_entry hdr l index entry) as [st|[p|]] eqn:E; [|by eapply IH..].
    injection H as _ <-. cbn. unfold parse_entry in E.
    destruct (is_zero_guid _ _); [done|]. cbv zeta in E. repeat case_match; simplify_eq;
      (split; [done|]); (split; [done|]); by intros [].
  - assert (r = mkResult BlockDeviceError st index) as -> by (destruct st; by simplify_eq).
    cbn. split; [done|]. split; [by right|done].
Qed.

Lemma crc_loop_error n : forall (d : Device W) io lba rem crc io' st,
  crc_loop n d io lba rem crc = (io', inl st) -> st ≠ Ok.
Proof.
  induction n as [|n IH]; intros d io lba rem crc io' st H; cbn [crc_loop] in H; [done|].
  destruct (read_one_sector _ _ _) as [[io1 st1] sector]. destruct st1; by simplify_eq || by eapply IH.
Qed.

Lemma parse_header_error ss sectors header st : parse_header ss sectors header = inl st ->
  st ≠ GptOk /\ st ≠ InvalidBlockDevice /\ st ≠ BlockDeviceError.
Proof. unfold parse_header. cbv zeta. intros H. repeat (case_match; [by simplify_eq|]). by simplify_eq. Qed.
End device.

(** ** On a working disk *)

Lemma gpt_slice_length bytes off n : length (slice bytes off n) = n.
Proof. unfold slice. rewrite length_fmap, length_seqZ. lia. Qed.

Lemma gpt_slice_app bytes off n m : 0 <= off -> slice bytes off (n + m) = slice bytes off n ++ slice bytes (off + Z.of_nat n) m.
Proof.
  intros Ho. unfold slice. rewrite Nat2Z.inj_add, seqZ_app, fmap_app by lia. f_equal.
  replace (0 + Z.of_nat n) with (Z.of_nat n + 0) by lia. rewrite <- fmap_add_seqZ, <- list_fmap_compose.
  apply list_fmap_ext. intros k x _. cbn. f_equal. lia.
Qed.

(** Byte [o] of a sequence of sectors of equal size. *)
Lemma word_at_range (f : Z -> list Z) ss first n o :
  0 < ss -> (forall i, first <= i < first + n -> length (f i) = Z.to_nat ss) -> 0 <= o < n * ss ->
  word_at (range_bytes f first n) o = word_at (f (first + o / ss)) (o mod ss).
Proof.
  intros Hss Hf Ho. assert (0 <= n) by nia. rewrite <- (Z2Nat.id n) in Hf, Ho |- * by lia.
  revert first o Hf Ho. induction (Z.to_nat n) as [|k IH]; intros first o Hf Ho; [lia|].
  rewrite Nat2Z.inj_succ, <- Z.add_1_r, range_bytes_cons by lia.
  destruct (Z.lt_ge_cases o ss) as [Hlt|Hge].
  - rewrite Z.div_small, Z.mod_small, Z.add_0_r by lia. unfold word_at.
    apply app_nth1. rewrite Hf by lia. lia.
  - replace (word_at _ o) with (word_at (range_bytes f (first + 1) (Z.of_nat k)) (o - ss)).
    + rewrite IH by ((intros; apply Hf; lia) || nia).
      replace o with ((o - ss) + 1 * ss) at 3 4 by lia. rewrite Z.div_add, Z.mod_add by lia. do 2 f_equal. lia.
    + unfold word_at. rewrite app_nth2; rewrite Hf by lia; [|lia]. f_equal. lia.
Qed.

(** [crc32_update] over consecutive pieces. *)
Lemma crc32_update_app crc a b :
  crc32_update crc (a ++ b) (length a + length b) = crc32_update (crc32_update crc a (length a)) b (length b).
Proof. unfold crc32_update. rewrite !take_ge by (rewrite ?length_app; lia). apply fold_left_app. Qed.

Section disk.
Context {W : Type} (d : Device W) (content : W -> Z -> list Z).
Context (Hd : Disk d content).
Hypothesis Hss : 512 <= sector_size d <= 4096.

Lemma read_sector_disk io lba :
  0 <= lba < sector_count d ->
  read_one_sector d io lba = (record_disk_blocks io 1, Ok, content (world io) lba).
Proof.
  intros Hl. unfold read_one_sector.
  rewrite (disk_read_blocks d content io lba 1 (sector_size d) Hd) by (word_unfold; lia).
  do 2 f_equal. rewrite (range_bytes_cons _ lba 0) by lia. apply app_nil_r.
Qed.

Lemma sector_length w i : 0 <= i < sector_count d -> length (content w i) = Z.to_nat (sector_size d).
Proof. apply (disk_sector (Disk := Hd)). Qed.

(** The CRC loop computes the CRC of the first [rem] bytes of the entry array. *)
Lemma crc_loop_disk n : forall io lba rem crc,
  0 <= lba -> lba + Z.of_nat n <= sector_count d -> 0 <= rem ->
  exists io', crc_loop n d io lba rem crc =
    (io', inr (crc32_update crc (range_bytes (content (world io)) lba (Z.of_nat n)) (Z.to_nat rem))) /\
    world io' = world io.
Proof.
  induction n as [|n IH]; intros io lba rem crc Hl Hn Hr; cbn [crc_loop].
  - exists io. split; [|done]. change (range_bytes (content (world io)) lba (Z.of_nat 0)) with (@nil Z).
    unfold crc32_update. by rewrite take_nil.
  - rewrite read_sector_disk by lia. cbv zeta.
    set (amount := if rem <? sector_size d then rem else sector_size d).
    assert (0 <= amount <= rem /\ amount <= sector_size d /\ (amount < sector_size d -> amount = rem)) as Ham
      by (unfold amount; destruct (Z.ltb_spec rem (sector_size d)); lia).
    destruct (IH (record_disk_blocks io 1) (lba + 1) (rem - amount)
      (crc32_update crc (content (world io) lba) (Z.to_nat amount))) as (io' & -> & Hw); [lia..|].
    rewrite record_world in *. exists io'. split; [|done]. do 2 f_equal.
    rewrite Nat2Z.inj_succ, <- Z.add_1_r, range_bytes_cons by lia. set (rest := range_bytes _ (lba + 1) _).
    unfold crc32_update. rewrite <- fold_left_app. f_equal.
    pose proof (sector_length (world io) lba ltac:(lia)) as Hsl.
    destruct (Z.lt_ge_cases amount (sector_size d)) as [Hlt|Hge].
    + destruct Ham as (_ & _ & Ham). rewrite (Ham Hlt), Z.sub_diag. rewrite take_app_le by lia.
      cbn. by rewrite take_0, app_nil_r.
    + replace amount with (sector_size d) by lia. rewrite <- Hsl at 1. rewrite (take_ge (content _ _)) by lia.
      replace (Z.to_nat rem) with (length (content (world io) lba) + Z.to_nat (rem - sector_size d))%nat by lia.
      by rewrite take_app_add.
Qed.

(** [read_entry_bytes] returns the bytes of the entry array, across sector
    boundaries, and never runs out of iterations. *)
Lemma read_entry_loop_disk fuel : forall io lba n base count acc,
  0 <= lba -> lba + n <= sector_count d -> 0 <= base -> base + count <= n * sector_size d ->
  Z.of_nat (length acc) <= count -> count <= Z.of_nat (length acc) + Z.of_nat fuel -> n * sector_size d < 2 ^ 63 ->
  acc = slice (range_bytes (content (world io)) lba n) base (length acc) ->
  exists io', read_entry_loop fuel d io lba (base + Z.of_nat (length acc)) count acc =
    (io', Ok, slice (range_bytes (content (world io)) lba n) base (Z.to_nat count)) /\ world io' = world io.
Proof.
  pose proof (disk_geometry (Disk := Hd)) as Hg.
  induction fuel as [|fuel IH]; intros io lba n base count acc Hl Hn Hb Hc Ha Hf Hw63 Hacc; cbn [read_entry_loop];
    (destruct (Z.leb_spec count (Z.of_nat (length acc)));
      [exists io; split; [|done]; f_equal; rewrite Hacc at 1; f_equal; lia|]); [lia|].
  set (cur := base + Z.of_nat (length acc)). set (ss := sector_size d) in *.
  assert (0 <= cur < n * ss) as Hcur by (unfold cur; lia).
  pose proof (Z.div_mod cur ss ltac:(lia)) as Hdm. pose proof (Z.mod_pos_bound cur ss ltac:(lia)) as Hmb.
  assert (0 <= cur / ss < n) as Hq by (split; [apply Z.div_pos; lia|apply Z.div_lt_upper_bound; lia]).
  replace (UINT64_MAX - cur / ss <? lba) with false by (word_unfold; lia).
  rewrite read_sector_disk by lia. cbv zeta. set (within := cur mod ss) in *.
  set (remaining := count - Z.of_nat (length acc)).
  set (amount := if remaining <? ss - within then remaining else ss - within).
  assert (1 <= amount <= remaining /\ amount <= ss - within) as Ham
    by (unfold amount, remaining; destruct (Z.ltb_spec (count - Z.of_nat (length acc)) (ss - within)); lia).
  assert (slice (content (world io) (lba + cur / ss)) within (Z.to_nat amount) =
    slice (range_bytes (content (world io)) lba n) cur (Z.to_nat amount)) as Epiece.
  { apply list_fmap_ext. intros k x Hx. apply list_elem_of_lookup_2, elem_of_seqZ in Hx.
    assert ((cur + x) / ss = cur / ss) as Eq by (symmetry; apply (Z.div_unique _ _ _ (within + x)); lia).
    assert ((cur + x) mod ss = within + x) as Em by (symmetry; apply (Z.mod_unique _ _ (cur / ss)); lia).
    rewrite (word_at_range _ ss), Eq, Em; [done|lia| |].
    - intros i Hi. apply sector_length. lia.
    - unfold remaining, cur in *. lia. }
  rewrite Epiece, (u64_small (cur + amount)) by (unfold remaining, cur in *; word_lia).
  set (acc' := acc ++ slice _ cur _).
  assert (length acc' = (length acc + Z.to_nat amount)%nat) as Hlen
    by (unfold acc'; by rewrite length_app, gpt_slice_length).
  replace (cur + amount) with (base + Z.of_nat (length acc')) by (rewrite Hlen; unfold cur; lia).
  rewrite <- (record_world io 1) in Epiece |- *.
  destruct (IH (record_disk_blocks io 1) lba n base count acc') as (io' & E & Hw').
  1-4: done. 1-3: rewrite ?Hlen; unfold remaining in *; lia.
  - rewrite Hlen, gpt_slice_app by lia. unfold acc'. rewrite Hacc at 1. rewrite !record_world. done.
  - exists io'. rewrite E. split; [done|]. by rewrite Hw', !record_world.
Qed.

Lemma read_entry_disk io lba n base count :
  0 <= lba -> lba + n <= sector_count d -> 0 <= base -> 0 <= count -> base + count <= n * sector_size d ->
  n * sector_size d < 2 ^ 63 ->
  exists io', read_entry_bytes d io lba base count =
    (io', Ok, slice (range_bytes (content (world io)) lba n) base (Z.to_nat count)) /\ world io' = world io.
Proof.
  intros. unfold read_entry_bytes.
  destruct (read_entry_loop_disk (Z.to_nat count) io lba n base count []) as (io' & E & Hw); try done; cbn; try lia.
  exists io'. cbn in E. rewrite Z.add_0_r in E. done.
Qed.

(** The entry with index [i] in the array. *)
Definition array_entry (array : list Z) (esize i : Z) : list Z := slice array (i * esize) (Z.to_nat esize).

Lemma entries_loop_disk n : forall io hdr blocks index l io' l',
  0 <= h_entry_array_lba hdr -> h_entry_array_lba hdr + blocks <= sector_count d -> 0 <= index ->
  0 <= h_entry_size hdr -> (index + Z.of_nat n) * h_entry_size hdr <= blocks * sector_size d ->
  blocks * sector_size d < 2 ^ 63 -> partitions_ok hdr l ->
  entries_loop n d io hdr index l = (io', inr l') ->
  world io' = world io /\
  l' = l ++ omap (fun i => entry_partition i (array_entry
    (range_bytes (content (world io)) (h_entry_array_lba hdr) blocks) (h_entry_size hdr) i)) (seqZ index (Z.of_nat n)).
Proof.
  induction n as [|n IH]; intros io hdr blocks index l io' l' Hl Hn Hi Hs Hc Hw Hok H; cbn [entries_loop] in H.
  - injection H as <- <-. split; [done|]. cbn. by rewrite app_nil_r.
  - rewrite u64_small in H by (unfold is_u64; nia).
    destruct (read_entry_disk io (h_entry_array_lba hdr) blocks (index * h_entry_size hdr) (h_entry_size hdr))
      as (io1 & E & Hw1); [done|done|nia|done|nia|done|]. rewrite E in H.
    fold (array_entry (range_bytes (content (world io)) (h_entry_array_lba hdr) blocks) (h_entry_size hdr) index) in H.
    destruct (parse_entry hdr l index _) as [|r] eqn:Ep; [done|].
    destruct (parse_entry_inr _ _ _ _ _ Hok Ep) as [-> Hok'].
    rewrite Nat2Z.inj_succ, seqZ_cons, Z.pred_succ by lia. cbn [omap list_omap].
    set (r := entry_partition index _) in *.
    assert (entries_loop n d io1 hdr (index + 1) (l ++ option_list r) = (io', inr l')) as H'
      by (destruct r; [done|]; cbn; by rewrite app_nil_r).
    apply (IH io1 hdr blocks (index + 1) _ io' l') in H' as [-> ->]; [|lia..|done|done].
    rewrite Hw1. split; [done|]. rewrite <- app_assoc. by destruct r.
Qed.

End disk.

(** ** Properties *)

Lemma word_at_nonneg l i : Forall (Z.le 0) l -> 0 <= word_at l i.
Proof.
  intros Hf. unfold word_at. destruct (nth_in_or_default (Z.to_nat i) l 0) as [Hin| ->]; [|lia].
  rewrite Forall_forall in Hf. apply Hf. by apply list_elem_of_In.
Qed.

Lemma read_u32_nonneg l off : Forall (Z.le 0) l -> 0 <= read_u32 l off.
Proof.
  intros Hf. unfold read_u32. repeat rewrite Z.lor_nonneg. rewrite !Z.shiftl_nonneg.
  repeat split; by apply word_at_nonneg.
Qed.

Lemma parse_header_fields ss sectors header h :
  parse_header ss sectors header = inr h ->
  h_entry_count h = read_u32 (clear_crc header) HEADER_ENTRY_COUNT_OFFSET /\
  h_entry_crc h = read_u32 (clear_crc header) HEADER_ENTRY_CRC_OFFSET.
Proof. unfold parse_header. cbv zeta. repeat guard_step. by intros [= <-]. Qed.

Lemma clear_crc_nonneg header : Forall (Z.le 0) header -> Forall (Z.le 0) (clear_crc header).
Proof. intros Hf. unfold clear_crc. cbv zeta. by repeat (apply Forall_insert; [|done]). Qed.

(** A disk of twelve 512-byte sectors with two partitions, sectors 3-5 and 6-9. *)
Definition le_bytes (n : nat) (v : Z) : list Z := (fun k => Z.land (Z.shiftr v (8 * k)) 255) <$> seqZ 0 (Z.of_nat n).

Definition example_entry (first last : Z) : list Z :=
  replicate 16 1 ++ replicate 16 2 ++ le_bytes 8 first ++ le_bytes 8 last ++ replicate 80 0.

Definition example_array : list Z :=
  example_entry 3 5 ++ replicate 128 0 ++ example_entry 6 9 ++ replicate 128 0.

Definition example_header_with (crc : Z) : list Z :=
  EFI_PART ++ le_bytes 4 GPT_REVISION_1_0 ++ le_bytes 4 92 ++ le_bytes 4 crc ++ le_bytes 4 0 ++
  le_bytes 8 1 ++ le_bytes 8 11 ++ le_bytes 8 3 ++ le_bytes 8 9 ++ replicate 16 7 ++ le_bytes 8 2 ++
  le_bytes 4 4 ++ le_bytes 4 128 ++ le_bytes 4 (crc32 example_array 512).

Definition example_header : list Z := example_header_with (crc32 (example_header_with 0) 92).

Definition example_disk (i : Z) : list Z :=
  if i =? 1 then example_header else if i =? 2 then example_array else [].

Lemma example_disk_bytes i : Forall (Z.le 0) (ram_content 512 example_disk i).
Proof.
  assert (forall l, forallb (Z.leb 0) l = true -> Forall (Z.le 0) l) as Hb.
  { intros l Hl. apply Forall_forall. intros x Hx. rewrite forallb_forall in Hl.
    apply Z.leb_le, Hl. by apply list_elem_of_In. }
  unfold example_disk, ram_content. destruct (i =? 1); [|destruct (i =? 2)]; apply Hb; vm_compute; reflexivity.
Qed.

Definition example_io : IO (Z -> list Z) := mkIO example_disk 0.

Definition example_device : Device (Z -> list Z) := ram_device 512 12.

(** Whatever a device returns, hostile data included, a table that
    [parse_primary] accepts has at most 128 partitions; each lies inside the
    usable range, which starts after the header and ends before the backup
    header on the last sector; and no two partitions share a sector. *)
Theorem gpt_partitions_ok {W} (d : Device W) io has io' res t :
  parse_primary (Some d) io has = (io', res, Some t) ->
  (length (partitions t) <= GPT_MAXIMUM_PARTITIONS)%nat /\
  1 < first_usable_lba t <= last_usable_lba t /\ last_usable_lba t < backup_lba t /\
  backup_lba t = sector_count d - 1 /\
  (forall i p, partitions t !! i = Some p ->
     first_usable_lba t <= first_lba p <= last_lba p /\ last_lba p <= last_usable_lba t) /\
  (forall i j p q, i ≠ j -> partitions t !! i = Some p -> partitions t !! j = Some q ->
     last_lba p < first_lba q \/ last_lba q < first_lba p).
Proof.
  intros H. apply parse_primary_layout in H as (d' & hdr & [= <-] & Ho & Hp & Ef & El & Eb).
  rewrite Ef, El, Eb. destruct Hp as [Hc Hr Hdis]. split; [done|].
  split; [apply Ho|]. split; [apply Ho|]. split; [apply Ho|]. split; [|exact Hdis].
  intros i p Hi. rewrite Forall_lookup in Hr. by eapply Hr.
Qed.

Lemma gpt_partitions_ok_witness :
  exists t, snd (parse_primary (Some example_device) example_io true) = Some t /\
    (length (partitions t) <= 128)%nat /\
    ((fun p => (first_lba p, last_lba p)) <$> partitions t) = [(3, 5); (6, 9)].
Proof.
  assert (match snd (parse_primary (Some example_device) example_io true) with
          | Some t => (fun p => (first_lba p, last_lba p)) <$> partitions t
          | None => []
          end = [(3, 5); (6, 9)]) as Hr by (vm_compute; reflexivity).
  destruct (parse_primary (Some example_device) example_io true) as [[io' res] [t|]] eqn:E;
    cbn [snd] in Hr; [|discriminate Hr].
  exists t. split; [reflexivity|]. split; [|exact Hr].
  exact (proj1 (gpt_partitions_ok example_device example_io true io' res t E)).
Defined.

(** [parse_primary] is transactional and its result is consistent: the output
    is stored exactly when the status is Ok, and a block-layer status other than
    Ok is reported exactly with InvalidBlockDevice and BlockDeviceError. *)
Theorem gpt_result_ok {W} (device : option (Device W)) io has io' res out :
  parse_primary device io has = (io', res, out) ->
  (status res = GptOk <-> is_Some out) /\
  (block_status res ≠ Ok <-> status res = InvalidBlockDevice \/ status res = BlockDeviceError).
Proof.
  assert (forall st (o : option Table), st ≠ GptOk -> o = None ->
    (st = GptOk <-> is_Some o)) as Hnone by (intros st o H1 ->; split; [done|by intros []]).
  assert (forall st, st ≠ Ok -> forall i, (block_status (mkResult BlockDeviceError st i) ≠ Ok <->
    status (mkResult BlockDeviceError st i) = InvalidBlockDevice \/
    status (mkResult BlockDeviceError st i) = BlockDeviceError)) as Hdev by (intros; split; [by right|done]).
  assert (forall st, st ≠ InvalidBlockDevice -> st ≠ BlockDeviceError ->
    (block_status (failure st) ≠ Ok <-> status (failure st) = InvalidBlockDevice \/ status (failure st) = BlockDeviceError))
    as Hfail by (intros st H1 H2; split; [done|by intros []]).
  intros H. unfold parse_primary in H. destruct has; [|by injection H as _ <- <-; split; [apply Hnone|apply Hfail]].
  cbn [negb] in H. destruct (decide (validate device = Ok)) as [Hv|Hv].
  2:{ assert (res = mkResult InvalidBlockDevice (validate device) NO_ENTRY_INDEX /\ out = None) as [-> ->]
        by (destruct (validate device); try done; injection H as _ <- <-; done).
      split; [by apply Hnone|]. cbn. split; [by left|done]. }
  rewrite Hv in H. destruct device as [d|]; [|done].
  destruct (_ || _); [by injection H as _ <- <-; split; [apply Hnone|apply Hfail]|].
  destruct (sector_count d <=? _); [by injection H as _ <- <-; split; [apply Hnone|apply Hfail]|].
  destruct (read_one_sector d io PRIMARY_HEADER_LBA) as [[io1 st] bytes]. cbv zeta in H.
  destruct (decide (st = Ok)) as [->|Hst].
  2:{ assert (res = mkResult BlockDeviceError st NO_ENTRY_INDEX /\ out = None) as [-> ->]
        by (destruct st; try done; injection H as _ <- <-; done). split; [by apply Hnone|by apply Hdev]. }
  destruct (parse_header _ _ _) as [st|hdr] eqn:Eh.
  { destruct (parse_header_error _ _ _ _ Eh) as (? & ? & ?).
    injection H as _ <- <-. split; [by apply Hnone|by apply Hfail]. }
  destruct (crc_loop _ _ _ _ _ _) as [io2 [st|crc]] eqn:El.
  { apply crc_loop_error in El. injection H as _ <- <-. split; [by apply Hnone|by apply Hdev]. }
  destruct (negb _); [by injection H as _ <- <-; split; [apply Hnone|apply Hfail]|].
  destruct (entries_loop _ _ _ _ _ _) as [io3 [r|l]] eqn:Ee.
  { apply entries_loop_error in Ee as [? ?]. injection H as _ <- <-. split; [by apply Hnone|done]. }
  injection H as _ <- <-. split; [split; [by eexists|done]|]. cbn. split; [done|by intros []].
Qed.

Lemma gpt_result_ok_witness :
  status (snd (fst (parse_primary (Some example_device) (mkIO (fun _ => []) 0) true))) ≠ GptOk /\
  snd (parse_primary (Some example_device) (mkIO (fun _ => []) 0) true) = None.
Proof.
  destruct (parse_primary (Some example_device) (mkIO (fun _ => []) 0) true) as [[io' res] out] eqn:E.
  pose proof (gpt_result_ok (Some example_device) (mkIO (fun _ => []) 0) true io' res out E) as [H _].
  assert (status res = InvalidSignature) as Es
    by (apply (f_equal (fun r => status (snd (fst r)))) in E; vm_compute in E; symmetry; exact E).
  cbn [fst snd]. rewrite Es. split; [discriminate|]. destruct out as [t|]; [|reflexivity].
  exfalso. rewrite Es in H. destruct H as [_ H]. discriminate H. by eexists.
Defined.

(** The bytes from the start of sector [lba] of the medium on. *)
Definition medium_bytes (f : Z -> list Z) (ss lba count : Z) : list Z :=
  (fun o => word_at (f (lba + o / ss)) (o mod ss)) <$> seqZ 0 count.

Lemma medium_bytes_slice (f : Z -> list Z) ss lba n count :
  0 < ss -> (forall i, lba <= i < lba + n -> length (f i) = Z.to_nat ss) -> 0 <= count <= n * ss ->
  medium_bytes f ss lba count = slice (range_bytes f lba n) 0 (Z.to_nat count).
Proof.
  intros Hss Hf Hc. unfold medium_bytes, slice. rewrite Z2Nat.id by lia. apply list_fmap_ext.
  intros k x Hx%list_elem_of_lookup_2%elem_of_seqZ. symmetry. apply word_at_range; [done..|lia].
Qed.

Lemma gpt_take_slice bytes k : (k <= length bytes)%nat -> take k bytes = slice bytes 0 k.
Proof.
  intros Hk. apply list_eq_same_length with (n := k); [apply gpt_slice_length|rewrite length_take; lia|].
  intros i x y Hi Hx Hy. rewrite lookup_take_lt in Hx by done. unfold slice in Hy.
  rewrite list_lookup_fmap, lookup_seqZ_lt in Hy by lia. cbn in Hy. injection Hy as <-.
  symmetry. apply word_at_lookup. rewrite <- Hx. f_equal. lia.
Qed.

Lemma slice_slice bytes n off k :
  0 <= off -> off + Z.of_nat k <= Z.of_nat n -> slice (slice bytes 0 n) off k = slice bytes off k.
Proof.
  intros Ho Hk. apply list_fmap_ext. intros j x Hx%list_elem_of_lookup_2%elem_of_seqZ.
  apply word_at_lookup. unfold slice. rewrite list_lookup_fmap, lookup_seqZ_lt by lia. cbn. do 2 f_equal. lia.
Qed.

(** The entry array fits its blocks, and the blocks fit the disk. *)
Lemma header_array_bounds ss sectors h :
  header_ok ss sectors h -> 512 <= ss <= 4096 -> 0 < sectors < 2 ^ 64 -> 0 <= h_entry_count h ->
  h_entry_bytes h = h_entry_count h * h_entry_size h /\ 0 < h_entry_bytes h /\
  0 < h_entry_blocks h < 2 ^ 20 /\ h_entry_bytes h <= h_entry_blocks h * ss /\
  1 < h_entry_array_lba h /\ h_entry_array_lba h + h_entry_blocks h <= sectors /\
  h_entry_array_lba h + h_entry_blocks h <= h_first_usable h.
Proof.
  intros [] Hss Hsec Hc. unfold GPT_MAXIMUM_ENTRY_COUNT, GPT_MINIMUM_ENTRY_SIZE, GPT_MAXIMUM_ENTRY_SIZE in *.
  assert (0 < h_entry_count h * h_entry_size h <= 4096 * 1024) as Hb by nia.
  rewrite u64_small in ho_bytes0 by word_lia.
  rewrite (u64_small (h_entry_bytes h - 1)) in ho_blocks0 by (rewrite ho_bytes0; word_lia).
  assert (0 <= (h_entry_bytes h - 1) / ss < 2 ^ 14) as Hq.
  { split; [apply Z.div_pos; lia|]. apply Z.div_lt_upper_bound; lia. }
  rewrite u64_small in ho_blocks0 by word_lia.
  pose proof (Z.mul_succ_div_gt (h_entry_bytes h - 1) ss ltac:(lia)) as Hgt.
  rewrite <- Z.add_1_r, <- ho_blocks0, Z.mul_comm in Hgt.
  rewrite (u64_small (h_entry_array_lba h + h_entry_blocks h)), u64_small in ho_array_last0 by word_lia.
  repeat split; lia.
Qed.

(** On a working disk that holds bytes, [parse_primary] changes nothing on
    the disk, and a table it accepts is the decoding of the disk: the entry
    array, [declared_entry_count * entry_size] bytes from sector
    [entry_array_lba] on, has the CRC recorded in the header, lies before the
    first usable sector, and the partitions are, in order, the entries of that
    array with a non-zero type, decoded field by field, wherever the entries
    fall relative to the sector boundaries. *)
Theorem gpt_entries_faithful {W} (d : Device W) content io io' res t :
  Disk d content -> (forall i, Forall (Z.le 0) (content (world io) i)) ->
  parse_primary (Some d) io true = (io', res, Some t) ->
  let array := medium_bytes (content (world io)) (sector_size d) (entry_array_lba t)
                 (declared_entry_count t * entry_size t) in
  let header := content (world io) 1 ++ replicate (Z.to_nat GPT_MAXIMUM_SECTOR_SIZE - length (content (world io) 1)) 0 in
  world io' = world io /\
  crc32 array (length array) = read_u32 (clear_crc header) HEADER_ENTRY_CRC_OFFSET /\
  entry_array_lba t * sector_size d + Z.of_nat (length array) <= first_usable_lba t * sector_size d /\
  partitions t = omap (fun i => entry_partition i (array_entry array (entry_size t) i))
                   (seqZ 0 (declared_entry_count t)).
Proof.
  intros Hd Hbytes H array header. pose proof (disk_geometry (Disk := Hd)) as Hg.
  apply parse_primary_Some in H
    as (d' & hdr & bytes & io1 & io2 & crc & [= <-] & _ & _ & Hss & Hsc & Hr & Hh & Hcrc & Erec & He & Et).
  unfold PRIMARY_HEADER_LBA in Hr. rewrite (read_sector_disk d content Hd Hss io 1) in Hr by lia. injection Hr as <- <-.
  fold header in Hh. pose proof (parse_header_ok _ _ _ _ Hh) as Hok.
  destruct (parse_header_fields _ _ _ _ Hh) as [Ecount Ecrc].
  assert (0 <= h_entry_count hdr) as Hcount.
  { rewrite Ecount. apply read_u32_nonneg, clear_crc_nonneg. unfold header. apply Forall_app. split; [done|].
    apply Forall_replicate. lia. }
  destruct (header_array_bounds _ _ _ Hok Hss (proj2 Hg) Hcount) as (Eb & Hb0 & Hbl & Hfit & Hl1 & Hl2 & Hl3).
  assert (0 <= h_entry_size hdr) as Hes by (destruct (ho_entry_size _ _ _ Hok) as [[? _] _]; unfold GPT_MINIMUM_ENTRY_SIZE in *; lia).
  assert (entry_array_lba t = h_entry_array_lba hdr /\ declared_entry_count t = h_entry_count hdr /\
    entry_size t = h_entry_size hdr /\ first_usable_lba t = h_first_usable hdr) as (F1 & F2 & F3 & F4)
    by (rewrite Et; done).
  clear Et. rewrite F2, F3, F4.
  assert (array = slice (range_bytes (content (world io)) (h_entry_array_lba hdr) (h_entry_blocks hdr)) 0
    (Z.to_nat (h_entry_bytes hdr))) as Earr.
  { unfold array. rewrite F1, F2, F3, <- Eb. apply medium_bytes_slice; [lia| |lia]. intros i Hi. apply (disk_sector (Disk := Hd)). lia. }
  destruct (crc_loop_disk d content Hd Hss (Z.to_nat (h_entry_blocks hdr)) (record_disk_blocks io 1)
    (h_entry_array_lba hdr) (h_entry_bytes hdr) UINT32_MAX) as (io2' & E2 & Hw2); [lia..|].
  rewrite E2 in Hcrc. injection Hcrc as <- <-. rewrite Z2Nat.id, record_world in * by lia.
  destruct (entries_loop_disk d content Hd Hss (Z.to_nat (h_entry_count hdr)) io2' hdr (h_entry_blocks hdr) 0 []
    io' (partitions t)) as [Hw' Ep]; try done; try lia; [nia|apply no_partitions_ok|].
  assert (length array = Z.to_nat (h_entry_bytes hdr)) as Elen by (rewrite Earr; apply gpt_slice_length).
  split; [congruence|]. split; [|split].
  - rewrite <- Ecrc, <- Erec. unfold crc32, crc32_update. rewrite take_ge by lia. rewrite Earr, <- gpt_take_slice; [done|].
    rewrite (range_bytes_length _ (Z.to_nat (sector_size d))); [nia| |lia].
    intros i Hi. apply (disk_sector (Disk := Hd)). lia.
  - rewrite Elen. nia.
  - rewrite Ep, Z2Nat.id, Hw2 by lia. cbn [app]. apply list_omap_ext, Forall_Forall2_diag, Forall_forall.
    intros i Hi%elem_of_seqZ. f_equal. unfold array_entry. rewrite Earr. symmetry. apply slice_slice; nia.
Qed.

Lemma gpt_entries_faithful_witness :
  exists t, partitions t =
    omap (fun i => entry_partition i (array_entry (medium_bytes (ram_content 512 example_disk) 512 2 512) 128 i))
      (seqZ 0 4) /\ length (partitions t) = 2%nat.
Proof.
  assert (match snd (parse_primary (Some example_device) example_io true) with
          | Some t => (entry_array_lba t, declared_entry_count t, entry_size t, length (partitions t))
          | None => (0, 0, 0, 0%nat)
          end = (2, 4, 128, 2%nat)) as Hr by (vm_compute; reflexivity).
  destruct (parse_primary (Some example_device) example_io true) as [[io' res] [t|]] eqn:E;
    cbn [snd] in Hr; [|discriminate Hr].
  exists t. injection Hr as E1 E2 E3 E4. split; [|exact E4].
  destruct (gpt_entries_faithful example_device (ram_content 512) example_io io' res t) as (_ & _ & _ & Hp).
  - apply ram_disk; lia.
  - exact example_disk_bytes.
  - exact E.
  - rewrite E1, E2, E3 in Hp. exact Hp.
Defined.
