(* ===== verification/KernelHeap.v ===== *)
(** * The kernel heap (memory/allocator.cpp)

    A first-fit allocator over one contiguous region.  The model works on the
    bytes of the region: block headers form a doubly linked list threaded
    through memory, and an allocation prefix lies directly before the pointer
    handed out.  [repr] relates a memory to the list of blocks it encodes; the
    entry points refine operations on that list.

    A list walk takes fuel, [walk_fuel]: a header takes 32 bytes, so a region of
    [g_heap_size] bytes holds at most [g_heap_size / 32] blocks.  A walk that
    ran out of fuel would return [None]; it never does. *)

From S2P Require Import Prelude.

(** ** Byte-addressed memory *)

Definition Memory := Z -> Z.

Fixpoint load_bytes (n : nat) (m : Memory) (a : Z) : Z :=
  match n with
  | O => 0
  | S n => m a + 256 * load_bytes n m (a + 1)
  end.

(** A [size_t], [uintptr_t] or pointer field. *)
Definition load64 (m : Memory) (a : Z) : Z := load_bytes 8 m a.

Definition store64 (m : Memory) (a v : Z) : Memory :=
  fun x => if (a <=? x) && (x <? a + 8) then (v / 256 ^ (x - a)) mod 256 else m x.

Definition store8 (m : Memory) (a v : Z) : Memory := fun x => if x =? a then v else m x.

(** ** Layout of the structures in memory *)

Definition sizeof_BlockHeader : Z := 32.
Definition alignof_BlockHeader : Z := 8.
Definition sizeof_AllocationPrefix : Z := 24.
Definition alignof_AllocationPrefix : Z := 8.
Definition ALLOCATION_MAGIC : Z := 0x4B55524F47414E45.

(** [BlockHeader]: size, used, next, previous. *)
Definition hdr_size (m : Memory) (b : Z) : Z := load64 m b.
Definition hdr_used (m : Memory) (b : Z) : bool := negb (m (b + 8) =? 0).
Definition hdr_next (m : Memory) (b : Z) : Z := load64 m (b + 16).
Definition hdr_previous (m : Memory) (b : Z) : Z := load64 m (b + 24).

Definition set_size (m : Memory) (b v : Z) : Memory := store64 m b v.
Definition set_used (m : Memory) (b : Z) (v : bool) : Memory := store8 m (b + 8) (Z.b2z v).
Definition set_next (m : Memory) (b v : Z) : Memory := store64 m (b + 16) v.
Definition set_previous (m : Memory) (b v : Z) : Memory := store64 m (b + 24) v.

(** [AllocationPrefix]: magic, block, requested_size. *)
Definition pre_magic (m : Memory) (p : Z) : Z := load64 m p.
Definition pre_block (m : Memory) (p : Z) : Z := load64 m (p + 8).
Definition pre_requested (m : Memory) (p : Z) : Z := load64 m (p + 16).
Definition set_prefix (m : Memory) (p magic block requested : Z) : Memory :=
  store64 (store64 (store64 m p magic) (p + 8) block) (p + 16) requested.

Record State := mkState {
  mem : Memory;
  g_heap_start : Z; g_heap_end : Z; g_heap_size : Z; g_first_block : Z;
  g_used_bytes : Z; g_allocation_count : Z }.

Definition reset_heap_state (m : Memory) : State := mkState m 0 0 0 0 0 0.

(** ** Operations *)

Definition checked_add (value increment : Z) : option Z :=
  if UINTPTR_MAX - value <? increment then None else Some (value ⊕ increment).

Definition align_up (value alignment : Z) : option Z :=
  if negb (is_power_of_two alignment) then None
  else
    let mask := alignment ⊖ 1 in
    if UINTPTR_MAX - mask <? value then None else Some (Z.land (value ⊕ mask) (not64 mask)).

Definition block_payload_start (b : Z) : Z := b ⊕ sizeof_BlockHeader.

Fixpoint block_is_known (fuel : nat) (m : Memory) (current target : Z) : option bool :=
  match fuel with
  | O => None
  | S fuel =>
    if current =? 0 then Some false
    else if current =? target then Some true
    else block_is_known fuel m (hdr_next m current) target
  end.

Definition calculate_layout (m : Memory) (block requested_size alignment : Z) : option (Z * Z) :=
  let effective_alignment := if alignment <? alignof_AllocationPrefix then alignof_AllocationPrefix else alignment in
  let payload_start := block_payload_start block in
  prefix_end ← checked_add payload_start sizeof_AllocationPrefix;
  user_address ← align_up prefix_end effective_alignment;
  requested_end ← checked_add user_address requested_size;
  block_end ← checked_add payload_start (hdr_size m block);
  if block_end <? requested_end then None
  else
    Some (user_address,
      match align_up requested_end alignof_BlockHeader with
      | Some split_address =>
        if split_address <=? block_end then split_address ⊖ payload_start else hdr_size m block
      | None => hdr_size m block
      end).

(** The first free block the request fits in, with the address to hand out and
    the payload bytes it takes. *)
Fixpoint find_free_block (fuel : nat) (m : Memory) (current size alignment : Z) : option (option (Z * Z * Z)) :=
  match fuel with
  | O => None
  | S fuel =>
    if current =? 0 then Some None
    else
      match (if hdr_used m current then None else calculate_layout m current size alignment) with
      | Some (user_address, consumed_payload) => Some (Some (current, user_address, consumed_payload))
      | None => find_free_block fuel m (hdr_next m current) size alignment
      end
  end.

Definition blocks_are_adjacent (m : Memory) (first second : Z) : bool :=
  negb (first =? 0) && negb (second =? 0) &&
  match checked_add (block_payload_start first) (hdr_size m first) with
  | Some first_end => first_end =? second
  | None => false
  end.

Definition merge_with_next (m : Memory) (block : Z) : Memory :=
  let next := hdr_next m block in
  if (next =? 0) || hdr_used m next || negb (blocks_are_adjacent m block next) then m
  else
    let m := set_size m block (hdr_size m block ⊕ (sizeof_BlockHeader ⊕ hdr_size m next)) in
    let m := set_next m block (hdr_next m next) in
    if negb (hdr_next m block =? 0) then set_previous m (hdr_next m block) block else m.

Definition walk_fuel (s : State) : nat := S (Z.to_nat (g_heap_size s / sizeof_BlockHeader)).

Definition init_kernel_heap (m : Memory) (start size : Z) : State :=
  let failed := reset_heap_state m in
  if (start =? 0) || (size =? 0) then failed
  else
    match checked_add start size, align_up start alignof_BlockHeader with
    | Some original_end, Some aligned_start =>
      if original_end <=? aligned_start then failed
      else
        let adjusted_size := original_end ⊖ aligned_start in
        let minimum_size := sizeof_BlockHeader + sizeof_AllocationPrefix + 1 in
        if adjusted_size <? minimum_size then failed
        else
          let m := set_size m aligned_start (adjusted_size ⊖ sizeof_BlockHeader) in
          let m := set_used m aligned_start false in
          let m := set_next m aligned_start 0 in
          let m := set_previous m aligned_start 0 in
          mkState m aligned_start original_end adjusted_size aligned_start 0 0
    | _, _ => failed
    end.

(** Lines 208-226: give the tail of the block back when it can hold a block. *)
Definition split_block (m : Memory) (block consumed_payload : Z) : Memory :=
  let remainder := hdr_size m block ⊖ consumed_payload in
  let minimum_free_payload := sizeof_AllocationPrefix + 1 in
  if sizeof_BlockHeader + minimum_free_payload <=? remainder then
    let split := block_payload_start block ⊕ consumed_payload in
    let m := set_size m split (remainder ⊖ sizeof_BlockHeader) in
    let m := set_used m split false in
    let m := set_next m split (hdr_next m block) in
    let m := set_previous m split block in
    let m := if negb (hdr_next m split =? 0) then set_previous m (hdr_next m split) split else m in
    let m := set_size m block consumed_payload in
    set_next m block split
  else m.

Definition kmalloc (s : State) (size alignment : Z) : option (State * Z) :=
  if (g_heap_start s =? 0) || (size =? 0) || negb (is_power_of_two alignment) then Some (s, 0)
  else
    found ← find_free_block (walk_fuel s) (mem s) (g_first_block s) size alignment;
    match found with
    | None => Some (s, 0)
    | Some (block, user_address, consumed_payload) =>
      let m := split_block (mem s) block consumed_payload in
      let m := set_prefix m (user_address ⊖ sizeof_AllocationPrefix) ALLOCATION_MAGIC block size in
      let m := set_used m block true in
      Some (mkState m (g_heap_start s) (g_heap_end s) (g_heap_size s) (g_first_block s)
              (g_used_bytes s ⊕ size) (g_allocation_count s ⊕ 1), user_address)
    end.

(** The early returns of [kfree] before and after the search for the block. *)
Definition bad_pointer (s : State) (address : Z) : bool :=
  (address =? 0) || (g_heap_start s =? 0) ||
  (address <? g_heap_start s ⊕ (sizeof_BlockHeader + sizeof_AllocationPrefix)) ||
  (g_heap_end s <=? address) || (address <? sizeof_AllocationPrefix) ||
  negb (Z.land (address ⊖ sizeof_AllocationPrefix) (alignof_AllocationPrefix - 1) =? 0).

Definition bad_extent (m : Memory) (block address : Z) : bool :=
  let prefix_address := address ⊖ sizeof_AllocationPrefix in
  match checked_add (block_payload_start block) (hdr_size m block),
        checked_add address (pre_requested m prefix_address) with
  | Some payload_end, Some allocation_end =>
    (prefix_address <? block_payload_start block) || (payload_end <? allocation_end)
  | _, _ => true
  end.

(** Lines 284 and 294-298: mark the block free and merge it with its free neighbours. *)
Definition release_block (m : Memory) (block : Z) : Memory :=
  let m := set_used m block false in
  let m := merge_with_next m block in
  if negb (hdr_previous m block =? 0) && negb (hdr_used m (hdr_previous m block))
  then merge_with_next m (hdr_previous m block) else m.

Definition kfree (s : State) (address : Z) : option State :=
  if bad_pointer s address then Some s
  else
    let prefix := address ⊖ sizeof_AllocationPrefix in
    let block := pre_block (mem s) prefix in
    if negb (pre_magic (mem s) prefix =? ALLOCATION_MAGIC) || (block =? 0) then Some s
    else
      known ← block_is_known (walk_fuel s) (mem s) (g_first_block s) block;
      if negb known || negb (hdr_used (mem s) block) || bad_extent (mem s) block address then Some s
      else
        let released_size := pre_requested (mem s) prefix in
        let m := set_prefix (mem s) prefix 0 0 0 in
        Some (mkState (release_block m block) (g_heap_start s) (g_heap_end s) (g_heap_size s) (g_first_block s)
          (if released_size <=? g_used_bytes s then g_used_bytes s ⊖ released_size else 0)
          (if 0 <? g_allocation_count s then g_allocation_count s ⊖ 1 else g_allocation_count s)).

Definition kernel_heap_initialized (s : State) : bool := negb (g_first_block s =? 0).

Definition total_bytes (s : State) : Z :=
  if sizeof_BlockHeader <? g_heap_size s then g_heap_size s ⊖ sizeof_BlockHeader else 0.

Definition used_bytes (s : State) : Z := g_used_bytes s.

Fixpoint free_bytes_loop (fuel : nat) (m : Memory) (current result : Z) : option Z :=
  match fuel with
  | O => None
  | S fuel =>
    if current =? 0 then Some result
    else
      free_bytes_loop fuel m (hdr_next m current)
        (if hdr_used m current then result else result ⊕ hdr_size m current)
  end.

Definition free_bytes (s : State) : option Z := free_bytes_loop (walk_fuel s) (mem s) (g_first_block s) 0.

Definition allocation_count (s : State) : Z := g_allocation_count s.

(** ** The blocks a memory encodes *)

(** A block: its payload size and, when in use, the pointer handed out and the
    size requested. *)
Record Block := mkBlock { b_size : Z; b_alloc : option (Z * Z) }.

(** Bytes taken by the blocks, headers included. *)
Fixpoint extent (l : list Block) : Z :=
  match l with
  | [] => 0
  | b :: l => sizeof_BlockHeader + b_size b + extent l
  end.

(** The address of the last block of [l], which starts at [a]; [prev] if none. *)
Fixpoint last_addr (prev a : Z) (l : list Block) : Z :=
  match l with
  | [] => prev
  | b :: l => last_addr a (a + sizeof_BlockHeader + b_size b) l
  end.

Definition link (l : list Block) (a nxt : Z) : Z := match l with [] => nxt | _ => a end.

Definition prefix_at (m : Memory) (a p n : Z) : Prop :=
  pre_magic m (p - sizeof_AllocationPrefix) = ALLOCATION_MAGIC /\
  pre_block m (p - sizeof_AllocationPrefix) = a /\ pre_requested m (p - sizeof_AllocationPrefix) = n.

(** The allocation of a block starting at [a] lies inside its payload. *)
Definition alloc_ok (a : Z) (b : Block) : Prop :=
  match b_alloc b with
  | None => True
  | Some (p, n) =>
    0 < n /\ p mod alignof_AllocationPrefix = 0 /\
    a + sizeof_BlockHeader + sizeof_AllocationPrefix <= p /\ p + n <= a + sizeof_BlockHeader + b_size b
  end.

Record block_at (m : Memory) (prev a : Z) (b : Block) (nxt : Z) : Prop := {
  ba_aligned : a mod alignof_BlockHeader = 0;
  ba_size_pos : 0 <= b_size b;
  ba_size : hdr_size m a = b_size b;
  ba_used : m (a + 8) = Z.b2z (bool_decide (is_Some (b_alloc b)));
  ba_next : hdr_next m a = nxt;
  ba_previous : hdr_previous m a = prev;
  ba_alloc : alloc_ok a b;
  ba_prefix : match b_alloc b with None => True | Some (p, n) => prefix_at m a p n end }.

Fixpoint blocks_at (m : Memory) (prev a : Z) (l : list Block) (nxt : Z) : Prop :=
  match l with
  | [] => True
  | b :: l' =>
    let a' := a + sizeof_BlockHeader + b_size b in
    block_at m prev a b (link l' a' nxt) /\ blocks_at m a a' l' nxt
  end.

(** No two neighbouring blocks are free. *)
Fixpoint coalesced (l : list Block) : Prop :=
  match l with
  | b :: ((c :: _) as l') => (b_alloc b ≠ None \/ b_alloc c ≠ None) /\ coalesced l'
  | _ => True
  end.

(** The live allocations, in address order. *)
Definition live (l : list Block) : list (Z * Z) := omap b_alloc l.

Definition bytes_ok (m : Memory) : Prop := forall x, 0 <= m x < 256.

Record repr (s : State) (l : list Block) : Prop := {
  r_bytes : bytes_ok (mem s);
  r_start : 0 < g_heap_start s;
  r_end : g_heap_end s < 2 ^ 64;
  r_size : g_heap_size s = g_heap_end s - g_heap_start s;
  r_first : g_first_block s = g_heap_start s;
  r_extent : g_heap_start s + extent l = g_heap_end s;
  r_nonempty : l ≠ [];
  r_blocks : blocks_at (mem s) 0 (g_heap_start s) l 0;
  r_coalesced : coalesced l }.

(** The counters agree with the live allocations. *)
Definition accounted (s : State) (l : list Block) : Prop :=
  g_used_bytes s = foldr Z.add 0 (snd <$> live l) /\
  g_allocation_count s = Z.of_nat (length (live l)).

(** ** Bytes *)

Lemma load_bytes_ext n m m' a :
  (forall x, a <= x < a + Z.of_nat n -> m' x = m x) -> load_bytes n m' a = load_bytes n m a.
Proof.
  revert a; induction n as [|n IH]; intros a H; [done|]. cbn [load_bytes].
  rewrite (H a), IH by (lia || (intros; apply H; lia)). done.
Qed.

Lemma load_bytes_value n m a v :
  (forall i, 0 <= i < Z.of_nat n -> m (a + i) = (v / 256 ^ i) mod 256) -> load_bytes n m a = v mod 256 ^ Z.of_nat n.
Proof.
  revert a v; induction n as [|n IH]; intros a v H; [by rewrite Z.mod_1_r|]. cbn [load_bytes].
  rewrite (IH _ (v / 256)).
  - rewrite <- (Z.add_0_r a), H, Z.pow_0_r, Z.div_1_r by lia.
    rewrite Nat2Z.inj_succ, Z.pow_succ_r, Z.rem_mul_r by lia. lia.
  - intros i Hi. replace (a + 1 + i) with (a + (i + 1)) by lia. rewrite H by lia.
    rewrite Z.pow_add_r, Z.pow_1_r, Z.mul_comm, Z.div_div by lia. done.
Qed.

Lemma load64_ext m m' a : (forall x, a <= x < a + 8 -> m' x = m x) -> load64 m' a = load64 m a.
Proof. intros H. apply load_bytes_ext. intros. apply H. lia. Qed.

Lemma load64_store64 m a v : is_u64 v -> load64 (store64 m a v) a = v.
Proof.
  intros Hv. unfold load64. rewrite (load_bytes_value _ _ _ v).
  - apply Z.mod_small. exact Hv.
  - intros i Hi. unfold store64. replace (_ && _) with true by lia.
    replace (a + i - a) with i by lia. done.
Qed.

Lemma store64_ne m a v x : x < a \/ a + 8 <= x -> store64 m a v x = m x.
Proof. intros H. unfold store64. by replace (_ && _) with false by lia. Qed.

Lemma store8_ne m a v x : x ≠ a -> store8 m a v x = m x.
Proof. intros H. unfold store8. by destruct (Z.eqb_spec x a). Qed.

Lemma heap_store8_eq m a v : store8 m a v a = v.
Proof. unfold store8. by rewrite Z.eqb_refl. Qed.

Lemma load64_store64_ne m a v b : b + 8 <= a \/ a + 8 <= b -> load64 (store64 m a v) b = load64 m b.
Proof. intros H. apply load64_ext. intros. apply store64_ne. lia. Qed.

Lemma load64_store8_ne m a v b : a < b \/ b + 8 <= a -> load64 (store8 m a v) b = load64 m b.
Proof. intros H. apply load64_ext. intros. apply store8_ne. lia. Qed.

Lemma load_bytes_range n m a :
  (forall x, 0 <= m x < 256) -> 0 <= load_bytes n m a < 256 ^ Z.of_nat n.
Proof.
  intros H. revert a; induction n as [|n IH]; intros a; [done|]. cbn [load_bytes].
  pose proof (IH (a + 1)). pose proof (H a). rewrite Nat2Z.inj_succ, Z.pow_succ_r by lia. lia.
Qed.

Lemma load64_range m a : (forall x, 0 <= m x < 256) -> is_u64 (load64 m a).
Proof. intros H. exact (load_bytes_range 8 m a H). Qed.

Lemma store64_ok m a v : bytes_ok m -> bytes_ok (store64 m a v).
Proof. intros H x. unfold store64. destruct (_ && _); [apply Z.mod_pos_bound; lia|apply H]. Qed.

Lemma store8_ok m a v : bytes_ok m -> 0 <= v < 256 -> bytes_ok (store8 m a v).
Proof. intros H Hv x. unfold store8. destruct (_ =? _); [done|apply H]. Qed.

Ltac mem_unfold :=
  unfold hdr_size, hdr_used, hdr_next, hdr_previous, set_size, set_used, set_next, set_previous,
    pre_magic, pre_block, pre_requested, set_prefix in *.

Ltac layout_unfold :=
  unfold sizeof_BlockHeader, alignof_BlockHeader, sizeof_AllocationPrefix, alignof_AllocationPrefix in *.

(** Resolve a read through the stores below it. *)
Ltac mem_read :=
  repeat first
    [ rewrite load64_store64 by word_lia
    | rewrite load64_store64_ne by lia
    | rewrite load64_store8_ne by lia
    | rewrite heap_store8_eq
    | rewrite store64_ne by lia
    | rewrite store8_ne by lia ].

Ltac bytes_solve := repeat first [apply store64_ok | apply store8_ok; [|cbn; lia]]; try done.

(** ** Lists of blocks *)

Lemma extent_app l1 l2 : extent (l1 ++ l2) = extent l1 + extent l2.
Proof. induction l1 as [|b l1 IH]; cbn [extent app]; lia. Qed.

Lemma last_addr_app prev a l1 l2 :
  last_addr prev a (l1 ++ l2) = last_addr (last_addr prev a l1) (a + extent l1) l2.
Proof.
  revert prev a; induction l1 as [|b l1 IH]; intros prev a; cbn [app last_addr extent].
  - by rewrite Z.add_0_r.
  - rewrite IH. f_equal; lia.
Qed.

Lemma link_app l1 l2 a nxt : l1 ≠ [] -> link (l1 ++ l2) a nxt = a.
Proof. by destruct l1. Qed.

Lemma blocks_at_app m prev a l1 l2 nxt :
  blocks_at m prev a (l1 ++ l2) nxt <->
  blocks_at m prev a l1 (link l2 (a + extent l1) nxt) /\
  blocks_at m (last_addr prev a l1) (a + extent l1) l2 nxt.
Proof.
  revert prev a; induction l1 as [|b l1 IH]; intros prev a; cbn [app blocks_at extent last_addr].
  - rewrite Z.add_0_r. naive_solver.
  - rewrite IH. replace (a + sizeof_BlockHeader + b_size b + extent l1)
      with (a + (sizeof_BlockHeader + b_size b + extent l1)) by lia.
    assert (link (l1 ++ l2) (a + sizeof_BlockHeader + b_size b) nxt =
      link l1 (a + sizeof_BlockHeader + b_size b)
        (link l2 (a + (sizeof_BlockHeader + b_size b + extent l1)) nxt)) as ->; [|naive_solver].
    destruct l1; cbn [app link extent]; [|done]. destruct l2; cbn [link]; lia.
Qed.

Lemma blocks_at_sizes m prev a l nxt : blocks_at m prev a l nxt -> Forall (fun b => 0 <= b_size b) l.
Proof.
  revert prev a; induction l as [|b l IH]; intros prev a H; constructor; destruct H as [[] H]; [done|].
  by eapply IH.
Qed.

Lemma extent_nonneg l : Forall (fun b => 0 <= b_size b) l -> 32 * Z.of_nat (length l) <= extent l.
Proof. induction 1; cbn [extent length]; unfold sizeof_BlockHeader in *; lia. Qed.

Lemma blocks_at_extent m prev a l nxt : blocks_at m prev a l nxt -> 32 * Z.of_nat (length l) <= extent l.
Proof. intros H. by eapply extent_nonneg, blocks_at_sizes. Qed.

Lemma prefix_at_ext m m' a p n :
  (forall x, p - sizeof_AllocationPrefix <= x < p -> m' x = m x) -> prefix_at m a p n -> prefix_at m' a p n.
Proof.
  intros H (H1 & H2 & H3). unfold prefix_at. mem_unfold. layout_unfold.
  rewrite !(load64_ext m m') by (intros; apply H; lia). done.
Qed.

(** A block is described by its header and its prefix; the link back can be
    rewritten. *)
Lemma block_at_relink m m' prev prev' a b nxt :
  block_at m prev a b nxt ->
  (forall x, a <= x < a + 24 \/ a + 32 <= x < a + sizeof_BlockHeader + b_size b -> m' x = m x) ->
  hdr_previous m' a = prev' -> block_at m' prev' a b nxt.
Proof.
  intros [] H Hp. assert (forall x, a <= x < a + 24 -> m' x = m x) as H1 by (intros; apply H; lia).
  split; try done; mem_unfold; rewrite ?(load64_ext m m') by (intros; apply H1; lia); try done.
  - rewrite H1 by lia. done.
  - unfold alloc_ok in ba_alloc0. destruct (b_alloc b) as [[p n]|]; [|done].
    eapply prefix_at_ext; [|done]. intros x Hx. apply H. layout_unfold. lia.
Qed.

Lemma block_at_ext m m' prev a b nxt :
  (forall x, a <= x < a + sizeof_BlockHeader + b_size b -> m' x = m x) ->
  block_at m prev a b nxt -> block_at m' prev a b nxt.
Proof.
  intros H Hb. assert (0 <= b_size b) by apply Hb. eapply block_at_relink; [done| |].
  - intros x Hx. apply H. layout_unfold. lia.
  - rewrite <- (ba_previous _ _ _ _ _ Hb). apply load64_ext. intros. apply H. layout_unfold. lia.
Qed.

Lemma blocks_at_ext m m' prev a l nxt :
  (forall x, a <= x < a + extent l -> m' x = m x) -> blocks_at m prev a l nxt -> blocks_at m' prev a l nxt.
Proof.
  revert prev a; induction l as [|b l IH]; intros prev a H; [done|]. cbn [blocks_at extent] in *.
  intros [Hb Hl]. pose proof (blocks_at_extent _ _ _ _ _ Hl). assert (0 <= b_size b) by apply Hb.
  split; [eapply block_at_ext; [|done]|eapply IH; [|done]]; intros x Hx; apply H; layout_unfold; lia.
Qed.

(** The link back of the first block can be rewritten. *)
Lemma blocks_at_relink m m' prev prev' a l nxt :
  blocks_at m prev a l nxt ->
  (forall x, a <= x < a + extent l -> x < a + 24 \/ a + 32 <= x -> m' x = m x) ->
  (l ≠ [] -> hdr_previous m' a = prev') -> blocks_at m' prev' a l nxt.
Proof.
  destruct l as [|b l]; [done|]. cbn [blocks_at extent]. intros [Hb Hl] H Hp.
  pose proof (blocks_at_extent _ _ _ _ _ Hl). assert (0 <= b_size b) by apply Hb.
  split; [eapply block_at_relink; [done| |by apply Hp]|eapply blocks_at_ext; [|done]];
    intros x Hx; apply H; layout_unfold; lia.
Qed.

(** Replace a run of blocks in place. *)
Lemma blocks_at_splice m m' prev a l1 lm lm' l2 nxt :
  let a1 := a + extent l1 in
  let e := a1 + extent lm in
  blocks_at m prev a (l1 ++ lm ++ l2) nxt -> lm ≠ [] -> lm' ≠ [] -> extent lm' = extent lm ->
  blocks_at m' (last_addr prev a l1) a1 lm' (link l2 e nxt) ->
  (forall x, x < a1 \/ e <= x < e + 24 \/ e + 32 <= x -> m' x = m x) ->
  (l2 ≠ [] -> hdr_previous m' e = last_addr (last_addr prev a l1) a1 lm') ->
  blocks_at m' prev a (l1 ++ lm' ++ l2) nxt.
Proof.
  cbv zeta. intros H Hne Hne' Hext Hm Hfr Hp.
  apply blocks_at_app in H as [H1 H]. apply blocks_at_app in H as [_ H2].
  apply blocks_at_app. split.
  - rewrite link_app in * by done. eapply blocks_at_ext; [|done]. intros x Hx. apply Hfr. lia.
  - apply blocks_at_app. rewrite Hext. split; [done|].
    eapply blocks_at_relink; [done| |done]. intros x Hx Hx'. apply Hfr. lia.
Qed.

(** Finding a block by its address. *)
Lemma live_split l p n : (p, n) ∈ live l -> exists l1 b l2, l = l1 ++ b :: l2 /\ b_alloc b = Some (p, n).
Proof.
  unfold live. intros (b & Hb & Hp)%list_elem_of_omap. apply list_elem_of_split in Hb as (l1 & l2 & ->).
  by exists l1, b, l2.
Qed.

Lemma live_app l1 l2 : live (l1 ++ l2) = live l1 ++ live l2.
Proof. apply omap_app. Qed.

Lemma blocks_at_middle m prev a l1 b l2 nxt :
  blocks_at m prev a (l1 ++ b :: l2) nxt ->
  block_at m (last_addr prev a l1) (a + extent l1) b
    (link l2 (a + extent l1 + sizeof_BlockHeader + b_size b) nxt).
Proof. intros H. apply blocks_at_app in H as [_ [H _]]. exact H. Qed.

(** Live data lies inside the payloads, clear of all headers. *)
Lemma live_range m prev a l nxt p n :
  blocks_at m prev a l nxt -> (p, n) ∈ live l ->
  0 < n /\ a + sizeof_BlockHeader + sizeof_AllocationPrefix <= p /\ p + n <= a + extent l.
Proof.
  intros H Hp. apply live_split in Hp as (l1 & b & l2 & -> & Eb).
  pose proof (blocks_at_sizes _ _ _ _ _ H) as Hs. apply Forall_app in Hs as [Hs1 Hs2].
  apply Forall_cons in Hs2 as [Hb Hs2]. apply extent_nonneg in Hs1, Hs2.
  apply blocks_at_middle in H. pose proof (ba_alloc _ _ _ _ _ H) as Ha. unfold alloc_ok in Ha.
  rewrite Eb in Ha. rewrite extent_app. cbn [extent]. layout_unfold. lia.
Qed.

(** ** Alignment and layout *)

Lemma land_not_mask x k : 0 <= k < 64 -> is_u64 x -> Z.land x (not64 (2 ^ k - 1)) = x - x mod 2 ^ k.
Proof.
  intros Hk Hx. unfold not64, u64.
  assert (Z.land x (Z.lnot (2 ^ k - 1) mod 2 ^ 64) = Z.land x (Z.lnot (2 ^ k - 1))) as ->.
  { rewrite <- Z.land_ones, (Z.land_comm (Z.lnot _)), Z.land_assoc, Z.land_ones, Z.mod_small by (done || lia). done. }
  rewrite <- Z.ldiff_land.
  pose proof (Z.ldiff_ones_r x k (proj1 Hk)) as E. rewrite Z.ones_equiv in E.
  replace (2 ^ k - 1) with (Z.pred (2 ^ k)) by lia.
  rewrite E, Z.shiftl_mul_pow2, Z.shiftr_div_pow2 by lia.
  pose proof (Z.div_mod x (2 ^ k) ltac:(lia)). lia.
Qed.

Lemma align_up_value v k :
  is_u64 v -> 0 <= k < 64 ->
  align_up v (2 ^ k) =
    if UINTPTR_MAX - (2 ^ k - 1) <? v then None
    else Some (v + (2 ^ k - 1) - (v + (2 ^ k - 1)) mod 2 ^ k).
Proof.
  intros Hv Hk. assert (0 < 2 ^ k < 2 ^ 64) as Hp by (split; [|apply Z.pow_lt_mono_r]; lia).
  unfold align_up. assert (is_power_of_two (2 ^ k) = true) as ->.
  { unfold is_power_of_two. rewrite (u64_small (2 ^ k - 1)) by word_lia.
    rewrite land_low, Z.mod_same, Z.eqb_refl by lia. by destruct (Z.eqb_spec (2 ^ k) 0); [lia|]. }
  cbn [negb]. cbv zeta. rewrite (u64_small (2 ^ k - 1)) by word_lia.
  destruct (Z.ltb_spec (UINTPTR_MAX - (2 ^ k - 1)) v); [done|].
  rewrite (u64_small (v + (2 ^ k - 1))) by word_lia. rewrite land_not_mask; [done|done|word_lia].
Qed.

Lemma align_up_ok v al :
  is_u64 v -> is_u64 al -> is_power_of_two al = true ->
  match align_up v al with
  | Some r => r mod al = 0 /\ v <= r < v + al /\ r < 2 ^ 64
  | None => forall u, u mod al = 0 -> v <= u -> 2 ^ 64 <= u
  end.
Proof.
  intros Hv Hal Hp. apply is_power_of_two_sound in Hp as (k & Hk & ->); [|done].
  assert (0 < 2 ^ k < 2 ^ 64) as Hk2 by (split; [|apply Z.pow_lt_mono_r]; lia).
  rewrite align_up_value by done.
  destruct (Z.ltb_spec (UINTPTR_MAX - (2 ^ k - 1)) v).
  - intros u Hu Huv. destruct (Z.le_gt_cases (2 ^ 64) u) as [|Hlt]; [done|exfalso].
    apply Z.mod_divide in Hu as [q ->]; [|lia].
    assert (2 ^ 64 = 2 ^ (64 - k) * 2 ^ k) as E by (rewrite <- Z.pow_add_r; [f_equal|..]; lia).
    rewrite E in Hlt. apply Z.mul_lt_mono_pos_r in Hlt; [|lia].
    assert ((q + 1) * 2 ^ k <= 2 ^ (64 - k) * 2 ^ k) by (apply Z.mul_le_mono_nonneg_r; lia).
    unfold UINTPTR_MAX, UINT64_MAX in *. lia.
  - pose proof (Z.mod_pos_bound (v + (2 ^ k - 1)) (2 ^ k) ltac:(lia)).
    split; [|word_lia]. rewrite Zminus_mod_idemp_r, Z.sub_diag. done.
Qed.

Lemma effective_alignment_ok al :
  is_u64 al -> is_power_of_two al = true ->
  let eff := if al <? alignof_AllocationPrefix then alignof_AllocationPrefix else al in
  is_u64 eff /\ is_power_of_two eff = true /\
  (forall u, u mod eff = 0 <-> u mod al = 0 /\ u mod 8 = 0).
Proof.
  intros Hal Hp. cbv zeta. pose proof (is_power_of_two_sound _ Hal Hp) as (k & Hk & ->). layout_unfold.
  destruct (Z.ltb_spec (2 ^ k) 8) as [Hlt|Hge].
  - split; [word_lia|]. split; [done|]. intros u.
    assert (k < 3) by (apply (Z.pow_lt_mono_r_iff 2); lia).
    assert (k = 0 \/ k = 1 \/ k = 2) as [->|[->| ->]] by lia; cbn; zdm.
  - split; [done|]. split; [done|]. intros u.
    assert (3 <= k) by (apply (Z.pow_le_mono_r_iff 2); lia). split; [|by intros []].
    intros Hu. split; [done|]. apply Z.mod_divide in Hu as [q ->]; [|lia].
    replace k with (k - 3 + 3) by lia. rewrite Z.pow_add_r, Z.mul_assoc by lia. apply Z.mod_mul. lia.
Qed.

(** A request fits in a block when an aligned address leaves room for the
    prefix before it and for the data behind it. *)
Definition fits (a size req al : Z) : Prop :=
  exists u, u mod al = 0 /\ u mod 8 = 0 /\ a + sizeof_BlockHeader + sizeof_AllocationPrefix <= u /\
    u + req <= a + sizeof_BlockHeader + size.

Lemma checked_add_value v i : is_u64 v -> 0 <= i -> checked_add v i = if v + i <? 2 ^ 64 then Some (v + i) else None.
Proof.
  intros Hv Hi. unfold checked_add. destruct (Z.ltb_spec (UINTPTR_MAX - v) i), (Z.ltb_spec (v + i) (2 ^ 64)); try word_lia; [done|].
  by rewrite u64_small by word_lia.
Qed.

Lemma calculate_layout_ok m a req al :
  a mod 8 = 0 -> 0 < a -> 0 <= hdr_size m a -> a + sizeof_BlockHeader + hdr_size m a < 2 ^ 64 ->
  0 < req -> is_u64 al -> is_power_of_two al = true ->
  match calculate_layout m a req al with
  | Some (u, c) =>
    u mod al = 0 /\ u mod 8 = 0 /\ a + sizeof_BlockHeader + sizeof_AllocationPrefix <= u /\
    u + req <= a + sizeof_BlockHeader + c /\ c <= hdr_size m a /\ (c mod 8 = 0 \/ c = hdr_size m a)
  | None => ~ fits a (hdr_size m a) req al
  end.
Proof.
  intros Ha Ha0 Hs Hend Hreq Hal Hp. unfold calculate_layout, fits. cbv zeta.
  destruct (effective_alignment_ok al Hal Hp) as (He & Hpe & Hmod). revert He Hpe Hmod.
  generalize (if al <? alignof_AllocationPrefix then alignof_AllocationPrefix else al). intros eff He Hpe Hmod.
  unfold block_payload_start. layout_unfold. rewrite (u64_small (a + 32)) by word_lia.
  rewrite (checked_add_value (a + 32) 24) by word_lia.
  destruct (Z.ltb_spec (a + 32 + 24) (2 ^ 64)) as [H1|H1]; cbn [mbind option_bind];
    [|intros (u & ? & ? & ? & ?); lia].
  pose proof (align_up_ok (a + 32 + 24) eff ltac:(word_lia) He Hpe) as Hu.
  destruct (align_up (a + 32 + 24) eff) as [u|]; cbn [mbind option_bind].
  2:{ intros (u & Hu1 & Hu2 & Hu3 & Hu4). specialize (Hu u (proj2 (Hmod u) (conj Hu1 Hu2)) ltac:(lia)). lia. }
  destruct Hu as (Hu1 & Hu2 & Hu3). apply Hmod in Hu1 as Hu4.
  (* every aligned address behind the prefix is at least [u] *)
  assert (forall v, v mod al = 0 -> v mod 8 = 0 -> a + 32 + 24 <= v -> u <= v) as Hleast.
  { intros v Hv1 Hv2 Hv3. pose proof (proj2 (Hmod v) (conj Hv1 Hv2)) as Hv.
    apply Z.mod_divide in Hv as [q ->]; [|by intros ->; vm_compute in Hpe].
    apply Z.mod_divide in Hu1 as [q' ->]; [|by intros ->; vm_compute in Hpe].
    destruct (Z.le_gt_cases q' q); [apply Z.mul_le_mono_nonneg_r; unfold is_u64 in He; lia|].
    assert (q * eff <= (q' - 1) * eff) by (apply Z.mul_le_mono_nonneg_r; unfold is_u64 in He; lia). lia. }
  rewrite (checked_add_value u req) by word_lia.
  destruct (Z.ltb_spec (u + req) (2 ^ 64)) as [H2|H2]; cbn [mbind option_bind].
  2:{ intros (v & Hv1 & Hv2 & Hv3 & Hv4). specialize (Hleast v Hv1 Hv2 Hv3). lia. }
  rewrite (checked_add_value (a + 32) (hdr_size m a)) by word_lia.
  destruct (Z.ltb_spec (a + 32 + hdr_size m a) (2 ^ 64)) as [_|H3]; cbn [mbind option_bind]; [|lia].
  destruct (Z.ltb_spec (a + 32 + hdr_size m a) (u + req)) as [H3|H3].
  { intros (v & Hv1 & Hv2 & Hv3 & Hv4). specialize (Hleast v Hv1 Hv2 Hv3). lia. }
  split; [apply Hu4|]. split; [apply Hu4|]. split; [lia|].
  pose proof (align_up_ok (u + req) 8 ltac:(word_lia) ltac:(word_lia) eq_refl) as Hsp.
  destruct (align_up (u + req) 8) as [sp|]; [|lia].
  destruct (Z.leb_spec sp (a + 32 + hdr_size m a)); [|lia].
  rewrite (u64_small (sp - (a + 32))) by word_lia. split; [lia|]. split; [lia|]. left. zdm.
Qed.

Lemma calculate_layout_ext m m' a req al : hdr_size m' a = hdr_size m a -> calculate_layout m' a req al = calculate_layout m a req al.
Proof. unfold calculate_layout. by intros ->. Qed.

(** ** The walks *)

Lemma hdr_used_at m prev a b nxt : block_at m prev a b nxt -> hdr_used m a = bool_decide (is_Some (b_alloc b)).
Proof. intros H. unfold hdr_used. rewrite (ba_used _ _ _ _ _ H). by destruct (bool_decide _). Qed.

Lemma block_is_known_ok fuel m prev a l target :
  blocks_at m prev a l 0 -> 0 < a -> (length l < fuel)%nat ->
  exists known, block_is_known fuel m (link l a 0) target = Some known /\
    (known = true <-> exists l1 b l2, l = l1 ++ b :: l2 /\ target = a + extent l1).
Proof.
  revert prev a fuel; induction l as [|b l IH]; intros prev a fuel H Ha Hf; destruct fuel as [|fuel]; try (cbn in Hf; lia).
  - exists false. split; [done|]. split; [done|]. intros (l1 & b & l2 & E & _). by destruct l1.
  - cbn [blocks_at link length] in *. destruct H as [Hb Hl]. cbn [block_is_known].
    destruct (Z.eqb_spec a 0); [lia|]. destruct (Z.eqb_spec a target) as [->|Hne].
    + exists true. split; [done|]. split; [|done]. intros _. exists [], b, l. cbn. split; [done|lia].
    + rewrite (ba_next _ _ _ _ _ Hb). pose proof (ba_size_pos _ _ _ _ _ Hb).
      destruct (IH _ _ fuel Hl ltac:(layout_unfold; lia) ltac:(lia)) as (known & E & Hk).
      exists known. split; [done|]. rewrite Hk. split.
      * intros (l1 & c & l2 & -> & ->). exists (b :: l1), c, l2. split; [done|]. cbn [extent]. lia.
      * intros ([|b' l1] & c & l2 & [= -> ->] & ->); [cbn in Hne; lia|]. exists l1, c, l2. split; [done|].
        cbn [extent]. lia.
Qed.

(** First fit: the block found is free and the request fits in no free block
    before it. *)
Definition no_fit (a : Z) (l : list Block) (req al : Z) : Prop :=
  forall l1 b l2, l = l1 ++ b :: l2 -> b_alloc b = None -> ~ fits (a + extent l1) (b_size b) req al.

Lemma find_free_block_ok fuel m prev a l req al :
  blocks_at m prev a l 0 -> 0 < a -> a + extent l < 2 ^ 64 -> (length l < fuel)%nat ->
  0 < req -> is_u64 al -> is_power_of_two al = true ->
  exists found, find_free_block fuel m (link l a 0) req al = Some found /\
  match found with
  | None => no_fit a l req al
  | Some (block, u, c) => exists l1 b l2, l = l1 ++ b :: l2 /\ block = a + extent l1 /\ b_alloc b = None /\
      no_fit a l1 req al /\ calculate_layout m block req al = Some (u, c)
  end.
Proof.
  intros H Ha He Hf Hreq Hal Hp.
  revert prev a fuel H Ha He Hf; induction l as [|b l IH]; intros prev a fuel H Ha He Hf; destruct fuel as [|fuel]; try (cbn in Hf; lia).
  - exists None. split; [done|]. intros l1 b l2 E. by destruct l1.
  - cbn [blocks_at link length extent] in *. destruct H as [Hb Hl]. cbn [find_free_block].
    destruct (Z.eqb_spec a 0); [lia|]. rewrite (hdr_used_at _ _ _ _ _ Hb), (ba_next _ _ _ _ _ Hb).
    pose proof (ba_size_pos _ _ _ _ _ Hb). pose proof (blocks_at_extent _ _ _ _ _ Hl).
    pose proof (ba_aligned _ _ _ _ _ Hb) as Hmod.
    assert (b_alloc b = None -> match calculate_layout m a req al with Some _ => True | None => ~ fits a (b_size b) req al end) as Hlay.
    { intros _. rewrite <- (ba_size _ _ _ _ _ Hb).
      pose proof (calculate_layout_ok m a req al Hmod Ha) as Hc. rewrite (ba_size _ _ _ _ _ Hb) in Hc |- *.
      specialize (Hc ltac:(lia) ltac:(layout_unfold; lia) Hreq Hal Hp). by destruct (calculate_layout _ _ _ _). }
    destruct (IH _ (a + sizeof_BlockHeader + b_size b) fuel Hl ltac:(layout_unfold; lia) ltac:(layout_unfold; lia) ltac:(lia))
      as (found & E & Hfd).
    assert (forall l', (forall l1 c l2, l' = l1 ++ c :: l2 -> b_alloc c = None ->
        ~ fits (a + sizeof_BlockHeader + b_size b + extent l1) (b_size c) req al) ->
      (b_alloc b = None -> ~ fits a (b_size b) req al) -> no_fit a (b :: l') req al) as Hcons.
    { intros l' H1 H2 [|b' l1] c l2 [= -> ->] Hc; [cbn [extent]; rewrite Z.add_0_r; auto|].
      cbn [extent]. rewrite !Z.add_assoc. by eapply H1. }
    assert ((if bool_decide (is_Some (b_alloc b)) then None else calculate_layout m a req al) = None ->
      b_alloc b = None -> ~ fits a (b_size b) req al) as Hskip.
    { intros E' Hn. rewrite Hn in E'. cbn in E'. specialize (Hlay Hn). by rewrite E' in Hlay. }
    destruct (if bool_decide _ then _ else _) as [[u c]|] eqn:El.
    + exists (Some (a, u, c)). split; [done|]. case_bool_decide as Hd; [done|]. exists [], b, l.
      split; [done|]. split; [cbn; lia|]. split; [by apply eq_None_not_Some|]. split; [|done].
      intros l1 ? ? Ec. by destruct l1.
    + rewrite E. exists found. split; [done|]. destruct found as [[[blk u] c]|].
      * destruct Hfd as (l1 & b' & l2 & -> & -> & Hb' & Hno & Hc). exists (b :: l1), b', l2. split; [done|].
        split; [cbn [extent]; lia|]. split; [done|]. split; [|done]. apply Hcons; [exact Hno|by apply Hskip].
      * apply Hcons; [exact Hfd|by apply Hskip].
Qed.

(** ** Editing the list of blocks in memory *)

Lemma live_clear m prev a l1 lm l2 nxt p n :
  blocks_at m prev a (l1 ++ lm ++ l2) nxt -> (p, n) ∈ live (l1 ++ l2) ->
  p + n <= a + extent l1 \/ a + extent l1 + extent lm + sizeof_BlockHeader + sizeof_AllocationPrefix <= p.
Proof.
  intros H Hp. apply blocks_at_app in H as [H1 H]. apply blocks_at_app in H as [_ H2].
  rewrite live_app in Hp. apply elem_of_app in Hp as [Hp|Hp].
  - left. eapply live_range in H1 as (_ & _ & ?); [|done]. lia.
  - right. eapply live_range in H2 as (_ & ? & _); [|done]. lia.
Qed.

Lemma blocks_at_bounds m prev a l1 b l2 nxt :
  blocks_at m prev a (l1 ++ b :: l2) nxt ->
  0 <= extent l1 /\ 0 <= b_size b /\ 0 <= extent l2 /\
  extent (l1 ++ b :: l2) = extent l1 + sizeof_BlockHeader + b_size b + extent l2.
Proof.
  intros H. pose proof (blocks_at_sizes _ _ _ _ _ H) as Hs. apply Forall_app in Hs as [Hs1 Hs2].
  apply Forall_cons in Hs2 as [Hb Hs2]. apply extent_nonneg in Hs1, Hs2.
  rewrite extent_app. cbn [extent]. lia.
Qed.

Lemma blocks_at_prev_head m prev a l1 b l2 nxt :
  blocks_at m prev a (l1 ++ b :: l2) nxt -> l2 ≠ [] ->
  hdr_previous m (a + extent l1 + sizeof_BlockHeader + b_size b) = a + extent l1.
Proof.
  intros H Hne. apply blocks_at_app in H as [_ [_ H]]. destruct l2 as [|c l2]; [done|].
  destruct H as [H _]. apply H.
Qed.

Section edit.
Context (m : Memory) (st : Z) (l1 : list Block) (b : Block) (l2 : list Block).
Let a := st + extent l1.
Let e := a + sizeof_BlockHeader + b_size b.
Hypothesis (Hb : blocks_at m 0 st (l1 ++ b :: l2) 0).
Hypothesis (Hst : 0 < st) (Hend : st + extent (l1 ++ b :: l2) < 2 ^ 64).

Lemma edit_bounds : 0 < a /\ 0 <= b_size b /\ a < e /\ e < 2 ^ 64 /\ is_u64 (link l2 e 0) /\ (link l2 e 0 ≠ 0 <-> l2 ≠ []).
Proof.
  destruct (blocks_at_bounds _ _ _ _ _ _ _ Hb) as (? & ? & ? & E). rewrite E in Hend.
  unfold a, e. layout_unfold. repeat split; try lia; try (destruct l2; cbn [link]; word_lia || done).
Qed.

(** Give the block another status; nothing but the status byte and the payload
    changes. *)
Lemma retag_ok m' al :
  (forall x, x < a + 8 \/ a + 9 <= x < a + 32 \/ e <= x -> m' x = m x) ->
  m' (a + 8) = Z.b2z (bool_decide (is_Some al)) -> alloc_ok a (mkBlock (b_size b) al) ->
  match al with None => True | Some (p, n) => prefix_at m' a p n end ->
  blocks_at m' 0 st (l1 ++ mkBlock (b_size b) al :: l2) 0.
Proof.
  intros Hfr Hu Ha Hp. pose proof edit_bounds as Hbd. pose proof (blocks_at_middle _ _ _ _ _ _ _ Hb) as Hm.
  apply (blocks_at_splice m m' 0 st l1 [b] [mkBlock (b_size b) al] l2 0); try done.
  - cbn [extent]. cbn [app blocks_at]. fold a in Hm |- *. split; [|done]. destruct Hm.
    assert (forall d, d = 0 \/ d = 16 \/ d = 24 -> load64 m' (a + d) = load64 m (a + d)) as Hh.
    { intros d Hd. apply load64_ext. intros x Hx. apply Hfr. lia. }
    split; try done; cbn [b_size b_alloc].
    + unfold hdr_size in *. rewrite <- (Z.add_0_r a), Hh, Z.add_0_r by lia. done.
    + unfold hdr_next in *. rewrite Hh, ba_next0 by lia. cbn [link]. destruct l2; [done|]. cbn [link]. lia.
    + unfold hdr_previous in *. rewrite Hh by lia. done.
  - intros x Hx. apply Hfr. cbn [extent] in Hx. fold a in Hx. unfold e. layout_unfold. lia.
  - intros Hne. cbn [extent last_addr]. fold a. rewrite Z.add_0_r.
    transitivity (hdr_previous m e); [|exact (blocks_at_prev_head _ _ _ _ _ _ _ Hb Hne)].
    unfold hdr_previous. replace (a + (sizeof_BlockHeader + b_size b)) with e by (unfold e; lia).
    apply load64_ext. intros x Hx. apply Hfr. lia.
Qed.

(** The tail of a free block becomes a block of its own when it can hold one. *)
Definition split_abs (c : Z) : list Block :=
  if sizeof_BlockHeader + sizeof_AllocationPrefix + 1 <=? b_size b - c
  then [mkBlock c None; mkBlock (b_size b - c - sizeof_BlockHeader) None] else [b].

Lemma split_block_ok c :
  bytes_ok m -> b_alloc b = None -> 0 <= c <= b_size b -> c mod 8 = 0 \/ c = b_size b ->
  let m' := split_block m a c in
  blocks_at m' 0 st (l1 ++ split_abs c ++ l2) 0 /\ bytes_ok m' /\
  (forall x, x < a \/ e <= x < e + 24 \/ e + 32 <= x -> m' x = m x).
Proof.
  intros Hok Hfree Hc Hca m'. destruct edit_bounds as (Ha & Hs & Hae & He & Hl64 & Hl).
  pose proof (blocks_at_middle _ _ _ _ _ _ _ Hb) as Hm. fold a e in Hm.
  unfold m', split_block, split_abs, block_payload_start. rewrite (ba_size _ _ _ _ _ Hm).
  assert (sizeof_BlockHeader = 32) as EH by done. unfold sizeof_AllocationPrefix.
  rewrite (u64_small (b_size b - c)), (u64_small (a + sizeof_BlockHeader)) by (layout_unfold; unfold e in *; word_lia).
  replace (sizeof_BlockHeader + (24 + 1)) with (sizeof_BlockHeader + 24 + 1) by lia.
  destruct (Z.leb_spec (sizeof_BlockHeader + 24 + 1) (b_size b - c)) as [Hsp|Hsp].
  2:{ split; [exact Hb|]. split; done. }
  rewrite (u64_small (a + sizeof_BlockHeader + c)), (u64_small (b_size b - c - sizeof_BlockHeader))
    by (unfold e in *; word_lia).
  set (sp := a + sizeof_BlockHeader + c). set (nx := link l2 e 0) in *. cbv zeta.
  assert (sp + 32 + (b_size b - c - 32) = e) as Esp by (unfold sp, e; lia). assert (a + 32 <= sp <= e - 57) as Hsp' by (unfold sp, e; lia).
  assert (hdr_next (set_used (set_size m sp (b_size b - c - sizeof_BlockHeader)) sp false) a = nx) as ->.
  { rewrite <- (ba_next _ _ _ _ _ Hm). mem_unfold. mem_read. done. }
  set (m1 := set_previous _ sp a). assert (hdr_next m1 sp = nx) as -> by (unfold m1; mem_unfold; mem_read; done).
  set (m2 := if negb (nx =? 0) then set_previous m1 nx sp else m1).
  (* the only store beyond the block is the link back of the next one *)
  assert (forall x, x < e \/ e <= x < e + 24 \/ e + 32 <= x -> m2 x = m1 x) as H21.
  { intros x Hx. unfold m2. destruct (Z.eqb_spec nx 0) as [|Hnx]; [done|]. cbn [negb].
    assert (nx = e) as -> by (unfold nx in *; destruct l2; done). unfold set_previous. apply store64_ne. lia. }
  assert (forall x, x + 8 <= e -> load64 m2 x = load64 m1 x) as L21 by (intros; apply load64_ext; intros; apply H21; lia).
  assert (bytes_ok m2) as Hok2 by (unfold m2, m1; mem_unfold; destruct (negb _); bytes_solve).
  split; [|split; [mem_unfold; bytes_solve|]].
  - apply (blocks_at_splice m _ 0 st l1 [b] [mkBlock c None; mkBlock (b_size b - c - sizeof_BlockHeader) None] l2 0); try done.
    + cbn [extent b_size]. lia.
    + cbn [extent blocks_at b_size b_alloc link]. fold a. replace (a + (sizeof_BlockHeader + b_size b + 0)) with e by (unfold e; lia).
      fold sp nx. destruct Hm. split; [|split; [|done]].
      * split; cbn [b_size b_alloc]; try done; try lia; mem_unfold; mem_read; try done.
        -- rewrite H21 by lia. unfold m1; mem_unfold; mem_read. by rewrite ba_used0, Hfree.
        -- rewrite L21 by lia. unfold m1; mem_unfold; mem_read. done.
      * split; cbn [b_size b_alloc]; try done; try lia; mem_unfold; mem_read; rewrite ?H21, ?L21 by lia;
          unfold m1; mem_unfold; mem_read; try done.
        destruct Hca as [Hca|Hca]; [|lia]. unfold sp. layout_unfold. zdm.
    + intros x Hx. cbn [extent] in Hx. fold a in Hx. assert (e = a + (sizeof_BlockHeader + b_size b + 0)) as Ee by (unfold e; lia).
      mem_unfold. mem_read. rewrite H21 by lia. unfold m1. mem_unfold. mem_read. done.
    + intros Hne. cbn [extent last_addr b_size]. fold a. replace (a + (sizeof_BlockHeader + b_size b + 0)) with e by (unfold e; lia).
      fold sp. assert (nx ≠ 0) as Hnx by (apply Hl; done). mem_unfold. mem_read. unfold m2.
      destruct (Z.eqb_spec nx 0); [done|]. cbn [negb]. assert (nx = e) as -> by (unfold nx; destruct l2; done).
      unfold set_previous. mem_read. done.
  - intros x Hx. mem_unfold. mem_read. rewrite H21 by lia. unfold m1. mem_unfold. mem_read. done.
Qed.
End edit.

(** Merging a free block with a free successor. *)
Definition merge_abs (l : list Block) : list Block :=
  match l with
  | b :: c :: l' =>
    if decide (b_alloc c = None) then mkBlock (b_size b + (sizeof_BlockHeader + b_size c)) None :: l' else l
  | _ => l
  end.

Lemma extent_merge_abs l : extent (merge_abs l) = extent l.
Proof. destruct l as [|b [|c l]]; [done..|]. cbn [merge_abs]. case_decide; [|done]. cbn [extent b_size]. lia. Qed.

Lemma live_merge_abs b l : b_alloc b = None -> live (merge_abs (b :: l)) = live l.
Proof.
  intros Hb. destruct l as [|c l]; cbn [merge_abs]; [unfold live; cbn; by rewrite Hb|].
  case_decide as Hc; unfold live; cbn; rewrite ?Hb; [|done]. by rewrite Hc.
Qed.

Lemma merge_with_next_ok m st l1 b l2 :
  let a := st + extent l1 in
  let m' := merge_with_next m a in
  blocks_at m 0 st (l1 ++ b :: l2) 0 -> 0 < st -> st + extent (l1 ++ b :: l2) < 2 ^ 64 ->
  bytes_ok m -> b_alloc b = None ->
  blocks_at m' 0 st (l1 ++ merge_abs (b :: l2)) 0 /\ bytes_ok m' /\
  (forall x, x < a \/ a + 32 <= x < a + extent (take 2 (b :: l2)) -> m' x = m x) /\
  (forall p n x, (p, n) ∈ live (l1 ++ l2) -> p <= x < p + n -> m' x = m x).
Proof.
  intros a m' Hb Hst Hend Hok Hfree. destruct (edit_bounds m st l1 b l2 Hb Hst Hend) as (Ha & Hs & Hae & He & _).
  fold a in Ha, Hae, He. pose proof (blocks_at_middle _ _ _ _ _ _ _ Hb) as Hm. fold a in Hm.
  unfold m', merge_with_next. rewrite (ba_next _ _ _ _ _ Hm). destruct l2 as [|c l2].
  { cbn [link]. split; [exact Hb|]. done. }
  cbn [link]. set (e := a + sizeof_BlockHeader + b_size b) in *.
  pose proof Hb as Hb'. rewrite cons_middle, app_assoc in Hb'.
  pose proof (blocks_at_middle _ _ _ _ _ _ _ Hb') as Hc.
  assert (st + extent (l1 ++ [b]) = e) as Ee by (rewrite extent_app; cbn [extent]; unfold e, a; lia).
  rewrite last_addr_app, Ee in Hc. cbn [last_addr] in Hc. fold a in Hc.
  assert (st + extent (l1 ++ b :: c :: l2) = e + sizeof_BlockHeader + b_size c + extent l2) as Etot
    by (rewrite extent_app; cbn [extent]; unfold e, a; lia).
  destruct (blocks_at_bounds _ _ _ _ _ _ _ Hb') as (_ & Hcs & Hl2 & _).
  rewrite (hdr_used_at _ _ _ _ _ Hc). destruct (Z.eqb_spec e 0); [lia|]. cbn [orb].
  cbn [merge_abs]. case_decide as Hcf.
  2:{ rewrite bool_decide_eq_true_2 by (by destruct (b_alloc c); [eexists|]). done. }
  rewrite bool_decide_eq_false_2 by (rewrite Hcf; by intros []). cbn [orb].
  assert (sizeof_BlockHeader = 32) as EH by done.
  assert (blocks_are_adjacent m a e = true) as ->.
  { unfold blocks_are_adjacent, block_payload_start. destruct (Z.eqb_spec a 0), (Z.eqb_spec e 0); try lia. cbn [negb andb].
    rewrite (ba_size _ _ _ _ _ Hm), (u64_small (a + sizeof_BlockHeader)), checked_add_value by word_lia.
    fold e. destruct (Z.ltb_spec e (2 ^ 64)); [|lia]. apply Z.eqb_refl. }
  cbn [negb]. cbv zeta.
  rewrite (ba_size _ _ _ _ _ Hm), (ba_size _ _ _ _ _ Hc), (u64_small (sizeof_BlockHeader + b_size c)),
    (u64_small (b_size b + (sizeof_BlockHeader + b_size c))) by word_lia.
  set (sz := b_size b + (sizeof_BlockHeader + b_size c)). set (ec := e + sizeof_BlockHeader + b_size c) in *.
  set (nx := link l2 ec 0) in *. assert (is_u64 nx) as Hnx by (unfold nx; destruct l2; cbn [link]; word_lia).
  assert (hdr_next (set_size m a sz) e = nx) as -> by (rewrite <- (ba_next _ _ _ _ _ Hc); mem_unfold; mem_read; done).
  set (m1 := set_next (set_size m a sz) a nx). assert (hdr_next m1 a = nx) as -> by (unfold m1; mem_unfold; mem_read; done).
  set (m2 := if negb (nx =? 0) then set_previous m1 nx a else m1).
  assert (forall x, x < ec + 24 \/ ec + 32 <= x -> m2 x = m1 x) as H21.
  { intros x Hx. unfold m2. destruct (Z.eqb_spec nx 0) as [|Hn]; [done|]. cbn [negb].
    assert (nx = ec) as -> by (unfold nx in *; destruct l2; done). unfold set_previous. apply store64_ne. lia. }
  assert (forall x, x + 8 <= ec -> load64 m2 x = load64 m1 x) as L21 by (intros; apply load64_ext; intros; apply H21; lia).
  assert (forall x, x < a \/ a + 32 <= x < ec + 24 \/ ec + 32 <= x -> m2 x = m x) as Hfr.
  { intros x Hx. rewrite H21 by lia. unfold m1. mem_unfold. mem_read. done. }
  split; [|split; [|split]].
  - apply (blocks_at_splice m m2 0 st l1 [b; c] [mkBlock sz None] l2 0); try done.
    + cbn [extent b_size]. lia.
    + cbn [extent blocks_at b_size b_alloc link]. fold a.
      replace (a + (sizeof_BlockHeader + b_size b + (sizeof_BlockHeader + b_size c + 0))) with ec by (unfold ec, e; lia).
      replace (a + sizeof_BlockHeader + sz) with ec by (unfold ec, e, sz; lia). fold nx.
      destruct Hm. split; [|done]. split; cbn [b_size b_alloc]; try done; try lia;
        mem_unfold; rewrite ?H21, ?L21 by lia; unfold m1; mem_unfold; mem_read; try done.
      rewrite ba_used0, Hfree. done.
    + intros x Hx. cbn [extent] in Hx. fold a in Hx. apply Hfr. unfold ec, e. lia.
    + intros Hne. cbn [extent last_addr]. fold a.
      replace (a + (sizeof_BlockHeader + b_size b + (sizeof_BlockHeader + b_size c + 0))) with ec by (unfold ec, e; lia).
      unfold m2. assert (nx = ec) as -> by (unfold nx; destruct l2; done).
      destruct (Z.eqb_spec ec 0); [lia|]. cbn [negb]. unfold set_previous, hdr_previous. mem_read. done.
  - unfold m2, m1. mem_unfold. destruct (negb _); bytes_solve.
  - intros x Hx. apply Hfr. cbn [firstn extent] in Hx. rewrite take_0 in Hx.
    cbn [extent] in Hx. unfold ec, e. lia.
  - intros p n' x Hp Hx. apply Hfr. change (b :: c :: l2) with ([b; c] ++ l2) in Hb.
    assert ((p, n') ∈ live (l1 ++ l2)) as Hp'.
    { rewrite live_app in Hp |- *. apply elem_of_app in Hp as [Hp|Hp]; apply elem_of_app; [by left|right].
      unfold live in Hp. cbn in Hp. by rewrite Hcf in Hp. }
    destruct (live_clear _ _ _ _ _ _ _ _ _ Hb Hp') as [H|H]; cbn [extent] in H; fold a in H; [lia|].
    unfold ec, e. layout_unfold. lia.
Qed.

(** ** Coalescing *)

Lemma coalesced_app l1 b l2 : coalesced (l1 ++ b :: l2) <-> coalesced (l1 ++ [b]) /\ coalesced (b :: l2).
Proof.
  induction l1 as [|c l1 IH]; [cbn [app coalesced]; naive_solver|].
  destruct l1 as [|d l1]; [cbn [app coalesced] in *; naive_solver|].
  cbn [app coalesced] in *. naive_solver.
Qed.

Lemma coalesced_tail b l : coalesced (b :: l) -> coalesced l.
Proof. destruct l; [done|]. by intros []. Qed.

Lemma coalesced_head b b' l : b_alloc b = None -> b_alloc b' = None -> coalesced (b :: l) -> coalesced (b' :: l).
Proof. intros H H'. destruct l; [done|]. cbn [coalesced]. rewrite H, H'. done. Qed.

Lemma coalesced_last b b' l : b_alloc b = None -> b_alloc b' = None -> coalesced (l ++ [b]) -> coalesced (l ++ [b']).
Proof.
  intros H H'. induction l as [|c l IH]; [done|]. destruct l as [|d l]; cbn [app coalesced] in *.
  - rewrite H, H'. done.
  - intros [? ?]. split; [done|]. by apply IH.
Qed.

(** A block in use separates. *)
Lemma coalesced_used l1 b l2 : b_alloc b ≠ None -> coalesced l1 -> coalesced l2 -> coalesced (l1 ++ b :: l2).
Proof.
  intros Hb H1 H2. apply coalesced_app. split.
  - induction l1 as [|c l1 IH]; [done|]. destruct l1 as [|d l1]; cbn [app coalesced] in *; [by auto|].
    destruct H1 as [? H1]. split; [done|]. by apply IH.
  - destruct l2; cbn [coalesced]; auto.
Qed.

Lemma coalesced_split l1 l2 : coalesced (l1 ++ l2) -> coalesced l1 /\ coalesced l2.
Proof.
  induction l1 as [|c l1 IH]; [done|]. intros H. pose proof (coalesced_tail _ _ H) as Ht.
  destruct (IH Ht) as [? ?]. split; [|done]. destruct l1 as [|d l1]; [done|]. cbn [app coalesced] in *. naive_solver.
Qed.

Lemma coalesced_merge b l : b_alloc b = None -> coalesced l -> coalesced (merge_abs (b :: l)).
Proof.
  intros Hb H. destruct l as [|c l]; [done|]. cbn [merge_abs]. case_decide as Hc.
  - eapply (coalesced_head c); done.
  - cbn [coalesced]. auto.
Qed.

Lemma merge_abs_free b l : b_alloc b = None -> exists b' l', merge_abs (b :: l) = b' :: l' /\ b_alloc b' = None.
Proof.
  intros Hb. destruct l as [|c l]; cbn [merge_abs]; [by exists b, []|]. case_decide; by eexists _, _.
Qed.

(** Releasing block [b] between [l1] and [l2]. *)
Definition release_abs (l1 : list Block) (size : Z) (l2 : list Block) : list Block :=
  let l := merge_abs (mkBlock size None :: l2) in
  match reverse l1 with
  | c :: r => if decide (b_alloc c = None) then reverse r ++ merge_abs (c :: l) else l1 ++ l
  | [] => l
  end.

Lemma release_abs_snoc l1 c size l2 :
  release_abs (l1 ++ [c]) size l2 =
  if decide (b_alloc c = None) then l1 ++ merge_abs (c :: merge_abs (mkBlock size None :: l2))
  else l1 ++ c :: merge_abs (mkBlock size None :: l2).
Proof.
  unfold release_abs. rewrite reverse_snoc. case_decide; [by rewrite reverse_involutive|].
  by rewrite <- app_assoc.
Qed.

Lemma release_abs_props l1 b size l2 :
  b_size b = size ->
  extent (release_abs l1 size l2) = extent (l1 ++ b :: l2) /\ live (release_abs l1 size l2) = live l1 ++ live l2 /\
  release_abs l1 size l2 ≠ [].
Proof.
  intros <-. destruct l1 as [|c l1 _] using rev_ind.
  - unfold release_abs. rewrite reverse_nil, extent_merge_abs, live_merge_abs by done. split; [done|]. split; [done|].
    destruct (merge_abs_free (mkBlock (b_size b) None) l2) as (? & ? & -> & _); done.
  - rewrite release_abs_snoc. case_decide as Hc.
    + rewrite extent_app, extent_merge_abs, live_app, live_merge_abs, live_app by done. cbn [extent].
      rewrite extent_merge_abs, live_merge_abs by done. split; [rewrite !extent_app; cbn [extent b_size]; lia|].
      split; [|by destruct l1; [destruct (merge_abs_free c (merge_abs (mkBlock (b_size b) None :: l2))) as (? & ? & -> & _)|]].
      unfold live at 4. cbn. rewrite Hc. by rewrite app_nil_r.
    + rewrite !extent_app, !live_app. cbn [extent]. rewrite extent_merge_abs. split; [cbn [extent b_size]; lia|].
      split; [|by destruct l1]. unfold live at 2. cbn [omap list_omap].
      destruct (b_alloc c) as [q|] eqn:E; [|done]. fold (live (merge_abs (mkBlock (b_size b) None :: l2))).
      change (list_omap _ _ b_alloc (merge_abs (mkBlock (b_size b) None :: l2))) with (live (merge_abs (mkBlock (b_size b) None :: l2))).
      rewrite live_merge_abs by done. unfold live at 3. cbn. rewrite E. by rewrite <- app_assoc.
Qed.

Lemma coalesced_release l1 b l2 : coalesced (l1 ++ b :: l2) -> coalesced (release_abs l1 (b_size b) l2).
Proof.
  intros H. apply coalesced_split in H as [H1 H2]. apply coalesced_tail in H2.
  pose proof (coalesced_merge (mkBlock (b_size b) None) l2 eq_refl H2) as Hm.
  destruct l1 as [|c l1 _] using rev_ind; [exact Hm|]. rewrite release_abs_snoc. case_decide as Hc.
  - pose proof (coalesced_merge c _ Hc Hm) as Hm'. destruct (merge_abs_free c (merge_abs (mkBlock (b_size b) None :: l2)) Hc) as (d & l' & E & Hd).
    rewrite E in *. apply coalesced_app. split; [by eapply (coalesced_last c)|done].
  - apply coalesced_split in H1 as [H1 _]. by apply coalesced_used.
Qed.

(** ** The entry points refine the operations on lists *)

Lemma set_prefix_ne m p g b n x : x < p \/ p + 24 <= x -> set_prefix m p g b n x = m x.
Proof. intros H. unfold set_prefix. by rewrite !store64_ne by lia. Qed.

Lemma set_prefix_ok m p g b n : bytes_ok m -> bytes_ok (set_prefix m p g b n).
Proof. intros H. unfold set_prefix. bytes_solve. Qed.

Lemma release_block_ok m st l1 b l2 pfx :
  let a := st + extent l1 in
  let m' := release_block (set_prefix m pfx 0 0 0) a in
  blocks_at m 0 st (l1 ++ b :: l2) 0 -> bytes_ok m -> 0 < st -> st + extent (l1 ++ b :: l2) < 2 ^ 64 ->
  a + sizeof_BlockHeader <= pfx -> pfx + 24 <= a + sizeof_BlockHeader + b_size b ->
  blocks_at m' 0 st (release_abs l1 (b_size b) l2) 0 /\ bytes_ok m' /\
  (forall p n x, (p, n) ∈ live (l1 ++ l2) -> p <= x < p + n -> m' x = m x) /\ pre_magic m' pfx = 0.
Proof.
  intros a m' Hb Hok Hst Hend Hp1 Hp2. pose proof (edit_bounds m st l1 b l2 Hb Hst Hend) as (Ha & Hs & Hae & He & _).
  fold a in Ha, Hae, He. assert (sizeof_BlockHeader = 32) as EH by done.
  unfold m', release_block. set (m0 := set_prefix m pfx 0 0 0). set (m1 := set_used m0 a false).
  set (bf := mkBlock (b_size b) None).
  assert (forall x, x < a + 8 \/ a + 9 <= x < pfx \/ pfx + 24 <= x -> m1 x = m x) as Hf1.
  { intros x Hx. unfold m1, set_used. rewrite store8_ne by lia. apply set_prefix_ne. lia. }
  assert (blocks_at m1 0 st (l1 ++ bf :: l2) 0) as Hb1.
  { apply (retag_ok m st l1 b l2 Hb Hst Hend m1 None); fold a; try done.
    - intros x Hx. apply Hf1. lia.
    - unfold m1, set_used. by rewrite heap_store8_eq. }
  assert (extent (l1 ++ bf :: l2) = extent (l1 ++ b :: l2)) as Eext by (rewrite !extent_app; done).
  destruct (merge_with_next_ok m1 st l1 bf l2 Hb1 Hst) as (Hb2 & Hok2 & Hf2 & Hd2).
  { by rewrite Eext. } { unfold m1, set_used. apply store8_ok; [by apply set_prefix_ok|done]. } { done. }
  fold a in Hb2, Hok2, Hf2, Hd2. set (m2 := merge_with_next m1 a) in *.
  assert (forall p n x, (p, n) ∈ live (l1 ++ l2) -> p <= x < p + n -> m2 x = m x) as Hdata2.
  { intros p n x Hp Hx. rewrite (Hd2 p n x Hp Hx). apply Hf1. change (b :: l2) with ([b] ++ l2) in Hb.
    destruct (live_clear _ _ _ _ _ _ _ _ _ Hb Hp) as [H|H]; cbn [extent] in H; fold a in H; layout_unfold; lia. }
  assert (pre_magic m2 pfx = 0) as Hmag2.
  { transitivity (load64 m1 pfx).
    - apply load64_ext. intros x Hx. apply Hf2. right. destruct l2 as [|d l2]; cbn [firstn extent b_size bf]; [lia|]. rewrite take_0. cbn [extent].
      apply blocks_at_app in Hb as [_ [_ Hb]]. destruct Hb as [Hb _]. pose proof (ba_size_pos _ _ _ _ _ Hb). lia.
    - unfold m1, m0. mem_unfold. mem_read. done. }
  destruct (merge_abs_free bf l2 eq_refl) as (h & t & Eh & Hh). rewrite Eh in Hb2.
  pose proof (blocks_at_middle _ _ _ _ _ _ _ Hb2) as Hm2. fold a in Hm2. rewrite (ba_previous _ _ _ _ _ Hm2).
  destruct l1 as [|c l1 _] using rev_ind.
  { cbn [last_addr]. cbn [Z.eqb negb andb]. unfold release_abs. rewrite reverse_nil. fold bf. rewrite Eh. done. }
  rewrite release_abs_snoc. fold bf. rewrite Eh. rewrite <- app_assoc in Hb2. cbn [app] in Hb2.
  pose proof (blocks_at_middle _ _ _ _ _ _ _ Hb2) as Hc. set (ac := st + extent l1) in *.
  destruct (blocks_at_bounds _ _ _ _ _ _ _ Hb2) as (Hl1 & Hcs & Hht & Eall).
  assert (last_addr 0 st (l1 ++ [c]) = ac) as -> by (by rewrite last_addr_app).
  assert (a = ac + sizeof_BlockHeader + b_size c) as Ea by (unfold a, ac; rewrite extent_app; cbn [extent]; lia).
  destruct (Z.eqb_spec ac 0); [lia|]. rewrite (hdr_used_at _ _ _ _ _ Hc). cbn [negb andb].
  assert (extent (l1 ++ c :: h :: t) = extent ((l1 ++ [c]) ++ b :: l2)) as Eext2.
  { rewrite <- Eh, <- Eext, !extent_app. cbn [extent]. rewrite extent_merge_abs. cbn [extent]. lia. }
  case_decide as Hcf.
  2:{ rewrite bool_decide_eq_true_2 by (by destruct (b_alloc c); [eexists|]). done. }
  rewrite bool_decide_eq_false_2 by (rewrite Hcf; by intros []). cbn [negb].
  destruct (merge_with_next_ok m2 st l1 c (h :: t) Hb2 Hst) as (Hb3 & Hok3 & Hf3 & Hd3); try done; [by rewrite Eext2|].
  fold ac in Hb3, Hok3, Hf3, Hd3. split; [exact Hb3|]. split; [exact Hok3|]. split.
  - intros p n' x Hp Hx. rewrite (Hd3 p n' x); [by apply Hdata2 with p n'| |done].
    rewrite <- Eh, live_app, live_merge_abs by done. rewrite <- app_assoc, live_app in Hp. cbn in Hp.
    rewrite Hcf in Hp. exact Hp.
  - rewrite <- Hmag2. apply load64_ext. intros x Hx. apply Hf3. right.
    assert (extent (take 2 (c :: h :: t)) >= sizeof_BlockHeader + b_size c + sizeof_BlockHeader + b_size b) as Hge; [|lia].
    cbn [firstn extent]. rewrite take_0. cbn [extent]. assert (b_size b <= b_size h) as Hbh; [|lia].
    destruct l2 as [|d l2]; unfold bf in Eh; cbn [merge_abs] in Eh; [by injection Eh as <- _|].
    case_decide; injection Eh as <- _; cbn [b_size]; [|lia].
    apply blocks_at_app in Hb as [_ [_ Hb]]. destruct Hb as [Hb _]. pose proof (ba_size_pos _ _ _ _ _ Hb). lia.
Qed.

Lemma repr_fuel s l : repr s l -> (length l < walk_fuel s)%nat.
Proof.
  intros []. pose proof (blocks_at_extent _ _ _ _ _ r_blocks0). unfold walk_fuel. rewrite r_size0.
  assert (Z.of_nat (length l) <= (g_heap_end s - g_heap_start s) / sizeof_BlockHeader); [|lia].
  apply Z.div_le_lower_bound; unfold sizeof_BlockHeader; lia.
Qed.

Lemma repr_link s l : repr s l -> g_first_block s = link l (g_heap_start s) 0.
Proof. intros []. rewrite r_first0. by destruct l. Qed.

(** Two live allocations never meet, prefixes included. *)
Lemma live_disjoint m prev a l nxt i j p n q k :
  blocks_at m prev a l nxt -> i ≠ j -> live l !! i = Some (p, n) -> live l !! j = Some (q, k) ->
  p + n <= q - sizeof_AllocationPrefix \/ q + k <= p - sizeof_AllocationPrefix.
Proof.
  revert prev a i j; induction l as [|b l IH]; intros prev a i j H Hij Hi Hj; [destruct i; discriminate Hi|].
  cbn [blocks_at] in H. destruct H as [Hb Hl].
  destruct (b_alloc b) as [[r k']|] eqn:Eb.
  - assert (live (b :: l) = (r, k') :: live l) as E by (unfold live; cbn; by rewrite Eb). rewrite E in Hi, Hj.
    pose proof (ba_alloc _ _ _ _ _ Hb) as Ha. unfold alloc_ok in Ha. rewrite Eb in Ha.
    assert (forall i p n, live l !! i = Some (p, n) -> r + k' <= p - sizeof_AllocationPrefix) as Hsep.
    { intros i' p' n' H'. apply list_elem_of_lookup_2 in H'. eapply live_range in H'; [|done]. layout_unfold. lia. }
    destruct i as [|i], j as [|j]; cbn in Hi, Hj; [done| | |eapply (IH _ _ i j); try done; lia]; simplify_eq.
    + left. by eapply Hsep.
    + right. by eapply Hsep.
  - assert (live (b :: l) = live l) as E by (unfold live; cbn; by rewrite Eb). rewrite E in Hi, Hj. by eapply IH.
Qed.

Definition with_mem (s : State) (m : Memory) : State :=
  mkState m (g_heap_start s) (g_heap_end s) (g_heap_size s) (g_first_block s) (g_used_bytes s) (g_allocation_count s).

(** The blocks that replace a free block when [c] bytes of it are taken. *)
Definition use_abs (b : Block) (c u n : Z) : list Block :=
  match split_abs b c with
  | h :: t => mkBlock (b_size h) (Some (u, n)) :: t
  | [] => []
  end.

Lemma use_abs_cases b c u n :
  b_alloc b = None ->
  (split_abs b c = [b] /\ use_abs b c u n = [mkBlock (b_size b) (Some (u, n))]) \/
  (split_abs b c = [mkBlock c None; mkBlock (b_size b - c - sizeof_BlockHeader) None] /\
   use_abs b c u n = [mkBlock c (Some (u, n)); mkBlock (b_size b - c - sizeof_BlockHeader) None]).
Proof. intros Hb. unfold use_abs, split_abs. destruct (_ <=? _); [by right|by left]. Qed.

Lemma use_abs_props l1 b c u n l2 :
  b_alloc b = None ->
  extent (l1 ++ use_abs b c u n ++ l2) = extent (l1 ++ b :: l2) /\
  live (l1 ++ use_abs b c u n ++ l2) = live l1 ++ (u, n) :: live l2 /\ live (l1 ++ b :: l2) = live l1 ++ live l2 /\
  (coalesced (l1 ++ b :: l2) -> coalesced (l1 ++ use_abs b c u n ++ l2)).
Proof.
  intros Hb. rewrite !extent_app, !live_app. change (b :: l2) with ([b] ++ l2). rewrite (live_app [b]), (extent_app [b]).
  assert (live [b] = []) as -> by (unfold live; cbn; by rewrite Hb).
  destruct (use_abs_cases b c u n Hb) as [[_ ->]|[_ ->]]; cbn [extent b_size app].
  - split; [lia|]. split; [done|]. split; [done|]. intros H. apply coalesced_split in H as [H1 H2].
    apply coalesced_used; [done|done|by eapply coalesced_tail].
  - split; [lia|]. split; [done|]. split; [done|]. intros H. apply coalesced_split in H as [H1 H2].
    apply coalesced_used; [done|done|]. by eapply coalesced_head in H2; [apply H2| |].
Qed.

Lemma kmalloc_repr s l n al :
  repr s l -> is_u64 n -> is_u64 al -> n ≠ 0 -> is_power_of_two al = true ->
  (kmalloc s n al = Some (s, 0) /\ no_fit (g_heap_start s) l n al) \/
  exists l1 b l2 u c m',
    let a := g_heap_start s + extent l1 in
    let e := a + sizeof_BlockHeader + b_size b in
    let s' := mkState m' (g_heap_start s) (g_heap_end s) (g_heap_size s) (g_first_block s)
                (g_used_bytes s ⊕ n) (g_allocation_count s ⊕ 1) in
    l = l1 ++ b :: l2 /\ b_alloc b = None /\ no_fit (g_heap_start s) l1 n al /\
    u mod al = 0 /\ a + sizeof_BlockHeader + sizeof_AllocationPrefix <= u /\ u + n <= e /\
    kmalloc s n al = Some (s', u) /\ repr s' (l1 ++ use_abs b c u n ++ l2) /\
    (forall x, x < a \/ e <= x < e + 24 \/ e + 32 <= x -> m' x = mem s x).
Proof.
  intros Hr Hn Hal Hn0 Hp. pose proof (repr_fuel _ _ Hr) as Hfuel. pose proof (repr_link _ _ Hr) as Hlink.
  pose proof Hr as []. assert (0 < n) by (unfold is_u64 in Hn; lia).
  destruct (find_free_block_ok (walk_fuel s) (mem s) 0 (g_heap_start s) l n al) as (found & E & Hf); try done; [lia|].
  rewrite <- Hlink in E. unfold kmalloc. destruct (Z.eqb_spec (g_heap_start s) 0), (Z.eqb_spec n 0); try lia.
  rewrite Hp. cbn [negb orb]. rewrite E. cbn [mbind option_bind]. destruct found as [[[a u] c]|]; [right|by left].
  destruct Hf as (l1 & b & l2 & -> & -> & Hb & Hno & Hlay).
  set (st := g_heap_start s) in *. set (a := st + extent l1) in *.
  assert (st + extent (l1 ++ b :: l2) < 2 ^ 64) as Hend by lia.
  destruct (edit_bounds (mem s) st l1 b l2 r_blocks0 r_start0 Hend) as (Ha & Hs & Hae & He & _). fold a in Ha, Hae, He.
  pose proof (blocks_at_middle _ _ _ _ _ _ _ r_blocks0) as Hm. fold a in Hm.
  pose proof (calculate_layout_ok (mem s) a n al) as Hc. rewrite Hlay, (ba_size _ _ _ _ _ Hm) in Hc.
  destruct Hc as (Hu1 & Hu2 & Hu3 & Hu4 & Hc1 & Hc2); try done; [apply Hm|].
  assert (sizeof_BlockHeader = 32) as EH by done. unfold sizeof_AllocationPrefix in *.
  destruct (split_block_ok (mem s) st l1 b l2 r_blocks0 r_start0 Hend c r_bytes0 Hb ltac:(lia) Hc2) as (Hb1 & Hok1 & Hf1).
  fold a in Hb1, Hok1, Hf1. set (m1 := split_block (mem s) a c) in *. rewrite (u64_small (u - 24)) by word_lia.
  set (m2 := set_used (set_prefix m1 (u - 24) ALLOCATION_MAGIC a n) a true).
  destruct (use_abs_props l1 b c u n l2 Hb) as (Eext & Elive & _ & Hco).
  exists l1, b, l2, u, c, m2. cbv zeta. fold st a. split; [done|]. split; [done|]. split; [done|]. split; [done|].
  split; [done|]. split; [lia|]. split; [done|].
  assert (forall x, x < a + 8 \/ a + 9 <= x < u - 24 \/ u <= x -> m2 x = m1 x) as Hf2.
  { intros x Hx. unfold m2, set_used. rewrite store8_ne by lia. apply set_prefix_ne. lia. }
  split.
  - split; cbn [mem g_heap_start g_heap_end g_heap_size g_first_block]; try done; fold st.
    + unfold m2, set_used. apply store8_ok; [by apply set_prefix_ok|done].
    + rewrite Eext. done.
    + destruct (use_abs_cases b c u n Hb) as [[_ ->]|[_ ->]]; by destruct l1.
    + assert (exists h t, split_abs b c = h :: t /\ c <= b_size h) as (h & t & Eh & Hch).
      { destruct (use_abs_cases b c u n Hb) as [[-> _]|[-> _]]; eexists _, _; by split. }
      unfold use_abs. rewrite Eh in Hb1 |- *. cbn [app] in Hb1 |- *.
      apply (retag_ok m1 st l1 h (t ++ l2) Hb1 r_start0).
      * assert (extent (l1 ++ h :: t ++ l2) = extent (l1 ++ b :: l2)) as ->; [|done].
        change (h :: t ++ l2) with ((h :: t) ++ l2). rewrite <- Eh.
        destruct (use_abs_cases b c u n Hb) as [[-> _]|[-> _]]; rewrite !extent_app; cbn [extent b_size app]; lia.
      * fold a. intros x Hx. apply Hf2. lia.
      * fold a. unfold m2, set_used. by rewrite heap_store8_eq.
      * unfold alloc_ok. cbn [b_alloc b_size]. fold a. layout_unfold. split; [lia|]. split; [done|]. lia.
      * assert (is_u64 a) by word_lia. unfold prefix_at, m2. fold a. unfold sizeof_AllocationPrefix. mem_unfold.
        unfold ALLOCATION_MAGIC. mem_read. done.
    + by apply Hco.
  - intros x Hx. rewrite Hf2 by lia. apply Hf1. lia.
Qed.

Lemma kfree_release s l1 b l2 p :
  let l := l1 ++ b :: l2 in
  let a := g_heap_start s + extent l1 in
  let r := pre_requested (mem s) (p - sizeof_AllocationPrefix) in
  repr s l -> is_u64 p -> bad_pointer s p = false ->
  pre_magic (mem s) (p - sizeof_AllocationPrefix) = ALLOCATION_MAGIC ->
  pre_block (mem s) (p - sizeof_AllocationPrefix) = a -> is_Some (b_alloc b) -> bad_extent (mem s) a p = false ->
  exists s', kfree s p = Some s' /\ repr s' (release_abs l1 (b_size b) l2) /\
    (forall q n x, (q, n) ∈ live (l1 ++ l2) -> q <= x < q + n -> mem s' x = mem s x) /\
    pre_magic (mem s') (p - sizeof_AllocationPrefix) = 0 /\
    g_used_bytes s' = (if r <=? g_used_bytes s then g_used_bytes s ⊖ r else 0) /\
    g_allocation_count s' = (if 0 <? g_allocation_count s then g_allocation_count s ⊖ 1 else g_allocation_count s) /\
    g_heap_start s' = g_heap_start s /\ g_heap_end s' = g_heap_end s.
Proof.
  intros l a r Hr Hp64 Hbad Hmag Hblk Hused Hext. pose proof (repr_fuel _ _ Hr) as Hfuel.
  pose proof (repr_link _ _ Hr) as Hlink. pose proof Hr as []. set (st := g_heap_start s) in *.
  assert (st + extent (l1 ++ b :: l2) < 2 ^ 64) as Hend by (fold l; lia).
  destruct (edit_bounds (mem s) st l1 b l2 r_blocks0 r_start0 Hend) as (Ha & Hs & Hae & He & _). fold a in Ha, Hae, He.
  pose proof (blocks_at_middle _ _ _ _ _ _ _ r_blocks0) as Hm. fold a in Hm.
  assert (sizeof_BlockHeader = 32) as EH by done.
  assert (24 <= p) as H24 by (unfold bad_pointer, sizeof_AllocationPrefix in Hbad; lia).
  assert (p ⊖ sizeof_AllocationPrefix = p - 24) as Ep by (rewrite u64_small; unfold sizeof_AllocationPrefix; word_lia).
  unfold sizeof_AllocationPrefix in r, Hmag, Hblk |- *.
  assert (is_u64 r) as Hr64 by (by apply load64_range).
  pose proof Hext as Hext'. unfold bad_extent, block_payload_start in Hext. cbv zeta in Hext. rewrite Ep in Hext. fold r in Hext.
  rewrite (ba_size _ _ _ _ _ Hm), (u64_small (a + sizeof_BlockHeader)), checked_add_value, checked_add_value in Hext by word_lia.
  destruct (Z.ltb_spec (a + sizeof_BlockHeader + b_size b) (2 ^ 64)); [|lia].
  destruct (Z.ltb_spec (p + r) (2 ^ 64)); [|done].
  apply orb_false_iff in Hext as [Hx1%Z.ltb_ge Hx2%Z.ltb_ge].
  assert (block_is_known (walk_fuel s) (mem s) (g_first_block s) a = Some true) as Hk.
  { rewrite Hlink. destruct (block_is_known_ok _ _ _ _ _ a r_blocks0 r_start0 Hfuel) as (known & -> & Hk).
    f_equal. apply Hk. by exists l1, b, l2. }
  destruct (release_block_ok (mem s) st l1 b l2 (p - 24) r_blocks0 r_bytes0 r_start0 Hend) as (Hb1 & Hok1 & Hd1 & Hm1).
  { fold a. lia. } { fold a. unfold is_u64 in Hr64. lia. }
  fold a in Hb1, Hok1, Hd1, Hm1. unfold kfree. rewrite Hbad. cbv zeta. rewrite Ep, Hmag, Hblk, Z.eqb_refl.
  destruct (Z.eqb_spec a 0); [lia|]. cbn [negb orb]. rewrite Hk. cbn [mbind option_bind negb orb].
  rewrite (hdr_used_at _ _ _ _ _ Hm), (bool_decide_eq_true_2 _ Hused), Hext'. cbn [negb orb].
  eexists. split; [done|]. cbn [mem g_used_bytes g_allocation_count g_heap_start g_heap_end]. fold r.
  destruct (release_abs_props l1 b (b_size b) l2 eq_refl) as (Eext & _ & Hne).
  split; [|done]. split; cbn [mem g_heap_start g_heap_end g_heap_size g_first_block]; try done; fold st.
  - rewrite Eext. done.
  - by apply coalesced_release.
Qed.

(** ** Accounting *)

Definition requested (a : list (Z * Z)) : Z := foldr Z.add 0 (snd <$> a).

Lemma requested_app a1 a2 : requested (a1 ++ a2) = requested a1 + requested a2.
Proof. unfold requested. induction a1 as [|x a1 IH]; cbn; lia. Qed.

Lemma requested_cons p n a : requested ((p, n) :: a) = n + requested a.
Proof. done. Qed.

Lemma live_cons_some b l x : b_alloc b = Some x -> live (b :: l) = x :: live l.
Proof. unfold live. cbn. by intros ->. Qed.

Lemma live_bound m prev a l nxt :
  blocks_at m prev a l nxt -> 0 <= requested (live l) /\ requested (live l) + 56 * Z.of_nat (length (live l)) <= extent l.
Proof.
  revert prev a; induction l as [|b l IH]; intros prev a H; [done|]. destruct H as [Hb Hl].
  destruct (IH _ _ Hl) as [IH1 IH2]. pose proof (ba_size_pos _ _ _ _ _ Hb). cbn [extent].
  destruct (b_alloc b) as [[p n]|] eqn:E.
  - rewrite (live_cons_some b l (p, n) E), requested_cons. pose proof (ba_alloc _ _ _ _ _ Hb) as Ha. unfold alloc_ok in Ha.
    rewrite E in Ha. cbn [length]. layout_unfold. lia.
  - assert (live (b :: l) = live l) as -> by (unfold live; cbn; by rewrite E). unfold sizeof_BlockHeader in *. lia.
Qed.

(** A pointer handed out passes all the checks of [kfree]. *)
Lemma kfree_live s l1 b l2 p n :
  let l := l1 ++ b :: l2 in
  repr s l -> accounted s l -> b_alloc b = Some (p, n) ->
  exists s', kfree s p = Some s' /\ repr s' (release_abs l1 (b_size b) l2) /\ accounted s' (release_abs l1 (b_size b) l2) /\
    (forall q n x, (q, n) ∈ live (l1 ++ l2) -> q <= x < q + n -> mem s' x = mem s x) /\ kfree s' p = Some s'.
Proof.
  intros l Hr [Hu Hc] Eb. pose proof Hr as [].
  assert (g_heap_start s + extent (l1 ++ b :: l2) < 2 ^ 64) as Hend by (fold l; lia).
  destruct (edit_bounds (mem s) _ l1 b l2 r_blocks0 r_start0 Hend) as (Ha & Hs & Hae & He & _).
  destruct (blocks_at_bounds _ _ _ _ _ _ _ r_blocks0) as (Hl1 & _ & Hl2 & Etot). fold l in Etot.
  pose proof (blocks_at_middle _ _ _ _ _ _ _ r_blocks0) as Hm.
  pose proof (ba_alloc _ _ _ _ _ Hm) as Hal. pose proof (ba_prefix _ _ _ _ _ Hm) as Hpre.
  unfold alloc_ok in Hal. rewrite Eb in Hal, Hpre. destruct Hal as (Hn & Hp8 & Hp1 & Hp2). destruct Hpre as (Hmag & Hblk & Hreq).
  assert (sizeof_BlockHeader = 32) as EH by done. unfold sizeof_AllocationPrefix, alignof_AllocationPrefix in *.
  assert (p ⊖ 24 = p - 24) as Ep by (apply u64_small; word_lia).
  assert (bad_pointer s p = false) as Hbad.
  { unfold bad_pointer, sizeof_AllocationPrefix, alignof_AllocationPrefix. rewrite Ep, (u64_small (g_heap_start s + _)) by word_lia.
    assert (Z.land (p - 24) (8 - 1) = 0) as ->; [|rewrite Z.eqb_refl; lia].
    change (8 - 1) with (2 ^ 3 - 1). rewrite land_low by lia. change (2 ^ 3) with 8. zdm. }
  assert (bad_extent (mem s) (g_heap_start s + extent l1) p = false) as Hex.
  { unfold bad_extent, block_payload_start, sizeof_AllocationPrefix. cbv zeta. rewrite Ep, Hreq, (ba_size _ _ _ _ _ Hm).
    rewrite (u64_small (_ + sizeof_BlockHeader)), !checked_add_value by word_lia.
    destruct (Z.ltb_spec (g_heap_start s + extent l1 + sizeof_BlockHeader + b_size b) (2 ^ 64)), (Z.ltb_spec (p + n) (2 ^ 64)); lia. }
  destruct (kfree_release s l1 b l2 p Hr ltac:(word_lia) Hbad Hmag Hblk ltac:(by rewrite Eb; eexists) Hex)
    as (s' & E & Hr' & Hd & Hm0 & Hu' & Hc' & Hs1 & Hs2).
  exists s'. split; [exact E|]. split; [exact Hr'|]. unfold sizeof_AllocationPrefix in Hu', Hm0. rewrite Hreq in Hu'.
  destruct (release_abs_props l1 b (b_size b) l2 eq_refl) as (_ & Elive & _).
  destruct (live_bound _ _ _ _ _ r_blocks0) as [Hb1 Hb2].
  assert (requested (live l) = requested (live l1) + n + requested (live l2) /\
    Z.of_nat (length (live l)) = Z.of_nat (length (live l1)) + 1 + Z.of_nat (length (live l2))) as [Er El].
  { unfold l. rewrite live_app, (live_cons_some b l2 _ Eb), requested_app, requested_cons, length_app. cbn [length]. lia. }
  assert (0 <= requested (live l1) /\ 0 <= requested (live l2)) as [? ?].
  { apply blocks_at_app in r_blocks0 as [B1 [_ B2]]. split; [apply (live_bound _ _ _ _ _ B1)|apply (live_bound _ _ _ _ _ B2)]. }
  unfold l in Hb1, Hb2. fold (requested (live l)) in Hu. split; [|split; [exact Hd|]].
  - unfold accounted. rewrite Elive. fold (requested (live l1 ++ live l2)). rewrite requested_app, length_app, Hu', Hc', Hu, Hc.
    fold l in Hb1, Hb2. destruct (Z.leb_spec n (requested (live l))), (Z.ltb_spec 0 (Z.of_nat (length (live l)))); try lia.
    rewrite !u64_small by word_lia. lia.
  - unfold kfree. assert (bad_pointer s' p = false) as -> by (unfold bad_pointer in *; by rewrite Hs1, Hs2).
    cbv zeta. unfold sizeof_AllocationPrefix. rewrite Ep, Hm0. done.
Qed.

(** Whatever the pointer and the bytes the owners wrote, [kfree] does nothing or
    releases one block in use. *)
Lemma kfree_any s l p :
  repr s l -> is_u64 p -> exists s', kfree s p = Some s' /\ (s' = s \/ exists l', repr s' l').
Proof.
  intros Hr Hp. destruct (bad_pointer s p) eqn:Hbad; [exists s; unfold kfree; rewrite Hbad; auto|].
  assert (p ⊖ sizeof_AllocationPrefix = p - sizeof_AllocationPrefix) as Ep.
  { apply u64_small. unfold bad_pointer, sizeof_AllocationPrefix in *. word_lia. }
  destruct (block_is_known_ok (walk_fuel s) (mem s) 0 (g_heap_start s) l (pre_block (mem s) (p - sizeof_AllocationPrefix)))
    as (known & Ek & Hk); [apply Hr|apply Hr|by apply repr_fuel|].
  rewrite <- (repr_link _ _ Hr) in Ek.
  destruct (decide (known = true /\ pre_magic (mem s) (p - sizeof_AllocationPrefix) = ALLOCATION_MAGIC /\
    hdr_used (mem s) (pre_block (mem s) (p - sizeof_AllocationPrefix)) = true /\
    bad_extent (mem s) (pre_block (mem s) (p - sizeof_AllocationPrefix)) p = false)) as [(-> & Hmag & Hu & Hex)|Hno].
  - destruct (proj1 Hk eq_refl) as (l1 & b & l2 & -> & Eb). rewrite Eb in Hu, Hex.
    destruct (kfree_release s l1 b l2 p Hr Hp Hbad Hmag Eb) as (s' & E & Hr' & _); [|done|by eauto].
    pose proof (blocks_at_middle _ _ _ _ _ _ _ (r_blocks _ _ Hr)) as Hm.
    rewrite (hdr_used_at _ _ _ _ _ Hm) in Hu. by apply bool_decide_eq_true in Hu.
  - exists s. split; [|by left]. unfold kfree. rewrite Hbad. cbv zeta. rewrite Ep, Ek. cbn [mbind option_bind].
    destruct (negb _ || _) eqn:E1; [done|]. destruct (negb known || _ || _) eqn:E2; [done|]. exfalso. apply Hno.
    apply orb_false_iff in E1 as [E1 _]. apply orb_false_iff in E2 as [E2 E3]. apply orb_false_iff in E2 as [E2 E4].
    apply negb_false_iff in E1, E2, E4. split; [done|]. split; [by apply Z.eqb_eq|]. done.
Qed.

(** Owners write inside their allocations only. *)
Lemma repr_write s l p n m2 :
  repr s l -> (p, n) ∈ live l -> bytes_ok m2 -> (forall x, x < p \/ p + n <= x -> m2 x = mem s x) ->
  repr (with_mem s m2) l.
Proof.
  intros [] Hp Hok Hfr. split; try done. cbn [with_mem mem g_heap_start].
  apply live_split in Hp as (l1 & b & l2 & -> & Eb).
  pose proof (blocks_at_middle _ _ _ _ _ _ _ r_blocks0) as Hm. pose proof (ba_alloc _ _ _ _ _ Hm) as Ha.
  unfold alloc_ok in Ha. rewrite Eb in Ha. destruct b as [sz al]. cbn [b_alloc b_size] in *. subst al. layout_unfold.
  apply (retag_ok (mem s) (g_heap_start s) l1 (mkBlock sz (Some (p, n))) l2 r_blocks0 r_start0).
  - lia.
  - cbn [b_size]. intros x Hx. apply Hfr. layout_unfold. lia.
  - rewrite Hfr by lia. apply (ba_used _ _ _ _ _ Hm).
  - apply (ba_alloc _ _ _ _ _ Hm).
  - eapply prefix_at_ext; [|apply (ba_prefix _ _ _ _ _ Hm)]. intros x Hx. apply Hfr. layout_unfold. lia.
Qed.

Lemma init_ok m start size :
  bytes_ok m -> is_u64 start -> is_u64 size ->
  let s := init_kernel_heap m start size in
  bytes_ok (mem s) /\ (g_heap_start s = 0 \/ exists sz, repr s [mkBlock sz None] /\ accounted s [mkBlock sz None]).
Proof.
  intros Hok Hst Hsz. cbv zeta. unfold init_kernel_heap.
  destruct (_ || _) eqn:E0; [by split; [|left]|]. apply orb_false_iff in E0 as [H1%Z.eqb_neq H2%Z.eqb_neq].
  rewrite checked_add_value by (done || (unfold is_u64 in *; lia)).
  destruct (Z.ltb_spec (start + size) (2 ^ 64)) as [He|]; [|by split; [|left]].
  pose proof (align_up_ok start alignof_BlockHeader Hst ltac:(unfold alignof_BlockHeader; word_lia) eq_refl) as Hal.
  destruct (align_up start alignof_BlockHeader) as [st|]; [|by split; [|left]]. destruct Hal as (Hst8 & Hge & _).
  destruct (Z.leb_spec (start + size) st) as [|Hlt]; [by split; [|left]|]. cbv zeta.
  assert (0 < start) by (unfold is_u64 in *; lia). assert (sizeof_BlockHeader = 32) as EH by done.
  rewrite (u64_small (start + size - st)) by word_lia.
  destruct (Z.ltb_spec (start + size - st) (sizeof_BlockHeader + sizeof_AllocationPrefix + 1)) as [|Hmin]; [by split; [|left]|].
  unfold sizeof_AllocationPrefix in Hmin. rewrite (u64_small (start + size - st - sizeof_BlockHeader)) by word_lia.
  cbn [mem g_heap_start]. split; [mem_unfold; bytes_solve|]. right.
  exists (start + size - st - sizeof_BlockHeader). split; [|done].
  split; cbn [mem g_heap_start g_heap_end g_heap_size g_first_block extent blocks_at b_size]; try done; try lia.
  - mem_unfold. bytes_solve.
  - split; [|done]. split; cbn [b_size b_alloc link]; try done; try lia; mem_unfold; mem_read; done.
Qed.

Definition free_payload (l : list Block) : Z :=
  foldr Z.add 0 ((fun b => match b_alloc b with None => b_size b | Some _ => 0 end) <$> l).

Lemma free_bytes_loop_ok fuel m prev a l acc :
  blocks_at m prev a l 0 -> 0 < a -> 0 <= acc -> acc + extent l < 2 ^ 64 -> (length l < fuel)%nat ->
  free_bytes_loop fuel m (link l a 0) acc = Some (acc + free_payload l).
Proof.
  revert prev a acc fuel; induction l as [|b l IH]; intros prev a acc fuel H Ha Hacc Hsum Hf; destruct fuel as [|fuel]; try (cbn in Hf; lia).
  - unfold free_payload. cbn. by rewrite Z.add_0_r.
  - cbn [blocks_at link length extent] in *. destruct H as [Hb Hl]. cbn [free_bytes_loop].
    pose proof (ba_size_pos _ _ _ _ _ Hb). pose proof (blocks_at_extent _ _ _ _ _ Hl). unfold sizeof_BlockHeader in *.
    destruct (Z.eqb_spec a 0); [lia|]. rewrite (ba_next _ _ _ _ _ Hb), (hdr_used_at _ _ _ _ _ Hb), (ba_size _ _ _ _ _ Hb).
    unfold free_payload in *. cbn [fmap list_fmap foldr]. fold (free_payload l).
    destruct (b_alloc b) as [q|]; cbn [bool_decide].
    + rewrite bool_decide_eq_true_2 by by eexists. rewrite (IH _ _ _ _ Hl) by lia. done.
    + rewrite bool_decide_eq_false_2 by by intros []. rewrite (u64_small (acc + b_size b)), (IH _ _ _ _ Hl) by word_lia.
      unfold free_payload. f_equal. lia.
Qed.

Lemma free_bytes_ok s l : repr s l -> free_bytes s = Some (free_payload l).
Proof.
  intros Hr. unfold free_bytes. pose proof (repr_fuel _ _ Hr). rewrite (repr_link _ _ Hr). destruct Hr.
  by rewrite (free_bytes_loop_ok _ _ 0 _ l) by (done || lia).
Qed.

(** ** The heap over time

    A step is a call from any caller, with any pointer given to [kfree], or a
    write by the owner of an allocation inside its bytes. *)
Inductive step (s : State) : State -> Prop :=
  | step_init start size : is_u64 start -> is_u64 size -> step s (init_kernel_heap (mem s) start size)
  | step_kmalloc size al s' p : is_u64 size -> is_u64 al -> kmalloc s size al = Some (s', p) -> step s s'
  | step_kfree p s' : is_u64 p -> kfree s p = Some s' -> step s s'
  | step_write l p n x v :
      repr s l -> (p, n) ∈ live l -> p <= x < p + n -> 0 <= v < 256 -> step s (with_mem s (store8 (mem s) x v)).

Definition heap_ok (s : State) : Prop := bytes_ok (mem s) /\ (g_heap_start s = 0 \/ exists l, repr s l).

Lemma kmalloc_any s size al :
  heap_ok s -> is_u64 size -> is_u64 al -> exists s' p, kmalloc s size al = Some (s', p) /\ heap_ok s'.
Proof.
  intros [Hok [H0|[l Hr]]] Hs Hal.
  { exists s, 0. unfold kmalloc. rewrite H0. split; [done|]. split; [done|by left]. }
  destruct (decide (size = 0)) as [->|Hs0].
  { exists s, 0. unfold kmalloc. rewrite orb_true_r. split; [done|]. split; [done|]. right. by exists l. }
  destruct (is_power_of_two al) eqn:Hp.
  2:{ exists s, 0. unfold kmalloc. rewrite Hp, orb_true_r. split; [done|]. split; [done|]. right. by exists l. }
  destruct (kmalloc_repr s l size al Hr Hs Hal Hs0 Hp) as [[E _]|(l1 & b & l2 & u & c & m' & _ & _ & _ & _ & _ & _ & E & Hr' & _)].
  - exists s, 0. split; [done|]. split; [done|]. right. by exists l.
  - eexists _, u. split; [exact E|]. split; [apply Hr'|]. right. by eexists.
Qed.

Lemma kfree_total s p : heap_ok s -> is_u64 p -> exists s', kfree s p = Some s' /\ heap_ok s'.
Proof.
  intros [Hok [H0|[l Hr]]] Hp.
  - exists s. unfold kfree, bad_pointer. rewrite H0, orb_true_r. cbn. split; [done|]. split; [done|by left].
  - destruct (kfree_any s l p Hr Hp) as (s' & E & Hs'). exists s'. split; [done|].
    destruct Hs' as [->|[l' Hr']]; [split; [done|]; right; by exists l|]. split; [apply Hr'|]. right. by exists l'.
Qed.

Lemma step_heap_ok s s' : heap_ok s -> step s s' -> heap_ok s'.
Proof.
  intros H Hstep. destruct Hstep as [start size Hs1 Hs2|size al s' p Hs Hal E|p s' Hp E|l p n x v Hr Hl Hx Hv].
  - destruct (init_ok (mem s) start size) as [Hm [Hz|(sz & Hr & _)]]; [apply H|done|done|split; [done|by left]|].
    split; [done|]. right. by eexists.
  - destruct (kmalloc_any s size al H Hs Hal) as (s2 & p2 & E2 & Hok). congruence.
  - destruct (kfree_total s p H Hp) as (s2 & E2 & Hok). congruence.
  - assert (bytes_ok (store8 (mem s) x v)) as Hm by (apply store8_ok; [apply H|done]).
    split; [done|]. right. exists l. eapply repr_write; try done. intros y Hy. apply store8_ne. lia.
Qed.

Lemma kmalloc_accounted s l1 b l2 c u n m' :
  let s' := mkState m' (g_heap_start s) (g_heap_end s) (g_heap_size s) (g_first_block s)
              (g_used_bytes s ⊕ n) (g_allocation_count s ⊕ 1) in
  repr s (l1 ++ b :: l2) -> accounted s (l1 ++ b :: l2) -> b_alloc b = None ->
  repr s' (l1 ++ use_abs b c u n ++ l2) -> is_u64 n -> accounted s' (l1 ++ use_abs b c u n ++ l2).
Proof.
  intros s' Hr [Hu Hc] Hb Hr' Hn. destruct (use_abs_props l1 b c u n l2 Hb) as (Ee & El & El0 & _).
  destruct (live_bound _ _ _ _ _ (r_blocks _ _ Hr')) as [_ Hb2]. pose proof (r_extent _ _ Hr) as Hext.
  pose proof (r_end _ _ Hr) as Hend. pose proof (r_start _ _ Hr) as Hst. pose proof (r_blocks _ _ Hr) as Hbl.
  unfold accounted. cbn [s' g_used_bytes g_allocation_count]. rewrite El, El0 in *. rewrite Ee in Hb2.
  fold (requested (live l1 ++ live l2)) in Hu. fold (requested (live l1 ++ (u, n) :: live l2)).
  assert (0 <= requested (live l1) /\ 0 <= requested (live l2)) as [? ?].
  { apply blocks_at_app in Hbl as [B1 [_ B2]]. split; [apply (live_bound _ _ _ _ _ B1)|apply (live_bound _ _ _ _ _ B2)]. }
  rewrite requested_app, requested_cons, length_app in *. cbn [length] in *.
  rewrite Hu, Hc, !u64_small by word_lia. lia.
Qed.

(** The split and the merge cancel. *)
Lemma release_use l1 b c u n l2 :
  coalesced (l1 ++ b :: l2) -> b_alloc b = None ->
  exists h t, use_abs b c u n = h :: t /\ b_alloc h = Some (u, n) /\
    release_abs l1 (b_size h) (t ++ l2) = l1 ++ b :: l2.
Proof.
  intros Hco Hb. destruct b as [sz al]. cbn [b_alloc] in Hb. subst al.
  apply coalesced_split in Hco as Hco2. destruct Hco2 as [_ H2]. apply coalesced_app in Hco as [H1 _].
  assert (exists h t, use_abs (mkBlock sz None) c u n = h :: t /\ b_alloc h = Some (u, n) /\
    merge_abs (mkBlock (b_size h) None :: t ++ l2) = mkBlock sz None :: l2) as (h & t & E & Eh & Em).
  { destruct (use_abs_cases (mkBlock sz None) c u n eq_refl) as [[_ ->]|[_ ->]]; eexists _, _; (split; [done|]); (split; [done|]).
    - destruct l2 as [|d l2]; [done|]. cbn [app merge_abs b_size]. case_decide as Hd; [|done].
      cbn [coalesced b_alloc] in H2. naive_solver.
    - cbn [app merge_abs b_size b_alloc]. rewrite decide_True by done. do 2 f_equal. lia. }
  exists h, t. split; [done|]. split; [done|]. destruct l1 as [|d l1 _] using rev_ind.
  - unfold release_abs. by rewrite reverse_nil, Em.
  - rewrite release_abs_snoc, Em, <- app_assoc. case_decide as Hd; [|done].
    rewrite <- app_assoc in H1. apply coalesced_split in H1 as [_ H1]. cbn [app coalesced b_alloc] in H1. naive_solver.
Qed.

(** ** Example

    A heap in one page, and the same heap with 100 bytes handed out. *)
Definition example_heap : State := init_kernel_heap (fun _ => 0) 4096 4096.

Definition example_result : State * Z := default (example_heap, 0) (kmalloc example_heap 100 16).

Definition example_used : State := fst example_result.

Definition example_pointer : Z := snd example_result.

Lemma example_heap_repr : exists sz, repr example_heap [mkBlock sz None] /\ accounted example_heap [mkBlock sz None].
Proof.
  destruct (init_ok (fun _ => 0) 4096 4096) as [_ [H|H]]; [done|word_lia|word_lia| |exact H]. vm_compute in H. discriminate H.
Qed.

Lemma example_kmalloc : kmalloc example_heap 100 16 = Some (example_used, example_pointer).
Proof.
  assert (match kmalloc example_heap 100 16 with Some _ => true | None => false end = true) as H by (vm_compute; reflexivity).
  unfold example_used, example_pointer, example_result.
  destruct (kmalloc example_heap 100 16) as [[s p]|]; [reflexivity|discriminate H].
Qed.

Lemma example_used_repr : exists l, repr example_used l /\ accounted example_used l /\ (example_pointer, 100) ∈ live l.
Proof.
  destruct example_heap_repr as (sz & Hr & Ha).
  destruct (kmalloc_repr _ _ 100 16 Hr) as [[E _]|(l1 & b & l2 & u & c & m' & El & Hb & _ & _ & _ & _ & E & Hr' & _)];
    [word_lia|word_lia|done|done| |].
  - assert (match kmalloc example_heap 100 16 with Some (_, p) => p | None => 0 end = 4160) as Hp by (vm_compute; reflexivity).
    by rewrite E in Hp.
  - rewrite El in Hr, Ha. pose proof (kmalloc_accounted _ _ _ _ _ _ _ _ Hr Ha Hb Hr' ltac:(word_lia)) as Ha'.
    rewrite example_kmalloc in E. apply (inj Some), pair_equal_spec in E as [-> ->].
    eexists. split; [exact Hr'|]. split; [exact Ha'|].
    destruct (use_abs_props l1 b c u 100 l2 Hb) as (_ & -> & _). apply elem_of_app. right. constructor.
Qed.

(** ** Properties *)

(** C8: From an uninitialised heap, whatever is called (initialisation anywhere,
    [kmalloc] with any size and alignment, [kfree] with any pointer, stale,
    interior or forged) and whatever the owners write into their allocations:
    the heap is uninitialised or its bytes encode a list of blocks that tiles
    the region exactly, with all links, sizes, status bytes and prefixes
    consistent and no two neighbouring blocks free; and every walk over the
    list ends, so that the next call of each operation returns. *)
Theorem heap_invariant m s :
  bytes_ok m -> rtc step (reset_heap_state m) s ->
  (g_heap_start s = 0 \/ exists l, repr s l) /\
  (forall size al, is_u64 size -> is_u64 al -> is_Some (kmalloc s size al)) /\
  (forall p, is_u64 p -> is_Some (kfree s p)).
Proof.
  intros Hm Hs. assert (heap_ok s) as H.
  { assert (heap_ok (reset_heap_state m)) as H0 by (split; [done|by left]).
    induction Hs as [|s1 s2 s3 H12 _ IH]; [done|]. by eapply IH, step_heap_ok. }
  split; [apply H|]. split.
  - intros size al H1 H2. destruct (kmalloc_any s size al H H1 H2) as (? & ? & -> & _). by eexists.
  - intros p Hp. destruct (kfree_total s p H Hp) as (? & -> & _). by eexists.
Qed.

Lemma heap_invariant_witness : exists l, repr example_used l.
Proof.
  destruct (heap_invariant (fun _ => 0) example_used) as [[H|H] _]; [done| | |exact H].
  - eapply rtc_l; [apply (step_init _ 4096 4096); word_lia|].
    eapply rtc_l; [apply (step_kmalloc _ 100 16 example_used example_pointer); [word_lia|word_lia|exact example_kmalloc]|].
    apply rtc_refl.
  - exfalso. vm_compute in H. discriminate H.
Defined.

(** [kmalloc] on any well-formed heap returns.  A null result changes nothing
    and means a zero size, an alignment that is not a power of two, or that no
    free block has an aligned address with room for the prefix and the data.
    Any other result is aligned as requested, its bytes lie inside the heap and
    clear of every live allocation and its prefix, it is the only change to the
    set of live allocations, the counters account for it, and no byte of another
    allocation changes. *)
Theorem kmalloc_ok s l size al :
  repr s l -> accounted s l -> is_u64 size -> is_u64 al ->
  exists s' p, kmalloc s size al = Some (s', p) /\
  (p = 0 -> s' = s /\ (size = 0 \/ is_power_of_two al = false \/ no_fit (g_heap_start s) l size al)) /\
  (p ≠ 0 -> p mod al = 0 /\ g_heap_start s < p /\ p + size <= g_heap_end s /\
    exists l', repr s' l' /\ accounted s' l' /\ live l' ≡ₚ (p, size) :: live l /\
    forall q n, (q, n) ∈ live l ->
      (p + size <= q - sizeof_AllocationPrefix \/ q + n <= p - sizeof_AllocationPrefix) /\
      forall x, q <= x < q + n -> mem s' x = mem s x).
Proof.
  intros Hr Hacc Hs Hal. destruct (decide (size = 0)) as [->|Hs0].
  { exists s, 0. split; [unfold kmalloc; by rewrite orb_true_r|]. split; [by auto|done]. }
  destruct (is_power_of_two al) eqn:Hp.
  2:{ exists s, 0. split; [unfold kmalloc; by rewrite Hp, orb_true_r|]. split; [by auto|done]. }
  destruct (kmalloc_repr s l size al Hr Hs Hal Hs0 Hp)
    as [[E Hno]|(l1 & b & l2 & u & c & m' & -> & Hb & Hno & Hu1 & Hu2 & Hu3 & E & Hr' & Hfr)].
  { exists s, 0. split; [done|]. split; [by auto|done]. }
  eexists _, u. split; [exact E|]. pose proof (r_blocks _ _ Hr) as Hbl. pose proof (r_start _ _ Hr) as Hst.
  destruct (blocks_at_bounds _ _ _ _ _ _ _ Hbl) as (Hl1 & Hbs & Hl2 & Etot). pose proof (r_extent _ _ Hr) as Hext.
  pose proof (r_end _ _ Hr) as Hend. destruct (use_abs_props l1 b c u size l2 Hb) as (Ee & El & El0 & _). assert (sizeof_BlockHeader = 32) as EH by done.
  unfold sizeof_AllocationPrefix in *.
  split; [intros ->; lia|]. intros _. split; [done|]. split; [lia|]. split; [lia|]. eexists. split; [exact Hr'|].
  split; [exact (kmalloc_accounted _ _ _ _ _ _ _ _ Hr Hacc Hb Hr' Hs)|]. split.
  - rewrite El, El0. symmetry. apply Permutation_middle.
  - intros q n Hq. rewrite El0, <- live_app in Hq. change (b :: l2) with ([b] ++ l2) in Hbl.
    destruct (live_clear _ _ _ _ _ _ _ _ _ Hbl Hq) as [H|H]; cbn [extent] in H; unfold sizeof_AllocationPrefix in H;
      (split; [lia|]); intros x Hx; apply Hfr; lia.
Qed.

Lemma kmalloc_ok_witness :
  example_pointer mod 16 = 0 /\ exists l, repr example_used l /\ accounted example_used l.
Proof.
  destruct example_heap_repr as (sz & Hr & Ha).
  destruct (kmalloc_ok example_heap _ 100 16 Hr Ha) as (s' & p & E & _ & H); [word_lia|word_lia|].
  rewrite example_kmalloc in E. apply (inj Some), pair_equal_spec in E as [<- <-].
  destruct H as (H1 & _ & _ & l & H2 & H3 & _); [vm_compute; discriminate|].
  split; [exact H1|]. exists l. split; assumption.
Defined.

(** [kfree] of any live allocation, whatever its owner wrote into it, returns;
    it removes exactly that allocation, the counters account for it, the block
    is merged with its free neighbours (the result is a well-formed heap), no
    byte of another allocation changes, and freeing the same pointer again has
    no effect. *)
Theorem kfree_ok s l p n :
  repr s l -> accounted s l -> (p, n) ∈ live l ->
  exists s' l', kfree s p = Some s' /\ repr s' l' /\ accounted s' l' /\ live l ≡ₚ (p, n) :: live l' /\
    (forall q k x, (q, k) ∈ live l' -> q <= x < q + k -> mem s' x = mem s x) /\ kfree s' p = Some s'.
Proof.
  intros Hr Ha Hp. apply live_split in Hp as (l1 & b & l2 & -> & Eb).
  destruct (kfree_live s l1 b l2 p n Hr Ha Eb) as (s' & E & Hr' & Ha' & Hd & E2).
  destruct (release_abs_props l1 b (b_size b) l2 eq_refl) as (_ & El & _).
  exists s', (release_abs l1 (b_size b) l2). repeat (split; [done|]). split; [|split; [|done]].
  - rewrite El, live_app, (live_cons_some b l2 _ Eb). symmetry. apply Permutation_middle.
  - intros q k x Hq. apply Hd. by rewrite live_app, <- El.
Qed.

Lemma kfree_ok_witness :
  exists s' l', kfree example_used example_pointer = Some s' /\ repr s' l' /\ kfree s' example_pointer = Some s'.
Proof.
  destruct example_used_repr as (l & Hr & Ha & Hp).
  destruct (kfree_ok example_used l example_pointer 100 Hr Ha Hp) as (s' & l' & E & Hr' & _ & _ & _ & E2).
  exists s', l'. split; [exact E|]. split; assumption.
Defined.

(** A [kmalloc] followed by [kfree] of its result, whatever the owner wrote
    in between, gives back the very list of blocks from before (the split is
    undone by the merge) and the counters. *)
Theorem kmalloc_kfree_roundtrip s l size al s1 p m2 :
  repr s l -> accounted s l -> is_u64 size -> is_u64 al ->
  kmalloc s size al = Some (s1, p) -> p ≠ 0 ->
  bytes_ok m2 -> (forall x, x < p \/ p + size <= x -> m2 x = mem s1 x) ->
  exists s3, kfree (with_mem s1 m2) p = Some s3 /\ repr s3 l /\
    used_bytes s3 = used_bytes s /\ allocation_count s3 = allocation_count s /\ free_bytes s3 = free_bytes s.
Proof.
  intros Hr Ha Hs Hal E Hp Hok Hfr. destruct (decide (size = 0)) as [->|Hs0].
  { unfold kmalloc in E. rewrite orb_true_r in E. cbn in E. congruence. }
  destruct (is_power_of_two al) eqn:Hpow.
  2:{ unfold kmalloc in E. rewrite Hpow, orb_true_r in E. congruence. }
  destruct (kmalloc_repr s l size al Hr Hs Hal Hs0 Hpow)
    as [[E' _]|(l1 & b & l2 & u & c & m' & -> & Hb & _ & _ & _ & _ & E' & Hr' & _)]; rewrite E' in E; [congruence|].
  injection E as <- <-. pose proof (kmalloc_accounted _ _ _ _ _ _ _ _ Hr Ha Hb Hr' Hs) as Ha'. cbv zeta in Ha'.
  destruct (release_use l1 b c u size l2 (r_coalesced _ _ Hr) Hb) as (h & t & Eu & Eh & Erel).
  rewrite Eu in Hr', Ha'. cbn [app] in Hr', Ha'.
  assert ((u, size) ∈ live (l1 ++ h :: t ++ l2)) as Hlive.
  { rewrite live_app, (live_cons_some h _ _ Eh). apply elem_of_app. right. constructor. }
  pose proof (repr_write _ _ u size m2 Hr' Hlive Hok Hfr) as Hw.
  destruct (kfree_live _ l1 h (t ++ l2) u size Hw Ha' Eh) as (s3 & E3 & Hr3 & [Hu3 Hc3] & _).
  rewrite Erel in Hr3, Hu3, Hc3. exists s3. split; [exact E3|]. split; [done|]. destruct Ha as [Hu Hc].
  split; [unfold used_bytes; congruence|]. split; [unfold allocation_count; congruence|].
  by rewrite (free_bytes_ok _ _ Hr3), (free_bytes_ok _ _ Hr).
Qed.

Lemma kmalloc_kfree_roundtrip_witness :
  exists s3, kfree (with_mem example_used (store8 (mem example_used) (example_pointer + 7) 255)) example_pointer = Some s3 /\
    free_bytes s3 = free_bytes example_heap /\ free_bytes example_heap = Some 4064.
Proof.
  destruct example_heap_repr as (sz & Hr & Ha). destruct example_used_repr as (l & Hr1 & _).
  destruct (kmalloc_kfree_roundtrip example_heap _ 100 16 example_used example_pointer
    (store8 (mem example_used) (example_pointer + 7) 255) Hr Ha) as (s3 & E & _ & _ & _ & Hf).
  - word_lia.
  - word_lia.
  - exact example_kmalloc.
  - vm_compute. discriminate.
  - apply store8_ok; [apply Hr1|lia].
  - intros x Hx. apply store8_ne. lia.
  - exists s3. split; [exact E|]. split; [exact Hf|]. vm_compute. reflexivity.
Defined.
