(* ===== verification/VirtualMemory.v ===== *)
(** * Page tables (memory/virtual_memory.cpp)

    Mapping, unmapping and querying 4 KiB pages in x86-64 four-level page tables.
    The tables live in memory reached through a backend (allocation, physical to
    virtual translation, invalidation), which is a parameter: a record of
    functions on the memory and on a state of the backend's own.

    The world carries a log of the page-table stores and backend calls, the
    latest first, to state the order in which they happen. *)

From S2P Require Import Prelude.

Definition PAGE_SIZE : Z := 4096.
Definition PAGE_TABLE_ENTRY_COUNT : Z := 512.
Definition ARCHITECTURAL_PHYSICAL_ADDRESS_BITS : Z := 52.

Definition ENTRY_PRESENT : Z := Z.shiftl 1 0.
Definition ENTRY_WRITABLE : Z := Z.shiftl 1 1.
Definition ENTRY_USER : Z := Z.shiftl 1 2.
Definition ENTRY_WRITE_THROUGH : Z := Z.shiftl 1 3.
Definition ENTRY_CACHE_DISABLE : Z := Z.shiftl 1 4.
Definition ENTRY_ACCESSED : Z := Z.shiftl 1 5.
Definition ENTRY_DIRTY : Z := Z.shiftl 1 6.
Definition ENTRY_HUGE_OR_PAT : Z := Z.shiftl 1 7.
Definition ENTRY_GLOBAL : Z := Z.shiftl 1 8.
Definition ENTRY_MODULE_OWNED : Z := Z.shiftl 1 9.
Definition ENTRY_NO_EXECUTE : Z := Z.shiftl 1 63.

Definition ARCHITECTURAL_ADDRESS_MASK : Z := 0x000FFFFFFFFFF000.
Definition PAGE_OFFSET_MASK : Z := PAGE_SIZE - 1.

(** [MapFlags]: a set of bits. *)
Definition Writable : Z := Z.shiftl 1 0.
Definition User : Z := Z.shiftl 1 1.
Definition WriteThrough : Z := Z.shiftl 1 2.
Definition CacheDisable : Z := Z.shiftl 1 3.
Definition Global : Z := Z.shiftl 1 4.
Definition NoExecute : Z := Z.shiftl 1 5.

Definition VALID_MAP_FLAGS : Z :=
  Z.lor (Z.lor (Z.lor (Z.lor (Z.lor Writable User) WriteThrough) CacheDisable) Global) NoExecute.

Inductive Status :=
  | Ok | NotInitialized | InvalidArgument | InvalidFlags | NonCanonicalAddress | UnalignedAddress
  | AddressOverflow | PhysicalAddressOutOfRange | AlreadyMapped | NotMapped | OutOfMemory
  | BackendFailure | HugePageConflict | PermissionConflict | CorruptPageTable.

#[export] Instance Status_eq_dec : EqDecision Status.
Proof. solve_decision. Defined.

(** [(value & mask) != 0]. *)
Definition bit (value mask : Z) : bool := negb (Z.land value mask =? 0).

Definition has_flag (flags flag : Z) : bool := bit flags flag.

(** Page-table memory: the 64-bit word at each address. *)
Definition Memory := Z -> Z.

Inductive Event := EvStore (entry value : Z) | EvAllocate (physical : Z) | EvFree (physical : Z) | EvInvalidate (va : Z).

Record Mapping := mkMapping {
  m_virtual : Z; m_physical : Z; m_flags : Z; m_accessed : bool; m_dirty : bool }.

Record CreatedTable := mkCreated { parent_entry : Z; created_physical : Z }.

Record WalkPath := mkPath {
  tables : list Z; parent_entries : list Z; child_physical : list Z; leaf_value : Z;
  effective_writable : bool; effective_user : bool; effective_no_execute : bool }.

Definition canonical_address (address : Z) : bool :=
  let upper := Z.shiftr address 48 in
  if negb (Z.land (Z.shiftr address 47) 1 =? 0) then upper =? 0xFFFF else upper =? 0.

Definition validate_virtual_page (address : Z) : Status :=
  if negb (canonical_address address) then NonCanonicalAddress
  else if bit address PAGE_OFFSET_MASK then UnalignedAddress
  else if UINT64_MAX - PAGE_OFFSET_MASK <? address then AddressOverflow
  else if negb (canonical_address (address ⊕ PAGE_OFFSET_MASK)) then NonCanonicalAddress
  else Ok.

Definition valid_map_flags (flags : Z) : bool :=
  if bit flags (not64 VALID_MAP_FLAGS) then false else negb (has_flag flags User && has_flag flags Global).

Definition shifts : list Z := [39; 30; 21; 12].

Definition table_index (virtual_address : Z) (level : nat) : Z :=
  Z.land (Z.shiftr virtual_address (nth level shifts 0)) 0x1FF.

(** The address of an entry of a table. *)
Definition entry_address (table index : Z) : Z := table + 8 * index.

Definition hardware_leaf_flags (flags : Z) : Z :=
  let result := ENTRY_PRESENT in
  let result := if has_flag flags Writable then Z.lor result ENTRY_WRITABLE else result in
  let result := if has_flag flags User then Z.lor result ENTRY_USER else result in
  let result := if has_flag flags WriteThrough then Z.lor result ENTRY_WRITE_THROUGH else result in
  let result := if has_flag flags CacheDisable then Z.lor result ENTRY_CACHE_DISABLE else result in
  let result := if has_flag flags Global then Z.lor result ENTRY_GLOBAL else result in
  if has_flag flags NoExecute then Z.lor result ENTRY_NO_EXECUTE else result.

Section model.
Context {B : Type}.

(** The callbacks; a null pointer is a missing callback. *)
Record Backend := mkBackend {
  callbacks_present : bool;
  allocate_table : Memory -> B -> Memory * B * option Z;
  free_table : Memory -> B -> Z -> Memory * B;
  physical_to_virtual : B -> Z -> Z;
  invalidate_page : Memory -> B -> Z -> Memory * B;
  physical_address_bits : Z }.

Record AddressSpace := mkSpace {
  root_table_physical : Z; physical_address_mask : Z; backend : Backend; initialized : bool }.

Record World := mkWorld { mem : Memory; backend_state : B; log : list Event }.

Definition load_entry (w : World) (entry : Z) : Z := mem w entry.

Definition store_entry (w : World) (entry value : Z) : World :=
  mkWorld (fun a => if a =? entry then value else mem w a) (backend_state w) (EvStore entry value :: log w).

Definition call_allocate (sp : AddressSpace) (w : World) : World * option Z :=
  let '(m, b, r) := allocate_table (backend sp) (mem w) (backend_state w) in
  (mkWorld m b (match r with Some p => EvAllocate p :: log w | None => log w end), r).

Definition call_free (sp : AddressSpace) (w : World) (physical : Z) : World :=
  let '(m, b) := free_table (backend sp) (mem w) (backend_state w) physical in
  mkWorld m b (EvFree physical :: log w).

Definition call_invalidate (sp : AddressSpace) (w : World) (va : Z) : World :=
  let '(m, b) := invalidate_page (backend sp) (mem w) (backend_state w) va in
  mkWorld m b (EvInvalidate va :: log w).

Definition validate_physical_page (sp : AddressSpace) (address : Z) : Status :=
  if bit address PAGE_OFFSET_MASK then UnalignedAddress
  else if UINT64_MAX - PAGE_OFFSET_MASK <? address then AddressOverflow
  else if bit address (not64 (physical_address_mask sp)) then PhysicalAddressOutOfRange
  else Ok.

Definition table_for_physical (sp : AddressSpace) (w : World) (physical_address : Z) : Status + Z :=
  if negb (bool_decide (validate_physical_page sp physical_address = Ok)) then inl CorruptPageTable
  else
    let virtual_address := physical_to_virtual (backend sp) (backend_state w) physical_address in
    if (virtual_address =? 0) || bit virtual_address (8 - 1) then inl BackendFailure else inr virtual_address.

Definition child_table_from_entry (sp : AddressSpace) (w : World) (entry : Z) : Status + (Z * Z) :=
  if bit entry (Z.land ARCHITECTURAL_ADDRESS_MASK (not64 (physical_address_mask sp))) then inl CorruptPageTable
  else
    let physical := Z.land entry (physical_address_mask sp) in
    match table_for_physical sp w physical with
    | inl status => inl status
    | inr child_table => inr (physical, child_table)
    end.

Definition clear_table (w : World) (table : Z) : World :=
  fold_left (fun w index => store_entry w (entry_address table index) 0) (seqZ 0 PAGE_TABLE_ENTRY_COUNT) w.

Definition table_empty (w : World) (table : Z) : bool :=
  forallb (fun index => load_entry w (entry_address table index) =? 0) (seqZ 0 PAGE_TABLE_ENTRY_COUNT).

Definition rollback_created_tables (sp : AddressSpace) (w : World) (created : list CreatedTable) (va : Z) : World :=
  match created with
  | [] => w
  | _ =>
    let w := fold_left (fun w c => store_entry w (parent_entry c) 0) (reverse created) w in
    let w := call_invalidate sp w va in
    fold_left (fun w c => call_free sp w (created_physical c)) (reverse created) w
  end.

Definition allocate_child_table (sp : AddressSpace) (w : World) (parent : Z) (created : list CreatedTable)
  : World * (Status + (list CreatedTable * Z)) :=
  match call_allocate sp w with
  | (w, None) => (w, inl OutOfMemory)
  | (w, Some physical_address) =>
    if negb (bool_decide (validate_physical_page sp physical_address = Ok))
    then (call_free sp w physical_address, inl BackendFailure)
    else
      match table_for_physical sp w physical_address with
      | inl _ => (call_free sp w physical_address, inl BackendFailure)
      | inr table =>
        let w := clear_table w table in
        let w := store_entry w parent
          (Z.lor (Z.lor (Z.lor (Z.lor physical_address ENTRY_PRESENT) ENTRY_WRITABLE) ENTRY_USER) ENTRY_MODULE_OWNED) in
        (w, inr (created ++ [mkCreated parent physical_address], table))
      end
  end.

(** The walk over the first three levels, from [table] at [level] on. *)
Fixpoint walk_levels (sp : AddressSpace) (w : World) (va : Z) (n level : nat) (table : Z) (path : WalkPath)
  : Status + (Z * WalkPath) :=
  match n with
  | O => inr (table, path)
  | S n =>
    let entry := entry_address table (table_index va level) in
    let value := load_entry w entry in
    if negb (bit value ENTRY_PRESENT) then inl NotMapped
    else if bit value ENTRY_HUGE_OR_PAT then
      inl (if (level =? 0)%nat then CorruptPageTable else HugePageConflict)
    else
      match child_table_from_entry sp w value with
      | inl status => inl status
      | inr (child, table) =>
        walk_levels sp w va n (S level) table
          (mkPath (tables path ++ [table]) (parent_entries path ++ [entry]) (child_physical path ++ [child]) 0
            (effective_writable path && bit value ENTRY_WRITABLE)
            (effective_user path && bit value ENTRY_USER)
            (effective_no_execute path || bit value ENTRY_NO_EXECUTE))
      end
  end.

Definition walk_to_leaf (sp : AddressSpace) (w : World) (va : Z) : Status + WalkPath :=
  match table_for_physical sp w (root_table_physical sp) with
  | inl status => inl status
  | inr table =>
    match walk_levels sp w va 3 0 table (mkPath [table] [] [] 0 true true false) with
    | inl status => inl status
    | inr (table, path) =>
      let leaf := load_entry w (entry_address table (table_index va 3)) in
      if negb (bit leaf ENTRY_PRESENT) then inl NotMapped
      else if bit leaf (Z.land ARCHITECTURAL_ADDRESS_MASK (not64 (physical_address_mask sp))) then inl CorruptPageTable
      else
        inr (mkPath (tables path) (parent_entries path) (child_physical path) leaf
          (effective_writable path && bit leaf ENTRY_WRITABLE) (effective_user path && bit leaf ENTRY_USER)
          (effective_no_execute path || bit leaf ENTRY_NO_EXECUTE))
    end
  end.

Definition mapping_from_path (va : Z) (sp : AddressSpace) (path : WalkPath) : Mapping :=
  let flags := 0 in
  let flags := if effective_writable path then Z.lor flags Writable else flags in
  let flags := if effective_user path then Z.lor flags User else flags in
  let flags := if bit (leaf_value path) ENTRY_WRITE_THROUGH then Z.lor flags WriteThrough else flags in
  let flags := if bit (leaf_value path) ENTRY_CACHE_DISABLE then Z.lor flags CacheDisable else flags in
  let flags := if bit (leaf_value path) ENTRY_GLOBAL then Z.lor flags Global else flags in
  let flags := if effective_no_execute path then Z.lor flags NoExecute else flags in
  mkMapping (Z.land va (not64 PAGE_OFFSET_MASK)) (Z.land (leaf_value path) (physical_address_mask sp)) flags
    (bit (leaf_value path) ENTRY_ACCESSED) (bit (leaf_value path) ENTRY_DIRTY).

(** ** Entry points *)

Definition initialize (has_space : bool) (be : option Backend) (w : World) (root : Z) : Status * option AddressSpace :=
  match be with
  | Some be =>
    if negb has_space || negb (callbacks_present be) then (InvalidArgument, None)
    else
      let physical_bits :=
        if physical_address_bits be =? 0 then ARCHITECTURAL_PHYSICAL_ADDRESS_BITS else physical_address_bits be in
      if (physical_bits <? 12) || (ARCHITECTURAL_PHYSICAL_ADDRESS_BITS <? physical_bits) then (InvalidArgument, None)
      else
        let address_mask := Z.land (Z.shiftl 1 physical_bits - 1) (not64 PAGE_OFFSET_MASK) in
        if bit root PAGE_OFFSET_MASK then (UnalignedAddress, None)
        else if bit root (not64 address_mask) then (PhysicalAddressOutOfRange, None)
        else
          match table_for_physical (mkSpace root address_mask be false) w root with
          | inl status => (status, None)
          | inr _ => (Ok, Some (mkSpace root address_mask be true))
          end
  | None => (InvalidArgument, None)
  end.

(** An existing ancestor is too restrictive for the mapping. *)
Definition permission_conflict (flags value : Z) : bool :=
  (has_flag flags Writable && negb (bit value ENTRY_WRITABLE)) ||
  (has_flag flags User && negb (bit value ENTRY_USER)) ||
  (negb (has_flag flags NoExecute) && bit value ENTRY_NO_EXECUTE).

(** The loop of [map_page] over the first three levels; an error has been rolled back. *)
Fixpoint map_levels (sp : AddressSpace) (w : World) (va flags : Z) (n level : nat) (table : Z)
  (created : list CreatedTable) : World * (Status + (Z * list CreatedTable)) :=
  match n with
  | O => (w, inr (table, created))
  | S n =>
    let entry := entry_address table (table_index va level) in
    let value := load_entry w entry in
    let fail w status := (rollback_created_tables sp w created va, inl status) in
    if negb (bit value ENTRY_PRESENT) then
      if negb (value =? 0) then fail w CorruptPageTable
      else
        match allocate_child_table sp w entry created with
        | (w, inl status) => fail w status
        | (w, inr (created, table)) => map_levels sp w va flags n (S level) table created
        end
    else if bit value ENTRY_HUGE_OR_PAT then
      fail w (if (level =? 0)%nat then CorruptPageTable else HugePageConflict)
    else if permission_conflict flags value then fail w PermissionConflict
    else
      match child_table_from_entry sp w value with
      | inl status => fail w status
      | inr (_, table) => map_levels sp w va flags n (S level) table created
      end
  end.

Definition map_page (sp : option AddressSpace) (w : World) (va pa flags : Z) : World * Status :=
  match sp with
  | None => (w, InvalidArgument)
  | Some sp =>
    if negb (initialized sp) then (w, NotInitialized)
    else if negb (valid_map_flags flags) then (w, InvalidFlags)
    else if negb (bool_decide (validate_virtual_page va = Ok)) then (w, validate_virtual_page va)
    else if negb (bool_decide (validate_physical_page sp pa = Ok)) then (w, validate_physical_page sp pa)
    else
      match table_for_physical sp w (root_table_physical sp) with
      | inl status => (w, status)
      | inr table =>
        match map_levels sp w va flags 3 0 table [] with
        | (w, inl status) => (w, status)
        | (w, inr (table, created)) =>
          let leaf := entry_address table (table_index va 3) in
          let old_leaf := load_entry w leaf in
          if bit old_leaf ENTRY_PRESENT then (rollback_created_tables sp w created va, AlreadyMapped)
          else if negb (old_leaf =? 0) then (rollback_created_tables sp w created va, CorruptPageTable)
          else (call_invalidate sp (store_entry w leaf (Z.lor pa (hardware_leaf_flags flags))) va, Ok)
        end
      end
  end.

(** Lines 597-616: unlink the tables left empty that this module allocated. *)
Fixpoint detach_tables (sp : AddressSpace) (path : WalkPath) (depth : nat) (w : World) (detached : list Z)
  : World * list Z :=
  match depth with
  | O => (w, detached)
  | S parent_level =>
    let child_table := nth depth (tables path) 0 in
    if negb (table_empty w child_table) then (w, detached)
    else
      let parent := nth parent_level (parent_entries path) 0 in
      let parent_value := load_entry w parent in
      let child := nth parent_level (child_physical path) 0 in
      if negb (bit parent_value ENTRY_PRESENT) || negb (bit parent_value ENTRY_MODULE_OWNED) ||
         negb (Z.land parent_value (physical_address_mask sp) =? child)
      then (w, detached)
      else detach_tables sp path parent_level (store_entry w parent 0) (detached ++ [child])
  end.

Definition unmap_page (sp : option AddressSpace) (w : World) (va : Z) : World * Status * option Mapping :=
  match sp with
  | None => (w, InvalidArgument, None)
  | Some sp =>
    if negb (initialized sp) then (w, NotInitialized, None)
    else if negb (bool_decide (validate_virtual_page va = Ok)) then (w, validate_virtual_page va, None)
    else
      match walk_to_leaf sp w va with
      | inl status => (w, status, None)
      | inr path =>
        let leaf := entry_address (nth 3 (tables path) 0) (table_index va 3) in
        let w := store_entry w leaf 0 in
        let '(w, detached) := detach_tables sp path 3 w [] in
        let w := call_invalidate sp w va in
        (fold_left (call_free sp) detached w, Ok, Some (mapping_from_path va sp path))
      end
  end.

Definition query_page (sp : option AddressSpace) (w : World) (va : Z) (has_mapping : bool) : Status * option Mapping :=
  match sp with
  | None => (InvalidArgument, None)
  | Some sp =>
    if negb has_mapping then (InvalidArgument, None)
    else if negb (initialized sp) then (NotInitialized, None)
    else if negb (canonical_address va) then (NonCanonicalAddress, None)
    else
      match walk_to_leaf sp w va with
      | inl status => (status, None)
      | inr path => (Ok, Some (mapping_from_path va sp path))
      end
  end.

Definition translate (sp : option AddressSpace) (w : World) (va : Z) (has_output : bool) : Status * Z :=
  if negb has_output then (InvalidArgument, 0)
  else
    match query_page sp w va true with
    | (Ok, Some mapping) =>
      let offset := Z.land va PAGE_OFFSET_MASK in
      if UINT64_MAX - offset <? m_physical mapping then (AddressOverflow, 0) else (Ok, m_physical mapping ⊕ offset)
    | (status, _) => (status, 0)
    end.

(** ** The tables as the hardware sees them

    The entry at index [i] of the table at physical address [p]; the table an
    entry leads to; the table at the end of a path of indices from [p] on. *)

Definition bad_range (sp : AddressSpace) (e : Z) : bool :=
  bit e (Z.land ARCHITECTURAL_ADDRESS_MASK (not64 (physical_address_mask sp))).

Definition pte (sp : AddressSpace) (w : World) (p i : Z) : Z :=
  load_entry w (entry_address (physical_to_virtual (backend sp) (backend_state w) p) i).

Definition child (sp : AddressSpace) (e : Z) : option Z :=
  if negb (bit e ENTRY_PRESENT) || bit e ENTRY_HUGE_OR_PAT || bad_range sp e then None
  else Some (Z.land e (physical_address_mask sp)).

Fixpoint resolve (sp : AddressSpace) (w : World) (p : Z) (path : list Z) : option Z :=
  match path with
  | [] => Some p
  | i :: path => match child sp (pte sp w p i) with Some c => resolve sp w c path | None => None end
  end.

(** The page walk: the entries read, or the error met. *)
Fixpoint pwalk (sp : AddressSpace) (w : World) (level : nat) (p : Z) (idxs : list Z) : Status + list Z :=
  match idxs with
  | [] => inr []
  | i :: rest =>
    let e := pte sp w p i in
    if negb (bit e ENTRY_PRESENT) then inl NotMapped
    else
      match rest with
      | [] => if bad_range sp e then inl CorruptPageTable else inr [e]
      | _ =>
        if bit e ENTRY_HUGE_OR_PAT then inl (if (level =? 0)%nat then CorruptPageTable else HugePageConflict)
        else if bad_range sp e then inl CorruptPageTable
        else
          match pwalk sp w (S level) (Z.land e (physical_address_mask sp)) rest with
          | inl status => inl status
          | inr es => inr (e :: es)
          end
      end
  end.

Definition indices (va : Z) : list Z := [table_index va 0; table_index va 1; table_index va 2; table_index va 3].

Definition page_entries (sp : AddressSpace) (w : World) (va : Z) : Status + list Z :=
  pwalk sp w 0 (root_table_physical sp) (indices va).

Definition index_ok (i : Z) : Prop := 0 <= i < PAGE_TABLE_ENTRY_COUNT.

Definition mask_ok (mask : Z) : Prop :=
  exists n, 12 <= n <= 52 /\ mask = Z.land (Z.shiftl 1 n - 1) (not64 PAGE_OFFSET_MASK).

(** A page table below the root, and the way to it. *)
Definition reach (sp : AddressSpace) (w : World) (path : list Z) (p : Z) : Prop :=
  (length path <= 3)%nat /\ Forall index_ok path /\ resolve sp w (root_table_physical sp) path = Some p.

(** ** What the backend promises *)

(** The tables in [S] stay where they are, with their contents. *)
Definition keeps (be : Backend) (S : Z -> Prop) (m : Memory) (b : B) (m' : Memory) (b' : B) : Prop :=
  ((forall a, is_u64 (m a)) -> forall a, is_u64 (m' a)) /\
  forall q, S q -> physical_to_virtual be b' q = physical_to_virtual be b q /\
    forall i, index_ok i ->
      m' (entry_address (physical_to_virtual be b q) i) = m (entry_address (physical_to_virtual be b q) i).

(** [owned]: the pages that belong to the caller; the comments of [Backend] in
    virtual_memory.hpp, as laws. *)
Class PageTables (be : Backend) (owned : B -> Z -> Prop) : Prop := {
  pt_pointer b p : owned b p -> 0 < physical_to_virtual be b p /\ physical_to_virtual be b p mod 8 = 0;
  pt_disjoint b p q : owned b p -> owned b q -> p ≠ q ->
    physical_to_virtual be b p + PAGE_SIZE <= physical_to_virtual be b q \/
    physical_to_virtual be b q + PAGE_SIZE <= physical_to_virtual be b p;
  pt_allocate m b m' b' r : allocate_table be m b = (m', b', r) ->
    keeps be (owned b) m b m' b' /\
    match r with
    | Some p => is_u64 p /\ ~ owned b p /\ forall q, owned b' q <-> q = p \/ owned b q
    | None => forall q, owned b' q <-> owned b q
    end;
  pt_free m b m' b' p : owned b p -> free_table be m b p = (m', b') ->
    keeps be (fun q => owned b q /\ q ≠ p) m b m' b' /\ forall q, owned b' q <-> owned b q /\ q ≠ p;
  pt_invalidate m b m' b' va : invalidate_page be m b va = (m', b') ->
    keeps be (owned b) m b m' b' /\ forall q, owned b' q <-> owned b q }.

(** The tables form a tree of owned pages: every table is reached by one path. *)
Record wf (owned : B -> Z -> Prop) (sp : AddressSpace) (w : World) : Prop := {
  wf_mask : mask_ok (physical_address_mask sp);
  wf_root : is_u64 (root_table_physical sp) /\
    Z.land (root_table_physical sp) (physical_address_mask sp) = root_table_physical sp;
  wf_words : forall a, is_u64 (mem w a);
  wf_owned path p : reach sp w path p -> owned (backend_state w) p;
  wf_unique path path' p : reach sp w path p -> reach sp w path' p -> path = path' }.

End model.

Arguments mkWorld {B}.
Arguments mkSpace {B}.
Arguments mkBackend {B}.

(** ** Bits *)

Lemma bit_pow2 v k : 0 <= k -> bit v (Z.shiftl 1 k) = Z.testbit v k.
Proof. intros Hk. unfold bit. rewrite testbit_land_pow2 by done. apply negb_involutive. Qed.

Lemma pow2_testbit j k : 0 <= j -> Z.testbit (Z.shiftl 1 j) k = (k =? j).
Proof. intros. rewrite Z.shiftl_1_l, Z.pow2_bits_eqb, Z.eqb_sym by done. done. Qed.

Lemma bit_false v m : bit v m = false <-> Z.land v m = 0.
Proof. unfold bit. rewrite negb_false_iff. apply Z.eqb_eq. Qed.

Lemma bit_false_bits v m : bit v m = false -> forall k, Z.testbit v k && Z.testbit m k = false.
Proof. intros H%bit_false k. rewrite <- Z.land_spec, H. apply Z.bits_0. Qed.

Lemma bits_bit_false v m : (forall k, 0 <= k -> Z.testbit v k && Z.testbit m k = false) -> bit v m = false.
Proof. intros H. apply bit_false, Z.bits_inj'. intros k Hk. rewrite Z.land_spec, Z.bits_0. by apply H. Qed.

Lemma u64_testbit x k : 64 <= k -> is_u64 x -> Z.testbit x k = false.
Proof. intros Hk Hx. rewrite <- (Z.mod_small x (2 ^ 64)) by exact Hx. apply Z.mod_pow2_bits_high. lia. Qed.

Lemma u64_bits x : 0 <= x -> (forall k, 64 <= k -> Z.testbit x k = false) -> is_u64 x.
Proof.
  intros Hx H. unfold is_u64. replace x with (x mod 2 ^ 64); [apply Z.mod_pos_bound; lia|].
  rewrite <- Z.land_ones by lia. apply Z.bits_inj'. intros k Hk. rewrite Z.land_spec, Z.testbit_ones_nonneg by lia.
  destruct (Z.ltb_spec k 64); [apply andb_true_r|]. by rewrite H.
Qed.

Lemma lor_u64 x y : is_u64 x -> is_u64 y -> is_u64 (Z.lor x y).
Proof.
  intros Hx Hy. apply u64_bits; [apply Z.lor_nonneg; unfold is_u64 in *; lia|].
  intros k Hk. by rewrite Z.lor_spec, !u64_testbit.
Qed.

Lemma not64_testbit x k : 0 <= k -> Z.testbit (not64 x) k = (k <? 64) && negb (Z.testbit x k).
Proof.
  intros Hk. unfold not64, u64. destruct (Z.ltb_spec k 64).
  - rewrite Z.mod_pow2_bits_low, Z.lnot_spec by lia. done.
  - rewrite Z.mod_pow2_bits_high by lia. done.
Qed.

Lemma low_testbit n k : 0 <= n -> 0 <= k -> Z.testbit (Z.shiftl 1 n - 1) k = (k <? n).
Proof. intros Hn Hk. rewrite Z.shiftl_1_l, Z.sub_1_r, <- Z.ones_equiv. by apply Z.testbit_ones_nonneg. Qed.

Lemma offset_testbit k : 0 <= k -> Z.testbit PAGE_OFFSET_MASK k = (k <? 12).
Proof. intros Hk. apply (low_testbit 12); lia. Qed.

Lemma architectural_testbit k : 0 <= k -> Z.testbit ARCHITECTURAL_ADDRESS_MASK k = (12 <=? k) && (k <? 52).
Proof.
  intros Hk. change ARCHITECTURAL_ADDRESS_MASK with (Z.shiftl (Z.shiftl 1 40 - 1) 12).
  rewrite Z.shiftl_spec by done. destruct (Z.leb_spec 12 k).
  - rewrite low_testbit by lia. cbn [andb]. lia.
  - by rewrite Z.testbit_neg_r by lia.
Qed.

Lemma mask_testbit mask : mask_ok mask ->
  exists n, 12 <= n <= 52 /\ forall k, 0 <= k -> Z.testbit mask k = (12 <=? k) && (k <? n).
Proof.
  intros (n & Hn & ->). exists n. split; [done|]. intros k Hk.
  rewrite Z.land_spec, low_testbit, not64_testbit, offset_testbit by lia.
  destruct (Z.ltb_spec k n), (Z.leb_spec 12 k), (Z.ltb_spec k 64), (Z.ltb_spec k 12); cbn; lia || done.
Qed.

(** Decide an equation on words bit by bit. *)
Ltac testbits :=
  repeat first [rewrite Z.land_spec | rewrite Z.lor_spec | rewrite not64_testbit by lia | rewrite offset_testbit by lia
    | rewrite architectural_testbit by lia | rewrite pow2_testbit by lia].

Lemma mask_self mask p : mask_ok mask -> is_u64 p -> bit p (not64 mask) = false -> Z.land p mask = p.
Proof.
  intros Hm Hp H. pose proof (bit_false_bits _ _ H) as Hb. apply Z.bits_inj'. intros k Hk. specialize (Hb k).
  rewrite not64_testbit in Hb by lia. rewrite Z.land_spec. destruct (Z.testbit p k) eqn:E; [|done]. cbn in *.
  destruct (Z.ltb_spec k 64); cbn in Hb; [by apply negb_false_iff in Hb|]. by rewrite u64_testbit in E.
Qed.

Section bits.
Context (mask p : Z) (Hmask : mask_ok mask) (Hp : Z.land p mask = p).

(** A physical page of the address space has no bits outside the mask. *)
Lemma page_testbit k : 0 <= k -> Z.testbit p k = true -> 12 <= k < 52 /\ Z.testbit mask k = true.
Proof.
  intros Hk Hb. destruct (mask_testbit _ Hmask) as (n & Hn & Hm). rewrite <- Hp, Z.land_spec in Hb.
  apply andb_true_iff in Hb as [_ Hb]. split; [|done]. rewrite Hm in Hb by done. lia.
Qed.

Lemma page_low k : 0 <= k -> k < 12 \/ 52 <= k -> Z.testbit p k = false.
Proof. intros Hk Ho. destruct (Z.testbit p k) eqn:E; [|done]. apply page_testbit in E as [? _]; lia. Qed.

Lemma page_nonneg : 0 <= p.
Proof.
  destruct Hmask as (n & Hn & E). rewrite <- Hp. apply Z.land_nonneg. right. rewrite E. apply Z.land_nonneg. right.
  pose proof (u64_range (Z.lnot PAGE_OFFSET_MASK)) as H. unfold not64. unfold is_u64 in H. lia.
Qed.

Lemma page_u64 : is_u64 p.
Proof. apply u64_bits; [apply page_nonneg|]. intros k Hk. apply page_low; lia. Qed.

Lemma page_valid {B} (sp : @AddressSpace B) : physical_address_mask sp = mask -> validate_physical_page sp p = Ok.
Proof.
  intros Em. unfold validate_physical_page. rewrite Em.
  rewrite (bits_bit_false p PAGE_OFFSET_MASK).
  2:{ intros k Hk. rewrite offset_testbit by done. destruct (Z.ltb_spec k 12); [by rewrite page_low by lia|apply andb_false_r]. }
  destruct (Z.ltb_spec (UINT64_MAX - PAGE_OFFSET_MASK) p) as [Hlt|_].
  { exfalso. assert (p < 2 ^ 52); [|unfold PAGE_OFFSET_MASK, PAGE_SIZE in *; word_lia].
    rewrite <- (Z.mod_small p (2 ^ 64)) by exact page_u64. rewrite <- Z.land_ones by lia.
    assert (Z.land p (Z.ones 64) = Z.land p (Z.ones 52)) as ->.
    { apply Z.bits_inj'. intros k Hk. rewrite !Z.land_spec, !Z.testbit_ones_nonneg by lia.
      destruct (Z.ltb_spec k 52), (Z.ltb_spec k 64); try done; try lia. by rewrite page_low by lia. }
    rewrite Z.land_ones by lia. apply Z.mod_pos_bound. lia. }
  rewrite (bits_bit_false p (not64 mask)); [done|]. intros k Hk. rewrite not64_testbit by done.
  destruct (Z.testbit p k) eqn:E; [|done]. apply page_testbit in E as [_ ->]; [|done]. cbn. apply andb_false_r.
Qed.

(** A page address combined with flag bits. *)
Definition flag_word (f : Z) : Prop := is_u64 f /\ forall k, 12 <= k < 52 -> Z.testbit f k = false.

Lemma tagged_mask f : flag_word f -> Z.land (Z.lor p f) mask = p.
Proof.
  intros [_ Hf]. rewrite Z.land_lor_distr_l, Hp. destruct (mask_testbit _ Hmask) as (n & Hn & Hm).
  assert (Z.land f mask = 0) as ->; [|apply Z.lor_0_r]. apply Z.bits_inj'. intros k Hk.
  rewrite Z.land_spec, Hm, Z.bits_0 by done. destruct (Z.leb_spec 12 k), (Z.ltb_spec k n); cbn; try apply andb_false_r.
  by rewrite Hf by lia.
Qed.

Lemma tagged_bit f k : 0 <= k -> k < 12 \/ 52 <= k -> bit (Z.lor p f) (Z.shiftl 1 k) = Z.testbit f k.
Proof. intros Hk Ho. by rewrite bit_pow2, Z.lor_spec, page_low by lia. Qed.

Lemma tagged_range {B} (sp : @AddressSpace B) f :
  physical_address_mask sp = mask -> flag_word f -> bad_range sp (Z.lor p f) = false.
Proof.
  intros Em [_ Hf]. unfold bad_range. rewrite Em. apply bits_bit_false. intros k Hk. testbits.
  destruct (Z.leb_spec 12 k), (Z.ltb_spec k 52); cbn [andb]; try apply andb_false_r.
  rewrite Hf, orb_false_r by lia. destruct (Z.testbit p k) eqn:E; [|done].
  apply page_testbit in E as [_ ->]; [|done]. cbn. apply andb_false_r.
Qed.

Lemma tagged_u64 f : flag_word f -> is_u64 (Z.lor p f).
Proof. intros [Hf _]. apply lor_u64; [apply page_u64|done]. Qed.
End bits.

Lemma hardware_testbit flags k : 0 <= k ->
  Z.testbit (hardware_leaf_flags flags) k =
  (k =? 0) || ((k =? 1) && has_flag flags Writable) || ((k =? 2) && has_flag flags User) ||
  ((k =? 3) && has_flag flags WriteThrough) || ((k =? 4) && has_flag flags CacheDisable) ||
  ((k =? 8) && has_flag flags Global) || ((k =? 63) && has_flag flags NoExecute).
Proof.
  intros Hk. unfold hardware_leaf_flags, ENTRY_PRESENT, ENTRY_WRITABLE, ENTRY_USER, ENTRY_WRITE_THROUGH,
    ENTRY_CACHE_DISABLE, ENTRY_GLOBAL, ENTRY_NO_EXECUTE. cbv zeta.
  destruct (has_flag flags Writable), (has_flag flags User), (has_flag flags WriteThrough),
    (has_flag flags CacheDisable), (has_flag flags Global), (has_flag flags NoExecute);
    testbits; rewrite ?andb_true_r, ?andb_false_r, ?orb_false_r, ?orb_assoc; done.
Qed.

Lemma hardware_flag_word flags : flag_word (hardware_leaf_flags flags).
Proof.
  split.
  - apply u64_bits.
    + unfold hardware_leaf_flags. cbv zeta. repeat case_match; vm_compute; discriminate.
    + intros k Hk. rewrite hardware_testbit by lia. repeat (match goal with |- context [k =? ?j] => destruct (Z.eqb_spec k j); [lia|] end). done.
  - intros k Hk. rewrite hardware_testbit by lia. repeat (match goal with |- context [k =? ?j] => destruct (Z.eqb_spec k j); [lia|] end). done.
Qed.

(** The bits of an entry that links a table of this module. *)
Definition link_flags : Z := Z.lor (Z.lor (Z.lor ENTRY_PRESENT ENTRY_WRITABLE) ENTRY_USER) ENTRY_MODULE_OWNED.

Lemma link_flag_word : flag_word link_flags.
Proof.
  split; [vm_compute; split; [discriminate|reflexivity]|].
  intros k Hk. unfold link_flags, ENTRY_PRESENT, ENTRY_WRITABLE, ENTRY_USER, ENTRY_MODULE_OWNED. testbits.
  repeat (match goal with |- context [k =? ?j] => destruct (Z.eqb_spec k j); [lia|] end). done.
Qed.

(** ** Stores to page tables *)

Section tables.
Context {B : Type} (be : @Backend B) (owned : B -> Z -> Prop) {HB : PageTables be owned}.
Implicit Types (sp : @AddressSpace B) (w : @World B).

Definition ptr w p : Z := physical_to_virtual be (backend_state w) p.

Lemma entry_inj w p q i j :
  owned (backend_state w) p -> owned (backend_state w) q -> index_ok i -> index_ok j ->
  entry_address (ptr w p) i = entry_address (ptr w q) j -> p = q /\ i = j.
Proof.
  unfold entry_address, ptr, index_ok, PAGE_TABLE_ENTRY_COUNT. intros Hp Hq Hi Hj E.
  destruct (decide (p = q)) as [->|Hne]; [split; [done|lia]|].
  pose proof (pt_disjoint _ _ _ Hp Hq Hne) as Hd. unfold PAGE_SIZE in Hd. lia.
Qed.

Lemma pte_store sp w p q i j v :
  backend sp = be -> owned (backend_state w) p -> owned (backend_state w) q -> index_ok i -> index_ok j ->
  pte sp (store_entry w (entry_address (ptr w p) i) v) q j = if decide (q = p /\ j = i) then v else pte sp w q j.
Proof.
  intros Eb Hp Hq Hi Hj. unfold pte, load_entry, store_entry. cbn [mem backend_state]. rewrite Eb.
  fold (ptr w q). case_decide as E.
  - destruct E as [-> ->]. by rewrite Z.eqb_refl.
  - destruct (Z.eqb_spec (entry_address (ptr w q) j) (entry_address (ptr w p) i)) as [E'|]; [|done].
    exfalso. apply E. by eapply entry_inj.
Qed.

Lemma resolve_app sp w p path path' :
  resolve sp w p (path ++ path') = match resolve sp w p path with Some q => resolve sp w q path' | None => None end.
Proof. revert p; induction path as [|i path IH]; intros p; [done|]. cbn [app resolve]. by case_match. Qed.

Lemma reach_snoc sp w path p i c :
  reach sp w path p -> (length path < 3)%nat -> index_ok i -> child sp (pte sp w p i) = Some c ->
  reach sp w (path ++ [i]) c.
Proof.
  intros (Hl & Hi & Hr) Hlt Hi' Hc. split; [rewrite length_app; cbn; lia|].
  split; [by apply Forall_app; split; [|constructor]|]. rewrite resolve_app, Hr. cbn [resolve]. by rewrite Hc.
Qed.

Lemma reach_root sp w : reach sp w [] (root_table_physical sp).
Proof. split; [cbn; lia|]. split; [constructor|done]. Qed.

Lemma reach_inv sp w path i c :
  reach sp w (path ++ [i]) c -> exists p, reach sp w path p /\ index_ok i /\ child sp (pte sp w p i) = Some c.
Proof.
  intros (Hl & Hi & Hr). rewrite length_app in Hl. cbn in Hl. apply Forall_app in Hi as [Hi Hi'].
  apply Forall_cons in Hi' as [Hi' _]. rewrite resolve_app in Hr.
  destruct (resolve sp w (root_table_physical sp) path) as [p|] eqn:E; [|done]. cbn [resolve] in Hr.
  exists p. split; [split; [lia|done]|]. split; [done|]. by destruct (child sp (pte sp w p i)).
Qed.

(** [q] is a table of the tree that a store to entry [i] of [p] does not change below
    [path], because [path] does not go through that entry. *)
Lemma pte_store_off_path sp w path0 p i v prefix q j rest :
  backend sp = be -> wf owned sp w -> reach sp w path0 p -> index_ok i -> reach sp w prefix q -> index_ok j ->
  ~ (path0 ++ [i]) `prefix_of` (prefix ++ j :: rest) ->
  pte sp (store_entry w (entry_address (ptr w p) i) v) q j = pte sp w q j.
Proof.
  intros Eb Hwf Hp Hi Hq Hj Hno. rewrite pte_store; try done; try by eapply wf_owned.
  case_decide as E; [|done]. destruct E as [-> ->]. exfalso. apply Hno.
  rewrite (wf_unique _ _ _ Hwf _ _ _ Hq Hp). exists rest. by rewrite <- app_assoc.
Qed.

Lemma resolve_store_off_path sp w path0 p i v path :
  backend sp = be -> wf owned sp w -> reach sp w path0 p -> index_ok i ->
  forall prefix q, reach sp w prefix q -> Forall index_ok path -> (length (prefix ++ path) <= 3)%nat ->
  ~ (path0 ++ [i]) `prefix_of` (prefix ++ path) ->
  resolve sp (store_entry w (entry_address (ptr w p) i) v) q path = resolve sp w q path.
Proof.
  intros Eb Hwf Hp Hi. induction path as [|j path IH]; intros prefix q Hq Hpath Hlen Hno; [done|].
  apply Forall_cons in Hpath as [Hj Hpath]. cbn [resolve].
  rewrite (pte_store_off_path sp w path0 p i v prefix q j path) by done.
  destruct (child sp (pte sp w q j)) as [c|] eqn:Ec; [|done].
  rewrite length_app in Hlen. cbn in Hlen.
  apply (IH (prefix ++ [j])); [by apply (reach_snoc sp w prefix q); [|lia|..]|done| |by rewrite <- app_assoc].
  rewrite !length_app. cbn. lia.
Qed.

Lemma pwalk_store_off_path sp w path0 p i v path :
  backend sp = be -> wf owned sp w -> reach sp w path0 p -> index_ok i ->
  forall prefix level q, reach sp w prefix q -> Forall index_ok path -> (length (prefix ++ path) <= 4)%nat ->
  ~ (path0 ++ [i]) `prefix_of` (prefix ++ path) ->
  pwalk sp (store_entry w (entry_address (ptr w p) i) v) level q path = pwalk sp w level q path.
Proof.
  intros Eb Hwf Hp Hi. induction path as [|j path IH]; intros prefix level q Hq Hpath Hlen Hno; [done|].
  apply Forall_cons in Hpath as [Hj Hpath]. cbn [pwalk].
  rewrite (pte_store_off_path sp w path0 p i v prefix q j path) by done.
  destruct (bit (pte sp w q j) ENTRY_PRESENT) eqn:E1; [cbn [negb]|done].
  destruct path as [|k path]; [done|].
  destruct (bit (pte sp w q j) ENTRY_HUGE_OR_PAT) eqn:E2; [done|].
  destruct (bad_range sp (pte sp w q j)) eqn:E3; [done|]. rewrite length_app in Hlen. cbn in Hlen.
  rewrite (IH (prefix ++ [j])); [done| |done|rewrite !length_app; cbn; lia|by rewrite <- app_assoc].
  apply (reach_snoc sp w prefix q); [done|lia|done|]. unfold child. by rewrite E1, E2, E3.
Qed.

(** The walk depends on the tables it reaches only. *)
Definition same_tables sp w w' : Prop :=
  forall path q i, reach sp w path q -> index_ok i -> pte sp w' q i = pte sp w q i.

Lemma resolve_same sp w w' path :
  same_tables sp w w' -> forall prefix q, reach sp w prefix q -> Forall index_ok path ->
  (length (prefix ++ path) <= 3)%nat -> resolve sp w' q path = resolve sp w q path.
Proof.
  intros Hs. induction path as [|j path IH]; intros prefix q Hq Hpath Hlen; [done|].
  apply Forall_cons in Hpath as [Hj Hpath]. cbn [resolve]. rewrite (Hs prefix q j Hq Hj).
  destruct (child sp (pte sp w q j)) as [c|] eqn:Ec; [|done]. rewrite length_app in Hlen. cbn in Hlen.
  apply (IH (prefix ++ [j])); [by apply (reach_snoc sp w prefix q); [|lia|..]|done|]. rewrite !length_app. cbn. lia.
Qed.

Lemma pwalk_same sp w w' path :
  same_tables sp w w' -> forall prefix level q, reach sp w prefix q -> Forall index_ok path ->
  (length (prefix ++ path) <= 4)%nat -> pwalk sp w' level q path = pwalk sp w level q path.
Proof.
  intros Hs. induction path as [|j path IH]; intros prefix level q Hq Hpath Hlen; [done|].
  apply Forall_cons in Hpath as [Hj Hpath]. cbn [pwalk]. rewrite (Hs prefix q j Hq Hj).
  destruct (bit (pte sp w q j) ENTRY_PRESENT) eqn:E1; [cbn [negb]|done].
  destruct path as [|k path]; [done|].
  destruct (bit (pte sp w q j) ENTRY_HUGE_OR_PAT) eqn:E2; [done|].
  destruct (bad_range sp (pte sp w q j)) eqn:E3; [done|]. rewrite length_app in Hlen. cbn in Hlen.
  rewrite (IH (prefix ++ [j])); [done| |done|rewrite !length_app; cbn; lia].
  apply (reach_snoc sp w prefix q); [done|lia|done|]. unfold child. by rewrite E1, E2, E3.
Qed.

Lemma reach_same sp w w' path q : same_tables sp w w' -> reach sp w' path q <-> reach sp w path q.
Proof.
  intros Hs. unfold reach. split; intros (Hl & Hi & Hr); (split; [done|]; split; [done|]);
    pose proof (resolve_same sp w w' path Hs [] _ (reach_root sp w) Hi Hl); congruence.
Qed.

(** Nothing but the unreached changed. *)
Lemma wf_same sp w w' :
  wf owned sp w -> same_tables sp w w' -> (forall a, is_u64 (mem w' a)) ->
  (forall path q, reach sp w path q -> owned (backend_state w') q) ->
  wf owned sp w' /\ forall idxs, Forall index_ok idxs -> (length idxs <= 4)%nat ->
    pwalk sp w' 0 (root_table_physical sp) idxs = pwalk sp w 0 (root_table_physical sp) idxs.
Proof.
  intros [] Hs Hu Ho. split.
  - split; try done.
    + intros path q Hr. apply (reach_same _ _ _ _ _ Hs) in Hr. by eapply Ho.
    + intros path path' q Hr Hr'. apply (reach_same _ _ _ _ _ Hs) in Hr, Hr'. by eapply wf_unique0.
  - intros idxs Hi Hl. apply (pwalk_same sp w w' idxs Hs []); try done. apply reach_root.
Qed.

(** ** Changing one entry *)

Lemma prefix_dec_path (path0 path : list Z) : path0 `prefix_of` path \/ ~ path0 `prefix_of` path.
Proof. destruct (decide (path0 `prefix_of` path)); auto. Qed.

Lemma child_zero sp : child sp 0 = None.
Proof. done. Qed.

Section store.
Context sp w path0 p i v (Eb : backend sp = be) (Hwf : wf owned sp w) (Hp : reach sp w path0 p) (Hi : index_ok i) (Hv : is_u64 v).
Let w' := store_entry w (entry_address (ptr w p) i) v.

Lemma store_owner : owned (backend_state w) p.
Proof. by eapply wf_owned. Qed.

Lemma store_words a : is_u64 (mem w' a).
Proof. cbn. destruct (_ =? _); [done|]. apply Hwf. Qed.

(** Off the path of the entry nothing changes. *)
Lemma store_reach_off path q : ~ (path0 ++ [i]) `prefix_of` path -> reach sp w' path q <-> reach sp w path q.
Proof.
  intros Hno. unfold reach. split; intros (Hl & Hidx & Hr); (split; [done|]; split; [done|]);
    pose proof (resolve_store_off_path sp w path0 p i v path Eb Hwf Hp Hi [] _ (reach_root sp w) Hidx Hl Hno) as E;
    cbn [app] in E; fold w' in E; congruence.
Qed.

Lemma store_reach_parent : reach sp w' path0 p.
Proof.
  apply store_reach_off; [|done]. intros [k E]. apply (f_equal length) in E. rewrite !length_app in E. cbn in E. lia.
Qed.

Lemma store_pte_self : pte sp w' p i = v.
Proof. unfold w'. rewrite pte_store; try done; try apply store_owner. by rewrite decide_True. Qed.

(** A path through the entry continues in the table the new value leads to. *)
Lemma store_reach_below rest q :
  reach sp w' (path0 ++ [i] ++ rest) q -> exists c, child sp v = Some c /\ resolve sp w' c rest = Some q.
Proof.
  intros (Hl & Hidx & Hr). rewrite resolve_app in Hr. destruct store_reach_parent as (_ & _ & E). rewrite E in Hr.
  cbn [app resolve] in Hr. rewrite store_pte_self in Hr. destruct (child sp v) as [c|]; [|done]. by exists c.
Qed.

(** Clearing an entry, or setting one that leads to no table, leaves a tree. *)
Lemma store_leaf_wf : child sp v = None -> wf owned sp w' /\ forall path q, reach sp w' path q -> reach sp w path q.
Proof.
  intros Hc. assert (forall path q, reach sp w' path q -> reach sp w path q) as Hsub.
  { intros path q Hr. destruct (prefix_dec_path (path0 ++ [i]) path) as [[k ->]|Hno]; [|by apply store_reach_off in Hr].
    rewrite <- app_assoc in Hr. apply store_reach_below in Hr as (c & Ec & _). congruence. }
  split; [|done]. destruct Hwf. split; try done.
  - apply store_words.
  - intros path q Hr. apply Hsub in Hr. by eapply wf_owned0.
  - intros path path' q Hr Hr'. apply Hsub in Hr, Hr'. by eapply wf_unique0.
Qed.

Lemma store_walk_off idxs :
  Forall index_ok idxs -> (length idxs <= 4)%nat -> ~ (path0 ++ [i]) `prefix_of` idxs ->
  pwalk sp w' 0 (root_table_physical sp) idxs = pwalk sp w 0 (root_table_physical sp) idxs.
Proof.
  intros Hidx Hl Hno. by apply (pwalk_store_off_path sp w path0 p i v idxs Eb Hwf Hp Hi [] 0 _ (reach_root sp w)).
Qed.
End store.

(** A walk that goes through a reached table continues from it. *)
Lemma pwalk_through sp w path p rest :
  reach sp w path p -> (0 < length rest)%nat ->
  forall level q, resolve sp w q path = Some p ->
  pwalk sp w level q (path ++ rest) =
    match pwalk sp w (level + length path) p rest with
    | inl status => inl status
    | inr es => inr ((fix entries q path := match path with
        | [] => []
        | i :: path => pte sp w q i :: entries (Z.land (pte sp w q i) (physical_address_mask sp)) path
        end) q path ++ es)
    end.
Proof.
  intros _ Hrest. induction path as [|i path IH]; intros level q Hr; cbn [app resolve pwalk length] in *.
  - injection Hr as ->. rewrite Nat.add_0_r. by destruct (pwalk _ _ _ _ _).
  - unfold child in Hr. destruct (bit (pte sp w q i) ENTRY_PRESENT); [cbn [negb orb] in Hr |- *|done].
    destruct (bit (pte sp w q i) ENTRY_HUGE_OR_PAT); [done|]. destruct (bad_range sp (pte sp w q i)); [done|].
    cbn [orb] in Hr. destruct (path ++ rest) as [|j l] eqn:E; [destruct path; [by destruct rest|done]|].
    rewrite (IH (S level) _ Hr), Nat.add_succ_comm. by destruct (pwalk _ _ _ _ _).
Qed.

(** The first entry of a walk decides it when it is absent. *)
Lemma pwalk_absent sp w level p i rest :
  bit (pte sp w p i) ENTRY_PRESENT = false -> pwalk sp w level p (i :: rest) = inl NotMapped.
Proof. intros H. cbn [pwalk]. by rewrite H. Qed.

(** A walk through an absent entry of a reached table finds nothing. *)
Lemma walk_not_mapped sp w path p i rest :
  reach sp w path p -> bit (pte sp w p i) ENTRY_PRESENT = false ->
  pwalk sp w 0 (root_table_physical sp) (path ++ [i] ++ rest) = inl NotMapped.
Proof.
  intros Hr H. pose proof Hr as (_ & _ & E). rewrite (pwalk_through sp w path p ([i] ++ rest) Hr) by (done || cbn; lia).
  cbn [app]. by rewrite pwalk_absent.
Qed.
End tables.

(** ** Backend calls *)

Section calls.
Context {B : Type} (be : @Backend B) (owned : B -> Z -> Prop) {HB : PageTables be owned}.
Implicit Types (sp : @AddressSpace B) (w : @World B).

#[local] Notation "'own' w q" := (owned (backend_state w) q) (at level 10, w at next level, q at next level).

(** The tables in [S] stay in place with their contents. *)
Definition kept (S : Z -> Prop) w w' : Prop :=
  (forall a, is_u64 (mem w' a)) /\
  forall q, S q -> ptr be w' q = ptr be w q /\
    forall i, index_ok i -> mem w' (entry_address (ptr be w q) i) = mem w (entry_address (ptr be w q) i).

Lemma kept_pte S sp w w' q i : backend sp = be -> kept S w w' -> S q -> index_ok i -> pte sp w' q i = pte sp w q i.
Proof. intros Eb [_ Hk] Hq Hi. destruct (Hk q Hq) as [Ep Hm]. unfold pte, load_entry. rewrite Eb. fold (ptr be w' q) (ptr be w q). rewrite Ep. by apply Hm. Qed.

Lemma vm_kept_trans (S S' : Z -> Prop) w w1 w2 : kept S w w1 -> kept S' w1 w2 -> (forall q, S' q -> S q) -> kept S' w w2.
Proof.
  intros [_ H1] [Hu H2] Hsub. split; [done|]. intros q Hq. destruct (H1 q (Hsub q Hq)) as [E1 M1].
  destruct (H2 q Hq) as [E2 M2]. split; [congruence|]. intros i Hi. rewrite <- M1, <- E1 by done. by apply M2.
Qed.

Lemma kept_weaken (S S' : Z -> Prop) w w' : kept S w w' -> (forall q, S' q -> S q) -> kept S' w w'.
Proof. intros [Hu H] Hsub. split; [done|]. intros q Hq. by apply H, Hsub. Qed.

Lemma call_allocate_ok sp w : backend sp = be -> (forall a, is_u64 (mem w a)) ->
  let '(w', r) := call_allocate sp w in
  kept (fun q => own w q) w w' /\
  match r with
  | Some p => is_u64 p /\ ~ own w p /\ forall q, own w' q <-> q = p \/ own w q
  | None => forall q, own w' q <-> own w q
  end.
Proof.
  intros Eb Hu. unfold call_allocate. rewrite Eb.
  destruct (allocate_table be (mem w) (backend_state w)) as [[m b] r] eqn:E.
  destruct (pt_allocate _ _ _ _ _ E) as [[Hm Hk] Ho]. split; [|done]. split; [by apply Hm|done].
Qed.

Lemma call_free_ok sp w p : backend sp = be -> (forall a, is_u64 (mem w a)) -> own w p ->
  let w' := call_free sp w p in
  kept (fun q => own w q /\ q ≠ p) w w' /\ (forall q, own w' q <-> own w q /\ q ≠ p) /\ log w' = EvFree p :: log w.
Proof.
  intros Eb Hu Hp. unfold call_free. rewrite Eb.
  destruct (free_table be (mem w) (backend_state w) p) as [m b] eqn:E.
  destruct (pt_free _ _ _ _ _ Hp E) as [[Hm Hk] Ho]. split; [|done]. split; [by apply Hm|done].
Qed.

Lemma call_invalidate_ok sp w va : backend sp = be -> (forall a, is_u64 (mem w a)) ->
  let w' := call_invalidate sp w va in
  kept (fun q => own w q) w w' /\ (forall q, own w' q <-> own w q) /\ log w' = EvInvalidate va :: log w.
Proof.
  intros Eb Hu. unfold call_invalidate. rewrite Eb.
  destruct (invalidate_page be (mem w) (backend_state w) va) as [m b] eqn:E.
  destruct (pt_invalidate _ _ _ _ _ E) as [[Hm Hk] Ho]. split; [|done]. split; [by apply Hm|done].
Qed.

(** Freeing a list of distinct pages. *)
Lemma free_all_ok sp ps : backend sp = be -> forall w,
  (forall a, is_u64 (mem w a)) -> NoDup ps -> Forall (fun p => own w p) ps ->
  let w' := fold_left (call_free sp) ps w in
  kept (fun q => own w q /\ q ∉ ps) w w' /\ (forall q, own w' q <-> own w q /\ q ∉ ps) /\
  log w' = reverse (EvFree <$> ps) ++ log w.
Proof.
  intros Eb. induction ps as [|p ps IH]; intros w Hu Hnd Ho; cbn [fold_left].
  - split; [by split|]. split; [|done]. intros q. split; [split; [done|apply not_elem_of_nil]|by intros []].
  - apply NoDup_cons in Hnd as [Hp Hnd]. apply Forall_cons in Ho as [Hop Ho].
    destruct (call_free_ok sp w p Eb Hu Hop) as (Hk & Hown & Hlog). set (w1 := call_free sp w p) in *.
    destruct (IH w1) as (Hk2 & Hown2 & Hlog2); [apply Hk|done| |].
    { rewrite Forall_forall in Ho |- *. intros q Hq. apply Hown. split; [by apply Ho|]. by intros ->. }
    assert (forall q, own w q /\ q ∉ p :: ps <-> own w1 q /\ q ∉ ps) as Hiff.
    { intros q. rewrite Hown, not_elem_of_cons. naive_solver. }
    split; [|split].
    + apply (kept_weaken (fun q => own w1 q /\ q ∉ ps)); [|intros q Hq; by apply Hiff].
      eapply vm_kept_trans; [exact Hk|exact Hk2|]. intros q [Hq _]. by apply Hown.
    + intros q. rewrite Hown2. symmetry. apply Hiff.
    + rewrite Hlog2, Hlog, fmap_cons, reverse_cons, <- app_assoc. done.
Qed.

Lemma clear_loop_mem table l : forall w a,
  mem (fold_left (fun w i => store_entry w (entry_address table i) 0) l w) a =
    (if decide (a ∈ (entry_address table <$> l)) then 0 else mem w a) /\
  backend_state (fold_left (fun w i => store_entry w (entry_address table i) 0) l w) = backend_state w.
Proof.
  induction l as [|i l IH]; intros w a; cbn [fold_left]; [by rewrite decide_False by apply not_elem_of_nil|].
  destruct (IH (store_entry w (entry_address table i) 0) a) as [-> ->]. split; [|done].
  rewrite fmap_cons. cbn [store_entry mem]. destruct (decide (a ∈ entry_address table <$> l)) as [Hin|Hout].
  - rewrite decide_True by by right. done.
  - destruct (Z.eqb_spec a (entry_address table i)) as [->|Hne].
    + by rewrite decide_True by by left.
    + rewrite decide_False; [done|]. apply not_elem_of_cons. done.
Qed.

Lemma clear_table_ok sp w q : backend sp = be -> (forall a, is_u64 (mem w a)) -> own w q ->
  let w' := clear_table w (ptr be w q) in
  kept (fun x => own w x /\ x ≠ q) w w' /\ backend_state w' = backend_state w /\ (forall j, index_ok j -> pte sp w' q j = 0).
Proof.
  intros Eb Hu Hq. unfold clear_table. cbv zeta.
  pose proof (clear_loop_mem (ptr be w q) (seqZ 0 PAGE_TABLE_ENTRY_COUNT) w) as Hm.
  set (w' := fold_left _ _ w) in *. assert (backend_state w' = backend_state w) as Es by apply (Hm 0).
  split; [|split; [done|]].
  - split.
    + intros a. rewrite (proj1 (Hm a)). case_decide; [word_lia|done].
    + intros x [Hx Hne]. split; [unfold ptr; by rewrite Es|]. intros i Hi. rewrite (proj1 (Hm _)). rewrite decide_False; [done|].
      intros (j & E & Hj)%list_elem_of_fmap. apply elem_of_seqZ in Hj.
      apply (entry_inj be owned w x q i j) in E as [-> _]; try done.
  - intros j Hj. unfold pte, load_entry. rewrite Eb, Es, (proj1 (Hm _)). fold (ptr be w q). rewrite decide_True; [done|].
    apply list_elem_of_fmap. exists j. split; [done|]. apply elem_of_seqZ. exact Hj.
Qed.

(** ** The lookups of the code *)

Lemma table_for_physical_ok sp w p :
  backend sp = be -> mask_ok (physical_address_mask sp) -> Z.land p (physical_address_mask sp) = p -> own w p ->
  table_for_physical sp w p = inr (ptr be w p).
Proof.
  intros Eb Hm Hp Ho. unfold table_for_physical.
  rewrite (page_valid _ p Hm Hp sp eq_refl), bool_decide_eq_true_2 by done. cbn [negb]. rewrite Eb. fold (ptr be w p).
  destruct (pt_pointer _ _ Ho) as [Hpos Hal]. fold (ptr be w p) in Hpos, Hal. destruct (Z.eqb_spec (ptr be w p) 0); [lia|].
  unfold bit. change (8 - 1) with (2 ^ 3 - 1). rewrite land_low by lia. change (2 ^ 3) with 8. by rewrite Hal.
Qed.

Lemma land_mask_idem sp e : Z.land (Z.land e (physical_address_mask sp)) (physical_address_mask sp) = Z.land e (physical_address_mask sp).
Proof. by rewrite <- Z.land_assoc, Z.land_diag. Qed.

Lemma child_table_ok sp w e :
  backend sp = be -> mask_ok (physical_address_mask sp) ->
  (bad_range sp e = false -> own w (Z.land e (physical_address_mask sp))) ->
  child_table_from_entry sp w e =
    if bad_range sp e then inl CorruptPageTable
    else inr (Z.land e (physical_address_mask sp), ptr be w (Z.land e (physical_address_mask sp))).
Proof.
  intros Eb Hm Ho. unfold child_table_from_entry. fold (bad_range sp e).
  destruct (bad_range sp e); [done|]. by rewrite table_for_physical_ok by auto using land_mask_idem.
Qed.

Lemma reach_page sp w path p : wf owned sp w -> reach sp w path p -> Z.land p (physical_address_mask sp) = p.
Proof.
  intros Hwf Hr. destruct path as [|i path _] using rev_ind.
  - destruct Hr as (_ & _ & [= <-]). apply Hwf.
  - apply reach_inv in Hr as (q & _ & _ & Hc). unfold child in Hc. destruct (_ || _); [done|]. injection Hc as <-.
    apply land_mask_idem.
Qed.

(** ** Linking a new table *)

Record linked sp w w' (path0 : list Z) (p i q : Z) : Prop := {
  li_wf : wf owned sp w';
  li_reach : reach sp w' (path0 ++ [i]) q;
  li_zero j : index_ok j -> pte sp w' q j = 0;
  li_walk idxs : Forall index_ok idxs -> length idxs = 4%nat ->
    pwalk sp w' 0 (root_table_physical sp) idxs = pwalk sp w 0 (root_table_physical sp) idxs;
  li_owned x : own w' x <-> x = q \/ own w x;
  li_fresh : ~ own w q;
  li_ptr x : own w x -> ptr be w' x = ptr be w x;
  li_pte x j : own w x -> index_ok j -> ~ (x = p /\ j = i) -> pte sp w' x j = pte sp w x j;
  li_entry : pte sp w' p i = Z.lor q link_flags;
  li_keep path x : reach sp w path x -> reach sp w' path x }.

Lemma link_child sp q :
  mask_ok (physical_address_mask sp) -> Z.land q (physical_address_mask sp) = q -> child sp (Z.lor q link_flags) = Some q.
Proof.
  intros Hm Hq. unfold child, ENTRY_PRESENT, ENTRY_HUGE_OR_PAT.
  rewrite !(tagged_bit _ q Hm Hq link_flags) by lia.
  rewrite (tagged_range _ q Hm Hq sp link_flags eq_refl link_flag_word), (tagged_mask _ q Hm Hq _ link_flag_word). done.
Qed.

Lemma link_ok sp w path0 p i w1 q :
  backend sp = be -> wf owned sp w -> reach sp w path0 p -> (length path0 <= 2)%nat -> index_ok i -> pte sp w p i = 0 ->
  kept (fun x => own w x) w w1 -> ~ own w q -> (forall x, own w1 x <-> x = q \/ own w x) ->
  Z.land q (physical_address_mask sp) = q ->
  linked sp w (store_entry (clear_table w1 (ptr be w1 q)) (entry_address (ptr be w p) i) (Z.lor q link_flags)) path0 p i q.
Proof.
  intros Eb Hwf Hp Hlen Hi Hz Hk1 Hfresh Ho1 Hq. pose proof (wf_mask _ _ _ Hwf) as Hm.
  destruct (clear_table_ok sp w1 q Eb (proj1 Hk1)) as (Hk2 & Es2 & Hz2); [apply Ho1; by left|].
  set (w2 := clear_table w1 (ptr be w1 q)) in *. clearbody w2.
  assert (kept (fun x => own w x) w w2) as Hk.
  { eapply vm_kept_trans; [exact Hk1|eapply kept_weaken; [exact Hk2|]|done].
    intros x Hx. split; [apply Ho1; by right|]. by intros ->. }
  assert (forall x, own w2 x <-> x = q \/ own w x) as Ho2 by (intros x; by rewrite Es2).
  assert (same_tables sp w w2) as Hsame.
  { intros path x j Hr Hj. eapply kept_pte; [done|exact Hk| |done]. by eapply wf_owned. }
  destruct (wf_same owned sp w w2 Hwf Hsame (proj1 Hk)) as [Hwf2 Hwalk2].
  { intros path x Hr. apply Ho2. right. by eapply wf_owned. }
  assert (reach sp w2 path0 p) as Hp2 by (by apply (reach_same sp w w2)).
  assert (own w p) as Hop by (by eapply wf_owned).
  assert (ptr be w2 p = ptr be w p) as Eptr by (by apply Hk).
  rewrite <- Eptr. set (v := Z.lor q link_flags).
  assert (is_u64 v) as Hv by (apply (tagged_u64 _ q Hm Hq), link_flag_word).
  set (w3 := store_entry w2 (entry_address (ptr be w2 p) i) v).
  assert (child sp v = Some q) as Hcv by (by apply link_child).
  assert (forall x j, own w2 x -> index_ok j -> ~ (x = p /\ j = i) -> pte sp w3 x j = pte sp w2 x j) as Hpte3.
  { intros x j Hx Hj Hne. unfold w3. rewrite (pte_store be owned); try done; [by rewrite decide_False|]. apply Ho2. by right. }
  assert (forall j, index_ok j -> pte sp w3 q j = 0) as Hz3.
  { intros j Hj. rewrite Hpte3; [by apply Hz2|apply Ho2; by left|done|]. intros [-> _]. done. }
  assert (pte sp w3 p i = v) as Hself by (by eapply store_pte_self).
  assert (reach sp w3 (path0 ++ [i]) q) as Hrq.
  { apply (reach_snoc sp w3 path0 p); [by eapply store_reach_parent|lia|done|]. by rewrite Hself. }
  (* what lies below the new entry *)
  assert (forall rest x, reach sp w3 (path0 ++ [i] ++ rest) x -> rest = [] /\ x = q) as Hbelow.
  { intros rest x Hx. pose proof Hx as (_ & Hidx & _).
    apply (store_reach_below be owned sp w2 path0 p i v Eb Hwf2 Hp2 Hi) in Hx as (c & Ec & Hx). rewrite Hcv in Ec. injection Ec as <-.
    destruct rest as [|j rest]; [by injection Hx as ->|].
    apply Forall_app in Hidx as [_ Hidx]. apply Forall_app in Hidx as [_ Hidx]. apply Forall_cons in Hidx as [Hj _].
    cbn [resolve] in Hx. fold w3 in Hx. by rewrite Hz3 in Hx. }
  assert (forall path x, reach sp w3 path x -> (path = path0 ++ [i] /\ x = q) \/ reach sp w2 path x) as Hsplit.
  { intros path x Hx. destruct (prefix_dec_path (path0 ++ [i]) path) as [[rest ->]|Hno].
    - rewrite <- app_assoc in Hx. apply Hbelow in Hx as [-> ->]. left. by rewrite app_nil_r.
    - right. by apply (store_reach_off be owned sp w2 path0 p i v Eb Hwf2 Hp2 Hi). }
  assert (forall path, ~ reach sp w2 path q) as Hnq.
  { intros path Hx. apply (reach_same _ _ _ _ _ Hsame) in Hx. apply Hfresh. by eapply wf_owned. }
  split; try done.
  - split; try apply Hwf2.
    + intros a. by eapply store_words.
    + intros path x Hx. destruct (Hsplit _ _ Hx) as [[_ ->]|Hx2]; [apply Ho2; by left|]. cbn. by eapply (wf_owned _ _ _ Hwf2).
    + intros path path' x Hx Hx'. destruct (Hsplit _ _ Hx) as [[-> ->]|Hx2], (Hsplit _ _ Hx') as [[-> E]|Hx2']; try done.
      * by apply Hnq in Hx2'.
      * subst x. by apply Hnq in Hx2.
      * by eapply (wf_unique _ _ _ Hwf2).
  - intros idxs Hidx Hl. rewrite <- (Hwalk2 idxs Hidx) by lia.
    destruct (prefix_dec_path (path0 ++ [i]) idxs) as [[rest ->]|Hno].
    + rewrite length_app, length_app in Hl. cbn in Hl. destruct rest as [|j rest]; [cbn in Hl; lia|].
      assert (index_ok j) as Hj. { apply Forall_app in Hidx as [_ Hidx]. by apply Forall_cons in Hidx as [? _]. }
      change (j :: rest) with ([j] ++ rest). rewrite (walk_not_mapped sp w3 (path0 ++ [i]) q j rest Hrq) by (by rewrite Hz3).
      rewrite <- app_assoc. rewrite (walk_not_mapped sp w2 path0 p i ([j] ++ rest) Hp2); [done|].
      by rewrite (Hsame path0 p i Hp Hi), Hz.
    + apply (store_walk_off be owned sp w2 path0 p i v Eb Hwf2 Hp2 Hi); [done|lia|done].
  - intros x Hx. cbn. by apply Hk.
  - intros x j Hx Hj Hne. rewrite Hpte3; [|apply Ho2; by right|done|done]. by eapply kept_pte.
  - intros path x Hx. apply (reach_same _ _ _ _ _ Hsame) in Hx. apply (store_reach_off be owned sp w2 path0 p i v Eb Hwf2 Hp2 Hi); [|done].
    intros [rest ->]. destruct Hx as (_ & _ & Hx). destruct Hp2 as (_ & _ & Hp2). rewrite <- app_assoc, resolve_app, Hp2 in Hx.
    cbn [app resolve] in Hx. by rewrite (Hsame path0 p i Hp Hi), Hz in Hx.
Qed.
End calls.

(** ** Building the tables of a page, and undoing it *)

Section map.
Context {B : Type} (be : @Backend B) (owned : B -> Z -> Prop) {HB : PageTables be owned}.
Implicit Types (sp : @AddressSpace B) (w : @World B).
#[local] Notation "'own' w q" := (owned (backend_state w) q) (at level 10, w at next level, q at next level).

(** Every mapping is as it was. *)
Definition same_pages sp w w' : Prop :=
  forall idxs, Forall index_ok idxs -> length idxs = 4%nat ->
    pwalk sp w' 0 (root_table_physical sp) idxs = pwalk sp w 0 (root_table_physical sp) idxs.

(** The tables [cs] have been linked since [w0]. *)
Record built sp w0 (cs : list CreatedTable) w : Prop := {
  bu_wf : wf owned sp w;
  bu_pages : same_pages sp w0 w;
  bu_owned x : own w x <-> own w0 x \/ x ∈ (created_physical <$> cs);
  bu_fresh x : x ∈ (created_physical <$> cs) -> ~ own w0 x;
  bu_nodup : NoDup (created_physical <$> cs);
  bu_ptr x : own w0 x -> ptr be w x = ptr be w0 x;
  bu_pte x j : own w0 x -> index_ok j ->
    pte sp w x j = pte sp w0 x j \/ pte sp w0 x j = 0 /\ entry_address (ptr be w x) j ∈ (parent_entry <$> cs);
  bu_parent c : c ∈ cs -> exists x i, own w x /\ index_ok i /\ parent_entry c = entry_address (ptr be w x) i /\
    (own w0 x -> pte sp w0 x i = 0) }.

(** Nothing is left of an attempt. *)
Record restored sp w0 w : Prop := {
  re_wf : wf owned sp w;
  re_pages : same_pages sp w0 w;
  re_owned x : own w x <-> own w0 x;
  re_tables x j : own w0 x -> index_ok j -> ptr be w x = ptr be w0 x /\ pte sp w x j = pte sp w0 x j }.

Lemma same_pages_refl sp w : same_pages sp w w.
Proof. done. Qed.

Lemma built_nil sp w : wf owned sp w -> built sp w [] w.
Proof.
  intros Hwf. split; try done.
  - intros x. split; [by left|]. by intros [|?%not_elem_of_nil].
  - intros x ?%not_elem_of_nil. done.
  - constructor.
  - intros x j _ _. by left.
  - intros c ?%not_elem_of_nil. done.
Qed.

Lemma built_link sp w0 cs w w' path0 p i q :
  backend sp = be -> built sp w0 cs w -> linked be owned sp w w' path0 p i q -> own w p -> index_ok i -> pte sp w p i = 0 ->
  built sp w0 (cs ++ [mkCreated (entry_address (ptr be w p) i) q]) w'.
Proof.
  intros Eb [] [] Hp Hi Hz. split; try done.
  - intros idxs Hidx Hl. rewrite li_walk0, bu_pages0; done.
  - intros x. rewrite li_owned0, bu_owned0, fmap_app, elem_of_app. cbn. rewrite list_elem_of_singleton. naive_solver.
  - intros x. rewrite fmap_app, elem_of_app. cbn. rewrite list_elem_of_singleton. intros [| ->]; [by apply bu_fresh0|].
    intros Hq. apply li_fresh0, bu_owned0. by left.
  - rewrite fmap_app. apply NoDup_app. split; [done|]. split; [|apply NoDup_singleton].
    intros x Hx ->%list_elem_of_singleton. apply li_fresh0, bu_owned0. by right.
  - intros x Hx. rewrite li_ptr0; [by apply bu_ptr0|]. apply bu_owned0. by left.
  - intros x j Hx Hj. assert (own w x) as Hxw by (apply bu_owned0; by left).
    rewrite fmap_app, elem_of_app. cbn. rewrite list_elem_of_singleton. rewrite (li_ptr0 x Hxw).
    destruct (decide (x = p /\ j = i)) as [[-> ->]|Hne].
    + right. split; [|by right]. destruct (bu_pte0 p i Hx Hi) as [E|[E _]]; congruence.
    + rewrite li_pte0 by done. destruct (bu_pte0 x j Hx Hj) as [E|[E Hin]]; [by left|right]. split; [done|by left].
  - intros c. rewrite elem_of_app, list_elem_of_singleton. intros [Hc| ->].
    + destruct (bu_parent0 c Hc) as (x & k & Hx & Hk & E & Hz0). exists x, k.
      split; [apply li_owned0; by right|]. split; [done|]. split; [by rewrite li_ptr0|done].
    + exists p, i. cbn. split; [apply li_owned0; by right|]. split; [done|]. split; [by rewrite li_ptr0|].
      intros Hp0. destruct (bu_pte0 p i Hp0 Hi) as [E|[E _]]; congruence.
Qed.

Lemma clear_parents cs : forall w,
  let w' := fold_left (fun w c => store_entry w (parent_entry c) 0) cs w in
  (forall a, mem w' a = if decide (a ∈ (parent_entry <$> cs)) then 0 else mem w a) /\
  backend_state w' = backend_state w /\
  exists stores, log w' = stores ++ log w /\ Forall (fun e => exists a, e = EvStore a 0) stores.
Proof.
  induction cs as [|c cs IH]; intros w; cbn [fold_left].
  - split; [intros a; by rewrite decide_False by apply not_elem_of_nil|]. split; [done|]. by exists [].
  - destruct (IH (store_entry w (parent_entry c) 0)) as (H1 & -> & stores & -> & Hs). split; [|split; [done|]].
    + intros a. rewrite H1, fmap_cons. cbn [store_entry mem]. destruct (decide (a ∈ parent_entry <$> cs)).
      * by rewrite decide_True by by right.
      * destruct (Z.eqb_spec a (parent_entry c)) as [->|]; [by rewrite decide_True by by left|].
        by rewrite decide_False by by apply not_elem_of_cons.
    + exists (stores ++ [EvStore (parent_entry c) 0]). cbn. rewrite <- app_assoc. split; [done|].
      apply Forall_app. split; [done|]. constructor; [by eexists|constructor].
Qed.

(** The order of the stores and backend calls: first the stores, then the
    invalidation, then the frees. *)
Definition ordered (va : Z) (old new : list Event) : Prop :=
  exists frees stores, new = (EvFree <$> frees) ++ EvInvalidate va :: stores ++ old /\
    Forall (fun e => exists a, e = EvStore a 0) stores.

Lemma fold_left_map {A C D : Type} (f : D -> C -> D) (g : A -> C) (l : list A) (d : D) :
  fold_left (fun d a => f d (g a)) l d = fold_left f (g <$> l) d.
Proof. revert d; induction l as [|a l IH]; intros d; [done|]. cbn. apply IH. Qed.

Lemma rollback_ok sp w0 cs w va :
  backend sp = be -> wf owned sp w0 -> built sp w0 cs w ->
  let w' := rollback_created_tables sp w cs va in
  restored sp w0 w' /\ (cs = [] -> w' = w) /\ (cs ≠ [] -> ordered va (log w) (log w')).
Proof.
  intros Eb Hwf0 Hb. unfold rollback_created_tables. destruct cs as [|c cs'] eqn:Ecs.
  { cbv zeta. split; [|by split]. destruct Hb. split; try done.
    - intros x. rewrite bu_owned0. split; [|by left]. by intros [|?%not_elem_of_nil].
    - intros x j Hx Hj. split; [by apply bu_ptr0|]. destruct (bu_pte0 x j Hx Hj) as [|[_ ?%not_elem_of_nil]]; done. }
  rewrite <- Ecs in Hb |- *. assert (cs ≠ []) as Hne by (by rewrite Ecs). clear c cs' Ecs. revert cs Hb Hne. intros cs Hb Hne.
  destruct (clear_parents (reverse cs) w) as (Hm1 & Es1 & stores & El1 & Hst).
  cbv zeta. set (w1 := fold_left (fun w c => store_entry w (parent_entry c) 0) (reverse cs) w) in *. clearbody w1.
  pose proof (bu_wf _ _ _ _ Hb) as Hwf.
  assert (forall a, is_u64 (mem w1 a)) as Hu1 by (intros a; rewrite Hm1; case_decide; [word_lia|apply Hwf]).
  destruct (call_invalidate_ok be owned sp w1 va Eb Hu1) as (Hk2 & Ho2 & El2). set (w2 := call_invalidate sp w1 va) in *. clearbody w2.
  assert (fold_left (fun w c => call_free sp w (created_physical c)) (reverse cs) w2 =
    fold_left (call_free sp) (created_physical <$> reverse cs) w2) as -> by apply fold_left_map.
  set (ps := created_physical <$> reverse cs).
  assert (forall x, x ∈ ps <-> x ∈ created_physical <$> cs) as Hps.
  { intros x. unfold ps. rewrite !list_elem_of_fmap. by setoid_rewrite elem_of_reverse. }
  destruct (free_all_ok be owned sp ps Eb w2) as (Hk3 & Ho3 & El3).
  { apply Hk2. }
  { unfold ps. rewrite fmap_reverse, reverse_Permutation. apply Hb. }
  { apply Forall_forall. intros x Hx. apply Ho2. rewrite Es1. apply (bu_owned _ _ _ _ Hb). right. by apply Hps. }
  set (w3 := fold_left (call_free sp) ps w2) in *. clearbody w3.
  assert (forall x, own w0 x -> own w1 x /\ x ∉ ps) as H01.
  { intros x Hx. split; [rewrite Es1; apply (bu_owned _ _ _ _ Hb); by left|]. rewrite Hps. intros H. by apply (bu_fresh _ _ _ _ Hb) in H. }
  assert (forall x, own w3 x <-> own w0 x) as Ho.
  { intros x. rewrite Ho3, Ho2, Es1, (bu_owned _ _ _ _ Hb), Hps. split; [naive_solver|]. intros Hx. split; [by left|].
    intros H. by apply (bu_fresh _ _ _ _ Hb) in H. }
  assert (kept be (fun x => own w1 x /\ x ∉ ps) w1 w3) as Hk.
  { apply (vm_kept_trans be (fun x => own w1 x) (fun x => own w1 x /\ x ∉ ps) w1 w2 w3 Hk2); [|by intros q []].
    eapply kept_weaken; [exact Hk3|]. intros q [Hq Hn]. split; [by apply Ho2|done]. }
  assert (forall x j, own w0 x -> index_ok j -> ptr be w3 x = ptr be w0 x /\ pte sp w3 x j = pte sp w0 x j) as Htab.
  { intros x j Hx Hj. destruct (H01 x Hx) as [H1 H2]. assert (own w x) as Hxw by (by rewrite <- Es1).
    assert (ptr be w1 x = ptr be w x) as Ep1 by (unfold ptr; by rewrite Es1). split.
    - rewrite (proj1 (proj2 Hk x (conj H1 H2))), Ep1. by apply Hb.
    - rewrite (kept_pte be _ sp w1 w3 x j Eb Hk (conj H1 H2) Hj). unfold pte at 1, load_entry. rewrite Eb. fold (ptr be w1 x).
      rewrite Hm1, Ep1. case_decide as Hin.
      + rewrite fmap_reverse, elem_of_reverse in Hin. apply list_elem_of_fmap in Hin as (c & Ec & Hc).
        destruct (bu_parent _ _ _ _ Hb c Hc) as (y & k & Hy & Hk' & Ey & Hz). rewrite Ey in Ec.
        apply (entry_inj be owned w x y j k Hxw Hy Hj Hk') in Ec as [-> ->]. by rewrite Hz.
      + destruct (bu_pte _ _ _ _ Hb x j Hx Hj) as [E|[_ H]].
        * rewrite <- E. unfold pte, load_entry. by rewrite Eb.
        * exfalso. apply Hin. by rewrite fmap_reverse, elem_of_reverse. }
  split; [|split; [done|]].
  - destruct (wf_same owned sp w0 w3 Hwf0) as [Hwf3 Hwalk].
    + intros path x j Hr Hj. apply Htab; [by eapply wf_owned|done].
    + apply Hk3.
    + intros path x Hr. apply Ho. by eapply wf_owned.
    + split; try done. intros idxs Hidx Hl. apply Hwalk; [done|lia].
  - intros _. exists (reverse ps), stores. split; [|done]. by rewrite El3, El2, El1, <- fmap_reverse.
Qed.

Lemma index_ok_table va level : index_ok (table_index va level).
Proof.
  unfold index_ok, table_index, PAGE_TABLE_ENTRY_COUNT. change 0x1FF with (2 ^ 9 - 1). rewrite land_low by lia.
  change (2 ^ 9) with 512. apply Z.mod_pos_bound. lia.
Qed.

Lemma indices_ok va : Forall index_ok (indices va).
Proof. unfold indices. repeat constructor; apply index_ok_table. Qed.

Lemma indices_snoc va level : (level < 4)%nat -> firstn (S level) (indices va) = firstn level (indices va) ++ [table_index va level].
Proof. intros H. destruct level as [|[|[|[|]]]]; [done..|lia]. Qed.

Lemma length_prefix va level : (level <= 4)%nat -> length (firstn level (indices va)) = level.
Proof. intros H. rewrite length_take. cbn. lia. Qed.

Lemma reach_prefix sp w path path' p : reach sp w (path ++ path') p -> exists q, reach sp w path q.
Proof.
  intros (Hl & Hi & Hr). rewrite length_app in Hl. apply Forall_app in Hi as [Hi _]. rewrite resolve_app in Hr.
  destruct (resolve sp w (root_table_physical sp) path) as [q|] eqn:E; [|done]. exists q. split; [lia|done].
Qed.

Lemma reach_det sp w path p q : reach sp w path p -> reach sp w path q -> p = q.
Proof. intros (_ & _ & H) (_ & _ & H'). congruence. Qed.

(** The tables above a page permit the mapping. *)
Definition allowed sp w (flags : Z) (path : list Z) : Prop :=
  forall k x, (k < length path)%nat -> reach sp w (firstn k path) x ->
    permission_conflict flags (pte sp w x (nth k path 0)) = false.

Lemma allowed_snoc sp w flags path i p :
  allowed sp w flags path -> reach sp w path p -> permission_conflict flags (pte sp w p i) = false ->
  allowed sp w flags (path ++ [i]).
Proof.
  intros Ha Hp Hc k x Hk Hx. rewrite length_app in Hk. cbn in Hk.
  destruct (decide (k = length path)) as [->|Hne].
  - rewrite take_app_length in Hx. rewrite app_nth2, Nat.sub_diag by lia. cbn. by rewrite (reach_det sp w path x p).
  - rewrite take_app_le in Hx by lia. rewrite app_nth1 by lia. apply Ha; [lia|done].
Qed.

Lemma link_permits sp flags q :
  mask_ok (physical_address_mask sp) -> Z.land q (physical_address_mask sp) = q ->
  permission_conflict flags (Z.lor q link_flags) = false.
Proof.
  intros Hm Hq. unfold permission_conflict, ENTRY_WRITABLE, ENTRY_USER, ENTRY_NO_EXECUTE.
  rewrite !(tagged_bit _ q Hm Hq link_flags) by lia.
  change (Z.testbit link_flags 1) with true. change (Z.testbit link_flags 2) with true. change (Z.testbit link_flags 63) with false.
  cbn [negb]. rewrite !andb_false_r. done.
Qed.

(** A call of the backend that keeps the caller's tables. *)
Lemma built_kept sp w0 cs w w1 :
  backend sp = be -> built sp w0 cs w -> kept be (fun x => own w x) w w1 -> (forall x, own w1 x <-> own w x) -> built sp w0 cs w1.
Proof.
  intros Eb Hb Hk Ho. pose proof (bu_wf _ _ _ _ Hb) as Hwf.
  assert (same_tables sp w w1) as Hs by (intros path q i Hr Hi; eapply kept_pte; [done|exact Hk|by eapply wf_owned|done]).
  destruct (wf_same owned sp w w1 Hwf Hs (proj1 Hk)) as [Hwf1 Hwalk].
  { intros path q Hr. apply Ho. by eapply wf_owned. }
  destruct Hb. split; try done.
  - intros idxs Hidx Hl. rewrite Hwalk by (done || lia). by apply bu_pages0.
  - intros x. by rewrite Ho.
  - intros x Hx. rewrite (proj1 (proj2 Hk x (proj2 (bu_owned0 x) (or_introl Hx)))). by apply bu_ptr0.
  - intros x j Hx Hj. assert (own w x) as Hxw by (apply bu_owned0; by left).
    rewrite (kept_pte be _ sp w w1 x j Eb Hk Hxw Hj), (proj1 (proj2 Hk x Hxw)). by apply bu_pte0.
  - intros c Hc. destruct (bu_parent0 c Hc) as (x & i & Hx & Hi & E & Hz). exists x, i.
    split; [by apply Ho|]. split; [done|]. split; [|done]. by rewrite (proj1 (proj2 Hk x Hx)).
Qed.

Lemma ptr_state w w' q : backend_state w' = backend_state w -> ptr be w' q = ptr be w q.
Proof. unfold ptr. by intros ->. Qed.

Lemma store_state w a v : backend_state (store_entry w a v) = backend_state w.
Proof. done. Qed.

Lemma clear_table_state w table : backend_state (clear_table w table) = backend_state w.
Proof. apply (clear_loop_mem table _ w 0). Qed.

#[local] Opaque clear_table.

(** Allocating a child table links it or changes nothing. *)
Lemma allocate_child_ok sp w0 cs w path0 p i :
  backend sp = be -> built sp w0 cs w -> reach sp w path0 p -> (length path0 <= 2)%nat -> index_ok i -> pte sp w p i = 0 ->
  match allocate_child_table sp w (entry_address (ptr be w p) i) cs with
  | (w1, inl st) => built sp w0 cs w1 /\ st ≠ Ok
  | (w1, inr (cs1, t)) => exists q, linked be owned sp w w1 path0 p i q /\ t = ptr be w1 q /\
      Z.land q (physical_address_mask sp) = q /\ cs1 = cs ++ [mkCreated (entry_address (ptr be w p) i) q]
  end.
Proof.
  intros Eb Hb Hp Hlen Hi Hz. pose proof (bu_wf _ _ _ _ Hb) as Hwf. pose proof (wf_mask _ _ _ Hwf) as Hm.
  unfold allocate_child_table. pose proof (call_allocate_ok be owned sp w Eb (wf_words _ _ _ Hwf)) as Hal.
  destruct (call_allocate sp w) as [w1 [q|]]; destruct Hal as [Hk Ho]; [|split; [by eapply built_kept|done]].
  destruct Ho as (Hq64 & Hfresh & Ho).
  assert (own w1 q) as Hoq by (apply Ho; by left).
  assert (forall st, st ≠ Ok -> built sp w0 cs (call_free sp w1 q) /\ st ≠ Ok) as Hfail.
  { intros st Hst. split; [|done]. destruct (call_free_ok be owned sp w1 q Eb (proj1 Hk) Hoq) as (Hk2 & Ho2 & _).
    apply (built_kept sp w0 cs w); [done|done| |].
    - eapply vm_kept_trans; [exact Hk|eapply kept_weaken; [exact Hk2|]|done].
      intros x Hx. split; [apply Ho; by right|]. by intros ->.
    - intros x. rewrite Ho2, Ho. split; [naive_solver|]. intros Hx. split; [by right|]. by intros ->. }
  destruct (bool_decide_reflect (validate_physical_page sp q = Ok)) as [Hv|Hv]; cbn [negb]; [|by apply Hfail].
  assert (Z.land q (physical_address_mask sp) = q) as Hq.
  { apply mask_self; [done|done|]. unfold validate_physical_page in Hv. destruct (bit q PAGE_OFFSET_MASK); [done|].
    destruct (_ <? q); [done|]. by destruct (bit q (not64 _)). }
  rewrite (table_for_physical_ok be owned sp w1 q Eb Hm Hq Hoq). exists q.
  assert (Z.lor (Z.lor (Z.lor (Z.lor q ENTRY_PRESENT) ENTRY_WRITABLE) ENTRY_USER) ENTRY_MODULE_OWNED = Z.lor q link_flags) as ->
    by (unfold link_flags; by rewrite !Z.lor_assoc).
  split; [by apply link_ok|]. split; [|done]. symmetry. apply ptr_state.
  transitivity (backend_state (clear_table w1 (ptr be w1 q))); [apply store_state|apply clear_table_state].
Qed.

Lemma map_levels_ok sp w0 va flags : backend sp = be -> wf owned sp w0 ->
  forall n level w cs p, (level + n = 3)%nat -> built sp w0 cs w -> reach sp w (firstn level (indices va)) p ->
  allowed sp w flags (firstn level (indices va)) ->
  match map_levels sp w va flags n level (ptr be w p) cs with
  | (w', inl st) => restored sp w0 w' /\ st ≠ Ok
  | (w', inr (t, cs')) => built sp w0 cs' w' /\ exists p', reach sp w' (firstn 3 (indices va)) p' /\
      t = ptr be w' p' /\ allowed sp w' flags (firstn 3 (indices va))
  end.
Proof.
  intros Eb Hwf0. induction n as [|n IH]; intros level w cs p Hlev Hb Hp Ha.
  { assert (level = 3%nat) as -> by lia. cbn [map_levels]. split; [done|]. by exists p. }
  cbn [map_levels]. set (i := table_index va level). pose proof (index_ok_table va level) as Hi. fold i in Hi.
  pose proof (bu_wf _ _ _ _ Hb) as Hwf. pose proof (wf_mask _ _ _ Hwf) as Hm.
  assert (length (firstn level (indices va)) = level) as Hlen by (apply length_prefix; lia).
  assert (load_entry w (entry_address (ptr be w p) i) = pte sp w p i) as -> by (unfold pte; by rewrite Eb).
  assert (forall w1 st, built sp w0 cs w1 -> st ≠ Ok -> restored sp w0 (rollback_created_tables sp w1 cs va) /\ st ≠ Ok) as Hfail
    by (intros w1 st Hb1 Hst; split; [by apply rollback_ok|done]).
  pose proof (indices_snoc va level ltac:(lia)) as Esnoc. fold i in Esnoc.
  destruct (bit (pte sp w p i) ENTRY_PRESENT) eqn:E1; cbn [negb].
  2:{ destruct (Z.eqb_spec (pte sp w p i) 0) as [Hz|]; cbn [negb]; [|by apply Hfail].
      pose proof (allocate_child_ok sp w0 cs w (firstn level (indices va)) p i Eb Hb Hp ltac:(lia) Hi Hz) as Hal.
      destruct (allocate_child_table sp w (entry_address (ptr be w p) i) cs) as [w1 [st|[cs1 t]]].
      { destruct Hal. by apply Hfail. }
      destruct Hal as (q & Hlink & -> & Hq & ->). assert (own w p) as Hop by (by eapply wf_owned).
      apply IH; [lia|by eapply built_link|rewrite Esnoc; apply Hlink|]. rewrite Esnoc.
      apply (allowed_snoc _ _ _ _ _ p); [|by apply Hlink|rewrite (li_entry _ _ _ _ _ _ _ _ _ Hlink); by apply (link_permits sp)].
      intros k x Hk Hx. destruct (reach_prefix sp w (firstn k (firstn level (indices va))) (skipn k (firstn level (indices va))) p) as [y Hy].
      { by rewrite take_drop. }
      assert (x = y) as -> by (eapply reach_det; [exact Hx|by apply Hlink]).
      rewrite (li_pte _ _ _ _ _ _ _ _ _ Hlink); [by apply Ha|by eapply wf_owned| |].
      - pose proof (Forall_take _ level _ (indices_ok va)) as Hidx. rewrite Forall_lookup in Hidx.
        destruct (lookup_lt_is_Some_2 _ _ Hk) as [j Hj]. rewrite (nth_lookup_Some _ _ _ _ Hj). by eapply Hidx.
      - intros [-> _]. pose proof (wf_unique _ _ _ Hwf _ _ _ Hy Hp) as E. apply (f_equal length) in E. rewrite length_take in E. lia. }
  destruct (bit (pte sp w p i) ENTRY_HUGE_OR_PAT) eqn:E2; [apply Hfail; [done|by destruct (_ =? _)%nat]|].
  destruct (permission_conflict flags (pte sp w p i)) eqn:E3; [by apply Hfail|].
  assert (bad_range sp (pte sp w p i) = false -> reach sp w (firstn (S level) (indices va)) (Z.land (pte sp w p i) (physical_address_mask sp))) as Hc.
  { intros E4. rewrite Esnoc. apply (reach_snoc sp w _ p); [done|lia|done|]. unfold child. by rewrite E1, E2, E4. }
  rewrite (child_table_ok be owned sp w _ Eb Hm) by (intros E4; eapply wf_owned; [exact Hwf|by apply Hc]).
  destruct (bad_range sp (pte sp w p i)) eqn:E4; [by apply Hfail|].
  apply IH; [lia|done|by apply Hc|]. rewrite Esnoc. by apply (allowed_snoc _ _ _ _ _ p).
Qed.

(** ** Walking *)

(** The path record of a walk that has come down to [level]. *)
Definition path_ok sp w va (level : nat) (path : WalkPath) : Prop :=
  length (tables path) = S level /\ length (parent_entries path) = level /\ length (child_physical path) = level /\
  (forall k, (k <= level)%nat -> exists x, reach sp w (firstn k (indices va)) x /\ nth k (tables path) 0 = ptr be w x) /\
  forall k, (k < level)%nat -> exists x, reach sp w (firstn k (indices va)) x /\
    nth k (parent_entries path) 0 = entry_address (ptr be w x) (table_index va k) /\
    child sp (pte sp w x (table_index va k)) = Some (nth k (child_physical path) 0).

(** Entries read on the way down from [level]. *)
Definition entries_ok sp w va (level : nat) (es : list Z) : Prop :=
  forall k e, es !! k = Some e ->
    exists x, reach sp w (firstn (level + k) (indices va)) x /\ e = pte sp w x (table_index va (level + k)).

Definition effective (path path' : WalkPath) (es : list Z) : Prop :=
  effective_writable path' = effective_writable path && forallb (fun e => bit e ENTRY_WRITABLE) es /\
  effective_user path' = effective_user path && forallb (fun e => bit e ENTRY_USER) es /\
  effective_no_execute path' = effective_no_execute path || existsb (fun e => bit e ENTRY_NO_EXECUTE) es.

Lemma skipn_indices va level : (level < 4)%nat -> skipn level (indices va) = table_index va level :: skipn (S level) (indices va).
Proof. intros H. destruct level as [|[|[|[|]]]]; [done..|lia]. Qed.

Lemma nth_snoc {A : Type} (l : list A) x k d : (k <= length l)%nat -> nth k (l ++ [x]) d = if decide (k = length l) then x else nth k l d.
Proof.
  intros Hk. case_decide as E; [subst; rewrite app_nth2, Nat.sub_diag by lia; done|]. apply app_nth1. lia.
Qed.

Lemma path_ok_step sp w va level path p c eff1 eff2 eff3 :
  let i := table_index va level in
  (level < 3)%nat -> path_ok sp w va level path -> reach sp w (firstn level (indices va)) p ->
  child sp (pte sp w p i) = Some c -> reach sp w (firstn (S level) (indices va)) c ->
  path_ok sp w va (S level) (mkPath (tables path ++ [ptr be w c]) (parent_entries path ++ [entry_address (ptr be w p) i])
    (child_physical path ++ [c]) 0 eff1 eff2 eff3).
Proof.
  intros i Hl (H1 & H2 & H3 & Ht & Hp) Hr Hc Hrc. unfold path_ok. cbn [tables parent_entries child_physical].
  rewrite !length_app, H1, H2, H3. cbn [length]. split; [lia|]. split; [lia|]. split; [lia|]. split.
  - intros k Hk. rewrite nth_snoc by lia. case_decide as E; [|apply Ht; lia].
    assert (k = S level) as -> by lia. by exists c.
  - intros k Hk. rewrite !nth_snoc by lia. rewrite H2, H3. case_decide as E; [subst k; by exists p|].
    apply Hp. lia.
Qed.

Lemma pwalk_cons sp w level p i j rest :
  pwalk sp w level p (i :: j :: rest) =
    let e := pte sp w p i in
    if negb (bit e ENTRY_PRESENT) then inl NotMapped
    else if bit e ENTRY_HUGE_OR_PAT then inl (if (level =? 0)%nat then CorruptPageTable else HugePageConflict)
    else if bad_range sp e then inl CorruptPageTable
    else match pwalk sp w (S level) (Z.land e (physical_address_mask sp)) (j :: rest) with
         | inl status => inl status
         | inr es => inr (e :: es)
         end.
Proof. done. Qed.

Lemma walk_levels_ok sp w va : backend sp = be -> wf owned sp w ->
  forall n level p path, (level + n = 3)%nat -> reach sp w (firstn level (indices va)) p -> path_ok sp w va level path ->
  match walk_levels sp w va n level (ptr be w p) path with
  | inl st => pwalk sp w level p (skipn level (indices va)) = inl st
  | inr (t, path') => exists p' es, reach sp w (firstn 3 (indices va)) p' /\ t = ptr be w p' /\ path_ok sp w va 3 path' /\
      effective path path' es /\ length es = n /\ entries_ok sp w va level es /\
      pwalk sp w level p (skipn level (indices va)) =
        match pwalk sp w 3 p' [table_index va 3] with inl st => inl st | inr l => inr (es ++ l) end
  end.
Proof.
  intros Eb Hwf. pose proof (wf_mask _ _ _ Hwf) as Hm. induction n as [|n IH]; intros level p path Hlev Hp Hpath.
  { assert (level = 3%nat) as -> by lia. cbn [walk_levels]. exists p, []. split; [done|]. split; [done|]. split; [done|].
    split; [split; [by rewrite andb_true_r|split; [by rewrite andb_true_r|by rewrite orb_false_r]]|].
    split; [done|]. split; [by intros k e|]. change (skipn 3 (indices va)) with [table_index va 3]. by destruct (pwalk _ _ _ _ _). }
  cbn [walk_levels]. rewrite (skipn_indices va level) by lia. rewrite (skipn_indices va (S level)) by lia.
  set (i := table_index va level). pose proof (index_ok_table va level) as Hi. fold i in Hi.
  assert (load_entry w (entry_address (ptr be w p) i) = pte sp w p i) as -> by (unfold pte; by rewrite Eb).
  rewrite pwalk_cons. cbv zeta. rewrite <- (skipn_indices va (S level)) by lia.
  destruct (bit (pte sp w p i) ENTRY_PRESENT) eqn:E1; cbn [negb]; [|done].
  destruct (bit (pte sp w p i) ENTRY_HUGE_OR_PAT) eqn:E2; [done|].
  assert (bad_range sp (pte sp w p i) = false ->
    child sp (pte sp w p i) = Some (Z.land (pte sp w p i) (physical_address_mask sp)) /\
    reach sp w (firstn (S level) (indices va)) (Z.land (pte sp w p i) (physical_address_mask sp))) as Hc.
  { intros E3. assert (child sp (pte sp w p i) = Some (Z.land (pte sp w p i) (physical_address_mask sp))) as Ec
      by (unfold child; by rewrite E1, E2, E3).
    split; [done|]. rewrite (indices_snoc va level) by lia.
    apply (reach_snoc sp w _ p); [done| |done|done]. rewrite length_prefix; lia. }
  rewrite (child_table_ok be owned sp w _ Eb Hm) by (intros E3; eapply wf_owned; [exact Hwf|by apply Hc]).
  destruct (bad_range sp (pte sp w p i)) eqn:E3; [done|]. destruct (Hc eq_refl) as [Ec Hr].
  set (c := Z.land (pte sp w p i) (physical_address_mask sp)) in *.
  set (path1 := mkPath _ _ _ _ _ _ _).
  specialize (IH (S level) c path1 ltac:(lia) Hr). assert (path_ok sp w va (S level) path1) as Hpath1 by (apply path_ok_step; [lia|done..]).
  specialize (IH Hpath1). destruct (walk_levels sp w va n (S level) (ptr be w c) path1) as [st|[t path']]; [by rewrite IH|].
  destruct IH as (p' & es & Hp' & -> & Hpath' & (F1 & F2 & F3) & Hlen & Hes & ->). exists p', (pte sp w p i :: es).
  split; [done|]. split; [done|]. split; [done|]. split; [|split; [cbn [length]; by rewrite Hlen|split]].
  - unfold path1 in F1, F2, F3. cbn [effective_writable effective_user effective_no_execute] in F1, F2, F3.
    split; [by rewrite F1, <- andb_assoc|]. split; [by rewrite F2, <- andb_assoc|by rewrite F3, <- orb_assoc].
  - intros [|k] e Hk; cbn in Hk.
    + injection Hk as <-. exists p. rewrite Nat.add_0_r. done.
    + rewrite <- Nat.add_succ_comm. by apply Hes.
  - by destruct (pwalk sp w 3 p' _).
Qed.

(** The mapping that the entries of a walk describe. *)
Definition mapping_of (va : Z) sp (es : list Z) : Mapping :=
  mapping_from_path va sp (mkPath [] [] [] (List.last es 0) (forallb (fun e => bit e ENTRY_WRITABLE) es)
    (forallb (fun e => bit e ENTRY_USER) es) (existsb (fun e => bit e ENTRY_NO_EXECUTE) es)).

Lemma root_table_ok sp w : backend sp = be -> wf owned sp w ->
  table_for_physical sp w (root_table_physical sp) = inr (ptr be w (root_table_physical sp)).
Proof.
  intros Eb Hwf. apply (table_for_physical_ok be owned); [done|apply Hwf|apply Hwf|]. by eapply wf_owned, reach_root.
Qed.

Lemma walk_to_leaf_ok sp w va : backend sp = be -> wf owned sp w ->
  match walk_to_leaf sp w va with
  | inl st => page_entries sp w va = inl st
  | inr path => exists es, page_entries sp w va = inr es /\ length es = 4%nat /\
      mapping_from_path va sp path = mapping_of va sp es /\ path_ok sp w va 3 path
  end.
Proof.
  intros Eb Hwf. unfold walk_to_leaf. rewrite (root_table_ok sp w Eb Hwf).
  set (path0 := mkPath _ _ _ _ _ _ _).
  assert (path_ok sp w va 0 path0) as H0.
  { split; [done|]. split; [done|]. split; [done|]. split; [|intros k Hk; lia].
    intros k Hk. assert (k = 0%nat) as -> by lia. exists (root_table_physical sp). split; [apply reach_root|done]. }
  pose proof (walk_levels_ok sp w va Eb Hwf 3 0 (root_table_physical sp) path0 eq_refl (reach_root sp w) H0) as H.
  destruct (walk_levels sp w va 3 0 (ptr be w (root_table_physical sp)) path0) as [st|[t path]]; [exact H|].
  destruct H as (p & es & Hp & -> & Hpath & (F1 & F2 & F3) & Hlen & _ & Hw).
  change (skipn 0 (indices va)) with (indices va) in Hw. fold (page_entries sp w va) in Hw.
  assert (load_entry w (entry_address (ptr be w p) (table_index va 3)) = pte sp w p (table_index va 3)) as -> by (unfold pte; by rewrite Eb).
  cbn [pwalk] in Hw. set (e := pte sp w p (table_index va 3)) in *. fold (bad_range sp e).
  destruct (bit e ENTRY_PRESENT); cbn [negb] in *; [|done]. destruct (bad_range sp e); [done|].
  exists (es ++ [e]). split; [done|]. split; [rewrite length_app, Hlen; done|]. split; [|exact Hpath].
  unfold mapping_of. rewrite last_last, !forallb_app, existsb_app. cbn [forallb existsb].
  cbn [path0 effective_writable effective_user effective_no_execute andb orb] in F1, F2, F3.
  unfold mapping_from_path. cbn [leaf_value effective_writable effective_user effective_no_execute].
  rewrite F1, F2, F3, !andb_true_r, orb_false_r. done.
Qed.

Lemma pwalk_not_ok sp w idxs : forall level p, pwalk sp w level p idxs ≠ inl Ok.
Proof.
  induction idxs as [|i [|j rest] IH]; intros level p; [done|..].
  - cbn [pwalk]. destruct (negb _); [done|]. by destruct (bad_range sp _).
  - rewrite pwalk_cons. cbv zeta. destruct (negb _); [done|]. destruct (bit _ ENTRY_HUGE_OR_PAT); [by destruct (level =? 0)%nat|].
    destruct (bad_range sp _); [done|].
    pose proof (IH (S level) (Z.land (pte sp w p i) (physical_address_mask sp))) as H.
    destruct (pwalk _ _ _ _ _); [|done]. congruence.
Qed.

(** [query_page] in terms of the entries. *)
Lemma query_page_ok sp w va : backend sp = be -> wf owned sp w -> initialized sp = true -> canonical_address va = true ->
  query_page (Some sp) w va true =
    match page_entries sp w va with inl st => (st, None) | inr es => (Ok, Some (mapping_of va sp es)) end.
Proof.
  intros Eb Hwf Hi Hc. unfold query_page. rewrite Hi, Hc. cbn [negb].
  pose proof (walk_to_leaf_ok sp w va Eb Hwf) as H. destruct (walk_to_leaf sp w va) as [st|path]; [by rewrite H|].
  destruct H as (es & -> & _ & -> & _). done.
Qed.

(** The entries above a reached leaf table. *)
Lemma pwalk_entries sp w va p : reach sp w (firstn 3 (indices va)) p ->
  forall n level q, (level + n = 3)%nat -> reach sp w (firstn level (indices va)) q ->
  exists es, length es = n /\ entries_ok sp w va level es /\
    pwalk sp w level q (skipn level (indices va)) =
      match pwalk sp w 3 p [table_index va 3] with inl st => inl st | inr l => inr (es ++ l) end.
Proof.
  intros Hp. induction n as [|n IH]; intros level q Hlev Hq.
  - assert (level = 3%nat) as -> by lia. exists []. rewrite (reach_det sp w _ q p Hq Hp).
    split; [done|]. split; [by intros k e|]. change (skipn 3 (indices va)) with [table_index va 3]. by destruct (pwalk _ _ _ _ _).
  - destruct (reach_prefix sp w (firstn (S level) (indices va)) (skipn (S level) (firstn 3 (indices va))) p) as [c Hc].
    { replace (firstn (S level) (indices va)) with (firstn (S level) (firstn 3 (indices va))) by (rewrite take_take; f_equal; lia).
      by rewrite take_drop. }
    rewrite (indices_snoc va level) in Hc by lia. pose proof Hc as Hc'. apply reach_inv in Hc' as (q' & Hq' & _ & Ec).
    rewrite (reach_det sp w _ q' q Hq' Hq) in Ec. rewrite <- (indices_snoc va level) in Hc by lia.
    destruct (IH (S level) c ltac:(lia) Hc) as (es & Hlen & Hes & Hw). exists (pte sp w q (table_index va level) :: es).
    split; [cbn [length]; lia|]. split.
    + intros [|k] e Hk; cbn in Hk; [injection Hk as <-; exists q; by rewrite Nat.add_0_r|].
      rewrite <- Nat.add_succ_comm. by apply Hes.
    + rewrite (skipn_indices va level), (skipn_indices va (S level)), pwalk_cons by lia. cbv zeta.
      rewrite <- (skipn_indices va (S level)) by lia. unfold child in Ec.
      destruct (bit (pte sp w q (table_index va level)) ENTRY_PRESENT); [cbn [negb orb] in Ec |- *|done].
      destruct (bit _ ENTRY_HUGE_OR_PAT); [done|]. destruct (bad_range sp _); [done|]. injection Ec as Ec. rewrite Ec, Hw.
      by destruct (pwalk sp w 3 p _).
Qed.

(** ** Addresses *)

Lemma table_index_value va level : (level < 4)%nat -> table_index va level = (va / 2 ^ nth level shifts 0) mod 512.
Proof.
  intros H. unfold table_index. change 0x1FF with (2 ^ 9 - 1). rewrite land_low by lia.
  rewrite Z.shiftr_div_pow2; [done|]. destruct level as [|[|[|[|]]]]; cbn; lia.
Qed.

Lemma canonical_range va : is_u64 va -> canonical_address va = true <-> va < 2 ^ 47 \/ 2 ^ 64 - 2 ^ 47 <= va.
Proof.
  intros Hva. unfold canonical_address, is_u64 in *. change 1 with (2 ^ 1 - 1) at 1. rewrite land_low, !Z.shiftr_div_pow2 by lia.
  change (2 ^ 1) with 2. change (2 ^ 47) with 140737488355328. change (2 ^ 48) with 281474976710656.
  change (2 ^ 64) with 18446744073709551616 in *.
  destruct (Z.eqb_spec ((va / 140737488355328) mod 2) 0); cbn [negb]; rewrite Z.eqb_eq; zdm.
Qed.

Lemma indices_page va va' :
  is_u64 va -> is_u64 va' -> canonical_address va = true -> canonical_address va' = true ->
  indices va = indices va' -> va / 4096 = va' / 4096.
Proof.
  intros Hva Hva' Hc%canonical_range Hc'%canonical_range E; try done. unfold indices in E.
  rewrite !table_index_value in E by lia. cbn [nth shifts] in E. injection E as E0 E1 E2 E3. unfold is_u64 in *.
  change (2 ^ 39) with (4096 * 134217728) in *. change (2 ^ 30) with (4096 * 262144) in *. change (2 ^ 21) with (4096 * 512) in *.
  change (2 ^ 12) with 4096 in *. change (2 ^ 47) with (4096 * 34359738368) in *. change (2 ^ 64) with (4096 * 4503599627370496) in *.
  rewrite <- !Z.div_div in E0, E1, E2 by lia.
  assert (0 <= va / 4096 /\ va / 4096 < 4503599627370496 /\ (va / 4096 < 34359738368 \/ 4503599627370496 - 34359738368 <= va / 4096)) by zdm.
  assert (0 <= va' / 4096 /\ va' / 4096 < 4503599627370496 /\ (va' / 4096 < 34359738368 \/ 4503599627370496 - 34359738368 <= va' / 4096)) by zdm.
  revert E0 E1 E2 E3. generalize dependent (va / 4096). generalize dependent (va' / 4096). intros. zdm.
Qed.

Lemma indices_offset va off : va mod 4096 = 0 -> 0 <= off < 4096 -> indices (va + off) = indices va.
Proof.
  intros Hva Hoff. unfold indices. rewrite !table_index_value by lia. cbn [nth shifts].
  change (2 ^ 39) with (4096 * 134217728) in *. change (2 ^ 30) with (4096 * 262144) in *. change (2 ^ 21) with (4096 * 512) in *.
  change (2 ^ 12) with 4096 in *. rewrite <- !Z.div_div by lia. replace ((va + off) / 4096) with (va / 4096) by zdm. done.
Qed.

Lemma valid_page va : is_u64 va -> validate_virtual_page va = Ok -> canonical_address va = true /\ va mod 4096 = 0.
Proof.
  intros Hva H. unfold validate_virtual_page in H. destruct (canonical_address va); [|done]. split; [done|].
  cbn [negb] in H. destruct (bit va PAGE_OFFSET_MASK) eqn:E; [done|]. apply bit_false in E.
  change PAGE_OFFSET_MASK with (2 ^ 12 - 1) in E. rewrite land_low in E by lia. exact E.
Qed.

Lemma canonical_offset va off :
  is_u64 va -> canonical_address va = true -> va mod 4096 = 0 -> 0 <= off < 4096 ->
  is_u64 (va + off) /\ canonical_address (va + off) = true.
Proof.
  intros Hva Hc%canonical_range Hal Hoff; [|done].
  assert (is_u64 (va + off)) as Hu by (unfold is_u64 in *; change (2 ^ 64) with 18446744073709551616 in *; zdm).
  split; [done|]. apply canonical_range; [done|].
  change (2 ^ 64) with 18446744073709551616 in *. change (2 ^ 47) with 140737488355328 in *. zdm.
Qed.

Lemma page_base va off : is_u64 (va + off) -> va mod 4096 = 0 -> 0 <= off < 4096 ->
  Z.land (va + off) (not64 PAGE_OFFSET_MASK) = va /\ Z.land (va + off) PAGE_OFFSET_MASK = off.
Proof.
  intros Hu Hal Hoff. change PAGE_OFFSET_MASK with (2 ^ 12 - 1).
  assert (Z.land (va + off) (2 ^ 12 - 1) = off) as E by (rewrite land_low by lia; change (2 ^ 12) with 4096; zdm).
  split; [|done].
  assert (Z.land (va + off) (not64 (2 ^ 12 - 1)) = (va + off) - (va + off) mod 2 ^ 12) as ->.
  { pose proof (Z.div_mod (va + off) (2 ^ 12) ltac:(lia)) as Hdm.
    transitivity (Z.shiftl (Z.shiftr (va + off) 12) 12); [|rewrite Z.shiftl_mul_pow2, Z.shiftr_div_pow2 by lia; lia].
    apply Z.bits_inj'. intros k Hk. change (2 ^ 12 - 1) with PAGE_OFFSET_MASK.
    rewrite Z.land_spec, not64_testbit, offset_testbit, Z.shiftl_spec by lia. destruct (Z.ltb_spec k 12).
    - rewrite andb_false_r, andb_false_r. by rewrite Z.testbit_neg_r by lia.
    - rewrite Z.shiftr_spec by lia. replace (k - 12 + 12) with k by lia. destruct (Z.ltb_spec k 64); [by rewrite !andb_true_r|].
      by rewrite u64_testbit. }
  change (2 ^ 12) with 4096. zdm.
Qed.

(** ** The effect of [map_page] *)

Definition page_unchanged sp w w' va' : Prop := query_page (Some sp) w' va' true = query_page (Some sp) w va' true.

Lemma query_same sp w w' va' :
  backend sp = be -> wf owned sp w -> wf owned sp w' -> initialized sp = true ->
  (canonical_address va' = true -> page_entries sp w' va' = page_entries sp w va') -> page_unchanged sp w w' va'.
Proof.
  intros Eb Hwf Hwf' Hi H. unfold page_unchanged. destruct (canonical_address va') eqn:Ec.
  - by rewrite !query_page_ok, H by done.
  - unfold query_page. by rewrite Hi, Ec.
Qed.

Lemma same_pages_unchanged sp w w' va' :
  backend sp = be -> wf owned sp w -> wf owned sp w' -> initialized sp = true -> same_pages sp w w' -> page_unchanged sp w w' va'.
Proof. intros Eb Hwf Hwf' Hi Hs. apply query_same; try done. intros _. apply Hs; [apply indices_ok|done]. Qed.

(** A change below one leaf entry concerns one page. *)
Lemma leaf_store_page sp w va p v va' :
  backend sp = be -> wf owned sp w -> reach sp w (firstn 3 (indices va)) p -> is_u64 va -> is_u64 va' ->
  canonical_address va = true -> canonical_address va' = true -> va' / 4096 ≠ va / 4096 ->
  page_entries sp (store_entry w (entry_address (ptr be w p) (table_index va 3)) v) va' = page_entries sp w va'.
Proof.
  intros Eb Hwf Hp Hva Hva' Hc Hc' Hne.
  apply (store_walk_off be owned sp w (firstn 3 (indices va)) p _ v Eb Hwf Hp (index_ok_table va 3)); [apply indices_ok|done|].
  rewrite <- (indices_snoc va 3) by lia. intros [k E]. apply Hne. symmetry. apply indices_page; try done.
  change (firstn 4 (indices va)) with (indices va) in E. destruct k; [by rewrite app_nil_r in E|].
  apply (f_equal length) in E. rewrite length_app in E. cbn in E. lia.
Qed.

Lemma leaf_store_wf sp w va p v :
  backend sp = be -> wf owned sp w -> reach sp w (firstn 3 (indices va)) p -> is_u64 v ->
  let w' := store_entry w (entry_address (ptr be w p) (table_index va 3)) v in
  wf owned sp w' /\ (forall path q, reach sp w' path q <-> reach sp w path q).
Proof.
  intros Eb Hwf Hp Hv w'.
  assert (forall path q, reach sp w' path q <-> reach sp w path q) as Hr.
  { intros path q. destruct (decide (length path <= 3)%nat) as [Hl|Hl].
    - apply (store_reach_off be owned sp w (firstn 3 (indices va)) p _ v Eb Hwf Hp (index_ok_table va 3)).
      intros [k ->]. rewrite !length_app, length_prefix in Hl by lia. cbn in Hl. lia.
    - split; intros (? & _); lia. }
  split; [|done]. split; try apply Hwf.
  - intros a. unfold w'. cbn. destruct (_ =? _); [done|apply Hwf].
  - intros path q H. apply Hr in H. by eapply (wf_owned _ _ _ Hwf).
  - intros path path' q H H'. apply Hr in H, H'. by eapply (wf_unique _ _ _ Hwf).
Qed.

Lemma has_flag_bit flags k : 0 <= k -> has_flag flags (Z.shiftl 1 k) = Z.testbit flags k.
Proof. apply bit_pow2. Qed.

Lemma valid_flags_bits flags k : valid_map_flags flags = true -> is_u64 flags -> 0 <= k -> 6 <= k -> Z.testbit flags k = false.
Proof.
  intros Hv Hu Hk H6. unfold valid_map_flags in Hv. destruct (bit flags (not64 VALID_MAP_FLAGS)) eqn:E; [done|].
  pose proof (bit_false_bits _ _ E k) as H. rewrite not64_testbit in H by done.
  destruct (Z.ltb_spec k 64); [|by apply u64_testbit]. assert (Z.testbit VALID_MAP_FLAGS k = false) as E'.
  { change VALID_MAP_FLAGS with (Z.shiftl 1 6 - 1). rewrite low_testbit by lia. lia. }
  rewrite E' in H. by rewrite andb_true_r in H.
Qed.

(** Effective permissions of a new mapping are the ones asked for. *)
Lemma allowed_effective flags es :
  Forall (fun e => permission_conflict flags e = false) es ->
  forallb (fun e => bit e ENTRY_WRITABLE) es && has_flag flags Writable = has_flag flags Writable /\
  forallb (fun e => bit e ENTRY_USER) es && has_flag flags User = has_flag flags User /\
  existsb (fun e => bit e ENTRY_NO_EXECUTE) es || has_flag flags NoExecute = has_flag flags NoExecute.
Proof.
  induction 1 as [|e es He _ (IH1 & IH2 & IH3)]; [by rewrite orb_false_l|]. cbn [forallb existsb].
  unfold permission_conflict in He. apply orb_false_iff in He as [He He3]. apply orb_false_iff in He as [He1 He2].
  split; [|split].
  - rewrite <- andb_assoc, IH1. destruct (has_flag flags Writable); [|apply andb_false_r]. cbn in He1. by apply negb_false_iff in He1 as ->.
  - rewrite <- andb_assoc, IH2. destruct (has_flag flags User); [|apply andb_false_r]. cbn in He2. by apply negb_false_iff in He2 as ->.
  - rewrite <- orb_assoc, IH3. destruct (has_flag flags NoExecute); [apply orb_true_r|]. cbn in He3. by rewrite He3.
Qed.

Lemma if_lor_testbit (b : bool) x m k : 0 <= m -> Z.testbit (if b then Z.lor x (Z.shiftl 1 m) else x) k = Z.testbit x k || ((k =? m) && b).
Proof. intros Hm. destruct b; [by rewrite Z.lor_spec, pow2_testbit, andb_true_r|by rewrite andb_false_r, orb_false_r]. Qed.

Lemma new_mapping sp va pa flags es :
  mask_ok (physical_address_mask sp) -> Z.land pa (physical_address_mask sp) = pa -> is_u64 flags ->
  valid_map_flags flags = true -> Forall (fun e => permission_conflict flags e = false) es ->
  mapping_of va sp (es ++ [Z.lor pa (hardware_leaf_flags flags)]) =
    mkMapping (Z.land va (not64 PAGE_OFFSET_MASK)) pa flags false false.
Proof.
  intros Hm Hpa Hu Hv Hes. destruct (allowed_effective flags es Hes) as (F1 & F2 & F3).
  pose proof (hardware_flag_word flags) as Hw. set (e := Z.lor pa (hardware_leaf_flags flags)).
  assert (forall k, 0 <= k -> k < 12 \/ 52 <= k -> bit e (Z.shiftl 1 k) = Z.testbit (hardware_leaf_flags flags) k) as Hbit
    by (intros; by eapply tagged_bit).
  unfold mapping_of, mapping_from_path. cbn [leaf_value effective_writable effective_user effective_no_execute].
  rewrite last_last, !forallb_app, existsb_app. cbn [forallb existsb]. rewrite !andb_true_r, orb_false_r.
  unfold ENTRY_WRITABLE, ENTRY_USER, ENTRY_NO_EXECUTE, ENTRY_WRITE_THROUGH, ENTRY_CACHE_DISABLE, ENTRY_GLOBAL,
    ENTRY_ACCESSED, ENTRY_DIRTY in *.
  rewrite !Hbit by lia. rewrite !hardware_testbit by lia. cbn [Z.eqb Pos.eqb andb orb]. rewrite ?orb_false_r.
  rewrite F1, F2, F3. assert (Z.land e (physical_address_mask sp) = pa) as -> by (exact (tagged_mask _ pa Hm Hpa _ Hw)). f_equal. unfold has_flag, Writable, User, WriteThrough, CacheDisable, Global, NoExecute.
  rewrite !bit_pow2 by lia. apply Z.bits_inj'. intros k Hk. rewrite !if_lor_testbit, Z.bits_0 by lia. cbn [orb].
  rewrite ?orb_false_r.
  destruct (decide (6 <= k)) as [H6|H6].
  - rewrite (valid_flags_bits flags k) by done.
    assert (forall j, j < 6 -> (k =? j) = false) as Hn by (intros j Hj; apply Z.eqb_neq; lia). by rewrite !Hn by lia.
  - assert (k = 0 \/ k = 1 \/ k = 2 \/ k = 3 \/ k = 4 \/ k = 5) as Hcases by lia.
    repeat destruct Hcases as [->|Hcases]; [..|subst k]; cbn [Z.eqb Pos.eqb andb orb]; rewrite ?orb_false_r; done.
Qed.

Lemma restored_refl sp w : wf owned sp w -> restored sp w w.
Proof. intros Hwf. by split. Qed.

Lemma kept_result sp w w' : backend sp = be -> wf owned sp w -> kept be (fun q => own w q) w w' -> (forall q, own w' q <-> own w q) ->
  wf owned sp w' /\ same_pages sp w w'.
Proof.
  intros Eb Hwf Hk Ho. destruct (wf_same owned sp w w' Hwf) as [Hwf' Hwalk].
  - intros path q i Hr Hi. eapply kept_pte; [done|exact Hk|by eapply wf_owned|done].
  - apply Hk.
  - intros path q Hr. apply Ho. by eapply wf_owned.
  - split; [done|]. intros idxs Hidx Hl. apply Hwalk; [done|lia].
Qed.

(** The entries of a page after its leaf has been stored. *)
Lemma leaf_store_entries sp w va p flags v :
  backend sp = be -> wf owned sp w -> reach sp w (firstn 3 (indices va)) p -> allowed sp w flags (firstn 3 (indices va)) ->
  is_u64 v -> bit v ENTRY_PRESENT = true -> bad_range sp v = false ->
  exists es, Forall (fun e => permission_conflict flags e = false) es /\
    page_entries sp (store_entry w (entry_address (ptr be w p) (table_index va 3)) v) va = inr (es ++ [v]).
Proof.
  intros Eb Hwf Hp Ha Hv Hpres Hrange. destruct (leaf_store_wf sp w va p v Eb Hwf Hp Hv) as [Hwf2 Hr2].
  set (w2 := store_entry w _ v) in *. pose proof (index_ok_table va 3) as Hi.
  destruct (pwalk_entries sp w2 va p (proj2 (Hr2 _ _) Hp) 3 0 (root_table_physical sp) eq_refl (reach_root sp w2)) as (es & Hlen & Hes & Hw).
  change (skipn 0 (indices va)) with (indices va) in Hw. unfold page_entries. rewrite Hw. cbn [pwalk].
  assert (pte sp w2 p (table_index va 3) = v) as -> by (by eapply store_pte_self). rewrite Hpres, Hrange. cbn [negb].
  exists es. split; [|done]. apply Forall_lookup. intros k e Hk. destruct (Hes k e Hk) as (x & Hx & ->). cbn [Nat.add] in *.
  apply lookup_lt_Some in Hk as Hlt. rewrite Hlen in Hlt. apply Hr2 in Hx.
  assert (own w x /\ own w p) as [Hox Hop] by (split; by eapply wf_owned).
  unfold w2. rewrite (pte_store be owned) by (done || apply index_ok_table). rewrite decide_False.
  - specialize (Ha k x). rewrite length_prefix, take_take, Nat.min_l in Ha by lia. specialize (Ha Hlt Hx).
    rewrite <- Ha. do 2 f_equal. destruct k as [|[|[|]]]; [done..|lia].
  - intros [-> _]. pose proof (wf_unique _ _ _ Hwf _ _ _ Hx Hp) as E. apply (f_equal length) in E. rewrite !length_prefix in E by lia. lia.
Qed.

Lemma map_page_result sp w va pa flags :
  backend sp = be -> wf owned sp w -> initialized sp = true -> is_u64 va -> is_u64 pa ->
  let '(w', st) := map_page (Some sp) w va pa flags in
  (st ≠ Ok /\ restored sp w w') \/
  (st = Ok /\ valid_map_flags flags = true /\ validate_virtual_page va = Ok /\ Z.land pa (physical_address_mask sp) = pa /\
   page_entries sp w va = inl NotMapped /\ wf owned sp w' /\
   (exists es, Forall (fun e => permission_conflict flags e = false) es /\
      page_entries sp w' va = inr (es ++ [Z.lor pa (hardware_leaf_flags flags)])) /\
   forall va', is_u64 va' -> canonical_address va' = true -> va' / 4096 ≠ va / 4096 -> page_entries sp w' va' = page_entries sp w va').
Proof.
  intros Eb Hwf Hinit Hva Hpa. pose proof (wf_mask _ _ _ Hwf) as Hm. unfold map_page. rewrite Hinit. cbn [negb].
  pose proof (restored_refl sp w Hwf) as Hrefl.
  destruct (valid_map_flags flags) eqn:Evf; cbn [negb]; [|by left].
  destruct (bool_decide_reflect (validate_virtual_page va = Ok)) as [Evv|Evv]; cbn [negb]; [|by left].
  destruct (bool_decide_reflect (validate_physical_page sp pa = Ok)) as [Evp|Evp]; cbn [negb]; [|by left].
  assert (Z.land pa (physical_address_mask sp) = pa) as Hpm.
  { apply mask_self; [done|done|]. unfold validate_physical_page in Evp. destruct (bit pa PAGE_OFFSET_MASK); [done|].
    destruct (_ <? pa); [done|]. by destruct (bit pa (not64 _)). }
  rewrite (root_table_ok sp w Eb Hwf).
  pose proof (map_levels_ok sp w va flags Eb Hwf 3 0 w [] (root_table_physical sp) eq_refl (built_nil sp w Hwf) (reach_root sp w)) as Hl.
  specialize (Hl ltac:(intros k x Hk; cbn in Hk; lia)).
  destruct (map_levels sp w va flags 3 0 (ptr be w (root_table_physical sp)) []) as [w1 [st|[t cs]]]; [left; by destruct Hl|].
  destruct Hl as (Hb & p & Hp & -> & Ha). pose proof (bu_wf _ _ _ _ Hb) as Hwf1.
  assert (load_entry w1 (entry_address (ptr be w1 p) (table_index va 3)) = pte sp w1 p (table_index va 3)) as -> by (unfold pte; by rewrite Eb).
  destruct (bit (pte sp w1 p (table_index va 3)) ENTRY_PRESENT) eqn:E1; [left; split; [done|by apply rollback_ok]|].
  destruct (Z.eqb_spec (pte sp w1 p (table_index va 3)) 0) as [Hz|]; cbn [negb]; [|left; split; [done|by apply rollback_ok]].
  right. split; [done|]. split; [done|]. split; [done|]. split; [done|].
  set (v := Z.lor pa (hardware_leaf_flags flags)). pose proof (hardware_flag_word flags) as Hhw.
  assert (is_u64 v) as Hv by (by apply (tagged_u64 _ pa Hm Hpm)).
  assert (bit v ENTRY_PRESENT = true) as Hvp by (unfold v, ENTRY_PRESENT; rewrite (tagged_bit _ pa Hm Hpm), hardware_testbit by lia; done).
  assert (bad_range sp v = false) as Hvr by (by apply (tagged_range _ pa Hm Hpm)).
  destruct (leaf_store_wf sp w1 va p v Eb Hwf1 Hp Hv) as [Hwf2 _].
  destruct (leaf_store_entries sp w1 va p flags v Eb Hwf1 Hp Ha Hv Hvp Hvr) as (es & Hes & Hpe).
  assert (forall va', is_u64 va' -> canonical_address va' = true -> va' / 4096 ≠ va / 4096 ->
    page_entries sp (store_entry w1 (entry_address (ptr be w1 p) (table_index va 3)) v) va' = page_entries sp w1 va') as Hother
    by (intros va' H1 H2 H3; apply leaf_store_page; try done; by apply valid_page).
  set (w2 := store_entry w1 _ v) in *. clearbody w2.
  destruct (call_invalidate_ok be owned sp w2 va Eb (wf_words _ _ _ Hwf2)) as (Hk & Ho & _).
  destruct (kept_result sp w2 (call_invalidate sp w2 va) Eb Hwf2 Hk Ho) as [Hwf3 Hs3].
  split.
  { pose proof (bu_pages _ _ _ _ Hb (indices va) (indices_ok va) eq_refl) as E. unfold page_entries. rewrite <- E.
    exact (walk_not_mapped sp w1 (firstn 3 (indices va)) p (table_index va 3) [] Hp E1). }
  split; [done|]. split.
  - exists es. split; [done|]. rewrite <- Hpe. apply Hs3; [apply indices_ok|done].
  - intros va' H1 H2 H3. transitivity (page_entries sp w2 va'); [apply Hs3; [apply indices_ok|done]|].
    rewrite Hother by done. apply (bu_pages _ _ _ _ Hb); [apply indices_ok|done].
Qed.

(** ** The effect of [unmap_page] *)

Definition path_upto sp w va (depth : nat) (path : WalkPath) : Prop :=
  (forall k, (k <= depth)%nat -> exists x, reach sp w (firstn k (indices va)) x /\ nth k (tables path) 0 = ptr be w x) /\
  forall k, (k < depth)%nat -> exists x, reach sp w (firstn k (indices va)) x /\
    nth k (parent_entries path) 0 = entry_address (ptr be w x) (table_index va k) /\
    child sp (pte sp w x (table_index va k)) = Some (nth k (child_physical path) 0).

Definition detached_ok sp w (ds : list Z) : Prop :=
  NoDup ds /\ forall q, q ∈ ds -> own w q /\ forall path, ~ reach sp w path q.

Lemma table_empty_zero sp w p : backend sp = be -> table_empty w (ptr be w p) = true -> forall j, index_ok j -> pte sp w p j = 0.
Proof.
  intros Eb H j Hj. unfold table_empty in H. rewrite forallb_forall in H.
  unfold pte. rewrite Eb. apply Z.eqb_eq, H. apply list_elem_of_In, elem_of_seqZ. exact Hj.
Qed.

Definition stores_zero (old new : list Event) : Prop :=
  exists stores, new = stores ++ old /\ Forall (fun e => exists a, e = EvStore a 0) stores.

Lemma stores_zero_refl l : stores_zero l l.
Proof. by exists []. Qed.

Lemma stores_zero_trans l1 l2 l3 : stores_zero l1 l2 -> stores_zero l2 l3 -> stores_zero l1 l3.
Proof.
  intros (s1 & -> & H1) (s2 & -> & H2). exists (s2 ++ s1). split; [by rewrite app_assoc|]. by apply Forall_app.
Qed.

Lemma stores_zero_store w a : stores_zero (log w) (log (store_entry w a 0)).
Proof. exists [EvStore a 0]. split; [done|]. constructor; [by eexists|constructor]. Qed.

Lemma unlink_ok sp w va d x c :
  let i := table_index va d in
  let w1 := store_entry w (entry_address (ptr be w x) i) 0 in
  backend sp = be -> wf owned sp w -> (d < 3)%nat -> reach sp w (firstn d (indices va)) x ->
  child sp (pte sp w x i) = Some c -> (forall j, index_ok j -> pte sp w c j = 0) ->
  wf owned sp w1 /\ same_pages sp w w1 /\ (forall path q, reach sp w1 path q -> reach sp w path q) /\
  (forall path, ~ reach sp w1 path c).
Proof.
  intros i w1 Eb Hwf Hd Hx Hc Hz. pose proof (index_ok_table va d) as Hi. fold i in Hi.
  assert (is_u64 0) as H0 by word_lia. pose proof (length_prefix va d ltac:(lia)) as Hlen.
  destruct (store_leaf_wf be owned sp w _ x i 0 Eb Hwf Hx Hi H0 eq_refl) as [Hwf1 Hsub]. fold w1 in Hwf1, Hsub.
  assert (reach sp w (firstn d (indices va) ++ [i]) c) as Hrc by (apply (reach_snoc sp w _ x); [done|lia|done|done]).
  pose proof (store_reach_parent be owned sp w _ x i 0 Eb Hwf Hx Hi) as Hx1. fold w1 in Hx1.
  assert (pte sp w1 x i = 0) as Hself by (by eapply store_pte_self).
  split; [done|]. split; [|split; [done|]].
  - intros idxs Hidx Hl. destruct (prefix_dec_path (firstn d (indices va) ++ [i]) idxs) as [[rest ->]|Hno].
    + rewrite !length_app in Hl. cbn in Hl. destruct rest as [|j rest]; [cbn in Hl; lia|].
      assert (index_ok j) as Hj by (apply Forall_app in Hidx as [_ Hidx]; by apply Forall_cons in Hidx as [? _]).
      change (j :: rest) with ([j] ++ rest). rewrite (walk_not_mapped sp w _ c j rest Hrc) by (by rewrite Hz).
      rewrite <- app_assoc. by rewrite (walk_not_mapped sp w1 _ x i ([j] ++ rest) Hx1) by (by rewrite Hself).
    + apply (store_walk_off be owned sp w _ x i 0 Eb Hwf Hx Hi); [done|lia|done].
  - intros path Hr. pose proof (wf_unique _ _ _ Hwf _ _ _ (Hsub _ _ Hr) Hrc) as ->.
    rewrite <- (app_nil_r [i]) in Hr.
    by apply (store_reach_below be owned sp w _ x i 0 Eb Hwf Hx Hi) in Hr as (? & ? & _).
Qed.

Lemma detach_tables_ok sp va path : backend sp = be -> forall depth w ds,
  wf owned sp w -> (depth <= 3)%nat -> path_upto sp w va depth path -> detached_ok sp w ds ->
  let '(w', ds') := detach_tables sp path depth w ds in
  wf owned sp w' /\ same_pages sp w w' /\ backend_state w' = backend_state w /\ detached_ok sp w' ds' /\ stores_zero (log w) (log w').
Proof.
  intros Eb. induction depth as [|d IH]; intros w ds Hwf Hd [Ht Hp] Hds.
  { cbn [detach_tables]. split; [done|]. split; [done|]. split; [done|]. split; [done|apply stores_zero_refl]. }
  assert (wf owned sp w /\ same_pages sp w w /\ backend_state w = backend_state w /\ detached_ok sp w ds /\ stores_zero (log w) (log w)) as Hstop
    by (split; [done|]; split; [done|]; split; [done|]; split; [done|apply stores_zero_refl]).
  cbn [detach_tables]. destruct (Ht (S d) ltac:(lia)) as (c' & Hc' & ->).
  destruct (Hp d ltac:(lia)) as (x & Hx & -> & Hc). set (i := table_index va d) in *. set (c := nth d (child_physical path) 0) in *.
  assert (reach sp w (firstn (S d) (indices va)) c) as Hrc.
  { rewrite (indices_snoc va d) by lia. apply (reach_snoc sp w _ x); [done|rewrite length_prefix; lia|apply index_ok_table|done]. }
  rewrite (reach_det sp w _ c' c Hc' Hrc). destruct (table_empty w (ptr be w c)) eqn:Ee; cbn [negb]; [|done].
  destruct (_ || _ || _); [done|].
  pose proof (table_empty_zero sp w c Eb Ee) as Hz.
  destruct (unlink_ok sp w va d x c Eb Hwf ltac:(lia) Hx Hc Hz) as (Hwf1 & Hs1 & Hsub & Hunr). fold i in Hwf1, Hs1, Hsub, Hunr.
  pose proof (stores_zero_store w (entry_address (ptr be w x) i)) as Hlog1.
  assert (forall path' q, (length path' <= d)%nat -> reach sp w path' q ->
    reach sp (store_entry w (entry_address (ptr be w x) i) 0) path' q) as Hkeep.
  { intros path' q Hl Hr. apply (store_reach_off be owned sp w _ x i 0 Eb Hwf Hx (index_ok_table va d)); [|done].
    intros [k ->]. rewrite !length_app, length_prefix in Hl by lia. cbn in Hl. lia. }
  assert (forall k y, (k < d)%nat -> reach sp w (firstn k (indices va)) y ->
    pte sp (store_entry w (entry_address (ptr be w x) i) 0) y (table_index va k) = pte sp w y (table_index va k)) as Hpte.
  { intros k y Hk Hy. rewrite (pte_store be owned) by (done || apply index_ok_table || by eapply wf_owned).
    rewrite decide_False; [done|]. intros [-> _]. pose proof (wf_unique _ _ _ Hwf _ _ _ Hy Hx) as E.
    apply (f_equal length) in E. rewrite !length_prefix in E by lia. lia. }
  set (w1 := store_entry w (entry_address (ptr be w x) i) 0) in *.
  assert (path_upto sp w1 va d path) as Hpath1.
  { split.
    - intros k Hk. destruct (Ht k ltac:(lia)) as (y & Hy & E). exists y. split; [|done].
      apply Hkeep; [rewrite length_prefix; lia|done].
    - intros k Hk. destruct (Hp k ltac:(lia)) as (y & Hy & E & Ec). exists y. split; [apply Hkeep; [rewrite length_prefix; lia|done]|].
      split; [done|]. by rewrite Hpte. }
  assert (detached_ok sp w1 (ds ++ [c])) as Hds1.
  { destruct Hds as [Hnd Hds]. split.
    - apply NoDup_app. split; [done|]. split; [|apply NoDup_singleton]. intros q Hq ->%list_elem_of_singleton.
      by destruct (Hds c Hq) as [_ Hno]; apply (Hno _ Hrc).
    - intros q [Hq| ->%list_elem_of_singleton]%elem_of_app.
      + destruct (Hds q Hq) as [Ho Hno]. split; [done|]. intros path' Hr. by eapply Hno, Hsub.
      + split; [|done]. by eapply wf_owned in Hrc. }
  specialize (IH w1 (ds ++ [c]) Hwf1 ltac:(lia) Hpath1 Hds1).
  destruct (detach_tables sp path d w1 (ds ++ [c])) as [w' ds']. destruct IH as (IH1 & IH2 & IH3 & IH4 & IH5).
  split; [done|]. split; [|split; [by rewrite IH3|split; [done|by eapply stores_zero_trans]]].
  intros idxs Hidx Hl. rewrite IH2 by done. by apply Hs1.
Qed.

Lemma unmap_page_result sp w va :
  backend sp = be -> wf owned sp w -> initialized sp = true -> is_u64 va -> validate_virtual_page va = Ok ->
  let '(w', st, removed) := unmap_page (Some sp) w va in
  (st, removed) = query_page (Some sp) w va true /\ (st ≠ Ok -> w' = w) /\
  (st = Ok -> wf owned sp w' /\ page_entries sp w' va = inl NotMapped /\
    (forall va', is_u64 va' -> canonical_address va' = true -> va' / 4096 ≠ va / 4096 -> page_entries sp w' va' = page_entries sp w va') /\
    (forall q, own w' q -> own w q) /\ own w' (root_table_physical sp) /\ ordered va (log w) (log w')).
Proof.
  intros Eb Hwf Hinit Hva Hv. destruct (valid_page va Hva Hv) as [Hc _].
  unfold unmap_page, query_page. rewrite Hinit, Hv, Hc. cbn [negb]. rewrite bool_decide_eq_true_2 by done. cbn [negb].
  pose proof (walk_to_leaf_ok sp w va Eb Hwf) as Hw. destruct (walk_to_leaf sp w va) as [st|path].
  { split; [done|]. split; [done|]. intros ->. unfold page_entries in Hw. by apply pwalk_not_ok in Hw. }
  destruct Hw as (es & _ & _ & _ & (_ & _ & _ & Ht & Hp)). destruct (Ht 3%nat ltac:(lia)) as (p & Hpr & ->).
  assert (is_u64 0) as H0 by word_lia. destruct (leaf_store_wf sp w va p 0 Eb Hwf Hpr H0) as [Hwf1 Hr1].
  assert (pte sp (store_entry w (entry_address (ptr be w p) (table_index va 3)) 0) p (table_index va 3) = 0) as Hself
    by (eapply (store_pte_self be owned); [done|exact Hwf|exact Hpr|apply index_ok_table]).
  pose proof (stores_zero_store w (entry_address (ptr be w p) (table_index va 3))) as Hlog1.
  assert (forall va', is_u64 va' -> canonical_address va' = true -> va' / 4096 ≠ va / 4096 ->
    page_entries sp (store_entry w (entry_address (ptr be w p) (table_index va 3)) 0) va' = page_entries sp w va') as Hother
    by (intros va' H1 H2 H3; by apply leaf_store_page).
  assert (path_upto sp (store_entry w (entry_address (ptr be w p) (table_index va 3)) 0) va 3 path) as Hpath.
  { split.
    - intros k Hk. destruct (Ht k Hk) as (x & Hx & E). exists x. split; [by apply Hr1|done].
    - intros k Hk. destruct (Hp k Hk) as (x & Hx & E & Ec). exists x. split; [by apply Hr1|]. split; [done|].
      rewrite (pte_store be owned) by (done || apply index_ok_table || by eapply wf_owned). rewrite decide_False; [done|].
      intros [-> _]. pose proof (wf_unique _ _ _ Hwf _ _ _ Hx Hpr) as E'. apply (f_equal length) in E'.
      rewrite !length_prefix in E' by lia. lia. }
  assert (forall q, own (store_entry w (entry_address (ptr be w p) (table_index va 3)) 0) q <-> own w q) as Ho1 by done.
  set (w1 := store_entry w (entry_address (ptr be w p) (table_index va 3)) 0) in *. clearbody w1.
  pose proof (detach_tables_ok sp va path Eb 3 w1 [] Hwf1 ltac:(lia) Hpath) as Hd.
  specialize (Hd ltac:(split; [constructor|intros q Hq; by apply not_elem_of_nil in Hq])).
  destruct (detach_tables sp path 3 w1 []) as [w2 ds]. destruct Hd as (Hwf2 & Hs2 & Hst2 & [Hnd Hun] & Hlog2).
  destruct (call_invalidate_ok be owned sp w2 va Eb (wf_words _ _ _ Hwf2)) as (Hk3 & Ho3 & Hlog3).
  destruct (kept_result sp w2 (call_invalidate sp w2 va) Eb Hwf2 Hk3 Ho3) as [Hwf3 Hs3].
  set (w3 := call_invalidate sp w2 va) in *. clearbody w3.
  assert (forall path q, reach sp w3 path q <-> reach sp w2 path q) as Hr3.
  { intros path' q. apply reach_same. intros path1 x i Hr Hi. eapply kept_pte; [done|exact Hk3|by eapply wf_owned|done]. }
  destruct (free_all_ok be owned sp ds Eb w3 (wf_words _ _ _ Hwf3) Hnd) as (Hk4 & Ho4 & Hlog4).
  { apply Forall_forall. intros q Hq. apply Ho3. by apply Hun. }
  set (w4 := fold_left (call_free sp) ds w3) in *. clearbody w4.
  assert (forall path q, reach sp w3 path q -> own w3 q /\ q ∉ ds) as Hkeep.
  { intros path' q Hr. split; [by eapply wf_owned|]. intros Hq. apply Hr3 in Hr. by apply (proj2 (Hun q Hq)) in Hr. }
  destruct (wf_same owned sp w3 w4 Hwf3) as [Hwf4 Hwalk4].
  { intros path' q i Hr Hi. eapply kept_pte; [done|exact Hk4|by eapply Hkeep|done]. }
  { apply Hk4. }
  { intros path' q Hr. apply Ho4. by eapply Hkeep. }
  assert (forall va', page_entries sp w4 va' = page_entries sp w1 va') as Hpe.
  { intros va'. unfold page_entries. rewrite Hwalk4 by (apply indices_ok || (cbn; lia)).
    rewrite Hs3 by (apply indices_ok || done). apply Hs2; [apply indices_ok|done]. }
  split; [done|]. split; [done|]. intros _. split; [done|]. split.
  { rewrite Hpe. apply Hr1 in Hpr.
    apply (walk_not_mapped sp w1 (firstn 3 (indices va)) p (table_index va 3) [] Hpr). by rewrite Hself. }
  split; [intros va' H1 H2 H3; rewrite Hpe; by apply Hother|].
  split; [intros q [Hq _]%Ho4; apply Ho1; by rewrite <- Hst2, <- Ho3|].
  split; [apply Ho4; eapply Hkeep; apply reach_root|].
  destruct (stores_zero_trans _ _ _ Hlog1 Hlog2) as (stores & El & Hall).
  exists (reverse ds), stores. split; [|done]. by rewrite Hlog4, Hlog3, El, <- fmap_reverse.
Qed.
End map.

(** ** Example: a pool of 64 pages from 1 MiB on, mapped at an offset *)

Definition POOL_BASE : Z := 0x100000.

Definition pool_index (p : Z) : nat := Z.to_nat ((p - POOL_BASE) / PAGE_SIZE).

Definition pool_owned (b : list bool) (p : Z) : Prop :=
  exists i, p = POOL_BASE + PAGE_SIZE * Z.of_nat i /\ b !! i = Some true.

Definition pool_allocate (m : Memory) (b : list bool) : Memory * list bool * option Z :=
  match find_index negb b with
  | Some i => if (i <? 64)%nat then (m, <[i := true]> b, Some (POOL_BASE + PAGE_SIZE * Z.of_nat i)) else (m, b, None)
  | None => (m, b, None)
  end.

Definition pool_backend : @Backend (list bool) :=
  mkBackend true pool_allocate (fun m b p => (m, <[pool_index p := false]> b)) (fun _ p => p + 2 ^ 40)
    (fun m b _ => (m, b)) 40.

#[export] Instance pool_tables : PageTables pool_backend pool_owned.
Proof.
  split.
  - intros b p (i & -> & _). unfold POOL_BASE, PAGE_SIZE. cbn [physical_to_virtual pool_backend].
    change (2 ^ 40) with (8 * 137438953472). split; [lia|zdm].
  - intros b p q (i & -> & _) (j & -> & _) Hne. unfold POOL_BASE, PAGE_SIZE in *. cbn [physical_to_virtual pool_backend].
    assert (i ≠ j) by (by intros ->). lia.
  - intros m b m' b' r. cbn [allocate_table pool_backend]. unfold pool_allocate.
    assert (keeps pool_backend (pool_owned b) m b m b) as Hkeep by (split; [done|]; intros q _; done).
    destruct (find_index negb b) as [i|] eqn:E; [|intros [= <- <- <-]; done].
    destruct (Nat.ltb_spec i 64) as [Hi|]; [|intros [= <- <- <-]; done]. intros [= <- <- <-].
    apply find_index_Some in E as [(x & Hx & Hxf) _]. apply negb_true_iff in Hxf as ->.
    pose proof (lookup_lt_Some _ _ _ Hx) as Hlt.
    split; [split; [done|]; intros q _; done|]. split; [unfold POOL_BASE, PAGE_SIZE; word_lia|].
    assert (forall j, POOL_BASE + PAGE_SIZE * Z.of_nat i = POOL_BASE + PAGE_SIZE * Z.of_nat j -> i = j) as Hinj
      by (unfold PAGE_SIZE; lia).
    split; [intros (j & Ej & Hj); apply Hinj in Ej as <-; congruence|]. intros q. split.
    + intros (j & -> & Hj). destruct (decide (i = j)) as [->|Hne]; [by left|right]. exists j.
      by rewrite list_lookup_insert_ne in Hj.
    + intros [->|(j & -> & Hj)].
      * exists i. split; [done|]. by rewrite list_lookup_insert_eq.
      * exists j. split; [done|]. rewrite list_lookup_insert_ne; [done|]. intros ->. congruence.
  - intros m b m' b' p (i & -> & Hi). cbn [free_table pool_backend]. intros [= <- <-].
    assert (pool_index (POOL_BASE + PAGE_SIZE * Z.of_nat i) = i) as ->.
    { unfold pool_index, PAGE_SIZE. replace (POOL_BASE + 4096 * Z.of_nat i - POOL_BASE) with (Z.of_nat i * 4096) by lia.
      rewrite Z.div_mul by lia. lia. }
    split; [split; [done|]; intros q _; done|]. intros q. split.
    + intros (j & -> & Hj). destruct (decide (i = j)) as [->|Hne].
      * rewrite list_lookup_insert_eq in Hj by (by eapply lookup_lt_Some). done.
      * rewrite list_lookup_insert_ne in Hj by done. split; [by exists j|]. unfold PAGE_SIZE. lia.
    + intros [(j & -> & Hj) Hne]. exists j. split; [done|]. rewrite list_lookup_insert_ne; [done|]. by intros ->.
  - intros m b m' b' va. cbn [invalidate_page pool_backend]. intros [= <- <-].
    split; [split; [done|]; intros q _; done|done].
Qed.

(** The root page is the first of the pool, all memory is zero. *)
Definition example_world : World := mkWorld (fun _ => 0) (true :: replicate 63 false) [].

Definition example_space : AddressSpace := mkSpace POOL_BASE (Z.land (Z.shiftl 1 40 - 1) (not64 PAGE_OFFSET_MASK)) pool_backend true.

Lemma example_initialized : initialize true (Some pool_backend) example_world POOL_BASE = (Ok, Some example_space).
Proof. reflexivity. Qed.

(** A pool with two pages left: mapping a page takes three tables. *)
Definition small_world : World := mkWorld (fun _ => 0) [true; false; false] [].

Lemma zero_wf b : wf pool_owned example_space (mkWorld (fun _ => 0) (true :: b) []).
Proof.
  assert (forall path p, reach example_space (mkWorld (fun _ => 0) (true :: b) []) path p -> path = [] /\ p = POOL_BASE) as Hr.
  { intros [|i path] p (_ & _ & H); [by injection H|]. cbn [resolve] in H. done. }
  split.
  - exists 40. split; [lia|done].
  - split; [unfold example_space, POOL_BASE; cbn; word_lia|reflexivity].
  - intros a. cbn. word_lia.
  - intros path p [_ ->]%Hr. exists 0%nat. done.
  - intros path path' p [-> _]%Hr [-> _]%Hr. done.
Qed.

Definition example_mapped : World := fst (map_page (Some example_space) example_world 0x40201000 0x5000 3).

Lemma example_mapped_wf : wf pool_owned example_space example_mapped.
Proof.
  pose proof (map_page_result pool_backend pool_owned example_space example_world 0x40201000 0x5000 3 eq_refl (zero_wf _) eq_refl) as H.
  specialize (H ltac:(word_lia) ltac:(word_lia)). unfold example_mapped.
  destruct (map_page (Some example_space) example_world 0x40201000 0x5000 3) as [w' st].
  destruct H as [[_ []]|(_ & _ & _ & _ & _ & Hwf & _)]; assumption.
Qed.

(** ** Properties *)

Section properties.
Context {B : Type} (be : @Backend B) (owned : B -> Z -> Prop) {HB : PageTables be owned}.
Implicit Types (sp : @AddressSpace B) (w : @World B).

(** C6: A successful [map_page] maps a page that was not mapped: queries report
    exactly the physical page and the flags asked for, every address of the page
    translates to the same offset of the physical page, no user page is global,
    every other page is as before, and the tables remain a tree of owned pages. *)
Theorem map_page_ok sp w va pa flags w' :
  backend sp = be -> wf owned sp w -> initialized sp = true -> is_u64 va -> is_u64 pa -> is_u64 flags ->
  map_page (Some sp) w va pa flags = (w', Ok) ->
  wf owned sp w' /\ fst (query_page (Some sp) w va true) = NotMapped /\
  query_page (Some sp) w' va true = (Ok, Some (mkMapping va pa flags false false)) /\
  has_flag flags User && has_flag flags Global = false /\
  (forall off, 0 <= off < PAGE_SIZE -> translate (Some sp) w' (va + off) true = (Ok, pa + off)) /\
  (forall va', is_u64 va' -> va' / PAGE_SIZE ≠ va / PAGE_SIZE ->
    query_page (Some sp) w' va' true = query_page (Some sp) w va' true).
Proof.
  intros Eb Hwf Hi Hva Hpa Hfl E. pose proof (map_page_result be owned sp w va pa flags Eb Hwf Hi Hva Hpa) as H. rewrite E in H.
  destruct H as [[H _]|(_ & Hvf & Hvv & Hpm & Hbefore & Hwf' & (es & Hes & Hpe) & Hother)]; [done|].
  destruct (valid_page va Hva Hvv) as [Hc Hal]. pose proof (wf_mask _ _ _ Hwf) as Hm. split; [done|].
  split; [by rewrite (query_page_ok be owned), Hbefore|].
  assert (forall off, 0 <= off < 4096 ->
    query_page (Some sp) w' (va + off) true = (Ok, Some (mkMapping va pa flags false false))) as Hq.
  { intros off Hoff. destruct (canonical_offset va off Hva Hc Hal Hoff) as [Hu Hco].
    rewrite (query_page_ok be owned) by done. unfold page_entries. rewrite indices_offset by done. fold (page_entries sp w' va).
    rewrite Hpe, new_mapping by done. by rewrite (proj1 (page_base va off Hu Hal Hoff)). }
  split; [rewrite <- (Z.add_0_r va) at 1; apply Hq; lia|]. unfold PAGE_SIZE. split.
  { unfold valid_map_flags in Hvf. destruct (bit flags _); [done|]. by apply negb_true_iff in Hvf. }
  split.
  - intros off Hoff. unfold translate. cbn [negb]. rewrite Hq by done. cbn [m_physical].
    destruct (canonical_offset va off Hva Hc Hal Hoff) as [Hu _]. rewrite (proj2 (page_base va off Hu Hal Hoff)).
    pose proof (page_valid _ pa Hm Hpm sp eq_refl) as Hvp. unfold validate_physical_page in Hvp.
    destruct (bit pa PAGE_OFFSET_MASK); [done|]. destruct (Z.ltb_spec (UINT64_MAX - PAGE_OFFSET_MASK) pa); [done|].
    unfold PAGE_OFFSET_MASK, PAGE_SIZE in *. destruct (Z.ltb_spec (UINT64_MAX - off) pa); [lia|]. rewrite u64_small by word_lia. done.
  - intros va' Hva' Hne. apply (query_same be owned); try done. intros Hc'. by apply Hother.
Qed.

(** C9: A [map_page] that fails, at whatever point and for whatever reason (a
    conflict with an existing mapping, exhausted memory, a failing backend),
    leaves no trace: no table leaks, no table changes, every query answers as
    before. *)
Theorem map_page_rolls_back sp w va pa flags w' st :
  backend sp = be -> wf owned sp w -> initialized sp = true -> is_u64 va -> is_u64 pa ->
  map_page (Some sp) w va pa flags = (w', st) -> st ≠ Ok ->
  wf owned sp w' /\ (forall q, owned (backend_state w') q <-> owned (backend_state w) q) /\
  (forall q i, owned (backend_state w) q -> index_ok i -> pte sp w' q i = pte sp w q i) /\
  (forall va', query_page (Some sp) w' va' true = query_page (Some sp) w va' true).
Proof.
  intros Eb Hwf Hi Hva Hpa E Hst. pose proof (map_page_result be owned sp w va pa flags Eb Hwf Hi Hva Hpa) as H. rewrite E in H.
  destruct H as [[_ []]|[H _]]; [|done]. split; [done|]. split; [done|]. split; [intros q i Hq Hi'; by apply re_tables0|].
  intros va'. by apply (same_pages_unchanged be owned).
Qed.

(** C10: [unmap_page] of a valid page address answers what a query answers.  If the
    page was mapped it no longer is, every other page is as before, the tables
    remain a tree of owned pages, the root is never freed, and the order is the
    safe one: all entries are cleared first, then the translation is
    invalidated, and only then are the emptied tables given back.  Otherwise
    nothing happens. *)
Theorem unmap_page_ok sp w va w' st removed :
  backend sp = be -> wf owned sp w -> initialized sp = true -> is_u64 va -> validate_virtual_page va = Ok ->
  unmap_page (Some sp) w va = (w', st, removed) ->
  query_page (Some sp) w va true = (st, removed) /\ (st ≠ Ok -> w' = w) /\
  (st = Ok ->
    wf owned sp w' /\ query_page (Some sp) w' va true = (NotMapped, None) /\
    (forall va', is_u64 va' -> va' / PAGE_SIZE ≠ va / PAGE_SIZE ->
      query_page (Some sp) w' va' true = query_page (Some sp) w va' true) /\
    (forall q, owned (backend_state w') q -> owned (backend_state w) q) /\
    owned (backend_state w') (root_table_physical sp) /\ ordered va (log w) (log w')).
Proof.
  intros Eb Hwf Hi Hva Hv E. pose proof (unmap_page_result be owned sp w va Eb Hwf Hi Hva Hv) as H. rewrite E in H.
  destruct H as (Hq & Hfail & Hok). split; [done|]. split; [done|]. intros Hst.
  destruct (Hok Hst) as (Hwf' & Hpe & Hother & Ho & Hroot & Hord). split; [done|].
  destruct (valid_page va Hva Hv) as [Hc _]. split; [by rewrite (query_page_ok be owned), Hpe|].
  split; [|done]. intros va' Hva' Hne. apply (query_same be owned); try done. intros Hc'. by apply Hother.
Qed.
End properties.

Lemma map_page_ok_witness :
  query_page (Some example_space) example_mapped 0x40201000 true = (Ok, Some (mkMapping 0x40201000 0x5000 3 false false)) /\
  translate (Some example_space) example_mapped 0x40201234 true = (Ok, 0x5234).
Proof.
  assert (snd (map_page (Some example_space) example_world 0x40201000 0x5000 3) = Ok) as Hs by (vm_compute; reflexivity).
  unfold example_mapped. destruct (map_page (Some example_space) example_world 0x40201000 0x5000 3) as [w' st] eqn:E.
  cbn [snd] in Hs. cbn [fst]. rewrite Hs in E.
  destruct (map_page_ok pool_backend pool_owned example_space example_world 0x40201000 0x5000 3 w') as (_ & _ & Hq & _ & Ht & _).
  - reflexivity.
  - apply zero_wf.
  - reflexivity.
  - word_lia.
  - word_lia.
  - word_lia.
  - exact E.
  - split; [exact Hq|]. apply (Ht 0x234). unfold PAGE_SIZE. lia.
Defined.

Lemma map_page_rolls_back_witness :
  snd (map_page (Some example_space) small_world 0x40201000 0x5000 3) = OutOfMemory /\
  forall q, pool_owned (backend_state (fst (map_page (Some example_space) small_world 0x40201000 0x5000 3))) q <->
    pool_owned [true; false; false] q.
Proof.
  assert (snd (map_page (Some example_space) small_world 0x40201000 0x5000 3) = OutOfMemory) as Hs by (vm_compute; reflexivity).
  destruct (map_page (Some example_space) small_world 0x40201000 0x5000 3) as [w' st] eqn:E. cbn [fst snd] in *.
  split; [exact Hs|].
  destruct (map_page_rolls_back pool_backend pool_owned example_space small_world 0x40201000 0x5000 3 w' st) as (_ & Ho & _).
  - reflexivity.
  - apply zero_wf.
  - reflexivity.
  - word_lia.
  - word_lia.
  - exact E.
  - rewrite Hs. discriminate.
  - exact Ho.
Defined.

Lemma unmap_page_ok_witness :
  query_page (Some example_space) (fst (fst (unmap_page (Some example_space) example_mapped 0x40201000))) 0x40201000 true = (NotMapped, None).
Proof.
  assert (snd (fst (unmap_page (Some example_space) example_mapped 0x40201000)) = Ok) as Hs by (vm_compute; reflexivity).
  destruct (unmap_page (Some example_space) example_mapped 0x40201000) as [[w' st] removed] eqn:E. cbn [fst snd] in *.
  destruct (unmap_page_ok pool_backend pool_owned example_space example_mapped 0x40201000 w' st removed) as (_ & _ & H).
  - reflexivity.
  - apply example_mapped_wf.
  - reflexivity.
  - word_lia.
  - reflexivity.
  - exact E.
  - exact (proj1 (proj2 (H Hs))).
Defined.
