(* ===== verification/UserMemory.v ===== *)
(** * The memory services behind a user address space

    [user/elf_loader.cpp] allocates frames, fills them through the kernel's direct
    view of physical memory, and maps them into an address space.  [Kernel] collects
    those calls over a state [W]; the class [UserMemory] states what the loader
    relies on; the instance at the end of the file derives it, for the page tables
    of VirtualMemory.v and any frame allocator of FrameAllocator.v, from what those
    files prove. *)

From S2P Require Import Prelude FrameAllocator VirtualMemory.

(** [elf_loader.hpp]: the region user pages are mapped in. *)
Definition USER_REGION_BASE : Z := 0x0000400000000000.
Definition USER_REGION_SIZE : Z := 64 * 1024 * 1024.
Definition USER_REGION_END : Z := USER_REGION_BASE + USER_REGION_SIZE.

(** The calls into memory/physical_memory.cpp and memory/virtual_memory.cpp, and
    the byte accesses through a frame pointer. *)
Record Kernel (W SP : Type) := mkKernel {
  k_initialized : SP -> bool;
  k_alloc_frame : W -> W * Z;
  k_free_frame : W -> Z -> W;
  k_load : W -> Z -> Z;
  k_store : W -> Z -> Z -> W;
  k_map_page : SP -> W -> Z -> Z -> Z -> W * VirtualMemory.Status;
  k_unmap_page : SP -> W -> Z -> W * VirtualMemory.Status * option Mapping }.
Arguments mkKernel {W SP}.
Arguments k_initialized {W SP}.
Arguments k_alloc_frame {W SP}.
Arguments k_free_frame {W SP}.
Arguments k_load {W SP}.
Arguments k_store {W SP}.
Arguments k_map_page {W SP}.
Arguments k_unmap_page {W SP}.

Definition page_address (va : Z) : Prop := is_u64 va /\ va mod PAGE_SIZE = 0.
Definition user_page (va : Z) : Prop := USER_REGION_BASE <= va < USER_REGION_END /\ va mod PAGE_SIZE = 0.
Definition in_frame (a x : Z) : Prop := a <= x < a + PAGE_SIZE.

Lemma user_page_address va : user_page va -> page_address va.
Proof.
  unfold user_page, page_address, USER_REGION_END, USER_REGION_BASE, USER_REGION_SIZE.
  intros [? ?]. split; [word_lia|done].
Qed.

Class UserMemory {W SP : Type} (K : Kernel W SP) (sp : SP) := {
  um_ok : W -> Prop;
  (** what the page tables hold at a page address: the frame and the flags *)
  um_page : W -> Z -> option (Z * Z);
  (** the frames that have been handed out *)
  um_frames : W -> gset Z;

  um_frame_aligned w a : um_ok w -> a ∈ um_frames w -> is_u64 a /\ a ≠ 0 /\ a mod PAGE_SIZE = 0;

  um_alloc w w' a : um_ok w -> k_alloc_frame K w = (w', a) ->
    (a = 0 /\ w' = w) \/
    (a ≠ 0 /\ um_ok w' /\ (a ∉ um_frames w) /\ um_frames w' = {[a]} ∪ um_frames w /\
     (forall va, um_page w' va = um_page w va) /\ forall x, k_load K w' x = k_load K w x);

  um_free w a : um_ok w -> a ∈ um_frames w ->
    um_ok (k_free_frame K w a) /\ um_frames (k_free_frame K w a) = um_frames w ∖ {[a]} /\
    (forall va, um_page (k_free_frame K w a) va = um_page w va) /\
    (forall x, ~ in_frame a x -> k_load K (k_free_frame K w a) x = k_load K w x);

  um_store w a x b : um_ok w -> a ∈ um_frames w -> in_frame a x ->
    um_ok (k_store K w x b) /\ um_frames (k_store K w x b) = um_frames w /\
    (forall va, um_page (k_store K w x b) va = um_page w va) /\
    (forall y, k_load K (k_store K w x b) y = if y =? x then b else k_load K w y);

  um_map w va a flags w' st : um_ok w -> user_page va -> a ∈ um_frames w -> is_u64 flags ->
    k_map_page K sp w va a flags = (w', st) ->
    um_ok w' /\ um_frames w' = um_frames w /\
    (forall a' x, a' ∈ um_frames w -> in_frame a' x -> k_load K w' x = k_load K w x) /\
    (st = VirtualMemory.Ok -> um_page w va = None /\ um_page w' va = Some (a, flags) /\
      forall va', page_address va' -> va' ≠ va -> um_page w' va' = um_page w va') /\
    (st ≠ VirtualMemory.Ok -> forall va', page_address va' -> um_page w' va' = um_page w va');

  um_unmap w va w' st removed : um_ok w -> user_page va -> k_unmap_page K sp w va = (w', st, removed) ->
    um_ok w' /\ um_frames w' = um_frames w /\
    (forall a' x, a' ∈ um_frames w -> in_frame a' x -> k_load K w' x = k_load K w x) /\
    match um_page w va with
    | Some (a, _) =>
        st = VirtualMemory.Ok /\ (exists m, removed = Some m /\ m_physical m = a) /\ um_page w' va = None /\
        forall va', page_address va' -> va' ≠ va -> um_page w' va' = um_page w va'
    | None => st ≠ VirtualMemory.Ok /\ w' = w
    end }.

(** Frames that are handed out together do not overlap. *)
Lemma frames_apart {W SP} {K : Kernel W SP} {sp} {U : UserMemory K sp} w a b x :
  um_ok w -> a ∈ um_frames w -> b ∈ um_frames w -> in_frame a x -> in_frame b x -> a = b.
Proof.
  intros Hw Ha Hb Hx Hy. destruct (um_frame_aligned w a Hw Ha) as (_ & _ & Ea).
  destruct (um_frame_aligned w b Hw Hb) as (_ & _ & Eb). unfold in_frame, PAGE_SIZE in *. zdm.
Qed.

(** ** The page tables of VirtualMemory.v and a frame allocator *)

Record Machine (B S : Type) := mkMachine { m_tables : @World B; m_frames : S; m_ram : Z -> Z }.
Arguments mkMachine {B S}.
Arguments m_tables {B S}.
Arguments m_frames {B S}.
Arguments m_ram {B S}.

Section machine.
Context {B : Type} (be : @Backend B) (owned : B -> Z -> Prop) {HB : PageTables be owned}.
Context {S : Type} {FA : FrameAllocator S}.

Definition machine_kernel : Kernel (Machine B S) (@AddressSpace B) := {|
  k_initialized := initialized;
  k_alloc_frame w :=
    let '(s, a) := fa_alloc (m_frames w) in (mkMachine (m_tables w) s (m_ram w), a);
  k_free_frame w a := mkMachine (m_tables w) (fa_free (m_frames w) a) (m_ram w);
  k_load w x := m_ram w x;
  k_store w x b := mkMachine (m_tables w) (m_frames w) (fun y => if y =? x then b else m_ram w y);
  k_map_page sp w va pa flags :=
    let '(t, st) := map_page (Some sp) (m_tables w) va pa flags in
    (mkMachine t (m_frames w) (m_ram w), st);
  k_unmap_page sp w va :=
    let '(t, st, removed) := unmap_page (Some sp) (m_tables w) va in
    (mkMachine t (m_frames w) (m_ram w), st, removed) |}.

Definition machine_ok (sp : AddressSpace) (w : Machine B S) : Prop :=
  wf owned sp (m_tables w) /\ fa_ok (m_frames w) /\ fa_frame_size (m_frames w) = PAGE_SIZE.

Definition machine_page (sp : AddressSpace) (w : Machine B S) (va : Z) : option (Z * Z) :=
  match query_page (Some sp) (m_tables w) va true with
  | (VirtualMemory.Ok, Some m) => Some (m_physical m, m_flags m)
  | _ => None
  end.

Lemma user_page_valid va : user_page va -> validate_virtual_page va = VirtualMemory.Ok.
Proof.
  unfold user_page, USER_REGION_END, USER_REGION_BASE, USER_REGION_SIZE. intros [Hr Hm].
  assert (canonical_address va = true) as Hc.
  { unfold canonical_address. rewrite !Z.shiftr_div_pow2 by lia.
    replace (va / 2 ^ 47) with 0 by (symmetry; apply Z.div_small; lia).
    replace (va / 2 ^ 48) with 0 by (symmetry; apply Z.div_small; lia). done. }
  assert (canonical_address (va ⊕ PAGE_OFFSET_MASK) = true) as Hc'.
  { unfold PAGE_OFFSET_MASK, PAGE_SIZE. rewrite u64_small by word_lia.
    unfold canonical_address. rewrite !Z.shiftr_div_pow2 by lia.
    replace ((va + (4096 - 1)) / 2 ^ 47) with 0 by (symmetry; apply Z.div_small; lia).
    replace ((va + (4096 - 1)) / 2 ^ 48) with 0 by (symmetry; apply Z.div_small; lia). done. }
  unfold validate_virtual_page. rewrite Hc, Hc'. cbn [negb].
  rewrite (proj2 (bit_false va PAGE_OFFSET_MASK)).
  2:{ unfold PAGE_OFFSET_MASK. change PAGE_SIZE with (2 ^ 12) in *. rewrite land_low by lia. done. }
  unfold PAGE_OFFSET_MASK, PAGE_SIZE. destruct (Z.ltb_spec (UINT64_MAX - (4096 - 1)) va); [word_lia|done].
Qed.

Lemma other_page va va' :
  page_address va -> page_address va' -> va' ≠ va -> va' / 4096 ≠ va / 4096.
Proof. unfold page_address, PAGE_SIZE. intros [_ ?] [_ ?] ?. zdm. Qed.

Lemma machine_page_same sp t t' s s' r r' va :
  query_page (Some sp) t' va true = query_page (Some sp) t va true ->
  machine_page sp (mkMachine t' s' r') va = machine_page sp (mkMachine t s r) va.
Proof. intros E. unfold machine_page. cbn [m_tables]. by rewrite E. Qed.

(** A page that [map_page] has mapped is reported with its frame and flags. *)
Lemma mapped_query sp w va pa flags w' :
  backend sp = be -> wf owned sp w -> initialized sp = true -> is_u64 va -> is_u64 pa -> is_u64 flags ->
  map_page (Some sp) w va pa flags = (w', VirtualMemory.Ok) ->
  query_page (Some sp) w' va true = (VirtualMemory.Ok, Some (mkMapping va pa flags false false)).
Proof.
  intros Eb Hwf Hi Hva Hpa Hfl E.
  pose proof (map_page_result be owned sp w va pa flags Eb Hwf Hi Hva Hpa) as H. rewrite E in H.
  destruct H as [[H _]|(_ & Hvf & Hvv & Hpm & _ & Hwf' & (es & Hes & Hpe) & _)]; [done|].
  destruct (valid_page va Hva Hvv) as [Hc Hal]. pose proof (wf_mask _ _ _ Hwf) as Hm.
  rewrite (query_page_ok be owned), Hpe, new_mapping by done.
  pose proof (page_base va 0 ltac:(by rewrite Z.add_0_r) Hal ltac:(lia)) as [E0 _].
  rewrite Z.add_0_r in E0. by rewrite E0.
Qed.

Lemma map_other sp w va pa flags w' st va' :
  backend sp = be -> wf owned sp w -> initialized sp = true -> is_u64 va -> is_u64 pa -> page_address va' ->
  map_page (Some sp) w va pa flags = (w', st) -> (st = VirtualMemory.Ok -> va' / 4096 ≠ va / 4096) ->
  wf owned sp w' /\ query_page (Some sp) w' va' true = query_page (Some sp) w va' true.
Proof.
  intros Eb Hwf Hi Hva Hpa [Hva' _] E Hne.
  pose proof (map_page_result be owned sp w va pa flags Eb Hwf Hi Hva Hpa) as H. rewrite E in H.
  destruct H as [[Hst H]|(-> & _ & _ & _ & _ & Hwf' & _ & Hother)].
  - destruct H as [Hwf' Ho Ht]. split; [done|]. apply (same_pages_unchanged be owned); done.
  - split; [done|]. apply (query_same be owned); try done. intros Hc'. by apply Hother; auto.
Qed.

#[refine] Instance machine_user_memory sp (Eb : backend sp = be) (Hi : initialized sp = true) :
  UserMemory machine_kernel sp := {|
  um_ok := machine_ok sp;
  um_page := machine_page sp;
  um_frames w := fa_owned (m_frames w)
|}.
Proof.
  - intros w a (_ & Hf & Hs) Ha. destruct (fa_owned_aligned _ _ Hf Ha) as [Hu Hal].
    rewrite Hs in Hal. split_and!; try done. intros ->. by apply (fa_owned_nonnull _ Hf).
  - intros [t s r] w' a (Ht & Hf & Hs). cbn. destruct (fa_alloc s) as [s' b] eqn:E.
    intros [= <- <-]. destruct (decide (b = 0)) as [->|Hb].
    + left. by rewrite (fa_alloc_null _ _ Hf E).
    + right. destruct (fa_alloc_fresh _ _ _ Hf E Hb) as (Hf' & Hn & Ho).
      split_and!; try done. unfold machine_ok. cbn. by rewrite (fa_alloc_size _ _ _ Hf E).
  - intros [t s r] a (Ht & Hf & Hs) Ha. cbn in *. destruct (fa_free_owned _ _ Hf Ha) as [Hf' Ho].
    split_and!; try done. unfold machine_ok. cbn. by rewrite (fa_free_size _ _ Hf).
  - intros [t s r] a x b Hw Ha Hx. by split_and!.
  - intros [t s r] va a flags w' st (Ht & Hf & Hs) Hva Ha Hfl.
    cbn [k_map_page machine_kernel m_tables m_frames m_ram k_load] in *.
    destruct (map_page (Some sp) t va a flags) as [t' st'] eqn:E. intros [<- <-]%pair_equal_spec.
    pose proof (user_page_address va Hva) as Hpa. pose proof Hpa as [Hvu _].
    destruct (fa_owned_aligned _ _ Hf Ha) as [Hau _].
    assert (wf owned sp t') as Ht'.
    { pose proof (map_page_result be owned sp t va a flags Eb Ht Hi Hvu Hau) as H. rewrite E in H.
      destruct H as [[_ []]|(_ & _ & _ & _ & _ & H & _)]; done. }
    split_and!; try done.
    + intros ->. split_and!.
      * pose proof (map_page_result be owned sp t va a flags Eb Ht Hi Hvu Hau) as H. rewrite E in H.
        destruct H as [[H _]|(_ & _ & Hvv & _ & Hb & _)]; [done|].
        destruct (valid_page va Hvu Hvv) as [Hc _].
        unfold machine_page. cbn [m_tables]. by rewrite (query_page_ok be owned), Hb.
      * unfold machine_page. cbn [m_tables].
        by rewrite (mapped_query sp t va a flags t' Eb Ht Hi Hvu Hau Hfl E).
      * intros va' Hva' Hne. apply machine_page_same.
        apply (map_other sp t va a flags t' _ va' Eb Ht Hi Hvu Hau Hva' E). intros _.
        apply (other_page va va' Hpa Hva' Hne).
    + intros Hst va' Hva'. apply machine_page_same.
      apply (map_other sp t va a flags t' st' va' Eb Ht Hi Hvu Hau Hva' E). by intros ?.
  - intros [t s r] va w' st removed (Ht & Hf & Hs) Hva.
    cbn [k_unmap_page machine_kernel m_tables m_frames m_ram k_load] in *.
    pose proof (user_page_address va Hva) as Hpa. pose proof Hpa as [Hvu _].
    pose proof (user_page_valid va Hva) as Hvv. destruct (valid_page va Hvu Hvv) as [Hc _].
    pose proof (unmap_page_result be owned sp t va Eb Ht Hi Hvu Hvv) as H.
    destruct (unmap_page (Some sp) t va) as [[t' st'] removed'] eqn:E. intros [[<- <-]%pair_equal_spec <-]%pair_equal_spec.
    destruct H as (Hq & Hfail & Hok). unfold machine_page at 1. cbn [m_tables]. rewrite <- Hq.
    destruct (decide (st' = VirtualMemory.Ok)) as [->|Hne].
    + destruct (Hok eq_refl) as (Ht' & Hgone & Hother & _ & _ & _).
      rewrite (query_page_ok be owned) in Hq by done.
      destruct (page_entries sp t va) as [st|es] eqn:Ep; [|].
      { apply pair_equal_spec in Hq as [<- _]. unfold page_entries in Ep. by apply pwalk_not_ok in Ep. }
      apply pair_equal_spec in Hq as [_ ->]. split_and!; try done; [by eexists|..].
      * unfold machine_page. cbn [m_tables]. by rewrite (query_page_ok be owned), Hgone.
      * intros va' Hva' Hne'. apply machine_page_same. apply (query_same be owned sp t t' va' Eb Ht Ht' Hi).
        intros Hc'. apply (Hother va' (proj1 Hva') Hc' (other_page va va' Hpa Hva' Hne')).
    + rewrite (Hfail Hne) in *. split_and!; try done. destruct st'; try done; destruct removed'; done.
Defined.
End machine.
