(* ===== verification/ElfLoader.v ===== *)
(** * ELF loader (user/elf_loader.cpp)

    Validation of a static ELF64 image, and loading it into a user address space.
    The memory services are those of UserMemory.v; an image is a byte list, a null
    pointer is [None]. *)

From S2P Require Import Prelude FrameAllocator VirtualMemory UserMemory.

Definition kIdentificationSize : nat := 16.
Definition kElfClass64 : Z := 2.
Definition kElfDataLittleEndian : Z := 1.
Definition kElfVersion : Z := 1.
Definition kExecutable : Z := 2.
Definition kMachineX86_64 : Z := 62.
Definition kProgramLoad : Z := 1.
Definition kProgramDynamic : Z := 2.
Definition kProgramInterpreter : Z := 3.
Definition kProgramNote : Z := 4.
Definition kProgramHeader : Z := 6.
Definition kProgramTls : Z := 7.
Definition kProgramGnuStack : Z := 0x6474E551.
Definition kFlagExecute : Z := 1.
Definition kFlagWrite : Z := 2.
Definition kKnownSegmentFlags : Z := 7.
Definition kMaximumProgramHeaders : Z := 32.
Definition kPageMask : Z := PAGE_SIZE - 1.
Definition MAX_IMAGE_PAGES : Z := 256.

Inductive Status :=
  | Ok | InvalidArgument | ImageTooSmall | InvalidMagic | UnsupportedClass | UnsupportedEncoding
  | UnsupportedType | UnsupportedMachine | InvalidHeader | InvalidProgramTable | UnsupportedProgram
  | InvalidSegment | SegmentOutOfRange | SegmentOverlap | WritableExecutableSegment | InvalidEntry
  | TooManyPages | OutOfMemory | MappingFailed | UnmapFailed.

#[export] Instance elf_status_eq_dec : EqDecision Status.
Proof. solve_decision. Defined.

(** ** The file headers *)

(** A little-endian field of [n] bytes at [offset] of a packed structure. *)
Fixpoint little_endian (l : list Z) : Z :=
  match l with [] => 0 | b :: l' => b + 256 * little_endian l' end.

Definition field (bytes : list Z) (offset : Z) (n : nat) : Z :=
  little_endian (take n (drop (Z.to_nat offset) bytes)).

Record Header := mkHeader {
  identification : list Z; h_type : Z; machine : Z; version : Z; entry : Z; program_offset : Z;
  header_size : Z; program_entry_size : Z; program_count : Z }.

(** The fields of [Header] that the loader reads, at their packed offsets. *)
Definition header_from (bytes : list Z) : Header :=
  mkHeader (take kIdentificationSize bytes) (field bytes 16 2) (field bytes 18 2) (field bytes 20 4)
    (field bytes 24 8) (field bytes 32 8) (field bytes 52 2) (field bytes 54 2) (field bytes 56 2).

Record ProgramHeader := mkProgram {
  ph_type : Z; ph_flags : Z; ph_offset : Z; virtual_address : Z;
  file_size : Z; memory_size : Z; alignment : Z }.

Definition program_at (bytes : list Z) (at_offset : Z) : ProgramHeader :=
  mkProgram (field bytes at_offset 4) (field bytes (at_offset + 4) 4) (field bytes (at_offset + 8) 8)
    (field bytes (at_offset + 16) 8) (field bytes (at_offset + 32) 8) (field bytes (at_offset + 40) 8)
    (field bytes (at_offset + 48) 8).

Definition SIZEOF_HEADER : Z := 64.
Definition SIZEOF_PROGRAM : Z := 56.

(** The [program_count] entries of the program table. *)
Definition programs_from (bytes : list Z) (header : Header) : list ProgramHeader :=
  (fun index => program_at bytes (program_offset header + SIZEOF_PROGRAM * index)) <$>
    seqZ 0 (program_count header).

(** ** Arithmetic *)

(** [None] is the [true] of the code: the addition overflows. *)
Definition add_overflows (left right : Z) : option Z :=
  if UINT64_MAX - right <? left then None else Some (left + right).

Definition multiply_overflows (left right : Z) : option Z :=
  if negb (left =? 0) && (SIZE_MAX / left <? right) then None else Some (left ⊗ right).

Definition align_down (value : Z) : Z := Z.land value (not64 kPageMask).

Definition align_up (value : Z) : option Z :=
  match add_overflows value kPageMask with
  | None => None
  | Some adjusted => Some (Z.land adjusted (not64 kPageMask))
  end.

(** ** Validation *)

Definition byte_at (l : list Z) (i : nat) : Z := nth i l 0.

Definition validate_header (bytes : option (list Z)) : Status + Header :=
  match bytes with
  | None => inl InvalidArgument
  | Some bytes =>
    let size := Z.of_nat (length bytes) in
    if size <? SIZEOF_HEADER then inl ImageTooSmall else
    let header := header_from bytes in
    let id := byte_at (identification header) in
    if negb (id 0%nat =? 0x7F) || negb (id 1%nat =? 69) || negb (id 2%nat =? 76) || negb (id 3%nat =? 70)
    then inl InvalidMagic else
    if negb (id 4%nat =? kElfClass64) then inl UnsupportedClass else
    if negb (id 5%nat =? kElfDataLittleEndian) || negb (id 6%nat =? kElfVersion)
    then inl UnsupportedEncoding else
    if negb (h_type header =? kExecutable) then inl UnsupportedType else
    if negb (machine header =? kMachineX86_64) then inl UnsupportedMachine else
    if negb (version header =? kElfVersion) || negb (header_size header =? SIZEOF_HEADER) ||
       negb (program_entry_size header =? SIZEOF_PROGRAM)
    then inl InvalidHeader else
    if (program_count header =? 0) || (kMaximumProgramHeaders <? program_count header) ||
       (program_offset header <? SIZEOF_HEADER)
    then inl InvalidProgramTable else
    match multiply_overflows (program_count header) SIZEOF_PROGRAM with
    | None => inl InvalidProgramTable
    | Some table_size =>
        if (size <? program_offset header) || (size - program_offset header <? table_size)
        then inl InvalidProgramTable
        else inr header
    end
  end.

(** The types that are skipped. *)
Definition ignored_program (program : ProgramHeader) : bool :=
  (ph_type program =? 0) || (ph_type program =? kProgramNote) ||
  (ph_type program =? kProgramHeader) || (ph_type program =? kProgramGnuStack).

Definition unsupported_program (program : ProgramHeader) : bool :=
  (ph_type program =? kProgramDynamic) || (ph_type program =? kProgramInterpreter) ||
  (ph_type program =? kProgramTls) || negb (ph_type program =? kProgramLoad).

(** Lines 175-206: the tests of one segment on its own, up to the page count; the
    end of the segment in memory and its mapped range. *)
Definition check_segment (size : Z) (program : ProgramHeader) : Status + (Z * Z * Z) :=
  if negb (Z.land (ph_flags program) (u32 (Z.lnot kKnownSegmentFlags)) =? 0) ||
     (memory_size program <? file_size program) ||
     (negb (alignment program =? 0) &&
      (negb (is_power_of_two (alignment program)) || (PAGE_SIZE <? alignment program))) ||
     negb (Z.land (virtual_address program ⊖ ph_offset program) kPageMask =? 0)
  then inl InvalidSegment else
  if Z.land (ph_flags program) (Z.lor kFlagWrite kFlagExecute) =? Z.lor kFlagWrite kFlagExecute
  then inl WritableExecutableSegment else
  match add_overflows (ph_offset program) (file_size program) with
  | None => inl SegmentOutOfRange
  | Some file_end =>
    if size <? file_end then inl SegmentOutOfRange else
    match add_overflows (virtual_address program) (memory_size program) with
    | None => inl SegmentOutOfRange
    | Some memory_end =>
      if (virtual_address program <? USER_REGION_BASE) || (USER_REGION_END <? memory_end) ||
         (memory_end <=? virtual_address program)
      then inl SegmentOutOfRange else
      match align_up memory_end with
      | None => inl SegmentOutOfRange
      | Some mapped_end => inr (memory_end, align_down (virtual_address program), mapped_end)
      end
    end
  end.

(** The inner loop: the earlier load segments. *)
Fixpoint check_overlap (program : ProgramHeader) (memory_end mapped_begin mapped_end : Z)
    (others : list ProgramHeader) : Status :=
  match others with
  | [] => Ok
  | other :: rest =>
    if negb (ph_type other =? kProgramLoad) || (memory_size other =? 0)
    then check_overlap program memory_end mapped_begin mapped_end rest else
    match add_overflows (virtual_address other) (memory_size other) with
    | None => SegmentOutOfRange
    | Some other_end =>
      if (virtual_address program <? other_end) && (virtual_address other <? memory_end)
      then SegmentOverlap else
      match align_up other_end with
      | None => SegmentOutOfRange
      | Some other_mapped_end =>
        if (mapped_begin <? other_mapped_end) && (align_down (virtual_address other) <? mapped_end)
        then SegmentOverlap
        else check_overlap program memory_end mapped_begin mapped_end rest
      end
    end
  end.

(** The outer loop; [previous] are the entries already seen, in order. *)
Fixpoint validate_loop (size : Z) (entry_point : Z) (previous programs : list ProgramHeader)
    (found_load entry_is_executable : bool) (page_count : Z) : Status :=
  match programs with
  | [] => if found_load && entry_is_executable then Ok else InvalidEntry
  | program :: rest =>
    let next := validate_loop size entry_point (previous ++ [program]) rest in
    if ignored_program program then next found_load entry_is_executable page_count else
    if unsupported_program program then UnsupportedProgram else
    if memory_size program =? 0 then next found_load entry_is_executable page_count else
    match check_segment size program with
    | inl status => status
    | inr (memory_end, mapped_begin, mapped_end) =>
      let pages := (mapped_end ⊖ mapped_begin) / PAGE_SIZE in
      if MAX_IMAGE_PAGES - page_count <? pages then TooManyPages else
      match check_overlap program memory_end mapped_begin mapped_end previous with
      | Ok =>
        next true
          (entry_is_executable ||
           (negb (Z.land (ph_flags program) kFlagExecute =? 0) &&
            (virtual_address program <=? entry_point) && (entry_point <? memory_end)))
          (page_count + pages)
      | status => status
      end
    end
  end.

Definition validate_programs (bytes : list Z) (header : Header) : Status :=
  validate_loop (Z.of_nat (length bytes)) (entry header) [] (programs_from bytes header) false false 0.

(** The status and the value stored through [entry], when the caller passes it. *)
Definition validate (bytes : option (list Z)) : Status * Z :=
  match validate_header bytes with
  | inl status => (status, 0)
  | inr header =>
    match validate_programs (default [] bytes) header with
    | Ok => (Ok, entry header)
    | status => (status, 0)
    end
  end.

(** ** Loading *)

Section loader.
Context {W SP : Type} (K : Kernel W SP).

(** [pages] are the first [page_count] elements of the array. *)
Record Image := mkImage {
  i_space : option SP; i_entry : Z; i_pages : list (Z * Z); i_loaded : bool }.

Definition empty_image : Image := mkImage None 0 [] false.

Definition page_count (image : Image) : Z := Z.of_nat (length (i_pages image)).

(** Byte stores at consecutive addresses. *)
Fixpoint store_bytes (w : W) (address : Z) (l : list Z) : W :=
  match l with
  | [] => w
  | b :: l' => store_bytes (k_store K w address b) (address + 1) l'
  end.

Definition zero_page (w : W) (page : Z) : W := store_bytes w page (replicate (Z.to_nat PAGE_SIZE) 0).

Definition copy_bytes (w : W) (destination : Z) (source : list Z) (size : Z) : W :=
  store_bytes w destination (take (Z.to_nat size) source).

(** [initial_data] is the memory from the pointer on. *)
Definition map_page (w : W) (image : Image) (va flags : Z) (initial_data : option (list Z))
    (initial_offset initial_size : Z) : W * Image * Status :=
  match i_space image with
  | None => (w, image, InvalidArgument)
  | Some space =>
    if (MAX_IMAGE_PAGES <=? page_count image) || negb (Z.land va kPageMask =? 0) ||
       (va <? USER_REGION_BASE) || (USER_REGION_END <=? va) ||
       (PAGE_SIZE <? initial_offset) || (PAGE_SIZE - initial_offset <? initial_size) ||
       (negb (initial_size =? 0) && bool_decide (initial_data = None))
    then (w, image, InvalidArgument) else
    let '(w, frame) := k_alloc_frame K w in
    if frame =? 0 then (w, image, OutOfMemory) else
    let w := zero_page w frame in
    let w := if negb (initial_size =? 0)
             then copy_bytes w (frame + initial_offset) (default [] initial_data) initial_size else w in
    let flags := Z.lor flags VirtualMemory.User in
    let '(w, map_status) := k_map_page K space w va frame flags in
    if negb (bool_decide (map_status = VirtualMemory.Ok))
    then (k_free_frame K w frame, image, MappingFailed)
    else (w, mkImage (i_space image) (i_entry image) (i_pages image ++ [(va, frame)]) (i_loaded image), Ok)
  end.

(** The loop of [unload] over the pages, the last first. *)
Fixpoint unload_pages (space : SP) (w : W) (reversed : list (Z * Z)) (result : Status) : W * Status :=
  match reversed with
  | [] => (w, result)
  | (va, frame) :: rest =>
    let '(w, status, removed) := k_unmap_page K space w va in
    let physical := match removed with Some m => VirtualMemory.m_physical m | None => 0 end in
    if negb (bool_decide (status = VirtualMemory.Ok)) || negb (physical =? frame)
    then unload_pages space w rest UnmapFailed
    else unload_pages space (k_free_frame K w frame) rest result
  end.

Definition unload (w : W) (image : option Image) : W * option Image * Status :=
  match image with
  | None => (w, None, InvalidArgument)
  | Some image =>
    match i_space image with
    | None => (w, Some image, InvalidArgument)
    | Some space =>
      let '(w, result) := unload_pages space w (rev (i_pages image)) Ok in
      (w, Some empty_image, result)
    end
  end.

(** The flags of a segment. *)
Definition segment_flags (program : ProgramHeader) : Z :=
  let flags := 0 in
  let flags := if negb (Z.land (ph_flags program) kFlagWrite =? 0) then Z.lor flags VirtualMemory.Writable else flags in
  if Z.land (ph_flags program) kFlagExecute =? 0 then Z.lor flags VirtualMemory.NoExecute else flags.

(** The loop over the pages of a segment; [None] when the fuel runs out. *)
Fixpoint load_pages (fuel : nat) (bytes : list Z) (program : ProgramHeader) (flags mapped_end page : Z)
    (w : W) (output : Image) : option (W * Image * Status) :=
  match fuel with
  | O => None
  | S fuel =>
    if negb (page <? mapped_end) then Some (w, output, Ok) else
    let file_end_virtual := virtual_address program ⊕ file_size program in
    let copy_begin := if virtual_address program <? page then page else virtual_address program in
    let page_end := page ⊕ PAGE_SIZE in
    let copy_end := if page_end <? file_end_virtual then page_end else file_end_virtual in
    let copy_size := if copy_begin <? copy_end then copy_end ⊖ copy_begin else 0 in
    let source_offset := ph_offset program ⊕ (copy_begin ⊖ virtual_address program) in
    let data := if copy_size =? 0 then None else Some (drop (Z.to_nat source_offset) bytes) in
    let '(w, output, map_status) := map_page w output page flags data (copy_begin ⊖ page) copy_size in
    if negb (bool_decide (map_status = Ok)) then
      let '(w, image, _) := unload w (Some output) in
      Some (w, default output image, map_status)
    else load_pages fuel bytes program flags mapped_end (page ⊕ PAGE_SIZE) w output
  end.

(** A segment has at most [MAX_IMAGE_PAGES] pages; one more turn ends the loop. *)
Definition segment_fuel : nat := Z.to_nat (MAX_IMAGE_PAGES + 1).

Fixpoint load_segments (bytes : list Z) (programs : list ProgramHeader) (w : W) (output : Image)
    : option (W * Image * Status) :=
  match programs with
  | [] => Some (w, output, Ok)
  | program :: rest =>
    if negb (ph_type program =? kProgramLoad) || (memory_size program =? 0)
    then load_segments bytes rest w output else
    let memory_end := virtual_address program ⊕ memory_size program in
    let mapped_end := default 0 (align_up memory_end) in
    match load_pages segment_fuel bytes program (segment_flags program) mapped_end
            (align_down (virtual_address program)) w output with
    | None => None
    | Some (w, output, Ok) => load_segments bytes rest w output
    | Some (w, output, status) => Some (w, output, status)
    end
  end.

(** [output] tells whether the caller passed an image; the image that it holds
    afterwards ([None] when the call returned before clearing it). *)
Definition load (w : W) (bytes : option (list Z)) (address_space : option SP) (output : bool)
    : option (W * option Image * Status) :=
  match address_space with
  | None => Some (w, None, InvalidArgument)
  | Some space =>
    if negb output || negb (k_initialized K space) then Some (w, None, InvalidArgument) else
    match validate bytes with
    | (Ok, entry_point) =>
      let bytes := default [] bytes in
      match load_segments bytes (programs_from bytes (header_from bytes)) w
              (mkImage (Some space) entry_point [] false) with
      | None => None
      | Some (w, image, Ok) => Some (w, Some (mkImage (i_space image) (i_entry image) (i_pages image) true), Ok)
      | Some (w, image, status) => Some (w, Some image, status)
      end
    | (status, _) => Some (w, Some empty_image, status)
    end
  end.

Definition map_anonymous_page (w : W) (image : option Image) (va flags : Z) (initial_data : option (list Z))
    (initial_size : Z) : W * option Image * Status :=
  match image with
  | None => (w, None, InvalidArgument)
  | Some image =>
    if negb (i_loaded image) then (w, Some image, InvalidArgument) else
    let '(w, image, status) := map_page w image va flags initial_data 0 initial_size in
    (w, Some image, status)
  end.

(** Lines 448-450: the last page takes the place of the removed one. *)
Definition remove_page (pages : list (Z * Z)) (index : nat) : list (Z * Z) :=
  let last_index := (length pages - 1)%nat in
  take last_index (<[index := default (0, 0) (pages !! last_index)]> pages).

Definition unmap_owned_page (w : W) (image : option Image) (va : Z) : W * option Image * Status :=
  match image with
  | None => (w, None, InvalidArgument)
  | Some image =>
    match i_space image with
    | None => (w, Some image, InvalidArgument)
    | Some space =>
      if negb (Z.land va kPageMask =? 0) then (w, Some image, InvalidArgument) else
      match find_index (fun page => fst page =? va) (i_pages image) with
      | None => (w, Some image, InvalidArgument)
      | Some index =>
        let '(page_va, frame) := default (0, 0) (i_pages image !! index) in
        let '(w, status, removed) := k_unmap_page K space w page_va in
        let physical := match removed with Some m => VirtualMemory.m_physical m | None => 0 end in
        if negb (bool_decide (status = VirtualMemory.Ok)) || negb (physical =? frame)
        then (w, Some image, UnmapFailed)
        else
          (k_free_frame K w frame,
           Some (mkImage (i_space image) (i_entry image) (remove_page (i_pages image) index) (i_loaded image)), Ok)
      end
    end
  end.

End loader.
Arguments mkImage {SP}.
Arguments empty_image {SP}.

(** ** Arithmetic *)

Lemma little_endian_range l : Forall is_u8 l -> 0 <= little_endian l < 256 ^ Z.of_nat (length l).
Proof.
  induction 1 as [|b l Hb _ IH]; cbn [little_endian length]; [lia|].
  rewrite Nat2Z.inj_succ, Z.pow_succ_r by lia. unfold is_u8 in Hb. lia.
Qed.

Lemma field_range bytes off n : Forall is_u8 bytes -> 0 <= field bytes off n < 256 ^ Z.of_nat n.
Proof.
  intros H. unfold field.
  pose proof (little_endian_range (take n (drop (Z.to_nat off) bytes))
    ltac:(by apply Forall_take, Forall_drop)) as Hr.
  rewrite length_take in Hr. split; [lia|].
  eapply Z.lt_le_trans; [apply Hr|]. apply Z.pow_le_mono_r; lia.
Qed.

Lemma page_mask : not64 kPageMask = Z.shiftl (2 ^ 52 - 1) 12.
Proof. reflexivity. Qed.

Lemma align_down_eq v : is_u64 v -> align_down v = v / PAGE_SIZE * PAGE_SIZE.
Proof.
  intros Hv. unfold align_down. rewrite page_mask, land_field by lia.
  change (2 ^ 12) with PAGE_SIZE. rewrite (Z.mod_small (v / PAGE_SIZE)); [done|].
  unfold is_u64, PAGE_SIZE in *. zdm.
Qed.

Lemma add_overflows_Some a b c : add_overflows a b = Some c <-> a + b <= UINT64_MAX /\ c = a + b.
Proof. unfold add_overflows. destruct (Z.ltb_spec (UINT64_MAX - b) a); naive_solver lia. Qed.

Lemma add_overflows_ok a b : a + b <= UINT64_MAX -> add_overflows a b = Some (a + b).
Proof. intros. by apply add_overflows_Some. Qed.

Lemma align_up_eq v : 0 <= v -> v + (PAGE_SIZE - 1) <= UINT64_MAX ->
  align_up v = Some ((v + (PAGE_SIZE - 1)) / PAGE_SIZE * PAGE_SIZE).
Proof.
  intros Hv Hle. unfold align_up, kPageMask. rewrite add_overflows_ok by done.
  f_equal. apply align_down_eq. unfold PAGE_SIZE in *. word_lia.
Qed.

Lemma land_page_mask v : Z.land v kPageMask = v mod PAGE_SIZE.
Proof. unfold kPageMask. change PAGE_SIZE with (2 ^ 12). apply land_low. lia. Qed.

Lemma known_flags f : 0 <= f < 2 ^ 32 -> Z.land f (u32 (Z.lnot kKnownSegmentFlags)) = 0 <-> f < 8.
Proof.
  intros Hf. replace (u32 (Z.lnot kKnownSegmentFlags)) with (Z.shiftl (2 ^ 29 - 1) 3) by reflexivity.
  rewrite land_field by lia. change (2 ^ 3) with 8. change (2 ^ 29) with 536870912.
  change (2 ^ 32) with 4294967296 in Hf. zdm.
Qed.

Lemma power_of_two_small v : is_u64 v ->
  (is_power_of_two v = true /\ v <= PAGE_SIZE) <-> exists k, 0 <= k <= 12 /\ v = 2 ^ k.
Proof.
  intros Hv. split.
  - intros [H Hle]. destruct (is_power_of_two_sound v Hv H) as (k & Hk & ->). exists k. split; [|done].
    split; [lia|]. apply (Z.pow_le_mono_r_iff 2); [lia..|]. exact Hle.
  - intros (k & Hk & ->). split; [|apply (Z.pow_le_mono_r 2 k 12); lia].
    unfold is_power_of_two. rewrite u64_small; cycle 1.
    { pose proof (Z.pow_pos_nonneg 2 k). unfold is_u64 in *. lia. }
    rewrite land_low, Z.mod_same by (try apply Z.pow_nonzero; lia).
    destruct (Z.eqb_spec (2 ^ k) 0) as [E|]; [|done]. pose proof (Z.pow_pos_nonneg 2 k). lia.
Qed.

(** Both bits of a mask are set. *)
Lemma write_execute f : 0 <= f ->
  Z.land f (Z.lor kFlagWrite kFlagExecute) = Z.lor kFlagWrite kFlagExecute <->
  Z.testbit f 0 = true /\ Z.testbit f 1 = true.
Proof.
  intros Hf. change (Z.lor kFlagWrite kFlagExecute) with (2 ^ 2 - 1). rewrite land_low by lia.
  rewrite !Z.testbit_true by lia. change (2 ^ 0) with 1. change (2 ^ 1) with 2. change (2 ^ 2) with 4.
  rewrite Z.div_1_r. zdm.
Qed.

Lemma flag_bit f k : 0 <= k -> negb (Z.land f (Z.shiftl 1 k) =? 0) = Z.testbit f k.
Proof. intros. rewrite testbit_land_pow2 by done. apply negb_involutive. Qed.

(** ** What validation accepts *)

(** The entries that are loaded. *)
Definition loads (program : ProgramHeader) : bool :=
  (ph_type program =? kProgramLoad) && negb (memory_size program =? 0).

Definition segments (programs : list ProgramHeader) : list ProgramHeader :=
  base.filter (fun p => loads p = true) programs.

Definition memory_end (p : ProgramHeader) : Z := virtual_address p + memory_size p.
Definition first_page (p : ProgramHeader) : Z := virtual_address p / PAGE_SIZE.
(** One past the last page. *)
Definition last_page (p : ProgramHeader) : Z := (memory_end p + (PAGE_SIZE - 1)) / PAGE_SIZE.

Definition writable (p : ProgramHeader) : bool := Z.testbit (ph_flags p) 1.
Definition executable (p : ProgramHeader) : bool := Z.testbit (ph_flags p) 0.

(** A segment that may be loaded from a file of [size] bytes. *)
Record good_segment (size : Z) (p : ProgramHeader) : Prop := {
  gs_flags : ph_flags p < 8;
  gs_write_xor_execute : writable p = true -> executable p = true -> False;
  gs_file_size : file_size p <= memory_size p;
  gs_alignment : alignment p = 0 \/ exists k, 0 <= k <= 12 /\ alignment p = 2 ^ k;
  gs_congruent : virtual_address p mod PAGE_SIZE = ph_offset p mod PAGE_SIZE;
  gs_file : ph_offset p + file_size p <= size;
  gs_begin : USER_REGION_BASE <= virtual_address p;
  gs_end : memory_end p <= USER_REGION_END }.

(** The pages of two segments do not meet. *)
Definition apart (p q : ProgramHeader) : Prop := last_page p <= first_page q \/ last_page q <= first_page p.

Definition sum_pages (l : list ProgramHeader) : Z := foldr (fun p n => last_page p - first_page p + n) 0 l.

Definition starts_in (entry_point : Z) (p : ProgramHeader) : Prop :=
  executable p = true /\ virtual_address p <= entry_point < memory_end p.

Record good_programs (size entry_point : Z) (programs : list ProgramHeader) : Prop := {
  gp_types : forall p, p ∈ programs -> ignored_program p = true \/ ph_type p = kProgramLoad;
  gp_segments : forall p, p ∈ segments programs -> good_segment size p;
  gp_apart : ForallOrdPairs apart (segments programs);
  gp_pages : sum_pages (segments programs) <= MAX_IMAGE_PAGES;
  gp_entry : exists p, p ∈ segments programs /\ starts_in entry_point p }.

(** The fields are machine words. *)
Record program_words (p : ProgramHeader) : Prop := {
  pw_flags : 0 <= ph_flags p < 2 ^ 32;
  pw_offset : is_u64 (ph_offset p);
  pw_address : is_u64 (virtual_address p);
  pw_file : is_u64 (file_size p);
  pw_memory : is_u64 (memory_size p);
  pw_align : is_u64 (alignment p) }.

Lemma program_at_words bytes off : Forall is_u8 bytes -> program_words (program_at bytes off).
Proof.
  intros H. assert (forall o, is_u64 (field bytes o 8)) as H8.
  { intros o. apply (field_range bytes o 8 H). }
  split; try apply H8. apply (field_range bytes (off + 4) 4 H).
Qed.

Lemma check_segment_inr size p me mb mp :
  size <= UINT64_MAX -> program_words p -> memory_size p ≠ 0 ->
  check_segment size p = inr (me, mb, mp) <->
  good_segment size p /\ me = memory_end p /\ mb = first_page p * PAGE_SIZE /\ mp = last_page p * PAGE_SIZE.
Proof.
  intros Hsz [Hf Ho Hv Hfs Hm Ha] Hm0. unfold check_segment.
  pose proof (known_flags _ Hf) as Hk. pose proof (write_execute _ (proj1 Hf)) as Hwx.
  pose proof (power_of_two_small _ Ha) as Hp2.
  assert (Z.land (virtual_address p ⊖ ph_offset p) kPageMask = 0 <->
    virtual_address p mod PAGE_SIZE = ph_offset p mod PAGE_SIZE) as Hcong.
  { rewrite land_page_mask. unfold u64, PAGE_SIZE. change (2 ^ 64) with 18446744073709551616. clear. zdm. }
  split.
  - intros H.
    destruct (Z.eqb_spec (Z.land (ph_flags p) (u32 (Z.lnot kKnownSegmentFlags))) 0) as [E1|]; [|done]. cbn [negb orb] in H.
    destruct (Z.ltb_spec (memory_size p) (file_size p)) as [|E2]; [done|]. cbn [negb orb] in H.
    destruct (negb (alignment p =? 0) && _) eqn:E3; [done|]. cbn [negb orb] in H.
    destruct (Z.eqb_spec (Z.land (virtual_address p ⊖ ph_offset p) kPageMask) 0) as [E4|]; [|done]. cbn [negb orb] in H.
    destruct (Z.eqb_spec (Z.land (ph_flags p) (Z.lor kFlagWrite kFlagExecute)) (Z.lor kFlagWrite kFlagExecute)) as [|E5]; [done|].
    destruct (add_overflows (ph_offset p) (file_size p)) as [fe|] eqn:E6; [|done].
    apply add_overflows_Some in E6 as [_ ->].
    destruct (Z.ltb_spec size (ph_offset p + file_size p)) as [|E7]; [done|].
    destruct (add_overflows (virtual_address p) (memory_size p)) as [e|] eqn:E8; [|done].
    apply add_overflows_Some in E8 as [E8 ->].
    destruct (Z.ltb_spec (virtual_address p) USER_REGION_BASE) as [|E9]; [done|].
    destruct (Z.ltb_spec USER_REGION_END (virtual_address p + memory_size p)) as [|E10]; [done|].
    destruct (Z.leb_spec (virtual_address p + memory_size p) (virtual_address p)) as [|E11]; [done|]. cbn [orb] in H.
    assert (virtual_address p + memory_size p + (PAGE_SIZE - 1) <= UINT64_MAX) as Hu.
    { unfold USER_REGION_END, USER_REGION_BASE, USER_REGION_SIZE, PAGE_SIZE in *. word_lia. }
    rewrite align_up_eq in H by (unfold is_u64 in *; lia || done).
    rewrite align_down_eq in H by done.
    apply (inj inr), pair_equal_spec in H as [[<- <-]%pair_equal_spec <-]. split; [|done]. split; try done.
    + by apply Hk.
    + intros Hw Hx. apply E5, Hwx. done.
    + destruct (Z.eqb_spec (alignment p) 0); [by left|]. right. apply Hp2. cbn [negb andb] in E3.
      apply orb_false_iff in E3 as [E3 E3']. apply negb_false_iff in E3. split; [done|]. apply Z.ltb_ge in E3'. done.
    + by apply Hcong.
  - intros ([G1 G2 G3 G4 G5 G6 G7 G8] & -> & -> & ->). unfold memory_end in *.
    rewrite (proj2 Hk G1). cbn [negb orb Z.eqb].
    destruct (Z.ltb_spec (memory_size p) (file_size p)); [lia|]. cbn [negb orb].
    assert (negb (alignment p =? 0) && (negb (is_power_of_two (alignment p)) || (PAGE_SIZE <? alignment p)) = false) as ->.
    { destruct G4 as [->|G4]; [done|]. apply Hp2 in G4 as [-> G4]. apply Z.ltb_ge in G4. rewrite G4. by rewrite andb_false_r. }
    rewrite (proj2 Hcong G5). cbn [negb orb Z.eqb].
    destruct (Z.eqb_spec (Z.land (ph_flags p) (Z.lor kFlagWrite kFlagExecute)) (Z.lor kFlagWrite kFlagExecute)) as [E|].
    { apply Hwx in E as [? ?]. by destruct G2. }
    assert (virtual_address p + memory_size p + (PAGE_SIZE - 1) <= UINT64_MAX) as Hu.
    { clear - G8. unfold USER_REGION_END, USER_REGION_BASE, USER_REGION_SIZE, PAGE_SIZE in *. word_lia. }
    rewrite add_overflows_ok by lia.
    destruct (Z.ltb_spec size (ph_offset p + file_size p)); [lia|].
    rewrite add_overflows_ok by (unfold PAGE_SIZE in *; lia).
    destruct (Z.ltb_spec (virtual_address p) USER_REGION_BASE); [lia|].
    destruct (Z.ltb_spec USER_REGION_END (virtual_address p + memory_size p)); [lia|].
    destruct (Z.leb_spec (virtual_address p + memory_size p) (virtual_address p)); [unfold is_u64 in *; lia|].
    cbn [orb]. rewrite align_up_eq by (unfold is_u64 in *; lia || done). by rewrite align_down_eq.
Qed.

(** The range of pages of a good segment. *)
Lemma good_span size p :
  program_words p -> memory_size p ≠ 0 -> good_segment size p ->
  USER_REGION_BASE / PAGE_SIZE <= first_page p < last_page p /\ last_page p <= USER_REGION_END / PAGE_SIZE /\
  first_page p * PAGE_SIZE <= virtual_address p /\ memory_end p <= last_page p * PAGE_SIZE.
Proof.
  intros Hw Hm Hg. pose proof (gs_begin _ _ Hg) as Hb. pose proof (gs_end _ _ Hg) as He.
  pose proof (pw_memory _ Hw) as Hr. unfold is_u64 in Hr. clear Hw Hg.
  unfold first_page, last_page, memory_end, USER_REGION_END, USER_REGION_BASE, USER_REGION_SIZE, PAGE_SIZE in *.
  zdm.
Qed.

Lemma segments_loads p l : p ∈ segments l <-> loads p = true /\ p ∈ l.
Proof. unfold segments. by rewrite list_elem_of_filter. Qed.

Lemma loads_iff p : loads p = true <-> ph_type p = kProgramLoad /\ memory_size p ≠ 0.
Proof.
  unfold loads. rewrite andb_true_iff, negb_true_iff, Z.eqb_eq, Z.eqb_neq. done.
Qed.

Lemma segments_cons p l :
  segments (p :: l) = if loads p then p :: segments l else segments l.
Proof. unfold segments. rewrite filter_cons. by destruct (loads p). Qed.

(** The inner loop compares with the earlier segments. *)
Lemma check_overlap_ok size p others :
  program_words p -> memory_size p ≠ 0 -> good_segment size p ->
  (forall q, q ∈ others -> program_words q) -> (forall q, q ∈ segments others -> good_segment size q) ->
  check_overlap p (memory_end p) (first_page p * PAGE_SIZE) (last_page p * PAGE_SIZE) others = Ok <->
  forall q, q ∈ segments others -> apart q p.
Proof.
  intros Hw Hm Hg. induction others as [|o others IH]; intros Hws Hgs.
  { split; [|done]. intros _ q Hq. by apply elem_of_nil in Hq. }
  assert (forall q, q ∈ others -> program_words q) as Hws' by (intros q Hq; apply Hws; by constructor).
  cbn [check_overlap]. rewrite segments_cons in Hgs. rewrite segments_cons.
  destruct (loads o) eqn:El.
  - apply loads_iff in El as [Et Em].
    assert (good_segment size o) as Hgo by (apply Hgs; constructor).
    assert (program_words o) as Hwo by (apply Hws; constructor).
    rewrite (proj2 (Z.eqb_eq _ _) Et), (proj2 (Z.eqb_neq _ _) Em). cbn [negb orb].
    pose proof (good_span _ _ Hwo Em Hgo) as (So1 & So2 & So3 & So4).
    pose proof (good_span _ _ Hw Hm Hg) as (S1 & S2 & S3 & S4).
    assert (memory_end o + (PAGE_SIZE - 1) <= UINT64_MAX) as Hu.
    { pose proof (gs_end _ _ Hgo) as H. clear - H.
      unfold USER_REGION_END, USER_REGION_BASE, USER_REGION_SIZE, PAGE_SIZE in *. word_lia. }
    assert (0 <= memory_end o) as Hpos.
    { pose proof (pw_address _ Hwo). pose proof (pw_memory _ Hwo). unfold memory_end, is_u64 in *. lia. }
    rewrite add_overflows_ok by (unfold memory_end, PAGE_SIZE in *; lia). fold (memory_end o).
    rewrite align_up_eq by done. rewrite align_down_eq by apply (pw_address _ Hwo).
    fold (last_page o) (first_page o).
    assert (forall Q : Prop, (forall q, q ∈ o :: segments others -> apart q p) <->
      apart o p /\ forall q, q ∈ segments others -> apart q p) as Hsplit.
    { intros _. setoid_rewrite elem_of_cons. naive_solver. }
    rewrite (Hsplit True), <- IH; [|done|intros q Hq; apply Hgs; by constructor].
    clear IH Hsplit Hgs Hws Hws'. unfold apart. revert So1 So2 So3 So4 S1 S2 S3 S4.
    generalize (memory_end o) (first_page o) (last_page o) (memory_end p) (first_page p) (last_page p)
      (virtual_address o) (virtual_address p). intros eo fo lo e f l vo v. intros.
    destruct (Z.ltb_spec v eo), (Z.ltb_spec vo e); cbn [andb];
      destruct (Z.ltb_spec (f * PAGE_SIZE) (lo * PAGE_SIZE)), (Z.ltb_spec (fo * PAGE_SIZE) (l * PAGE_SIZE)); cbn [andb];
      unfold PAGE_SIZE in *; (split; [intros Hc|intros [Hc Hc']]); try done; try (split; [lia|done]); lia.
  - unfold loads in El. rewrite <- (negb_involutive (ph_type o =? kProgramLoad)), <- negb_orb in El.
    apply negb_false_iff in El. rewrite El. by apply IH.
Qed.

(** The pages a segment adds to the count. *)
Lemma segment_page_count size p :
  program_words p -> memory_size p ≠ 0 -> good_segment size p ->
  (last_page p * PAGE_SIZE ⊖ first_page p * PAGE_SIZE) / PAGE_SIZE = last_page p - first_page p.
Proof.
  intros Hw Hm Hg. destruct (good_span _ _ Hw Hm Hg) as (H1 & H2 & _ & _).
  assert (0 <= USER_REGION_BASE / PAGE_SIZE /\ USER_REGION_END / PAGE_SIZE < 2 ^ 40) as [H3 H4] by done.
  rewrite u64_small.
  - unfold PAGE_SIZE. zdm.
  - unfold is_u64, PAGE_SIZE in *. change (2 ^ 40) with 1099511627776 in *. change (2 ^ 64) with 18446744073709551616. lia.
Qed.

Lemma sum_pages_nonneg size l :
  (forall p, p ∈ l -> program_words p /\ memory_size p ≠ 0 /\ good_segment size p) -> 0 <= sum_pages l.
Proof.
  induction l as [|p l IH]; intros H; cbn [sum_pages foldr]; [done|].
  destruct (H p) as (Hw & Hm & Hg); [constructor|]. destruct (good_span _ _ Hw Hm Hg) as (? & _).
  fold (sum_pages l). assert (0 <= sum_pages l); [|lia]. apply IH. intros q Hq. apply H. by constructor.
Qed.

(** The outer loop, from a prefix of good segments. *)
Lemma check_segment_good size p :
  size <= UINT64_MAX -> program_words p -> memory_size p ≠ 0 -> good_segment size p ->
  check_segment size p = inr (memory_end p, first_page p * PAGE_SIZE, last_page p * PAGE_SIZE).
Proof. intros Hsz Hw Hm Hg. by apply check_segment_inr. Qed.

Lemma starts_in_test e p : 
  negb (Z.land (ph_flags p) kFlagExecute =? 0) && (virtual_address p <=? e) && (e <? memory_end p) = true <->
  starts_in e p.
Proof.
  change kFlagExecute with (Z.shiftl 1 0). rewrite flag_bit, !andb_true_iff, Z.leb_le, Z.ltb_lt by done.
  unfold starts_in, executable. tauto.
Qed.

Lemma ignored_not_load p : ignored_program p = true -> ph_type p ≠ kProgramLoad.
Proof. unfold ignored_program. intros H E. rewrite E in H. done. Qed.

Lemma supported_load p : unsupported_program p = false <-> ph_type p = kProgramLoad.
Proof.
  unfold unsupported_program. rewrite orb_false_iff, negb_false_iff, Z.eqb_eq. split; [tauto|].
  intros E. by rewrite E.
Qed.

(** What the rest of the loop must find, given the segments [ps] seen so far. *)
Record good_rest (size e : Z) (ps programs : list ProgramHeader) (fl ex : bool) (count : Z) : Prop := {
  gr_types : forall p, p ∈ programs -> ignored_program p = true \/ ph_type p = kProgramLoad;
  gr_segments : forall p, p ∈ segments programs -> good_segment size p;
  gr_before : forall p q, p ∈ segments programs -> q ∈ ps -> apart q p;
  gr_apart : ForallOrdPairs apart (segments programs);
  gr_pages : count + sum_pages (segments programs) <= MAX_IMAGE_PAGES;
  gr_found : fl = true \/ segments programs ≠ [];
  gr_entry : ex = true \/ exists p, p ∈ segments programs /\ starts_in e p }.

Lemma segments_app l l' : segments (l ++ l') = segments l ++ segments l'.
Proof. apply filter_app. Qed.

Lemma good_rest_skip size e ps p rest fl ex count :
  loads p = false -> (ignored_program p = true \/ ph_type p = kProgramLoad) ->
  good_rest size e ps (p :: rest) fl ex count <-> good_rest size e ps rest fl ex count.
Proof.
  intros Hl Ht. assert (segments (p :: rest) = segments rest) as E by (by rewrite segments_cons, Hl).
  split; intros [H1 H2 H3 H4 H5 H6 H7]; rewrite ?E in *; (split; try done; rewrite ?E; try done).
  - intros q Hq. apply H1. by constructor.
  - intros q [-> |Hq]%elem_of_cons; auto.
Qed.

Lemma good_rest_step size e ps p rest fl ex count :
  loads p = true -> ph_type p = kProgramLoad ->
  good_rest size e ps (p :: rest) fl ex count <->
  good_segment size p /\ (forall q, q ∈ ps -> apart q p) /\
  good_rest size e (ps ++ [p]) rest true
    (ex || (negb (Z.land (ph_flags p) kFlagExecute =? 0) && (virtual_address p <=? e) && (e <? memory_end p)))
    (count + (last_page p - first_page p)).
Proof.
  intros Hl Ht. assert (segments (p :: rest) = p :: segments rest) as E by (by rewrite segments_cons, Hl).
  split.
  - intros [H1 H2 H3 H4 H5 H6 H7]. rewrite E in *. split; [apply H2; constructor|]. split.
    { intros q Hq. apply H3; [constructor|done]. }
    inversion_clear H4 as [|? ? Hp Hr]. rewrite Forall_forall in Hp. split; try done.
    + intros q Hq. apply H1. by constructor.
    + intros q Hq. apply H2. by constructor.
    + intros r q Hr' [Hq| ->%list_elem_of_singleton]%elem_of_app.
      * apply H3; [by constructor|done].
      * by apply Hp.
    + cbn [sum_pages foldr] in H5. fold (sum_pages (segments rest)) in H5. lia.
    + by left.
    + destruct H7 as [-> |(r & [-> |Hr']%elem_of_cons & Hs)]; [by left| |right; by exists r].
      left. apply orb_true_iff. right. by apply starts_in_test.
  - intros (Hg & Hb & [H1 H2 H3 H4 H5 H6 H7]). split; rewrite ?E; try done.
    + intros q [-> |Hq]%elem_of_cons; auto.
    + intros q [-> |Hq]%elem_of_cons; auto.
    + intros r q [-> |Hr]%elem_of_cons Hq; [by apply Hb|]. apply H3; [done|]. apply elem_of_app. by left.
    + constructor; [|done]. rewrite Forall_forall. intros r Hr.
      apply H3; [done|]. apply elem_of_app. right. by apply list_elem_of_singleton.
    + cbn [sum_pages foldr]. fold (sum_pages (segments rest)). lia.
    + by right.
    + destruct H7 as [[-> |Hs%starts_in_test]%orb_true_iff|(r & Hr & Hs)]; [by left|right..].
      * exists p. split; [constructor|done].
      * exists r. split; [by constructor|done].
Qed.

Lemma good_rest_nil size e ps fl ex count :
  count <= MAX_IMAGE_PAGES -> good_rest size e ps [] fl ex count <-> fl = true /\ ex = true.
Proof.
  intros Hc. split.
  - intros [_ _ _ _ _ H6 H7]. destruct H6 as [-> |[]], H7 as [-> |(p & Hp & _)]; try done. by apply elem_of_nil in Hp.
  - intros [-> ->]. split.
    + intros p Hp. by apply elem_of_nil in Hp.
    + intros p Hp. by apply elem_of_nil in Hp.
    + intros p q Hp. by apply elem_of_nil in Hp.
    + constructor.
    + cbn. lia.
    + by left.
    + by left.
Qed.

Lemma validate_loop_ok size e programs : forall previous fl ex count,
  size <= UINT64_MAX -> count <= MAX_IMAGE_PAGES ->
  (forall p, p ∈ previous -> program_words p) -> (forall p, p ∈ programs -> program_words p) ->
  (forall p, p ∈ segments previous -> good_segment size p) ->
  validate_loop size e previous programs fl ex count = Ok <->
  good_rest size e (segments previous) programs fl ex count.
Proof.
  induction programs as [|p rest IH]; intros previous fl ex count Hsz Hc Hwp Hw Hg; cbn [validate_loop].
  { rewrite good_rest_nil by done. rewrite <- andb_true_iff. by destruct (fl && ex). }
  assert (program_words p) as Hp by (apply Hw; constructor).
  assert (forall q, q ∈ rest -> program_words q) as Hw' by (intros q Hq; apply Hw; by constructor).
  assert (forall q, q ∈ previous ++ [p] -> program_words q) as Hwp'.
  { intros q [Hq| ->%list_elem_of_singleton]%elem_of_app; auto. }
  assert (loads p = false -> segments (previous ++ [p]) = segments previous) as Hskip.
  { intros El. rewrite segments_app, segments_cons, El. apply app_nil_r. }
  destruct (ignored_program p) eqn:Ei.
  { assert (loads p = false) as El.
    { apply not_true_iff_false. intros [E _]%loads_iff. by apply ignored_not_load in Ei. }
    rewrite good_rest_skip, <- (Hskip El) by auto. apply IH; try done. by rewrite Hskip. }
  destruct (unsupported_program p) eqn:Eu.
  { split; [done|]. intros H. destruct (gr_types _ _ _ _ _ _ _ H p) as [|E]; [constructor|congruence|].
    apply supported_load in E. congruence. }
  apply supported_load in Eu. destruct (Z.eqb_spec (memory_size p) 0) as [Em|Em].
  { assert (loads p = false) as El by (apply not_true_iff_false; by intros [_ ?]%loads_iff).
    rewrite good_rest_skip, <- (Hskip El) by auto. apply IH; try done. by rewrite Hskip. }
  assert (loads p = true) as El by (by apply loads_iff).
  assert (segments (previous ++ [p]) = segments previous ++ [p]) as Es by (by rewrite segments_app, segments_cons, El).
  rewrite good_rest_step, <- Es by done.
  destruct (check_segment size p) as [st|[[me mb] mp]] eqn:Ecs.
  { split.
    - intros ->. exfalso. revert Ecs. unfold check_segment. clear. intros. split_cases.
    - intros (Hgood & _). rewrite check_segment_good in Ecs by done. done. }
  apply check_segment_inr in Ecs as (Hgood & -> & -> & ->); [|done..].
  rewrite (segment_page_count size) by done.
  destruct (Z.ltb_spec (MAX_IMAGE_PAGES - count) (last_page p - first_page p)) as [Hov|Hfit].
  { split; [done|]. intros (_ & _ & H). pose proof (gr_pages _ _ _ _ _ _ _ H) as H5.
    assert (0 <= sum_pages (segments rest)); [|lia]. apply (sum_pages_nonneg size).
    intros q Hq. pose proof Hq as [[_ ?]%loads_iff Hq']%segments_loads. split; [by apply Hw'|]. split; [done|].
    by apply (gr_segments _ _ _ _ _ _ _ H). }
  pose proof (check_overlap_ok size p previous Hp Em Hgood Hwp Hg) as Hov.
  assert (forall q, q ∈ segments (previous ++ [p]) -> good_segment size q) as Hg'.
  { rewrite Es. intros q [Hq| ->%list_elem_of_singleton]%elem_of_app; auto. }
  specialize (IH (previous ++ [p]) true
    (ex || (negb (Z.land (ph_flags p) kFlagExecute =? 0) && (virtual_address p <=? e) && (e <? memory_end p)))
    (count + (last_page p - first_page p)) Hsz ltac:(lia) Hwp' Hw' Hg').
  rewrite <- IH. clear IH.
  destruct (check_overlap _ _ _ _ _); rewrite <- Hov; try tauto; (split; [done|]); intros (_ & [=] & _).
Qed.

(** The ELF64 header that is accepted. *)
Record good_header (bytes : list Z) : Prop := {
  gh_size : SIZEOF_HEADER <= Z.of_nat (length bytes);
  (** magic, 64-bit class, little endian, version 1 *)
  gh_identification : take 7 bytes = [0x7F; 69; 76; 70; kElfClass64; kElfDataLittleEndian; kElfVersion];
  gh_type : h_type (header_from bytes) = kExecutable;
  gh_machine : machine (header_from bytes) = kMachineX86_64;
  gh_version : version (header_from bytes) = kElfVersion;
  gh_sizes : header_size (header_from bytes) = SIZEOF_HEADER /\ program_entry_size (header_from bytes) = SIZEOF_PROGRAM;
  gh_count : 1 <= program_count (header_from bytes) <= kMaximumProgramHeaders;
  (** the program table lies after the header and inside the file *)
  gh_table : SIZEOF_HEADER <= program_offset (header_from bytes) /\
    program_offset (header_from bytes) + SIZEOF_PROGRAM * program_count (header_from bytes) <= Z.of_nat (length bytes) }.

Record good_image (bytes : list Z) : Prop := {
  gi_header : good_header bytes;
  gi_programs : good_programs (Z.of_nat (length bytes)) (entry (header_from bytes))
    (programs_from bytes (header_from bytes)) }.

Lemma identification_iff bytes :
  SIZEOF_HEADER <= Z.of_nat (length bytes) ->
  take 7 bytes = [0x7F; 69; 76; 70; kElfClass64; kElfDataLittleEndian; kElfVersion] <->
  let id := byte_at (identification (header_from bytes)) in
  id 0%nat = 0x7F /\ id 1%nat = 69 /\ id 2%nat = 76 /\ id 3%nat = 70 /\ id 4%nat = kElfClass64 /\
  id 5%nat = kElfDataLittleEndian /\ id 6%nat = kElfVersion.
Proof.
  unfold SIZEOF_HEADER. intros H. cbn [identification header_from].
  do 7 (destruct bytes as [|? bytes]; [cbn in H; lia|]). cbn. unfold byte_at. cbn. clear H.
  split; [by intros [=]|]. by intros (-> & -> & -> & -> & -> & -> & ->).
Qed.

Lemma table_ok count : 1 <= count <= kMaximumProgramHeaders ->
  multiply_overflows count SIZEOF_PROGRAM = Some (SIZEOF_PROGRAM * count).
Proof.
  unfold kMaximumProgramHeaders, SIZEOF_PROGRAM. intros H. unfold multiply_overflows.
  destruct (Z.eqb_spec count 0); [lia|]. cbn [negb andb].
  destruct (Z.ltb_spec (SIZE_MAX / count) 56) as [Hlt|].
  - exfalso. apply Z.lt_nge in Hlt. apply Hlt. apply Z.div_le_lower_bound; [lia|]. word_lia.
  - f_equal. rewrite u64_small by word_lia. lia.
Qed.

Lemma validate_header_ok bytes h :
  Forall is_u8 bytes ->
  validate_header (Some bytes) = inr h <-> good_header bytes /\ h = header_from bytes.
Proof.
  intros Hb. pose proof (field_range bytes 56 2 Hb) as Hc.
  change (field bytes 56 2) with (program_count (header_from bytes)) in Hc. unfold validate_header.
  destruct (Z.ltb_spec (Z.of_nat (length bytes)) SIZEOF_HEADER) as [Hs|Hs].
  { split; [done|]. intros [[] _]. lia. }
  pose proof (identification_iff bytes Hs) as Hid. cbv zeta in Hid.
  set (hd := header_from bytes) in *. set (id := byte_at (identification hd)) in *.
  split.
  - intros H.
    repeat match type of H with
    | context [negb (?a =? ?b)] => destruct (Z.eqb_spec a b); [cbn [negb orb] in H|by rewrite ?orb_true_r in H]
    end.
    destruct (Z.eqb_spec (program_count hd) 0); [done|].
    destruct (Z.ltb_spec kMaximumProgramHeaders (program_count hd)); [done|].
    destruct (Z.ltb_spec (program_offset hd) SIZEOF_HEADER); [done|]. cbn [orb] in H.
    rewrite table_ok in H by lia.
    destruct (Z.ltb_spec (Z.of_nat (length bytes)) (program_offset hd)); [done|].
    destruct (Z.ltb_spec (Z.of_nat (length bytes) - program_offset hd) (SIZEOF_PROGRAM * program_count hd)); [done|].
    cbn [orb] in H. simplify_eq. split; [|done].
    split; try done; fold hd; try lia. by apply Hid.
  - intros ([_ G1 G2 G3 G4 [G5 G6] G7 [G8 G9]] & ->). fold hd in G2, G3, G4, G5, G6, G7, G8, G9.
    apply Hid in G1 as (E0 & E1 & E2 & E3 & E4 & E5 & E6).
    rewrite E0, E1, E2, E3, E4, E5, E6, G2, G3, G4, G5, G6. rewrite !Z.eqb_refl. cbn [negb orb].
    destruct (Z.eqb_spec (program_count hd) 0); [lia|].
    destruct (Z.ltb_spec kMaximumProgramHeaders (program_count hd)); [lia|].
    destruct (Z.ltb_spec (program_offset hd) SIZEOF_HEADER); [lia|]. cbn [orb].
    rewrite table_ok by lia.
    destruct (Z.ltb_spec (Z.of_nat (length bytes)) (program_offset hd)).
    { unfold SIZEOF_PROGRAM in *. lia. }
    destruct (Z.ltb_spec (Z.of_nat (length bytes) - program_offset hd) (SIZEOF_PROGRAM * program_count hd)); [lia|].
    done.
Qed.

Lemma programs_words bytes p :
  Forall is_u8 bytes -> p ∈ programs_from bytes (header_from bytes) -> program_words p.
Proof. intros Hb (i & -> & _)%list_elem_of_fmap. by apply program_at_words. Qed.

Lemma good_rest_programs size e programs :
  good_rest size e [] programs false false 0 <-> good_programs size e programs.
Proof.
  split.
  - intros [H1 H2 H3 H4 H5 H6 H7]. split; try done. destruct H7 as [|H7]; done.
  - intros [H1 H2 H3 H4 H5]. split; try done.
    + intros p q _ Hq. by apply elem_of_nil in Hq.
    + right. destruct H5 as (p & Hp & _). intros E. rewrite E in Hp. by apply elem_of_nil in Hp.
    + by right.
Qed.

Lemma validate_programs_ok bytes :
  Forall is_u8 bytes -> Z.of_nat (length bytes) <= UINT64_MAX ->
  validate_programs bytes (header_from bytes) = Ok <->
  good_programs (Z.of_nat (length bytes)) (entry (header_from bytes)) (programs_from bytes (header_from bytes)).
Proof.
  intros Hb Hl. rewrite <- good_rest_programs. apply validate_loop_ok; try done.
  - intros p Hp. by apply elem_of_nil in Hp.
  - intros p Hp. by eapply programs_words.
  - intros p Hp. by apply elem_of_nil in Hp.
Qed.

Lemma validate_ok bytes e :
  Forall is_u8 bytes -> Z.of_nat (length bytes) <= UINT64_MAX ->
  validate (Some bytes) = (Ok, e) <-> good_image bytes /\ e = entry (header_from bytes).
Proof.
  intros Hb Hl. unfold validate. destruct (validate_header (Some bytes)) as [st|h] eqn:Eh.
  - split.
    + intros [-> _]%pair_equal_spec. exfalso. revert Eh. unfold validate_header. clear. intros. split_cases.
    + intros [[Hh _] ->]. rewrite (proj2 (validate_header_ok bytes _ Hb) (conj Hh eq_refl)) in Eh. done.
  - apply validate_header_ok in Eh as [Hh ->]; [|done]. change (default [] (Some bytes)) with bytes.
    pose proof (validate_programs_ok bytes Hb Hl) as Hp.
    destruct (decide (validate_programs bytes (header_from bytes) = Ok)) as [Ep|Ep].
    + rewrite Ep. split; [|by intros [_ ->]]. intros [_ <-]%pair_equal_spec. split; [|done]. split; [done|]. by apply Hp.
    + split.
      * intros H. destruct Ep. by destruct (validate_programs bytes (header_from bytes)); apply pair_equal_spec in H as [? _].
      * intros [[_ Hg] _]. by apply Hp in Hg.
Qed.
