(* ===== verification/ElfImage.v ===== *)
(** * Ownership of the pages of a loaded image (user/elf_loader.cpp)

    What the operations of ElfLoader.v do to the address space, the frames and
    their contents, against the interface of UserMemory.v. *)

From S2P Require Import Prelude FrameAllocator PhysicalMemory VirtualMemory UserMemory ElfLoader.

(** ** The pages of an image *)

(** A page that the image has mapped, with what it was filled with. *)
Record Placed := mkPlaced { pl_va : Z; pl_frame : Z; pl_flags : Z; pl_content : Z -> Z }.

Definition pl_page (p : Placed) : Z * Z := (pl_va p, pl_frame p).

Section ownership.
Context {W SP : Type} {K : Kernel W SP} {sp : SP} {U : UserMemory K sp}.
Implicit Types (w : W) (ps : list Placed).

(** The state [w] is [w0] with the pages [ps] added: their frames are new, nothing
    else has changed in the address space or in the frames that were in use. *)
Record owns w0 w ps : Prop := {
  ow_ok : um_ok w;
  ow_frames : um_frames w = um_frames w0 ∪ list_to_set (pl_frame <$> ps);
  ow_nodup : NoDup (pl_frame <$> ps);
  ow_fresh : forall p, p ∈ ps -> pl_frame p ∉ um_frames w0;
  ow_user : forall p, p ∈ ps -> user_page (pl_va p) /\ um_page w0 (pl_va p) = None;
  ow_distinct : NoDup (pl_va <$> ps);
  ow_mapped : forall p, p ∈ ps -> um_page w (pl_va p) = Some (pl_frame p, pl_flags p);
  ow_others : forall va, page_address va -> va ∉ pl_va <$> ps -> um_page w va = um_page w0 va;
  ow_content : forall p off, p ∈ ps -> 0 <= off < PAGE_SIZE -> k_load K w (pl_frame p + off) = pl_content p off;
  ow_kept : forall a x, a ∈ um_frames w0 -> in_frame a x -> k_load K w x = k_load K w0 x }.

(** The order of the pages does not matter. *)
#[export] Instance owns_proper w0 w : Proper (Permutation ==> iff) (owns w0 w).
Proof.
  assert (forall ps ps', ps ≡ₚ ps' -> owns w0 w ps -> owns w0 w ps') as H.
  { intros ps ps' Hp [H1 H2 H3 H4 H5 H6 H7 H8 H9 H10].
    split; try done; setoid_rewrite <- Hp; done. }
  intros ps ps' Hp. split; by apply H.
Qed.

Lemma owns_nil w : um_ok w -> owns w w [].
Proof.
  intros Hw. split; cbn; try done; try (intros p Hp; by apply elem_of_nil in Hp).
  - set_solver.
  - constructor.
  - constructor.
  - intros p off Hp. by apply elem_of_nil in Hp.
Qed.

(** An image with no pages: everything is as before. *)
Definition restored w0 w : Prop :=
  um_ok w /\ um_frames w = um_frames w0 /\ (forall va, page_address va -> um_page w va = um_page w0 va) /\
  forall a x, a ∈ um_frames w0 -> in_frame a x -> k_load K w x = k_load K w0 x.

Lemma owns_restored w0 w : owns w0 w [] -> restored w0 w.
Proof.
  intros [H1 H2 _ _ _ _ _ H8 _ H10]. split; [done|]. split; [rewrite H2; cbn; set_solver|]. split; [|done].
  intros va Hva. apply H8; [done|]. apply not_elem_of_nil.
Qed.

(** *** Filling a frame *)

Lemma image_store_bytes_ok a l : forall w x,
  um_ok w -> a ∈ um_frames w -> a <= x -> x + Z.of_nat (length l) <= a + PAGE_SIZE ->
  let w' := store_bytes K w x l in
  um_ok w' /\ um_frames w' = um_frames w /\ (forall va, um_page w' va = um_page w va) /\
  forall y, k_load K w' y =
    if (x <=? y) && (y <? x + Z.of_nat (length l)) then nth (Z.to_nat (y - x)) l 0 else k_load K w y.
Proof.
  induction l as [|b l IH]; intros w x Hw Ha Hx Hl; cbn [store_bytes length].
  { split_and!; try done. intros y. destruct (Z.leb_spec x y), (Z.ltb_spec y (x + Z.of_nat 0)); done || lia. }
  cbn [length] in Hl. destruct (um_store w a x b Hw Ha) as (H1 & H2 & H3 & H4); [unfold in_frame; lia|].
  destruct (IH (k_store K w x b) (x + 1)) as (G1 & G2 & G3 & G4); [done|by rewrite H2|lia|lia|].
  split_and!; [done|by rewrite G2|intros va; by rewrite G3|]. intros y. rewrite G4, H4.
  destruct (Z.eqb_spec y x) as [->|Hne].
  - rewrite (proj2 (Z.leb_gt (x + 1) x)), (proj2 (Z.leb_le x x)), (proj2 (Z.ltb_lt x (x + Z.of_nat (S (length l))))) by lia.
    cbn [andb]. by rewrite Z.sub_diag.
  - destruct (Z.leb_spec (x + 1) y), (Z.leb_spec x y); try lia; cbn [andb]; [|done].
    replace (y <? x + 1 + Z.of_nat (length l)) with (y <? x + Z.of_nat (S (length l))) by lia.
    destruct (_ <? _); [|done]. replace (Z.to_nat (y - x)) with (S (Z.to_nat (y - (x + 1)))) by lia. done.
Qed.

(** The bytes of a page filled by [map_page]. *)
Definition filled (data : option (list Z)) (offset size o : Z) : Z :=
  if (offset <=? o) && (o <? offset + size) then nth (Z.to_nat (o - offset)) (default [] data) 0 else 0.

Lemma fill_ok w a data offset size :
  um_ok w -> a ∈ um_frames w -> 0 <= offset -> 0 <= size -> offset + size <= PAGE_SIZE ->
  size <= Z.of_nat (length (default [] data)) ->
  let w1 := zero_page K w a in
  let w' := if negb (size =? 0) then copy_bytes K w1 (a + offset) (default [] data) size else w1 in
  um_ok w' /\ um_frames w' = um_frames w /\ (forall va, um_page w' va = um_page w va) /\
  (forall o, 0 <= o < PAGE_SIZE -> k_load K w' (a + o) = filled data offset size o) /\
  (forall y, ~ in_frame a y -> k_load K w' y = k_load K w y).
Proof.
  intros Hw Ha Ho Hs Hos Hd. cbv zeta. unfold zero_page, copy_bytes.
  assert (Z.of_nat (length (replicate (Z.to_nat PAGE_SIZE) 0)) = PAGE_SIZE) as Hlen.
  { rewrite length_replicate. done. }
  destruct (image_store_bytes_ok a (replicate (Z.to_nat PAGE_SIZE) 0) w a Hw Ha) as (H1 & H2 & H3 & H4); [lia|lia|].
  rewrite Hlen in H4. set (w1 := store_bytes K w a (replicate (Z.to_nat PAGE_SIZE) 0)) in *.
  assert (forall o, 0 <= o < PAGE_SIZE -> k_load K w1 (a + o) = 0) as H5.
  { intros o Hr. rewrite H4, (proj2 (Z.leb_le _ _)), (proj2 (Z.ltb_lt _ _)) by lia. cbn [andb].
    rewrite nth_lookup, lookup_replicate_2; [done|]. replace (a + o - a) with o by lia.
    apply Z2Nat.inj_lt; lia. }
  assert (forall y, ~ in_frame a y -> k_load K w1 y = k_load K w y) as H6.
  { intros y Hy. rewrite H4. unfold in_frame in Hy.
    destruct (Z.leb_spec a y), (Z.ltb_spec y (a + PAGE_SIZE)); cbn [andb]; done || lia. }
  clearbody w1. clear H4 Hlen. destruct (Z.eqb_spec size 0) as [->|Hnz]; cbn [negb].
  { split_and!; try done. intros o Hr. rewrite H5 by done. unfold filled.
    destruct (Z.leb_spec offset o), (Z.ltb_spec o (offset + 0)); done || lia. }
  assert (Z.of_nat (length (take (Z.to_nat size) (default [] data))) = size) as Hlen.
  { rewrite length_take. lia. }
  destruct (image_store_bytes_ok a (take (Z.to_nat size) (default [] data)) w1 (a + offset)) as (G1 & G2 & G3 & G4);
    [done|by rewrite H2|lia|lia|]. rewrite Hlen in G4.
  split_and!; [done|by rewrite G2|intros va; by rewrite G3| |].
  - intros o Hr. rewrite G4, (H5 o Hr). unfold filled.
    replace (a + offset <=? a + o) with (offset <=? o) by lia.
    replace (a + o <? a + offset + size) with (o <? offset + size) by lia.
    destruct (Z.leb_spec offset o), (Z.ltb_spec o (offset + size)); cbn [andb]; try done.
    replace (a + o - (a + offset)) with (o - offset) by lia.
    rewrite !nth_lookup, lookup_take_lt by lia. done.
  - intros y Hy. rewrite G4. unfold in_frame in Hy.
    destruct (Z.leb_spec (a + offset) y), (Z.ltb_spec y (a + offset + size)); cbn [andb]; try (by apply H6). lia.
Qed.

(** *** Adding and removing a page *)

Lemma owns_frame w0 w ps p : owns w0 w ps -> p ∈ ps -> pl_frame p ∈ um_frames w.
Proof.
  intros Ho Hp. rewrite (ow_frames _ _ _ Ho). apply elem_of_union. right.
  apply elem_of_list_to_set, list_elem_of_fmap. eauto.
Qed.

Lemma owns_kept_frame w0 w ps a : owns w0 w ps -> a ∈ um_frames w0 -> a ∈ um_frames w.
Proof. intros Ho Ha. rewrite (ow_frames _ _ _ Ho). by apply elem_of_union_l. Qed.

(** The same ownership after a change outside the frames and page addresses in use. *)
Lemma owns_change w0 w w' ps :
  owns w0 w ps -> um_ok w' -> um_frames w' = um_frames w ->
  (forall va, page_address va -> um_page w' va = um_page w va) ->
  (forall a x, a ∈ um_frames w -> in_frame a x -> k_load K w' x = k_load K w x) ->
  owns w0 w' ps.
Proof.
  intros Ho Hok Hfr Hpg Hld. pose proof Ho as [H1 H2 H3 H4 H5 H6 H7 H8 H9 H10]. split; try done.
  - by rewrite Hfr.
  - intros p Hp. rewrite Hpg; [by apply H7|]. by apply user_page_address, H5.
  - intros va Hva Hn. rewrite Hpg by done. by apply H8.
  - intros p off Hp Hoff. rewrite (Hld (pl_frame p)); [by apply H9|by eapply owns_frame|unfold in_frame; lia].
  - intros a x Ha Hx. rewrite (Hld a); [by apply (H10 a)|by eapply owns_kept_frame|done].
Qed.

(** A fresh frame mapped at a page that was free. *)
Lemma owns_add w0 w w' ps va a flags c :
  owns w0 w ps -> um_ok w' -> user_page va -> (a ∉ um_frames w) -> um_frames w' = {[a]} ∪ um_frames w ->
  um_page w va = None -> um_page w' va = Some (a, flags) ->
  (forall va', page_address va' -> va' ≠ va -> um_page w' va' = um_page w va') ->
  (forall b x, b ∈ um_frames w -> in_frame b x -> k_load K w' x = k_load K w x) ->
  (forall o, 0 <= o < PAGE_SIZE -> k_load K w' (a + o) = c o) ->
  owns w0 w' (mkPlaced va a flags c :: ps).
Proof.
  intros Ho Hok Hva Ha Hfr Hnone Hmap Hoth Hld Hc. pose proof Ho as [H1 H2 H3 H4 H5 H6 H7 H8 H9 H10].
  assert (va ∉ pl_va <$> ps) as Hfree.
  { intros (p & -> & Hp)%list_elem_of_fmap. rewrite H7 in Hnone; done. }
  split; cbn [fmap list_fmap pl_va pl_frame pl_flags pl_content]; try done.
  - rewrite Hfr, H2. cbn. set_solver.
  - constructor; [|done]. intros (p & -> & Hp)%list_elem_of_fmap. apply Ha. by eapply owns_frame.
  - intros p [-> |Hp]%elem_of_cons; cbn; [|by apply H4]. intros Ha'. apply Ha. by eapply owns_kept_frame.
  - intros p [-> |Hp]%elem_of_cons; cbn; [|by apply H5]. split; [done|].
    rewrite <- Hnone. symmetry. apply H8; [by apply user_page_address|done].
  - by constructor.
  - intros p [-> |Hp]%elem_of_cons; cbn; [done|]. rewrite Hoth; [by apply H7| |].
    + by apply user_page_address, H5.
    + intros E. apply Hfree, list_elem_of_fmap. by exists p.
  - intros va' Hva' [Hne Hn]%not_elem_of_cons. rewrite Hoth by done. by apply H8.
  - intros p off [-> |Hp]%elem_of_cons Hoff; cbn; [by apply Hc|].
    rewrite (Hld (pl_frame p)); [by apply H9|by eapply owns_frame|unfold in_frame; lia].
  - intros b x Hb Hx. rewrite (Hld b); [by apply (H10 b)|by eapply owns_kept_frame|done].
Qed.

(** The first page unmapped and its frame given back. *)
Lemma owns_remove w0 w w' ps p :
  owns w0 w (p :: ps) -> um_ok w' -> um_frames w' = um_frames w ∖ {[pl_frame p]} ->
  um_page w' (pl_va p) = None ->
  (forall va', page_address va' -> va' ≠ pl_va p -> um_page w' va' = um_page w va') ->
  (forall b x, b ∈ um_frames w -> b ≠ pl_frame p -> in_frame b x -> k_load K w' x = k_load K w x) ->
  owns w0 w' ps.
Proof.
  intros Ho Hok Hfr Hnone Hoth Hld. pose proof Ho as [H1 H2 H3 H4 H5 H6 H7 H8 H9 H10].
  rewrite fmap_cons in H3, H6. apply NoDup_cons in H3 as [Hpf H3]. apply NoDup_cons in H6 as [Hpv H6].
  assert (p ∈ p :: ps) as Hp0 by constructor.
  assert (forall q, q ∈ ps -> q ∈ p :: ps) as Hin by (intros q Hq; by constructor).
  assert (forall q, q ∈ ps -> pl_va q ≠ pl_va p) as Hva.
  { intros q Hq E. apply Hpv, list_elem_of_fmap. by exists q. }
  assert (forall q, q ∈ ps -> pl_frame q ≠ pl_frame p) as Hfa.
  { intros q Hq E. apply Hpf, list_elem_of_fmap. by exists q. }
  split; try done.
  - rewrite Hfr, H2. pose proof (H4 p Hp0) as Hn.
    assert (pl_frame p ∉ (list_to_set (pl_frame <$> ps) : gset Z)) by (by rewrite elem_of_list_to_set).
    rewrite fmap_cons. cbn. set_solver.
  - intros q Hq. by apply H4, Hin.
  - intros q Hq. by apply H5, Hin.
  - intros q Hq. rewrite Hoth; [by apply H7, Hin| |by apply Hva]. apply user_page_address. by apply H5, Hin.
  - intros va Hva' Hn. destruct (decide (va = pl_va p)) as [->|Hne].
    + rewrite Hnone. symmetry. by apply H5.
    + rewrite Hoth by done. apply H8; [done|]. rewrite fmap_cons. by apply not_elem_of_cons.
  - intros q off Hq Hoff. rewrite (Hld (pl_frame q));
      [by apply H9; auto|by eapply owns_frame; [done|auto]|by apply Hfa|unfold in_frame; lia].
  - intros b x Hb Hx. rewrite (Hld b); [by apply (H10 b)|by eapply owns_kept_frame| |done].
    intros ->. by destruct (H4 p Hp0).
Qed.

(** Unmapping a page of the image succeeds and removes it. *)
Lemma unmap_step w0 w ps p :
  owns w0 w (p :: ps) ->
  let '(w1, status, removed) := k_unmap_page K sp w (pl_va p) in
  status = VirtualMemory.Ok /\ (exists m, removed = Some m /\ VirtualMemory.m_physical m = pl_frame p) /\
  owns w0 (k_free_frame K w1 (pl_frame p)) ps.
Proof.
  intros Ho. assert (p ∈ p :: ps) as Hp by constructor.
  destruct (k_unmap_page K sp w (pl_va p)) as [[w1 status] removed] eqn:E.
  destruct (ow_user _ _ _ Ho p Hp) as [Hu _].
  destruct (um_unmap w _ _ _ _ (ow_ok _ _ _ Ho) Hu E) as (Hok & Hfr & Hld & Hm).
  rewrite (ow_mapped _ _ _ Ho p Hp) in Hm. destruct Hm as (-> & Hrem & Hgone & Hoth).
  split; [done|]. split; [done|].
  assert (pl_frame p ∈ um_frames w1) as Hin by (rewrite Hfr; by eapply owns_frame).
  destruct (um_free w1 _ Hok Hin) as (F1 & F2 & F3 & F4).
  apply (owns_remove w0 w _ ps p); try done.
  - by rewrite F2, Hfr.
  - by rewrite F3.
  - intros va' Hva' Hne. rewrite F3. by apply Hoth.
  - intros b x Hb Hne Hx. rewrite F4; [by apply (Hld b)|]. intros Hx'. apply Hne.
    eapply (frames_apart w1); try done. by rewrite Hfr.
Qed.

Lemma unload_pages_ok w0 ps : forall w result,
  owns w0 w (rev ps) ->
  let '(w', st) := unload_pages K sp w (pl_page <$> rev ps) result in st = result /\ restored w0 w'.
Proof.
  induction (rev ps) as [|p rps IH]; intros w result Ho; cbn [fmap list_fmap unload_pages pl_page].
  { split; [done|]. by apply owns_restored. }
  pose proof (unmap_step w0 w rps p Ho) as H.
  destruct (k_unmap_page K sp w (pl_va p)) as [[w1 status] removed].
  destruct H as (-> & (m & -> & <-) & Ho1). rewrite bool_decide_eq_true_2, Z.eqb_refl by done. cbn [negb orb].
  by apply IH.
Qed.

(** [unload] of an image that owns its pages restores everything. *)
Lemma unload_ok w0 w ps e loaded :
  owns w0 w ps ->
  exists w', unload K w (Some (mkImage (Some sp) e (pl_page <$> ps) loaded)) = (w', Some empty_image, Ok) /\ restored w0 w'.
Proof.
  intros Ho. cbn [unload i_space i_pages]. assert (rev (pl_page <$> ps) = pl_page <$> rev ps) as -> by (symmetry; apply map_rev).
  pose proof (unload_pages_ok w0 ps w Ok) as H.
  assert (owns w0 w (rev ps)) as Ho' by (by rewrite <- Permutation_rev). specialize (H Ho').
  destruct (unload_pages K sp w (pl_page <$> rev ps) Ok) as [w' st]. destruct H as [-> Hr]. by exists w'.
Qed.

Definition placed_image (e : Z) ps (loaded : bool) : Image := mkImage (Some sp) e (pl_page <$> ps) loaded.

(** [map_page] adds the page filled as asked, or fails and changes nothing. *)
Lemma image_map_page_ok w0 w ps e loaded va flags data offset size c :
  owns w0 w ps -> 0 <= offset -> 0 <= size -> size <= Z.of_nat (length (default [] data)) -> is_u64 va ->
  is_u64 (Z.lor flags VirtualMemory.User) ->
  (forall o, 0 <= o < PAGE_SIZE -> c o = filled data offset size o) ->
  let '(w', image, st) := map_page K w (placed_image e ps loaded) va flags data offset size in
  (st ≠ Ok /\ image = placed_image e ps loaded /\ owns w0 w' ps) \/
  (st = Ok /\ user_page va /\ Z.of_nat (length ps) < MAX_IMAGE_PAGES /\
   exists a, image = placed_image e (ps ++ [mkPlaced va a (Z.lor flags VirtualMemory.User) c]) loaded /\
     owns w0 w' (ps ++ [mkPlaced va a (Z.lor flags VirtualMemory.User) c])).
Proof.
  intros Ho Hoff Hsize Hdata Hva Hflags Hc. unfold map_page. cbn [i_space placed_image].
  destruct (orb _ _) eqn:Eg; [by left|]. rewrite !orb_false_iff in Eg.
  destruct Eg as ((((((G1 & G2) & G3) & G4) & G5) & G6) & G7).
  apply Z.leb_gt in G1. apply negb_false_iff, Z.eqb_eq in G2. rewrite land_page_mask in G2.
  apply Z.ltb_ge in G3, G5, G6. apply Z.leb_gt in G4.
  assert (user_page va) as Hup by (by split).
  assert (page_count (placed_image e ps loaded) = Z.of_nat (length ps)) as Epc.
  { unfold page_count. cbn [placed_image i_pages]. by rewrite length_fmap. }
  rewrite Epc in G1. clear Epc.
  destruct (k_alloc_frame K w) as [w1 a] eqn:Ea.
  destruct (um_alloc w w1 a (ow_ok _ _ _ Ho) Ea) as [(-> & ->)|(Hnz & A1 & A2 & A3 & A4 & A5)].
  { rewrite Z.eqb_refl. by left. }
  apply Z.eqb_neq in Hnz as Hnz'. rewrite Hnz'.
  assert (a ∈ um_frames w1) as Hin by (rewrite A3; set_solver).
  destruct (fill_ok w1 a data offset size A1 Hin Hoff Hsize ltac:(lia) Hdata) as (F1 & F2 & F3 & F4 & F5).
  set (w2 := if negb (size =? 0) then _ else _) in *. clearbody w2.
  destruct (k_map_page K sp w2 va a (Z.lor flags VirtualMemory.User)) as [w3 ms] eqn:Em.
  destruct (um_map w2 va a _ w3 ms F1 Hup ltac:(by rewrite F2) Hflags Em) as (M1 & M2 & M3 & M4 & M5).
  assert (um_frames w3 = {[a]} ∪ um_frames w) as Hfr by (by rewrite M2, F2, A3).
  assert (forall b x, b ∈ um_frames w -> in_frame b x -> k_load K w3 x = k_load K w x) as Hld.
  { intros b x Hb Hx. rewrite (M3 b); [|rewrite F2, A3; set_solver|done].
    rewrite F5; [by apply A5|]. intros Hx'. apply A2.
    rewrite (frames_apart w1 a b x); [done|done|done|rewrite A3; set_solver|done|done]. }
  clear G7. case_bool_decide as Hms; cbn [negb].
  - right. destruct (M4 Hms) as (P1 & P2 & P3). split; [done|]. split; [done|]. split; [done|]. exists a.
    split; [unfold placed_image; by rewrite fmap_app|].
    rewrite <- Permutation_cons_append. apply (owns_add w0 w w3 ps va a _ c Ho M1 Hup A2 Hfr); try done.
    + by rewrite <- A4, <- F3.
    + intros va' Hva' Hne. by rewrite P3, F3, A4.
    + intros o Hr. rewrite (M3 a), F4, Hc; [done|done|done|by rewrite F2|unfold in_frame; lia].
  - left. split; [done|]. split; [done|].
    destruct (um_free w3 a M1) as (R1 & R2 & R3 & R4); [rewrite Hfr; set_solver|].
    apply (owns_change w0 w _ ps Ho); try done.
    + rewrite R2, Hfr. set_solver.
    + intros va' Hva'. by rewrite R3, M5, F3, A4.
    + intros b x Hb Hx. rewrite R4; [by apply (Hld b)|]. intros Hx'. apply A2.
      rewrite (frames_apart w1 a b x); [done|done|done|rewrite A3; set_solver|done|done].
Qed.

(** *** Loading a segment *)

(** The byte that the segment puts at a virtual address: the file's bytes, then
    zeros. *)
Definition segment_byte (bytes : list Z) (p : ProgramHeader) (x : Z) : Z :=
  if (virtual_address p <=? x) && (x <? virtual_address p + file_size p)
  then nth (Z.to_nat (ph_offset p + (x - virtual_address p))) bytes 0 else 0.

Definition page_flags (p : ProgramHeader) : Z := Z.lor (segment_flags p) VirtualMemory.User.

(** Page number [k] of segment [p], in frame [a]. *)
Definition layout_page (bytes : list Z) (p : ProgramHeader) (k a : Z) : Placed :=
  mkPlaced (k * PAGE_SIZE) a (page_flags p) (fun o => segment_byte bytes p (k * PAGE_SIZE + o)).

Definition is_layout (bytes : list Z) (p : ProgramHeader) (k : Z) (pl : Placed) : Prop :=
  exists a, pl = layout_page bytes p k a.

Lemma segment_flags_small p : segment_flags p = 0 \/ segment_flags p = 1 \/ segment_flags p = 32 \/ segment_flags p = 33.
Proof. unfold segment_flags. destruct (Z.land _ kFlagWrite =? 0), (Z.land _ kFlagExecute =? 0); cbn; auto. Qed.

Lemma page_flags_word p : is_u64 (page_flags p).
Proof. unfold page_flags. destruct (segment_flags_small p) as [->|[->|[->| ->]]]; done. Qed.

(** What the loop copies into page [page]. *)
Lemma copied_bytes bytes va fsz offset page o :
  0 <= offset -> 0 <= fsz -> 0 <= page -> va < page + PAGE_SIZE ->
  offset + fsz <= Z.of_nat (length bytes) ->
  let cb := if va <? page then page else va in
  let ce := if page + PAGE_SIZE <? va + fsz then page + PAGE_SIZE else va + fsz in
  let cs := if cb <? ce then ce - cb else 0 in
  let data := if cs =? 0 then None else Some (drop (Z.to_nat (offset + (cb - va))) bytes) in
  cs <= Z.of_nat (length (default [] data)) /\
  (0 <= o < PAGE_SIZE ->
   (if (va <=? page + o) && (page + o <? va + fsz)
    then nth (Z.to_nat (offset + (page + o - va))) bytes 0 else 0) = filled data (cb - page) cs o).
Proof.
  intros Hoff Hf Hpage Hva Hsz. cbv zeta.
  set (cb := if va <? page then page else va). assert (cb = Z.max page va) as Ecb by (subst cb; destruct (Z.ltb_spec va page); lia).
  set (ce := if page + PAGE_SIZE <? va + fsz then _ else _).
  assert (ce = Z.min (page + PAGE_SIZE) (va + fsz)) as Ece by (subst ce; destruct (Z.ltb_spec (page + PAGE_SIZE) (va + fsz)); lia).
  clearbody cb ce. set (cs := if cb <? ce then ce - cb else 0).
  assert (cs = Z.max 0 (ce - cb)) as Ecs by (subst cs; destruct (Z.ltb_spec cb ce); lia). clearbody cs.
  unfold filled. destruct (Z.eqb_spec cs 0) as [E0|E0].
  - split; [cbn; lia|]. intros Ho.
    destruct (Z.leb_spec va (page + o)), (Z.ltb_spec (page + o) (va + fsz)),
      (Z.leb_spec (cb - page) o), (Z.ltb_spec o (cb - page + cs)); cbn [andb]; try done; lia.
  - split.
    + change (default [] (Some ?l)) with l. rewrite length_drop. lia.
    + intros Ho. replace ((cb - page <=? o) && (o <? cb - page + cs)) with
        ((va <=? page + o) && (page + o <? va + fsz)) by lia.
      destruct ((va <=? page + o) && (page + o <? va + fsz)) eqn:E; [|done].
      change (default [] (Some ?l)) with l. rewrite !nth_lookup, lookup_drop.
      apply andb_true_iff in E as [E1%Z.leb_le E2%Z.ltb_lt].
      replace (Z.to_nat (offset + (cb - va)) + Z.to_nat (o - (cb - page)))%nat
        with (Z.to_nat (offset + (page + o - va))) by lia. done.
Qed.

Lemma load_pages_ok bytes p size w0 e fuel :
  program_words p -> memory_size p ≠ 0 -> good_segment size p -> size = Z.of_nat (length bytes) ->
  size <= UINT64_MAX ->
  forall k w ps, first_page p <= k <= last_page p -> last_page p - k < Z.of_nat fuel -> owns w0 w ps ->
  match load_pages K fuel bytes p (segment_flags p) (last_page p * PAGE_SIZE) (k * PAGE_SIZE) w (placed_image e ps false) with
  | None => False
  | Some (w', image, Ok) => exists pls, Forall2 (is_layout bytes p) (seqZ k (last_page p - k)) pls /\
      image = placed_image e (ps ++ pls) false /\ owns w0 w' (ps ++ pls)
  | Some (w', image, _) => image = empty_image /\ restored w0 w'
  end.
Proof.
  intros Hw Hm Hg Hsz Hmax. destruct (good_span _ _ Hw Hm Hg) as (S1 & S2 & S3 & S4).
  assert (first_page p * PAGE_SIZE <= virtual_address p < first_page p * PAGE_SIZE + PAGE_SIZE) as Hfirst.
  { unfold first_page, PAGE_SIZE. clear. zdm. }
  pose proof (gs_end _ _ Hg) as Hend. pose proof (gs_begin _ _ Hg) as Hbeg. pose proof (gs_file_size _ _ Hg) as Hfs.
  pose proof (gs_file _ _ Hg) as Hfile. pose proof (pw_file _ Hw) as Hfw. pose proof (pw_offset _ Hw) as How.
  assert (last_page p * PAGE_SIZE + PAGE_SIZE <= 2 ^ 48) as Hlast.
  { clear - S2. unfold USER_REGION_END, USER_REGION_BASE, USER_REGION_SIZE, PAGE_SIZE in *. revert S2. zdm. }
  assert (0 <= USER_REGION_BASE /\ USER_REGION_END <= 2 ^ 48) as [Hb0 He48] by done.
  assert (0 <= USER_REGION_BASE / PAGE_SIZE) as Hb1 by done.
  unfold memory_end in Hend. unfold is_u64 in Hfw, How. change (2 ^ 48) with 281474976710656 in *.
  induction fuel as [|fuel IH]; intros k w ps Hk Hfuel Ho; [lia|]. cbn [load_pages].
  destruct (Z.ltb_spec (k * PAGE_SIZE) (last_page p * PAGE_SIZE)) as [Hlt|Hge]; cbn [negb].
  2:{ assert (k = last_page p) as -> by (unfold PAGE_SIZE in *; lia).
      exists []. rewrite Z.sub_diag, app_nil_r. split; [constructor|done]. }
  rewrite (u64_small (virtual_address p + file_size p)) by word_lia.
  rewrite (u64_small (k * PAGE_SIZE + PAGE_SIZE)) by (unfold PAGE_SIZE in *; word_lia).
  assert (virtual_address p < k * PAGE_SIZE + PAGE_SIZE) as Hin by (unfold PAGE_SIZE in *; lia).
  assert (0 <= k * PAGE_SIZE) as Hk0 by (unfold PAGE_SIZE in *; lia).
  pose proof (fun o => copied_bytes bytes (virtual_address p) (file_size p) (ph_offset p) (k * PAGE_SIZE) o
    ltac:(lia) ltac:(lia) Hk0 Hin ltac:(lia)) as Hcopy.
  cbv zeta in Hcopy.
  set (cb := if virtual_address p <? k * PAGE_SIZE then _ else _) in *.
  assert (virtual_address p <= cb /\ 0 <= cb - k * PAGE_SIZE < PAGE_SIZE) as [Hcb1 Hcb2].
  { subst cb. destruct (Z.ltb_spec (virtual_address p) (k * PAGE_SIZE)); unfold PAGE_SIZE in *; [lia|].
    assert (k = first_page p) as -> by lia. lia. }
  set (ce := if k * PAGE_SIZE + PAGE_SIZE <? virtual_address p + file_size p then _ else _) in *.
  assert (ce <= k * PAGE_SIZE + PAGE_SIZE /\ ce <= virtual_address p + file_size p) as [Hce1 Hce2].
  { subst ce. destruct (Z.ltb_spec (k * PAGE_SIZE + PAGE_SIZE) (virtual_address p + file_size p)); lia. }
  assert (cb <= k * PAGE_SIZE + PAGE_SIZE) as Hcb3 by lia.
  clearbody cb ce.
  rewrite (u64_small (cb - k * PAGE_SIZE)) by (unfold PAGE_SIZE in *; word_lia).
  assert ((if cb <? ce then ce ⊖ cb else 0) = (if cb <? ce then ce - cb else 0)) as ->.
  { destruct (Z.ltb_spec cb ce); [|done]. apply u64_small. unfold PAGE_SIZE in *. word_lia. }
  rewrite (u64_small (cb - virtual_address p)) by (unfold PAGE_SIZE in *; word_lia).
  set (cs := if cb <? ce then ce - cb else 0) in *.
  assert (0 <= cs) as Hcs by (subst cs; destruct (Z.ltb_spec cb ce); lia).
  assert (ph_offset p ⊕ (cb - virtual_address p) = ph_offset p + (cb - virtual_address p) \/ cs = 0) as Hsrc.
  { subst cs. destruct (Z.ltb_spec cb ce); [left|by right]. apply u64_small. word_lia. }
  clearbody cs.
  assert ((if cs =? 0 then None else Some (drop (Z.to_nat (ph_offset p ⊕ (cb - virtual_address p))) bytes)) =
          (if cs =? 0 then None else Some (drop (Z.to_nat (ph_offset p + (cb - virtual_address p))) bytes))) as ->.
  { destruct Hsrc as [->| ->]; done. }
  set (data := if cs =? 0 then None else Some _) in *. clearbody data.
  pose proof (image_map_page_ok w0 w ps e false (k * PAGE_SIZE) (segment_flags p) data (cb - k * PAGE_SIZE) cs
    (fun o => segment_byte bytes p (k * PAGE_SIZE + o)) Ho ltac:(lia) Hcs (proj1 (Hcopy 0))
    ltac:(unfold PAGE_SIZE in *; word_lia) (page_flags_word p) (fun o => proj2 (Hcopy o))) as Hmap.
  destruct (map_page K w (placed_image e ps false) (k * PAGE_SIZE) (segment_flags p) data (cb - k * PAGE_SIZE) cs)
    as [[w1 image] st].
  destruct Hmap as [(Hst & -> & Ho1)|(-> & _ & _ & a & -> & Ho1)].
  - rewrite bool_decide_eq_false_2 by done. cbn [negb].
    destruct (unload_ok w0 w1 ps e false Ho1) as (w2 & E & Hr). unfold placed_image. rewrite E.
    cbn [default from_option]. by destruct st.
  - rewrite bool_decide_eq_true_2 by done. cbn [negb].
    replace (k * PAGE_SIZE + PAGE_SIZE) with ((k + 1) * PAGE_SIZE) by (unfold PAGE_SIZE; lia).
    assert (k < last_page p) as Hkl by (unfold PAGE_SIZE in *; lia).
    specialize (IH (k + 1) w1 _ ltac:(lia) ltac:(lia) Ho1).
    destruct (load_pages _ _ _ _ _ _ _ _ _) as [[[w2 image] []]|]; try done.
    destruct IH as (pls & Hpls & -> & Ho2). exists (layout_page bytes p k a :: pls).
    replace (seqZ k (last_page p - k)) with (k :: seqZ (k + 1) (last_page p - (k + 1))).
    2:{ rewrite (seqZ_cons k (last_page p - k)) by lia. unfold Z.succ, Z.pred. f_equal. f_equal. lia. }
    split; [constructor; [by exists a|done]|]. rewrite <- app_assoc in Ho2. rewrite <- app_assoc. done.
Qed.

(** *** Loading an image *)

Definition segment_layout (bytes : list Z) (p : ProgramHeader) (pls : list Placed) : Prop :=
  Forall2 (is_layout bytes p) (seqZ (first_page p) (last_page p - first_page p)) pls.

Fixpoint image_layout (bytes : list Z) (segs : list ProgramHeader) (pls : list Placed) : Prop :=
  match segs with
  | [] => pls = []
  | p :: rest => exists l r, pls = l ++ r /\ segment_layout bytes p l /\ image_layout bytes rest r
  end.

Lemma segment_mapped_end size p :
  program_words p -> memory_size p ≠ 0 -> good_segment size p ->
  default 0 (align_up (virtual_address p ⊕ memory_size p)) = last_page p * PAGE_SIZE /\
  align_down (virtual_address p) = first_page p * PAGE_SIZE.
Proof.
  intros Hw Hm Hg. split; [|by apply align_down_eq, pw_address].
  pose proof (gs_end _ _ Hg) as He. pose proof (pw_address _ Hw) as Ha. pose proof (pw_memory _ Hw) as Hmm.
  assert (USER_REGION_END + PAGE_SIZE <= UINT64_MAX) as Hr by done.
  unfold memory_end, is_u64 in *. rewrite u64_small by (unfold PAGE_SIZE in *; word_lia).
  rewrite align_up_eq by lia. done.
Qed.

Lemma load_segments_ok bytes w0 e programs :
  Z.of_nat (length bytes) <= UINT64_MAX ->
  (forall p, p ∈ programs -> program_words p) ->
  (forall p, p ∈ segments programs -> good_segment (Z.of_nat (length bytes)) p) ->
  sum_pages (segments programs) <= MAX_IMAGE_PAGES ->
  forall w ps, owns w0 w ps ->
  match load_segments K bytes programs w (placed_image e ps false) with
  | None => False
  | Some (w', image, Ok) => exists pls, image_layout bytes (segments programs) pls /\
      image = placed_image e (ps ++ pls) false /\ owns w0 w' (ps ++ pls)
  | Some (w', image, _) => image = empty_image /\ restored w0 w'
  end.
Proof.
  intros Hlen. induction programs as [|p programs IH]; intros Hws Hgs Hsum w ps Ho; cbn [load_segments].
  { exists []. by rewrite app_nil_r. }
  assert (forall q, q ∈ programs -> program_words q) as Hws' by (intros q Hq; apply Hws; by constructor).
  rewrite segments_cons in Hgs, Hsum. rewrite segments_cons. destruct (loads p) eqn:El.
  - apply loads_iff in El as [Et Em].
    assert (good_segment (Z.of_nat (length bytes)) p) as Hg by (apply Hgs; constructor).
    assert (program_words p) as Hw by (apply Hws; constructor).
    assert (forall q, q ∈ segments programs -> good_segment (Z.of_nat (length bytes)) q) as Hgs'
      by (intros q Hq; apply Hgs; by constructor).
    rewrite (proj2 (Z.eqb_eq _ _) Et), (proj2 (Z.eqb_neq _ _) Em). cbn [negb orb].
    destruct (segment_mapped_end _ _ Hw Em Hg) as [-> ->].
    destruct (good_span _ _ Hw Em Hg) as (S1 & _).
    cbn [sum_pages foldr] in Hsum. fold (sum_pages (segments programs)) in Hsum.
    assert (0 <= sum_pages (segments programs)) as Hpos.
    { apply (sum_pages_nonneg (Z.of_nat (length bytes))).
      intros q Hq. pose proof Hq as [[_ ?]%loads_iff ?]%segments_loads. auto. }
    pose proof (load_pages_ok bytes p _ w0 e segment_fuel Hw Em Hg eq_refl Hlen (first_page p) w ps
      ltac:(lia) ltac:(unfold segment_fuel, MAX_IMAGE_PAGES in *; lia) Ho) as Hl.
    destruct (load_pages _ _ _ _ _ _ _ _ _) as [[[w1 image] []]|]; try done.
    destruct Hl as (pls & Hpls & -> & Ho1).
    specialize (IH Hws' Hgs' ltac:(lia) w1 (ps ++ pls) Ho1).
    destruct (load_segments _ _ _ _ _) as [[[w2 image] []]|]; try done.
    destruct IH as (pls' & Hpls' & -> & Ho2). exists (pls ++ pls'). rewrite <- app_assoc in *.
    split; [|done]. by exists pls, pls'.
  - unfold loads in El. rewrite <- (negb_involutive (ph_type p =? kProgramLoad)), <- negb_orb in El.
    apply negb_false_iff in El. rewrite El. by apply IH.
Qed.

(** The outcome of [load]. *)
Lemma load_result w bytes :
  um_ok w -> k_initialized K sp = true -> Forall is_u8 bytes -> Z.of_nat (length bytes) <= UINT64_MAX ->
  match load K w (Some bytes) (Some sp) true with
  | None => False
  | Some (w', image, Ok) => good_image bytes /\ exists ps,
      image = Some (placed_image (entry (header_from bytes)) ps true) /\ owns w w' ps /\
      image_layout bytes (segments (programs_from bytes (header_from bytes))) ps
  | Some (w', image, _) => image = Some empty_image /\ restored w w'
  end.
Proof.
  intros Hw Hi Hb Hlen. unfold load. rewrite Hi. cbn [negb orb].
  pose proof (validate_ok bytes (entry (header_from bytes)) Hb Hlen) as Hv.
  pose proof (owns_nil w Hw) as Ho.
  destruct (validate (Some bytes)) as [st e0] eqn:Ev.
  destruct (decide (st = Ok)) as [->|Hne].
  2:{ assert (restored w w) by (by apply owns_restored). by destruct st. }
  destruct (proj1 (validate_ok bytes e0 Hb Hlen) Ev) as [Hgi ->].
  change (default [] (Some bytes)) with bytes. pose proof Hgi as [_ [_ G2 _ G4 _]].
  pose proof (load_segments_ok bytes w (entry (header_from bytes)) (programs_from bytes (header_from bytes)) Hlen
    ltac:(intros p; by apply programs_words) G2 G4 w [] Ho) as Hl.
  change (mkImage (Some sp) (entry (header_from bytes)) [] false)
    with (placed_image (entry (header_from bytes)) [] false).
  destruct (load_segments _ _ _ _ _) as [[[w1 image] []]|]; try done; [|by destruct Hl as [-> Hr]..].
  destruct Hl as (ps & Hps & -> & Ho1). split; [done|]. exists ps. done.
Qed.

(** The pages of a layout are the pages of its segments. *)
Lemma segment_layout_elem bytes p pls k :
  segment_layout bytes p pls -> first_page p <= k < last_page p -> exists a, layout_page bytes p k a ∈ pls.
Proof.
  intros Hl Hk. unfold segment_layout in Hl.
  assert (k ∈ seqZ (first_page p) (last_page p - first_page p)) as Hin by (apply elem_of_seqZ; lia).
  apply list_elem_of_lookup in Hin as [i Hi].
  destruct (Forall2_lookup_l _ _ _ _ _ Hl Hi) as (pl & Hpl & a & ->).
  exists a. by eapply list_elem_of_lookup_2.
Qed.

Lemma image_layout_elem bytes segs pls p k :
  image_layout bytes segs pls -> p ∈ segs -> first_page p <= k < last_page p ->
  exists a, layout_page bytes p k a ∈ pls.
Proof.
  revert pls; induction segs as [|q segs IH]; intros pls Hl Hp Hk; [by apply elem_of_nil in Hp|].
  destruct Hl as (l & r & -> & Hl & Hr). apply elem_of_cons in Hp as [-> |Hp].
  - destruct (segment_layout_elem _ _ _ _ Hl Hk) as [a Ha]. exists a. apply elem_of_app. by left.
  - destruct (IH r Hr Hp Hk) as [a Ha]. exists a. apply elem_of_app. by right.
Qed.

Lemma image_layout_inv bytes segs pls pl :
  image_layout bytes segs pls -> pl ∈ pls ->
  exists p k a, p ∈ segs /\ first_page p <= k < last_page p /\ pl = layout_page bytes p k a.
Proof.
  revert pls; induction segs as [|q segs IH]; intros pls Hl Hpl.
  { cbn in Hl. subst. by apply elem_of_nil in Hpl. }
  destruct Hl as (l & r & -> & Hl & Hr). apply elem_of_app in Hpl as [Hpl|Hpl].
  - apply list_elem_of_lookup in Hpl as [i Hi].
    destruct (Forall2_lookup_r _ _ _ _ _ Hl Hi) as (k & Hk & a & ->).
    apply list_elem_of_lookup_2, elem_of_seqZ in Hk. exists q, k, a. split_and!; [constructor|lia|lia|done].
  - destruct (IH r Hr Hpl) as (p & k & a & Hp & ? & ->). exists p, k, a. split; [by constructor|done].
Qed.

(** *** The other operations on an image *)

Inductive ImageOp :=
  | MapAnonymous (va flags : Z) (data : option (list Z)) (size : Z)
  | UnmapOwned (va : Z).

(** The arguments are machine words, and the buffer is as long as the caller says. *)
Definition op_ok (op : ImageOp) : Prop :=
  match op with
  | MapAnonymous va flags data size =>
      is_u64 va /\ is_u64 (Z.lor flags VirtualMemory.User) /\ 0 <= size <= Z.of_nat (length (default [] data))
  | UnmapOwned va => is_u64 va
  end.

Definition run_op (state : W * option (@Image SP)) (op : ImageOp) : W * option (@Image SP) :=
  let '(w, image) := state in
  match op with
  | MapAnonymous va flags data size => fst (map_anonymous_page K w image va flags data size)
  | UnmapOwned va => fst (unmap_owned_page K w image va)
  end.

(** Moving the last page into the place of a removed one. *)
Lemma remove_page_ok ps i p :
  ps !! i = Some p -> exists ps', remove_page (pl_page <$> ps) i = pl_page <$> ps' /\ ps ≡ₚ p :: ps'.
Proof.
  intros Hi. destruct ps as [|q0 qs] using rev_ind; [by rewrite lookup_nil in Hi|]. clear IHqs.
  unfold remove_page. rewrite length_fmap, length_app. cbn [length].
  replace (length qs + 1 - 1)%nat with (length qs) by lia.
  rewrite list_lookup_fmap, lookup_app_r, Nat.sub_diag by lia. cbn.
  apply lookup_app_Some in Hi as [Hi|[Hge Hi]].
  - apply list_elem_of_split_length in Hi as (l & k & -> & ->).
    exists (l ++ q0 :: k). split.
    + rewrite <- list_fmap_insert, !insert_app_l, insert_app_r_alt by (rewrite ?length_app; cbn; lia).
      rewrite Nat.sub_diag. cbn [insert list_insert]. rewrite fmap_app, take_app_length'; [done|].
      rewrite length_fmap, !length_app. done.
    + rewrite <- app_assoc. cbn. rewrite <- Permutation_middle. constructor.
      by rewrite (Permutation_app_comm k [q0]).
  - apply list_lookup_singleton_Some in Hi as [Hi <-]. assert (i = length qs) as -> by lia.
    exists qs. split; [|by rewrite <- Permutation_cons_append].
    rewrite <- list_fmap_insert, insert_app_r_alt, Nat.sub_diag by lia. cbn [insert list_insert].
    rewrite fmap_app, take_app_length'; [done|]. by rewrite length_fmap.
Qed.

Lemma pl_page_index ps va i :
  find_index (fun page => fst page =? va) (pl_page <$> ps) = Some i ->
  exists p, ps !! i = Some p /\ pl_va p = va.
Proof.
  intros [(x & Hx & E) _]%find_index_Some. rewrite list_lookup_fmap in Hx.
  destruct (ps !! i) as [p|]; cbn in Hx; simplify_eq. exists p. split; [done|]. by apply Z.eqb_eq in E.
Qed.

(** Every operation keeps the ownership. *)
Lemma run_op_owns w0 w ps e op :
  owns w0 w ps -> op_ok op ->
  exists w' ps', run_op (w, Some (placed_image e ps true)) op = (w', Some (placed_image e ps' true)) /\ owns w0 w' ps'.
Proof.
  intros Ho Hop. destruct op as [va flags data size|va]; cbn [run_op].
  - destruct Hop as (Hva & Hfl & Hs0 & Hs). unfold map_anonymous_page. cbn [i_loaded placed_image negb].
    fold (placed_image e ps true).
    pose proof (image_map_page_ok w0 w ps e true va flags data 0 size (filled data 0 size) Ho ltac:(lia) Hs0 Hs Hva Hfl
      ltac:(done)) as Hm.
    destruct (map_page K w (placed_image e ps true) va flags data 0 size) as [[w1 image] st]. cbn [fst].
    destruct Hm as [(_ & -> & Ho1)|(_ & _ & _ & a & -> & Ho1)]; eauto.
  - unfold unmap_owned_page. cbn [i_space placed_image i_pages].
    destruct (negb _); [by eauto|].
    destruct (find_index _ _) as [i|] eqn:Ef; [|by eauto].
    destruct (pl_page_index _ _ _ Ef) as (p & Hp & <-).
    rewrite list_lookup_fmap, Hp. cbn [fmap option_fmap option_map default from_option id pl_page].
    destruct (remove_page_ok ps i p Hp) as (ps' & Er & Hperm). rewrite Hperm in Ho.
    pose proof (unmap_step w0 w ps' p Ho) as Hu.
    destruct (k_unmap_page K sp w (pl_va p)) as [[w1 status] removed].
    destruct Hu as (-> & (m & -> & <-) & Ho1). rewrite bool_decide_eq_true_2, Z.eqb_refl by done.
    cbn [negb orb fst i_entry i_loaded]. rewrite Er. eexists _, ps'. split; [reflexivity|done].
Qed.

Lemma run_ops_owns w0 ops : forall w ps e,
  owns w0 w ps -> Forall op_ok ops ->
  exists w' ps', fold_left run_op ops (w, Some (placed_image e ps true)) = (w', Some (placed_image e ps' true)) /\
    owns w0 w' ps'.
Proof.
  induction ops as [|op ops IH]; intros w ps e Ho Hops; [by eauto|].
  apply Forall_cons in Hops as [Hop Hops]. cbn [fold_left].
  destruct (run_op_owns w0 w ps e op Ho Hop) as (w1 & ps1 & -> & Ho1). by apply IH.
Qed.

End ownership.

(** ** Properties *)

(** C35: [validate] accepts exactly the well-formed images, and reports their entry
    point: the header describes a static x86-64 executable whose program table
    lies in the file; every entry is either one of the types that are skipped or a
    load segment; the load segments lie in the file and in the user region, are
    never both writable and executable, are aligned with the file and share no
    page; they need at most [MAX_IMAGE_PAGES] pages; and the entry point is in an
    executable one. *)
Theorem elf_validate_iff bytes e :
  Forall is_u8 bytes -> Z.of_nat (length bytes) <= UINT64_MAX ->
  validate (Some bytes) = (Ok, e) <-> good_image bytes /\ e = entry (header_from bytes).
Proof. apply validate_ok. Qed.

Section loading.
Context {W SP : Type} (K : Kernel W SP) (sp : SP) {U : UserMemory K sp}.

(** [load] always returns, and it is all or nothing: unless it succeeds the
    address space, the frames in use and their contents are as before, and the
    image is empty. *)
Theorem elf_load_terminates w bytes :
  um_ok w -> k_initialized K sp = true -> Forall is_u8 bytes -> Z.of_nat (length bytes) <= UINT64_MAX ->
  exists w' image st, load K w (Some bytes) (Some sp) true = Some (w', Some image, st) /\
    (st = Ok -> i_loaded image = true) /\
    (st ≠ Ok -> image = empty_image /\ um_frames w' = um_frames w /\
      (forall va, page_address va -> um_page w' va = um_page w va) /\
      (forall a x, a ∈ um_frames w -> in_frame a x -> k_load K w' x = k_load K w x)).
Proof.
  intros Hw Hi Hb Hl. pose proof (load_result w bytes Hw Hi Hb Hl) as H.
  destruct (load K w (Some bytes) (Some sp) true) as [[[w' image] st]|]; [|done].
  destruct (decide (st = Ok)) as [->|Hne].
  - destruct H as (_ & ps & -> & _). by eexists _, _, _.
  - assert (image = Some empty_image /\ restored w w') as [-> (_ & Hf & Hp & Hc)] by (by destruct st).
    eexists _, _, _. split; [done|]. split; [done|]. by intros _.
Qed.

(** C7: after a successful [load] the address space holds the image: every byte of
    every segment is the byte of the file or zero past its file part, at a page
    mapped for the user with the segment's permissions and backed by a fresh
    frame; no page is both writable and executable; every page of another range,
    and every frame that was in use, is as before. *)
Theorem elf_load_ok w bytes w' image :
  um_ok w -> k_initialized K sp = true -> Forall is_u8 bytes -> Z.of_nat (length bytes) <= UINT64_MAX ->
  load K w (Some bytes) (Some sp) true = Some (w', image, Ok) ->
  let segs := segments (programs_from bytes (header_from bytes)) in
  good_image bytes /\ (exists pages, image = Some (mkImage (Some sp) (entry (header_from bytes)) pages true)) /\
  (forall p x, p ∈ segs -> virtual_address p <= x < memory_end p ->
    exists frame, um_page w' (x / PAGE_SIZE * PAGE_SIZE) = Some (frame, page_flags p) /\
      (frame ∈ um_frames w' ∖ um_frames w) /\
      k_load K w' (frame + x mod PAGE_SIZE) =
        (if x <? virtual_address p + file_size p then nth (Z.to_nat (ph_offset p + (x - virtual_address p))) bytes 0 else 0)) /\
  (forall p, p ∈ segs -> has_flag (page_flags p) User = true /\
    has_flag (page_flags p) Writable = writable p /\ has_flag (page_flags p) NoExecute = negb (executable p) /\
    (writable p && executable p = false)) /\
  (forall va, page_address va -> (forall p, p ∈ segs -> ~ first_page p <= va / PAGE_SIZE < last_page p) ->
    um_page w' va = um_page w va) /\
  (forall a x, a ∈ um_frames w -> in_frame a x -> k_load K w' x = k_load K w x).
Proof.
  intros Hw Hi Hb Hl E segs. pose proof (load_result w bytes Hw Hi Hb Hl) as H. rewrite E in H.
  destruct H as (Hgi & ps & -> & Ho & Hlay). split; [done|]. split; [by eexists|].
  pose proof (gp_segments _ _ _ (gi_programs _ Hgi)) as Hgs.
  split_and!; [|  |  |apply (ow_kept _ _ _ Ho)].
  - intros p x Hp Hx. pose proof Hp as [[_ Hm]%loads_iff Hp']%segments_loads.
    pose proof (programs_words bytes p Hb Hp') as Hpw.
    assert (first_page p <= x / PAGE_SIZE < last_page p) as Hk.
    { clear - Hx. unfold first_page, last_page, memory_end, PAGE_SIZE in *. zdm. }
    destruct (image_layout_elem _ _ _ p _ Hlay Hp Hk) as [a Ha]. exists a.
    pose proof (ow_mapped _ _ _ Ho _ Ha) as Hmap. pose proof (ow_fresh _ _ _ Ho _ Ha) as Hfr.
    pose proof (owns_frame _ _ _ _ Ho Ha) as Hin. cbn [layout_page pl_va pl_frame pl_flags] in *.
    split; [done|]. split; [by apply elem_of_difference|].
    assert (0 <= x mod PAGE_SIZE < PAGE_SIZE) as Hr by (apply Z.mod_pos_bound; done).
    pose proof (ow_content _ _ _ Ho _ _ Ha Hr) as Hc. cbn [layout_page pl_frame pl_content] in Hc. rewrite Hc.
    unfold segment_byte. replace (x / PAGE_SIZE * PAGE_SIZE + x mod PAGE_SIZE) with x.
    2:{ rewrite Z.mul_comm. apply Z.div_mod. done. }
    rewrite (proj2 (Z.leb_le _ _)) by lia. done.
  - intros p Hp. pose proof (Hgs p Hp) as Hg. unfold page_flags, segment_flags.
    change kFlagWrite with (Z.shiftl 1 1). change kFlagExecute with (Z.shiftl 1 0).
    rewrite <- (negb_involutive (Z.land (ph_flags p) (Z.shiftl 1 0) =? 0)), !flag_bit by done.
    fold (writable p) (executable p). pose proof (gs_write_xor_execute _ _ Hg) as Hwx.
    destruct (writable p), (executable p); try done. by destruct Hwx.
  - intros va Hva Hno. apply (ow_others _ _ _ Ho); [done|]. intros (pl & -> & Hpl)%list_elem_of_fmap.
    destruct (image_layout_inv _ _ _ _ Hlay Hpl) as (p & k & a & Hp & Hk & ->).
    apply (Hno p Hp). cbn [layout_page pl_va]. rewrite Z.div_mul by done. done.
Qed.

(** C11: an image owns exactly what it added.  After a successful [load] and any
    sequence of [map_anonymous_page] and [unmap_owned_page] calls, whether they
    succeed or fail, [unload] succeeds and leaves the address space, the frames in
    use and the contents of the earlier ones as they were before [load]. *)
Theorem elf_image_roundtrip w bytes w1 image ops :
  um_ok w -> k_initialized K sp = true -> Forall is_u8 bytes -> Z.of_nat (length bytes) <= UINT64_MAX ->
  load K w (Some bytes) (Some sp) true = Some (w1, image, Ok) -> Forall op_ok ops ->
  let '(w2, image2) := fold_left (@run_op W SP K) ops (w1, image) in
  exists w', unload K w2 image2 = (w', Some empty_image, Ok) /\
    um_frames w' = um_frames w /\ (forall va, page_address va -> um_page w' va = um_page w va) /\
    (forall a x, a ∈ um_frames w -> in_frame a x -> k_load K w' x = k_load K w x).
Proof.
  intros Hw Hi Hb Hl E Hops. pose proof (load_result w bytes Hw Hi Hb Hl) as H. rewrite E in H.
  destruct H as (_ & ps & -> & Ho & _).
  destruct (run_ops_owns w ops w1 ps (entry (header_from bytes)) Ho Hops) as (w2 & ps2 & -> & Ho2).
  destruct (unload_ok w w2 ps2 (entry (header_from bytes)) true Ho2) as (w' & E' & _ & Hf & Hp & Hc).
  exists w'. unfold placed_image. by rewrite E'.
Qed.
End loading.

(** ** A concrete image and machine *)

Fixpoint encode (n : nat) (v : Z) : list Z :=
  match n with O => [] | S n => v mod 256 :: encode n (v / 256) end.

Definition example_base : Z := USER_REGION_BASE + 120.

(** One readable and executable segment of four bytes in the file and 0x1008 in
    memory, over two pages. *)
Definition example_elf : list Z :=
  [0x7F; 69; 76; 70; 2; 1; 1; 0; 0; 0; 0; 0; 0; 0; 0; 0] ++
  encode 2 2 ++ encode 2 62 ++ encode 4 1 ++ encode 8 example_base ++ encode 8 64 ++ encode 8 0 ++
  encode 4 0 ++ encode 2 64 ++ encode 2 56 ++ encode 2 1 ++ encode 2 0 ++ encode 2 0 ++ encode 2 0 ++
  encode 4 1 ++ encode 4 5 ++ encode 8 120 ++ encode 8 example_base ++ encode 8 0 ++ encode 8 4 ++
  encode 8 0x1008 ++ encode 8 0x1000 ++ [0x90; 0x90; 0xF4; 0xC3].

Lemma example_elf_bytes : Forall is_u8 example_elf.
Proof. apply Forall_fold_right. vm_compute. repeat split; discriminate. Qed.

Definition example_frames : PhysicalMemory.State :=
  fst (PhysicalMemory.initialize 0x200000 0x8000 0x1000 0x201010 64).

Definition example_machine : Machine (list bool) PhysicalMemory.State :=
  mkMachine example_world example_frames (fun _ => 0xCC).

Definition example_kernel : Kernel (Machine (list bool) PhysicalMemory.State) (@AddressSpace (list bool)) :=
  machine_kernel.

#[export] Instance example_memory : UserMemory example_kernel example_space :=
  machine_user_memory pool_backend pool_owned example_space eq_refl eq_refl.

Lemma example_machine_ok : um_ok example_machine.
Proof.
  split; [apply zero_wf|]. split; [|reflexivity].
  destruct (PhysicalMemory.initialize_spec 0x200000 0x8000 0x1000 0x201010 64 example_frames)
    as (Hwf & _); try word_lia; [reflexivity|]. exact Hwf.
Qed.

Definition load_status (r : option (Machine (list bool) PhysicalMemory.State * option (@Image (@AddressSpace (list bool))) * Status))
  : option Status := match r with Some (_, _, st) => Some st | None => None end.

Lemma example_load : exists w' image,
  load example_kernel example_machine (Some example_elf) (Some example_space) true = Some (w', image, Ok).
Proof.
  assert (load_status (load example_kernel example_machine (Some example_elf) (Some example_space) true) = Some Ok) as E
    by (vm_compute; reflexivity).
  destruct (load example_kernel example_machine (Some example_elf) (Some example_space) true) as [[[w' image] st]|];
    [|done]. cbn [load_status] in E. apply (inj Some) in E as ->. by eexists _, _.
Qed.

Lemma elf_validate_iff_witness : validate (Some example_elf) = (Ok, example_base) /\ good_image example_elf.
Proof.
  assert (validate (Some example_elf) = (Ok, example_base)) as E by (vm_compute; reflexivity).
  split; [exact E|].
  apply (elf_validate_iff example_elf example_base example_elf_bytes); [vm_compute; discriminate|exact E].
Defined.

Lemma elf_load_terminates_witness :
  exists w' image st, load example_kernel example_machine (Some example_elf) (Some example_space) true =
    Some (w', Some image, st).
Proof.
  destruct (elf_load_terminates example_kernel example_space example_machine example_elf example_machine_ok eq_refl
    example_elf_bytes) as (w' & image & st & E & _); [vm_compute; discriminate|].
  exists w', image, st. exact E.
Defined.

(** The last byte of the file part, and the first zero after it. *)
Lemma elf_load_ok_witness : exists w' image frame,
  load example_kernel example_machine (Some example_elf) (Some example_space) true = Some (w', image, Ok) /\
  um_page w' USER_REGION_BASE = Some (frame, 2) /\
  k_load example_kernel w' (frame + 123) = 0xC3 /\ k_load example_kernel w' (frame + 124) = 0.
Proof.
  destruct example_load as (w' & image & E).
  destruct (elf_load_ok example_kernel example_space example_machine example_elf w' image example_machine_ok eq_refl
    example_elf_bytes) as (_ & _ & Hbytes & _); [vm_compute; discriminate|exact E|].
  set (p := program_at example_elf 64) in *.
  assert (p ∈ segments (programs_from example_elf (header_from example_elf))) as Hp.
  { replace (segments (programs_from example_elf (header_from example_elf))) with [p] by (vm_compute; reflexivity).
    constructor. }
  destruct (Hbytes p (USER_REGION_BASE + 123) Hp) as (frame & H1 & _ & H2); [vm_compute; split; [discriminate|reflexivity]|].
  destruct (Hbytes p (USER_REGION_BASE + 124) Hp) as (frame' & H1' & _ & H2'); [vm_compute; split; [discriminate|reflexivity]|].
  exists w', image, frame. split; [exact E|].
  replace ((USER_REGION_BASE + 123) / PAGE_SIZE * PAGE_SIZE) with USER_REGION_BASE in H1 by (vm_compute; reflexivity).
  replace ((USER_REGION_BASE + 124) / PAGE_SIZE * PAGE_SIZE) with USER_REGION_BASE in H1' by (vm_compute; reflexivity).
  rewrite H1 in H1'. apply (inj Some), pair_equal_spec in H1' as [<- _].
  replace ((USER_REGION_BASE + 123) mod PAGE_SIZE) with 123 in H2 by (vm_compute; reflexivity).
  replace ((USER_REGION_BASE + 124) mod PAGE_SIZE) with 124 in H2' by (vm_compute; reflexivity).
  split; [rewrite H1; vm_compute; reflexivity|]. split; [rewrite H2|rewrite H2']; vm_compute; reflexivity.
Defined.

(** A guard page unmapped again and a stack page, then [unload]. *)
Lemma elf_image_roundtrip_witness : exists w' w1 w2 image image2,
  load example_kernel example_machine (Some example_elf) (Some example_space) true = Some (w1, image, Ok) /\
  unload example_kernel w2 image2 = (w', Some empty_image, Ok) /\ um_frames w' = um_frames example_machine.
Proof.
  destruct example_load as (w1 & image & E).
  assert (Forall op_ok [MapAnonymous (USER_REGION_BASE + 0x10000) 33 None 0; UnmapOwned USER_REGION_BASE;
    MapAnonymous 5 1 (Some [1; 2]) 2]) as Hops.
  { repeat constructor; vm_compute; done. }
  pose proof (elf_image_roundtrip example_kernel example_space example_machine example_elf w1 image _
    example_machine_ok eq_refl example_elf_bytes ltac:(vm_compute; discriminate) E Hops) as H.
  destruct (fold_left _ _ _) as [w2 image2]. destruct H as (w' & Hu & Hf & _).
  exists w', w1, w2, image, image2. split; [exact E|]. split; [exact Hu|exact Hf].
Defined.
