(* ===== verification/ReliableFile.v ===== *)
(** * Crash-safe replacement of a small file (install/reliable_file.cpp)

    [replace] swaps the contents of a file without ever leaving the file system
    in a state from which neither the old nor the new contents can be recovered.
    It reaches the file system through six callbacks, so the code is modelled as
    a tree of backend calls ([prog]); the backend is the nondeterministic relation
    [backend_call], which transcribes the semantics that reliable_file.hpp requires
    of it: a call may fail, power may be lost before and after every call, and
    whatever has not been synced survives a power loss only in part. *)

From S2P Require Import Prelude.
From stdpp Require Import strings.

#[local] Open Scope Z_scope.

Inductive BackendStatus := BOk | BNotFound | BAlreadyExists | BFailure.

#[export] Instance BackendStatus_eq_dec : EqDecision BackendStatus.
Proof. solve_decision. Defined.

Inductive Status :=
  | Ok | InvalidArgument | StateConflict | RecoveryFailed | StagingCleanupFailed | StagingCreateFailed
  | StagingWriteFailed | StagingSyncFailed | BackupRenameFailed | BackupSyncFailed | PublishRenameFailed
  | PublishSyncFailed | CommitMarkerRenameFailed | CommitMarkerSyncFailed | CleanupFailed
  | CleanupSyncFailed | RollbackFailed | RollbackSyncFailed.

#[export] Instance Status_eq_dec : EqDecision Status.
Proof. solve_decision. Defined.

(** The function pointers of [Operations], as far as [valid_operations] looks at
    them: whether each is non-null. *)
Record Operations := mkOperations {
  has_stat : bool; has_create : bool; has_write : bool;
  has_unlink : bool; has_rename : bool; has_sync : bool }.

(** The strings of [Paths]; [None] is a null pointer. *)
Record Paths := mkPaths {
  p_target : option string; p_staging : option string;
  p_rollback : option string; p_committed : option string }.

(** The string behind a pointer that has been checked. *)
Definition text (p : option string) : string := default "" p.

(** ** Programs: trees of backend calls *)

Inductive Call :=
  | Stat (path : string)
  | Create (path : string)
  | Write (path : string) (offset : nat) (data : list Z)
  | Unlink (path : string)
  | Rename (source_path destination_path : string)
  | Sync.

Inductive prog (A : Type) :=
  | Ret (a : A)
  | Do (c : Call) (k : BackendStatus -> prog A).
Arguments Ret {A}.
Arguments Do {A}.

#[export] Instance prog_ret : MRet prog := fun A a => Ret a.
#[export] Instance prog_bind : MBind prog :=
  fun A B f => fix go (m : prog A) : prog B :=
    match m with
    | Ret a => f a
    | Do c k => Do c (fun st => go (k st))
    end.

Definition call (c : Call) : prog BackendStatus := Do c Ret.

(** ** The code *)

(** The loop that compares two strings up to the first difference or the end. *)
Fixpoint text_equal_from (left right : string) : bool :=
  match left, right with
  | EmptyString, EmptyString => true
  | String a l, String b r => if Ascii.eqb a b then text_equal_from l r else false
  | _, _ => false
  end.

Definition text_equal (left right : option string) : bool :=
  match left, right with
  | Some l, Some r => text_equal_from l r
  | _, _ => false
  end.

Definition valid_operations (operations : Operations) : bool :=
  has_stat operations && has_create operations && has_write operations &&
  has_unlink operations && has_rename operations && has_sync operations.

(** Null or empty: [p == nullptr || p[0] == '\0']. *)
Definition missing (p : option string) : bool :=
  match p with Some (String _ _) => false | _ => true end.

Definition valid_paths (paths : Paths) : bool :=
  if missing (p_target paths) || missing (p_staging paths) ||
     missing (p_rollback paths) || missing (p_committed paths) then false
  else negb (text_equal (p_target paths) (p_staging paths)) &&
    negb (text_equal (p_target paths) (p_rollback paths)) &&
    negb (text_equal (p_target paths) (p_committed paths)) &&
    negb (text_equal (p_staging paths) (p_rollback paths)) &&
    negb (text_equal (p_staging paths) (p_committed paths)) &&
    negb (text_equal (p_rollback paths) (p_committed paths)).

(** The status and [*present] (meaningful when the status is [Ok]). *)
Definition exists_file (path : string) : prog (Status * bool) :=
  status ← call (Stat path);
  match status with
  | BOk => mret (Ok, true)
  | BNotFound => mret (Ok, false)
  | _ => mret (RecoveryFailed, false)
  end.

Definition sync_ok : prog bool :=
  status ← call Sync; mret (bool_decide (status = BOk)).

(** [removed != Ok && removed != NotFound]. *)
Definition unlink_failed (removed : BackendStatus) : bool :=
  negb (bool_decide (removed = BOk)) && negb (bool_decide (removed = BNotFound)).

Definition failed (status : BackendStatus) : bool := negb (bool_decide (status = BOk)).

Definition is_ok (status : Status) : bool := bool_decide (status = Ok).

Section code.
Context (target staging rollback committed : string).

Definition remove_staging : prog Status :=
  '(status, staging_present) ← exists_file staging;
  if negb (is_ok status) then mret status
  else if negb staging_present then mret Ok
  else
    removed ← call (Unlink staging);
    if unlink_failed removed then mret StagingCleanupFailed
    else synced ← sync_ok; mret (if synced : bool then Ok else StagingCleanupFailed).

Definition restore_rename : prog Status :=
  restored ← call (Rename rollback target);
  if failed restored then mret RollbackFailed
  else synced ← sync_ok; mret (if synced : bool then Ok else RollbackSyncFailed).

Definition restore_rollback (target_may_exist : bool) : prog Status :=
  if target_may_exist then
    removed ← call (Unlink target);
    if unlink_failed removed then mret RollbackFailed else restore_rename
  else restore_rename.

(** The two branches of the recovery that have an artifact to resolve. *)
Definition recover_rollback (target_present : bool) : prog Status :=
  status ← restore_rollback target_present;
  if negb (is_ok status) then mret RecoveryFailed else remove_staging.

Definition recover_committed (target_present : bool) : prog Status :=
  if target_present then
    removed ← call (Unlink committed);
    if unlink_failed removed then mret RecoveryFailed
    else synced ← sync_ok; if negb synced then mret RecoveryFailed else remove_staging
  else
    restored ← call (Rename committed target);
    if failed restored then mret RecoveryFailed
    else synced ← sync_ok; if negb synced then mret RecoveryFailed else remove_staging.

Definition recover_interrupted : prog Status :=
  '(status, rollback_present) ← exists_file rollback;
  if negb (is_ok status) then mret status else
  '(status, committed_present) ← exists_file committed;
  if negb (is_ok status) then mret status
  else if rollback_present && committed_present then mret StateConflict else
  '(status, target_present) ← exists_file target;
  if negb (is_ok status) then mret status
  else if rollback_present : bool then recover_rollback target_present
  else if committed_present : bool then recover_committed target_present
  else remove_staging.

(** The tail of [replace], from the renaming that retires the old contents. *)
Definition commit : prog Status :=
  backend ← call (Rename rollback committed);
  if failed backend then mret CommitMarkerRenameFailed else
  synced ← sync_ok;
  if negb synced then mret CommitMarkerSyncFailed else
  backend ← call (Unlink committed);
  if unlink_failed backend then mret CleanupFailed else
  synced ← sync_ok;
  mret (if synced : bool then Ok else CleanupSyncFailed).

(** [rollback == Ok ? failure : rollback], after undoing the renames. *)
Definition undo (target_may_exist : bool) (failure : Status) : prog Status :=
  status ← restore_rollback target_may_exist;
  mret (if is_ok status then failure else status).

Definition publish (target_present : bool) : prog Status :=
  backend ← call (Rename staging target);
  if failed backend then
    if target_present then undo false PublishRenameFailed else mret PublishRenameFailed
  else
  synced ← sync_ok;
  if negb synced then
    if target_present then undo true PublishSyncFailed else mret PublishSyncFailed
  else if negb target_present then mret Ok
  else commit.

Definition backup_and_publish : prog Status :=
  '(status, target_present) ← exists_file target;
  if negb (is_ok status) then mret status
  else if target_present : bool then
    backend ← call (Rename target rollback);
    if failed backend then mret BackupRenameFailed else
    synced ← sync_ok;
    if negb synced then undo false BackupSyncFailed
    else publish true
  else publish false.

Definition stage (bytes : list Z) (size : Z) : prog Status :=
  backend ← call (Create staging);
  if failed backend then mret StagingCreateFailed else
  backend ← (if negb (size =? 0) then call (Write staging 0 bytes) else mret BOk);
  if failed backend then mret StagingWriteFailed else
  synced ← sync_ok;
  if negb synced then mret StagingSyncFailed
  else backup_and_publish.

End code.

(** The [size] bytes that [data] points to. *)
Definition buffer (data : option (list Z)) (size : Z) : list Z := take (Z.to_nat size) (default [] data).

Definition replace (operations : Operations) (paths : Paths) (data : option (list Z)) (size : Z) : prog Status :=
  if negb (valid_operations operations) || negb (valid_paths paths) ||
     (bool_decide (data = None) && negb (size =? 0))
  then mret InvalidArgument
  else
    let target := text (p_target paths) in
    let staging := text (p_staging paths) in
    let rollback := text (p_rollback paths) in
    let committed := text (p_committed paths) in
    status ← recover_interrupted target staging rollback committed;
    if negb (is_ok status) then mret status
    else stage target staging rollback committed (buffer data size) size.

(** ** The backend that the header requires

    The file system maps names to contents. [after_crash] holds the contents a
    reboot may find if power is lost now: each mutation since the last successful
    [sync] may or may not have reached the disk, in any combination, and a write
    may have left arbitrary contents. *)

Abbreviation Files := (gmap string (list Z)).

Record Disk := mkDisk { view : Files; after_crash : Files -> Prop }.

(** The disk found at boot. *)
Definition booted (f : Files) : Disk := mkDisk f (eq f).

Definition splice (offset : nat) (data old : list Z) : list Z :=
  resize offset 0 old ++ data ++ drop (offset + length data) old.

(** What a mutation does to the names and contents; nothing where it does not
    apply ([rename] refuses to overwrite). *)
Definition apply_call (c : Call) (f : Files) : Files :=
  match c with
  | Create p => match f !! p with None => <[p := []]> f | Some _ => f end
  | Write p offset data => match f !! p with Some old => <[p := splice offset data old]> f | None => f end
  | Unlink p => delete p f
  | Rename a b =>
      match f !! a, f !! b with
      | Some content, None => <[b := content]> (delete a f)
      | _, _ => f
      end
  | Stat _ | Sync => f
  end.

Definition call_enabled (c : Call) (f : Files) : bool :=
  match c with
  | Create p => bool_decide (f !! p = None)
  | Stat p | Write p _ _ | Unlink p => bool_decide (is_Some (f !! p))
  | Rename a b => bool_decide (is_Some (f !! a)) && bool_decide (f !! b = None)
  | Sync => true
  end.

(** A mutation that reached the disk, completely or, for a write, in part. *)
Inductive lands : Call -> Files -> Files -> Prop :=
  | lands_all c f : lands c f (apply_call c f)
  | lands_torn p offset data f old content :
      f !! p = Some old -> lands (Write p offset data) f (<[p := content]> f).

(** The disk after a mutation that may have reached it. *)
Definition pending (c : Call) (f : Files) (d : Disk) : Disk :=
  mkDisk f (fun g => after_crash d g \/ exists g0, after_crash d g0 /\ lands c g0 g).

Definition is_mutation (c : Call) : bool :=
  match c with Stat _ | Sync => false | _ => true end.

(** [backend_call d c st d']: the call [c] on [d] may return [st] and leave [d']. *)
Inductive backend_call : Disk -> Call -> BackendStatus -> Disk -> Prop :=
  | call_stat d p : is_Some (view d !! p) -> backend_call d (Stat p) BOk d
  | call_absent d c p : (c = Stat p \/ c = Unlink p) -> view d !! p = None -> backend_call d c BNotFound d
  | call_mutate d c : is_mutation c = true -> call_enabled c (view d) = true ->
      backend_call d c BOk (pending c (apply_call c (view d)) d)
  | call_sync d : backend_call d Sync BOk (booted (view d))
  (** any call may fail, and then has no effect, except that a failed write may
      have changed the contents; [NotFound] from [stat] and [unlink] is the truth *)
  | call_failed d c st : st ≠ BOk -> (st = BNotFound -> forall p, c ≠ Unlink p /\ c ≠ Stat p) ->
      backend_call d c st d
  | call_write_failed d p offset data st f : st ≠ BOk ->
      lands (Write p offset data) (view d) f ->
      backend_call d (Write p offset data) st (pending (Write p offset data) f d).

(** A run ends with a status, or with power lost before some call. *)
Inductive run {A} : Disk -> prog A -> Disk -> option A -> Prop :=
  | run_ret d a : run d (Ret a) d (Some a)
  | run_crash d m : run d m d None
  | run_call d c k st d1 d2 o : backend_call d c st d1 -> run d1 (k st) d2 o -> run d (Do c k) d2 o.

(** The backend that never fails, as a function; [run_ok] runs a program on it. *)
Definition call_ok (d : Disk) (c : Call) : BackendStatus * Disk :=
  match c with
  | Sync => (BOk, booted (view d))
  | Stat p => (if call_enabled c (view d) then BOk else BNotFound, d)
  | _ =>
      if call_enabled c (view d) then (BOk, pending c (apply_call c (view d)) d)
      else match c with Create _ => (BAlreadyExists, d)
           | Rename _ b => (if bool_decide (is_Some (view d !! b)) then BAlreadyExists else BNotFound, d)
           | _ => (BNotFound, d) end
  end.

Fixpoint run_ok {A} (d : Disk) (m : prog A) : Disk * A :=
  match m with
  | Ret a => (d, a)
  | Do c k => let '(st, d') := call_ok d c in run_ok d' (k st)
  end.

Lemma call_ok_sound d c : backend_call d c (call_ok d c).1 (call_ok d c).2.
Proof.
  destruct (is_mutation c) eqn:Hm.
  - assert (call_ok d c = if call_enabled c (view d) then (BOk, pending c (apply_call c (view d)) d)
            else ((call_ok d c).1, d)) as E.
    { destruct c; try done; cbn; by repeat case_bool_decide. }
    destruct (call_enabled c (view d)) eqn:He; rewrite E; cbn [fst snd]; [by apply call_mutate|].
    destruct c; try done; cbn in *; rewrite ?He in *; cbn; repeat case_bool_decide; cbn;
      try (apply call_failed; done).
    eapply call_absent; [by right|]. by apply eq_None_not_Some.
  - destruct c; try done; cbn; [|constructor]. case_bool_decide; [by constructor|].
    eapply call_absent; [by left|]. by apply eq_None_not_Some.
Qed.

Lemma run_ok_sound {A} d (m : prog A) : run d m (run_ok d m).1 (Some (run_ok d m).2).
Proof.
  revert d; induction m as [a|c k IH]; intros d; cbn; [constructor|].
  pose proof (call_ok_sound d c) as Hc. destruct (call_ok d c) as [st d']. by econstructor.
Qed.

(** ** Weakest preconditions with a crash condition

    [wpc C m Q d]: [C] holds whenever power is lost during [m] from [d], and [Q]
    holds of the status and the disk when [m] returns. *)
Section wpc.
Context (C : Disk -> Prop).

Fixpoint wpc {A} (m : prog A) (Q : A -> Disk -> Prop) (d : Disk) : Prop :=
  C d /\
  match m with
  | Ret a => Q a d
  | Do c k => forall st d', backend_call d c st d' -> wpc (k st) Q d'
  end.

Lemma wpc_crash {A} (m : prog A) Q d : wpc m Q d -> C d.
Proof. destruct m; by intros [? _]. Qed.

Lemma wpc_bind {A B} (m : prog A) (f : A -> prog B) Q d :
  wpc m (fun a => wpc (f a) Q) d -> wpc (m ≫= f) Q d.
Proof.
  revert d; induction m as [a|c k IH]; intros d [HC Hm]; [done|].
  split; [done|]. intros st d' Hb. by apply IH, Hm.
Qed.

Lemma wpc_ret {A} (a : A) (Q : A -> Disk -> Prop) d : C d -> Q a d -> wpc (mret a) Q d.
Proof. by split. Qed.

Lemma wpc_call c (Q : BackendStatus -> Disk -> Prop) d :
  C d -> (forall st d', backend_call d c st d' -> C d' /\ Q st d') -> wpc (call c) Q d.
Proof. intros HC H. split; [done|]. intros st d' Hb. by apply H. Qed.

(** [wpc] describes every run. *)
Lemma wpc_run {A} (m : prog A) Q d d' o :
  wpc m Q d -> run d m d' o -> C d' /\ (forall a, o = Some a -> Q a d').
Proof.
  intros Hw Hr. revert Hw. induction Hr as [d a|d m|d c k st d1 d2 o Hb _ IH]; intros Hw.
  - destruct Hw as [HC HQ]. split; [done|]. by intros ? [= <-].
  - split; [by eapply wpc_crash|done].
  - destruct Hw as [HC Hw]. eauto.
Qed.

End wpc.

Lemma wpc_weaken {A} (C C' : Disk -> Prop) (m : prog A) (Q Q' : A -> Disk -> Prop) d :
  wpc C m Q d -> (forall d', C d' -> C' d') -> (forall a d', C d' -> Q a d' -> Q' a d') -> wpc C' m Q' d.
Proof.
  intros Hw HC HQ. revert d Hw; induction m as [a|c k IH]; intros d [HCd Hm]; split; eauto.
Qed.

(** ** What a recovery would find *)

Section correctness.
Context (target staging rollback committed : string).
Context (Hts : target ≠ staging) (Htr : target ≠ rollback) (Htc : target ≠ committed)
  (Hsr : staging ≠ rollback) (Hsc : staging ≠ committed) (Hrc : rollback ≠ committed).

Definition artifacts : list string := [target; staging; rollback; committed].

(** The contents that recovery leaves in the target: the rollback copy wins over
    the target, the target over the committed copy. *)
Definition recovered (f : Files) : option (list Z) :=
  match f !! rollback, f !! committed with
  | Some old, _ => Some old
  | None, Some old => match f !! target with Some new => Some new | None => Some old end
  | None, None => f !! target
  end.

Definition conflict (f : Files) : Prop := is_Some (f !! rollback) /\ is_Some (f !! committed).

(** A state of the disk from which recovery restores one of the contents [V], the
    files outside the transaction being those of [base]. *)
Definition recoverable (base : Files) (V : option (list Z) -> Prop) (f : Files) : Prop :=
  ~ conflict f /\ V (recovered f) /\ forall q, q ∉ artifacts -> f !! q = base !! q.

(** Every state that a reboot may find is recoverable; moreover recovery, which
    decides on what it sees, may delete the target (the committed copy) only when
    the other copy is on the disk too. *)
Record safe (base : Files) (V : option (list Z) -> Prop) (d : Disk) : Prop := {
  safe_view : after_crash d (view d);
  safe_states : forall f, after_crash d f -> recoverable base V f;
  safe_rollback : is_Some (view d !! rollback) -> is_Some (view d !! target) ->
    forall f, after_crash d f -> is_Some (f !! rollback);
  safe_committed : is_Some (view d !! committed) -> is_Some (view d !! target) ->
    forall f, after_crash d f -> is_Some (f !! committed) -> is_Some (f !! target) }.

Lemma recoverable_mono base (V W : option (list Z) -> Prop) f :
  (forall v, V v -> W v) -> recoverable base V f -> recoverable base W f.
Proof. intros HV (? & ? & ?). repeat split; auto. Qed.

Lemma safe_mono base (V W : option (list Z) -> Prop) d :
  (forall v, V v -> W v) -> safe base V d -> safe base W d.
Proof. intros HV [H1 H2 H3 H4]. split; eauto using recoverable_mono. Qed.

(** A disk that holds one state. *)
Lemma safe_booted base V f : recoverable base V f -> safe base V (booted f).
Proof. intros Hf. split; cbn; try done; by intros; subst. Qed.

Lemma safe_reboot base V d f : safe base V d -> after_crash d f -> safe base V (booted f).
Proof. intros Hd Hf. apply safe_booted. by eapply safe_states. Qed.

(** A sync makes the current view the only state. *)
Lemma safe_sync base V d : safe base V d -> safe base V (booted (view d)).
Proof. intros Hd. eapply safe_reboot; [done|]. by eapply safe_view. Qed.

(** *** Effects of the calls on the four names *)

(** Agreement on the names that decide the recovery. *)
Definition same_artifacts (f g : Files) : Prop :=
  g !! target = f !! target /\ g !! rollback = f !! rollback /\ g !! committed = f !! committed /\
  forall q, q ∉ artifacts -> g !! q = f !! q.

Lemma recoverable_same base V f g : same_artifacts f g -> recoverable base V f -> recoverable base V g.
Proof.
  intros (Et & Er & Ec & Eo) (Hc & HV & Ho). unfold recoverable, conflict, recovered in *.
  rewrite Et, Er, Ec. repeat split; try done. intros q Hq. rewrite Eo by done. by apply Ho.
Qed.

(** The calls that only touch the staging file. *)
Definition on_staging (c : Call) : Prop :=
  c = Create staging \/ (exists offset data, c = Write staging offset data) \/ c = Unlink staging.

Lemma not_artifact q : q ∉ artifacts -> q ≠ target /\ q ≠ staging /\ q ≠ rollback /\ q ≠ committed.
Proof. unfold artifacts. rewrite !not_elem_of_cons. tauto. Qed.

Lemma staging_insert x f : same_artifacts f (<[staging := x]> f).
Proof.
  unfold same_artifacts; split_and!; try (rewrite lookup_insert_ne by congruence; done).
  intros q (? & ? & ? & ?)%not_artifact. by rewrite lookup_insert_ne.
Qed.

Lemma staging_lands c f g : on_staging c -> lands c f g -> same_artifacts f g.
Proof.
  assert (same_artifacts f f) as Hrefl by done.
  intros Hc Hl. destruct Hl as [c f|p offset data f old content Hf].
  - destruct Hc as [->|[(offset & data & ->)| ->]]; cbn.
    + case_match; [done|apply staging_insert].
    + case_match; [apply staging_insert|done].
    + unfold same_artifacts; split_and!; try (rewrite lookup_delete_ne by congruence; done).
      intros q (? & ? & ? & ?)%not_artifact. by rewrite lookup_delete_ne.
  - destruct Hc as [|[(o & dt & [= -> -> ->])|]]; try done. apply staging_insert.
Qed.

Lemma safe_staging base V c f d :
  on_staging c -> lands c (view d) f -> safe base V d -> safe base V (pending c f d).
Proof.
  intros Hc Hf [H1 H2 H3 H4]. pose proof (staging_lands _ _ _ Hc Hf) as (Et & Er & Ec & Eo).
  split; cbn.
  - right. eauto.
  - intros g [Hg|(g0 & Hg0 & Hl)]; [by apply H2|].
    eapply recoverable_same; [by eapply staging_lands|]. by apply H2.
  - rewrite Et, Er. intros Hr Ht g [Hg|(g0 & Hg0 & Hl)]; [by apply H3|].
    apply staging_lands in Hl as (_ & -> & _ & _); [|done]. by apply H3.
  - rewrite Et, Ec. intros Hr Ht g [Hg|(g0 & Hg0 & Hl)]; [by apply H4|].
    apply staging_lands in Hl as (-> & _ & -> & _); [|done]. by apply H4.
Qed.

(** *** Inversion of the backend relation *)

Lemma inv_stat d p st d' : backend_call d (Stat p) st d' ->
  d' = d /\ (st = BOk -> is_Some (view d !! p)) /\ (st = BNotFound -> view d !! p = None).
Proof.
  intros H. inversion H; subst; try done; [naive_solver|].
  split_and!; [done|by intros ->|]. intros E. by destruct (H1 E p).
Qed.

Lemma inv_sync d st d' : backend_call d Sync st d' ->
  (st = BOk /\ d' = booted (view d)) \/ (st ≠ BOk /\ d' = d).
Proof. intros H. inversion H; subst; try done; naive_solver. Qed.

Lemma inv_mutation d c st d' :
  is_mutation c = true -> (forall p offset data, c ≠ Write p offset data) -> backend_call d c st d' ->
  (st = BOk /\ call_enabled c (view d) = true /\ d' = pending c (apply_call c (view d)) d) \/
  (st ≠ BOk /\ d' = d /\ (st = BNotFound -> forall p, c = Unlink p -> view d !! p = None)).
Proof.
  intros Hc Hw H. inversion H; subst; try done; auto.
  - right. split_and!; try done. intros _ q ->. destruct H0 as [|[= <-]]; done.
  - right. split_and!; try done. intros E p ->. by destruct (H1 E p).
  - by destruct (Hw p offset data).
Qed.

Lemma inv_write d p offset data st d' : backend_call d (Write p offset data) st d' ->
  (st = BOk /\ call_enabled (Write p offset data) (view d) = true /\
     d' = pending (Write p offset data) (apply_call (Write p offset data) (view d)) d) \/
  (st ≠ BOk /\ (d' = d \/ exists f, lands (Write p offset data) (view d) f /\ d' = pending (Write p offset data) f d)).
Proof. intros H. inversion H; subst; try done; eauto 10. Qed.

Lemma failed_spec st : failed st = negb (bool_decide (st = BOk)).
Proof. done. Qed.

(** *** Rules for the calls of the code *)

Lemma wpc_exists C p Q d :
  C d -> Q (Ok, bool_decide (is_Some (view d !! p))) d -> Q (RecoveryFailed, false) d ->
  wpc C (exists_file p) Q d.
Proof.
  intros HC HQ HF. apply wpc_bind, wpc_call; [done|]. intros st d' (-> & Hok & Hnf)%inv_stat.
  split; [done|]. destruct st; (apply wpc_ret; [done|]); try done.
  - rewrite bool_decide_eq_true_2 in HQ by auto. done.
  - rewrite bool_decide_eq_false_2 in HQ; [done|]. rewrite Hnf by done. by apply is_Some_None.
Qed.

Lemma wpc_sync (C : Disk -> Prop) Q d :
  C d -> C (booted (view d)) -> Q true (booted (view d)) -> Q false d -> wpc C sync_ok Q d.
Proof.
  intros HC HC' Ht Hf. apply wpc_bind, wpc_call; [done|].
  intros st d' [[-> ->]|[Hne ->]]%inv_sync; (split; [done|]); apply wpc_ret; try done.
  by rewrite bool_decide_eq_false_2.
Qed.

Lemma wpc_mutation (C : Disk -> Prop) c (Q : BackendStatus -> Disk -> Prop) d :
  is_mutation c = true -> (forall p offset data, c ≠ Write p offset data) -> C d ->
  (call_enabled c (view d) = true ->
    C (pending c (apply_call c (view d)) d) /\ Q BOk (pending c (apply_call c (view d)) d)) ->
  (forall st, st ≠ BOk -> (st = BNotFound -> forall p, c = Unlink p -> view d !! p = None) -> Q st d) ->
  wpc C (call c) Q d.
Proof.
  intros Hc Hw HC Hok Hf. apply wpc_call; [done|].
  intros st d' [(-> & He & ->)|(Hne & -> & Hnf)]%inv_mutation; auto.
Qed.

(** A removal whose failure is an error of the caller; a file that was missing is
    as good as removed. *)
Lemma wpc_unlink {B} (C : Disk -> Prop) p Q d (e : B) (m : prog B) :
  C d ->
  (is_Some (view d !! p) ->
    C (pending (Unlink p) (delete p (view d)) d) /\ wpc C m Q (pending (Unlink p) (delete p (view d)) d)) ->
  (view d !! p = None -> wpc C m Q d) ->
  Q e d ->
  wpc C (removed ← call (Unlink p); if unlink_failed removed then mret e else m) Q d.
Proof.
  intros HC Hok Hnone He. apply wpc_bind, wpc_mutation; try done.
  - cbn. rewrite bool_decide_eq_true. auto.
  - intros st Hne Hnf. unfold unlink_failed. rewrite (bool_decide_eq_false_2 (st = BOk)) by done.
    case_bool_decide; cbn.
    + apply Hnone. by eapply Hnf.
    + by apply wpc_ret.
Qed.

Lemma wpc_or_fail {B} (C : Disk -> Prop) c (m m' : prog B) Q d :
  is_mutation c = true -> (forall p offset data, c ≠ Write p offset data) -> C d ->
  (call_enabled c (view d) = true ->
    C (pending c (apply_call c (view d)) d) /\ wpc C m Q (pending c (apply_call c (view d)) d)) ->
  wpc C m' Q d ->
  wpc C (st ← call c; if failed st then m' else m) Q d.
Proof.
  intros Hc Hw HC Hok Hf. apply wpc_bind, wpc_mutation; try done.
  intros st Hne _. unfold failed. by rewrite bool_decide_eq_false_2.
Qed.

(** *** The steps of recovery keep every state recoverable *)

Ltac names :=
  repeat (rewrite lookup_insert_eq || rewrite lookup_delete_eq
          || (rewrite lookup_insert_ne by congruence) || (rewrite lookup_delete_ne by congruence)).
Ltac other_names :=
  let q := fresh "q" in let Hq := fresh in
  intros q Hq; destruct (not_artifact q Hq) as (? & ? & ? & ?); names.

Lemma rename_present a b f x :
  f !! a = Some x -> f !! b = None -> apply_call (Rename a b) f = <[b := x]> (delete a f).
Proof. intros Ha Hb. cbn. by rewrite Ha, Hb. Qed.

Lemma recoverable_restore base V f :
  recoverable base V f -> recoverable base V (apply_call (Rename rollback target) f).
Proof.
  intros Hf. destruct (f !! rollback) as [old|] eqn:Er; [|cbn; by rewrite Er].
  destruct (f !! target) as [x|] eqn:Et; [cbn; by rewrite Er, Et|].
  rewrite (rename_present _ _ _ old) by done. destruct Hf as (Hc & HV & Ho).
  destruct (f !! committed) as [y|] eqn:Ec; [destruct Hc; unfold conflict; rewrite Er, Ec; by eauto|].
  unfold recoverable, conflict, recovered in *. rewrite Er in HV.
  split; [|split]; names; rewrite ?Ec; [naive_solver|done|]. other_names. by apply Ho.
Qed.

Lemma recoverable_promote base V f :
  recoverable base V f -> recoverable base V (apply_call (Rename committed target) f).
Proof.
  intros Hf. destruct (f !! committed) as [old|] eqn:Ec; [|cbn; by rewrite Ec].
  destruct (f !! target) as [x|] eqn:Et; [cbn; by rewrite Ec, Et|].
  rewrite (rename_present _ _ _ old) by done. destruct Hf as (Hc & HV & Ho).
  destruct (f !! rollback) as [y|] eqn:Er; [destruct Hc; unfold conflict; rewrite Er, Ec; by eauto|].
  unfold recoverable, conflict, recovered in *. rewrite Er, Ec, Et in HV.
  split; [|split]; names; rewrite ?Er; [naive_solver|done|]. other_names. by apply Ho.
Qed.

Lemma recoverable_drop_target base V f :
  is_Some (f !! rollback) -> recoverable base V f -> recoverable base V (delete target f).
Proof.
  intros [old Er] (Hc & HV & Ho). unfold recoverable, conflict, recovered in *. rewrite Er in *.
  split_and!; names; rewrite ?Er; try done. other_names. by apply Ho.
Qed.

Lemma recoverable_drop_committed base V f :
  (is_Some (f !! committed) -> is_Some (f !! target)) -> recoverable base V f ->
  recoverable base V (delete committed f).
Proof.
  intros Hct (Hc & HV & Ho). unfold recoverable, conflict, recovered in *.
  split_and!; names.
  - intros [_ [? [=]]].
  - destruct (f !! rollback); [done|]. destruct (f !! committed); [|done].
    destruct Hct as [y Hy]; [done|]. by rewrite Hy in *.
  - other_names. by apply Ho.
Qed.

Definition not_write (c : Call) : Prop := forall p offset data, c ≠ Write p offset data.

Lemma lands_not_write c f g : not_write c -> lands c f g -> g = apply_call c f.
Proof. intros Hc Hl. destruct Hl as [|p offset data]; [done|]. by destruct (Hc p offset data). Qed.

(** A mutation that keeps the recovered contents of every state, after which the
    target is not next to another copy in the view. *)
Lemma safe_pending base V c d :
  not_write c -> safe base V d ->
  (forall g, after_crash d g -> recoverable base V g -> recoverable base V (apply_call c g)) ->
  let f := apply_call c (view d) in
  f !! target = None \/ (f !! rollback = None /\ f !! committed = None) ->
  safe base V (pending c f d).
Proof.
  intros Hc [H1 H2 H3 H4] Hstep f Hv. subst f. split; cbn.
  - right. eexists. split; [done|constructor].
  - intros g [Hg|(g0 & Hg0 & ->%lands_not_write)]; auto.
  - intros [x Hx] [y Hy]. destruct Hv as [Hv|[Hv _]]; congruence.
  - intros [x Hx] [y Hy]. destruct Hv as [Hv|[_ Hv]]; congruence.
Qed.

Lemma safe_no_conflict base V d : safe base V d -> is_Some (view d !! rollback) -> view d !! committed = None.
Proof.
  intros Hd Hr. apply eq_None_not_Some. intros Hc.
  destruct (safe_states _ _ _ Hd _ (safe_view _ _ _ Hd)) as [Hnc _]. by apply Hnc.
Qed.

(** The view after a successful step of the code: the artifacts it leaves. *)
Definition clean (f : Files) : Prop := f !! rollback = None /\ f !! committed = None.

Lemma clean_recovered f : clean f -> recovered f = f !! target.
Proof. intros [Er Ec]. unfold recovered. by rewrite Er, Ec. Qed.

Lemma remove_staging_ok base V d :
  safe base V d ->
  wpc (safe base V) (remove_staging staging) (fun st d' => safe base V d' /\
    (st = Ok -> view d' !! staging = None /\ same_artifacts (view d) (view d'))) d.
Proof.
  intros Hd. assert (same_artifacts (view d) (view d)) as Hrefl by done.
  apply wpc_bind, wpc_exists; [done| |by apply wpc_ret]. cbn [is_ok negb].
  case_bool_decide as Hs; cbn [negb].
  - apply wpc_unlink; [done| | |done].
    + intros _. assert (safe base V (pending (Unlink staging) (delete staging (view d)) d)) as Hd1.
      { apply safe_staging; [by right; right|apply lands_all|done]. }
      split; [done|]. apply wpc_bind, wpc_sync; [done|by apply safe_sync in Hd1| |by apply wpc_ret].
      apply safe_sync in Hd1. apply wpc_ret; [done|]. split; [done|]. intros _. cbn. names.
      split; [done|]. apply (staging_lands (Unlink staging)); [by right; right|constructor].
    + intros Hn. rewrite Hn in Hs. by apply is_Some_None in Hs.
  - apply wpc_ret; [done|]. split; [done|]. intros _. split; [|done]. by apply eq_None_not_Some.
Qed.

(** Undoing the renames: the rollback copy becomes the target again. *)
Definition restored (f f' : Files) : Prop :=
  clean f' /\ f' !! target = f !! rollback /\ f' !! staging = f !! staging.

Lemma restore_rename_ok base V d :
  safe base V d -> is_Some (view d !! rollback) -> view d !! target = None ->
  wpc (safe base V) (restore_rename target rollback)
    (fun st d' => safe base V d' /\ (st = Ok -> restored (view d) (view d'))) d.
Proof.
  intros Hd Hr Ht. pose proof (safe_no_conflict _ _ _ Hd Hr) as Hc. destruct Hr as [old Hr].
  pose proof (rename_present _ _ _ _ Hr Ht) as E.
  apply wpc_or_fail; try done. intros _.
  assert (safe base V (pending (Rename rollback target) (apply_call (Rename rollback target) (view d)) d)) as Hd1.
  { apply safe_pending; try done; [|right; rewrite E; by names]. intros g _. apply recoverable_restore. }
  split; [done|]. pose proof (safe_sync _ _ _ Hd1) as Hd2.
  apply wpc_bind, wpc_sync; try done. apply wpc_ret; [done|]. split; [done|].
  intros _. cbn [view booted pending]. rewrite E. unfold restored, clean. names. by rewrite Hc, Hr.
Qed.

Lemma restore_rollback_ok base V d target_may_exist :
  safe base V d -> is_Some (view d !! rollback) ->
  (target_may_exist = false -> view d !! target = None) ->
  wpc (safe base V) (restore_rollback target rollback target_may_exist)
    (fun st d' => safe base V d' /\ (st = Ok -> restored (view d) (view d'))) d.
Proof.
  intros Hd Hr Hf. destruct target_may_exist; [|by apply restore_rename_ok; auto].
  apply wpc_unlink; [done| |by apply restore_rename_ok|done].
  intros Ht. assert (safe base V (pending (Unlink target) (delete target (view d)) d)) as Hd1.
  { apply (safe_pending _ _ (Unlink target)); try done; [|left; cbn; by names].
    intros g Hg. apply recoverable_drop_target. by apply (safe_rollback _ _ _ Hd). }
  split; [done|]. eapply wpc_weaken; [apply restore_rename_ok; try done; cbn; by names|done|].
  intros st d' Hd' [_ Hres]. split; [done|]. intros HOk. destruct (Hres HOk) as (? & E1 & E2).
  split; [done|]. revert E1 E2. cbn. by names.
Qed.

(** What [recover_interrupted] achieves when it reports success. *)
Definition settled (f f' : Files) : Prop :=
  clean f' /\ f' !! staging = None /\ f' !! target = recovered f.

Lemma settled_staging base V d d' f :
  clean (view d) -> view d !! target = recovered f ->
  safe base V d' -> same_artifacts (view d) (view d') -> view d' !! staging = None ->
  settled f (view d').
Proof.
  intros [Hr Hc] Ht _ (Et & Er & Ec & _) Hs. unfold settled, clean. by rewrite Er, Ec, Et.
Qed.

(** [remove_staging] after the artifacts have been resolved. *)
Lemma remove_staging_settled base V d f :
  safe base V d -> clean (view d) -> view d !! target = recovered f ->
  wpc (safe base V) (remove_staging staging)
    (fun st d' => safe base V d' /\ (st = Ok -> settled f (view d'))) d.
Proof.
  intros Hd Hc Ht. eapply wpc_weaken; [by apply remove_staging_ok|done|].
  intros st d' Hd' [_ H]. split; [done|]. intros HOk. destruct (H HOk).
  by eapply settled_staging.
Qed.

Lemma recover_rollback_ok base V d target_present :
  safe base V d -> is_Some (view d !! rollback) ->
  target_present = bool_decide (is_Some (view d !! target)) ->
  wpc (safe base V) (recover_rollback target staging rollback target_present)
    (fun st d' => safe base V d' /\ (st = Ok -> settled (view d) (view d'))) d.
Proof.
  intros Hd Hr ->. apply wpc_bind. eapply wpc_weaken;
    [apply restore_rollback_ok; [done|done|]|done|].
  - intros Hb%bool_decide_eq_false. by apply eq_None_not_Some.
  - intros st d1 Hd1 [_ Hres]. unfold is_ok. case_bool_decide as HOk; cbn [negb];
      [|by apply wpc_ret].
    destruct (Hres HOk) as (Hcl & Et & _). apply remove_staging_settled; try done.
    rewrite Et. unfold recovered. by destruct Hr as [x ->].
Qed.

Lemma recover_committed_ok base V d target_present :
  safe base V d -> view d !! rollback = None -> is_Some (view d !! committed) ->
  target_present = bool_decide (is_Some (view d !! target)) ->
  wpc (safe base V) (recover_committed target staging committed target_present)
    (fun st d' => safe base V d' /\ (st = Ok -> settled (view d) (view d'))) d.
Proof.
  intros Hd Hr Hc ->. unfold recover_committed. case_bool_decide as Ht.
  - apply wpc_unlink; [done| | |done].
    + intros _. assert (safe base V (pending (Unlink committed) (delete committed (view d)) d)) as Hd1.
      { apply (safe_pending _ _ (Unlink committed)); try done; [|right; cbn; by names].
        intros g Hg. apply recoverable_drop_committed. by apply (safe_committed _ _ _ Hd). }
      split; [done|]. pose proof (safe_sync _ _ _ Hd1) as Hd2.
      apply wpc_bind, wpc_sync; try done. cbn [negb].
      apply remove_staging_settled; [done| |]; cbn; unfold clean, recovered; names; [done|].
      rewrite Hr. destruct Hc as [? ->], Ht as [? ->]. done.
    + intros Hn. rewrite Hn in Hc. by apply is_Some_None in Hc.
  - apply eq_None_not_Some in Ht. destruct Hc as [old Hc].
    pose proof (rename_present _ _ _ _ Hc Ht) as E.
    apply wpc_or_fail; try done. intros _.
    assert (safe base V (pending (Rename committed target) (apply_call (Rename committed target) (view d)) d)) as Hd1.
    { apply safe_pending; try done; [|right; rewrite E; by names]. intros g _. apply recoverable_promote. }
    split; [done|]. pose proof (safe_sync _ _ _ Hd1) as Hd2.
    apply wpc_bind, wpc_sync; try done. cbn [negb].
    apply remove_staging_settled; [done| |]; cbn [view booted pending]; rewrite E;
      unfold clean, recovered; names; [done|]. by rewrite Hr, Hc, Ht.
Qed.

Lemma recover_ok base V d :
  safe base V d ->
  wpc (safe base V) (recover_interrupted target staging rollback committed)
    (fun st d' => safe base V d' /\ (st = Ok -> settled (view d) (view d'))) d.
Proof.
  intros Hd.
  apply wpc_bind, wpc_exists; [done| |by apply wpc_ret]. cbn [is_ok negb].
  apply wpc_bind, wpc_exists; [done| |by apply wpc_ret]. cbn [is_ok negb].
  destruct (bool_decide (is_Some (view d !! rollback)) && _) eqn:Hb; [by apply wpc_ret|].
  apply wpc_bind, wpc_exists; [done| |by apply wpc_ret]. cbn [is_ok negb].
  case_bool_decide as Hr; [by apply recover_rollback_ok|]. apply eq_None_not_Some in Hr.
  case_bool_decide as Hc; [by apply recover_committed_ok|]. apply eq_None_not_Some in Hc.
  apply remove_staging_settled; try done. by rewrite clean_recovered.
Qed.

(** *** The statuses a program may return *)

Fixpoint leaves {A} (p : A -> bool) (m : prog A) : bool :=
  match m with
  | Ret a => p a
  | Do c k => forallb (fun st => leaves p (k st)) [BOk; BNotFound; BAlreadyExists; BFailure]
  end.

Lemma wpc_leaves {A} C p (m : prog A) Q d :
  wpc C m Q d -> leaves p m = true -> wpc C m (fun a d' => Q a d' /\ p a = true) d.
Proof.
  revert d; induction m as [a|c k IH]; intros d [HC Hm] Hl; [done|]. split; [done|].
  intros st d' Hb. apply IH; [by apply Hm|]. cbn in Hl. rewrite !andb_true_iff in Hl. destruct st; tauto.
Qed.

(** *** The forward path *)

(** What a recovery may find after [replace] has returned [st]: the new contents
    when the new file was published and committed, one of the former contents
    when it was not, and either when the last renaming may not have been saved. *)
Definition outcome (V : option (list Z) -> Prop) (new : list Z) (st : Status) (v : option (list Z)) : Prop :=
  match st with
  | Ok | CleanupFailed | CleanupSyncFailed => v = Some new
  | PublishSyncFailed | CommitMarkerSyncFailed => V v \/ v = Some new
  | _ => V v
  end.

Definition either (V : option (list Z) -> Prop) (new : list Z) (v : option (list Z)) : Prop :=
  V v \/ v = Some new.

(** The new contents are in place, on the disk itself, and nothing else is left. *)
Definition published (new : list Z) (d : Disk) : Prop :=
  view d !! target = Some new /\ view d !! staging = None /\ clean (view d) /\
  forall f, after_crash d f -> f = view d.

Definition replaced base V new (st : Status) (d : Disk) : Prop :=
  safe base (outcome V new st) d /\ (st = Ok -> published new d).

(** The statuses that leave the former contents. *)
Definition unpublished (st : Status) : bool :=
  match st with
  | Ok | CleanupFailed | CleanupSyncFailed | PublishSyncFailed | CommitMarkerSyncFailed => false
  | _ => true
  end.

Lemma replaced_unpublished base V new st d :
  unpublished st = true -> safe base V d -> replaced base V new st d.
Proof. intros Hst Hd. by destruct st. Qed.

Lemma safe_either base V new d : safe base V d -> safe base (either V new) d.
Proof. apply safe_mono. by left. Qed.

(** A renaming or removal on a disk whose only state is [f]. *)
Lemma safe_booted_step base V c f :
  not_write c -> recoverable base V f -> recoverable base V (apply_call c f) ->
  (is_Some (apply_call c f !! rollback) -> is_Some (f !! rollback)) \/ apply_call c f !! target = None ->
  (is_Some (f !! committed) -> is_Some (f !! target)) ->
  safe base V (pending c (apply_call c f) (booted f)).
Proof.
  intros Hc Hf Hg Hr Hct. split; cbn.
  - right. exists f. split; [done|constructor].
  - intros g [<-|(g0 & <- & ->%lands_not_write)]; done.
  - intros Hx [y Hy] g [<-|(g0 & <- & ->%lands_not_write)]; try done.
    destruct Hr as [Hr|Hr]; [auto|congruence].
  - intros Hx Hy g [<-|(g0 & <- & ->%lands_not_write)]; done.
Qed.

Lemma published_booted new f :
  f !! target = Some new -> f !! staging = None -> clean f -> published new (booted f).
Proof. intros. unfold published. split_and!; try done. Qed.

(** The new contents next to the copy being retired. *)
Lemma commit_ok base V f old new :
  f !! target = Some new -> f !! staging = None -> f !! rollback = Some old -> f !! committed = None ->
  recoverable base V f ->
  wpc (safe base (either V new)) (commit rollback committed) (replaced base V new) (booted f).
Proof.
  intros Ht Hs Hr Hc Hf. pose proof Hf as (_ & HV & Ho).
  set (N := fun v : option (list Z) => v = Some new).
  assert (forall d, safe base N d -> safe base (either V new) d) as HN.
  { intros d. apply safe_mono. by right. }
  pose proof (safe_booted base V f Hf) as Hd0.
  pose proof (rename_present _ _ _ _ Hr Hc) as E. set (f1 := <[committed:=old]> (delete rollback f)) in *.
  assert (recoverable base N f1) as Hf1.
  { unfold recoverable, conflict, recovered, f1. split; [|split]; names; rewrite ?Ht; [|done|].
    - intros [[? [=]] _].
    - other_names. by apply Ho. }
  assert (recoverable base N (delete committed f1)) as Hf2.
  { apply recoverable_drop_committed; [|done]. intros _. unfold f1. names. by rewrite Ht. }
  assert (safe base (either V new) (pending (Rename rollback committed) f1 (booted f))) as Hd1.
  { rewrite <- E. apply safe_booted_step; [done|..].
    - eapply recoverable_mono; [|exact Hf]. by left.
    - rewrite E. eapply recoverable_mono; [|exact Hf1]. by right.
    - left. rewrite E. unfold f1. names. by intros [? [=]].
    - rewrite Hc. by intros [? [=]]. }
  apply wpc_or_fail; try done; cbn [view booted]; [by apply safe_either| |].
  2:{ apply wpc_ret; [by apply safe_either|]. by apply replaced_unpublished. }
  intros _. rewrite E. split; [done|].
  pose proof (safe_booted base N f1 Hf1) as Hd2.
  assert (safe base N (pending (Unlink committed) (delete committed f1) (booted f1))) as Hd3.
  { apply (safe_booted_step _ _ (Unlink committed)); try done; cbn; unfold f1; names.
    - left. by intros [? [=]].
    - by rewrite Ht. }
  apply wpc_bind, wpc_sync; try done; cbn [view booted pending negb]; [by apply HN|].
  apply wpc_unlink; cbn [view booted]; [by apply HN| | |done].
  2:{ unfold f1. by names. }
  intros _. split; [by apply HN|]. pose proof (safe_booted base N _ Hf2) as Hd4.
  apply wpc_bind, wpc_sync; cbn [view booted pending]; try by apply HN.
  - apply wpc_ret; [by apply HN|]. split; [done|]. intros _.
    apply published_booted; unfold clean, f1; by names.
  - apply wpc_ret; [by apply HN|]. by split.
Qed.

(** Undoing the renames leaves one of the former contents. *)
Lemma undo_ok base V new d target_may_exist failure :
  safe base V d -> is_Some (view d !! rollback) ->
  (target_may_exist = false -> view d !! target = None) ->
  (failure = BackupSyncFailed \/ failure = PublishRenameFailed \/ failure = PublishSyncFailed) ->
  wpc (safe base (either V new)) (undo target rollback target_may_exist failure) (replaced base V new) d.
Proof.
  intros Hd Hr Ht Hfl. apply wpc_bind. eapply wpc_weaken.
  - apply (wpc_leaves _ (fun st => is_ok st || unpublished st)); [by apply (restore_rollback_ok base V)|].
    by destruct target_may_exist.
  - intros d'. apply safe_either.
  - intros st d' Hd' [_ Hst]. apply wpc_ret; [by apply safe_either|].
    destruct (is_ok st) eqn:HOk.
    + destruct Hfl as [->|[->| ->]]; (split; [|done]); [done..|]. by apply safe_either.
    + by apply replaced_unpublished.
Qed.

Lemma publish_backed_ok base V f old new :
  f !! target = None -> f !! staging = Some new -> f !! rollback = Some old -> f !! committed = None ->
  recoverable base V f ->
  wpc (safe base (either V new)) (publish target staging rollback committed true) (replaced base V new) (booted f).
Proof.
  intros Ht Hs Hr Hc Hf. pose proof Hf as (_ & HV & Ho). pose proof (safe_booted base V f Hf) as Hd0.
  pose proof (rename_present _ _ _ _ Hs Ht) as E. set (f1 := <[target:=new]> (delete staging f)) in *.
  assert (recoverable base V f1) as Hf1.
  { revert HV. unfold recoverable, conflict, recovered, f1. intros HV. rewrite Hr in HV.
    split; [|split]; names; rewrite ?Hr, ?Hc; [naive_solver|done|]. other_names. by apply Ho. }
  assert (safe base V (pending (Rename staging target) f1 (booted f))) as Hd1.
  { rewrite <- E. apply safe_booted_step; rewrite ?E; [done..| |].
    - left. unfold f1. by names.
    - rewrite Hc. by intros [? [=]]. }
  apply wpc_or_fail; try done; cbn [view booted]; [by apply safe_either| |].
  2:{ apply undo_ok; cbn [view booted]; eauto. }
  intros _. rewrite E. split; [by apply safe_either|].
  pose proof (safe_booted base V f1 Hf1) as Hd2.
  apply wpc_bind, wpc_sync; cbn [view booted pending negb]; try by apply safe_either.
  - apply (commit_ok _ _ _ old); try done; unfold f1; by names.
  - apply undo_ok; cbn [view pending]; auto; unfold f1; names; [by rewrite Hr|done].
Qed.

(** The first publication: there is no target to keep. *)
Lemma publish_first_ok base V f new :
  f !! target = None -> f !! staging = Some new -> clean f -> recoverable base V f ->
  wpc (safe base (either V new)) (publish target staging rollback committed false) (replaced base V new) (booted f).
Proof.
  intros Ht Hs [Hr Hc] Hf. pose proof Hf as (_ & HV & Ho). pose proof (safe_booted base V f Hf) as Hd0.
  set (N := fun v : option (list Z) => v = Some new).
  pose proof (rename_present _ _ _ _ Hs Ht) as E. set (f1 := <[target:=new]> (delete staging f)) in *.
  assert (recoverable base N f1) as Hf1.
  { unfold recoverable, conflict, recovered, f1.
    split; [|split]; names; rewrite ?Hr, ?Hc; [naive_solver|done|]. other_names. by apply Ho. }
  assert (safe base (either V new) (pending (Rename staging target) f1 (booted f))) as Hd1.
  { rewrite <- E. apply safe_booted_step; rewrite ?E; [done|..].
    - eapply recoverable_mono; [|exact Hf]. by left.
    - eapply recoverable_mono; [|exact Hf1]. by right.
    - left. unfold f1. names. by rewrite Hr.
    - rewrite Hc. by intros [? [=]]. }
  apply wpc_or_fail; try done; cbn [view booted]; [by apply safe_either| |].
  2:{ apply wpc_ret; [by apply safe_either|]. by apply replaced_unpublished. }
  intros _. rewrite E. split; [done|]. pose proof (safe_booted base N f1 Hf1) as Hd2.
  assert (safe base (either V new) (booted f1)) by (eapply safe_mono; [|exact Hd2]; by right).
  apply wpc_bind, wpc_sync; cbn [view booted pending negb]; try done.
  apply wpc_ret; [done|]. split; [done|]. intros _.
  apply published_booted; unfold clean, f1; by names.
Qed.

Lemma backup_and_publish_ok base V f new :
  f !! staging = Some new -> clean f -> recoverable base V f ->
  wpc (safe base (either V new)) (backup_and_publish target staging rollback committed)
    (replaced base V new) (booted f).
Proof.
  intros Hs Hcl Hf. pose proof Hcl as [Hr Hc]. pose proof Hf as (_ & HV & Ho).
  pose proof (safe_booted base V f Hf) as Hd0.
  apply wpc_bind, wpc_exists; [by apply safe_either| |].
  2:{ apply wpc_ret; [by apply safe_either|]. by apply replaced_unpublished. }
  cbn [is_ok negb view booted]. case_bool_decide as Ht.
  2:{ apply publish_first_ok; try done. by apply eq_None_not_Some. }
  destruct Ht as [old Ht].
  pose proof (rename_present _ _ _ _ Ht Hr) as E. set (f1 := <[rollback:=old]> (delete target f)) in *.
  assert (recoverable base V f1) as Hf1.
  { revert HV. unfold recoverable, conflict, recovered, f1. intros HV. rewrite Hr, Hc, Ht in HV.
    split; [|split]; names; rewrite ?Hc; [naive_solver|done|]. other_names. by apply Ho. }
  assert (safe base V (pending (Rename target rollback) f1 (booted f))) as Hd1.
  { rewrite <- E. apply safe_booted_step; rewrite ?E; [done..| |].
    - right. unfold f1. by names.
    - rewrite Hc. by intros [? [=]]. }
  apply wpc_or_fail; try done; cbn [view booted]; [by apply safe_either| |].
  2:{ apply wpc_ret; [by apply safe_either|]. by apply replaced_unpublished. }
  intros _. rewrite E. split; [by apply safe_either|]. pose proof (safe_booted base V f1 Hf1) as Hd2.
  apply wpc_bind, wpc_sync; cbn [view booted pending negb]; try by apply safe_either.
  - apply (publish_backed_ok _ _ _ old); try done; unfold f1; by names.
  - apply undo_ok; cbn [view pending]; auto; unfold f1; names; done.
Qed.

(** Staging: only the staging file changes until it is complete and saved. *)
Lemma stage_sync_ok base V d new :
  safe base V d -> clean (view d) -> view d !! staging = Some new ->
  wpc (safe base (either V new))
    (synced ← sync_ok; if negb synced then mret StagingSyncFailed
                       else backup_and_publish target staging rollback committed)
    (replaced base V new) d.
Proof.
  intros Hd Hc Hs. pose proof (safe_sync _ _ _ Hd) as Hd'.
  apply wpc_bind, wpc_sync; try by apply safe_either.
  - apply backup_and_publish_ok; try done. by apply (safe_states _ _ _ Hd), (safe_view _ _ _ Hd).
  - apply wpc_ret; [by apply safe_either|]. by apply replaced_unpublished.
Qed.

Lemma splice_fresh data : splice 0 data [] = data.
Proof. unfold splice. cbn. by rewrite drop_nil, app_nil_r. Qed.

Lemma clean_same f g : same_artifacts f g -> clean f -> clean g.
Proof. intros (_ & Er & Ec & _) [? ?]. unfold clean. by rewrite Er, Ec. Qed.

Lemma stage_write_ok base V d new size :
  safe base V d -> clean (view d) -> view d !! staging = Some [] -> (size = 0 -> new = []) ->
  wpc (safe base (either V new))
    (backend ← (if negb (size =? 0) then call (Write staging 0 new) else mret BOk);
     if failed backend then mret StagingWriteFailed else
     synced ← sync_ok; if negb synced then mret StagingSyncFailed
                       else backup_and_publish target staging rollback committed)
    (replaced base V new) d.
Proof.
  intros Hd Hc Hs Hz. apply wpc_bind. destruct (Z.eqb_spec size 0) as [E|E]; cbn [negb].
  - apply wpc_ret; [by apply safe_either|]. apply stage_sync_ok; try done. by rewrite Hz.
  - assert (forall f, lands (Write staging 0 new) (view d) f ->
      safe base V (pending (Write staging 0 new) f d)) as Hp.
    { intros f Hf. apply safe_staging; try done. right. left. by eexists _, _. }
    apply wpc_call; [by apply safe_either|].
    intros st d' [(-> & _ & ->)|(Hne & Hd')]%inv_write.
    + specialize (Hp _ (lands_all _ _)). split; [by apply safe_either|].
      apply stage_sync_ok; try done; cbn [view pending].
      * eapply clean_same; [|done]. eapply staging_lands; [|apply lands_all]. right. left. by eexists _, _.
      * cbn. rewrite Hs. names. by rewrite splice_fresh.
    + assert (safe base V d') as Hs'.
      { destruct Hd' as [-> |(f & Hf & ->)]; auto. }
      split; [by apply safe_either|]. unfold failed. rewrite bool_decide_eq_false_2 by done.
      apply wpc_ret; [by apply safe_either|]. by apply replaced_unpublished.
Qed.

Lemma stage_ok base V d new size :
  safe base V d -> clean (view d) -> view d !! staging = None -> (size = 0 -> new = []) ->
  wpc (safe base (either V new)) (stage target staging rollback committed new size) (replaced base V new) d.
Proof.
  intros Hd Hc Hs Hz. apply wpc_or_fail; try done; [by apply safe_either| |].
  - intros _. assert (on_staging (Create staging)) as Hon by by left.
    assert (safe base V (pending (Create staging) (apply_call (Create staging) (view d)) d)) as Hd1.
    { apply safe_staging; try done. apply lands_all. }
    split; [by apply safe_either|]. apply stage_write_ok; try done; cbn [view pending].
    + eapply clean_same; [|done]. by eapply staging_lands; [|apply lands_all].
    + cbn. rewrite Hs. by names.
  - apply wpc_ret; [by apply safe_either|]. by apply replaced_unpublished.
Qed.

Lemma replace_body_ok base V d new size :
  safe base V d -> (size = 0 -> new = []) ->
  wpc (safe base (either V new))
    (status ← recover_interrupted target staging rollback committed;
     if negb (is_ok status) then mret status
     else stage target staging rollback committed new size)
    (replaced base V new) d.
Proof.
  intros Hd Hz. apply wpc_bind. eapply wpc_weaken.
  - apply (wpc_leaves _ (fun st => is_ok st || unpublished st)); [by apply recover_ok|]. by vm_compute.
  - intros d'. apply safe_either.
  - intros st d' Hd' [[_ Hset] Hst]. destruct (is_ok st) eqn:E; cbn [negb].
    + apply bool_decide_eq_true in E. destruct (Hset E) as (Hc & Hs & _). by apply stage_ok.
    + apply wpc_ret; [by apply safe_either|]. by apply replaced_unpublished.
Qed.

(** *** Runs on the backend that does not fail *)

Ltac good :=
  cbn [fst snd]; change (is_ok Ok) with true; change (failed BOk) with false;
  change (unlink_failed BOk) with false; cbn [negb].

Lemma run_ok_bind {A B} (m : prog A) (f : A -> prog B) d :
  run_ok d (m ≫= f) = run_ok (run_ok d m).1 (f (run_ok d m).2).
Proof.
  revert d; induction m as [a|c k IH]; intros d; [done|]. cbn.
  destruct (call_ok d c) as [st d']. apply IH.
Qed.

Lemma run_ok_exists p d : run_ok d (exists_file p) = (d, (Ok, bool_decide (is_Some (view d !! p)))).
Proof. cbn. by destruct (bool_decide _). Qed.

Lemma run_ok_sync d : run_ok d sync_ok = (booted (view d), true).
Proof. done. Qed.

Lemma run_ok_call c d :
  is_mutation c = true -> call_enabled c (view d) = true ->
  run_ok d (call c) = (pending c (apply_call c (view d)) d, BOk).
Proof. intros Hm He. destruct c; try done; cbn [run_ok call call_ok]; by rewrite He. Qed.

Lemma enabled_present c f : is_mutation c = true -> (exists p, c = Unlink p /\ is_Some (f !! p)) -> call_enabled c f = true.
Proof. intros _ (p & -> & Hp). by apply bool_decide_eq_true_2. Qed.

Lemma enabled_rename a b f : is_Some (f !! a) -> f !! b = None -> call_enabled (Rename a b) f = true.
Proof. intros Ha Hb. cbn. by rewrite !bool_decide_eq_true_2. Qed.

Lemma remove_staging_completes d : (run_ok d (remove_staging staging)).2 = Ok.
Proof.
  unfold remove_staging. rewrite run_ok_bind, run_ok_exists. good.
  case_bool_decide; cbn [negb]; [|done].
  rewrite run_ok_bind, run_ok_call; [done|done|]. by apply bool_decide_eq_true_2.
Qed.

Lemma restore_completes d target_may_exist :
  is_Some (view d !! rollback) -> target_may_exist = bool_decide (is_Some (view d !! target)) ->
  (run_ok d (restore_rollback target rollback target_may_exist)).2 = Ok.
Proof.
  intros Hr ->. unfold restore_rollback, restore_rename. case_bool_decide as Ht.
  - rewrite run_ok_bind, run_ok_call; [|done|by apply bool_decide_eq_true_2]. good.
    rewrite run_ok_bind, run_ok_call; [done|done|]. apply enabled_rename; cbn; by names.
  - rewrite run_ok_bind, run_ok_call; [done|done|]. apply enabled_rename; [done|]. by apply eq_None_not_Some.
Qed.

Lemma recover_completes d :
  ~ conflict (view d) -> (run_ok d (recover_interrupted target staging rollback committed)).2 = Ok.
Proof.
  intros Hc. unfold recover_interrupted.
  do 2 (rewrite run_ok_bind, run_ok_exists; good).
  destruct (bool_decide (is_Some (view d !! rollback)) && _) eqn:Hb.
  { apply andb_true_iff in Hb as [?%bool_decide_eq_true ?%bool_decide_eq_true]. by destruct Hc. }
  rewrite run_ok_bind, run_ok_exists. good.
  case_bool_decide as Hr.
  - unfold recover_rollback. rewrite run_ok_bind, restore_completes by done. apply remove_staging_completes.
  - case_bool_decide as Hcm; [|apply remove_staging_completes]. unfold recover_committed.
    case_bool_decide as Ht.
    + rewrite run_ok_bind, run_ok_call; [|done|by apply bool_decide_eq_true_2]. good.
      rewrite run_ok_bind, run_ok_sync. apply remove_staging_completes.
    + rewrite run_ok_bind, run_ok_call; [|done|]; good.
      * rewrite run_ok_bind, run_ok_sync. apply remove_staging_completes.
      * apply enabled_rename; [done|]. by apply eq_None_not_Some.
Qed.

Lemma publish_completes d target_present :
  is_Some (view d !! staging) -> view d !! target = None ->
  view d !! committed = None -> is_Some (view d !! rollback) \/ target_present = false ->
  (run_ok d (publish target staging rollback committed target_present)).2 = Ok.
Proof.
  intros Hs Ht Hc Hr. unfold publish. pose proof Hs as [new Hs'].
  rewrite run_ok_bind, run_ok_call; [|done|by apply enabled_rename].
  good. rewrite run_ok_bind, run_ok_sync. cbn [fst snd negb view pending booted].
  rewrite (rename_present _ _ _ new) by done. destruct target_present; [|done]. cbn [negb].
  destruct Hr as [[old Hr]|]; [|done]. unfold commit.
  rewrite run_ok_bind, run_ok_call; [|done|]; cbn [view booted].
  2:{ apply enabled_rename; names; [by rewrite Hr|done]. }
  good. rewrite run_ok_bind, run_ok_sync. cbn [fst snd negb view pending booted].
  rewrite (rename_present _ _ _ old) by (by names).
  rewrite run_ok_bind, run_ok_call; [done|done|]. apply bool_decide_eq_true_2. cbn. by names.
Qed.

Lemma backup_completes d :
  is_Some (view d !! staging) -> clean (view d) ->
  (run_ok d (backup_and_publish target staging rollback committed)).2 = Ok.
Proof.
  intros Hs [Hr Hc]. unfold backup_and_publish. rewrite run_ok_bind, run_ok_exists. good.
  case_bool_decide as Ht.
  - pose proof Ht as [old Ht']. rewrite run_ok_bind, run_ok_call; [|done|by apply enabled_rename].
    good. rewrite run_ok_bind, run_ok_sync. cbn [fst snd negb].
    apply publish_completes; cbn [view pending booted]; rewrite (rename_present _ _ _ old) by done; names;
      auto.
  - apply publish_completes; auto. by apply eq_None_not_Some.
Qed.

Lemma stage_completes d new size :
  view d !! staging = None -> clean (view d) ->
  (run_ok d (stage target staging rollback committed new size)).2 = Ok.
Proof.
  intros Hs [Hr Hc]. unfold stage.
  rewrite run_ok_bind, run_ok_call; [|done|by apply bool_decide_eq_true_2]. good.
  set (d1 := pending _ _ d). assert (view d1 = <[staging := []]> (view d)) as E by (subst d1; cbn; by rewrite Hs).
  clearbody d1. rewrite run_ok_bind. destruct (negb (size =? 0)).
  - rewrite run_ok_call; [|done|rewrite E; apply bool_decide_eq_true_2; by names].
    good. rewrite run_ok_bind, run_ok_sync. cbn [fst snd negb].
    apply backup_completes; cbn [view pending booted apply_call]; rewrite E; unfold clean; names; auto.
  - cbn [run_ok mret prog_ret]. good. rewrite run_ok_bind, run_ok_sync. cbn [fst snd negb].
    apply backup_completes; cbn [view pending booted apply_call]; rewrite E; unfold clean; names; auto.
Qed.

End correctness.

(** ** Valid arguments *)

Lemma text_equal_from_iff l r : text_equal_from l r = true <-> l = r.
Proof.
  revert r; induction l as [|a l IH]; intros [|b r]; cbn; try done.
  destruct (Ascii.eqb_spec a b) as [->|Hne].
  - rewrite IH. split; [by intros ->|by intros [= ->]].
  - split; [done|]. by intros [= -> ->].
Qed.

Lemma valid_paths_distinct paths :
  valid_paths paths = true ->
  let t := text (p_target paths) in let s := text (p_staging paths) in
  let r := text (p_rollback paths) in let c := text (p_committed paths) in
  (t ≠ s /\ t ≠ r /\ t ≠ c) /\ (s ≠ r /\ s ≠ c) /\ r ≠ c.
Proof.
  destruct paths as [[t|] [s|] [r|] [c|]]; unfold valid_paths; cbn;
    try (rewrite ?orb_true_r; done); try (destruct (missing _); done).
  case_match; [done|]. rewrite !andb_true_iff, !negb_true_iff, <- !not_true_iff_false, !text_equal_from_iff.
  tauto.
Qed.

(** ** The guarantees of [replace] *)

Section guarantees.
Context (operations : Operations) (paths : Paths).
Context (Hops : valid_operations operations = true) (Hpaths : valid_paths paths = true).

Let target := text (p_target paths).
Let staging := text (p_staging paths).
Let rollback := text (p_rollback paths).
Let committed := text (p_committed paths).

(** The safety invariant and the recovered contents for these paths. *)
Definition replace_safe (base : Files) V d : Prop :=
  safe target staging rollback committed base V d.

Definition replace_recovered (f : Files) : option (list Z) := recovered target rollback committed f.

Lemma replace_wpc base V d new :
  replace_safe base V d ->
  wpc (replace_safe base (either V new)) (replace operations paths (Some new) (Z.of_nat (length new)))
    (replaced target staging rollback committed base V new) d.
Proof.
  intros Hd. unfold replace. rewrite Hops, Hpaths. cbn [negb orb].
  rewrite bool_decide_eq_false_2 by done. cbn [andb].
  replace (buffer (Some new) (Z.of_nat (length new))) with new.
  2:{ unfold buffer. cbn. by rewrite Nat2Z.id, firstn_all. }
  destruct (valid_paths_distinct _ Hpaths) as ((? & ? & ?) & (? & ?) & ?).
  apply replace_body_ok; try done. destruct new; [done|]. cbn [length]. lia.
Qed.

Lemma replace_run_ok base V d d' new o :
  replace_safe base V d -> run d (replace operations paths (Some new) (Z.of_nat (length new))) d' o ->
  replace_safe base (either V new) d' /\
  (forall st, o = Some st -> replaced target staging rollback committed base V new st d').
Proof. intros Hd Hr. eapply wpc_run; [by apply replace_wpc|done]. Qed.

(** *** Histories of replacements, failures and power losses *)

Inductive Event := Returned (new : list Z) (st : Status) | PowerLost (new : list Z) | Idle.

Inductive history_step : Disk -> Event -> Disk -> Prop :=
  | step_returned d d' new st :
      run d (replace operations paths (Some new) (Z.of_nat (length new))) d' (Some st) ->
      history_step d (Returned new st) d'
  (** power is lost during a call; the machine comes up with one of the states the
      disk may hold *)
  | step_power_lost d d' new f :
      run d (replace operations paths (Some new) (Z.of_nat (length new))) d' None -> after_crash d' f ->
      history_step d (PowerLost new) (booted f)
  | step_idle d f : after_crash d f -> history_step d Idle (booted f).

Inductive history : Disk -> list Event -> Disk -> Prop :=
  | history_nil d : history d [] d
  | history_cons d ev d1 evs d2 : history_step d ev d1 -> history d1 evs d2 -> history d (ev :: evs) d2.

(** The specification: the contents that the file may turn out to have. *)
Definition candidates (V : option (list Z) -> Prop) (ev : Event) : option (list Z) -> Prop :=
  match ev with
  | Returned new st => outcome V new st
  | PowerLost new => either V new
  | Idle => V
  end.

Lemma history_step_safe base V d ev d' :
  replace_safe base V d -> history_step d ev d' -> replace_safe base (candidates V ev) d'.
Proof.
  intros Hd Hs. destruct Hs as [d d' new st Hr|d d' new f Hr Hf|d f Hf]; cbn [candidates].
  - destruct (replace_run_ok _ _ _ _ _ _ Hd Hr) as [_ H]. by apply H.
  - destruct (replace_run_ok _ _ _ _ _ _ Hd Hr) as [H _]. by eapply safe_reboot.
  - by eapply safe_reboot.
Qed.

Lemma history_safe base V d evs d' :
  replace_safe base V d -> history d evs d' -> replace_safe base (fold_left candidates evs V) d'.
Proof.
  intros Hd Hh. revert V Hd. induction Hh as [|d ev d1 evs d2 Hs _ IH]; intros V Hd; [done|].
  apply IH. by eapply history_step_safe.
Qed.

(** C3: replacing a file is crash safe.  Whatever calls of the backend fail and
    wherever power is lost, every state that the disk may then hold is free of
    conflicting artifacts, recovers to the former or to the new contents, complete,
    and agrees with the disk before on all other files; when [replace] returns, its
    status says which: the former contents for every failure before the new file is
    durably in place, the new ones from [Ok] and the cleanup failures, and after
    [Ok] the disk itself holds the new file and no artifact. *)
Theorem replace_crash_safe base V d d' new o :
  replace_safe base V d -> run d (replace operations paths (Some new) (Z.of_nat (length new))) d' o ->
  (forall f, after_crash d' f ->
    ~ conflict rollback committed f /\
    (V (replace_recovered f) \/ replace_recovered f = Some new) /\
    (forall q, q ∉ artifacts target staging rollback committed -> f !! q = base !! q) /\
    (forall st, o = Some st -> outcome V new st (replace_recovered f))) /\
  (o = Some Ok -> forall f, after_crash d' f ->
    f !! target = Some new /\ f !! staging = None /\ f !! rollback = None /\ f !! committed = None).
Proof.
  intros Hd Hr. destruct (replace_run_ok _ _ _ _ _ _ Hd Hr) as [Hc Hq]. split.
  - intros f Hf. destruct (safe_states _ _ _ _ _ _ _ Hc f Hf) as (Hn & Hv & Ho).
    split_and!; try done. intros st Hst. destruct (Hq st Hst) as [Hs _].
    by destruct (safe_states _ _ _ _ _ _ _ Hs f Hf) as (_ & Hv' & _).
  - intros E f Hf. destruct (Hq Ok E) as [_ Hp]. destruct (Hp eq_refl) as (Ht & Hs & [Hrb Hcm] & Hall).
    by rewrite (Hall f Hf).
Qed.

(** from every state that a power loss may leave, a backend that does not fail
    lets the recovery finish: it returns [Ok] with the recovered contents in the
    target and no artifact left; and the whole [replace] then returns [Ok] with the
    new contents in the target. *)
Theorem replace_recovers base V d f new :
  replace_safe base V d -> after_crash d f ->
  let recovery := run_ok (booted f) (recover_interrupted target staging rollback committed) in
  let replacement := run_ok (booted f) (replace operations paths (Some new) (Z.of_nat (length new))) in
  (recovery.2 = Ok /\ view recovery.1 !! target = replace_recovered f /\ V (view recovery.1 !! target) /\
   view recovery.1 !! staging = None /\ view recovery.1 !! rollback = None /\
   view recovery.1 !! committed = None) /\
  replacement.2 = Ok /\ view replacement.1 !! target = Some new.
Proof.
  intros Hd Hf recovery replacement.
  destruct (valid_paths_distinct _ Hpaths) as ((? & ? & ?) & (? & ?) & ?).
  assert (replace_safe base V (booted f)) as Hb by (by eapply safe_reboot).
  pose proof (safe_states _ _ _ _ _ _ _ Hd f Hf) as (Hnc & HV & _).
  assert (recovery.2 = Ok) as HOk by (by apply recover_completes).
  destruct (wpc_run _ _ _ _ _ _ (recover_ok target staging rollback committed ltac:(done) ltac:(done)
    ltac:(done) ltac:(done) ltac:(done) ltac:(done) base V _ Hb) (run_ok_sound _ _)) as [Hd1 Hq].
  destruct (Hq _ eq_refl) as [_ Hset]. destruct (Hset HOk) as ((Hr & Hc) & Hs & Ht). split.
  - split; [done|]. fold recovery in Ht, Hr, Hc, Hs. rewrite Ht. done.
  - assert (replacement.2 = Ok) as HOk2.
    { unfold replacement, replace. rewrite Hops, Hpaths. cbn [negb orb].
      rewrite bool_decide_eq_false_2 by done. cbn [andb]. fold target staging rollback committed.
      rewrite run_ok_bind. fold recovery. rewrite HOk. by apply stage_completes. }
    split; [done|].
    destruct (replace_run_ok _ _ _ _ _ _ Hb (run_ok_sound _ (replace operations paths (Some new)
      (Z.of_nat (length new))))) as [_ Hfin]. fold replacement in Hfin. rewrite HOk2 in Hfin.
    by destruct (Hfin _ eq_refl) as [_ Hp]; destruct (Hp eq_refl) as [? _].
Qed.

(** C34: over any history of calls to [replace], each of which may fail or be cut
    short by a power loss, the file behaves like the specification that keeps the
    set of contents it may have: every state that the disk may hold recovers to one
    of them, and other files never change. *)
Theorem history_refines_candidates base V d evs d' :
  replace_safe base V d -> history d evs d' ->
  forall f, after_crash d' f ->
    fold_left candidates evs V (replace_recovered f) /\
    forall q, q ∉ artifacts target staging rollback committed -> f !! q = base !! q.
Proof.
  intros Hd Hh f Hf. pose proof (history_safe _ _ _ _ _ Hd Hh) as Hs.
  by destruct (safe_states _ _ _ _ _ _ _ Hs f Hf) as (_ & HV & Ho).
Qed.

End guarantees.

(** ** Concrete runs *)

Definition example_operations : Operations := mkOperations true true true true true true.
Definition example_paths : Paths :=
  mkPaths (Some "/boot.cfg"%string) (Some "/boot.new"%string) (Some "/boot.old"%string) (Some "/boot.bak"%string).
Definition example_files : Files := {["/boot.cfg"%string := [1; 2]; "/kernel"%string := [7]]}.
Definition example_old (v : option (list Z)) : Prop := v = Some [1; 2].

Lemma example_safe :
  replace_safe example_paths example_files example_old (booted example_files).
Proof.
  apply safe_booted. split; [|split].
  - intros [[? [=]] _].
  - reflexivity.
  - done.
Qed.

(** A run of the failure-free backend to the end. *)
Lemma replace_crash_safe_witness :
  let result := run_ok (booted example_files) (replace example_operations example_paths (Some [3; 4; 5]) 3) in
  result.2 = Ok /\
  forall f, after_crash result.1 f ->
    f !! "/boot.cfg"%string = Some [3; 4; 5] /\ f !! "/boot.old"%string = None /\ f !! "/kernel"%string = Some [7].
Proof.
  cbv zeta.
  pose proof (run_ok_sound (booted example_files)
    (replace example_operations example_paths (Some [3; 4; 5]) 3)) as Hr.
  assert ((run_ok (booted example_files)
    (replace example_operations example_paths (Some [3; 4; 5]) 3)).2 = Ok) as HOk by (vm_compute; reflexivity).
  split; [exact HOk|]. rewrite HOk in Hr. intros f Hf.
  destruct (replace_crash_safe example_operations example_paths eq_refl eq_refl example_files example_old
    _ _ [3; 4; 5] _ example_safe Hr) as [H1 H2].
  destruct (H1 f Hf) as (_ & _ & Ho & _). destruct (H2 eq_refl f Hf) as (Ht & _ & Hrb & _).
  split; [exact Ht|]. split; [exact Hrb|]. rewrite Ho; [reflexivity|].
  refine (bool_decide_eq_false_1 _ _). vm_compute. reflexivity.
Defined.

(** The state of the disk when power is lost between the two renamings. *)
Definition example_torn : Files :=
  {["/boot.old"%string := [1; 2]; "/boot.new"%string := [3; 4; 5]; "/kernel"%string := [7]]}.

Lemma example_torn_safe :
  replace_safe example_paths example_files example_old (booted example_torn).
Proof.
  apply safe_booted. split; [|split].
  - intros [_ [? [=]]].
  - reflexivity.
  - intros q (? & ? & ? & ?)%not_artifact. unfold example_torn, example_files. cbn in *.
    rewrite (lookup_insert_ne _ "/boot.old"%string q), (lookup_insert_ne _ "/boot.new"%string q),
      (lookup_insert_ne _ "/boot.cfg"%string q) by congruence. done.
Qed.

Lemma replace_recovers_witness :
  view (run_ok (booted example_torn)
    (recover_interrupted "/boot.cfg" "/boot.new" "/boot.old" "/boot.bak")).1 !! "/boot.cfg"%string = Some [1; 2].
Proof.
  destruct (replace_recovers example_operations example_paths eq_refl eq_refl example_files example_old
    _ example_torn [9] example_torn_safe eq_refl) as [(_ & H & _) _].
  etransitivity; [exact H|]. vm_compute. reflexivity.
Defined.

(** A power loss at the start of a call, then a call that succeeds. *)
Lemma history_refines_candidates_witness :
  exists d', history example_operations example_paths (booted example_files)
    [PowerLost [8]; Returned [3] Ok] d' /\
  forall f, after_crash d' f -> replace_recovered example_paths f = Some [3].
Proof.
  pose proof (run_ok_sound (booted example_files) (replace example_operations example_paths (Some [3]) 1)) as Hr.
  assert ((run_ok (booted example_files)
    (replace example_operations example_paths (Some [3]) 1)).2 = Ok) as HOk by (vm_compute; reflexivity).
  rewrite HOk in Hr. eexists.
  assert (history example_operations example_paths (booted example_files) [PowerLost [8]; Returned [3] Ok]
    (run_ok (booted example_files) (replace example_operations example_paths (Some [3]) 1)).1) as Hh.
  { eapply history_cons; [eapply step_power_lost; [apply run_crash|reflexivity]|].
    eapply history_cons; [by eapply step_returned|constructor]. }
  split; [exact Hh|]. intros f Hf.
  by destruct (history_refines_candidates example_operations example_paths eq_refl eq_refl example_files
    example_old _ _ _ example_safe Hh f Hf) as [H _].
Defined.
