(* ===== verification/KernelMemory.v ===== *)
(** * The interface the kernel heap offers to its clients

    A client of memory/allocator.hpp calls [kmalloc] and [kfree] only.  The class
    states what the two promise, over an arbitrary heap state: [km_rep h l] says
    that [l] lists the live allocations of [h] (address and size), in any order.
    The heap of KernelHeap.v is an instance; the clients' theorems are proved
    against the class. *)

From S2P Require Import Prelude KernelHeap.

Class KernelMemory (H : Type) := {
  km_alloc : H -> Z -> Z -> H * Z;
  km_free : H -> Z -> H;
  km_rep : H -> list (Z * Z) -> Prop;

  (** the order of the list does not matter *)
  #[global] km_rep_proper :: Proper ((=) ==> (≡ₚ) ==> iff) km_rep;
  (** [kmalloc] returns null and changes nothing, or a new aligned allocation *)
  km_alloc_ok : forall h l size al h' p, km_rep h l -> is_u64 size -> is_u64 al -> km_alloc h size al = (h', p) ->
    (p = 0 /\ h' = h) \/ (p ≠ 0 /\ p mod al = 0 /\ km_rep h' ((p, size) :: l));
  (** [kfree] of a live allocation ends it and no other *)
  km_free_ok : forall h l p n, km_rep h ((p, n) :: l) -> km_rep (km_free h p) l;
  (** two live allocations share no byte and start at different addresses, none of them null *)
  km_disjoint : forall h p n q k l, km_rep h ((p, n) :: (q, k) :: l) -> p ≠ q /\ (p + n <= q \/ q + k <= p);
  km_nonnull : forall h p n l, km_rep h ((p, n) :: l) -> p ≠ 0;
}.

Section theory.
Context {H : Type} `{KernelMemory H}.

Lemma km_fresh h l p n q k : km_rep h ((p, n) :: l) -> (q, k) ∈ l -> p ≠ q.
Proof.
  intros Hr Hq. apply elem_of_Permutation in Hq as [l' Hl]. rewrite Hl in Hr.
  exact (proj1 (km_disjoint _ _ _ _ _ _ Hr)).
Qed.

Lemma km_nodup h l : km_rep h l -> NoDup l.*1.
Proof.
  assert (forall l2 l1, km_rep h (l1 ++ l2) -> NoDup l2.*1) as Hg; [|by apply (Hg l [])].
  induction l2 as [|[p n] l2 IH]; intros l1 Hr; [constructor|]. rewrite fmap_cons. constructor.
  - intros Hin. apply list_elem_of_fmap in Hin as ([q k] & E & Hin).
    rewrite <- Permutation_middle in Hr.
    refine (km_fresh _ _ _ _ q k Hr _ E). apply elem_of_app. by right.
  - apply (IH (l1 ++ [(p, n)])). by rewrite <- app_assoc.
Qed.

End theory.

(** ** The kernel heap is an instance *)

Definition heap_alloc (s : State) (size alignment : Z) : State * Z :=
  default (s, 0) (kmalloc s size alignment).

Definition heap_free (s : State) (p : Z) : State := default s (kfree s p).

Definition heap_rep (s : State) (l : list (Z * Z)) : Prop :=
  exists bl, repr s bl /\ accounted s bl /\ live bl ≡ₚ l.

#[global] Instance heap_rep_proper : Proper ((=) ==> (≡ₚ) ==> iff) heap_rep.
Proof. intros s _ <- l l' E. unfold heap_rep. by setoid_rewrite E. Qed.

Lemma heap_alloc_ok s l size al s' p :
  heap_rep s l -> is_u64 size -> is_u64 al -> heap_alloc s size al = (s', p) ->
  (p = 0 /\ s' = s) \/ (p ≠ 0 /\ p mod al = 0 /\ heap_rep s' ((p, size) :: l)).
Proof.
  intros (bl & Hr & Ha & El) Hs Hal E. unfold heap_alloc in E.
  assert ((kmalloc s size al = Some (s, 0)) \/
    (size ≠ 0 /\ is_power_of_two al = true)) as [E0|[Hs0 Hp]].
  { unfold kmalloc. destruct (Z.eqb_spec size 0); [left; by rewrite orb_true_r|].
    destruct (is_power_of_two al); [by right|left; by rewrite orb_true_r]. }
  { rewrite E0 in E. apply pair_equal_spec in E as [<- <-]. by left. }
  destruct (kmalloc_repr s bl size al Hr Hs Hal Hs0 Hp)
    as [[E0 _]|(l1 & b & l2 & u & c & m' & -> & Hb & _ & Hu1 & Hu2 & _ & E0 & Hr' & _)];
    rewrite E0 in E; apply pair_equal_spec in E as [<- <-]; [by left|right].
  destruct (blocks_at_bounds _ _ _ _ _ _ _ (r_blocks _ _ Hr)) as (Hl1 & _).
  pose proof (r_start _ _ Hr) as Hst. unfold sizeof_AllocationPrefix, sizeof_BlockHeader in Hu2.
  split; [lia|]. split; [done|]. eexists. split; [exact Hr'|].
  split; [exact (kmalloc_accounted _ _ _ _ _ _ _ _ Hr Ha Hb Hr' Hs)|].
  destruct (use_abs_props l1 b c u size l2 Hb) as (_ & E1 & E2 & _).
  rewrite E1, <- El, E2. symmetry. apply Permutation_middle.
Qed.

Lemma heap_free_ok s l p n : heap_rep s ((p, n) :: l) -> heap_rep (heap_free s p) l.
Proof.
  intros (bl & Hr & Ha & El). assert ((p, n) ∈ live bl) as Hin by (rewrite El; constructor).
  apply live_split in Hin as (l1 & b & l2 & -> & Eb).
  destruct (kfree_live s l1 b l2 p n Hr Ha Eb) as (s' & E & Hr' & Ha' & _).
  unfold heap_free. rewrite E. exists (release_abs l1 (b_size b) l2). split; [done|]. split; [done|].
  destruct (release_abs_props l1 b (b_size b) l2 eq_refl) as (_ & -> & _).
  apply (Permutation_cons_inv (a := (p, n))). rewrite <- El, !live_app, (live_cons_some b l2 _ Eb).
  apply Permutation_middle.
Qed.

Lemma heap_disjoint s p n q k l :
  heap_rep s ((p, n) :: (q, k) :: l) -> p ≠ q /\ (p + n <= q \/ q + k <= p).
Proof.
  intros (bl & Hr & Ha & El). symmetry in El. pose proof (r_blocks _ _ Hr) as Hb.
  apply Permutation_inj in El as [_ (f & Hf & El)].
  pose proof (El 0%nat) as H0. pose proof (El 1%nat) as H1. cbn in H0, H1.
  assert (f 0%nat ≠ f 1%nat) as Hne by (intros E; by apply Hf in E).
  pose proof (live_disjoint _ _ _ _ _ _ _ _ _ _ _ Hb Hne (eq_sym H0) (eq_sym H1)) as Hd.
  symmetry in H0, H1. apply list_elem_of_lookup_2 in H0, H1.
  destruct (live_range _ _ _ _ _ _ _ Hb H0) as (? & _). destruct (live_range _ _ _ _ _ _ _ Hb H1) as (? & _).
  unfold sizeof_AllocationPrefix in Hd. lia.
Qed.

Lemma heap_nonnull s p n l : heap_rep s ((p, n) :: l) -> p ≠ 0.
Proof.
  intros (bl & Hr & Ha & El). assert ((p, n) ∈ live bl) as Hin by (rewrite El; constructor).
  destruct (live_range _ _ _ _ _ _ _ (r_blocks _ _ Hr) Hin) as (_ & H & _). pose proof (r_start _ _ Hr).
  unfold sizeof_AllocationPrefix, sizeof_BlockHeader in H. lia.
Qed.

#[global] Instance kernel_heap_memory : KernelMemory State := {|
  km_alloc := heap_alloc; km_free := heap_free; km_rep := heap_rep;
  km_rep_proper := heap_rep_proper; km_alloc_ok := heap_alloc_ok; km_free_ok := heap_free_ok;
  km_disjoint := heap_disjoint; km_nonnull := heap_nonnull |}.
