(* ===== verification/RamFs.v ===== *)
(** * The RAM file system (fs/ramfs.cpp): data and operations

    A tree of [FileEntry] structures on the kernel heap.  The model keeps the
    structures in a map from their addresses, [nodes]: every [->] of the code is
    a lookup or an update of that map, and a pointer that leads nowhere makes the
    operation [None] (as do an infinite recursion or walk, when the fuel runs
    out).  A buffer is stored with the structure that owns it: [e_content] holds
    the [e_capacity] bytes at [e_content_at], [e_children] the first
    [child_count] slots of the array of [e_child_capacity] pointers at
    [e_children_at] (the slots after them are null and never read).  [kmalloc]
    and [kfree] are those of the [KernelMemory] interface.

    A C string is the list of its bytes before the terminator, a null pointer is
    [None] (for a string) or [0] (for an address).  The abstract file system that
    these operations refine is in RamFsSpec.v, the proofs are in RamFsProof.v. *)

From S2P Require Import Prelude KernelMemory.

(** ** Limits and data (ramfs.hpp) *)

Definition RAMFS_MAX_NAME_LENGTH : Z := 63.
Definition RAMFS_MAX_PATH_LENGTH : Z := 255.
Definition RAMFS_MAX_PATH_DEPTH : Z := 32.
Definition RAMFS_MAX_CHILDREN : Z := 64.
Definition RAMFS_MAX_NODES : Z := 256.
Definition RAMFS_MAX_FILE_SIZE : Z := 64 * 1024.
Definition RAMFS_MAX_TOTAL_FILE_BYTES : Z := 1024 * 1024.
Definition RAMFS_MAX_PATH_COMPONENTS : Z := (RAMFS_MAX_PATH_LENGTH + 1) / 2.

Inductive Status :=
  | Ok | NotInitialized | InvalidArgument | InvalidPath | PathTooLong | NameTooLong | PathTooDeep
  | NotFound | AlreadyExists | NotDirectory | IsDirectory | DirectoryNotEmpty | RootProtected
  | FileTooLarge | TooManyChildren | TooManyNodes | StorageLimitReached | OutOfMemory
  | BufferTooSmall | WouldCreateCycle | IterationStopped.

#[global] Instance Status_eq_dec : EqDecision Status.
Proof. solve_decision. Defined.

Inductive EntryType := FileType | DirectoryType.

Record FileStat := mkFileStat { st_type : EntryType; st_size : Z; st_child_count : Z }.

(** The bytes of a file or directory name. *)
Abbreviation Name := (list Z) (only parsing).

Record FileEntry := mkFileEntry {
  e_name : Name;             (* name, name_length *)
  e_content_at : Z;          (* content *)
  e_content : list Z;        (* the bytes there *)
  e_size : Z;
  e_capacity : Z;
  e_is_directory : bool;
  e_children_at : Z;         (* children *)
  e_children : list Z;       (* the first child_count slots there *)
  e_child_capacity : Z;
  e_parent : Z
}.

Definition child_count (e : FileEntry) : Z := Z.of_nat (length (e_children e)).

(** [sizeof(FileEntry)] on the x86-64 target: the name takes 64 bytes, the flag is padded to 8. *)
Definition sizeof_FileEntry : Z := 64 + 8 + 8 + 8 + 8 + 8 + 8 + 8 + 8 + 8.
Definition alignof_FileEntry : Z := 8.
Definition sizeof_pointer : Z := 8.

(** A step of an operation: undefined behaviour, an early return with an error, or a value. *)
Definition Outcome (A : Type) : Type := option (Status + A).

Definition value {A} (a : A) : Outcome A := Some (inr a).
Definition fail {A} (st : Status) : Outcome A := Some (inl st).

Definition obind {A B} (m : Outcome A) (k : A -> Outcome B) : Outcome B :=
  match m with
  | Some (inr a) => k a
  | Some (inl st) => Some (inl st)
  | None => None
  end.

Notation "'let?' x ':=' m 'in' k" := (obind m (fun x => k))
  (at level 10, x pattern, m at level 100, k at level 200, only parsing).

(** ** Paths *)

Record ParsedPath := mkParsedPath { components : list Name; trailing_separator : bool }.

Definition SLASH : Z := 47.
Definition DOT : Z := 46.

Definition bounded_length (text : option (list Z)) (maximum : Z) (too_long : Status) : Status + Z :=
  match text with
  | None => inl InvalidArgument
  | Some s =>
      match for_find (fun i => nth (Z.to_nat i) s 0 =? 0) (Z.to_nat (maximum + 1)) 0 with
      | Some i => inr i
      | None => inl too_long
      end
  end.

Definition component_equals (component literal : Name) : bool :=
  if (length component =? length literal)%nat
  then forallb (fun '(x, y) => x =? y) (zip component literal)
  else false.

Definition is_dot (component : Name) : bool := component_equals component [DOT].
Definition is_dotdot (component : Name) : bool := component_equals component [DOT; DOT].

Fixpoint skip_separators (rest : list Z) : list Z :=
  match rest with
  | c :: rest' => if c =? SLASH then skip_separators rest' else rest
  | [] => []
  end.

(** The bytes up to the next separator, and what follows them. *)
Fixpoint take_component (rest : list Z) : Name * list Z :=
  match rest with
  | c :: rest' =>
      if c =? SLASH then ([], rest)
      else let '(component, after) := take_component rest' in (c :: component, after)
  | [] => ([], [])
  end.

(** The depth after a component, or the reason to refuse it. *)
Definition step_depth (component : Name) (logical_depth : Z) : Status + Z :=
  if is_dotdot component then
    if logical_depth =? 0 then inl InvalidPath else inr (logical_depth - 1)
  else if negb (is_dot component) then
    if logical_depth =? RAMFS_MAX_PATH_DEPTH then inl PathTooDeep else inr (logical_depth + 1)
  else inr logical_depth.

Fixpoint parse_components (fuel : nat) (rest : list Z) (logical_depth : Z) (parsed : list Name)
    : Outcome (list Name) :=
  match fuel with
  | O => None
  | S fuel =>
      let rest := skip_separators rest in
      if bool_decide (rest = []) then value parsed
      else
        let '(component, rest) := take_component rest in
        if RAMFS_MAX_NAME_LENGTH <? Z.of_nat (length component) then fail NameTooLong
        else
          match step_depth component logical_depth with
          | inl st => fail st
          | inr logical_depth =>
              if Z.of_nat (length parsed) =? RAMFS_MAX_PATH_COMPONENTS then fail PathTooDeep
              else parse_components fuel rest logical_depth (parsed ++ [component])
          end
  end.

Definition parse_path (path : option (list Z)) : Outcome ParsedPath :=
  match path with
  | None => fail InvalidArgument
  | Some s =>
      match bounded_length path RAMFS_MAX_PATH_LENGTH PathTooLong with
      | inl st => fail st
      | inr path_length =>
          if path_length =? 0 then fail InvalidPath
          else
            let text := take (Z.to_nat path_length) s in
            let? cs := parse_components (S (length text)) text 0 [] in
            value (mkParsedPath cs (nth (Z.to_nat (path_length - 1)) s 0 =? SLASH))
      end
  end.

Section ramfs.
Context {H : Type} `{KernelMemory H}.

(** ** State *)

Record RamFs := mkRamFs {
  heap : H;
  nodes : gmap Z FileEntry;
  g_root : Z;
  g_node_count : Z;
  g_total_file_bytes : Z;
  g_last_status : Status
}.

Definition set_nodes (fs : RamFs) (m : gmap Z FileEntry) : RamFs :=
  mkRamFs (heap fs) m (g_root fs) (g_node_count fs) (g_total_file_bytes fs) (g_last_status fs).

Definition set_heap (fs : RamFs) (h : H) : RamFs :=
  mkRamFs h (nodes fs) (g_root fs) (g_node_count fs) (g_total_file_bytes fs) (g_last_status fs).

Definition set_counters (fs : RamFs) (node_count total_file_bytes : Z) : RamFs :=
  mkRamFs (heap fs) (nodes fs) (g_root fs) node_count total_file_bytes (g_last_status fs).

Definition set_root (fs : RamFs) (root : Z) : RamFs :=
  mkRamFs (heap fs) (nodes fs) root (g_node_count fs) (g_total_file_bytes fs) (g_last_status fs).

Definition finish (fs : RamFs) (st : Status) : RamFs :=
  mkRamFs (heap fs) (nodes fs) (g_root fs) (g_node_count fs) (g_total_file_bytes fs) st.

(** The state of the kernel before [initialize_ramfs]. *)
Definition initial_ramfs (h : H) : RamFs := mkRamFs h ∅ 0 0 0 NotInitialized.

(** Assignments to the fields of a structure. *)
Definition set_parent (e : FileEntry) (p : Z) : FileEntry :=
  mkFileEntry (e_name e) (e_content_at e) (e_content e) (e_size e) (e_capacity e) (e_is_directory e)
    (e_children_at e) (e_children e) (e_child_capacity e) p.

Definition set_children (e : FileEntry) (cs : list Z) : FileEntry :=
  mkFileEntry (e_name e) (e_content_at e) (e_content e) (e_size e) (e_capacity e) (e_is_directory e)
    (e_children_at e) cs (e_child_capacity e) (e_parent e).

Definition set_children_array (e : FileEntry) (at_ capacity : Z) : FileEntry :=
  mkFileEntry (e_name e) (e_content_at e) (e_content e) (e_size e) (e_capacity e) (e_is_directory e)
    at_ (e_children e) capacity (e_parent e).

Definition set_content (e : FileEntry) (at_ : Z) (bytes : list Z) (size capacity : Z) : FileEntry :=
  mkFileEntry (e_name e) at_ bytes size capacity (e_is_directory e)
    (e_children_at e) (e_children e) (e_child_capacity e) (e_parent e).

Definition set_name (e : FileEntry) (name : Name) : FileEntry :=
  mkFileEntry name (e_content_at e) (e_content e) (e_size e) (e_capacity e) (e_is_directory e)
    (e_children_at e) (e_children e) (e_child_capacity e) (e_parent e).

(** [entry->field = value]. *)
Definition modify (fs : RamFs) (entry : Z) (f : FileEntry -> FileEntry) : option RamFs :=
  e ← nodes fs !! entry; Some (set_nodes fs (<[entry := f e]> (nodes fs))).

(** ** Lookup *)

Definition entry_name_equals (fs : RamFs) (entry : Z) (component : Name) : option bool :=
  if entry =? 0 then Some false
  else e ← nodes fs !! entry; Some (component_equals (e_name e) component).

Fixpoint find_child_loop (fs : RamFs) (children : list Z) (component : Name) : option Z :=
  match children with
  | [] => Some 0
  | child :: children' =>
      same ← entry_name_equals fs child component;
      if same : bool then Some child else find_child_loop fs children' component
  end.

Definition find_child (fs : RamFs) (parent : Z) (component : Name) : option Z :=
  if parent =? 0 then Some 0
  else
    e ← nodes fs !! parent;
    if negb (e_is_directory e) then Some 0 else find_child_loop fs (e_children e) component.

Fixpoint resolve_loop (fs : RamFs) (cs : list Name) (current : Z) : Outcome Z :=
  match cs with
  | [] => value current
  | component :: cs' =>
      match nodes fs !! current with
      | None => None
      | Some e =>
          if negb (e_is_directory e) then fail NotDirectory
          else if is_dot component then resolve_loop fs cs' current
          else if is_dotdot component then
            if (current =? g_root fs) || (e_parent e =? 0) then fail InvalidPath
            else resolve_loop fs cs' (e_parent e)
          else
            match find_child fs current component with
            | None => None
            | Some child => if child =? 0 then fail NotFound else resolve_loop fs cs' child
            end
      end
  end.

Definition resolve_components (fs : RamFs) (parsed : ParsedPath) (component_count : nat) : Outcome Z :=
  if g_root fs =? 0 then fail NotInitialized
  else if (length (components parsed) <? component_count)%nat then fail InvalidArgument
  else resolve_loop fs (take component_count (components parsed)) (g_root fs).

Definition resolve_path (fs : RamFs) (path : option (list Z)) : Outcome Z :=
  let? parsed := parse_path path in
  let? entry := resolve_components fs parsed (length (components parsed)) in
  match nodes fs !! entry with
  | None => None
  | Some e =>
      if trailing_separator parsed && negb (e_is_directory e) then fail NotDirectory else value entry
  end.

(** ** Storage of a node *)

(** [allocate_entry]: the address of the new structure, [0] when there is none. *)
Definition allocate_entry (fs : RamFs) (name : Name) (is_directory : bool) : RamFs * Z :=
  if RAMFS_MAX_NODES <=? g_node_count fs then (fs, 0)
  else
    let '(h, entry) := km_alloc (heap fs) sizeof_FileEntry alignof_FileEntry in
    if entry =? 0 then (set_heap fs h, 0)
    else if is_directory then
      (set_counters (set_nodes (set_heap fs h)
        (<[entry := mkFileEntry name 0 [] 0 0 true 0 [] 0 0]> (nodes fs)))
        (g_node_count fs + 1) (g_total_file_bytes fs), entry)
    else
      let '(h, content) := km_alloc h 1 1 in
      if content =? 0 then (set_heap fs (km_free h entry), 0)
      else
        (set_counters (set_nodes (set_heap fs h)
          (<[entry := mkFileEntry name content [0] 0 1 false 0 [] 0 0]> (nodes fs)))
          (g_node_count fs + 1) (g_total_file_bytes fs), entry).

Definition kfree_if (h : H) (p : Z) : H := if p =? 0 then h else km_free h p.

Definition release_entry_storage (fs : RamFs) (entry : Z) : option RamFs :=
  if entry =? 0 then Some fs
  else
    e ← nodes fs !! entry;
    let h := kfree_if (heap fs) (e_content_at e) in
    let h := kfree_if h (e_children_at e) in
    Some (set_nodes (set_heap fs (km_free h entry)) (delete entry (nodes fs))).

(** The result is the status and the state: the array may have moved. *)
Definition ensure_child_capacity (fs : RamFs) (directory : Z) : option (RamFs * Status) :=
  if directory =? 0 then Some (fs, NotDirectory)
  else
    e ← nodes fs !! directory;
    if negb (e_is_directory e) then Some (fs, NotDirectory)
    else if RAMFS_MAX_CHILDREN <=? child_count e then Some (fs, TooManyChildren)
    else if child_count e <? e_child_capacity e then Some (fs, Ok)
    else
      let new_capacity := if e_child_capacity e =? 0 then 4 else e_child_capacity e * 2 in
      let new_capacity := if RAMFS_MAX_CHILDREN <? new_capacity then RAMFS_MAX_CHILDREN else new_capacity in
      let '(h, new_children) := km_alloc (heap fs) (sizeof_pointer * new_capacity) sizeof_pointer in
      if new_children =? 0 then Some (set_heap fs h, OutOfMemory)
      else
        let h := kfree_if h (e_children_at e) in
        fs ← modify (set_heap fs h) directory (fun e => set_children_array e new_children new_capacity);
        Some (fs, Ok).

(** [parent->children[parent->child_count++] = child; child->parent = parent]. *)
Definition append_child (fs : RamFs) (parent child : Z) : option RamFs :=
  fs ← modify fs parent (fun e => set_children e (e_children e ++ [child]));
  modify fs child (fun e => set_parent e parent).

Definition attach_child (fs : RamFs) (parent child : Z) : option (RamFs * Status) :=
  '(fs, status) ← ensure_child_capacity fs parent;
  if negb (bool_decide (status = Ok)) then Some (fs, status)
  else fs ← append_child fs parent child; Some (fs, Ok).

(** The array after the first slot that holds [child] is closed up, if there is one. *)
Fixpoint close_up (children : list Z) (child : Z) : option (list Z) :=
  match children with
  | [] => None
  | c :: children' => if c =? child then Some children' else cons c <$> close_up children' child
  end.

Definition detach_child (fs : RamFs) (parent child : Z) : option RamFs :=
  if (parent =? 0) || (child =? 0) then Some fs
  else
    e ← nodes fs !! parent;
    match close_up (e_children e) child with
    | None => Some fs
    | Some children' =>
        fs ← modify fs parent (fun e => set_children e children');
        modify fs child (fun e => set_parent e 0)
    end.

(** [destroy_subtree]: one turn of its loop takes the last child off and destroys
    it; the rest of the loop is the function on the same entry again.  [fuel]
    bounds the depth of these nested calls. *)
Fixpoint destroy_subtree (fuel : nat) (fs : RamFs) (entry : Z) : option RamFs :=
  match fuel with
  | O => None
  | S fuel =>
      if entry =? 0 then Some fs
      else
        e ← nodes fs !! entry;
        match last (e_children e) with
        | Some child =>
            fs ← modify fs entry (fun e => set_children e (removelast (e_children e)));
            fs ← destroy_subtree fuel fs child;
            destroy_subtree fuel fs entry
        | None =>
            let total :=
              if e_is_directory e then g_total_file_bytes fs
              else if e_size e <=? g_total_file_bytes fs then g_total_file_bytes fs - e_size e
              else 0 in
            let count := if 0 <? g_node_count fs then g_node_count fs - 1 else g_node_count fs in
            release_entry_storage (set_counters fs count total) entry
        end
  end.

(** A tree has at most [RAMFS_MAX_NODES] nodes, and each call takes one away. *)
Definition destroy_fuel : nat := S (Z.to_nat RAMFS_MAX_NODES).

(** ** Creating and writing *)

(** A result with the new state: undefined behaviour, or the status and the value of the out parameter. *)
Definition create_entry (fs : RamFs) (path : option (list Z)) (is_directory : bool)
    : option (RamFs * Status * Z) :=
  let refuse st := Some (fs, st, 0) in
  if g_root fs =? 0 then refuse NotInitialized
  else
    match parse_path path with
    | None => None
    | Some (inl st) => refuse st
    | Some (inr parsed) =>
        match last (components parsed) with
        | None => refuse RootProtected
        | Some final_component =>
            if is_dot final_component || is_dotdot final_component then refuse InvalidPath
            else if trailing_separator parsed && negb is_directory then refuse InvalidPath
            else if RAMFS_MAX_NODES <=? g_node_count fs then refuse TooManyNodes
            else
              match resolve_components fs parsed (length (components parsed) - 1) with
              | None => None
              | Some (inl st) => refuse st
              | Some (inr parent) =>
                  pe ← nodes fs !! parent;
                  if negb (e_is_directory pe) then refuse NotDirectory
                  else
                    existing ← find_child fs parent final_component;
                    if negb (existing =? 0) then refuse AlreadyExists
                    else if RAMFS_MAX_CHILDREN <=? child_count pe then refuse TooManyChildren
                    else
                      let '(fs, entry) := allocate_entry fs final_component is_directory in
                      if entry =? 0 then
                        Some (fs, if RAMFS_MAX_NODES <=? g_node_count fs then TooManyNodes else OutOfMemory, 0)
                      else
                        '(fs, status) ← attach_child fs parent entry;
                        if negb (bool_decide (status = Ok)) then
                          let count := if 0 <? g_node_count fs then g_node_count fs - 1 else g_node_count fs in
                          fs ← release_entry_storage (set_counters fs count (g_total_file_bytes fs)) entry;
                          Some (fs, status, 0)
                        else Some (fs, Ok, entry)
              end
        end
    end.

(** The bytes of a buffer after [source] and a zero byte are copied to its front. *)
Definition overwrite (buffer source : list Z) : list Z :=
  source ++ [0] ++ drop (length source + 1) buffer.

(** [data]: the bytes at the caller's pointer, [None] when it is null. *)
Definition write_entry (fs : RamFs) (entry : Z) (data : option (list Z)) (size : Z) : option (RamFs * Status) :=
  if entry =? 0 then Some (fs, InvalidArgument)
  else
    e ← nodes fs !! entry;
    if e_is_directory e then Some (fs, IsDirectory)
    else if bool_decide (data = None) && negb (size =? 0) then Some (fs, InvalidArgument)
    else if RAMFS_MAX_FILE_SIZE <? size then Some (fs, FileTooLarge)
    else if g_total_file_bytes fs <? e_size e then Some (fs, StorageLimitReached)
    else
      let other_file_bytes := g_total_file_bytes fs - e_size e in
      if RAMFS_MAX_TOTAL_FILE_BYTES - other_file_bytes <? size then Some (fs, StorageLimitReached)
      else
        let required_capacity := size + 1 in
        let should_resize := (e_capacity e <? required_capacity) ||
          ((required_capacity <? e_capacity e) && (required_capacity <=? e_capacity e / 2)) in
        let source := take (Z.to_nat size) (default [] data) in
        let total := g_total_file_bytes fs - e_size e + size in
        if should_resize then
          let '(h, new_content) := km_alloc (heap fs) required_capacity 1 in
          if new_content =? 0 then Some (set_heap fs h, OutOfMemory)
          else
            let h := kfree_if h (e_content_at e) in
            fs ← modify (set_heap fs h) entry
              (fun e => set_content e new_content (source ++ [0]) size required_capacity);
            Some (set_counters fs (g_node_count fs) total, Ok)
        else
          fs ← modify fs entry
            (fun e => set_content e (e_content_at e) (overwrite (e_content e) source) size (e_capacity e));
          Some (set_counters fs (g_node_count fs) total, Ok).

(** ** Destinations of copies and moves *)

(** The parent directory, the new name and the entry already there ([0] for none). *)
Definition resolve_destination (fs : RamFs) (path : option (list Z)) (source_is_directory : bool)
    : Outcome (Z * Name * Z) :=
  let? parsed := parse_path path in
  match last (components parsed) with
  | None => fail RootProtected
  | Some final_component =>
      if is_dot final_component || is_dotdot final_component ||
         (trailing_separator parsed && negb source_is_directory) then fail InvalidPath
      else
        let? parent := resolve_components fs parsed (length (components parsed) - 1) in
        match nodes fs !! parent with
        | None => None
        | Some pe =>
            if negb (e_is_directory pe) then fail NotDirectory
            else
              match find_child fs parent final_component with
              | None => None
              | Some existing => value (parent, final_component, existing)
              end
        end
  end.

(** The walks over [parent] pointers end at the root, at most
    [RAMFS_MAX_PATH_DEPTH] steps away. *)
Definition parent_fuel : nat := S (S (Z.to_nat RAMFS_MAX_PATH_DEPTH)).

Fixpoint is_same_or_descendant (fuel : nat) (fs : RamFs) (current ancestor : Z) : option bool :=
  match fuel with
  | O => None
  | S fuel =>
      if current =? 0 then Some false
      else if current =? ancestor then Some true
      else e ← nodes fs !! current; is_same_or_descendant fuel fs (e_parent e) ancestor
  end.

Fixpoint entry_depth (fuel : nat) (fs : RamFs) (current : Z) : option Z :=
  match fuel with
  | O => None
  | S fuel =>
      if (current =? 0) || (current =? g_root fs) then Some 0
      else e ← nodes fs !! current; d ← entry_depth fuel fs (e_parent e); Some (1 + d)
  end.

Fixpoint entry_path_length_loop (fuel : nat) (fs : RamFs) (current : Z) : option Z :=
  match fuel with
  | O => None
  | S fuel =>
      if (current =? 0) || (current =? g_root fs) then Some 0
      else
        e ← nodes fs !! current;
        n ← entry_path_length_loop fuel fs (e_parent e);
        Some (Z.of_nat (length (e_name e)) + 1 + n)
  end.

Definition entry_path_length (fs : RamFs) (entry : Z) : option Z :=
  if (entry =? 0) || (entry =? g_root fs) then Some 1
  else entry_path_length_loop parent_fuel fs entry.

(** The loop of [subtree_fits_at] over the children of one entry. *)
Fixpoint children_fit (visit : Z -> Z -> option Status) (fs : RamFs) (children : list Z) (path_length : Z)
    : option Status :=
  match children with
  | [] => Some Ok
  | child :: children' =>
      if child =? 0 then Some InvalidPath
      else
        ce ← nodes fs !! child;
        if (RAMFS_MAX_PATH_LENGTH - 1 <? path_length) ||
           (RAMFS_MAX_PATH_LENGTH - path_length - 1 <? Z.of_nat (length (e_name ce))) then Some PathTooLong
        else
          status ← visit child (path_length + 1 + Z.of_nat (length (e_name ce)));
          if negb (bool_decide (status = Ok)) then Some status
          else children_fit visit fs children' path_length
  end.

Fixpoint subtree_fits_at (fuel : nat) (fs : RamFs) (entry : Z) (depth path_length : Z) : option Status :=
  match fuel with
  | O => None
  | S fuel =>
      if entry =? 0 then Some InvalidArgument
      else if RAMFS_MAX_PATH_DEPTH <? depth then Some PathTooDeep
      else if RAMFS_MAX_PATH_LENGTH <? path_length then Some PathTooLong
      else
        e ← nodes fs !! entry;
        children_fit (fun child length => subtree_fits_at fuel fs child (depth + 1) length)
          fs (e_children e) path_length
  end.

(** The recursion stops one level below [RAMFS_MAX_PATH_DEPTH]. *)
Definition subtree_fuel : nat := S (S (Z.to_nat RAMFS_MAX_PATH_DEPTH)).

Definition subtree_fits_destination (fs : RamFs) (entry destination_parent : Z)
    (destination_name_length : Z) : option Status :=
  parent_depth ← entry_depth parent_fuel fs destination_parent;
  parent_length ← entry_path_length fs destination_parent;
  if RAMFS_MAX_PATH_DEPTH <=? parent_depth then Some PathTooDeep
  else
    let separator := if destination_parent =? g_root fs then 0 else 1 in
    if (RAMFS_MAX_PATH_LENGTH - separator <? parent_length) ||
       (RAMFS_MAX_PATH_LENGTH - parent_length - separator <? destination_name_length) then Some PathTooLong
    else subtree_fits_at subtree_fuel fs entry (parent_depth + 1)
           (parent_length + separator + destination_name_length).

(** ** Entry points *)

Definition initialize_ramfs (fs : RamFs) : RamFs * Status :=
  if negb (g_root fs =? 0) then (finish fs Ok, Ok)
  else
    let '(fs, root) := allocate_entry fs [SLASH] true in
    let fs := set_root fs root in
    if root =? 0 then
      let st := if RAMFS_MAX_NODES <=? g_node_count fs then TooManyNodes else OutOfMemory in
      (finish fs st, st)
    else (finish fs Ok, Ok).

Definition create_file_at (fs : RamFs) (path : option (list Z)) : option (RamFs * Status * Z) :=
  '(fs, st, entry) ← create_entry fs path false; Some (finish fs st, st, entry).

Definition create_directory_at (fs : RamFs) (path : option (list Z)) : option (RamFs * Status * Z) :=
  '(fs, st, entry) ← create_entry fs path true; Some (finish fs st, st, entry).

(** [has_buffer]: the caller's buffer is not null.  The result has the number
    stored through [bytes_read] and the bytes stored in the buffer. *)
Definition read_file_data (fs : RamFs) (path : option (list Z)) (has_buffer : bool) (capacity : Z)
    : option (RamFs * Status * Z * list Z) :=
  match resolve_path fs path with
  | None => None
  | Some (inl st) => Some (finish fs st, st, 0, [])
  | Some (inr entry) =>
      e ← nodes fs !! entry;
      if e_is_directory e then Some (finish fs IsDirectory, IsDirectory, 0, [])
      else if (capacity <? e_size e) || (negb has_buffer && negb (e_size e =? 0)) then
        Some (finish fs BufferTooSmall, BufferTooSmall, e_size e, [])
      else Some (finish fs Ok, Ok, e_size e, take (Z.to_nat (e_size e)) (e_content e))
  end.

Definition write_file_data (fs : RamFs) (path : option (list Z)) (data : option (list Z)) (size : Z)
    (create_if_missing : bool) : option (RamFs * Status) :=
  let refuse st := Some (finish fs st, st) in
  if g_root fs =? 0 then refuse NotInitialized
  else if bool_decide (data = None) && negb (size =? 0) then refuse InvalidArgument
  else if RAMFS_MAX_FILE_SIZE <? size then refuse FileTooLarge
  else
    '(fs, status, entry, created) ←
      match resolve_path fs path with
      | None => None
      | Some (inr entry) => Some (fs, Ok, entry, false)
      | Some (inl status) =>
          if bool_decide (status = NotFound) && create_if_missing then
            '(fs, status, entry) ← create_entry fs path false;
            Some (fs, status, entry, bool_decide (status = Ok))
          else Some (fs, status, 0, false)
      end;
    if negb (bool_decide (status = Ok)) then Some (finish fs status, status)
    else
      '(fs, status) ← write_entry fs entry data size;
      if negb (bool_decide (status = Ok)) && (created : bool) then
        e ← nodes fs !! entry;
        fs ← detach_child fs (e_parent e) entry;
        fs ← destroy_subtree destroy_fuel fs entry;
        Some (finish fs status, status)
      else Some (finish fs status, status).

Definition entry_stat (e : FileEntry) : FileStat :=
  mkFileStat (if e_is_directory e then DirectoryType else FileType) (e_size e) (child_count e).

(** [has_out]: the out parameter is not null. *)
Definition stat_path (fs : RamFs) (path : option (list Z)) (has_out : bool)
    : option (RamFs * Status * option FileStat) :=
  if negb has_out then Some (finish fs InvalidArgument, InvalidArgument, None)
  else
    match resolve_path fs path with
    | None => None
    | Some (inl st) => Some (finish fs st, st, None)
    | Some (inr entry) => e ← nodes fs !! entry; Some (finish fs Ok, Ok, Some (entry_stat e))
    end.

(** The callback gets the name and the description of an entry and its own
    context, which it may change; [false] stops the iteration. *)
Fixpoint list_loop {C : Type} (callback : Name -> FileStat -> C -> bool * C) (fs : RamFs)
    (children : list Z) (context : C) : option (Status * C) :=
  match children with
  | [] => Some (Ok, context)
  | child :: children' =>
      ce ← nodes fs !! child;
      let '(continue, context) := callback (e_name ce) (entry_stat ce) context in
      if (continue : bool) then list_loop callback fs children' context else Some (IterationStopped, context)
  end.

Definition list_directory {C : Type} (fs : RamFs) (path : option (list Z))
    (callback : option (Name -> FileStat -> C -> bool * C)) (context : C) : option (RamFs * Status * C) :=
  match callback with
  | None => Some (finish fs InvalidArgument, InvalidArgument, context)
  | Some callback =>
      match resolve_path fs path with
      | None => None
      | Some (inl st) => Some (finish fs st, st, context)
      | Some (inr directory) =>
          e ← nodes fs !! directory;
          if negb (e_is_directory e) then Some (finish fs NotDirectory, NotDirectory, context)
          else
            '(st, context) ← list_loop callback fs (e_children e) context;
            Some (finish fs st, st, context)
      end
  end.

Definition remove_path (fs : RamFs) (path : option (list Z)) (recursive : bool) : option (RamFs * Status) :=
  let refuse st := Some (finish fs st, st) in
  match resolve_path fs path with
  | None => None
  | Some (inl st) => refuse st
  | Some (inr entry) =>
      e ← nodes fs !! entry;
      if entry =? g_root fs then refuse RootProtected
      else if e_is_directory e && negb (child_count e =? 0) && negb recursive then refuse DirectoryNotEmpty
      else
        fs ← detach_child fs (e_parent e) entry;
        fs ← destroy_subtree destroy_fuel fs entry;
        Some (finish fs Ok, Ok)
  end.

Definition copy_file (fs : RamFs) (source_path destination_path : option (list Z)) : option (RamFs * Status) :=
  let refuse st := Some (finish fs st, st) in
  if g_root fs =? 0 then refuse NotInitialized
  else
    match resolve_path fs source_path with
    | None => None
    | Some (inl st) => refuse st
    | Some (inr source) =>
        se ← nodes fs !! source;
        if e_is_directory se then refuse IsDirectory
        else
          match resolve_destination fs destination_path false with
          | None => None
          | Some (inl st) => refuse st
          | Some (inr (destination_parent, destination_name, existing)) =>
              pe ← nodes fs !! destination_parent;
              if negb (existing =? 0) then refuse AlreadyExists
              else if RAMFS_MAX_NODES <=? g_node_count fs then refuse TooManyNodes
              else if RAMFS_MAX_CHILDREN <=? child_count pe then refuse TooManyChildren
              else if RAMFS_MAX_TOTAL_FILE_BYTES - g_total_file_bytes fs <? e_size se then
                refuse StorageLimitReached
              else
                let '(fs, copy) := allocate_entry fs destination_name false in
                if copy =? 0 then
                  let st := if RAMFS_MAX_NODES <=? g_node_count fs then TooManyNodes else OutOfMemory in
                  Some (finish fs st, st)
                else
                  se ← nodes fs !! source;
                  '(fs, status) ← write_entry fs copy (Some (e_content se)) (e_size se);
                  if negb (bool_decide (status = Ok)) then
                    fs ← destroy_subtree destroy_fuel fs copy; Some (finish fs status, status)
                  else
                    '(fs, status) ← attach_child fs destination_parent copy;
                    if negb (bool_decide (status = Ok)) then
                      fs ← destroy_subtree destroy_fuel fs copy; Some (finish fs status, status)
                    else Some (finish fs Ok, Ok)
          end
    end.

(** The last part of [move_path], which cannot fail. *)
Definition relink (fs : RamFs) (source old_parent destination_parent : Z) (destination_name : Name) : option RamFs :=
  fs ← (if destination_parent =? old_parent then Some fs else detach_child fs old_parent source);
  fs ← modify fs source (fun e => set_name e destination_name);
  if destination_parent =? old_parent then Some fs else append_child fs destination_parent source.

Definition move_path (fs : RamFs) (source_path destination_path : option (list Z)) : option (RamFs * Status) :=
  let refuse st := Some (finish fs st, st) in
  if g_root fs =? 0 then refuse NotInitialized
  else
    match resolve_path fs source_path with
    | None => None
    | Some (inl st) => refuse st
    | Some (inr source) =>
        se ← nodes fs !! source;
        if source =? g_root fs then refuse RootProtected
        else
          match resolve_destination fs destination_path (e_is_directory se) with
          | None => None
          | Some (inl st) => refuse st
          | Some (inr (destination_parent, destination_name, existing)) =>
              if existing =? source then refuse Ok
              else if negb (existing =? 0) then refuse AlreadyExists
              else
                cycle ← (if e_is_directory se then is_same_or_descendant parent_fuel fs destination_parent source
                         else Some false);
                if cycle : bool then refuse WouldCreateCycle
                else
                  status ← subtree_fits_destination fs source destination_parent
                             (Z.of_nat (length destination_name));
                  if negb (bool_decide (status = Ok)) then refuse status
                  else
                    let old_parent := e_parent se in
                    pe ← nodes fs !! destination_parent;
                    '(fs, status) ←
                      (if destination_parent =? old_parent then Some (fs, Ok)
                       else if RAMFS_MAX_CHILDREN <=? child_count pe then Some (fs, TooManyChildren)
                       else ensure_child_capacity fs destination_parent);
                    if negb (bool_decide (status = Ok)) then Some (finish fs status, status)
                    else
                      fs ← relink fs source old_parent destination_parent destination_name;
                      Some (finish fs Ok, Ok)
          end
    end.

Definition rename_path (fs : RamFs) (source_path destination_path : option (list Z)) : option (RamFs * Status) :=
  move_path fs source_path destination_path.

Definition last_status (fs : RamFs) : Status := g_last_status fs.

(** ** Compatibility entry points *)

Definition init_ramfs (fs : RamFs) : RamFs := fst (initialize_ramfs fs).

(** [if (!g_root && initialize_ramfs() != Status::Ok) return]: the state, and whether to go on. *)
Definition ensure_initialized (fs : RamFs) : RamFs * bool :=
  if g_root fs =? 0 then let '(fs, st) := initialize_ramfs fs in (fs, bool_decide (st = Ok)) else (fs, true).

Definition create_file (fs : RamFs) (name : option (list Z)) : option (RamFs * Z) :=
  let '(fs, ready) := ensure_initialized fs in
  if negb ready then Some (fs, 0)
  else '(fs, _, entry) ← create_file_at fs name; Some (fs, entry).

Definition create_directory (fs : RamFs) (name : option (list Z)) : option (RamFs * Z) :=
  let '(fs, ready) := ensure_initialized fs in
  if negb ready then Some (fs, 0)
  else '(fs, _, entry) ← create_directory_at fs name; Some (fs, entry).

(** The buffer at the returned pointer ([g_empty_content] is one zero byte); [None] is null. *)
Definition read_file (fs : RamFs) (name : option (list Z)) : option (RamFs * option (list Z)) :=
  match resolve_path fs name with
  | None => None
  | Some (inl st) => Some (finish fs st, None)
  | Some (inr entry) =>
      e ← nodes fs !! entry;
      if e_is_directory e then Some (finish fs IsDirectory, None)
      else Some (finish fs Ok, Some (if e_content_at e =? 0 then [0] else e_content e))
  end.

Definition write_file (fs : RamFs) (name content : option (list Z)) : option RamFs :=
  let '(fs, ready) := ensure_initialized fs in
  if negb ready then Some fs
  else
    match bounded_length content RAMFS_MAX_FILE_SIZE FileTooLarge with
    | inl st => Some (finish fs st)
    | inr length => fst <$> write_file_data fs name content length true
    end.

Definition list_files (fs : RamFs) : option RamFs :=
  '(fs, _, _) ← list_directory fs (Some [SLASH]) (Some (fun _ _ (u : unit) => (true, u))) tt; Some fs.

End ramfs.

Arguments RamFs : clear implicits.
