(* ===== verification/RamFsSpec.v ===== *)
(** * What the RAM file system promises: an abstract tree and its operations

    The abstract state is a finite map from paths to nodes.  A path is the list
    of names from the node up to the root, innermost first, so that the parent of
    [n :: p] is [p] and the nodes below [p] are those whose path ends in [p]; a
    directory lists the names of its children in order of creation.  [tree_ok]
    collects what always holds of such a map: it is a tree and stays within the
    limits of ramfs.hpp.  [spec] says what each operation does to it. *)

From S2P Require Import Prelude RamFs.

Abbreviation Path := (list (list Z)) (only parsing).

Inductive Node :=
  | File (bytes : list Z)
  | Directory (names : list Name).

Abbreviation Tree := (gmap (list (list Z)) Node) (only parsing).

(** ** Paths in text *)

(** A C string ends at its first zero byte. *)
Fixpoint until_nul (s : list Z) : list Z :=
  match s with
  | c :: s' => if c =? 0 then [] else c :: until_nul s'
  | [] => []
  end.

(** The maximal non-empty runs of bytes without a separator. *)
Fixpoint split_from (run : Name) (s : list Z) : list Name :=
  let closed := if bool_decide (run = []) then [] else [run] in
  match s with
  | c :: s' => if c =? SLASH then closed ++ split_from [] s' else split_from (run ++ [c]) s'
  | [] => closed
  end.

Definition split_path (s : list Z) : list Name := split_from [] s.

(** The depth after the components, or the first reason to refuse them. *)
Fixpoint depth_after (cs : list Name) (depth : Z) : Status + Z :=
  match cs with
  | [] => inr depth
  | c :: cs' =>
      if RAMFS_MAX_NAME_LENGTH <? Z.of_nat (length c) then inl NameTooLong
      else match step_depth c depth with inl st => inl st | inr depth => depth_after cs' depth end
  end.

Definition path_of (path : option (list Z)) : Status + ParsedPath :=
  match until_nul <$> path with
  | None => inl InvalidArgument
  | Some s =>
      if RAMFS_MAX_PATH_LENGTH <? Z.of_nat (length s) then inl PathTooLong
      else
        match last s with
        | None => inl InvalidPath
        | Some c =>
            match depth_after (split_path s) 0 with
            | inl st => inl st
            | inr _ => inr (mkParsedPath (split_path s) (c =? SLASH))
            end
        end
  end.

(** The absolute path of a node in text, and its length. *)
Fixpoint path_text (p : Path) : list Z :=
  match p with
  | [] => []
  | n :: p' => path_text p' ++ SLASH :: n
  end.

Definition absolute (p : Path) : list Z := match p with [] => [SLASH] | _ => path_text p end.

Definition path_length (p : Path) : Z := Z.of_nat (length (path_text p)).

(** The sum of a quantity over the values of a map. *)
Definition sum_map {K} `{Countable K} {A} (f : A -> Z) (m : gmap K A) : Z :=
  foldr Z.add 0 ((fun kv => f (snd kv)) <$> map_to_list m).

(** ** Operations *)

Definition spec_is_directory (t : Tree) (p : Path) : bool :=
  match t !! p with Some (Directory _) => true | _ => false end.

Fixpoint spec_walk (t : Tree) (cs : list Name) (current : Path) : Status + Path :=
  match cs with
  | [] => inr current
  | c :: cs' =>
      match t !! current with
      | Some (Directory names) =>
          if is_dot c then spec_walk t cs' current
          else if is_dotdot c then
            match current with [] => inl InvalidPath | _ :: up => spec_walk t cs' up end
          else if bool_decide (c ∈ names) then spec_walk t cs' (c :: current)
          else inl NotFound
      | _ => inl NotDirectory
      end
  end.

(** From the root of a file system that has one. *)
Definition spec_walk_root (t : Tree) (cs : list Name) : Status + Path :=
  match t !! [] with
  | None => inl NotInitialized
  | Some _ => spec_walk t cs []
  end.

Definition spec_resolve (t : Tree) (path : option (list Z)) : Status + Path :=
  match path_of path with
  | inl st => inl st
  | inr parsed =>
      match spec_walk_root t (components parsed) with
      | inl st => inl st
      | inr p => if trailing_separator parsed && negb (spec_is_directory t p) then inl NotDirectory else inr p
      end
  end.

(** The name a path gives to a new entry, and the way to its directory. *)
Definition spec_target (path : option (list Z)) (is_directory : bool) : Status + (list Name * Name) :=
  match path_of path with
  | inl st => inl st
  | inr parsed =>
      match last (components parsed) with
      | None => inl RootProtected
      | Some n =>
          if is_dot n || is_dotdot n || (trailing_separator parsed && negb is_directory) then inl InvalidPath
          else inr (removelast (components parsed), n)
      end
  end.

(** The directory at the end of the way. *)
Definition spec_directory (t : Tree) (cs : list Name) : Status + (Path * list Name) :=
  match spec_walk_root t cs with
  | inl st => inl st
  | inr p => match t !! p with Some (Directory names) => inr (p, names) | _ => inl NotDirectory end
  end.

Definition update_names (f : list Name -> list Name) (p : Path) (t : Tree) : Tree :=
  alter (fun node => match node with Directory names => Directory (f names) | _ => node end) p t.

(** A new node, last in its directory. *)
Definition add_entry (t : Tree) (p : Path) (n : Name) (node : Node) : Tree :=
  <[n :: p := node]> (update_names (fun names => names ++ [n]) p t).

Definition node_bytes (node : Node) : Z := match node with File bytes => Z.of_nat (length bytes) | _ => 0 end.

Definition total_bytes (t : Tree) : Z := sum_map node_bytes t.

Definition node_count (t : Tree) : Z := Z.of_nat (size t).

Definition empty_node (is_directory : bool) : Node := if is_directory then Directory [] else File [].

(** The directory and the name for a new entry. *)
Definition spec_new (t : Tree) (path : option (list Z)) (is_directory : bool) : Status + (Path * Name) :=
  match t !! [] with
  | None => inl NotInitialized
  | Some _ =>
      match spec_target path is_directory with
      | inl st => inl st
      | inr (cs, n) =>
          if RAMFS_MAX_NODES <=? node_count t then inl TooManyNodes
          else
            match spec_directory t cs with
            | inl st => inl st
            | inr (p, names) =>
                if bool_decide (n ∈ names) then inl AlreadyExists
                else if RAMFS_MAX_CHILDREN <=? Z.of_nat (length names) then inl TooManyChildren
                else inr (p, n)
            end
      end
  end.

Definition spec_create (t : Tree) (path : option (list Z)) (is_directory : bool) : Status + Tree :=
  match spec_new t path is_directory with
  | inl st => inl st
  | inr (p, n) => inr (add_entry t p n (empty_node is_directory))
  end.

Definition spec_put (t : Tree) (p : Path) (bytes : list Z) : Status + Tree :=
  match t !! p with
  | Some (File old) =>
      if RAMFS_MAX_TOTAL_FILE_BYTES - (total_bytes t - Z.of_nat (length old)) <? Z.of_nat (length bytes)
      then inl StorageLimitReached
      else inr (<[p := File bytes]> t)
  | _ => inl IsDirectory
  end.

Definition spec_write (t : Tree) (path : option (list Z)) (data : option (list Z)) (size : Z)
    (create_if_missing : bool) : Status + Tree :=
  match t !! [] with
  | None => inl NotInitialized
  | Some _ =>
      if bool_decide (data = None) && negb (size =? 0) then inl InvalidArgument
      else if RAMFS_MAX_FILE_SIZE <? size then inl FileTooLarge
      else
        let bytes := take (Z.to_nat size) (default [] data) in
        match spec_resolve t path with
        | inr p => spec_put t p bytes
        | inl st =>
            if bool_decide (st = NotFound) && create_if_missing then
              match spec_new t path false with
              | inl st => inl st
              | inr (p, n) => spec_put (add_entry t p n (File [])) (n :: p) bytes
              end
            else inl st
        end
  end.

(** Everything at or below [p] is taken out, and [p] out of its directory. *)
Definition remove_subtree (t : Tree) (p : Path) : Tree :=
  update_names (filter (fun m => m ≠ default [] (head p))) (tail p)
    (filter (fun kv => ¬ (suffix p (fst kv))) t).

Definition spec_remove (t : Tree) (path : option (list Z)) (recursive : bool) : Status + Tree :=
  match spec_resolve t path with
  | inl st => inl st
  | inr p =>
      if bool_decide (p = []) then inl RootProtected
      else
        match t !! p with
        | Some (Directory (_ :: _)) => if recursive then inr (remove_subtree t p) else inl DirectoryNotEmpty
        | _ => inr (remove_subtree t p)
        end
  end.

Definition spec_copy (t : Tree) (source destination : option (list Z)) : Status + Tree :=
  match t !! [] with
  | None => inl NotInitialized
  | Some _ =>
      match spec_resolve t source with
      | inl st => inl st
      | inr sp =>
          match t !! sp with
          | Some (File bytes) =>
              match spec_target destination false with
              | inl st => inl st
              | inr (cs, n) =>
                  match spec_directory t cs with
                  | inl st => inl st
                  | inr (p, names) =>
                      if bool_decide (n ∈ names) then inl AlreadyExists
                      else if RAMFS_MAX_NODES <=? node_count t then inl TooManyNodes
                      else if RAMFS_MAX_CHILDREN <=? Z.of_nat (length names) then inl TooManyChildren
                      else if RAMFS_MAX_TOTAL_FILE_BYTES - total_bytes t <? Z.of_nat (length bytes) then
                        inl StorageLimitReached
                      else inr (add_entry t p n (File bytes))
                  end
              end
          | _ => inl IsDirectory
          end
      end
  end.

(** Depth and length limits for the subtree at [p] if its root came to the given place. *)
Fixpoint first_error (l : list Status) : Status :=
  match l with
  | [] => Ok
  | st :: l' => if bool_decide (st = Ok) then first_error l' else st
  end.

Fixpoint spec_fits (fuel : nat) (t : Tree) (p : Path) (depth length_ : Z) : Status :=
  match fuel with
  | O => Ok
  | S fuel =>
      if RAMFS_MAX_PATH_DEPTH <? depth then PathTooDeep
      else if RAMFS_MAX_PATH_LENGTH <? length_ then PathTooLong
      else
        match t !! p with
        | Some (Directory names) =>
            first_error ((fun n =>
              let length' := length_ + 1 + Z.of_nat (length n) in
              if RAMFS_MAX_PATH_LENGTH <? length' then PathTooLong
              else spec_fits fuel t (n :: p) (depth + 1) length') <$> names)
        | _ => Ok
        end
  end.

Definition spec_fits_at (t : Tree) (source p : Path) (n : Name) : Status :=
  if RAMFS_MAX_PATH_DEPTH <=? Z.of_nat (length p) then PathTooDeep
  else if RAMFS_MAX_PATH_LENGTH <? path_length (n :: p) then PathTooLong
  else spec_fits subtree_fuel t source (Z.of_nat (length p) + 1) (path_length (n :: p)).

(** The paths at or below [source] move to the same places at or below [target]. *)
Fixpoint strip_suffix (p q : Path) : option Path :=
  if bool_decide (q = p) then Some []
  else match q with [] => None | n :: q' => cons n <$> strip_suffix p q' end.

Definition relocate (source target q : Path) : Path :=
  match strip_suffix source q with Some r => r ++ target | None => q end.

Definition rekey {A} (f : Path -> Path) (m : gmap (list (list Z)) A) : gmap (list (list Z)) A :=
  list_to_map ((fun kv => (f kv.1, kv.2)) <$> map_to_list m).

Definition move_subtree (t : Tree) (source : Path) (p : Path) (n : Name) : Tree :=
  let old := default [] (head source) in
  let t' := rekey (relocate source (n :: p)) t in
  if bool_decide (p = tail source) then
    update_names (fmap (fun m => if bool_decide (m = old) then n else m)) p t'
  else
    update_names (fun names => names ++ [n]) p (update_names (filter (fun m => m ≠ old)) (tail source) t').

Definition spec_move (t : Tree) (source destination : option (list Z)) : Status + Tree :=
  match t !! [] with
  | None => inl NotInitialized
  | Some _ =>
      match spec_resolve t source with
      | inl st => inl st
      | inr sp =>
          if bool_decide (sp = []) then inl RootProtected
          else
            match spec_target destination (spec_is_directory t sp) with
            | inl st => inl st
            | inr (cs, n) =>
                match spec_directory t cs with
                | inl st => inl st
                | inr (p, names) =>
                    if bool_decide (n :: p = sp) then inr t
                    else if bool_decide (n ∈ names) then inl AlreadyExists
                    else if bool_decide (sp `suffix_of` p) then inl WouldCreateCycle
                    else
                      match spec_fits_at t sp p n with
                      | Ok =>
                          if negb (bool_decide (p = tail sp)) && (RAMFS_MAX_CHILDREN <=? Z.of_nat (length names))
                          then inl TooManyChildren
                          else inr (move_subtree t sp p n)
                      | st => inl st
                      end
                end
            end
      end
  end.

Inductive Op :=
  | Initialize
  | Create (path : option (list Z)) (is_directory : bool)
  | Write (path data : option (list Z)) (size : Z) (create_if_missing : bool)
  | Remove (path : option (list Z)) (recursive : bool)
  | Copy (source destination : option (list Z))
  | Move (source destination : option (list Z)).

(** The new tree, or the status the operation refuses with; running out of
    memory is the only other outcome. *)
Definition spec (t : Tree) (op : Op) : Status + Tree :=
  match op with
  | Initialize => inr (match t !! [] with None => {[ [] := Directory [] ]} | Some _ => t end)
  | Create path is_directory => spec_create t path is_directory
  | Write path data size create_if_missing => spec_write t path data size create_if_missing
  | Remove path recursive => spec_remove t path recursive
  | Copy source destination => spec_copy t source destination
  | Move source destination => spec_move t source destination
  end.

(** ** What is always true of the tree *)

Definition name_ok (n : Name) : Prop :=
  n ≠ [] /\ Z.of_nat (length n) <= RAMFS_MAX_NAME_LENGTH /\ (0 ∉ n) /\ (SLASH ∉ n) /\ n ≠ [DOT] /\ n ≠ [DOT; DOT].

Record tree_ok (t : Tree) : Prop := {
  to_root : exists names, t !! [] = Some (Directory names);
  to_parent : forall n p, is_Some (t !! (n :: p)) <-> exists names, t !! p = Some (Directory names) /\ n ∈ names;
  to_names : forall p names, t !! p = Some (Directory names) ->
    NoDup names /\ Z.of_nat (length names) <= RAMFS_MAX_CHILDREN;
  to_name : forall n p, is_Some (t !! (n :: p)) -> name_ok n;
  to_depth : forall p, is_Some (t !! p) -> Z.of_nat (length p) <= RAMFS_MAX_PATH_DEPTH;
  to_length : forall p, is_Some (t !! p) -> path_length p <= RAMFS_MAX_PATH_LENGTH + 1;
  to_file : forall p bytes, t !! p = Some (File bytes) -> Z.of_nat (length bytes) <= RAMFS_MAX_FILE_SIZE;
  to_nodes : node_count t <= RAMFS_MAX_NODES;
  to_bytes : total_bytes t <= RAMFS_MAX_TOTAL_FILE_BYTES
}.

(** ** Parsing *)

Lemma component_equals_iff c d : component_equals c d = bool_decide (c = d).
Proof.
  unfold component_equals. revert d; induction c as [|x c IH]; intros [|y d]; cbn; try done.
  specialize (IH d). destruct (Nat.eqb_spec (length c) (length d)) as [E|E].
  - rewrite IH. destruct (Z.eqb_spec x y); cbn; repeat case_bool_decide; congruence.
  - rewrite bool_decide_false; congruence.
Qed.

Lemma is_dot_iff c : is_dot c = bool_decide (c = [DOT]).
Proof. apply component_equals_iff. Qed.

Lemma is_dotdot_iff c : is_dotdot c = bool_decide (c = [DOT; DOT]).
Proof. apply component_equals_iff. Qed.

Lemma skip_separators_ok s :
  split_path (skip_separators s) = split_path s /\ (length (skip_separators s) <= length s)%nat /\
  (head s = Some SLASH -> (length (skip_separators s) < length s)%nat) /\
  forall c, head (skip_separators s) = Some c -> c ≠ SLASH.
Proof.
  unfold split_path. induction s as [|c s (IH1 & IH2 & _ & IH4)]; [done|]. cbn [skip_separators split_from head length].
  destruct (Z.eqb_spec c SLASH) as [->|Hc]; [split; [done|]; split; [lia|]; split; [lia|done]|].
  split; [cbn; by destruct (Z.eqb_spec c SLASH)|]. split; [done|]. split; [|by intros ? [= <-]].
  intros [= ?]. congruence.
Qed.

Lemma take_component_ok s c r :
  take_component s = (c, r) ->
  s = c ++ r /\ (SLASH ∉ c) /\ (r = [] \/ head r = Some SLASH) /\ (head s ≠ Some SLASH -> s ≠ [] -> c ≠ []) /\
  forall run, run ++ c ≠ [] -> split_from run s = (run ++ c) :: split_path r.
Proof.
  revert c r; induction s as [|x s IH]; intros c r; cbn [take_component].
  - intros E. apply pair_equal_spec in E as [<- <-]. split; [done|]. split; [apply not_elem_of_nil|]. split; [by left|].
    split; [done|]. intros run Hr. rewrite app_nil_r in Hr. cbn. rewrite bool_decide_false by done. by rewrite app_nil_r.
  - destruct (Z.eqb_spec x SLASH) as [->|Hx].
    + intros E. apply pair_equal_spec in E as [<- <-]. split; [done|]. split; [apply not_elem_of_nil|]. split; [by right|].
      split; [by intros []|]. intros run Hr. rewrite app_nil_r in Hr |- *. cbn. by rewrite bool_decide_false by done.
    + destruct (take_component s) as [c' r'] eqn:E'. intros E. apply pair_equal_spec in E as [<- <-].
      destruct (IH _ _ eq_refl) as (-> & Hc & Hr & _ & Hs). split; [done|].
      split; [apply not_elem_of_cons; by split|]. split; [done|]. split; [done|].
      intros run Hn. cbn [split_from]. destruct (Z.eqb_spec x SLASH); [done|].
      rewrite Hs by (by destruct run). by rewrite <- app_assoc.
Qed.

Lemma until_nul_cons_zero s c : (forall x, x ∈ until_nul s -> x ≠ 0) /\ until_nul (0 :: c) = [].
Proof.
  split; [|done]. induction s as [|y s IH]; cbn; [by intros ? ?%not_elem_of_nil|].
  destruct (Z.eqb_spec y 0); [by intros ? ?%not_elem_of_nil|]. intros x [->|Hx]%elem_of_cons; auto.
Qed.

Lemma until_nul_spec s :
  until_nul s = take (length (until_nul s)) s /\ nth (length (until_nul s)) s 0 = 0 /\
  forall i, (i < length (until_nul s))%nat -> nth i s 0 ≠ 0.
Proof.
  induction s as [|c s (IH1 & IH2 & IH3)]; cbn; [split; [done|split; [done|lia]]|].
  destruct (Z.eqb_spec c 0) as [->|Hc]; cbn; [split; [done|split; [done|lia]]|].
  split; [by rewrite <- IH1|]. split; [done|]. intros [|i] Hi; [done|]. apply IH3. lia.
Qed.

Lemma bounded_length_ok s maximum too_long :
  0 <= maximum ->
  bounded_length (Some s) maximum too_long =
    if maximum <? Z.of_nat (length (until_nul s)) then inl too_long else inr (Z.of_nat (length (until_nul s))).
Proof.
  intros Hm. unfold bounded_length. destruct (until_nul_spec s) as (_ & Hz & Hnz).
  destruct for_find eqn:E.
  - apply for_find_Some in E as (Hi & Hp & Hbefore). destruct (Z.eqb_spec (nth (Z.to_nat z) s 0) 0) as [E|]; [|done].
    assert (Z.to_nat z = length (until_nul s)) as El.
    { destruct (lt_eq_lt_dec (Z.to_nat z) (length (until_nul s))) as [[Hlt|]|Hlt]; [by apply Hnz in Hlt|done|].
      specialize (Hbefore (Z.of_nat (length (until_nul s)))). cbv beta in Hbefore. rewrite Nat2Z.id, Hz in Hbefore.
      discriminate Hbefore. lia. }
    destruct (Z.ltb_spec maximum (Z.of_nat (length (until_nul s)))); [lia|]. f_equal. lia.
  - destruct (Z.ltb_spec maximum (Z.of_nat (length (until_nul s)))); [done|].
    pose proof (proj1 (for_find_None _ _ _) E (Z.of_nat (length (until_nul s)))) as H0.
    cbv beta in H0. rewrite Nat2Z.id, Hz in H0. discriminate H0. lia.
Qed.

Lemma parse_components_ok fuel rest depth parsed :
  (length rest < fuel)%nat -> (2 * length parsed + length rest <= 256)%nat ->
  (length parsed = 0%nat -> (length rest <= 255)%nat) ->
  (length parsed ≠ 0%nat -> rest = [] \/ head rest = Some SLASH) ->
  parse_components fuel rest depth parsed =
    match depth_after (split_path rest) depth with
    | inl st => fail st
    | inr _ => value (parsed ++ split_path rest)
    end.
Proof.
  revert rest depth parsed; induction fuel as [|fuel IH]; intros rest depth parsed Hf Hb H0 Hs; [lia|].
  cbn [parse_components]. destruct (skip_separators_ok rest) as (Es & Hl & Hlt & Hh). rewrite <- Es.
  set (rest' := skip_separators rest) in *. case_bool_decide as He.
  { rewrite He. cbn. by rewrite app_nil_r. }
  destruct (take_component rest') as [c r] eqn:Et. destruct (take_component_ok _ _ _ Et) as (Er & _ & Hr & Hc & Hsp).
  assert (c ≠ []) as Hne.
  { apply Hc; [|done]. intros E. by apply Hh in E. }
  specialize (Hsp [] Hne). cbn [app] in Hsp. unfold split_path at 1 2. rewrite Hsp. cbn [depth_after].
  destruct (RAMFS_MAX_NAME_LENGTH <? _); [done|]. destruct (step_depth c depth) as [st|d]; [done|].
  assert (length rest' = length c + length r)%nat as El by (rewrite Er at 1; apply length_app).
  assert (length c ≠ 0%nat) by (by destruct c).
  assert (length parsed ≠ 0%nat -> (length rest' < length rest)%nat) as Hdec.
  { intros Hp. destruct (Hs Hp) as [->|Hhd]; [by destruct He|by apply Hlt]. }
  destruct (Z.eqb_spec (Z.of_nat (length parsed)) RAMFS_MAX_PATH_COMPONENTS) as [E|_].
  { change RAMFS_MAX_PATH_COMPONENTS with 128 in E. lia. }
  assert (length (parsed ++ [c]) = S (length parsed)) as Ea by (rewrite length_app; cbn; lia).
  rewrite IH; [|lia|rewrite Ea; lia|rewrite Ea; lia|done]. unfold split_path.
  destruct depth_after; [done|]. by rewrite <- app_assoc.
Qed.

Lemma nth_last {A} (l : list A) d : last l = match l with [] => None | _ => Some (nth (length l - 1) l d) end.
Proof.
  destruct l as [|x l _] using rev_ind; [done|]. rewrite last_snoc, length_app, app_nth2 by (cbn; lia).
  cbn. replace (length l + 1 - 1 - length l)%nat with 0%nat by lia. by destruct l.
Qed.

Lemma nth_take {A} (l : list A) n i d : (i < n)%nat -> nth i (take n l) d = nth i l d.
Proof. revert n i; induction l as [|x l IH]; intros [|n] [|i] Hi; cbn; try done; try lia. apply IH. lia. Qed.

(** The parser always ends, and computes [path_of]. *)
Lemma parse_path_ok path : parse_path path = Some (path_of path).
Proof.
  destruct path as [s|]; [|done]. unfold parse_path, path_of. cbn [fmap option_fmap option_map].
  rewrite bounded_length_ok by done. destruct (until_nul_spec s) as (Et & _ & _).
  destruct (Z.ltb_spec RAMFS_MAX_PATH_LENGTH (Z.of_nat (length (until_nul s)))) as [|Hl]; [done|].
  change RAMFS_MAX_PATH_LENGTH with 255 in Hl. rewrite Nat2Z.id, <- Et. rewrite (nth_last _ 0).
  destruct (until_nul s) as [|c t] eqn:Es; [done|]. rewrite <- Es in *.
  destruct (Z.eqb_spec (Z.of_nat (length (until_nul s))) 0) as [E|_]; [rewrite Es in E; cbn in E; lia|].
  rewrite parse_components_ok by (cbn [length]; lia). destruct depth_after; [done|]. cbn [obind value].
  assert (length (until_nul s) ≠ 0%nat) by (rewrite Es; done). unfold value. cbn [app]. do 4 f_equal.
  replace (Z.to_nat (Z.of_nat (length (until_nul s)) - 1)) with (length (until_nul s) - 1)%nat by lia.
  rewrite <- (nth_take s (length (until_nul s))) by lia. by rewrite <- Et.
Qed.

(** Every component is a possible name (or a dot name), and they are not longer than the text. *)
Lemma split_from_names run s c :
  SLASH ∉ run -> 0 ∉ run -> (forall x, x ∈ s -> x ≠ 0) -> c ∈ split_from run s -> c ≠ [] /\ (SLASH ∉ c) /\ (0 ∉ c).
Proof.
  revert run; induction s as [|x s IH]; intros run H1 H2 Hs; cbn.
  - case_bool_decide; [by intros ?%not_elem_of_nil|]. intros ->%list_elem_of_singleton. done.
  - destruct (Z.eqb_spec x SLASH) as [->|Hx].
    + rewrite elem_of_app. intros [Hc|Hc].
      * revert Hc. case_bool_decide; [by intros ?%not_elem_of_nil|]. intros ->%list_elem_of_singleton. done.
      * apply IH in Hc; [done|apply not_elem_of_nil|apply not_elem_of_nil|]. intros y Hy. apply Hs. by constructor.
    + apply IH; [rewrite elem_of_app, list_elem_of_singleton; intuition congruence| |].
      * rewrite elem_of_app, list_elem_of_singleton. intros [|E]; [done|]. apply (Hs x); [constructor|done].
      * intros y Hy. apply Hs. by constructor.
Qed.

Definition text_length (cs : list Name) : Z := foldr Z.add 0 ((fun c => Z.of_nat (length c) + 1) <$> cs).

Lemma text_length_app cs ds : text_length (cs ++ ds) = text_length cs + text_length ds.
Proof. unfold text_length. induction cs; cbn in *; lia. Qed.

Lemma split_from_length run s :
  text_length (split_from run s) <= Z.of_nat (length run) + Z.of_nat (length s) + 1.
Proof.
  revert run; induction s as [|x s IH]; intros run; cbn [split_from length].
  - case_bool_decide; cbn; lia.
  - destruct (x =? SLASH).
    + rewrite text_length_app. specialize (IH []). cbn [length] in IH. case_bool_decide; cbn; lia.
    + specialize (IH (run ++ [x])). rewrite length_app in IH. cbn [length] in IH. lia.
Qed.

(** ** Sums over maps and renaming of keys *)

Section maps.
Context {K : Type} `{Countable K} {A : Type}.
Implicit Types (m : gmap K A) (f : A -> Z).

Lemma sum_perm (l l' : list Z) : l ≡ₚ l' -> foldr Z.add 0 l = foldr Z.add 0 l'.
Proof. induction 1; cbn; lia. Qed.

Lemma sum_map_empty f : sum_map f (∅ : gmap K A) = 0.
Proof. unfold sum_map. by rewrite map_to_list_empty. Qed.

Lemma sum_map_insert_new f m k v : m !! k = None -> sum_map f (<[k := v]> m) = f v + sum_map f m.
Proof. intros Hk. unfold sum_map. erewrite sum_perm by (apply fmap_Permutation, (map_to_list_insert _ _ _ Hk)). done. Qed.

Lemma sum_map_delete f m k v : m !! k = Some v -> sum_map f m = f v + sum_map f (delete k m).
Proof.
  intros Hk. rewrite <- (insert_delete_id m k v Hk) at 1. apply sum_map_insert_new. apply lookup_delete_eq.
Qed.

Lemma sum_map_insert f m k v w : m !! k = Some v -> sum_map f (<[k := w]> m) = sum_map f m - f v + f w.
Proof.
  intros Hk. rewrite (sum_map_delete f m k v Hk), <- insert_delete_eq, sum_map_insert_new by apply lookup_delete_eq. lia.
Qed.

Lemma sum_map_nonneg f m : (forall v, 0 <= f v) -> 0 <= sum_map f m.
Proof. intros Hf. unfold sum_map. induction (map_to_list m) as [|[k v] l IH]; cbn; [lia|]. specialize (Hf v). lia. Qed.

Lemma sum_map_lookup_le f m k v : (forall v, 0 <= f v) -> m !! k = Some v -> f v <= sum_map f m.
Proof.
  intros Hf Hk. rewrite (sum_map_delete f m k v Hk). pose proof (sum_map_nonneg f (delete k m) Hf). lia.
Qed.

Lemma sum_map_filter (P : K * A -> Prop) `{forall x, Decision (P x)} f m :
  (forall v, 0 <= f v) -> sum_map f (filter P m) <= sum_map f m.
Proof.
  intros Hf. induction m as [|k v m Hk IH] using map_ind; [by rewrite map_filter_empty|].
  rewrite (sum_map_insert_new f m k v Hk). specialize (Hf v). destruct (decide (P (k, v))).
  - rewrite map_filter_insert_True by done. rewrite sum_map_insert_new; [lia|].
    apply map_lookup_filter_None. by left.
  - rewrite map_filter_insert_not' by (try done; intros ? E; congruence). lia.
Qed.

Lemma size_filter_le (P : K * A -> Prop) `{forall x, Decision (P x)} m : (size (filter P m) <= size m)%nat.
Proof.
  induction m as [|k v m Hk IH] using map_ind; [by rewrite map_filter_empty|].
  rewrite (map_size_insert_None k v m Hk). destruct (decide (P (k, v))).
  - rewrite map_filter_insert_True by done. rewrite map_size_insert_None; [lia|].
    apply map_lookup_filter_None. by left.
  - rewrite map_filter_insert_not' by (try done; intros ? E; congruence). lia.
Qed.

End maps.

Lemma sum_map_partition {K} {V : Type} `{Countable K} (f : V -> Z) (P : K * V -> Prop) `{forall x, Decision (P x)} (m : gmap K V) :
  sum_map f m = sum_map f (filter P m) + sum_map f (filter (fun x => ¬ P x) m).
Proof.
  induction m as [|k v m Hk IH] using map_ind; [by rewrite !map_filter_empty, sum_map_empty|].
  rewrite (sum_map_insert_new f m k v Hk). destruct (decide (P (k, v))).
  - rewrite map_filter_insert_True, (map_filter_insert_not' _ m) by (try tauto; intros ? E; congruence).
    rewrite sum_map_insert_new by (apply map_lookup_filter_None; by left). lia.
  - rewrite (map_filter_insert_not' P m), map_filter_insert_True by (try done; intros ? E; congruence).
    rewrite sum_map_insert_new by (apply map_lookup_filter_None; by left). lia.
Qed.

Lemma size_sum_map {K} {V : Type} `{Countable K} (m : gmap K V) : Z.of_nat (size m) = sum_map (fun _ => 1) m.
Proof.
  induction m as [|k v m Hk IH] using map_ind; [done|].
  rewrite (sum_map_insert_new _ m k v Hk), map_size_insert_None by done. lia.
Qed.

Lemma filter_keep {A} (P : A -> Prop) `{forall x, Decision (P x)} (l : list A) : (forall x, x ∈ l -> P x) -> filter P l = l.
Proof.
  induction l as [|x l IH]; intros Hl; [done|]. rewrite filter_cons_True by (apply Hl; constructor).
  f_equal. apply IH. intros y Hy. apply Hl. by constructor.
Qed.

Lemma Forall2_impl_in {A B} (P Q : A -> B -> Prop) l k :
  Forall2 P l k -> (forall x y, P x y -> y ∈ k -> Q x y) -> Forall2 Q l k.
Proof.
  induction 1 as [|x y l k Hxy _ IH]; intros Hpq; [constructor|]. constructor; [by apply Hpq; [|constructor]|].
  apply IH. intros x' y' Hx Hy. apply Hpq; [done|by constructor].
Qed.

Lemma Forall2_in_l {A B} (P : A -> B -> Prop) l k x : Forall2 P l k -> x ∈ l -> exists y, y ∈ k /\ P x y.
Proof.
  induction 1 as [|x' y l k Hxy _ IH]; [by intros ?%elem_of_nil|]. intros [->|Hin]%elem_of_cons.
  - exists y. split; [constructor|done].
  - destruct (IH Hin) as (z & ? & ?). exists z. split; [by constructor|done].
Qed.

Lemma Forall2_in_r {A B} (P : A -> B -> Prop) l k y : Forall2 P l k -> y ∈ k -> exists x, x ∈ l /\ P x y.
Proof. intros Hf%Forall2_flip Hy. exact (Forall2_in_l _ _ _ _ Hf Hy). Qed.

Section rekey.
Context {A : Type} (f : Path -> Path) (m : gmap (list (list Z)) A).
Hypothesis f_inj : forall p q, is_Some (m !! p) -> is_Some (m !! q) -> f p = f q -> p = q.

Lemma rekey_keys : NoDup ((fun kv => (f kv.1, kv.2)) <$> map_to_list m).*1.
Proof.
  rewrite <- list_fmap_compose. apply NoDup_fmap_2_strong; [|apply NoDup_map_to_list].
  intros [p v] [q w] Hp Hq E. apply elem_of_map_to_list in Hp, Hq. cbn in E.
  assert (p = q) as <- by (apply f_inj; eauto). congruence.
Qed.

Lemma rekey_lookup q v : rekey f m !! q = Some v <-> exists p, f p = q /\ m !! p = Some v.
Proof.
  unfold rekey. rewrite <- elem_of_list_to_map by apply rekey_keys. rewrite list_elem_of_fmap. split.
  - intros ([p w] & E & Hp). apply elem_of_map_to_list in Hp. cbn in E. injection E as -> ->. by exists p.
  - intros (p & <- & Hp). exists (p, v). split; [done|]. by apply elem_of_map_to_list.
Qed.

Lemma rekey_to_list : map_to_list (rekey f m) ≡ₚ (fun kv => (f kv.1, kv.2)) <$> map_to_list m.
Proof. apply map_to_list_to_map, rekey_keys. Qed.

Lemma rekey_size : size (rekey f m) = size m.
Proof. rewrite <- !length_map_to_list, rekey_to_list. apply length_fmap. Qed.

Lemma rekey_sum (g : A -> Z) : sum_map g (rekey f m) = sum_map g m.
Proof.
  unfold sum_map. rewrite (sum_perm _ _ (fmap_Permutation _ _ _ rekey_to_list)), <- list_fmap_compose. done.
Qed.

End rekey.

(** ** Suffixes *)

Lemma strip_suffix_Some p q r : strip_suffix p q = Some r <-> q = r ++ p.
Proof.
  revert r; induction q as [|n q IH]; intros r; cbn; case_bool_decide as E.
  - split; [intros [= <-]; exact E|]. intros E'. destruct r, p; try done.
  - split; [done|]. intros E'. destruct r, p; done.
  - split; [intros [= <-]; exact E|]. intros E'. f_equal. destruct r as [|x r]; [done|].
    rewrite E in E'. apply (f_equal length) in E'. cbn in E'. rewrite length_app in E'. lia.
  - rewrite fmap_Some. split.
    + intros (r' & Hr & ->). apply IH in Hr as ->. done.
    + intros E'. destruct r as [|x r]; [by subst|]. injection E' as -> ->. exists r. split; [by apply IH|done].
Qed.

Lemma strip_suffix_None p q : strip_suffix p q = None <-> ¬ (suffix p q).
Proof.
  split.
  - intros E [r Hr]. apply strip_suffix_Some in Hr. congruence.
  - intros Hn. destruct (strip_suffix p q) as [r|] eqn:E; [|done]. apply strip_suffix_Some in E as ->.
    destruct Hn. by exists r.
Qed.

Lemma relocate_under source target r : relocate source target (r ++ source) = r ++ target.
Proof. unfold relocate. by rewrite (proj2 (strip_suffix_Some source _ r) eq_refl). Qed.

Lemma relocate_other source target q : ¬ suffix source q -> relocate source target q = q.
Proof. intros Hn. unfold relocate. by rewrite (proj2 (strip_suffix_None source q) Hn). Qed.

Lemma suffix_cons_iff (p q : Path) n : suffix p (n :: q) <-> p = n :: q \/ suffix p q.
Proof.
  split.
  - intros [[|x r] E]; [by left|]. injection E as -> ->. right. by exists r.
  - intros [->|H]; [done|by apply suffix_cons_r].
Qed.

Lemma suffix_of_tail (p : Path) n : ¬ suffix (n :: p) p.
Proof. intros H. apply suffix_length in H. cbn in H. lia. Qed.

Section relocate.
Context {A : Type} (m : gmap (list (list Z)) A) (source target : Path).
Hypothesis target_free : forall r, m !! (r ++ target) = None.

Lemma relocate_inj p q :
  is_Some (m !! p) -> is_Some (m !! q) -> relocate source target p = relocate source target q -> p = q.
Proof.
  intros [v Hp] [w Hq]. unfold relocate.
  destruct (strip_suffix source p) as [r|] eqn:Er, (strip_suffix source q) as [s|] eqn:Es.
  - apply strip_suffix_Some in Er as ->, Es as ->. intros E. by apply app_inv_tail in E as ->.
  - intros <-. by rewrite target_free in Hq.
  - intros ->. by rewrite target_free in Hp.
  - done.
Qed.

Lemma relocate_lookup_under r : rekey (relocate source target) m !! (r ++ target) = m !! (r ++ source).
Proof.
  apply option_eq. intros v. rewrite (rekey_lookup _ _ relocate_inj). split.
  - intros (p & E & Hp). destruct (strip_suffix source p) as [s|] eqn:Es.
    + apply strip_suffix_Some in Es as ->. rewrite relocate_under in E. by apply app_inv_tail in E as ->.
    + rewrite relocate_other in E by (by apply strip_suffix_None). subst p. by rewrite target_free in Hp.
  - intros Hr. exists (r ++ source). by rewrite relocate_under.
Qed.

Lemma relocate_lookup_other q :
  ¬ suffix target q -> rekey (relocate source target) m !! q = if bool_decide (suffix source q) then None else m !! q.
Proof.
  intros Hq. apply option_eq. intros v. rewrite (rekey_lookup _ _ relocate_inj). split.
  - intros (p & E & Hp). destruct (strip_suffix source p) as [s|] eqn:Es.
    + apply strip_suffix_Some in Es as ->. rewrite relocate_under in E. subst q. destruct Hq. by exists s.
    + apply strip_suffix_None in Es. rewrite relocate_other in E by done. subst p. by rewrite bool_decide_false.
  - case_bool_decide as Hs; [done|]. intros Hv. exists q. by rewrite relocate_other.
Qed.

End relocate.

(** ** The tree operations, key by key *)

Lemma suffix_tail_not (p : Path) : p ≠ [] -> ¬ suffix p (tail p).
Proof. destruct p as [|n p]; [done|]. intros _. apply suffix_of_tail. Qed.

Lemma node_bytes_nonneg n : 0 <= node_bytes n.
Proof. destruct n; cbn; lia. Qed.

Lemma update_names_lookup f p t q :
  update_names f p t !! q =
    if bool_decide (q = p) then
      match t !! p with Some (Directory names) => Some (Directory (f names)) | o => o end
    else t !! q.
Proof.
  unfold update_names. case_bool_decide as E; [subst q|by rewrite lookup_alter_ne by congruence].
  rewrite lookup_alter_eq. by destruct (t !! p) as [[?|?]|].
Qed.

Lemma update_names_is_some f p t q : is_Some (update_names f p t !! q) <-> is_Some (t !! q).
Proof.
  rewrite update_names_lookup. case_bool_decide as E; [subst q|done]. destruct (t !! p) as [[?|?]|]; [done| |done].
  split; by eexists.
Qed.

Lemma update_names_file f p t q bytes : update_names f p t !! q = Some (File bytes) <-> t !! q = Some (File bytes).
Proof.
  rewrite update_names_lookup. case_bool_decide as E; [subst q|done]. by destruct (t !! p) as [[?|?]|].
Qed.

Lemma update_names_size f p t : size (update_names f p t) = size t.
Proof.
  unfold update_names. destruct (t !! p) as [n|] eqn:E.
  - rewrite (alter_alt_Some _ _ _ _ E). by apply map_size_insert_Some.
  - by rewrite alter_id by (intros x E'; congruence).
Qed.

Lemma update_names_bytes f p t : total_bytes (update_names f p t) = total_bytes t.
Proof.
  unfold update_names, total_bytes. destruct (t !! p) as [n|] eqn:E.
  - rewrite (alter_alt_Some _ _ _ _ E), (sum_map_insert _ _ _ n) by done. destruct n; cbn; lia.
  - by rewrite alter_id by (intros x E'; congruence).
Qed.

(** ** Paths within the limits *)

Lemma path_length_cons n p : path_length (n :: p) = path_length p + Z.of_nat (length n) + 1.
Proof. unfold path_length. cbn [path_text]. rewrite length_app. cbn [length]. lia. Qed.

Lemma path_length_app r p : path_length (r ++ p) = path_length r + path_length p.
Proof.
  induction r as [|n r IH]; [done|]. cbn [app]. rewrite !path_length_cons, IH. lia.
Qed.

Lemma path_length_nonneg p : 0 <= path_length p.
Proof. unfold path_length. lia. Qed.

Lemma text_length_nonneg cs : 0 <= text_length cs.
Proof. unfold text_length. induction cs; cbn in *; lia. Qed.

Lemma depth_after_app cs ds d :
  depth_after (cs ++ ds) d = match depth_after cs d with inl st => inl st | inr d' => depth_after ds d' end.
Proof.
  revert d; induction cs as [|c cs IH]; intros d; [done|]. cbn [app depth_after].
  destruct (_ <? _); [done|]. destruct step_depth; [done|]. apply IH.
Qed.

Lemma depth_after_names cs d d' :
  depth_after cs d = inr d' -> Forall (fun c => Z.of_nat (length c) <= RAMFS_MAX_NAME_LENGTH) cs.
Proof.
  revert d; induction cs as [|c cs IH]; intros d; cbn [depth_after]; [constructor|].
  destruct (Z.ltb_spec RAMFS_MAX_NAME_LENGTH (Z.of_nat (length c))); [done|].
  destruct step_depth as [?|d2]; [done|]. intros E. constructor; [done|]. by eapply IH.
Qed.

Lemma path_of_ok path parsed :
  path_of path = inr parsed ->
  Forall (fun c => c ≠ [] /\ (SLASH ∉ c) /\ (0 ∉ c) /\ Z.of_nat (length c) <= RAMFS_MAX_NAME_LENGTH) (components parsed) /\
  text_length (components parsed) <= RAMFS_MAX_PATH_LENGTH + 1 /\
  exists d, depth_after (components parsed) 0 = inr d.
Proof.
  unfold path_of. destruct path as [s|]; [|done]. cbn [fmap option_fmap option_map].
  destruct (Z.ltb_spec RAMFS_MAX_PATH_LENGTH (Z.of_nat (length (until_nul s)))); [done|].
  destruct last; [|done]. destruct depth_after as [?|d] eqn:E; [done|]. intros [= <-]. cbn [components].
  split; [|split].
  - pose proof (depth_after_names _ _ _ E) as Hl. rewrite Forall_forall in Hl |- *. intros c Hc.
    specialize (Hl c Hc). unfold split_path in Hc. apply split_from_names in Hc; [tauto|apply not_elem_of_nil|apply not_elem_of_nil|].
    apply (until_nul_cons_zero s []).
  - pose proof (split_from_length [] (until_nul s)) as Hs. cbn [length] in Hs. unfold split_path. lia.
  - by exists d.
Qed.

Lemma step_depth_name n d :
  n ≠ [DOT] -> n ≠ [DOT; DOT] ->
  step_depth n d = if d =? RAMFS_MAX_PATH_DEPTH then inl PathTooDeep else inr (d + 1).
Proof.
  intros H1 H2. unfold step_depth. rewrite is_dot_iff, is_dotdot_iff, !bool_decide_false by done. done.
Qed.

Lemma spec_target_ok path is_directory cs n :
  spec_target path is_directory = inr (cs, n) ->
  name_ok n /\ text_length cs + Z.of_nat (length n) + 1 <= RAMFS_MAX_PATH_LENGTH + 1 /\
  exists d, depth_after cs 0 = inr d /\ d ≠ RAMFS_MAX_PATH_DEPTH.
Proof.
  unfold spec_target. destruct (path_of path) as [?|parsed] eqn:Ep; [done|].
  destruct (path_of_ok _ _ Ep) as (Hn & Hl & d & Hd).
  destruct (components parsed) as [|m l _] eqn:El using rev_ind; [done|].
  rewrite last_snoc, removelast_last. rewrite is_dot_iff, is_dotdot_iff.
  destruct (decide (m = [DOT])) as [|H1]; [by rewrite bool_decide_true|rewrite bool_decide_false by done].
  destruct (decide (m = [DOT; DOT])) as [|H2]; [by rewrite bool_decide_true|rewrite bool_decide_false by done].
  cbn [orb]. destruct (_ && _); [done|]. intros E. apply (inj inr), pair_equal_spec in E as [<- <-].
  apply Forall_app in Hn as [_ Hn]. apply Forall_singleton in Hn as (N1 & N2 & N3 & N4).
  split; [done|]. rewrite text_length_app in Hl. change (text_length [m]) with (Z.of_nat (length m) + 1 + 0) in Hl.
  split; [lia|]. rewrite depth_after_app in Hd. destruct (depth_after l 0) as [?|d1]; [done|].
  exists d1. split; [done|]. intros ->. cbn [depth_after] in Hd.
  destruct (_ <? _); [done|]. rewrite step_depth_name, Z.eqb_refl in Hd by done. done.
Qed.

(** ** Walks in a tree *)

Section tree.
Context (t : Tree) (Ht : tree_ok t).

Lemma tree_root_some : exists n, t !! [] = Some n.
Proof. destruct (to_root t Ht) as [? ?]. eauto. Qed.

Lemma tree_upward r p : is_Some (t !! (r ++ p)) -> is_Some (t !! p).
Proof.
  induction r as [|n r IH]; [done|]. intros Hs. apply IH. cbn [app] in Hs. rewrite (to_parent t Ht) in Hs.
  destruct Hs as (names & -> & _). by eexists.
Qed.

Lemma tree_child p names n : t !! p = Some (Directory names) -> (is_Some (t !! (n :: p)) <-> n ∈ names).
Proof.
  intros Hp. rewrite (to_parent t Ht). split; [|eauto]. intros (names' & Hp' & Hn). congruence.
Qed.

Lemma spec_walk_ok cs current p :
  is_Some (t !! current) -> spec_walk t cs current = inr p ->
  is_Some (t !! p) /\ path_length p <= path_length current + text_length cs /\
  forall d, depth_after cs (Z.of_nat (length current)) = inr d -> d = Z.of_nat (length p).
Proof.
  revert current; induction cs as [|c cs IH]; intros current Hs; cbn [spec_walk].
  { intros [= <-]. split; [done|]. split; [unfold text_length; cbn; lia|]. by intros d [= <-]. }
  change (text_length (c :: cs)) with (Z.of_nat (length c) + 1 + text_length cs).
  destruct (t !! current) as [[bytes|names]|] eqn:Ec; try done. cbn [depth_after]. unfold step_depth.
  destruct (is_dot c) eqn:Ed.
  { intros Hw. destruct (IH _ ltac:(by eexists) Hw) as (H1 & H2 & H3). split; [done|]. split; [lia|].
    destruct (_ <? _); [done|]. rewrite is_dot_iff in Ed. apply bool_decide_eq_true in Ed as ->. exact H3. }
  destruct (is_dotdot c).
  { destruct current as [|n up]; [done|]. intros Hw.
    assert (is_Some (t !! up)) as Hup by (apply (tree_upward [n]); by eexists).
    destruct (IH _ Hup Hw) as (H1 & H2 & H3). split; [done|]. rewrite path_length_cons. split; [lia|].
    destruct (_ <? _); [done|]. destruct (Z.eqb_spec (Z.of_nat (length (n :: up))) 0); [done|].
    intros d Hd. apply H3. rewrite <- Hd. f_equal. cbn [length]. lia. }
  case_bool_decide as Hin; [|done]. intros Hw. apply (tree_child _ _ _ Ec) in Hin.
  destruct (IH _ Hin Hw) as (H1 & H2 & H3). split; [done|]. rewrite path_length_cons in H2. split; [lia|].
  destruct (_ <? _); [done|]. cbn [negb]. destruct (_ =? _); [done|].
  intros d Hd. apply H3. rewrite <- Hd. f_equal. cbn [length]. lia.
Qed.

Lemma spec_walk_root_ok cs p :
  spec_walk_root t cs = inr p -> is_Some (t !! p) /\ path_length p <= text_length cs /\
  forall d, depth_after cs 0 = inr d -> d = Z.of_nat (length p).
Proof.
  unfold spec_walk_root. destruct tree_root_some as [n Hn]. rewrite Hn. apply spec_walk_ok. by eexists.
Qed.

Lemma spec_directory_ok cs p names :
  spec_directory t cs = inr (p, names) -> t !! p = Some (Directory names) /\ path_length p <= text_length cs /\
  forall d, depth_after cs 0 = inr d -> d = Z.of_nat (length p).
Proof.
  unfold spec_directory. destruct (spec_walk_root t cs) as [?|q] eqn:E; [done|].
  apply spec_walk_root_ok in E as (_ & H2 & H3). destruct (t !! q) as [[?|names']|] eqn:Eq; try done.
  intros E. apply (inj inr), pair_equal_spec in E as [<- <-]. done.
Qed.

Lemma spec_resolve_some path p : spec_resolve t path = inr p -> is_Some (t !! p).
Proof.
  unfold spec_resolve. destruct path_of as [?|parsed]; [done|]. destruct spec_walk_root as [?|q] eqn:E; [done|].
  apply spec_walk_root_ok in E as (H & _). by destruct (_ && _); intros [= <-].
Qed.

(** A place for a new entry is within the limits. *)
Record free_place (p : Path) (names : list Name) (n : Name) : Prop := {
  fp_directory : t !! p = Some (Directory names);
  fp_new : n ∉ names;
  fp_name : name_ok n;
  fp_depth : Z.of_nat (length (n :: p)) <= RAMFS_MAX_PATH_DEPTH;
  fp_length : path_length (n :: p) <= RAMFS_MAX_PATH_LENGTH + 1
}.

Lemma target_place path is_directory cs n p names :
  spec_target path is_directory = inr (cs, n) -> spec_directory t cs = inr (p, names) -> n ∉ names ->
  free_place p names n.
Proof.
  intros Htg Hd Hn. destruct (spec_target_ok _ _ _ _ Htg) as (H1 & H2 & d & H3 & H4).
  apply spec_directory_ok in Hd as (H5 & H6 & H7). apply H7 in H3 as ->.
  pose proof (to_depth t Ht p ltac:(by eexists)). split; try done; [cbn [length]; lia|].
  rewrite path_length_cons. lia.
Qed.

Lemma free_place_none p names n : free_place p names n -> forall r, t !! (r ++ n :: p) = None.
Proof.
  intros Hf r. destruct (t !! (r ++ n :: p)) eqn:E; [|done]. exfalso. apply (fp_new _ _ _ Hf).
  apply (tree_child _ _ _ (fp_directory _ _ _ Hf)). apply (tree_upward r). by eexists.
Qed.

End tree.

(** ** The operations keep a tree a tree *)

Lemma size_insert_new {A} (m : gmap (list (list Z)) A) k v : m !! k = None -> size (<[k := v]> m) = S (size m).
Proof. apply map_size_insert_None. Qed.

Lemma update_names_dir f p t q names :
  update_names f p t !! q = Some (Directory names) <->
  if bool_decide (q = p) then exists old, t !! p = Some (Directory old) /\ names = f old
  else t !! q = Some (Directory names).
Proof.
  rewrite update_names_lookup. case_bool_decide as E; [subst q|done].
  destruct (t !! p) as [[?|old]|]; split; try done; try (by intros (? & ? & ?)).
  - intros [= <-]. eauto.
  - intros (o & [= <-] & ->). done.
Qed.

Section preserve.
Context (t : Tree) (Ht : tree_ok t).

Lemma add_entry_lookup p n node q :
  add_entry t p n node !! q =
    if bool_decide (q = n :: p) then Some node else update_names (fun names => names ++ [n]) p t !! q.
Proof.
  unfold add_entry. case_bool_decide as E; [subst; apply lookup_insert_eq|by rewrite lookup_insert_ne by congruence].
Qed.

Lemma add_entry_bytes p names n node :
  free_place t p names n -> total_bytes (add_entry t p n node) = node_bytes node + total_bytes t.
Proof.
  intros Hf. unfold add_entry, total_bytes. rewrite sum_map_insert_new.
  - fold (total_bytes (update_names (fun names => names ++ [n]) p t)). by rewrite update_names_bytes.
  - rewrite update_names_lookup, bool_decide_false by (intros E; apply (f_equal length) in E; cbn in E; lia).
    apply (free_place_none t Ht _ _ _ Hf []).
Qed.

Lemma add_entry_count p names n node :
  free_place t p names n -> node_count (add_entry t p n node) = node_count t + 1.
Proof.
  intros Hf. unfold node_count, add_entry. rewrite size_insert_new, update_names_size; [lia|].
  rewrite update_names_lookup, bool_decide_false by (intros E; apply (f_equal length) in E; cbn in E; lia).
  apply (free_place_none t Ht _ _ _ Hf []).
Qed.

Lemma cons_ne (n : Name) (p : Path) : p ≠ n :: p.
Proof. intros E. apply (f_equal length) in E. cbn in E. lia. Qed.

Lemma add_entry_ok p names n node :
  free_place t p names n -> Z.of_nat (length names) < RAMFS_MAX_CHILDREN -> node_count t < RAMFS_MAX_NODES ->
  node = Directory [] \/ (exists bytes, node = File bytes /\ Z.of_nat (length bytes) <= RAMFS_MAX_FILE_SIZE) ->
  total_bytes t + node_bytes node <= RAMFS_MAX_TOTAL_FILE_BYTES ->
  tree_ok (add_entry t p n node).
Proof.
  intros Hf Hlen Hcnt Hnode Hbytes. pose proof Hf as [Hp Hnew Hname Hdep Hln].
  assert (forall q, q ≠ n :: p -> (is_Some (add_entry t p n node !! q) <-> is_Some (t !! q))) as Hsome.
  { intros q Hq. rewrite add_entry_lookup, bool_decide_false by done. apply update_names_is_some. }
  assert (forall q ns, add_entry t p n node !! q = Some (Directory ns) <->
    if bool_decide (q = n :: p) then node = Directory ns
    else if bool_decide (q = p) then ns = names ++ [n] else t !! q = Some (Directory ns)) as Hdir.
  { intros q ns. rewrite add_entry_lookup. case_bool_decide; [split; congruence|]. rewrite update_names_dir.
    case_bool_decide; [|done]. rewrite Hp. split; [by intros (? & [= <-] & ->)|intros ->; eauto]. }
  pose proof (cons_ne n p) as Hpn. pose proof (free_place_none t Ht _ _ _ Hf) as Hnone. split.
  - destruct (to_root t Ht) as [ns Hns]. rewrite add_entry_lookup, bool_decide_false by done.
    rewrite update_names_lookup. case_bool_decide as E; [subst p; rewrite Hp|]; by eexists.
  - intros m q. setoid_rewrite Hdir. destruct (decide (m :: q = n :: p)) as [E|E].
    + injection E as -> ->. rewrite add_entry_lookup, bool_decide_true by done. split; [intros _|by eexists].
      exists (names ++ [n]). rewrite (bool_decide_false (p = n :: p)), bool_decide_true by done. set_solver.
    + rewrite Hsome by done. destruct (decide (q = n :: p)) as [->|Hq].
      * specialize (Hnone [m]). cbn in Hnone. rewrite Hnone. split; [by intros []|]. intros (ns & Hn & Hm).
        rewrite bool_decide_true in Hn by done. destruct Hnode as [->|(? & -> & _)]; [|done].
        injection Hn as <-. by apply elem_of_nil in Hm.
      * rewrite (bool_decide_false (q = n :: p)) by done. case_bool_decide as Eq; [subst q|apply (to_parent t Ht)].
        rewrite (tree_child t Ht _ _ _ Hp). split.
        -- intros Hm. exists (names ++ [n]). set_solver.
        -- intros (ns & -> & Hm). apply elem_of_app in Hm as [|Hm]; [done|]. apply list_elem_of_singleton in Hm. congruence.
  - intros q ns Hq. apply Hdir in Hq. case_bool_decide; [|case_bool_decide].
    + destruct Hnode as [->|(? & -> & _)]; [|done]. injection Hq as <-. split; [constructor|done].
    + subst ns. destruct (to_names t Ht _ _ Hp) as [Hnd _]. split; [|rewrite length_app; cbn [length]; lia].
      apply NoDup_app. split; [done|]. split; [|apply NoDup_singleton]. intros x Hx ->%list_elem_of_singleton. done.
    + by apply (to_names t Ht) in Hq.
  - intros m q Hs. destruct (decide (m :: q = n :: p)) as [E|E]; [by injection E as -> ->|].
    apply Hsome in Hs; [|done]. by apply (to_name t Ht) in Hs.
  - intros q Hs. destruct (decide (q = n :: p)) as [->|E]; [done|]. apply Hsome in Hs; [|done]. by apply (to_depth t Ht).
  - intros q Hs. destruct (decide (q = n :: p)) as [->|E]; [done|]. apply Hsome in Hs; [|done]. by apply (to_length t Ht).
  - intros q bytes. rewrite add_entry_lookup. case_bool_decide.
    + intros [= ->]. destruct Hnode as [|(b & [= ->] & H')]; done.
    + rewrite update_names_file. apply (to_file t Ht).
  - rewrite (add_entry_count _ _ _ _ Hf). unfold node_count in *. lia.
  - rewrite (add_entry_bytes _ _ _ _ Hf). lia.
Qed.

Lemma put_ok p old bytes :
  t !! p = Some (File old) -> Z.of_nat (length bytes) <= RAMFS_MAX_FILE_SIZE ->
  total_bytes t - Z.of_nat (length old) + Z.of_nat (length bytes) <= RAMFS_MAX_TOTAL_FILE_BYTES ->
  tree_ok (<[p := File bytes]> t).
Proof.
  intros Hp Hlen Htot.
  assert (forall q, is_Some (<[p := File bytes]> t !! q) <-> is_Some (t !! q)) as Hsome.
  { intros q. rewrite lookup_insert_is_Some. split; [intros [->|[_ ?]]; [by eexists|done]|].
    intros. destruct (decide (p = q)); [by left|by right]. }
  assert (forall q ns, <[p := File bytes]> t !! q = Some (Directory ns) <-> t !! q = Some (Directory ns)) as Hdir.
  { intros q ns. destruct (decide (p = q)) as [<-|E]; [rewrite lookup_insert_eq; split; congruence|].
    by rewrite lookup_insert_ne. }
  split.
  - destruct (to_root t Ht) as [ns Hns]. exists ns. by apply Hdir.
  - intros n q. rewrite Hsome. setoid_rewrite Hdir. apply (to_parent t Ht).
  - intros q ns. rewrite Hdir. apply (to_names t Ht).
  - intros n q. rewrite Hsome. apply (to_name t Ht).
  - intros q. rewrite Hsome. apply (to_depth t Ht).
  - intros q. rewrite Hsome. apply (to_length t Ht).
  - intros q b. destruct (decide (p = q)) as [<-|E]; [rewrite lookup_insert_eq; by intros [= <-]|].
    rewrite lookup_insert_ne by done. apply (to_file t Ht).
  - unfold node_count. rewrite map_size_insert_Some by (by eexists). apply (to_nodes t Ht).
  - unfold total_bytes in *. rewrite (sum_map_insert _ _ _ _ _ Hp). cbn [node_bytes]. lia.
Qed.

Lemma remove_subtree_lookup p q :
  remove_subtree t p !! q =
    if bool_decide (suffix p q) then None
    else update_names (filter (fun m => m ≠ default [] (head p))) (tail p) t !! q.
Proof.
  unfold remove_subtree. rewrite !update_names_lookup.
  assert (forall q, filter (fun kv => ¬ suffix p kv.1) t !! q = if bool_decide (suffix p q) then None else t !! q) as Hf.
  { intros r. apply option_eq. intros v. rewrite map_lookup_filter_Some. cbn [fst].
    case_bool_decide; split; try done; by intros []. }
  rewrite !Hf. destruct (decide (q = tail p)) as [->|E].
  - rewrite !(bool_decide_true (tail p = tail p)) by done. by case_bool_decide.
  - rewrite !(bool_decide_false (q = tail p)) by done. done.
Qed.

Lemma remove_subtree_ok p : p ≠ [] -> is_Some (t !! p) -> tree_ok (remove_subtree t p).
Proof.
  intros Hne Hsp. destruct p as [|old up]; [done|].
  destruct (proj1 (to_parent t Ht _ _) Hsp) as (names & Hup & Hold).
  assert (forall q, is_Some (remove_subtree t (old :: up) !! q) <-> is_Some (t !! q) /\ ¬ suffix (old :: up) q) as Hsome.
  { intros q. rewrite remove_subtree_lookup. case_bool_decide; [split; [by intros []|by intros []]|].
    rewrite update_names_is_some. tauto. }
  assert (forall q ns, remove_subtree t (old :: up) !! q = Some (Directory ns) <->
    ¬ suffix (old :: up) q /\
    if bool_decide (q = up) then ns = filter (fun m => m ≠ old) names else t !! q = Some (Directory ns)) as Hdir.
  { intros q ns. rewrite remove_subtree_lookup. case_bool_decide; [split; [done|by intros []]|].
    rewrite update_names_dir. cbn [tail head default]. case_bool_decide; [|tauto]. rewrite Hup.
    split; [intros (? & [= <-] & ->); done|intros [_ ->]; eauto]. }
  split.
  - destruct (to_root t Ht) as [ns Hns]. setoid_rewrite Hdir. case_bool_decide.
    + eexists. split; [|done]. intros Hs. apply suffix_nil_inv in Hs. done.
    + exists ns. split; [|done]. intros Hs. apply suffix_nil_inv in Hs. done.
  - intros n q. rewrite Hsome. setoid_rewrite Hdir. rewrite suffix_cons_iff. case_bool_decide as Eq.
    + subst q. rewrite (tree_child t Ht _ _ _ Hup). split.
      * intros [Hn Hs]. eexists. split; [split; [|done]|].
        -- tauto.
        -- apply list_elem_of_filter. split; [|done]. intros ->. tauto.
      * intros (ns & [H1 ->] & Hn). apply list_elem_of_filter in Hn as [Hn1 Hn2]. split; [done|].
        intros [E|]; [|done]. injection E as E. congruence.
    + rewrite (to_parent t Ht). split.
      * intros [(ns & H1 & H2) Hs]. exists ns. split; [split; [tauto|done]|done].
      * intros (ns & [H1 H2] & H3). split; [eauto|]. intros [E|]; [|done]. injection E as -> ->. done.
  - intros q ns Hq. apply Hdir in Hq as [_ Hq]. case_bool_decide; [|by apply (to_names t Ht) in Hq].
    subst ns. destruct (to_names t Ht _ _ Hup) as [Hnd Hl]. split; [by apply NoDup_filter|].
    pose proof (length_filter (fun m => m ≠ old) names). lia.
  - intros n q Hs. apply Hsome in Hs as [Hs _]. by apply (to_name t Ht) in Hs.
  - intros q Hs. apply Hsome in Hs as [Hs _]. by apply (to_depth t Ht) in Hs.
  - intros q Hs. apply Hsome in Hs as [Hs _]. by apply (to_length t Ht) in Hs.
  - intros q bytes. rewrite remove_subtree_lookup. case_bool_decide; [done|]. rewrite update_names_file. apply (to_file t Ht).
  - unfold node_count, remove_subtree. rewrite update_names_size.
    pose proof (to_nodes t Ht). unfold node_count in *. pose proof (size_filter_le (fun kv => ¬ suffix (old :: up) kv.1) t). lia.
  - unfold remove_subtree. rewrite update_names_bytes. unfold total_bytes.
    pose proof (sum_map_filter (fun kv => ¬ suffix (old :: up) kv.1) node_bytes t node_bytes_nonneg).
    pose proof (to_bytes t Ht). unfold total_bytes in *. lia.
Qed.

End preserve.

(** ** Moving a subtree *)

Section move.
Context (t : Tree) (Ht : tree_ok t).
Context (old : Name) (up p : Path) (n : Name) (names upnames : list Name).
Let sp := old :: up.
Let dp := n :: p.
Context (Hplace : free_place t p names n) (Hup : t !! up = Some (Directory upnames)) (Hold : old ∈ upnames).
Context (Hcycle : ¬ suffix sp p).

(** The listing of a directory outside the subtree, after the move. *)
Definition move_names (q : Path) (ns : list Name) : list Name :=
  if bool_decide (p = up) then
    if bool_decide (q = p) then (fun m => if bool_decide (m = old) then n else m) <$> ns else ns
  else if bool_decide (q = p) then ns ++ [n]
  else if bool_decide (q = up) then filter (fun m => m ≠ old) ns
  else ns.

Lemma move_not_under_up : ¬ suffix dp up.
Proof.
  intros [r Hr]. pose proof (free_place_none t Ht _ _ _ Hplace r) as Hn. fold dp in Hn. rewrite <- Hr in Hn. congruence.
Qed.

Lemma move_lookup_under r : move_subtree t sp p n !! (r ++ dp) = t !! (r ++ sp).
Proof.
  pose proof (free_place_none t Ht _ _ _ Hplace) as Hnone. fold dp in Hnone.
  assert (r ++ dp ≠ p) as H1.
  { intros E. apply (f_equal length) in E. rewrite length_app in E. cbn in E. lia. }
  assert (r ++ dp ≠ up) as H2 by (intros E; apply move_not_under_up; by exists r).
  unfold move_subtree. cbn [head tail sp default]. fold sp dp.
  case_bool_decide; rewrite !update_names_lookup, ?(bool_decide_false (r ++ dp = _)) by done;
    by apply (relocate_lookup_under t sp dp Hnone).
Qed.

Lemma move_lookup_other q :
  ¬ suffix dp q ->
  move_subtree t sp p n !! q =
    if bool_decide (suffix sp q) then None
    else match t !! q with Some (Directory ns) => Some (Directory (move_names q ns)) | o => o end.
Proof.
  intros Hq. pose proof (free_place_none t Ht _ _ _ Hplace) as Hnone. fold dp in Hnone.
  assert (forall q, ¬ suffix dp q -> rekey (relocate sp dp) t !! q = if bool_decide (suffix sp q) then None else t !! q) as Hr
    by apply (relocate_lookup_other t sp dp Hnone).
  assert (¬ suffix dp p) as Hp by apply suffix_of_tail. assert (¬ suffix sp up) as Hu by apply suffix_of_tail.
  pose proof move_not_under_up as Hdu. unfold move_subtree, move_names. cbn [head tail sp default]. fold sp dp.
  destruct (decide (p = up)) as [E|E].
  - rewrite !(bool_decide_true (p = up)) by done. rewrite update_names_lookup, !Hr by done.
    destruct (decide (q = p)) as [->|E2]; [rewrite !(bool_decide_true (p = p)) by done; by rewrite bool_decide_false|].
    rewrite !(bool_decide_false (q = p)) by done. case_bool_decide; [done|]. by destruct (t !! q) as [[]|].
  - rewrite !(bool_decide_false (p = up)) by done. rewrite !update_names_lookup, !Hr by done.
    rewrite (bool_decide_false (p = up)) by done. rewrite (bool_decide_false (suffix sp p)) by done.
    destruct (decide (q = p)) as [->|E2]; [rewrite !(bool_decide_true (p = p)) by done; by rewrite bool_decide_false|].
    rewrite !(bool_decide_false (q = p)) by done.
    destruct (decide (q = up)) as [->|E3].
    + rewrite !(bool_decide_true (up = up)) by done. by rewrite !bool_decide_false.
    + rewrite !(bool_decide_false (q = up)) by done. case_bool_decide; [done|]. by destruct (t !! q) as [[]|].
Qed.

Lemma move_target_ne : dp ≠ sp.
Proof.
  intros E. unfold dp, sp in E. injection E as E1 E2. apply (fp_new _ _ _ _ Hplace).
  pose proof (fp_directory _ _ _ _ Hplace) as Hp. rewrite E2, Hup in Hp. injection Hp as <-. by rewrite E1.
Qed.

Lemma move_names_elem q ns m :
  t !! q = Some (Directory ns) -> m ∈ move_names q ns <-> m :: q = dp \/ (m :: q ≠ sp /\ m ∈ ns).
Proof.
  intros Hq. pose proof (fp_directory _ _ _ _ Hplace) as Hp. pose proof (fp_new _ _ _ _ Hplace) as Hn.
  pose proof move_target_ne as Hne. unfold move_names, dp, sp in *. case_bool_decide as Epu.
  - case_bool_decide as Eq.
    + subst q. assert (ns = names) as -> by congruence. rewrite list_elem_of_fmap. split.
      * intros (x & -> & Hx). case_bool_decide; [by left|]. right. split; [congruence|done].
      * intros [E|[E Hm]]; [injection E as ->|].
        -- exists old. rewrite bool_decide_true by done. split; [done|]. congruence.
        -- exists m. rewrite bool_decide_false by congruence. done.
    + split; [intros Hm; right; split; [congruence|done]|]. intros [E|[_ Hm]]; [congruence|done].
  - case_bool_decide as Eq; [|case_bool_decide as Eu].
    + subst q. assert (ns = names) as -> by congruence. rewrite elem_of_app, list_elem_of_singleton. split.
      * intros [Hm| ->]; [right; split; [congruence|done]|by left].
      * intros [E|[_ Hm]]; [injection E as ->; by right|by left].
    + subst q. rewrite list_elem_of_filter. split; [intros [Hm Hin]; right; split; [congruence|done]|].
      intros [E|[E Hm]]; [congruence|]. split; [congruence|done].
    + split; [intros Hm; right; split; [congruence|done]|]. intros [E|[_ Hm]]; [congruence|done].
Qed.

Lemma move_names_ok q ns :
  t !! q = Some (Directory ns) -> (p = up \/ Z.of_nat (length names) < RAMFS_MAX_CHILDREN) ->
  NoDup (move_names q ns) /\ Z.of_nat (length (move_names q ns)) <= RAMFS_MAX_CHILDREN.
Proof.
  intros Hq Hlen. destruct (to_names t Ht _ _ Hq) as [Hnd Hl].
  pose proof (fp_directory _ _ _ _ Hplace) as Hp. pose proof (fp_new _ _ _ _ Hplace) as Hn.
  unfold move_names. case_bool_decide as Epu; case_bool_decide as Eq; [| done | |case_bool_decide; [|done]].
  - subst q. assert (ns = names) as -> by congruence. rewrite length_fmap. split; [|done].
    apply NoDup_fmap_2_strong; [|done]. intros x y Hx Hy. repeat case_bool_decide; congruence.
  - subst q. assert (ns = names) as -> by congruence. rewrite length_app. cbn [length]. split; [|destruct Hlen; [done|lia]].
    apply NoDup_app. split; [done|]. split; [|apply NoDup_singleton]. intros x Hx ->%list_elem_of_singleton. done.
  - split; [by apply NoDup_filter|]. pose proof (length_filter (fun m => m ≠ old) ns). lia.
Qed.

Lemma move_count : node_count (move_subtree t sp p n) = node_count t.
Proof.
  unfold node_count, move_subtree. case_bool_decide; rewrite !update_names_size, rekey_size; try done;
    apply relocate_inj, (free_place_none t Ht _ _ _ Hplace).
Qed.

Lemma move_bytes : total_bytes (move_subtree t sp p n) = total_bytes t.
Proof.
  unfold move_subtree. case_bool_decide; rewrite !update_names_bytes; unfold total_bytes; rewrite rekey_sum; try done;
    apply relocate_inj, (free_place_none t Ht _ _ _ Hplace).
Qed.

Lemma move_cases q :
  (exists r, q = r ++ dp /\ move_subtree t sp p n !! q = t !! (r ++ sp)) \/
  (¬ suffix dp q /\ move_subtree t sp p n !! q = if bool_decide (suffix sp q) then None
    else match t !! q with Some (Directory ns) => Some (Directory (move_names q ns)) | o => o end).
Proof.
  destruct (decide (suffix dp q)) as [[r ->]|Hq].
  - left. exists r. split; [done|]. apply move_lookup_under.
  - right. split; [done|]. by apply move_lookup_other.
Qed.

Lemma move_other_some q : ¬ suffix dp q -> is_Some (move_subtree t sp p n !! q) -> ¬ suffix sp q /\ is_Some (t !! q).
Proof.
  intros Hq. destruct (move_cases q) as [(r & -> & _)|[_ ->]]; [by destruct Hq; exists r|].
  case_bool_decide; [by intros []|]. intros Hs. split; [done|]. by destruct (t !! q) as [[]|].
Qed.

(** The listings are those of the nodes there are. *)
Lemma move_parent m q :
  is_Some (move_subtree t sp p n !! (m :: q)) <->
  exists ns, move_subtree t sp p n !! q = Some (Directory ns) /\ m ∈ ns.
Proof.
  destruct (move_cases q) as [(r & -> & E)|[Hq E]]; rewrite E.
  { pose proof (move_lookup_under (m :: r)) as E2. cbn [app] in E2. rewrite E2. apply (to_parent t Ht). }
  destruct (decide (m :: q = dp)) as [E2|E2].
  { rewrite E2. pose proof (move_lookup_under []) as E3. cbn [app] in E3. rewrite E3.
    assert (q = p) as -> by (unfold dp in E2; congruence). rewrite bool_decide_false by done.
    pose proof (fp_directory _ _ _ _ Hplace) as Hp. rewrite Hp. split; [intros _|].
    - eexists. split; [done|]. apply (move_names_elem p names m Hp). by left.
    - intros _. apply (to_parent t Ht). eauto. }
  destruct (move_cases (m :: q)) as [(r & E3 & _)|[_ ->]].
  { exfalso. destruct r as [|x r]; [done|]. injection E3 as -> ->. apply Hq. by exists r. }
  destruct (decide (suffix sp q)) as [Hs|Hs].
  { rewrite !bool_decide_true by (rewrite ?suffix_cons_iff; auto). split; [by intros []|by intros (? & ? & _)]. }
  rewrite (bool_decide_false (suffix sp q)) by done. destruct (decide (m :: q = sp)) as [E4|E4].
  { rewrite bool_decide_true by (rewrite suffix_cons_iff; auto). split; [by intros []|]. intros (ns & Hns & Hm).
    destruct (t !! q) as [[|ns0]|] eqn:Eq; try done. injection Hns as <-.
    apply (move_names_elem q ns0 m Eq) in Hm as [|[]]; done. }
  rewrite bool_decide_false by (rewrite suffix_cons_iff; intros [|]; congruence).
  transitivity (is_Some (t !! (m :: q))); [by destruct (t !! (m :: q)) as [[]|]|]. rewrite (to_parent t Ht).
  destruct (t !! q) as [[|ns0]|] eqn:Eq; split; intros (ns & Hns & Hm); try done; injection Hns as <-; eexists;
    (split; [done|]); apply (move_names_elem q ns0 m Eq) in Hm || apply (move_names_elem q ns0 m Eq); tauto.
Qed.

Lemma move_subtree_ok :
  (p = up \/ Z.of_nat (length names) < RAMFS_MAX_CHILDREN) ->
  (forall r, is_Some (t !! (r ++ sp)) -> Z.of_nat (length (r ++ dp)) <= RAMFS_MAX_PATH_DEPTH /\
    path_length (r ++ dp) <= RAMFS_MAX_PATH_LENGTH + 1) ->
  tree_ok (move_subtree t sp p n).
Proof.
  intros Hlen Hfit. split.
  - destruct (to_root t Ht) as [ns Hns]. destruct (move_cases []) as [(r & E & _)|[_ ->]]; [by destruct r|].
    rewrite bool_decide_false by (by intros Hs%suffix_nil_inv). rewrite Hns. by eexists.
  - intros m q. apply move_parent.
  - intros q ns. destruct (move_cases q) as [(r & -> & ->)|[_ ->]]; [apply (to_names t Ht)|]. case_bool_decide; [done|].
    destruct (t !! q) as [[|ns0]|] eqn:Eq; try done. intros [= <-]. by apply move_names_ok.
  - intros m q Hs. destruct (decide (m :: q = dp)) as [E|E].
    { unfold dp in E. injection E as -> ->. apply (fp_name _ _ _ _ Hplace). }
    destruct (move_cases (m :: q)) as [(r & E2 & E3)|[Hq _]].
    + destruct r as [|x r]; [done|]. injection E2 as -> ->. rewrite E3 in Hs. by apply (to_name t Ht) in Hs.
    + apply move_other_some in Hs as [_ Hs]; [|done]. by apply (to_name t Ht) in Hs.
  - intros q Hs. destruct (move_cases q) as [(r & -> & E3)|[Hq _]].
    + apply Hfit. by rewrite <- E3.
    + apply move_other_some in Hs as [_ Hs]; [|done]. by apply (to_depth t Ht).
  - intros q Hs. destruct (move_cases q) as [(r & -> & E3)|[Hq _]].
    + apply Hfit. by rewrite <- E3.
    + apply move_other_some in Hs as [_ Hs]; [|done]. by apply (to_length t Ht).
  - intros q bytes. destruct (move_cases q) as [(r & -> & ->)|[_ ->]]; [apply (to_file t Ht)|]. case_bool_decide; [done|].
    destruct (t !! q) as [[|]|] eqn:Eq; try done. intros [= <-]. by apply (to_file t Ht) in Eq.
  - rewrite move_count. apply (to_nodes t Ht).
  - rewrite move_bytes. apply (to_bytes t Ht).
Qed.

End move.

(** ** The limits check of a move *)

Lemma first_error_ok l : first_error l = Ok <-> Forall (fun st => st = Ok) l.
Proof.
  induction l as [|st l IH]; cbn; [by split|]. rewrite Forall_cons, <- IH. case_bool_decide; naive_solver.
Qed.

(** The recursive check accepts exactly the subtrees all of whose nodes stay within the limits. *)
Lemma spec_fits_iff t (Ht : tree_ok t) fuel p depth length_ :
  is_Some (t !! p) -> 1 <= Z.of_nat fuel -> RAMFS_MAX_PATH_DEPTH + 2 <= depth + Z.of_nat fuel ->
  spec_fits fuel t p depth length_ = Ok <->
  forall r, is_Some (t !! (r ++ p)) ->
    depth + Z.of_nat (length r) <= RAMFS_MAX_PATH_DEPTH /\ length_ + path_length r <= RAMFS_MAX_PATH_LENGTH.
Proof.
  revert p depth length_; induction fuel as [|fuel IH]; intros p depth len Hp H1 Hf; [lia|]. cbn [spec_fits].
  change (path_length []) with 0 in *.
  destruct (Z.ltb_spec RAMFS_MAX_PATH_DEPTH depth) as [Hd|Hd].
  { split; [done|]. intros Hr. specialize (Hr [] Hp). cbn [length] in Hr. lia. }
  destruct (Z.ltb_spec RAMFS_MAX_PATH_LENGTH len) as [Hl|Hl].
  { split; [done|]. intros Hr. specialize (Hr [] Hp). change (path_length []) with 0 in Hr. lia. }
  assert (forall r : Path, r = [] \/ exists r' n, r = r' ++ [n]) as Hrev.
  { intros r. destruct r as [|n r _] using rev_ind; [by left|right; eauto]. }
  destruct (t !! p) as [[bytes|names]|] eqn:Ep; [| |by destruct Hp].
  - split; [|done]. intros _ r Hr. destruct (Hrev r) as [->|(r' & n & ->)].
    { change (path_length []) with 0. cbn [length]. lia. }
    exfalso. rewrite <- app_assoc in Hr. apply (tree_upward t Ht) in Hr. cbn [app] in Hr.
    apply (to_parent t Ht) in Hr as (ns & Hns & _). congruence.
  - rewrite first_error_ok, Forall_fmap, Forall_forall. unfold compose. split.
    + intros Hall r Hr. destruct (Hrev r) as [->|(r' & n & ->)].
      { change (path_length []) with 0. cbn [length]. lia. }
      rewrite <- app_assoc in Hr. cbn [app] in Hr. pose proof (tree_upward t Ht _ _ Hr) as Hn.
      assert (n ∈ names) as Hin by (by apply (tree_child t Ht _ _ _ Ep)). specialize (Hall n Hin).
      destruct (Z.ltb_spec RAMFS_MAX_PATH_LENGTH (len + 1 + Z.of_nat (length n))); [done|].
      rewrite (IH _ _ _ Hn) in Hall by lia. specialize (Hall r' Hr).
      rewrite length_app, path_length_app, path_length_cons. change (path_length []) with 0. cbn [length]. lia.
    + intros Hall n Hin. assert (is_Some (t !! (n :: p))) as Hn by (by apply (tree_child t Ht _ _ _ Ep)).
      pose proof (Hall [n] Hn) as Hone. rewrite path_length_cons in Hone. change (path_length []) with 0 in Hone.
      destruct (Z.ltb_spec RAMFS_MAX_PATH_LENGTH (len + 1 + Z.of_nat (length n))); [lia|].
      apply IH; [done|lia|lia|]. intros r Hr. specialize (Hall (r ++ [n])). rewrite <- app_assoc in Hall.
      specialize (Hall Hr). rewrite length_app, path_length_app, path_length_cons in Hall.
      change (path_length []) with 0 in Hall. cbn [length] in Hall. lia.
Qed.

Lemma spec_fits_at_iff t (Ht : tree_ok t) source p n :
  is_Some (t !! source) ->
  spec_fits_at t source p n = Ok <->
  forall r, is_Some (t !! (r ++ source)) ->
    Z.of_nat (length (r ++ n :: p)) <= RAMFS_MAX_PATH_DEPTH /\ path_length (r ++ n :: p) <= RAMFS_MAX_PATH_LENGTH.
Proof.
  intros Hs. unfold spec_fits_at.
  assert (forall r, Z.of_nat (length (r ++ n :: p)) = Z.of_nat (length p) + 1 + Z.of_nat (length r)) as El.
  { intros r. rewrite length_app. cbn [length]. lia. }
  destruct (Z.leb_spec RAMFS_MAX_PATH_DEPTH (Z.of_nat (length p))) as [Hd|Hd].
  { split; [done|]. intros Hr. specialize (Hr [] Hs). rewrite El in Hr. cbn [length] in Hr. lia. }
  destruct (Z.ltb_spec RAMFS_MAX_PATH_LENGTH (path_length (n :: p))) as [Hl|Hl].
  { split; [done|]. intros Hr. specialize (Hr [] Hs). cbn [app] in Hr. lia. }
  rewrite (spec_fits_iff t Ht) by (try done; unfold subtree_fuel; lia).
  split; intros Hr r Hsome; specialize (Hr r Hsome); rewrite El, path_length_app in *; lia.
Qed.

(** ** Every operation keeps the invariant *)

(** Before initialisation there is no node; afterwards there is a tree. *)
Definition tree_state (t : Tree) : Prop := t = ∅ \/ tree_ok t.

Lemma tree_ok_root : tree_ok {[ [] := Directory [] ]}.
Proof.
  assert (forall q n, ({[ [] := Directory [] ]} : Tree) !! q = Some n <-> q = [] /\ n = Directory []) as Hl.
  { intros q n. rewrite lookup_singleton_Some. naive_solver. }
  assert (forall q, is_Some (({[ [] := Directory [] ]} : Tree) !! q) <-> q = []) as Hs.
  { intros q. split; [intros [n Hn]; by apply Hl in Hn as [-> _]|intros ->; eexists; by apply Hl]. }
  split.
  - exists []. by apply Hl.
  - intros n q. rewrite Hs. split; [done|]. intros (ns & Hns & Hn). apply Hl in Hns as [_ [= ->]]. by apply elem_of_nil in Hn.
  - intros q ns Hq. apply Hl in Hq as [_ [= ->]]. split; [constructor|done].
  - intros n q Hq. by apply Hs in Hq.
  - intros q Hq. by apply Hs in Hq as ->.
  - intros q Hq. by apply Hs in Hq as ->.
  - intros q b Hq. by apply Hl in Hq as [_ ?].
  - vm_compute. discriminate.
  - vm_compute. discriminate.
Qed.

Section spec_facts.
Context (t : Tree) (Ht : tree_ok t).

Lemma spec_new_ok path is_directory p n :
  spec_new t path is_directory = inr (p, n) ->
  exists names, free_place t p names n /\ Z.of_nat (length names) < RAMFS_MAX_CHILDREN /\ node_count t < RAMFS_MAX_NODES.
Proof.
  unfold spec_new. destruct (tree_root_some t Ht) as [r ->].
  destruct spec_target as [?|[cs m]] eqn:Et; [done|]. destruct (Z.leb_spec RAMFS_MAX_NODES (node_count t)); [done|].
  destruct spec_directory as [?|[q names]] eqn:Ed; [done|]. case_bool_decide as Hin; [done|].
  destruct (Z.leb_spec RAMFS_MAX_CHILDREN (Z.of_nat (length names))); [done|].
  intros E. apply (inj inr), pair_equal_spec in E as [<- <-]. exists names.
  split; [by eapply target_place|]. split; lia.
Qed.

Lemma spec_create_ok path is_directory t' : spec_create t path is_directory = inr t' -> tree_ok t'.
Proof.
  unfold spec_create. destruct spec_new as [?|[p n]] eqn:E; [done|]. intros [= <-].
  apply spec_new_ok in E as (names & Hf & H1 & H2). pose proof (to_bytes t Ht).
  destruct is_directory; (apply (add_entry_ok t Ht p names n); try done; [|cbn; lia]); [by left|].
  right. eexists. split; [done|]. done.
Qed.

Lemma spec_put_ok p bytes t' :
  Z.of_nat (length bytes) <= RAMFS_MAX_FILE_SIZE -> spec_put t p bytes = inr t' -> tree_ok t'.
Proof.
  unfold spec_put. intros Hb. destruct (t !! p) as [[old|?]|] eqn:Ep; try done.
  destruct (Z.ltb_spec (RAMFS_MAX_TOTAL_FILE_BYTES - (total_bytes t - Z.of_nat (length old))) (Z.of_nat (length bytes))); [done|].
  intros [= <-]. apply (put_ok t Ht _ _ _ Ep Hb). lia.
Qed.

Lemma spec_remove_ok path recursive t' : spec_remove t path recursive = inr t' -> tree_ok t'.
Proof.
  unfold spec_remove. destruct spec_resolve as [?|p] eqn:E; [done|]. apply (spec_resolve_some t Ht) in E.
  case_bool_decide; [done|]. assert (tree_ok (remove_subtree t p)) as Hok by (by apply (remove_subtree_ok t Ht)).
  destruct (t !! p) as [[?|[|? ?]]|]; [| |destruct recursive|]; intros [= <-]; done.
Qed.

Lemma spec_copy_ok source destination t' : spec_copy t source destination = inr t' -> tree_ok t'.
Proof.
  unfold spec_copy. destruct (tree_root_some t Ht) as [r ->]. destruct spec_resolve as [?|sp] eqn:Es; [done|].
  destruct (t !! sp) as [[bytes|?]|] eqn:Esp; try done. destruct spec_target as [?|[cs n]] eqn:Et; [done|].
  destruct spec_directory as [?|[p names]] eqn:Ed; [done|]. case_bool_decide as Hin; [done|].
  destruct (Z.leb_spec RAMFS_MAX_NODES (node_count t)); [done|].
  destruct (Z.leb_spec RAMFS_MAX_CHILDREN (Z.of_nat (length names))); [done|].
  destruct (Z.ltb_spec (RAMFS_MAX_TOTAL_FILE_BYTES - total_bytes t) (Z.of_nat (length bytes))); [done|]. intros [= <-].
  apply (add_entry_ok t Ht p names n); [by eapply target_place|lia|lia| |cbn; lia].
  right. eexists. split; [done|]. by apply (to_file t Ht) in Esp.
Qed.

Lemma spec_move_ok source destination t' :
  spec_move t source destination = inr t' -> tree_ok t'.
Proof.
  unfold spec_move. destruct (tree_root_some t Ht) as [r ->]. destruct spec_resolve as [?|sp] eqn:Es; [done|].
  case_bool_decide as Hne; [done|]. apply (spec_resolve_some t Ht) in Es.
  destruct spec_target as [?|[cs n]] eqn:Et; [done|]. destruct spec_directory as [?|[p names]] eqn:Ed; [done|].
  case_bool_decide; [by intros [= <-]|]. case_bool_decide as Hin; [done|]. case_bool_decide as Hc; [done|].
  destruct (spec_fits_at t sp p n) eqn:Ef; try done. destruct sp as [|old up]; [done|]. cbn [tail].
  destruct (negb _ && _) eqn:Eb; [done|]. intros [= <-].
  destruct (proj1 (to_parent t Ht _ _) Es) as (upnames & Hup & Hold).
  apply (move_subtree_ok t Ht old up p n names upnames); try done; [by eapply target_place| |].
  - apply andb_false_iff in Eb as [Eb|Eb].
    + left. apply negb_false_iff, bool_decide_eq_true in Eb. done.
    + right. lia.
  - intros q Hq. apply (proj1 (spec_fits_at_iff t Ht (old :: up) p n Es) Ef) in Hq. lia.
Qed.

End spec_facts.

Lemma spec_ok t op t' :
  tree_state t -> spec t op = inr t' -> tree_state t'.
Proof.
  intros [->|Ht].
  - destruct op; cbn [spec].
    + intros [= <-]. right. apply tree_ok_root.
    + unfold spec_create, spec_new. by rewrite lookup_empty.
    + unfold spec_write. by rewrite lookup_empty.
    + unfold spec_remove, spec_resolve, spec_walk_root. destruct path_of; [done|]. by rewrite lookup_empty.
    + unfold spec_copy. by rewrite lookup_empty.
    + unfold spec_move. by rewrite lookup_empty.
  - intros E. right. destruct op; cbn [spec] in E.
    + destruct (tree_root_some t Ht) as [r Hr]. rewrite Hr in E. by injection E as <-.
    + by eapply spec_create_ok.
    + unfold spec_write in E. destruct (tree_root_some t Ht) as [r Hr]. rewrite Hr in E.
      destruct (_ && _); [done|]. destruct (Z.ltb_spec RAMFS_MAX_FILE_SIZE size); [done|].
      assert (Z.of_nat (length (take (Z.to_nat size) (default [] data))) <= RAMFS_MAX_FILE_SIZE) as Hl.
      { rewrite length_take. unfold RAMFS_MAX_FILE_SIZE in *. lia. }
      destruct spec_resolve as [st|p] eqn:Er; [|by eapply spec_put_ok].
      destruct (_ && _); [|done]. destruct spec_new as [?|[p n]] eqn:En; [done|].
      assert (tree_ok (add_entry t p n (File []))) as Ha.
      { apply (spec_create_ok t Ht path false). unfold spec_create. by rewrite En. }
      by eapply (spec_put_ok _ Ha).
    + by eapply spec_remove_ok.
    + by eapply spec_copy_ok.
    + by eapply spec_move_ok.
Qed.

(** ** Resolution after a change *)

Lemma spec_walk_app (t : Tree) cs ds p :
  spec_walk t (cs ++ ds) p = match spec_walk t cs p with inl st => inl st | inr q => spec_walk t ds q end.
Proof.
  revert p; induction cs as [|c cs IH]; intros p; [done|]. cbn [app spec_walk].
  destruct (t !! p) as [[|]|]; [done| |done]. destruct (is_dot c); [apply IH|].
  destruct (is_dotdot c); [destruct p; [done|apply IH]|]. case_bool_decide; [apply IH|done].
Qed.

(** A way through directories that only gained entries leads to the same node. *)
Lemma spec_walk_mono (t t' : Tree) cs p q :
  (forall r ns, t !! r = Some (Directory ns) -> exists ns', t' !! r = Some (Directory ns') /\ ns ⊆ ns') ->
  spec_walk t cs p = inr q -> spec_walk t' cs p = inr q.
Proof.
  intros Hm. revert p; induction cs as [|c cs IH]; intros p; [done|]. cbn [spec_walk].
  destruct (t !! p) as [[|ns]|] eqn:Ep; [done| |done]. destruct (Hm _ _ Ep) as (ns' & -> & Hsub).
  destruct (is_dot c); [apply IH|]. destruct (is_dotdot c); [destruct p; [done|apply IH]|].
  case_bool_decide as Hin; [|done]. apply Hsub in Hin. rewrite bool_decide_true by done. apply IH.
Qed.

Lemma add_entry_dirs t p names n node :
  tree_ok t -> free_place t p names n -> forall r ns, t !! r = Some (Directory ns) ->
  exists ns', add_entry t p n node !! r = Some (Directory ns') /\ ns ⊆ ns'.
Proof.
  intros Ht Hf r ns Hr. rewrite add_entry_lookup. case_bool_decide as E.
  { subst r. pose proof (free_place_none t Ht _ _ _ Hf []) as Hn. cbn in Hn. congruence. }
  rewrite update_names_lookup. case_bool_decide as E2; [subst r; rewrite Hr|]; eexists; (split; [done|]); set_solver.
Qed.

Lemma put_dirs (t : Tree) p old bytes :
  t !! p = Some (File old) -> forall r ns, t !! r = Some (Directory ns) ->
  exists ns', <[p := File bytes]> t !! r = Some (Directory ns') /\ ns ⊆ ns'.
Proof. intros Hp r ns Hr. exists ns. rewrite lookup_insert_ne by congruence. done. Qed.

Lemma spec_walk_root_mono (t t' : Tree) cs p :
  tree_ok t -> (forall r ns, t !! r = Some (Directory ns) -> exists ns', t' !! r = Some (Directory ns') /\ ns ⊆ ns') ->
  spec_walk_root t cs = inr p -> spec_walk_root t' cs = inr p.
Proof.
  intros Ht Hm. unfold spec_walk_root. destruct (to_root t Ht) as [ns Hns]. rewrite Hns.
  destruct (Hm _ _ Hns) as (ns' & -> & _). by apply spec_walk_mono.
Qed.

Lemma spec_put_inv (t t' : Tree) p bytes :
  spec_put t p bytes = inr t' -> exists old, t !! p = Some (File old) /\ t' = <[p := File bytes]> t.
Proof.
  unfold spec_put. destruct (t !! p) as [[old|]|]; try done. destruct (_ <? _); [done|]. intros [= <-]. by exists old.
Qed.

(** A path that named a place for a new file leads to it once it is there. *)
Lemma new_file_resolves t path p n node :
  tree_ok t -> spec_new t path false = inr (p, n) -> (exists bytes, node = File bytes) ->
  spec_resolve (add_entry t p n node) path = inr (n :: p).
Proof.
  intros Ht Hnew [bytes ->]. destruct (spec_new_ok t Ht _ _ _ _ Hnew) as (names & Hf & _).
  revert Hnew. unfold spec_new, spec_target, spec_resolve. destruct (tree_root_some t Ht) as [r Hroot]. rewrite Hroot.
  destruct (path_of path) as [|parsed]; [done|]. destruct (components parsed) as [|m cs _] using rev_ind; [done|].
  rewrite last_snoc, removelast_last. destruct (is_dot m || is_dotdot m) eqn:Edot; [done|]. cbn [orb].
  destruct (trailing_separator parsed); [done|]. cbn [andb negb]. destruct (_ <=? _); [done|].
  unfold spec_directory. destruct (spec_walk_root t cs) as [|q] eqn:Ew; [done|]. destruct (t !! q) as [[|ns]|]; try done.
  case_bool_decide; [done|]. destruct (_ <=? _); [done|]. intros E. apply (inj inr), pair_equal_spec in E as [-> ->].
  apply (spec_walk_root_mono t (add_entry t p n (File bytes)) cs p Ht) in Ew; [|by eapply add_entry_dirs].
  unfold spec_walk_root in *. destruct (add_entry t p n (File bytes) !! []) eqn:E0; [|done].
  rewrite spec_walk_app, Ew. cbn [spec_walk]. rewrite add_entry_lookup, bool_decide_false by apply cons_ne.
  rewrite update_names_lookup, bool_decide_true, (fp_directory _ _ _ _ Hf) by done.
  apply orb_false_iff in Edot as [-> ->]. by rewrite bool_decide_true by set_solver.
Qed.

Lemma spec_resolve_mono (t t' : Tree) path p :
  tree_ok t -> (forall r ns, t !! r = Some (Directory ns) -> exists ns', t' !! r = Some (Directory ns') /\ ns ⊆ ns') ->
  spec_resolve t path = inr p -> spec_resolve t' path = inr p.
Proof.
  intros Ht Hm. unfold spec_resolve. destruct path_of as [|parsed]; [done|].
  destruct (spec_walk_root t (components parsed)) as [|q] eqn:Ew; [done|].
  rewrite (spec_walk_root_mono t t' _ _ Ht Hm Ew). unfold spec_is_directory.
  destruct (trailing_separator parsed); cbn [andb]; [|done]. destruct (t !! q) as [[|ns]|] eqn:Eq; try done.
  destruct (Hm _ _ Eq) as (ns' & -> & _). done.
Qed.

(** The effect of a successful write. *)
Lemma spec_write_effect t path data size create_if_missing t' :
  tree_ok t -> spec_write t path data size create_if_missing = inr t' ->
  let bytes := take (Z.to_nat size) (default [] data) in
  exists p, spec_resolve t' path = inr p /\ t' !! p = Some (File bytes) /\
    forall q other, q ≠ p -> t' !! q = Some (File other) <-> t !! q = Some (File other).
Proof.
  intros Ht. unfold spec_write. destruct (tree_root_some t Ht) as [r Hroot]. rewrite Hroot.
  destruct (_ && _); [done|]. destruct (_ <? _); [done|]. intros Hw. set (bytes := take (Z.to_nat size) (default [] data)) in *.
  destruct (spec_resolve t path) as [st|p] eqn:Er.
  - destruct (_ && _); [|done]. destruct (spec_new t path false) as [|[p n]] eqn:En; [done|].
    destruct (spec_new_ok t Ht _ _ _ _ En) as (names & Hf & _).
    apply spec_put_inv in Hw as (old & Hold & ->). exists (n :: p).
    assert (tree_ok (add_entry t p n (File []))) as Ht1.
    { apply (spec_create_ok t Ht path false). unfold spec_create. by rewrite En. }
    split; [|split; [apply lookup_insert_eq|]].
    + apply (spec_resolve_mono (add_entry t p n (File []))); [done|by eapply put_dirs|].
      apply new_file_resolves; [done|done|by eexists].
    + intros q other Hq. rewrite lookup_insert_ne by done. rewrite add_entry_lookup, bool_decide_false by done.
      apply update_names_file.
  - apply spec_put_inv in Hw as (old & Hold & ->). exists p. split; [|split; [apply lookup_insert_eq|]].
    + apply (spec_resolve_mono t); [done|by eapply put_dirs|done].
    + intros q other Hq. by rewrite lookup_insert_ne.
Qed.

(** ** Absolute paths *)

Lemma until_nul_id s : 0 ∉ s -> until_nul s = s.
Proof.
  induction s as [|c s IH]; intros Hs; [done|]. cbn. apply not_elem_of_cons in Hs as [Hc Hs].
  destruct (Z.eqb_spec c 0); [congruence|]. by rewrite IH.
Qed.

Lemma split_from_app run s c :
  SLASH ∉ c -> split_from run (c ++ SLASH :: s) = (if bool_decide (run ++ c = []) then [] else [run ++ c]) ++ split_from [] s.
Proof.
  revert run; induction c as [|x c IH]; intros run Hc; cbn.
  - by rewrite app_nil_r.
  - apply not_elem_of_cons in Hc as [Hx Hc]. destruct (Z.eqb_spec x SLASH); [congruence|]. rewrite IH by done.
    by rewrite <- app_assoc.
Qed.

Lemma split_from_end run c : SLASH ∉ c -> split_from run c = if bool_decide (run ++ c = []) then [] else [run ++ c].
Proof.
  revert run; induction c as [|x c IH]; intros run Hc; cbn; [by rewrite app_nil_r|].
  apply not_elem_of_cons in Hc as [Hx Hc]. destruct (Z.eqb_spec x SLASH); [congruence|]. rewrite IH by done.
  by rewrite <- app_assoc.
Qed.

Definition names_ok (p : Path) : Prop := Forall name_ok p.

(** The text of a path, then more text, splits into the names, outermost first. *)
Lemma split_path_text p s :
  names_ok p -> split_from [] (path_text p ++ SLASH :: s) = rev p ++ split_from [] s.
Proof.
  revert s; induction p as [|n p IH]; intros s Hn; [done|]. apply Forall_cons in Hn as [(Hne & _ & _ & Hsl & _) Hn].
  cbn [path_text rev]. rewrite <- app_assoc. cbn [app]. rewrite IH by done. rewrite split_from_app by done. cbn [app].
  by rewrite bool_decide_false, <- app_assoc.
Qed.

Lemma split_absolute p : names_ok p -> split_path (absolute p) = rev p.
Proof.
  intros Hn. destruct p as [|n p]; [done|]. unfold absolute, split_path. cbn [path_text].
  apply Forall_cons in Hn as [(Hne & _ & _ & Hsl & _) Hn].
  rewrite split_path_text by done. rewrite split_from_end by done. cbn [app rev]. by rewrite bool_decide_false.
Qed.

Lemma absolute_nonzero p : names_ok p -> 0 ∉ absolute p.
Proof.
  intros Hn. assert (0 ∉ path_text p) as Ht.
  { induction Hn as [|n p (_ & _ & Hz & _) _ IH]; cbn; [apply not_elem_of_nil|].
    rewrite elem_of_app, elem_of_cons. intros [?|[?|?]]; done. }
  destruct p; [|done]. cbn. rewrite list_elem_of_singleton. done.
Qed.

Lemma depth_after_names_ok p d :
  names_ok p -> 0 <= d -> d + Z.of_nat (length p) <= RAMFS_MAX_PATH_DEPTH ->
  depth_after (rev p) d = inr (d + Z.of_nat (length p)).
Proof.
  revert d; induction p as [|n p IH]; intros d Hn Hd Hl; [cbn; f_equal; lia|].
  apply Forall_cons in Hn as [(Hne & Hlen & _ & _ & H1 & H2) Hn]. cbn [rev length] in *. rewrite depth_after_app, IH by (try done; lia).
  cbn [depth_after]. destruct (Z.ltb_spec RAMFS_MAX_NAME_LENGTH (Z.of_nat (length n))); [lia|].
  rewrite step_depth_name by done. destruct (Z.eqb_spec (d + Z.of_nat (length p)) RAMFS_MAX_PATH_DEPTH); [lia|]. f_equal. lia.
Qed.

Lemma last_absolute n p : name_ok n -> exists c, last (absolute (n :: p)) = Some c /\ c ≠ SLASH.
Proof.
  intros (Hne & _ & _ & Hsl & _). destruct n as [|c n _] using rev_ind; [done|]. exists c.
  unfold absolute. cbn [path_text]. rewrite app_comm_cons, app_assoc, last_snoc. split; [done|]. intros ->. apply Hsl.
  apply elem_of_app. right. constructor.
Qed.

Lemma tree_names_ok t p : tree_ok t -> is_Some (t !! p) -> names_ok p.
Proof.
  intros Ht. induction p as [|n p IH]; intros Hs; [constructor|]. constructor; [by eapply to_name|].
  apply IH. by apply (tree_upward t Ht [n]).
Qed.

Lemma spec_walk_rev t r p : tree_ok t -> is_Some (t !! (r ++ p)) -> spec_walk t (rev r) p = inr (r ++ p).
Proof.
  intros Ht. induction r as [|n r IH]; intros Hs; [done|]. cbn [app rev] in *.
  pose proof (tree_upward t Ht [n] _ Hs) as Hs'. rewrite spec_walk_app, (IH Hs'). cbn [spec_walk].
  destruct (proj1 (to_parent t Ht _ _) Hs) as (ns & -> & Hin). destruct (to_name t Ht _ _ Hs) as (_ & _ & _ & _ & H1 & H2).
  rewrite is_dot_iff, is_dotdot_iff, !(bool_decide_false (n = _)) by done. by rewrite bool_decide_true.
Qed.

(** Every node is found under its absolute path, if that path is short enough to be passed. *)
Lemma absolute_resolves t p :
  tree_ok t -> is_Some (t !! p) -> path_length p <= RAMFS_MAX_PATH_LENGTH -> spec_resolve t (Some (absolute p)) = inr p.
Proof.
  intros Ht Hs Hlen. pose proof (tree_names_ok t p Ht Hs) as Hn. unfold spec_resolve, path_of. cbn [fmap option_fmap option_map].
  rewrite until_nul_id by by apply absolute_nonzero.
  assert (Z.of_nat (length (absolute p)) <= RAMFS_MAX_PATH_LENGTH) as Hl by (destruct p; [done|exact Hlen]).
  destruct (Z.ltb_spec RAMFS_MAX_PATH_LENGTH (Z.of_nat (length (absolute p)))); [lia|].
  pose proof (to_depth t Ht p Hs) as Hd. rewrite split_absolute by done.
  pose proof (depth_after_names_ok p 0 Hn ltac:(lia) ltac:(lia)) as Hda.
  pose proof (spec_walk_rev t p [] Ht) as Hw. rewrite app_nil_r in Hw. specialize (Hw Hs).
  destruct (tree_root_some t Ht) as [root Hroot]. destruct (to_root t Ht) as [rns Hrns].
  assert (spec_walk_root t (rev p) = inr p) as Hwr by (unfold spec_walk_root; by rewrite Hroot).
  destruct p as [|n p].
  - cbn [absolute last]. rewrite Hda. cbn [components trailing_separator]. rewrite Hwr. unfold spec_is_directory.
    rewrite Hrns. by rewrite andb_false_r.
  - destruct (last_absolute n p (to_name t Ht _ _ Hs)) as (c & -> & Hc). rewrite Hda. cbn [components trailing_separator].
    rewrite Hwr. by destruct (Z.eqb_spec c SLASH).
Qed.
