(* ===== verification/RamFsRepr.v ===== *)
(** * How a state of the RAM file system represents a tree

    [repr fs t A F] relates a state of the code to an abstract tree [t]: [A] gives
    the address of the structure of each path; the structures hold the names, the
    contents, the children in order and the parent pointers of the tree; the
    counters are its size and its total number of bytes; and the allocations of
    the kernel heap are the blocks of the structures and the allocations [F] of
    everyone else.  The operations of RamFs.v preserve it, and change [t] as
    [spec] says. *)

From S2P Require Import Prelude KernelHeap KernelMemory RamFs RamFsSpec.

Section proof.
Context {H : Type} `{KernelMemory H}.
Implicit Types (fs : RamFs H) (m : gmap Z FileEntry) (A : gmap (list (list Z)) Z) (F : list (Z * Z)).

(** ** Representation *)

(** The allocations that belong to a structure. *)
Definition entry_blocks (a : Z) (e : FileEntry) : list (Z * Z) :=
  (a, sizeof_FileEntry) ::
  (if e_content_at e =? 0 then [] else [(e_content_at e, e_capacity e)]) ++
  (if e_children_at e =? 0 then [] else [(e_children_at e, sizeof_pointer * e_child_capacity e)]).

Definition blocks m : list (Z * Z) := map_to_list m ≫= fun ae => entry_blocks (fst ae) (snd ae).

Definition node_rep A (p : Path) (node : Node) (e : FileEntry) : Prop :=
  match node with
  | File bytes =>
      e_is_directory e = false /\ e_content_at e ≠ 0 /\ e_size e = Z.of_nat (length bytes) /\
      (exists rest, e_content e = bytes ++ 0 :: rest) /\ e_capacity e = Z.of_nat (length (e_content e)) /\
      e_children_at e = 0 /\ e_children e = [] /\ e_child_capacity e = 0
  | Directory names =>
      e_is_directory e = true /\ e_content_at e = 0 /\ e_size e = 0 /\
      Forall2 (fun c n => A !! (n :: p) = Some c) (e_children e) names /\
      child_count e <= e_child_capacity e <= RAMFS_MAX_CHILDREN /\ (e_children_at e = 0 <-> e_child_capacity e = 0)
  end.

Definition link_rep A (p : Path) (e : FileEntry) : Prop :=
  match p with
  | [] => e_parent e = 0
  | n :: up => e_name e = n /\ A !! up = Some (e_parent e)
  end.

Record shape m (t : Tree) A : Prop := {
  sh_node : forall p node, t !! p = Some node ->
    exists a e, A !! p = Some a /\ m !! a = Some e /\ link_rep A p e /\ node_rep A p node e;
  sh_addr : forall p a, A !! p = Some a -> is_Some (t !! p);
  sh_inj : forall p q a, A !! p = Some a -> A !! q = Some a -> p = q;
  sh_onto : forall a, is_Some (m !! a) -> exists p, A !! p = Some a
}.

Definition owns fs F : Prop := km_rep (heap fs) (blocks (nodes fs) ++ F).

Record repr fs (t : Tree) A F : Prop := {
  r_tree : tree_state t;
  r_shape : shape (nodes fs) t A;
  r_root : g_root fs = default 0 (A !! []);
  r_count : g_node_count fs = node_count t;
  r_total : g_total_file_bytes fs = total_bytes t;
  r_owns : owns fs F
}.

(** The state implements the tree. *)
Definition represents fs (t : Tree) F : Prop := exists A, repr fs t A F.

(** Some request for memory of a reachable size is refused. *)
Definition allocation_refused : Prop :=
  exists (h : H) l size al, km_rep h l /\ 0 < size <= 2 ^ 17 /\ snd (km_alloc h size al) = 0.

(** ** Blocks *)

Lemma blocks_insert_new m a e : m !! a = None -> blocks (<[a := e]> m) ≡ₚ entry_blocks a e ++ blocks m.
Proof. intros Ha. unfold blocks. rewrite (map_to_list_insert _ _ _ Ha). done. Qed.

Lemma blocks_lookup m a e : m !! a = Some e -> blocks m ≡ₚ entry_blocks a e ++ blocks (delete a m).
Proof.
  intros Ha. rewrite <- (insert_delete_id m a e Ha) at 1. apply blocks_insert_new, lookup_delete_eq.
Qed.

Lemma blocks_insert m a e : blocks (<[a := e]> m) ≡ₚ entry_blocks a e ++ blocks (delete a m).
Proof. rewrite <- insert_delete_eq. apply blocks_insert_new, lookup_delete_eq. Qed.

(** Replacing a structure by one with the same blocks. *)
Lemma blocks_same m a e e' :
  m !! a = Some e -> entry_blocks a e' = entry_blocks a e -> blocks (<[a := e']> m) ≡ₚ blocks m.
Proof. intros Ha E. by rewrite blocks_insert, E, <- blocks_lookup. Qed.

Lemma owns_nonnull fs F a e : owns fs F -> nodes fs !! a = Some e -> a ≠ 0.
Proof.
  unfold owns. intros Ho Ha. rewrite (blocks_lookup _ _ _ Ha) in Ho. cbn in Ho. by eapply km_nonnull.
Qed.

(** An address fresh for the heap is fresh for the structures. *)
Lemma owns_fresh fs F p n h :
  km_rep h ((p, n) :: blocks (nodes fs) ++ F) -> nodes fs !! p = None.
Proof.
  intros Hr. destruct (nodes fs !! p) as [e|] eqn:E; [|done]. exfalso.
  rewrite (blocks_lookup _ _ _ E) in Hr. cbn in Hr. by destruct (km_disjoint _ _ _ _ _ _ Hr).
Qed.

(** ** Reading the structures of a represented tree *)

Definition addr A (p : Path) : Z := default 0 (A !! p).

Section read.
Context fs t A F (Hr : repr fs t A F).

Lemma repr_node p node :
  t !! p = Some node ->
  exists e, A !! p = Some (addr A p) /\ nodes fs !! addr A p = Some e /\ addr A p ≠ 0 /\
    link_rep A p e /\ node_rep A p node e.
Proof.
  intros Hp. destruct (sh_node _ _ _ (r_shape _ _ _ _ Hr) _ _ Hp) as (a & e & Ha & He & Hl & Hn).
  unfold addr. rewrite Ha. cbn [default]. exists e. split; [done|]. split; [done|].
  split; [by eapply owns_nonnull; [apply Hr|]|done].
Qed.

Lemma repr_addr_none p : t !! p = None -> A !! p = None.
Proof.
  intros Hp. destruct (A !! p) as [a|] eqn:E; [|done]. apply (sh_addr _ _ _ (r_shape _ _ _ _ Hr)) in E.
  rewrite Hp in E. by destruct E.
Qed.

Lemma repr_inj p q : is_Some (t !! p) -> is_Some (t !! q) -> addr A p = addr A q -> p = q.
Proof.
  intros [np Hp] [nq Hq] E. destruct (repr_node _ _ Hp) as (? & H1 & _). destruct (repr_node _ _ Hq) as (? & H2 & _).
  rewrite E in H1. by eapply (sh_inj _ _ _ (r_shape _ _ _ _ Hr)).
Qed.

Lemma repr_empty : t !! [] = None <-> g_root fs = 0.
Proof.
  rewrite (r_root _ _ _ _ Hr). fold (addr A []). split; intros E.
  - unfold addr. by rewrite repr_addr_none.
  - destruct (t !! []) eqn:E2; [|done]. destruct (repr_node _ _ E2) as (? & _ & _ & ? & _). done.
Qed.

Lemma find_child_loop_ok p names children n :
  Forall2 (fun c n => A !! (n :: p) = Some c) children names ->
  (forall n, n ∈ names -> is_Some (t !! (n :: p))) ->
  find_child_loop fs children n = Some (if bool_decide (n ∈ names) then addr A (n :: p) else 0).
Proof.
  induction 1 as [|c m children names Hc _ IH]; intros Hs; [done|]. cbn [find_child_loop].
  destruct (Hs m ltac:(constructor)) as [node Hm]. destruct (repr_node _ _ Hm) as (e & H1 & H2 & H3 & [H4 _] & _).
  assert (addr A (m :: p) = c) as E by (unfold addr; by rewrite Hc). rewrite E in *.
  unfold entry_name_equals. destruct (Z.eqb_spec c 0); [done|]. rewrite H2. cbn [mbind option_bind].
  rewrite component_equals_iff, H4. destruct (decide (m = n)) as [->|Hne].
  - rewrite !bool_decide_true by (try done; constructor). by rewrite E.
  - rewrite bool_decide_false, IH by (try done; intros; apply Hs; by constructor).
    f_equal. apply (f_equal (fun b : bool => if b then _ else _)). apply bool_decide_ext.
    rewrite elem_of_cons. intuition congruence.
Qed.

Lemma find_child_ok (Ht : tree_ok t) p names n :
  t !! p = Some (Directory names) ->
  find_child fs (addr A p) n = Some (if bool_decide (n ∈ names) then addr A (n :: p) else 0).
Proof.
  intros Hp. destruct (repr_node _ _ Hp) as (e & _ & H2 & H3 & _ & Hd & _ & _ & Hc & _).
  unfold find_child. destruct (Z.eqb_spec (addr A p) 0); [done|]. rewrite H2. cbn [mbind option_bind].
  rewrite Hd. cbn [negb]. apply find_child_loop_ok; [done|]. intros m Hm. by apply (tree_child t Ht _ _ _ Hp).
Qed.

Lemma resolve_loop_ok (Ht : tree_ok t) cs p :
  is_Some (t !! p) ->
  resolve_loop fs cs (addr A p) = Some (match spec_walk t cs p with inl st => inl st | inr q => inr (addr A q) end).
Proof.
  revert p; induction cs as [|c cs IH]; intros p [node Hp]; [done|]. cbn [resolve_loop spec_walk].
  destruct (repr_node _ _ Hp) as (e & Ha & He & Hnz & Hl & Hn). rewrite He, Hp.
  destruct node as [bytes|names]; destruct Hn as (Hd & _); rewrite Hd; [done|]. cbn [negb].
  destruct (is_dot c); [apply IH; by eexists|]. destruct (is_dotdot c).
  - assert ((addr A p =? g_root fs) = bool_decide (p = [])) as Eb.
    { rewrite (r_root _ _ _ _ Hr). fold (addr A []). case_bool_decide as E; [subst; apply Z.eqb_refl|].
      apply Z.eqb_neq. intros E2. apply E, repr_inj; [by eexists| |done]. by destruct (tree_root_some t Ht) as [? ->]. }
    rewrite Eb. destruct p as [|n up]; [done|]. cbn [orb]. rewrite bool_decide_false by done. cbn [orb].
    destruct Hl as [_ Hup]. assert (is_Some (t !! up)) as [pn Hpn] by (by apply (sh_addr _ _ _ (r_shape _ _ _ _ Hr)) in Hup).
    assert (e_parent e = addr A up) as -> by (unfold addr; by rewrite Hup).
    destruct (repr_node _ _ Hpn) as (_ & _ & _ & Hz & _). destruct (Z.eqb_spec (addr A up) 0); [done|].
    apply IH. by eexists.
  - rewrite (find_child_ok Ht p names c Hp). case_bool_decide as Hin; [|done].
    apply (tree_child t Ht _ _ _ Hp) in Hin. destruct Hin as [cn Hcn].
    destruct (repr_node _ _ Hcn) as (_ & _ & _ & Hz & _). destruct (Z.eqb_spec (addr A (c :: p)) 0); [done|].
    apply IH. by eexists.
Qed.

Lemma resolve_components_ok parsed k :
  (k <= length (components parsed))%nat ->
  resolve_components fs parsed k =
    Some (match spec_walk_root t (take k (components parsed)) with inl st => inl st | inr q => inr (addr A q) end).
Proof.
  intros Hk. unfold resolve_components, spec_walk_root. destruct (r_tree _ _ _ _ Hr) as [E|Ht].
  - rewrite (proj1 repr_empty), Z.eqb_refl by (by rewrite E). by rewrite E, lookup_empty.
  - destruct (tree_root_some t Ht) as [r Hroot].
    destruct (Z.eqb_spec (g_root fs) 0) as [E|_]; [apply repr_empty in E; congruence|].
    destruct (Nat.ltb_spec (length (components parsed)) k); [lia|]. rewrite Hroot, (r_root _ _ _ _ Hr).
    apply (resolve_loop_ok Ht). by eexists.
Qed.

Lemma spec_resolve_node path p : spec_resolve t path = inr p -> exists node, t !! p = Some node.
Proof.
  destruct (r_tree _ _ _ _ Hr) as [E|Ht].
  - unfold spec_resolve, spec_walk_root. rewrite E, lookup_empty. by destruct path_of.
  - intros Hp. by apply (spec_resolve_some t Ht) in Hp as [? ?]; eauto.
Qed.

Lemma resolve_path_ok path :
  resolve_path fs path = Some (match spec_resolve t path with inl st => inl st | inr p => inr (addr A p) end).
Proof.
  unfold resolve_path, spec_resolve. rewrite parse_path_ok. destruct (path_of path) as [st|parsed]; [done|].
  cbn [obind]. rewrite resolve_components_ok by done. rewrite firstn_all.
  destruct (spec_walk_root t (components parsed)) as [st|p] eqn:Ew; [done|]. cbn [obind].
  assert (exists node, t !! p = Some node) as [node Hp].
  { destruct (r_tree _ _ _ _ Hr) as [E|Ht].
    - unfold spec_walk_root in Ew. by rewrite E, lookup_empty in Ew.
    - apply (spec_walk_root_ok t Ht) in Ew as ([? ?] & _). eauto. }
  destruct (repr_node _ _ Hp) as (e & _ & He & _ & _ & Hnode). rewrite He.
  assert (spec_is_directory t p = e_is_directory e) as ->.
  { unfold spec_is_directory. rewrite Hp. by destruct node; destruct Hnode as (-> & _). }
  by destruct (_ && _).
Qed.

End read.

Section read_more.
Context fs t A F (Hr : repr fs t A F).

(** What the two callers of [resolve_components] on all but the last component see. *)
Lemma resolve_parent_ok parsed cs n :
  components parsed = cs ++ [n] ->
  match spec_directory t cs with
  | inl st =>
      resolve_components fs parsed (length (components parsed) - 1) = fail st \/
      exists parent pe, resolve_components fs parsed (length (components parsed) - 1) = value parent /\
        nodes fs !! parent = Some pe /\ e_is_directory pe = false /\ st = NotDirectory
  | inr (p, names) =>
      exists pe, resolve_components fs parsed (length (components parsed) - 1) = value (addr A p) /\
        t !! p = Some (Directory names) /\ tree_ok t /\
        A !! p = Some (addr A p) /\ nodes fs !! addr A p = Some pe /\ addr A p ≠ 0 /\
        link_rep A p pe /\ node_rep A p (Directory names) pe /\
        find_child fs (addr A p) n = Some (if bool_decide (n ∈ names) then addr A (n :: p) else 0)
  end.
Proof.
  intros Hc. assert (length (components parsed) - 1 = length cs)%nat as -> by (rewrite Hc, length_app; cbn; lia).
  rewrite (resolve_components_ok fs t A F Hr) by (rewrite Hc, length_app; lia).
  rewrite Hc, take_app_length. unfold spec_directory.
  destruct (spec_walk_root t cs) as [st|p] eqn:Ew; [by left|].
  destruct (r_tree _ _ _ _ Hr) as [E|Ht]; [unfold spec_walk_root in Ew; by rewrite E, lookup_empty in Ew|].
  apply (spec_walk_root_ok t Ht) in Ew as ([node Hp] & _). rewrite Hp.
  destruct (repr_node _ _ _ _ Hr _ _ Hp) as (e & H1 & H2 & H3 & H4 & H5). destruct node as [bytes|names].
  - right. exists (addr A p), e. destruct H5 as (H5 & _). done.
  - exists e. repeat (split; [done|]). by apply (find_child_ok _ _ _ _ Hr Ht).
Qed.

Lemma resolve_destination_ok path is_directory :
  resolve_destination fs path is_directory =
    Some (match spec_target path is_directory with
          | inl st => inl st
          | inr (cs, n) =>
              match spec_directory t cs with
              | inl st => inl st
              | inr (p, names) => inr (addr A p, n, if bool_decide (n ∈ names) then addr A (n :: p) else 0)
              end
          end).
Proof.
  unfold resolve_destination, spec_target. rewrite parse_path_ok. destruct (path_of path) as [st|parsed]; [done|].
  cbn [obind]. destruct (components parsed) as [|n cs _] eqn:Ec using rev_ind; [done|].
  rewrite last_snoc, removelast_last. destruct (_ || _ || _); [done|].
  pose proof (resolve_parent_ok parsed cs n Ec) as Hp. rewrite Ec in Hp.
  destruct (spec_directory t cs) as [st|[p names]].
  - destruct Hp as [-> |(parent & pe & -> & Hpe & Hd & ->)]; [done|]. cbn [obind value]. by rewrite Hpe, Hd.
  - destruct Hp as (pe & -> & _ & _ & _ & Hpe & _ & _ & (Hd & _) & Hf). cbn [obind value]. by rewrite Hpe, Hd, Hf.
Qed.

End read_more.

(** ** Storage *)

Lemma set_heap_owns fs h F : owns (set_heap fs h) F <-> km_rep h (blocks (nodes fs) ++ F).
Proof. done. Qed.

Lemma km_alloc_cases (h : H) l size al h' p :
  km_alloc h size al = (h', p) -> km_rep h l -> 0 < size <= 2 ^ 17 -> 0 <= al <= 8 ->
  (p = 0 /\ allocation_refused /\ km_rep h' l) \/ (p ≠ 0 /\ km_rep h' ((p, size) :: l)).
Proof.
  intros E Hr Hs Hal. destruct (km_alloc_ok h l size al h' p) as [[-> ->]|(? & _ & ?)]; try done; [word_lia|word_lia| |by right].
  left. split; [done|]. split; [|done]. exists h, l, size, al. split; [done|]. split; [done|]. by rewrite E.
Qed.

Lemma kfree_if_ok h l p n : km_rep h ((if p =? 0 then [] else [(p, n)]) ++ l) -> km_rep (kfree_if h p) l.
Proof. unfold kfree_if. destruct (p =? 0); [done|]. apply km_free_ok. Qed.

(** The state after an operation that changed only heap, structures and counters. *)
Definition update fs (h : H) m (count total : Z) : RamFs H := set_counters (set_nodes (set_heap fs h) m) count total.

Lemma allocate_entry_ok fs F n is_directory fs' a :
  owns fs F -> g_node_count fs < RAMFS_MAX_NODES -> allocate_entry fs n is_directory = (fs', a) ->
  (a = 0 /\ allocation_refused /\ exists h, fs' = set_heap fs h /\ owns fs' F) \/
  (a ≠ 0 /\ nodes fs !! a = None /\ exists h e,
    fs' = update fs h (<[a := e]> (nodes fs)) (g_node_count fs + 1) (g_total_file_bytes fs) /\ owns fs' F /\
    e_name e = n /\ e_parent e = 0 /\ forall A p, node_rep A p (empty_node is_directory) e).
Proof.
  intros Ho Hc. unfold allocate_entry. destruct (Z.leb_spec RAMFS_MAX_NODES (g_node_count fs)); [lia|].
  destruct (km_alloc (heap fs) sizeof_FileEntry alignof_FileEntry) as [h1 x] eqn:E1.
  destruct (km_alloc_cases _ _ _ _ _ _ E1 Ho) as [(-> & Href & Hr1)|(Hx & Hr1)]; [by split|by split| |].
  { cbn. intros E. apply pair_equal_spec in E as [<- <-]. left. split; [done|]. split; [done|]. eexists. by split. }
  pose proof (owns_fresh _ _ _ _ _ Hr1) as Hfr. destruct (Z.eqb_spec x 0); [done|]. destruct is_directory.
  - intros E. apply pair_equal_spec in E as [<- <-]. right. split; [done|]. split; [done|]. eexists h1, _.
    split; [reflexivity|]. split; [|by repeat split].
    unfold owns. cbn [update heap nodes set_counters set_nodes set_heap]. by rewrite blocks_insert_new.
  - destruct (km_alloc h1 1 1) as [h2 c] eqn:E2.
    destruct (km_alloc_cases _ _ _ _ _ _ E2 Hr1) as [(-> & Href & Hr2)|(Hcn & Hr2)]; [by split|by split| |].
    + cbn. intros E. apply pair_equal_spec in E as [<- <-]. left. split; [done|]. split; [done|].
      eexists. split; [done|]. by apply km_free_ok in Hr2.
    + destruct (Z.eqb_spec c 0); [done|]. intros E. apply pair_equal_spec in E as [<- <-].
      right. split; [done|]. split; [done|]. eexists h2, _.
      split; [reflexivity|]. split; [|repeat split; try done; by exists []].
      unfold owns. cbn [update heap nodes set_counters set_nodes set_heap]. rewrite blocks_insert_new by done.
      unfold entry_blocks. cbn. destruct (Z.eqb_spec c 0); [done|]. cbn [app].
      rewrite Permutation_swap. exact Hr2.
Qed.

Definition directory_ok (e : FileEntry) : Prop :=
  e_is_directory e = true /\ e_content_at e = 0 /\ child_count e <= e_child_capacity e <= RAMFS_MAX_CHILDREN /\
  (e_children_at e = 0 <-> e_child_capacity e = 0).

Lemma set_children_array_same e : set_children_array e (e_children_at e) (e_child_capacity e) = e.
Proof. by destruct e. Qed.

Lemma ensure_child_capacity_ok fs F d e :
  owns fs F -> nodes fs !! d = Some e -> directory_ok e -> child_count e < RAMFS_MAX_CHILDREN ->
  exists fs' st, ensure_child_capacity fs d = Some (fs', st) /\ owns fs' F /\
  ((st = OutOfMemory /\ allocation_refused /\ exists h, fs' = set_heap fs h) \/
   (st = Ok /\ exists h at_ cap,
     fs' = set_nodes (set_heap fs h) (<[d := set_children_array e at_ cap]> (nodes fs)) /\
     child_count e < cap <= RAMFS_MAX_CHILDREN /\ at_ ≠ 0)).
Proof.
  intros Ho Hd (Hdir & Hcont & Hcap & Hz) Hc. pose proof (owns_nonnull _ _ _ _ Ho Hd) as Hnz.
  unfold ensure_child_capacity. destruct (Z.eqb_spec d 0); [done|]. rewrite Hd. cbn [mbind option_bind].
  rewrite Hdir. cbn [negb]. destruct (Z.leb_spec RAMFS_MAX_CHILDREN (child_count e)); [lia|].
  assert (0 <= child_count e) as Hc0 by (unfold child_count; lia).
  destruct (Z.ltb_spec (child_count e) (e_child_capacity e)) as [Hlt|Hge].
  { exists fs, Ok. split; [done|]. split; [done|]. right. split; [done|].
    exists (heap fs), (e_children_at e), (e_child_capacity e). split; [|split; [lia|intros E; apply Hz in E; lia]].
    rewrite set_children_array_same, insert_id by done. by destruct fs. }
  set (nc0 := if e_child_capacity e =? 0 then 4 else e_child_capacity e * 2).
  set (nc := if RAMFS_MAX_CHILDREN <? nc0 then RAMFS_MAX_CHILDREN else nc0).
  assert (child_count e < nc <= RAMFS_MAX_CHILDREN) as Hnc.
  { unfold nc, nc0, RAMFS_MAX_CHILDREN in *. destruct (Z.eqb_spec (e_child_capacity e) 0); split_cases; lia. }
  change RAMFS_MAX_CHILDREN with 64 in *. unfold sizeof_pointer.
  destruct (km_alloc (heap fs) (8 * nc) 8) as [h1 x] eqn:E1.
  destruct (km_alloc_cases _ _ _ _ _ _ E1 Ho) as [(-> & Href & Hr1)|(Hx & Hr1)]; [lia|lia| |].
  { cbn. eexists _, OutOfMemory. split; [done|]. split; [done|]. left. split; [done|]. split; [done|]. by eexists. }
  destruct (Z.eqb_spec x 0); [done|]. unfold modify. cbn [set_heap nodes]. rewrite Hd. cbn [mbind option_bind].
  eexists _, Ok. split; [reflexivity|]. split; [|right; split; [done|]; eexists _, x, nc; done].
  unfold owns. cbn [heap nodes set_nodes set_heap]. rewrite blocks_insert.
  apply (kfree_if_ok _ _ _ (sizeof_pointer * e_child_capacity e)).
  rewrite (blocks_lookup _ _ _ Hd) in Hr1. unfold entry_blocks in *. cbn in *. rewrite Hcont in *. cbn in *.
  destruct (Z.eqb_spec x 0); [done|]. cbn [app] in *. revert Hr1. apply km_rep_proper; [done|].
  set (old := if e_children_at e =? 0 then [] else _). rewrite <- !app_assoc. cbn [app]. solve_Permutation.
Qed.

Lemma append_child_ok fs p c pe ce :
  nodes fs !! p = Some pe -> nodes fs !! c = Some ce -> p ≠ c ->
  append_child fs p c = Some (set_nodes fs
    (<[c := set_parent ce p]> (<[p := set_children pe (e_children pe ++ [c])]> (nodes fs)))).
Proof.
  intros Hp Hc Hne. unfold append_child, modify. rewrite Hp. cbn [mbind option_bind set_nodes nodes].
  by rewrite lookup_insert_ne, Hc.
Qed.

(** ** A new entry *)

(** A directory structure with another list of children, possibly in another array. *)
Definition relisted (e e' : FileEntry) (children : list Z) : Prop :=
  directory_ok e' /\ e_children e' = children /\ e_name e' = e_name e /\ e_parent e' = e_parent e /\ e_size e' = e_size e.

Lemma node_rep_directory A p names e :
  node_rep A p (Directory names) e <->
  directory_ok e /\ e_size e = 0 /\ Forall2 (fun c n => A !! (n :: p) = Some c) (e_children e) names.
Proof. unfold node_rep, directory_ok. tauto. Qed.

Lemma node_rep_relisted A A' p names names' e e' children :
  node_rep A p (Directory names) e -> relisted e e' children ->
  Forall2 (fun c n => A' !! (n :: p) = Some c) children names' -> node_rep A' p (Directory names') e'.
Proof.
  rewrite !node_rep_directory. intros (_ & Hs & _) (Hd & <- & _ & _ & Hs') Hf. split; [done|]. split; [congruence|done].
Qed.

Lemma link_rep_relisted A p e e' children : link_rep A p e -> relisted e e' children -> link_rep A p e'.
Proof. intros Hl (_ & _ & Hn & Hp & _). unfold link_rep in *. destruct p; by rewrite ?Hn, ?Hp. Qed.

Lemma link_rep_mono A A' p e : A ⊆ A' -> link_rep A p e -> link_rep A' p e.
Proof.
  intros Hs. unfold link_rep. destruct p as [|n up]; [done|]. intros [H1 H2]. split; [done|]. by eapply lookup_weaken.
Qed.

Lemma node_rep_ext A A' p node e :
  (forall n c, A !! (n :: p) = Some c -> A' !! (n :: p) = Some c) -> node_rep A p node e -> node_rep A' p node e.
Proof.
  intros Hs. destruct node as [bytes|names]; [done|]. rewrite !node_rep_directory. intros (H1 & H2 & H3).
  split; [done|]. split; [done|]. eapply Forall2_impl; [exact H3|]. cbn. eauto.
Qed.

Lemma node_rep_mono A A' p node e : A ⊆ A' -> node_rep A p node e -> node_rep A' p node e.
Proof. intros Hs. apply node_rep_ext. intros n c Hc. by eapply lookup_weaken. Qed.

Lemma attach_child_ok fs F p c pe ce :
  owns fs F -> nodes fs !! p = Some pe -> nodes fs !! c = Some ce -> p ≠ c ->
  directory_ok pe -> child_count pe < RAMFS_MAX_CHILDREN ->
  exists fs' st, attach_child fs p c = Some (fs', st) /\ owns fs' F /\
  ((st = OutOfMemory /\ allocation_refused /\ exists h, fs' = set_heap fs h) \/
   (st = Ok /\ exists h pe', relisted pe pe' (e_children pe ++ [c]) /\
     fs' = set_nodes (set_heap fs h) (<[c := set_parent ce p]> (<[p := pe']> (nodes fs))))).
Proof.
  intros Ho Hp Hc Hne Hd Hlt. unfold attach_child.
  destruct (ensure_child_capacity_ok fs F p pe Ho Hp Hd Hlt) as (fs1 & st & E & Ho1 & Hcase). rewrite E. cbn [mbind option_bind].
  destruct Hcase as [(-> & Href & h & ->)|(-> & h & at_ & cap & -> & Hcap & Hat)].
  { cbn. eexists _, OutOfMemory. split; [done|]. split; [done|]. left. eauto. }
  rewrite bool_decide_true by done. cbn [negb].
  set (pe1 := set_children_array pe at_ cap) in *.
  rewrite (append_child_ok _ p c pe1 ce) by (cbn [nodes set_nodes]; rewrite ?lookup_insert_eq, ?lookup_insert_ne; done).
  cbn [mbind option_bind set_nodes nodes]. rewrite insert_insert_eq.
  eexists _, Ok. split; [reflexivity|]. split.
  - unfold owns in *. cbn [heap nodes set_nodes set_heap] in *. revert Ho1. apply km_rep_proper; [done|]. f_equiv.
    rewrite (blocks_same _ c ce) by (rewrite ?lookup_insert_ne; done).
    by rewrite !blocks_insert.
  - right. split; [done|]. eexists h, _. split; [|reflexivity]. destruct Hd as (D1 & D2 & D3 & D4).
    split; [|done]. split; [done|]. split; [done|]. cbn. unfold child_count in *. cbn. rewrite length_app. cbn [length].
    split; [lia|]. split; [done|]. lia.
Qed.

Lemma shape_add m t A p names n a node e pa pe pe' :
  tree_ok t -> shape m t A -> free_place t p names n -> A !! p = Some pa -> m !! pa = Some pe ->
  relisted pe pe' (e_children pe ++ [a]) -> m !! a = None -> e_name e = n -> e_parent e = pa ->
  (forall A', node_rep A' (n :: p) node e) ->
  shape (<[a := e]> (<[pa := pe']> m)) (add_entry t p n node) (<[n :: p := a]> A).
Proof.
  intros Ht Hsh Hf Hp Hpa Hrel Ha Hn Hpar Hnode. pose proof (free_place_none t Ht _ _ _ Hf []) as Hnone. cbn [app] in Hnone.
  pose proof Hsh as [Hnodes Haddr Hinj Honto]. pose proof (cons_ne n p) as Hpn.
  assert (A !! (n :: p) = None) as HA.
  { destruct (A !! (n :: p)) eqn:E; [|done]. apply Haddr in E. rewrite Hnone in E. by destruct E. }
  assert (A ⊆ <[n :: p := a]> A) as Hsub by (by apply insert_subseteq).
  assert (forall q b, A !! q = Some b -> is_Some (m !! b)) as Hsome.
  { intros q b Hq. destruct (Haddr _ _ Hq) as [node' Hq']. destruct (Hnodes _ _ Hq') as (b' & e' & E1 & E2 & _).
    rewrite Hq in E1. injection E1 as <-. by eexists. }
  assert (a ≠ pa) as Hapa by (intros ->; congruence). split.
  - intros q node'. rewrite add_entry_lookup. case_bool_decide as Eq.
    { subst q. intros [= <-]. exists a, e. rewrite !lookup_insert_eq. split; [done|]. split; [done|]. split; [|done].
      split; [done|]. rewrite lookup_insert_ne by congruence. congruence. }
    rewrite update_names_lookup. case_bool_decide as Eq2.
    + subst q. rewrite (fp_directory _ _ _ _ Hf). intros [= <-]. exists pa, pe'.
      destruct (Hnodes _ _ (fp_directory _ _ _ _ Hf)) as (pa' & pe0 & E1 & E2 & Hl & Hrep).
      assert (pa' = pa) as -> by congruence. assert (pe0 = pe) as -> by congruence.
      rewrite lookup_insert_ne by congruence. split; [done|]. rewrite lookup_insert_ne, lookup_insert_eq by done.
      split; [done|]. split; [eapply link_rep_relisted; [|done]; by eapply link_rep_mono|].
      eapply node_rep_relisted; [exact Hrep|exact Hrel|]. apply node_rep_directory in Hrep as (_ & _ & Hrep).
      apply Forall2_app; [|constructor; [by rewrite lookup_insert_eq|constructor]].
      eapply Forall2_impl; [exact Hrep|]. cbn. intros c m' Hc. by eapply lookup_weaken.
    + intros Hq. destruct (Hnodes _ _ Hq) as (b & e' & E1 & E2 & Hl & Hrep). exists b, e'.
      rewrite lookup_insert_ne by congruence. split; [done|].
      assert (b ≠ pa) by (intros ->; by apply Eq2, (Hinj q p pa)). rewrite !lookup_insert_ne by congruence.
      split; [done|]. split; [by eapply link_rep_mono|by eapply node_rep_mono].
  - intros q b. rewrite add_entry_lookup. case_bool_decide; [by eexists|]. rewrite update_names_is_some.
    rewrite lookup_insert_ne by congruence. apply Haddr.
  - intros q1 q2 b. destruct (decide (q1 = n :: p)) as [->|E1], (decide (q2 = n :: p)) as [->|E2];
      rewrite ?lookup_insert_eq, ?(lookup_insert_ne A (n :: p)) by congruence; [done| | |apply Hinj].
    + intros [= <-] Hq. apply Hsome in Hq. rewrite Ha in Hq. by destruct Hq.
    + intros Hq [= <-]. apply Hsome in Hq. rewrite Ha in Hq. by destruct Hq.
  - intros b Hb. destruct (decide (b = a)) as [->|E]; [exists (n :: p); apply lookup_insert_eq|].
    rewrite lookup_insert_ne in Hb by done. assert (is_Some (m !! b)) as Hb'.
    { destruct (decide (b = pa)) as [->|E']; [by eexists|by rewrite lookup_insert_ne in Hb by done]. }
    destruct (Honto _ Hb') as [q Hq]. exists q. rewrite lookup_insert_ne; [done|]. intros <-. congruence.
Qed.

(** ** Destroying a subtree *)

Lemma release_entry_storage_ok fs F a e :
  owns fs F -> nodes fs !! a = Some e ->
  exists h, release_entry_storage fs a = Some (set_nodes (set_heap fs h) (delete a (nodes fs))) /\
    owns (set_nodes (set_heap fs h) (delete a (nodes fs))) F.
Proof.
  intros Ho Ha. pose proof (owns_nonnull _ _ _ _ Ho Ha) as Hnz. unfold release_entry_storage.
  destruct (Z.eqb_spec a 0); [done|]. rewrite Ha. cbn [mbind option_bind]. eexists. split; [reflexivity|].
  unfold owns in *. cbn [heap nodes set_nodes set_heap]. apply (km_free_ok _ _ a sizeof_FileEntry).
  apply (kfree_if_ok _ _ _ (sizeof_pointer * e_child_capacity e)), (kfree_if_ok _ _ _ (e_capacity e)).
  rewrite (blocks_lookup _ _ _ Ha) in Ho. revert Ho. apply km_rep_proper; [done|]. unfold entry_blocks.
  set (l1 := if e_content_at e =? 0 then _ else _). set (l2 := if e_children_at e =? 0 then _ else _).
  rewrite <- !app_assoc. cbn [app]. solve_Permutation.
Qed.

(** [forest m cs l]: the children [cs] and everything below them is [l]. *)
Inductive forest m : list Z -> list Z -> Prop :=
  | forest_nil : forest m [] []
  | forest_snoc cs c e l1 l2 :
      forest m cs l1 -> m !! c = Some e -> forest m (e_children e) l2 -> forest m (cs ++ [c]) (l1 ++ c :: l2).

Lemma forest_ext m m' cs l : (forall b, b ∈ l -> m' !! b = m !! b) -> forest m cs l -> forest m' cs l.
Proof.
  intros Hext Hf. induction Hf as [|cs c e l1 l2 H1 IH1 Hc H2 IH2]; [constructor|].
  apply (forest_snoc _ _ _ e).
  - apply IH1. intros b Hb. apply Hext. set_solver.
  - rewrite Hext by set_solver. done.
  - apply IH2. intros b Hb. apply Hext. set_solver.
Qed.

Lemma forest_nil_inv m l : forest m [] l -> l = [].
Proof. intros Hf. inversion Hf as [|cs c]; [done|]. by destruct cs. Qed.

Lemma forest_snoc_inv m cs c l :
  forest m (cs ++ [c]) l -> exists e l1 l2, l = l1 ++ c :: l2 /\ forest m cs l1 /\ m !! c = Some e /\ forest m (e_children e) l2.
Proof.
  intros Hf. inversion Hf as [E|cs' c' e l1 l2 H1 Hc H2 E]; [by destruct cs|].
  apply app_inj_tail in E as [-> ->]. eauto 10.
Qed.

Definition file_bytes_of (e : FileEntry) : Z := if e_is_directory e then 0 else e_size e.

Definition bytes_at m (b : Z) : Z := match m !! b with Some e => file_bytes_of e | None => 0 end.

Definition bytes_in m (l : list Z) : Z := foldr Z.add 0 (bytes_at m <$> l).

Lemma bytes_in_app m l1 l2 : bytes_in m (l1 ++ l2) = bytes_in m l1 + bytes_in m l2.
Proof. unfold bytes_in. induction l1; cbn in *; lia. Qed.

Lemma bytes_in_cons m b l : bytes_in m (b :: l) = bytes_at m b + bytes_in m l.
Proof. done. Qed.

Lemma bytes_in_ext m m' l : (forall b, b ∈ l -> m' !! b = m !! b) -> bytes_in m' l = bytes_in m l.
Proof.
  intros Hext. induction l as [|b l IH]; [done|]. rewrite !bytes_in_cons, IH by (intros; apply Hext; by constructor).
  unfold bytes_at. by rewrite Hext by constructor.
Qed.

Definition sizes_ok m : Prop := forall b e, m !! b = Some e -> 0 <= e_size e.

Lemma bytes_in_nonneg m l : sizes_ok m -> 0 <= bytes_in m l.
Proof.
  intros Hs. induction l as [|b l IH]; [done|]. rewrite bytes_in_cons. unfold bytes_at, file_bytes_of.
  destruct (m !! b) as [e|] eqn:E; [|lia]. apply Hs in E. destruct (e_is_directory e); lia.
Qed.

(** What a state looks like when the structures [l] have been destroyed. *)
Definition destroyed fs fs' (l : list Z) : Prop :=
  (forall b, nodes fs' !! b = if bool_decide (b ∈ l) then None else nodes fs !! b) /\
  g_root fs' = g_root fs /\ g_last_status fs' = g_last_status fs /\
  g_node_count fs' = g_node_count fs - Z.of_nat (length l) /\
  g_total_file_bytes fs' = g_total_file_bytes fs - bytes_in (nodes fs) l.

Lemma destroy_leaf fs F a e fuel :
  owns fs F -> nodes fs !! a = Some e -> sizes_ok (nodes fs) -> e_children e = [] ->
  1 <= g_node_count fs -> bytes_at (nodes fs) a <= g_total_file_bytes fs ->
  exists fs', destroy_subtree (S fuel) fs a = Some fs' /\ owns fs' F /\ destroyed fs fs' [a].
Proof.
  intros Ho Ha Hsz Hch Hcnt Htot. pose proof (owns_nonnull _ _ _ _ Ho Ha) as Hnz. cbn [destroy_subtree].
  destruct (Z.eqb_spec a 0); [done|]. rewrite Ha. cbn [mbind option_bind]. rewrite Hch. cbn [last].
  set (fs1 := set_counters fs _ _). destruct (release_entry_storage_ok fs1 F a e Ho Ha) as (h & -> & Ho').
  eexists. split; [done|]. split; [done|]. unfold destroyed, fs1. cbn [nodes g_root g_last_status g_node_count g_total_file_bytes set_nodes set_heap set_counters length].
  pose proof (Hsz _ _ Ha) as Hs. unfold bytes_in, bytes_at, file_bytes_of in *. cbn. rewrite Ha in *.
  split; [|split; [done|split; [done|split]]].
  - intros b. destruct (decide (b = a)) as [->|E]; [rewrite bool_decide_true by set_solver; apply lookup_delete_eq|].
    rewrite bool_decide_false by set_solver. by apply lookup_delete_ne.
  - destruct (Z.ltb_spec 0 (g_node_count fs)); lia.
  - destruct (e_is_directory e); [lia|]. destruct (Z.leb_spec (e_size e) (g_total_file_bytes fs)); lia.
Qed.

Lemma destroy_ok fuel fs F a e l :
  owns fs F -> nodes fs !! a = Some e -> sizes_ok (nodes fs) -> forest (nodes fs) (e_children e) l -> NoDup (a :: l) ->
  (length l < fuel)%nat -> Z.of_nat (length (a :: l)) <= g_node_count fs ->
  bytes_in (nodes fs) (a :: l) <= g_total_file_bytes fs ->
  exists fs', destroy_subtree fuel fs a = Some fs' /\ owns fs' F /\ destroyed fs fs' (a :: l).
Proof.
  revert fs a e l; induction fuel as [|fuel IH]; intros fs a e l Ho Ha Hsz Hf Hnd Hfuel Hcnt Htot; [lia|].
  destruct (e_children e) as [|c cs _] eqn:Ec using rev_ind.
  { apply forest_nil_inv in Hf as ->. rewrite bytes_in_cons in Htot. cbn in Hcnt, Htot.
    apply (destroy_leaf fs F a e fuel); try done; lia. }
  apply forest_snoc_inv in Hf as (ec & l1 & l2 & -> & Hf1 & Hc & Hf2).
  apply NoDup_cons in Hnd as [Hna Hnd]. apply NoDup_app in Hnd as (Hnd1 & Hdis & Hnd2).
  pose proof (owns_nonnull _ _ _ _ Ho Ha) as Hnz. cbn [destroy_subtree].
  destruct (Z.eqb_spec a 0); [done|]. rewrite Ha. cbn [mbind option_bind]. rewrite Ec, last_snoc.
  unfold modify. rewrite Ha. cbn [mbind option_bind]. rewrite Ec, removelast_last.
  set (m1 := <[a := set_children e cs]> (nodes fs)). set (fs1 := set_nodes fs m1).
  assert (a ≠ c) as Hac by set_solver.
  assert (forall b, b ≠ a -> m1 !! b = nodes fs !! b) as Hm1 by (intros b Hb; by apply lookup_insert_ne).
  assert (owns fs1 F) as Ho1.
  { unfold owns in *. cbn [fs1 heap nodes set_nodes]. revert Ho. apply km_rep_proper; [done|]. f_equiv.
    by apply (blocks_same _ _ e). }
  assert (sizes_ok m1) as Hsz1.
  { intros b e'. destruct (decide (b = a)) as [->|E]; [|rewrite Hm1 by done; apply Hsz].
    unfold m1. rewrite lookup_insert_eq. intros [= <-]. by apply (Hsz _ _ Ha). }
  assert (bytes_in m1 (c :: l2) = bytes_in (nodes fs) (c :: l2)) as Eb2.
  { apply bytes_in_ext. intros b Hb. apply Hm1. set_solver. }
  pose proof (bytes_in_nonneg (nodes fs) l1 Hsz) as Hb1. pose proof (bytes_in_nonneg (nodes fs) [a] Hsz) as Hba.
  pose proof (bytes_in_nonneg (nodes fs) (c :: l2) Hsz) as Hb2.
  change (a :: l1 ++ c :: l2) with ([a] ++ l1 ++ c :: l2) in Htot. rewrite !bytes_in_app in Htot.
  cbn [length] in Hcnt, Hfuel. rewrite length_app in Hcnt, Hfuel. cbn [length] in Hcnt, Hfuel.
  destruct (IH fs1 c ec l2) as (fs2 & -> & Ho2 & D1 & D2 & D3 & D4 & D5); try done; try lia.
  { cbn [fs1 nodes set_nodes]. by rewrite Hm1. }
  { apply (forest_ext (nodes fs)); [|done]. intros b Hb. apply Hm1. set_solver. }
  { cbn [length fs1 g_node_count set_nodes]. lia. }
  { cbn [fs1 g_total_file_bytes set_nodes nodes]. rewrite Eb2. lia. }
  cbn [mbind option_bind]. cbn [fs1 g_root g_last_status g_node_count g_total_file_bytes nodes set_nodes length] in *.
  assert (forall b, b ≠ a -> b ∉ c :: l2 -> nodes fs2 !! b = nodes fs !! b) as Hm2.
  { intros b H1 H2. rewrite D1, bool_decide_false by done. by apply Hm1. }
  assert (nodes fs2 !! a = Some (set_children e cs)) as Ha2.
  { rewrite D1, bool_decide_false by set_solver. apply lookup_insert_eq. }
  assert (bytes_in (nodes fs2) (a :: l1) = bytes_in (nodes fs) (a :: l1)) as Eb1.
  { rewrite !bytes_in_cons. f_equal; [unfold bytes_at; by rewrite Ha, Ha2|].
    apply bytes_in_ext. intros b Hb. apply Hm2; set_solver. }
  destruct (IH fs2 a (set_children e cs) l1) as (fs3 & -> & Ho3 & G1 & G2 & G3 & G4 & G5); try done; try lia.
  { intros b e'. rewrite D1. case_bool_decide; [done|]. apply Hsz1. }
  { apply (forest_ext (nodes fs)); [|done]. intros b Hb. apply Hm2; set_solver. }
  { apply NoDup_cons. split; [set_solver|done]. }
  { rewrite Eb1. change (a :: l1) with ([a] ++ l1). rewrite bytes_in_app. lia. }
  exists fs3. split; [done|]. split; [done|]. cbn [length] in G4. split.
  { intros b. rewrite G1, D1. destruct (decide (b ∈ a :: l1)); [by rewrite !bool_decide_true by set_solver|].
    rewrite (bool_decide_false (b ∈ a :: l1)) by done. destruct (decide (b ∈ c :: l2)).
    - by rewrite !bool_decide_true by set_solver.
    - rewrite !bool_decide_false by set_solver. apply Hm1. set_solver. }
  split; [congruence|]. split; [congruence|]. rewrite length_cons, length_app. cbn [length]. split; [lia|].
  rewrite G5, D5, Eb1, Eb2. change (a :: l1 ++ c :: l2) with ((a :: l1) ++ c :: l2). rewrite bytes_in_app. lia.
Qed.

(** ** The structures of a subtree *)

Section subtree.
Context m t A (Ht : tree_ok t) (Hsh : shape m t A).

Lemma shape_lookup p a : A !! p = Some a -> exists node e,
  t !! p = Some node /\ m !! a = Some e /\ link_rep A p e /\ node_rep A p node e.
Proof.
  intros Ha. destruct (sh_addr _ _ _ Hsh _ _ Ha) as [node Hp].
  destruct (sh_node _ _ _ Hsh _ _ Hp) as (a' & e & Ha' & He & Hl & Hn). rewrite Ha in Ha'. injection Ha' as <-. by exists node, e.
Qed.

Lemma forest_children p cs ns :
  Forall2 (fun c n => A !! (n :: p) = Some c) cs ns -> NoDup ns ->
  (forall n c e, n ∈ ns -> A !! (n :: p) = Some c -> m !! c = Some e ->
    exists l, forest m (e_children e) l /\ NoDup l /\ forall b, b ∈ l <-> exists r n', A !! (r ++ n' :: n :: p) = Some b) ->
  exists l, forest m cs l /\ NoDup l /\ forall b, b ∈ l <-> exists r n, n ∈ ns /\ A !! (r ++ n :: p) = Some b.
Proof.
  revert cs; induction ns as [|n ns IH] using rev_ind; intros cs Hf Hnd Hsub.
  { apply Forall2_nil_inv_r in Hf as ->. exists []. split; [constructor|]. split; [constructor|].
    intros b. split; [by intros ?%elem_of_nil|]. intros (r & n & Hn & _). by apply elem_of_nil in Hn. }
  apply Forall2_app_inv_r in Hf as (cs1 & cs2 & Hf1 & Hf2 & ->). apply Forall2_cons_inv_r in Hf2 as (c & ? & Hc & Hf2 & ->).
  apply Forall2_nil_inv_r in Hf2 as ->. apply NoDup_app in Hnd as (Hnd & Hdis & _).
  destruct (IH _ Hf1 Hnd) as (l1 & F1 & N1 & I1).
  { intros n' c' e' Hn'. apply Hsub. apply elem_of_app. by left. }
  destruct (shape_lookup _ _ Hc) as (node & e & _ & He & _).
  destruct (Hsub n c e) as (l2 & F2 & N2 & I2); [set_solver|done|done|].
  assert (forall b, b ∈ c :: l2 <-> exists r, A !! (r ++ n :: p) = Some b) as I3.
  { intros b. rewrite elem_of_cons, I2. split.
    - intros [->|(r & n' & Hr)]; [by exists []|]. exists (r ++ [n']). by rewrite <- app_assoc.
    - intros [r Hr]. destruct r as [|n' r _] using rev_ind; [left; cbn in Hr; congruence|]. right. exists r, n'.
      by rewrite <- app_assoc in Hr. }
  exists (l1 ++ c :: l2). split; [by apply (forest_snoc _ _ _ e)|]. split.
  - apply NoDup_app. split; [done|]. split.
    + intros b H1 H2. apply I1 in H1 as (r1 & n1 & Hn1 & E1). apply I3 in H2 as (r2 & E2).
      pose proof (sh_inj _ _ _ Hsh _ _ _ E1 E2) as E.
      replace (r1 ++ n1 :: p) with ((r1 ++ [n1]) ++ p) in E by (by rewrite <- app_assoc).
      replace (r2 ++ n :: p) with ((r2 ++ [n]) ++ p) in E by (by rewrite <- app_assoc).
      apply app_inv_tail, app_inj_tail in E as [_ ->]. by eapply (Hdis n); [|constructor].
    + apply NoDup_cons. split; [|done]. intros Hin. apply I2 in Hin as (r & n' & E).
      pose proof (sh_inj _ _ _ Hsh _ _ _ Hc E) as E'. apply (f_equal length) in E'.
      rewrite length_app in E'. cbn in E'. lia.
  - intros b. rewrite elem_of_app, I1, I3. split.
    + intros [(r & n' & Hn' & E)|[r E]]; [exists r, n'; set_solver|exists r, n; set_solver].
    + intros (r & n' & [Hn'|Hn']%elem_of_app & E); [left; eauto|].
      apply list_elem_of_singleton in Hn' as ->. right. eauto.
Qed.

Lemma forest_below k p a e :
  (33 - length p <= k)%nat -> A !! p = Some a -> m !! a = Some e ->
  exists l, forest m (e_children e) l /\ NoDup l /\ forall b, b ∈ l <-> exists r n, A !! (r ++ n :: p) = Some b.
Proof.
  revert p a e; induction k as [|k IH]; intros p a e Hk Ha He;
    destruct (shape_lookup _ _ Ha) as (node & e' & Hp & He' & _ & Hn); rewrite He in He'; injection He' as <-.
  { pose proof (to_depth t Ht p ltac:(by eexists)) as Hd. change RAMFS_MAX_PATH_DEPTH with 32 in Hd. lia. }
  destruct node as [bytes|names].
  - destruct Hn as (_ & _ & _ & _ & _ & _ & -> & _). exists []. split; [constructor|]. split; [constructor|].
    intros b. split; [by intros ?%elem_of_nil|]. intros (r & n & E). exfalso.
    apply (sh_addr _ _ _ Hsh), (tree_upward t Ht), (to_parent t Ht) in E as (ns & E & _). congruence.
  - apply node_rep_directory in Hn as (_ & _ & Hf). destruct (to_names t Ht _ _ Hp) as [Hnd _].
    destruct (forest_children p _ _ Hf Hnd) as (l & F1 & N1 & I1).
    { intros n c ec _ Hc Hec. apply (IH (n :: p) c); [cbn [length]; lia|done|done]. }
    exists l. split; [done|]. split; [done|]. intros b. rewrite I1. split; [intros (r & n & _ & E); eauto|].
    intros (r & n & E). exists r, n. split; [|done]. apply (tree_child t Ht _ _ _ Hp).
    apply (tree_upward t Ht r). by apply (sh_addr _ _ _ Hsh) in E.
Qed.

Lemma subtree_elem p a l :
  A !! p = Some a -> (forall b, b ∈ l <-> exists r n, A !! (r ++ n :: p) = Some b) ->
  forall b, b ∈ a :: l <-> exists q, suffix p q /\ A !! q = Some b.
Proof.
  intros Ha Hl b. rewrite elem_of_cons, Hl. split.
  - intros [->|(r & n & E)]; [by exists p|]. eexists. split; [|done]. exists (r ++ [n]). by rewrite <- app_assoc.
  - intros (q & [r ->] & E). destruct r as [|n r _] using rev_ind; [left; cbn in E; congruence|].
    right. exists r, n. by rewrite <- app_assoc in E.
Qed.

Lemma bytes_at_addr p a node : A !! p = Some a -> t !! p = Some node -> bytes_at m a = node_bytes node.
Proof.
  intros Ha Hp. destruct (shape_lookup _ _ Ha) as (node' & e & Hp' & He & _ & Hn). rewrite Hp in Hp'. injection Hp' as <-.
  unfold bytes_at, file_bytes_of. rewrite He. destruct node; cbn [node_rep node_bytes] in *.
  - by destruct Hn as (-> & _ & -> & _).
  - by destruct Hn as (-> & _).
Qed.

(** The addresses of a subtree are those of its paths. *)
Lemma subtree_perm p (l : list Z) :
  NoDup l -> (forall b, b ∈ l <-> exists q, suffix p q /\ A !! q = Some b) ->
  l ≡ₚ (fun kv => addr A (fst kv)) <$> map_to_list (filter (fun kv => suffix p (fst kv)) t).
Proof.
  intros Hnd Hl. apply NoDup_Permutation; [done| |].
  - apply NoDup_fmap_2_strong; [|apply NoDup_map_to_list]. intros [q v] [q' v'] Hq Hq' E.
    apply elem_of_map_to_list, map_lookup_filter_Some in Hq as [Hq _], Hq' as [Hq' _]. cbn in E.
    destruct (sh_node _ _ _ Hsh _ _ Hq) as (b & _ & Hb & _). destruct (sh_node _ _ _ Hsh _ _ Hq') as (b' & _ & Hb' & _).
    unfold addr in E. rewrite Hb, Hb' in E. cbn in E. subst b'.
    pose proof (sh_inj _ _ _ Hsh _ _ _ Hb Hb') as <-. congruence.
  - intros b. rewrite Hl, list_elem_of_fmap. split.
    + intros (q & Hs & Hq). destruct (sh_addr _ _ _ Hsh _ _ Hq) as [node Hnode]. exists (q, node). cbn.
      unfold addr. rewrite Hq. split; [done|]. by apply elem_of_map_to_list, map_lookup_filter_Some.
    + intros ([q node] & -> & Hq). apply elem_of_map_to_list, map_lookup_filter_Some in Hq as [Hq Hs]. exists q.
      split; [done|]. destruct (sh_node _ _ _ Hsh _ _ Hq) as (b & _ & Hb & _). unfold addr. cbn. by rewrite Hb.
Qed.

End subtree.

Section subtree_size.
Context m t A (Ht : tree_ok t) (Hsh : shape m t A) (p : Path) (l : list Z).
Context (Hnd : NoDup l) (Hl : forall b, b ∈ l <-> exists q, suffix p q /\ A !! q = Some b).

Lemma subtree_count : node_count t = Z.of_nat (length l) + node_count (remove_subtree t p).
Proof.
  unfold node_count at 2, remove_subtree. rewrite update_names_size.
  unfold node_count. rewrite !size_sum_map, (sum_map_partition _ (fun kv => suffix p (fst kv)) t), <- !size_sum_map.
  rewrite (subtree_perm m t A Hsh p l Hnd Hl), length_fmap, length_map_to_list. lia.
Qed.

Lemma subtree_bytes : total_bytes t = bytes_in m l + total_bytes (remove_subtree t p).
Proof.
  unfold remove_subtree. rewrite update_names_bytes. unfold total_bytes.
  rewrite (sum_map_partition _ (fun kv => suffix p (fst kv)) t). f_equal. unfold bytes_in, sum_map.
  rewrite (sum_perm _ _ (fmap_Permutation (bytes_at m) _ _ (subtree_perm m t A Hsh p l Hnd Hl))), <- list_fmap_compose.
  f_equal. apply list_fmap_ext. intros i [q node] Hq. apply list_elem_of_lookup_2 in Hq.
  apply elem_of_map_to_list, map_lookup_filter_Some in Hq as [Hq _]. cbn. symmetry.
  destruct (sh_node _ _ _ Hsh _ _ Hq) as (b & _ & Hb & _). apply (bytes_at_addr m t A Hsh q); [|done].
  unfold addr. by rewrite Hb.
Qed.

End subtree_size.
End proof.
