(* ===== verification/RamFsProof.v ===== *)
(** * The operations of the RAM file system refine the abstract ones

    Each entry point of fs/ramfs.cpp, started in a state that represents a tree
    (RamFsRepr.v), ends in a state that represents the tree [spec] gives, with the
    status [spec] gives; only memory can be lacking. *)

From S2P Require Import Prelude KernelHeap KernelMemory RamFs RamFsSpec RamFsRepr.

Section proof.
Context {H : Type} `{KernelMemory H}.
Implicit Types (fs : RamFs H) (m : gmap Z FileEntry) (A : gmap (list (list Z)) Z) (F : list (Z * Z)).

(** ** Taking a subtree out *)

Lemma close_up_ok A p cs ns n c :
  Forall2 (fun c n => A !! (n :: p) = Some c) cs ns -> NoDup ns -> n ∈ ns -> A !! (n :: p) = Some c ->
  (forall q r a, A !! q = Some a -> A !! r = Some a -> q = r) ->
  exists cs', close_up cs c = Some cs' /\ Forall2 (fun c n => A !! (n :: p) = Some c) cs' (filter (fun x => x ≠ n) ns) /\
    (length cs' <= length cs)%nat.
Proof.
  intros Hf Hnd Hin Hc Hinj. revert Hnd Hin. induction Hf as [|c0 n0 cs ns Hc0 Hf IH]; intros Hnd Hin; [by apply elem_of_nil in Hin|].
  apply NoDup_cons in Hnd as [Hn0 Hnd]. cbn [close_up]. destruct (Z.eqb_spec c0 c) as [->|Hne].
  - pose proof (Hinj _ _ _ Hc Hc0) as E. injection E as <-. exists cs. split; [done|]. split; [|cbn; lia].
    rewrite filter_cons_False by (intros []; done).
    rewrite filter_keep; [done|]. intros x Hx ->. done.
  - assert (n0 ≠ n) as Hn by (intros ->; congruence). apply elem_of_cons in Hin as [->|Hin]; [done|].
    destruct (IH Hnd Hin) as (cs' & -> & Hf' & Hlen). exists (c0 :: cs'). split; [done|].
    rewrite filter_cons_True by done. split; [by constructor|]. cbn. lia.
Qed.

Lemma lookup_filter_out {V} (p q : Path) (M : gmap (list (list Z)) V) :
  filter (fun kv => ¬ suffix p (fst kv)) M !! q = if bool_decide (suffix p q) then None else M !! q.
Proof.
  apply option_eq. intros v. rewrite map_lookup_filter_Some. cbn [fst]. case_bool_decide; split; try done; by intros [].
Qed.

Lemma shape_remove m m' t A old up (l : list Z) pa pe pe' names cs :
  let p := old :: up in
  tree_ok t -> shape m t A -> (forall b, b ∈ l <-> exists q, suffix p q /\ A !! q = Some b) ->
  A !! up = Some pa -> m !! pa = Some pe -> t !! up = Some (Directory names) ->
  (forall b, m' !! b = if bool_decide (b ∈ l) then None else if bool_decide (b = pa) then Some pe' else m !! b) ->
  relisted pe pe' cs -> Forall2 (fun c n => A !! (n :: up) = Some c) cs (filter (fun x => x ≠ old) names) ->
  shape m' (remove_subtree t p) (filter (fun kv => ¬ suffix p (fst kv)) A).
Proof.
  intros p Ht Hsh Hl Hup Hpa Hnames Hm' Hrel Hcs. pose proof Hsh as [Hnodes Haddr Hinj Honto].
  set (A' := filter (fun kv => ¬ suffix p (fst kv)) A).
  assert (forall q b, A !! q = Some b -> b ∈ l <-> suffix p q) as Hmem.
  { intros q b Hq. rewrite Hl. split; [|eauto]. intros (q' & Hs & Hq'). by rewrite (Hinj _ _ _ Hq Hq'). }
  assert (¬ suffix p up) as Hnup by apply suffix_of_tail.
  assert (forall q x, ¬ suffix p q -> A !! q = Some x -> A' !! q = Some x) as HA.
  { intros q x Hs Hq. unfold A'. by rewrite lookup_filter_out, bool_decide_false. }
  assert (forall q e, ¬ suffix p q -> link_rep A q e -> link_rep A' q e) as Hlink.
  { intros [|n q] e Hs Hlk; [done|]. destruct Hlk as [H1 H2]. split; [done|]. apply HA; [|done].
    intros Hs'. apply Hs. apply suffix_cons_iff. by right. }
  split.
  - intros q node. rewrite remove_subtree_lookup. case_bool_decide as Hs; [done|]. rewrite update_names_lookup.
    cbn [tail head default p]. case_bool_decide as Eq.
    + subst q. rewrite Hnames. intros [= <-]. destruct (Hnodes _ _ Hnames) as (b & e & Hb & He & Hlk & Hrep).
      assert (b = pa) as -> by congruence. assert (e = pe) as -> by congruence. exists pa, pe'.
      split; [by apply HA|]. split; [by rewrite Hm', bool_decide_false, bool_decide_true by (rewrite ?(Hmem up); done)|].
      split; [apply Hlink; [done|]; by eapply link_rep_relisted|]. eapply node_rep_relisted; [exact Hrep|exact Hrel|].
      apply (Forall2_impl_in _ _ _ _ Hcs). intros c n Hc Hn.
      apply list_elem_of_filter in Hn as [Hn _]. apply HA; [|done]. rewrite suffix_cons_iff. intros [E|]; [|done]. unfold p in E. congruence.
    + intros Hq. destruct (Hnodes _ _ Hq) as (b & e & Hb & He & Hlk & Hrep). exists b, e. split; [by apply HA|].
      rewrite Hm', bool_decide_false by (by rewrite (Hmem q)).
      rewrite bool_decide_false by (intros ->; by apply Eq, (Hinj q up pa)). split; [done|]. split; [by apply Hlink|].
      revert Hrep. apply node_rep_ext. intros n c Hc. apply HA; [|done]. rewrite suffix_cons_iff.
      intros [E|]; [|done]. unfold p in E. congruence.
  - intros q b. unfold A'. rewrite lookup_filter_out, remove_subtree_lookup. case_bool_decide; [done|].
    rewrite update_names_is_some. apply Haddr.
  - intros q1 q2 b. unfold A'. rewrite !lookup_filter_out. do 2 (case_bool_decide; [done|]). apply Hinj.
  - intros b. rewrite Hm'. case_bool_decide as Hb; [by intros []|]. intros Hs.
    assert (is_Some (m !! b)) as [e He] by (revert Hs; case_bool_decide; [subst; by eexists|done]).
    destruct (Honto b ltac:(by eexists)) as [q Hq]. exists q. apply HA; [|done]. by rewrite <- (Hmem q b).
Qed.

Lemma repr_sizes fs t A F : repr fs t A F -> sizes_ok (nodes fs).
Proof.
  intros Hr b e He. pose proof (r_shape _ _ _ _ Hr) as Hsh.
  destruct (sh_onto _ _ _ Hsh b ltac:(by eexists)) as [q Hq].
  destruct (shape_lookup _ _ _ Hsh _ _ Hq) as (node & e' & _ & He' & _ & Hn). rewrite He in He'. injection He' as <-.
  destruct node; cbn in Hn; [destruct Hn as (_ & _ & -> & _)|destruct Hn as (_ & _ & -> & _)]; lia.
Qed.

(** Taking an entry off its directory's list. *)
Lemma detach_child_ok fs t A F old up e :
  let a := addr A (old :: up) in
  let pa := addr A up in
  repr fs t A F -> tree_ok t -> is_Some (t !! (old :: up)) -> nodes fs !! a = Some e ->
  exists names pe cs, t !! up = Some (Directory names) /\ old ∈ names /\ A !! up = Some pa /\ nodes fs !! pa = Some pe /\
    relisted pe (set_children pe cs) cs /\ pa ≠ a /\ e_parent e = pa /\
    Forall2 (fun c n => A !! (n :: up) = Some c) cs (filter (fun x => x ≠ old) names) /\
    detach_child fs pa a = Some (set_nodes fs (<[a := set_parent e 0]> (<[pa := set_children pe cs]> (nodes fs)))).
Proof.
  intros a pa Hr Ht [node Hp] He. pose proof (r_shape _ _ _ _ Hr) as Hsh.
  destruct (repr_node _ _ _ _ Hr _ _ Hp) as (e' & Ha & He' & Hnz & [_ Hpar] & _). fold a in Ha, He', Hnz.
  rewrite He in He'. injection He' as <-.
  destruct (proj1 (to_parent t Ht _ _) ltac:(eexists; exact Hp)) as (names & Hup & Hold).
  destruct (repr_node _ _ _ _ Hr _ _ Hup) as (pe & Hupa & Hpe & Hpnz & _ & Hprep). fold pa in Hupa, Hpe, Hpnz.
  destruct (to_names t Ht _ _ Hup) as [Hnd _].
  apply node_rep_directory in Hprep as ((D1 & D2 & D3 & D4) & _ & Hf).
  destruct (close_up_ok A up _ _ old a Hf Hnd Hold Ha) as (cs & Ecl & Hcs & Hlen); [apply Hsh|].
  assert (pa ≠ a) as Hne.
  { intros E. rewrite E in Hupa. exact (cons_ne old up (sh_inj _ _ _ Hsh _ _ _ Hupa Ha)). }
  exists names, pe, cs. repeat (split; [done|]). split.
  { split; [|done]. split; [done|]. split; [done|]. split; [|done]. unfold child_count in *. cbn. lia. }
  split; [done|]. split; [congruence|]. split; [done|].
  unfold detach_child. destruct (Z.eqb_spec pa 0); [done|]. destruct (Z.eqb_spec a 0); [done|]. cbn [orb].
  rewrite Hpe. cbn [mbind option_bind]. rewrite Ecl. unfold modify. rewrite Hpe. cbn [mbind option_bind nodes set_nodes].
  by rewrite lookup_insert_ne, He.
Qed.

(** Assigning to fields that are not blocks keeps the allocations. *)
Lemma owns_set_nodes fs F m : blocks m ≡ₚ blocks (nodes fs) -> owns fs F -> owns (set_nodes fs m) F.
Proof. unfold owns. cbn [heap nodes set_nodes]. intros ->. done. Qed.

Lemma blocks_two m a b e e' d d' :
  m !! a = Some e -> m !! b = Some d -> a ≠ b -> entry_blocks a e' = entry_blocks a e -> entry_blocks b d' = entry_blocks b d ->
  blocks (<[a := e']> (<[b := d']> m)) ≡ₚ blocks m.
Proof. intros Ha Hb Hne E1 E2. rewrite (blocks_same _ a e) by (rewrite ?lookup_insert_ne; done). by rewrite (blocks_same _ b d). Qed.

Lemma sizes_ok_insert m a e e' : sizes_ok m -> m !! a = Some e -> e_size e' = e_size e -> sizes_ok (<[a := e']> m).
Proof.
  intros Hs Ha E b eb. destruct (decide (b = a)) as [->|Hne].
  - rewrite lookup_insert_eq. intros [= <-]. rewrite E. by eapply Hs.
  - rewrite lookup_insert_ne by done. apply Hs.
Qed.

(** The call sequence of [remove_path], and of the roll-back of [write_file_data]. *)
Lemma detach_destroy_ok fs t A F old up e :
  let p := old :: up in
  repr fs t A F -> tree_ok t -> is_Some (t !! p) -> nodes fs !! addr A p = Some e ->
  exists fs1 fs', detach_child fs (e_parent e) (addr A p) = Some fs1 /\
    destroy_subtree destroy_fuel fs1 (addr A p) = Some fs' /\ represents fs' (remove_subtree t p) F.
Proof.
  intros p Hr Ht Hs He. pose proof (r_shape _ _ _ _ Hr) as Hsh.
  destruct (detach_child_ok fs t A F old up e Hr Ht Hs He)
    as (names & pe & cs & Hup & Hold & Hupa & Hpe & Hrel & Hne & -> & Hcs & Edet).
  fold p in Hne, Edet. set (pa := addr A up) in *. set (a := addr A p) in *.
  destruct Hs as [node Hp]. destruct (repr_node _ _ _ _ Hr _ _ Hp) as (_ & Ha & _ & Hnz & _). fold a in Ha, Hnz.
  set (m1 := <[a := set_parent e 0]> (<[pa := set_children pe cs]> (nodes fs))) in *. set (fs1 := set_nodes fs m1) in *.
  destruct (forest_below _ _ _ Ht Hsh 33 p a e ltac:(lia) Ha He) as (l & Hfor & Hndl & Hl).
  assert (forall b, b ∈ a :: l <-> exists q, suffix p q /\ A !! q = Some b) as Hmem by (by apply subtree_elem).
  assert (a ∉ l) as Hal.
  { intros Hin. apply Hl in Hin as (r & n & E). pose proof (sh_inj _ _ _ Hsh _ _ _ Ha E) as E'.
    apply (f_equal length) in E'. rewrite length_app in E'. cbn in E'. lia. }
  assert (NoDup (a :: l)) as Hndal by (by constructor).
  assert (pa ∉ a :: l) as Hpal.
  { intros Hin. apply Hmem in Hin as (q & Hs & E). pose proof (sh_inj _ _ _ Hsh _ _ _ Hupa E) as <-. by apply suffix_of_tail in Hs. }
  pose proof (subtree_count _ _ _ Hsh p _ Hndal Hmem) as Hcount. pose proof (subtree_bytes _ _ _ Hsh p _ Hndal Hmem) as Hbytes.
  assert (forall b, b ∈ l -> m1 !! b = nodes fs !! b) as Hext.
  { intros b Hb. unfold m1. rewrite !lookup_insert_ne; [done|intros <-; apply Hpal; by constructor|by intros <-]. }
  assert (bytes_in m1 (a :: l) = bytes_in (nodes fs) (a :: l)) as Hb1.
  { rewrite !bytes_in_cons, (bytes_in_ext _ _ _ Hext). f_equal. unfold bytes_at, m1. by rewrite lookup_insert_eq, He. }
  assert (0 <= total_bytes (remove_subtree t p)) as Hnn by (apply sum_map_nonneg; intros; apply node_bytes_nonneg).
  pose proof (to_nodes t Ht) as Hmax. change RAMFS_MAX_NODES with 256 in Hmax. unfold node_count in Hcount, Hmax. cbn [length] in Hcount.
  destruct (destroy_ok destroy_fuel fs1 F a (set_parent e 0) l) as (fs' & Edes & Ho' & G1 & G2 & G3 & G4 & G5); try done.
  { apply owns_set_nodes; [|apply Hr]. by apply (blocks_two _ a pa e _ pe). }
  { apply lookup_insert_eq. }
  { apply (sizes_ok_insert _ a e); [|by rewrite lookup_insert_ne|done]. apply (sizes_ok_insert _ pa pe); [|done|done].
    by apply (repr_sizes _ _ _ _ Hr). }
  { by apply (forest_ext (nodes fs)). }
  { change destroy_fuel with 257%nat. lia. }
  { cbn [fs1 g_node_count set_nodes length]. rewrite (r_count _ _ _ _ Hr). unfold node_count. lia. }
  { cbn [fs1 g_total_file_bytes nodes set_nodes]. rewrite Hb1, (r_total _ _ _ _ Hr). lia. }
  exists fs1, fs'. split; [done|]. split; [done|]. eexists.
  cbn [fs1 g_root g_node_count g_total_file_bytes nodes set_nodes length] in *. split; [| | | | |done].
  - right. apply (remove_subtree_ok t Ht); [done|by eexists].
  - apply (shape_remove (nodes fs) _ t A old up (a :: l) pa pe (set_children pe cs) names cs); try done. intros b. rewrite G1.
    destruct (decide (b ∈ a :: l)) as [|Hb]; [by rewrite !bool_decide_true|]. rewrite !(bool_decide_false (b ∈ _)) by done.
    unfold m1. rewrite lookup_insert_ne by (intros <-; apply Hb; constructor).
    case_bool_decide as E; [subst b; by rewrite lookup_insert_eq|by rewrite lookup_insert_ne].
  - rewrite G2, (r_root _ _ _ _ Hr), lookup_filter_out, bool_decide_false; [done|]. intros Hs%suffix_nil_inv. done.
  - rewrite G4, (r_count _ _ _ _ Hr). unfold node_count. lia.
  - rewrite G5, Hb1, (r_total _ _ _ _ Hr). lia.
Qed.

(** ** Statuses of refusals *)

Lemma step_depth_error n d st : step_depth n d = inl st -> st ≠ Ok.
Proof. unfold step_depth. split_cases; congruence. Qed.

Lemma depth_after_error cs d st : depth_after cs d = inl st -> st ≠ Ok.
Proof.
  revert d; induction cs as [|c cs IH]; intros d; [done|]. cbn [depth_after]. destruct (_ <? _); [intros [= <-]; done|].
  destruct (step_depth c d) eqn:E; [intros [= <-]; by eapply step_depth_error|apply IH].
Qed.

Lemma path_of_error path st : path_of path = inl st -> st ≠ Ok.
Proof.
  unfold path_of. destruct path as [s|]; cbn [fmap option_fmap option_map]; [|intros [= <-]; done].
  destruct (_ <? _); [intros [= <-]; done|]. destruct last; [|intros [= <-]; done].
  destruct depth_after eqn:E; [|done]. intros [= <-]. by eapply depth_after_error.
Qed.

Lemma spec_walk_error (t : Tree) cs p st : spec_walk t cs p = inl st -> st ≠ Ok.
Proof.
  revert p; induction cs as [|c cs IH]; intros p; [done|]. cbn [spec_walk].
  destruct (t !! p) as [[|]|]; [intros [= <-]; done| |intros [= <-]; done]. destruct (is_dot c); [apply IH|].
  destruct (is_dotdot c); [destruct p; [intros [= <-]; done|apply IH]|]. case_bool_decide; [apply IH|intros [= <-]; done].
Qed.

Lemma spec_walk_root_error (t : Tree) cs st : spec_walk_root t cs = inl st -> st ≠ Ok.
Proof. unfold spec_walk_root. destruct (t !! []); [apply spec_walk_error|intros [= <-]; done]. Qed.

Lemma spec_resolve_error (t : Tree) path st : spec_resolve t path = inl st -> st ≠ Ok.
Proof.
  unfold spec_resolve. destruct path_of eqn:E; [intros [= <-]; by eapply path_of_error|].
  destruct spec_walk_root eqn:E2; [intros [= <-]; by eapply spec_walk_root_error|].
  destruct (_ && _); [intros [= <-]; done|done].
Qed.

Lemma spec_target_error path is_directory st : spec_target path is_directory = inl st -> st ≠ Ok.
Proof.
  unfold spec_target. destruct path_of eqn:E; [intros [= <-]; by eapply path_of_error|].
  destruct last; [|intros [= <-]; done]. destruct (_ || _ || _); [intros [= <-]; done|done].
Qed.

Lemma spec_directory_error (t : Tree) cs st : spec_directory t cs = inl st -> st ≠ Ok.
Proof.
  unfold spec_directory. destruct spec_walk_root eqn:E; [intros [= <-]; by eapply spec_walk_root_error|].
  destruct (t !! _) as [[|]|]; [intros [= <-]; done|done|intros [= <-]; done].
Qed.

Lemma spec_new_error (t : Tree) path is_directory st : spec_new t path is_directory = inl st -> st ≠ Ok.
Proof.
  unfold spec_new. destruct (t !! []); [|intros [= <-]; done].
  destruct spec_target as [?|[? ?]] eqn:E; [intros [= <-]; by eapply spec_target_error|].
  destruct (_ <=? _); [intros [= <-]; done|].
  destruct spec_directory as [?|[? ?]] eqn:E2; [intros [= <-]; by eapply spec_directory_error|].
  case_bool_decide; [intros [= <-]; done|]. destruct (_ <=? _); [intros [= <-]; done|done].
Qed.

(** ** New entries *)

Lemma repr_set_heap fs t A F h : repr fs t A F -> owns (set_heap fs h) F -> repr (set_heap fs h) t A F.
Proof. intros [] Ho. by split. Qed.

Lemma repr_finish fs t A F st : repr fs t A F -> repr (finish fs st) t A F.
Proof. intros []. by split. Qed.

(** The same structures and counters. *)
Lemma repr_same fs fs' t A F :
  repr fs t A F -> nodes fs' = nodes fs -> g_root fs' = g_root fs -> g_node_count fs' = g_node_count fs ->
  g_total_file_bytes fs' = g_total_file_bytes fs -> owns fs' F -> repr fs' t A F.
Proof. intros [] E1 E2 E3 E4 Ho. split; try done; rewrite ?E1, ?E2, ?E3, ?E4; done. Qed.

Lemma node_rep_set_parent A p node e a : node_rep A p node (set_parent e a) <-> node_rep A p node e.
Proof. by destruct node. Qed.

Lemma repr_attach fs t A F p names n node a e fs1 :
  repr fs t A F -> tree_ok t -> free_place t p names n -> tree_ok (add_entry t p n node) ->
  Z.of_nat (length names) < RAMFS_MAX_CHILDREN ->
  nodes fs1 = <[a := e]> (nodes fs) -> nodes fs !! a = None -> g_root fs1 = g_root fs ->
  g_node_count fs1 = g_node_count fs + 1 -> g_total_file_bytes fs1 = g_total_file_bytes fs + node_bytes node ->
  owns fs1 F -> e_name e = n -> (forall A' q, node_rep A' q node e) ->
  exists fs2 st, attach_child fs1 (addr A p) a = Some (fs2, st) /\ owns fs2 F /\
  ((st = OutOfMemory /\ allocation_refused (H := H) /\ exists h, fs2 = set_heap fs1 h) \/
   (st = Ok /\ repr fs2 (add_entry t p n node) (<[n :: p := a]> A) F)).
Proof.
  intros Hr Ht Hf Ht' Hlen E1 Ha E2 E3 E4 Ho Hn Hrep. pose proof (fp_directory _ _ _ _ Hf) as Hp.
  destruct (repr_node _ _ _ _ Hr _ _ Hp) as (pe & Hpa & Hpe & _ & _ & Hprep).
  pose proof (proj1 (node_rep_directory _ _ _ _) Hprep) as (Hd & _ & Hch). apply Forall2_length in Hch.
  assert (addr A p ≠ a) as Hne by (intros E; congruence).
  destruct (attach_child_ok fs1 F (addr A p) a pe e) as (fs2 & st & E & Ho2 & Hcase); try done.
  { by rewrite E1, lookup_insert_ne. }
  { by rewrite E1, lookup_insert_eq. }
  { unfold child_count. by rewrite Hch. }
  exists fs2, st. split; [done|]. split; [done|]. destruct Hcase as [Hoom|(-> & h & pe' & Hrel & ->)]; [by left|right].
  split; [done|]. rewrite E1 in *. split; cbn [nodes heap g_root g_node_count g_total_file_bytes set_nodes set_heap] in *.
  - by right.
  - assert (forall x : FileEntry, <[addr A p := pe']> (<[a := x]> (nodes fs)) = <[a := x]> (<[addr A p := pe']> (nodes fs))) as ->
      by (intros; by apply insert_insert_ne).
    rewrite insert_insert_eq. apply (shape_add _ _ _ _ names _ _ _ _ _ pe pe'); try done; [apply Hr|].
    intros A'. by apply node_rep_set_parent.
  - rewrite E2, (r_root _ _ _ _ Hr). by rewrite lookup_insert_ne.
  - rewrite E3, (r_count _ _ _ _ Hr). symmetry. by apply (add_entry_count t Ht _ names).
  - rewrite E4, (r_total _ _ _ _ Hr), (add_entry_bytes t Ht _ names) by done. lia.
  - done.
Qed.

(** The outcomes of [create_entry]: memory is lacking, the specification refuses, or the entry is there. *)
Definition create_outcome fs (t : Tree) A F (path : option (list Z)) (is_directory : bool) fs' (st : Status) (a : Z) : Prop :=
  (st = OutOfMemory /\ allocation_refused (H := H) /\ (exists pn, spec_new t path is_directory = inr pn) /\ repr fs' t A F) \/
  (spec_new t path is_directory = inl st /\ fs' = fs) \/
  (st = Ok /\ exists p n, spec_new t path is_directory = inr (p, n) /\ A !! (n :: p) = None /\
    repr fs' (add_entry t p n (empty_node is_directory)) (<[n :: p := a]> A) F).

Lemma create_entry_ok fs t A F path is_directory :
  repr fs t A F ->
  exists fs' st a, create_entry fs path is_directory = Some (fs', st, a) /\ create_outcome fs t A F path is_directory fs' st a.
Proof.
  intros Hr. unfold create_entry, create_outcome, spec_new, spec_target.
  destruct (Z.eqb_spec (g_root fs) 0) as [E0|E0].
  { apply (repr_empty _ _ _ _ Hr) in E0 as ->. by exists fs, NotInitialized, 0; auto. }
  destruct (t !! []) as [root|] eqn:Eroot; [|by destruct E0; apply (repr_empty _ _ _ _ Hr)].
  rewrite parse_path_ok. destruct (path_of path) as [st|parsed] eqn:Epath; [by exists fs, st, 0; auto|].
  destruct (components parsed) as [|n cs _] eqn:Ec using rev_ind; [by exists fs, RootProtected, 0; auto|].
  rewrite last_snoc, removelast_last. destruct (is_dot n || is_dotdot n) eqn:Edot; [by exists fs, InvalidPath, 0; auto|].
  cbn [orb]. destruct (trailing_separator parsed && negb is_directory) eqn:Etr; [by exists fs, InvalidPath, 0; auto|].
  rewrite (r_count _ _ _ _ Hr). destruct (Z.leb_spec RAMFS_MAX_NODES (node_count t)); [by exists fs, TooManyNodes, 0; auto|].
  pose proof (resolve_parent_ok _ _ _ _ Hr parsed cs n Ec) as Hp. rewrite Ec in Hp.
  destruct (spec_directory t cs) as [st|[p names]] eqn:Ed.
  { destruct Hp as [-> |(parent & pe & -> & Hpe & Hd & ->)]; [by exists fs, st, 0; auto|]. cbn [value].
    rewrite Hpe. cbn [mbind option_bind]. rewrite Hd. by exists fs, NotDirectory, 0; auto. }
  destruct Hp as (pe & -> & Hp & Ht & Hpa & Hpe & Hpnz & _ & Hprep & Hfind). cbn [value]. rewrite Hpe. cbn [mbind option_bind].
  pose proof (proj1 (node_rep_directory _ _ _ _) Hprep) as ((Hd & _) & _ & Hch). rewrite Hd. cbn [negb]. rewrite Hfind.
  cbn [mbind option_bind]. case_bool_decide as Hin.
  { apply (tree_child t Ht _ _ _ Hp) in Hin as [node Hnode].
    destruct (repr_node _ _ _ _ Hr _ _ Hnode) as (_ & _ & _ & Hnz & _). destruct (Z.eqb_spec (addr A (n :: p)) 0); [done|].
    by exists fs, AlreadyExists, 0; auto. }
  cbn [negb Z.eqb]. unfold child_count. rewrite (Forall2_length _ _ _ Hch).
  destruct (Z.leb_spec RAMFS_MAX_CHILDREN (Z.of_nat (length names))); [by exists fs, TooManyChildren, 0; auto|].
  assert (free_place t p names n) as Hf.
  { apply (target_place t Ht path is_directory cs); try done. unfold spec_target. by rewrite Epath, Ec, last_snoc, removelast_last, Edot, Etr. }
  assert (tree_ok (add_entry t p n (empty_node is_directory))) as Ht'.
  { apply (spec_create_ok t Ht path is_directory). unfold spec_create, spec_new, spec_target.
    rewrite Eroot, Epath, Ec, last_snoc, removelast_last, Edot, Etr. cbn [orb].
    destruct (Z.leb_spec RAMFS_MAX_NODES (node_count t)); [lia|]. rewrite Ed, bool_decide_false by done.
    by destruct (Z.leb_spec RAMFS_MAX_CHILDREN (Z.of_nat (length names))); [lia|]. }
  destruct (allocate_entry fs n is_directory) as [fs1 a] eqn:Eal.
  apply (allocate_entry_ok fs F) in Eal; [|apply Hr|by rewrite (r_count _ _ _ _ Hr)].
  destruct Eal as [(-> & Href & h & -> & Ho)|(Ha & Hfresh & h & e & -> & Ho & Hname & Hpar & Hrep)].
  { cbn [Z.eqb]. cbn [set_heap g_node_count]. rewrite (r_count _ _ _ _ Hr).
    destruct (Z.leb_spec RAMFS_MAX_NODES (node_count t)); [lia|].
    exists (set_heap fs h), OutOfMemory, 0. split; [done|]. left. split; [done|]. split; [done|]. split; [by eexists|].
    by apply repr_set_heap. }
  destruct (Z.eqb_spec a 0); [done|].
  destruct (repr_attach fs t A F p names n (empty_node is_directory) a e
    (update fs h (<[a:=e]> (nodes fs)) (g_node_count fs + 1) (g_total_file_bytes fs))) as (fs2 & st & -> & Ho2 & Hcase);
    try done; [cbn; destruct is_directory; cbn; lia|]. cbn [mbind option_bind].
  destruct Hcase as [(-> & Href & h' & ->)|(-> & Hr')].
  - cbn [negb bool_decide decide_rel Status_eq_dec]. rewrite bool_decide_false by done. cbn [negb].
    set (fs3 := set_counters _ _ _). destruct (release_entry_storage_ok fs3 F a e) as (h3 & -> & Ho3).
    { exact Ho2. }
    { apply lookup_insert_eq. }
    eexists _, OutOfMemory, 0. split; [reflexivity|]. left. split; [done|]. split; [done|]. split; [by eexists|].
    apply (repr_same fs); try done; unfold fs3; cbn; [by apply delete_insert_id|].
    rewrite (r_count _ _ _ _ Hr). destruct (Z.ltb_spec 0 (node_count t + 1)); [lia|]. unfold node_count in *. lia.
  - rewrite bool_decide_true by done. cbn [negb]. exists fs2, Ok, a. split; [done|]. right. right. split; [done|].
    exists p, n. split; [done|]. split; [|done]. apply (repr_addr_none _ _ _ _ Hr).
    apply (free_place_none t Ht _ _ _ Hf []).
Qed.

(** ** Writing *)

Lemma write_entry_ok fs F a e A p old data size :
  let bytes := take (Z.to_nat size) (default [] data) in
  owns fs F -> nodes fs !! a = Some e -> node_rep A p (File old) e ->
  size = Z.of_nat (length bytes) -> size <= RAMFS_MAX_FILE_SIZE -> e_size e <= g_total_file_bytes fs ->
  exists fs' st, write_entry fs a data size = Some (fs', st) /\ owns fs' F /\
  ((st = OutOfMemory /\ allocation_refused (H := H) /\ (exists h, fs' = set_heap fs h) /\
      Z.of_nat (length bytes) <= RAMFS_MAX_TOTAL_FILE_BYTES - (g_total_file_bytes fs - Z.of_nat (length old))) \/
   (RAMFS_MAX_TOTAL_FILE_BYTES - (g_total_file_bytes fs - Z.of_nat (length old)) < Z.of_nat (length bytes) /\
      st = StorageLimitReached /\ fs' = fs) \/
   (Z.of_nat (length bytes) <= RAMFS_MAX_TOTAL_FILE_BYTES - (g_total_file_bytes fs - Z.of_nat (length old)) /\
      st = Ok /\ exists h e', fs' = update fs h (<[a := e']> (nodes fs)) (g_node_count fs)
        (g_total_file_bytes fs - Z.of_nat (length old) + Z.of_nat (length bytes)) /\
      e_name e' = e_name e /\ e_parent e' = e_parent e /\ forall A' q, node_rep A' q (File bytes) e')).
Proof.
  intros bytes Ho Ha (Hd & Hcn & Hsz & (rest & Hcont) & Hcap & Hk1 & Hk2 & Hk3) Hlen Hmax Htot.
  pose proof (owns_nonnull _ _ _ _ Ho Ha) as Hnz. unfold write_entry. destruct (Z.eqb_spec a 0); [done|].
  rewrite Ha. cbn [mbind option_bind]. rewrite Hd.
  assert (bool_decide (data = None) && negb (size =? 0) = false) as ->.
  { destruct data; [done|]. destruct (Z.eqb_spec size 0); [done|]. exfalso. unfold bytes in Hlen. cbn in Hlen.
    rewrite take_nil in Hlen. cbn in Hlen. lia. }
  destruct (Z.ltb_spec RAMFS_MAX_FILE_SIZE size); [lia|]. destruct (Z.ltb_spec (g_total_file_bytes fs) (e_size e)); [lia|].
  fold bytes. rewrite Hsz, Hlen.
  destruct (Z.ltb_spec (RAMFS_MAX_TOTAL_FILE_BYTES - (g_total_file_bytes fs - Z.of_nat (length old))) (Z.of_nat (length bytes))).
  { exists fs, StorageLimitReached. split; [done|]. split; [done|]. right. by left. }
  destruct (_ || _) eqn:Eresize.
  - destruct (km_alloc (heap fs) (Z.of_nat (length bytes) + 1) 1) as [h1 c] eqn:E1. unfold RAMFS_MAX_FILE_SIZE in Hmax.
    destruct (km_alloc_cases _ _ _ _ _ _ E1 Ho) as [(-> & Href & Hr1)|(Hc & Hr1)]; [lia|lia| |].
    { cbn. eexists _, OutOfMemory. split; [done|]. split; [done|]. left. split; [done|]. split; [done|]. split; [by eexists|done]. }
    destruct (Z.eqb_spec c 0); [done|]. unfold modify. cbn [set_heap nodes]. rewrite Ha. cbn [mbind option_bind].
    eexists _, Ok. split; [reflexivity|]. split; [|right; right; split; [done|]; split; [done|]; eexists _, _; split; [reflexivity|]].
    + unfold owns. cbn [heap nodes set_counters set_nodes set_heap]. rewrite blocks_insert.
      apply (kfree_if_ok _ _ _ (e_capacity e)). rewrite (blocks_lookup _ _ _ Ha) in Hr1.
      revert Hr1. apply km_rep_proper; [done|]. unfold entry_blocks. cbn. rewrite Hk1.
      destruct (Z.eqb_spec c 0); [done|]. destruct (Z.eqb_spec (e_content_at e) 0); [done|]. cbn. solve_Permutation.
    + split; [done|]. split; [done|]. intros A' q. cbn. repeat split; try done; [by exists []|]. rewrite length_app. cbn. lia.
  - unfold modify. rewrite Ha. cbn [mbind option_bind].
    eexists _, Ok. split; [reflexivity|]. split; [|right; right; split; [done|]; split; [done|]; eexists (heap fs), _; split; [by destruct fs|]].
    + apply (owns_set_nodes fs); [|done]. by rewrite (blocks_same _ _ e).
    + split; [done|]. split; [done|]. intros A' q. cbn. repeat split; try done; [by eexists|].
      unfold overwrite. rewrite !length_app, length_drop. cbn [length]. lia.
Qed.

Lemma shape_put m (t : Tree) A p a e e' old bytes :
  shape m t A -> t !! p = Some (File old) -> A !! p = Some a -> m !! a = Some e ->
  e_name e' = e_name e -> e_parent e' = e_parent e -> (forall A' q, node_rep A' q (File bytes) e') ->
  shape (<[a := e']> m) (<[p := File bytes]> t) A.
Proof.
  intros [Hnodes Haddr Hinj Honto] Hp Ha He E1 E2 Hrep. split; [| |done|].
  - intros q node. destruct (decide (q = p)) as [->|Hq].
    + rewrite lookup_insert_eq. intros [= <-]. exists a, e'. rewrite lookup_insert_eq. split; [done|]. split; [done|].
      split; [|done]. destruct (Hnodes _ _ Hp) as (a0 & e0 & Ha0 & He0 & Hl & _).
      assert (e0 = e) as -> by congruence. unfold link_rep in *. destruct p; by rewrite ?E1, ?E2.
    + rewrite lookup_insert_ne by done. intros Hn. destruct (Hnodes _ _ Hn) as (b & eb & Hb & Heb & Hl & Hr). exists b, eb.
      rewrite lookup_insert_ne; [done|]. intros <-. by apply Hq, (Hinj q p a).
  - intros q b Hq. destruct (Haddr _ _ Hq) as [n Hn]. destruct (decide (q = p)) as [->|Hne]; [by rewrite lookup_insert_eq|].
    rewrite lookup_insert_ne by done. by eexists.
  - intros b Hb. apply Honto. destruct (decide (b = a)) as [->|Hne]; [by eexists|by rewrite lookup_insert_ne in Hb].
Qed.

Lemma bytes_le_total fs t A F p old : repr fs t A F -> t !! p = Some (File old) -> Z.of_nat (length old) <= g_total_file_bytes fs.
Proof.
  intros Hr Hp. rewrite (r_total _ _ _ _ Hr). apply (sum_map_lookup_le node_bytes t p (File old)); [|done].
  apply node_bytes_nonneg.
Qed.

(** [write_entry] on a represented file follows [spec_put]. *)
Lemma write_put_ok fs t A F p node data size :
  let bytes := take (Z.to_nat size) (default [] data) in
  repr fs t A F -> tree_ok t -> t !! p = Some node -> size = Z.of_nat (length bytes) -> size <= RAMFS_MAX_FILE_SIZE ->
  exists fs' st, write_entry fs (addr A p) data size = Some (fs', st) /\
  ((st = OutOfMemory /\ allocation_refused (H := H) /\ (exists t', spec_put t p bytes = inr t') /\ repr fs' t A F) \/
   (spec_put t p bytes = inl st /\ st ≠ Ok /\ fs' = fs) \/
   (st = Ok /\ exists t', spec_put t p bytes = inr t' /\ repr fs' t' A F)).
Proof.
  intros bytes Hr Ht Hp Hlen Hmax. destruct (repr_node _ _ _ _ Hr _ _ Hp) as (e & Ha & He & Hnz & Hl & Hn).
  unfold spec_put. rewrite Hp. destruct node as [old|names].
  2:{ destruct Hn as (Hd & _). exists fs, IsDirectory. unfold write_entry. destruct (Z.eqb_spec (addr A p) 0); [done|].
      rewrite He. cbn [mbind option_bind]. rewrite Hd. split; [done|]. right. by left. }
  destruct (write_entry_ok fs F (addr A p) e A p old data size) as (fs' & st & E & Ho & Hcase);
    [apply Hr|done|done|done|done|destruct Hn as (_ & _ & -> & _); by eapply bytes_le_total|].
  fold bytes in Hcase. rewrite (r_total _ _ _ _ Hr) in Hcase.
  exists fs', st. split; [done|]. destruct Hcase as [(-> & Href & (h & ->) & Hlim)|[(Hlim & -> & ->)|(Hlim & -> & h & e' & -> & E1 & E2 & Hn')]].
  - left. split; [done|]. split; [done|]. destruct (Z.ltb_spec (RAMFS_MAX_TOTAL_FILE_BYTES - (total_bytes t - Z.of_nat (length old))) (Z.of_nat (length bytes))); [lia|]. split; [by eexists|]. by apply repr_set_heap.
  - right. left. destruct (Z.ltb_spec (RAMFS_MAX_TOTAL_FILE_BYTES - (total_bytes t - Z.of_nat (length old))) (Z.of_nat (length bytes))); [done|lia].
  - right. right. split; [done|]. destruct (Z.ltb_spec (RAMFS_MAX_TOTAL_FILE_BYTES - (total_bytes t - Z.of_nat (length old))) (Z.of_nat (length bytes))); [lia|]. eexists. split; [done|].
    split; cbn [update nodes heap g_root g_node_count g_total_file_bytes set_counters set_nodes set_heap]; [| | | | |done].
    + right. apply (put_ok t Ht _ old); [done|lia|lia].
    + by apply (shape_put _ _ _ _ _ e _ old); [apply Hr| | | | | |].
    + apply Hr.
    + rewrite (r_count _ _ _ _ Hr). unfold node_count. by rewrite map_size_insert_Some by (by eexists).
    + unfold total_bytes. rewrite (sum_map_insert _ _ _ _ _ Hp). cbn [node_bytes]. lia.
Qed.

(** Taking out an entry just made leads back to the tree before. *)
Lemma remove_add t p names n node :
  tree_ok t -> free_place t p names n -> remove_subtree (add_entry t p n node) (n :: p) = t.
Proof.
  intros Ht Hf. pose proof (free_place_none t Ht _ _ _ Hf) as Hnone. pose proof (cons_ne n p) as Hpn. apply map_eq. intros q.
  rewrite remove_subtree_lookup. case_bool_decide as Hs.
  { destruct Hs as [r ->]. by rewrite Hnone. }
  assert (q ≠ n :: p) as Hq by (by intros ->). cbn [head tail default].
  rewrite update_names_lookup, !add_entry_lookup, !update_names_lookup.
  rewrite (bool_decide_false (p = n :: p)), (bool_decide_false (q = n :: p)), (bool_decide_true (p = p)) by done.
  case_bool_decide as E; [subst q|done].
  rewrite (fp_directory _ _ _ _ Hf). f_equal. f_equal. rewrite filter_app.
  rewrite filter_keep by (intros x Hx ->; by apply (fp_new _ _ _ _ Hf)).
  rewrite filter_cons_False by (by intros []). by rewrite filter_nil, app_nil_r.
Qed.

(** ** Entry points: initialisation, creation, writing, removal *)

(** How an entry point may end: out of memory (only when an allocation is
    refused) or refused by the specification, with the same tree, or done. *)
Definition outcome fs' (t : Tree) F (specified : Status + Tree) (st : Status) : Prop :=
  g_last_status fs' = st /\
  ((st = OutOfMemory /\ allocation_refused (H := H) /\ represents fs' t F) \/
   (specified = inl st /\ st ≠ Ok /\ represents fs' t F) \/
   (st = Ok /\ exists t', specified = inr t' /\ represents fs' t' F)).

Lemma represents_finish fs t F st : represents fs t F -> represents (finish fs st) t F.
Proof. intros [A Hr]. exists A. by apply repr_finish. Qed.

Lemma outcome_refuse fs t F specified st :
  represents fs t F -> specified = inl st -> st ≠ Ok -> outcome (finish fs st) t F specified st.
Proof. intros Hr E Hst. split; [done|]. right. left. split; [done|]. split; [done|]. by apply represents_finish. Qed.

Lemma outcome_oom fs t F specified :
  represents fs t F -> allocation_refused (H := H) -> outcome (finish fs OutOfMemory) t F specified OutOfMemory.
Proof. intros Hr Href. split; [done|]. left. split; [done|]. split; [done|]. by apply represents_finish. Qed.

Lemma outcome_done fs t F specified t' :
  represents fs t' F -> specified = inr t' -> outcome (finish fs Ok) t F specified Ok.
Proof. intros Hr E. split; [done|]. right. right. split; [done|]. exists t'. split; [done|]. by apply represents_finish. Qed.

Lemma represents_repr fs t A F : repr fs t A F -> represents fs t F.
Proof. intros Hr. by exists A. Qed.

Hint Resolve represents_repr : core.

Lemma ramfsp_initialize_ok fs t F :
  represents fs t F -> exists fs' st, initialize_ramfs fs = (fs', st) /\ outcome fs' t F (spec t Initialize) st.
Proof.
  intros [A Hr]. unfold initialize_ramfs. destruct (Z.eqb_spec (g_root fs) 0) as [E|E]; cbn [negb].
  2:{ exists (finish fs Ok), Ok. split; [done|]. apply (outcome_done _ _ _ _ t); [by exists A|]. cbn [spec].
      destruct (t !! []) eqn:Et; [done|]. by apply (repr_empty _ _ _ _ Hr) in Et. }
  apply (repr_empty _ _ _ _ Hr) in E. cbn [spec]. rewrite E.
  assert (t = ∅) as ->.
  { destruct (r_tree _ _ _ _ Hr) as [|Ht]; [done|]. destruct (tree_root_some t Ht). congruence. }
  assert (nodes fs = ∅) as Em.
  { apply map_empty. intros a. destruct (nodes fs !! a) as [e|] eqn:Ea; [|done]. exfalso.
    destruct (sh_onto _ _ _ (r_shape _ _ _ _ Hr) a ltac:(by eexists)) as [p Hp].
    apply (sh_addr _ _ _ (r_shape _ _ _ _ Hr)) in Hp. rewrite lookup_empty in Hp. by destruct Hp. }
  assert (g_node_count fs = 0) as Ec by (rewrite (r_count _ _ _ _ Hr); done).
  destruct (allocate_entry fs [SLASH] true) as [fs1 a] eqn:Eal.
  apply (allocate_entry_ok fs F) in Eal; [|apply Hr|rewrite Ec; done].
  destruct Eal as [(-> & Href & h & -> & Ho)|(Ha & Hfresh & h & e & -> & Ho & Hname & Hpar & Hrep)].
  - cbn [Z.eqb]. cbn [set_heap set_root g_node_count]. rewrite Ec. cbn.
    eexists _, OutOfMemory. split; [reflexivity|]. apply outcome_oom; [|done]. exists A.
    apply (repr_same fs); try done. cbn. rewrite (r_root _ _ _ _ Hr), (repr_addr_none _ _ _ _ Hr); [done|]. apply lookup_empty.
  - destruct (Z.eqb_spec a 0); [done|]. eexists _, Ok. split; [reflexivity|].
    apply (outcome_done _ _ _ _ {[ [] := Directory [] ]}); [|done]. exists {[ [] := a ]}.
    split; cbn [update nodes heap g_root g_node_count g_total_file_bytes set_root set_counters set_nodes set_heap];
      [right; apply tree_ok_root| |by rewrite lookup_singleton_eq|by rewrite Ec| |done].
    + rewrite Em. split.
      * intros p node Hp. apply lookup_singleton_Some in Hp as [<- <-]. exists a, e.
        rewrite lookup_singleton_eq, lookup_insert_eq. split; [done|]. split; [done|]. split; [done|]. apply Hrep.
      * intros p b Hp. apply lookup_singleton_Some in Hp as [<- <-]. by rewrite lookup_singleton_eq.
      * intros p q b Hp Hq. apply lookup_singleton_Some in Hp as [<- <-], Hq as [<- _]. done.
      * intros b Hb. exists []. rewrite lookup_insert_is_Some, lookup_empty in Hb. destruct Hb as [<-|[_ []]]; [|done].
        by rewrite lookup_singleton_eq.
    + rewrite (r_total _ _ _ _ Hr). done.
Qed.

Lemma create_at_ok fs t F path is_directory :
  represents fs t F ->
  exists fs' st a, (if is_directory : bool then create_directory_at fs path else create_file_at fs path) = Some (fs', st, a) /\
    outcome fs' t F (spec_create t path is_directory) st.
Proof.
  intros [A Hr]. destruct (create_entry_ok fs t A F path is_directory Hr) as (fs' & st & a & E & Hout).
  exists (finish fs' st), st, a. split; [unfold create_file_at, create_directory_at; by destruct is_directory; rewrite E|].
  unfold spec_create. destruct Hout as [(-> & Href & _ & Hr')|[(E' & ->)|(-> & p & n & E' & _ & Hr')]].
  - apply outcome_oom; eauto.
  - apply outcome_refuse; [eauto|by rewrite E'|by eapply spec_new_error].
  - eapply outcome_done; [eauto|by rewrite E'].
Qed.

Definition write_args_ok (data : option (list Z)) (size : Z) : Prop :=
  0 <= size /\ forall bytes, data = Some bytes -> size <= Z.of_nat (length bytes).

Lemma write_new_ok fs1 t A' F p names n data size a :
  let bytes := take (Z.to_nat size) (default [] data) in
  repr fs1 (add_entry t p n (File [])) A' F -> tree_ok t -> free_place t p names n -> A' !! (n :: p) = Some a ->
  tree_ok (add_entry t p n (File [])) -> size = Z.of_nat (length bytes) -> size <= RAMFS_MAX_FILE_SIZE ->
  exists fs2 status, write_entry fs1 a data size = Some (fs2, status) /\
  ((status = Ok /\ exists t', spec_put (add_entry t p n (File [])) (n :: p) bytes = inr t' /\ represents fs2 t' F) \/
   (status ≠ Ok /\
    ((status = OutOfMemory /\ allocation_refused (H := H)) \/ spec_put (add_entry t p n (File [])) (n :: p) bytes = inl status) /\
    exists e fs3 fs4, nodes fs2 !! a = Some e /\ detach_child fs2 (e_parent e) a = Some fs3 /\
      destroy_subtree destroy_fuel fs3 a = Some fs4 /\ represents fs4 t F)).
Proof.
  intros bytes Hr Ht Hf Ha Ht' Hlen Hmax.
  assert (add_entry t p n (File []) !! (n :: p) = Some (File [])) as Hp by (rewrite add_entry_lookup; by rewrite bool_decide_true).
  destruct (write_put_ok fs1 _ A' F (n :: p) _ data size Hr Ht' Hp Hlen Hmax) as (fs2 & st & E & Hcase). fold bytes in Hcase.
  assert (addr A' (n :: p) = a) as Eaddr by (unfold addr; by rewrite Ha). rewrite Eaddr in E. exists fs2, st. split; [done|].
  assert (forall fs2, repr fs2 (add_entry t p n (File [])) A' F -> exists e fs3 fs4, nodes fs2 !! a = Some e /\
    detach_child fs2 (e_parent e) a = Some fs3 /\ destroy_subtree destroy_fuel fs3 a = Some fs4 /\ represents fs4 t F) as Hback.
  { intros fs2' Hr2. destruct (repr_node _ _ _ _ Hr2 _ _ Hp) as (e & _ & He & _). 
    destruct (detach_destroy_ok fs2' _ A' F n p e Hr2 Ht' ltac:(by eexists) He) as (fs3 & fs4 & E3 & E4 & Hr4).
    rewrite Eaddr in *. exists e, fs3, fs4. repeat (split; [done|]). by rewrite (remove_add t p names n) in Hr4. }
  destruct Hcase as [(-> & Href & _ & Hr2)|[(E2 & Hst & ->)|(-> & t' & E2 & Hr2)]].
  - right. split; [done|]. split; [by left|]. by apply Hback.
  - right. split; [done|]. split; [by right|]. by apply Hback.
  - left. eauto.
Qed.

Lemma write_file_data_ok fs t F path data size create_if_missing :
  represents fs t F -> write_args_ok data size ->
  exists fs' st, write_file_data fs path data size create_if_missing = Some (fs', st) /\
    outcome fs' t F (spec_write t path data size create_if_missing) st.
Proof.
  intros [A Hr] [Hs0 Hs]. unfold write_file_data, spec_write. destruct (Z.eqb_spec (g_root fs) 0) as [E0|E0].
  { apply (repr_empty _ _ _ _ Hr) in E0 as ->. eexists _, NotInitialized. split; [done|]. by apply outcome_refuse; eauto. }
  destruct (t !! []) as [root|] eqn:Eroot; [|by destruct E0; apply (repr_empty _ _ _ _ Hr)].
  assert (tree_ok t) as Ht by (destruct (r_tree _ _ _ _ Hr) as [->|]; [by rewrite lookup_empty in Eroot|done]).
  destruct (bool_decide (data = None) && negb (size =? 0)) eqn:Earg.
  { eexists _, InvalidArgument. split; [done|]. by apply outcome_refuse; eauto. }
  destruct (Z.ltb_spec RAMFS_MAX_FILE_SIZE size) as [|Hmax].
  { eexists _, FileTooLarge. split; [done|]. by apply outcome_refuse; eauto. }
  assert (size = Z.of_nat (length (take (Z.to_nat size) (default [] data)))) as Hlen.
  { destruct data as [d|]; [change (default [] (Some d)) with d|change (default [] None) with (@nil Z)].
    - specialize (Hs d eq_refl). rewrite length_take. lia.
    - rewrite bool_decide_true in Earg by done. destruct (Z.eqb_spec size 0); [|done]. by subst size. }
  rewrite (resolve_path_ok fs t A F Hr). destruct (spec_resolve t path) as [st|p] eqn:Er.
  - destruct (bool_decide (st = NotFound) && create_if_missing) eqn:Ecreate.
    + destruct (create_entry_ok fs t A F path false Hr) as (fs1 & st1 & a & -> & Hout). cbn [mbind option_bind].
      destruct Hout as [(-> & Href & _ & Hr1)|[(En & ->)|(-> & p & n & En & _ & Hr1)]].
      * rewrite bool_decide_false by done. cbn [negb]. eexists _, OutOfMemory. split; [done|]. apply outcome_oom; eauto.
      * pose proof (spec_new_error _ _ _ _ En) as Hne. rewrite bool_decide_false by done. cbn [negb].
        eexists _, st1. split; [done|]. rewrite En. apply outcome_refuse; eauto.
      * rewrite bool_decide_true by done. cbn [negb]. destruct (spec_new_ok t Ht _ _ _ _ En) as (names & Hf & _).
        assert (tree_ok (add_entry t p n (File []))) as Ht1.
        { apply (spec_create_ok t Ht path false). unfold spec_create. by rewrite En. }
        destruct (write_new_ok fs1 t _ F p names n data size a Hr1 Ht Hf (lookup_insert_eq _ _ _) Ht1 Hlen Hmax)
          as (fs2 & st2 & -> & [(-> & t' & Ep & Hr2)|(Hst & Hwhy & e & fs3 & fs4 & He & E3 & E4 & Hr4)]); cbn [mbind option_bind].
        -- rewrite bool_decide_true by done. cbn [negb andb]. eexists _, Ok. split; [done|]. eapply outcome_done; [done|]. by rewrite En.
        -- rewrite bool_decide_false by done. cbn [negb andb]. rewrite He. cbn [mbind option_bind]. rewrite E3. cbn [mbind option_bind]. rewrite E4. cbn [mbind option_bind].
           eexists _, st2. split; [done|]. rewrite En.
           destruct Hwhy as [(-> & Href)|Ep]; [by apply outcome_oom|by apply outcome_refuse].
    + cbn [mbind option_bind]. pose proof (spec_resolve_error _ _ _ Er) as Hst. rewrite bool_decide_false by done. cbn [negb].
      eexists _, st. split; [done|]. apply outcome_refuse; eauto.
  - cbn [mbind option_bind]. rewrite bool_decide_true by done. cbn [negb].
    destruct (spec_resolve_node _ _ _ _ Hr _ _ Er) as [node Hp].
    destruct (write_put_ok fs t A F p node data size Hr Ht Hp Hlen Hmax) as (fs2 & st2 & -> & Hcase). cbn [mbind option_bind].
    rewrite andb_false_r. eexists _, st2. split; [done|].
    destruct Hcase as [(-> & Href & _ & Hr2)|[(E2 & Hst & ->)|(-> & t' & E2 & Hr2)]].
    + apply outcome_oom; eauto.
    + apply outcome_refuse; eauto.
    + eapply outcome_done; eauto.
Qed.

Lemma remove_path_ok fs t F path recursive :
  represents fs t F ->
  exists fs' st, remove_path fs path recursive = Some (fs', st) /\ outcome fs' t F (spec_remove t path recursive) st.
Proof.
  intros [A Hr]. unfold remove_path, spec_remove. rewrite (resolve_path_ok fs t A F Hr).
  destruct (spec_resolve t path) as [st|p] eqn:Er.
  { eexists _, st. split; [done|]. apply outcome_refuse; eauto. by eapply spec_resolve_error. }
  destruct (spec_resolve_node _ _ _ _ Hr _ _ Er) as [node Hp].
  assert (tree_ok t) as Ht by (destruct (r_tree _ _ _ _ Hr) as [->|]; [by rewrite lookup_empty in Hp|done]).
  destruct (repr_node _ _ _ _ Hr _ _ Hp) as (e & _ & He & _ & _ & Hn). rewrite He. cbn [mbind option_bind].
  assert ((addr A p =? g_root fs) = bool_decide (p = [])) as ->.
  { rewrite (r_root _ _ _ _ Hr). fold (addr A []). case_bool_decide as E; [subst; apply Z.eqb_refl|].
    apply Z.eqb_neq. intros E2. apply E. eapply (repr_inj _ _ _ _ Hr); [by eexists| |done]. by destruct (tree_root_some t Ht) as [? ->]. }
  case_bool_decide as Ep; [eexists _, RootProtected; split; [done|]; apply outcome_refuse; eauto|]. rewrite Hp.
  destruct p as [|old up]; [done|].
  destruct (detach_destroy_ok fs t A F old up e Hr Ht ltac:(by eexists) He) as (fs1 & fs2 & E1 & E2 & Hr2).
  assert (outcome (finish fs2 Ok) t F (inr (remove_subtree t (old :: up))) Ok) as Hdone by (by eapply outcome_done).
  assert (e_is_directory e && negb (child_count e =? 0) = match node with Directory (_ :: _) => true | _ => false end) as ->.
  { destruct node as [b|[|x names]]; [by destruct Hn as (-> & _)| |]; destruct Hn as (-> & _ & _ & Hf & _); unfold child_count;
      rewrite (Forall2_length _ _ _ Hf); done. }
  destruct node as [b|[|x names]]; cbn [andb]; try (rewrite E1; cbn [mbind option_bind]; rewrite E2; by eexists _, Ok).
  destruct recursive; cbn [negb].
  - rewrite E1. cbn [mbind option_bind]. rewrite E2. by eexists _, Ok.
  - eexists _, DirectoryNotEmpty. split; [done|]. apply outcome_refuse; eauto.
Qed.

(** ** Copying *)

(** A structure that was never linked in can be taken back. *)
Lemma destroy_fresh_ok fs fs2 t A F a k e2 :
  repr fs t A F -> nodes fs !! a = None -> owns fs2 F -> nodes fs2 = <[a := e2]> (nodes fs) ->
  e_children e2 = [] -> 0 <= e_size e2 -> bytes_at (nodes fs2) a = k ->
  g_root fs2 = g_root fs -> g_node_count fs2 = g_node_count fs + 1 -> g_total_file_bytes fs2 = g_total_file_bytes fs + k ->
  exists fs3, destroy_subtree destroy_fuel fs2 a = Some fs3 /\ repr fs3 t A F.
Proof.
  intros Hr Hfresh Ho Em Hch Hsz Eb E1 E2 E3.
  assert (0 <= total_bytes t) as Hnn by (apply sum_map_nonneg; intros; apply node_bytes_nonneg).
  destruct (destroy_leaf fs2 F a e2 256) as (fs3 & Ed & Ho3 & G1 & G2 & G3 & G4 & G5); try done.
  - rewrite Em. apply lookup_insert_eq.
  - rewrite Em. intros b eb. destruct (decide (b = a)) as [->|Hne]; [rewrite lookup_insert_eq; by intros [= <-]|].
    rewrite lookup_insert_ne by done. apply (repr_sizes _ _ _ _ Hr).
  - rewrite E2, (r_count _ _ _ _ Hr). unfold node_count. lia.
  - rewrite E3, Eb, (r_total _ _ _ _ Hr). lia.
  - exists fs3. split; [exact Ed|]. apply (repr_same fs); try done.
    + apply map_eq. intros b. rewrite G1, Em. destruct (decide (b = a)) as [->|Hne].
      * by rewrite bool_decide_true by constructor.
      * rewrite bool_decide_false by (by intros ->%list_elem_of_singleton). by rewrite lookup_insert_ne.
    + congruence.
    + rewrite G4, E2. cbn [length]. lia.
    + rewrite G5, E3. unfold bytes_in. cbn. rewrite Eb. lia.
Qed.

Lemma copy_file_ok fs t F source destination :
  represents fs t F ->
  exists fs' st, copy_file fs source destination = Some (fs', st) /\ outcome fs' t F (spec_copy t source destination) st.
Proof.
  intros [A Hr]. unfold copy_file, spec_copy. destruct (Z.eqb_spec (g_root fs) 0) as [E0|E0].
  { apply (repr_empty _ _ _ _ Hr) in E0 as ->. eexists _, NotInitialized. split; [done|]. by apply outcome_refuse; eauto. }
  destruct (t !! []) as [root|] eqn:Eroot; [|by destruct E0; apply (repr_empty _ _ _ _ Hr)].
  assert (tree_ok t) as Ht by (destruct (r_tree _ _ _ _ Hr) as [->|]; [by rewrite lookup_empty in Eroot|done]).
  rewrite (resolve_path_ok fs t A F Hr). destruct (spec_resolve t source) as [st|sp] eqn:Er.
  { eexists _, st. split; [done|]. apply outcome_refuse; eauto. by eapply spec_resolve_error. }
  destruct (spec_resolve_node _ _ _ _ Hr _ _ Er) as [node Hsp].
  destruct (repr_node _ _ _ _ Hr _ _ Hsp) as (se & _ & Hse & _ & _ & Hsn). rewrite Hse, Hsp. cbn [mbind option_bind].
  destruct node as [bytes|names0].
  2:{ destruct Hsn as (-> & _). eexists _, IsDirectory. split; [done|]. by apply outcome_refuse; eauto. }
  pose proof Hsn as (Hd & _ & Hssz & (rest & Hscont) & _). rewrite Hd.
  rewrite (resolve_destination_ok fs t A F Hr). destruct (spec_target destination false) as [st|[cs n]] eqn:Et.
  { eexists _, st. split; [done|]. apply outcome_refuse; eauto. by eapply spec_target_error. }
  destruct (spec_directory t cs) as [st|[p names]] eqn:Edir.
  { eexists _, st. split; [done|]. apply outcome_refuse; eauto. by eapply spec_directory_error. }
  destruct (spec_directory_ok t Ht _ _ _ Edir) as (Hp & _).
  destruct (repr_node _ _ _ _ Hr _ _ Hp) as (pe & Hpa & Hpe & _ & _ & Hprep). rewrite Hpe. cbn [mbind option_bind].
  case_bool_decide as Hin.
  { apply (tree_child t Ht _ _ _ Hp) in Hin as [nn Hnn]. destruct (repr_node _ _ _ _ Hr _ _ Hnn) as (_ & _ & _ & Hnz & _).
    destruct (Z.eqb_spec (addr A (n :: p)) 0); [done|]. eexists _, AlreadyExists. split; [done|]. by apply outcome_refuse; eauto. }
  cbn [Z.eqb negb]. rewrite (r_count _ _ _ _ Hr). destruct (Z.leb_spec RAMFS_MAX_NODES (node_count t)) as [|Hcnt].
  { eexists _, TooManyNodes. split; [done|]. by apply outcome_refuse; eauto. }
  pose proof (proj1 (node_rep_directory _ _ _ _) Hprep) as (_ & _ & Hch). unfold child_count. rewrite (Forall2_length _ _ _ Hch).
  destruct (Z.leb_spec RAMFS_MAX_CHILDREN (Z.of_nat (length names))) as [|Hchild].
  { eexists _, TooManyChildren. split; [done|]. by apply outcome_refuse; eauto. }
  rewrite (r_total _ _ _ _ Hr), Hssz. destruct (Z.ltb_spec (RAMFS_MAX_TOTAL_FILE_BYTES - total_bytes t) (Z.of_nat (length bytes))) as [|Htot].
  { eexists _, StorageLimitReached. split; [done|]. by apply outcome_refuse; eauto. }
  assert (free_place t p names n) as Hf by (by eapply target_place).
  pose proof (to_file t Ht _ _ Hsp) as Hmax.
  assert (tree_ok (add_entry t p n (File bytes))) as Ht'.
  { apply (add_entry_ok t Ht p names n); [done|lia|lia|right; by eexists|cbn; lia]. }
  destruct (allocate_entry fs n false) as [fs1 a] eqn:Eal.
  apply (allocate_entry_ok fs F) in Eal; [|apply Hr|by rewrite (r_count _ _ _ _ Hr)].
  destruct Eal as [(-> & Href & h & -> & Ho)|(Ha & Hfresh & h & e & -> & Ho & Hname & Hpar & Hrep)].
  { cbn [Z.eqb]. cbn [set_heap g_node_count]. rewrite (r_count _ _ _ _ Hr). destruct (Z.leb_spec RAMFS_MAX_NODES (node_count t)); [lia|].
    eexists _, OutOfMemory. split; [done|]. apply outcome_oom; [|done]. exists A. by apply repr_set_heap. }
  destruct (Z.eqb_spec a 0); [done|]. set (fs1 := update _ _ _ _ _) in *.
  assert (nodes fs1 !! addr A sp = Some se) as Hse1.
  { unfold fs1. cbn [update nodes set_counters set_nodes]. rewrite lookup_insert_ne; [done|]. intros E. congruence. }
  rewrite Hse1. cbn [mbind option_bind].
  assert (take (Z.to_nat (Z.of_nat (length bytes))) (default [] (Some (e_content se))) = bytes) as Etake.
  { rewrite Nat2Z.id. change (default [] (Some (e_content se))) with (e_content se). rewrite Hscont. apply take_app_length. }
  pose proof (write_entry_ok fs1 F a e A [] [] (Some (e_content se)) (e_size se)) as Hw. rewrite Hssz in Hw.
  cbv zeta in Hw. rewrite Etake in Hw. cbn [fs1 update nodes g_node_count g_total_file_bytes set_counters set_nodes set_heap length] in Hw.
  pose proof (Hrep A []) as (_ & _ & Hesz & _ & _ & _ & Hech & _). cbn [length] in Hesz.
  assert (0 <= total_bytes t) as Hnn by (apply sum_map_nonneg; intros; apply node_bytes_nonneg).
  destruct Hw as (fs2 & st2 & E2 & Ho2 & Hcase); [done|apply lookup_insert_eq|apply (Hrep A [])|done|done|rewrite Hesz, (r_total _ _ _ _ Hr); lia|].
  rewrite Hssz, E2. cbn [mbind option_bind].
  destruct Hcase as [(-> & Href & (h2 & ->) & _)|[(Hlim & _)|(_ & -> & h2 & e2 & -> & En2 & Ep2 & Hrep2)]].
  - rewrite bool_decide_false by done. cbn [negb].
    destruct (destroy_fresh_ok fs (set_heap fs1 h2) t A F a 0 e Hr Hfresh Ho2 eq_refl) as (fs3 & -> & Hr3); try done.
    { lia. }
    { unfold fs1. cbn. unfold bytes_at. rewrite lookup_insert_eq. unfold file_bytes_of. rewrite Hesz. by destruct (e_is_directory e). }
    { unfold fs1. cbn. lia. }
    cbn [mbind option_bind]. eexists _, OutOfMemory. split; [done|]. apply outcome_oom; eauto.
  - rewrite (r_total _ _ _ _ Hr) in Hlim. lia.
  - rewrite bool_decide_true by done. cbn [negb]. rewrite insert_insert_eq in *. set (fs2 := update fs1 h2 _ _ _) in *.
    destruct (repr_attach fs t A F p names n (File bytes) a e2 fs2) as (fs3 & st3 & -> & Ho3 & Hcase); try done.
    { unfold fs2. cbn. lia. }
    { congruence. }
    cbn [mbind option_bind]. destruct Hcase as [(-> & Href & h3 & ->)|(-> & Hr3)].
    + rewrite bool_decide_false by done. cbn [negb]. pose proof (Hrep2 A []) as (Hdir2 & _ & Hsz2 & _ & _ & _ & Hch2 & _).
      destruct (destroy_fresh_ok fs (set_heap fs2 h3) t A F a (Z.of_nat (length bytes)) e2 Hr Hfresh Ho3 eq_refl Hch2)
        as (fs4 & -> & Hr4); try done.
      { lia. }
      { unfold fs2. cbn. unfold bytes_at. rewrite lookup_insert_eq. unfold file_bytes_of. by rewrite Hdir2. }
      { unfold fs2. cbn. lia. }
      cbn [mbind option_bind]. eexists _, OutOfMemory. split; [done|]. apply outcome_oom; eauto.
    + rewrite bool_decide_true by done. cbn [negb]. eexists _, Ok. split; [done|]. eapply outcome_done; eauto.
Qed.

End proof.
