(* ===== verification/RamFsMove.v ===== *)
(** * Moving in the RAM file system

    [move_path] refines [spec_move]; with the results of RamFsProof.v every entry
    point refines its specification, and so does every sequence of calls. *)

From S2P Require Import Prelude KernelHeap KernelMemory RamFs RamFsSpec RamFsRepr RamFsProof.

Section proof.
Context {H : Type} `{KernelMemory H}.
Implicit Types (fs : RamFs H) (m : gmap Z FileEntry) (A : gmap (list (list Z)) Z) (F : list (Z * Z)).

(** ** Walks to the root *)

Section walks.
Context fs t A F (Hr : repr fs t A F) (Ht : tree_ok t).

Lemma repr_parent n up : is_Some (t !! (n :: up)) ->
  exists e, nodes fs !! addr A (n :: up) = Some e /\ addr A (n :: up) ≠ 0 /\ addr A (n :: up) ≠ g_root fs /\
    e_name e = n /\ e_parent e = addr A up /\ is_Some (t !! up).
Proof.
  intros [node Hp]. destruct (repr_node _ _ _ _ Hr _ _ Hp) as (e & _ & He & Hnz & [Hn Hup] & _). exists e.
  split; [done|]. split; [done|]. split; [|split; [done|split; [unfold addr; by rewrite Hup|by apply (tree_upward t Ht [n]); eexists]]].
  rewrite (r_root _ _ _ _ Hr). fold (addr A []). intros E. eapply (repr_inj _ _ _ _ Hr) in E; [done|by eexists|].
  by destruct (tree_root_some t Ht) as [? ->].
Qed.

Lemma repr_root : exists e, nodes fs !! addr A [] = Some e /\ addr A [] ≠ 0 /\ addr A [] = g_root fs /\ e_parent e = 0.
Proof.
  destruct (tree_root_some t Ht) as [node Hroot]. destruct (repr_node _ _ _ _ Hr _ _ Hroot) as (e & _ & He & Hnz & Hl & _).
  exists e. split; [done|]. split; [done|]. split; [by rewrite (r_root _ _ _ _ Hr)|done].
Qed.

Lemma is_same_or_descendant_ok fuel q p :
  (length q + 2 <= fuel)%nat -> is_Some (t !! q) -> is_Some (t !! p) ->
  is_same_or_descendant fuel fs (addr A q) (addr A p) = Some (bool_decide (suffix p q)).
Proof.
  revert q; induction fuel as [|fuel IH]; intros q Hf Hq Hp; [lia|]. cbn [is_same_or_descendant].
  destruct (Z.eqb_spec (addr A q) (addr A p)) as [E|E].
  { apply (repr_inj _ _ _ _ Hr) in E as ->; [|done|done]. rewrite bool_decide_true by done.
    destruct Hp as [np Hnp]. destruct (repr_node _ _ _ _ Hr _ _ Hnp) as (_ & _ & _ & Hz & _).
    by destruct (Z.eqb_spec (addr A p) 0). }
  destruct q as [|n q].
  - destruct repr_root as (e & -> & Hz & _ & Hpar). destruct (Z.eqb_spec (addr A []) 0); [done|]. cbn [mbind option_bind].
    rewrite Hpar. destruct fuel as [|fuel]; [cbn in Hf; lia|]. cbn. f_equal. symmetry. apply bool_decide_eq_false.
    intros Hs%suffix_nil_inv. by subst p.
  - destruct (repr_parent n q Hq) as (e & -> & Hz & _ & _ & Hpar & Hq'). destruct (Z.eqb_spec (addr A (n :: q)) 0); [done|].
    cbn [mbind option_bind]. rewrite Hpar, IH by (try done; cbn in Hf; lia). f_equal. apply bool_decide_ext.
    rewrite suffix_cons_iff. split; [by right|]. intros [->|]; done.
Qed.

Lemma entry_depth_ok fuel q :
  (length q + 1 <= fuel)%nat -> is_Some (t !! q) -> entry_depth fuel fs (addr A q) = Some (Z.of_nat (length q)).
Proof.
  revert q; induction fuel as [|fuel IH]; intros q Hf Hq; [lia|]. cbn [entry_depth]. destruct q as [|n q].
  - destruct repr_root as (e & _ & _ & -> & _). by rewrite Z.eqb_refl, orb_true_r.
  - destruct (repr_parent n q Hq) as (e & He & Hz & Hg & _ & Hpar & Hq'). rewrite He.
    destruct (Z.eqb_spec (addr A (n :: q)) 0); [done|]. destruct (Z.eqb_spec (addr A (n :: q)) (g_root fs)); [done|].
    cbn [orb mbind option_bind]. rewrite Hpar, IH by (try done; cbn in Hf; lia). cbn [mbind option_bind length]. f_equal. lia.
Qed.

Lemma entry_path_length_loop_ok fuel q :
  (length q + 1 <= fuel)%nat -> is_Some (t !! q) -> entry_path_length_loop fuel fs (addr A q) = Some (path_length q).
Proof.
  revert q; induction fuel as [|fuel IH]; intros q Hf Hq; [lia|]. cbn [entry_path_length_loop]. destruct q as [|n q].
  - destruct repr_root as (e & _ & _ & -> & _). by rewrite Z.eqb_refl, orb_true_r.
  - destruct (repr_parent n q Hq) as (e & He & Hz & Hg & Hn & Hpar & Hq'). rewrite He.
    destruct (Z.eqb_spec (addr A (n :: q)) 0); [done|]. destruct (Z.eqb_spec (addr A (n :: q)) (g_root fs)); [done|].
    cbn [orb mbind option_bind]. rewrite Hpar, IH by (try done; cbn in Hf; lia). cbn [mbind option_bind]. f_equal.
    rewrite path_length_cons, Hn. lia.
Qed.

Lemma subtree_fits_at_ok fuel q depth len :
  is_Some (t !! q) -> 1 <= Z.of_nat fuel -> RAMFS_MAX_PATH_DEPTH + 2 <= depth + Z.of_nat fuel ->
  subtree_fits_at fuel fs (addr A q) depth len = Some (spec_fits fuel t q depth len).
Proof.
  revert q depth len; induction fuel as [|fuel IH]; intros q depth len [node Hq] H1 Hf; [lia|].
  cbn [subtree_fits_at spec_fits]. destruct (repr_node _ _ _ _ Hr _ _ Hq) as (e & _ & He & Hnz & _ & Hn).
  destruct (Z.eqb_spec (addr A q) 0); [done|]. destruct (Z.ltb_spec RAMFS_MAX_PATH_DEPTH depth); [done|].
  destruct (Z.ltb_spec RAMFS_MAX_PATH_LENGTH len) as [|Hlen]; [done|]. rewrite He. cbn [mbind option_bind]. rewrite Hq.
  destruct node as [bytes|names]; [by destruct Hn as (_ & _ & _ & _ & _ & _ & -> & _)|].
  apply node_rep_directory in Hn as (_ & _ & Hch).
  assert (forall n, n ∈ names -> is_Some (t !! (n :: q))) as Hsome by (intros n1 Hn1; by apply (tree_child t Ht _ _ _ Hq)).
  clear Hq He. induction Hch as [|c n1 cs ns Hc _ IHch]; [done|]. cbn [children_fit fmap list_fmap first_error].
  assert (addr A (n1 :: q) = c) as Ec by (unfold addr; by rewrite Hc).
  destruct (repr_parent n1 q (Hsome n1 ltac:(constructor))) as (ce & Hce & Hcz & _ & Hcn & _ & _). rewrite Ec in *.
  destruct (Z.eqb_spec c 0); [done|]. rewrite Hce. cbn [mbind option_bind]. rewrite Hcn. unfold RAMFS_MAX_PATH_LENGTH in *.
  destruct (Z.ltb_spec 255 (len + 1 + Z.of_nat (length n1))) as [Hl|Hl].
  - rewrite bool_decide_false by done. by destruct (Z.ltb_spec (255 - 1) len), (Z.ltb_spec (255 - len - 1) (Z.of_nat (length n1))); try lia.
  - destruct (Z.ltb_spec (255 - 1) len), (Z.ltb_spec (255 - len - 1) (Z.of_nat (length n1))); try lia. cbn [orb].
    rewrite <- Ec, IH by (try lia; apply Hsome; constructor). cbn [mbind option_bind].
    case_bool_decide as Eok; cbn [negb]; [|done]. apply IHch. intros n2 Hn2. apply Hsome. by constructor.
Qed.

Lemma subtree_fits_destination_ok q p n :
  is_Some (t !! q) -> is_Some (t !! p) ->
  subtree_fits_destination fs (addr A q) (addr A p) (Z.of_nat (length n)) = Some (spec_fits_at t q p n).
Proof.
  intros Hq Hp. pose proof (to_depth t Ht p Hp) as Hd. change RAMFS_MAX_PATH_DEPTH with 32 in Hd.
  unfold subtree_fits_destination, spec_fits_at. rewrite entry_depth_ok by (try done; change parent_fuel with 34%nat; lia).
  cbn [mbind option_bind].
  assert (entry_path_length fs (addr A p) = Some (match p with [] => 1 | _ => path_length p end)) as ->.
  { unfold entry_path_length. destruct p as [|n1 p].
    - destruct repr_root as (e & _ & _ & -> & _). by rewrite Z.eqb_refl, orb_true_r.
    - destruct (repr_parent n1 p Hp) as (e & _ & Hz & Hg & _).
      destruct (Z.eqb_spec (addr A (n1 :: p)) 0); [done|]. destruct (Z.eqb_spec (addr A (n1 :: p)) (g_root fs)); [done|].
      apply entry_path_length_loop_ok; [|done]. change parent_fuel with 34%nat. lia. }
  cbn [mbind option_bind]. destruct (Z.leb_spec RAMFS_MAX_PATH_DEPTH (Z.of_nat (length p))) as [|Hd2]; [done|].
  assert ((match p with [] => 1 | _ => path_length p end) + (if addr A p =? g_root fs then 0 else 1) + Z.of_nat (length n) =
    path_length (n :: p)) as Elen.
  { rewrite path_length_cons. destruct p as [|n1 p].
    - destruct repr_root as (e & _ & _ & -> & _). rewrite Z.eqb_refl. change (path_length []) with 0. lia.
    - destruct (repr_parent n1 p Hp) as (e & _ & Hz & Hg & _). destruct (Z.eqb_spec (addr A (n1 :: p)) (g_root fs)); [done|]. lia. }
  set (sep := if addr A p =? g_root fs then 0 else 1) in *. set (plen := match p with [] => 1 | _ => _ end) in *.
  unfold RAMFS_MAX_PATH_LENGTH. destruct (Z.ltb_spec 255 (path_length (n :: p))) as [Hl|Hl].
  - by destruct (Z.ltb_spec (255 - sep) plen), (Z.ltb_spec (255 - plen - sep) (Z.of_nat (length n))); try lia.
  - destruct (Z.ltb_spec (255 - sep) plen), (Z.ltb_spec (255 - plen - sep) (Z.of_nat (length n))); try lia. cbn [orb].
    rewrite Elen. apply subtree_fits_at_ok; [done| |]; unfold subtree_fuel; lia.
Qed.

End walks.

(** ** Relinking a subtree *)

Lemma node_rep_move A A' p p' node e :
  (forall n c, A !! (n :: p) = Some c -> A' !! (n :: p') = Some c) -> node_rep A p node e -> node_rep A' p' node e.
Proof.
  intros Hs. destruct node as [bytes|names]; [done|]. rewrite !node_rep_directory. intros (H1 & H2 & H3).
  split; [done|]. split; [done|]. eapply Forall2_impl; [exact H3|]. cbn. eauto.
Qed.

Lemma node_rep_fields A p node e e' :
  node_rep A p node e -> e' = set_parent (set_name e (e_name e')) (e_parent e') -> node_rep A p node e'.
Proof. intros Hn ->. by destruct node. Qed.

Section relink.
Context m (t : Tree) A (old : Name) (up p : Path) (n : Name) (names upnames : list Name).
Let sp := old :: up.
Let dp := n :: p.
Let A' := rekey (relocate sp dp) A.
Context (Ht : tree_ok t) (Hsh : shape m t A) (Hplace : free_place t p names n).
Context (Hup : t !! up = Some (Directory upnames)) (Hold : old ∈ upnames) (Hcycle : ¬ suffix sp p).

Lemma target_free_addr r : A !! (r ++ dp) = None.
Proof.
  destruct (A !! (r ++ dp)) eqn:E; [|done]. apply (sh_addr _ _ _ Hsh) in E.
  rewrite (free_place_none t Ht _ _ _ Hplace) in E. by destruct E.
Qed.

Lemma addr_under r : A' !! (r ++ dp) = A !! (r ++ sp).
Proof. apply relocate_lookup_under, target_free_addr. Qed.

Lemma addr_other q : ¬ suffix dp q -> A' !! q = if bool_decide (suffix sp q) then None else A !! q.
Proof. apply relocate_lookup_other, target_free_addr. Qed.

Lemma addr_keep q c : ¬ suffix dp q -> ¬ suffix sp q -> A !! q = Some c -> A' !! q = Some c.
Proof. intros H1 H2 Hq. by rewrite addr_other, bool_decide_false. Qed.

Lemma addr_keep_child q x c :
  ¬ suffix dp q -> ¬ suffix sp q -> x :: q ≠ sp -> A !! (x :: q) = Some c -> A' !! (x :: q) = Some c.
Proof.
  intros H1 H2 H3 Hq. apply addr_keep; [| |done].
  - rewrite suffix_cons_iff. intros [E|]; [|done]. pose proof (target_free_addr []) as Hn. cbn [app] in Hn. congruence.
  - rewrite suffix_cons_iff. intros [E|]; congruence.
Qed.

Lemma children_move q ns cs :
  t !! q = Some (Directory ns) -> ¬ suffix dp q -> ¬ suffix sp q ->
  Forall2 (fun c x => A !! (x :: q) = Some c) cs ns -> q ≠ p -> q ≠ up ->
  Forall2 (fun c x => A' !! (x :: q) = Some c) cs (move_names old up p n q ns).
Proof.
  intros Hq H1 H2 Hf H3 H4. unfold move_names. rewrite (bool_decide_false (q = p)), (bool_decide_false (q = up)) by done.
  assert (Forall2 (fun c x => A' !! (x :: q) = Some c) cs ns) by
    (eapply Forall2_impl; [exact Hf|]; cbn; intros c x Hc; apply addr_keep_child; try done; unfold sp; congruence).
  by case_bool_decide.
Qed.

(** The state after a move: the structure of the entry has its new name and
    parent, the two directories their new lists, and nothing else changed. *)
Lemma shape_move m' e e' upe upe' upcs pe pe' pcs :
  m !! addr A sp = Some e -> m !! addr A up = Some upe -> m !! addr A p = Some pe ->
  m' !! addr A sp = Some e' -> e' = set_parent (set_name e n) (addr A p) ->
  (forall b, b ≠ addr A sp -> b ≠ addr A up -> b ≠ addr A p -> m' !! b = m !! b) ->
  m' !! addr A up = Some upe' -> relisted upe upe' upcs ->
  Forall2 (fun c x => A' !! (x :: up) = Some c) upcs (move_names old up p n up upnames) ->
  m' !! addr A p = Some pe' -> relisted pe pe' pcs ->
  Forall2 (fun c x => A' !! (x :: p) = Some c) pcs (move_names old up p n p names) ->
  shape m' (move_subtree t sp p n) A'.
Proof.
  intros Hs Hu Hp Hs' Ee Hm' Hu' Hur Huc Hp' Hpr Hpc. pose proof Hsh as [Hnodes Haddr Hinj Honto].
  assert (¬ suffix sp up) as Hsu by apply suffix_of_tail. assert (¬ suffix dp p) as Hdpp by apply suffix_of_tail.
  pose proof (move_not_under_up t Ht up p n names upnames Hplace Hup) as Hdu. fold dp in Hdu.
  assert (is_Some (t !! sp)) as [snode Hsp] by (by apply (tree_child t Ht _ _ _ Hup)).
  destruct (Hnodes _ _ Hsp) as (a & e0 & Ha & He0 & Hsl & Hsrep). assert (addr A sp = a) as Ea by (unfold addr; by rewrite Ha).
  rewrite Ea in *. assert (e0 = e) as -> by congruence.
  assert (A !! up = Some (addr A up)) as Hau by (destruct Hsl as [_ Hau]; unfold addr; by rewrite Hau).
  pose proof (fp_directory _ _ _ _ Hplace) as Hpn. destruct (Hnodes _ _ Hpn) as (b & pe0 & Hb & Hpe0 & Hplink & Hprep).
  assert (addr A p = b) as Eb by (unfold addr; by rewrite Hb). rewrite Eb in *. assert (pe0 = pe) as -> by congruence.
  assert (A' !! p = Some b) as Hb' by (by apply addr_keep). assert (A' !! up = Some (addr A up)) as Hau' by (by apply addr_keep).
  (* paths below the entry *)
  assert (forall r node, t !! (r ++ sp) = Some node -> exists a1 e1, A' !! (r ++ dp) = Some a1 /\ m' !! a1 = Some e1 /\
    link_rep A' (r ++ dp) e1 /\ node_rep A' (r ++ dp) node e1) as Hunder.
  { intros r node Hr. rewrite addr_under. destruct (Hnodes _ _ Hr) as (a1 & e1 & Ha1 & He1 & Hl1 & Hn1).
    assert (node_rep A' (r ++ dp) node e1) as Hn1'.
    { revert Hn1. apply node_rep_move. intros x c Hc. exact (eq_trans (addr_under (x :: r)) Hc). }
    destruct r as [|x r].
    - cbn [app] in *. assert (a1 = a) as -> by congruence. assert (e1 = e) as -> by congruence. exists a, e'.
      split; [done|]. split; [done|]. rewrite Ee. split; [done|]. revert Hn1'. by destruct node.
    - exists a1, e1. split; [done|]. assert (suffix sp ((x :: r) ++ sp)) as Hsuf by (by exists (x :: r)).
      split; [|split; [|done]].
      + rewrite Hm'; [done| | |].
        * intros ->. pose proof (Hinj _ _ _ Ha1 Ha) as E. apply (f_equal length) in E. rewrite length_app in E. cbn in E. lia.
        * intros ->. by rewrite (Hinj _ _ _ Ha1 Hau) in Hsuf.
        * intros ->. by rewrite (Hinj _ _ _ Ha1 Hb) in Hsuf.
      + cbn [app link_rep] in *. destruct Hl1 as [H1 H2]. split; [done|]. by rewrite addr_under. }
  split.
  - intros q node. destruct (move_cases t Ht old up p n names upnames Hplace Hup Hcycle q) as [(r & -> & E)|[Hq E]];
      fold sp dp in E; fold dp; rewrite E; [apply Hunder|]. fold dp in Hq. case_bool_decide as Hsq; [done|]. intros Hnode.
    assert (forall e1, link_rep A q e1 -> link_rep A' q e1) as Hlk.
    { intros e1 Hl. destruct q as [|x q]; [done|]. destruct Hl as [H1 H2]. split; [done|].
      apply addr_keep; [| |done]; intros Hs1; [apply Hq|apply Hsq]; apply suffix_cons_iff; by right. }
    destruct (decide (q = p)) as [->|Eqp]; [|destruct (decide (q = up)) as [->|Equ]].
    + rewrite Hpn in Hnode. injection Hnode as <-. exists b, pe'. split; [done|]. split; [done|].
      split; [apply Hlk; by eapply link_rep_relisted|]. by eapply node_rep_relisted.
    + rewrite Hup in Hnode. injection Hnode as <-. destruct (Hnodes _ _ Hup) as (b1 & e1 & Hb1 & He1 & Hl1 & Hn1).
      assert (b1 = addr A up) as -> by congruence. assert (e1 = upe) as -> by congruence.
      exists (addr A up), upe'. split; [done|]. split; [done|].
      split; [apply Hlk; by eapply link_rep_relisted|]. by eapply node_rep_relisted.
    + assert (exists node0, t !! q = Some node0) as [node0 Hq0] by (destruct (t !! q); [eauto|done]). rewrite Hq0 in Hnode.
      destruct (Hnodes _ _ Hq0) as (b1 & e1 & Hb1 & He1 & Hl1 & Hn1). exists b1, e1. split; [by apply addr_keep|].
      split; [|split; [by apply Hlk|]].
      * rewrite Hm'; [done| | |].
        -- intros ->. apply Hsq. by rewrite (Hinj _ _ _ Hb1 Ha).
        -- intros ->. apply Equ. by apply (Hinj _ _ _ Hb1).
        -- intros ->. apply Eqp. by apply (Hinj _ _ _ Hb1).
      * destruct node0 as [bytes|ns]; injection Hnode as <-; [done|].
        apply node_rep_directory in Hn1 as (D1 & D2 & D3). apply node_rep_directory.
        split; [done|]. split; [done|]. by apply children_move.
  - intros q c Hc. destruct (move_cases t Ht old up p n names upnames Hplace Hup Hcycle q) as [(r & -> & E)|[Hq E]];
      fold sp dp in E; fold dp; rewrite E.
    + rewrite addr_under in Hc. by apply Haddr in Hc.
    + fold dp in Hq. rewrite addr_other in Hc by done. case_bool_decide; [done|]. apply Haddr in Hc as [nd Hnd]. rewrite Hnd.
      by destruct nd.
  - intros q1 q2 c H1 H2. unfold A' in H1, H2. rewrite rekey_lookup in H1, H2 by apply relocate_inj, target_free_addr.
    destruct H1 as (p1 & <- & H1), H2 as (p2 & <- & H2). by rewrite (Hinj _ _ _ H1 H2).
  - intros c Hc. assert (is_Some (m !! c)) as Hmc.
    { destruct (decide (c = a)) as [->|]; [by eexists|]. destruct (decide (c = addr A up)) as [->|]; [by eexists|].
      destruct (decide (c = b)) as [->|]; [by eexists|]. by rewrite Hm' in Hc. }
    destruct (Honto _ Hmc) as [q Hq]. exists (relocate sp dp q). unfold A'.
    rewrite rekey_lookup by apply relocate_inj, target_free_addr. by exists q.
Qed.

End relink.

Lemma directory_relisted pe : directory_ok pe -> relisted pe pe (e_children pe).
Proof. by intros Hd. Qed.

(** A directory whose array has grown. *)
Lemma repr_grow fs t A F p names pe pe' h :
  let fs' := set_nodes (set_heap fs h) (<[addr A p := pe']> (nodes fs)) in
  repr fs t A F -> t !! p = Some (Directory names) -> nodes fs !! addr A p = Some pe ->
  relisted pe pe' (e_children pe) -> owns fs' F -> repr fs' t A F.
Proof.
  intros fs' Hr Hp Hpe Hrel Ho. pose proof Hr as [R1 [Hnodes Haddr Hinj Honto] R3 R4 R5 _].
  destruct (repr_node _ _ _ _ Hr _ _ Hp) as (pe0 & Ha & Hpe0 & _). assert (pe0 = pe) as -> by congruence.
  split; try done. unfold fs'. cbn [nodes set_nodes]. split; try done.
  - intros q node Hq. destruct (Hnodes _ _ Hq) as (b & e & Hb & He & Hl & Hn). destruct (decide (q = p)) as [->|Hne].
    + assert (b = addr A p) as -> by congruence. assert (e = pe) as -> by congruence. assert (node = Directory names) as -> by congruence.
      exists (addr A p), pe'. rewrite lookup_insert_eq. split; [done|]. split; [done|]. split; [by eapply link_rep_relisted|].
      eapply node_rep_relisted; [exact Hn|exact Hrel|]. by apply node_rep_directory in Hn as (_ & _ & Hf).
    + exists b, e. split; [done|]. rewrite lookup_insert_ne; [done|]. intros <-. by apply Hne, (Hinj _ _ _ Hb).
  - intros b Hb. apply Honto. destruct (decide (b = addr A p)) as [->|Hne]; [by eexists|by rewrite lookup_insert_ne in Hb].
Qed.

Section relink_ok.
Context fs (t : Tree) A F (old : Name) (up p : Path) (n : Name) (names upnames : list Name).
Let sp := old :: up.
Let A' := rekey (relocate sp (n :: p)) A.
Context (Hr : repr fs t A F) (Ht : tree_ok t) (Hplace : free_place t p names n).
Context (Hup : t !! up = Some (Directory upnames)) (Hold : old ∈ upnames) (Hcycle : ¬ suffix sp p).
Context (Ht' : tree_ok (move_subtree t sp p n)).

Lemma source_some : is_Some (t !! sp).
Proof. by apply (tree_child t Ht _ _ _ Hup). Qed.

(** The parts of [repr] that do not depend on the way. *)
Lemma repr_moved fs' m' :
  fs' = set_nodes fs m' -> blocks m' ≡ₚ blocks (nodes fs) -> shape m' (move_subtree t sp p n) A' ->
  repr fs' (move_subtree t sp p n) A' F.
Proof.
  intros -> Hb Hs. split; [by right|done| | | |by apply owns_set_nodes, Hr]; cbn [g_root g_node_count g_total_file_bytes set_nodes].
  - rewrite (r_root _ _ _ _ Hr). unfold A'.
    rewrite (addr_other (nodes fs) t A old up p n names Ht (r_shape _ _ _ _ Hr) Hplace) by (intros Hs0%suffix_nil_inv; done).
    by rewrite bool_decide_false by (intros Hs0%suffix_nil_inv; done).
  - rewrite (r_count _ _ _ _ Hr). symmetry. by eapply move_count.
  - rewrite (r_total _ _ _ _ Hr). symmetry. by eapply move_bytes.
Qed.

Lemma relink_same e :
  p = up -> nodes fs !! addr A sp = Some e ->
  exists fs', relink fs (addr A sp) (addr A p) (addr A p) n = Some fs' /\ repr fs' (move_subtree t sp p n) A' F.
Proof.
  intros Epu He. destruct source_some as [node Hsp]. pose proof (r_shape _ _ _ _ Hr) as Hsh.
  destruct (repr_node _ _ _ _ Hr _ _ Hsp) as (e1 & Ha & He1 & _ & [_ Hpar] & _). assert (e1 = e) as -> by congruence.
  destruct (repr_node _ _ _ _ Hr _ _ Hup) as (upe & Hua & Hupe & _ & _ & Hurep).
  apply node_rep_directory in Hurep as (Hud & _ & Huf).
  assert (names = upnames) as Enames by (pose proof (fp_directory _ _ _ _ Hplace); congruence).
  assert (addr A sp ≠ addr A up) as Hne.
  { intros E. rewrite E in Ha. exact (cons_ne old up (sh_inj _ _ _ Hsh _ _ _ Hua Ha)). }
  assert (Forall2 (fun c x => A' !! (x :: up) = Some c) (e_children upe) (move_names old up p n up upnames)) as Hf.
  { unfold move_names. rewrite !bool_decide_true by done. apply Forall2_fmap_r. apply (Forall2_impl_in _ _ _ _ Huf).
    intros c x Hc _. unfold compose. case_bool_decide as Ex.
    - subst x. unfold A'. rewrite <- Epu. exact (eq_trans (addr_under (nodes fs) t A old up p n names Ht Hsh Hplace []) Hc).
    - unfold A'. apply (addr_keep_child (nodes fs) t A old up p n names Ht Hsh Hplace); try done.
      + rewrite Epu. apply suffix_of_tail.
      + apply suffix_of_tail.
      + congruence. }
  unfold relink. rewrite Z.eqb_refl. cbn [mbind option_bind]. unfold modify. rewrite He. cbn [mbind option_bind].
  eexists. split; [done|]. eapply repr_moved; [done|by apply (blocks_same _ _ e)|].
  assert (set_name e n = set_parent (set_name e n) (addr A p)) as Ee.
  { rewrite Epu. unfold addr. rewrite Hpar. by destruct e. }
  apply (shape_move (nodes fs) t A old up p n names upnames Ht Hsh Hplace Hup Hold Hcycle _ e (set_name e n) upe upe (e_children upe) upe upe (e_children upe));
    try done; try (by rewrite lookup_insert_eq); try (by rewrite ?Epu, ?lookup_insert_ne).
  - intros b Hb _ _. by rewrite lookup_insert_ne.
  - assert (move_names old up p n p names = move_names old up p n up upnames) as -> by (rewrite Enames; by f_equal).
    eapply Forall2_impl; [exact Hf|]. cbn beta. intros c x Hc. rewrite <- Epu in Hc. exact Hc.
Qed.

Lemma relink_other e pe :
  p ≠ up -> nodes fs !! addr A sp = Some e -> nodes fs !! addr A p = Some pe -> child_count pe < e_child_capacity pe ->
  exists fs', relink fs (addr A sp) (addr A up) (addr A p) n = Some fs' /\ repr fs' (move_subtree t sp p n) A' F.
Proof.
  intros Epu He Hpe Hroom. pose proof (r_shape _ _ _ _ Hr) as Hsh.
  destruct (detach_child_ok fs t A F old up e Hr Ht source_some He)
    as (upnames0 & upe & cs & Hup0 & _ & Hua & Hupe & Hurel & Hne & Hpar & Hcs & Edet).
  assert (upnames0 = upnames) as -> by congruence. fold sp in Hne, Edet.
  pose proof (fp_directory _ _ _ _ Hplace) as Hp. destruct (repr_node _ _ _ _ Hr _ _ Hp) as (pe0 & Hpa & Hpe0 & Hpnz & _ & Hprep).
  assert (pe0 = pe) as -> by congruence. apply node_rep_directory in Hprep as ((D1 & D2 & D3 & D4) & _ & Hpf).
  destruct source_some as [node Hsp]. destruct (repr_node _ _ _ _ Hr _ _ Hsp) as (_ & Ha & _).
  assert (addr A p ≠ addr A up) as H1 by (intros E; apply Epu; rewrite E in Hpa; by apply (sh_inj _ _ _ Hsh _ _ _ Hpa)).
  assert (addr A sp ≠ addr A p) as H2.
  { intros E. rewrite <- E in Hpa. pose proof (sh_inj _ _ _ Hsh _ _ _ Hpa Ha) as E2. apply Hcycle. by rewrite E2. }
  unfold relink. destruct (Z.eqb_spec (addr A p) (addr A up)); [done|]. rewrite Edet. cbn [mbind option_bind].
  unfold modify at 1. cbn [nodes set_nodes]. rewrite lookup_insert_eq. cbn [mbind option_bind]. rewrite insert_insert_eq.
  rewrite (append_child_ok _ _ _ pe (set_name (set_parent e 0) n)).
  2:{ cbn [nodes set_nodes]. by rewrite !lookup_insert_ne by done. }
  2:{ cbn [nodes set_nodes]. by rewrite lookup_insert_eq. }
  2:{ done. }
  cbn [nodes set_nodes]. set (e' := set_parent (set_name (set_parent e 0) n) (addr A p)). set (pe' := set_children pe _).
  assert (relisted pe pe' (e_children pe ++ [addr A sp])) as Hprel.
  { split; [|done]. split; [done|]. split; [done|]. split; [|done]. unfold child_count in *. cbn. rewrite length_app. cbn [length]. lia. }
  eexists. split; [done|]. eapply repr_moved; [done| |].
  - rewrite (blocks_same _ _ (set_name (set_parent e 0) n)) by (try done; by rewrite lookup_insert_ne, lookup_insert_eq by done).
    rewrite (blocks_same _ _ pe) by (rewrite ?lookup_insert_ne; done). by apply (blocks_two _ _ _ e _ upe).
  - apply (shape_move (nodes fs) t A old up p n names upnames Ht Hsh Hplace Hup Hold Hcycle _ e e' upe (set_children upe cs) cs pe pe' (e_children pe ++ [addr A sp]));
      try done; rewrite ?lookup_insert_eq; try done.
    + intros b B1 B2 B3. by rewrite !lookup_insert_ne by done.
    + by rewrite !(lookup_insert_ne _ _ (addr A up)), lookup_insert_eq by done.
    + unfold move_names. rewrite !bool_decide_false, bool_decide_true by done. apply (Forall2_impl_in _ _ _ _ Hcs).
      intros c x Hc Hx. apply list_elem_of_filter in Hx as [Hx _].
      apply (addr_keep_child (nodes fs) t A old up p n names Ht Hsh Hplace); try done.
      * by apply (move_not_under_up t Ht up p n names upnames).
      * apply suffix_of_tail.
      * congruence.
    + rewrite lookup_insert_ne, lookup_insert_eq by done. done.
    + unfold move_names. rewrite bool_decide_false, bool_decide_true by done. apply Forall2_app.
      * eapply Forall2_impl; [exact Hpf|]. cbn. intros c x Hc. apply (addr_keep_child (nodes fs) t A old up p n names Ht Hsh Hplace); try done.
        -- apply suffix_of_tail.
        -- congruence.
      * constructor; [|constructor]. exact (eq_trans (addr_under (nodes fs) t A old up p n names Ht Hsh Hplace []) Ha).
Qed.

End relink_ok.

Lemma bind_some {X Y : Type} (x : X) (f : X -> option Y) : (Some x ≫= f) = f x.
Proof. done. Qed.

(** The end of [move_path], once every check has passed. *)
Lemma move_relink_ok fs t A F old up p n names e pe :
  let sp := old :: up in
  repr fs t A F -> tree_ok t -> free_place t p names n -> is_Some (t !! sp) -> ¬ suffix sp p ->
  tree_ok (move_subtree t sp p n) -> nodes fs !! addr A sp = Some e -> nodes fs !! addr A p = Some pe ->
  (p = up \/ Z.of_nat (length names) < RAMFS_MAX_CHILDREN) ->
  exists fs1 status,
    (if addr A p =? e_parent e then Some (fs, Ok)
     else if RAMFS_MAX_CHILDREN <=? child_count pe then Some (fs, TooManyChildren)
     else ensure_child_capacity fs (addr A p)) = Some (fs1, status) /\
    ((status = OutOfMemory /\ allocation_refused (H := H) /\ represents fs1 t F) \/
     (status = Ok /\ exists fs2, relink fs1 (addr A sp) (e_parent e) (addr A p) n = Some fs2 /\
        represents fs2 (move_subtree t sp p n) F)).
Proof.
  intros sp Hr Ht Hplace Hsp Hcycle Ht' He Hpe Hroom.
  destruct (repr_parent fs t A F Hr Ht old up Hsp) as (e0 & He0 & Hz & _ & _ & Hpar & Hups). fold sp in He0, Hz. assert (e0 = e) as -> by congruence.
  destruct (proj1 (to_parent t Ht _ _) Hsp) as (upnames & Hup & Hold). rewrite Hpar.
  pose proof (fp_directory _ _ _ _ Hplace) as Hp. destruct (repr_node _ _ _ _ Hr _ _ Hp) as (pe0 & _ & Hpe0 & _ & _ & Hprep).
  assert (pe0 = pe) as -> by congruence. pose proof (proj1 (node_rep_directory _ _ _ _) Hprep) as (Hd & _ & Hch).
  destruct (Z.eqb_spec (addr A p) (addr A up)) as [E|E].
  - apply (repr_inj _ _ _ _ Hr) in E; [|by eexists|done].
    destruct (relink_same fs t A F old up p n names upnames Hr Ht Hplace Hup Hold Hcycle Ht' e E He) as (fs2 & E2 & Hr2).
    exists fs, Ok. split; [done|]. right. split; [done|]. exists fs2. rewrite <- E. split; [done|by eexists].
  - assert (p ≠ up) as Hne by (by intros ->). destruct Hroom as [|Hroom]; [done|].
    assert (child_count pe < RAMFS_MAX_CHILDREN) as Hc by (unfold child_count; by rewrite (Forall2_length _ _ _ Hch)).
    destruct (Z.leb_spec RAMFS_MAX_CHILDREN (child_count pe)); [lia|].
    destruct (ensure_child_capacity_ok fs F (addr A p) pe) as (fs1 & st & E1 & Ho1 & Hcase); try done; [apply Hr|].
    exists fs1, st. split; [done|].
    destruct Hcase as [(-> & Href & h & ->)|(-> & h & at_ & cap & -> & Hcap & Hat)].
    { left. split; [done|]. split; [done|]. exists A. by apply repr_set_heap. }
    right. split; [done|]. set (pe1 := set_children_array pe at_ cap) in *.
    assert (relisted pe pe1 (e_children pe)) as Hrel.
    { destruct Hd as (D1 & D2 & D3 & D4). split; [|done]. split; [done|]. split; [done|]. cbn. unfold child_count in *. cbn. lia. }
    pose proof (repr_grow fs t A F p names pe pe1 h Hr Hp Hpe Hrel Ho1) as Hr1.
    assert (addr A sp ≠ addr A p) as Hsd.
    { intros E3. apply (repr_inj _ _ _ _ Hr) in E3; [|done|by eexists]. by apply Hcycle; rewrite E3. }
    destruct (relink_other _ t A F old up p n names upnames Hr1 Ht Hplace Hup Hold Hcycle Ht' e pe1 Hne) as (fs2 & E2 & Hr2).
    { cbn [nodes set_nodes]. by rewrite lookup_insert_ne by done. }
    { apply lookup_insert_eq. }
    { unfold child_count in *. cbn. lia. }
    exists fs2. split; [done|by eexists].
Qed.

Lemma move_path_ok fs t F source destination :
  represents fs t F ->
  exists fs' st, move_path fs source destination = Some (fs', st) /\ outcome fs' t F (spec_move t source destination) st.
Proof.
  intros [A Hr]. unfold move_path. destruct (Z.eqb_spec (g_root fs) 0) as [E0|E0].
  { eexists _, NotInitialized. split; [done|]. apply outcome_refuse; [by eexists| |done].
    apply (repr_empty _ _ _ _ Hr) in E0. unfold spec_move. by rewrite E0. }
  pose proof (fun Ht => spec_move_ok t Ht source destination) as Hspec. unfold spec_move in *.
  destruct (t !! []) as [root|] eqn:Eroot; [|by destruct E0; apply (repr_empty _ _ _ _ Hr)].
  assert (tree_ok t) as Ht by (destruct (r_tree _ _ _ _ Hr) as [->|]; [by rewrite lookup_empty in Eroot|done]).
  specialize (Hspec Ht).
  assert (represents fs t F) as Hrep by (by eexists).
  rewrite (resolve_path_ok fs t A F Hr). destruct (spec_resolve t source) as [st|sp] eqn:Er.
  { eexists _, st. split; [done|]. apply outcome_refuse; [done|done|by eapply spec_resolve_error]. }
  destruct (spec_resolve_node _ _ _ _ Hr _ _ Er) as [node Hsp].
  destruct (repr_node _ _ _ _ Hr _ _ Hsp) as (e & _ & He & Hnz & _ & Hn). rewrite He, bind_some.
  assert (is_Some (t !! sp)) as Hssp by (by eexists). assert (is_Some (t !! [])) as Hsroot by (by eexists).
  assert ((addr A sp =? g_root fs) = bool_decide (sp = [])) as ->.
  { rewrite (r_root _ _ _ _ Hr). fold (addr A []). case_bool_decide as E; [subst; apply Z.eqb_refl|].
    apply Z.eqb_neq. intros E2. apply E. by apply (repr_inj _ _ _ _ Hr). }
  destruct (decide (sp = [])) as [Esp|Esp]; [rewrite (bool_decide_true _ Esp) in *|rewrite (bool_decide_false _ Esp) in *];
    [eexists _, RootProtected; split; [done|]; by apply outcome_refuse|].
  rewrite (resolve_destination_ok fs t A F Hr).
  assert (spec_is_directory t sp = e_is_directory e) as Edir0.
  { unfold spec_is_directory. rewrite Hsp. by destruct node; destruct Hn as (-> & _). }
  rewrite Edir0 in *. destruct (spec_target destination (e_is_directory e)) as [st|[cs n]] eqn:Et.
  { eexists _, st. split; [done|]. apply outcome_refuse; [done|done|by eapply spec_target_error]. }
  destruct (spec_directory t cs) as [st|[p names]] eqn:Edir.
  { eexists _, st. split; [done|]. apply outcome_refuse; [done|done|by eapply spec_directory_error]. }
  destruct (spec_directory_ok t Ht _ _ _ Edir) as (Hp & _). assert (is_Some (t !! p)) as Hsp2 by (by eexists).
  assert (((if bool_decide (n ∈ names) then addr A (n :: p) else 0) =? addr A sp) = bool_decide (n :: p = sp)) as ->.
  { destruct (decide (n ∈ names)) as [Hin|Hin]; [rewrite (bool_decide_true _ Hin)|rewrite (bool_decide_false _ Hin)];
      destruct (decide (n :: p = sp)) as [E2|E2]; [rewrite (bool_decide_true _ E2)|rewrite (bool_decide_false _ E2)|rewrite (bool_decide_true _ E2)|rewrite (bool_decide_false _ E2)].
    - rewrite E2. apply Z.eqb_refl.
    - apply Z.eqb_neq. intros E3. apply (repr_inj _ _ _ _ Hr) in E3; [done| |done]. by apply (tree_child t Ht _ _ _ Hp).
    - exfalso. apply Hin. apply (tree_child t Ht _ _ _ Hp). by rewrite E2.
    - apply Z.eqb_neq. congruence. }
  destruct (decide (n :: p = sp)) as [Esame|Esame]; [rewrite (bool_decide_true _ Esame) in *|rewrite (bool_decide_false _ Esame) in *];
    [eexists _, Ok; split; [done|]; by eapply outcome_done|].
  destruct (decide (n ∈ names)) as [Hin|Hin]; [rewrite (bool_decide_true _ Hin) in *|rewrite (bool_decide_false _ Hin) in *].
  { apply (tree_child t Ht _ _ _ Hp) in Hin as [nn Hnn]. destruct (repr_node _ _ _ _ Hr _ _ Hnn) as (_ & _ & _ & Hz & _).
    destruct (Z.eqb_spec (addr A (n :: p)) 0); [done|]. eexists _, AlreadyExists. split; [done|]. by apply outcome_refuse. }
  cbn [Z.eqb negb].
  assert ((if e_is_directory e then is_same_or_descendant parent_fuel fs (addr A p) (addr A sp) else Some false) =
    Some (bool_decide (suffix sp p))) as ->.
  { destruct node as [bytes|snames]; destruct Hn as (Hd & Hn); rewrite Hd.
    - f_equal. symmetry. apply bool_decide_eq_false. intros [r Hsuf].
      destruct r as [|x r _] using rev_ind; [cbn in Hsuf; congruence|]. rewrite <- app_assoc in Hsuf. cbn in Hsuf.
      rewrite Hsuf in Hsp2. apply (tree_upward t Ht), (to_parent t Ht) in Hsp2 as (ns & Hns & _). congruence.
    - apply (is_same_or_descendant_ok fs t A F Hr Ht); try done. pose proof (to_depth t Ht p Hsp2) as Hd2.
      change RAMFS_MAX_PATH_DEPTH with 32 in Hd2. change parent_fuel with 34%nat. lia. }
  rewrite bind_some. destruct (decide (suffix sp p)) as [Hcycle|Hcycle]; [rewrite (bool_decide_true _ Hcycle) in *|rewrite (bool_decide_false _ Hcycle) in *];
    [eexists _, WouldCreateCycle; split; [done|]; by apply outcome_refuse|].
  rewrite (subtree_fits_destination_ok fs t A F Hr Ht) by done. rewrite bind_some.
  destruct (decide (spec_fits_at t sp p n = Ok)) as [Efit|Efit].
  2:{ rewrite bool_decide_false by done. cbn [negb]. eexists _, _. split; [done|].
      apply outcome_refuse; [done| |done]. by destruct (spec_fits_at t sp p n). }
  rewrite Efit in *. rewrite bool_decide_true by done. cbn [negb].
  destruct (repr_node _ _ _ _ Hr _ _ Hp) as (pe & Hpa & Hpe & _ & _ & Hprep). rewrite Hpe, bind_some.
  destruct sp as [|old up]; [done|]. cbn [tail] in *.
  pose proof (proj1 (node_rep_directory _ _ _ _) Hprep) as (_ & _ & Hch).
  destruct (negb (bool_decide (p = up)) && (RAMFS_MAX_CHILDREN <=? Z.of_nat (length names))) eqn:Efull.
  { apply andb_true_iff in Efull as [Ene Efull]. apply negb_true_iff, bool_decide_eq_false in Ene.
    destruct (repr_parent fs t A F Hr Ht old up Hssp) as (e0 & He0 & _ & _ & _ & Hpar & Hups). assert (e0 = e) as -> by congruence.
    rewrite Hpar. destruct (Z.eqb_spec (addr A p) (addr A up)) as [E|_]; [by apply (repr_inj _ _ _ _ Hr) in E|].
    unfold child_count. rewrite (Forall2_length _ _ _ Hch), Efull, bind_some. rewrite bool_decide_false by done. cbn [negb].
    eexists _, TooManyChildren. split; [done|]. by apply outcome_refuse. }
  destruct (move_relink_ok fs t A F old up p n names e pe) as (fs1 & st1 & -> & Hcase); try done.
  { by eapply target_place. }
  { by apply Hspec. }
  { apply andb_false_iff in Efull as [Ef|Ef]; [left; by apply negb_false_iff, bool_decide_eq_true in Ef|right; lia]. }
  rewrite bind_some. destruct Hcase as [(-> & Href & Hr1)|(-> & fs2 & E2 & Hr2)].
  - rewrite bool_decide_false by done. cbn [negb]. eexists _, OutOfMemory. split; [done|]. by apply outcome_oom.
  - rewrite bool_decide_true by done. cbn [negb]. rewrite E2, bind_some. eexists _, Ok. split; [done|]. by eapply outcome_done.
Qed.

(** ** Reading *)

Lemma read_file_data_ok fs t F path has_buffer capacity :
  represents fs t F ->
  exists st n bytes, read_file_data fs path has_buffer capacity = Some (finish fs st, st, n, bytes) /\
  match spec_resolve t path with
  | inl st' => st = st' /\ n = 0 /\ bytes = []
  | inr p =>
      match t !! p with
      | Some (File content) =>
          n = Z.of_nat (length content) /\
          if (capacity <? n) || (negb has_buffer && negb (n =? 0)) then st = BufferTooSmall /\ bytes = []
          else st = Ok /\ bytes = content
      | _ => st = IsDirectory /\ n = 0 /\ bytes = []
      end
  end.
Proof.
  intros [A Hr]. unfold read_file_data. rewrite (resolve_path_ok fs t A F Hr). destruct (spec_resolve t path) as [st|p] eqn:Er.
  { by exists st, 0, []. }
  destruct (spec_resolve_node _ _ _ _ Hr _ _ Er) as [node Hp]. rewrite Hp.
  destruct (repr_node _ _ _ _ Hr _ _ Hp) as (e & _ & He & _ & _ & Hn). rewrite He, bind_some.
  destruct node as [content|names].
  - destruct Hn as (-> & _ & -> & (rest & ->) & _). destruct (_ || _) eqn:E.
    + exists BufferTooSmall, (Z.of_nat (length content)), []. by rewrite E.
    + exists Ok, (Z.of_nat (length content)), content. by rewrite E, Nat2Z.id, take_app_length.
  - destruct Hn as (-> & _). by exists IsDirectory, 0, [].
Qed.

Definition node_stat (node : Node) : FileStat :=
  match node with
  | File bytes => mkFileStat FileType (Z.of_nat (length bytes)) 0
  | Directory names => mkFileStat DirectoryType 0 (Z.of_nat (length names))
  end.

Lemma entry_stat_ok A p node e : node_rep A p node e -> entry_stat e = node_stat node.
Proof.
  unfold entry_stat, child_count. destruct node as [bytes|names].
  - intros (-> & _ & -> & _ & _ & _ & -> & _). done.
  - intros (-> & _ & -> & Hf & _). by rewrite (Forall2_length _ _ _ Hf).
Qed.

Lemma stat_path_ok fs t F path :
  represents fs t F ->
  exists st info, stat_path fs path true = Some (finish fs st, st, info) /\
  match spec_resolve t path with
  | inl st' => st = st' /\ info = None
  | inr p => st = Ok /\ info = node_stat <$> t !! p
  end.
Proof.
  intros [A Hr]. unfold stat_path. cbn [negb]. rewrite (resolve_path_ok fs t A F Hr).
  destruct (spec_resolve t path) as [st|p] eqn:Er; [by exists st, None|].
  destruct (spec_resolve_node _ _ _ _ Hr _ _ Er) as [node Hp]. rewrite Hp.
  destruct (repr_node _ _ _ _ Hr _ _ Hp) as (e & _ & He & _ & _ & Hn). rewrite He, bind_some.
  rewrite (entry_stat_ok _ _ _ _ Hn). by exists Ok, (Some (node_stat node)).
Qed.

(** The callback sees the entries in their order, until it asks to stop. *)
Fixpoint spec_list {C : Type} (callback : Name -> FileStat -> C -> bool * C) (t : Tree) (p : Path)
    (names : list Name) (context : C) : Status * C :=
  match names with
  | [] => (Ok, context)
  | n :: names' =>
      match t !! (n :: p) with
      | Some node =>
          let '(continue, context) := callback n (node_stat node) context in
          if (continue : bool) then spec_list callback t p names' context else (IterationStopped, context)
      | None => (Ok, context)
      end
  end.

Lemma list_directory_ok {C : Type} fs t F path (callback : Name -> FileStat -> C -> bool * C) context :
  represents fs t F ->
  list_directory fs path (Some callback) context =
    Some (match spec_resolve t path with
          | inl st => (finish fs st, st, context)
          | inr p =>
              match t !! p with
              | Some (Directory names) =>
                  let '(st, context') := spec_list callback t p names context in (finish fs st, st, context')
              | _ => (finish fs NotDirectory, NotDirectory, context)
              end
          end).
Proof.
  intros [A Hr]. unfold list_directory. rewrite (resolve_path_ok fs t A F Hr).
  destruct (spec_resolve t path) as [st|p] eqn:Er; [done|].
  destruct (spec_resolve_node _ _ _ _ Hr _ _ Er) as [node Hp]. rewrite Hp.
  assert (tree_ok t) as Ht by (destruct (r_tree _ _ _ _ Hr) as [->|]; [by rewrite lookup_empty in Hp|done]).
  destruct (repr_node _ _ _ _ Hr _ _ Hp) as (e & _ & He & _ & _ & Hn). rewrite He, bind_some.
  destruct node as [bytes|names]; [by destruct Hn as (-> & _)|]. apply node_rep_directory in Hn as ((-> & _) & _ & Hf). cbn [negb].
  assert (forall n, n ∈ names -> is_Some (t !! (n :: p))) as Hs by (intros n Hn; by apply (tree_child t Ht _ _ _ Hp)).
  assert (list_loop callback fs (e_children e) context = Some (spec_list callback t p names context)) as ->;
    [|rewrite bind_some; by destruct spec_list].
  clear Hp. revert context. induction Hf as [|c n cs ns Hc _ IH]; intros context; [done|]. cbn [list_loop spec_list].
  destruct (Hs n ltac:(constructor)) as [node Hnode]. rewrite Hnode.
  destruct (repr_node _ _ _ _ Hr _ _ Hnode) as (ce & Hca & Hce & _ & [Hname _] & Hcn).
  assert (addr A (n :: p) = c) as E by (unfold addr; by rewrite Hc). rewrite E in Hce. rewrite Hce, bind_some.
  rewrite Hname, (entry_stat_ok _ _ _ _ Hcn). destruct (callback n (node_stat node) context) as [[] context']; [|done].
  apply IH. intros m Hm. apply Hs. by constructor.
Qed.

(** ** Sequences of operations *)

Definition run fs (op : Op) : option (RamFs H * Status) :=
  match op with
  | Initialize => Some (initialize_ramfs fs)
  | Create path true => '(fs, st, _) ← create_directory_at fs path; Some (fs, st)
  | Create path false => '(fs, st, _) ← create_file_at fs path; Some (fs, st)
  | Write path data size create_if_missing => write_file_data fs path data size create_if_missing
  | Remove path recursive => remove_path fs path recursive
  | Copy source destination => copy_file fs source destination
  | Move source destination => move_path fs source destination
  end.

(** The buffer a caller passes to a write has the bytes it announces. *)
Definition op_ok (op : Op) : Prop :=
  match op with Write _ data size _ => write_args_ok data size | _ => True end.

Lemma ramfsm_run_ok fs t F op :
  represents fs t F -> op_ok op -> exists fs' st, run fs op = Some (fs', st) /\ outcome fs' t F (spec t op) st.
Proof.
  intros Hr Hop. destruct op; cbn [run spec].
  - destruct (ramfsp_initialize_ok fs t F Hr) as (fs' & st & -> & Ho). eauto.
  - destruct (create_at_ok fs t F path is_directory Hr) as (fs' & st & a & E & Ho).
    exists fs', st. split; [|done]. by destruct is_directory; rewrite E.
  - by apply write_file_data_ok.
  - by apply remove_path_ok.
  - by apply copy_file_ok.
  - by apply move_path_ok.
Qed.

Fixpoint run_all fs (ops : list Op) : option (RamFs H * list Status) :=
  match ops with
  | [] => Some (fs, [])
  | op :: ops' =>
      '(fs, st) ← run fs op;
      '(fs, sts) ← run_all fs ops';
      Some (fs, st :: sts)
  end.

(** A history of the specification: every operation is refused with its status,
    done, or fails for lack of memory; a failure leaves the tree as it was. *)
Inductive spec_history : Tree -> list Op -> list Status -> Tree -> Prop :=
  | history_nil t : spec_history t [] [] t
  | history_refused t op ops st sts t' :
      spec t op = inl st -> spec_history t ops sts t' -> spec_history t (op :: ops) (st :: sts) t'
  | history_memory t op ops sts t' :
      allocation_refused (H := H) -> spec_history t ops sts t' -> spec_history t (op :: ops) (OutOfMemory :: sts) t'
  | history_done t op ops t1 sts t' :
      spec t op = inr t1 -> spec_history t1 ops sts t' -> spec_history t (op :: ops) (Ok :: sts) t'.

Lemma run_all_ok fs t F ops :
  represents fs t F -> Forall op_ok ops ->
  exists fs' sts t', run_all fs ops = Some (fs', sts) /\ spec_history t ops sts t' /\ represents fs' t' F.
Proof.
  intros Hr Hops. revert fs t Hr. induction Hops as [|op ops Hop Hops IH]; intros fs t Hr; cbn [run_all].
  { exists fs, [], t. split; [done|]. split; [constructor|done]. }
  destruct (ramfsm_run_ok fs t F op Hr Hop) as (fs1 & st & -> & _ & Hout). rewrite bind_some.
  destruct Hout as [(-> & Href & Hr1)|[(E & _ & Hr1)|(-> & t1 & E & Hr1)]];
    destruct (IH _ _ Hr1) as (fs2 & sts & t2 & -> & Hh & Hr2); rewrite bind_some;
    (eexists fs2, _, t2; split; [done|]; split; [|done]).
  - by apply history_memory.
  - by apply history_refused.
  - by eapply history_done.
Qed.

Lemma represents_initial h F : km_rep h F -> represents (initial_ramfs h) ∅ F.
Proof.
  intros Hh. exists ∅. split; cbn; try done.
  - by left.
  - split; [by intros p node Hp; rewrite lookup_empty in Hp|by intros p a Hp; rewrite lookup_empty in Hp|
      by intros p q a Hp; rewrite lookup_empty in Hp|by intros a Ha; rewrite lookup_empty in Ha; destruct Ha].
Qed.

Lemma represents_tree fs t F : represents fs t F -> tree_state t.
Proof. intros [A Hr]. apply Hr. Qed.

Lemma spec_move_effect t source destination t' :
  tree_ok t -> spec_move t source destination = inr t' ->
  exists sp, spec_resolve t source = inr sp /\ sp ≠ [] /\
  (t' = t \/
   exists n p, t !! (n :: p) = None /\ ¬ suffix sp p /\ (forall r, t' !! (r ++ n :: p) = t !! (r ++ sp)) /\
     (forall q, suffix sp q -> ¬ suffix (n :: p) q -> t' !! q = None) /\
     (forall q bytes, ¬ suffix sp q -> ¬ suffix (n :: p) q -> t' !! q = Some (File bytes) <-> t !! q = Some (File bytes)) /\
     node_count t' = node_count t /\ total_bytes t' = total_bytes t).
Proof.
  intros Ht. unfold spec_move. destruct (tree_root_some t Ht) as [root ->].
  destruct (spec_resolve t source) as [|sp] eqn:Er; [done|]. case_bool_decide as Hne; [done|].
  destruct spec_target as [|[cs n]] eqn:Et; [done|]. destruct spec_directory as [|[p names]] eqn:Ed; [done|].
  case_bool_decide as Esame; [intros [= <-]; exists sp; by auto|].
  case_bool_decide as Hin; [done|]. case_bool_decide as Hcycle; [done|].
  destruct (spec_fits_at t sp p n) eqn:Ef; try done. destruct (_ && _); [done|]. intros [= <-].
  exists sp. split; [done|]. split; [done|]. right. exists n, p.
  assert (free_place t p names n) as Hf by (by eapply target_place).
  pose proof (spec_resolve_some t Ht _ _ Er) as Hs. destruct sp as [|old up]; [done|].
  destruct (proj1 (to_parent t Ht _ _) Hs) as (upnames & Hup & Hold).
  split; [apply (free_place_none t Ht _ _ _ Hf [])|]. split; [done|].
  split; [by eapply move_lookup_under|]. split.
  - intros q H1 H2. erewrite move_lookup_other by done. by rewrite bool_decide_true.
  - split; [|split; [by eapply move_count|by eapply move_bytes]].
    intros q bytes H1 H2. erewrite move_lookup_other by done. rewrite bool_decide_false by done.
    by destruct (t !! q) as [[]|].
Qed.

End proof.
