(* ===== verification/RamFsTheorems.v ===== *)
(** * Properties of the RAM file system

    The theorems hold over any kernel heap that keeps the promises of
    [KernelMemory]; the witnesses run the file system on the heap of
    KernelHeap.v. *)

From S2P Require Import Prelude KernelHeap KernelMemory RamFs RamFsSpec RamFsRepr RamFsProof RamFsMove.
From Stdlib Require Import String Ascii.

(** ** Counting structures *)

Section counting.
Context {H : Type} `{KernelMemory H}.
Implicit Types (fs : RamFs H) (m : gmap Z FileEntry) (A : gmap (list (list Z)) Z).

Lemma node_addresses m t A : shape m t A -> (map_to_list m).*1 ≡ₚ (fun kv => addr A (fst kv)) <$> map_to_list t.
Proof.
  intros Hsh. assert (filter (fun kv => suffix [] (fst kv)) t = t) as Hall.
  { apply map_filter_id. intros q v _. cbn. apply suffix_nil. }
  rewrite <- Hall. apply (subtree_perm m); [done|apply NoDup_fst_map_to_list|].
  intros b. rewrite list_elem_of_fmap. split.
  - intros ([a e] & -> & Ha). apply elem_of_map_to_list in Ha. destruct (sh_onto _ _ _ Hsh a ltac:(by eexists)) as [q Hq].
    exists q. split; [apply suffix_nil|done].
  - intros (q & _ & Hq). destruct (shape_lookup _ _ _ Hsh _ _ Hq) as (node & e & _ & He & _). exists (b, e).
    split; [done|]. by apply elem_of_map_to_list.
Qed.

Lemma nodes_size m t A : shape m t A -> Z.of_nat (size m) = node_count t.
Proof.
  intros Hsh. unfold node_count. rewrite <- !length_map_to_list, <- (length_fmap fst (map_to_list m)).
  by rewrite (node_addresses _ _ _ Hsh), length_fmap.
Qed.

Lemma nodes_bytes m t A : shape m t A -> sum_map file_bytes_of m = total_bytes t.
Proof.
  intros Hsh. assert (sum_map file_bytes_of m = bytes_in m (map_to_list m).*1) as ->.
  { unfold sum_map, bytes_in. rewrite <- list_fmap_compose. f_equal. apply list_fmap_ext. intros i [a e] Ha.
    apply list_elem_of_lookup_2, elem_of_map_to_list in Ha. cbn. unfold bytes_at. by rewrite Ha. }
  unfold bytes_in, total_bytes, sum_map.
  rewrite (sum_perm _ _ (fmap_Permutation (bytes_at m) _ _ (node_addresses _ _ _ Hsh))), <- list_fmap_compose.
  f_equal. apply list_fmap_ext. intros i [q node] Hq. apply list_elem_of_lookup_2, elem_of_map_to_list in Hq. cbn.
  destruct (sh_node _ _ _ Hsh _ _ Hq) as (b & _ & Hb & _). apply (bytes_at_addr m t A Hsh q); [|done].
  unfold addr. by rewrite Hb.
Qed.

(** What holds of one structure. *)
Record entry_ok fs (a : Z) (e : FileEntry) : Prop := {
  eo_name : Z.of_nat (List.length (e_name e)) <= RAMFS_MAX_NAME_LENGTH \/ a = g_root fs;
  eo_file : e_is_directory e = false -> 0 <= e_size e <= RAMFS_MAX_FILE_SIZE /\
    Z.of_nat (List.length (e_content e)) = e_capacity e /\ e_content e !! Z.to_nat (e_size e) = Some 0 /\ e_children e = [];
  eo_directory : e_is_directory e = true -> child_count e <= e_child_capacity e <= RAMFS_MAX_CHILDREN /\ NoDup (e_children e);
  eo_children : forall c, c ∈ e_children e -> exists ce, nodes fs !! c = Some ce /\ e_parent ce = a;
  eo_parent : a = g_root fs \/ exists pe, nodes fs !! e_parent e = Some pe /\ a ∈ e_children pe
}.

Lemma represented_entry_ok fs t A F a e : repr fs t A F -> tree_ok t -> nodes fs !! a = Some e -> entry_ok fs a e.
Proof.
  intros Hr Ht He. pose proof (r_shape _ _ _ _ Hr) as Hsh.
  destruct (sh_onto _ _ _ Hsh a ltac:(by eexists)) as [q Hq].
  destruct (shape_lookup _ _ _ Hsh _ _ Hq) as (node & e' & Hnode & He' & Hl & Hn). assert (e' = e) as -> by congruence.
  assert (q = [] -> a = g_root fs) as Hroot.
  { intros ->. by rewrite (r_root _ _ _ _ Hr), Hq. }
  split.
  - destruct q as [|n q]; [by right; apply Hroot|left]. destruct Hl as [-> _].
    by destruct (to_name t Ht n q ltac:(by eexists)) as (_ & ? & _).
  - intros Hd. destruct node as [bytes|names]; [|destruct Hn as (Hd' & _); congruence].
    destruct Hn as (_ & _ & -> & (rest & ->) & -> & _ & Hch & _). pose proof (to_file t Ht _ _ Hnode).
    split; [lia|]. split; [done|]. split; [|done]. rewrite Nat2Z.id, lookup_app_r by done. by rewrite Nat.sub_diag.
  - intros Hd. destruct node as [bytes|names]; [destruct Hn as (Hd' & _); congruence|].
    apply node_rep_directory in Hn as ((_ & _ & Hcap & _) & _ & Hf). split; [done|].
    destruct (to_names t Ht _ _ Hnode) as [Hnd _]. clear -Hf Hnd Hsh. revert Hnd. induction Hf as [|c n cs ns Hc Hf IH]; intros Hnd; [constructor|].
    apply NoDup_cons in Hnd as [Hnin Hnd]. constructor; [|by apply IH]. intros Hin. apply Hnin.
    destruct (Forall2_in_l _ _ _ _ Hf Hin) as (n' & Hin' & Hc').
    pose proof (sh_inj _ _ _ Hsh _ _ _ Hc Hc') as E. injection E as ->. done.
  - intros c Hc. destruct node as [bytes|names]; [by destruct Hn as (_ & _ & _ & _ & _ & _ & Hch & _); rewrite Hch in Hc; apply elem_of_nil in Hc|].
    apply node_rep_directory in Hn as (_ & _ & Hf). destruct (Forall2_in_l _ _ _ _ Hf Hc) as (n & _ & Hcn).
    destruct (shape_lookup _ _ _ Hsh _ _ Hcn) as (_ & ce & _ & Hce & [_ Hpar] & _). exists ce. split; [done|]. congruence.
  - destruct q as [|n q]; [by left; apply Hroot|right]. destruct Hl as [_ Hpar].
    destruct (shape_lookup _ _ _ Hsh _ _ Hpar) as (pn & pe & Hpn & Hpe & _ & Hprep). exists pe. split; [done|].
    destruct (proj1 (to_parent t Ht n q) ltac:(by eexists)) as (names & Hnames & Hin). assert (pn = Directory names) as -> by congruence.
    apply node_rep_directory in Hprep as (_ & _ & Hf). destruct (Forall2_in_r _ _ _ _ Hf Hin) as (c & Hcin & Hc).
    congruence.
Qed.

End counting.

(** ** Examples for the witnesses *)

Definition text (s : string) : option (list Z) := Some (map (fun c => Z.of_N (N_of_ascii c)) (list_ascii_of_string s)).

Definition ramfs_heap : State := init_kernel_heap (fun _ => 0) 4096 65536.

Definition ramfs_ops : list Op :=
  [Initialize; Create (text "/a") true; Create (text "a/b") true; Write (text "/a/./b/../b/f") (text "hello") 5 true].

Definition ramfs_example : RamFs State :=
  match run_all (initial_ramfs ramfs_heap) ramfs_ops with Some (fs, _) => fs | None => initial_ramfs ramfs_heap end.

Lemma ramfs_heap_rep : km_rep ramfs_heap [].
Proof.
  destruct (init_ok (fun _ => 0) 4096 65536) as [_ [H|(sz & Hr & Ha)]]; [done|word_lia|word_lia|vm_compute in H; discriminate H|].
  exists [mkBlock sz None]. done.
Qed.

Lemma ramfs_ops_ok : Forall op_ok ramfs_ops.
Proof.
  repeat constructor; try done. intros bytes [= <-]. vm_compute. discriminate.
Qed.

Lemma ramfs_example_represents : exists t, represents ramfs_example t [] /\ t ≠ ∅.
Proof.
  destruct (run_all_ok (initial_ramfs ramfs_heap) ∅ [] ramfs_ops) as (fs & sts & t & E & _ & Hr).
  - apply represents_initial, ramfs_heap_rep.
  - apply ramfs_ops_ok.
  - exists t. unfold ramfs_example. rewrite E. split; [done|]. intros ->. destruct Hr as [A Hr].
    pose proof (r_count _ _ _ _ Hr) as Hc. change (node_count ∅) with 0 in Hc.
    assert (g_node_count ramfs_example = 4) as H4 by (vm_compute; reflexivity).
    unfold ramfs_example in H4. rewrite E in H4. congruence.
Qed.

(** ** A limit of the path lengths *)

Definition long_name (c : Z) : Name := replicate 63 c.

(** A chain of four directories with names of 63 bytes, made with relative paths. *)
Definition long_ops : list Op :=
  Initialize :: map (fun k => Create (Some (tl (path_text (reverse (map long_name (take k [97; 98; 99; 100])))))) true) [1; 2; 3; 4]%nat.

Definition long_path : Path := reverse (map long_name [97; 98; 99; 100]).

(** A relative path of 255 bytes is accepted by [create_directory_at] although the
    absolute path of the new node has 256: the node is then found under its
    relative path only. *)
Lemma long_path_not_addressable :
  option_map (fun '(fs, sts) => (sts, option_map (fun r : Status + Z => match r with inl _ => false | inr _ => true end) (resolve_path fs (Some (tl (absolute long_path)))),
    resolve_path fs (Some (absolute long_path)))) (run_all (initial_ramfs ramfs_heap) long_ops)
  = Some ([Ok; Ok; Ok; Ok; Ok], Some true, Some (inl PathTooLong)).
Proof. vm_compute. reflexivity. Qed.

(** ** Properties *)

(** C4: Whatever sequence of operations the file system goes through from
    the boot state (initialisation, creation, writing, removal, copying and moving,
    with any paths, well-formed or not, and any allocations refused), no operation
    dereferences a dangling pointer or loops; each returns the status the
    specification gives it, or [OutOfMemory] where memory is refused; a failed
    operation leaves the tree exactly as it was, a successful one changes it as
    specified; and the final structures represent the specified tree, with every
    allocation outside them untouched and none leaked. *)
Theorem ramfs_history {H} `{KernelMemory H} (h : H) F ops :
  km_rep h F -> Forall op_ok ops ->
  exists fs sts t, run_all (initial_ramfs h) ops = Some (fs, sts) /\
    spec_history (H := H) ∅ ops sts t /\ represents fs t F.
Proof. intros Hh Hops. apply run_all_ok; [by apply represents_initial|done]. Qed.

Lemma ramfs_history_witness :
  exists fs sts t, run_all (initial_ramfs ramfs_heap) ramfs_ops = Some (fs, sts) /\ spec_history (H := State) ∅ ramfs_ops sts t /\
    sts = [Ok; Ok; Ok; Ok].
Proof.
  destruct (ramfs_history ramfs_heap [] ramfs_ops ramfs_heap_rep ramfs_ops_ok) as (fs & sts & t & E & Hh & _).
  exists fs, sts, t. split; [exact E|]. split; [exact Hh|].
  assert (option_map snd (run_all (initial_ramfs ramfs_heap) ramfs_ops) = Some [Ok; Ok; Ok; Ok]) as E2 by (vm_compute; reflexivity).
  rewrite E in E2. cbn in E2. congruence.
Defined.

(** C12: After any sequence of operations on an initialised file system: the
    counters are the number of structures and the sum of the file sizes, within
    the limits; the live heap allocations are exactly the blocks of the structures
    and those of everyone else; and every structure is well formed: names and files
    are within their limits, a file's buffer has its capacity and a terminating
    zero, a directory's array has room for its children, the children exist and
    point back, and every entry but the root is listed by its parent. *)
Theorem ramfs_invariant {H} `{KernelMemory H} (h : H) F ops fs sts :
  km_rep h F -> Forall op_ok ops -> run_all (initial_ramfs h) ops = Some (fs, sts) -> g_root fs ≠ 0 ->
  g_node_count fs = Z.of_nat (size (nodes fs)) /\ g_node_count fs <= RAMFS_MAX_NODES /\
  g_total_file_bytes fs = sum_map file_bytes_of (nodes fs) /\ g_total_file_bytes fs <= RAMFS_MAX_TOTAL_FILE_BYTES /\
  km_rep (heap fs) (blocks (nodes fs) ++ F) /\
  forall a e, nodes fs !! a = Some e -> entry_ok fs a e.
Proof.
  intros Hh Hops E Hroot. destruct (run_all_ok (initial_ramfs h) ∅ F ops) as (fs' & sts' & t & E' & _ & [A Hr]);
    [by apply represents_initial|done|]. rewrite E in E'. apply (inj Some), pair_equal_spec in E' as [<- <-].
  destruct (r_tree _ _ _ _ Hr) as [->|Ht]; [by destruct Hroot; apply (repr_empty _ _ _ _ Hr); apply lookup_empty|].
  pose proof (r_shape _ _ _ _ Hr) as Hsh. rewrite (nodes_size _ _ _ Hsh), (nodes_bytes _ _ _ Hsh).
  split; [apply Hr|]. split; [rewrite (r_count _ _ _ _ Hr); apply (to_nodes t Ht)|]. split; [apply Hr|].
  split; [rewrite (r_total _ _ _ _ Hr); apply (to_bytes t Ht)|]. split; [apply Hr|].
  intros a e He. by eapply represented_entry_ok.
Qed.

Lemma ramfs_invariant_witness :
  g_node_count ramfs_example = Z.of_nat (size (nodes ramfs_example)) /\ g_node_count ramfs_example = 4.
Proof.
  destruct (run_all (initial_ramfs ramfs_heap) ramfs_ops) as [[fs sts]|] eqn:E.
  - assert (ramfs_example = fs) as Efs by (unfold ramfs_example; rewrite E; reflexivity).
    destruct (ramfs_invariant ramfs_heap [] ramfs_ops fs sts ramfs_heap_rep ramfs_ops_ok E) as (H1 & _).
    + rewrite <- Efs. vm_compute. discriminate.
    + split; [rewrite Efs; exact H1|vm_compute; reflexivity].
  - exfalso. assert (option_map snd (run_all (initial_ramfs ramfs_heap) ramfs_ops) = Some [Ok; Ok; Ok; Ok]) as E2
      by (vm_compute; reflexivity). rewrite E in E2. discriminate E2.
Defined.

(** A successful [move_path] (or [rename_path]) either does nothing, because
    the destination is the source, or takes the whole subtree to a place that was
    free and not inside it: every node below the source is found at the same
    relative path below the destination, with the same contents, nothing is left
    behind, every file elsewhere is as before, and no node or byte is lost. *)
Theorem ramfs_move {H} `{KernelMemory H} (fs fs' : RamFs H) t F source destination :
  represents fs t F -> move_path fs source destination = Some (fs', Ok) ->
  exists t' sp, represents fs' t' F /\ spec_resolve t source = inr sp /\ sp ≠ [] /\
  (t' = t \/
   exists n p, t !! (n :: p) = None /\ ¬ suffix sp p /\ (forall r, t' !! (r ++ n :: p) = t !! (r ++ sp)) /\
     (forall q, suffix sp q -> ¬ suffix (n :: p) q -> t' !! q = None) /\
     (forall q bytes, ¬ suffix sp q -> ¬ suffix (n :: p) q -> t' !! q = Some (File bytes) <-> t !! q = Some (File bytes)) /\
     node_count t' = node_count t /\ total_bytes t' = total_bytes t).
Proof.
  intros Hr E. destruct (move_path_ok fs t F source destination Hr) as (fs1 & st & E1 & _ & Hout).
  rewrite E in E1. apply (inj Some), pair_equal_spec in E1 as [<- <-].
  destruct Hout as [(? & _)|[(_ & ? & _)|(_ & t' & Es & Hr')]]; [done|done|].
  destruct (represents_tree _ _ _ Hr) as [->|Ht]; [done|].
  destruct (spec_move_effect t source destination t' Ht Es) as (sp & H1 & H2 & H3). by exists t', sp.
Qed.

Lemma ramfs_move_witness :
  exists fs' t t' sp, represents ramfs_example t [] /\ represents fs' t' [] /\
    move_path ramfs_example (text "/a/b") (text "/c") = Some (fs', Ok) /\ spec_resolve t (text "/a/b") = inr sp /\ sp ≠ [].
Proof.
  destruct ramfs_example_represents as (t & Hr & _).
  assert (option_map snd (move_path ramfs_example (text "/a/b") (text "/c")) = Some Ok) as E2 by (vm_compute; reflexivity).
  destruct (move_path ramfs_example (text "/a/b") (text "/c")) as [[fs' st]|] eqn:E; [|discriminate E2].
  assert (st = Ok) as -> by (cbn in E2; congruence).
  destruct (ramfs_move ramfs_example fs' t [] _ _ Hr E) as (t' & sp & Hr' & Hsp & Hne & _).
  exists fs', t, t', sp. split; [exact Hr|]. split; [exact Hr'|]. split; [reflexivity|]. split; [exact Hsp|exact Hne].
Defined.

(** After a successful write, reading the same path into a large enough buffer
    gives back exactly the bytes written, whether the file existed or was created;
    and every other file has the bytes it had. *)
Theorem ramfs_write_read {H} `{KernelMemory H} (fs fs' : RamFs H) t F path data size create_if_missing capacity :
  let bytes := take (Z.to_nat size) (default [] data) in
  represents fs t F -> write_args_ok data size -> write_file_data fs path data size create_if_missing = Some (fs', Ok) ->
  Z.of_nat (List.length bytes) <= capacity ->
  exists t' p, represents fs' t' F /\ t' !! p = Some (File bytes) /\
    (forall q other, q ≠ p -> t' !! q = Some (File other) <-> t !! q = Some (File other)) /\
    read_file_data fs' path true capacity = Some (finish fs' Ok, Ok, Z.of_nat (List.length bytes), bytes).
Proof.
  intros bytes Hr Hargs E Hcap. destruct (write_file_data_ok fs t F path data size create_if_missing Hr Hargs) as (fs1 & st & E1 & _ & Hout).
  rewrite E in E1. apply (inj Some), pair_equal_spec in E1 as [<- <-].
  destruct Hout as [(? & _)|[(_ & ? & _)|(_ & t' & Es & Hr')]]; [done|done|].
  destruct (represents_tree _ _ _ Hr) as [->|Ht]; [by unfold spec_write in Es; rewrite lookup_empty in Es|].
  destruct (spec_write_effect t path data size create_if_missing t' Ht Es) as (p & Hp & Hb & Hother). fold bytes in Hb.
  exists t', p. split; [done|]. split; [done|]. split; [done|].
  destruct (read_file_data_ok fs' t' F path true capacity Hr') as (st & n & b & -> & Hread). rewrite Hp, Hb in Hread.
  destruct Hread as (-> & Hread). destruct (Z.ltb_spec capacity (Z.of_nat (List.length bytes))); [lia|]. cbn in Hread.
  by destruct Hread as (-> & ->).
Qed.

Lemma ramfs_write_read_witness :
  exists fs', write_file_data ramfs_example (text "a/new") (text "hello") 5 true = Some (fs', Ok) /\
    read_file_data fs' (text "a/new") true 5 = Some (finish fs' Ok, Ok, 5, [104; 101; 108; 108; 111]).
Proof.
  destruct ramfs_example_represents as (t & Hr & _).
  assert (option_map snd (write_file_data ramfs_example (text "a/new") (text "hello") 5 true) = Some Ok) as E2 by (vm_compute; reflexivity).
  destruct (write_file_data ramfs_example (text "a/new") (text "hello") 5 true) as [[fs' st]|] eqn:E; [|discriminate E2].
  assert (st = Ok) as -> by (cbn in E2; congruence).
  destruct (ramfs_write_read ramfs_example fs' t [] (text "a/new") (text "hello") 5 true 5 Hr) as (t' & p & _ & _ & _ & Hread).
  - split; [lia|]. intros b Eb. injection Eb as <-. vm_compute. discriminate.
  - exact E.
  - vm_compute. discriminate.
  - exists fs'. split; [reflexivity|exact Hread].
Defined.

(** C38: The path parser always ends and computes the reference parser: the bytes
    up to the terminator, split at separators, with the depth followed component
    by component; what it accepts has only non-empty components of at most 63
    bytes without separators, together at most 256 bytes with their separators. *)
Theorem parse_path_correct path :
  parse_path path = Some (path_of path) /\
  forall parsed, path_of path = inr parsed ->
    Forall (fun c => c ≠ [] /\ (SLASH ∉ c) /\ (0 ∉ c) /\ Z.of_nat (List.length c) <= RAMFS_MAX_NAME_LENGTH) (components parsed) /\
    text_length (components parsed) <= RAMFS_MAX_PATH_LENGTH + 1.
Proof.
  split; [apply parse_path_ok|]. intros parsed Hp. by destruct (path_of_ok _ _ Hp) as (H1 & H2 & _).
Qed.

Lemma parse_path_correct_witness :
  Forall (fun c => c ≠ [] /\ (SLASH ∉ c) /\ (0 ∉ c) /\ Z.of_nat (List.length c) <= RAMFS_MAX_NAME_LENGTH) [[97]; [46; 46]; [98]].
Proof.
  destruct (parse_path_correct (text "/a//../b/")) as [_ Hp].
  apply (Hp (mkParsedPath [[97]; [46; 46]; [98]] true)). vm_compute. reflexivity.
Defined.

(** Every node is found under its absolute path (its names from the root
    down, each after a separator), as long as that text has at most 255 bytes. *)
Theorem absolute_path_roundtrip {H} `{KernelMemory H} (fs : RamFs H) t A F p :
  repr fs t A F -> is_Some (t !! p) -> path_length p <= RAMFS_MAX_PATH_LENGTH ->
  exists a, A !! p = Some a /\ resolve_path fs (Some (absolute p)) = value a.
Proof.
  intros Hr Hs Hlen. assert (tree_ok t) as Ht by (destruct (r_tree _ _ _ _ Hr) as [->|]; [by rewrite lookup_empty in Hs; destruct Hs|done]).
  rewrite (resolve_path_ok fs t A F Hr), (absolute_resolves t p Ht Hs Hlen). destruct Hs as [node Hp].
  destruct (repr_node _ _ _ _ Hr _ _ Hp) as (_ & Ha & _). by exists (addr A p).
Qed.

Lemma absolute_path_roundtrip_witness :
  exists t A a, repr ramfs_example t A [] /\ A !! [] = Some a /\ resolve_path ramfs_example (text "/") = value a.
Proof.
  destruct ramfs_example_represents as (t & [A Hr] & Ht).
  destruct (absolute_path_roundtrip ramfs_example t A [] [] Hr) as (a & Ha & E).
  - destruct (r_tree _ _ _ _ Hr) as [E|Ht']; [destruct (Ht E)|]. destruct (to_root t Ht') as [names En]. exists (Directory names). exact En.
  - vm_compute. discriminate.
  - exists t, A, a. split; [exact Hr|]. split; [exact Ha|exact E].
Defined.
