(* ===== verification/DiskLayout.v ===== *)
(** * Partitioning an installation target (kernel/install/disk_layout.cpp)

    [prepare_install_target] writes both copies of a GUID partition table and the
    protective boot record through the block layer.  The byte buffers of the code
    are lists; [put16], [put32] and [put64] store a little-endian word at an
    offset.  The entry buffer is cleared before it is filled, so the previous
    contents of the static [g_entries] do not matter and it is a local value
    here.  The theorem composes this file with Gpt.v: what the installer
    writes is what the boot-time parser reads. *)

From S2P Require Import Prelude BlockDevice Partition Gpt.
From Stdlib Require Import String Ascii.
Local Open Scope Z_scope.
Local Abbreviation length := List.length (only parsing).

(** ** Data *)

Definition MINIMUM_DISK_SECTORS : Z := 1024 * 1024.
Definition ESP_FIRST_LBA : Z := 2048.
Definition ESP_SECTOR_COUNT : Z := 131072.

Record Layout := mkLayout {
  esp_first_lba : Z; esp_sector_count : Z; root_first_lba : Z; root_sector_count : Z }.

Inductive LayoutStatus :=
| LayoutOk | LayoutInvalidArgument | UnsupportedGeometry | DiskTooSmall | DiskNotEmpty | LayoutBlockDeviceError.

#[export] Instance LayoutStatus_eq_dec : EqDecision LayoutStatus.
Proof. solve_decision. Defined.

Definition kSectorSize : Z := 512.
Definition kEntryCount : Z := 128.
Definition kEntrySize : Z := 128.
Definition kEntrySectors : Z := 32.
Definition kFirstUsableLba : Z := 34.

Definition kEspType : list Z :=
  [0x28; 0x73; 0x2A; 0xC1; 0x1F; 0xF8; 0xD2; 0x11; 0xBA; 0x4B; 0x00; 0xA0; 0xC9; 0x3E; 0xC9; 0x3B].
Definition kRootType : list Z :=
  [0x4F; 0x52; 0x55; 0x4B; 0x41; 0x47; 0x45; 0x4E; 0x8F; 0x53; 0x52; 0x4F; 0x4F; 0x54; 0x30; 0x01].
Definition kDiskGuid : list Z :=
  [0x53; 0x4F; 0x52; 0x4B; 0x47; 0x41; 0x4E; 0x45; 0x80; 0x00; 0x44; 0x49; 0x53; 0x4B; 0x30; 0x01].
Definition kEspGuid : list Z :=
  [0x53; 0x45; 0x55; 0x4B; 0x47; 0x41; 0x4E; 0x45; 0x80; 0x00; 0x45; 0x53; 0x50; 0x30; 0x30; 0x01].
Definition kRootGuid : list Z :=
  [0x54; 0x4F; 0x4F; 0x52; 0x47; 0x41; 0x4E; 0x45; 0x80; 0x00; 0x52; 0x4F; 0x4F; 0x54; 0x30; 0x01].

(** The characters of a string literal. *)
Definition chars (s : string) : list Z := (fun c => Z.of_N (N_of_ascii c)) <$> list_ascii_of_string s.

(** ** Bytes *)

Definition clear (size : Z) : list Z := replicate (Z.to_nat size) 0.

Definition copy (buffer : list Z) (offset : Z) (source : list Z) : list Z :=
  list_inserts (Z.to_nat offset) source buffer.

Definition put16 (buffer : list Z) (offset value : Z) : list Z :=
  copy buffer offset [u8 value; u8 (Z.shiftr value 8)].

Definition put32 (buffer : list Z) (offset value : Z) : list Z :=
  copy buffer offset ((fun index => u8 (Z.shiftr value (index * 8))) <$> seqZ 0 4).

Definition put64 (buffer : list Z) (offset value : Z) : list Z :=
  put32 (put32 buffer offset (u32 value)) (offset + 4) (u32 (Z.shiftr value 32)).

Fixpoint put_name_loop (buffer : list Z) (entry index : Z) (name : list Z) : list Z :=
  match name with
  | [] => buffer
  | c :: name' =>
      if (c =? 0) || negb (index <? 36) then buffer
      else put_name_loop (put16 buffer (entry + 56 + index * 2) (u8 c)) entry (index + 1) name'
  end.

Definition put_name (buffer : list Z) (entry : Z) (name : list Z) : list Z := put_name_loop buffer entry 0 name.

(** libk/crc.cpp. *)
Definition k_crc32 (bytes : list Z) : Z := u32 (Z.lnot (fold_left crc_byte bytes UINT32_MAX)).

(** ** The structures *)

(** [entry] is an offset into the buffer. *)
Definition build_entry (buffer : list Z) (entry : Z) (type unique : list Z) (first_lba last_lba : Z)
    (name : list Z) : list Z :=
  let buffer := copy buffer entry type in
  let buffer := copy buffer (entry + 16) unique in
  let buffer := put64 buffer (entry + 32) first_lba in
  let buffer := put64 buffer (entry + 40) last_lba in
  put_name buffer entry name.

Definition build_header (current_lba backup_lba last_usable_lba entries_lba entries_crc : Z) : list Z :=
  let sector := clear kSectorSize in
  let sector := copy sector 0 [69; 70; 73; 32; 80; 65; 82; 84] in
  let sector := put32 sector 8 0x00010000 in
  let sector := put32 sector 12 92 in
  let sector := put64 sector 24 current_lba in
  let sector := put64 sector 32 backup_lba in
  let sector := put64 sector 40 kFirstUsableLba in
  let sector := put64 sector 48 last_usable_lba in
  let sector := copy sector 56 kDiskGuid in
  let sector := put64 sector 72 entries_lba in
  let sector := put32 sector 80 kEntryCount in
  let sector := put32 sector 84 kEntrySize in
  let sector := put32 sector 88 entries_crc in
  put32 sector 16 (k_crc32 (take 92 sector)).

Definition build_entries (esp_last_lba root_first_lba last_usable_lba : Z) : list Z :=
  let g_entries := clear (kEntryCount * kEntrySize) in
  let g_entries := build_entry g_entries 0 kEspType kEspGuid ESP_FIRST_LBA esp_last_lba (chars "Kurogane ESP") in
  build_entry g_entries kEntrySize kRootType kRootGuid root_first_lba last_usable_lba (chars "Kurogane Root").

Definition protective_mbr (sector_count : Z) : list Z :=
  let sector := clear kSectorSize in
  let sector := <[Z.to_nat (446 + 4) := 0xEE]> sector in
  let sector := put32 sector (446 + 8) 1 in
  let protective_size := sector_count ⊖ 1 in
  let sector := put32 sector (446 + 12) (if UINT32_MAX <? protective_size then UINT32_MAX else u32 protective_size) in
  <[511%nat := 0xAA]> (<[510%nat := 0x55]> sector).

(** ** Operations *)

Section disk_layout.
Context {W : Type}.

Definition write_sector (device : Device W) (io : IO W) (lba : Z) (sector : list Z) : IO W * Status :=
  write_blocks (Some device) io lba 1 (Some sector) kSectorSize.

Definition validate_target (device : option (Device W)) (has_output : bool) : LayoutStatus :=
  match device with
  | None => LayoutInvalidArgument
  | Some d =>
      if negb has_output then LayoutInvalidArgument
      else if negb (bool_decide (validate (Some d) = Ok)) || negb (sector_size d =? kSectorSize) then UnsupportedGeometry
      else if sector_count d <? MINIMUM_DISK_SECTORS then DiskTooSmall
      else LayoutOk
  end.

(** Sector [index] of the entry buffer. *)
Definition entry_sector (entries : list Z) (index : Z) : list Z :=
  take (Z.to_nat kSectorSize) (drop (Z.to_nat (index * kSectorSize)) entries).

(** The loop over the sectors of the entry array: first the backup copy, then
    the primary one.  The boolean says whether every write succeeded. *)
Fixpoint write_entries (n : nat) (device : Device W) (io : IO W) (backup_entries_lba index : Z) (entries : list Z)
  : IO W * bool :=
  match n with
  | O => (io, true)
  | S n' =>
      let sector := entry_sector entries index in
      let '(io, status) := write_sector device io (backup_entries_lba ⊕ index) sector in
      if negb (bool_decide (status = Ok)) then (io, false)
      else
        let '(io, status) := write_sector device io (2 ⊕ index) sector in
        if negb (bool_decide (status = Ok)) then (io, false)
        else write_entries n' device io backup_entries_lba (index + 1) entries
  end.

Definition prepare_install_target (device : option (Device W)) (io : IO W) (has_output : bool)
  : IO W * LayoutStatus * option Layout :=
  match validate_target device has_output, device with
  | LayoutOk, Some d =>
      let backup_header_lba := sector_count d ⊖ 1 in
      let backup_entries_lba := backup_header_lba ⊖ kEntrySectors in
      let last_usable_lba := backup_entries_lba ⊖ 1 in
      let esp_last_lba := (ESP_FIRST_LBA ⊕ ESP_SECTOR_COUNT) ⊖ 1 in
      let root_first := esp_last_lba ⊕ 1 in
      if last_usable_lba <=? root_first then (io, DiskTooSmall, None)
      else
        let entries := build_entries esp_last_lba root_first last_usable_lba in
        let entries_crc := k_crc32 entries in
        let '(io, written) := write_entries (Z.to_nat kEntrySectors) d io backup_entries_lba 0 entries in
        if negb written then (io, LayoutBlockDeviceError, None)
        else
          let '(io, status) := write_sector d io backup_header_lba
            (build_header backup_header_lba 1 last_usable_lba backup_entries_lba entries_crc) in
          if negb (bool_decide (status = Ok)) then (io, LayoutBlockDeviceError, None)
          else
            let '(io, status) := write_sector d io 1
              (build_header 1 backup_header_lba last_usable_lba 2 entries_crc) in
            if negb (bool_decide (status = Ok)) then (io, LayoutBlockDeviceError, None)
            else
              let '(io, status) := write_sector d io 0 (protective_mbr (sector_count d)) in
              if negb (bool_decide (status = Ok)) then (io, LayoutBlockDeviceError, None)
              else
                let '(io, status) := flush (Some d) io in
                if negb (bool_decide (status = Ok)) then (io, LayoutBlockDeviceError, None)
                else (io, LayoutOk, Some (mkLayout ESP_FIRST_LBA ESP_SECTOR_COUNT root_first
                                            ((last_usable_lba ⊖ root_first) ⊕ 1)))
  | st, _ => (io, st, None)
  end.

Definition prepare_empty_disk (device : option (Device W)) (io : IO W) (has_output : bool)
  : IO W * LayoutStatus * option Layout :=
  match validate_target device has_output, device with
  | LayoutOk, Some d =>
      match read_blocks (Some d) io 0 1 true kSectorSize with
      | (io, Ok, sector) =>
          if existsb (fun byte => negb (byte =? 0)) sector then (io, DiskNotEmpty, None)
          else prepare_install_target device io has_output
      | (io, _, _) => (io, LayoutBlockDeviceError, None)
      end
  | st, _ => (io, st, None)
  end.

End disk_layout.

(** ** Bytes written and read back *)

Lemma lxor_range a b n : 0 <= n -> 0 <= a < 2 ^ n -> 0 <= b < 2 ^ n -> 0 <= Z.lxor a b < 2 ^ n.
Proof.
  intros Hn Ha Hb. rewrite <- (Z.mod_small a (2 ^ n)), <- (Z.mod_small b (2 ^ n)) by done.
  rewrite <- !Z.land_ones by done. assert (Z.lxor (Z.land a (Z.ones n)) (Z.land b (Z.ones n)) = Z.land (Z.lxor a b) (Z.ones n)) as ->.
  { apply Z.bits_inj'. intros k Hk. rewrite !Z.land_spec, !Z.lxor_spec, !Z.land_spec. by destruct (Z.testbit a k), (Z.testbit b k), (Z.testbit (Z.ones n) k). }
  rewrite Z.land_ones by done. apply Z.mod_pos_bound. lia.
Qed.

Lemma crc_bit_range crc : is_u32 crc -> is_u32 (crc_bit crc).
Proof.
  intros Hc. unfold crc_bit. rewrite Z.shiftr_div_pow2 by lia. unfold is_u32 in *.
  assert (0 <= crc / 2 ^ 1 < 2 ^ 32) as H1 by (split; [apply Z.div_pos; lia|apply Z.div_lt_upper_bound; lia]).
  assert (0 <= Z.land 0xEDB88320 (u32 (0 - Z.land crc 1)) < 2 ^ 32) as H2 by (apply land_range; lia).
  apply lxor_range; done || lia.
Qed.

Lemma crc_bits_range n crc : is_u32 crc -> is_u32 (Nat.iter n crc_bit crc).
Proof. intros Hc. induction n as [|n IH]; [done|]. cbn [Nat.iter]. by apply crc_bit_range. Qed.

Lemma crc_byte_iter crc b : crc_byte crc b = Nat.iter 8 crc_bit (Z.lxor crc b).
Proof. reflexivity. Qed.

Lemma crc_byte_range crc b : is_u32 crc -> is_u8 b -> is_u32 (crc_byte crc b).
Proof.
  intros Hc Hb. rewrite crc_byte_iter. apply crc_bits_range. apply lxor_range; unfold is_u8, is_u32 in *; lia.
Qed.

Lemma fold_left_cons {A B} (f : A -> B -> A) b l a : fold_left f (b :: l) a = fold_left f l (f a b).
Proof. reflexivity. Qed.

Lemma crc_fold_range bytes : forall crc, Forall is_u8 bytes -> is_u32 crc -> is_u32 (fold_left crc_byte bytes crc).
Proof.
  induction bytes as [|b bytes IH]; intros crc Hf Hc; [done|]. apply Forall_cons in Hf as [Hb Hf].
  rewrite fold_left_cons. apply IH; [done|]. by apply crc_byte_range.
Qed.

(** The two implementations of the checksum agree. *)
Lemma k_crc32_eq bytes n : Forall is_u8 bytes -> (length bytes <= n)%nat -> crc32 bytes n = k_crc32 bytes.
Proof.
  intros Hf Hn. unfold crc32, crc32_update, k_crc32. rewrite take_ge by done.
  set (crc := fold_left _ _ _). assert (0 <= crc < 2 ^ 32) as Hc by (apply crc_fold_range; [done|unfold is_u32, UINT32_MAX; lia]).
  unfold u32. rewrite <- Z.land_ones by lia. change UINT32_MAX with (Z.ones 32).
  apply Z.bits_inj'. intros k Hk. rewrite Z.lxor_spec, Z.land_spec, Z.lnot_spec by lia.
  destruct (Z.lt_ge_cases k 32); [by rewrite Z.ones_spec_low, xorb_true_r, andb_true_r by lia|].
  rewrite Z.ones_spec_high, andb_false_r, xorb_false_r by lia.
  rewrite <- (Z.mod_small crc (2 ^ 32)) by done. apply Z.mod_pow2_bits_high. lia.
Qed.

Lemma k_crc32_range bytes : is_u32 (k_crc32 bytes).
Proof. apply u32_range. Qed.

(** Four bytes stored by [put32] read back. *)
Lemma read_u32_bytes l off v :
  is_u32 v -> (forall k, 0 <= k < 4 -> word_at l (off + k) = u8 (Z.shiftr v (k * 8))) -> read_u32 l off = v.
Proof.
  intros Hv Hl. unfold read_u32.
  replace (word_at l off) with (u8 (Z.shiftr v 0)) by (rewrite <- (Z.add_0_r off); symmetry; by apply Hl).
  rewrite !Hl by lia. rewrite !Z.shiftr_div_pow2 by lia.
  assert (forall x, 0 <= u8 x < 2 ^ 8) as Hb by (intros x; apply Z.mod_pos_bound; lia).
  pose proof (Hb (v / 2 ^ 0)). pose proof (Hb (v / 2 ^ (1 * 8))). pose proof (Hb (v / 2 ^ (2 * 8))).
  set (b0 := u8 (v / 2 ^ 0)) in *. set (b1 := u8 (v / 2 ^ (1 * 8))) in *. set (b2 := u8 (v / 2 ^ (2 * 8))) in *.
  rewrite (Z.lor_comm b0), (lor_shift_add b1 b0 8) by lia.
  rewrite (Z.lor_comm _ (Z.shiftl b2 16)), (lor_shift_add b2 _ 16) by lia.
  rewrite Z.lor_comm, lor_shift_add by lia. unfold b0, b1, b2, u8.
  change (2 ^ 0) with 1. rewrite Z.div_1_r. change (2 ^ (1 * 8)) with 256. change (2 ^ (2 * 8)) with (256 * 256).
  change (2 ^ (3 * 8)) with (256 * 256 * 256). unfold is_u32 in Hv. rewrite <- !Z.div_div by lia.
  clear -Hv. pose proof (Z.div_mod v 256 ltac:(lia)). pose proof (Z.div_mod (v / 256) 256 ltac:(lia)).
  pose proof (Z.div_mod (v / 256 / 256) 256 ltac:(lia)).
  rewrite (Z.mod_small (v / 256 / 256 / 256)); [change (2 ^ 8) with 256; lia|].
  split; [repeat (apply Z.div_pos; [|lia]); lia|]. repeat (apply Z.div_lt_upper_bound; [lia|]). lia.
Qed.

Lemma read_u64_bytes l off v :
  is_u64 v -> (forall k, 0 <= k < 4 -> word_at l (off + k) = u8 (Z.shiftr (u32 v) (k * 8))) ->
  (forall k, 0 <= k < 4 -> word_at l (off + 4 + k) = u8 (Z.shiftr (u32 (Z.shiftr v 32)) (k * 8))) -> read_u64 l off = v.
Proof.
  intros Hv Hlo Hhi. unfold read_u64. rewrite (read_u32_bytes l off (u32 v)) by (done || apply u32_range).
  rewrite (read_u32_bytes l (off + 4) (u32 (Z.shiftr v 32))) by (done || apply u32_range).
  rewrite Z.lor_comm, lor_shift_add by (lia || apply u32_range). rewrite Z.shiftr_div_pow2 by lia.
  unfold u32, is_u64 in *. zdm.
Qed.

(** ** The structures as byte strings *)

Definition bytes32 (v : Z) : list Z := (fun index => u8 (Z.shiftr v (index * 8))) <$> seqZ 0 4.
Definition bytes64 (v : Z) : list Z := bytes32 (u32 v) ++ bytes32 (u32 (Z.shiftr v 32)).

(** The first 92 bytes of a header around the four bytes of its checksum. *)
Definition header_bytes (crc : list Z) (current_lba backup_lba last_usable_lba entries_lba entries_crc : Z) : list Z :=
  [69; 70; 73; 32; 80; 65; 82; 84] ++ bytes32 0x00010000 ++ bytes32 92 ++ crc ++ replicate 4 0 ++
  bytes64 current_lba ++ bytes64 backup_lba ++ bytes64 kFirstUsableLba ++ bytes64 last_usable_lba ++ kDiskGuid ++
  bytes64 entries_lba ++ bytes32 kEntryCount ++ bytes32 kEntrySize ++ bytes32 entries_crc.

Definition name_bytes (name : list Z) : list Z := mjoin ((fun c => [u8 (u8 c); u8 (Z.shiftr (u8 c) 8)]) <$> name).

Definition entry_bytes (type unique : list Z) (first_lba last_lba : Z) (name : list Z) : list Z :=
  type ++ unique ++ bytes64 first_lba ++ bytes64 last_lba ++ replicate 8 0 ++ name_bytes name ++
  replicate (72 - 2 * length name) 0.

Lemma build_header_eq current backup last entries crc :
  let hash := k_crc32 (header_bytes (replicate 4 0) current backup last entries crc) in
  build_header current backup last entries crc = header_bytes (bytes32 hash) current backup last entries crc ++ replicate 420 0.
Proof. lazy -[u8 u32 Z.shiftr k_crc32]. reflexivity. Qed.

Lemma build_entries_eq esp_last root_first last :
  build_entries esp_last root_first last =
  entry_bytes kEspType kEspGuid ESP_FIRST_LBA esp_last (chars "Kurogane ESP") ++
  entry_bytes kRootType kRootGuid root_first last (chars "Kurogane Root") ++ replicate (126 * 128) 0.
Proof. lazy -[u8 u32 Z.shiftr]. reflexivity. Qed.

(** ** Writing *)

Section write.
Context {W : Type} (d : Device W) (content : W -> Z -> list Z).
Context (Hd : Disk d content).
Hypothesis Hss : sector_size d = kSectorSize.

Lemma write_sector_ok io lba sector :
  0 <= lba < sector_count d -> length sector = 512%nat ->
  exists io', write_sector d io lba sector = (io', Ok) /\
    forall i, 0 <= i < sector_count d -> content (world io') i = if decide (i = lba) then sector else content (world io) i.
Proof.
  intros Hl Hlen. unfold write_sector.
  destruct (disk_write_blocks d content io lba 1 sector kSectorSize Hd) as (w' & E & Hw);
    [lia..|rewrite Hss; unfold kSectorSize; word_lia|rewrite Hss; lia|rewrite Hlen; done|].
  exists (record_disk_blocks (mkIO w' (g_disk_blocks io)) 1). split; [done|]. intros i Hi. rewrite record_world. cbn [world].
  rewrite (Hw i Hi). case_decide as Hil.
  - subst i. replace ((lba <=? lba) && (lba <? lba + 1)) with true by lia. unfold sector_of.
    rewrite Z.sub_diag, Hss. change (Z.to_nat (0 * kSectorSize)) with 0%nat. rewrite drop_0. apply take_ge. by rewrite Hlen.
  - by replace ((lba <=? i) && (i <? lba + 1)) with false by lia.
Qed.

Lemma entry_sector_length entries index :
  0 <= index -> (index + 1) * kSectorSize <= Z.of_nat (length entries) -> length (entry_sector entries index) = 512%nat.
Proof. intros Hi Hl. unfold entry_sector. rewrite length_take, length_drop. unfold kSectorSize in *. lia. Qed.

(** Both copies of the entry array. *)
Lemma write_entries_ok entries backup n : forall io index,
  0 <= index -> (index + Z.of_nat n) * kSectorSize <= Z.of_nat (length entries) -> index + Z.of_nat n <= 32 ->
  34 <= backup -> backup + 32 <= sector_count d ->
  exists io', write_entries n d io backup index entries = (io', true) /\
    forall i, 0 <= i < sector_count d -> content (world io') i =
      if decide (2 + index <= i < 2 + index + Z.of_nat n) then entry_sector entries (i - 2)
      else if decide (backup + index <= i < backup + index + Z.of_nat n) then entry_sector entries (i - backup)
      else content (world io) i.
Proof.
  pose proof (disk_geometry (Disk := Hd)) as Hg. unfold kSectorSize.
  induction n as [|n IH]; intros io index Hi Hl Hn Hb Hc; cbn [write_entries].
  - exists io. split; [done|]. intros i Hr. rewrite !decide_False by lia. done.
  - rewrite !u64_small by word_lia. assert (length (entry_sector entries index) = 512%nat) as Hlen
      by (apply entry_sector_length; unfold kSectorSize; lia).
    destruct (write_sector_ok io (backup + index) _ ltac:(lia) Hlen) as (io1 & -> & H1).
    rewrite bool_decide_true by done. cbn [negb].
    destruct (write_sector_ok io1 (2 + index) _ ltac:(lia) Hlen) as (io2 & -> & H2).
    rewrite bool_decide_true by done. cbn [negb].
    destruct (IH io2 (index + 1)) as (io' & -> & H3); [lia..|]. exists io'. split; [done|]. intros i Hr.
    rewrite (H3 i Hr), (H2 i Hr), (H1 i Hr). repeat case_decide; try lia; try done; f_equal; lia.
Qed.

End write.

Lemma entry_sectors_join entries n :
  Z.of_nat n * kSectorSize <= Z.of_nat (length entries) ->
  mjoin (entry_sector entries <$> seqZ 0 (Z.of_nat n)) = take (n * 512) entries.
Proof.
  intros Hl. unfold kSectorSize in Hl. induction n as [|n IH]; [done|].
  rewrite seqZ_S, fmap_app, join_app, IH by lia. cbn [fmap list_fmap mjoin list_join]. rewrite app_nil_r.
  unfold entry_sector, kSectorSize. replace (Z.to_nat ((0 + Z.of_nat n) * 512)) with (n * 512)%nat by lia.
  replace (S n * 512)%nat with (n * 512 + Z.to_nat 512)%nat by lia. by rewrite take_take_drop.
Qed.

(** ** Reading it back *)

Lemma u8_is_u8 x : is_u8 (u8 x).
Proof. apply Z.mod_pos_bound. lia. Qed.

Lemma bytes32_u8 v : Forall is_u8 (bytes32 v).
Proof. unfold bytes32. apply Forall_fmap, Forall_true. intros x. apply u8_is_u8. Qed.

Lemma header_bytes_u8 crc a b c e f : Forall is_u8 crc -> Forall is_u8 (header_bytes crc a b c e f).
Proof.
  intros Hc. assert (forall l, forallb (fun x => (0 <=? x) && (x <? 256)) l = true -> Forall is_u8 l) as Hconst.
  { intros l Hl. apply Forall_forall. intros x Hx. rewrite forallb_forall in Hl.
    specialize (Hl x (proj1 (list_elem_of_In _ _) Hx)). word_lia. }
  unfold header_bytes, bytes64. rewrite !Forall_app. repeat split; try apply bytes32_u8; try done; apply Hconst; vm_compute; reflexivity.
Qed.

(** Decide a header field by computing the bytes at its offset. *)
Ltac field_bytes :=
  intros k Hk; assert (k = 0 \/ k = 1 \/ k = 2 \/ k = 3) as [->|[->|[->| ->]]] by lia;
  lazy -[u8 u32 Z.shiftr k_crc32]; reflexivity.

Section header.
Context (hash current backup last_usable entries_lba entries_crc : Z) (rest : list Z).
Let sector := header_bytes (bytes32 hash) current backup last_usable entries_lba entries_crc ++ rest.
Let cleared := header_bytes (replicate 4 0) current backup last_usable entries_lba entries_crc ++ rest.

Lemma clear_crc_header : clear_crc sector = cleared.
Proof. reflexivity. Qed.

Lemma header_fields :
  is_u32 hash -> is_u64 current -> is_u64 backup -> is_u64 last_usable -> is_u64 entries_lba -> is_u32 entries_crc ->
  equal_bytes sector HEADER_SIGNATURE_OFFSET EFI_PART = true /\
  read_u32 sector HEADER_REVISION_OFFSET = GPT_REVISION_1_0 /\ read_u32 sector HEADER_SIZE_OFFSET = 92 /\
  read_u32 sector HEADER_RESERVED_OFFSET = 0 /\ read_u32 sector HEADER_CRC_OFFSET = hash /\
  read_u64 cleared HEADER_CURRENT_LBA_OFFSET = current /\ read_u64 cleared HEADER_BACKUP_LBA_OFFSET = backup /\
  read_u64 cleared HEADER_FIRST_USABLE_OFFSET = kFirstUsableLba /\ read_u64 cleared HEADER_LAST_USABLE_OFFSET = last_usable /\
  read_u64 cleared HEADER_ENTRY_LBA_OFFSET = entries_lba /\ read_u32 cleared HEADER_ENTRY_COUNT_OFFSET = kEntryCount /\
  read_u32 cleared HEADER_ENTRY_SIZE_OFFSET = kEntrySize /\ read_u32 cleared HEADER_ENTRY_CRC_OFFSET = entries_crc /\
  slice cleared HEADER_DISK_GUID_OFFSET 16 = kDiskGuid.
Proof.
  intros Hh Hc Hb Hl He Hcrc. split; [reflexivity|].
  repeat split; try (apply read_u32_bytes; [done || (unfold kEntryCount, kEntrySize; word_lia)|field_bytes]);
    try (apply read_u64_bytes; [done || (unfold kFirstUsableLba; word_lia)|field_bytes|field_bytes]); reflexivity.
Qed.

End header.

Lemma crc32_ext l l' n : take n l = take n l' -> crc32 l n = crc32 l' n.
Proof. unfold crc32, crc32_update. by intros ->. Qed.

(** What the parser makes of the primary header. *)
Definition installed_header (n entries_crc : Z) : Header :=
  mkHeader 92 (n - 1) kFirstUsableLba (n - 34) kDiskGuid 2 kEntryCount kEntrySize entries_crc 16384 32.

Lemma parse_built_header n crc tail :
  MINIMUM_DISK_SECTORS <= n < 2 ^ 64 -> is_u32 crc ->
  parse_header 512 n (build_header 1 (n - 1) (n - 34) 2 crc ++ tail) = inr (installed_header n crc).
Proof.
  intros Hn Hcrc. unfold MINIMUM_DISK_SECTORS in Hn. rewrite build_header_eq, <- app_assoc.
  set (hash := k_crc32 _). set (rest := replicate 420 0 ++ tail).
  destruct (header_fields hash 1 (n - 1) (n - 34) 2 crc rest) as
    (E1 & E2 & E3 & E4 & E5 & E6 & E7 & E8 & E9 & E10 & E11 & E12 & E13 & E14);
    [apply k_crc32_range|word_lia|word_lia|word_lia|word_lia|done|].
  unfold parse_header. cbv zeta. rewrite E1, E2, E3, E4, E5, clear_crc_header.
  set (cleared := header_bytes (replicate 4 0) _ _ _ _ _ ++ rest) in *.
  assert (crc32 cleared (Z.to_nat 92) = hash) as ->.
  { unfold hash. rewrite <- (k_crc32_eq _ 92); [apply crc32_ext|apply header_bytes_u8, Forall_replicate; word_lia|];
      unfold cleared, header_bytes; lazy -[u8 u32 Z.shiftr]; reflexivity. }
  rewrite E6, E7, E8, E9, E10, E11, E12, E13, E14, !Z.eqb_refl. unfold PRIMARY_HEADER_LBA. cbn [negb orb].
  change ((92 <? GPT_MINIMUM_HEADER_SIZE) || (512 <? 92)) with false. cbn [negb].
  unfold kFirstUsableLba. replace (n - 1 =? 1) with false by lia. cbn [orb].
  replace (_ || _ || _ || _) with false by lia.
  change (kEntryCount =? 0) with false. change (GPT_MAXIMUM_ENTRY_COUNT <? kEntryCount) with false. cbn [negb].
  change ((kEntrySize <? GPT_MINIMUM_ENTRY_SIZE) || (GPT_MAXIMUM_ENTRY_SIZE <? kEntrySize) || negb (kEntrySize mod 8 =? 0)) with false.
  change (UINT64_MAX / kEntrySize <? kEntryCount) with false.
  change (kEntryCount ⊗ kEntrySize) with 16384. change (((16384 ⊖ 1) / 512) ⊕ 1) with 32.
  change (2 <=? 1) with false. replace ((n <=? 2) || (n - 2 <? 32)) with false by lia.
  change (34 <=? 2 ⊕ 32 ⊖ 1) with false. replace (n - 1 <=? 32) with false by lia.
  rewrite (u64_small (n - 1 - 32)) by word_lia. by replace (n - 1 - 32 <=? n - 34) with false by lia.
Qed.

(** The partitions the parser finds. *)
Definition esp_partition : GptPartition :=
  mkGptPartition kEspType kEspGuid ESP_FIRST_LBA 133119 0
    (chars "Kurogane ESP" ++ replicate 24 0) 12 0.

Definition root_partition (n : Z) : GptPartition :=
  mkGptPartition kRootType kRootGuid 133120 (n - 34) 0
    (chars "Kurogane Root" ++ replicate 23 0) 13 1.

Lemma parse_esp_entry n crc rest :
  MINIMUM_DISK_SECTORS <= n < 2 ^ 64 ->
  parse_entry (installed_header n crc) [] 0
    (entry_bytes kEspType kEspGuid ESP_FIRST_LBA 133119 (chars "Kurogane ESP") ++ rest) = inr (Some esp_partition).
Proof.
  intros Hn. unfold MINIMUM_DISK_SECTORS in Hn. set (entry := _ ++ rest). unfold parse_entry. cbv zeta.
  replace (is_zero_guid entry ENTRY_TYPE_GUID_OFFSET) with false by (lazy; reflexivity).
  replace (read_u64 entry ENTRY_FIRST_LBA_OFFSET) with 2048 by (vm_compute; reflexivity).
  replace (read_u64 entry ENTRY_LAST_LBA_OFFSET) with 133119 by (vm_compute; reflexivity).
  cbn [h_first_usable h_last_usable installed_header]. unfold kFirstUsableLba. replace (_ || _ || _) with false by lia.
  cbn [existsb]. change (GPT_MAXIMUM_PARTITIONS <=? length [])%nat with false. do 2 f_equal.
Qed.

Lemma parse_root_entry n crc rest :
  MINIMUM_DISK_SECTORS <= n < 2 ^ 64 ->
  parse_entry (installed_header n crc) [esp_partition] 1
    (entry_bytes kRootType kRootGuid 133120 (n - 34) (chars "Kurogane Root") ++ rest) = inr (Some (root_partition n)).
Proof.
  intros Hn. unfold MINIMUM_DISK_SECTORS in Hn. set (entry := _ ++ rest). unfold parse_entry. cbv zeta.
  replace (is_zero_guid entry ENTRY_TYPE_GUID_OFFSET) with false by (lazy; reflexivity).
  replace (read_u64 entry ENTRY_FIRST_LBA_OFFSET) with 133120 by (vm_compute; reflexivity).
  assert (read_u64 entry ENTRY_LAST_LBA_OFFSET = n - 34) as -> by (apply read_u64_bytes; [word_lia|field_bytes|field_bytes]).
  cbn [h_first_usable h_last_usable installed_header]. unfold kFirstUsableLba. replace (_ || _ || _) with false by lia.
  cbn [existsb]. unfold ranges_overlap. cbn [first_lba last_lba esp_partition].
  replace (_ || false) with false by lia. change (GPT_MAXIMUM_PARTITIONS <=? length [esp_partition])%nat with false.
  assert (parse_name entry = chars "Kurogane Root" ++ replicate 23 0) as -> by (vm_compute; reflexivity).
  unfold root_partition. do 2 f_equal.
Qed.

Lemma entry_bytes_length type unique first last name :
  length type = 16%nat -> length unique = 16%nat -> (length name <= 36)%nat -> length (entry_bytes type unique first last name) = 128%nat.
Proof.
  intros Ht Hu Hl. unfold entry_bytes. rewrite !length_app, !length_replicate, Ht, Hu.
  assert (length (name_bytes name) = 2 * length name)%nat as ->.
  { clear. induction name as [|c name IH]; [done|]. change (name_bytes (c :: name)) with ([u8 (u8 c); u8 (Z.shiftr (u8 c) 8)] ++ name_bytes name).
    rewrite length_app, IH. cbn [length]. lia. }
  change (length (bytes64 first)) with 8%nat. change (length (bytes64 last)) with 8%nat. lia.
Qed.

Section installed.
Context {W : Type} (d : Device W) (content : W -> Z -> list Z).
Context (Hd : Disk d content).
Hypothesis Hss : sector_size d = kSectorSize.
Hypothesis Hn : MINIMUM_DISK_SECTORS <= sector_count d.
Local Abbreviation n := (sector_count d) (only parsing).

Let entries := build_entries 133119 133120 (n - 34).
Let entries_crc := k_crc32 entries.

Lemma target_bounds : 2 ^ 20 <= n < 2 ^ 64.
Proof. pose proof (disk_geometry (Disk := Hd)). unfold MINIMUM_DISK_SECTORS in Hn. lia. Qed.

Lemma entries_length : Z.of_nat (length entries) = 16384.
Proof.
  unfold entries. rewrite build_entries_eq, !length_app, !entry_bytes_length by (reflexivity || (vm_compute; lia)).
  rewrite length_replicate. vm_compute. reflexivity.
Qed.

Lemma entries_u8 : Forall is_u8 entries.
Proof.
  unfold entries. rewrite build_entries_eq. unfold entry_bytes, bytes64. rewrite !Forall_app.
  assert (forall l, forallb (fun x => (0 <=? x) && (x <? 256)) l = true -> Forall is_u8 l) as Hconst.
  { intros l Hl. apply Forall_forall. intros x Hx. rewrite forallb_forall in Hl.
    specialize (Hl x (proj1 (list_elem_of_In _ _) Hx)). word_lia. }
  repeat split; try apply bytes32_u8; try (apply Forall_replicate; word_lia); apply Hconst; vm_compute; reflexivity.
Qed.

(** The medium after the installation, from any medium [c0]. *)
Definition installed (c0 c : Z -> list Z) : Prop :=
  c 0 = protective_mbr n /\ c 1 = build_header 1 (n - 1) (n - 34) 2 entries_crc /\
  c (n - 1) = build_header (n - 1) 1 (n - 34) (n - 33) entries_crc /\
  (forall k, 0 <= k < 32 -> c (2 + k) = entry_sector entries k /\ c (n - 33 + k) = entry_sector entries k) /\
  forall i, 34 <= i < n - 33 -> c i = c0 i.

Lemma layout_flush_ok (io : IO W) : flush (Some d) io = (io, Ok).
Proof.
  unfold flush. rewrite (disk_validate d content Hd). destruct (disk_flush (Disk := Hd)) as (f & Ef & Hf).
  cbn [mbind option_bind]. rewrite Ef, Hf. reflexivity.
Qed.

Lemma header_length a b c e f : length (build_header a b c e f) = 512%nat.
Proof. rewrite build_header_eq. reflexivity. Qed.

Lemma prepare_ok (io : IO W) :
  exists io', prepare_install_target (Some d) io true =
    (io', LayoutOk, Some (mkLayout 2048 131072 133120 (n - 133153))) /\ installed (content (world io)) (content (world io')).
Proof.
  pose proof target_bounds as Hb. unfold prepare_install_target, validate_target. cbn [negb].
  rewrite (disk_validate d content Hd), bool_decide_true, Hss by done. change (kSectorSize =? kSectorSize) with true.
  cbn [negb orb]. replace (n <? MINIMUM_DISK_SECTORS) with false by lia. cbv zeta.
  rewrite (u64_small (n - 1)) by word_lia. unfold kEntrySectors. rewrite (u64_small (n - 1 - 32)), (u64_small (n - 1 - 32 - 1)) by word_lia.
  replace (n - 1 - 32) with (n - 33) by lia. replace (n - 33 - 1) with (n - 34) by lia.
  change ((ESP_FIRST_LBA ⊕ ESP_SECTOR_COUNT) ⊖ 1) with 133119. change (133119 ⊕ 1) with 133120.
  replace (n - 34 <=? 133120) with false by lia. fold entries. fold entries_crc. change (Z.to_nat 32) with 32%nat.
  destruct (write_entries_ok d content Hd Hss entries (n - 33) 32 io 0) as (io1 & -> & H1);
    [lia|rewrite entries_length; unfold kSectorSize; lia|lia..|]. cbn [negb].
  destruct (write_sector_ok d content Hd Hss io1 (n - 1) (build_header (n - 1) 1 (n - 34) (n - 33) entries_crc))
    as (io2 & -> & H2); [lia|apply header_length|]. rewrite bool_decide_true by done. cbn [negb].
  destruct (write_sector_ok d content Hd Hss io2 1 (build_header 1 (n - 1) (n - 34) 2 entries_crc))
    as (io3 & -> & H3); [lia|apply header_length|]. rewrite bool_decide_true by done. cbn [negb].
  destruct (write_sector_ok d content Hd Hss io3 0 (protective_mbr n)) as (io4 & -> & H4); [lia|reflexivity|].
  rewrite bool_decide_true, layout_flush_ok, bool_decide_true by done. cbn [negb].
  exists io4. rewrite (u64_small (n - 34 - 133120)), (u64_small (n - 34 - 133120 + 1)) by word_lia. split; [do 3 f_equal; lia|].
  assert (forall i, 0 <= i < n -> content (world io4) i = if decide (i = 0) then protective_mbr n
    else if decide (i = 1) then build_header 1 (n - 1) (n - 34) 2 entries_crc
    else if decide (i = n - 1) then build_header (n - 1) 1 (n - 34) (n - 33) entries_crc
    else content (world io1) i) as Hc by (intros i Hi; rewrite (H4 i Hi), (H3 i Hi), (H2 i Hi); done).
  unfold installed. rewrite !Hc by lia. split; [by rewrite decide_True|]. split; [by rewrite decide_False, decide_True by lia|].
  split; [by rewrite decide_False, decide_False, decide_True by lia|]. split.
  - intros k Hk. rewrite !Hc, !H1 by lia. split; repeat case_decide; try lia; f_equal; lia.
  - intros i Hi. rewrite Hc, H1 by lia. by repeat case_decide; try lia.
Qed.

End installed.

(** ** The boot-time parser on the installed disk *)

Lemma word_at_app_r a b i : Z.of_nat (length a) <= i -> word_at (a ++ b) i = word_at b (i - Z.of_nat (length a)).
Proof. intros Hi. unfold word_at. rewrite app_nth2 by lia. f_equal. lia. Qed.

Lemma word_at_replicate_0 k i : word_at (replicate k 0) i = 0.
Proof.
  unfold word_at. destruct (nth_in_or_default (Z.to_nat i) (replicate k 0) 0) as [Hin|E]; [|done].
  apply list_elem_of_In, elem_of_replicate_inv in Hin. done.
Qed.

Lemma slice_app_r a b off k : Z.of_nat (length a) <= off -> slice (a ++ b) off k = slice b (off - Z.of_nat (length a)) k.
Proof.
  intros Ho. apply list_fmap_ext. intros j x Hx%list_elem_of_lookup_2%elem_of_seqZ.
  rewrite word_at_app_r by lia. f_equal. lia.
Qed.

Lemma slice_app_l a b k : length a = k -> slice (a ++ b) 0 k = a.
Proof. intros <-. rewrite <- gpt_take_slice by (rewrite length_app; lia). apply take_app_length. Qed.

Lemma zero_slice_guid l off : (forall i, off <= i -> word_at l i = 0) -> is_zero_guid (slice l off 128) ENTRY_TYPE_GUID_OFFSET = true.
Proof.
  intros Hl. unfold is_zero_guid. apply forallb_forall. intros k Hk. apply list_elem_of_In, elem_of_seqZ in Hk.
  apply Z.eqb_eq. change (ENTRY_TYPE_GUID_OFFSET + k) with (0 + k). unfold slice.
  apply word_at_lookup. rewrite list_lookup_fmap, lookup_seqZ_lt by lia. cbn [fmap option_fmap option_map]. f_equal. apply Hl. lia.
Qed.

Lemma crc32_fold l k : Z.lxor (crc32_update UINT32_MAX l k) UINT32_MAX = crc32 l k.
Proof. reflexivity. Qed.

Lemma two_entries_length a b c e :
  Z.of_nat (length (entry_bytes kEspType kEspGuid a b (chars "Kurogane ESP") ++ entry_bytes kRootType kRootGuid c e (chars "Kurogane Root"))) = 256.
Proof. rewrite length_app, !entry_bytes_length by (reflexivity || (vm_compute; lia)). reflexivity. Qed.

Section parse_installed.
Context {W : Type} (d : Device W) (content : W -> Z -> list Z).
Context (Hd : Disk d content).
Hypothesis Hss : sector_size d = kSectorSize.
Hypothesis Hn : MINIMUM_DISK_SECTORS <= sector_count d.
Local Abbreviation n := (sector_count d) (only parsing).

Let entries := build_entries 133119 133120 (n - 34).
Let entries_crc := k_crc32 entries.

Lemma installed_array c0 w : installed d c0 (content w) -> range_bytes (content w) 2 32 = entries.
Proof.
  intros (_ & _ & _ & He & _). unfold range_bytes.
  assert (content w <$> seqZ 2 32 = entry_sector entries <$> seqZ 0 (Z.of_nat 32)) as ->.
  { apply list_eq. intros i. rewrite !list_lookup_fmap. destruct (decide (i < 32)%nat).
    - rewrite !lookup_seqZ_lt by lia. cbn [fmap option_fmap option_map]. f_equal. by rewrite (proj1 (He (Z.of_nat i) ltac:(lia))).
    - rewrite !lookup_seqZ_ge by lia. done. }
  pose proof (entries_length d) as Hl. fold entries in Hl.
  rewrite entry_sectors_join by (rewrite Hl; unfold kSectorSize; lia). apply take_ge. lia.
Qed.

(** An entry read from the array. *)
Lemma read_installed_entry c0 (io : IO W) i :
  installed d c0 (content (world io)) -> 0 <= i < 128 ->
  exists io', read_entry_bytes d io 2 (i ⊗ 128) 128 = (io', Ok, slice entries (i * 128) 128) /\ world io' = world io.
Proof.
  intros Hc Hi. rewrite u64_small by word_lia. pose proof (target_bounds d content Hd Hn) as Hb.
  destruct (read_entry_disk d content Hd) with (io := io) (lba := 2) (n := 32) (base := i * 128) (count := 128)
    as (io' & E & Hw); rewrite ?Hss; unfold kSectorSize; try lia.
  exists io'. rewrite E, (installed_array c0) by done. done.
Qed.

Lemma zero_entries_loop c0 k : forall (io : IO W) hdr index l,
  installed d c0 (content (world io)) -> h_entry_array_lba hdr = 2 -> h_entry_size hdr = 128 ->
  2 <= index -> index + Z.of_nat k <= 128 ->
  exists io', entries_loop k d io hdr index l = (io', inr l) /\ world io' = world io.
Proof.
  induction k as [|k IH]; intros io hdr index l Hc Hl Hs Hi Hk; cbn [entries_loop]; [by exists io|].
  rewrite Hl, Hs. destruct (read_installed_entry c0 io index Hc) as (io1 & -> & Hw1); [lia|].
  unfold parse_entry. rewrite zero_slice_guid.
  - destruct (IH io1 hdr (index + 1) l) as (io' & -> & Hw); [by rewrite Hw1|done|done|lia|lia|]. exists io'. by rewrite Hw, Hw1.
  - intros j Hj. unfold entries. rewrite build_entries_eq, app_assoc, word_at_app_r; [apply word_at_replicate_0|].
    rewrite two_entries_length. lia.
Qed.

Lemma entries_loop_step k (io io1 : IO W) hdr index l entry p :
  read_entry_bytes d io (h_entry_array_lba hdr) (index ⊗ h_entry_size hdr) (h_entry_size hdr) = (io1, Ok, entry) ->
  parse_entry hdr l index entry = inr (Some p) ->
  entries_loop (S k) d io hdr index l = entries_loop k d io1 hdr (index + 1) (l ++ [p]).
Proof. intros Er Ep. cbn [entries_loop]. by rewrite Er, Ep. Qed.

Lemma installed_entries_loop c0 (io : IO W) crc :
  installed d c0 (content (world io)) ->
  exists io', entries_loop (S (S 126)) d io (installed_header n crc) 0 [] = (io', inr [esp_partition; root_partition n]) /\ world io' = world io.
Proof.
  intros Hc. pose proof (target_bounds d content Hd Hn) as Hb.
  destruct (read_installed_entry c0 io 0 Hc) as (io1 & E1 & Hw1); [lia|].
  assert (installed d c0 (content (world io1))) as Hc1 by (by rewrite Hw1).
  destruct (read_installed_entry c0 io1 1 Hc1) as (io2 & E2 & Hw2); [lia|].
  assert (installed d c0 (content (world io2))) as Hc2 by (by rewrite Hw2).
  assert (slice entries (0 * 128) 128 = entry_bytes kEspType kEspGuid ESP_FIRST_LBA 133119 (chars "Kurogane ESP") ++ []) as A1.
  { unfold entries. rewrite build_entries_eq, app_nil_r. change (0 * 128) with 0.
    apply slice_app_l, entry_bytes_length; reflexivity || (vm_compute; lia). }
  assert (slice entries (1 * 128) 128 = entry_bytes kRootType kRootGuid 133120 (n - 34) (chars "Kurogane Root") ++ []) as A2.
  { unfold entries. rewrite build_entries_eq, slice_app_r; rewrite entry_bytes_length by (reflexivity || (vm_compute; lia)); [|done].
    rewrite app_nil_r. change (1 * 128 - Z.of_nat 128) with 0.
    apply slice_app_l, entry_bytes_length; reflexivity || (vm_compute; lia). }
  rewrite A1 in E1. rewrite A2 in E2.
  rewrite (entries_loop_step 127 io io1 (installed_header n crc) 0 [] _ _ E1 (parse_esp_entry n crc [] ltac:(lia))).
  change (0 + 1) with 1. cbn [app].
  rewrite (entries_loop_step 126 io1 io2 (installed_header n crc) 1 [esp_partition] _ _ E2 (parse_root_entry n crc [] ltac:(lia))).
  change (1 + 1) with 2. cbn [app].
  destruct (zero_entries_loop c0 126 io2 (installed_header n crc) 2 [esp_partition; root_partition n] Hc2) as (io3 & E3 & Hw3); [done|done|lia|lia|].
  exists io3. split; [exact E3|]. by rewrite Hw3, Hw2.
Qed.

Lemma parse_installed c0 (io : IO W) :
  installed d c0 (content (world io)) ->
  exists io' t, parse_primary (Some d) io true = (io', mkResult GptOk Ok NO_ENTRY_INDEX, Some t) /\
    world io' = world io /\ partitions t = [esp_partition; root_partition n].
Proof.
  intros Hc. pose proof (target_bounds d content Hd Hn) as Hb. unfold parse_primary. cbn [negb].
  rewrite (disk_validate d content Hd), Hss. change ((kSectorSize <? 512) || (GPT_MAXIMUM_SECTOR_SIZE <? kSectorSize)) with false.
  unfold PRIMARY_HEADER_LBA. replace (n <=? 1) with false by lia.
  rewrite (read_sector_disk d content Hd) by (rewrite ?Hss; unfold kSectorSize; lia).
  rewrite (proj1 (proj2 Hc)). cbv zeta. fold entries. fold entries_crc.
  change kSectorSize with 512. rewrite parse_built_header by (lia || apply k_crc32_range).
  cbn [installed_header h_entry_blocks h_entry_array_lba h_entry_bytes h_entry_crc h_entry_count h_header_size h_backup_lba
    h_first_usable h_last_usable h_guid h_entry_size].
  destruct (crc_loop_disk d content Hd) with (n := Z.to_nat 32) (io := record_disk_blocks io 1) (lba := 2) (rem := 16384)
    (crc := UINT32_MAX) as (io1 & -> & Hw1); rewrite ?Hss; unfold kSectorSize; try lia.
  rewrite record_world in *. rewrite Z2Nat.id, (installed_array c0) by done || lia.
  rewrite crc32_fold. pose proof (entries_length d) as Hl. fold entries in Hl.
  rewrite k_crc32_eq by (apply (entries_u8 d) || lia). fold entries_crc. rewrite Z.eqb_refl. cbn [negb].
  assert (installed d c0 (content (world io1))) as Hc1 by (by rewrite Hw1).
  destruct (installed_entries_loop c0 io1 entries_crc Hc1) as (io2 & E2 & Hw2).
  change (S (S 126)) with (Z.to_nat kEntryCount) in E2. rewrite E2.
  eexists io2, _. split; [reflexivity|]. split; [by rewrite Hw2|reflexivity].
Qed.

End parse_installed.

(** ** Properties *)

(** On any working disk of at least 512 MiB with 512-byte sectors, whatever
    it held before (an interrupted earlier attempt included),
    [prepare_install_target] succeeds, and the parser the kernel uses at boot
    accepts the result and finds exactly the EFI system partition and the root
    partition, at the places the installer is told; the backup entry array
    equals the primary one; and no sector between the two tables is changed. *)
Theorem installed_disk_parses {W} (d : Device W) content (io : IO W) :
  Disk d content -> sector_size d = kSectorSize -> MINIMUM_DISK_SECTORS <= sector_count d ->
  exists io1 layout io2 t,
    prepare_install_target (Some d) io true = (io1, LayoutOk, Some layout) /\
    parse_primary (Some d) io1 true = (io2, mkResult GptOk Ok NO_ENTRY_INDEX, Some t) /\
    partitions t = [esp_partition; root_partition (sector_count d)] /\
    ((fun p => (first_lba p, last_lba p - first_lba p + 1)) <$> partitions t) =
      [(esp_first_lba layout, esp_sector_count layout); (root_first_lba layout, root_sector_count layout)] /\
    (forall k, 0 <= k < kEntrySectors -> content (world io1) (sector_count d - 33 + k) = content (world io1) (2 + k)) /\
    forall i, kFirstUsableLba <= i <= sector_count d - 34 -> content (world io1) i = content (world io) i.
Proof.
  intros Hd Hss Hn. destruct (prepare_ok d content Hd Hss Hn io) as (io1 & E1 & Hi).
  destruct (parse_installed d content Hd Hss Hn _ io1 Hi) as (io2 & t & E2 & _ & Et).
  exists io1, (mkLayout 2048 131072 133120 (sector_count d - 133153)), io2, t. split; [done|]. split; [done|]. split; [done|].
  destruct Hi as (_ & _ & _ & He & Hk). split; [|split].
  - rewrite Et. cbn. do 4 f_equal. lia.
  - intros k Hr. by destruct (He k Hr) as [-> ->].
  - intros i Hr. apply Hk. unfold kFirstUsableLba in Hr. lia.
Qed.

Definition blank_disk : IO (Z -> list Z) := mkIO (fun _ => []) 0.

Definition half_gib_disk : Device (Z -> list Z) := ram_device 512 (2 ^ 20).

Lemma installed_disk_parses_witness :
  exists io1 layout io2 t, prepare_install_target (Some half_gib_disk) blank_disk true = (io1, LayoutOk, Some layout) /\
    parse_primary (Some half_gib_disk) io1 true = (io2, mkResult GptOk Ok NO_ENTRY_INDEX, Some t) /\
    partitions t = [esp_partition; root_partition (2 ^ 20)].
Proof.
  destruct (installed_disk_parses half_gib_disk (ram_content 512) blank_disk) as (io1 & layout & io2 & t & H1 & H2 & H3 & _).
  - apply ram_disk; lia.
  - reflexivity.
  - vm_compute. discriminate.
  - exists io1, layout, io2, t. split; [exact H1|]. split; [exact H2|exact H3].
Defined.

(** A working disk whose first sector is not blank is refused before anything is
    written; a blank one is partitioned. *)
Theorem prepare_empty_disk_refuses {W} (d : Device W) content (io : IO W) :
  Disk d content -> sector_size d = kSectorSize -> MINIMUM_DISK_SECTORS <= sector_count d ->
  prepare_empty_disk (Some d) io true =
    if existsb (fun byte => negb (byte =? 0)) (content (world io) 0)
    then (record_disk_blocks io 1, DiskNotEmpty, None)
    else prepare_install_target (Some d) (record_disk_blocks io 1) true.
Proof.
  intros Hd Hss Hn. pose proof (target_bounds d content Hd Hn). unfold prepare_empty_disk, validate_target.
  rewrite (disk_validate d content Hd), bool_decide_true, Hss by done. change (kSectorSize =? kSectorSize) with true.
  cbn [negb orb]. replace (_ <? MINIMUM_DISK_SECTORS) with false by lia.
  rewrite (disk_read_blocks d content io 0 1 kSectorSize Hd) by (rewrite ?Hss; unfold kSectorSize; word_lia).
  rewrite (range_bytes_cons _ 0 0) by lia. by rewrite app_nil_r.
Qed.
