(* ===== verification/Packet.v ===== *)
(** * Bytes of network packets

    A byte-addressed memory with the loads, stores and copies that
    net/network.cpp and net/protocols.cpp do on packet buffers, big-endian words,
    and the Internet checksum in the two ways the code computes it.  Pointers are
    addresses, 0 is null; buffers may overlap, as they do when a packet is built
    around its payload. *)

From S2P Require Import Prelude.

(** ** Memory *)

Definition Memory := Z -> Z.

Definition store8 (m : Memory) (a v : Z) : Memory := fun x => if x =? a then v else m x.

(** The [n] bytes from address [a] on. *)
Definition load (m : Memory) (a n : Z) : list Z := m <$> seqZ a n.

(** Consecutive byte stores. *)
Fixpoint store (m : Memory) (a : Z) (bytes : list Z) : Memory :=
  match bytes with
  | [] => m
  | b :: bytes' => store (store8 m a b) (a + 1) bytes'
  end.

(** [for (i = 0; i < length; ++i) output[i] = input[i]], with [i] counting up. *)
Fixpoint copy_forward (n : nat) (m : Memory) (output input : Z) : Memory :=
  match n with
  | O => m
  | S n' => copy_forward n' (store8 m output (m input)) (output + 1) (input + 1)
  end.

(** [for (i = length; i > 0; --i) output[i - 1] = input[i - 1]]. *)
Fixpoint copy_backward (n : nat) (m : Memory) (output input : Z) : Memory :=
  match n with
  | O => m
  | S n' => copy_backward n' (store8 m (output + Z.of_nat n') (m (input + Z.of_nat n'))) output input
  end.

(** [copy_bytes] of network.cpp, which handles overlapping ranges. *)
Definition move_bytes (m : Memory) (output input length : Z) : Memory :=
  if (output =? input) || (length =? 0) then m
  else if output <? input then copy_forward (Z.to_nat length) m output input
  else copy_backward (Z.to_nat length) m output input.

(** [copy_bytes] of protocols.cpp. *)
Definition copy_bytes (m : Memory) (destination source count : Z) : Memory :=
  copy_forward (Z.to_nat count) m destination source.

Definition clear_bytes (m : Memory) (destination length : Z) : Memory :=
  store m destination (replicate (Z.to_nat length) 0).

Definition ranges_overlap (left left_length right right_length : Z) : bool :=
  if (left_length =? 0) || (right_length =? 0) then false
  else if left <=? right then right - left <? left_length
  else left - right <? right_length.

(** ** Big-endian words *)

Definition be16 (v : Z) : list Z := [u8 (Z.shiftr v 8); u8 v].
Definition be32 (v : Z) : list Z := [u8 (Z.shiftr v 24); u8 (Z.shiftr v 16); u8 (Z.shiftr v 8); u8 v].

Definition read_be16 (m : Memory) (data : Z) : Z :=
  if data =? 0 then 0 else u16 (Z.lor (Z.shiftl (m data) 8) (m (data + 1))).

Definition read_be32 (m : Memory) (data : Z) : Z :=
  if data =? 0 then 0
  else Z.lor (Z.lor (Z.lor (u32 (Z.shiftl (m data) 24)) (u32 (Z.shiftl (m (data + 1)) 16)))
                (u32 (Z.shiftl (m (data + 2)) 8))) (m (data + 3)).

Definition write_be16 (m : Memory) (data value : Z) : Memory := if data =? 0 then m else store m data (be16 value).

Definition write_be32 (m : Memory) (data value : Z) : Memory := if data =? 0 then m else store m data (be32 value).

(** ** The Internet checksum *)

(** [(sum & 0xffff) + (sum >> 16)]. *)
Definition fold_carry (sum : Z) : Z := u32 (Z.land sum 0xffff + Z.shiftr sum 16).

(** [while ((sum >> 16) != 0) sum = fold_carry(sum)]: [fold_loop_done] shows that
    two rounds are enough for any 32-bit sum. *)
Fixpoint fold_loop (fuel : nat) (sum : Z) : Z :=
  match fuel with
  | O => sum
  | S fuel' => if Z.shiftr sum 16 =? 0 then sum else fold_loop fuel' (fold_carry sum)
  end.

Definition fold_fuel : nat := 2.

(** The loop of [internet_checksum], which folds after every word, over the
    [length] bytes at [data]. *)
Fixpoint internet_sum (bytes : list Z) (sum : Z) : Z :=
  match bytes with
  | b :: c :: bytes' => internet_sum bytes' (fold_carry (u32 (sum + u16 (Z.lor (Z.shiftl b 8) c))))
  | [b] => u32 (sum + Z.shiftl b 8)
  | [] => sum
  end.

Definition checksum_finish (sum : Z) : Z := u16 (Z.lnot (fold_loop fold_fuel sum)).

Definition internet_checksum (m : Memory) (data length : Z) : Z :=
  if (data =? 0) && negb (length =? 0) then UINT16_MAX
  else checksum_finish (internet_sum (load m data length) 0).

(** [checksum_add] of protocols.cpp, which folds only in [checksum_finish]. *)
Fixpoint checksum_add (sum : Z) (bytes : list Z) : Z :=
  match bytes with
  | b :: c :: bytes' => checksum_add (u32 (sum + u32 (Z.lor (Z.shiftl b 8) c))) bytes'
  | [b] => u32 (sum + u32 (Z.shiftl b 8))
  | [] => sum
  end.

(** ** Loads and stores *)

Definition bytes_ok (m : Memory) : Prop := forall a, is_u8 (m a).

Lemma load_length m a n : 0 <= n -> Z.of_nat (length (load m a n)) = n.
Proof. intros. unfold load. rewrite length_fmap, length_seqZ. lia. Qed.

Lemma load_length_nat m a n : length (load m a n) = Z.to_nat n.
Proof. unfold load. by rewrite length_fmap, length_seqZ. Qed.

Lemma load_u8 m a n : bytes_ok m -> Forall is_u8 (load m a n).
Proof. intros Hm. apply Forall_fmap, Forall_true. intros x. apply Hm. Qed.

Lemma word_at_load m a n k : 0 <= k < n -> word_at (load m a n) k = m (a + k).
Proof.
  intros Hk. apply word_at_lookup. unfold load. rewrite list_lookup_fmap, lookup_seqZ_lt by lia.
  cbn [fmap option_fmap option_map]. do 2 f_equal. lia.
Qed.

Lemma load_app m a n k : 0 <= n -> 0 <= k -> load m a (n + k) = load m a n ++ load m (a + n) k.
Proof. intros. unfold load. by rewrite seqZ_app, fmap_app by lia. Qed.

Lemma load_cons m a n : 0 < n -> load m a n = m a :: load m (a + 1) (n - 1).
Proof. intros. unfold load. by rewrite seqZ_cons, Z.sub_1_r, Z.add_1_r by lia. Qed.

Lemma load_nil m a : load m a 0 = [].
Proof. reflexivity. Qed.

Lemma load_eq m m' a a' n : (forall k, 0 <= k < n -> m (a + k) = m' (a' + k)) -> load m a n = load m' a' n.
Proof.
  intros He. unfold load. apply list_eq. intros i. rewrite !list_lookup_fmap. destruct (decide (Z.of_nat i < n)).
  - rewrite !lookup_seqZ_lt by lia. cbn [fmap option_fmap option_map]. f_equal. apply He. lia.
  - by rewrite !lookup_seqZ_ge by lia.
Qed.

Lemma store_outside bytes : forall m a x, ~ (a <= x < a + Z.of_nat (length bytes)) -> store m a bytes x = m x.
Proof.
  induction bytes as [|b bytes IH]; intros m a x Hx; [done|]. cbn [store length] in *.
  rewrite IH by lia. unfold store8. destruct (Z.eqb_spec x a); [lia|done].
Qed.

Lemma store_inside bytes : forall m a k, 0 <= k < Z.of_nat (length bytes) -> store m a bytes (a + k) = word_at bytes k.
Proof.
  induction bytes as [|b bytes IH]; intros m a k Hk; cbn [store length] in *; [lia|].
  destruct (Z.eq_dec k 0) as [->|].
  - rewrite store_outside by lia. unfold store8. by replace (a + 0 =? a) with true by lia.
  - replace (a + k) with (a + 1 + (k - 1)) by lia. rewrite IH by lia. unfold word_at.
    replace (Z.to_nat k) with (S (Z.to_nat (k - 1))) by lia. done.
Qed.

Lemma packet_store_bytes_ok bytes : forall m a, bytes_ok m -> Forall is_u8 bytes -> bytes_ok (store m a bytes).
Proof.
  induction bytes as [|b bytes IH]; intros m a Hm Hb; [done|]. apply Forall_cons in Hb as [Hb Hbs].
  apply IH; [|done]. intros x. unfold store8. by destruct (x =? a).
Qed.

Lemma load_store_same m a bytes : load (store m a bytes) a (Z.of_nat (length bytes)) = bytes.
Proof.
  apply list_eq_same_length with (n := length bytes); [done|by rewrite load_length_nat, Nat2Z.id|].
  intros i x y Hi Hx Hy. unfold load in Hx. rewrite list_lookup_fmap, lookup_seqZ_lt in Hx by lia.
  cbn [fmap option_fmap option_map] in Hx. injection Hx as <-. rewrite store_inside by lia.
  apply word_at_lookup. by rewrite Nat2Z.id.
Qed.

(** Bytes stored inside a range that is loaded. *)
Lemma load_store_inside m a n off bytes :
  0 <= off -> off + Z.of_nat (length bytes) <= n ->
  load (store m (a + off) bytes) a n = list_inserts (Z.to_nat off) bytes (load m a n).
Proof.
  intros Ho Hn. apply list_eq_same_length with (n := Z.to_nat n);
    [by rewrite length_inserts, load_length_nat|by rewrite load_length_nat|].
  intros i x y Hi Hx Hy. unfold load in Hx at 1. rewrite list_lookup_fmap, lookup_seqZ_lt in Hx by lia.
  cbn [fmap option_fmap option_map] in Hx. injection Hx as <-.
  destruct (decide (off <= Z.of_nat i < off + Z.of_nat (length bytes))) as [Hin|Hout].
  - rewrite list_lookup_inserts in Hy by (rewrite ?load_length_nat; lia).
    replace (a + Z.of_nat i) with (a + off + (Z.of_nat i - off)) by lia. rewrite store_inside by lia.
    apply word_at_lookup. rewrite <- Hy. f_equal. lia.
  - rewrite store_outside by lia.
    assert (list_inserts (Z.to_nat off) bytes (load m a n) !! i = load m a n !! i) as E.
    { destruct (decide (i < Z.to_nat off)%nat); [by apply list_lookup_inserts_lt|apply list_lookup_inserts_ge; lia]. }
    rewrite E in Hy. unfold load in Hy. rewrite list_lookup_fmap, lookup_seqZ_lt in Hy by lia.
    cbn [fmap option_fmap option_map] in Hy. by injection Hy as <-.
Qed.

Lemma load_store_outside m a n b bytes :
  b + Z.of_nat (length bytes) <= a \/ a + n <= b -> load (store m b bytes) a n = load m a n.
Proof. intros Ho. apply load_eq. intros k Hk. apply store_outside. lia. Qed.

(** Both copy loops copy, whatever the overlap they are used for. *)
Lemma copy_forward_ok n : forall m output input,
  output <= input \/ input + Z.of_nat n <= output \/ n = 0%nat ->
  forall x, copy_forward n m output input x =
    if decide (output <= x < output + Z.of_nat n) then m (input + (x - output)) else m x.
Proof.
  induction n as [|n IH]; intros m output input Ho x; cbn [copy_forward].
  - by rewrite decide_False by lia.
  - rewrite IH by lia. unfold store8. repeat case_decide; try lia.
    + destruct (Z.eqb_spec (input + 1 + (x - (output + 1))) output); [|f_equal; lia].
      assert (x = output + (output - input)) as -> by lia. lia.
    + destruct (Z.eqb_spec x output) as [->|]; [f_equal; lia|lia].
    + destruct (Z.eqb_spec x output); [lia|done].
Qed.

Lemma copy_backward_ok n : forall m output input,
  input <= output -> forall x, copy_backward n m output input x =
    if decide (output <= x < output + Z.of_nat n) then m (input + (x - output)) else m x.
Proof.
  induction n as [|n IH]; intros m output input Ho x; cbn [copy_backward].
  - by rewrite decide_False by lia.
  - rewrite IH by lia. unfold store8. repeat case_decide; try lia.
    + destruct (Z.eqb_spec (input + (x - output)) (output + Z.of_nat n)); [lia|done].
    + destruct (Z.eqb_spec x (output + Z.of_nat n)) as [->|]; [f_equal; lia|lia].
    + destruct (Z.eqb_spec x (output + Z.of_nat n)); [lia|done].
Qed.

Lemma move_bytes_ok m output input n x : 0 <= n ->
  move_bytes m output input n x = if decide (output <= x < output + n) then m (input + (x - output)) else m x.
Proof.
  intros Hn. unfold move_bytes. destruct (Z.eqb_spec output input) as [->|]; cbn [orb].
  { case_decide; [f_equal; lia|done]. }
  destruct (Z.eqb_spec n 0); [by rewrite decide_False by lia|].
  destruct (Z.ltb_spec output input); [rewrite copy_forward_ok by lia|rewrite copy_backward_ok by lia]; by rewrite Z2Nat.id.
Qed.

(** A copy is a store of the bytes loaded before it. *)
Lemma store_load_lookup m a b n x : 0 <= n ->
  store m a (load m b n) x = if decide (a <= x < a + n) then m (b + (x - a)) else m x.
Proof.
  intros Hn. case_decide as Hx.
  - replace x with (a + (x - a)) at 1 by lia. rewrite store_inside by (rewrite load_length; lia). by rewrite word_at_load by lia.
  - apply store_outside. rewrite load_length; lia.
Qed.

(** ** What the checksums compute *)

(** The sum of the big-endian 16-bit words; an odd last byte counts as the high
    half of a word. *)
Fixpoint sum_words (bytes : list Z) : Z :=
  match bytes with
  | b :: c :: bytes' => b * 256 + c + sum_words bytes'
  | [b] => b * 256
  | [] => 0
  end.

(** The representative of a sum modulo 2^16 - 1 that folding arrives at. *)
Definition canon (s : Z) : Z := if s =? 0 then 0 else (s - 1) mod 65535 + 1.

Lemma list_pair_ind {A} (P : list A -> Prop) :
  P [] -> (forall a, P [a]) -> (forall a b l, P l -> P (a :: b :: l)) -> forall l, P l.
Proof.
  intros H0 H1 H2 l. assert (P l /\ forall a, P (a :: l)) as [H _]; [|exact H].
  induction l as [|x l [IHl IHc]]; [by split|]. split; [apply IHc|]. intros a. by apply H2.
Qed.

Lemma sum_words_nonneg l : Forall is_u8 l -> 0 <= sum_words l.
Proof.
  induction l as [|b|b c l IH] using list_pair_ind; cbn [sum_words]; [lia|..].
  - intros [? _]%Forall_cons. word_lia.
  - intros [? [? ?]%Forall_cons]%Forall_cons. unfold is_u8 in *. specialize (IH ltac:(done)). lia.
Qed.

Lemma sum_words_bound l : Forall is_u8 l -> 2 * sum_words l <= 65535 * (Z.of_nat (length l) + 1).
Proof.
  induction l as [|b|b c l IH] using list_pair_ind; cbn [sum_words length]; [lia|..].
  - intros [? _]%Forall_cons. word_lia.
  - intros [? [? ?]%Forall_cons]%Forall_cons. unfold is_u8 in *. specialize (IH ltac:(done)). lia.
Qed.

Lemma sum_words_app l1 l2 : Nat.Even (length l1) -> sum_words (l1 ++ l2) = sum_words l1 + sum_words l2.
Proof.
  induction l1 as [|b|b c l1 IH] using list_pair_ind; intros He; cbn [app sum_words]; [done|by destruct He; cbn in *; lia|].
  rewrite IH; [lia|]. destruct He as [k Hk]. exists (k - 1)%nat. cbn in Hk. lia.
Qed.

Lemma canon_unique r s :
  0 <= s -> 0 <= r <= 65535 -> r mod 65535 = s mod 65535 -> (r = 0 <-> s = 0) -> r = canon s.
Proof.
  intros Hs Hr Hm Hz. unfold canon. destruct (Z.eqb_spec s 0) as [->|]; [by apply Hz|].
  assert (r <> 0) by (intros ->; by apply n, Hz). zdm.
Qed.

Lemma canon_range s : 0 <= s -> 0 <= canon s <= 65535.
Proof. intros Hs. unfold canon. destruct (s =? 0); zdm. Qed.

Lemma canon_max s : 0 < s -> s mod 65535 = 0 -> canon s = 65535.
Proof. intros Hs Hm. unfold canon. destruct (Z.eqb_spec s 0); [lia|]. zdm. Qed.

Lemma canon_mod s : 0 <= s -> canon s mod 65535 = s mod 65535.
Proof. intros Hs. unfold canon. destruct (Z.eqb_spec s 0) as [->|]; [done|]. zdm. Qed.

Lemma fold_carry_eq s : 0 <= s < 2 ^ 32 -> fold_carry s = s mod 65536 + s / 65536.
Proof.
  intros Hs. unfold fold_carry. change 0xffff with (Z.ones 16). rewrite Z.land_ones, Z.shiftr_div_pow2 by lia.
  change (2 ^ 16) with 65536. apply u32_small. unfold is_u32. change (2 ^ 32) with 4294967296 in *. zdm.
Qed.

Lemma fold_carry_mod s : 0 <= s < 2 ^ 32 ->
  fold_carry s mod 65535 = s mod 65535 /\ (fold_carry s = 0 <-> s = 0) /\ 0 <= fold_carry s <= 131070 /\
  (s <= 131070 -> fold_carry s <= 65535).
Proof.
  intros Hs. rewrite fold_carry_eq by done. change (2 ^ 32) with 4294967296 in Hs.
  assert (0 <= s / 65536 <= 65535 /\ 0 <= s mod 65536 <= 65535 /\ s = 65536 * (s / 65536) + s mod 65536) as (H1 & H2 & H3)
    by (split; [|split]; zdm).
  split; [|split; [lia|split; [lia|]]].
  - rewrite H3 at 3. replace (65536 * (s / 65536) + s mod 65536) with (s mod 65536 + s / 65536 + s / 65536 * 65535) by lia.
    by rewrite Z.mod_add by lia.
  - intros Hle. zdm.
Qed.

(** Two rounds of folding end the loop, at the canonical representative. *)
Lemma fold_loop_done s : 0 <= s < 2 ^ 32 -> fold_loop fold_fuel s = canon s /\ Z.shiftr (fold_loop fold_fuel s) 16 = 0.
Proof.
  intros Hs. assert (forall x, 0 <= x <= 65535 -> x mod 65535 = s mod 65535 -> (x = 0 <-> s = 0) ->
    x = canon s /\ Z.shiftr x 16 = 0) as Hdone.
  { intros x Hx Hm Hz. split; [by apply canon_unique; [lia|..]|]. rewrite Z.shiftr_div_pow2 by lia. apply Z.div_small. lia. }
  assert (forall x, 0 <= x -> Z.shiftr x 16 = 0 -> x <= 65535) as Hsmall.
  { intros x Hx E. rewrite Z.shiftr_div_pow2 in E by lia. change (2 ^ 16) with 65536 in E. zdm. }
  destruct (fold_carry_mod s Hs) as (M1 & Z1 & R1 & _). destruct (fold_carry_mod (fold_carry s)) as (M2 & Z2 & R2 & L2); [lia|].
  unfold fold_fuel. cbn [fold_loop]. destruct (Z.eqb_spec (Z.shiftr s 16) 0) as [E|_].
  { apply Hdone; [|done..]. specialize (Hsmall s ltac:(lia) E). lia. }
  destruct (Z.eqb_spec (Z.shiftr (fold_carry s) 16) 0) as [E|_].
  - apply Hdone; [|done..]. specialize (Hsmall (fold_carry s) ltac:(lia) E). lia.
  - apply Hdone; [lia|congruence|tauto].
Qed.

Lemma checksum_finish_eq s : 0 <= s < 2 ^ 32 -> checksum_finish s = 65535 - canon s.
Proof.
  intros Hs. unfold checksum_finish. rewrite (proj1 (fold_loop_done s Hs)).
  pose proof (canon_range s ltac:(lia)). unfold u16.
  unfold Z.lnot. change (2 ^ 16) with 65536. zdm.
Qed.

Lemma word_eq b c : is_u8 b -> is_u8 c -> Z.lor (Z.shiftl b 8) c = b * 256 + c.
Proof. intros Hb Hc. rewrite lor_shift_add by (lia || word_lia). done. Qed.

Lemma internet_sum_ok l : forall sum, Forall is_u8 l -> 0 <= sum <= 65535 ->
  0 <= internet_sum l sum < 2 ^ 32 /\ internet_sum l sum mod 65535 = (sum + sum_words l) mod 65535 /\
  (internet_sum l sum = 0 <-> sum + sum_words l = 0).
Proof.
  induction l as [|b|b c l IH] using list_pair_ind; intros sum Hl Hs; cbn [internet_sum sum_words].
  - rewrite Z.add_0_r. split; [lia|done].
  - apply Forall_cons in Hl as [Hb _]. unfold is_u8 in Hb. rewrite Z.shiftl_mul_pow2 by lia. change (2 ^ 8) with 256 in *.
    rewrite u32_small by word_lia. split; [lia|done].
  - apply Forall_cons in Hl as [Hb [Hc Hl]%Forall_cons]. rewrite word_eq by done. unfold is_u8 in Hb, Hc. change (2 ^ 8) with 256 in *.
    assert (u16 (b * 256 + c) = b * 256 + c) as -> by (unfold u16; apply Z.mod_small; lia).
    rewrite u32_small by word_lia. destruct (fold_carry_mod (sum + (b * 256 + c))) as (M & Zr & R & L); [lia|].
    destruct (IH (fold_carry (sum + (b * 256 + c))) Hl) as (R' & M' & Z'); [lia|]. split; [done|]. split.
    + rewrite M'. rewrite Zplus_mod, M, <- Zplus_mod. f_equal. lia.
    + pose proof (sum_words_nonneg l Hl). rewrite Z'. lia.
Qed.

Lemma internet_checksum_eq m data n :
  data <> 0 -> bytes_ok m -> internet_checksum m data n = 65535 - canon (sum_words (load m data n)).
Proof.
  intros Hd Hm. unfold internet_checksum. replace (data =? 0) with false by lia. cbn [andb].
  pose proof (load_u8 m data n Hm) as Hl. destruct (internet_sum_ok (load m data n) 0 Hl) as (R & M & Hz); [lia|].
  rewrite checksum_finish_eq by done. f_equal. rewrite Z.add_0_l in *.
  pose proof (sum_words_nonneg _ Hl). apply canon_unique; [done|apply canon_range; lia| |].
  - rewrite canon_mod by lia. done.
  - unfold canon. destruct (Z.eqb_spec (internet_sum (load m data n) 0) 0); [tauto|]. split; [|tauto].
    pose proof (Z.mod_pos_bound (internet_sum (load m data n) 0 - 1) 65535). lia.
Qed.

Lemma checksum_add_eq l : forall sum, Forall is_u8 l -> 0 <= sum -> sum + sum_words l < 2 ^ 32 ->
  checksum_add sum l = sum + sum_words l.
Proof.
  induction l as [|b|b c l IH] using list_pair_ind; intros sum Hl Hs Hb; cbn [checksum_add sum_words] in *; [lia|..].
  - apply Forall_cons in Hl as [Hu _]. unfold is_u8 in Hu. rewrite Z.shiftl_mul_pow2 by lia. change (2 ^ 8) with 256 in *.
    rewrite (u32_small (b * 256)), u32_small by word_lia. done.
  - apply Forall_cons in Hl as [Hu [Hc Hl]%Forall_cons]. rewrite word_eq by done. unfold is_u8 in Hu, Hc. change (2 ^ 8) with 256 in *.
    pose proof (sum_words_nonneg l Hl). rewrite (u32_small (b * 256 + c)), u32_small by word_lia. rewrite IH by (done || lia). lia.
Qed.

(** ** Writing and reading headers *)

Lemma load_store_base m a n bytes :
  Z.of_nat (length bytes) <= n -> load (store m a bytes) a n = list_inserts 0 bytes (load m a n).
Proof. intros Hn. rewrite <- (Z.add_0_r a) at 1. by rewrite load_store_inside by lia. Qed.

Lemma write_be16_eq m a v : 0 < a -> write_be16 m a v = store m a (be16 v).
Proof. intros Ha. unfold write_be16. by replace (a =? 0) with false by lia. Qed.

Lemma write_be32_eq m a v : 0 < a -> write_be32 m a v = store m a (be32 v).
Proof. intros Ha. unfold write_be32. by replace (a =? 0) with false by lia. Qed.

Lemma packet_store8_eq m a v : store8 m a v = store m a [v].
Proof. reflexivity. Qed.

Lemma u8_byte x : is_u8 (u8 x).
Proof. apply Z.mod_pos_bound. lia. Qed.

Lemma be16_u8 v : Forall is_u8 (be16 v).
Proof. repeat constructor; apply u8_byte. Qed.

Lemma be32_u8 v : Forall is_u8 (be32 v).
Proof. repeat constructor; apply u8_byte. Qed.

Lemma single_u8 v : is_u8 v -> Forall is_u8 [v].
Proof. intros Hv. by apply Forall_singleton. Qed.

Lemma zeros_u8 n : Forall is_u8 (replicate n 0).
Proof. apply Forall_replicate. word_lia. Qed.

(** Two bytes read as a word. *)
Definition of_be16 (b c : Z) : Z := b * 256 + c.
Definition of_be32 (b c d e : Z) : Z := ((b * 256 + c) * 256 + d) * 256 + e.

Lemma read_be16_eq m a : bytes_ok m -> 0 < a -> read_be16 m a = of_be16 (m a) (m (a + 1)).
Proof.
  intros Hm Ha. unfold read_be16. replace (a =? 0) with false by lia. rewrite word_eq by apply Hm.
  pose proof (Hm a). pose proof (Hm (a + 1)). unfold of_be16, is_u8, u16 in *. apply Z.mod_small. lia.
Qed.

Lemma read_be32_eq m a : bytes_ok m -> 0 < a -> read_be32 m a = of_be32 (m a) (m (a + 1)) (m (a + 2)) (m (a + 3)).
Proof.
  intros Hm Ha. unfold read_be32. replace (a =? 0) with false by lia.
  pose proof (Hm a). pose proof (Hm (a + 1)). pose proof (Hm (a + 2)). pose proof (Hm (a + 3)). unfold is_u8 in *.
  rewrite !u32_small by (rewrite Z.shiftl_mul_pow2 by lia; word_lia).
  rewrite Z.shiftl_mul_pow2, (Z.mul_comm _ (2 ^ 24)), <- (Z.mul_comm (m a)), <- Z.shiftl_mul_pow2 by lia.
  rewrite (lor_shift_add (m a) (Z.shiftl (m (a + 1)) 16) 24) by (rewrite ?Z.shiftl_mul_pow2 by lia; lia).
  assert (m a * 2 ^ 24 + Z.shiftl (m (a + 1)) 16 = Z.shiftl (m a * 2 ^ 8 + m (a + 1)) 16) as ->
    by (rewrite !Z.shiftl_mul_pow2 by lia; lia).
  rewrite lor_shift_add by (rewrite ?Z.shiftl_mul_pow2 by lia; lia).
  assert ((m a * 2 ^ 8 + m (a + 1)) * 2 ^ 16 + Z.shiftl (m (a + 2)) 8 =
    Z.shiftl ((m a * 2 ^ 8 + m (a + 1)) * 2 ^ 8 + m (a + 2)) 8) as -> by (rewrite !Z.shiftl_mul_pow2 by lia; lia).
  rewrite lor_shift_add by lia. unfold of_be32. lia.
Qed.

Lemma of_be16_be16 v : 0 <= v < 2 ^ 16 -> of_be16 (u8 (Z.shiftr v 8)) (u8 v) = v.
Proof. intros Hv. unfold of_be16, u8. rewrite Z.shiftr_div_pow2 by lia. change (2 ^ 8) with 256. zdm. Qed.

Lemma of_be32_be32 v : is_u32 v ->
  of_be32 (u8 (Z.shiftr v 24)) (u8 (Z.shiftr v 16)) (u8 (Z.shiftr v 8)) (u8 v) = v.
Proof.
  intros Hv. unfold of_be32, u8, is_u32 in *. rewrite !Z.shiftr_div_pow2 by lia.
  change (2 ^ 24) with (256 * 256 * 256). change (2 ^ 16) with (256 * 256). change (2 ^ 8) with 256.
  rewrite <- !Z.div_div by lia. pose proof (Z.div_mod v 256 ltac:(lia)). pose proof (Z.div_mod (v / 256) 256 ltac:(lia)).
  pose proof (Z.div_mod (v / 256 / 256) 256 ltac:(lia)).
  rewrite (Z.mod_small (v / 256 / 256 / 256)); [lia|].
  split; [repeat (apply Z.div_pos; [|lia]); lia|]. repeat (apply Z.div_lt_upper_bound; [lia|]). lia.
Qed.

(** The byte at an offset of a packet whose bytes are known. *)
Lemma load_byte m a n l k : load m a n = l -> 0 <= k < n -> m (a + k) = word_at l k.
Proof. intros <- Hk. by rewrite word_at_load. Qed.

Lemma load_part m a n l off k : load m a n = l -> 0 <= off -> 0 <= k -> off + k <= n ->
  load m (a + off) k = take (Z.to_nat k) (drop (Z.to_nat off) l).
Proof.
  intros <- Ho Hk Hn. replace n with (off + (k + (n - off - k))) by lia. rewrite !load_app by lia.
  rewrite drop_app_le by (rewrite load_length_nat; lia). rewrite drop_ge, app_nil_l by (rewrite load_length_nat; lia).
  rewrite take_app_le by (rewrite load_length_nat; lia). by rewrite take_ge by (rewrite load_length_nat; lia).
Qed.

Lemma load_prefix m a n l k : load m a n = l -> 0 <= k <= n -> load m a k = take (Z.to_nat k) l.
Proof. intros Hl Hk. rewrite <- (Z.add_0_r a). rewrite (load_part _ _ _ _ _ _ Hl) by lia. by rewrite drop_0. Qed.

Lemma load_first m a n l : load m a n = l -> 0 < n -> m a = word_at l 0.
Proof. intros Hl Hn. rewrite <- (Z.add_0_r a). by apply (load_byte _ _ n). Qed.

Lemma read_be16_at m a n l off : bytes_ok m -> 0 < a -> load m a n = l -> 0 <= off -> off + 2 <= n ->
  read_be16 m (a + off) = of_be16 (word_at l off) (word_at l (off + 1)).
Proof.
  intros Hm Ha Hl Ho Hn. rewrite read_be16_eq by (done || lia). rewrite <- Z.add_assoc.
  by rewrite (load_byte _ _ _ _ _ Hl), (load_byte _ _ _ _ _ Hl) by lia.
Qed.

Lemma read_be16_first m a n l : bytes_ok m -> 0 < a -> load m a n = l -> 2 <= n ->
  read_be16 m a = of_be16 (word_at l 0) (word_at l 1).
Proof. intros Hm Ha Hl Hn. rewrite <- (Z.add_0_r a). by apply (read_be16_at _ _ n). Qed.

Lemma read_be32_at m a n l off : bytes_ok m -> 0 < a -> load m a n = l -> 0 <= off -> off + 4 <= n ->
  read_be32 m (a + off) = of_be32 (word_at l off) (word_at l (off + 1)) (word_at l (off + 2)) (word_at l (off + 3)).
Proof.
  intros Hm Ha Hl Ho Hn. rewrite read_be32_eq by (done || lia). rewrite <- !Z.add_assoc.
  by rewrite !(load_byte _ _ _ _ _ Hl) by lia.
Qed.

(** The one's complement of a sum makes the total a multiple of 2^16 - 1. *)
Lemma canon_complement s : 0 <= s -> canon (s + (65535 - canon s)) = 65535.
Proof.
  intros Hs. pose proof (canon_range s Hs). apply canon_max.
  - unfold canon in *. destruct (Z.eqb_spec s 0); lia.
  - replace (s + (65535 - canon s)) with (s - canon s + 1 * 65535) by lia. rewrite Z.mod_add by lia.
    rewrite Zminus_mod, canon_mod, Z.sub_diag by done. done.
Qed.

(** A list of known length as the list of its elements. *)
Ltac explicit_list l :=
  match goal with
  | H : length l = _ |- _ =>
      repeat (destruct l as [|? l]; [discriminate H|]; try (injection H as H)); first [destruct l; [|discriminate H] | idtac];
      clear H
  end.
