(* ===== verification/Network.v ===== *)
(** * Link and network layers (kernel/net/network.cpp, first half)

    Parsing and building of Ethernet frames, ARP packets, IPv4 packets and ICMP
    echo messages in a byte-addressed memory, the address predicates, and the
    calls through a network interface.  A parser returns its status and what it
    stored through its out-pointer ([None] when that was left alone); payloads in
    views are pointers into the packet.  A builder returns the memory, its status
    and the length stored through [out_length].  Addresses are the lists of their
    bytes. *)

From S2P Require Import Prelude Packet.

(** ** Data *)

Definition MAC_ADDRESS_LENGTH : Z := 6.
Definition IPV4_ADDRESS_LENGTH : Z := 4.
Definition ETHERNET_HEADER_SIZE : Z := 14.
Definition ETHERNET_MTU : Z := 1500.
Definition ETHERNET_MAX_FRAME_SIZE : Z := ETHERNET_HEADER_SIZE + ETHERNET_MTU.
Definition ARP_PACKET_SIZE : Z := 28.
Definition IPV4_MIN_HEADER_SIZE : Z := 20.
Definition IPV4_MAX_HEADER_SIZE : Z := 60.
Definition ICMP_ECHO_HEADER_SIZE : Z := 8.
Definition ICMP_ECHO_MAX_PAYLOAD : Z := ETHERNET_MTU - IPV4_MIN_HEADER_SIZE - ICMP_ECHO_HEADER_SIZE.
Definition ETHER_TYPE_IPV4 : Z := 0x0800.
Definition ETHER_TYPE_ARP : Z := 0x0806.
Definition IPV4_PROTOCOL_ICMP : Z := 1.

Inductive Status :=
| Ok | NotInitialized | NotConfigured | InvalidArgument | InvalidConfiguration | WouldBlock
| QueueFull | BufferTooSmall | FrameTooShort | FrameTooLarge | PayloadTooLarge
| MalformedPacket | ChecksumMismatch | UnsupportedProtocol | UnsupportedFragment | NotForUs
| NoRoute | NeighborResolutionPending | IterationStopped | InterfaceError | NameNotFound.

#[export] Instance net_Status_eq_dec : EqDecision Status.
Proof. solve_decision. Defined.

Abbreviation MacAddress := (list Z) (only parsing).
Abbreviation IPv4Address := (list Z) (only parsing).

Definition BROADCAST_MAC : MacAddress := replicate 6 0xff.
Definition ZERO_MAC : MacAddress := replicate 6 0.

Record EthernetFrameView := mkEthernetView {
  ef_destination : MacAddress; ef_source : MacAddress; ef_ether_type : Z; ef_payload : Z; ef_payload_length : Z }.

Inductive ArpOperation := ArpRequest | ArpReply.

#[export] Instance ArpOperation_eq_dec : EqDecision ArpOperation.
Proof. solve_decision. Defined.

Definition arp_operation_code (o : ArpOperation) : Z := match o with ArpRequest => 1 | ArpReply => 2 end.

Record ArpPacket := mkArp {
  operation : ArpOperation; sender_mac : MacAddress; sender_ip : IPv4Address;
  target_mac : MacAddress; target_ip : IPv4Address }.

Record IPv4PacketView := mkIPv4View {
  ip_source : IPv4Address; ip_destination : IPv4Address; ip_protocol : Z; ip_ttl : Z; ip_identification : Z;
  ip_dont_fragment : bool; ip_payload : Z; ip_payload_length : Z; ip_header_length : Z }.

Record IPv4Header := mkIPv4Header {
  h_source : IPv4Address; h_destination : IPv4Address; h_protocol : Z; h_ttl : Z; h_identification : Z;
  h_dont_fragment : bool }.

Inductive IcmpEchoType := EchoReply | EchoRequest.

#[export] Instance IcmpEchoType_eq_dec : EqDecision IcmpEchoType.
Proof. solve_decision. Defined.

Definition icmp_type_code (t : IcmpEchoType) : Z := match t with EchoReply => 0 | EchoRequest => 8 end.

Record IcmpEchoView := mkIcmpView {
  ic_type : IcmpEchoType; ic_identifier : Z; ic_sequence : Z; ic_payload : Z; ic_payload_length : Z }.

(** ** Addresses *)

Definition ipv4_value (address : IPv4Address) : Z :=
  Z.lor (Z.lor (Z.lor (u32 (Z.shiftl (word_at address 0) 24)) (u32 (Z.shiftl (word_at address 1) 16)))
           (u32 (Z.shiftl (word_at address 2) 8))) (word_at address 3).

Definition mac_equal (left right : MacAddress) : bool :=
  forallb (fun i => word_at left i =? word_at right i) (seqZ 0 MAC_ADDRESS_LENGTH).
Definition mac_is_zero (address : MacAddress) : bool :=
  forallb (fun i => word_at address i =? 0) (seqZ 0 MAC_ADDRESS_LENGTH).
Definition mac_is_broadcast (address : MacAddress) : bool := mac_equal address BROADCAST_MAC.
Definition mac_is_multicast (address : MacAddress) : bool := negb (Z.land (word_at address 0) 1 =? 0).
Definition ipv4_equal (left right : IPv4Address) : bool :=
  forallb (fun i => word_at left i =? word_at right i) (seqZ 0 IPV4_ADDRESS_LENGTH).
Definition ipv4_is_zero (address : IPv4Address) : bool := ipv4_value address =? 0.
Definition ipv4_is_multicast (address : IPv4Address) : bool := (224 <=? word_at address 0) && (word_at address 0 <=? 239).
Definition ipv4_is_limited_broadcast (address : IPv4Address) : bool := ipv4_value address =? UINT32_MAX.

Definition mac_is_valid_unicast (address : MacAddress) : bool :=
  negb (mac_is_zero address) && negb (mac_is_broadcast address) && negb (mac_is_multicast address).
Definition ipv4_is_valid_unicast (address : IPv4Address) : bool :=
  negb (ipv4_is_zero address) && negb (ipv4_is_multicast address) && negb (ipv4_is_limited_broadcast address).

Definition netmask_is_contiguous (netmask : IPv4Address) : bool :=
  let inverse := u32 (Z.lnot (ipv4_value netmask)) in
  Z.land inverse (u32 (inverse + 1)) =? 0.

Definition ipv4_on_same_network (left right netmask : IPv4Address) : bool :=
  let mask := ipv4_value netmask in
  Z.land (ipv4_value left) mask =? Z.land (ipv4_value right) mask.

Definition config_address_is_host (address netmask : IPv4Address) : bool :=
  if negb (ipv4_is_valid_unicast address) then false
  else
    let host_mask := u32 (Z.lnot (ipv4_value netmask)) in
    if host_mask <=? 1 then true
    else
      let host := Z.land (ipv4_value address) host_mask in
      negb (host =? 0) && negb (host =? host_mask).

(** ** Ethernet *)

Definition parse_ethernet (m : Memory) (frame frame_length : Z) (has_out : bool) : Status * option EthernetFrameView :=
  if (frame =? 0) || negb has_out then (InvalidArgument, None)
  else if frame_length <? ETHERNET_HEADER_SIZE then (FrameTooShort, None)
  else if ETHERNET_MAX_FRAME_SIZE <? frame_length then (FrameTooLarge, None)
  else
    let destination := load m frame MAC_ADDRESS_LENGTH in
    let source := load m (frame + MAC_ADDRESS_LENGTH) MAC_ADDRESS_LENGTH in
    let ether_type := read_be16 m (frame + 12) in
    if ether_type <? 0x0600 then (UnsupportedProtocol, Some (mkEthernetView destination source ether_type 0 0))
    else (Ok, Some (mkEthernetView destination source ether_type (frame + ETHERNET_HEADER_SIZE)
                      (frame_length - ETHERNET_HEADER_SIZE))).

(** The length stored through [out_length] is [None] when that pointer is null. *)
Definition serialize_ethernet (m : Memory) (destination source : MacAddress) (ether_type payload payload_length
    output output_capacity : Z) (has_length : bool) : Memory * Status * option Z :=
  let out v := if has_length then Some v else None in
  if (output =? 0) || negb has_length || ((payload =? 0) && negb (payload_length =? 0)) then (m, InvalidArgument, out 0)
  else if ether_type <? 0x0600 then (m, UnsupportedProtocol, out 0)
  else if ETHERNET_MTU <? payload_length then (m, PayloadTooLarge, out 0)
  else
    let required := ETHERNET_HEADER_SIZE + payload_length in
    if output_capacity <? required then (m, BufferTooSmall, out required)
    else if ranges_overlap output required payload payload_length && negb (payload =? output + ETHERNET_HEADER_SIZE)
    then (m, InvalidArgument, out 0)
    else
      let m := store m output destination in
      let m := store m (output + MAC_ADDRESS_LENGTH) source in
      let m := write_be16 m (output + 12) ether_type in
      let m := if payload_length =? 0 then m else move_bytes m (output + ETHERNET_HEADER_SIZE) payload payload_length in
      (m, Ok, out required).

(** ** ARP *)

Definition parse_arp (m : Memory) (packet packet_length : Z) (has_out : bool) : Status * option ArpPacket :=
  if (packet =? 0) || negb has_out then (InvalidArgument, None)
  else if packet_length <? ARP_PACKET_SIZE then (FrameTooShort, None)
  else if negb (read_be16 m packet =? 1) || negb (read_be16 m (packet + 2) =? ETHER_TYPE_IPV4) ||
          negb (m (packet + 4) =? MAC_ADDRESS_LENGTH) || negb (m (packet + 5) =? IPV4_ADDRESS_LENGTH)
  then (MalformedPacket, None)
  else
    let code := read_be16 m (packet + 6) in
    if negb (code =? arp_operation_code ArpRequest) && negb (code =? arp_operation_code ArpReply) then (MalformedPacket, None)
    else
      (Ok, Some (mkArp (if code =? arp_operation_code ArpRequest then ArpRequest else ArpReply)
                   (load m (packet + 8) MAC_ADDRESS_LENGTH) (load m (packet + 14) IPV4_ADDRESS_LENGTH)
                   (load m (packet + 18) MAC_ADDRESS_LENGTH) (load m (packet + 24) IPV4_ADDRESS_LENGTH))).

(** The enumeration has no other values, so the check of [operation] passes. *)
Definition serialize_arp (m : Memory) (packet : ArpPacket) (output output_capacity : Z) (has_length : bool)
  : Memory * Status * option Z :=
  let out v := if has_length then Some v else None in
  if (output =? 0) || negb has_length then (m, InvalidArgument, out 0)
  else if output_capacity <? ARP_PACKET_SIZE then (m, BufferTooSmall, out ARP_PACKET_SIZE)
  else
    let m := write_be16 m output 1 in
    let m := write_be16 m (output + 2) ETHER_TYPE_IPV4 in
    let m := store8 m (output + 4) MAC_ADDRESS_LENGTH in
    let m := store8 m (output + 5) IPV4_ADDRESS_LENGTH in
    let m := write_be16 m (output + 6) (arp_operation_code (operation packet)) in
    let m := store m (output + 8) (sender_mac packet) in
    let m := store m (output + 14) (sender_ip packet) in
    let m := store m (output + 18) (target_mac packet) in
    let m := store m (output + 24) (target_ip packet) in
    (m, Ok, out ARP_PACKET_SIZE).

(** ** IPv4 *)

Definition parse_ipv4 (m : Memory) (packet packet_length : Z) (has_out : bool) : Status * option IPv4PacketView :=
  if (packet =? 0) || negb has_out then (InvalidArgument, None)
  else if packet_length <? IPV4_MIN_HEADER_SIZE then (FrameTooShort, None)
  else
    let version := Z.shiftr (m packet) 4 in
    let ihl_words := Z.land (m packet) 0x0f in
    if negb (version =? 4) || (ihl_words <? 5) then (MalformedPacket, None)
    else
      let header_length := ihl_words * 4 in
      if (IPV4_MAX_HEADER_SIZE <? header_length) || (packet_length <? header_length) then (MalformedPacket, None)
      else
        let total_length := read_be16 m (packet + 2) in
        if (total_length <? header_length) || (packet_length <? total_length) then (MalformedPacket, None)
        else if negb (internet_checksum m packet header_length =? 0) then (ChecksumMismatch, None)
        else
          let flags_and_fragment := read_be16 m (packet + 6) in
          if negb (Z.land flags_and_fragment 0x8000 =? 0) then (MalformedPacket, None)
          else if negb (Z.land flags_and_fragment 0x2000 =? 0) || negb (Z.land flags_and_fragment 0x1fff =? 0)
          then (UnsupportedFragment, None)
          else if m (packet + 8) =? 0 then (MalformedPacket, None)
          else
            (Ok, Some (mkIPv4View (load m (packet + 12) IPV4_ADDRESS_LENGTH) (load m (packet + 16) IPV4_ADDRESS_LENGTH)
                         (m (packet + 9)) (m (packet + 8)) (read_be16 m (packet + 4))
                         (negb (Z.land flags_and_fragment 0x4000 =? 0)) (packet + header_length)
                         (total_length - header_length) header_length)).

Definition serialize_ipv4 (m : Memory) (header : IPv4Header) (payload payload_length output output_capacity : Z)
    (has_length : bool) : Memory * Status * option Z :=
  let out v := if has_length then Some v else None in
  if (output =? 0) || negb has_length || ((payload =? 0) && negb (payload_length =? 0)) then (m, InvalidArgument, out 0)
  else if h_ttl header =? 0 then (m, MalformedPacket, out 0)
  else if UINT16_MAX - IPV4_MIN_HEADER_SIZE <? payload_length then (m, PayloadTooLarge, out 0)
  else
    let required := IPV4_MIN_HEADER_SIZE + payload_length in
    if output_capacity <? required then (m, BufferTooSmall, out required)
    else if ranges_overlap output required payload payload_length && negb (payload =? output + IPV4_MIN_HEADER_SIZE)
    then (m, InvalidArgument, out 0)
    else
      let m := clear_bytes m output IPV4_MIN_HEADER_SIZE in
      let m := store8 m output 0x45 in
      let m := write_be16 m (output + 2) (u16 required) in
      let m := write_be16 m (output + 4) (h_identification header) in
      let m := write_be16 m (output + 6) (if h_dont_fragment header then 0x4000 else 0) in
      let m := store8 m (output + 8) (h_ttl header) in
      let m := store8 m (output + 9) (h_protocol header) in
      let m := store m (output + 12) (h_source header) in
      let m := store m (output + 16) (h_destination header) in
      let m := write_be16 m (output + 10) (internet_checksum m output IPV4_MIN_HEADER_SIZE) in
      let m := if payload_length =? 0 then m else move_bytes m (output + IPV4_MIN_HEADER_SIZE) payload payload_length in
      (m, Ok, out required).

(** ** ICMP echo *)

Definition parse_icmp_echo (m : Memory) (packet packet_length : Z) (has_out : bool) : Status * option IcmpEchoView :=
  if (packet =? 0) || negb has_out then (InvalidArgument, None)
  else if packet_length <? ICMP_ECHO_HEADER_SIZE then (FrameTooShort, None)
  else if negb (internet_checksum m packet packet_length =? 0) then (ChecksumMismatch, None)
  else if (negb (m packet =? icmp_type_code EchoRequest) && negb (m packet =? icmp_type_code EchoReply)) ||
          negb (m (packet + 1) =? 0) then (UnsupportedProtocol, None)
  else
    (Ok, Some (mkIcmpView (if m packet =? icmp_type_code EchoRequest then EchoRequest else EchoReply)
                 (read_be16 m (packet + 4)) (read_be16 m (packet + 6)) (packet + ICMP_ECHO_HEADER_SIZE)
                 (packet_length - ICMP_ECHO_HEADER_SIZE))).

Definition serialize_icmp_echo (m : Memory) (type : IcmpEchoType) (identifier sequence payload payload_length
    output output_capacity : Z) (has_length : bool) : Memory * Status * option Z :=
  let out v := if has_length then Some v else None in
  if (output =? 0) || negb has_length || ((payload =? 0) && negb (payload_length =? 0)) then (m, InvalidArgument, out 0)
  else if ICMP_ECHO_MAX_PAYLOAD <? payload_length then (m, PayloadTooLarge, out 0)
  else
    let required := ICMP_ECHO_HEADER_SIZE + payload_length in
    if output_capacity <? required then (m, BufferTooSmall, out required)
    else if ranges_overlap output required payload payload_length && negb (payload =? output + ICMP_ECHO_HEADER_SIZE)
    then (m, InvalidArgument, out 0)
    else
      let m := clear_bytes m output ICMP_ECHO_HEADER_SIZE in
      let m := store8 m output (icmp_type_code type) in
      let m := write_be16 m (output + 4) identifier in
      let m := write_be16 m (output + 6) sequence in
      let m := if payload_length =? 0 then m else move_bytes m (output + ICMP_ECHO_HEADER_SIZE) payload payload_length in
      let m := write_be16 m (output + 2) (internet_checksum m output required) in
      (m, Ok, out required).

(** ** Ethernet frames *)

Definition mac_ok (a : MacAddress) : Prop := length a = 6%nat /\ Forall is_u8 a.
Definition ip_ok (a : IPv4Address) : Prop := length a = 4%nat /\ Forall is_u8 a.

(** The payload of a packet to be built may lie anywhere outside the packet, or
    already at its place inside it. *)
Definition payload_place (output header payload n : Z) : Prop :=
  0 < payload /\ (payload = output + header \/ payload + n <= output \/ output + header + n <= payload).

Lemma payload_place_overlap output header payload n :
  payload_place output header payload n -> 0 <= header -> 0 <= n ->
  ranges_overlap output (header + n) payload n && negb (payload =? output + header) = false.
Proof.
  intros [Hp Hpl] Hh Hn. unfold ranges_overlap. destruct (_ || _) eqn:E; [done|].
  destruct (Z.eqb_spec payload (output + header)); [apply andb_false_r|]. rewrite andb_true_r.
  destruct (Z.leb_spec output payload); lia.
Qed.

(** Placing the payload behind a header that has been written over [m]. *)
Lemma placed_payload m m3 m' output header payload n :
  bytes_ok m -> bytes_ok m3 -> payload_place output header payload n -> 0 <= header -> 0 <= n ->
  (forall x, ~ (output <= x < output + header) -> m3 x = m x) ->
  (forall x, m' x = if decide (output + header <= x < output + header + n) then m3 (payload + (x - (output + header))) else m3 x) ->
  bytes_ok m' /\ load m' output (header + n) = load m3 output header ++ load m payload n /\
  forall x, ~ (output <= x < output + (header + n)) -> m' x = m x.
Proof.
  intros Hm Hm3 (_ & Hpl) Hh Hn Hout Hmove.
  split; [intros x; rewrite Hmove; case_decide; apply Hm3|]. split.
  - rewrite load_app by lia. f_equal; apply load_eq; intros k Hk; rewrite Hmove.
    + by rewrite decide_False by lia.
    + rewrite decide_True by lia. replace (payload + (output + header + k - (output + header))) with (payload + k) by lia.
      apply Hout. lia.
  - intros x Hx. rewrite Hmove, decide_False by lia. apply Hout. lia.
Qed.

Lemma move_payload m output header payload n x : 0 <= n ->
  (if n =? 0 then m else move_bytes m (output + header) payload n) x =
  if decide (output + header <= x < output + header + n) then m (payload + (x - (output + header))) else m x.
Proof.
  intros Hn. destruct (Z.eqb_spec n 0); [by rewrite decide_False by lia|]. by apply move_bytes_ok.
Qed.

Lemma copy_payload m output header payload n x : payload_place output header payload n -> 0 <= header -> 0 <= n ->
  copy_bytes m (output + header) payload n x =
  if decide (output + header <= x < output + header + n) then m (payload + (x - (output + header))) else m x.
Proof.
  intros (_ & Hpl) Hh Hn. unfold copy_bytes. rewrite copy_forward_ok by lia. by rewrite Z2Nat.id.
Qed.

(** The first [n] bytes of a buffer as explicit bytes. *)
Ltac explicit_load m a n :=
  let l := fresh "l" in let Hl := fresh "Hl" in
  pose proof (load_length_nat m a n) as Hl; set (l := load m a n) in *; clearbody l;
  let k := eval vm_compute in (Z.to_nat n) in change (Z.to_nat n) with k in Hl; explicit_list l.

(** Compute a field of a header given by its bytes. *)
Ltac compute_header :=
  lazy beta iota zeta delta -[of_be16 of_be32 u8 u16 Z.shiftr Z.sub Z.add Z.ltb Z.leb Z.eqb Z.land canon sum_words Z.mul ETHERNET_MTU replicate orb andb negb].

Ltac stores_ok :=
  repeat (refine (packet_store_bytes_ok _ _ _ _ _); [|first [assumption | apply be16_u8 | apply be32_u8 | apply zeros_u8 | apply single_u8; first [assumption | apply u8_byte | word_lia]]]); assumption.

Definition ethernet_bytes (destination source : MacAddress) (ether_type : Z) (payload : list Z) : list Z :=
  destination ++ source ++ be16 ether_type ++ payload.

Lemma serialize_ethernet_ok m destination source ether_type payload n output capacity :
  bytes_ok m -> mac_ok destination -> mac_ok source -> 0 < output -> 0x600 <= ether_type < 2 ^ 16 ->
  payload_place output ETHERNET_HEADER_SIZE payload n -> 0 <= n <= ETHERNET_MTU -> ETHERNET_HEADER_SIZE + n <= capacity ->
  exists m', serialize_ethernet m destination source ether_type payload n output capacity true
    = (m', Ok, Some (ETHERNET_HEADER_SIZE + n)) /\ bytes_ok m' /\
    load m' output (ETHERNET_HEADER_SIZE + n) = ethernet_bytes destination source ether_type (load m payload n) /\
    forall x, ~ (output <= x < output + (ETHERNET_HEADER_SIZE + n)) -> m' x = m x.
Proof.
  intros Hm [Hd Hd8] [Hs Hs8] Ho Ht Hpl Hn Hc. pose proof (proj1 Hpl) as Hp. unfold serialize_ethernet.
  replace (_ || _ || _) with false by lia. replace (ether_type <? _) with false by lia. replace (ETHERNET_MTU <? n) with false by lia.
  replace (capacity <? _) with false by lia. rewrite payload_place_overlap by (done || (unfold ETHERNET_HEADER_SIZE; lia)).
  unfold MAC_ADDRESS_LENGTH in *. eexists. split; [reflexivity|]. rewrite write_be16_eq by lia.
  set (m3 := store (store (store m output destination) (output + 6) source) (output + 12) (be16 ether_type)).
  destruct (placed_payload m m3 (if n =? 0 then m3 else move_bytes m3 (output + ETHERNET_HEADER_SIZE) payload n)
    output ETHERNET_HEADER_SIZE payload n) as (H1 & H2 & H3); try done; unfold ETHERNET_HEADER_SIZE in *; try lia.
  - unfold m3. stores_ok.
  - intros x Hx. unfold m3. rewrite !store_outside by (cbn [length be16]; lia). done.
  - intros x. apply move_payload. lia.
  - split; [done|]. split; [|done]. etrans; [exact H2|]. unfold ethernet_bytes. rewrite !app_assoc. f_equal. unfold m3.
    rewrite !load_store_inside, load_store_base by (cbn [length be16]; lia).
    explicit_load m output 14. explicit_list destination. explicit_list source. reflexivity.
Qed.

(** Split a loaded packet into its header and the rest. *)
Lemma load_split m a h n header rest :
  load m a (h + n) = header ++ rest -> 0 <= n -> Z.of_nat (length header) = h ->
  load m a h = header /\ load m (a + h) n = rest.
Proof.
  intros Hl Hn Hh. rewrite load_app in Hl by lia. apply app_inj_1 in Hl as [? ?]; [done|]. rewrite load_length_nat. lia.
Qed.

Lemma parse_ethernet_ok m frame destination source ether_type bytes n :
  bytes_ok m -> 0 < frame -> mac_ok destination -> mac_ok source -> 0x600 <= ether_type < 2 ^ 16 ->
  0 <= n <= ETHERNET_MTU ->
  load m frame (ETHERNET_HEADER_SIZE + n) = ethernet_bytes destination source ether_type bytes ->
  parse_ethernet m frame (ETHERNET_HEADER_SIZE + n) true =
    (Ok, Some (mkEthernetView destination source ether_type (frame + ETHERNET_HEADER_SIZE) n)) /\
  load m (frame + ETHERNET_HEADER_SIZE) n = bytes.
Proof.
  intros Hm Hf [Hd _] [Hs _] Ht Hn Hl. unfold ethernet_bytes in Hl. rewrite !app_assoc, <- (app_assoc destination) in Hl.
  apply load_split in Hl as [Hh Hp]; [|lia|rewrite !length_app, Hd, Hs; reflexivity]. split; [|done].
  unfold parse_ethernet. unfold ETHERNET_MAX_FRAME_SIZE, ETHERNET_HEADER_SIZE, MAC_ADDRESS_LENGTH in *.
  replace (_ || _) with false by lia. replace (14 + n <? 14) with false by lia. replace (14 + ETHERNET_MTU <? _) with false by lia.
  explicit_list destination. explicit_list source.
  rewrite (read_be16_at _ _ _ _ _ Hm Hf Hh), (load_part _ _ _ _ _ _ Hh), (load_prefix _ _ _ _ _ Hh) by lia.
  compute_header. rewrite of_be16_be16 by lia. replace (ether_type <? 1536) with false by lia. do 3 f_equal. lia.
Qed.

(** ** ARP packets *)

Definition arp_bytes (p : ArpPacket) : list Z :=
  be16 1 ++ be16 ETHER_TYPE_IPV4 ++ [MAC_ADDRESS_LENGTH; IPV4_ADDRESS_LENGTH] ++ be16 (arp_operation_code (operation p)) ++
  sender_mac p ++ sender_ip p ++ target_mac p ++ target_ip p.

Definition arp_ok (p : ArpPacket) : Prop :=
  mac_ok (sender_mac p) /\ ip_ok (sender_ip p) /\ mac_ok (target_mac p) /\ ip_ok (target_ip p).

Lemma serialize_arp_ok m p output capacity :
  bytes_ok m -> arp_ok p -> 0 < output -> ARP_PACKET_SIZE <= capacity ->
  exists m', serialize_arp m p output capacity true = (m', Ok, Some ARP_PACKET_SIZE) /\ bytes_ok m' /\
    load m' output ARP_PACKET_SIZE = arp_bytes p /\ forall x, ~ (output <= x < output + ARP_PACKET_SIZE) -> m' x = m x.
Proof.
  intros Hm ([Hs Hs8] & [Hi Hi8] & [Ht Ht8] & [Hj Hj8]) Ho Hc. unfold serialize_arp. replace (_ || _) with false by lia.
  replace (capacity <? _) with false by lia. eexists. split; [reflexivity|]. rewrite !write_be16_eq by lia. rewrite !packet_store8_eq.
  unfold ARP_PACKET_SIZE in *. destruct p as [op smac sip tmac tip]. cbn [operation sender_mac sender_ip target_mac target_ip] in *.
  split; [|split].
  - unfold MAC_ADDRESS_LENGTH, IPV4_ADDRESS_LENGTH. stores_ok.
  - rewrite !load_store_inside, load_store_base by (cbn [length be16]; lia).
    explicit_load m output 28. explicit_list smac. explicit_list sip. explicit_list tmac. explicit_list tip. reflexivity.
  - intros x Hx. rewrite !store_outside by (cbn [length be16]; lia). done.
Qed.

Lemma parse_arp_ok m packet p rest n :
  bytes_ok m -> 0 < packet -> arp_ok p -> 0 <= n -> load m packet (ARP_PACKET_SIZE + n) = arp_bytes p ++ rest ->
  parse_arp m packet (ARP_PACKET_SIZE + n) true = (Ok, Some p).
Proof.
  intros Hm Hp ([Hs _] & [Hi _] & [Ht _] & [Hj _]) Hn Hl. destruct p as [op smac sip tmac tip]. unfold arp_bytes in Hl.
  cbn [operation sender_mac sender_ip target_mac target_ip] in *.
  explicit_list smac. explicit_list sip. explicit_list tmac. explicit_list tip.
  apply load_split in Hl as [Hh _]; [|done|reflexivity].
  unfold parse_arp. unfold ARP_PACKET_SIZE, MAC_ADDRESS_LENGTH, IPV4_ADDRESS_LENGTH in *.
  replace (_ || _) with false by lia. replace (28 + n <? 28) with false by lia.
  rewrite (read_be16_first _ _ _ _ Hm Hp Hh), !(read_be16_at _ _ _ _ _ Hm Hp Hh), !(load_byte _ _ _ _ _ Hh), !(load_part _ _ _ _ _ _ Hh) by lia.
  by destruct op.
Qed.

(** ** IPv4 packets *)

Definition ipv4_header (h : IPv4Header) (total checksum : Z) : list Z :=
  [0x45; 0] ++ be16 total ++ be16 (h_identification h) ++ be16 (if h_dont_fragment h then 0x4000 else 0) ++
  [h_ttl h; h_protocol h] ++ be16 checksum ++ h_source h ++ h_destination h.

Definition ipv4_checksum (h : IPv4Header) (total : Z) : Z := 65535 - canon (sum_words (ipv4_header h total 0)).

Definition ipv4_bytes (h : IPv4Header) (payload : list Z) : list Z :=
  let total := IPV4_MIN_HEADER_SIZE + Z.of_nat (length payload) in ipv4_header h total (ipv4_checksum h total) ++ payload.

Record ipv4_header_ok (h : IPv4Header) : Prop := {
  ho_source : ip_ok (h_source h); ho_destination : ip_ok (h_destination h);
  ho_protocol : is_u8 (h_protocol h); ho_ttl : is_u8 (h_ttl h) /\ h_ttl h ≠ 0;
  ho_identification : 0 <= h_identification h < 2 ^ 16 }.

Lemma ipv4_header_u8 h total c : ipv4_header_ok h -> Forall is_u8 (ipv4_header h total c).
Proof.
  intros [[_ H1] [_ H2] H3 [H4 _] H5]. unfold ipv4_header. rewrite !Forall_app.
  repeat split; try apply be16_u8; try done; repeat apply Forall_cons_2; done || word_lia.
Qed.

Lemma ipv4_checksum_range h total : ipv4_header_ok h -> 0 <= ipv4_checksum h total <= 65535.
Proof.
  intros Hh. unfold ipv4_checksum. pose proof (canon_range _ (sum_words_nonneg _ (ipv4_header_u8 h total 0 Hh))). lia.
Qed.

(** The checksum field makes the header sum to zero. *)
Lemma ipv4_header_sum h total c : ipv4_header_ok h -> 0 <= c <= 65535 ->
  sum_words (ipv4_header h total c) = sum_words (ipv4_header h total 0) + c.
Proof.
  intros [[H1 _] [H2 _] _ _ _] Hc. destruct h as [src dst proto ttl id df]. unfold ipv4_header.
  cbn [h_source h_destination h_protocol h_ttl h_identification h_dont_fragment] in *. explicit_list src. explicit_list dst.
  cbn [app sum_words be16]. pose proof (of_be16_be16 c ltac:(lia)) as E. unfold of_be16 in E.
  change (u8 (Z.shiftr 0 8)) with 0. change (u8 0) with 0. lia.
Qed.

Lemma ipv4_header_valid h total : ipv4_header_ok h ->
  canon (sum_words (ipv4_header h total (ipv4_checksum h total))) = 65535.
Proof.
  intros Hh. rewrite ipv4_header_sum by (done || by apply ipv4_checksum_range).
  apply canon_complement, sum_words_nonneg, ipv4_header_u8. done.
Qed.

Lemma serialize_ipv4_ok m h payload n output capacity :
  bytes_ok m -> ipv4_header_ok h -> 0 < output -> payload_place output IPV4_MIN_HEADER_SIZE payload n ->
  0 <= n <= UINT16_MAX - IPV4_MIN_HEADER_SIZE -> IPV4_MIN_HEADER_SIZE + n <= capacity ->
  exists m', serialize_ipv4 m h payload n output capacity true = (m', Ok, Some (IPV4_MIN_HEADER_SIZE + n)) /\ bytes_ok m' /\
    load m' output (IPV4_MIN_HEADER_SIZE + n) = ipv4_bytes h (load m payload n) /\
    forall x, ~ (output <= x < output + (IPV4_MIN_HEADER_SIZE + n)) -> m' x = m x.
Proof.
  intros Hm Hh Ho Hpl Hn Hc. pose proof (proj1 Hpl) as Hp. unfold serialize_ipv4.
  replace (_ || _ || _) with false by lia. pose proof (ho_ttl _ Hh). replace (h_ttl h =? 0) with false by lia.
  replace (_ <? n) with false by lia. replace (capacity <? _) with false by lia.
  rewrite payload_place_overlap by (done || (unfold IPV4_MIN_HEADER_SIZE; lia)).
  eexists. split; [reflexivity|]. rewrite !write_be16_eq by lia. rewrite !packet_store8_eq. unfold clear_bytes.
  match goal with |- context [internet_checksum ?m ?a ?l] => set (m2 := m) end.
  assert (bytes_ok m2) as Hm2.
  { unfold m2. destruct Hh as [[_ H1] [_ H2] H3 [H4 _] H5].
    stores_ok. }
  assert (forall x, ~ (output <= x < output + 20) -> m2 x = m x) as Hout2.
  { intros x Hx. unfold m2. destruct Hh as [[H1 _] [H2 _] _ _ _].
    rewrite !store_outside by (rewrite ?length_replicate; cbn [length be16]; unfold IPV4_MIN_HEADER_SIZE; lia). done. }
  set (total := u16 (IPV4_MIN_HEADER_SIZE + n)).
  assert (load m2 output 20 = ipv4_header h total 0) as Hhead.
  { unfold m2, ipv4_header. destruct Hh as [[H1 _] [H2 _] _ _ _].
    destruct h as [src dst proto ttl id df]. cbn [h_source h_destination h_protocol h_ttl h_identification h_dont_fragment] in *.
    fold total. clearbody total. change (Z.to_nat IPV4_MIN_HEADER_SIZE) with 20%nat.
    rewrite !load_store_inside, !load_store_base by (rewrite ?length_replicate; cbn [length be16]; lia).
    explicit_load m output 20. explicit_list src. explicit_list dst. reflexivity. }
  rewrite (internet_checksum_eq m2) by (done || lia). unfold IPV4_MIN_HEADER_SIZE in *. rewrite Hhead. fold (ipv4_checksum h total).
  set (m3 := store m2 (output + 10) (be16 (ipv4_checksum h total))).
  destruct (placed_payload m m3 (if n =? 0 then m3 else move_bytes m3 (output + 20) payload n) output 20 payload n)
    as (H1 & H2 & H3); try done; try lia.
  - unfold m3. stores_ok.
  - intros x Hx. unfold m3. rewrite store_outside by (cbn [length be16]; lia). by apply Hout2.
  - intros x. apply move_payload. lia.
  - split; [done|]. split; [|done]. etrans; [exact H2|]. unfold ipv4_bytes, IPV4_MIN_HEADER_SIZE. rewrite load_length by lia.
    assert (total = 20 + n) as Et by (unfold total, u16; apply Z.mod_small; unfold UINT16_MAX in Hn; lia).
    rewrite <- Et. f_equal. unfold m3. rewrite load_store_inside, Hhead by (cbn [length be16]; lia).
    unfold ipv4_header. destruct Hh as [[Hs _] [Hd _] _ _ _].
    destruct h as [src dst proto ttl id df]. cbn [h_source h_destination h_protocol h_ttl h_identification h_dont_fragment] in *.
    explicit_list src. explicit_list dst. reflexivity.
Qed.

Lemma parse_ipv4_ok m packet h bytes n capacity :
  bytes_ok m -> 0 < packet -> ipv4_header_ok h -> 0 <= n -> IPV4_MIN_HEADER_SIZE + n <= capacity <= UINT16_MAX ->
  load m packet (IPV4_MIN_HEADER_SIZE + n) = ipv4_bytes h bytes ->
  parse_ipv4 m packet capacity true =
    (Ok, Some (mkIPv4View (h_source h) (h_destination h) (h_protocol h) (h_ttl h) (h_identification h) (h_dont_fragment h)
                 (packet + IPV4_MIN_HEADER_SIZE) n IPV4_MIN_HEADER_SIZE)) /\
  load m (packet + IPV4_MIN_HEADER_SIZE) n = bytes.
Proof.
  intros Hm Hp Hh Hn Hc Hl. assert (length bytes = Z.to_nat n) as Hlen.
  { apply (f_equal length) in Hl. unfold ipv4_bytes in Hl. rewrite load_length_nat, length_app in Hl.
    destruct Hh as [[Hs _] [Hd _] _ _ _]. unfold ipv4_header in Hl. rewrite !length_app, Hs, Hd in Hl. cbn [length be16] in Hl.
    unfold IPV4_MIN_HEADER_SIZE in *. lia. }
  unfold ipv4_bytes in Hl. rewrite Hlen, Z2Nat.id in Hl by done. set (total := IPV4_MIN_HEADER_SIZE + n) in *.
  pose proof (ipv4_header_valid h total Hh) as Hvalid. set (ck := ipv4_checksum h total) in *. clearbody ck.
  apply load_split in Hl as [Hhead Hpl]; [|done|]; cycle 1.
  { destruct Hh as [[Hs _] [Hd _] _ _ _]. unfold ipv4_header. rewrite !length_app, Hs, Hd. reflexivity. }
  split; [|done]. unfold parse_ipv4. unfold IPV4_MIN_HEADER_SIZE, IPV4_MAX_HEADER_SIZE, IPV4_ADDRESS_LENGTH in *.
  replace (_ || _) with false by lia. replace (capacity <? 20) with false by lia.
  pose proof Hh as [[Hs _] [Hd _] _ [_ Httl] Hid]. 
  assert (m packet = 0x45) as -> by (rewrite (load_first _ _ _ _ Hhead) by lia; reflexivity).
  change (Z.shiftr 69 4) with 4. change (Z.land 69 15) with 5. change (negb (4 =? 4) || (5 <? 5)) with false.
  change (5 * 4) with 20. change (60 <? 20) with false. replace (false || (capacity <? 20)) with false by lia.
  rewrite !(read_be16_at _ _ _ _ _ Hm Hp Hhead), !(load_byte _ _ _ _ _ Hhead), !(load_part _ _ _ _ _ _ Hhead) by lia.
  rewrite (internet_checksum_eq m) by (done || lia). rewrite Hhead, Hvalid.
  destruct h as [src dst proto ttl id df]. unfold ipv4_header. cbn [h_source h_destination h_protocol h_ttl h_identification h_dont_fragment] in *.
  explicit_list src. explicit_list dst. compute_header. rewrite !of_be16_be16 by (unfold UINT16_MAX in *; destruct df; lia).
  change (65535 - 65535 =? 0) with true. replace (ttl =? 0) with false by lia.
  replace (_ || (capacity <? _)) with false by (unfold total in *; lia). replace (20 + n - 20) with n by lia. by destruct df.
Qed.

(** ** ICMP echo messages *)

Definition icmp_header (type : IcmpEchoType) (identifier sequence checksum : Z) : list Z :=
  [icmp_type_code type; 0] ++ be16 checksum ++ be16 identifier ++ be16 sequence.

Definition icmp_checksum (type : IcmpEchoType) (identifier sequence : Z) (payload : list Z) : Z :=
  65535 - canon (sum_words (icmp_header type identifier sequence 0 ++ payload)).

Definition icmp_bytes (type : IcmpEchoType) (identifier sequence : Z) (payload : list Z) : list Z :=
  icmp_header type identifier sequence (icmp_checksum type identifier sequence payload) ++ payload.

Lemma icmp_header_u8 type identifier sequence c : Forall is_u8 (icmp_header type identifier sequence c).
Proof. unfold icmp_header. rewrite !Forall_app. repeat split; try apply be16_u8. repeat apply Forall_cons_2; [destruct type; cbn|..]; done || word_lia. Qed.

Lemma icmp_sum type identifier sequence c payload : 0 <= c <= 65535 ->
  sum_words (icmp_header type identifier sequence c ++ payload) = sum_words (icmp_header type identifier sequence 0 ++ payload) + c.
Proof.
  intros Hc. unfold icmp_header. cbn [app sum_words be16]. pose proof (of_be16_be16 c ltac:(lia)) as E. unfold of_be16 in E.
  change (u8 (Z.shiftr 0 8)) with 0. change (u8 0) with 0. lia.
Qed.

Lemma icmp_valid type identifier sequence payload : Forall is_u8 payload ->
  0 <= icmp_checksum type identifier sequence payload <= 65535 /\
  canon (sum_words (icmp_bytes type identifier sequence payload)) = 65535.
Proof.
  intros Hp. assert (0 <= sum_words (icmp_header type identifier sequence 0 ++ payload)) as Hs
    by (apply sum_words_nonneg, Forall_app; split; [apply icmp_header_u8|done]).
  pose proof (canon_range _ Hs). split; [unfold icmp_checksum; lia|].
  unfold icmp_bytes. rewrite icmp_sum by (unfold icmp_checksum; lia). by apply canon_complement.
Qed.

Lemma serialize_icmp_echo_ok m type identifier sequence payload n output capacity :
  bytes_ok m -> 0 < output -> payload_place output ICMP_ECHO_HEADER_SIZE payload n -> 0 <= n <= ICMP_ECHO_MAX_PAYLOAD ->
  ICMP_ECHO_HEADER_SIZE + n <= capacity ->
  exists m', serialize_icmp_echo m type identifier sequence payload n output capacity true
    = (m', Ok, Some (ICMP_ECHO_HEADER_SIZE + n)) /\ bytes_ok m' /\
    load m' output (ICMP_ECHO_HEADER_SIZE + n) = icmp_bytes type identifier sequence (load m payload n) /\
    forall x, ~ (output <= x < output + (ICMP_ECHO_HEADER_SIZE + n)) -> m' x = m x.
Proof.
  intros Hm Ho Hpl Hn Hc. pose proof (proj1 Hpl) as Hp. unfold serialize_icmp_echo.
  replace (_ || _ || _) with false by lia. replace (_ <? n) with false by lia. replace (capacity <? _) with false by lia.
  rewrite payload_place_overlap by (done || (unfold ICMP_ECHO_HEADER_SIZE; lia)).
  eexists. split; [reflexivity|]. rewrite !write_be16_eq by lia. rewrite !packet_store8_eq. unfold clear_bytes, ICMP_ECHO_HEADER_SIZE in *.
  set (m2 := store (store (store (store m output (replicate (Z.to_nat 8) 0)) output [icmp_type_code type])
    (output + 4) (be16 identifier)) (output + 6) (be16 sequence)).
  assert (is_u8 (icmp_type_code type)) as Ht by (destruct type; cbn; word_lia).
  set (m3 := if n =? 0 then m2 else move_bytes m2 (output + 8) payload n).
  destruct (placed_payload m m2 m3 output 8 payload n) as (H1 & H2 & H3); try done; try lia.
  - unfold m2. stores_ok.
  - intros x Hx. unfold m2. rewrite !store_outside by (rewrite ?length_replicate; cbn [length be16]; lia). done.
  - intros x. apply move_payload. lia.
  - assert (load m2 output 8 = icmp_header type identifier sequence 0) as Hhead.
    { unfold m2. rewrite !load_store_inside, !load_store_base by (rewrite ?length_replicate; cbn [length be16]; lia).
      explicit_load m output 8. reflexivity. }
    rewrite Hhead in H2. rewrite (internet_checksum_eq m3), H2 by (done || lia). fold (icmp_checksum type identifier sequence (load m payload n)).
    split; [stores_ok|]. split.
    + rewrite load_store_inside, H2 by (cbn [length be16]; lia). reflexivity.
    + intros x Hx. rewrite store_outside by (cbn [length be16]; lia). by apply H3.
Qed.

Lemma parse_icmp_echo_ok m packet type identifier sequence bytes n :
  bytes_ok m -> 0 < packet -> 0 <= n -> 0 <= identifier < 2 ^ 16 -> 0 <= sequence < 2 ^ 16 ->
  load m packet (ICMP_ECHO_HEADER_SIZE + n) = icmp_bytes type identifier sequence bytes ->
  parse_icmp_echo m packet (ICMP_ECHO_HEADER_SIZE + n) true =
    (Ok, Some (mkIcmpView type identifier sequence (packet + ICMP_ECHO_HEADER_SIZE) n)) /\
  load m (packet + ICMP_ECHO_HEADER_SIZE) n = bytes.
Proof.
  intros Hm Hp Hn Hi Hs Hl. pose proof (load_u8 m packet (ICMP_ECHO_HEADER_SIZE + n) Hm) as Hu. rewrite Hl in Hu.
  unfold icmp_bytes in Hu. apply Forall_app in Hu as [_ Hu].
  destruct (icmp_valid type identifier sequence bytes Hu) as [_ Hvalid].
  unfold parse_icmp_echo. rewrite internet_checksum_eq, Hl, Hvalid by (done || lia). unfold icmp_bytes in Hl.
  apply load_split in Hl as [Hhead Hpl]; [|done|reflexivity]. split; [|done]. unfold ICMP_ECHO_HEADER_SIZE in *.
  replace (_ || _) with false by lia. replace (8 + n <? 8) with false by lia. change (65535 - 65535 =? 0) with true. cbn [negb].
  rewrite !(read_be16_at _ _ _ _ _ Hm Hp Hhead), !(load_byte _ _ _ _ _ Hhead), (load_first _ _ _ _ Hhead) by lia.
  compute_header. rewrite !of_be16_be16 by lia. replace (8 + n - 8) with n by lia. by destruct type.
Qed.
