(* ===== verification/Protocols.v ===== *)
(** * Transport and application messages (kernel/net/protocols.cpp)

    UDP datagrams, TCP segments, DHCP messages and DNS queries for addresses, in
    the memory of Packet.v and with the conventions of Network.v.  Local arrays of
    the code ([pseudo], [client_id], [parameters]) are lists of bytes; reading past
    a packet is reading whatever the memory holds there. *)

From S2P Require Import Prelude Packet Network.

(** ** Data *)

Definition IPV4_PROTOCOL_TCP : Z := 6.
Definition IPV4_PROTOCOL_UDP : Z := 17.
Definition UDP_HEADER_SIZE : Z := 8.
Definition TCP_MIN_HEADER_SIZE : Z := 20.
Definition UDP_MAX_PAYLOAD : Z := ETHERNET_MTU - IPV4_MIN_HEADER_SIZE - UDP_HEADER_SIZE.
Definition TCP_MAX_PAYLOAD : Z := ETHERNET_MTU - IPV4_MIN_HEADER_SIZE - TCP_MIN_HEADER_SIZE.

Record UdpDatagramView := mkUdpView {
  ud_source_port : Z; ud_destination_port : Z; ud_payload : Z; ud_payload_length : Z }.

Record TcpSegmentView := mkTcpView {
  tc_source_port : Z; tc_destination_port : Z; tc_sequence : Z; tc_acknowledgement : Z; tc_flags : Z; tc_window : Z;
  tc_payload : Z; tc_payload_length : Z }.

Inductive DhcpMessageType := Discover | Offer | Request | Decline | Ack | Nak.

#[export] Instance DhcpMessageType_eq_dec : EqDecision DhcpMessageType.
Proof. solve_decision. Defined.

Definition dhcp_type_code (t : DhcpMessageType) : Z :=
  match t with Discover => 1 | Offer => 2 | Request => 3 | Decline => 4 | Ack => 5 | Nak => 6 end.

(** The cast of a byte between 1 and 6. *)
Definition dhcp_type_of (code : Z) : DhcpMessageType :=
  match code with 1 => Discover | 2 => Offer | 3 => Request | 4 => Decline | 5 => Ack | _ => Nak end.

(** [type] is 0 in the value-initialised view: [None]. *)
Record DhcpMessageView := mkDhcpView {
  dm_type : option DhcpMessageType; dm_transaction_id : Z; offered_address : IPv4Address; server_identifier : IPv4Address;
  netmask : IPv4Address; gateway : IPv4Address; dns_server : IPv4Address; lease_seconds : Z;
  has_server_identifier : bool; has_netmask : bool; has_gateway : bool; has_dns_server : bool }.

Record DnsAnswer := mkDnsAnswer { dns_transaction_id : Z; dns_address : IPv4Address; ttl_seconds : Z }.

Definition ZERO_IP : IPv4Address := [0; 0; 0; 0].

Definition DHCP_FIXED_SIZE : Z := 240.
Definition DHCP_COOKIE : Z := 0x63825363.
Definition DHCP_OPTION_SUBNET : Z := 1.
Definition DHCP_OPTION_ROUTER : Z := 3.
Definition DHCP_OPTION_DNS : Z := 6.
Definition DHCP_OPTION_REQUESTED_IP : Z := 50.
Definition DHCP_OPTION_LEASE : Z := 51.
Definition DHCP_OPTION_TYPE : Z := 53.
Definition DHCP_OPTION_SERVER : Z := 54.
Definition DHCP_OPTION_PARAMETERS : Z := 55.
Definition DHCP_OPTION_CLIENT_ID : Z := 61.
Definition DHCP_OPTION_END : Z := 255.
Definition DHCP_OPTION_PAD : Z := 0.

(** ** Checksums and ports *)

(** Over the pseudo-header and the [length] bytes at [packet]. *)
Definition transport_checksum (m : Memory) (source destination : IPv4Address) (protocol packet length : Z) : Z :=
  let sum := checksum_add 0 source in
  let sum := checksum_add sum destination in
  let sum := checksum_add sum [0; protocol; u8 (Z.shiftr length 8); u8 length] in
  let sum := checksum_add sum (load m packet length) in
  checksum_finish sum.

Definition valid_port (port : Z) : bool := negb (port =? 0).

(** ** UDP *)

Definition parse_udp (m : Memory) (source destination : IPv4Address) (packet packet_length : Z) (has_out : bool)
  : Status * option UdpDatagramView :=
  if (packet =? 0) || negb has_out then (InvalidArgument, None)
  else if packet_length <? UDP_HEADER_SIZE then (FrameTooShort, None)
  else
    let declared := read_be16 m (packet + 4) in
    if (declared <? UDP_HEADER_SIZE) || (packet_length <? declared) then (MalformedPacket, None)
    else
      let source_port := read_be16 m packet in
      let destination_port := read_be16 m (packet + 2) in
      if negb (valid_port source_port) || negb (valid_port destination_port) then (MalformedPacket, None)
      else if negb (read_be16 m (packet + 6) =? 0) &&
              negb (transport_checksum m source destination IPV4_PROTOCOL_UDP packet declared =? 0)
      then (ChecksumMismatch, None)
      else (Ok, Some (mkUdpView source_port destination_port (packet + UDP_HEADER_SIZE) (declared - UDP_HEADER_SIZE))).

Definition serialize_udp (m : Memory) (source destination : IPv4Address) (source_port destination_port payload
    payload_length output output_capacity : Z) (has_length : bool) : Memory * Status * option Z :=
  let out v := if has_length then Some v else None in
  if (output =? 0) || negb has_length || ((payload =? 0) && negb (payload_length =? 0)) ||
     negb (valid_port source_port) || negb (valid_port destination_port) then (m, InvalidArgument, out 0)
  else if UDP_MAX_PAYLOAD <? payload_length then (m, PayloadTooLarge, out 0)
  else
    let required := UDP_HEADER_SIZE + payload_length in
    if output_capacity <? required then (m, BufferTooSmall, out required)
    else
      let m := write_be16 m output source_port in
      let m := write_be16 m (output + 2) destination_port in
      let m := write_be16 m (output + 4) (u16 required) in
      let m := write_be16 m (output + 6) 0 in
      let m := copy_bytes m (output + UDP_HEADER_SIZE) payload payload_length in
      let checksum := transport_checksum m source destination IPV4_PROTOCOL_UDP output required in
      let checksum := if checksum =? 0 then UINT16_MAX else checksum in
      let m := write_be16 m (output + 6) checksum in
      (m, Ok, out required).

(** ** TCP *)

Definition parse_tcp (m : Memory) (source destination : IPv4Address) (packet packet_length : Z) (has_out : bool)
  : Status * option TcpSegmentView :=
  if (packet =? 0) || negb has_out then (InvalidArgument, None)
  else if packet_length <? TCP_MIN_HEADER_SIZE then (FrameTooShort, None)
  else
    let header_length := Z.shiftr (m (packet + 12)) 4 * 4 in
    if (header_length <? TCP_MIN_HEADER_SIZE) || (packet_length <? header_length) then (MalformedPacket, None)
    else
      let source_port := read_be16 m packet in
      let destination_port := read_be16 m (packet + 2) in
      if negb (valid_port source_port) || negb (valid_port destination_port) then (MalformedPacket, None)
      else if negb (transport_checksum m source destination IPV4_PROTOCOL_TCP packet packet_length =? 0)
      then (ChecksumMismatch, None)
      else
        (Ok, Some (mkTcpView source_port destination_port (read_be32 m (packet + 4)) (read_be32 m (packet + 8))
                     (m (packet + 13)) (read_be16 m (packet + 14)) (packet + header_length) (packet_length - header_length))).

Definition serialize_tcp (m : Memory) (source destination : IPv4Address) (source_port destination_port sequence
    acknowledgement flags window payload payload_length output output_capacity : Z) (has_length : bool)
  : Memory * Status * option Z :=
  let out v := if has_length then Some v else None in
  if (output =? 0) || negb has_length || ((payload =? 0) && negb (payload_length =? 0)) ||
     negb (valid_port source_port) || negb (valid_port destination_port) then (m, InvalidArgument, out 0)
  else if TCP_MAX_PAYLOAD <? payload_length then (m, PayloadTooLarge, out 0)
  else
    let required := TCP_MIN_HEADER_SIZE + payload_length in
    if output_capacity <? required then (m, BufferTooSmall, out required)
    else
      let m := clear_bytes m output TCP_MIN_HEADER_SIZE in
      let m := write_be16 m output source_port in
      let m := write_be16 m (output + 2) destination_port in
      let m := write_be32 m (output + 4) sequence in
      let m := write_be32 m (output + 8) acknowledgement in
      let m := store8 m (output + 12) (Z.shiftl 5 4) in
      let m := store8 m (output + 13) flags in
      let m := write_be16 m (output + 14) window in
      let m := copy_bytes m (output + TCP_MIN_HEADER_SIZE) payload payload_length in
      let m := write_be16 m (output + 16) (transport_checksum m source destination IPV4_PROTOCOL_TCP output required) in
      (m, Ok, out required).

(** ** DHCP *)

(** The memory and the new cursor; [None] when the option does not fit.  The
    additions are on [size_t] values far from the limit. *)
Definition append_option (m : Memory) (output capacity cursor type : Z) (value : list Z) : option (Memory * Z) :=
  let value_length := Z.of_nat (length value) in
  if (255 <? value_length) || (capacity <? cursor) || (capacity - cursor <? value_length + 2) then None
  else
    let m := store8 m (output + cursor) type in
    let m := store8 m (output + (cursor + 1)) (u8 value_length) in
    Some (store m (output + (cursor + 2)) value, cursor + 2 + value_length).

Definition initialize_dhcp_request (m : Memory) (transaction_id : Z) (client : MacAddress) (output output_capacity : Z)
  : Memory * Status * Z :=
  if output =? 0 then (m, InvalidArgument, 0)
  else if output_capacity <? DHCP_FIXED_SIZE + 1 then (m, BufferTooSmall, DHCP_FIXED_SIZE + 1)
  else
    let m := clear_bytes m output output_capacity in
    let m := store8 m output 1 in
    let m := store8 m (output + 1) 1 in
    let m := store8 m (output + 2) (u8 MAC_ADDRESS_LENGTH) in
    let m := write_be32 m (output + 4) transaction_id in
    let m := write_be16 m (output + 10) 0x8000 in
    let m := store m (output + 28) client in
    let m := write_be32 m (output + 236) DHCP_COOKIE in
    (m, Ok, DHCP_FIXED_SIZE).

(** A chain of [append_option] calls that stops at the first that fails: the
    memory keeps what the earlier ones wrote. *)
Fixpoint append_options (m : Memory) (output capacity cursor : Z) (options : list (Z * list Z)) : Memory * option Z :=
  match options with
  | [] => (m, Some cursor)
  | (type, value) :: options' =>
      match append_option m output capacity cursor type value with
      | None => (m, None)
      | Some (m, cursor) => append_options m output capacity cursor options'
      end
  end.

(** [sizeof] the options, the end marker and the result. *)
Definition serialize_dhcp (m : Memory) (transaction_id : Z) (client : MacAddress) (options : list (Z * list Z))
    (output output_capacity : Z) (has_length : bool) : Memory * Status * option Z :=
  if negb has_length then (m, InvalidArgument, None)
  else
    match initialize_dhcp_request m transaction_id client output output_capacity with
    | (m, Ok, cursor) =>
        match append_options m output output_capacity cursor options with
        | (m, None) => (m, BufferTooSmall, Some 0)
        | (m, Some cursor) =>
            if output_capacity <=? cursor then (m, BufferTooSmall, Some 0)
            else (store8 m (output + cursor) DHCP_OPTION_END, Ok, Some (cursor + 1))
        end
    | (m, status, _) => (m, status, Some 0)
    end.

Definition dhcp_parameters : list Z := [DHCP_OPTION_SUBNET; DHCP_OPTION_ROUTER; DHCP_OPTION_DNS; DHCP_OPTION_LEASE].

Definition serialize_dhcp_discover (m : Memory) (transaction_id : Z) (client : MacAddress) (output output_capacity : Z)
    (has_length : bool) : Memory * Status * option Z :=
  serialize_dhcp m transaction_id client
    [(DHCP_OPTION_TYPE, [dhcp_type_code Discover]); (DHCP_OPTION_CLIENT_ID, 1 :: client);
     (DHCP_OPTION_PARAMETERS, dhcp_parameters)] output output_capacity has_length.

Definition serialize_dhcp_request (m : Memory) (transaction_id : Z) (client : MacAddress)
    (requested_address server_identifier : IPv4Address) (output output_capacity : Z) (has_length : bool)
  : Memory * Status * option Z :=
  serialize_dhcp m transaction_id client
    [(DHCP_OPTION_TYPE, [dhcp_type_code Request]); (DHCP_OPTION_REQUESTED_IP, requested_address);
     (DHCP_OPTION_SERVER, server_identifier); (DHCP_OPTION_CLIENT_ID, 1 :: client);
     (DHCP_OPTION_PARAMETERS, dhcp_parameters)] output output_capacity has_length.

(** [ipv4_option]: the address at the value, when the option is long enough; otherwise the
    old address stays and the flag becomes false. *)
Definition ipv4_option (m : Memory) (value length : Z) (old : IPv4Address) : IPv4Address * bool :=
  if length <? IPV4_ADDRESS_LENGTH then (old, false) else (load m value IPV4_ADDRESS_LENGTH, true).

(** One option of a reply; [None] is [MalformedPacket]. *)
Definition apply_option (m : Memory) (option_ value length : Z) (result : DhcpMessageView) (has_type : bool)
  : option (DhcpMessageView * bool) :=
  let 'mkDhcpView t id offered server mask gate dns lease b1 b2 b3 b4 := result in
  if option_ =? DHCP_OPTION_TYPE then
    if negb (length =? 1) || (m value <? 1) || (6 <? m value) then None
    else Some (mkDhcpView (Some (dhcp_type_of (m value))) id offered server mask gate dns lease b1 b2 b3 b4, true)
  else if option_ =? DHCP_OPTION_SERVER then
    let '(server, b1) := ipv4_option m value length server in
    Some (mkDhcpView t id offered server mask gate dns lease b1 b2 b3 b4, has_type)
  else if option_ =? DHCP_OPTION_SUBNET then
    let '(mask, b2) := ipv4_option m value length mask in
    Some (mkDhcpView t id offered server mask gate dns lease b1 b2 b3 b4, has_type)
  else if option_ =? DHCP_OPTION_ROUTER then
    let '(gate, b3) := ipv4_option m value length gate in
    Some (mkDhcpView t id offered server mask gate dns lease b1 b2 b3 b4, has_type)
  else if option_ =? DHCP_OPTION_DNS then
    let '(dns, b4) := ipv4_option m value length dns in
    Some (mkDhcpView t id offered server mask gate dns lease b1 b2 b3 b4, has_type)
  else if (option_ =? DHCP_OPTION_LEASE) && (length =? 4) then
    Some (mkDhcpView t id offered server mask gate dns (read_be32 m value) b1 b2 b3 b4, has_type)
  else Some (result, has_type).

(** The loop over the options.  Every round moves the cursor on, so the number
    of bytes left is enough fuel; the outer [None] is fuel that ran out. *)
Fixpoint parse_options (fuel : nat) (m : Memory) (packet packet_length cursor : Z) (result : DhcpMessageView) (has_type : bool)
  : option (option (DhcpMessageView * bool)) :=
  match fuel with
  | O => None
  | S fuel' =>
      if negb (cursor <? packet_length) then Some (Some (result, has_type))
      else
        let option_ := m (packet + cursor) in
        let cursor := cursor + 1 in
        if option_ =? DHCP_OPTION_END then Some (Some (result, has_type))
        else if option_ =? DHCP_OPTION_PAD then parse_options fuel' m packet packet_length cursor result has_type
        else if packet_length <=? cursor then Some None
        else
          let length := m (packet + cursor) in
          let cursor := cursor + 1 in
          if packet_length - cursor <? length then Some None
          else
            match apply_option m option_ (packet + cursor) length result has_type with
            | None => Some None
            | Some (result, has_type) =>
                parse_options fuel' m packet packet_length (cursor + length) result has_type
            end
  end.

Definition parse_dhcp_reply (m : Memory) (packet packet_length expected_transaction_id : Z) (expected_client : MacAddress)
    (has_out : bool) : option (Status * option DhcpMessageView) :=
  if (packet =? 0) || negb has_out then Some (InvalidArgument, None)
  else if packet_length <? DHCP_FIXED_SIZE then Some (FrameTooShort, None)
  else if negb (m packet =? 2) || negb (m (packet + 1) =? 1) || negb (m (packet + 2) =? MAC_ADDRESS_LENGTH) ||
          negb (read_be32 m (packet + 4) =? expected_transaction_id) || negb (read_be32 m (packet + 236) =? DHCP_COOKIE)
  then Some (NotForUs, None)
  else if existsb (fun index => negb (m (packet + (28 + index)) =? word_at expected_client index)) (seqZ 0 MAC_ADDRESS_LENGTH)
  then Some (NotForUs, None)
  else
    let result := mkDhcpView None expected_transaction_id (load m (packet + 16) IPV4_ADDRESS_LENGTH) ZERO_IP ZERO_IP ZERO_IP
                    ZERO_IP 0 false false false false in
    match parse_options (S (Z.to_nat packet_length)) m packet packet_length DHCP_FIXED_SIZE result false with
    | None => None
    | Some None => Some (MalformedPacket, None)
    | Some (Some (result, has_type)) =>
        if negb has_type || ipv4_is_zero (offered_address result) then Some (MalformedPacket, None)
        else Some (Ok, Some result)
    end.

(** ** DNS *)

(** The loop of [skip_dns_name]; at most 127 labels. *)
Fixpoint skip_labels (fuel : nat) (m : Memory) (packet packet_length position labels : Z) : option (Status + Z) :=
  match fuel with
  | O => None
  | S fuel' =>
      if negb (position <? packet_length) then Some (inl MalformedPacket)
      else
        let length := m (packet + position) in
        let position := position + 1 in
        if length =? 0 then Some (inr position)
        else if Z.land length 0xc0 =? 0xc0 then
          if packet_length <=? position then Some (inl MalformedPacket) else Some (inr (position + 1))
        else if negb (Z.land length 0xc0 =? 0) || (63 <? length) || (packet_length <? position) ||
                (packet_length - position <? length) then Some (inl MalformedPacket)
        else
          let position := position + length in
          let labels := labels + 1 in
          if 127 <? labels then Some (inl MalformedPacket)
          else skip_labels fuel' m packet packet_length position labels
  end.

Definition skip_fuel : nat := 128.

(** The status, or the cursor after the name. *)
Definition skip_dns_name (m : Memory) (packet packet_length cursor : Z) : option (Status + Z) :=
  if (packet =? 0) || (packet_length <=? cursor) then Some (inl MalformedPacket)
  else skip_labels skip_fuel m packet packet_length cursor 0.

(** The bytes of [name] up to [label_end], the next dot or the end. *)
Fixpoint label_of (rest : list Z) : list Z * list Z :=
  match rest with
  | [] => ([], [])
  | c :: rest' => if c =? 46 then ([], rest) else let '(l, r) := label_of rest' in (c :: l, r)
  end.

(** The loop over the labels: [rest] is the name from [label_start] on.  [fuel]
    bounds the labels left. *)
Fixpoint write_labels (fuel : nat) (m : Memory) (output output_capacity cursor : Z) (rest : list Z) : option (Memory * (Status + Z)) :=
  match fuel with
  | O => None
  | S fuel' =>
      match rest with
      | [] => Some (m, inr cursor)
      | _ =>
          let '(label, after) := label_of rest in
          let label_length := Z.of_nat (length label) in
          if (label_length =? 0) || (63 <? label_length) || (output_capacity <? cursor + 1 + label_length)
          then Some (m, inl InvalidArgument)
          else
            let m := store8 m (output + cursor) (u8 label_length) in
            let m := store m (output + (cursor + 1)) label in
            write_labels fuel' m output output_capacity (cursor + 1 + label_length) (drop 1 after)
      end
  end.

(** [name]: the characters before the terminator, [None] for a null pointer. *)
Definition serialize_dns_a_query (m : Memory) (transaction_id : Z) (name : option (list Z)) (output output_capacity : Z)
    (has_length : bool) : option (Memory * Status * option Z) :=
  let out v := if has_length then Some v else None in
  match name with
  | None => Some (m, InvalidArgument, out 0)
  | Some name =>
      if (output =? 0) || negb has_length || bool_decide (name = []) then Some (m, InvalidArgument, out 0)
      else if output_capacity <? 17 then Some (m, BufferTooSmall, out 0)
      else
        let m := clear_bytes m output output_capacity in
        let m := write_be16 m output transaction_id in
        let m := write_be16 m (output + 2) 0x0100 in
        let m := write_be16 m (output + 4) 1 in
        if 253 <? Z.of_nat (length name) then Some (m, InvalidArgument, out 0)
        else
          '(m, r) ← write_labels (S (length name)) m output output_capacity 12 name;
          match r with
          | inl status => Some (m, status, out 0)
          | inr cursor =>
              if output_capacity <? cursor + 5 then Some (m, BufferTooSmall, out 0)
              else
                let m := store8 m (output + cursor) 0 in
                let m := write_be16 m (output + (cursor + 1)) 1 in
                let m := write_be16 m (output + (cursor + 1) + 2) 1 in
                Some (m, Ok, out (cursor + 5))
          end
  end.

Fixpoint skip_questions (questions : nat) (m : Memory) (packet packet_length cursor : Z) : option (Status + Z) :=
  match questions with
  | O => Some (inr cursor)
  | S questions' =>
      r ← skip_dns_name m packet packet_length cursor;
      match r with
      | inl status => Some (inl status)
      | inr cursor =>
          if (packet_length <? cursor) || (packet_length - cursor <? 4) then Some (inl MalformedPacket)
          else skip_questions questions' m packet packet_length (cursor + 4)
      end
  end.

Fixpoint find_answer (answers : nat) (m : Memory) (packet packet_length cursor expected_transaction_id : Z)
  : option (Status * option DnsAnswer) :=
  match answers with
  | O => Some (UnsupportedProtocol, None)
  | S answers' =>
      r ← skip_dns_name m packet packet_length cursor;
      match r with
      | inl status => Some (status, None)
      | inr cursor =>
          if (packet_length <? cursor) || (packet_length - cursor <? 10) then Some (MalformedPacket, None)
          else
            let type := read_be16 m (packet + cursor) in
            let record_class := read_be16 m (packet + cursor + 2) in
            let ttl := read_be32 m (packet + cursor + 4) in
            let data_length := read_be16 m (packet + cursor + 8) in
            let cursor := cursor + 10 in
            if packet_length - cursor <? data_length then Some (MalformedPacket, None)
            else if (type =? 1) && (record_class =? 1) && (data_length =? 4) then
              Some (Ok, Some (mkDnsAnswer expected_transaction_id (load m (packet + cursor) 4) ttl))
            else find_answer answers' m packet packet_length (cursor + data_length) expected_transaction_id
      end
  end.

Definition parse_dns_a_response (m : Memory) (packet packet_length expected_transaction_id : Z) (has_out : bool)
  : option (Status * option DnsAnswer) :=
  if (packet =? 0) || negb has_out then Some (InvalidArgument, None)
  else if packet_length <? 12 then Some (FrameTooShort, None)
  else
    let flags := read_be16 m (packet + 2) in
    if negb (read_be16 m packet =? expected_transaction_id) then Some (NotForUs, None)
    else if Z.land flags 0x8000 =? 0 then Some (MalformedPacket, None)
    else
      let response_code := Z.land flags 0x000f in
      if response_code =? 3 then Some (NameNotFound, None)
      else if negb (response_code =? 0) then Some (InterfaceError, None)
      else
        let questions := read_be16 m (packet + 4) in
        let answers := read_be16 m (packet + 6) in
        if (questions =? 0) || (answers =? 0) then Some (WouldBlock, None)
        else
          r ← skip_questions (Z.to_nat questions) m packet packet_length 12;
          match r with
          | inl status => Some (status, None)
          | inr cursor => find_answer (Z.to_nat answers) m packet packet_length cursor expected_transaction_id
          end.

(** ** Transport checksums *)

Definition pseudo_sum (source destination : IPv4Address) (protocol length : Z) : Z :=
  sum_words source + sum_words destination + (protocol + length).

Lemma pseudo_sum_range source destination protocol length :
  ip_ok source -> ip_ok destination -> is_u8 protocol -> 0 <= length < 2 ^ 16 ->
  0 <= pseudo_sum source destination protocol length <= 7 * 65535.
Proof.
  intros [Hs Hs8] [Hd Hd8] Hp Hl. unfold pseudo_sum.
  pose proof (sum_words_nonneg _ Hs8). pose proof (sum_words_nonneg _ Hd8).
  pose proof (sum_words_bound _ Hs8) as Hb. pose proof (sum_words_bound _ Hd8) as Hb'. rewrite Hs in Hb. rewrite Hd in Hb'.
  unfold is_u8 in Hp. lia.
Qed.

Lemma transport_checksum_eq m source destination protocol packet n :
  bytes_ok m -> ip_ok source -> ip_ok destination -> is_u8 protocol -> 0 <= n < 2 ^ 16 ->
  transport_checksum m source destination protocol packet n =
    65535 - canon (pseudo_sum source destination protocol n + sum_words (load m packet n)).
Proof.
  intros Hm Hs Hd Hp Hn. pose proof (pseudo_sum_range _ _ _ _ Hs Hd Hp Hn) as Hr. unfold transport_checksum.
  pose proof (load_u8 m packet n Hm) as Hl. pose proof (sum_words_nonneg _ Hl) as H0. pose proof (sum_words_bound _ Hl) as Hb.
  rewrite load_length in Hb by lia. destruct Hs as [Hs Hs8], Hd as [Hd Hd8].
  pose proof (sum_words_nonneg _ Hs8). pose proof (sum_words_nonneg _ Hd8).
  pose proof (sum_words_bound _ Hs8) as Hb1. pose proof (sum_words_bound _ Hd8) as Hb2. rewrite Hs in Hb1. rewrite Hd in Hb2.
  assert (sum_words [0; protocol; u8 (Z.shiftr n 8); u8 n] = protocol + n) as Epseudo.
  { cbn [sum_words]. pose proof (of_be16_be16 n Hn) as E. unfold of_be16 in E. lia. }
  assert (Forall is_u8 [0; protocol; u8 (Z.shiftr n 8); u8 n]) as Hu.
  { repeat (apply Forall_cons_2; [first [done | apply u8_byte | word_lia]|]). by apply Forall_nil. }
  unfold pseudo_sum in *. unfold is_u8 in Hp.
  rewrite (checksum_add_eq source), (checksum_add_eq destination), (checksum_add_eq [0; _; _; _]), Epseudo, checksum_add_eq by (rewrite ?Epseudo; done || lia).
  by rewrite checksum_finish_eq by lia.
Qed.

(** A packet whose checksum field holds the complement of the rest. *)
Lemma transport_valid s c : 0 <= s -> c = 65535 - canon s \/ (c = 65535 /\ canon s = 65535) -> canon (s + c) = 65535.
Proof.
  intros Hs [-> | [-> E]]; [by apply canon_complement|]. apply canon_max; [lia|].
  rewrite <- Zplus_mod_idemp_l, <- (canon_mod s), E by done. reflexivity.
Qed.

(** ** UDP datagrams *)

Definition udp_header (source_port destination_port total checksum : Z) : list Z :=
  be16 source_port ++ be16 destination_port ++ be16 total ++ be16 checksum.

Definition udp_checksum (source destination : IPv4Address) (source_port destination_port : Z) (payload : list Z) : Z :=
  let total := UDP_HEADER_SIZE + Z.of_nat (length payload) in
  let c := 65535 - canon (pseudo_sum source destination IPV4_PROTOCOL_UDP total +
                          sum_words (udp_header source_port destination_port total 0 ++ payload)) in
  if c =? 0 then UINT16_MAX else c.

Definition udp_bytes (source destination : IPv4Address) (source_port destination_port : Z) (payload : list Z) : list Z :=
  udp_header source_port destination_port (UDP_HEADER_SIZE + Z.of_nat (length payload))
    (udp_checksum source destination source_port destination_port payload) ++ payload.

Lemma udp_header_u8 a b c d : Forall is_u8 (udp_header a b c d).
Proof. unfold udp_header. rewrite !Forall_app. repeat split; apply be16_u8. Qed.

Lemma udp_sum sp dp total c payload : 0 <= c <= 65535 ->
  sum_words (udp_header sp dp total c ++ payload) = sum_words (udp_header sp dp total 0 ++ payload) + c.
Proof.
  intros Hc. unfold udp_header. cbn [app sum_words be16]. pose proof (of_be16_be16 c ltac:(lia)) as E. unfold of_be16 in E.
  change (u8 (Z.shiftr 0 8)) with 0. change (u8 0) with 0. lia.
Qed.

Definition port_ok (p : Z) : Prop := 0 < p < 2 ^ 16.

Lemma udp_checksum_ok source destination sp dp payload :
  ip_ok source -> ip_ok destination -> Forall is_u8 payload -> Z.of_nat (length payload) <= UDP_MAX_PAYLOAD ->
  let total := UDP_HEADER_SIZE + Z.of_nat (length payload) in
  0 < udp_checksum source destination sp dp payload <= 65535 /\
  canon (pseudo_sum source destination IPV4_PROTOCOL_UDP total + sum_words (udp_bytes source destination sp dp payload)) = 65535.
Proof.
  intros Hs Hd Hp Hl total. unfold UDP_MAX_PAYLOAD, ETHERNET_MTU, IPV4_MIN_HEADER_SIZE, UDP_HEADER_SIZE in *.
  pose proof (pseudo_sum_range source destination IPV4_PROTOCOL_UDP total Hs Hd ltac:(unfold IPV4_PROTOCOL_UDP; word_lia) ltac:(lia)) as Hr.
  assert (0 <= sum_words (udp_header sp dp total 0 ++ payload)) as H0
    by (apply sum_words_nonneg, Forall_app; split; [apply udp_header_u8|done]).
  set (s := pseudo_sum source destination IPV4_PROTOCOL_UDP total + sum_words (udp_header sp dp total 0 ++ payload)).
  assert (udp_checksum source destination sp dp payload = if 65535 - canon s =? 0 then 65535 else 65535 - canon s) as Ec by reflexivity.
  pose proof (canon_range s ltac:(unfold s; lia)).
  assert (0 < udp_checksum source destination sp dp payload <= 65535) as Hc by (rewrite Ec; destruct (Z.eqb_spec (65535 - canon s) 0); lia).
  split; [done|]. unfold udp_bytes, UDP_HEADER_SIZE. fold total. rewrite udp_sum, Z.add_assoc by lia. fold s.
  apply transport_valid; [unfold s; lia|]. rewrite Ec. destruct (Z.eqb_spec (65535 - canon s) 0); [right|left]; lia.
Qed.

Lemma serialize_udp_ok m source destination sp dp payload n output capacity :
  bytes_ok m -> ip_ok source -> ip_ok destination -> port_ok sp -> port_ok dp -> 0 < output ->
  payload_place output UDP_HEADER_SIZE payload n -> 0 <= n <= UDP_MAX_PAYLOAD -> UDP_HEADER_SIZE + n <= capacity ->
  exists m', serialize_udp m source destination sp dp payload n output capacity true = (m', Ok, Some (UDP_HEADER_SIZE + n)) /\
    bytes_ok m' /\ load m' output (UDP_HEADER_SIZE + n) = udp_bytes source destination sp dp (load m payload n) /\
    forall x, ~ (output <= x < output + (UDP_HEADER_SIZE + n)) -> m' x = m x.
Proof.
  intros Hm Hs Hd Hsp Hdp Ho Hpl Hn Hc. pose proof (proj1 Hpl) as Hp. unfold port_ok in *. unfold serialize_udp, valid_port.
  replace (_ || _ || _ || _ || _) with false by lia. replace (_ <? n) with false by lia. replace (capacity <? _) with false by lia.
  eexists. split; [reflexivity|]. rewrite !write_be16_eq by lia.
  unfold UDP_MAX_PAYLOAD, ETHERNET_MTU, IPV4_MIN_HEADER_SIZE, UDP_HEADER_SIZE in *.
  assert (u16 (8 + n) = 8 + n) as -> by (apply Z.mod_small; lia).
  set (m2 := store (store (store (store m output (be16 sp)) (output + 2) (be16 dp)) (output + 4) (be16 (8 + n))) (output + 6) (be16 0)).
  set (m3 := copy_bytes m2 (output + 8) payload n).
  destruct (placed_payload m m2 m3 output 8 payload n) as (H1 & H2 & H3); try done; try lia.
  - unfold m2. stores_ok.
  - intros x Hx. unfold m2. rewrite !store_outside by (cbn [length be16]; lia). done.
  - intros x. apply copy_payload; [done|lia..].
  - assert (load m2 output 8 = udp_header sp dp (8 + n) 0) as Hhead.
    { unfold m2. rewrite !load_store_inside, !load_store_base by (cbn [length be16]; lia). explicit_load m output 8. reflexivity. }
    rewrite Hhead in H2. rewrite transport_checksum_eq, H2 by (done || (unfold IPV4_PROTOCOL_UDP; word_lia) || lia).
    match goal with |- context [be16 (if ?c =? 0 then _ else _)] => set (ck := c) end.
    assert (udp_checksum source destination sp dp (load m payload n) = if ck =? 0 then UINT16_MAX else ck) as Eck.
    { unfold udp_checksum, UDP_HEADER_SIZE. rewrite load_length by lia. reflexivity. }
    rewrite <- Eck. split; [stores_ok|]. split.
    + rewrite load_store_inside, H2 by (cbn [length be16]; lia). unfold udp_bytes, UDP_HEADER_SIZE. rewrite load_length by lia. reflexivity.
    + intros x Hx. rewrite store_outside by (cbn [length be16]; lia). by apply H3.
Qed.

Lemma parse_udp_ok m source destination packet sp dp bytes n :
  bytes_ok m -> ip_ok source -> ip_ok destination -> port_ok sp -> port_ok dp -> 0 < packet -> 0 <= n <= UDP_MAX_PAYLOAD ->
  load m packet (UDP_HEADER_SIZE + n) = udp_bytes source destination sp dp bytes ->
  parse_udp m source destination packet (UDP_HEADER_SIZE + n) true =
    (Ok, Some (mkUdpView sp dp (packet + UDP_HEADER_SIZE) n)) /\ load m (packet + UDP_HEADER_SIZE) n = bytes.
Proof.
  intros Hm Hs Hd Hsp Hdp Hp Hn Hl. assert (Z.of_nat (length bytes) = n) as Hlen.
  { apply (f_equal length) in Hl. unfold udp_bytes in Hl. rewrite load_length_nat, length_app in Hl.
    change (length (udp_header _ _ _ _)) with 8%nat in Hl. unfold UDP_HEADER_SIZE in *. lia. }
  pose proof (load_u8 m packet (UDP_HEADER_SIZE + n) Hm) as Hu. rewrite Hl in Hu. apply Forall_app in Hu as [_ Hu].
  destruct (udp_checksum_ok source destination sp dp bytes Hs Hd Hu) as [Hck Hvalid]; [lia|].
  unfold parse_udp. unfold port_ok, UDP_MAX_PAYLOAD, ETHERNET_MTU, IPV4_MIN_HEADER_SIZE, UDP_HEADER_SIZE in *. rewrite Hlen in *.
  replace (_ || _) with false by lia. replace (8 + n <? 8) with false by lia.
  pose proof Hl as Hall. unfold udp_bytes, UDP_HEADER_SIZE in Hl. rewrite Hlen in Hl.
  apply load_split in Hl as [Hhead Hpl]; [|lia|reflexivity]. split; [|done].
  set (ck := udp_checksum source destination sp dp bytes) in *. clearbody ck.
  assert (read_be16 m packet = sp) as -> by (rewrite (read_be16_first _ _ _ _ Hm Hp Hhead) by lia; apply of_be16_be16; lia).
  assert (read_be16 m (packet + 2) = dp) as -> by (rewrite (read_be16_at _ _ _ _ _ Hm Hp Hhead) by lia; apply of_be16_be16; lia).
  assert (read_be16 m (packet + 4) = 8 + n) as -> by (rewrite (read_be16_at _ _ _ _ _ Hm Hp Hhead) by lia; apply of_be16_be16; lia).
  assert (read_be16 m (packet + 6) = ck) as -> by (rewrite (read_be16_at _ _ _ _ _ Hm Hp Hhead) by lia; apply of_be16_be16; lia).
  unfold valid_port. replace ((8 + n <? 8) || (8 + n <? 8 + n)) with false by lia. replace (_ || _) with false by lia.
  rewrite transport_checksum_eq by (done || (unfold IPV4_PROTOCOL_UDP; word_lia) || lia). rewrite Hall, Hvalid.
  change (65535 - 65535 =? 0) with true. rewrite andb_false_r. do 3 f_equal. lia.
Qed.

(** ** TCP segments *)

Record TcpFields := mkTcpFields {
  f_source_port : Z; f_destination_port : Z; f_sequence : Z; f_acknowledgement : Z; f_flags : Z; f_window : Z }.

Record tcp_fields_ok (f : TcpFields) : Prop := {
  fo_source : port_ok (f_source_port f); fo_destination : port_ok (f_destination_port f);
  fo_sequence : is_u32 (f_sequence f); fo_acknowledgement : is_u32 (f_acknowledgement f);
  fo_flags : is_u8 (f_flags f); fo_window : 0 <= f_window f < 2 ^ 16 }.

Definition tcp_header (f : TcpFields) (checksum : Z) : list Z :=
  be16 (f_source_port f) ++ be16 (f_destination_port f) ++ be32 (f_sequence f) ++ be32 (f_acknowledgement f) ++
  [0x50; f_flags f] ++ be16 (f_window f) ++ be16 checksum ++ [0; 0].

Definition tcp_checksum (source destination : IPv4Address) (f : TcpFields) (payload : list Z) : Z :=
  65535 - canon (pseudo_sum source destination IPV4_PROTOCOL_TCP (TCP_MIN_HEADER_SIZE + Z.of_nat (length payload)) +
                 sum_words (tcp_header f 0 ++ payload)).

Definition tcp_bytes (source destination : IPv4Address) (f : TcpFields) (payload : list Z) : list Z :=
  tcp_header f (tcp_checksum source destination f payload) ++ payload.

Lemma tcp_header_u8 f c : tcp_fields_ok f -> Forall is_u8 (tcp_header f c).
Proof.
  intros []. unfold tcp_header. rewrite !Forall_app. repeat split; try apply be16_u8; try apply be32_u8;
    repeat (apply Forall_cons_2; [first [done | word_lia]|]); by apply Forall_nil.
Qed.

Lemma tcp_sum f c payload : 0 <= c <= 65535 ->
  sum_words (tcp_header f c ++ payload) = sum_words (tcp_header f 0 ++ payload) + c.
Proof.
  intros Hc. unfold tcp_header. cbn [app sum_words be16 be32]. pose proof (of_be16_be16 c ltac:(lia)) as E. unfold of_be16 in E.
  change (u8 (Z.shiftr 0 8)) with 0. change (u8 0) with 0. lia.
Qed.

Lemma tcp_checksum_ok source destination f payload :
  ip_ok source -> ip_ok destination -> tcp_fields_ok f -> Forall is_u8 payload -> Z.of_nat (length payload) <= TCP_MAX_PAYLOAD ->
  0 <= tcp_checksum source destination f payload <= 65535 /\
  canon (pseudo_sum source destination IPV4_PROTOCOL_TCP (TCP_MIN_HEADER_SIZE + Z.of_nat (length payload)) +
         sum_words (tcp_bytes source destination f payload)) = 65535.
Proof.
  intros Hs Hd Hf Hp Hl. unfold TCP_MAX_PAYLOAD, ETHERNET_MTU, IPV4_MIN_HEADER_SIZE, TCP_MIN_HEADER_SIZE in *.
  set (total := 20 + Z.of_nat (length payload)).
  pose proof (pseudo_sum_range source destination IPV4_PROTOCOL_TCP total Hs Hd ltac:(unfold IPV4_PROTOCOL_TCP; word_lia) ltac:(lia)) as Hr.
  assert (0 <= sum_words (tcp_header f 0 ++ payload)) as H0
    by (apply sum_words_nonneg, Forall_app; split; [by apply tcp_header_u8|done]).
  pose proof (canon_range (pseudo_sum source destination IPV4_PROTOCOL_TCP total + sum_words (tcp_header f 0 ++ payload)) ltac:(lia)) as Hc.
  assert (0 <= tcp_checksum source destination f payload <= 65535) as Hck by (unfold tcp_checksum, TCP_MIN_HEADER_SIZE; fold total; lia).
  split; [done|]. unfold tcp_bytes. rewrite tcp_sum, Z.add_assoc by lia. apply transport_valid; [lia|]. by left.
Qed.

Lemma serialize_tcp_ok m source destination f payload n output capacity :
  bytes_ok m -> ip_ok source -> ip_ok destination -> tcp_fields_ok f -> 0 < output ->
  payload_place output TCP_MIN_HEADER_SIZE payload n -> 0 <= n <= TCP_MAX_PAYLOAD -> TCP_MIN_HEADER_SIZE + n <= capacity ->
  exists m', serialize_tcp m source destination (f_source_port f) (f_destination_port f) (f_sequence f) (f_acknowledgement f)
      (f_flags f) (f_window f) payload n output capacity true = (m', Ok, Some (TCP_MIN_HEADER_SIZE + n)) /\
    bytes_ok m' /\ load m' output (TCP_MIN_HEADER_SIZE + n) = tcp_bytes source destination f (load m payload n) /\
    forall x, ~ (output <= x < output + (TCP_MIN_HEADER_SIZE + n)) -> m' x = m x.
Proof.
  intros Hm Hs Hd Hf Ho Hpl Hn Hc. pose proof (proj1 Hpl) as Hp. pose proof Hf as [Hsp Hdp _ _ Hfl _]. unfold port_ok in *.
  unfold serialize_tcp, valid_port.
  replace (_ || _ || _ || _ || _) with false by lia. replace (_ <? n) with false by lia. replace (capacity <? _) with false by lia.
  eexists. split; [reflexivity|]. rewrite !write_be16_eq, !write_be32_eq by lia. rewrite !packet_store8_eq. unfold clear_bytes.
  unfold TCP_MAX_PAYLOAD, ETHERNET_MTU, IPV4_MIN_HEADER_SIZE, TCP_MIN_HEADER_SIZE in *.
  match goal with |- context [copy_bytes ?m ?a ?b ?c] => set (m2 := m) end.
  set (m3 := copy_bytes m2 (output + 20) payload n).
  destruct (placed_payload m m2 m3 output 20 payload n) as (H1 & H2 & H3); try done; try lia.
  - unfold m2. change (Z.shiftl 5 4) with 80. stores_ok.
  - intros x Hx. unfold m2. rewrite !store_outside by (rewrite ?length_replicate; cbn [length be16 be32]; lia). done.
  - intros x. apply copy_payload; [done|lia..].
  - assert (load m2 output 20 = tcp_header f 0) as Hhead.
    { unfold m2. rewrite !load_store_inside, !load_store_base by (rewrite ?length_replicate; cbn [length be16 be32]; lia).
      explicit_load m output 20. reflexivity. }
    rewrite Hhead in H2. rewrite transport_checksum_eq, H2 by (done || (unfold IPV4_PROTOCOL_TCP; word_lia) || lia).
    match goal with |- context [be16 ?c] => set (ck := c) end.
    assert (tcp_checksum source destination f (load m payload n) = ck) as Eck.
    { unfold tcp_checksum, TCP_MIN_HEADER_SIZE. rewrite load_length by lia. reflexivity. }
    rewrite <- Eck. split; [stores_ok|]. split.
    + rewrite load_store_inside, H2 by (cbn [length be16]; lia). reflexivity.
    + intros x Hx. rewrite store_outside by (cbn [length be16]; lia). by apply H3.
Qed.

Lemma parse_tcp_ok m source destination packet f bytes n :
  bytes_ok m -> ip_ok source -> ip_ok destination -> tcp_fields_ok f -> 0 < packet -> 0 <= n <= TCP_MAX_PAYLOAD ->
  load m packet (TCP_MIN_HEADER_SIZE + n) = tcp_bytes source destination f bytes ->
  parse_tcp m source destination packet (TCP_MIN_HEADER_SIZE + n) true =
    (Ok, Some (mkTcpView (f_source_port f) (f_destination_port f) (f_sequence f) (f_acknowledgement f) (f_flags f) (f_window f)
                 (packet + TCP_MIN_HEADER_SIZE) n)) /\ load m (packet + TCP_MIN_HEADER_SIZE) n = bytes.
Proof.
  intros Hm Hs Hd Hf Hp Hn Hl. assert (Z.of_nat (length bytes) = n) as Hlen.
  { apply (f_equal length) in Hl. unfold tcp_bytes in Hl. rewrite load_length_nat, length_app in Hl.
    change (length (tcp_header _ _)) with 20%nat in Hl. unfold TCP_MIN_HEADER_SIZE in *. lia. }
  pose proof (load_u8 m packet (TCP_MIN_HEADER_SIZE + n) Hm) as Hu. rewrite Hl in Hu. apply Forall_app in Hu as [_ Hu].
  destruct (tcp_checksum_ok source destination f bytes Hs Hd Hf Hu) as [Hck Hvalid]; [lia|]. pose proof Hf as [Hsp Hdp Hsq Hak Hfl Hwn].
  unfold parse_tcp. unfold port_ok, TCP_MAX_PAYLOAD, ETHERNET_MTU, IPV4_MIN_HEADER_SIZE, TCP_MIN_HEADER_SIZE in *. rewrite Hlen in *.
  replace (_ || _) with false by lia. replace (20 + n <? 20) with false by lia.
  rewrite transport_checksum_eq, Hl, Hvalid by (done || (unfold IPV4_PROTOCOL_TCP; word_lia) || lia). unfold tcp_bytes in Hl.
  apply load_split in Hl as [Hhead Hpl]; [|lia|reflexivity]. split; [|done].
  set (ck := tcp_checksum source destination f bytes) in *. clearbody ck. change (65535 - 65535 =? 0) with true.
  assert (m (packet + 12) = 0x50) as -> by (by rewrite (load_byte _ _ _ _ _ Hhead) by lia).
  assert (m (packet + 13) = f_flags f) as -> by (by rewrite (load_byte _ _ _ _ _ Hhead) by lia).
  assert (read_be16 m packet = f_source_port f) as -> by (rewrite (read_be16_first _ _ _ _ Hm Hp Hhead) by lia; apply of_be16_be16; lia).
  assert (read_be16 m (packet + 2) = f_destination_port f) as -> by (rewrite (read_be16_at _ _ _ _ _ Hm Hp Hhead) by lia; apply of_be16_be16; lia).
  assert (read_be32 m (packet + 4) = f_sequence f) as -> by (rewrite (read_be32_at _ _ _ _ _ Hm Hp Hhead) by lia; by apply of_be32_be32).
  assert (read_be32 m (packet + 8) = f_acknowledgement f) as -> by (rewrite (read_be32_at _ _ _ _ _ Hm Hp Hhead) by lia; by apply of_be32_be32).
  assert (read_be16 m (packet + 14) = f_window f) as -> by (rewrite (read_be16_at _ _ _ _ _ Hm Hp Hhead) by lia; apply of_be16_be16; lia).
  change (Z.shiftr 80 4 * 4) with 20. replace ((20 <? 20) || (20 + n <? 20)) with false by lia.
  unfold valid_port. replace (_ || _) with false by lia. cbn [negb]. do 3 f_equal. lia.
Qed.
