(* ===== verification/NetworkStack.v ===== *)
(** * The network stack (kernel/net/network.cpp, second half)

    A stack over one network interface: the neighbour table, the resolution of
    destinations, the handling of received frames and the sending of pings, UDP
    datagrams and TCP segments, and the loopback interface.  The callbacks of an
    interface are functions on the state [W] of its device: [transmit] gets the
    bytes of the frame, [receive] returns the bytes it stored and the length it
    reported.  The two packet buffers of a stack are regions of the memory of
    Packet.v, in which frames are built around their payloads; the other fields
    of the stack are a record.  A null stack pointer is refused like an
    uninitialised stack; the code checks both together. *)

From S2P Require Import Prelude Packet Network Protocols.

(** ** Interfaces *)

Record NetworkInterface (W : Type) := mkInterface {
  transmit : option (W -> list Z -> W * Status);
  receive_from : option (W -> Z -> W * Status * Z * list Z);
  hardware_address : MacAddress;
  mtu : Z }.
Arguments mkInterface {W}.
Arguments transmit {W}.
Arguments receive_from {W}.
Arguments hardware_address {W}.
Arguments mtu {W}.

(** ** Data *)

Definition NEIGHBOR_TABLE_CAPACITY : nat := 16.
Definition TRANSPORT_INBOX_CAPACITY : Z := ETHERNET_MTU.

Record IPv4Config := mkConfig { c_address : IPv4Address; c_netmask : IPv4Address; c_gateway : IPv4Address }.

Inductive NeighborState := Empty | Reachable.

#[export] Instance NeighborState_eq_dec : EqDecision NeighborState.
Proof. solve_decision. Defined.

Record NeighborEntry := mkNeighbor { n_state : NeighborState; n_ip : IPv4Address; n_mac : MacAddress; n_update_sequence : Z }.

(** The fields of [NetworkStats]; the struct is a function from them. *)
Inductive Counter :=
| frames_received | frames_transmitted | bytes_received | bytes_transmitted | dropped_frames | parse_errors
| checksum_errors | unsupported_packets | interface_errors | arp_received | arp_transmitted | ipv4_received
| ipv4_transmitted | icmp_received | icmp_transmitted | echo_requests_sent | echo_requests_received
| echo_replies_sent | echo_replies_received | udp_received | udp_transmitted | tcp_received | tcp_transmitted
| neighbor_updates | neighbor_evictions | arp_resolution_requests.

#[export] Instance Counter_eq_dec : EqDecision Counter.
Proof. solve_decision. Defined.

Definition NetworkStats := Counter -> Z.

Record PingReply := mkPingReply { p_valid : bool; p_source : IPv4Address; p_identifier : Z; p_sequence : Z; p_payload_length : Z }.

Record UdpDatagram := mkUdpDatagram {
  u_valid : bool; u_source : IPv4Address; u_destination : IPv4Address; u_source_port : Z; u_destination_port : Z;
  u_payload : list Z; u_payload_length : Z }.

Record TcpSegment := mkTcpSegment {
  t_valid : bool; t_source : IPv4Address; t_destination : IPv4Address; t_source_port : Z; t_destination_port : Z;
  t_sequence : Z; t_acknowledgement : Z; t_flags : Z; t_window : Z; t_payload : list Z; t_payload_length : Z }.

Definition ZERO_INBOX : list Z := replicate (Z.to_nat TRANSPORT_INBOX_CAPACITY) 0.
Definition empty_neighbor : NeighborEntry := mkNeighbor Empty ZERO_IP ZERO_MAC 0.
Definition empty_ping_reply : PingReply := mkPingReply false ZERO_IP 0 0 0.
Definition empty_udp_datagram : UdpDatagram := mkUdpDatagram false ZERO_IP ZERO_IP 0 0 ZERO_INBOX 0.
Definition empty_tcp_segment : TcpSegment := mkTcpSegment false ZERO_IP ZERO_IP 0 0 0 0 0 0 ZERO_INBOX 0.

(** Copying a payload into a cleared inbox. *)
Definition inbox (bytes : list Z) : list Z := list_inserts 0 bytes ZERO_INBOX.

(** [value = UINT64_MAX - value < increment ? UINT64_MAX : value + increment]. *)
Definition saturating_add (value increment : Z) : Z := if UINT64_MAX - value <? increment then UINT64_MAX else value + increment.

Section stack.
Context {W : Type}.

Record NetworkStack := mkStack {
  interface : NetworkInterface W;
  config : IPv4Config;
  neighbors : list NeighborEntry;
  stats : NetworkStats;
  last_ping_reply : PingReply;
  last_udp_datagram : UdpDatagram;
  last_tcp_segment : TcpSegment;
  receive_buffer : Z;
  transmit_buffer : Z;
  next_identification : Z;
  neighbor_eviction_cursor : nat;
  neighbor_update_sequence : Z;
  initialized : bool;
  ipv4_configured : bool }.

(** The memory, the device and the stack. *)
Record Net := mkNet { mem : Memory; dev : W; stack : NetworkStack }.

Definition set_mem (s : Net) (m : Memory) : Net := mkNet m (dev s) (stack s).
Definition set_dev (s : Net) (w : W) : Net := mkNet (mem s) w (stack s).
Definition set_stack (s : Net) (k : NetworkStack) : Net := mkNet (mem s) (dev s) k.

Definition set_neighbors (k : NetworkStack) (l : list NeighborEntry) (cursor : nat) (sequence : Z) : NetworkStack :=
  mkStack (interface k) (config k) l (stats k) (last_ping_reply k) (last_udp_datagram k) (last_tcp_segment k)
    (receive_buffer k) (transmit_buffer k) (next_identification k) cursor sequence (initialized k) (ipv4_configured k).

Definition set_stats (k : NetworkStack) (t : NetworkStats) : NetworkStack :=
  mkStack (interface k) (config k) (neighbors k) t (last_ping_reply k) (last_udp_datagram k) (last_tcp_segment k)
    (receive_buffer k) (transmit_buffer k) (next_identification k) (neighbor_eviction_cursor k)
    (neighbor_update_sequence k) (initialized k) (ipv4_configured k).

Definition set_inboxes (k : NetworkStack) (p : PingReply) (u : UdpDatagram) (t : TcpSegment) : NetworkStack :=
  mkStack (interface k) (config k) (neighbors k) (stats k) p u t
    (receive_buffer k) (transmit_buffer k) (next_identification k) (neighbor_eviction_cursor k)
    (neighbor_update_sequence k) (initialized k) (ipv4_configured k).

Definition set_identification (k : NetworkStack) (id : Z) : NetworkStack :=
  mkStack (interface k) (config k) (neighbors k) (stats k) (last_ping_reply k) (last_udp_datagram k) (last_tcp_segment k)
    (receive_buffer k) (transmit_buffer k) id (neighbor_eviction_cursor k)
    (neighbor_update_sequence k) (initialized k) (ipv4_configured k).

Definition set_config (k : NetworkStack) (c : IPv4Config) : NetworkStack :=
  mkStack (interface k) c (neighbors k) (stats k) (last_ping_reply k) (last_udp_datagram k) (last_tcp_segment k)
    (receive_buffer k) (transmit_buffer k) (next_identification k) (neighbor_eviction_cursor k)
    (neighbor_update_sequence k) (initialized k) true.

(** [saturating_add(stats.c, n)] and [increment(stats.c)]. *)
Definition count_by (c : Counter) (n : Z) (s : Net) : Net :=
  let t := stats (stack s) in
  set_stack s (set_stats (stack s) (fun d => if decide (d = c) then saturating_add (t c) n else t d)).
Definition count (c : Counter) (s : Net) : Net := count_by c 1 s.

(** ** Calls through the interface *)

Definition interface_transmit (i : option (NetworkInterface W)) (m : Memory) (w : W) (frame frame_length : Z) : W * Status :=
  match i ≫= transmit, i with
  | Some send, Some i =>
      if (frame =? 0) || (frame_length =? 0) then (w, InvalidArgument)
      else if (mtu i =? 0) || (ETHERNET_MTU <? mtu i) || (mtu i + ETHERNET_HEADER_SIZE <? frame_length) then (w, FrameTooLarge)
      else
        let '(w, status) := send w (load m frame frame_length) in
        (w, if bool_decide (status = Ok \/ status = QueueFull \/ status = NotInitialized) then status else InterfaceError)
  | _, _ => (w, InvalidArgument)
  end.

Definition interface_receive (i : option (NetworkInterface W)) (m : Memory) (w : W) (output output_capacity : Z)
    (has_length : bool) : Memory * W * Status * option Z :=
  let out v := if has_length then Some v else None in
  match i ≫= receive_from with
  | None => (m, w, InvalidArgument, out 0)
  | Some recv =>
      if (output =? 0) || negb has_length then (m, w, InvalidArgument, out 0)
      else
        let '(w, status, length, bytes) := recv w output_capacity in
        let m := store m output bytes in
        if bool_decide (status = Ok) && (output_capacity <? length) then (m, w, InterfaceError, out 0)
        else
          (m, w, if bool_decide (status = Ok \/ status = WouldBlock \/ status = BufferTooSmall \/ status = NotInitialized)
                 then status else InterfaceError, out length)
  end.

(** ** The neighbour table *)

Definition next_neighbor_sequence (sequence : Z) : Z :=
  if sequence =? UINT64_MAX then 1
  else let sequence := u64 (sequence + 1) in if sequence =? 0 then 1 else sequence.

Definition is_reachable_at (ip : IPv4Address) (e : NeighborEntry) : bool :=
  bool_decide (n_state e = Reachable) && ipv4_equal (n_ip e) ip.

Definition update_neighbor (s : Net) (ip : IPv4Address) (mac : MacAddress) : Net * Status :=
  let k := stack s in
  if negb (ipv4_is_valid_unicast ip) || negb (mac_is_valid_unicast mac) then (s, MalformedPacket)
  else if ipv4_configured k && ipv4_equal ip (c_address (config k)) && negb (mac_equal mac (hardware_address (interface k)))
  then (s, MalformedPacket)
  else
    let sequence := next_neighbor_sequence (neighbor_update_sequence k) in
    match find_index (is_reachable_at ip) (neighbors k) with
    | Some i =>
        let old := nth i (neighbors k) empty_neighbor in
        let s := set_stack s (set_neighbors k (<[i := mkNeighbor (n_state old) (n_ip old) mac sequence]> (neighbors k))
                                (neighbor_eviction_cursor k) sequence) in
        (count neighbor_updates s, Ok)
    | None =>
        let '(s, selected) :=
          match find_index (fun e => bool_decide (n_state e = Empty)) (neighbors k) with
          | Some i => (s, i)
          | None =>
              let selected := neighbor_eviction_cursor k in
              let cursor := if (NEIGHBOR_TABLE_CAPACITY <=? S selected)%nat then 1%nat else S selected in
              (count neighbor_evictions (set_stack s (set_neighbors k (neighbors k) cursor (neighbor_update_sequence k))), selected)
          end in
        let k := stack s in
        let s := set_stack s (set_neighbors k (<[selected := mkNeighbor Reachable ip mac sequence]> (neighbors k))
                                (neighbor_eviction_cursor k) sequence) in
        (count neighbor_updates s, Ok)
    end.

Definition find_neighbor (k : NetworkStack) (ip : IPv4Address) : option NeighborEntry :=
  i ← find_index (is_reachable_at ip) (neighbors k); neighbors k !! i.

Definition record_receive_failure (s : Net) (status : Status) : Net :=
  match status with
  | Ok => s
  | _ =>
      let s := count dropped_frames s in
      match status with
      | ChecksumMismatch => count parse_errors (count checksum_errors s)
      | FrameTooShort | FrameTooLarge | MalformedPacket => count parse_errors s
      | UnsupportedProtocol | UnsupportedFragment => count unsupported_packets s
      | InterfaceError | QueueFull | BufferTooSmall => count interface_errors s
      | _ => s
      end
  end.

(** ** Sending *)

Definition transmit_stack_frame (s : Net) (frame_length : Z) : Net * Status :=
  let k := stack s in
  let '(w, status) := interface_transmit (Some (interface k)) (mem s) (dev s) (transmit_buffer k) frame_length in
  let s := set_dev s w in
  if negb (bool_decide (status = Ok)) then (count interface_errors s, status)
  else (count_by bytes_transmitted frame_length (count frames_transmitted s), Ok).

(** [serialize_ethernet] around a payload in the transmit buffer, and its transmission. *)
Definition send_frame (s : Net) (destination : MacAddress) (ether_type payload_length : Z) : Net * Status :=
  let k := stack s in
  let '(m, status, length) :=
    serialize_ethernet (mem s) destination (hardware_address (interface k)) ether_type
      (transmit_buffer k + ETHERNET_HEADER_SIZE) payload_length (transmit_buffer k) ETHERNET_MAX_FRAME_SIZE true in
  let s := set_mem s m in
  if negb (bool_decide (status = Ok)) then (s, status) else transmit_stack_frame s (default 0 length).

Definition send_arp_packet (s : Net) (ethernet_destination : MacAddress) (arp : ArpPacket) : Net * Status :=
  let k := stack s in
  let '(m, status, length) := serialize_arp (mem s) arp (transmit_buffer k + ETHERNET_HEADER_SIZE) ETHERNET_MTU true in
  let s := set_mem s m in
  if negb (bool_decide (status = Ok)) then (s, status)
  else
    let '(s, status) := send_frame s ethernet_destination ETHER_TYPE_ARP (default 0 length) in
    (if bool_decide (status = Ok) then count arp_transmitted s else s, status).

Definition send_arp_request (s : Net) (target : IPv4Address) : Net * Status :=
  let k := stack s in
  let request := mkArp ArpRequest (hardware_address (interface k)) (c_address (config k)) ZERO_MAC target in
  let '(s, status) := send_arp_packet s BROADCAST_MAC request in
  (if bool_decide (status = Ok) then count arp_resolution_requests s else s, status).

Definition send_arp_reply (s : Net) (request : ArpPacket) : Net * Status :=
  let k := stack s in
  let reply := mkArp ArpReply (hardware_address (interface k)) (c_address (config k)) (sender_mac request) (sender_ip request) in
  send_arp_packet s (sender_mac request) reply.

(** The IPv4 and Ethernet headers around a transport packet of the given length
    that is in place in the transmit buffer. *)
Definition send_ipv4 (s : Net) (destination_mac : MacAddress) (destination_ip : IPv4Address) (protocol transport_length : Z)
  : Net * Status :=
  let k := stack s in
  let header := mkIPv4Header (c_address (config k)) destination_ip protocol 64 (next_identification k) true in
  let s := set_stack s (set_identification k (u16 (next_identification k + 1))) in
  let '(m, status, length) :=
    serialize_ipv4 (mem s) header (transmit_buffer k + (ETHERNET_HEADER_SIZE + IPV4_MIN_HEADER_SIZE)) transport_length
      (transmit_buffer k + ETHERNET_HEADER_SIZE) ETHERNET_MTU true in
  let s := set_mem s m in
  if negb (bool_decide (status = Ok)) then (s, status)
  else send_frame s destination_mac ETHER_TYPE_IPV4 (default 0 length).

Definition send_icmp (s : Net) (destination_mac : MacAddress) (destination_ip : IPv4Address) (type : IcmpEchoType)
    (identifier sequence payload payload_length : Z) : Net * Status :=
  if ICMP_ECHO_MAX_PAYLOAD <? payload_length then (s, PayloadTooLarge)
  else
    let icmp_offset := ETHERNET_HEADER_SIZE + IPV4_MIN_HEADER_SIZE in
    let '(m, status, length) :=
      serialize_icmp_echo (mem s) type identifier sequence payload payload_length
        (transmit_buffer (stack s) + icmp_offset) (ETHERNET_MAX_FRAME_SIZE - icmp_offset) true in
    let s := set_mem s m in
    if negb (bool_decide (status = Ok)) then (s, status)
    else
      let '(s, status) := send_ipv4 s destination_mac destination_ip IPV4_PROTOCOL_ICMP (default 0 length) in
      if negb (bool_decide (status = Ok)) then (s, status)
      else
        let s := count icmp_transmitted (count ipv4_transmitted s) in
        (if bool_decide (type = EchoRequest) then count echo_requests_sent s else count echo_replies_sent s, Ok).

(** The next hop's address, or the reason there is none; asking for an unknown
    neighbour sends a request. *)
Definition resolve_destination (s : Net) (destination : IPv4Address) : Net * (Status + MacAddress) :=
  let k := stack s in
  let c := config k in
  let local := ipv4_on_same_network (c_address c) destination (c_netmask c) in
  if negb local && ipv4_is_zero (c_gateway c) then (s, inl NoRoute)
  else
    let next_hop := if local then destination else c_gateway c in
    match find_neighbor k next_hop with
    | None =>
        let '(s, arp_status) := send_arp_request s next_hop in
        (s, inl (if bool_decide (arp_status = Ok) then NeighborResolutionPending else arp_status))
    | Some neighbor => (s, inr (n_mac neighbor))
    end.

Definition send_transport_packet (s : Net) (destination_mac : MacAddress) (destination_ip : IPv4Address)
    (protocol transport transport_length : Z) : Net * Status :=
  let transport_offset := ETHERNET_HEADER_SIZE + IPV4_MIN_HEADER_SIZE in
  if negb (transport =? transmit_buffer (stack s) + transport_offset) then (s, InvalidArgument)
  else
    let '(s, status) := send_ipv4 s destination_mac destination_ip protocol transport_length in
    (if bool_decide (status = Ok) then count ipv4_transmitted s else s, status).

(** ** Receiving *)

Definition handle_arp (s : Net) (ethernet : EthernetFrameView) : Net * Status :=
  match parse_arp (mem s) (ef_payload ethernet) (ef_payload_length ethernet) true with
  | (Ok, Some arp) =>
      let s := count arp_received s in
      let k := stack s in
      if negb (mac_equal (sender_mac arp) (ef_source ethernet)) || negb (mac_is_valid_unicast (sender_mac arp)) ||
         negb (ipv4_is_valid_unicast (sender_ip arp)) then (s, MalformedPacket)
      else if bool_decide (operation arp = ArpReply) then
        if negb (ipv4_equal (target_ip arp) (c_address (config k))) ||
           negb (mac_equal (target_mac arp) (hardware_address (interface k))) then (s, NotForUs)
        else update_neighbor s (sender_ip arp) (sender_mac arp)
      else
        match update_neighbor s (sender_ip arp) (sender_mac arp) with
        | (s, Ok) => if negb (ipv4_equal (target_ip arp) (c_address (config k))) then (s, NotForUs) else send_arp_reply s arp
        | (s, status) => (s, status)
        end
  | (status, _) => (s, status)
  end.

(** The transport part of [handle_ipv4]. *)
Definition handle_udp (s : Net) (ipv4 : IPv4PacketView) : Net * Status :=
  match parse_udp (mem s) (ip_source ipv4) (ip_destination ipv4) (ip_payload ipv4) (ip_payload_length ipv4) true with
  | (Ok, Some udp) =>
      if TRANSPORT_INBOX_CAPACITY <? ud_payload_length udp then (s, BufferTooSmall)
      else
        let k := stack s in
        let datagram := mkUdpDatagram true (ip_source ipv4) (ip_destination ipv4) (ud_source_port udp) (ud_destination_port udp)
                          (inbox (load (mem s) (ud_payload udp) (ud_payload_length udp))) (ud_payload_length udp) in
        (count udp_received (set_stack s (set_inboxes k (last_ping_reply k) datagram (last_tcp_segment k))), Ok)
  | (status, _) => (s, status)
  end.

Definition handle_tcp (s : Net) (ipv4 : IPv4PacketView) : Net * Status :=
  match parse_tcp (mem s) (ip_source ipv4) (ip_destination ipv4) (ip_payload ipv4) (ip_payload_length ipv4) true with
  | (Ok, Some tcp) =>
      if TRANSPORT_INBOX_CAPACITY <? tc_payload_length tcp then (s, BufferTooSmall)
      else
        let k := stack s in
        let segment := mkTcpSegment true (ip_source ipv4) (ip_destination ipv4) (tc_source_port tcp) (tc_destination_port tcp)
                         (tc_sequence tcp) (tc_acknowledgement tcp) (tc_flags tcp) (tc_window tcp)
                         (inbox (load (mem s) (tc_payload tcp) (tc_payload_length tcp))) (tc_payload_length tcp) in
        (count tcp_received (set_stack s (set_inboxes k (last_ping_reply k) (last_udp_datagram k) segment)), Ok)
  | (status, _) => (s, status)
  end.

Definition handle_icmp (s : Net) (ethernet : EthernetFrameView) (ipv4 : IPv4PacketView) : Net * Status :=
  match parse_icmp_echo (mem s) (ip_payload ipv4) (ip_payload_length ipv4) true with
  | (Ok, Some echo) =>
      let s := count icmp_received s in
      if bool_decide (ic_type echo = EchoRequest) then
        let s := count echo_requests_received s in
        send_icmp s (ef_source ethernet) (ip_source ipv4) EchoReply (ic_identifier echo) (ic_sequence echo)
          (ic_payload echo) (ic_payload_length echo)
      else
        let s := count echo_replies_received s in
        let k := stack s in
        let reply := mkPingReply true (ip_source ipv4) (ic_identifier echo) (ic_sequence echo) (ic_payload_length echo) in
        (set_stack s (set_inboxes k reply (last_udp_datagram k) (last_tcp_segment k)), Ok)
  | (status, _) => (s, status)
  end.

Definition handle_ipv4 (s : Net) (ethernet : EthernetFrameView) : Net * Status :=
  match parse_ipv4 (mem s) (ef_payload ethernet) (ef_payload_length ethernet) true with
  | (Ok, Some ipv4) =>
      let s := count ipv4_received s in
      let k := stack s in
      if negb (ipv4_equal (ip_destination ipv4) (c_address (config k))) then (s, NotForUs)
      else if negb (ipv4_is_valid_unicast (ip_source ipv4)) then (s, MalformedPacket)
      else
        match update_neighbor s (ip_source ipv4) (ef_source ethernet) with
        | (s, Ok) =>
            if ip_protocol ipv4 =? IPV4_PROTOCOL_UDP then handle_udp s ipv4
            else if ip_protocol ipv4 =? IPV4_PROTOCOL_TCP then handle_tcp s ipv4
            else if negb (ip_protocol ipv4 =? IPV4_PROTOCOL_ICMP) then (s, UnsupportedProtocol)
            else handle_icmp s ethernet ipv4
        | (s, status) => (s, status)
        end
  | (status, _) => (s, status)
  end.

(** ** Entry points *)

(** The stack in a fresh [NetworkStack] whose buffers are at the given addresses. *)
Definition initialize_stack (m : Memory) (w : W) (old : NetworkStack) (i : option (NetworkInterface W)) : Net * Status :=
  match i with
  | None => (mkNet m w old, InvalidArgument)
  | Some i =>
      if bool_decide (transmit i = None) || bool_decide (receive_from i = None) then (mkNet m w old, InvalidArgument)
      else if negb (mac_is_valid_unicast (hardware_address i)) || (mtu i <? 68) || (ETHERNET_MTU <? mtu i)
      then (mkNet m w old, InvalidConfiguration)
      else
        let m := clear_bytes m (receive_buffer old) ETHERNET_MAX_FRAME_SIZE in
        let m := clear_bytes m (transmit_buffer old) ETHERNET_MAX_FRAME_SIZE in
        (mkNet m w (mkStack i (mkConfig ZERO_IP ZERO_IP ZERO_IP) (replicate NEIGHBOR_TABLE_CAPACITY empty_neighbor) (fun _ => 0)
           empty_ping_reply empty_udp_datagram empty_tcp_segment (receive_buffer old) (transmit_buffer old) 1 0 0 true false), Ok)
  end.

Definition configure_ipv4 (s : Net) (c : IPv4Config) : Net * Status :=
  let k := stack s in
  if negb (initialized k) then (s, NotInitialized)
  else if negb (netmask_is_contiguous (c_netmask c)) || negb (config_address_is_host (c_address c) (c_netmask c))
  then (s, InvalidConfiguration)
  else if negb (ipv4_is_zero (c_gateway c)) &&
          (negb (config_address_is_host (c_gateway c) (c_netmask c)) ||
           negb (ipv4_on_same_network (c_address c) (c_gateway c) (c_netmask c))) then (s, InvalidConfiguration)
  else
    let self := mkNeighbor Reachable (c_address c) (hardware_address (interface k)) 1 in
    let k := set_inboxes (set_config k c) empty_ping_reply empty_udp_datagram empty_tcp_segment in
    (set_stack s (set_neighbors k (<[0%nat := self]> (replicate NEIGHBOR_TABLE_CAPACITY empty_neighbor)) 1 1), Ok).

Definition receive (s : Net) (frame frame_length : Z) : Net * Status :=
  if negb (initialized (stack s)) then (s, NotInitialized)
  else if negb (ipv4_configured (stack s)) then (s, NotConfigured)
  else if (frame =? 0) || (frame_length =? 0) then (s, InvalidArgument)
  else
    let s := count_by bytes_received frame_length (count frames_received s) in
    match parse_ethernet (mem s) frame frame_length true with
    | (Ok, Some ethernet) =>
        let k := stack s in
        let '(s, status) :=
          if negb (mac_equal (ef_destination ethernet) (hardware_address (interface k))) &&
             negb (mac_is_broadcast (ef_destination ethernet)) then (s, NotForUs)
          else if negb (mac_is_valid_unicast (ef_source ethernet)) then (s, MalformedPacket)
          else if ef_ether_type ethernet =? ETHER_TYPE_ARP then handle_arp s ethernet
          else if ef_ether_type ethernet =? ETHER_TYPE_IPV4 then handle_ipv4 s ethernet
          else (s, UnsupportedProtocol) in
        (if bool_decide (status = Ok) then s else record_receive_failure s status, status)
    | (status, _) => (record_receive_failure s status, status)
    end.

(** The loop of [poll]; [budget] counts down. *)
Fixpoint poll_loop (budget : nat) (s : Net) (processed : Z) (first_error : Status) : Net * Z * Status :=
  match budget with
  | O => (s, processed, first_error)
  | S budget' =>
      let k := stack s in
      let '(m, w, interface_status, length) :=
        interface_receive (Some (interface k)) (mem s) (dev s) (receive_buffer k) ETHERNET_MAX_FRAME_SIZE true in
      let s := mkNet m w k in
      if bool_decide (interface_status = WouldBlock) then (s, processed, first_error)
      else if negb (bool_decide (interface_status = Ok)) then (count interface_errors s, processed, interface_status)
      else
        let '(s, receive_status) := receive s (receive_buffer k) (default 0 length) in
        let first_error :=
          if negb (bool_decide (receive_status = Ok)) && bool_decide (first_error = Ok) then receive_status else first_error in
        poll_loop budget' s (processed + 1) first_error
  end.

Definition poll (s : Net) (budget : Z) : Net * Z * Status :=
  if negb (initialized (stack s)) then (s, 0, NotInitialized)
  else if negb (ipv4_configured (stack s)) then (s, 0, NotConfigured)
  else poll_loop (Z.to_nat budget) s 0 Ok.

Definition send_ping (s : Net) (destination : IPv4Address) (identifier sequence payload payload_length : Z) : Net * Status :=
  if negb (initialized (stack s)) then (s, NotInitialized)
  else if negb (ipv4_configured (stack s)) then (s, NotConfigured)
  else if ((payload =? 0) && negb (payload_length =? 0)) || negb (ipv4_is_valid_unicast destination) then (s, InvalidArgument)
  else if ICMP_ECHO_MAX_PAYLOAD <? payload_length then (s, PayloadTooLarge)
  else
    match resolve_destination s destination with
    | (s, inl status) => (s, status)
    | (s, inr mac) => send_icmp s mac destination EchoRequest identifier sequence payload payload_length
    end.

Definition send_udp (s : Net) (destination : IPv4Address) (source_port destination_port payload payload_length : Z)
  : Net * Status :=
  if negb (initialized (stack s)) then (s, NotInitialized)
  else if negb (ipv4_configured (stack s)) then (s, NotConfigured)
  else if ((payload =? 0) && negb (payload_length =? 0)) || (source_port =? 0) || (destination_port =? 0) ||
          negb (ipv4_is_valid_unicast destination) then (s, InvalidArgument)
  else
    match resolve_destination s destination with
    | (s, inl status) => (s, status)
    | (s, inr mac) =>
        let offset := ETHERNET_HEADER_SIZE + IPV4_MIN_HEADER_SIZE in
        let transport := transmit_buffer (stack s) + offset in
        let '(m, status, length) :=
          serialize_udp (mem s) (c_address (config (stack s))) destination source_port destination_port payload payload_length
            transport (ETHERNET_MAX_FRAME_SIZE - offset) true in
        let s := set_mem s m in
        if negb (bool_decide (status = Ok)) then (s, status)
        else
          let '(s, status) := send_transport_packet s mac destination IPV4_PROTOCOL_UDP transport (default 0 length) in
          (if bool_decide (status = Ok) then count udp_transmitted s else s, status)
    end.

Definition send_tcp (s : Net) (destination : IPv4Address) (source_port destination_port sequence acknowledgement flags window
    payload payload_length : Z) : Net * Status :=
  if negb (initialized (stack s)) then (s, NotInitialized)
  else if negb (ipv4_configured (stack s)) then (s, NotConfigured)
  else if ((payload =? 0) && negb (payload_length =? 0)) || (source_port =? 0) || (destination_port =? 0) ||
          negb (ipv4_is_valid_unicast destination) then (s, InvalidArgument)
  else
    match resolve_destination s destination with
    | (s, inl status) => (s, status)
    | (s, inr mac) =>
        let offset := ETHERNET_HEADER_SIZE + IPV4_MIN_HEADER_SIZE in
        let transport := transmit_buffer (stack s) + offset in
        let '(m, status, length) :=
          serialize_tcp (mem s) (c_address (config (stack s))) destination source_port destination_port sequence
            acknowledgement flags window payload payload_length transport (ETHERNET_MAX_FRAME_SIZE - offset) true in
        let s := set_mem s m in
        if negb (bool_decide (status = Ok)) then (s, status)
        else
          let '(s, status) := send_transport_packet s mac destination IPV4_PROTOCOL_TCP transport (default 0 length) in
          (if bool_decide (status = Ok) then count tcp_transmitted s else s, status)
    end.

Definition lookup_neighbor (s : Net) (address : IPv4Address) (has_out : bool) : Status * option NeighborEntry :=
  if negb (initialized (stack s)) then (NotInitialized, None)
  else if negb has_out then (InvalidArgument, None)
  else
    match find_neighbor (stack s) address with
    | None => (WouldBlock, Some empty_neighbor)
    | Some entry => (Ok, Some entry)
    end.

Fixpoint list_loop {C : Type} (callback : NeighborEntry -> C -> bool * C) (l : list NeighborEntry) (context : C) : Status * C :=
  match l with
  | [] => (Ok, context)
  | e :: l' =>
      if bool_decide (n_state e = Reachable) then
        let '(continue, context) := callback e context in
        if negb continue then (IterationStopped, context) else list_loop callback l' context
      else list_loop callback l' context
  end.

Definition list_neighbors {C : Type} (s : Net) (callback : option (NeighborEntry -> C -> bool * C)) (context : C) : Status * C :=
  if negb (initialized (stack s)) then (NotInitialized, context)
  else match callback with None => (InvalidArgument, context) | Some callback => list_loop callback (neighbors (stack s)) context end.

Definition get_stats (s : Net) (has_out : bool) : Status * option NetworkStats :=
  if negb (initialized (stack s)) then (NotInitialized, None)
  else if negb has_out then (InvalidArgument, None) else (Ok, Some (stats (stack s))).

Definition get_last_ping_reply (s : Net) (has_out : bool) : Status * option PingReply :=
  if negb (initialized (stack s)) then (NotInitialized, None)
  else if negb has_out then (InvalidArgument, None)
  else (if p_valid (last_ping_reply (stack s)) then Ok else WouldBlock, Some (last_ping_reply (stack s))).

Definition take_udp_datagram (s : Net) (has_out : bool) : Net * Status * option UdpDatagram :=
  let k := stack s in
  if negb (initialized k) then (s, NotInitialized, None)
  else if negb has_out then (s, InvalidArgument, None)
  else
    let u := last_udp_datagram k in
    if negb (u_valid u) then (s, WouldBlock, None)
    else
      let taken := mkUdpDatagram false (u_source u) (u_destination u) (u_source_port u) (u_destination_port u) (u_payload u)
                     (u_payload_length u) in
      (set_stack s (set_inboxes k (last_ping_reply k) taken (last_tcp_segment k)), Ok, Some u).

Definition take_tcp_segment (s : Net) (has_out : bool) : Net * Status * option TcpSegment :=
  let k := stack s in
  if negb (initialized k) then (s, NotInitialized, None)
  else if negb has_out then (s, InvalidArgument, None)
  else
    let t := last_tcp_segment k in
    if negb (t_valid t) then (s, WouldBlock, None)
    else
      let taken := mkTcpSegment false (t_source t) (t_destination t) (t_source_port t) (t_destination_port t) (t_sequence t)
                     (t_acknowledgement t) (t_flags t) (t_window t) (t_payload t) (t_payload_length t) in
      (set_stack s (set_inboxes k (last_ping_reply k) (last_udp_datagram k) taken), Ok, Some t).

End stack.

Arguments NetworkStack : clear implicits.
Arguments Net : clear implicits.

(** ** The loopback interface *)

Definition LOOPBACK_QUEUE_DEPTH : nat := 8.

Record LoopbackInterface := mkLoopback {
  lo_frames : list (list Z); lo_lengths : list Z; lo_head : nat; lo_tail : nat; lo_count : nat;
  lo_transmitted_frames : Z; lo_received_frames : Z; lo_dropped_frames : Z; lo_initialized : bool }.

(** The callbacks get a non-null frame and a non-null [out_length] from
    [interface_transmit] and [interface_receive]. *)
Definition loopback_transmit (l : LoopbackInterface) (frame : list Z) : LoopbackInterface * Status :=
  let 'mkLoopback frames lengths head tail count transmitted received dropped init := l in
  let frame_length := Z.of_nat (length frame) in
  if negb init then (l, NotInitialized)
  else if frame_length =? 0 then (l, InvalidArgument)
  else if ETHERNET_MAX_FRAME_SIZE <? frame_length then (l, FrameTooLarge)
  else if (count =? LOOPBACK_QUEUE_DEPTH)%nat then
    (mkLoopback frames lengths head tail count transmitted received (saturating_add dropped 1) init, QueueFull)
  else
    (mkLoopback (<[tail := list_inserts 0 frame (nth tail frames [])]> frames) (<[tail := u16 frame_length]> lengths) head
       ((tail + 1) mod LOOPBACK_QUEUE_DEPTH) (S count) (saturating_add transmitted 1) received dropped init, Ok).

Definition loopback_receive (l : LoopbackInterface) (output_capacity : Z) : LoopbackInterface * Status * Z * list Z :=
  let 'mkLoopback frames lengths head tail count transmitted received dropped init := l in
  if negb init then (l, NotInitialized, 0, [])
  else if (count =? 0)%nat then (l, WouldBlock, 0, [])
  else
    let frame_length := nth head lengths 0 in
    if output_capacity <? frame_length then (l, BufferTooSmall, frame_length, [])
    else
      (mkLoopback frames (<[head := 0]> lengths) ((head + 1) mod LOOPBACK_QUEUE_DEPTH) tail (pred count) transmitted
         (saturating_add received 1) dropped init,
       Ok, frame_length, take (Z.to_nat frame_length) (nth head frames [])).

Definition loopback_interface (hardware_address : MacAddress) : NetworkInterface LoopbackInterface :=
  mkInterface (Some loopback_transmit) (Some loopback_receive) hardware_address ETHERNET_MTU.

(** [has_loopback] is false for a null pointer, and the old value stays. *)
Definition initialize_loopback (old : LoopbackInterface) (has_loopback : bool) (hardware_address : MacAddress)
  : LoopbackInterface * option (NetworkInterface LoopbackInterface) * Status :=
  if negb has_loopback || negb (mac_is_valid_unicast hardware_address) then (old, None, InvalidArgument)
  else
    (mkLoopback (replicate LOOPBACK_QUEUE_DEPTH (replicate (Z.to_nat ETHERNET_MAX_FRAME_SIZE) 0))
       (replicate LOOPBACK_QUEUE_DEPTH 0) 0 0 0 0 0 0 true, Some (loopback_interface hardware_address), Ok).

Definition loopback_queued_frames (l : option LoopbackInterface) : nat :=
  match l with Some l => if lo_initialized l then lo_count l else 0 | None => 0 end.
