(* ===== verification/NetworkTheorems.v ===== *)
(** * Theorems on the network stack

    The invariant of a configured stack and of its neighbour table, kept by every
    operation; the delivery of datagrams and segments from one stack to another
    and the round trip of a ping; address resolution; and the loopback interface
    as a queue. *)

From S2P Require Import Prelude Ring Packet Network Protocols NetworkStack.

(** ** Addresses *)

Lemma forallb_bytes (n : nat) l1 l2 : length l1 = n -> length l2 = n ->
  forallb (fun i => word_at l1 i =? word_at l2 i) (seqZ 0 (Z.of_nat n)) = true <-> l1 = l2.
Proof.
  intros H1 H2. rewrite forallb_forall. split.
  - intros H. apply list_eq_same_length with (n := n); [by rewrite H2|by rewrite H1|].
    intros i x y Hi Hx Hy. assert ((word_at l1 (Z.of_nat i) =? word_at l2 (Z.of_nat i)) = true) as E%Z.eqb_eq.
    { apply H, list_elem_of_In, elem_of_seqZ. lia. }
    rewrite (word_at_lookup l1 (Z.of_nat i) x), (word_at_lookup l2 (Z.of_nat i) y) in E by (by rewrite Nat2Z.id). done.
  - intros ->. intros x _. apply Z.eqb_refl.
Qed.

Lemma mac_equal_iff a b : mac_ok a -> mac_ok b -> mac_equal a b = true <-> a = b.
Proof. intros [Ha _] [Hb _]. by apply (forallb_bytes 6). Qed.

Lemma ipv4_equal_iff a b : ip_ok a -> ip_ok b -> ipv4_equal a b = true <-> a = b.
Proof. intros [Ha _] [Hb _]. by apply (forallb_bytes 4). Qed.

Lemma mac_equal_refl a : mac_equal a a = true.
Proof. apply forallb_forall. intros x _. apply Z.eqb_refl. Qed.

Lemma ipv4_equal_refl a : ipv4_equal a a = true.
Proof. apply forallb_forall. intros x _. apply Z.eqb_refl. Qed.

Lemma load_ip_ok m a : bytes_ok m -> ip_ok (load m a IPV4_ADDRESS_LENGTH).
Proof. intros Hm. split; [by rewrite load_length_nat|by apply load_u8]. Qed.

Lemma load_mac_ok m a : bytes_ok m -> mac_ok (load m a MAC_ADDRESS_LENGTH).
Proof. intros Hm. split; [by rewrite load_length_nat|by apply load_u8]. Qed.

Lemma broadcast_mac_ok : mac_ok BROADCAST_MAC.
Proof. split; [done|]. apply Forall_replicate. word_lia. Qed.

Lemma zero_mac_ok : mac_ok ZERO_MAC.
Proof. split; [done|]. apply Forall_replicate. word_lia. Qed.

Lemma zero_ip_ok : ip_ok ZERO_IP.
Proof. split; [done|]. apply (Forall_replicate _ 4). word_lia. Qed.

Section stacks.
Context {W : Type}.
Implicit Types (s : Net W) (k : NetworkStack W).

(** ** The invariant *)

Definition entry_ok (e : NeighborEntry) : Prop :=
  ip_ok (n_ip e) /\ mac_ok (n_mac e) /\
  (n_state e = Reachable -> ipv4_is_valid_unicast (n_ip e) = true /\ mac_is_valid_unicast (n_mac e) = true).

Definition reachable_at (l : list NeighborEntry) (i : nat) (ip : IPv4Address) : Prop :=
  exists e, l !! i = Some e /\ n_state e = Reachable /\ n_ip e = ip.

(** The table of sixteen well-formed entries, one for each address; the first is
    the stack itself and the cursor for evictions never points to it. *)
Record table_ok (address : IPv4Address) (mac : MacAddress) (l : list NeighborEntry) (cursor : nat) : Prop := {
  tb_length : length l = NEIGHBOR_TABLE_CAPACITY;
  tb_cursor : (1 <= cursor < NEIGHBOR_TABLE_CAPACITY)%nat;
  tb_entries : Forall entry_ok l;
  tb_self : exists q, l !! 0%nat = Some (mkNeighbor Reachable address mac q);
  tb_distinct : forall i j ip, reachable_at l i ip -> reachable_at l j ip -> i = j }.

Record stack_ok k : Prop := {
  so_initialized : initialized k = true;
  so_configured : ipv4_configured k = true;
  so_mac : mac_ok (hardware_address (interface k));
  so_unicast_mac : mac_is_valid_unicast (hardware_address (interface k)) = true;
  so_address : ip_ok (c_address (config k));
  so_unicast : ipv4_is_valid_unicast (c_address (config k)) = true;
  so_gateway : ip_ok (c_gateway (config k));
  so_identification : 0 <= next_identification k < 2 ^ 16;
  so_transmit : 0 < transmit_buffer k;
  so_receive : 0 < receive_buffer k;
  so_table : table_ok (c_address (config k)) (hardware_address (interface k)) (neighbors k) (neighbor_eviction_cursor k) }.

Definition net_ok s : Prop := bytes_ok (mem s) /\ stack_ok (stack s).

(** The fields that only [configure_ipv4] and [initialize_stack] change. *)
Definition same_setup k k' : Prop :=
  interface k' = interface k /\ config k' = config k /\ transmit_buffer k' = transmit_buffer k /\
  receive_buffer k' = receive_buffer k /\ initialized k' = initialized k /\ ipv4_configured k' = ipv4_configured k.

Lemma same_setup_refl k : same_setup k k.
Proof. by repeat split. Qed.

Lemma same_setup_trans k1 k2 k3 : same_setup k1 k2 -> same_setup k2 k3 -> same_setup k1 k3.
Proof. unfold same_setup. intros (?&?&?&?&?&?) (?&?&?&?&?&?). repeat split; congruence. Qed.

Lemma is_reachable_at_true ip e : ip_ok ip -> entry_ok e ->
  is_reachable_at ip e = true <-> n_state e = Reachable /\ n_ip e = ip.
Proof.
  intros Hip (He & _ & _). unfold is_reachable_at. rewrite andb_true_iff, bool_decide_eq_true, ipv4_equal_iff by done. done.
Qed.

(** Writing a reachable entry for an address that no other entry has. *)
Lemma table_write address mac l cursor i e cursor' :
  table_ok address mac l cursor -> (1 <= cursor' < NEIGHBOR_TABLE_CAPACITY)%nat -> entry_ok e -> n_state e = Reachable ->
  (forall j, reachable_at l j (n_ip e) -> j = i) -> (i = 0%nat -> n_ip e = address /\ n_mac e = mac) ->
  table_ok address mac (<[i := e]> l) cursor'.
Proof.
  intros [Hl Hc He Hself Hd] Hc' Hok Hst Hothers Hfirst. constructor; [by rewrite length_insert|done|..].
  - by apply Forall_insert.
  - destruct (decide (i = 0%nat)) as [->|Hi].
    + destruct (Hfirst eq_refl) as [<- <-]. exists (n_update_sequence e). rewrite list_lookup_insert_eq.
      * destruct e; cbn in *. by subst.
      * rewrite Hl. unfold NEIGHBOR_TABLE_CAPACITY. lia.
    + by rewrite list_lookup_insert_ne.
  - assert (forall j ip, reachable_at (<[i := e]> l) j ip -> j = i /\ ip = n_ip e \/ j ≠ i /\ reachable_at l j ip) as Hcase.
    { intros j ip (x & Hx & Hr & <-). destruct (decide (i = j)) as [->|Hij].
      - left. apply list_lookup_insert_Some in Hx as [(_ & <- & _)|(? & _)]; done.
      - right. rewrite list_lookup_insert_ne in Hx by done. split; [done|]. by exists x. }
    intros a b ip Ha Hb. destruct (Hcase _ _ Ha) as [[-> ->]|[Hai Ha']], (Hcase _ _ Hb) as [[-> Eb]|[Hbi Hb']]; try done.
    + symmetry. by apply Hothers.
    + subst. by apply Hothers.
    + by apply (Hd _ _ ip).
Qed.

(** ** The neighbour table *)

(** What [update_neighbor] does to a stack. *)
Lemma update_neighbor_ok s ip mac :
  stack_ok (stack s) -> ip_ok ip -> mac_ok mac ->
  exists l cursor q t status,
    update_neighbor s ip mac = (set_stack s (set_stats (set_neighbors (stack s) l cursor q) t), status) /\
    table_ok (c_address (config (stack s))) (hardware_address (interface (stack s))) l cursor /\
    (status = Ok \/ status = MalformedPacket) /\
    (status = Ok -> exists i q', l !! i = Some (mkNeighbor Reachable ip mac q')).
Proof.
  intros Hk Hip Hmac. pose proof (so_table _ Hk) as Ht. unfold update_neighbor. destruct s as [m w k]. cbn [stack] in *.
  destruct (negb (ipv4_is_valid_unicast ip) || negb (mac_is_valid_unicast mac)) eqn:Eu.
  { exists (neighbors k), (neighbor_eviction_cursor k), (neighbor_update_sequence k), (stats k), MalformedPacket.
    split; [by destruct k|]. split; [done|]. split; [by right|done]. }
  apply orb_false_iff in Eu as [Eu1%negb_false_iff Eu2%negb_false_iff]. rewrite (so_configured _ Hk). cbn [andb].
  destruct (ipv4_equal ip (c_address (config k)) && negb (mac_equal mac (hardware_address (interface k)))) eqn:Eown.
  { exists (neighbors k), (neighbor_eviction_cursor k), (neighbor_update_sequence k), (stats k), MalformedPacket.
    split; [by destruct k|]. split; [done|]. split; [by right|done]. }
  assert (ip = c_address (config k) -> mac = hardware_address (interface k)) as Hown.
  { intros ->. rewrite ipv4_equal_refl in Eown. cbn [andb] in Eown. apply negb_false_iff in Eown.
    apply mac_equal_iff; [done|apply Hk|done]. }
  assert (forall q', entry_ok (mkNeighbor Reachable ip mac q')) as Hnew by (intros q'; repeat split; cbn; try done; apply Hip || apply Hmac).
  set (q := next_neighbor_sequence (neighbor_update_sequence k)).
  destruct (find_index (is_reachable_at ip) (neighbors k)) as [i|] eqn:Ef.
  - apply find_index_Some in Ef as [(x & Hx & Hr) _].
    pose proof (Forall_lookup_1 _ _ _ _ (tb_entries _ _ _ _ Ht) Hx) as Hxok.
    apply (is_reachable_at_true ip x Hip Hxok) in Hr as [Hr Hxip]. rewrite (nth_lookup_Some _ _ _ _ Hx), Hr, Hxip.
    eexists _, _, _, _, Ok. split; [reflexivity|]. split; [|split; [by left|]].
    + apply (table_write _ _ _ _ _ _ _ Ht); [apply Ht|done|done|..].
      * intros j Hj. apply (tb_distinct _ _ _ _ Ht _ _ ip); [done|]. by exists x.
      * intros ->. destruct (tb_self _ _ _ _ Ht) as [q' Hself]. rewrite Hself in Hx. injection Hx as <-. cbn in Hxip |- *.
        split; [done|]. apply Hown. done.
    + intros _. exists i, q. apply list_lookup_insert_eq. by apply lookup_lt_Some in Hx.
  - assert (forall j, ~ reachable_at (neighbors k) j ip) as Hfresh.
    { intros j (x & Hx & Hr & Hxip). rewrite find_index_None in Ef. specialize (Ef _ _ Hx).
      rewrite (proj2 (is_reachable_at_true ip x Hip (Forall_lookup_1 _ _ _ _ (tb_entries _ _ _ _ Ht) Hx))) in Ef; done. }
    assert (ip ≠ c_address (config k)) as Hother.
    { intros ->. destruct (tb_self _ _ _ _ Ht) as [q' Hself]. eapply (Hfresh 0%nat). by eexists. }
    assert (forall i cursor, i ≠ 0%nat -> (1 <= cursor < NEIGHBOR_TABLE_CAPACITY)%nat ->
      table_ok (c_address (config k)) (hardware_address (interface k)) (<[i := mkNeighbor Reachable ip mac q]> (neighbors k)) cursor)
      as Hwrite.
    { intros i cursor Hi Hcur. apply (table_write _ _ _ _ _ _ _ Ht); [done|done|done|..|done].
      intros j Hj. by apply Hfresh in Hj. }
    destruct (find_index (fun e => bool_decide (n_state e = Empty)) (neighbors k)) as [i|] eqn:Ee.
    + apply find_index_Some in Ee as [(x & Hx & Hempty%bool_decide_eq_true) _].
      eexists _, _, _, _, Ok. split; [reflexivity|]. split; [|split; [by left|]].
      * apply Hwrite; [|apply Ht]. intros ->. destruct (tb_self _ _ _ _ Ht) as [q' Hself]. rewrite Hself in Hx. by injection Hx as <-.
      * intros _. exists i, q. apply list_lookup_insert_eq. by apply lookup_lt_Some in Hx.
    + pose proof (tb_cursor _ _ _ _ Ht) as Hcur.
      eexists (<[neighbor_eviction_cursor k := mkNeighbor Reachable ip mac q]> (neighbors k)), _, q, _, Ok. split; [reflexivity|]. split; [|split; [by left|]].
      * apply Hwrite; [lia|]. case_match eqn:E; [unfold NEIGHBOR_TABLE_CAPACITY; lia|].
        apply Nat.leb_gt in E. lia.
      * intros _. exists (neighbor_eviction_cursor k), q. apply list_lookup_insert_eq.
        rewrite (tb_length _ _ _ _ Ht). apply Hcur.
Qed.


(** ** Every operation keeps the invariant *)

Definition keeps s s' : Prop := net_ok s' /\ same_setup (stack s) (stack s').

Lemma keeps_refl s : net_ok s -> keeps s s.
Proof. intros Hs. split; [done|apply same_setup_refl]. Qed.

Lemma keeps_trans s1 s2 s3 : keeps s1 s2 -> (net_ok s2 -> keeps s2 s3) -> keeps s1 s3.
Proof. intros [H1 E1] H. destruct (H H1) as [H2 E2]. split; [done|]. by eapply same_setup_trans. Qed.

Lemma keeps_mem s m : net_ok s -> bytes_ok m -> keeps s (set_mem s m).
Proof. intros [_ Hk] Hm. split; [by split|apply same_setup_refl]. Qed.

Lemma keeps_dev s w : net_ok s -> keeps s (set_dev s w).
Proof. intros [Hm Hk]. split; [by split|apply same_setup_refl]. Qed.

Lemma keeps_stats s t : net_ok s -> keeps s (set_stack s (set_stats (stack s) t)).
Proof. intros [Hm Hk]. split; [split; [done|]|by repeat split]. destruct Hk. by constructor. Qed.

Lemma keeps_count s c n : net_ok s -> keeps s (count_by c n s).
Proof. apply keeps_stats. Qed.

Lemma keeps_identification s id : net_ok s -> keeps s (set_stack s (set_identification (stack s) (u16 id))).
Proof.
  intros [Hm Hk]. split; [split; [done|]|by repeat split]. destruct Hk. constructor; try done. apply Z.mod_pos_bound. lia.
Qed.

Lemma keeps_inboxes s p u t : net_ok s -> keeps s (set_stack s (set_inboxes (stack s) p u t)).
Proof. intros [Hm Hk]. split; [split; [done|]|by repeat split]. destruct Hk. by constructor. Qed.

Lemma keeps_table s l cursor q t : net_ok s ->
  table_ok (c_address (config (stack s))) (hardware_address (interface (stack s))) l cursor ->
  keeps s (set_stack s (set_stats (set_neighbors (stack s) l cursor q) t)).
Proof. intros [Hm Hk] Ht. split; [split; [done|]|by repeat split]. destruct Hk. by constructor. Qed.

Lemma keeps_update_neighbor s ip mac : net_ok s -> ip_ok ip -> mac_ok mac -> keeps s (fst (update_neighbor s ip mac)).
Proof.
  intros Hs Hip Hmac. destruct (update_neighbor_ok s ip mac (proj2 Hs) Hip Hmac) as (l & c & q & t & st & -> & Ht & _).
  by apply keeps_table.
Qed.

Lemma keeps_record_receive_failure s status : net_ok s -> keeps s (record_receive_failure s status).
Proof.
  intros Hs. destruct status; cbn [record_receive_failure]; try (by apply keeps_refl);
    (eapply keeps_trans; [by apply keeps_count|intros H; try by apply keeps_refl]);
    try (by apply keeps_count). eapply keeps_trans; [by apply keeps_count|intros H']. by apply keeps_count.
Qed.

(** *** Sending *)

Lemma write_be16_bytes m a v : bytes_ok m -> bytes_ok (write_be16 m a v).
Proof. intros Hm. unfold write_be16. destruct (a =? 0); [done|]. apply packet_store_bytes_ok; [done|apply be16_u8]. Qed.

Lemma write_be32_bytes m a v : bytes_ok m -> bytes_ok (write_be32 m a v).
Proof. intros Hm. unfold write_be32. destruct (a =? 0); [done|]. apply packet_store_bytes_ok; [done|apply be32_u8]. Qed.

Lemma store8_bytes m a v : bytes_ok m -> is_u8 v -> bytes_ok (store8 m a v).
Proof. intros Hm Hv x. unfold store8. by destruct (x =? a). Qed.

Lemma clear_bytes_ok m a n : bytes_ok m -> bytes_ok (clear_bytes m a n).
Proof. intros Hm. apply packet_store_bytes_ok; [done|apply zeros_u8]. Qed.

Lemma copy_forward_bytes n : forall m a b, bytes_ok m -> bytes_ok (copy_forward n m a b).
Proof. induction n as [|n IH]; intros m a b Hm; [done|]. apply IH, store8_bytes; [done|apply Hm]. Qed.

Lemma copy_backward_bytes n : forall m a b, bytes_ok m -> bytes_ok (copy_backward n m a b).
Proof. induction n as [|n IH]; intros m a b Hm; [done|]. apply IH, store8_bytes; [done|apply Hm]. Qed.

Lemma move_bytes_bytes m a b n : bytes_ok m -> bytes_ok (move_bytes m a b n).
Proof. intros Hm. unfold move_bytes. repeat case_match; auto using copy_forward_bytes, copy_backward_bytes. Qed.

Ltac keep_bytes :=
  repeat first
    [ assumption
    | progress case_match; cbn [fst]
    | apply write_be16_bytes | apply write_be32_bytes | apply clear_bytes_ok | apply move_bytes_bytes
    | apply copy_forward_bytes
    | apply store8_bytes; [|first [assumption | word_lia]]
    | apply packet_store_bytes_ok; [|assumption] ].

Lemma serialize_ethernet_bytes m d src t p n o c b :
  bytes_ok m -> mac_ok d -> mac_ok src -> bytes_ok (fst (fst (serialize_ethernet m d src t p n o c b))).
Proof. intros Hm [_ Hd] [_ Hs]. unfold serialize_ethernet. keep_bytes. Qed.

Lemma serialize_arp_bytes m p o c b : bytes_ok m -> arp_ok p -> bytes_ok (fst (fst (serialize_arp m p o c b))).
Proof.
  intros Hm ([_ H1] & [_ H2] & [_ H3] & [_ H4]). unfold serialize_arp, MAC_ADDRESS_LENGTH, IPV4_ADDRESS_LENGTH. keep_bytes.
Qed.

Lemma serialize_ipv4_bytes m h p n o c b :
  bytes_ok m -> ip_ok (h_source h) -> ip_ok (h_destination h) -> is_u8 (h_ttl h) -> is_u8 (h_protocol h) ->
  bytes_ok (fst (fst (serialize_ipv4 m h p n o c b))).
Proof. intros Hm [_ H1] [_ H2] H3 H4. unfold serialize_ipv4. keep_bytes. Qed.

Lemma serialize_icmp_echo_bytes m t i q p n o c b :
  bytes_ok m -> bytes_ok (fst (fst (serialize_icmp_echo m t i q p n o c b))).
Proof.
  intros Hm. assert (is_u8 (icmp_type_code t)) by (destruct t; cbn; word_lia). unfold serialize_icmp_echo. keep_bytes.
Qed.

Lemma serialize_udp_bytes m src d sp dp p n o c b :
  bytes_ok m -> bytes_ok (fst (fst (serialize_udp m src d sp dp p n o c b))).
Proof. intros Hm. unfold serialize_udp, copy_bytes. keep_bytes. Qed.

Lemma serialize_tcp_bytes m src d sp dp q a f w p n o c b :
  bytes_ok m -> is_u8 f -> bytes_ok (fst (fst (serialize_tcp m src d sp dp q a f w p n o c b))).
Proof. intros Hm Hf. unfold serialize_tcp, copy_bytes. change (Z.shiftl 5 4) with 80. keep_bytes. Qed.

(** Split a call of a serializer, keeping that it writes bytes. *)
Ltac split_serialize L :=
  let H := fresh "Hbytes" in pose proof L as H;
  match type of H with bytes_ok (fst (fst ?e)) => destruct e as [[? ?] ?]; cbn [fst] in H end.

Lemma transmit_stack_frame_eq s n : exists w t status,
  transmit_stack_frame s n = (set_stack (set_dev s w) (set_stats (stack s) t), status).
Proof.
  unfold transmit_stack_frame. destruct (interface_transmit _ _ _ _ _) as [w status]. destruct (negb _); by eexists _, _, _.
Qed.

Lemma keeps_transmit s n : net_ok s -> keeps s (fst (transmit_stack_frame s n)).
Proof.
  intros Hs. destruct (transmit_stack_frame_eq s n) as (w & t & st & ->). cbn [fst].
  eapply keeps_trans; [by apply (keeps_dev s w)|]. intros H. by apply (keeps_stats (set_dev s w)).
Qed.

Lemma keeps_send_frame s d t n : net_ok s -> mac_ok d -> keeps s (fst (send_frame s d t n)).
Proof.
  intros Hs Hd. unfold send_frame. split_serialize (serialize_ethernet_bytes (mem s) d (hardware_address (interface (stack s))) t
    (transmit_buffer (stack s) + ETHERNET_HEADER_SIZE) n (transmit_buffer (stack s)) ETHERNET_MAX_FRAME_SIZE true
    (proj1 Hs) Hd (so_mac _ (proj2 Hs))).
  destruct (negb _); [by apply keeps_mem|]. eapply keeps_trans; [by apply keeps_mem|]. intros H. by apply keeps_transmit.
Qed.

(** [let '(s, status) := e in (if ok then count c s else s, status)]. *)
Lemma keeps_count_if s (e : Net W * Status) (b : Status -> bool) c :
  keeps s (fst e) -> keeps s (fst (let '(s', status) := e in (if b status then count c s' else s', status))).
Proof.
  destruct e as [s' status]. cbn [fst]. intros H. destruct (b status); [|done].
  eapply keeps_trans; [done|]. intros H'. by apply keeps_count.
Qed.

Lemma keeps_send_arp_packet s d p : net_ok s -> mac_ok d -> arp_ok p -> keeps s (fst (send_arp_packet s d p)).
Proof.
  intros Hs Hd Hp. unfold send_arp_packet. split_serialize (serialize_arp_bytes (mem s) p
    (transmit_buffer (stack s) + ETHERNET_HEADER_SIZE) ETHERNET_MTU true (proj1 Hs) Hp).
  destruct (negb _); [by apply keeps_mem|]. eapply keeps_trans; [by apply keeps_mem|]. intros H.
  apply (keeps_count_if _ _ (fun st => bool_decide (st = Ok))). by apply keeps_send_frame.
Qed.

Lemma keeps_send_arp_request s target : net_ok s -> ip_ok target -> keeps s (fst (send_arp_request s target)).
Proof.
  intros Hs Ht. apply (keeps_count_if _ _ (fun st => bool_decide (st = Ok))). apply keeps_send_arp_packet; [done|apply broadcast_mac_ok|].
  repeat split; cbn; try apply Hs; try apply zero_mac_ok; apply Ht.
Qed.

Lemma keeps_send_arp_reply s request : net_ok s -> arp_ok request -> keeps s (fst (send_arp_reply s request)).
Proof.
  intros Hs (Hm & Hi & _). apply keeps_send_arp_packet; [done..|]. repeat split; cbn; try apply Hs; apply Hm || apply Hi.
Qed.

Lemma keeps_send_ipv4 s d ip protocol n : net_ok s -> mac_ok d -> ip_ok ip -> is_u8 protocol ->
  keeps s (fst (send_ipv4 s d ip protocol n)).
Proof.
  intros Hs Hd Hip Hp. unfold send_ipv4. split_serialize (serialize_ipv4_bytes
    (mem (set_stack s (set_identification (stack s) (u16 (next_identification (stack s) + 1)))))
    (mkIPv4Header (c_address (config (stack s))) ip protocol 64 (next_identification (stack s)) true)
    (transmit_buffer (stack s) + (ETHERNET_HEADER_SIZE + IPV4_MIN_HEADER_SIZE)) n
    (transmit_buffer (stack s) + ETHERNET_HEADER_SIZE) ETHERNET_MTU true (proj1 Hs) (so_address _ (proj2 Hs)) Hip
    ltac:(cbn; word_lia) Hp).
  eapply keeps_trans; [by apply (keeps_identification _ (next_identification (stack s) + 1))|]. intros H.
  destruct (negb _); [by apply keeps_mem|]. eapply keeps_trans; [by apply keeps_mem|]. intros H'. by apply keeps_send_frame.
Qed.

Lemma keeps_send_icmp s d ip t i q p n : net_ok s -> mac_ok d -> ip_ok ip -> keeps s (fst (send_icmp s d ip t i q p n)).
Proof.
  intros Hs Hd Hip. unfold send_icmp. destruct (_ <? n); [by apply keeps_refl|].
  split_serialize (serialize_icmp_echo_bytes (mem s) t i q p n
    (transmit_buffer (stack s) + (ETHERNET_HEADER_SIZE + IPV4_MIN_HEADER_SIZE))
    (ETHERNET_MAX_FRAME_SIZE - (ETHERNET_HEADER_SIZE + IPV4_MIN_HEADER_SIZE)) true (proj1 Hs)).
  destruct (negb _); [by apply keeps_mem|]. eapply keeps_trans; [by apply keeps_mem|]. intros H.
  pose proof (keeps_send_ipv4 _ d ip IPV4_PROTOCOL_ICMP (default 0 o) H Hd Hip ltac:(unfold IPV4_PROTOCOL_ICMP; word_lia)) as Hk.
  destruct (send_ipv4 _ _ _ _ _) as [s' st]. cbn [fst] in Hk. destruct (negb _); [done|]. cbn [fst].
  eapply keeps_trans; [exact Hk|]. intros H1. eapply keeps_trans; [by apply keeps_count|]. intros H2.
  eapply keeps_trans; [by apply keeps_count|]. intros H3. destruct (bool_decide _); by apply keeps_count.
Qed.

Lemma find_neighbor_ok k ip e : stack_ok k -> find_neighbor k ip = Some e -> entry_ok e.
Proof.
  intros Hk. unfold find_neighbor. intros (i & _ & He)%bind_Some. by apply (Forall_lookup_1 _ _ _ _ (tb_entries _ _ _ _ (so_table _ Hk)) He).
Qed.

Lemma keeps_resolve s ip : net_ok s -> ip_ok ip ->
  keeps s (fst (resolve_destination s ip)) /\ forall mac, snd (resolve_destination s ip) = inr mac -> mac_ok mac.
Proof.
  intros Hs Hip. unfold resolve_destination. destruct (negb _ && _); [by split; [apply keeps_refl|]|].
  destruct (find_neighbor _ _) as [e|] eqn:Ef.
  - split; [by apply keeps_refl|]. intros mac [= <-]. by apply (find_neighbor_ok _ _ _ (proj2 Hs) Ef).
  - match goal with |- context [send_arp_request s ?a] => pose proof (keeps_send_arp_request s a Hs) as Hk end.
    destruct (send_arp_request _ _) as [s' st]. cbn [fst snd] in *. split; [|done]. apply Hk. case_match; [done|apply Hs].
Qed.

Lemma keeps_transport s d ip protocol p n : net_ok s -> mac_ok d -> ip_ok ip -> is_u8 protocol ->
  keeps s (fst (send_transport_packet s d ip protocol p n)).
Proof.
  intros Hs Hd Hip Hp. unfold send_transport_packet. destruct (negb _); [by apply keeps_refl|].
  apply (keeps_count_if _ _ (fun st => bool_decide (st = Ok))). by apply keeps_send_ipv4.
Qed.

Lemma keeps_send_ping s ip i q p n : net_ok s -> ip_ok ip -> keeps s (fst (send_ping s ip i q p n)).
Proof.
  intros Hs Hip. unfold send_ping. do 4 (case_match; [by apply keeps_refl|]).
  destruct (keeps_resolve s ip Hs Hip) as [Hk Hm]. destruct (resolve_destination _ _) as [s' [st|mac]]; [done|].
  eapply keeps_trans; [exact Hk|]. intros H'. apply keeps_send_icmp; [done| |done]. by apply Hm.
Qed.

Lemma keeps_send_udp s ip sp dp p n : net_ok s -> ip_ok ip -> keeps s (fst (send_udp s ip sp dp p n)).
Proof.
  intros Hs Hip. unfold send_udp. do 3 (case_match; [by apply keeps_refl|]).
  destruct (keeps_resolve s ip Hs Hip) as [Hk Hm]. destruct (resolve_destination _ _) as [s' [st|mac]]; [done|].
  eapply keeps_trans; [exact Hk|]. cbn [fst]. intros H'.
  split_serialize (serialize_udp_bytes (mem s') (c_address (config (stack s'))) ip sp dp p n
    (transmit_buffer (stack s') + (ETHERNET_HEADER_SIZE + IPV4_MIN_HEADER_SIZE))
    (ETHERNET_MAX_FRAME_SIZE - (ETHERNET_HEADER_SIZE + IPV4_MIN_HEADER_SIZE)) true (proj1 H')).
  destruct (negb (bool_decide _)); [by apply keeps_mem|]. eapply keeps_trans; [by apply keeps_mem|]. intros H2.
  apply (keeps_count_if _ _ (fun st => bool_decide (st = Ok))). apply keeps_transport; [done|by apply Hm|done|].
  unfold IPV4_PROTOCOL_UDP. word_lia.
Qed.

Lemma keeps_send_tcp s ip sp dp q a f w p n : net_ok s -> ip_ok ip -> is_u8 f -> keeps s (fst (send_tcp s ip sp dp q a f w p n)).
Proof.
  intros Hs Hip Hf. unfold send_tcp. do 3 (case_match; [by apply keeps_refl|]).
  destruct (keeps_resolve s ip Hs Hip) as [Hk Hm]. destruct (resolve_destination _ _) as [s' [st|mac]]; [done|].
  eapply keeps_trans; [exact Hk|]. cbn [fst]. intros H'.
  split_serialize (serialize_tcp_bytes (mem s') (c_address (config (stack s'))) ip sp dp q a f w p n
    (transmit_buffer (stack s') + (ETHERNET_HEADER_SIZE + IPV4_MIN_HEADER_SIZE))
    (ETHERNET_MAX_FRAME_SIZE - (ETHERNET_HEADER_SIZE + IPV4_MIN_HEADER_SIZE)) true (proj1 H') Hf).
  destruct (negb (bool_decide _)); [by apply keeps_mem|]. eapply keeps_trans; [by apply keeps_mem|]. intros H2.
  apply (keeps_count_if _ _ (fun st => bool_decide (st = Ok))). apply keeps_transport; [done|by apply Hm|done|].
  unfold IPV4_PROTOCOL_TCP. word_lia.
Qed.

(** *** Receiving *)

Lemma parse_ethernet_view m f n e st : bytes_ok m -> parse_ethernet m f n true = (st, Some e) ->
  mac_ok (ef_destination e) /\ mac_ok (ef_source e).
Proof.
  intros Hm. unfold parse_ethernet. repeat case_match; intros [= <- <-]; split; by apply load_mac_ok.
Qed.

Lemma parse_arp_view m f n p st : bytes_ok m -> parse_arp m f n true = (st, Some p) -> arp_ok p.
Proof.
  intros Hm. unfold parse_arp. do 4 (case_match; [done|]). intros [= <- <-].
  repeat split; cbn; (by rewrite load_length_nat) || by apply load_u8.
Qed.

Lemma parse_ipv4_view m f n v st : bytes_ok m -> parse_ipv4 m f n true = (st, Some v) ->
  ip_ok (ip_source v) /\ ip_ok (ip_destination v).
Proof.
  intros Hm. unfold parse_ipv4. repeat case_match; intros [= <- <-]. split; by apply load_ip_ok.
Qed.

Lemma keeps_handle_arp s e : net_ok s -> mac_ok (ef_source e) -> keeps s (fst (handle_arp s e)).
Proof.
  intros Hs He. unfold handle_arp. destruct (parse_arp _ _ _ _) as [st [p|]] eqn:Ep; [|destruct st; by apply keeps_refl].
  apply parse_arp_view in Ep as Hp; [|apply Hs]. destruct st; try by apply keeps_refl.
  eapply keeps_trans; [by apply (keeps_count s arp_received 1)|]. intros Hs1. destruct Hp as (H1 & H2 & H3).
  do 2 (case_match; [try by apply keeps_refl|]).
  - case_match; [by apply keeps_refl|]. by apply keeps_update_neighbor.
  - pose proof (keeps_update_neighbor (count arp_received s) (sender_ip p) (sender_mac p) Hs1 H2 H1) as Hk.
    destruct (update_neighbor _ _ _) as [s' st]. cbn [fst] in Hk. destruct st; try done.
    eapply keeps_trans; [exact Hk|]. intros Hs'. case_match; [by apply keeps_refl|]. by apply keeps_send_arp_reply.
Qed.

Lemma keeps_handle_udp s v : net_ok s -> keeps s (fst (handle_udp s v)).
Proof.
  intros Hs. unfold handle_udp. destruct (parse_udp _ _ _ _ _ _) as [st [u|]]; destruct st; try (by apply keeps_refl).
  case_match; [by apply keeps_refl|]. eapply keeps_trans; [by apply keeps_inboxes|]. intros H'. by apply keeps_count.
Qed.

Lemma keeps_handle_tcp s v : net_ok s -> keeps s (fst (handle_tcp s v)).
Proof.
  intros Hs. unfold handle_tcp. destruct (parse_tcp _ _ _ _ _ _) as [st [u|]]; destruct st; try (by apply keeps_refl).
  case_match; [by apply keeps_refl|]. eapply keeps_trans; [by apply keeps_inboxes|]. intros H'. by apply keeps_count.
Qed.

Lemma keeps_handle_icmp s e v : net_ok s -> mac_ok (ef_source e) -> ip_ok (ip_source v) -> keeps s (fst (handle_icmp s e v)).
Proof.
  intros Hs He Hv. unfold handle_icmp. destruct (parse_icmp_echo _ _ _ _) as [st [c|]]; destruct st; try (by apply keeps_refl).
  eapply keeps_trans; [by apply (keeps_count s icmp_received 1)|]. intros H1. case_match.
  - eapply keeps_trans; [by apply (keeps_count _ echo_requests_received 1)|]. intros H2. by apply keeps_send_icmp.
  - eapply keeps_trans; [by apply (keeps_count _ echo_replies_received 1)|]. intros H2. by apply keeps_inboxes.
Qed.

Lemma keeps_handle_ipv4 s e : net_ok s -> mac_ok (ef_source e) -> keeps s (fst (handle_ipv4 s e)).
Proof.
  intros Hs He. unfold handle_ipv4. destruct (parse_ipv4 _ _ _ _) as [st [v|]] eqn:Ep; [|destruct st; by apply keeps_refl].
  apply parse_ipv4_view in Ep as [Hv _]; [|apply Hs]. destruct st; try by apply keeps_refl.
  eapply keeps_trans; [by apply (keeps_count s ipv4_received 1)|]. intros H1. do 2 (case_match; [by apply keeps_refl|]).
  pose proof (keeps_update_neighbor (count ipv4_received s) (ip_source v) (ef_source e) H1 Hv He) as Hk.
  destruct (update_neighbor _ _ _) as [s' st]. cbn [fst] in Hk. destruct st; try done.
  eapply keeps_trans; [exact Hk|]. intros H'.
  repeat case_match; auto using keeps_handle_udp, keeps_handle_tcp, keeps_handle_icmp, keeps_refl.
Qed.

Lemma keeps_receive s f n : net_ok s -> keeps s (fst (receive s f n)).
Proof.
  intros Hs. unfold receive. do 3 (case_match; [by apply keeps_refl|]).
  eapply keeps_trans; [by apply (keeps_count s frames_received 1)|]. intros H1'.
  eapply keeps_trans; [by apply (keeps_count _ bytes_received n)|]. intros H2'. clear H1'.
  change (count_by bytes_received n (count_by frames_received 1 s)) with (count_by bytes_received n (count frames_received s)).
  change (count_by frames_received 1 s) with (count frames_received s) in H2'.
  set (s1 := count_by bytes_received n (count frames_received s)) in *. clearbody s1.
  destruct (parse_ethernet _ _ _ _) as [st [e|]] eqn:Ep; [|destruct st; by apply keeps_record_receive_failure].
  apply parse_ethernet_view in Ep as [_ He]; [|apply H2']. destruct st; try by apply keeps_record_receive_failure.
  match goal with |- context [let '(s, status) := ?e in _] => assert (keeps s1 (fst e)) as Hk; [|destruct e as [s2 st]; cbn [fst] in Hk] end.
  { repeat case_match; auto using keeps_handle_arp, keeps_handle_ipv4, keeps_refl. }
  cbn [fst]. case_match; [done|]. eapply keeps_trans; [exact Hk|]. apply keeps_record_receive_failure.
Qed.

(** The bytes that a device delivers are bytes. *)
Definition device_ok (i : NetworkInterface W) : Prop :=
  forall recv w capacity w' status n bytes,
    receive_from i = Some recv -> recv w capacity = (w', status, n, bytes) -> Forall is_u8 bytes.

Lemma keeps_interface_receive s out capacity b m w st n :
  net_ok s -> device_ok (interface (stack s)) ->
  interface_receive (Some (interface (stack s))) (mem s) (dev s) out capacity b = (m, w, st, n) -> keeps s (mkNet m w (stack s)).
Proof.
  intros Hs Hd. unfold interface_receive. cbn [mbind option_bind].
  assert (keeps s (mkNet (mem s) (dev s) (stack s))) as Hrefl by (destruct s; by apply keeps_refl).
  destruct (receive_from _) as [recv|] eqn:Er; [|by intros [= <- <- _ _]]. case_match; [by intros [= <- <- _ _]|].
  destruct (recv _ _) as [[[w' st'] n'] bytes] eqn:Ec. pose proof (Hd _ _ _ _ _ _ _ Er Ec) as Hb.
  assert (keeps s (mkNet (store (mem s) out bytes) w' (stack s))) as Hk.
  { eapply keeps_trans; [apply (keeps_mem s (store (mem s) out bytes)); [done|by apply packet_store_bytes_ok; [apply Hs|]]|].
    intros H'. by apply (keeps_dev (set_mem s (store (mem s) out bytes)) w'). }
  case_match; by intros [= <- <- _ _].
Qed.

Lemma keeps_poll_loop budget : forall s processed error,
  net_ok s -> device_ok (interface (stack s)) -> keeps s (fst (fst (poll_loop budget s processed error))).
Proof.
  induction budget as [|budget IH]; intros s processed error Hs Hd; [by apply keeps_refl|]. cbn [poll_loop].
  destruct (interface_receive _ _ _ _ _ _) as [[[m w] st] n] eqn:Er. apply keeps_interface_receive in Er; [|done..].
  eapply keeps_trans; [exact Er|]. intros H1. case_match; [by apply keeps_refl|]. case_match; [by apply keeps_count|].
  pose proof (keeps_receive (mkNet m w (stack s)) (receive_buffer (stack s)) (default 0 n) H1) as Hk.
  destruct (receive _ _ _) as [s' st']. cbn [fst] in Hk. eapply keeps_trans; [exact Hk|]. intros H2. apply IH; [done|].
  destruct Hk as [_ (-> & _)]. done.
Qed.

Lemma keeps_poll s budget : net_ok s -> device_ok (interface (stack s)) -> keeps s (fst (fst (poll s budget))).
Proof.
  intros Hs Hd. unfold poll. do 2 (case_match; [by apply keeps_refl|]). by apply keeps_poll_loop.
Qed.

Lemma keeps_take_udp s b : net_ok s -> keeps s (fst (fst (take_udp_datagram s b))).
Proof. intros Hs. unfold take_udp_datagram. do 3 (case_match; [by apply keeps_refl|]). by apply keeps_inboxes. Qed.

Lemma keeps_take_tcp s b : net_ok s -> keeps s (fst (fst (take_tcp_segment s b))).
Proof. intros Hs. unfold take_tcp_segment. do 3 (case_match; [by apply keeps_refl|]). by apply keeps_inboxes. Qed.

(** *** Configuration *)

(** An initialised stack, configured or not. *)
Record setup_ok k : Prop := {
  su_mac : mac_ok (hardware_address (interface k));
  su_unicast_mac : mac_is_valid_unicast (hardware_address (interface k)) = true;
  su_identification : 0 <= next_identification k < 2 ^ 16;
  su_transmit : 0 < transmit_buffer k;
  su_receive : 0 < receive_buffer k }.

Lemma stack_setup k : stack_ok k -> setup_ok k.
Proof. intros []. by constructor. Qed.

Lemma empty_entry_ok : entry_ok empty_neighbor.
Proof. repeat split; cbn; try apply zero_ip_ok; try apply zero_mac_ok; done. Qed.

Lemma configure_ok s c s' :
  bytes_ok (mem s) -> setup_ok (stack s) -> ip_ok (c_address c) -> ip_ok (c_gateway c) ->
  configure_ipv4 s c = (s', Ok) -> net_ok s'.
Proof.
  intros Hm [H1 H2 H3 H4 H5] Ha Hg. unfold configure_ipv4. case_match eqn:E1; [done|]. case_match eqn:E2; [done|]. case_match; [done|].
  intros [= <-]. apply negb_false_iff in E1. apply orb_false_iff in E2 as [_ E2]. apply negb_false_iff in E2.
  unfold config_address_is_host in E2. destruct (negb (ipv4_is_valid_unicast (c_address c))) eqn:Eu; [done|].
  apply negb_false_iff in Eu. split; [done|]. constructor; try done.
  set (self := mkNeighbor Reachable (c_address c) (hardware_address (interface (stack s))) 1).
  change (table_ok (c_address c) (hardware_address (interface (stack s))) (self :: replicate 15 empty_neighbor) 1).
  constructor; [done|unfold NEIGHBOR_TABLE_CAPACITY; lia|..].
  - apply Forall_cons. split; [|apply Forall_replicate, empty_entry_ok]. repeat split; cbn; try done; apply Ha || apply H1.
  - by exists 1.
  - assert (forall i ip, reachable_at (self :: replicate 15 empty_neighbor) i ip -> i = 0%nat) as Hz.
    { intros [|i] ip (e & He & Hr & _); [done|]. cbn [lookup list_lookup] in He. apply lookup_replicate in He as [-> _]. done. }
    intros i j ip Hi Hj. apply Hz in Hi, Hj. by subst.
Qed.

(** ** Histories *)

(** One operation, or a change of the memory and of the device by others. *)
Inductive net_step : Net W -> Net W -> Prop :=
| step_receive s frame n : net_step s (fst (receive s frame n))
| step_poll s budget : net_step s (fst (fst (poll s budget)))
| step_send_ping s destination identifier sequence payload n : ip_ok destination ->
    net_step s (fst (send_ping s destination identifier sequence payload n))
| step_send_udp s destination sp dp payload n : ip_ok destination ->
    net_step s (fst (send_udp s destination sp dp payload n))
| step_send_tcp s destination sp dp sequence acknowledgement flags window payload n : ip_ok destination -> is_u8 flags ->
    net_step s (fst (send_tcp s destination sp dp sequence acknowledgement flags window payload n))
| step_take_udp s b : net_step s (fst (fst (take_udp_datagram s b)))
| step_take_tcp s b : net_step s (fst (fst (take_tcp_segment s b)))
| step_configure s c : ip_ok (c_address c) -> ip_ok (c_gateway c) -> net_step s (fst (configure_ipv4 s c))
| step_outside s m w : bytes_ok m -> net_step s (mkNet m w (stack s)).

Lemma configure_unchanged s c : snd (configure_ipv4 s c) ≠ Ok -> fst (configure_ipv4 s c) = s.
Proof. unfold configure_ipv4. by repeat case_match. Qed.

Lemma configure_interface s c : interface (stack (fst (configure_ipv4 s c))) = interface (stack s).
Proof. unfold configure_ipv4. by repeat case_match. Qed.

Lemma net_step_ok s s' : net_step s s' -> device_ok (interface (stack s)) -> net_ok s ->
  net_ok s' /\ interface (stack s') = interface (stack s).
Proof.
  intros Hstep Hd Hs. assert (forall s', keeps s s' -> net_ok s' /\ interface (stack s') = interface (stack s)) as Hk by (by intros ? [? (? & _)]).
  destruct Hstep; try (apply Hk; solve [auto using keeps_receive, keeps_poll, keeps_send_ping, keeps_send_udp, keeps_send_tcp, keeps_take_udp, keeps_take_tcp]).
  - destruct (configure_ipv4 s c) as [s' st] eqn:E. pose proof (configure_interface s c) as Hi. rewrite E in Hi. split; [|done]. cbn [fst].
    destruct (decide (st = Ok)) as [->|Hst].
    + apply (configure_ok s c); try done; [apply Hs|apply stack_setup, Hs].
    + pose proof (configure_unchanged s c) as Hu. rewrite E in Hu. cbn [fst snd] in Hu. by rewrite (Hu Hst).
  - split; [split; [done|apply Hs]|done].
Qed.

Lemma net_steps_ok s s' : rtc net_step s s' -> device_ok (interface (stack s)) -> net_ok s ->
  net_ok s' /\ interface (stack s') = interface (stack s).
Proof.
  induction 1 as [|s1 s2 s3 H12 H23 IH]; intros Hd Hs; [done|]. destruct (net_step_ok _ _ H12 Hd Hs) as [H2 E2].
  destruct IH as [H3 E3]; [by rewrite E2|done|]. split; [done|congruence].
Qed.

Lemma find_index_exists {A} (f : A -> bool) l i x : l !! i = Some x -> f x = true -> exists j, find_index f l = Some j.
Proof.
  intros Hx Hf. destruct (find_index f l) as [j|] eqn:E; [by exists j|]. rewrite find_index_None in E. by rewrite (E _ _ Hx) in Hf.
Qed.

Lemma find_neighbor_reachable k i e : stack_ok k -> neighbors k !! i = Some e -> n_state e = Reachable ->
  find_neighbor k (n_ip e) = Some e.
Proof.
  intros Hk He Hr. pose proof (so_table _ Hk) as Ht. pose proof (Forall_lookup_1 _ _ _ _ (tb_entries _ _ _ _ Ht) He) as Hok.
  destruct (find_index_exists (is_reachable_at (n_ip e)) _ _ _ He) as [j Hj].
  { apply is_reachable_at_true; [apply Hok|done|done]. }
  unfold find_neighbor. rewrite Hj. cbn [mbind option_bind]. apply find_index_Some in Hj as [(x & Hx & Hxr) _].
  apply is_reachable_at_true in Hxr as [Hxs Hxi]; [|apply Hok|by apply (Forall_lookup_1 _ _ _ _ (tb_entries _ _ _ _ Ht) Hx)].
  assert (j = i) as ->; [|done]. apply (tb_distinct _ _ _ _ Ht _ _ (n_ip e)); [by exists x|by exists e].
Qed.

(** from a successful configuration on, whatever frames arrive, whatever is
    sent and whatever others do to the memory and the device, the neighbour table
    keeps sixteen well-formed entries of which no two reachable ones have the same
    address; every reachable one holds a unicast address of each kind and is the
    one that [find_neighbor] finds for its address; and the stack's own address is
    always found with the interface's own hardware address, so no frame can
    redirect or evict it. *)
Theorem neighbor_table_invariant s c s1 s2 :
  bytes_ok (mem s) -> setup_ok (stack s) -> device_ok (interface (stack s)) -> ip_ok (c_address c) -> ip_ok (c_gateway c) ->
  configure_ipv4 s c = (s1, Ok) -> rtc net_step s1 s2 ->
  let k := stack s2 in
  length (neighbors k) = NEIGHBOR_TABLE_CAPACITY /\ (1 <= neighbor_eviction_cursor k < NEIGHBOR_TABLE_CAPACITY)%nat /\
  (forall i j ip, reachable_at (neighbors k) i ip -> reachable_at (neighbors k) j ip -> i = j) /\
  (forall i e, neighbors k !! i = Some e -> n_state e = Reachable ->
     ipv4_is_valid_unicast (n_ip e) = true /\ mac_is_valid_unicast (n_mac e) = true /\ find_neighbor k (n_ip e) = Some e) /\
  n_mac <$> find_neighbor k (c_address (config k)) = Some (hardware_address (interface (stack s))).
Proof.
  intros Hm Hk Hd Ha Hg Hc Hsteps k. pose proof (configure_ok s c s1 Hm Hk Ha Hg Hc) as H1.
  pose proof (configure_interface s c) as Hi. rewrite Hc in Hi. cbn [fst] in Hi.
  destruct (net_steps_ok s1 s2 Hsteps) as [H2 E2]; [by rewrite Hi|done|]. destruct H2 as [_ H2]. fold k in H2.
  pose proof (so_table _ H2) as Ht. split; [apply Ht|]. split; [apply Ht|]. split; [apply (tb_distinct _ _ _ _ Ht)|]. split.
  - intros i e He Hr. pose proof (Forall_lookup_1 _ _ _ _ (tb_entries _ _ _ _ Ht) He) as (_ & _ & Hu).
    destruct (Hu Hr). split_and!; [done..|]. by apply (find_neighbor_reachable _ i).
  - destruct (tb_self _ _ _ _ Ht) as [q Hq]. pose proof (find_neighbor_reachable k 0 _ H2 Hq eq_refl) as E.
    cbn [n_ip] in E. rewrite E. unfold k. cbn [fmap option_fmap option_map n_mac]. by rewrite E2, Hi.
Qed.

(** ** What is sent *)

(** The device accepted a frame. *)
Definition sent s (frame : list Z) s' : Prop :=
  exists send, transmit (interface (stack s)) = Some send /\ send (dev s) frame = (dev s', Ok).

Lemma transmit_ok s n s' : transmit_stack_frame s n = (s', Ok) ->
  sent s (load (mem s) (transmit_buffer (stack s)) n) s' /\ mem s' = mem s /\
  exists t, stack s' = set_stats (stack s) t.
Proof.
  unfold transmit_stack_frame, interface_transmit. cbn [mbind option_bind].
  destruct (transmit (interface (stack s))) as [send|] eqn:Es; [|done].
  destruct (_ || _); [done|]. destruct (_ || _ || _); [done|]. destruct (send _ _) as [w st] eqn:Ec.
  destruct st; try done. intros [= <-]. split; [by exists send|]. split; [done|]. by eexists.
Qed.

Lemma send_frame_ok s d t n :
  net_ok s -> mac_ok d -> 0x600 <= t < 2 ^ 16 -> 0 <= n <= ETHERNET_MTU ->
  exists m, send_frame s d t n = transmit_stack_frame (set_mem s m) (ETHERNET_HEADER_SIZE + n) /\ bytes_ok m /\
    load m (transmit_buffer (stack s)) (ETHERNET_HEADER_SIZE + n) =
      ethernet_bytes d (hardware_address (interface (stack s))) t
        (load (mem s) (transmit_buffer (stack s) + ETHERNET_HEADER_SIZE) n) /\
    forall x, ~ (transmit_buffer (stack s) <= x < transmit_buffer (stack s) + (ETHERNET_HEADER_SIZE + n)) -> m x = mem s x.
Proof.
  intros [Hm Hk] Hd Ht Hn. pose proof (so_transmit _ Hk).
  destruct (serialize_ethernet_ok (mem s) d (hardware_address (interface (stack s))) t
    (transmit_buffer (stack s) + ETHERNET_HEADER_SIZE) n (transmit_buffer (stack s)) ETHERNET_MAX_FRAME_SIZE)
    as (m & E & H1 & H2 & H3); [done|done|apply Hk|done|done| |done| |].
  - split; [unfold ETHERNET_HEADER_SIZE; lia|by left].
  - unfold ETHERNET_MAX_FRAME_SIZE. lia.
  - exists m. unfold send_frame. rewrite E. done.
Qed.

(** The header of a packet that the stack sends. *)
Definition own_header k (destination : IPv4Address) (protocol : Z) : IPv4Header :=
  mkIPv4Header (c_address (config k)) destination protocol 64 (next_identification k) true.

Lemma own_header_ok k destination protocol : stack_ok k -> ip_ok destination -> is_u8 protocol ->
  ipv4_header_ok (own_header k destination protocol).
Proof. intros Hk Hd Hp. constructor; cbn; [apply Hk|done|done|split; [word_lia|done]|apply Hk]. Qed.

(** The frame around a transport packet. *)
Definition own_frame k (mac : MacAddress) (destination : IPv4Address) (protocol : Z) (packet : list Z) : list Z :=
  ethernet_bytes mac (hardware_address (interface k)) ETHER_TYPE_IPV4 (ipv4_bytes (own_header k destination protocol) packet).

Lemma send_ipv4_ok s mac destination protocol n s' :
  net_ok s -> mac_ok mac -> ip_ok destination -> is_u8 protocol -> 0 <= n <= ETHERNET_MTU - IPV4_MIN_HEADER_SIZE ->
  send_ipv4 s mac destination protocol n = (s', Ok) ->
  sent s (own_frame (stack s) mac destination protocol
    (load (mem s) (transmit_buffer (stack s) + (ETHERNET_HEADER_SIZE + IPV4_MIN_HEADER_SIZE)) n)) s' /\
  forall x, ~ (transmit_buffer (stack s) <= x < transmit_buffer (stack s) + (ETHERNET_HEADER_SIZE + IPV4_MIN_HEADER_SIZE + n)) ->
    mem s' x = mem s x.
Proof.
  intros Hs Hmac Hd Hp Hn. pose proof (so_transmit _ (proj2 Hs)). unfold send_ipv4. set (tx := transmit_buffer (stack s)) in *.
  change (mem (set_stack s (set_identification (stack s) (u16 (next_identification (stack s) + 1))))) with (mem s).
  fold (own_header (stack s) destination protocol).
  destruct (serialize_ipv4_ok (mem s) (own_header (stack s) destination protocol) (tx + (ETHERNET_HEADER_SIZE + IPV4_MIN_HEADER_SIZE)) n
    (tx + ETHERNET_HEADER_SIZE) ETHERNET_MTU) as (m & E & H1 & H2 & H3);
    [apply Hs|by apply own_header_ok; [apply Hs|..]|unfold ETHERNET_HEADER_SIZE; lia| | |lia|].
  - split; [unfold ETHERNET_HEADER_SIZE, IPV4_MIN_HEADER_SIZE; lia|left; lia].
  - unfold ETHERNET_MTU, UINT16_MAX in *. lia.
  - rewrite E. cbn [negb]. rewrite bool_decide_true by done. cbn [negb default].
    set (s1 := set_mem (set_stack s (set_identification (stack s) (u16 (next_identification (stack s) + 1)))) m).
    assert (net_ok s1) as Hs1.
    { split; [done|]. apply (keeps_identification s (next_identification (stack s) + 1) Hs). }
    destruct (send_frame_ok s1 mac ETHER_TYPE_IPV4 (IPV4_MIN_HEADER_SIZE + n)) as (m' & E' & H1' & H2' & H3');
      [done|done|unfold ETHER_TYPE_IPV4; lia|unfold IPV4_MIN_HEADER_SIZE in *; lia|].
    cbn [fmap option_fmap option_map] in E'. cbn [id from_option]. rewrite E'. intros (Ht & Em & _)%transmit_ok. split.
    + change (stack (set_mem s1 m')) with (stack s1) in Ht. change (transmit_buffer (stack s1)) with tx in *.
      change (mem (set_mem s1 m')) with m' in Ht. rewrite H2' in Ht. change (mem s1) with m in Ht. rewrite H2 in Ht. exact Ht.
    + intros x Hx. rewrite Em. change (transmit_buffer (stack s1)) with tx in *. change (mem (set_mem s1 m')) with m'.
      rewrite H3' by lia. apply H3. unfold ETHERNET_HEADER_SIZE in *. lia.
Qed.

Lemma nthm_resolve_ok s destination mac : snd (resolve_destination s destination) = inr mac ->
  resolve_destination s destination = (s, inr mac).
Proof.
  unfold resolve_destination. case_match; [done|]. case_match; [by intros [= ->]|]. by destruct (send_arp_request _ _).
Qed.

Lemma resolve_mac_ok s destination mac : net_ok s -> ip_ok destination ->
  snd (resolve_destination s destination) = inr mac -> mac_ok mac.
Proof. intros Hs Hd Hr. by apply (proj2 (keeps_resolve s destination Hs Hd)). Qed.

(** Where a transport packet of the given header size goes in the transmit buffer. *)
Definition payload_free k (header payload n : Z) : Prop :=
  payload_place (transmit_buffer k + (ETHERNET_HEADER_SIZE + IPV4_MIN_HEADER_SIZE)) header payload n.

Lemma send_transport_ok s mac destination protocol p n s' :
  net_ok s -> mac_ok mac -> ip_ok destination -> is_u8 protocol -> 0 <= n <= ETHERNET_MTU - IPV4_MIN_HEADER_SIZE ->
  send_transport_packet s mac destination protocol p n = (s', Ok) ->
  sent s (own_frame (stack s) mac destination protocol
    (load (mem s) (transmit_buffer (stack s) + (ETHERNET_HEADER_SIZE + IPV4_MIN_HEADER_SIZE)) n)) s'.
Proof.
  intros Hs Hm Hd Hp Hn. unfold send_transport_packet. destruct (negb _); [done|].
  destruct (send_ipv4 _ _ _ _ _) as [s1 st] eqn:E. destruct (bool_decide (st = Ok)) eqn:Es; [|intros [= _ ->]; by rewrite bool_decide_true in Es].
  apply bool_decide_eq_true in Es as ->. intros [= <-]. apply send_ipv4_ok in E as [Hsent _]; [|done..]. exact Hsent.
Qed.

Lemma send_udp_ok s destination sp dp payload n mac s' :
  net_ok s -> ip_ok destination -> 0 <= sp < 2 ^ 16 -> 0 <= dp < 2 ^ 16 -> 0 <= n ->
  payload_free (stack s) UDP_HEADER_SIZE payload n ->
  snd (resolve_destination s destination) = inr mac ->
  send_udp s destination sp dp payload n = (s', Ok) ->
  port_ok sp /\ port_ok dp /\ n <= UDP_MAX_PAYLOAD /\
  sent s (own_frame (stack s) mac destination IPV4_PROTOCOL_UDP
    (udp_bytes (c_address (config (stack s))) destination sp dp (load (mem s) payload n))) s'.
Proof.
  intros Hs Hd Hsp Hdp Hn Hpl Hr. pose proof (resolve_mac_ok _ _ _ Hs Hd Hr) as Hmac. apply nthm_resolve_ok in Hr. unfold send_udp. rewrite Hr.
  rewrite (so_initialized _ (proj2 Hs)), (so_configured _ (proj2 Hs)). cbn [negb]. destruct (_ || _) eqn:Eg; [done|].
  assert (port_ok sp /\ port_ok dp) as [Hsp' Hdp'] by (unfold port_ok; lia).
  assert (n <= UDP_MAX_PAYLOAD \/ UDP_MAX_PAYLOAD < n) as [Hmax|Hmax] by lia; cycle 1.
  { unfold serialize_udp, valid_port. replace (_ || _ || _ || _ || _) with false; [by replace (UDP_MAX_PAYLOAD <? n) with true by lia|].
    pose proof (so_transmit _ (proj2 Hs)). destruct Hpl as [Hpl _]. unfold port_ok, ETHERNET_HEADER_SIZE, IPV4_MIN_HEADER_SIZE in *. lia. }
  unfold payload_free, UDP_MAX_PAYLOAD in *. pose proof (so_transmit _ (proj2 Hs)).
  set (off := ETHERNET_HEADER_SIZE + IPV4_MIN_HEADER_SIZE) in *.
  destruct (serialize_udp_ok (mem s) (c_address (config (stack s))) destination sp dp payload n (transmit_buffer (stack s) + off)
    (ETHERNET_MAX_FRAME_SIZE - off)) as (m & E & H1 & H2 & H3); try done; try apply Hs;
    try (unfold off, UDP_MAX_PAYLOAD, ETHERNET_MAX_FRAME_SIZE, ETHERNET_HEADER_SIZE, ETHERNET_MTU, IPV4_MIN_HEADER_SIZE, UDP_HEADER_SIZE in *; lia).
  rewrite E. rewrite bool_decide_true by done. cbn [negb default id from_option]. subst off.
  destruct (send_transport_packet _ _ _ _ _ _) as [s1 st] eqn:Et.
  destruct (bool_decide (st = Ok)) eqn:Es; [|intros [= _ ->]; by rewrite bool_decide_true in Es].
  apply bool_decide_eq_true in Es as ->. intros [= <-]. split_and!; [done..|].
  apply send_transport_ok in Et; [|by apply keeps_mem| done|done|unfold IPV4_PROTOCOL_UDP; word_lia|
    unfold ETHERNET_MTU, IPV4_MIN_HEADER_SIZE, UDP_HEADER_SIZE in *; lia].
  change (stack (set_mem s m)) with (stack s) in Et. change (mem (set_mem s m)) with m in Et. rewrite H2 in Et. exact Et.
Qed.

Lemma send_tcp_ok s destination f payload n mac s' :
  net_ok s -> ip_ok destination -> 0 <= f_source_port f < 2 ^ 16 -> 0 <= f_destination_port f < 2 ^ 16 ->
  is_u32 (f_sequence f) -> is_u32 (f_acknowledgement f) -> is_u8 (f_flags f) -> 0 <= f_window f < 2 ^ 16 -> 0 <= n ->
  payload_free (stack s) TCP_MIN_HEADER_SIZE payload n ->
  snd (resolve_destination s destination) = inr mac ->
  send_tcp s destination (f_source_port f) (f_destination_port f) (f_sequence f) (f_acknowledgement f) (f_flags f) (f_window f)
    payload n = (s', Ok) ->
  tcp_fields_ok f /\ n <= TCP_MAX_PAYLOAD /\
  sent s (own_frame (stack s) mac destination IPV4_PROTOCOL_TCP
    (tcp_bytes (c_address (config (stack s))) destination f (load (mem s) payload n))) s'.
Proof.
  intros Hs Hd Hsp Hdp Hsq Hak Hfl Hwn Hn Hpl Hr. pose proof (resolve_mac_ok _ _ _ Hs Hd Hr) as Hmac. apply nthm_resolve_ok in Hr.
  unfold send_tcp. rewrite Hr. rewrite (so_initialized _ (proj2 Hs)), (so_configured _ (proj2 Hs)). cbn [negb]. destruct (_ || _) eqn:Eg; [done|].
  assert (tcp_fields_ok f) as Hf by (constructor; try done; unfold port_ok; lia).
  assert (n <= TCP_MAX_PAYLOAD \/ TCP_MAX_PAYLOAD < n) as [Hmax|Hmax] by lia; cycle 1.
  { unfold serialize_tcp, valid_port. replace (_ || _ || _ || _ || _) with false; [by replace (TCP_MAX_PAYLOAD <? n) with true by lia|].
    pose proof (so_transmit _ (proj2 Hs)). destruct Hpl as [Hpl _]. unfold ETHERNET_HEADER_SIZE, IPV4_MIN_HEADER_SIZE in *. lia. }
  unfold payload_free, TCP_MAX_PAYLOAD in *. pose proof (so_transmit _ (proj2 Hs)).
  set (off := ETHERNET_HEADER_SIZE + IPV4_MIN_HEADER_SIZE) in *.
  destruct (serialize_tcp_ok (mem s) (c_address (config (stack s))) destination f payload n (transmit_buffer (stack s) + off)
    (ETHERNET_MAX_FRAME_SIZE - off)) as (m & E & H1 & H2 & H3); try done; try apply Hs;
    try (unfold off, TCP_MAX_PAYLOAD, ETHERNET_MAX_FRAME_SIZE, ETHERNET_HEADER_SIZE, ETHERNET_MTU, IPV4_MIN_HEADER_SIZE, TCP_MIN_HEADER_SIZE in *; lia).
  rewrite E. rewrite bool_decide_true by done. cbn [negb default id from_option]. subst off.
  destruct (send_transport_packet _ _ _ _ _ _) as [s1 st] eqn:Et.
  destruct (bool_decide (st = Ok)) eqn:Es; [|intros [= _ ->]; by rewrite bool_decide_true in Es].
  apply bool_decide_eq_true in Es as ->. intros [= <-]. split_and!; [done..|].
  apply send_transport_ok in Et; [|by apply keeps_mem| done|done|unfold IPV4_PROTOCOL_TCP; word_lia|
    unfold ETHERNET_MTU, IPV4_MIN_HEADER_SIZE, TCP_MIN_HEADER_SIZE in *; lia].
  change (stack (set_mem s m)) with (stack s) in Et. change (mem (set_mem s m)) with m in Et. rewrite H2 in Et. exact Et.
Qed.

Lemma send_icmp_ok s mac destination type identifier sequence payload n s' :
  net_ok s -> mac_ok mac -> ip_ok destination -> 0 <= n ->
  payload_free (stack s) ICMP_ECHO_HEADER_SIZE payload n ->
  send_icmp s mac destination type identifier sequence payload n = (s', Ok) ->
  n <= ICMP_ECHO_MAX_PAYLOAD /\
  sent s (own_frame (stack s) mac destination IPV4_PROTOCOL_ICMP (icmp_bytes type identifier sequence (load (mem s) payload n))) s'.
Proof.
  intros Hs Hmac Hd Hn Hpl. unfold send_icmp. destruct (Z.ltb_spec ICMP_ECHO_MAX_PAYLOAD n); [done|].
  unfold payload_free in *. pose proof (so_transmit _ (proj2 Hs)). set (off := ETHERNET_HEADER_SIZE + IPV4_MIN_HEADER_SIZE) in *.
  destruct (serialize_icmp_echo_ok (mem s) type identifier sequence payload n (transmit_buffer (stack s) + off)
    (ETHERNET_MAX_FRAME_SIZE - off)) as (m & E & H1 & H2 & H3); try done; try apply Hs;
    try (unfold off, ICMP_ECHO_MAX_PAYLOAD, ETHERNET_MAX_FRAME_SIZE, ETHERNET_HEADER_SIZE, ETHERNET_MTU, IPV4_MIN_HEADER_SIZE, ICMP_ECHO_HEADER_SIZE in *; lia).
  rewrite E. rewrite bool_decide_true by done. cbn [negb default id from_option]. subst off.
  destruct (send_ipv4 _ _ _ _ _) as [s1 st] eqn:Et.
  destruct (bool_decide (st = Ok)) eqn:Es; [|intros [= _ ->]; by rewrite bool_decide_true in Es].
  apply bool_decide_eq_true in Es as ->. cbn [negb]. intros E2. split; [done|].
  apply send_ipv4_ok in Et as [Et _]; [|by apply keeps_mem| done|done|unfold IPV4_PROTOCOL_ICMP; word_lia|
    unfold ICMP_ECHO_MAX_PAYLOAD, ETHERNET_MTU, IPV4_MIN_HEADER_SIZE, ICMP_ECHO_HEADER_SIZE in *; lia].
  change (stack (set_mem s m)) with (stack s) in Et. change (mem (set_mem s m)) with m in Et. rewrite H2 in Et.
  destruct type; cbn in E2; injection E2 as <-; exact Et.
Qed.

(** ** What is received *)

Lemma update_neighbor_accepts s ip mac : ipv4_is_valid_unicast ip = true -> mac_is_valid_unicast mac = true ->
  ipv4_equal ip (c_address (config (stack s))) = false -> snd (update_neighbor s ip mac) = Ok.
Proof.
  intros Hu Hm Hne. unfold update_neighbor. rewrite Hu, Hm, Hne, andb_false_r. cbn [negb orb andb].
  case_match; [done|]. by destruct (find_index (fun e => _) _).
Qed.

(** A well-formed IPv4 frame for the stack reaches the protocols. *)
Lemma receive_ipv4_ok s f mac h packet n :
  net_ok s -> 0 < f -> mac_ok mac -> mac_is_valid_unicast mac = true -> ipv4_header_ok h ->
  h_destination h = c_address (config (stack s)) -> ipv4_is_valid_unicast (h_source h) = true -> h_source h ≠ h_destination h ->
  0 <= n <= ETHERNET_MTU - IPV4_MIN_HEADER_SIZE ->
  load (mem s) f (ETHERNET_HEADER_SIZE + (IPV4_MIN_HEADER_SIZE + n)) =
    ethernet_bytes (hardware_address (interface (stack s))) mac ETHER_TYPE_IPV4 (ipv4_bytes h packet) ->
  exists l cursor q t,
    let s1 := set_stack s (set_stats (set_neighbors (stack s) l cursor q) t) in
    let p := f + ETHERNET_HEADER_SIZE + IPV4_MIN_HEADER_SIZE in
    let e := mkEthernetView (hardware_address (interface (stack s))) mac ETHER_TYPE_IPV4 (f + ETHERNET_HEADER_SIZE) (IPV4_MIN_HEADER_SIZE + n) in
    let v := mkIPv4View (h_source h) (h_destination h) (h_protocol h) (h_ttl h) (h_identification h) (h_dont_fragment h) p n IPV4_MIN_HEADER_SIZE in
    net_ok s1 /\ load (mem s) p n = packet /\
    (exists i q', l !! i = Some (mkNeighbor Reachable (h_source h) mac q')) /\
    receive s f (ETHERNET_HEADER_SIZE + (IPV4_MIN_HEADER_SIZE + n)) =
      (let '(s2, status) :=
         if h_protocol h =? IPV4_PROTOCOL_UDP then handle_udp s1 v
         else if h_protocol h =? IPV4_PROTOCOL_TCP then handle_tcp s1 v
         else if negb (h_protocol h =? IPV4_PROTOCOL_ICMP) then (s1, UnsupportedProtocol) else handle_icmp s1 e v in
       (if bool_decide (status = Ok) then s2 else record_receive_failure s2 status, status)).
Proof.
  intros Hs Hf Hmac Hum Hh Hdst Husrc Hne Hn Hl. pose proof Hs as [Hm Hk].
  destruct (parse_ethernet_ok (mem s) f (hardware_address (interface (stack s))) mac ETHER_TYPE_IPV4 (ipv4_bytes h packet)
    (IPV4_MIN_HEADER_SIZE + n)) as [E1 Hp1]; try done; [apply Hk|unfold IPV4_MIN_HEADER_SIZE in *; lia|].
  destruct (parse_ipv4_ok (mem s) (f + ETHERNET_HEADER_SIZE) h packet n (IPV4_MIN_HEADER_SIZE + n)) as [E2 Hp2]; try done;
    [unfold ETHERNET_HEADER_SIZE; lia|lia|unfold ETHERNET_MTU, UINT16_MAX in *; lia|].
  set (s0 := count ipv4_received (count_by bytes_received (ETHERNET_HEADER_SIZE + (IPV4_MIN_HEADER_SIZE + n)) (count frames_received s))).
  assert (net_ok s0) as Hs0 by (by do 3 (apply keeps_count)).
  destruct (update_neighbor_ok s0 (h_source h) mac (proj2 Hs0) (ho_source _ Hh) Hmac) as (l & c & q & t & st & E3 & Ht & _ & Hin).
  assert (ipv4_equal (h_source h) (c_address (config (stack s))) = false) as Hneq.
  { apply not_true_iff_false. intros Heq. apply Hne. rewrite Hdst. apply ipv4_equal_iff; [apply Hh|apply Hk|done]. }
  pose proof (update_neighbor_accepts s0 (h_source h) mac Husrc Hum Hneq) as Hst. rewrite E3 in Hst. cbn [snd] in Hst. subst st.
  exists l, c, q, t. split; [by apply (keeps_table s0 l c q t Hs0 Ht)|]. split; [done|]. split; [by apply Hin|].
  unfold receive. rewrite (so_initialized _ Hk), (so_configured _ Hk). cbn [negb].
  replace ((f =? 0) || _) with false by (unfold ETHERNET_HEADER_SIZE, IPV4_MIN_HEADER_SIZE; lia). cbn [mem set_stack set_mem count count_by].
  rewrite E1. cbn [ef_destination ef_source ef_ether_type ef_payload ef_payload_length]. rewrite mac_equal_refl. cbn [negb andb].
  rewrite Hum. cbn [negb]. change (ETHER_TYPE_IPV4 =? ETHER_TYPE_ARP) with false. change (ETHER_TYPE_IPV4 =? ETHER_TYPE_IPV4) with true.
  unfold handle_ipv4. cbn [mem set_stack set_mem count count_by ef_payload ef_payload_length]. rewrite E2. cbn [ip_destination ip_source ip_protocol ef_source].
  change (c_address (config (stack (count_by ?a ?b ?s)))) with (c_address (config (stack s))).
  rewrite Hdst. match goal with |- context [ipv4_equal ?a ?b] => change (ipv4_equal a b) with (ipv4_equal a a) end.
  rewrite ipv4_equal_refl, Husrc. cbn [negb]. 
  match goal with |- context [update_neighbor ?a _ _] => change a with s0 end. rewrite E3. rewrite <- Hdst. reflexivity.
Qed.

Lemma ipv4_bytes_length h packet : ipv4_header_ok h -> Z.of_nat (length (ipv4_bytes h packet)) = IPV4_MIN_HEADER_SIZE + Z.of_nat (length packet).
Proof.
  intros [[H1 _] [H2 _] _ _ _]. unfold ipv4_bytes, ipv4_header. rewrite !length_app, H1, H2. cbn [length be16].
  unfold IPV4_MIN_HEADER_SIZE. lia.
Qed.

Lemma own_frame_length k mac destination protocol packet : stack_ok k -> mac_ok mac -> ip_ok destination -> is_u8 protocol ->
  Z.of_nat (length (own_frame k mac destination protocol packet)) = ETHERNET_HEADER_SIZE + (IPV4_MIN_HEADER_SIZE + Z.of_nat (length packet)).
Proof.
  intros Hk [Hm _] Hd Hp. pose proof (ipv4_bytes_length _ packet (own_header_ok k destination protocol Hk Hd Hp)) as Hl.
  pose proof (proj1 (so_mac _ Hk)) as Hhw. unfold own_frame, ethernet_bytes. rewrite !length_app. cbn [length be16].
  unfold ETHERNET_HEADER_SIZE. lia.
Qed.

Lemma handle_udp_ok s v sp dp bytes n :
  net_ok s -> ip_ok (ip_source v) -> ip_ok (ip_destination v) -> port_ok sp -> port_ok dp -> 0 < ip_payload v -> 0 <= n <= UDP_MAX_PAYLOAD ->
  ip_payload_length v = UDP_HEADER_SIZE + n ->
  load (mem s) (ip_payload v) (UDP_HEADER_SIZE + n) = udp_bytes (ip_source v) (ip_destination v) sp dp bytes ->
  handle_udp s v = (count udp_received (set_stack s (set_inboxes (stack s) (last_ping_reply (stack s))
    (mkUdpDatagram true (ip_source v) (ip_destination v) sp dp (inbox bytes) n) (last_tcp_segment (stack s)))), Ok).
Proof.
  intros Hs H1 H2 Hsp Hdp Hp Hn Hlen Hl. destruct (parse_udp_ok (mem s) (ip_source v) (ip_destination v) (ip_payload v) sp dp bytes n)
    as [E Hb]; try done; [apply Hs|]. unfold handle_udp. rewrite Hlen, E. cbn [ud_payload_length ud_payload ud_source_port ud_destination_port].
  rewrite Hb. replace (TRANSPORT_INBOX_CAPACITY <? n) with false; [done|].
  unfold TRANSPORT_INBOX_CAPACITY, UDP_MAX_PAYLOAD, ETHERNET_MTU, IPV4_MIN_HEADER_SIZE, UDP_HEADER_SIZE in *. lia.
Qed.

Lemma handle_tcp_ok s v f bytes n :
  net_ok s -> ip_ok (ip_source v) -> ip_ok (ip_destination v) -> tcp_fields_ok f -> 0 < ip_payload v -> 0 <= n <= TCP_MAX_PAYLOAD ->
  ip_payload_length v = TCP_MIN_HEADER_SIZE + n ->
  load (mem s) (ip_payload v) (TCP_MIN_HEADER_SIZE + n) = tcp_bytes (ip_source v) (ip_destination v) f bytes ->
  handle_tcp s v = (count tcp_received (set_stack s (set_inboxes (stack s) (last_ping_reply (stack s)) (last_udp_datagram (stack s))
    (mkTcpSegment true (ip_source v) (ip_destination v) (f_source_port f) (f_destination_port f) (f_sequence f) (f_acknowledgement f)
       (f_flags f) (f_window f) (inbox bytes) n))), Ok).
Proof.
  intros Hs H1 H2 Hf Hp Hn Hlen Hl. destruct (parse_tcp_ok (mem s) (ip_source v) (ip_destination v) (ip_payload v) f bytes n)
    as [E Hb]; try done; [apply Hs|]. unfold handle_tcp. rewrite Hlen, E.
  cbn [tc_payload_length tc_payload tc_source_port tc_destination_port tc_sequence tc_acknowledgement tc_flags tc_window].
  rewrite Hb. replace (TRANSPORT_INBOX_CAPACITY <? n) with false; [done|].
  unfold TRANSPORT_INBOX_CAPACITY, TCP_MAX_PAYLOAD, ETHERNET_MTU, IPV4_MIN_HEADER_SIZE, TCP_MIN_HEADER_SIZE in *. lia.
Qed.

End stacks.

(** ** From one stack to another *)

(** A frame as a device delivers it into memory. *)
Definition arrived {V} (s : Net V) (at_ : Z) (frame : list Z) : Prop :=
  0 < at_ /\ load (mem s) at_ (Z.of_nat (length frame)) = frame.

(** A frame that [A] addressed to [B], at [B]. *)
Lemma own_frame_arrives {W V} (A : Net W) (B : Net V) at_ destination protocol packet :
  net_ok A -> net_ok B -> ip_ok destination -> is_u8 protocol ->
  c_address (config (stack B)) = destination -> c_address (config (stack A)) ≠ destination ->
  Z.of_nat (length packet) <= ETHERNET_MTU - IPV4_MIN_HEADER_SIZE ->
  arrived B at_ (own_frame (stack A) (hardware_address (interface (stack B))) destination protocol packet) ->
  let n := Z.of_nat (length packet) in
  let h := own_header (stack A) destination protocol in
  let mac := hardware_address (interface (stack A)) in
  exists l cursor q t,
    let s1 := set_stack B (set_stats (set_neighbors (stack B) l cursor q) t) in
    let p := at_ + ETHERNET_HEADER_SIZE + IPV4_MIN_HEADER_SIZE in
    let e := mkEthernetView (hardware_address (interface (stack B))) mac ETHER_TYPE_IPV4 (at_ + ETHERNET_HEADER_SIZE) (IPV4_MIN_HEADER_SIZE + n) in
    let v := mkIPv4View (c_address (config (stack A))) destination protocol 64 (h_identification h) true p n IPV4_MIN_HEADER_SIZE in
    net_ok s1 /\ load (mem B) p n = packet /\
    (exists i q', l !! i = Some (mkNeighbor Reachable (c_address (config (stack A))) mac q')) /\
    receive B at_ (Z.of_nat (length (own_frame (stack A) (hardware_address (interface (stack B))) destination protocol packet))) =
      (let '(s2, status) :=
         if protocol =? IPV4_PROTOCOL_UDP then handle_udp s1 v
         else if protocol =? IPV4_PROTOCOL_TCP then handle_tcp s1 v
         else if negb (protocol =? IPV4_PROTOCOL_ICMP) then (s1, UnsupportedProtocol) else handle_icmp s1 e v in
       (if bool_decide (status = Ok) then s2 else record_receive_failure s2 status, status)).
Proof.
  intros HA HB Hd Hp Hdst Hne Hlen [Hat Hl] n h mac. rewrite own_frame_length in Hl |- * by (done || apply HA || apply HB).
  assert (ipv4_header_ok h) as Hh by (apply own_header_ok; [apply HA|done..]).
  apply (receive_ipv4_ok B at_ mac h packet n HB Hat); try done; try apply HA; unfold n; lia.
Qed.

Lemma receive_keeps {W} (s s' : Net W) f n st : net_ok s -> receive s f n = (s', st) -> net_ok s'.
Proof. intros Hs E. pose proof (keeps_receive s f n Hs) as [Hk _]. by rewrite E in Hk. Qed.

(** C22: a datagram that one stack sends to another arrives unchanged.  When A's
    [send_udp] succeeds with B's hardware address resolved, A's device accepted
    one frame; and when B gets that frame, whatever is in the rest of its memory,
    [receive] accepts it without touching its memory or its device, B's inbox holds
    A's address, the ports and exactly the bytes that were in A's memory, and B
    knows A's hardware address. *)
Theorem udp_delivered {W V} (A A' : Net W) (B : Net V) destination sp dp payload n :
  net_ok A -> net_ok B -> ip_ok destination -> 0 <= sp < 2 ^ 16 -> 0 <= dp < 2 ^ 16 -> 0 <= n ->
  payload_free (stack A) UDP_HEADER_SIZE payload n ->
  c_address (config (stack B)) = destination -> c_address (config (stack A)) ≠ destination ->
  snd (resolve_destination A destination) = inr (hardware_address (interface (stack B))) ->
  send_udp A destination sp dp payload n = (A', Ok) ->
  exists frame, sent A frame A' /\
    forall at_, arrived B at_ frame -> exists B',
      receive B at_ (Z.of_nat (length frame)) = (B', Ok) /\ mem B' = mem B /\ dev B' = dev B /\ net_ok B' /\
      last_udp_datagram (stack B') =
        mkUdpDatagram true (c_address (config (stack A))) destination sp dp (inbox (load (mem A) payload n)) n /\
      n_mac <$> find_neighbor (stack B') (c_address (config (stack A))) = Some (hardware_address (interface (stack A))).
Proof.
  intros HA HB Hd Hsp Hdp Hn Hpl Hdst Hne Hr Hsend.
  destruct (send_udp_ok A destination sp dp payload n _ A' HA Hd Hsp Hdp Hn Hpl Hr Hsend) as (Hsp' & Hdp' & Hmax & Hsent).
  set (bytes := load (mem A) payload n) in *. assert (Z.of_nat (length bytes) = n) as Hlb by (unfold bytes; apply load_length; lia).
  set (packet := udp_bytes (c_address (config (stack A))) destination sp dp bytes) in *.
  assert (Z.of_nat (length packet) = UDP_HEADER_SIZE + n) as Hlp.
  { unfold packet, udp_bytes. rewrite length_app. change (length (udp_header _ _ _ _)) with 8%nat. unfold UDP_HEADER_SIZE. lia. }
  eexists. split; [exact Hsent|]. intros at_ Harr.
  destruct (own_frame_arrives A B at_ destination IPV4_PROTOCOL_UDP packet) as (l & c & q & t & Hs1 & Hload & (i & q' & Hi) & E); try done.
  { unfold UDP_MAX_PAYLOAD, ETHERNET_MTU, IPV4_MIN_HEADER_SIZE, UDP_HEADER_SIZE in *. lia. }
  change (IPV4_PROTOCOL_UDP =? IPV4_PROTOCOL_UDP) with true in E. rewrite Hlp in E, Hload.
  rewrite (handle_udp_ok _ _ sp dp bytes n) in E; try done; try apply HA;
    [|cbn; destruct Harr; unfold ETHERNET_HEADER_SIZE, IPV4_MIN_HEADER_SIZE; lia].
  rewrite bool_decide_true in E by done. pose proof (receive_keeps _ _ _ _ _ HB E) as Hk.
  eexists. split; [exact E|]. split; [done|]. split; [done|]. split; [exact Hk|]. split; [done|].
  pose proof (find_neighbor_reachable _ i _ (proj2 Hk) Hi eq_refl) as Hf. cbn [n_ip] in Hf. by rewrite Hf.
Qed.

(** The same for a segment. *)
Lemma tcp_delivered {W V} (A A' : Net W) (B : Net V) destination f payload n :
  net_ok A -> net_ok B -> ip_ok destination -> 0 <= f_source_port f < 2 ^ 16 -> 0 <= f_destination_port f < 2 ^ 16 ->
  is_u32 (f_sequence f) -> is_u32 (f_acknowledgement f) -> is_u8 (f_flags f) -> 0 <= f_window f < 2 ^ 16 -> 0 <= n ->
  payload_free (stack A) TCP_MIN_HEADER_SIZE payload n ->
  c_address (config (stack B)) = destination -> c_address (config (stack A)) ≠ destination ->
  snd (resolve_destination A destination) = inr (hardware_address (interface (stack B))) ->
  send_tcp A destination (f_source_port f) (f_destination_port f) (f_sequence f) (f_acknowledgement f) (f_flags f) (f_window f)
    payload n = (A', Ok) ->
  exists frame, sent A frame A' /\
    forall at_, arrived B at_ frame -> exists B',
      receive B at_ (Z.of_nat (length frame)) = (B', Ok) /\ mem B' = mem B /\ dev B' = dev B /\ net_ok B' /\
      last_tcp_segment (stack B') =
        mkTcpSegment true (c_address (config (stack A))) destination (f_source_port f) (f_destination_port f) (f_sequence f)
          (f_acknowledgement f) (f_flags f) (f_window f) (inbox (load (mem A) payload n)) n.
Proof.
  intros HA HB Hd Hsp Hdp Hsq Hak Hfl Hwn Hn Hpl Hdst Hne Hr Hsend.
  destruct (send_tcp_ok A destination f payload n _ A' HA Hd Hsp Hdp Hsq Hak Hfl Hwn Hn Hpl Hr Hsend) as (Hf & Hmax & Hsent).
  set (bytes := load (mem A) payload n) in *. assert (Z.of_nat (length bytes) = n) as Hlb by (unfold bytes; apply load_length; lia).
  set (packet := tcp_bytes (c_address (config (stack A))) destination f bytes) in *.
  assert (Z.of_nat (length packet) = TCP_MIN_HEADER_SIZE + n) as Hlp.
  { unfold packet, tcp_bytes. rewrite length_app. change (length (tcp_header _ _)) with 20%nat. unfold TCP_MIN_HEADER_SIZE. lia. }
  eexists. split; [exact Hsent|]. intros at_ Harr.
  destruct (own_frame_arrives A B at_ destination IPV4_PROTOCOL_TCP packet) as (l & c & q & t & Hs1 & Hload & _ & E); try done.
  { unfold TCP_MAX_PAYLOAD, ETHERNET_MTU, IPV4_MIN_HEADER_SIZE, TCP_MIN_HEADER_SIZE in *. lia. }
  change (IPV4_PROTOCOL_TCP =? IPV4_PROTOCOL_UDP) with false in E. change (IPV4_PROTOCOL_TCP =? IPV4_PROTOCOL_TCP) with true in E.
  rewrite Hlp in E, Hload.
  rewrite (handle_tcp_ok _ _ f bytes n) in E; try done; try apply HA;
    [|cbn; destruct Harr; unfold ETHERNET_HEADER_SIZE, IPV4_MIN_HEADER_SIZE; lia].
  rewrite bool_decide_true in E by done. pose proof (receive_keeps _ _ _ _ _ HB E) as Hk.
  eexists. split; [exact E|]. by repeat split; try apply Hk.
Qed.

Lemma icmp_bytes_length type identifier sequence bytes :
  Z.of_nat (length (icmp_bytes type identifier sequence bytes)) = ICMP_ECHO_HEADER_SIZE + Z.of_nat (length bytes).
Proof. unfold icmp_bytes. rewrite length_app. change (length (icmp_header _ _ _ _)) with 8%nat. unfold ICMP_ECHO_HEADER_SIZE. lia. Qed.

(** An echo message from [A] at [B]. *)
Lemma icmp_arrives {W V} (A : Net W) (B : Net V) at_ destination type identifier sequence bytes :
  net_ok A -> net_ok B -> ip_ok destination -> Z.of_nat (length bytes) <= ICMP_ECHO_MAX_PAYLOAD ->
  0 <= identifier < 2 ^ 16 -> 0 <= sequence < 2 ^ 16 ->
  c_address (config (stack B)) = destination -> c_address (config (stack A)) ≠ destination ->
  let frame := own_frame (stack A) (hardware_address (interface (stack B))) destination IPV4_PROTOCOL_ICMP
                 (icmp_bytes type identifier sequence bytes) in
  arrived B at_ frame ->
  let p := at_ + ETHERNET_HEADER_SIZE + IPV4_MIN_HEADER_SIZE + ICMP_ECHO_HEADER_SIZE in
  let n := Z.of_nat (length bytes) in
  load (mem B) p n = bytes /\
  exists l cursor q t,
    let s1 := set_stack B (set_stats (set_neighbors (stack B) l cursor q) t) in
    net_ok s1 /\
    receive B at_ (Z.of_nat (length frame)) =
      (let '(s2, status) :=
         match type with
         | EchoRequest => send_icmp s1 (hardware_address (interface (stack A))) (c_address (config (stack A))) EchoReply
             identifier sequence p n
         | EchoReply => (set_stack s1 (set_inboxes (stack s1) (mkPingReply true (c_address (config (stack A))) identifier sequence n)
             (last_udp_datagram (stack s1)) (last_tcp_segment (stack s1))), Ok)
         end in
       (if bool_decide (status = Ok) then s2 else record_receive_failure s2 status, status)).
Proof.
  intros HA HB Hd Hmax Hid Hsq Hdst Hne frame Harr p n.
  pose proof (icmp_bytes_length type identifier sequence bytes) as Hlp. set (packet := icmp_bytes type identifier sequence bytes) in *.
  destruct (own_frame_arrives A B at_ destination IPV4_PROTOCOL_ICMP packet) as (l & c & q & t & Hs1 & Hload & _ & E); try done.
  { unfold ICMP_ECHO_MAX_PAYLOAD, ETHERNET_MTU, IPV4_MIN_HEADER_SIZE, ICMP_ECHO_HEADER_SIZE in *. lia. }
  change (IPV4_PROTOCOL_ICMP =? IPV4_PROTOCOL_UDP) with false in E. change (IPV4_PROTOCOL_ICMP =? IPV4_PROTOCOL_TCP) with false in E.
  change (negb (IPV4_PROTOCOL_ICMP =? IPV4_PROTOCOL_ICMP)) with false in E. rewrite Hlp in E, Hload. destruct Harr as [Hat _].
  destruct (parse_icmp_echo_ok (mem B) (at_ + ETHERNET_HEADER_SIZE + IPV4_MIN_HEADER_SIZE) type identifier sequence bytes n)
    as [Ep Hb]; try done; [apply HB|unfold ETHERNET_HEADER_SIZE, IPV4_MIN_HEADER_SIZE; lia|unfold n; lia|].
  split; [exact Hb|]. unfold handle_icmp in E. cbn [ip_payload ip_payload_length ip_source ef_source mem set_stack] in E. fold n in E.
  rewrite Ep in E. cbn [ic_type ic_identifier ic_sequence ic_payload ic_payload_length] in E.
  destruct type; rewrite ?bool_decide_true, ?bool_decide_false in E by done.
  - eexists l, c, q, _. split; [exact (proj1 (keeps_stats _ _ Hs1))|exact E].
  - eexists l, c, q, _. split; [exact (proj1 (keeps_stats _ _ Hs1))|exact E].
Qed.

(** a ping comes back.  When A's [send_ping] succeeds with B's hardware address
    resolved, A's device accepted one request; when B, whose transmit buffer is
    apart from the received frame, accepts that request, B's device accepted one
    reply; and when the reply reaches A later, with whatever A did in between, A
    accepts it and its last ping reply says that B answered this identifier and
    this sequence number with a payload of this length. *)
Theorem ping_roundtrip {W V} (A A' : Net W) (B : Net V) destination identifier sequence payload n :
  net_ok A -> net_ok B -> ip_ok destination -> 0 <= identifier < 2 ^ 16 -> 0 <= sequence < 2 ^ 16 -> 0 <= n ->
  payload_free (stack A) ICMP_ECHO_HEADER_SIZE payload n ->
  c_address (config (stack B)) = destination -> c_address (config (stack A)) ≠ destination ->
  snd (resolve_destination A destination) = inr (hardware_address (interface (stack B))) ->
  send_ping A destination identifier sequence payload n = (A', Ok) ->
  exists request, sent A request A' /\
    forall at_ B', arrived B at_ request ->
      payload_free (stack B) ICMP_ECHO_HEADER_SIZE (at_ + ETHERNET_HEADER_SIZE + IPV4_MIN_HEADER_SIZE + ICMP_ECHO_HEADER_SIZE) n ->
      receive B at_ (Z.of_nat (length request)) = (B', Ok) ->
      exists reply, sent B reply B' /\
        forall (A2 : Net W) at2, net_ok A2 -> same_setup (stack A) (stack A2) -> arrived A2 at2 reply -> exists A3,
          receive A2 at2 (Z.of_nat (length reply)) = (A3, Ok) /\ dev A3 = dev A2 /\ mem A3 = mem A2 /\
          last_ping_reply (stack A3) = mkPingReply true destination identifier sequence n.
Proof.
  intros HA HB Hd Hid Hsq Hn Hpl Hdst Hne Hr. pose proof (resolve_mac_ok _ _ _ HA Hd Hr) as Hmac. apply nthm_resolve_ok in Hr.
  unfold send_ping. rewrite (so_initialized _ (proj2 HA)), (so_configured _ (proj2 HA)), Hr. cbn [negb].
  destruct (_ || _); [done|]. destruct (_ <? n); [done|]. intros Hsend.
  apply send_icmp_ok in Hsend as [Hmax Hsent]; [|done..]. eexists. split; [exact Hsent|]. intros at_ B' Harr Hfree Erecv.
  set (bytes := load (mem A) payload n) in *. assert (Z.of_nat (length bytes) = n) as Hlb by (unfold bytes; apply load_length; lia).
  destruct (icmp_arrives A B at_ destination EchoRequest identifier sequence bytes) as (Hload & l & c & q & t & Hs1 & E); try done; [lia|].
  rewrite E in Erecv. clear E. rewrite Hlb in Erecv, Hload.
  destruct (send_icmp _ _ _ _ _ _ _ _) as [s2 st] eqn:Es. injection Erecv as E2 ->. rewrite bool_decide_true in E2 by done. subst s2.
  apply send_icmp_ok in Es as [_ Hreply]; [|done|apply HA|apply HA|done|done]. eexists. split; [exact Hreply|].
  intros A2 at2 HA2 (Ei & Ec & _) Harr2. cbn [mem set_stack] in Hreply, Harr2 |- *. rewrite Hload in *.
  destruct (icmp_arrives B A2 at2 (c_address (config (stack A))) EchoReply identifier sequence bytes) as (_ & l' & c' & q' & t' & _ & E);
    try done; [apply HA|lia|by rewrite Ec|by rewrite Hdst|by rewrite Ei|].
  rewrite Ei in E. rewrite bool_decide_true in E by done. eexists. split; [exact E|]. rewrite Hlb. cbn. by rewrite Hdst.
Qed.

(** ** Address resolution *)

Definition arp_frame (destination source : MacAddress) (p : ArpPacket) : list Z :=
  ethernet_bytes destination source ETHER_TYPE_ARP (arp_bytes p).

Lemma arp_bytes_length p : arp_ok p -> Z.of_nat (length (arp_bytes p)) = ARP_PACKET_SIZE.
Proof.
  intros ([H1 _] & [H2 _] & [H3 _] & [H4 _]). unfold arp_bytes. rewrite !length_app, H1, H2, H3, H4. reflexivity.
Qed.

Lemma arp_frame_length d src p : mac_ok d -> mac_ok src -> arp_ok p ->
  Z.of_nat (length (arp_frame d src p)) = ETHERNET_HEADER_SIZE + ARP_PACKET_SIZE.
Proof.
  intros [Hd _] [Hs _] Hp. pose proof (arp_bytes_length p Hp). unfold arp_frame, ethernet_bytes. rewrite !length_app, Hd, Hs.
  cbn [length be16]. unfold ETHERNET_HEADER_SIZE. lia.
Qed.

Lemma send_arp_ok {W} (s s' : Net W) d p :
  net_ok s -> mac_ok d -> arp_ok p -> send_arp_packet s d p = (s', Ok) ->
  sent s (arp_frame d (hardware_address (interface (stack s))) p) s' /\ net_ok s' /\
  same_setup (stack s) (stack s') /\ neighbors (stack s') = neighbors (stack s).
Proof.
  intros Hs Hd Hp E. pose proof (keeps_send_arp_packet s d p Hs Hd Hp) as Hk. rewrite E in Hk. destruct Hk as [Hk1 Hk2].
  unfold send_arp_packet in E. pose proof (so_transmit _ (proj2 Hs)).
  destruct (serialize_arp_ok (mem s) p (transmit_buffer (stack s) + ETHERNET_HEADER_SIZE) ETHERNET_MTU) as (m & Es & H1 & H2 & H3);
    [apply Hs|done|unfold ETHERNET_HEADER_SIZE; lia|done|].
  rewrite Es, bool_decide_true in E by done. cbn [negb default id from_option] in E.
  destruct (send_frame _ _ _ _) as [s1 st] eqn:Ef. destruct (bool_decide (st = Ok)) eqn:Est; [|injection E as _ ->; by rewrite bool_decide_true in Est].
  apply bool_decide_eq_true in Est as ->. injection E as <-.
  destruct (send_frame_ok (set_mem s m) d ETHER_TYPE_ARP ARP_PACKET_SIZE) as (m' & E' & H1' & H2' & _);
    [by apply keeps_mem|done|unfold ETHER_TYPE_ARP; lia|unfold ARP_PACKET_SIZE, ETHERNET_MTU; lia|].
  rewrite E' in Ef. apply transmit_ok in Ef as (Ht & _ & t & Et). split; [|split; [done|split; [done|]]].
  - change (transmit_buffer (stack (set_mem (set_mem s m) m'))) with (transmit_buffer (stack (set_mem s m))) in Ht.
    change (mem (set_mem (set_mem s m) m')) with m' in Ht. rewrite H2' in Ht.
    change (transmit_buffer (stack (set_mem s m))) with (transmit_buffer (stack s)) in Ht. change (mem (set_mem s m)) with m in Ht.
    rewrite H2 in Ht. exact Ht.
  - cbn. by rewrite Et.
Qed.

(** A pending resolution is reported by [resolve_destination] only. *)
Lemma transmit_not_pending {W} (s : Net W) n : snd (transmit_stack_frame s n) ≠ NeighborResolutionPending.
Proof.
  unfold transmit_stack_frame, interface_transmit. cbn [mbind option_bind]. destruct (transmit _); [|done].
  destruct (_ || _); [done|]. destruct (_ || _ || _); [done|]. destruct (_ (dev s) _) as [w st]. by destruct st.
Qed.

Lemma send_frame_not_pending {W} (s : Net W) d t n : snd (send_frame s d t n) ≠ NeighborResolutionPending.
Proof.
  unfold send_frame. match goal with |- context [serialize_ethernet ?a ?b ?c ?d ?e ?f ?g ?h ?i] =>
    assert (snd (fst (serialize_ethernet a b c d e f g h i)) ≠ NeighborResolutionPending) as Hs
      by (unfold serialize_ethernet; by repeat case_match);
    destruct (serialize_ethernet a b c d e f g h i) as [[m st] o]; cbn [fst snd] in Hs end.
  destruct (negb _); [done|]. apply transmit_not_pending.
Qed.

Lemma send_arp_not_pending {W} (s : Net W) d p : snd (send_arp_packet s d p) ≠ NeighborResolutionPending.
Proof.
  unfold send_arp_packet. match goal with |- context [serialize_arp ?a ?b ?c ?d ?e] =>
    assert (snd (fst (serialize_arp a b c d e)) ≠ NeighborResolutionPending) as Hs
      by (unfold serialize_arp; by repeat case_match);
    destruct (serialize_arp a b c d e) as [[m st] o]; cbn [fst snd] in Hs end.
  destruct (negb _); [done|]. pose proof (send_frame_not_pending (set_mem s m) d ETHER_TYPE_ARP (default 0 o)) as Hf.
  by destruct (send_frame _ _ _ _) as [s' []].
Qed.

(** What a stack makes of an ARP packet with a neighbour's addresses. *)
Lemma arp_arrives {W} (s : Net W) at_ d p :
  net_ok s -> arp_ok p -> d = hardware_address (interface (stack s)) \/ d = BROADCAST_MAC ->
  mac_is_valid_unicast (sender_mac p) = true -> ipv4_is_valid_unicast (sender_ip p) = true ->
  sender_ip p ≠ c_address (config (stack s)) -> target_ip p = c_address (config (stack s)) ->
  (operation p = ArpReply -> target_mac p = hardware_address (interface (stack s))) ->
  arrived s at_ (arp_frame d (sender_mac p) p) ->
  exists s1, net_ok s1 /\ same_setup (stack s) (stack s1) /\ dev s1 = dev s /\
    n_mac <$> find_neighbor (stack s1) (sender_ip p) = Some (sender_mac p) /\
    receive s at_ (Z.of_nat (length (arp_frame d (sender_mac p) p))) =
      (let '(s2, status) := match operation p with ArpReply => (s1, Ok) | ArpRequest => send_arp_reply s1 p end in
       (if bool_decide (status = Ok) then s2 else record_receive_failure s2 status, status)).
Proof.
  intros Hs Hp Hd Hum Hui Hne Htip Htmac [Hat Hl]. pose proof Hs as [Hm Hk]. pose proof Hp as (Hp1 & Hp2 & Hp3 & Hp4).
  assert (mac_ok d) as Hdok by (destruct Hd as [-> | ->]; [apply Hk|apply broadcast_mac_ok]).
  rewrite arp_frame_length in Hl |- * by done.
  destruct (parse_ethernet_ok (mem s) at_ d (sender_mac p) ETHER_TYPE_ARP (arp_bytes p) ARP_PACKET_SIZE) as [E1 Hp']; try done.
  pose proof (parse_arp_ok (mem s) (at_ + ETHERNET_HEADER_SIZE) p [] 0 Hm ltac:(unfold ETHERNET_HEADER_SIZE; lia) Hp ltac:(lia)
    ltac:(by rewrite app_nil_r)) as E2. rewrite Z.add_0_r in E2.
  set (s0 := count arp_received (count_by bytes_received (ETHERNET_HEADER_SIZE + ARP_PACKET_SIZE) (count frames_received s))).
  assert (keeps s s0) as Hks0.
  { eapply keeps_trans; [by apply (keeps_count s frames_received 1)|]. intros H. eapply keeps_trans; [by apply (keeps_count _ bytes_received (ETHERNET_HEADER_SIZE + ARP_PACKET_SIZE))|].
    intros H'. by apply keeps_count. }
  destruct (update_neighbor_ok s0 (sender_ip p) (sender_mac p) (proj2 (proj1 Hks0)) Hp2 Hp1) as (l & c & q & t & st & E3 & Ht & _ & Hin).
  assert (ipv4_equal (sender_ip p) (c_address (config (stack s))) = false) as Hneq.
  { apply not_true_iff_false. intros Heq. apply Hne. apply ipv4_equal_iff; [done|apply Hk|done]. }
  pose proof (update_neighbor_accepts s0 (sender_ip p) (sender_mac p) Hui Hum Hneq) as Hst. rewrite E3 in Hst. cbn [snd] in Hst. subst st.
  set (s1 := set_stack s0 (set_stats (set_neighbors (stack s0) l c q) t)) in *.
  assert (keeps s s1) as Hks1 by (eapply keeps_trans; [exact Hks0|intros H; by apply keeps_table]).
  exists s1. split; [apply Hks1|]. split; [apply Hks1|]. split; [done|]. split.
  { destruct (Hin eq_refl) as (i & q' & Hi). pose proof (find_neighbor_reachable (stack s1) i _ (proj2 (proj1 Hks1)) Hi eq_refl) as Hf.
    cbn [n_ip] in Hf. by rewrite Hf. }
  unfold receive. rewrite (so_initialized _ Hk), (so_configured _ Hk). cbn [negb].
  replace ((at_ =? 0) || _) with false by (unfold ETHERNET_HEADER_SIZE, ARP_PACKET_SIZE; lia). cbn [mem set_stack set_mem count count_by].
  rewrite E1. cbn [ef_destination ef_source ef_ether_type ef_payload ef_payload_length].
  match goal with |- context [if ?b then (_, NotForUs) else _] => replace b with false; cycle 1 end.
  { change (interface (stack (count_by ?a ?b ?s))) with (interface (stack s)).
    destruct Hd as [-> | ->]; [by rewrite mac_equal_refl|]. unfold mac_is_broadcast. rewrite mac_equal_refl. by rewrite andb_false_r. }
  rewrite Hum. cbn [negb]. change (ETHER_TYPE_ARP =? ETHER_TYPE_ARP) with true.
  unfold handle_arp. cbn [mem set_stack set_mem count count_by ef_payload ef_payload_length ef_source]. rewrite E2. rewrite mac_equal_refl, Hum, Hui. cbn [negb orb].
  change (config (stack (count_by ?a ?b ?s))) with (config (stack s)). change (interface (stack (count_by ?a ?b ?s))) with (interface (stack s)).
  match goal with |- context [update_neighbor ?a _ _] => change a with s0 end. rewrite E3. rewrite Htip. change (config (stack s1)) with (config (stack s)).
  rewrite ipv4_equal_refl. cbn [negb orb]. destruct (operation p); [rewrite bool_decide_false by done; reflexivity|].
  rewrite bool_decide_true by done. rewrite Htmac by done.
  match goal with |- context [mac_equal ?a ?b] => change (mac_equal a b) with (mac_equal a a) end. rewrite mac_equal_refl. reflexivity.
Qed.

(** an unknown neighbour is resolved.  When A's [resolve_destination] reports a
    pending resolution of a destination whose next hop is B, A's device accepted one
    request; when B accepts that request, B knows A's hardware address and B's
    device accepted one reply; and when the reply reaches A later, A accepts it and
    from then on resolves the destination to B's hardware address. *)
Theorem arp_resolution {W V} (A A' : Net W) (B : Net V) destination :
  net_ok A -> net_ok B -> ip_ok destination ->
  (let c := config (stack A) in
   (if ipv4_on_same_network (c_address c) destination (c_netmask c) then destination else c_gateway c) = c_address (config (stack B))) ->
  c_address (config (stack A)) ≠ c_address (config (stack B)) ->
  resolve_destination A destination = (A', inl NeighborResolutionPending) ->
  exists request, sent A request A' /\
    forall at_ B', arrived B at_ request -> receive B at_ (Z.of_nat (length request)) = (B', Ok) ->
      n_mac <$> find_neighbor (stack B') (c_address (config (stack A))) = Some (hardware_address (interface (stack A))) /\
      exists reply, sent B reply B' /\
        forall (A2 : Net W) at2, net_ok A2 -> same_setup (stack A) (stack A2) -> arrived A2 at2 reply -> exists A3,
          receive A2 at2 (Z.of_nat (length reply)) = (A3, Ok) /\
          resolve_destination A3 destination = (A3, inr (hardware_address (interface (stack B)))).
Proof.
  intros HA HB Hd Hhop Hne. pose proof HA as [_ HkA]. pose proof HB as [_ HkB]. cbn zeta in Hhop. unfold resolve_destination at 1.
  set (local := ipv4_on_same_network (c_address (config (stack A))) destination (c_netmask (config (stack A)))) in *.
  destruct (negb local && ipv4_is_zero (c_gateway (config (stack A)))) eqn:Eg; [done|]. rewrite Hhop. destruct (find_neighbor _ _); [done|].
  set (request := mkArp ArpRequest (hardware_address (interface (stack A))) (c_address (config (stack A))) ZERO_MAC (c_address (config (stack B)))).
  assert (arp_ok request) as Hreq by (repeat split; cbn; try apply HkA; try apply HkB; apply zero_mac_ok).
  unfold send_arp_request. fold request. destruct (send_arp_packet _ _ _) as [A1 st] eqn:Es.
  pose proof (send_arp_not_pending A BROADCAST_MAC request) as Hst. rewrite Es in Hst. destruct st; try done. intros Hsend. injection Hsend as <-.
  apply send_arp_ok in Es as (Hsent & _); [|done|apply broadcast_mac_ok|done].
  eexists. split; [exact Hsent|]. intros at_ B' Harr Erecv.
  destruct (arp_arrives B at_ BROADCAST_MAC request) as (B1 & HB1 & Hsame & Hdev & Hfind & E); try done;
    [by right|apply HkA|apply HkA|].
  cbn [sender_mac sender_ip request operation] in *. rewrite E in Erecv. clear E. unfold send_arp_reply in Erecv. cbn [sender_mac sender_ip request] in Erecv.
  destruct Hsame as (Ei & Ec & _). rewrite Ei, Ec in Erecv.
  set (reply := mkArp ArpReply (hardware_address (interface (stack B))) (c_address (config (stack B)))
    (hardware_address (interface (stack A))) (c_address (config (stack A)))) in *.
  assert (arp_ok reply) as Hrep by (repeat split; cbn; try apply HkA; apply HkB).
  destruct (send_arp_packet _ _ _) as [B2 st] eqn:Es. injection Erecv as E2 ->. rewrite bool_decide_true in E2 by done. subst B2.
  apply send_arp_ok in Es as (Hrsent & HB' & _ & Hnb); [|done|apply HkA|done]. split; [unfold find_neighbor in *; by rewrite Hnb|].
  exists (arp_frame (hardware_address (interface (stack A))) (hardware_address (interface (stack B))) reply).
  split; [unfold sent in *; rewrite Ei, Hdev in Hrsent; exact Hrsent|].
  intros A2 at2 HA2 (Ei2 & Ec2 & _) Harr2.
  destruct (arp_arrives A2 at2 (hardware_address (interface (stack A))) reply) as (A3 & HA3 & Hsame3 & _ & Hfind3 & E3); try done.
  { left. by rewrite Ei2. } { apply HkB. } { apply HkB. } { cbn. rewrite Ec2. by apply not_eq_sym. } { cbn. by rewrite Ec2. } { cbn. by rewrite Ei2. }
  exists A3. split; [exact E3|]. unfold resolve_destination. destruct Hsame3 as (_ & -> & _). rewrite Ec2. fold local. rewrite Eg, Hhop.
  change (sender_ip reply) with (c_address (config (stack B))) in Hfind3.
  change (sender_mac reply) with (hardware_address (interface (stack B))) in Hfind3.
  apply fmap_Some in Hfind3 as (e & Hf & ->). by rewrite Hf.
Qed.

(** ** The loopback interface *)

(** A queue of frames of depth 8. *)
Definition queue_transmit (q : list (list Z)) (frame : list Z) : list (list Z) * Status :=
  if bool_decide (frame = []) then (q, InvalidArgument)
  else if ETHERNET_MAX_FRAME_SIZE <? Z.of_nat (length frame) then (q, FrameTooLarge)
  else if (length q =? LOOPBACK_QUEUE_DEPTH)%nat then (q, QueueFull) else (q ++ [frame], Ok).

Definition queue_receive (q : list (list Z)) (capacity : Z) : list (list Z) * Status * Z * list Z :=
  match q with
  | [] => (q, WouldBlock, 0, [])
  | frame :: q' =>
      let n := Z.of_nat (length frame) in
      if capacity <? n then (q, BufferTooSmall, n, []) else (q', Ok, n, frame)
  end.

Definition lo_slots (l : LoopbackInterface) : list (list Z * Z) := zip (lo_frames l) (lo_lengths l).
Definition slot_frame (x : list Z * Z) : list Z := take (Z.to_nat (snd x)) (fst x).

(** The queue that the interface holds. *)
Record loopback_holds (l : LoopbackInterface) (q : list (list Z)) : Prop := {
  lh_initialized : lo_initialized l = true;
  lh_frames : length (lo_frames l) = LOOPBACK_QUEUE_DEPTH;
  lh_lengths : length (lo_lengths l) = LOOPBACK_QUEUE_DEPTH;
  lh_size : Forall (fun f => Z.of_nat (length f) = ETHERNET_MAX_FRAME_SIZE) (lo_frames l);
  lh_ring : ring_ok LOOPBACK_QUEUE_DEPTH (lo_slots l) (lo_head l) (lo_tail l) (lo_count l);
  lh_fits : Forall (fun x : list Z * Z => 0 <= snd x <= ETHERNET_MAX_FRAME_SIZE) (lo_slots l);
  lh_queue : slot_frame <$> ring_list ([], 0) (lo_slots l) (lo_head l) (lo_count l) = q }.

Lemma queue_length l q : loopback_holds l q -> length q = lo_count l.
Proof. intros []. subst q. by rewrite length_fmap, ring_list_length. Qed.

Lemma loopback_transmit_ok l q frame : loopback_holds l q ->
  snd (loopback_transmit l frame) = snd (queue_transmit q frame) /\
  loopback_holds (fst (loopback_transmit l frame)) (fst (queue_transmit q frame)).
Proof.
  intros Hl. pose proof (queue_length _ _ Hl) as Hq. pose proof Hl as [H1 H2 H3 H4 H5 H6 H7].
  destruct l as [frames lengths head tail count tx rx dropped init]. unfold loopback_transmit, queue_transmit.
  unfold lo_slots in *.
  cbn [lo_frames lo_lengths lo_head lo_tail lo_count lo_initialized] in *. subst init. cbn [negb]. rewrite Hq.
  destruct (decide (frame = [])) as [->|Hne]; [done|]. rewrite bool_decide_false by done.
  assert (0 < Z.of_nat (length frame)) by (destruct frame; [done|cbn; lia]). replace (Z.of_nat (length frame) =? 0) with false by lia.
  destruct (Z.ltb_spec ETHERNET_MAX_FRAME_SIZE (Z.of_nat (length frame))); [done|].
  destruct (Nat.eqb_spec count LOOPBACK_QUEUE_DEPTH) as [->|Hc]; [split; [done|]; by constructor|]. split; [done|]. cbn [fst].
  assert (count < LOOPBACK_QUEUE_DEPTH)%nat as Hlt by (destruct H5; lia).
  assert (tail < length frames)%nat as Htail by (rewrite H2; destruct H5 as [_ _ _ _ ->]; apply ring_mod_lt; unfold LOOPBACK_QUEUE_DEPTH; lia).
  set (slot := list_inserts 0 frame (nth tail frames [])).
  assert (Z.of_nat (length (nth tail frames [])) = ETHERNET_MAX_FRAME_SIZE) as Hbuf.
  { rewrite Forall_forall in H4. apply H4, list_elem_of_In, nth_In. done. }
  assert (u16 (Z.of_nat (length frame)) = Z.of_nat (length frame)) as Hu.
  { apply Z.mod_small. unfold ETHERNET_MAX_FRAME_SIZE, ETHERNET_HEADER_SIZE, ETHERNET_MTU in *. lia. }
  rewrite Hu. assert (zip (<[tail:=slot]> frames) (<[tail:=Z.of_nat (length frame)]> lengths) =
    <[tail := (slot, Z.of_nat (length frame))]> (zip frames lengths)) as Ez by (by rewrite <- insert_zip_with).
  destruct (ring_push ([], 0) _ _ _ _ _ (slot, Z.of_nat (length frame)) H5 Hlt) as [Hring Hlist].
  constructor; cbn [lo_frames lo_lengths lo_head lo_tail lo_count lo_initialized]; unfold lo_slots; cbn [lo_frames lo_lengths];
    rewrite ?length_insert, ?Ez; try done.
  - apply Forall_insert; [done|]. unfold slot. by rewrite length_inserts.
  - apply Forall_insert; [done|]. cbn [snd]. lia.
  - rewrite Hlist, fmap_app, H7. f_equal. cbn [fmap list_fmap]. f_equal. unfold slot_frame. cbn [fst snd]. rewrite Nat2Z.id.
    unfold slot. apply list_eq_same_length with (n := length frame); [done|rewrite length_take, length_inserts; lia|].
    intros i x y Hi Hx Hy. rewrite lookup_take_lt in Hx by done. rewrite list_lookup_inserts in Hx by lia.
    rewrite Nat.sub_0_r in Hx. congruence.
Qed.

Lemma loopback_receive_ok l q capacity : loopback_holds l q ->
  let '(l', st, n, bytes) := loopback_receive l capacity in
  let '(q', st', n', bytes') := queue_receive q capacity in
  st = st' /\ n = n' /\ bytes = bytes' /\ loopback_holds l' q'.
Proof.
  intros Hl. pose proof (queue_length _ _ Hl) as Hq. pose proof Hl as [H1 H2 H3 H4 H5 H6 H7].
  destruct l as [frames lengths head tail count tx rx dropped init]. unfold loopback_receive, queue_receive.
  cbn [lo_frames lo_lengths lo_head lo_tail lo_count lo_initialized] in *. subst init. cbn [negb].
  destruct count as [|count]; [destruct q; [done|discriminate Hq]|]. cbn [Nat.eqb pred].
  assert (head < length frames)%nat as Hhead by (rewrite H2; apply H5).
  unfold lo_slots in *. cbn [lo_frames lo_lengths] in *.
  assert (nth head (zip frames lengths) ([], 0) = (nth head frames [], nth head lengths 0)) as En by (apply combine_nth; lia).
  assert (Z.of_nat (length (nth head frames [])) = ETHERNET_MAX_FRAME_SIZE) as Hbuf.
  { rewrite Forall_forall in H4. apply H4, list_elem_of_In, nth_In. done. }
  assert (0 <= nth head lengths 0 <= ETHERNET_MAX_FRAME_SIZE) as Hfit.
  { rewrite Forall_forall in H6. specialize (H6 (nth head (zip frames lengths) ([], 0))). rewrite En in H6. apply H6.
    rewrite <- En. apply list_elem_of_In, nth_In. rewrite length_zip_with. lia. }
  destruct (ring_pop ([], 0) _ _ _ _ _ (nth head frames [], 0) H5) as [Hring Hlist]. rewrite Hlist, En in H7. subst q. cbn [fmap list_fmap].
  assert (Z.of_nat (length (slot_frame (nth head frames [], nth head lengths 0))) = nth head lengths 0) as ->.
  { unfold slot_frame. cbn [fst snd]. rewrite length_take. lia. }
  destruct (capacity <? nth head lengths 0).
  { split_and!; [done..|]. constructor; try done. cbn [lo_head lo_count]. unfold lo_slots. cbn [lo_frames lo_lengths]. by rewrite Hlist, En. }
  split_and!; [done..|]. assert (zip frames (<[head:=0]> lengths) = <[head := (nth head frames [], 0)]> (zip frames lengths)) as Ez.
  { rewrite <- (list_insert_id frames head (nth head frames [])) at 1; [by rewrite <- (insert_zip_with pair)|]. rewrite nth_lookup.
    destruct (lookup_lt_is_Some_2 frames head) as [y Hy]; [done|by rewrite Hy]. }
  constructor; cbn [lo_frames lo_lengths lo_head lo_tail lo_count lo_initialized]; unfold lo_slots; cbn [lo_frames lo_lengths];
    rewrite ?length_insert, ?Ez; try done.
  apply Forall_insert; [done|]. cbn [snd]. unfold ETHERNET_MAX_FRAME_SIZE, ETHERNET_HEADER_SIZE, ETHERNET_MTU. lia.
Qed.

Lemma loopback_initial_holds old hardware_address l i :
  initialize_loopback old true hardware_address = (l, i, Ok) -> loopback_holds l [].
Proof.
  unfold initialize_loopback. cbn [negb orb]. destruct (negb _); [done|]. intros H. apply (f_equal (fun x => fst (fst x))) in H. cbn [fst] in H.
  pose proof (length_replicate (Z.to_nat ETHERNET_MAX_FRAME_SIZE) 0) as Hz. set (z := replicate (Z.to_nat ETHERNET_MAX_FRAME_SIZE) 0) in *.
  clearbody z. subst l. constructor; unfold lo_slots; cbn [lo_frames lo_lengths lo_head lo_tail lo_count lo_initialized]; try done.
  - apply Forall_replicate. rewrite Hz. reflexivity.
  - apply ring_empty; [done|unfold LOOPBACK_QUEUE_DEPTH; lia].
  - rewrite zip_with_replicate by done. apply Forall_replicate. cbn. done.
Qed.

Inductive LoopbackCall := LoTransmit (frame : list Z) | LoReceive (capacity : Z).

Fixpoint loopback_run (l : LoopbackInterface) (calls : list LoopbackCall) : list (Status * Z * list Z) :=
  match calls with
  | [] => []
  | LoTransmit frame :: calls' => let '(l, st) := loopback_transmit l frame in (st, 0, []) :: loopback_run l calls'
  | LoReceive capacity :: calls' =>
      let '(l, st, n, bytes) := loopback_receive l capacity in (st, n, bytes) :: loopback_run l calls'
  end.

Fixpoint queue_run (q : list (list Z)) (calls : list LoopbackCall) : list (Status * Z * list Z) :=
  match calls with
  | [] => []
  | LoTransmit frame :: calls' => let '(q, st) := queue_transmit q frame in (st, 0, []) :: queue_run q calls'
  | LoReceive capacity :: calls' =>
      let '(q, st, n, bytes) := queue_receive q capacity in (st, n, bytes) :: queue_run q calls'
  end.

(** whatever sequence of transmissions and receptions follows a successful
    initialisation, the loopback interface answers each exactly like a first-in
    first-out queue of at most eight frames: the same status, the same reported
    length and the same bytes. *)
Theorem loopback_refines_queue old hardware_address l i calls :
  initialize_loopback old true hardware_address = (l, i, Ok) -> loopback_run l calls = queue_run [] calls.
Proof.
  intros Hl%loopback_initial_holds. revert l Hl. generalize (@nil (list Z)).
  induction calls as [|[frame|capacity] calls IH]; intros q l Hl; [done|..]; cbn [loopback_run queue_run].
  - destruct (loopback_transmit_ok l q frame Hl) as [Hs Hh]. destruct (loopback_transmit l frame) as [l' st], (queue_transmit q frame) as [q' st'].
    cbn [fst snd] in *. subst st'. f_equal. by apply IH.
  - pose proof (loopback_receive_ok l q capacity Hl) as H. destruct (loopback_receive l capacity) as [[[l' st] n] bytes].
    destruct (queue_receive q capacity) as [[[q' st'] n'] bytes']. destruct H as (-> & -> & -> & Hh). f_equal. by apply IH.
Qed.

Lemma loopback_refines_queue_witness :
  let mac := [2; 0; 0; 0; 0; 1] in
  let old := mkLoopback [] [] 0 0 0 0 0 0 false in
  let l := fst (fst (initialize_loopback old true mac)) in
  let calls := [LoTransmit [1; 2; 3]; LoTransmit [4]; LoReceive 2; LoReceive 1514; LoReceive 1514; LoReceive 1514] in
  loopback_run l calls = queue_run [] calls.
Proof.
  intros mac old l calls. apply (loopback_refines_queue old mac l (Some (loopback_interface mac)) calls). reflexivity.
Defined.

(** ** Instances *)

(** A device that keeps what it is given, and two stations. *)
Definition example_interface (mac : MacAddress) : NetworkInterface (list (list Z)) :=
  mkInterface (Some (fun w frame => (w ++ [frame], Ok))) (Some (fun w _ => (w, WouldBlock, 0, []))) mac ETHERNET_MTU.

Definition example_stack (mac : MacAddress) : NetworkStack (list (list Z)) :=
  mkStack (example_interface mac) (mkConfig ZERO_IP ZERO_IP ZERO_IP) (replicate NEIGHBOR_TABLE_CAPACITY empty_neighbor) (fun _ => 0)
    empty_ping_reply empty_udp_datagram empty_tcp_segment 4096 8192 1 0 0 true false.

Definition example_fresh (mac : MacAddress) : Net (list (list Z)) := mkNet (fun a => a mod 256) [] (example_stack mac).

Definition mac_a : MacAddress := [2; 0; 0; 0; 0; 1].
Definition mac_b : MacAddress := [2; 0; 0; 0; 0; 2].
Definition ip_a : IPv4Address := [10; 0; 0; 1].
Definition ip_b : IPv4Address := [10; 0; 0; 2].
Definition example_config (ip : IPv4Address) : IPv4Config := mkConfig ip [255; 255; 255; 0] ZERO_IP.

Definition station_a : Net (list (list Z)) := fst (configure_ipv4 (example_fresh mac_a) (example_config ip_a)).
Definition station_b : Net (list (list Z)) := fst (configure_ipv4 (example_fresh mac_b) (example_config ip_b)).
(** A after it has learnt of B. *)
Definition station_ab : Net (list (list Z)) := fst (update_neighbor station_a ip_b mac_b).

Lemma example_bytes (mac : MacAddress) : bytes_ok (mem (example_fresh mac)).
Proof. intros a. apply Z.mod_pos_bound. lia. Qed.

Lemma example_mac_ok n : is_u8 n -> mac_ok [2; 0; 0; 0; 0; n].
Proof. intros Hn. split; [done|]. repeat (apply Forall_cons_2; [first [done | word_lia]|]). by apply Forall_nil. Qed.

Lemma example_ip_ok n : is_u8 n -> ip_ok [10; 0; 0; n].
Proof. intros Hn. split; [done|]. repeat (apply Forall_cons_2; [first [done | word_lia]|]). by apply Forall_nil. Qed.

Lemma example_setup n : is_u8 n -> setup_ok (stack (example_fresh [2; 0; 0; 0; 0; n])).
Proof.
  intros Hn. constructor; [by apply example_mac_ok|reflexivity|cbn; lia|cbn; lia|cbn; lia].
Qed.

Lemma example_device mac : device_ok (example_interface mac).
Proof. intros recv w capacity w' status n bytes [= <-] [= _ _ _ <-]. by apply Forall_nil. Qed.

Lemma pair_status {A B : Type} (x : A * B) b : snd x = b -> x = (fst x, b).
Proof. destruct x. by intros <-. Qed.

Lemma station_a_ok : net_ok station_a.
Proof.
  apply (configure_ok (example_fresh mac_a) (example_config ip_a)); [apply example_bytes|by apply example_setup|by apply example_ip_ok| |].
  - apply zero_ip_ok.
  - apply pair_status. vm_compute. reflexivity.
Qed.

Lemma station_b_ok : net_ok station_b.
Proof.
  apply (configure_ok (example_fresh mac_b) (example_config ip_b)); [apply example_bytes|by apply example_setup|by apply example_ip_ok| |].
  - apply zero_ip_ok.
  - apply pair_status. vm_compute. reflexivity.
Qed.

Lemma station_ab_ok : net_ok station_ab.
Proof. apply (keeps_update_neighbor station_a ip_b mac_b station_a_ok); [by apply example_ip_ok|by apply example_mac_ok]. Qed.

Lemma neighbor_table_invariant_witness :
  let s := example_fresh mac_a in
  let s1 := fst (configure_ipv4 s (example_config ip_a)) in
  let s2 := fst (send_udp s1 ip_b 68 67 16 4) in
  let k := stack s2 in
  length (neighbors k) = NEIGHBOR_TABLE_CAPACITY /\
  n_mac <$> find_neighbor k (c_address (config k)) = Some mac_a.
Proof.
  intros s s1 s2 k.
  destruct (neighbor_table_invariant s (example_config ip_a) s1 s2) as (H1 & _ & _ & _ & H2).
  - apply example_bytes.
  - by apply (example_setup 1).
  - apply (example_device mac_a).
  - by apply (example_ip_ok 1).
  - apply zero_ip_ok.
  - apply pair_status. vm_compute. reflexivity.
  - apply rtc_once, step_send_udp. by apply (example_ip_ok 2).
  - exact (conj H1 H2).
Defined.

Lemma udp_delivered_witness :
  let A' := fst (send_udp station_ab ip_b 68 67 16 4) in
  exists frame, sent station_ab frame A' /\
    forall at_, arrived station_b at_ frame -> exists B',
      receive station_b at_ (Z.of_nat (length frame)) = (B', Ok) /\ mem B' = mem station_b /\ dev B' = dev station_b /\ net_ok B' /\
      last_udp_datagram (stack B') = mkUdpDatagram true ip_a ip_b 68 67 (inbox [16; 17; 18; 19]) 4 /\
      n_mac <$> find_neighbor (stack B') ip_a = Some mac_a.
Proof.
  intros A'. apply (udp_delivered station_ab A' station_b ip_b 68 67 16 4).
  - apply station_ab_ok.
  - apply station_b_ok.
  - by apply (example_ip_ok 2).
  - lia.
  - lia.
  - lia.
  - split; [lia|right; left; vm_compute; discriminate].
  - vm_compute. reflexivity.
  - vm_compute. discriminate.
  - vm_compute. reflexivity.
  - unfold A'. apply (pair_status (send_udp station_ab ip_b 68 67 16 4)). vm_compute. reflexivity.
Defined.

Lemma ping_roundtrip_witness :
  let A' := fst (send_ping station_ab ip_b 7 1 16 4) in
  exists request, sent station_ab request A' /\
    forall at_ B', arrived station_b at_ request ->
      payload_free (stack station_b) ICMP_ECHO_HEADER_SIZE (at_ + ETHERNET_HEADER_SIZE + IPV4_MIN_HEADER_SIZE + ICMP_ECHO_HEADER_SIZE) 4 ->
      receive station_b at_ (Z.of_nat (length request)) = (B', Ok) ->
      exists reply, sent station_b reply B' /\
        forall (A2 : Net (list (list Z))) at2, net_ok A2 -> same_setup (stack station_ab) (stack A2) -> arrived A2 at2 reply -> exists A3,
          receive A2 at2 (Z.of_nat (length reply)) = (A3, Ok) /\ dev A3 = dev A2 /\ mem A3 = mem A2 /\
          last_ping_reply (stack A3) = mkPingReply true ip_b 7 1 4.
Proof.
  intros A'. apply (ping_roundtrip station_ab A' station_b ip_b 7 1 16 4).
  - apply station_ab_ok.
  - apply station_b_ok.
  - by apply (example_ip_ok 2).
  - lia.
  - lia.
  - lia.
  - split; [lia|right; left; vm_compute; discriminate].
  - vm_compute. reflexivity.
  - vm_compute. discriminate.
  - vm_compute. reflexivity.
  - unfold A'. apply (pair_status (send_ping station_ab ip_b 7 1 16 4)). vm_compute. reflexivity.
Defined.

Lemma arp_resolution_witness :
  let A' := fst (resolve_destination station_a ip_b) in
  exists request, sent station_a request A' /\
    forall at_ B', arrived station_b at_ request -> receive station_b at_ (Z.of_nat (length request)) = (B', Ok) ->
      n_mac <$> find_neighbor (stack B') ip_a = Some mac_a /\
      exists reply, sent station_b reply B' /\
        forall (A2 : Net (list (list Z))) at2, net_ok A2 -> same_setup (stack station_a) (stack A2) -> arrived A2 at2 reply -> exists A3,
          receive A2 at2 (Z.of_nat (length reply)) = (A3, Ok) /\
          resolve_destination A3 ip_b = (A3, inr mac_b).
Proof.
  intros A'. apply (arp_resolution station_a A' station_b ip_b).
  - apply station_a_ok.
  - apply station_b_ok.
  - by apply (example_ip_ok 2).
  - vm_compute. reflexivity.
  - vm_compute. discriminate.
  - unfold A'. apply (pair_status (resolve_destination station_a ip_b)). vm_compute. reflexivity.
Defined.
