(* ===== verification/ParserSafety.v ===== *)
(** * What the packet parsers read, accept and skip

    The parsers of Network.v and Protocols.v read nothing outside the packet they
    are given and hand out payloads inside it; the loops over DHCP options and DNS
    names end; a corrupted byte is detected by the checksums; and the name of a
    DNS query is encoded in labels that the response parser skips exactly. *)

From S2P Require Import Prelude Packet Network Protocols.

(** ** Reading inside a packet *)

Definition agree (m m' : Memory) (p n : Z) : Prop := forall x, p <= x < p + n -> m x = m' x.

Lemma agree_load m m' p n a k : agree m m' p n -> p <= a -> a + k <= p + n -> load m a k = load m' a k.
Proof. intros H Ha Hk. apply load_eq. intros i Hi. apply H. lia. Qed.

Lemma agree_at m m' p n a : agree m m' p n -> p <= a < p + n -> m a = m' a.
Proof. intros H. apply H. Qed.

Lemma agree_be16 m m' p n a : agree m m' p n -> p <= a -> a + 2 <= p + n -> read_be16 m a = read_be16 m' a.
Proof. intros H Ha Hn. unfold read_be16. by rewrite (H a), (H (a + 1)) by lia. Qed.

Lemma agree_be32 m m' p n a : agree m m' p n -> p <= a -> a + 4 <= p + n -> read_be32 m a = read_be32 m' a.
Proof. intros H Ha Hn. unfold read_be32. by rewrite (H a), (H (a + 1)), (H (a + 2)), (H (a + 3)) by lia. Qed.

Lemma agree_checksum m m' p n k : agree m m' p n -> k <= n -> internet_checksum m p k = internet_checksum m' p k.
Proof. intros H Hk. unfold internet_checksum. by rewrite (agree_load _ _ _ _ _ _ H) by lia. Qed.

Lemma agree_transport m m' p n s d protocol k : agree m m' p n -> k <= n ->
  transport_checksum m s d protocol p k = transport_checksum m' s d protocol p k.
Proof. intros H Hk. unfold transport_checksum. by rewrite (agree_load _ _ _ _ _ _ H) by lia. Qed.

(** Rewrite the reads of [m] at known offsets into reads of [m']. *)
Ltac agree_rewrite H :=
  repeat match type of H with agree ?m ?m' _ _ =>
    first
      [ rewrite (agree_be16 m m' _ _ _ H) by lia
      | rewrite (agree_be32 m m' _ _ _ H) by lia
      | rewrite (agree_load m m' _ _ _ _ H) by lia
      | rewrite (agree_checksum m m' _ _ _ H) by lia
      | rewrite (agree_transport m m' _ _ _ _ _ _ H) by lia
      | match goal with |- context [m ?a] => rewrite (agree_at m m' _ _ a H) by lia end ]
  end.

Section confined.
Context (m m' : Memory) (p n : Z) (H : agree m m' p n).

Lemma ethernet_confined b : parse_ethernet m p n b = parse_ethernet m' p n b.
Proof using H.
  unfold parse_ethernet, ETHERNET_HEADER_SIZE, MAC_ADDRESS_LENGTH. destruct (_ || _); [done|]. destruct (Z.ltb_spec n 14); [done|].
  by agree_rewrite H.
Qed.

Lemma arp_confined b : parse_arp m p n b = parse_arp m' p n b.
Proof using H.
  unfold parse_arp, ARP_PACKET_SIZE, MAC_ADDRESS_LENGTH, IPV4_ADDRESS_LENGTH. destruct (_ || _); [done|]. destruct (Z.ltb_spec n 28); [done|].
  by agree_rewrite H.
Qed.

Lemma ipv4_confined b : parse_ipv4 m p n b = parse_ipv4 m' p n b.
Proof using H.
  unfold parse_ipv4, IPV4_MIN_HEADER_SIZE, IPV4_ADDRESS_LENGTH. destruct (_ || _); [done|]. destruct (Z.ltb_spec n 20); [done|].
  agree_rewrite H. destruct (negb _ || _); [done|]. set (hl := Z.land (m' p) 15 * 4). destruct (_ || (n <? hl)) eqn:Eh; [done|].
  agree_rewrite H. done.
Qed.

Lemma icmp_confined b : parse_icmp_echo m p n b = parse_icmp_echo m' p n b.
Proof using H.
  unfold parse_icmp_echo, ICMP_ECHO_HEADER_SIZE. destruct (_ || _); [done|]. destruct (Z.ltb_spec n 8); [done|].
  by agree_rewrite H.
Qed.

Lemma udp_confined s d b : parse_udp m s d p n b = parse_udp m' s d p n b.
Proof using H.
  unfold parse_udp, UDP_HEADER_SIZE. destruct (_ || _); [done|]. destruct (Z.ltb_spec n 8); [done|].
  agree_rewrite H. set (declared := read_be16 m' (p + 4)). destruct (_ || (n <? declared)) eqn:Ed; [done|]. by agree_rewrite H.
Qed.

Lemma tcp_confined s d b : parse_tcp m s d p n b = parse_tcp m' s d p n b.
Proof using H.
  unfold parse_tcp, TCP_MIN_HEADER_SIZE. destruct (_ || _); [done|]. destruct (Z.ltb_spec n 20); [done|]. by agree_rewrite H.
Qed.

Lemma apply_option_confined o value length result t :
  p <= value -> value + length <= p + n -> 0 <= length ->
  apply_option m o value length result t = apply_option m' o value length result t.
Proof using H.
  intros Hv Hl H0. unfold apply_option, ipv4_option, IPV4_ADDRESS_LENGTH. destruct result.
  destruct (o =? DHCP_OPTION_TYPE).
  { destruct (Z.eqb_spec length 1); [|done]. by agree_rewrite H. }
  repeat match goal with |- (if o =? _ then _ else _) = _ => destruct (o =? _); [destruct (Z.ltb_spec length 4); [done|]; by agree_rewrite H|] end.
  destruct (o =? DHCP_OPTION_LEASE); [|done]. destruct (Z.eqb_spec length 4); [|done]. by agree_rewrite H.
Qed.

Lemma parse_options_confined fuel (Hm : bytes_ok m) : forall cursor result t, 0 <= cursor ->
  parse_options fuel m p n cursor result t = parse_options fuel m' p n cursor result t.
Proof using H.
  induction fuel as [|fuel IH]; intros cursor result t Hc; [done|]. cbn [parse_options].
  destruct (Z.ltb_spec cursor n); [|done]. cbn [negb]. agree_rewrite H. destruct (_ =? DHCP_OPTION_END); [done|].
  destruct (_ =? DHCP_OPTION_PAD); [apply IH; lia|]. destruct (Z.leb_spec n (cursor + 1)); [done|].
  pose proof (Hm (p + (cursor + 1))) as Hb. unfold is_u8 in Hb. rewrite (agree_at _ _ _ _ _ H) in Hb |- * by lia.
  set (len := m' (p + (cursor + 1))) in *. destruct (Z.ltb_spec (n - (cursor + 1 + 1)) len); [done|].
  rewrite apply_option_confined by lia. destruct (apply_option _ _ _ _ _ _) as [[r t']|]; [|done]. apply IH. lia.
Qed.

Lemma dhcp_confined (Hm : bytes_ok m) id client b : parse_dhcp_reply m p n id client b = parse_dhcp_reply m' p n id client b.
Proof using H.
  unfold parse_dhcp_reply, DHCP_FIXED_SIZE, IPV4_ADDRESS_LENGTH. destruct (_ || _); [done|]. destruct (Z.ltb_spec n 240); [done|].
  agree_rewrite H. destruct (_ || _); [done|].
  assert (existsb (fun index => negb (m (p + (28 + index)) =? word_at client index)) (seqZ 0 MAC_ADDRESS_LENGTH) =
          existsb (fun index => negb (m' (p + (28 + index)) =? word_at client index)) (seqZ 0 MAC_ADDRESS_LENGTH)) as ->.
  { change (seqZ 0 MAC_ADDRESS_LENGTH) with [0; 1; 2; 3; 4; 5]. cbn [existsb]. by agree_rewrite H. }
  destruct (existsb _ _); [done|]. by rewrite parse_options_confined by (done || lia).
Qed.

Lemma skip_labels_confined fuel (Hm : bytes_ok m) : forall position labels, 0 <= position ->
  skip_labels fuel m p n position labels = skip_labels fuel m' p n position labels /\
  forall c, skip_labels fuel m p n position labels = Some (inr c) -> position < c.
Proof using H.
  induction fuel as [|fuel IH]; intros position labels Hc; [done|]. cbn [skip_labels].
  destruct (Z.ltb_spec position n); [|done]. cbn [negb].
  pose proof (Hm (p + position)) as Hb. unfold is_u8 in Hb. rewrite (agree_at _ _ _ _ _ H) in Hb |- * by lia.
  set (len := m' (p + position)) in *. destruct (len =? 0); [split; [done|]; intros c [= <-]; lia|].
  destruct (_ =? 192); [destruct (n <=? _); (split; [done|]); [done|]; intros c [= <-]; lia|]. destruct (_ || _); [done|]. destruct (127 <? _); [done|].
  destruct (IH (position + 1 + len) (labels + 1)) as [E Hi]; [lia|]. split; [done|]. intros c Hcc. specialize (Hi c Hcc). lia.
Qed.

Lemma skip_name_confined cursor (Hm : bytes_ok m) : 0 <= cursor ->
  skip_dns_name m p n cursor = skip_dns_name m' p n cursor /\
  forall c, skip_dns_name m p n cursor = Some (inr c) -> cursor < c.
Proof using H. intros Hc. unfold skip_dns_name. destruct (_ || _); [done|]. by apply skip_labels_confined. Qed.

Lemma skip_questions_confined questions (Hm : bytes_ok m) : forall cursor, 0 <= cursor ->
  skip_questions questions m p n cursor = skip_questions questions m' p n cursor /\
  forall c, skip_questions questions m p n cursor = Some (inr c) -> 0 <= c.
Proof using H.
  induction questions as [|q IH]; intros cursor Hc; cbn [skip_questions]; [split; [done|]; by intros c [= <-]|].
  destruct (skip_name_confined cursor Hm Hc) as [<- Hp]. destruct (skip_dns_name m p n cursor) as [[st|c]|]; cbn [mbind option_bind]; try done.
  specialize (Hp c eq_refl). destruct (_ || _); [done|]. apply IH. lia.
Qed.

Lemma find_answer_confined answers (Hm : bytes_ok m) id : forall cursor, 0 <= cursor ->
  find_answer answers m p n cursor id = find_answer answers m' p n cursor id.
Proof using H.
  induction answers as [|a IH]; intros cursor Hc; cbn [find_answer]; [done|].
  destruct (skip_name_confined cursor Hm Hc) as [<- Hp]. destruct (skip_dns_name m p n cursor) as [[st|c]|]; cbn [mbind option_bind]; try done.
  specialize (Hp c eq_refl). destruct (_ || _) eqn:E; [done|]. agree_rewrite H. set (len := read_be16 m' (p + c + 8)).
  assert (0 <= len) as Hlen.
  { unfold len, read_be16. case_match; [lia|]. apply Z.mod_pos_bound. lia. }
  destruct (Z.ltb_spec (n - (c + 10)) len); [done|]. destruct (_ && _) eqn:E2; [|apply IH; lia].
  apply andb_true_iff in E2 as [_ E2%Z.eqb_eq]. by agree_rewrite H.
Qed.

Lemma dns_confined (Hm : bytes_ok m) id b : parse_dns_a_response m p n id b = parse_dns_a_response m' p n id b.
Proof using H.
  unfold parse_dns_a_response. destruct (_ || _); [done|]. destruct (Z.ltb_spec n 12); [done|]. agree_rewrite H.
  do 5 (case_match; [done|]). destruct (skip_questions_confined (Z.to_nat (read_be16 m' (p + 4))) Hm 12) as [<- Hp]; [lia|].
  destruct (skip_questions _ _ _ _ _) as [[st|c]|]; cbn [mbind option_bind]; try done. apply find_answer_confined; [done|]. by apply Hp.
Qed.
End confined.

(** C21: no parser reads outside its packet.  Two memories that agree on the [n]
    bytes of a packet give the same result, error or view, in every parser of the
    stack: Ethernet, ARP, IPv4, ICMP, UDP, TCP, DHCP and DNS. *)
Theorem parsers_confined m m' p n :
  bytes_ok m -> agree m m' p n ->
  (forall b, parse_ethernet m p n b = parse_ethernet m' p n b) /\ (forall b, parse_arp m p n b = parse_arp m' p n b) /\
  (forall b, parse_ipv4 m p n b = parse_ipv4 m' p n b) /\ (forall b, parse_icmp_echo m p n b = parse_icmp_echo m' p n b) /\
  (forall s d b, parse_udp m s d p n b = parse_udp m' s d p n b) /\ (forall s d b, parse_tcp m s d p n b = parse_tcp m' s d p n b) /\
  (forall id client b, parse_dhcp_reply m p n id client b = parse_dhcp_reply m' p n id client b) /\
  (forall id b, parse_dns_a_response m p n id b = parse_dns_a_response m' p n id b).
Proof.
  intros Hm H. split_and!; intros; [by apply ethernet_confined|by apply arp_confined|by apply ipv4_confined|by apply icmp_confined|
    by apply udp_confined|by apply tcp_confined|by apply dhcp_confined|by apply dns_confined].
Qed.

Lemma parsers_confined_witness :
  parse_ipv4 (fun _ => 69) 64 20 true = parse_ipv4 (fun a => if a <? 84 then 69 else 7) 64 20 true.
Proof.
  apply (parsers_confined (fun _ => 69) (fun a => if a <? 84 then 69 else 7) 64 20).
  - intros a. word_lia.
  - intros x Hx. by replace (x <? 84) with true by lia.
Defined.

(** ** Payloads *)

Definition inside (p n payload length : Z) : Prop := p < payload /\ 0 <= length /\ payload + length <= p + n.

Lemma parse_ipv4_inv m p n v : bytes_ok m -> parse_ipv4 m p n true = (Ok, Some v) ->
  p ≠ 0 /\ ip_header_length v = Z.land (m p) 15 * 4 /\ 20 <= ip_header_length v <= n /\
  internet_checksum m p (ip_header_length v) = 0 /\ inside p n (ip_payload v) (ip_payload_length v).
Proof.
  intros Hm. unfold parse_ipv4, IPV4_MIN_HEADER_SIZE, IPV4_MAX_HEADER_SIZE. repeat guard_step. intros [= <-]. cbn [ip_header_length ip_payload ip_payload_length].
  unfold inside. split_and!; try done; lia.
Qed.

Lemma parse_icmp_inv m p n v : parse_icmp_echo m p n true = (Ok, Some v) ->
  p ≠ 0 /\ internet_checksum m p n = 0 /\ 8 <= n /\ inside p n (ic_payload v) (ic_payload_length v).
Proof.
  unfold parse_icmp_echo, ICMP_ECHO_HEADER_SIZE. repeat guard_step. intros [= <-]. cbn [ic_payload ic_payload_length]. unfold inside.
  split_and!; lia.
Qed.

Lemma parse_udp_inv m s d p n v : parse_udp m s d p n true = (Ok, Some v) ->
  let declared := read_be16 m (p + 4) in
  p ≠ 0 /\ 8 <= declared <= n /\ (read_be16 m (p + 6) = 0 \/ transport_checksum m s d IPV4_PROTOCOL_UDP p declared = 0) /\
  inside p n (ud_payload v) (ud_payload_length v).
Proof.
  unfold parse_udp, UDP_HEADER_SIZE. repeat guard_step. intros [= <-]. cbn [ud_payload ud_payload_length]. unfold inside. split_and!; lia.
Qed.

Lemma parse_tcp_inv m s d p n v : bytes_ok m -> parse_tcp m s d p n true = (Ok, Some v) ->
  p ≠ 0 /\ 20 <= n /\ transport_checksum m s d IPV4_PROTOCOL_TCP p n = 0 /\ inside p n (tc_payload v) (tc_payload_length v).
Proof.
  intros Hm. unfold parse_tcp, TCP_MIN_HEADER_SIZE. repeat guard_step.
  intros [= <-]. cbn [tc_payload tc_payload_length]. unfold inside. split_and!; lia.
Qed.

(** the payload that a parser hands out lies behind the header and inside the
    packet that was parsed, for every accepted Ethernet frame, IPv4 packet, ICMP
    message, UDP datagram and TCP segment. *)
Theorem payloads_inside m p n :
  bytes_ok m ->
  (forall v, parse_ethernet m p n true = (Ok, Some v) -> inside p n (ef_payload v) (ef_payload_length v)) /\
  (forall v, parse_ipv4 m p n true = (Ok, Some v) -> inside p n (ip_payload v) (ip_payload_length v)) /\
  (forall v, parse_icmp_echo m p n true = (Ok, Some v) -> inside p n (ic_payload v) (ic_payload_length v)) /\
  (forall s d v, parse_udp m s d p n true = (Ok, Some v) -> inside p n (ud_payload v) (ud_payload_length v)) /\
  (forall s d v, parse_tcp m s d p n true = (Ok, Some v) -> inside p n (tc_payload v) (tc_payload_length v)).
Proof.
  intros Hm. split_and!.
  - intros v. unfold parse_ethernet, ETHERNET_HEADER_SIZE. repeat guard_step. intros [= <-]. cbn [ef_payload ef_payload_length]. unfold inside. lia.
  - intros v Hv. by apply parse_ipv4_inv in Hv as (_ & _ & _ & _ & ?).
  - intros v Hv. by apply parse_icmp_inv in Hv as (_ & _ & _ & ?).
  - intros s d v Hv. by apply parse_udp_inv in Hv as (_ & _ & _ & ?).
  - intros s d v Hv. by apply parse_tcp_inv in Hv as (_ & _ & _ & ?).
Qed.

Lemma payloads_inside_witness :
  let m := store (fun _ => 0) 64 [0; 9; 0; 7; 0; 10; 0; 0; 65; 66] in
  parse_udp m [] [] 64 12 true = (Ok, Some (mkUdpView 9 7 72 2)) /\ inside 64 12 72 2.
Proof.
  intros m. assert (parse_udp m [] [] 64 12 true = (Ok, Some (mkUdpView 9 7 72 2))) as E by (vm_compute; reflexivity). split; [exact E|].
  destruct (payloads_inside m 64 12) as (_ & _ & _ & H & _); [|exact (H _ _ _ E)].
  apply packet_store_bytes_ok; [intros a; word_lia|]. repeat (apply Forall_cons_2; [word_lia|]). by apply Forall_nil.
Defined.

(** ** Corrupted bytes *)

(** [m'] is [m] with the byte at [a] changed. *)
Definition corrupted (m m' : Memory) (a : Z) : Prop := bytes_ok m' /\ m' a ≠ m a /\ forall x, x ≠ a -> m' x = m x.

Lemma sum_words_insert l : forall i b b', l !! i = Some b ->
  sum_words (<[i := b']> l) = sum_words l + (b' - b) * (if Nat.even i then 256 else 1).
Proof.
  induction l as [|x|x y l IH] using list_pair_ind; intros i b b' Hi; [done|..].
  - destruct i; [|done]. injection Hi as ->. cbn. lia.
  - destruct i as [|[|i]]; [injection Hi as ->; cbn [insert list_insert sum_words Nat.even]; lia..|].
    change (<[S (S i) := b']> (x :: y :: l)) with (x :: y :: <[i := b']> l). cbn [sum_words Nat.even]. rewrite (IH i b b' Hi). lia.
Qed.

Lemma canon_65535 s : 0 <= s -> canon s = 65535 -> s mod 65535 = 0.
Proof. intros Hs E. rewrite <- (canon_mod s Hs), E. reflexivity. Qed.

(** A sum that is right with one byte is wrong with another. *)
Lemma corrupted_sum m m' p n a k :
  bytes_ok m -> corrupted m m' a -> p <= a < p + n -> 0 <= k ->
  canon (k + sum_words (load m p n)) = 65535 -> canon (k + sum_words (load m' p n)) ≠ 65535.
Proof.
  intros Hm (Hm' & Hne & Hout) Ha Hk E E'.
  assert (load m' p n = <[Z.to_nat (a - p) := m' a]> (load m p n)) as El.
  { apply list_eq_same_length with (n := Z.to_nat n); [by rewrite length_insert, load_length_nat|by rewrite load_length_nat|].
    intros i x y Hi Hx Hy. unfold load in Hx, Hy. rewrite list_lookup_fmap, lookup_seqZ_lt in Hx by lia.
    cbn [fmap option_fmap option_map] in Hx. injection Hx as <-. destruct (decide (i = Z.to_nat (a - p))) as [->|Hia].
    - rewrite list_lookup_insert_eq in Hy by (rewrite length_fmap, length_seqZ; lia). injection Hy as <-. f_equal. lia.
    - rewrite list_lookup_insert_ne, list_lookup_fmap, lookup_seqZ_lt in Hy by lia. cbn [fmap option_fmap option_map] in Hy.
      injection Hy as <-. apply Hout. lia. }
  assert (load m p n !! Z.to_nat (a - p) = Some (m a)) as Hl.
  { unfold load. rewrite list_lookup_fmap, lookup_seqZ_lt by lia. cbn [fmap option_fmap option_map]. do 2 f_equal. lia. }
  pose proof (sum_words_nonneg _ (load_u8 m p n Hm)). pose proof (sum_words_nonneg _ (load_u8 m' p n Hm')).
  apply canon_65535 in E, E'; [|lia..]. rewrite El, (sum_words_insert _ _ _ (m' a) Hl) in E'.
  pose proof (Hm a) as B1. pose proof (Hm' a) as B2. unfold is_u8 in B1, B2. change (2 ^ 8) with 256 in *.
  set (s := sum_words (load m p n)) in *. clearbody s. clear El Hl.
  assert (((m' a - m a) * (if Nat.even (Z.to_nat (a - p)) then 256 else 1)) mod 65535 = 0) as Ed.
  { replace ((m' a - m a) * _) with (k + (s + (m' a - m a) * (if Nat.even (Z.to_nat (a - p)) then 256 else 1)) - (k + s)) by lia.
    rewrite Zminus_mod, E, E'. reflexivity. }
  apply Z.mod_divide in Ed as [c Hc]; [|lia]. destruct (Nat.even _); lia.
Qed.

Lemma corrupted_agree m m' a p n : corrupted m m' a -> ~ (p <= a < p + n) -> agree m m' p n.
Proof. intros (_ & _ & H) Ha x Hx. symmetry. apply H. lia. Qed.

Lemma corrupted_internet m m' p n a : bytes_ok m -> corrupted m m' a -> p ≠ 0 -> p <= a < p + n ->
  internet_checksum m p n = 0 -> internet_checksum m' p n ≠ 0.
Proof.
  intros Hm Hc Hp Ha. rewrite !internet_checksum_eq by (done || apply Hc). intros E.
  pose proof (corrupted_sum m m' p n a 0 Hm Hc Ha ltac:(lia)) as H. rewrite !Z.add_0_l in H. lia.
Qed.

Lemma corrupted_transport m m' s d protocol p n a : bytes_ok m -> corrupted m m' a -> ip_ok s -> ip_ok d -> is_u8 protocol ->
  0 <= n < 2 ^ 16 -> p <= a < p + n -> transport_checksum m s d protocol p n = 0 -> transport_checksum m' s d protocol p n ≠ 0.
Proof.
  intros Hm Hc Hs Hd Hp Hn Ha. rewrite !transport_checksum_eq by (done || apply Hc). intros E.
  pose proof (pseudo_sum_range s d protocol n Hs Hd Hp Hn).
  pose proof (corrupted_sum m m' p n a (pseudo_sum s d protocol n) Hm Hc Ha ltac:(lia)) as H'. lia.
Qed.

(** one corrupted byte is always detected.  When a packet is accepted, it is not
    accepted after any single byte under its checksum has been changed: any byte of
    an IPv4 header but the one with its length, any byte of an ICMP message or of a
    TCP segment, and, in a UDP datagram that carries a checksum, any byte but those
    of the length and of the checksum itself. *)
Theorem corruption_detected m m' p n a s d :
  bytes_ok m -> corrupted m m' a -> ip_ok s -> ip_ok d -> 0 <= n < 2 ^ 16 ->
  (forall v v', parse_ipv4 m p n true = (Ok, Some v) -> p < a < p + ip_header_length v -> parse_ipv4 m' p n true ≠ (Ok, Some v')) /\
  (forall v v', parse_icmp_echo m p n true = (Ok, Some v) -> p <= a < p + n -> parse_icmp_echo m' p n true ≠ (Ok, Some v')) /\
  (forall v v', parse_tcp m s d p n true = (Ok, Some v) -> p <= a < p + n -> parse_tcp m' s d p n true ≠ (Ok, Some v')) /\
  (forall v v', parse_udp m s d p n true = (Ok, Some v) -> read_be16 m (p + 6) ≠ 0 ->
     p <= a < p + read_be16 m (p + 4) -> ~ (p + 4 <= a < p + 8) -> parse_udp m' s d p n true ≠ (Ok, Some v')).
Proof.
  intros Hm Hc Hs Hd Hn. pose proof Hc as (Hm' & _ & Hout).
  assert (is_u8 IPV4_PROTOCOL_TCP) as tcp_u8 by (unfold IPV4_PROTOCOL_TCP; word_lia).
  assert (is_u8 IPV4_PROTOCOL_UDP) as udp_u8 by (unfold IPV4_PROTOCOL_UDP; word_lia). split_and!.
  - intros v v' (Hp & Eh & Hl & Ec & _)%parse_ipv4_inv Ha (_ & Eh' & _ & Ec' & _)%parse_ipv4_inv; [|done..].
    rewrite (Hout p) in Eh' by lia. rewrite Eh', <- Eh in Ec'. exact (corrupted_internet m m' p (ip_header_length v) a Hm Hc Hp ltac:(lia) Ec Ec').
  - intros v v' (Hp & Ec & _)%parse_icmp_inv Ha (_ & Ec' & _)%parse_icmp_inv. exact (corrupted_internet m m' p _ a Hm Hc Hp Ha Ec Ec').
  - intros v v' (Hp & _ & Ec & _)%parse_tcp_inv Ha (_ & _ & Ec' & _)%parse_tcp_inv; [|done..].
    exact (corrupted_transport m m' s d _ p n a Hm Hc Hs Hd tcp_u8 Hn Ha Ec Ec').
  - intros v v' (Hp & Hr & Ec & _)%parse_udp_inv Hne Ha Hna (_ & _ & Ec' & _)%parse_udp_inv.
    destruct Ec as [Ec|Ec]; [done|]. pose proof (corrupted_agree m m' a (p + 4) 4 Hc ltac:(lia)) as Hag.
    rewrite <- !(agree_be16 m m' _ _ _ Hag) in Ec' by lia. destruct Ec' as [Ec'|Ec']; [done|].
    exact (corrupted_transport m m' s d _ p (read_be16 m (p + 4)) a Hm Hc Hs Hd udp_u8 ltac:(lia) ltac:(lia) Ec Ec').
Qed.

Lemma corruption_detected_witness :
  let m := store (fun _ => 0) 64 [8; 0; 0x73; 0x71; 0; 7; 0; 1; 65; 66; 67; 68] in
  parse_icmp_echo m 64 12 true = (Ok, Some (mkIcmpView EchoRequest 7 1 72 4)) /\
  forall v, parse_icmp_echo (store8 m 73 99) 64 12 true ≠ (Ok, Some v).
Proof.
  intros m. assert (parse_icmp_echo m 64 12 true = (Ok, Some (mkIcmpView EchoRequest 7 1 72 4))) as E by (vm_compute; reflexivity). split; [exact E|].
  intros v. assert (bytes_ok m) as Hm.
  { apply packet_store_bytes_ok; [intros a; word_lia|]. repeat (apply Forall_cons_2; [word_lia|]). by apply Forall_nil. }
  assert (ip_ok [0; 0; 0; 0]) as Hip by (split; [done|]; apply (Forall_replicate _ 4); word_lia).
  assert (corrupted m (store8 m 73 99) 73) as Hc.
  { split; [|split].
    - intros x. unfold store8. destruct (x =? 73); [word_lia|apply Hm].
    - vm_compute. discriminate.
    - intros x Hx. unfold store8. destruct (Z.eqb_spec x 73); [contradiction|reflexivity]. }
  destruct (corruption_detected m (store8 m 73 99) 64 12 73 [0; 0; 0; 0] [0; 0; 0; 0] Hm Hc Hip Hip ltac:(lia)) as (_ & H & _).
  apply (H _ v E). lia.
Defined.

(** ** Names *)

Definition DOT : Z := 46.

(** The labels of a name, each with its length before it. *)
Definition encode_labels (labels : list (list Z)) : list Z := concat ((fun l => Z.of_nat (length l) :: l) <$> labels).

Lemma encode_cons l labels : encode_labels (l :: labels) = (Z.of_nat (length l) :: l) ++ encode_labels labels.
Proof. reflexivity. Qed.

Definition label_ok (l : list Z) : Prop := (0 < length l <= 63)%nat /\ Forall (fun c => c ≠ DOT) l.

(** The labels with dots between them; the last may be followed by a dot. *)
Fixpoint join_labels (labels : list (list Z)) : list Z :=
  match labels with
  | [] => []
  | [l] => l
  | l :: labels' => l ++ DOT :: join_labels labels'
  end.

Lemma label_of_ok rest : let '(l, after) := label_of rest in
  rest = l ++ after /\ Forall (fun c => c ≠ DOT) l /\ (after = [] \/ exists r, after = DOT :: r).
Proof.
  induction rest as [|c rest IH]; cbn [label_of]; [by split_and!; [|apply Forall_nil|left]|].
  destruct (Z.eqb_spec c 46) as [->|Hc]; [split_and!; [done|by apply Forall_nil|right; by eexists]|].
  destruct (label_of rest) as [l r]. destruct IH as (-> & Hl & Hr). split_and!; [done|by apply Forall_cons|done].
Qed.

Lemma join_labels_nil labels : Forall label_ok labels -> [] = join_labels labels \/ [] = join_labels labels ++ [DOT] -> labels = [].
Proof.
  intros Hl Hj. destruct labels as [|l labels]; [done|]. exfalso. apply Forall_cons in Hl as [[[Hl _] _] _].
  destruct Hj as [Hj|Hj]; [|by destruct (join_labels _)]. apply (f_equal length) in Hj.
  destruct labels; cbn [join_labels] in Hj; rewrite ?length_app in Hj; cbn [length] in Hj; lia.
Qed.

(** The loop of [serialize_dns_a_query] over the labels ends, and writes them. *)
Lemma write_labels_ok fuel : forall m output capacity cursor rest,
  (length rest < fuel)%nat -> bytes_ok m -> Forall is_u8 rest -> 0 <= cursor ->
  exists m' r, write_labels fuel m output capacity cursor rest = Some (m', r) /\ bytes_ok m' /\
    forall c, r = inr c -> exists labels, Forall label_ok labels /\ (rest = join_labels labels \/ rest = join_labels labels ++ [DOT]) /\
      c = cursor + Z.of_nat (length (encode_labels labels)) /\ (rest ≠ [] -> c <= capacity) /\
      load m' (output + cursor) (c - cursor) = encode_labels labels /\ (rest ≠ [] -> labels ≠ []) /\
      forall x, ~ (output + cursor <= x < output + c) -> m' x = m x.
Proof.
  induction fuel as [|fuel IH]; intros m output capacity cursor rest Hf Hm Hr Hc; [lia|]. cbn [write_labels].
  destruct rest as [|b rest0] eqn:Erest.
  { exists m, (inr cursor). split; [done|]. split; [done|]. intros c [= <-]. exists []. rewrite Z.sub_diag.
    split_and!; try done; [by left|cbn; lia]. }
  rewrite <- Erest in *. pose proof (label_of_ok rest) as Hl. destruct (label_of rest) as [l after]. destruct Hl as (El & Hdot & Hafter).
  assert (Forall is_u8 l /\ Forall is_u8 after) as [Hlu Hau] by (rewrite El in Hr; by apply Forall_app in Hr).
  destruct (_ || _) eqn:Eg. { exists m, (inl InvalidArgument). done. }
  assert (0 < Z.of_nat (length l) <= 63) as Hlen by lia. assert (u8 (Z.of_nat (length l)) = Z.of_nat (length l)) as Eu by (apply Z.mod_small; lia).
  rewrite Eu. set (m1 := store (store8 m (output + cursor) (Z.of_nat (length l))) (output + (cursor + 1)) l).
  assert (bytes_ok m1) as Hm1.
  { apply packet_store_bytes_ok; [|done]. rewrite packet_store8_eq. apply packet_store_bytes_ok; [done|]. apply single_u8. word_lia. }
  destruct (IH m1 output capacity (cursor + 1 + Z.of_nat (length l)) (drop 1 after)) as (m' & r & E & Hm' & Hok); [|done| |lia|].
  { rewrite length_drop. rewrite El, length_app in Hf. lia. } { by apply Forall_drop. }
  exists m', r. split; [exact E|]. split; [done|]. intros c Ec. destruct (Hok c Ec) as (labels & H1 & H2 & H3 & H4 & H5 & H6 & H7).
  exists (l :: labels). rewrite encode_cons, length_app. cbn [length].
  split_and!.
  - apply Forall_cons. split; [split; [lia|done]|done].
  - rewrite El. destruct Hafter as [->|(r' & ->)].
    + cbn [drop] in H2. left. rewrite (join_labels_nil labels H1 H2). by rewrite app_nil_r.
    + change (drop 1 (DOT :: r')) with r' in *. destruct (decide (r' = [])) as [->|Hr'].
      * right. by rewrite (join_labels_nil labels H1 H2).
      * specialize (H6 Hr'). destruct labels as [|l' labels]; [done|].
        destruct H2 as [-> | ->]; [left; done|right]. change (join_labels (l :: l' :: labels)) with (l ++ DOT :: join_labels (l' :: labels)).
        by rewrite <- app_assoc.
  - lia.
  - intros _. destruct (decide (drop 1 after = [])) as [Ed|Ed]; [|by apply H4]. rewrite Ed in *.
    rewrite (join_labels_nil labels H1 H2) in H3. cbn in H3. lia.
  - replace (c - cursor) with (1 + Z.of_nat (length l) + (c - (cursor + 1 + Z.of_nat (length l)))) by lia.
    rewrite load_app by lia. f_equal.
    + etrans; [apply (load_eq m' m1 _ (output + cursor)); intros k Hk; apply H7; lia|]. unfold m1.
      rewrite Z.add_assoc. change (store (store8 m (output + cursor) (Z.of_nat (length l))) (output + cursor + 1) l)
        with (store m (output + cursor) (Z.of_nat (length l) :: l)).
      replace (1 + Z.of_nat (length l)) with (Z.of_nat (length (Z.of_nat (length l) :: l))) by (cbn [length]; lia). apply load_store_same.
    + rewrite <- H5. f_equal. lia.
  - done.
  - intros x Hx. rewrite H7 by lia. unfold m1. rewrite store_outside by lia. unfold store8. by replace (x =? output + cursor) with false by lia.
Qed.

(** [skip_labels] skips a name made of the labels and a zero byte. *)
Lemma skip_labels_ok labels : forall fuel m p n position count,
  Forall label_ok labels -> (length labels < fuel)%nat -> count + Z.of_nat (length labels) <= 127 -> 0 <= position ->
  position + Z.of_nat (length (encode_labels labels)) + 1 <= n ->
  load m (p + position) (Z.of_nat (length (encode_labels labels)) + 1) = encode_labels labels ++ [0] ->
  skip_labels fuel m p n position count = Some (inr (position + Z.of_nat (length (encode_labels labels)) + 1)).
Proof.
  induction labels as [|l labels IH]; intros fuel m p n position count Hl Hf Hn Hp Hlen Hload; (destruct fuel as [|fuel]; [cbn in Hf; lia|]); cbn [skip_labels].
  - cbn in Hlen. replace (position <? n) with true by lia. cbn [negb].
    assert (m (p + position) = 0) as -> by (apply (load_first _ _ _ _ Hload); cbn; lia). cbn. do 2 f_equal. lia.
  - apply Forall_cons in Hl as [[Hl Hdot] Hls]. rewrite encode_cons, length_app in *. cbn [length] in *.
    replace (position <? n) with true by lia. cbn [negb].
    assert (m (p + position) = Z.of_nat (length l)) as E by (apply (load_first _ _ _ _ Hload); lia).
    rewrite E. replace (Z.of_nat (length l) =? 0) with false by lia.
    assert (Z.land (Z.of_nat (length l)) 192 = 0) as ->.
    { assert (exists k, (k <= 63)%nat /\ Z.of_nat (length l) = Z.of_nat k) as (k & Hk & ->) by (exists (length l); lia). clear -Hk.
      do 64 (destruct k as [|k]; [reflexivity|]). lia. }
    change (0 =? 192) with false. change (0 =? 0) with true. replace (_ || _) with false by lia. replace (127 <? count + 1) with false by lia.
    rewrite (IH fuel m p n); try done; try lia.
    + do 2 f_equal. lia.
    + pose proof (load_part _ _ _ _ (1 + Z.of_nat (length l)) (Z.of_nat (length (encode_labels labels)) + 1) Hload
        ltac:(lia) ltac:(lia) ltac:(lia)) as Hp2.
      replace (p + (position + 1 + Z.of_nat (length l))) with (p + position + (1 + Z.of_nat (length l))) by lia. rewrite Hp2.
      replace (Z.to_nat (1 + Z.of_nat (length l))) with (S (length l)) by lia. cbn [app drop]. rewrite <- app_assoc, drop_app_length.
      apply take_ge. rewrite length_app. cbn [length]. lia.
Qed.

Lemma join_labels_length labels : Forall label_ok labels -> (2 * length labels <= length (join_labels labels) + 1)%nat.
Proof.
  induction labels as [|l labels IH]; intros Hl; [cbn; lia|]. apply Forall_cons in Hl as [[[Hl _] _] Hls]. specialize (IH Hls).
  destruct labels as [|l' labels]; [cbn [join_labels length]; lia|].
  change (join_labels (l :: l' :: labels)) with (l ++ DOT :: join_labels (l' :: labels)). rewrite length_app. cbn [length] in *. lia.
Qed.

Definition dns_query_bytes (id : Z) (labels : list (list Z)) : list Z :=
  (be16 id ++ be16 0x0100 ++ be16 1 ++ [0; 0; 0; 0; 0; 0]) ++ (encode_labels labels ++ [0]) ++ be16 1 ++ be16 1.

(** a DNS query encodes its name faithfully.  [serialize_dns_a_query] always
    ends; when it succeeds within the capacity, the name is a sequence of labels of
    1 to 63 characters joined by dots, perhaps with a last dot, the packet is the
    header, each label after its length, a zero byte and the type and class, and
    [skip_dns_name], which finds its way through the question of a response,
    skips exactly that name. *)
Theorem dns_query_roundtrip m id name output capacity :
  bytes_ok m -> 0 < output -> Forall is_u8 name -> 0 <= capacity ->
  exists m' st n, serialize_dns_a_query m id (Some name) output capacity true = Some (m', st, Some n) /\
    (st = Ok -> n <= capacity /\ exists labels,
       Forall label_ok labels /\ labels ≠ [] /\ (name = join_labels labels \/ name = join_labels labels ++ [DOT]) /\
       load m' output n = dns_query_bytes id labels /\
       skip_dns_name m' output n 12 = Some (inr (n - 4))).
Proof.
  intros Hm Ho Hname Hcap. unfold serialize_dns_a_query. replace (output =? 0) with false by lia. cbn [negb orb].
  destruct (decide (name = [])) as [Hn|Hn]; [rewrite bool_decide_true by done; by eexists _, _, _|]. rewrite bool_decide_false by done.
  destruct (Z.ltb_spec capacity 17); [by eexists _, _, _|]. rewrite !write_be16_eq by lia.
  destruct (Z.ltb_spec 253 (Z.of_nat (length name))); [by eexists _, _, _|].
  set (m1 := store (store (store (clear_bytes m output capacity) output (be16 id)) (output + 2) (be16 0x100)) (output + 4) (be16 1)).
  assert (bytes_ok m1) as Hm1 by (unfold m1, clear_bytes; stores_ok).
  assert (load m1 output 12 = be16 id ++ be16 0x0100 ++ be16 1 ++ [0; 0; 0; 0; 0; 0]) as Hhead.
  { unfold m1. rewrite !load_store_inside, load_store_base by (cbn [length be16]; lia).
    assert (load (clear_bytes m output capacity) output 12 = replicate 12 0) as ->; [|reflexivity].
    unfold clear_bytes. pose proof (load_store_same m output (replicate (Z.to_nat capacity) 0)) as E. rewrite length_replicate, Z2Nat.id in E by lia.
    rewrite (load_prefix _ _ _ _ 12 E) by lia. rewrite take_replicate. f_equal. lia. }
  destruct (write_labels_ok (S (length name)) m1 output capacity 12 name) as (m2 & r & E & Hm2 & Hok); [lia|done|done|lia|].
  rewrite E. cbn [mbind option_bind]. destruct r as [st|cursor]; [eexists _, _, _; split; [reflexivity|]; intros ->|].
  { exfalso. clearbody m1. clear -E. revert E. generalize (S (length name)). intros fuel. revert m1 name. generalize 12.
    induction fuel as [|fuel IH]; intros c m1 name E; [done|]. cbn [write_labels] in E. destruct name as [|b name]; [done|].
    destruct (label_of (b :: name)) as [l after]. destruct (_ || _); [done|]. by apply IH in E. }
  destruct (Hok cursor eq_refl) as (labels & H1 & H2 & H3 & H4 & H5 & H6 & H7).
  destruct (Z.ltb_spec capacity (cursor + 5)); [by eexists _, _, _|]. eexists _, _, _. split; [reflexivity|]. intros _.
  split; [lia|]. exists labels. split; [done|]. split; [by apply H6|]. split; [done|]. rewrite !write_be16_eq, packet_store8_eq by lia.
  set (m3 := store (store (store m2 (output + cursor) [0]) (output + (cursor + 1)) (be16 1)) (output + (cursor + 1) + 2) (be16 1)).
  set (len := Z.of_nat (length (encode_labels labels))) in *.
  assert (load m3 output 12 = be16 id ++ be16 0x0100 ++ be16 1 ++ [0; 0; 0; 0; 0; 0]) as E1.
  { rewrite <- Hhead. apply load_eq. intros k Hk. unfold m3. rewrite !store_outside by (cbn [length be16]; lia). apply H7. lia. }
  assert (load m3 (output + 12) (len + 1) = encode_labels labels ++ [0]) as E2.
  { rewrite load_app by lia. f_equal.
    - rewrite <- H5. replace (cursor - 12) with len by lia. apply load_eq. intros k Hk. unfold m3. rewrite !store_outside by (cbn [length be16]; lia). done.
    - unfold m3. rewrite !load_store_outside by (cbn [length be16]; lia). replace (output + 12 + len) with (output + cursor) by lia.
      exact (load_store_same m2 (output + cursor) [0]). }
  assert (load m3 (output + (cursor + 1)) 4 = be16 1 ++ be16 1) as E3.
  { change 4 with (2 + 2). rewrite load_app by lia. unfold m3. f_equal.
    - rewrite load_store_outside by (cbn [length be16]; lia). exact (load_store_same _ (output + (cursor + 1)) (be16 1)).
    - exact (load_store_same _ (output + (cursor + 1) + 2) (be16 1)). }
  split.
  - unfold dns_query_bytes. replace (cursor + 5) with (12 + (len + 1 + 4)) by lia. rewrite load_app, (load_app _ (output + 12)) by lia.
    rewrite E1, E2. do 2 f_equal. rewrite <- E3. f_equal. lia.
  - unfold skip_dns_name. replace (output =? 0) with false by lia. replace (cursor + 5 <=? 12) with false by lia. cbn [orb].
    pose proof (join_labels_length labels H1). assert (length (join_labels labels) <= length name)%nat.
    { destruct H2 as [-> | ->]; [lia|]. rewrite length_app. lia. }
    rewrite (skip_labels_ok labels); try done; fold len; [do 2 f_equal; lia|unfold skip_fuel; lia|lia..].
Qed.

Lemma dns_query_roundtrip_witness :
  exists m' n, serialize_dns_a_query (fun _ => 7) 4660 (Some [97; 98; 46; 99]) 64 40 true = Some (m', Ok, Some n) /\
    load m' 64 n = dns_query_bytes 4660 [[97; 98]; [99]] /\ skip_dns_name m' 64 n 12 = Some (inr (n - 4)).
Proof.
  destruct (dns_query_roundtrip (fun _ => 7) 4660 [97; 98; 46; 99] 64 40) as (m' & st & n & E & H); [intros a; word_lia|lia| |lia|].
  - repeat (apply Forall_cons_2; [word_lia|]). by apply Forall_nil.
  - exists m', n. assert (st = Ok /\ n = 22) as [-> ->].
    { apply (f_equal (fmap (fun x => (snd (fst x), snd x)))) in E. vm_compute in E. injection E as <- <-. done. }
    split; [exact E|]. destruct (H eq_refl) as (_ & labels & _ & _ & _ & _ & Hs). split; [|exact Hs].
    injection E as <-. vm_compute. reflexivity.
Defined.

(** ** Termination of the parsers *)

Lemma skip_labels_total fuel : forall m p n position labels, 128 <= Z.of_nat fuel + labels -> 0 <= labels <= 127 ->
  skip_labels fuel m p n position labels ≠ None.
Proof.
  induction fuel as [|fuel IH]; intros m p n position labels Hf Hl; [lia|]. cbn [skip_labels].
  repeat case_match; try done. apply IH; lia.
Qed.

Lemma skip_dns_name_total m p n cursor : skip_dns_name m p n cursor ≠ None.
Proof. unfold skip_dns_name. case_match; [done|]. apply skip_labels_total; unfold skip_fuel; lia. Qed.

Lemma skip_questions_total questions : forall m p n cursor, skip_questions questions m p n cursor ≠ None.
Proof.
  induction questions as [|q IH]; intros m p n cursor; cbn [skip_questions]; [done|]. pose proof (skip_dns_name_total m p n cursor).
  destruct (skip_dns_name m p n cursor) as [[st|c]|]; cbn [mbind option_bind]; try done. case_match; [done|]. apply IH.
Qed.

Lemma find_answer_total answers : forall m p n cursor id, find_answer answers m p n cursor id ≠ None.
Proof.
  induction answers as [|a IH]; intros m p n cursor id; cbn [find_answer]; [done|]. pose proof (skip_dns_name_total m p n cursor).
  destruct (skip_dns_name m p n cursor) as [[st|c]|]; cbn [mbind option_bind]; try done. repeat case_match; try done; apply IH.
Qed.

Lemma parse_options_total fuel : forall m p n cursor result t, bytes_ok m -> n - cursor < Z.of_nat fuel -> 0 < Z.of_nat fuel ->
  parse_options fuel m p n cursor result t ≠ None.
Proof.
  induction fuel as [|fuel IH]; intros m p n cursor result t Hm Hf H0; [lia|]. cbn [parse_options].
  destruct (Z.ltb_spec cursor n); [|done]. cbn [negb]. case_match; [done|]. case_match; [apply IH; done || lia|].
  case_match; [done|]. case_match; [done|]. destruct (apply_option _ _ _ _ _ _) as [[r t']|]; [|done].
  pose proof (Hm (p + (cursor + 1))) as Hb. unfold is_u8 in Hb. apply IH; [done|lia|lia].
Qed.

(** the parsers end on every packet.  The loops over the options of a DHCP
    reply, over the labels of a DNS name and over the questions and answers of a DNS
    response never run out of the fuel given to them, whatever the packet holds. *)
Theorem parsers_terminate m p n id client b :
  bytes_ok m -> parse_dhcp_reply m p n id client b ≠ None /\ parse_dns_a_response m p n id b ≠ None.
Proof.
  intros Hm. split.
  - unfold parse_dhcp_reply. do 4 (case_match; [done|]).
    match goal with |- context [parse_options ?f ?a ?b ?c ?d ?e ?g] => pose proof (parse_options_total f a b c d e g Hm) as Ht;
      destruct (parse_options f a b c d e g) as [[[r t]|]|] end; [by case_match|done|].
    exfalso. apply Ht; unfold DHCP_FIXED_SIZE; lia || done.
  - unfold parse_dns_a_response. do 6 (case_match; [done|]). case_match; [done|]. pose proof (skip_questions_total (Z.to_nat (read_be16 m (p + 4))) m p n 12) as Hq.
    destruct (skip_questions _ _ _ _ _) as [[st|c]|]; cbn [mbind option_bind]; try done. apply find_answer_total.
Qed.

Lemma parsers_terminate_witness :
  parse_dhcp_reply (fun _ => 2) 64 300 0x02020202 [2; 2; 2; 2; 2; 2] true ≠ None /\
  parse_dns_a_response (fun _ => 192) 64 30 49344 true ≠ None.
Proof.
  split.
  - apply (parsers_terminate (fun _ => 2) 64 300 0x02020202 [2; 2; 2; 2; 2; 2] true). intros a. word_lia.
  - apply (parsers_terminate (fun _ => 192) 64 30 49344 [] true). intros a. word_lia.
Defined.
