(* ===== verification/Dhcp.v ===== *)
(** * Leases (kernel/net/dhcp.cpp)

    The exchange of [acquire]: up to three discoveries until an offer arrives, up to
    three requests until it is acknowledged, each waiting for a bounded number of
    polls.  The local arrays [frame] and [message] are regions of the memory of
    Packet.v at the addresses given; the interface is that of NetworkStack.v.  A
    null interface is [None].  The pause between polls changes no state. *)

From S2P Require Import Prelude Packet Network Protocols NetworkStack NetworkTheorems ParserSafety.

(** ** Data *)

Record Lease := mkLease {
  l_configuration : IPv4Config; l_dns_server : IPv4Address; l_server_identifier : IPv4Address; l_lease_seconds : Z }.

Definition BROADCAST_IP : IPv4Address := [255; 255; 255; 255].
Definition CLIENT_PORT : Z := 68.
Definition SERVER_PORT : Z := 67.
Definition WAIT_BUDGET : positive := 10000000.
Definition ATTEMPTS : nat := 3.
Definition MESSAGE_SIZE : Z := 576.

Definition transaction_step (value byte : Z) : Z := Z.lxor (Z.lxor (u32 (Z.shiftl value 5)) (Z.shiftr value 2)) byte.

Definition transaction_for (mac : MacAddress) : Z :=
  let value := foldl transaction_step 0x4b550000 ((fun index => word_at mac index) <$> seqZ 0 MAC_ADDRESS_LENGTH) in
  if value =? 0 then 0x4b55524f else value.

Definition inherit_offer_configuration (offer acknowledgement : DhcpMessageView) : DhcpMessageView :=
  let take_netmask := negb (has_netmask acknowledgement) && has_netmask offer in
  let take_gateway := negb (has_gateway acknowledgement) && has_gateway offer in
  let take_dns := negb (has_dns_server acknowledgement) && has_dns_server offer in
  let take_server := negb (has_server_identifier acknowledgement) && has_server_identifier offer in
  let take_lease := (lease_seconds acknowledgement =? 0) && negb (lease_seconds offer =? 0) in
  mkDhcpView (dm_type acknowledgement) (dm_transaction_id acknowledgement) (offered_address acknowledgement)
    (if take_server then server_identifier offer else server_identifier acknowledgement)
    (if take_netmask then netmask offer else netmask acknowledgement)
    (if take_gateway then gateway offer else gateway acknowledgement)
    (if take_dns then dns_server offer else dns_server acknowledgement)
    (if take_lease then lease_seconds offer else lease_seconds acknowledgement)
    (take_server || has_server_identifier acknowledgement) (take_netmask || has_netmask acknowledgement)
    (take_gateway || has_gateway acknowledgement) (take_dns || has_dns_server acknowledgement).

Section dhcp.
Context {W : Type} (i : NetworkInterface W) (frame message : Z).

Definition transmit_message (m : Memory) (w : W) (message_length identification : Z) : Memory * W * Status :=
  let m := clear_bytes m frame ETHERNET_MAX_FRAME_SIZE in
  let udp_offset := ETHERNET_HEADER_SIZE + IPV4_MIN_HEADER_SIZE in
  if UDP_MAX_PAYLOAD <? message_length then (m, w, PayloadTooLarge)
  else
    match serialize_udp m ZERO_IP BROADCAST_IP CLIENT_PORT SERVER_PORT message message_length (frame + udp_offset)
            (ETHERNET_MAX_FRAME_SIZE - udp_offset) true with
    | (m, Ok, udp_length) =>
        let header := mkIPv4Header ZERO_IP BROADCAST_IP IPV4_PROTOCOL_UDP 64 identification true in
        match serialize_ipv4 m header (frame + udp_offset) (default 0 udp_length) (frame + ETHERNET_HEADER_SIZE) ETHERNET_MTU true with
        | (m, Ok, ipv4_length) =>
            match serialize_ethernet m BROADCAST_MAC (hardware_address i) ETHER_TYPE_IPV4 (frame + ETHERNET_HEADER_SIZE)
                    (default 0 ipv4_length) frame ETHERNET_MAX_FRAME_SIZE true with
            | (m, Ok, frame_length) =>
                let '(w, status) := interface_transmit (Some i) m w frame (default 0 frame_length) in (m, w, status)
            | (m, status, _) => (m, w, status)
            end
        | (m, status, _) => (m, w, status)
        end
    | (m, status, _) => (m, w, status)
    end.

(** The DHCP message in the frame buffer, when every layer accepts it;
    [parse_dhcp_reply] always ends. *)
Definition message_in_frame (m : Memory) (transaction_id frame_length : Z) : option DhcpMessageView :=
  match parse_ethernet m frame frame_length true with
  | (Ok, Some ethernet) =>
      if negb (ef_ether_type ethernet =? ETHER_TYPE_IPV4) then None
      else
        match parse_ipv4 m (ef_payload ethernet) (ef_payload_length ethernet) true with
        | (Ok, Some ipv4) =>
            if negb (ip_protocol ipv4 =? IPV4_PROTOCOL_UDP) then None
            else
              match parse_udp m (ip_source ipv4) (ip_destination ipv4) (ip_payload ipv4) (ip_payload_length ipv4) true with
              | (Ok, Some udp) =>
                  if negb (ud_source_port udp =? SERVER_PORT) || negb (ud_destination_port udp =? CLIENT_PORT) then None
                  else
                    match parse_dhcp_reply m (ud_payload udp) (ud_payload_length udp) transaction_id (hardware_address i) true with
                    | Some (Ok, Some message) => Some message
                    | _ => None
                    end
              | _ => None
              end
        | _ => None
        end
  | _ => None
  end.

(** One round of the loop of [wait_for_reply]. *)
Definition wait_step (transaction_id : Z) (expected : DhcpMessageType) (s : Memory * W)
  : Memory * W + Memory * W * Status * option DhcpMessageView :=
  let '(m, w) := s in
  match interface_receive (Some i) m w frame ETHERNET_MAX_FRAME_SIZE true with
  | (m, w, WouldBlock, _) => inl (m, w)
  | (m, w, Ok, frame_length) =>
      match message_in_frame m transaction_id (default 0 frame_length) with
      | None => inl (m, w)
      | Some message =>
          if bool_decide (dm_type message = Some Nak) then inr (m, w, InvalidConfiguration, None)
          else if bool_decide (dm_type message = Some expected) then inr (m, w, Ok, Some message)
          else inl (m, w)
      end
  | (m, w, status, _) => inr (m, w, status, None)
  end.

Definition wait_for_reply (m : Memory) (w : W) (transaction_id : Z) (expected : DhcpMessageType)
  : Memory * W * Status * option DhcpMessageView :=
  match iterate WAIT_BUDGET (wait_step transaction_id expected) (clear_bytes m frame ETHERNET_MAX_FRAME_SIZE, w) with
  | inl (m, w) => (m, w, WouldBlock, None)
  | inr r => r
  end.

(** The two loops of [acquire], which differ in the message they send, in the reply
    they wait for and in the identification of the first packet.  [attempts]
    counts down.  A status and a message, when a reply came. *)
Fixpoint exchange (attempts : nat) (serialize : Memory -> Memory * Status * option Z) (transaction_id : Z)
    (expected : DhcpMessageType) (identification : Z) (m : Memory) (w : W) : Memory * W * Status * option DhcpMessageView :=
  match attempts with
  | O => (m, w, Ok, None)
  | S attempts' =>
      match serialize m with
      | (m, Ok, length) =>
          match transmit_message m w (default 0 length) identification with
          | (m, w, Ok) =>
              match wait_for_reply m w transaction_id expected with
              | (m, w, Ok, reply) => (m, w, Ok, reply)
              | (m, w, WouldBlock, _) => exchange attempts' serialize transaction_id expected (u16 (identification + 1)) m w
              | (m, w, status, _) => (m, w, status, None)
              end
          | (m, w, status) => (m, w, status, None)
          end
      | (m, status, _) => (m, w, status, None)
      end
  end.

Definition exchange_offer (m : Memory) (w : W) (transaction : Z) : Memory * W * Status * option DhcpMessageView :=
  exchange ATTEMPTS (fun m => serialize_dhcp_discover m transaction (hardware_address i) message MESSAGE_SIZE true)
    transaction Offer 1 m w.

Definition exchange_request (m : Memory) (w : W) (transaction : Z) (offer : DhcpMessageView)
  : Memory * W * Status * option DhcpMessageView :=
  exchange ATTEMPTS (fun m => serialize_dhcp_request m transaction (hardware_address i) (offered_address offer)
                                (server_identifier offer) message MESSAGE_SIZE true)
    transaction Ack 4 m w.

(** The lease of an acknowledgement that has inherited from its offer. *)
Definition make_lease (offer acknowledgement : DhcpMessageView) : Lease :=
  mkLease (mkConfig (offered_address acknowledgement) (netmask acknowledgement) (gateway acknowledgement))
    (dns_server acknowledgement)
    (if has_server_identifier acknowledgement then server_identifier acknowledgement else server_identifier offer)
    (lease_seconds acknowledgement).

End dhcp.

(** [has_lease] is false for a null [out_lease]. *)
Definition acquire {W} (i : option (NetworkInterface W)) (frame message : Z) (m : Memory) (w : W) (has_lease : bool)
  : Memory * W * Status * option Lease :=
  match i with
  | None => (m, w, InvalidArgument, None)
  | Some i =>
      if negb has_lease || bool_decide (transmit i = None) || bool_decide (receive_from i = None) then (m, w, InvalidArgument, None)
      else
        let transaction := transaction_for (hardware_address i) in
        let m := clear_bytes m message MESSAGE_SIZE in
        match exchange_offer i frame message m w transaction with
        | (m, w, Ok, Some offer) =>
            if negb (has_server_identifier offer) then (m, w, WouldBlock, None)
            else
              match exchange_request i frame message m w transaction offer with
              | (m, w, Ok, Some acknowledgement) =>
                  let acknowledgement := inherit_offer_configuration offer acknowledgement in
                  if negb (has_netmask acknowledgement) || negb (has_gateway acknowledgement) || negb (has_dns_server acknowledgement)
                  then (m, w, InvalidConfiguration, None)
                  else (m, w, Ok, Some (make_lease offer acknowledgement))
              | (m, w, Ok, None) => (m, w, WouldBlock, None)
              | (m, w, status, _) => (m, w, status, None)
              end
        | (m, w, Ok, None) => (m, w, WouldBlock, None)
        | (m, w, status, _) => (m, w, status, None)
        end
  end.

(** ** Where a lease comes from *)

(** A message of type [t] for this transaction was in a frame that the device delivered. *)
Definition received_reply {W} (i : NetworkInterface W) (frame transaction : Z) (t : DhcpMessageType) (reply : DhcpMessageView) : Prop :=
  dm_type reply = Some t /\
  exists recv w w' n bytes m, receive_from i = Some recv /\ recv w ETHERNET_MAX_FRAME_SIZE = (w', Ok, n, bytes) /\
    message_in_frame i (frame) (store m frame bytes) transaction n = Some reply.

Section sound.
Context {W : Type} (i : NetworkInterface W) (frame message : Z).

Lemma interface_receive_ok m w capacity m' w' n :
  interface_receive (Some i) m w frame capacity true = (m', w', Ok, n) ->
  exists recv k bytes, receive_from i = Some recv /\ recv w capacity = (w', Ok, k, bytes) /\ n = Some k /\ m' = store m frame bytes /\
    k <= capacity.
Proof.
  unfold interface_receive. cbn [mbind option_bind]. destruct (receive_from i) as [recv|]; [|done]. destruct (_ || _); [done|].
  destruct (recv w capacity) as [[[w1 st] k] bytes] eqn:E. destruct st; cbn; try done. destruct (Z.ltb_spec capacity k); [done|].
  intros [= <- <- <-]. by exists recv, k, bytes.
Qed.

Lemma wait_step_ok tr expected s m' w' reply :
  wait_step i frame tr expected s = inr (m', w', Ok, reply) -> exists msg, reply = Some msg /\ received_reply i frame tr expected msg.
Proof.
  destruct s as [m w]. unfold wait_step. destruct (interface_receive _ _ _ _ _ _) as [[[m1 w1] st] n] eqn:E. destruct st; try done.
  apply interface_receive_ok in E as (recv & k & bytes & Hr & Hc & -> & -> & _). cbn [default id from_option].
  destruct (message_in_frame _ _ _ _ _) as [msg|] eqn:Em; [|done]. destruct (bool_decide (dm_type msg = Some Nak)); [done|].
  destruct (bool_decide _) eqn:Et; [|done]. apply bool_decide_eq_true in Et. intros [= <- <- <-]. exists msg. split; [done|].
  split; [done|]. by exists recv, w, w1, k, bytes, m.
Qed.

Lemma exchange_ok attempts serialize tr expected : forall id m w m' w' reply,
  exchange i frame message attempts serialize tr expected id m w = (m', w', Ok, Some reply) -> received_reply i frame tr expected reply.
Proof.
  induction attempts as [|attempts IH]; intros id m w m' w' reply; cbn [exchange]; [done|].
  destruct (serialize m) as [[m1 st1] n]. destruct st1; try done. destruct (transmit_message _ _ _ _ _ _ _) as [[m2 w2] st2]. destruct st2; try done.
  unfold wait_for_reply. destruct (iterate _ _ _) as [[m3 w3]|[[[m3 w3] st3] r]] eqn:E; [apply IH|].
  destruct st3; try done; [|apply IH]. intros [= <- <- ->]. apply iterate_inr in E as [s E]. apply wait_step_ok in E as (msg & [= ->] & Hm). done.
Qed.

Lemma parse_dhcp_address m p n id client msg : parse_dhcp_reply m p n id client true = Some (Ok, Some msg) ->
  ipv4_is_zero (offered_address msg) = false.
Proof.
  unfold parse_dhcp_reply. repeat guard_step. destruct (parse_options _ _ _ _ _ _ _) as [[[r t]|]|]; try done.
  destruct (negb t || _) eqn:E; [done|]. intros [= <-]. by apply orb_false_iff in E as [_ ?].
Qed.

Lemma message_in_frame_ok m tr n msg : message_in_frame i frame m tr n = Some msg -> ipv4_is_zero (offered_address msg) = false.
Proof.
  unfold message_in_frame. destruct (parse_ethernet _ _ _ _) as [[] [e|]]; try done. guard_step.
  destruct (parse_ipv4 _ _ _ _) as [[] [v|]]; try done. guard_step. destruct (parse_udp _ _ _ _ _ _) as [[] [u|]]; try done.
  guard_step. destruct (parse_dhcp_reply _ _ _ _ _ _) as [[[] [r|]]|] eqn:E; try done. intros [= <-].
  by apply parse_dhcp_address in E.
Qed.
End sound.

(** An option of a lease: the acknowledgement's, or else the offer's. *)
Definition inherited {A : Type} (has_ack : bool) (ack : A) (has_offer : bool) (offer value : A) : Prop :=
  (has_ack = true /\ value = ack) \/ (has_ack = false /\ has_offer = true /\ value = offer).

(** C32: a lease always comes from an offer and an acknowledgement.  When [acquire]
    succeeds, whatever the device did, there is a lease, and the device delivered a
    DHCP offer that names its server and a DHCP acknowledgement, both accepted for
    this client's transaction; the address is the acknowledged one and not zero;
    and the netmask, the gateway and the name server are each the acknowledgement's
    or, when it has none, the offer's. *)
Theorem acquire_sound {W} (i : NetworkInterface W) frame message m w has_lease m' w' r :
  acquire (Some i) frame message m w has_lease = (m', w', Ok, r) ->
  let tr := transaction_for (hardware_address i) in
  exists lease offer ack, r = Some lease /\
    received_reply i frame tr Offer offer /\ received_reply i frame tr Ack ack /\ has_server_identifier offer = true /\
    c_address (l_configuration lease) = offered_address ack /\ ipv4_is_zero (c_address (l_configuration lease)) = false /\
    inherited (has_netmask ack) (netmask ack) (has_netmask offer) (netmask offer) (c_netmask (l_configuration lease)) /\
    inherited (has_gateway ack) (gateway ack) (has_gateway offer) (gateway offer) (c_gateway (l_configuration lease)) /\
    inherited (has_dns_server ack) (dns_server ack) (has_dns_server offer) (dns_server offer) (l_dns_server lease) /\
    inherited (has_server_identifier ack) (server_identifier ack) (has_server_identifier offer) (server_identifier offer)
      (l_server_identifier lease).
Proof.
  intros E tr. unfold acquire in E. destruct (_ || _); [done|]. fold tr in E.
  destruct (exchange_offer _ _ _ _ _ _) as [[[m1 w1] st1] [offer|]] eqn:Eo; destruct st1; try done.
  destruct (has_server_identifier offer) eqn:Hs; [|done]. cbn [negb] in E.
  destruct (exchange_request _ _ _ _ _ _ _) as [[[m2 w2] st2] [ack|]] eqn:Ea; destruct st2; try done.
  destruct (_ || _) eqn:Eh; [done|]. injection E as <- <- <-.
  unfold exchange_offer in Eo. unfold exchange_request in Ea. apply exchange_ok in Eo. apply exchange_ok in Ea. exists (make_lease offer (inherit_offer_configuration offer ack)), offer, ack.
  destruct Ea as [Ht (recv & wa & wb & n & bytes & ma & Hr1 & Hr2 & Hm)].
  unfold make_lease, inherit_offer_configuration, inherited in *. cbn [l_configuration l_dns_server l_server_identifier c_address c_netmask c_gateway
    offered_address netmask gateway dns_server server_identifier has_netmask has_gateway has_dns_server has_server_identifier] in *.
  rewrite Hs. split_and!; try done.
  - split; [done|]. by exists recv, wa, wb, n, bytes, ma.
  - by apply message_in_frame_ok in Hm.
  - destruct (has_netmask ack), (has_netmask offer); cbn in *; auto; done.
  - destruct (has_gateway ack), (has_gateway offer); cbn in *; auto. by rewrite orb_true_r in Eh.
  - destruct (has_dns_server ack), (has_dns_server offer); cbn in *; auto. by rewrite !orb_true_r in Eh.
  - destruct (has_server_identifier ack); cbn; auto.
Qed.

(** ** What is sent *)

Definition option_bytes (o : Z * list Z) : list Z := fst o :: Z.of_nat (length (snd o)) :: snd o.
Definition encode_options (options : list (Z * list Z)) : list Z := concat (option_bytes <$> options).
Definition option_ok (o : Z * list Z) : Prop := is_u8 (fst o) /\ (length (snd o) <= 255)%nat /\ Forall is_u8 (snd o).

Lemma encode_option o options : encode_options (o :: options) = option_bytes o ++ encode_options options.
Proof. reflexivity. Qed.

Lemma append_options_ok options : forall m output capacity cursor,
  bytes_ok m -> Forall option_ok options -> 0 <= cursor -> cursor + Z.of_nat (length (encode_options options)) <= capacity ->
  exists m', append_options m output capacity cursor options = (m', Some (cursor + Z.of_nat (length (encode_options options)))) /\
    bytes_ok m' /\ load m' (output + cursor) (Z.of_nat (length (encode_options options))) = encode_options options /\
    forall x, ~ (output + cursor <= x < output + cursor + Z.of_nat (length (encode_options options))) -> m' x = m x.
Proof.
  induction options as [|[t v] options IH]; intros m output capacity cursor Hm Hok Hc Hcap; cbn [append_options].
  { exists m. cbn. split_and!; try done. by rewrite Z.add_0_r. }
  apply Forall_cons in Hok as [(Ht & Hv & Hu) Hok]. rewrite encode_option, length_app in *. unfold option_bytes in *. cbn [fst snd length] in *.
  unfold append_option. replace (_ || _ || _) with false by lia.
  assert (u8 (Z.of_nat (length v)) = Z.of_nat (length v)) as -> by (apply Z.mod_small; lia).
  set (bytes := t :: Z.of_nat (length v) :: v).
  assert (store (store8 (store8 m (output + cursor) t) (output + (cursor + 1)) (Z.of_nat (length v))) (output + (cursor + 2)) v =
    store m (output + cursor) bytes) as ->.
  { replace (output + (cursor + 1)) with (output + cursor + 1) by lia. replace (output + (cursor + 2)) with (output + cursor + 1 + 1) by lia.
    reflexivity. }
  assert (bytes_ok (store m (output + cursor) bytes)) as Hm1.
  { apply packet_store_bytes_ok; [done|]. apply Forall_cons_2; [done|]. apply Forall_cons_2; [word_lia|done]. }
  destruct (IH (store m (output + cursor) bytes) output capacity (cursor + 2 + Z.of_nat (length v)) Hm1 Hok) as (m' & E & Hm' & Hload & Hout);
    [lia|lia|]. exists m'. rewrite E. split; [do 2 f_equal; lia|]. split; [done|].
  assert (Z.of_nat (length bytes) = 2 + Z.of_nat (length v)) as Hlen by (unfold bytes; cbn [length]; lia). split.
  - replace (Z.of_nat (S (S (length v)) + length (encode_options options))) with (Z.of_nat (length bytes) + Z.of_nat (length (encode_options options))) by lia.
    rewrite load_app by lia. f_equal.
    + etrans; [apply (load_eq m' (store m (output + cursor) bytes) _ (output + cursor)); intros k Hk; apply Hout; lia|]. apply load_store_same.
    + etrans; [|exact Hload]. f_equal; lia.
  - intros x Hx. rewrite Hout by lia. apply store_outside. lia.
Qed.

(** The fixed part of a client's message. *)
Definition dhcp_fixed (transaction : Z) (client : MacAddress) : list Z :=
  [1; 1; 6; 0] ++ be32 transaction ++ [0; 0] ++ be16 0x8000 ++ replicate 16 0 ++ client ++ replicate 202 0 ++ be32 DHCP_COOKIE.

Definition dhcp_bytes (transaction : Z) (client : MacAddress) (options : list (Z * list Z)) : list Z :=
  dhcp_fixed transaction client ++ encode_options options ++ [DHCP_OPTION_END].

Lemma initialize_dhcp_ok m transaction client output capacity :
  bytes_ok m -> mac_ok client -> 0 < output -> DHCP_FIXED_SIZE < capacity ->
  exists m', initialize_dhcp_request m transaction client output capacity = (m', Ok, DHCP_FIXED_SIZE) /\ bytes_ok m' /\
    load m' output DHCP_FIXED_SIZE = dhcp_fixed transaction client /\
    forall x, ~ (output <= x < output + capacity) -> m' x = m x.
Proof.
  intros Hm [Hl Hu] Ho Hc. unfold initialize_dhcp_request, DHCP_FIXED_SIZE in *. replace (output =? 0) with false by lia.
  replace (capacity <? 240 + 1) with false by lia. eexists. split; [reflexivity|]. rewrite !write_be32_eq, !write_be16_eq, !packet_store8_eq by lia.
  change (u8 MAC_ADDRESS_LENGTH) with 6. split; [|split].
  - unfold clear_bytes. stores_ok.
  - rewrite !load_store_inside, load_store_base by (cbn [length be16 be32]; lia).
    assert (load (clear_bytes m output capacity) output 240 = replicate 240 0) as ->.
    { unfold clear_bytes. pose proof (load_store_same m output (replicate (Z.to_nat capacity) 0)) as E. rewrite length_replicate, Z2Nat.id in E by lia.
      rewrite (load_prefix _ _ _ _ 240 E) by lia. rewrite take_replicate. f_equal. lia. }
    explicit_list client. reflexivity.
  - intros x Hx. unfold clear_bytes. rewrite !store_outside by (rewrite ?length_replicate; cbn [length be16 be32]; lia). done.
Qed.

Lemma dhcp_fixed_length transaction client : length client = 6%nat -> length (dhcp_fixed transaction client) = 240%nat.
Proof. intros H. unfold dhcp_fixed. rewrite !length_app, H, !length_replicate. reflexivity. Qed.

Lemma serialize_dhcp_ok m transaction client options output capacity :
  bytes_ok m -> mac_ok client -> Forall option_ok options -> 0 < output ->
  let n := DHCP_FIXED_SIZE + Z.of_nat (length (encode_options options)) + 1 in n <= capacity ->
  exists m', serialize_dhcp m transaction client options output capacity true = (m', Ok, Some n) /\ bytes_ok m' /\
    load m' output n = dhcp_bytes transaction client options /\ forall x, ~ (output <= x < output + capacity) -> m' x = m x.
Proof.
  intros Hm Hc Ho Hout n Hn. unfold n in *. clear n. unfold serialize_dhcp. cbn [negb].
  destruct (initialize_dhcp_ok m transaction client output capacity) as (m1 & -> & Hm1 & Hl1 & Hx1); [done..|lia|].
  destruct (append_options_ok options m1 output capacity DHCP_FIXED_SIZE) as (m2 & -> & Hm2 & Hl2 & Hx2); [done|done|unfold DHCP_FIXED_SIZE; lia|lia|].
  replace (capacity <=? _) with false by lia. eexists. split; [reflexivity|]. unfold DHCP_FIXED_SIZE in *.
  set (len := Z.of_nat (length (encode_options options))) in *. rewrite packet_store8_eq. split; [|split].
  - apply packet_store_bytes_ok; [done|]. apply single_u8. unfold DHCP_OPTION_END. word_lia.
  - rewrite !load_app by lia. unfold dhcp_bytes. rewrite <- app_assoc. rewrite !load_store_outside by (cbn [length]; lia). f_equal.
    + rewrite <- Hl1. apply load_eq. intros k Hk. apply Hx2. lia.
    + f_equal; [exact Hl2|]. rewrite Z.add_assoc. exact (load_store_same m2 (output + 240 + len) [DHCP_OPTION_END]).
  - intros x Hx. rewrite store_outside by (cbn [length]; lia). rewrite Hx2 by lia. by apply Hx1.
Qed.

Definition discover_options (client : MacAddress) : list (Z * list Z) :=
  [(DHCP_OPTION_TYPE, [dhcp_type_code Discover]); (DHCP_OPTION_CLIENT_ID, 1 :: client); (DHCP_OPTION_PARAMETERS, dhcp_parameters)].

Definition request_options (client : MacAddress) (address server : IPv4Address) : list (Z * list Z) :=
  [(DHCP_OPTION_TYPE, [dhcp_type_code Request]); (DHCP_OPTION_REQUESTED_IP, address); (DHCP_OPTION_SERVER, server);
   (DHCP_OPTION_CLIENT_ID, 1 :: client); (DHCP_OPTION_PARAMETERS, dhcp_parameters)].

Ltac u8_list := repeat (apply Forall_cons_2; [first [assumption | done | word_lia]|]); first [assumption | by apply Forall_nil].

Lemma discover_options_ok client : mac_ok client ->
  Forall option_ok (discover_options client) /\ length (encode_options (discover_options client)) = 18%nat.
Proof.
  intros [Hl Hu]. assert (Forall is_u8 (1 :: client)) as Hu1 by (by apply Forall_cons_2). split.
  - unfold discover_options, dhcp_parameters. repeat apply Forall_cons_2; try apply Forall_nil_2; (split; [done|]; cbn [fst snd length]; split; [lia|]; u8_list).
  - explicit_list client. reflexivity.
Qed.

Lemma request_options_ok client address server : mac_ok client -> ip_ok address -> ip_ok server ->
  Forall option_ok (request_options client address server) /\ length (encode_options (request_options client address server)) = 30%nat.
Proof.
  intros [Hl Hu] [Ha Hau] [Hs Hsu]. assert (Forall is_u8 (1 :: client)) as Hu1 by (by apply Forall_cons_2). split.
  - unfold request_options, dhcp_parameters. repeat apply Forall_cons_2; try apply Forall_nil_2; (split; [done|]; cbn [fst snd length]; split; [lia|]; u8_list).
  - explicit_list client. explicit_list address. explicit_list server. reflexivity.
Qed.

(** The frame of a client that has no address yet. *)
Definition client_frame (client : MacAddress) (identification : Z) (payload : list Z) : list Z :=
  ethernet_bytes BROADCAST_MAC client ETHER_TYPE_IPV4
    (ipv4_bytes (mkIPv4Header ZERO_IP BROADCAST_IP IPV4_PROTOCOL_UDP 64 identification true)
       (udp_bytes ZERO_IP BROADCAST_IP CLIENT_PORT SERVER_PORT payload)).

Section complete.
Context {W : Type} (i : NetworkInterface W) (frame message : Z).
Context (send : W -> list Z -> W * Status) (recv : W -> Z -> W * Status * Z * list Z).
Hypothesis Hsend : transmit i = Some send.
Hypothesis Hrecv : receive_from i = Some recv.
Hypothesis Hmac : mac_ok (hardware_address i).
Hypothesis Hmtu : MESSAGE_SIZE <= mtu i <= ETHERNET_MTU.
Hypothesis Hframe : 0 < frame.
Hypothesis Hmessage : 0 < message /\ (message + MESSAGE_SIZE <= frame \/ frame + ETHERNET_MAX_FRAME_SIZE <= message).

Lemma broadcast_ip_ok : ip_ok BROADCAST_IP.
Proof. split; [done|]. unfold BROADCAST_IP. u8_list. Qed.

Lemma transmit_message_ok m w w' n ident :
  bytes_ok m -> 0 <= n <= 300 -> 0 <= ident < 2 ^ 16 ->
  send w (client_frame (hardware_address i) ident (load m message n)) = (w', Ok) ->
  exists m', transmit_message i frame message m w n ident = (m', w', Ok) /\ bytes_ok m'.
Proof using Hframe Hmac Hmessage Hmtu Hsend.
  intros Hm Hn Hid Hs. unfold transmit_message. set (m0 := clear_bytes m frame ETHERNET_MAX_FRAME_SIZE).
  unfold MESSAGE_SIZE, ETHERNET_MAX_FRAME_SIZE, UDP_MAX_PAYLOAD, ETHERNET_MTU, IPV4_MIN_HEADER_SIZE, UDP_HEADER_SIZE, ETHERNET_HEADER_SIZE in *.
  replace (_ <? n) with false by lia. assert (bytes_ok m0) as Hm0 by (unfold m0, clear_bytes; stores_ok).
  assert (load m0 message n = load m message n) as El.
  { apply load_store_outside. rewrite length_replicate. lia. }
  destruct (serialize_udp_ok m0 ZERO_IP BROADCAST_IP CLIENT_PORT SERVER_PORT message n (frame + (14 + 20)) (14 + 1500 - (14 + 20)))
    as (m1 & -> & H1 & L1 & X1); [done|apply zero_ip_ok|apply broadcast_ip_ok|done|done|lia|split; [lia|right; unfold UDP_HEADER_SIZE; lia]|
      unfold UDP_MAX_PAYLOAD, ETHERNET_MTU, IPV4_MIN_HEADER_SIZE, UDP_HEADER_SIZE; lia|unfold UDP_HEADER_SIZE; lia|].
  unfold UDP_HEADER_SIZE in *. cbn [default id from_option].
  set (h := mkIPv4Header ZERO_IP BROADCAST_IP IPV4_PROTOCOL_UDP 64 ident true).
  assert (ipv4_header_ok h) as Hh.
  { constructor; cbn; [apply zero_ip_ok|apply broadcast_ip_ok|done|split; [word_lia|done]|done]. }
  destruct (serialize_ipv4_ok m1 h (frame + (14 + 20)) (8 + n) (frame + 14) 1500) as (m2 & -> & H2 & L2 & X2);
    [done|done|lia|split; [lia|left; unfold IPV4_MIN_HEADER_SIZE; lia]|unfold UINT16_MAX, IPV4_MIN_HEADER_SIZE; lia|unfold IPV4_MIN_HEADER_SIZE; lia|].
  unfold IPV4_MIN_HEADER_SIZE in *. cbn [default id from_option].
  destruct (serialize_ethernet_ok m2 BROADCAST_MAC (hardware_address i) ETHER_TYPE_IPV4 (frame + 14) (20 + (8 + n)) frame (14 + 1500))
    as (m3 & -> & H3 & L3 & X3); [done|apply broadcast_mac_ok|done|done|unfold ETHER_TYPE_IPV4; lia|split; [lia|left; unfold ETHERNET_HEADER_SIZE; lia]|
      unfold ETHERNET_MTU; lia|unfold ETHERNET_HEADER_SIZE; lia|].
  unfold ETHERNET_HEADER_SIZE in *. cbn [default id from_option]. rewrite L2, L1, El in L3.
  unfold interface_transmit. cbn [mbind option_bind]. rewrite Hsend, L3. unfold ETHERNET_MTU, ETHERNET_HEADER_SIZE.
  replace (_ || _) with false by lia. replace (_ || _ || _) with false by lia.
  unfold client_frame in Hs. fold h in Hs. rewrite Hs. rewrite bool_decide_true by (by left). by exists m3.
Qed.

(** A message depends only on the bytes of its frame. *)
Lemma message_confined m m' tr n : bytes_ok m -> agree m m' frame n ->
  message_in_frame i frame m tr n = message_in_frame i frame m' tr n.
Proof.
  intros Hm H. unfold message_in_frame. rewrite <- (ethernet_confined m m' frame n H).
  destruct (parse_ethernet m frame n true) as [[] [e|]] eqn:Ee; try done. destruct (negb _); [done|].
  assert (agree m m' (ef_payload e) (ef_payload_length e)) as Ha.
  { intros x Hx. apply H. apply (proj1 (payloads_inside m frame n Hm)) in Ee. unfold inside in Ee. lia. }
  rewrite <- (ipv4_confined m m' _ _ Ha). destruct (parse_ipv4 _ _ _ _) as [[] [v|]] eqn:Ei; try done. destruct (negb _); [done|].
  assert (agree m m' (ip_payload v) (ip_payload_length v)) as Hb.
  { intros x Hx. apply Ha. apply parse_ipv4_inv in Ei as (_ & _ & _ & _ & Ei); [|done]. unfold inside in Ei. lia. }
  rewrite <- (udp_confined m m' _ _ Hb). destruct (parse_udp m _ _ _ _ _) as [[] [u|]] eqn:Eu; try done. destruct (_ || _); [done|].
  assert (agree m m' (ud_payload u) (ud_payload_length u)) as Hc.
  { intros x Hx. apply Hb. apply parse_udp_inv in Eu as (_ & _ & _ & Eu). unfold inside in Eu. lia. }
  by rewrite <- (dhcp_confined m m' _ _ Hc Hm).
Qed.

(** The device reports nothing for [k] polls and then delivers a frame. *)
Inductive delivers : nat -> W -> W -> list Z -> Prop :=
| delivers_now w w' bytes : recv w ETHERNET_MAX_FRAME_SIZE = (w', Ok, Z.of_nat (length bytes), bytes) ->
    Z.of_nat (length bytes) <= ETHERNET_MAX_FRAME_SIZE -> Forall is_u8 bytes -> delivers 0 w w' bytes
| delivers_later k w w1 w' n0 bytes0 bytes : recv w ETHERNET_MAX_FRAME_SIZE = (w1, WouldBlock, n0, bytes0) -> Forall is_u8 bytes0 ->
    delivers k w1 w' bytes -> delivers (S k) w w' bytes.

Definition zero_memory : Memory := fun _ => 0.

(** The message that the bytes of a frame carry. *)
Definition message_of (tr : Z) (bytes : list Z) : option DhcpMessageView :=
  message_in_frame i frame (store zero_memory frame bytes) tr (Z.of_nat (length bytes)).

Lemma wait_completes tr expected k w w' bytes msg : forall m budget,
  delivers k w w' bytes -> (k < budget)%nat -> bytes_ok m -> message_of tr bytes = Some msg -> dm_type msg = Some expected -> expected ≠ Nak ->
  exists m', repeat_body budget (wait_step i frame tr expected) (m, w) = inr (m', w', Ok, Some msg) /\ bytes_ok m'.
Proof using Hframe Hrecv.
  intros m budget Hd. revert m budget. induction Hd as [w w' bytes Hr Hlen Hu|k w w1 w' n0 bytes0 bytes Hr Hu0 Hd IH]; intros m budget Hk Hm Hmsg Ht Hne;
    (destruct budget as [|budget]; [lia|]); cbn [repeat_body]; unfold wait_step at 1, interface_receive; cbn [mbind option_bind];
    rewrite Hrecv; replace ((frame =? 0) || negb true) with false by lia; rewrite Hr.
  - replace (ETHERNET_MAX_FRAME_SIZE <? _) with false by lia. rewrite andb_false_r, bool_decide_true by (by left). cbn [default id from_option].
    assert (bytes_ok (store m frame bytes)) as Hm' by (by apply packet_store_bytes_ok).
    rewrite (message_confined (store m frame bytes) (store zero_memory frame bytes)); [|done|].
    + unfold message_of in Hmsg. rewrite Hmsg, Ht. rewrite bool_decide_false by congruence. rewrite bool_decide_true by done. by eexists.
    + intros x Hx. replace x with (frame + (x - frame)) by lia. by rewrite !store_inside by lia.
  - rewrite bool_decide_false, bool_decide_true by (done || by right; left). cbn [andb]. apply IH; try done; [lia|]. by apply packet_store_bytes_ok.
Qed.

Lemma exchange_completes attempts serialize tr expected ident n sent_bytes m w w1 w2 k bytes msg :
  (forall m, bytes_ok m -> exists m', serialize m = (m', Ok, Some n) /\ bytes_ok m' /\ load m' message n = sent_bytes) ->
  0 <= n <= 300 -> 0 <= ident < 2 ^ 16 -> bytes_ok m ->
  send w (client_frame (hardware_address i) ident sent_bytes) = (w1, Ok) ->
  delivers k w1 w2 bytes -> (k < Pos.to_nat WAIT_BUDGET)%nat -> message_of tr bytes = Some msg -> dm_type msg = Some expected -> expected ≠ Nak ->
  exists m', exchange i frame message (S attempts) serialize tr expected ident m w = (m', w2, Ok, Some msg) /\ bytes_ok m'.
Proof using Hframe Hmac Hmessage Hmtu Hrecv Hsend.
  intros Hser Hn Hid Hm Hs Hd Hk Hmsg Ht Hne. cbn [exchange]. destruct (Hser m Hm) as (m1 & -> & Hm1 & Hl). cbn [default id from_option].
  rewrite <- Hl in Hs. destruct (transmit_message_ok m1 w w1 n ident Hm1 Hn Hid Hs) as (m2 & E2 & Hm2). cbn [default]. rewrite E2.
  unfold wait_for_reply. rewrite iterate_repeat.
  destruct (wait_completes tr expected k w1 w2 bytes msg (clear_bytes m2 frame ETHERNET_MAX_FRAME_SIZE) (Pos.to_nat WAIT_BUDGET) Hd Hk
    (clear_bytes_ok _ _ _ Hm2) Hmsg Ht Hne) as (m3 & E3 & Hm3). rewrite E3. by exists m3.
Qed.

(** C33: an answered client gets its lease.  When the device accepts the discovery
    and the request, which are exactly the broadcasts that carry this client's
    transaction and addresses, and delivers after each, within the budget of polls, a
    frame with the server's offer and with its acknowledgement, of which each of the
    netmask, the gateway and the name server is in one or the other, [acquire]
    succeeds with the lease that they make, and leaves the device there. *)
Theorem acquire_completes m w0 w1 w2 w3 w4 k1 k2 offer_frame ack_frame offer ack :
  let client := hardware_address i in
  let tr := transaction_for client in
  bytes_ok m ->
  send w0 (client_frame client 1 (dhcp_bytes tr client (discover_options client))) = (w1, Ok) ->
  delivers k1 w1 w2 offer_frame -> (k1 < Pos.to_nat WAIT_BUDGET)%nat ->
  message_of tr offer_frame = Some offer -> dm_type offer = Some Offer -> has_server_identifier offer = true ->
  ip_ok (offered_address offer) -> ip_ok (server_identifier offer) ->
  send w2 (client_frame client 4 (dhcp_bytes tr client (request_options client (offered_address offer) (server_identifier offer)))) = (w3, Ok) ->
  delivers k2 w3 w4 ack_frame -> (k2 < Pos.to_nat WAIT_BUDGET)%nat ->
  message_of tr ack_frame = Some ack -> dm_type ack = Some Ack ->
  has_netmask offer || has_netmask ack = true -> has_gateway offer || has_gateway ack = true ->
  has_dns_server offer || has_dns_server ack = true ->
  exists m', acquire (Some i) frame message m w0 true =
    (m', w4, Ok, Some (make_lease offer (inherit_offer_configuration offer ack))).
Proof using Hframe Hmac Hmessage Hmtu Hrecv Hsend.
  intros client tr Hm Hs1 Hd1 Hk1 Ho Hot Hos Hoa Hoi Hs2 Hd2 Hk2 Ha Hat Hn Hg Hdns. unfold acquire.
  rewrite !bool_decide_false by (rewrite ?Hsend, ?Hrecv; done). cbn [negb orb].
  destruct (discover_options_ok client Hmac) as [Hdo Hdl].
  destruct (request_options_ok client (offered_address offer) (server_identifier offer) Hmac Hoa Hoi) as [Hro Hrl].
  unfold exchange_offer, exchange_request, ATTEMPTS. fold client. fold tr.
  destruct (exchange_completes 2 (fun m => serialize_dhcp_discover m tr client message MESSAGE_SIZE true) tr Offer 1
    259 (dhcp_bytes tr client (discover_options client)) (clear_bytes m message MESSAGE_SIZE) w0 w1 w2 k1 offer_frame offer)
    as (m1 & E1 & Hm1); [|lia|lia|by apply clear_bytes_ok|exact Hs1|exact Hd1|exact Hk1|exact Ho|exact Hot|discriminate|].
  { intros m' Hm'. destruct (serialize_dhcp_ok m' tr client (discover_options client) message MESSAGE_SIZE) as (m2 & E & H1 & H2 & _); try done;
      [lia|rewrite Hdl; unfold DHCP_FIXED_SIZE, MESSAGE_SIZE; lia|]. rewrite Hdl in E, H2. exists m2. done. }
  rewrite E1, Hos. cbn [negb].
  destruct (exchange_completes 2 (fun m => serialize_dhcp_request m tr client (offered_address offer) (server_identifier offer) message MESSAGE_SIZE true)
    tr Ack 4 271 (dhcp_bytes tr client (request_options client (offered_address offer) (server_identifier offer))) m1 w2 w3 w4 k2 ack_frame ack)
    as (m2 & E2 & Hm2); [|lia|lia|exact Hm1|exact Hs2|exact Hd2|exact Hk2|exact Ha|exact Hat|discriminate|].
  { intros m' Hm'. destruct (serialize_dhcp_ok m' tr client (request_options client (offered_address offer) (server_identifier offer)) message MESSAGE_SIZE)
      as (m2 & E & H1 & H2 & _); try done; [lia|rewrite Hrl; unfold DHCP_FIXED_SIZE, MESSAGE_SIZE; lia|]. rewrite Hrl in E, H2. exists m2. done. }
  rewrite E2. match goal with |- context [if ?b then (_, InvalidConfiguration, _) else _] => replace b with false; cycle 1 end.
  { unfold inherit_offer_configuration. cbn [has_netmask has_gateway has_dns_server].
    destruct (has_netmask offer), (has_netmask ack), (has_gateway offer), (has_gateway ack), (has_dns_server offer), (has_dns_server ack); done. }
  by exists m2.
Qed.
End complete.

(** ** Instances *)

(** A server on the wire: the reply of a type with its options, in a frame. *)
Definition reply_bytes (tr : Z) (client : MacAddress) (address : IPv4Address) (options : list (Z * list Z)) : list Z :=
  [2; 1; 6; 0] ++ be32 tr ++ replicate 8 0 ++ address ++ replicate 8 0 ++ client ++ replicate 202 0 ++ be32 DHCP_COOKIE ++
  encode_options options ++ [DHCP_OPTION_END].

Definition server_frame (client : MacAddress) (payload : list Z) : list Z :=
  ethernet_bytes client mac_b ETHER_TYPE_IPV4
    (ipv4_bytes (mkIPv4Header ip_b BROADCAST_IP IPV4_PROTOCOL_UDP 64 9 true)
       (udp_bytes ip_b BROADCAST_IP SERVER_PORT CLIENT_PORT payload)).

Definition example_tr : Z := transaction_for mac_a.
Definition offer_frame : list Z :=
  server_frame mac_a (reply_bytes example_tr mac_a ip_a
    [(DHCP_OPTION_TYPE, [2]); (DHCP_OPTION_SERVER, ip_b); (DHCP_OPTION_SUBNET, [255; 255; 255; 0]); (DHCP_OPTION_ROUTER, ip_b);
     (DHCP_OPTION_DNS, ip_b); (DHCP_OPTION_LEASE, be32 3600)]).
Definition ack_frame : list Z :=
  server_frame mac_a (reply_bytes example_tr mac_a ip_a [(DHCP_OPTION_TYPE, [5]); (DHCP_OPTION_SERVER, ip_b)]).

(** A device with the server behind it: frames wait to be polled, one poll later. *)
Definition server_send (w : list (list Z)) (frame : list Z) : list (list Z) * Status :=
  (match w with [] => [[]; offer_frame] | _ => [[]; ack_frame] end, Ok).
Definition server_recv (w : list (list Z)) (capacity : Z) : list (list Z) * Status * Z * list Z :=
  match w with
  | [] => (w, WouldBlock, 0, [])
  | [] :: w' => (w', WouldBlock, 0, [])
  | [last] => ([[]], Ok, Z.of_nat (length last), last)
  | first :: w' => (w', Ok, Z.of_nat (length first), first)
  end.
Definition server_interface : NetworkInterface (list (list Z)) :=
  mkInterface (Some server_send) (Some server_recv) mac_a ETHERNET_MTU.

Definition is_bytes (l : list Z) : bool := forallb (fun b => (0 <=? b) && (b <? 256)) l.

Lemma is_bytes_ok l : is_bytes l = true -> Forall is_u8 l.
Proof.
  intros H. unfold is_bytes in H. rewrite forallb_forall in H. apply Forall_forall. intros x Hx%list_elem_of_In.
  specialize (H x Hx). unfold is_u8. lia.
Qed.

Definition example_offer : DhcpMessageView :=
  mkDhcpView (Some Offer) example_tr ip_a ip_b [255; 255; 255; 0] ip_b ip_b 3600 true true true true.
Definition example_ack : DhcpMessageView :=
  mkDhcpView (Some Ack) example_tr ip_a ip_b ZERO_IP ZERO_IP ZERO_IP 0 true false false false.
Definition example_lease : Lease := mkLease (mkConfig ip_a [255; 255; 255; 0] ip_b) ip_b ip_b 3600.

Lemma acquire_completes_witness :
  exists m', acquire (Some server_interface) 4096 8192 zero_memory [] true = (m', [[]], Ok, Some example_lease).
Proof.
  apply (acquire_completes server_interface 4096 8192 server_send server_recv eq_refl eq_refl) with
    (w1 := [[]; offer_frame]) (w2 := [[]]) (w3 := [[]; ack_frame]) (k1 := 1%nat) (k2 := 1%nat)
    (offer_frame := offer_frame) (ack_frame := ack_frame) (offer := example_offer) (ack := example_ack).
  - by apply (example_mac_ok 1).
  - vm_compute. split; discriminate.
  - lia.
  - split; [lia|right; vm_compute; discriminate].
  - intros a. unfold zero_memory. word_lia.
  - reflexivity.
  - apply (delivers_later server_recv 0 _ [offer_frame] _ 0 []); [reflexivity|by apply Forall_nil|].
    apply delivers_now; [vm_compute; reflexivity|vm_compute; discriminate|apply is_bytes_ok; vm_compute; reflexivity].
  - unfold WAIT_BUDGET. lia.
  - vm_compute. reflexivity.
  - reflexivity.
  - reflexivity.
  - by apply (example_ip_ok 1).
  - by apply (example_ip_ok 2).
  - reflexivity.
  - apply (delivers_later server_recv 0 _ [ack_frame] _ 0 []); [reflexivity|by apply Forall_nil|].
    apply delivers_now; [vm_compute; reflexivity|vm_compute; discriminate|apply is_bytes_ok; vm_compute; reflexivity].
  - unfold WAIT_BUDGET. lia.
  - vm_compute. reflexivity.
  - reflexivity.
  - reflexivity.
  - reflexivity.
  - reflexivity.
Defined.

Lemma acquire_sound_witness :
  let r := acquire (Some server_interface) 4096 8192 zero_memory [] true in
  snd r = Some example_lease /\
  exists offer ack, received_reply server_interface 4096 example_tr Offer offer /\ received_reply server_interface 4096 example_tr Ack ack /\
    offered_address ack = ip_a.
Proof.
  intros r. assert (snd (fst r) = Ok /\ snd r = Some example_lease) as [Hok Hl] by (vm_compute; done). split; [exact Hl|].
  destruct r as [[[m w] st] l] eqn:E. cbn [fst snd] in Hok, Hl. subst st l.
  destruct (acquire_sound server_interface 4096 8192 zero_memory [] true m w (Some example_lease) E)
    as (lease & offer & ack & Hlease & Ho & Ha & _ & Hc & _). exists offer, ack. split; [exact Ho|]. split; [exact Ha|].
  injection Hlease as <-. symmetry. exact Hc.
Defined.
