(* ===== verification/TcpClient.v ===== *)
(** * The TCP client (kernel/net/tcp_client.cpp)

    One connection over the network stack: the handshake, sending with
    retransmission, the reassembly of the byte stream from segments in any order,
    and the two ways to close.  A [Client] is a record with the fields of the
    struct; its [stack] pointer is the flag [has_stack], the stack itself is the
    one of NetworkStack.v, passed along.  The stream buffer and the payloads of
    waiting segments are arrays of the struct and so are lists; the caller's
    buffers are regions of the memory.

    The interval timer and the processor's [hlt] and [pause] are the class
    [Clock]: whenever the ticks are read, time may have passed.  The loops that
    wait run at most [fuel] rounds and then have no result; TcpTheorems.v shows that
    they end.  Log messages are left out. *)

From S2P Require Import Prelude Packet Network Protocols NetworkStack.

(** ** Data *)

Definition MAX_SEGMENT_PAYLOAD : Z := 1400.
Definition STREAM_RECEIVE_CAPACITY : Z := 8 * 1024.
Definition OUT_OF_ORDER_QUEUE_DEPTH : nat := 4.
Definition OUT_OF_ORDER_PAYLOAD_CAPACITY : Z := TRANSPORT_INBOX_CAPACITY.

Definition kMaximumAdvertisedWindow : Z := 32768.
Definition kFallbackPollBudget : Z := 800000.
Definition kDataTransmissionLimit : nat := 4.

Definition TcpFin : Z := Z.shiftl 1 0.
Definition TcpSyn : Z := Z.shiftl 1 1.
Definition TcpRst : Z := Z.shiftl 1 2.
Definition TcpPsh : Z := Z.shiftl 1 3.
Definition TcpAck : Z := Z.shiftl 1 4.

Inductive State := Closed | SynSent | Established | CloseWait | FinWait1 | Reset | Error.

#[export] Instance tcp_State_eq_dec : EqDecision State.
Proof. solve_decision. Defined.

Record BufferedSegment := mkBuffered {
  b_sequence : Z; b_flags : Z; b_window : Z; b_payload_length : Z; b_payload : list Z; b_valid : bool }.

Record Client := mkClient {
  has_stack : bool;
  peer : IPv4Address;
  local_port : Z;
  remote_port : Z;
  send_unacknowledged : Z;
  send_next : Z;
  receive_next : Z;
  peer_window : Z;
  pending : list Z;
  pending_offset : Z;
  pending_length : Z;
  out_of_order : list BufferedSegment;
  out_of_order_count : Z;
  state : State;
  connected : bool;
  peer_closed : bool }.

Definition empty_buffered : BufferedSegment := mkBuffered 0 0 0 0 ZERO_INBOX false.

(** [initialize]: [*client = {}], whose state is [Closed]. *)
Definition initialize : Client :=
  mkClient false ZERO_IP 0 0 0 0 0 0 (replicate (Z.to_nat STREAM_RECEIVE_CAPACITY) 0) 0 0
    (replicate OUT_OF_ORDER_QUEUE_DEPTH empty_buffered) 0 Closed false false.

Definition set_send (c : Client) (una next : Z) : Client :=
  mkClient (has_stack c) (peer c) (local_port c) (remote_port c) una next (receive_next c) (peer_window c) (pending c)
    (pending_offset c) (pending_length c) (out_of_order c) (out_of_order_count c) (state c) (connected c) (peer_closed c).
Definition set_receive_next (c : Client) (next : Z) : Client :=
  mkClient (has_stack c) (peer c) (local_port c) (remote_port c) (send_unacknowledged c) (send_next c) next (peer_window c)
    (pending c) (pending_offset c) (pending_length c) (out_of_order c) (out_of_order_count c) (state c) (connected c) (peer_closed c).
Definition set_window (c : Client) (window : Z) : Client :=
  mkClient (has_stack c) (peer c) (local_port c) (remote_port c) (send_unacknowledged c) (send_next c) (receive_next c) (u16 window)
    (pending c) (pending_offset c) (pending_length c) (out_of_order c) (out_of_order_count c) (state c) (connected c) (peer_closed c).
Definition set_pending (c : Client) (bytes : list Z) (offset length : Z) : Client :=
  mkClient (has_stack c) (peer c) (local_port c) (remote_port c) (send_unacknowledged c) (send_next c) (receive_next c)
    (peer_window c) bytes offset length (out_of_order c) (out_of_order_count c) (state c) (connected c) (peer_closed c).
Definition set_out_of_order (c : Client) (l : list BufferedSegment) (count : Z) : Client :=
  mkClient (has_stack c) (peer c) (local_port c) (remote_port c) (send_unacknowledged c) (send_next c) (receive_next c)
    (peer_window c) (pending c) (pending_offset c) (pending_length c) l count (state c) (connected c) (peer_closed c).
Definition set_state (c : Client) (st : State) (is_connected is_closed : bool) : Client :=
  mkClient (has_stack c) (peer c) (local_port c) (remote_port c) (send_unacknowledged c) (send_next c) (receive_next c)
    (peer_window c) (pending c) (pending_offset c) (pending_length c) (out_of_order c) (out_of_order_count c) st is_connected is_closed.

(** [client->state = st] and [client->connected = false]. *)
Definition to_state (c : Client) (st : State) : Client := set_state c st (connected c) (peer_closed c).
Definition disconnect (c : Client) (st : State) : Client := set_state c st false (peer_closed c).

(** ** Sequence numbers and flags *)

(** [static_cast<int32_t>(left - right) < 0]. *)
Definition sequence_before (left right : Z) : bool := 2 ^ 31 <=? u32 (left - right).
Definition sequence_after (left right : Z) : bool := sequence_before right left.

Definition has_flag (flags flag : Z) : bool := negb (Z.land flags flag =? 0).

Definition segment_for_client (c : Client) (segment : TcpSegment) : bool :=
  t_valid segment && ipv4_equal (t_source segment) (peer c) && (t_source_port segment =? remote_port c) &&
  (t_destination_port segment =? local_port c).

Definition retryable_transmit_status (status : Status) : bool :=
  bool_decide (status = NeighborResolutionPending) || bool_decide (status = WouldBlock) ||
  bool_decide (status = QueueFull) || bool_decide (status = InterfaceError).

Definition acceptable_poll_status (status : Status) : bool :=
  bool_decide (status = Ok) || bool_decide (status = NotForUs) || bool_decide (status = UnsupportedProtocol) ||
  bool_decide (status = WouldBlock) || bool_decide (status = InterfaceError).

(** ** The receive window *)

Fixpoint buffered_bytes_loop (l : list BufferedSegment) (total : Z) : Z :=
  match l with
  | [] => total
  | b :: l' =>
      if negb (b_valid b) then buffered_bytes_loop l' total
      else if SIZE_MAX - total <? b_payload_length b then SIZE_MAX
      else buffered_bytes_loop l' (total + b_payload_length b)
  end.

Definition buffered_out_of_order_bytes (c : Client) : Z := buffered_bytes_loop (out_of_order c) 0.

Definition advertised_window (c : Client) : Z :=
  let used := pending_length c in
  let reordered := buffered_out_of_order_bytes c in
  if SIZE_MAX - used <? reordered then 0
  else
    let used := used + reordered in
    if STREAM_RECEIVE_CAPACITY <=? used then 0
    else
      let free_bytes := STREAM_RECEIVE_CAPACITY - used in
      u16 (if free_bytes <? kMaximumAdvertisedWindow then free_bytes else kMaximumAdvertisedWindow).

(** ** The stream buffer *)

(** [for (index = 0; index < pending_length; ++index) pending[index] = pending[offset + index]]; [n] counts down. *)
Fixpoint compact_loop (n offset index : nat) (bytes : list Z) : list Z :=
  match n with
  | O => bytes
  | S n' => compact_loop n' offset (S index) (<[index := nth (offset + index) bytes 0]> bytes)
  end.

Definition compact_pending (c : Client) : Client :=
  if pending_offset c =? 0 then c
  else if pending_length c =? 0 then set_pending c (pending c) 0 (pending_length c)
  else
    set_pending c (compact_loop (Z.to_nat (pending_length c)) (Z.to_nat (pending_offset c)) 0 (pending c)) 0 (pending_length c).

Definition append_pending (c : Client) (data : list Z) : Client * Status :=
  let n := Z.of_nat (length data) in
  if n =? 0 then (c, Ok)
  else
    let c :=
      if (0 <? pending_offset c) && (STREAM_RECEIVE_CAPACITY <? pending_offset c + pending_length c + n)
      then compact_pending c else c in
    let end_ := pending_offset c + pending_length c in
    if (STREAM_RECEIVE_CAPACITY <? end_) || (STREAM_RECEIVE_CAPACITY - end_ <? n) then (c, QueueFull)
    else (set_pending c (list_inserts (Z.to_nat end_) data (pending c)) (pending_offset c) (pending_length c + n), Ok).

(** ** Segments that wait for their predecessors *)

Definition end_sequence (sequence payload_length flags : Z) : Z :=
  let end_ := u32 (sequence + u32 payload_length) in
  if has_flag flags TcpFin then u32 (end_ + 1) else end_.

Definition buffered_end_sequence (b : BufferedSegment) : Z := end_sequence (b_sequence b) (b_payload_length b) (b_flags b).
Definition incoming_end_sequence (t : TcpSegment) : Z := end_sequence (t_sequence t) (t_payload_length t) (t_flags t).

Definition invalidate (b : BufferedSegment) : BufferedSegment :=
  mkBuffered (b_sequence b) (b_flags b) (b_window b) 0 (b_payload b) false.

Definition clear_out_of_order (c : Client) : Client := set_out_of_order c (invalidate <$> out_of_order c) 0.

Definition store_buffered_segment (b : BufferedSegment) (t : TcpSegment) : BufferedSegment :=
  mkBuffered (t_sequence t) (t_flags t) (t_window t) (t_payload_length t)
    (list_inserts 0 (take (Z.to_nat (t_payload_length t)) (t_payload t)) (b_payload b)) true.

Definition store_at (l : list BufferedSegment) (i : nat) (t : TcpSegment) : list BufferedSegment :=
  <[i := store_buffered_segment (nth i l empty_buffered) t]> l.

(** The first of the elements that are farthest ahead, and its distance. *)
Fixpoint farthest_loop (l : list BufferedSegment) (next : Z) (index farthest : nat) (distance : Z) : nat * Z :=
  match l with
  | [] => (farthest, distance)
  | b :: l' =>
      let d := u32 (b_sequence b - next) in
      if (index =? 0)%nat || (distance <? d) then farthest_loop l' next (S index) index d
      else farthest_loop l' next (S index) farthest distance
  end.

Definition queue_out_of_order (c : Client) (segment : TcpSegment) : Client * Status :=
  if OUT_OF_ORDER_PAYLOAD_CAPACITY <? t_payload_length segment then (c, InvalidArgument)
  else if (t_payload_length segment =? 0) && negb (has_flag (t_flags segment) TcpFin) then (c, Ok)
  else
    let l := out_of_order c in
    match find_index (fun b => b_valid b && (b_sequence b =? t_sequence segment)) l with
    | Some i =>
        if negb (sequence_after (incoming_end_sequence segment) (buffered_end_sequence (nth i l empty_buffered))) then (c, Ok)
        else (set_out_of_order c (store_at l i segment) (out_of_order_count c), Ok)
    | None =>
        match find_index (fun b => negb (b_valid b)) l with
        | Some i => (set_out_of_order c (store_at l i segment) (out_of_order_count c + 1), Ok)
        | None =>
            let '(farthest, distance) := farthest_loop l (receive_next c) 0 0 0 in
            if u32 (t_sequence segment - receive_next c) <? distance
            then (set_out_of_order c (store_at l farthest segment) (out_of_order_count c), Ok)
            else (c, Ok)
        end
    end.

(** ** The stream *)

(** [payload] is the array from the pointer on; its first [payload_length]
    elements are the payload.  No caller passes a null one. *)
Definition ingest_contiguous (c : Client) (sequence flags : Z) (payload : list Z) (payload_length : Z) : Client * Status :=
  if OUT_OF_ORDER_PAYLOAD_CAPACITY <? payload_length then (c, InvalidArgument)
  else
    let data_end := u32 (sequence + u32 payload_length) in
    let data : Client + Client * Status :=
      if payload_length =? 0 then inl c
      else if sequence_after sequence (receive_next c) then inr (c, WouldBlock)
      else
        let skip :=
          if sequence_before sequence (receive_next c) then
            if negb (sequence_after data_end (receive_next c)) then payload_length else u32 (receive_next c - sequence)
          else 0 in
        if payload_length <? skip then inr (c, MalformedPacket)
        else
          let remaining := payload_length - skip in
          if remaining =? 0 then inl c
          else
            let '(c, queued) := append_pending c (take (Z.to_nat remaining) (drop (Z.to_nat skip) payload)) in
            if negb (bool_decide (queued = Ok)) then inr (c, queued)
            else inl (set_receive_next c (u32 (receive_next c + u32 remaining))) in
    match data with
    | inr result => result
    | inl c =>
        if has_flag flags TcpFin && (data_end =? receive_next c) then
          let c := set_receive_next c (u32 (receive_next c + 1)) in
          (set_state c (if bool_decide (state c = FinWait1) then FinWait1 else CloseWait) (connected c) true, Ok)
        else (c, Ok)
    end.

(** The scan of [flush_out_of_order] on one element: what it becomes, the count of
    the queue, whether something was removed, and the candidate with its sequence
    number. *)
Definition scan_element (b : BufferedSegment) (next : Z) (index : nat) (count : Z) (removed : bool) (candidate : option (nat * Z))
  : BufferedSegment * Z * bool * option (nat * Z) :=
  if negb (b_valid b) then (b, count, removed, candidate)
  else if negb (sequence_after (buffered_end_sequence b) next) then
    (invalidate b, if negb (count =? 0) then count - 1 else count, true, candidate)
  else if sequence_after (b_sequence b) next then (b, count, removed, candidate)
  else
    match candidate with
    | None => (b, count, removed, Some (index, b_sequence b))
    | Some (_, first) =>
        if sequence_before (b_sequence b) first then (b, count, removed, Some (index, b_sequence b))
        else (b, count, removed, candidate)
    end.

Fixpoint flush_scan (l : list BufferedSegment) (next : Z) (index : nat) (count : Z) (removed : bool) (candidate : option (nat * Z))
  : list BufferedSegment * Z * bool * option nat :=
  match l with
  | [] => ([], count, removed, fst <$> candidate)
  | b :: l' =>
      let '(b, count, removed, candidate) := scan_element b next index count removed candidate in
      let '(l', count, removed, candidate) := flush_scan l' next (S index) count removed candidate in
      (b :: l', count, removed, candidate)
  end.

(** One round of [flush_out_of_order]: go on, or the result. *)
Definition flush_round (c : Client) : Client + Client * Status :=
  let '(l, count, removed, candidate) := flush_scan (out_of_order c) (receive_next c) 0 (out_of_order_count c) false None in
  let c := set_out_of_order c l count in
  match candidate with
  | None => if removed : bool then inl c else inr (c, Ok)
  | Some i =>
      let b := nth i l empty_buffered in
      let '(c, status) := ingest_contiguous c (b_sequence b) (b_flags b) (b_payload b) (b_payload_length b) in
      if negb (bool_decide (status = Ok)) then inr (c, status)
      else
        let count := out_of_order_count c in
        let c := set_out_of_order c (<[i := invalidate b]> (out_of_order c)) (if negb (count =? 0) then count - 1 else count) in
        if peer_closed c then inr (clear_out_of_order c, Ok) else inl c
  end.

(** Every round but the last frees an element of the queue. *)
Definition flush_fuel : nat := S (S OUT_OF_ORDER_QUEUE_DEPTH).

Fixpoint flush_loop (fuel : nat) (c : Client) : option (Client * Status) :=
  match fuel with
  | O => None
  | S fuel' => match flush_round c with inl c => flush_loop fuel' c | inr result => Some result end
  end.

Definition flush_out_of_order (c : Client) : option (Client * Status) := flush_loop flush_fuel c.

(** ** The clock *)

(** [pit::initialized], [pit::frequency_hz], [pit::ticks] and [wait_for_progress]
    on the state of the device. *)
Class Clock (W : Type) := {
  pit_initialized : W -> bool;
  frequency_hz : W -> Z;
  read_ticks : W -> W * Z;
  wait_for_progress : W -> W }.

Section client.
Context {W : Type} `{!Clock W} (fuel : positive).
Implicit Types (s : Net W).

Definition timeout_ticks (w : W) (milliseconds : Z) : Z :=
  if negb (pit_initialized w) then 0
  else
    let frequency := frequency_hz w in
    if frequency =? 0 then 0
    else if (UINT64_MAX - 999) / frequency <? milliseconds then UINT64_MAX
    else
      let product := u64 (milliseconds * frequency) in
      let ticks := u64 (product + 999) / 1000 in
      if ticks =? 0 then 1 else ticks.

Definition window_open s (started timeout_ms attempt : Z) : Net W * bool :=
  let limit := timeout_ticks (dev s) timeout_ms in
  if negb (limit =? 0) && negb (limit =? UINT64_MAX) then
    let '(w, now) := read_ticks (dev s) in (set_dev s w, u64 (now - started) <? limit)
  else (s, attempt <? kFallbackPollBudget).

Definition start_clock s : Net W * Z := let '(w, now) := read_ticks (dev s) in (set_dev s w, now).
Definition wait_progress s : Net W := set_dev s (wait_for_progress (dev s)).

(** [for (attempt = 0; window_open(started, timeout_ms, attempt); ++attempt)], with
    a body that goes on ([None]) or leaves with a result; no result when the window
    closes. *)
Definition open_step {C R : Type} (started timeout_ms : Z) (body : C -> Net W -> C * Net W * option R) (x : Z * (C * Net W))
  : Z * (C * Net W) + C * Net W * option R :=
  let '(attempt, (c, s)) := x in
  let '(s, is_open) := window_open s started timeout_ms attempt in
  if negb is_open then inr (c, s, None)
  else
    match body c s with
    | (c, s, None) => inl (u64 (attempt + 1), (c, s))
    | (c, s, Some r) => inr (c, s, Some r)
    end.

Definition while_open {C R : Type} (timeout_ms : Z) (body : C -> Net W -> C * Net W * option R) (c : C) s
  : option (C * Net W * option R) :=
  let '(s, started) := start_clock s in
  match iterate fuel (open_step started timeout_ms body) (0, (c, s)) with inl _ => None | inr r => Some r end.

(** ** Acknowledgements *)

(** A segment with the client's addresses; [has_stack] has been checked. *)
Definition send_segment (c : Client) s (sequence acknowledgement flags payload payload_length : Z) : Net W * Status :=
  send_tcp s (peer c) (local_port c) (remote_port c) sequence acknowledgement flags (advertised_window c) payload payload_length.

Definition acknowledge (c : Client) s : Net W * Status :=
  if negb (has_stack c) then (s, InvalidArgument) else send_segment c s (send_next c) (receive_next c) TcpAck 0 0.

Definition acknowledge_or_defer (c : Client) s : Net W * Status :=
  let '(s, status) := acknowledge c s in (s, if retryable_transmit_status status then Ok else status).

Definition record_ack (c : Client) (segment : TcpSegment) : Client :=
  if negb (has_flag (t_flags segment) TcpAck) then c
  else
    let acknowledgement := t_acknowledgement segment in
    if sequence_after acknowledgement (send_next c) then c
    else if sequence_after acknowledgement (send_unacknowledged c) then set_send c acknowledgement (send_next c) else c.

(** ** Reception *)

(** The second half of [process_incoming], after the acknowledgement. *)
Definition process_data (c : Client) s (segment : TcpSegment) : option (Client * Net W * Status) :=
  if (t_payload_length segment =? 0) && negb (has_flag (t_flags segment) TcpFin) then Some (c, s, Ok)
  else if negb (sequence_after (incoming_end_sequence segment) (receive_next c)) then
    let '(s, status) := acknowledge_or_defer c s in Some (c, s, status)
  else if sequence_after (t_sequence segment) (receive_next c) then
    let '(c, queued) := queue_out_of_order c segment in
    if negb (bool_decide (queued = Ok)) then Some (c, s, queued)
    else let '(s, status) := acknowledge_or_defer c s in Some (c, s, status)
  else
    let '(c, status) := ingest_contiguous c (t_sequence segment) (t_flags segment) (t_payload segment) (t_payload_length segment) in
    if bool_decide (status = QueueFull) then let '(s, status) := acknowledge_or_defer c s in Some (c, s, status)
    else if negb (bool_decide (status = Ok)) then Some (c, s, status)
    else
      '(c, status) ← flush_out_of_order c;
      if negb (bool_decide (status = Ok)) && negb (bool_decide (status = QueueFull)) then Some (c, s, status)
      else let '(s, status) := acknowledge_or_defer c s in Some (c, s, status).

Definition process_incoming (c : Client) s (segment : TcpSegment) : option (Client * Net W * Status) :=
  if negb (segment_for_client c segment) then Some (c, s, NotForUs)
  else
    let c := set_window c (t_window segment) in
    if has_flag (t_flags segment) TcpRst then Some (disconnect c Reset, s, InterfaceError)
    else process_data (record_ack c segment) s segment.

Definition take_or_poll_one (c : Client) s : Net W * Status * option TcpSegment :=
  if negb (has_stack c) then (s, InvalidArgument, None)
  else
    match take_tcp_segment s true with
    | (s, Ok, Some segment) => if negb (segment_for_client c segment) then (s, NotForUs, None) else (s, Ok, Some segment)
    | (s, _, _) =>
        let '(s, _, poll_status) := poll s 1 in
        if negb (acceptable_poll_status poll_status) then (s, poll_status, None)
        else if bool_decide (poll_status = InterfaceError) || bool_decide (poll_status = WouldBlock) then (s, WouldBlock, None)
        else
          match take_tcp_segment s true with
          | (s, Ok, Some segment) => if negb (segment_for_client c segment) then (s, NotForUs, None) else (s, Ok, Some segment)
          | (s, _, _) => (s, WouldBlock, None)
          end
    end.

(** The last component is what is stored in [*out_length]. *)
Definition drain_pending (c : Client) s (output output_capacity : Z) (has_out : bool) : Client * Net W * Status * Z :=
  if (output =? 0) || (output_capacity =? 0) || negb has_out then (c, s, InvalidArgument, 0)
  else if pending_length c =? 0 then (c, s, WouldBlock, 0)
  else
    let amount := if pending_length c <? output_capacity then pending_length c else output_capacity in
    let bytes := take (Z.to_nat amount) (drop (Z.to_nat (pending_offset c)) (pending c)) in
    let length := pending_length c - amount in
    (set_pending c (pending c) (if length =? 0 then 0 else pending_offset c + amount) length,
     set_mem s (store (mem s) output bytes), Ok, amount).

(** ** Transmission *)

Definition transmission_slice_ms (timeout_ms : Z) : Z :=
  let slice := timeout_ms / Z.of_nat kDataTransmissionLimit in if slice =? 0 then 1 else slice.

Definition poll_transmit_progress (c : Client) s : Net W * Status :=
  if negb (has_stack c) then (s, InvalidArgument)
  else let '(s, _, status) := poll s 1 in (s, if acceptable_poll_status status then Ok else status).

Definition queue_round (sequence acknowledgement flags payload payload_length : Z) (c : Client) s : Client * Net W * option Status :=
  let '(s, status) := send_segment c s sequence acknowledgement flags payload payload_length in
  if bool_decide (status = Ok) then (c, s, Some Ok)
  else if negb (retryable_transmit_status status) then (c, s, Some status)
  else
    let '(s, poll_status) := poll_transmit_progress c s in
    if negb (bool_decide (poll_status = Ok)) then (c, s, Some poll_status) else (c, wait_progress s, None).

Definition queue_segment_with_backpressure (c : Client) s (sequence acknowledgement flags payload payload_length timeout_ms : Z)
  : option (Net W * Status) :=
  if negb (has_stack c) || (timeout_ms =? 0) then Some (s, InvalidArgument)
  else
    '(_, s, result) ← while_open timeout_ms (queue_round sequence acknowledgement flags payload payload_length) c s;
    Some (s, default WouldBlock result).

(** ** Connecting *)

(** [while (take_tcp_segment(stack, &stale) == Ok) {}]: taking empties the inbox. *)
Definition drop_stale s : Net W := fst (fst (take_tcp_segment s true)).

Definition start_client (peer : IPv4Address) (local_port remote_port initial_sequence : Z) : Client :=
  let c := initialize in
  mkClient true peer local_port remote_port initial_sequence initial_sequence (receive_next c) (peer_window c) (pending c)
    (pending_offset c) (pending_length c) (out_of_order c) (out_of_order_count c) SynSent (connected c) (peer_closed c).

Definition bad_endpoint (has_stack : bool) s (peer : IPv4Address) (local_port remote_port : Z) : bool :=
  negb has_stack || negb (initialized (stack s)) || negb (ipv4_configured (stack s)) || ipv4_is_zero peer ||
  (local_port =? 0) || (remote_port =? 0).

Definition begin_connect (client : Client) s (has_stack : bool) (peer : IPv4Address) (local_port remote_port initial_sequence : Z)
  : Client * Net W * Status :=
  if bad_endpoint has_stack s peer local_port remote_port then (client, s, InvalidArgument)
  else
    let c := start_client peer local_port remote_port initial_sequence in
    let s := drop_stale s in
    let '(s, status) := send_segment c s initial_sequence 0 TcpSyn 0 0 in
    if bool_decide (status = Ok) then (set_send c (send_unacknowledged c) (u32 (initial_sequence + 1)), s, WouldBlock)
    else if retryable_transmit_status status then (c, s, WouldBlock)
    else (to_state c Error, s, status).

(** The segment is the answer to the SYN. *)
Definition is_syn_ack (segment : TcpSegment) (acknowledgement : Z) : bool :=
  (Z.land (t_flags segment) (Z.lor TcpSyn TcpAck) =? Z.lor TcpSyn TcpAck) && (t_acknowledgement segment =? acknowledgement).

Definition establish (c : Client) s (segment : TcpSegment) : Client * Net W * Status :=
  let c := set_receive_next c (u32 (t_sequence segment + 1)) in
  let c := set_window (set_send c (t_acknowledgement segment) (send_next c)) (t_window segment) in
  let c := set_state c Established true (peer_closed c) in
  let '(s, ack_status) := acknowledge_or_defer c s in
  if negb (bool_decide (ack_status = Ok)) then (disconnect c Error, s, ack_status) else (c, s, Ok).

(** The retransmission of a SYN that could not be sent: the client goes on, or the
    result of [progress]. *)
Definition resend_syn (c : Client) s : Client * Net W + Client * Net W * Status :=
  if bool_decide (state c = SynSent) && (send_next c =? send_unacknowledged c) then
    let '(s, send_status) := send_segment c s (send_unacknowledged c) 0 TcpSyn 0 0 in
    if retryable_transmit_status send_status then inr (c, s, WouldBlock)
    else if negb (bool_decide (send_status = Ok)) then inr (to_state c Error, s, send_status)
    else inl (set_send c (send_unacknowledged c) (u32 (send_unacknowledged c + 1)), s)
  else inl (c, s).

Definition progress (c : Client) s : option (Client * Net W * Status) :=
  if negb (has_stack c) then Some (c, s, InvalidArgument)
  else if bool_decide (state c = Closed) then Some (c, s, Ok)
  else if bool_decide (state c = Reset) || bool_decide (state c = Error) then Some (c, s, InterfaceError)
  else
    match resend_syn c s with
    | inr result => Some result
    | inl (c, s) =>
        match take_or_poll_one c s with
        | (s, Ok, Some segment) =>
            if bool_decide (state c = SynSent) then
              if has_flag (t_flags segment) TcpRst then Some (to_state c Reset, s, InterfaceError)
              else if negb (is_syn_ack segment (send_next c)) then Some (c, s, WouldBlock)
              else Some (establish c s segment)
            else
              let before := state c in
              '(c, s, status) ← process_incoming c s segment;
              if negb (bool_decide (status = Ok)) && negb (bool_decide (status = NotForUs)) then Some (c, s, status)
              else if bool_decide (before = FinWait1) then
                let c := to_state c FinWait1 in
                if peer_closed c && negb (sequence_before (send_unacknowledged c) (send_next c))
                then Some (initialize, s, Ok) else Some (c, s, Ok)
              else Some (c, s, Ok)
        | (s, poll_status, _) =>
            if bool_decide (poll_status = WouldBlock) || bool_decide (poll_status = NotForUs) then Some (c, s, WouldBlock)
            else Some (to_state c Error, s, poll_status)
        end
    end.

(** ** Calls that do not wait

    The last component of a result is what is stored in the out-parameter, 0 where
    the code stores 0; a null out-parameter is refused. *)

Definition try_send (c : Client) s (data length : Z) (has_out : bool) : Client * Net W * Status * Z :=
  if negb has_out || negb (has_stack c) || (negb (length =? 0) && (data =? 0)) then (c, s, InvalidArgument, 0)
  else if negb (connected c) || negb (bool_decide (state c = Established)) || peer_closed c then (c, s, InterfaceError, 0)
  else if length =? 0 then (c, s, Ok, 0)
  else
    let in_flight := u32 (send_next c - send_unacknowledged c) in
    if peer_window c <=? in_flight then (c, s, WouldBlock, 0)
    else
      let available := peer_window c - in_flight in
      let chunk := if length <? MAX_SEGMENT_PAYLOAD then length else MAX_SEGMENT_PAYLOAD in
      let chunk := if available <? chunk then available else chunk in
      if chunk =? 0 then (c, s, WouldBlock, 0)
      else
        let '(s, status) := send_segment c s (send_next c) (receive_next c) (Z.lor TcpPsh TcpAck) data chunk in
        if retryable_transmit_status status then (c, s, WouldBlock, 0)
        else if negb (bool_decide (status = Ok)) then (disconnect c Error, s, status, 0)
        else (set_send c (send_unacknowledged c) (u32 (send_next c + u32 chunk)), s, Ok, chunk).

Definition try_receive (c : Client) s (output output_capacity : Z) (has_out : bool) : option (Client * Net W * Status * Z) :=
  if negb (has_stack c) || (output =? 0) || (output_capacity =? 0) || negb has_out then Some (c, s, InvalidArgument, 0)
  else
    let '(c, s, status, length) := drain_pending c s output output_capacity has_out in
    if bool_decide (status = Ok) then Some (c, fst (acknowledge_or_defer c s), Ok, length)
    else if peer_closed c then Some (c, s, Ok, length)
    else if negb (connected c) then Some (c, s, InterfaceError, length)
    else
      '(c, s, status) ← progress c s;
      if negb (bool_decide (status = Ok)) && negb (bool_decide (status = WouldBlock)) then Some (c, s, status, length)
      else
        let '(c, s, status, length) := drain_pending c s output output_capacity has_out in
        if bool_decide (status = Ok) then Some (c, fst (acknowledge_or_defer c s), Ok, length)
        else Some (c, s, if peer_closed c then Ok else WouldBlock, length).

Definition begin_close (c : Client) s : Client * Net W * Status :=
  if negb (connected c) || negb (has_stack c) then (initialize, s, Ok)
  else if bool_decide (state c = Reset) then (initialize, s, Ok)
  else if bool_decide (state c = Error) then (c, s, InterfaceError)
  else if bool_decide (state c = FinWait1) then (c, s, WouldBlock)
  else if negb (bool_decide (state c = Established)) && negb (bool_decide (state c = CloseWait)) then (c, s, InterfaceError)
  else if negb (send_unacknowledged c =? send_next c) then (c, s, WouldBlock)
  else
    let '(s, status) := send_segment c s (send_next c) (receive_next c) (Z.lor TcpFin TcpAck) 0 0 in
    if retryable_transmit_status status then (c, s, WouldBlock)
    else if negb (bool_decide (status = Ok)) then (to_state c Error, s, status)
    else (to_state (set_send c (send_unacknowledged c) (u32 (send_next c + 1))) FinWait1, s, WouldBlock).

(** ** Calls that wait *)

(** One round of the wait for the answer to the SYN. *)
Definition handshake_round (initial_sequence : Z) (c : Client) s : Client * Net W * option Status :=
  match take_or_poll_one c s with
  | (s, Ok, Some segment) =>
      if has_flag (t_flags segment) TcpRst then (to_state c Reset, s, Some InterfaceError)
      else if is_syn_ack segment (u32 (initial_sequence + 1)) then
        let '(c, s, status) := establish (set_send c (send_unacknowledged c) (u32 (initial_sequence + 1))) s segment in
        (c, s, Some status)
      else (c, wait_progress s, None)
  | (s, status, _) =>
      if bool_decide (status = WouldBlock) || bool_decide (status = NotForUs) then (c, wait_progress s, None)
      else (to_state c Error, s, Some status)
  end.

(** The transmissions of the SYN that are left; [n] counts down. *)
Fixpoint connect_loop (n : nat) (c : Client) s (initial_sequence slice_ms : Z) : option (Client * Net W * Status) :=
  match n with
  | O => Some (disconnect c Error, s, WouldBlock)
  | S n' =>
      '(s, send_status) ← queue_segment_with_backpressure c s initial_sequence 0 TcpSyn 0 0 slice_ms;
      if negb (bool_decide (send_status = Ok)) && negb (bool_decide (send_status = WouldBlock))
      then Some (to_state c Error, s, send_status)
      else
        let c := if bool_decide (send_status = Ok) then set_send c (send_unacknowledged c) (u32 (initial_sequence + 1)) else c in
        '(c, s, result) ← while_open slice_ms (handshake_round initial_sequence) c s;
        match result with Some status => Some (c, s, status) | None => connect_loop n' c s initial_sequence slice_ms end
  end.

Definition connect (client : Client) s (has_stack : bool) (peer : IPv4Address)
    (local_port remote_port initial_sequence timeout_ms : Z) : option (Client * Net W * Status) :=
  if bad_endpoint has_stack s peer local_port remote_port || (timeout_ms =? 0) then Some (client, s, InvalidArgument)
  else
    connect_loop kDataTransmissionLimit (start_client peer local_port remote_port initial_sequence) (drop_stale s) initial_sequence
      (transmission_slice_ms timeout_ms).

(** One round of the wait for an acknowledgement: [Ok] when it has come. *)
Definition acknowledged_round (expected_ack : Z) (c : Client) s : option (Client * Net W * option Status) :=
  match take_or_poll_one c s with
  | (s, Ok, Some segment) =>
      '(c, s, status) ← process_incoming c s segment;
      if negb (bool_decide (status = Ok)) && negb (bool_decide (status = NotForUs)) then
        Some (disconnect c (if bool_decide (state c = Reset) then Reset else Error), s, Some status)
      else if negb (sequence_before (send_unacknowledged c) expected_ack) then Some (c, s, Some Ok)
      else Some (c, wait_progress s, None)
  | (s, status, _) =>
      if bool_decide (status = WouldBlock) || bool_decide (status = NotForUs) then Some (c, wait_progress s, None)
      else Some (disconnect c Error, s, Some status)
  end.

(** A body that itself may fail to end. *)
Definition lift_round {C R : Type} (body : C -> Net W -> option (C * Net W * option R)) (c : C) s : C * Net W * option (option R) :=
  match body c s with
  | None => (c, s, Some None)
  | Some (c, s, None) => (c, s, None)
  | Some (c, s, Some r) => (c, s, Some (Some r))
  end.

Definition while_open_partial {C R : Type} (timeout_ms : Z) (body : C -> Net W -> option (C * Net W * option R)) (c : C) s
  : option (C * Net W * option R) :=
  '(c, s, result) ← while_open timeout_ms (lift_round body) c s;
  match result with
  | None => Some (c, s, None)
  | Some None => None
  | Some (Some r) => Some (c, s, Some r)
  end.

(** The transmissions of a chunk that are left; [committed] is
    [sequence_committed].  The result: [acknowledged], or a status to return. *)
Fixpoint transmit_chunk (n : nat) (c : Client) s (sequence data chunk slice_ms : Z) (committed : bool)
  : option (Client * Net W * (bool * bool + Status)) :=
  match n with
  | O => Some (c, s, inl (committed, false))
  | S n' =>
      '(s, status) ← queue_segment_with_backpressure c s sequence (receive_next c) (Z.lor TcpPsh TcpAck) data chunk slice_ms;
      if bool_decide (status = WouldBlock) then transmit_chunk n' c s sequence data chunk slice_ms committed
      else if negb (bool_decide (status = Ok)) then Some (disconnect c Error, s, inr status)
      else
        let expected_ack := u32 (sequence + u32 chunk) in
        let c := if negb committed then set_send c (send_unacknowledged c) expected_ack else c in
        '(c, s, result) ← while_open_partial slice_ms (acknowledged_round expected_ack) c s;
        match result with
        | Some Ok => Some (c, s, inl (true, true))
        | Some status => Some (c, s, inr status)
        | None => transmit_chunk n' c s sequence data chunk slice_ms true
        end
  end.

(** [while (offset < length)]; a chunk has at least one byte. *)
Fixpoint send_loop (n : nat) (c : Client) s (data length offset timeout_ms : Z) : option (Client * Net W * Status) :=
  if negb (offset <? length) then Some (c, s, Ok)
  else
    match n with
    | O => None
    | S n' =>
        if peer_window c =? 0 then Some (c, s, WouldBlock)
        else
          let remaining := length - offset in
          let chunk := if remaining <? MAX_SEGMENT_PAYLOAD then remaining else MAX_SEGMENT_PAYLOAD in
          let chunk := if peer_window c <? chunk then peer_window c else chunk in
          if chunk =? 0 then Some (c, s, WouldBlock)
          else
            let sequence := send_next c in
            '(c, s, result) ←
              transmit_chunk kDataTransmissionLimit c s sequence (data + offset) chunk (transmission_slice_ms timeout_ms) false;
            match result with
            | inr status => Some (c, s, status)
            | inl (committed, acknowledged) =>
                if negb committed then Some (c, s, WouldBlock)
                else if negb acknowledged then
                  if send_unacknowledged c =? sequence then Some (set_send c (send_unacknowledged c) sequence, s, WouldBlock)
                  else Some (disconnect c Error, s, InterfaceError)
                else send_loop n' c s data length (offset + chunk) timeout_ms
            end
    end.

Definition send (c : Client) s (data length timeout_ms : Z) : option (Client * Net W * Status) :=
  if negb (connected c) || negb (has_stack c) || (negb (length =? 0) && (data =? 0)) || (timeout_ms =? 0)
  then Some (c, s, InvalidArgument)
  else if negb (bool_decide (state c = Established)) || peer_closed c then Some (c, s, InterfaceError)
  else if length =? 0 then Some (c, s, Ok)
  else send_loop (Z.to_nat length) c s data length 0 timeout_ms.

(** One round of [receive]: the status and the length to return. *)
Definition receive_round (output output_capacity : Z) (c : Client) s : option (Client * Net W * option (Status * Z)) :=
  match take_or_poll_one c s with
  | (s, Ok, Some segment) =>
      '(c, s, status) ← process_incoming c s segment;
      if negb (bool_decide (status = Ok)) && negb (bool_decide (status = NotForUs)) then Some (c, s, Some (status, 0))
      else
        let '(c, s, status, length) := drain_pending c s output output_capacity true in
        if bool_decide (status = Ok) then Some (c, fst (acknowledge_or_defer c s), Some (Ok, length))
        else if peer_closed c then Some (c, s, Some (Ok, 0))
        else Some (c, wait_progress s, None)
  | (s, status, _) =>
      if bool_decide (status = WouldBlock) || bool_decide (status = NotForUs) then Some (c, wait_progress s, None)
      else Some (c, s, Some (status, 0))
  end.

Definition receive (c : Client) s (output output_capacity : Z) (has_out : bool) (timeout_ms : Z)
  : option (Client * Net W * Status * Z) :=
  if negb (has_stack c) || (output =? 0) || (output_capacity =? 0) || negb has_out || (timeout_ms =? 0)
  then Some (c, s, InvalidArgument, 0)
  else if bool_decide (state c = Reset) || bool_decide (state c = Error) then Some (c, s, InterfaceError, 0)
  else
    let '(c, s, status, length) := drain_pending c s output output_capacity has_out in
    if bool_decide (status = Ok) then Some (c, fst (acknowledge_or_defer c s), Ok, length)
    else if peer_closed c then Some (c, s, Ok, length)
    else if negb (connected c) then Some (c, s, InterfaceError, length)
    else
      '(c, s, result) ← while_open_partial timeout_ms (receive_round output output_capacity) c s;
      Some (c, s, fst (default (WouldBlock, 0) result), snd (default (WouldBlock, 0) result)).

Definition kGracefulCloseTimeoutMs : Z := 1500.
Definition kAbortTimeoutMs : Z := 500.

(** The RST that ends what the FIN did not: the client is released only when it is queued. *)
Definition abort (c : Client) s : option (Client * Net W * Status) :=
  '(s, abort_status) ← queue_segment_with_backpressure c s (send_next c) (receive_next c) (Z.lor TcpRst TcpAck) 0 0 kAbortTimeoutMs;
  if bool_decide (abort_status = Ok) then Some (initialize, s, Ok) else Some (c, s, abort_status).

(** One round of the wait for the end of the connection. *)
Definition close_round (expected_ack : Z) (c : Client) s : option (Client * Net W * option Status) :=
  match take_or_poll_one c s with
  | (s, Ok, Some segment) =>
      '(c, s, status) ← process_incoming c s segment;
      if bool_decide (state c = Reset) then Some (initialize, s, Some Ok)
      else if negb (bool_decide (status = Ok)) && negb (bool_decide (status = NotForUs)) then
        Some (to_state c FinWait1, s, Some status)
      else
        let fin_acknowledged := negb (sequence_before (send_unacknowledged c) expected_ack) in
        if fin_acknowledged && peer_closed c then Some (initialize, s, Some Ok)
        else Some (c, wait_progress s, None)
  | (s, status, _) =>
      if bool_decide (status = WouldBlock) || bool_decide (status = NotForUs) then Some (c, wait_progress s, None)
      else Some (to_state c FinWait1, s, Some status)
  end.

Definition close (c : Client) s : option (Client * Net W * Status) :=
  if negb (connected c) || negb (has_stack c) then Some (initialize, s, Ok)
  else if bool_decide (state c = Reset) then Some (initialize, s, Ok)
  else if bool_decide (state c = Error) then Some (initialize, s, InterfaceError)
  else if bool_decide (state c = FinWait1) then abort c s
  else if negb (bool_decide (state c = Established)) && negb (bool_decide (state c = CloseWait)) then Some (c, s, InterfaceError)
  else if negb (send_unacknowledged c =? send_next c) then Some (c, s, WouldBlock)
  else
    let fin_sequence := send_next c in
    let expected_ack := u32 (fin_sequence + 1) in
    '(s, status) ←
      queue_segment_with_backpressure c s fin_sequence (receive_next c) (Z.lor TcpFin TcpAck) 0 0 kGracefulCloseTimeoutMs;
    if negb (bool_decide (status = Ok)) then Some (c, s, status)
    else
      let c := to_state (set_send c (send_unacknowledged c) expected_ack) FinWait1 in
      '(c, s, result) ← while_open_partial kGracefulCloseTimeoutMs (close_round expected_ack) c s;
      match result with
      | Some status => Some (c, s, status)
      | None =>
          '(c, s, status) ← abort c s;
          Some (if bool_decide (status = Ok) then c else to_state c FinWait1, s, status)
      end.

(** Every entry point first refuses a null client. *)
Definition with_client {R : Type} (client : option Client) s (call : Client -> Net W -> option (Client * Net W * Status))
  : option (option Client * Net W * Status) :=
  match client with
  | None => Some (None, s, InvalidArgument)
  | Some c => '(c, s, status) ← call c s; Some (Some c, s, status)
  end.

End client.
