(* ===== verification/TcpStream.v ===== *)
(** * The byte stream of a TCP connection

    The peer sends a stream of bytes; the segments that arrive carry slices of it,
    in any order, repeated, overlapping or missing, with 32-bit sequence numbers.
    [core] and [queue] say that a client at position [pos] of the stream holds the
    bytes just before it and slices that are still to come; every call keeps this,
    so what the application receives is a prefix of the stream (TcpTheorems.v). *)

From S2P Require Import Prelude Packet Network Protocols NetworkStack TcpClient.

(** ** Sequence numbers *)

Lemma seq_before_iff base a b : - 2 ^ 31 <= a - b < 2 ^ 31 ->
  sequence_before (u32 (base + a)) (u32 (base + b)) = (a <? b).
Proof.
  intros H. unfold sequence_before, u32. rewrite <- Zminus_mod. replace (base + a - (base + b)) with (a - b) by lia.
  destruct (Z.ltb_spec a b) as [Hlt|Hge].
  - rewrite <- (Z_mod_plus_full _ 1), Z.mod_small by lia. lia.
  - rewrite Z.mod_small by lia. lia.
Qed.

Lemma seq_after_iff base a b : - 2 ^ 31 < a - b <= 2 ^ 31 ->
  sequence_after (u32 (base + a)) (u32 (base + b)) = (b <? a).
Proof. intros H. apply seq_before_iff. lia. Qed.

Lemma u32_add base a b : u32 (u32 (base + a) + u32 b) = u32 (base + (a + b)).
Proof. unfold u32. rewrite <- Zplus_mod. f_equal. lia. Qed.

Lemma u32_add_one base a : u32 (u32 (base + a) + 1) = u32 (base + (a + 1)).
Proof. unfold u32. rewrite Zplus_mod_idemp_l. f_equal. lia. Qed.

Lemma u32_sub base a b : 0 <= a - b < 2 ^ 32 -> u32 (u32 (base + a) - u32 (base + b)) = a - b.
Proof. intros H. unfold u32. rewrite <- Zminus_mod. replace (base + a - (base + b)) with (a - b) by lia. apply Z.mod_small. lia. Qed.

Lemma u32_inj base a b : - 2 ^ 32 < a - b < 2 ^ 32 -> u32 (base + a) = u32 (base + b) -> a = b.
Proof. unfold u32. intros H E. apply Z.cong_iff_0 in E. replace (base + a - (base + b)) with (a - b) in E by lia. zdm. Qed.

(** ** Lists *)

Lemma inserts_app {A : Type} (l k : list A) i : (i + length k <= length l)%nat ->
  list_inserts i k l = take i l ++ k ++ drop (i + length k) l.
Proof.
  revert l i. induction k as [|x k IH]; intros l i Hi; cbn [length] in *.
  - cbn [list_inserts app]. rewrite Nat.add_0_r. by rewrite take_drop.
  - cbn [list_inserts]. rewrite list_insert_inserts_lt by lia. rewrite IH by (rewrite length_insert; lia).
    rewrite (take_S_r _ i x) by (apply list_lookup_insert_eq; lia). rewrite take_insert_ge by lia.
    rewrite drop_insert_lt by lia. rewrite <- app_assoc. cbn [app]. by replace (S i + length k)%nat with (i + S (length k))%nat by lia.
Qed.

(** ** The state of a stream *)

Section stream.
Context (base : Z) (stream : list Z).
Local Abbreviation size := (Z.of_nat (length stream)) (only parsing).

Definition slice (off len : Z) : list Z := take (Z.to_nat len) (drop (Z.to_nat off) stream).

Definition fin (flags : Z) : Z := Z.b2z (has_flag flags TcpFin).

(** The fields and the payload of a segment that carries the [len] bytes from
    [off] on; the one with the end of the stream may carry the FIN. *)
Record carries (off sequence flags : Z) (payload : list Z) (len : Z) : Prop := {
  cr_sequence : sequence = u32 (base + off);
  cr_off : 0 <= off;
  cr_len : 0 <= len <= OUT_OF_ORDER_PAYLOAD_CAPACITY;
  cr_end : off + len <= size;
  cr_payload : take (Z.to_nat len) payload = slice off len;
  cr_fin : has_flag flags TcpFin = true -> off + len = size }.

Definition end_of (off flags len : Z) : Z := off + len + fin flags.

Definition pending_bytes (c : Client) : list Z :=
  take (Z.to_nat (pending_length c)) (drop (Z.to_nat (pending_offset c)) (pending c)).

(** The client has the stream up to [pos], where the FIN counts as the position
    after the last byte; the bytes not yet taken by the application are pending. *)
Record core (pos : Z) (c : Client) : Prop := {
  co_next : receive_next c = u32 (base + pos);
  co_pos : 0 <= pos <= size + 1;
  co_closed : peer_closed c = (pos =? size + 1);
  co_size : Z.of_nat (length (pending c)) = STREAM_RECEIVE_CAPACITY;
  co_offset : 0 <= pending_offset c;
  co_length : 0 <= pending_length c <= Z.min pos size;
  co_fits : pending_offset c + pending_length c <= STREAM_RECEIVE_CAPACITY;
  co_bytes : pending_bytes c = slice (Z.min pos size - pending_length c) (pending_length c) }.

(** A waiting segment is a slice, not yet all received and not too far ahead. *)
Definition waits (slack pos : Z) (b : BufferedSegment) : Prop :=
  exists off, carries off (b_sequence b) (b_flags b) (b_payload b) (b_payload_length b) /\
    pos < end_of off (b_flags b) (b_payload_length b) + slack /\
    end_of off (b_flags b) (b_payload_length b) - pos < 2 ^ 31.

Record queue (slack pos : Z) (l : list BufferedSegment) (count : Z) : Prop := {
  qu_length : length l = OUT_OF_ORDER_QUEUE_DEPTH;
  qu_payload : Forall (fun b => Z.of_nat (length (b_payload b)) = OUT_OF_ORDER_PAYLOAD_CAPACITY) l;
  qu_waits : forall b, b ∈ l -> b_valid b = true -> waits slack pos b;
  qu_count : count = countb b_valid l }.

(** The fields that say whom the client talks to and what it has sent. *)
Definition same_conn (c c' : Client) : Prop :=
  has_stack c' = has_stack c /\ peer c' = peer c /\ local_port c' = local_port c /\ remote_port c' = remote_port c /\
  send_unacknowledged c' = send_unacknowledged c /\ send_next c' = send_next c /\ peer_window c' = peer_window c /\
  connected c' = connected c.

Lemma same_conn_refl c : same_conn c c.
Proof. by repeat split. Qed.

Lemma same_conn_trans c1 c2 c3 : same_conn c1 c2 -> same_conn c2 c3 -> same_conn c1 c3.
Proof. unfold same_conn. intuition congruence. Qed.

Lemma fin_range flags : 0 <= fin flags <= 1.
Proof. unfold fin. destruct (has_flag _ _); cbn; lia. Qed.

Lemma end_sequence_eq off sequence flags payload len : carries off sequence flags payload len ->
  end_sequence sequence len flags = u32 (base + end_of off flags len).
Proof.
  intros [-> _ _ _ _ _]. unfold end_sequence, end_of, fin. rewrite u32_add. destruct (has_flag _ _); cbn [Z.b2z].
  - by rewrite u32_add_one.
  - by rewrite Z.add_0_r.
Qed.

Lemma tcps_slice_length off len : 0 <= off -> 0 <= len -> off + len <= size -> Z.of_nat (length (slice off len)) = len.
Proof. intros. unfold slice. rewrite length_take, length_drop. lia. Qed.

Lemma tcps_slice_app off len len' : 0 <= off -> 0 <= len -> 0 <= len' -> slice off len ++ slice (off + len) len' = slice off (len + len').
Proof.
  intros. unfold slice. replace (Z.to_nat (len + len')) with (Z.to_nat len + Z.to_nat len')%nat by lia.
  rewrite <- take_take_drop, drop_drop. do 3 f_equal. lia.
Qed.

Lemma slice_drop off len k : 0 <= off -> 0 <= k <= len -> drop (Z.to_nat k) (slice off len) = slice (off + k) (len - k).
Proof.
  intros. unfold slice. rewrite skipn_firstn_comm, drop_drop. f_equal; [lia|]. f_equal. lia.
Qed.

(** ** The stream buffer *)

Lemma compact_loop_eq n : forall off i (l : list Z), (off + i + n <= length l)%nat -> (0 < off)%nat ->
  compact_loop n off i l = take i l ++ take n (drop (off + i) l) ++ drop (i + n) l.
Proof.
  induction n as [|n IH]; intros off i l Hl Ho; cbn [compact_loop].
  - rewrite Nat.add_0_r, firstn_O, app_nil_l. by rewrite take_drop.
  - assert (is_Some (l !! (off + i)%nat)) as [x Hx] by (apply lookup_lt_is_Some; lia).
    assert (length (<[i := nth (off + i) l 0]> l) = length l) as Hli by apply length_insert.
    rewrite IH by lia. rewrite (nth_lookup_Some _ _ _ _ Hx).
    rewrite (drop_S l x (off + i)) by done. rewrite firstn_cons.
    rewrite (take_S_r _ i x) by (apply list_lookup_insert_eq; lia). rewrite take_insert_ge by lia.
    rewrite !drop_insert_lt by lia. rewrite <- app_assoc. cbn [app].
    replace (off + S i)%nat with (S (off + i)) by lia. by replace (S i + n)%nat with (i + S n)%nat by lia.
Qed.

Lemma compact_ok pos c : core pos c ->
  let c' := compact_pending c in
  core pos c' /\ same_conn c c' /\ pending_offset c' = 0 /\ pending_length c' = pending_length c /\
  out_of_order c' = out_of_order c /\ out_of_order_count c' = out_of_order_count c /\ state c' = state c.
Proof.
  intros Hcore. pose proof Hcore as [Hn Hp Hc Hs Ho Hl Hf Hb]. unfold compact_pending.
  destruct (Z.eqb_spec (pending_offset c) 0) as [E|E]; [by split_and!|].
  destruct (Z.eqb_spec (pending_length c) 0) as [E'|E'].
  - split; [|by repeat split]. constructor; cbn [set_pending receive_next peer_closed pending pending_offset pending_length]; try done; [lia|].
    rewrite E' in *. done.
  - split; [|by repeat split]. set (n := Z.to_nat (pending_length c)). set (o := Z.to_nat (pending_offset c)).
    assert (compact_loop n o 0 (pending c) = take n (drop o (pending c)) ++ drop n (pending c)) as E2.
    { rewrite compact_loop_eq by lia. by rewrite Nat.add_0_r. }
    assert (length (take n (drop o (pending c))) = n) as Hlt by (rewrite length_take, length_drop; lia).
    constructor; cbn; try done; [|lia|].
    + rewrite E2, length_app, Hlt, length_drop. lia.
    + unfold pending_bytes in *. cbn. fold n. rewrite E2, drop_0, take_app_le, take_ge by lia. by rewrite <- Hb.
Qed.

(** Appending the next bytes of the stream: they are pending, or there is no room. *)
Lemma append_ok pos c k : core pos c -> 0 < k -> pos + k <= size ->
  exists c' st, append_pending c (slice pos k) = (c', st) /\ same_conn c c' /\
    out_of_order c' = out_of_order c /\ out_of_order_count c' = out_of_order_count c /\ state c' = state c /\
    ((st = Ok /\ pending_length c' = pending_length c + k /\ core (pos + k) (set_receive_next c' (u32 (base + (pos + k))))) \/
     (st = QueueFull /\ core pos c' /\ pending_length c' = pending_length c /\ STREAM_RECEIVE_CAPACITY < pending_length c + k)).
Proof.
  intros Hc Hk Hend. assert (Z.of_nat (length (slice pos k)) = k) as Hlen by (apply tcps_slice_length; [apply Hc|lia..]).
  unfold append_pending. rewrite Hlen. replace (k =? 0) with false by lia.
  set (c1 := if _ && _ then compact_pending c else c).
  assert (core pos c1 /\ same_conn c c1 /\ pending_length c1 = pending_length c /\ out_of_order c1 = out_of_order c /\
    out_of_order_count c1 = out_of_order_count c /\ state c1 = state c /\
    (pending_offset c1 + pending_length c1 + k <= STREAM_RECEIVE_CAPACITY \/ STREAM_RECEIVE_CAPACITY < pending_length c + k))
    as (Hc1 & Hsame & Hl1 & Hq1 & Hn1 & Hs1 & Hroom).
  { pose proof (compact_ok pos c Hc) as (H1 & H2 & H3 & H4 & H5 & H6 & H7). unfold c1. destruct (_ && _) eqn:E.
    - split_and!; try done. rewrite H3, H4. lia.
    - split_and!; try done. pose proof (co_offset _ _ Hc). lia. }
  pose proof Hc1 as [Hn Hp Hcl Hs Ho Hl Hf Hb].
  destruct (_ || _) eqn:E.
  - eexists _, _. split; [reflexivity|]. split_and!; try done. right. split_and!; try done. lia.
  - eexists _, _. split; [reflexivity|]. split_and!; try done. left. split_and!; [done|cbn; lia|].
    assert (length (list_inserts (Z.to_nat (pending_offset c1 + pending_length c1)) (slice pos k) (pending c1)) = length (pending c1)) as Hli
      by apply length_inserts.
    constructor; cbn; try done; [lia|lia|lia|lia|lia|].
    replace (Z.min (pos + k) size - (pending_length c1 + k)) with (pos - pending_length c1) by lia.
    rewrite <- tcps_slice_app by lia. replace (pos - pending_length c1 + pending_length c1) with pos by lia.
    unfold pending_bytes in *. cbn. rewrite Z.min_l in Hb by lia. rewrite <- Hb.
    rewrite inserts_app by lia.
    replace (Z.to_nat (pending_offset c1 + pending_length c1)) with (Z.to_nat (pending_offset c1) + Z.to_nat (pending_length c1))%nat by lia.
    replace (Z.to_nat (pending_length c1 + k)) with (Z.to_nat (pending_length c1) + Z.to_nat k)%nat by lia.
    set (o := Z.to_nat (pending_offset c1)). set (n := Z.to_nat (pending_length c1)).
    assert (length (slice pos k) = Z.to_nat k) as Hlk by lia.
    rewrite drop_app_le by (rewrite length_take; lia).
    rewrite <- take_drop_commute. rewrite app_assoc. rewrite take_app_le by (rewrite length_app, length_take, length_drop; lia).
    rewrite take_ge; [done|]. rewrite length_app, length_take, length_drop. lia.
Qed.

(** ** Contiguous segments *)

(** A segment that reaches past [pos]: afterwards the client has the stream up to
    its end, or it has no room and nothing has changed. *)
Lemma ingest_ok pos c off sequence flags payload len :
  core pos c -> carries off sequence flags payload len -> off <= pos < end_of off flags len -> pos - off < 2 ^ 31 ->
  exists c' st, ingest_contiguous c sequence flags payload len = (c', st) /\ same_conn c c' /\
    out_of_order c' = out_of_order c /\ out_of_order_count c' = out_of_order_count c /\
    ((st = Ok /\ core (end_of off flags len) c' /\ pending_length c' = pending_length c + (off + len - pos)) \/
     (st = QueueFull /\ core pos c' /\ state c' = state c /\ pending_length c' = pending_length c /\ STREAM_RECEIVE_CAPACITY < pending_length c + (off + len - pos))).
Proof.
  intros Hc Hs Hpos Hnear. pose proof (fin_range flags) as Hfin. unfold end_of in *.
  pose proof Hs as [Eseq Hoff Hlen Hend Hpay Hf]. unfold OUT_OF_ORDER_PAYLOAD_CAPACITY, TRANSPORT_INBOX_CAPACITY, ETHERNET_MTU in Hlen.
  unfold ingest_contiguous, OUT_OF_ORDER_PAYLOAD_CAPACITY, TRANSPORT_INBOX_CAPACITY, ETHERNET_MTU. replace (1500 <? len) with false by lia.
  rewrite Eseq, u32_add, (co_next _ _ Hc). rewrite seq_after_iff, seq_before_iff, seq_after_iff by lia.
  (* the FIN, once the data is in *)
  assert (forall c1, core (off + len) c1 -> same_conn c c1 -> out_of_order c1 = out_of_order c ->
    out_of_order_count c1 = out_of_order_count c -> pending_length c1 = pending_length c + (off + len - pos) ->
    exists c' st,
      (if has_flag flags TcpFin && (u32 (base + (off + len)) =? receive_next c1)
       then (set_state (set_receive_next c1 (u32 (receive_next c1 + 1))) (if bool_decide (state (set_receive_next c1 (u32 (receive_next c1 + 1))) = FinWait1) then FinWait1 else CloseWait)
               (connected (set_receive_next c1 (u32 (receive_next c1 + 1)))) true, Ok)
       else (c1, Ok)) = (c', st) /\ same_conn c c' /\
      out_of_order c' = out_of_order c /\ out_of_order_count c' = out_of_order_count c /\
      ((st = Ok /\ core (off + len + fin flags) c' /\ pending_length c' = pending_length c + (off + len - pos)) \/
       (st = QueueFull /\ core pos c' /\ state c' = state c /\ pending_length c' = pending_length c /\ STREAM_RECEIVE_CAPACITY < pending_length c + (off + len - pos)))) as Hdone.
  { intros c1 H1 H2 H3 H4 H5. rewrite (co_next _ _ H1), Z.eqb_refl, andb_true_r. unfold fin. destruct (has_flag flags TcpFin).
    - eexists _, _. split; [reflexivity|]. split_and!; try done. left. split; [done|]. split; [|done].
      specialize (Hf eq_refl). destruct H1 as [Hn Hp Hcl Hsz Ho Hl Hfit Hb]. cbn [Z.b2z].
      constructor; cbn; try done; [by rewrite u32_add_one|lia|lia|lia|].
      rewrite Z.min_r by lia. rewrite Z.min_l in Hb by lia. rewrite Hf in Hb. done.
    - cbn [Z.b2z]. rewrite Z.add_0_r. eexists _, _. split; [reflexivity|]. split_and!; try done. by left. }
  destruct (Z.eqb_spec len 0) as [E0|E0].
  { apply Hdone; try done; [|lia]. replace (off + len) with pos by lia. done. }
  replace (pos <? off) with false by lia. replace (len <? _) with false; cycle 1.
  { destruct (off <? pos) eqn:E1; [|lia]. destruct (negb _) eqn:E2; [lia|]. rewrite u32_sub by lia. lia. }
  assert (exists skip, (if off <? pos then if negb (pos <? off + len) then len else u32 (u32 (base + pos) - u32 (base + off)) else 0) = skip /\
    0 <= skip <= len /\ (skip = pos - off /\ pos <= off + len)) as (skip & -> & Hskip & Eskip & Hle).
  { eexists. split; [reflexivity|]. destruct (Z.ltb_spec off pos); [|lia]. destruct (Z.ltb_spec pos (off + len)); cbn [negb].
    - rewrite u32_sub by lia. lia.
    - split; [lia|]. unfold fin in *. destruct (has_flag _ _); cbn [Z.b2z] in *; lia. }
  replace (len - skip) with (off + len - pos) by lia. destruct (Z.eqb_spec (off + len - pos) 0) as [E1|E1].
  { apply Hdone; try done; [|lia]. replace (off + len) with pos by lia. done. }
  assert (take (Z.to_nat (off + len - pos)) (drop (Z.to_nat skip) payload) = slice pos (off + len - pos)) as Edata.
  { rewrite take_drop_commute. replace (Z.to_nat skip + Z.to_nat (off + len - pos))%nat with (Z.to_nat len) by lia.
    rewrite Hpay, slice_drop by lia. f_equal; lia. }
  rewrite Edata. destruct (append_ok pos c (off + len - pos) Hc ltac:(lia) ltac:(lia)) as (c1 & st & E & Hsame & Hq & Hn & Hst & Hcase).
  rewrite E. destruct Hcase as [(-> & Hl & H1)|(-> & H1 & Hpl & Hroom)].
  - rewrite bool_decide_true by done. cbn [negb]. replace (u32 (receive_next c1 + u32 (off + len - pos))) with (u32 (base + (off + len))).
    + replace (pos + (off + len - pos)) with (off + len) in H1 by lia. by apply Hdone.
    + assert (receive_next c1 = receive_next c) as ->; [|rewrite (co_next _ _ Hc), u32_add; f_equal; lia].
      unfold append_pending, compact_pending in E. repeat case_match; simplify_eq/=; done.
  - rewrite bool_decide_false by done. cbn [negb]. eexists _, _. split; [reflexivity|]. split_and!; try done. right. split_and!; done.
Qed.

(** ** Flushing *)

(** A waiting segment that is already received. *)
Definition duplicate (next : Z) (b : BufferedSegment) : bool := b_valid b && negb (sequence_after (buffered_end_sequence b) next).
(** One that is next. *)
Definition eligible (next : Z) (b : BufferedSegment) : bool :=
  b_valid b && sequence_after (buffered_end_sequence b) next && negb (sequence_after (b_sequence b) next).

Lemma scan_element_ok b next index count removed candidate b' count' removed' candidate' :
  scan_element b next index count removed candidate = (b', count', removed', candidate') -> Z.b2z (b_valid b) <= count ->
  b' = (if duplicate next b then invalidate b else b) /\ count' = count - Z.b2z (duplicate next b) /\
  removed' = removed || duplicate next b /\
  (candidate' = candidate /\ (eligible next b = true -> candidate ≠ None) \/
   eligible next b = true /\ candidate' = Some (index, b_sequence b)).
Proof.
  unfold scan_element, duplicate, eligible. intros E Hcount.
  destruct (b_valid b); cbn [negb andb Z.b2z orb] in *; [|injection E as <- <- <- <-; split_and!; [done|lia|by rewrite orb_false_r|by left]].
  destruct (sequence_after (buffered_end_sequence b) next); cbn [negb andb Z.b2z] in *.
  - destruct (sequence_after (b_sequence b) next); cbn [negb].
    + injection E as <- <- <- <-. split_and!; [done|lia|by rewrite orb_false_r|by left].
    + destruct candidate as [[i q]|]; [destruct (sequence_before _ q)|]; injection E as <- <- <- <-;
        (split_and!; [done|lia|by rewrite orb_false_r|by (left + right)]).
  - replace (negb (count =? 0)) with true in E by lia. injection E as <- <- <- <-. split_and!; [done|lia|by rewrite orb_true_r|by left].
Qed.

Lemma flush_scan_ok next l : forall index count removed candidate l' count' removed' candidate',
  flush_scan l next index count removed candidate = (l', count', removed', candidate') ->
  countb b_valid l <= count ->
  l' = (fun b => if duplicate next b then invalidate b else b) <$> l /\
  count' = count - countb (duplicate next) l /\ removed' = removed || existsb (duplicate next) l /\
  match candidate' with
  | Some i => (exists q, candidate = Some (i, q)) \/ exists j b, i = (index + j)%nat /\ l !! j = Some b /\ eligible next b = true
  | None => candidate = None /\ forall b, b ∈ l -> eligible next b = false
  end.
Proof.
  induction l as [|b l IH]; intros index count removed candidate l' count' removed' candidate'; cbn [flush_scan countb existsb].
  - intros [= <- <- <- <-] _. split_and!; [done|lia|by rewrite orb_false_r|]. destruct candidate as [[i q]|]; cbn; [left; by exists q|].
    split; [done|]. intros b []%not_elem_of_nil.
  - intros E Hcount. pose proof (countb_nonneg b_valid l).
    destruct (scan_element _ _ _ _ _ _) as [[[b1 n1] r1] d1] eqn:E1. apply scan_element_ok in E1 as (-> & -> & -> & Hd); [|lia].
    destruct (flush_scan _ _ _ _ _ _) as [[[l2 n2] r2] d2] eqn:E2. injection E as <- <- <- <-.
    assert (Z.b2z (duplicate next b) <= Z.b2z (b_valid b)) by (unfold duplicate; destruct (b_valid b), (negb _); cbn; lia).
    destruct (IH _ _ _ _ _ _ _ _ E2) as (-> & -> & -> & H4); [lia|]. split_and!; [done|lia|by rewrite orb_assoc|].
    destruct d2 as [i|].
    + destruct H4 as [[q Hq]|(j & x & -> & Hj & Hx)]; [|right; exists (S j), x; split; [lia|done]].
      destruct Hd as [[-> _]|[He ->]]; [left; by exists q|]. injection Hq as <- <-. right. exists 0%nat, b. split; [lia|done].
    + destruct H4 as [Hn Hl]. destruct Hd as [[-> Hd]|[_ ->]]; [|done]. split; [done|].
      intros x [->|Hx]%elem_of_cons; [|by apply Hl]. destruct (eligible next b); [by destruct (Hd eq_refl)|done].
Qed.

(** The number of bytes the application has taken. *)
Definition taken (pos : Z) (c : Client) : Z := Z.min pos size - pending_length c.

(** All of a segment has been received. *)
Definition received (pos : Z) (b : BufferedSegment) : Prop :=
  exists off, carries off (b_sequence b) (b_flags b) (b_payload b) (b_payload_length b) /\
    end_of off (b_flags b) (b_payload_length b) <= pos.

(** A segment with at least the same bytes waits. *)
Definition covered (l : list BufferedSegment) (b : BufferedSegment) : Prop :=
  exists b', b' ∈ l /\ b_valid b' = true /\ b_sequence b' = b_sequence b /\
    b_payload_length b + fin (b_flags b) <= b_payload_length b' + fin (b_flags b').

(** No segment that waits is lost (in a stream shorter than the sequence space). *)
Definition kept (pos : Z) (l l' : list BufferedSegment) : Prop :=
  size + 1 < 2 ^ 32 -> forall b, covered l b -> (exists off, carries off (b_sequence b) (b_flags b) (b_payload b) (b_payload_length b)) ->
    covered l' b \/ received pos b.

Lemma covered_self l b : b ∈ l -> b_valid b = true -> covered l b.
Proof. intros. exists b. by split_and!. Qed.

Lemma received_mono pos pos' b : pos <= pos' -> received pos b -> received pos' b.
Proof. intros H (off & Hc & He). exists off. split; [done|lia]. Qed.

Lemma tcps_kept_trans pos pos' l1 l2 l3 : pos <= pos' -> kept pos l1 l2 -> kept pos' l2 l3 -> kept pos' l1 l3.
Proof.
  intros Hp H1 H2 Hz b Hb Hc. destruct (H1 Hz b Hb Hc) as [H|H]; [by apply H2|]. right. by apply (received_mono pos).
Qed.

Lemma tcps_kept_refl pos l : kept pos l l.
Proof. intros _ b Hb _. by left. Qed.

Lemma core_out_of_order pos c l n : core pos c -> core pos (set_out_of_order c l n).
Proof. intros []. by constructor. Qed.

Lemma end_of_bounds off sequence flags payload len : carries off sequence flags payload len ->
  off <= off + len /\ off + len <= end_of off flags len <= off + 1501 /\ end_of off flags len <= size + 1.
Proof.
  intros [_ ? Hl ? _ Hf]. unfold end_of, fin. unfold OUT_OF_ORDER_PAYLOAD_CAPACITY, TRANSPORT_INBOX_CAPACITY, ETHERNET_MTU in Hl.
  destruct (has_flag _ _); cbn [Z.b2z]; [specialize (Hf eq_refl)|]; lia.
Qed.

(** It is enough to look at the segments themselves. *)
Lemma kept_intro pos l l' : (forall b, b ∈ l -> b_valid b = true -> covered l' b \/ received pos b) -> kept pos l l'.
Proof.
  intros H Hz b (b' & Hb' & Hv & Hs & Hl) (off & Hc). destruct (H b' Hb' Hv) as [(b2 & H2 & Hv2 & Hs2 & Hl2)|(off' & Hc' & He)].
  - left. exists b2. split_and!; [done|done|congruence|lia].
  - right. exists off. split; [done|]. replace off with off'; [unfold end_of in *; lia|].
    pose proof (end_of_bounds _ _ _ _ _ Hc). pose proof (end_of_bounds _ _ _ _ _ Hc'). pose proof (cr_off _ _ _ _ _ Hc). pose proof (cr_off _ _ _ _ _ Hc').
    apply (u32_inj base); [lia|]. rewrite <- (cr_sequence _ _ _ _ _ Hc), <- (cr_sequence _ _ _ _ _ Hc'). done.
Qed.

Lemma waits_dup slack pos b : waits slack pos b -> slack <= 2 ^ 20 -> b_valid b = true ->
  exists off, carries off (b_sequence b) (b_flags b) (b_payload b) (b_payload_length b) /\
    let e := end_of off (b_flags b) (b_payload_length b) in
    pos < e + slack /\ e - pos < 2 ^ 31 /\ duplicate (u32 (base + pos)) b = (e <=? pos) /\
    eligible (u32 (base + pos)) b = (pos <? e) && (off <=? pos).
Proof.
  intros (off & Hc & H1 & H2) Hs Hv. exists off. split; [done|]. intros e. pose proof (end_of_bounds _ _ _ _ _ Hc) as (Hb1 & Hb2 & Hb3).
  fold e in H1, H2, Hb2. unfold duplicate, eligible, buffered_end_sequence. rewrite Hv, (end_sequence_eq _ _ _ _ _ Hc), (cr_sequence _ _ _ _ _ Hc).
  fold e. rewrite !seq_after_iff by lia. cbn [andb]. split_and!; lia.
Qed.

Lemma invalidate_payload b : b_payload (invalidate b) = b_payload b.
Proof. done. Qed.

(** What the scan leaves. *)
Lemma scanned_queue slack pos l count : queue slack pos l count -> slack <= 2 ^ 20 ->
  let l' := (fun b => if duplicate (u32 (base + pos)) b then invalidate b else b) <$> l in
  queue 0 pos l' (count - countb (duplicate (u32 (base + pos))) l) /\ kept pos l l' /\
  countb b_valid l' = countb b_valid l - countb (duplicate (u32 (base + pos))) l /\
  (forall j b, l !! j = Some b -> eligible (u32 (base + pos)) b = true -> l' !! j = Some b).
Proof.
  intros [Hl Hp Hw Hn] Hs l'. set (next := u32 (base + pos)) in *.
  assert (countb b_valid l' = countb b_valid l - countb (duplicate next) l) as Ecount.
  { unfold l'. clear -next. induction l as [|b l IH]; [done|]. rewrite fmap_cons. cbn [countb]. rewrite IH. unfold duplicate at 2.
    destruct (duplicate next b) eqn:E; unfold duplicate in *; destruct (b_valid b), (negb _); cbn in *; try discriminate; lia. }
  split_and!; [constructor| |done|].
  - unfold l'. by rewrite length_fmap.
  - unfold l'. rewrite Forall_fmap. apply (Forall_impl _ _ _ Hp). intros b Hb. cbn. by destruct (duplicate next b).
  - intros b (x & -> & Hx)%list_elem_of_fmap Hv. destruct (duplicate next x) eqn:Ed; [done|].
    destruct (waits_dup slack pos x (Hw _ Hx Hv) Hs Hv) as (off & Hc & H1 & H2 & H3 & _). fold next in H3. exists off. split; [done|]. lia.
  - by rewrite Hn, Ecount.
  - apply kept_intro. intros b Hb Hv. destruct (duplicate next b) eqn:Ed.
    + right. destruct (waits_dup slack pos b (Hw _ Hb Hv) Hs Hv) as (off & Hc & H1 & H2 & H3 & _). fold next in H3. exists off. split; [done|lia].
    + left. apply covered_self; [|done]. unfold l'. apply list_elem_of_fmap. exists b. by rewrite Ed.
  - intros j b Hj He. unfold l'. rewrite list_lookup_fmap, Hj. cbn. unfold eligible in He.
    apply andb_true_iff in He as [[Hv Ha]%andb_true_iff _]. unfold duplicate. by rewrite Hv, Ha.
Qed.

(** From [pos] to [pos'], with everything that waited. *)
Record advances (slack pos pos' : Z) (c c' : Client) : Prop := {
  ad_core : core pos' c';
  ad_queue : queue slack pos' (out_of_order c') (out_of_order_count c');
  ad_pos : pos <= pos';
  ad_conn : same_conn c c';
  ad_taken : taken pos' c' = taken pos c }.

Lemma advances_trans s1 s2 p1 p2 p3 c1 c2 c3 : advances s1 p1 p2 c1 c2 -> advances s2 p2 p3 c2 c3 -> advances s2 p1 p3 c1 c3.
Proof.
  intros [_ _ ? H1 H2] [? ? ? H4 H5]. constructor; [done|done|lia|by apply (same_conn_trans _ c2)|congruence].
Qed.

Lemma taken_advance pos c c' off sequence flags payload len : carries off sequence flags payload len ->
  off <= pos < end_of off flags len -> pending_length c' = pending_length c + (off + len - pos) ->
  taken (end_of off flags len) c' = taken pos c.
Proof.
  intros [_ ? ? ? _ Hf] Hpos Hl. unfold taken. rewrite Hl. unfold end_of, fin in *. destruct (has_flag _ _); cbn [Z.b2z] in *; [specialize (Hf eq_refl)|]; lia.
Qed.

Lemma queue_slack s1 s2 pos l count : s1 <= s2 -> queue s1 pos l count -> queue s2 pos l count.
Proof.
  intros Hs [? ? H ?]. constructor; try done. intros b Hb Hv. destruct (H b Hb Hv) as (off & Hc & H1 & H2). exists off. split; [done|lia].
Qed.

Lemma countb_existsb {A} (f : A -> bool) l : existsb f l = true -> 0 < countb f l.
Proof.
  induction l as [|x l IH]; [done|]. cbn [existsb countb]. pose proof (countb_nonneg f l). destruct (f x); cbn [orb Z.b2z]; [lia|].
  intros ?%IH. lia.
Qed.

Lemma kept_clear pos l l' : size + 1 <= pos -> kept pos l l'.
Proof. intros Hp _ b _ [off Hc]. right. exists off. split; [done|]. pose proof (end_of_bounds _ _ _ _ _ Hc). lia. Qed.

Lemma queue_clear slack pos l : length l = OUT_OF_ORDER_QUEUE_DEPTH ->
  Forall (fun b => Z.of_nat (length (b_payload b)) = OUT_OF_ORDER_PAYLOAD_CAPACITY) l -> queue slack pos (invalidate <$> l) 0.
Proof.
  intros Hl Hp. constructor.
  - by rewrite length_fmap.
  - by rewrite Forall_fmap.
  - by intros b (x & -> & _)%list_elem_of_fmap.
  - clear. induction l as [|b l IH]; [done|]. rewrite fmap_cons. cbn [countb]. by rewrite <- IH.
Qed.

(** Taking a segment out of the queue when all of it has been received. *)
Lemma queue_consume pos pos' l count i b : queue 0 pos l count -> l !! i = Some b -> b_valid b = true ->
  received pos' b -> pos <= pos' <= pos + 1501 ->
  queue 1501 pos' (<[i := invalidate b]> l) (count - 1) /\ kept pos' l (<[i := invalidate b]> l) /\
  countb b_valid (<[i := invalidate b]> l) = countb b_valid l - 1.
Proof.
  intros [Hl Hp Hw Hn] Hi Hv Hrec Hpos.
  assert (countb b_valid (<[i := invalidate b]> l) = countb b_valid l - 1) as Ec.
  { rewrite (countb_insert _ _ _ b) by done. rewrite Hv. cbn. lia. }
  split_and!; [constructor| |done].
  - by rewrite length_insert.
  - apply Forall_insert; [done|]. apply (Forall_lookup_1 _ _ _ _ Hp Hi).
  - intros x Hx Hvx. apply list_elem_of_lookup in Hx as [j Hj]. apply list_lookup_insert_Some in Hj as [(-> & <- & _)|(_ & Hj)]; [done|].
    destruct (Hw x) as (off & Hc & H1 & H2); [by apply list_elem_of_lookup_2 in Hj|done|]. exists off. split; [done|lia].
  - lia.
  - apply kept_intro. intros x Hx Hvx. apply list_elem_of_lookup in Hx as [j Hj]. destruct (decide (j = i)) as [->|Hji].
    + right. by replace x with b by congruence.
    + left. apply covered_self; [|done]. apply (list_elem_of_lookup_2 _ j). by rewrite list_lookup_insert_ne.
Qed.

(** One round goes on with one segment less in the queue, or ends. *)
Lemma flush_round_ok slack pos c : core pos c -> queue slack pos (out_of_order c) (out_of_order_count c) -> slack <= 2 ^ 20 ->
  match flush_round c with
  | inl c' => exists pos', advances 1501 pos pos' c c' /\ kept pos' (out_of_order c) (out_of_order c') /\
      countb b_valid (out_of_order c') < countb b_valid (out_of_order c)
  | inr (c', st) => exists pos', advances 0 pos pos' c c' /\ kept pos' (out_of_order c) (out_of_order c') /\
      countb b_valid (out_of_order c') <= countb b_valid (out_of_order c) /\
      ((st = Ok /\ forall b, b ∈ out_of_order c' -> eligible (u32 (base + pos')) b = false) \/
       (st = QueueFull /\ STREAM_RECEIVE_CAPACITY < size - taken pos c))
  end.
Proof.
  intros Hc Hq Hs. unfold flush_round. destruct (flush_scan _ _ _ _ _ _) as [[[l n] r] d] eqn:E.
  rewrite (co_next _ _ Hc) in E.
  destruct (flush_scan_ok _ _ _ _ _ _ _ _ _ _ E) as (-> & -> & -> & Hd); [by rewrite (qu_count _ _ _ _ Hq)|].
  destruct (scanned_queue _ _ _ _ Hq Hs) as (Hq1 & Hk1 & Hn1 & Helig).
  pose proof (countb_nonneg (duplicate (u32 (base + pos))) (out_of_order c)) as Hdups. set (next := u32 (base + pos)) in *.
  set (l1 := (fun b => if duplicate next b then invalidate b else b) <$> out_of_order c) in *.
  set (c1 := set_out_of_order c l1 _). assert (advances 0 pos pos c c1) as H1.
  { constructor; [by apply core_out_of_order|done|lia|by repeat split|done]. }
  destruct d as [i|].
  - destruct Hd as [[q [=]]|(j & b & -> & Hj & He)]. cbn [Nat.add]. pose proof (Helig _ _ Hj He) as Hl1.
    rewrite (nth_lookup_Some _ _ _ _ Hl1). pose proof He as He'. unfold eligible in He'.
    apply andb_true_iff in He' as [[Hv _]%andb_true_iff _].
    destruct (waits_dup 0 pos b (qu_waits _ _ _ _ Hq1 _ (list_elem_of_lookup_2 _ _ _ Hl1) Hv) ltac:(lia) Hv) as (off & Hcar & W1 & W2 & W3 & W4).
    fold next in W4. rewrite He in W4. symmetry in W4. apply andb_true_iff in W4 as [W4 W5].
    pose proof (end_of_bounds _ _ _ _ _ Hcar) as (B1 & B2 & B3).
    destruct (ingest_ok pos c1 off _ _ _ _ (ad_core _ _ _ _ _ H1) Hcar) as (c2 & st & E2 & Hsame & Hq2 & Hn2 & Hcase); [lia|lia|].
    rewrite E2. destruct Hcase as [(-> & Hc2 & Hl2)|(-> & Hc2 & _ & Hl2 & Hroom)].
    + rewrite bool_decide_true by done. cbn [negb]. set (pos' := end_of off (b_flags b) (b_payload_length b)) in *.
      rewrite Hq2, Hn2. change (out_of_order c1) with l1. set (n1 := out_of_order_count c1).
      assert (received pos' b) as Hrec by (exists off; split; [done|lia]).
      destruct (queue_consume pos pos' l1 n1 j b Hq1 Hl1 Hv Hrec) as (Q1 & Q2 & Q3); [lia|].
      replace (negb (n1 =? 0)) with true; cycle 1.
      { pose proof (qu_count _ _ _ _ Hq1 : n1 = _). pose proof (countb_nonneg b_valid (<[j:=invalidate b]> l1)). lia. }
      pose proof (taken_advance pos c c2 off _ _ _ _ Hcar ltac:(lia) Hl2 : taken pos' c2 = taken pos c) as Et.
      change (peer_closed (set_out_of_order c2 _ _)) with (peer_closed c2). destruct (peer_closed c2) eqn:Ep.
      * rewrite (co_closed _ _ Hc2) in Ep.
        assert (queue 0 pos' (invalidate <$> <[j:=invalidate b]> l1) 0) as Qc by (apply queue_clear; apply Q1).
        exists pos'. split_and!; [|apply kept_clear; lia| |left; split; [done|]; by intros x (y & -> & _)%list_elem_of_fmap].
        -- constructor; try done; [by apply core_out_of_order, core_out_of_order|lia].
        -- pose proof (countb_nonneg b_valid (out_of_order c)). pose proof (qu_count _ _ _ _ Qc) as Ez. cbn [clear_out_of_order set_out_of_order out_of_order]. lia.
      * exists pos'. split_and!; [|by apply (tcps_kept_trans pos pos' _ l1); [lia|..]|].
        -- constructor; try done; [by apply core_out_of_order|lia].
        -- cbn [set_out_of_order out_of_order]. rewrite Q3, Hn1. lia.
    + rewrite bool_decide_false by done. cbn [negb]. exists pos. split_and!; [|by rewrite Hq2|rewrite Hq2; change (out_of_order c1) with l1; lia|].
      * constructor; [done|by rewrite Hq2, Hn2|lia|by apply (same_conn_trans _ c1); [apply H1|]|]. unfold taken. by rewrite Hl2.
      * right. split; [done|]. unfold taken. pose proof (cr_end _ _ _ _ _ Hcar). change (pending_length c1) with (pending_length c) in Hroom. lia.
  - destruct Hd as [_ Hd]. destruct (existsb (duplicate next) (out_of_order c)) eqn:Er; cbn [orb].
    + exists pos. split_and!; [destruct H1; constructor; try done; by apply (queue_slack 0)|done|].
      cbn [set_out_of_order out_of_order c1]. rewrite Hn1. pose proof (countb_existsb _ _ Er). lia.
    + exists pos. split_and!; [done|done|change (out_of_order c1) with l1; lia|]. left. split; [done|].
      intros x (y & -> & Hy)%list_elem_of_fmap. destruct (duplicate next y) eqn:Ed; [done|by apply Hd].
Qed.

Lemma flush_loop_ok fuel : forall slack pos c, core pos c -> queue slack pos (out_of_order c) (out_of_order_count c) -> slack <= 2 ^ 20 ->
  countb b_valid (out_of_order c) < Z.of_nat fuel ->
  exists c' st pos', flush_loop fuel c = Some (c', st) /\ advances 0 pos pos' c c' /\ kept pos' (out_of_order c) (out_of_order c') /\
    countb b_valid (out_of_order c') <= countb b_valid (out_of_order c) /\
    ((st = Ok /\ forall b, b ∈ out_of_order c' -> eligible (u32 (base + pos')) b = false) \/
     (st = QueueFull /\ STREAM_RECEIVE_CAPACITY < size - taken pos c)).
Proof.
  induction fuel as [|fuel IH]; intros slack pos c Hc Hq Hs Hf; [pose proof (countb_nonneg b_valid (out_of_order c)); lia|].
  cbn [flush_loop]. pose proof (flush_round_ok slack pos c Hc Hq Hs) as H. destruct (flush_round c) as [c1|[c1 st]].
  - destruct H as (pos1 & H1 & H2 & H3). destruct (IH 1501 pos1 c1) as (c' & st & pos' & -> & H4 & H5 & H5' & H6); [apply H1|apply H1|lia|lia|].
    exists c', st, pos'. split; [done|]. split; [by apply (advances_trans 1501 0 pos pos1 pos' c c1)|]. split_and!.
    + apply (tcps_kept_trans pos1 pos' _ (out_of_order c1)); [apply H4|done..].
    + lia.
    + destruct H6 as [?|[? ?]]; [by left|right]. by rewrite <- (ad_taken _ _ _ _ _ H1).
  - destruct H as (pos' & H1 & H2 & H3). by exists c1, st, pos'.
Qed.

Lemma tcps_flush_ok slack pos c : core pos c -> queue slack pos (out_of_order c) (out_of_order_count c) -> slack <= 2 ^ 20 ->
  exists c' st pos', flush_out_of_order c = Some (c', st) /\ advances 0 pos pos' c c' /\ kept pos' (out_of_order c) (out_of_order c') /\
    countb b_valid (out_of_order c') <= countb b_valid (out_of_order c) /\
    ((st = Ok /\ forall b, b ∈ out_of_order c' -> eligible (u32 (base + pos')) b = false) \/
     (st = QueueFull /\ STREAM_RECEIVE_CAPACITY < size - taken pos c)).
Proof.
  intros Hc Hq Hs. apply (flush_loop_ok _ slack); try done. pose proof (countb_le_length b_valid (out_of_order c)) as H.
  rewrite (qu_length _ _ _ _ Hq) in H. unfold flush_fuel, OUT_OF_ORDER_QUEUE_DEPTH in *. lia.
Qed.

(** ** Segments that arrive *)

Definition buffered (t : TcpSegment) : BufferedSegment :=
  mkBuffered (t_sequence t) (t_flags t) (t_window t) (t_payload_length t) (t_payload t) true.

(** No waiting segment could be taken now. *)
Definition settled (pos : Z) (l : list BufferedSegment) : Prop := forall b, b ∈ l -> eligible (u32 (base + pos)) b = false.

Definition reach (b : BufferedSegment) : Z := b_payload_length b + fin (b_flags b).

Lemma store_carries off t b : carries off (t_sequence t) (t_flags t) (t_payload t) (t_payload_length t) ->
  Z.of_nat (length (b_payload b)) = OUT_OF_ORDER_PAYLOAD_CAPACITY ->
  let b' := store_buffered_segment b t in
  carries off (b_sequence b') (b_flags b') (b_payload b') (b_payload_length b') /\
  Z.of_nat (length (b_payload b')) = OUT_OF_ORDER_PAYLOAD_CAPACITY.
Proof.
  intros [H1 H2 H3 H4 H5 H6] Hb b'. cbn. rewrite length_inserts. split; [|done].
  assert (length (take (Z.to_nat (t_payload_length t)) (t_payload t)) = Z.to_nat (t_payload_length t)) as Hlen.
  { rewrite H5. pose proof (tcps_slice_length off (t_payload_length t) ltac:(lia) ltac:(lia) ltac:(lia)). lia. }
  constructor; try done. rewrite inserts_app by lia. rewrite firstn_O, app_nil_l, take_app_length' by lia. done.
Qed.

(** A segment stored in place of another one. *)
Lemma store_queue pos l n i b off t : queue 0 pos l n -> l !! i = Some b ->
  carries off (t_sequence t) (t_flags t) (t_payload t) (t_payload_length t) ->
  pos < end_of off (t_flags t) (t_payload_length t) -> end_of off (t_flags t) (t_payload_length t) - pos < 2 ^ 31 ->
  queue 0 pos (store_at l i t) (n + 1 - Z.b2z (b_valid b)) /\ covered (store_at l i t) (buffered t) /\
  ((b_valid b = true -> b_sequence b = t_sequence t /\ reach b <= reach (buffered t)) -> kept pos l (store_at l i t)) /\
  (pos < off -> settled pos l -> settled pos (store_at l i t)).
Proof.
  intros [Hl Hp Hw Hn] Hi Hc H1 H2. unfold store_at. rewrite (nth_lookup_Some _ _ _ _ Hi).
  pose proof (lookup_lt_Some _ _ _ Hi) as Hlt.
  destruct (store_carries off t b Hc (Forall_lookup_1 _ _ _ _ Hp Hi)) as [Hc' Hlen].
  split_and!; [constructor|..].
  - by rewrite length_insert.
  - by apply Forall_insert.
  - intros x Hx Hv. apply list_elem_of_lookup in Hx as [j Hj]. apply list_lookup_insert_Some in Hj as [(-> & <- & _)|(_ & Hj)].
    + exists off. split; [done|]. cbn. lia.
    + apply Hw; [|done]. by apply list_elem_of_lookup_2 in Hj.
  - rewrite (countb_insert _ _ _ b) by done. cbn [store_buffered_segment b_valid Z.b2z]. lia.
  - exists (store_buffered_segment b t). split_and!; [|done..]. apply (list_elem_of_lookup_2 _ i). by rewrite list_lookup_insert_eq.
  - intros Hold. apply kept_intro. intros x Hx Hv. apply list_elem_of_lookup in Hx as [j Hj]. left. destruct (decide (j = i)) as [->|Hji].
    + replace x with b in * by congruence. destruct (Hold Hv) as [Hs Hr]. exists (store_buffered_segment b t).
      split_and!; [apply (list_elem_of_lookup_2 _ i); by rewrite list_lookup_insert_eq|done|done|exact Hr].
    + apply covered_self; [|done]. apply (list_elem_of_lookup_2 _ j). by rewrite list_lookup_insert_ne.
  - intros Hpos Hset x Hx. apply list_elem_of_lookup in Hx as [j Hj]. apply list_lookup_insert_Some in Hj as [(-> & <- & _)|(_ & Hj)].
    + unfold eligible. rewrite (cr_sequence _ _ _ _ _ Hc'), seq_after_iff by (pose proof (end_of_bounds _ _ _ _ _ Hc); lia).
      replace (pos <? off) with true by lia. apply andb_false_r.
    + apply Hset. by apply list_elem_of_lookup_2 in Hj.
Qed.

Lemma advances_queue pos c l n : core pos c -> queue 0 pos l n -> advances 0 pos pos c (set_out_of_order c l n).
Proof. intros Hc Hq. constructor; [by apply core_out_of_order|done|lia|by repeat split|done]. Qed.

(** A segment ahead of the stream: it waits, at the expense of the farthest one
    when the queue is full. *)
Lemma queue_out_of_order_ok pos c off t : core pos c -> queue 0 pos (out_of_order c) (out_of_order_count c) ->
  carries off (t_sequence t) (t_flags t) (t_payload t) (t_payload_length t) -> pos < off ->
  end_of off (t_flags t) (t_payload_length t) - pos < 2 ^ 31 -> 0 < reach (buffered t) ->
  exists c', queue_out_of_order c t = (c', Ok) /\ advances 0 pos pos c c' /\
    (countb b_valid (out_of_order c) < Z.of_nat OUT_OF_ORDER_QUEUE_DEPTH ->
     kept pos (out_of_order c) (out_of_order c') /\ covered (out_of_order c') (buffered t) /\
     countb b_valid (out_of_order c') <= countb b_valid (out_of_order c) + 1 /\
     (settled pos (out_of_order c) -> settled pos (out_of_order c'))).
Proof.
  intros Hc Hq Hcar Hpos Hnear Hreach. unfold queue_out_of_order. pose proof (end_of_bounds _ _ _ _ _ Hcar) as (B1 & B2 & B3).
  pose proof (cr_len _ _ _ _ _ Hcar) as Hlen. replace (_ <? t_payload_length t) with false by lia.
  destruct (_ && negb _) eqn:E0.
  { exfalso. unfold reach, fin, buffered in Hreach. cbn in Hreach. destruct (has_flag (t_flags t) TcpFin); cbn in *; lia. }
  pose proof Hq as [Hl Hp Hw Hn]. set (l := out_of_order c) in *.
  destruct (find_index (fun b => b_valid b && _) l) as [i|] eqn:E1.
  - apply find_index_Some in E1 as [(b & Hi & [Hv Hs%Z.eqb_eq]%andb_true_iff) _]. rewrite (nth_lookup_Some _ _ _ _ Hi).
    destruct (Hw b (list_elem_of_lookup_2 _ _ _ Hi) Hv) as (off' & Hcar' & W1 & W2). pose proof (end_of_bounds _ _ _ _ _ Hcar') as (B4 & B5 & B6).
    assert (off' = off) as ->.
    { apply (u32_inj base); [lia|]. rewrite <- (cr_sequence _ _ _ _ _ Hcar), <- (cr_sequence _ _ _ _ _ Hcar'). done. }
    unfold incoming_end_sequence, buffered_end_sequence. rewrite (end_sequence_eq _ _ _ _ _ Hcar), (end_sequence_eq _ _ _ _ _ Hcar').
    rewrite seq_after_iff by (unfold end_of in *; lia). destruct (_ <? _) eqn:E2; cbn [negb].
    + eexists. split; [reflexivity|].
      destruct (store_queue pos l _ i b off t Hq Hi Hcar) as (Q1 & Q2 & Q3 & Q4); [lia|lia|]. rewrite Hv in Q1. cbn [Z.b2z] in Q1.
      replace (_ + 1 - 1) with (out_of_order_count c) in Q1 by lia. split; [by apply advances_queue|]. intros _. split_and!; [|done| |by apply Q4].
      * apply Q3. intros _. split; [done|]. unfold reach, end_of, buffered in *. cbn. lia.
      * cbn [set_out_of_order out_of_order]. pose proof (qu_count _ _ _ _ Q1). lia.
    + exists c. split; [done|]. split; [constructor; try done; lia || apply same_conn_refl|]. intros _. split_and!; [apply tcps_kept_refl| |unfold l; lia|done].
      exists b. split_and!; [by apply list_elem_of_lookup_2 in Hi|done|done|]. unfold end_of, buffered in *. cbn. lia.
  - destruct (find_index (fun b => negb (b_valid b)) l) as [i|] eqn:E2.
    + apply find_index_Some in E2 as [(b & Hi & Hv%negb_true_iff) _]. eexists. split; [reflexivity|].
      destruct (store_queue pos l _ i b off t Hq Hi Hcar) as (Q1 & Q2 & Q3 & Q4); [lia|lia|]. rewrite Hv in Q1. cbn [Z.b2z] in Q1. rewrite Z.sub_0_r in Q1.
      split; [by apply advances_queue|]. intros _. split_and!; [apply Q3; by rewrite Hv|done| |by apply Q4].
      cbn [set_out_of_order out_of_order]. pose proof (qu_count _ _ _ _ Q1). lia.
    + assert (forall b, b ∈ l -> b_valid b = true) as Hall.
      { intros b Hb. apply list_elem_of_lookup in Hb as [j Hj]. apply negb_false_iff. by apply (proj1 (find_index_None _ _) E2 j). }
      assert (countb b_valid l = Z.of_nat OUT_OF_ORDER_QUEUE_DEPTH) as Hfull.
      { rewrite <- Hl. apply countb_true_all. done. }
      destruct (farthest_loop l (receive_next c) 0 0 0) as [i distance] eqn:E3.
      assert (advances 0 pos pos c c) as Hself by (constructor; try done; lia || apply same_conn_refl).
      destruct (_ <? distance); [|exists c; split; [done|]; split; [done|lia]]. eexists. split; [reflexivity|]. split; [|lia].
      destruct (l !! i) as [b|] eqn:Hi.
      * destruct (store_queue pos l _ i b off t Hq Hi Hcar) as (Q1 & _); [lia|lia|].
        rewrite (Hall b (list_elem_of_lookup_2 _ _ _ Hi)) in Q1. cbn [Z.b2z] in Q1.
        replace (_ + 1 - 1) with (out_of_order_count c) in Q1 by lia. by apply advances_queue.
      * unfold store_at. rewrite list_insert_ge by (by apply lookup_ge_None in Hi). by apply advances_queue.
Qed.

(** A segment of the stream, near the client's position. *)
Definition in_stream (pos : Z) (t : TcpSegment) : Prop :=
  exists off, carries off (t_sequence t) (t_flags t) (t_payload t) (t_payload_length t) /\
    pos - off < 2 ^ 31 /\ end_of off (t_flags t) (t_payload_length t) - pos < 2 ^ 31.

(** The client after the acknowledgement and the window of a segment. *)
Definition acked (c : Client) (t : TcpSegment) : Client := record_ack (set_window c (t_window t)) t.

Lemma core_acked pos c t : core pos c -> core pos (acked c t).
Proof. intros []. unfold acked, record_ack. repeat case_match; by constructor. Qed.

Lemma acked_out_of_order c t : out_of_order (acked c t) = out_of_order c /\ out_of_order_count (acked c t) = out_of_order_count c.
Proof. unfold acked, record_ack. by repeat case_match. Qed.

Lemma acked_pending c t : pending_length (acked c t) = pending_length c.
Proof. unfold acked, record_ack. by repeat case_match. Qed.

Section net.
Context {W : Type}.

(** What the data of a segment does: the position advances over it and over what
    waited, or it waits; with room in the queue and in the buffer nothing is lost. *)
Lemma process_data_ok pos c (s : Net W) t : core pos c -> queue 0 pos (out_of_order c) (out_of_order_count c) -> in_stream pos t ->
  exists c' s' st pos', process_data c s t = Some (c', s', st) /\ advances 0 pos pos' c c' /\
    (0 < reach (buffered t) -> settled pos (out_of_order c) -> countb b_valid (out_of_order c) < Z.of_nat OUT_OF_ORDER_QUEUE_DEPTH ->
     size - taken pos c <= STREAM_RECEIVE_CAPACITY ->
     settled pos' (out_of_order c') /\ kept pos' (out_of_order c) (out_of_order c') /\
     (covered (out_of_order c') (buffered t) \/ received pos' (buffered t)) /\
     countb b_valid (out_of_order c') <= countb b_valid (out_of_order c) + 1).
Proof.
  intros Hc Hq (off & Hcar & Hn1 & Hn2). unfold process_data. pose proof (end_of_bounds _ _ _ _ _ Hcar) as (B1 & B2 & B3).
  assert (advances 0 pos pos c c) as Hself by (constructor; try done; lia || apply same_conn_refl).
  destruct (_ && negb _) eqn:E0.
  { exists c, s, Ok, pos. split; [done|]. split; [done|]. unfold reach, fin, buffered. cbn.
    apply andb_true_iff in E0 as [H1%Z.eqb_eq H2%negb_true_iff]. rewrite H1, H2. cbn. lia. }
  unfold incoming_end_sequence. rewrite (end_sequence_eq _ _ _ _ _ Hcar), (co_next _ _ Hc), seq_after_iff by lia.
  destruct (Z.ltb_spec pos (end_of off (t_flags t) (t_payload_length t))) as [H1|H1]; cbn [negb]; cycle 1.
  { destruct (acknowledge_or_defer c s) as [s' st]. exists c, s', st, pos. split; [done|]. split; [done|].
    intros _ Hset _ _. split_and!; [done|apply tcps_kept_refl|right; by exists off|lia]. }
  rewrite (cr_sequence _ _ _ _ _ Hcar), seq_after_iff by lia. destruct (Z.ltb_spec pos off) as [H2|H2].
  - assert (0 < reach (buffered t)) as Hreach by (unfold reach, buffered, end_of, fin in *; cbn; destruct (has_flag (t_flags t) TcpFin); cbn in *; lia).
    destruct (queue_out_of_order_ok pos c off t Hc Hq Hcar H2 Hn2 Hreach) as (c' & -> & Hadv & Hlive). rewrite bool_decide_true by done. cbn [negb].
    destruct (acknowledge_or_defer c' s) as [s' st]. exists c', s', st, pos. split; [done|]. split; [done|].
    intros _ Hset Hcount _. destruct (Hlive Hcount) as (L1 & L2 & L3 & L4). split_and!; [by apply L4|done|by left|done].
  - destruct (ingest_ok pos c off _ _ _ _ Hc Hcar) as (c1 & st & E & Hsame & Hl1 & Hn' & Hcase); [lia|lia|].
    rewrite (cr_sequence _ _ _ _ _ Hcar) in E. rewrite E.
    destruct Hcase as [(-> & Hc1 & Hpl)|(-> & Hc1 & _ & Hpl & Hroom)].
    + rewrite bool_decide_false, bool_decide_true by done. cbn [negb].
      set (pos1 := end_of off (t_flags t) (t_payload_length t)) in *.
      pose proof (taken_advance pos c c1 off _ _ _ _ Hcar ltac:(lia) Hpl : taken pos1 c1 = taken pos c) as Et1.
      assert (queue 1501 pos1 (out_of_order c1) (out_of_order_count c1)) as Hq1.
      { rewrite Hl1, Hn'. destruct Hq as [Q1 Q2 Q3 Q4]. constructor; try done. intros b Hb Hv. destruct (Q3 b Hb Hv) as (o & Ho & O1 & O2).
        exists o. split; [done|lia]. }
      destruct (tcps_flush_ok 1501 pos1 c1 Hc1 Hq1 ltac:(lia)) as (c2 & st2 & pos2 & E2 & Hadv & Hk & Hcount2 & Hcase).
      rewrite E2. cbn [mbind option_bind]. assert (advances 0 pos pos2 c c2) as Hadv2.
      { destruct Hadv as [A1 A2 A3 A4 A5]. constructor; [done|done|lia|by apply (same_conn_trans _ c1)|congruence]. }
      replace (negb (bool_decide (st2 = Ok)) && negb (bool_decide (st2 = QueueFull))) with false; cycle 1.
      { destruct Hcase as [[-> _]|[-> _]]; done. }
      destruct (acknowledge_or_defer c2 s) as [s' st']. exists c2, s', st', pos2. split; [done|]. split; [done|].
      intros _ Hset Hcount Hroom. destruct Hcase as [[-> Hset2]|[_ Hfull]]; [|lia]. split_and!; [done|by rewrite <- Hl1| |by rewrite <- Hl1; lia].
      right. exists off. split; [done|]. unfold pos1 in *. pose proof (ad_pos _ _ _ _ _ Hadv). cbn. lia.
    + rewrite bool_decide_true by done. destruct (acknowledge_or_defer c1 s) as [s' st]. exists c1, s', st, pos. split; [done|]. split.
      * constructor; [done|by rewrite Hl1, Hn'|lia|done|]. unfold taken. by rewrite Hpl.
      * intros _ _ _ Hroom'. unfold taken in Hroom'. pose proof (cr_end _ _ _ _ _ Hcar). lia.
Qed.
End net.

End stream.
