(* ===== verification/TcpTheorems.v ===== *)
(** * Theorems on the TCP stream

    What the application receives is a prefix of the peer's stream, along any run of
    the calls that do not wait ([tcp_stream_prefix]), and all of it once the segments
    are there ([reassembly_complete]). *)

From S2P Require Import Prelude Packet Network Protocols NetworkStack NetworkTheorems TcpClient TcpStream.

(** ** Sending writes the transmit buffer only *)

Definition outside (p n : Z) (m m' : Memory) : Prop := forall x, ~ (p <= x < p + n) -> m' x = m x.

Section outside.
Context (p n : Z) (m : Memory).

Lemma outside_refl : outside p n m m.
Proof. by intros x _. Qed.

Lemma outside_store m' a bytes : outside p n m m' -> p <= a -> a + Z.of_nat (length bytes) <= p + n -> outside p n m (store m' a bytes).
Proof. intros H Ha Hn x Hx. rewrite store_outside by lia. by apply H. Qed.

Lemma outside_store8 m' a v : outside p n m m' -> p <= a < p + n -> outside p n m (store8 m' a v).
Proof. intros H Ha x Hx. unfold store8. replace (x =? a) with false by lia. by apply H. Qed.

Lemma outside_be16 m' a v : outside p n m m' -> p <= a -> a + 2 <= p + n -> outside p n m (write_be16 m' a v).
Proof. intros H Ha Hn. unfold write_be16. destruct (a =? 0); [done|]. by apply outside_store. Qed.

Lemma outside_be32 m' a v : outside p n m m' -> p <= a -> a + 4 <= p + n -> outside p n m (write_be32 m' a v).
Proof. intros H Ha Hn. unfold write_be32. destruct (a =? 0); [done|]. by apply outside_store. Qed.

Lemma outside_clear m' a k : outside p n m m' -> 0 <= k -> p <= a -> a + k <= p + n -> outside p n m (clear_bytes m' a k).
Proof. intros H Hk Ha Hn. apply outside_store; [done|done|]. rewrite length_replicate. lia. Qed.

Lemma outside_move m' a b k : outside p n m m' -> 0 <= k -> p <= a -> a + k <= p + n -> outside p n m (move_bytes m' a b k).
Proof. intros H Hk Ha Hn x Hx. rewrite move_bytes_ok, decide_False by lia. by apply H. Qed.

Lemma outside_copy m' a b k : outside p n m m' -> 0 <= k -> p <= a -> a + k <= p + n -> outside p n m (copy_bytes m' a b k).
Proof.
  intros H Hk Ha Hn. unfold copy_bytes. assert (a + Z.of_nat (Z.to_nat k) <= p + n) as Hn' by lia. clear Hk Hn. revert m' a b H Ha Hn'.
  induction (Z.to_nat k) as [|j IH]; intros m' a b H Ha Hn; [done|]. cbn [copy_forward]. apply IH; [|lia|lia]. apply outside_store8; [done|lia].
Qed.
End outside.

Lemma outside_trans p n m1 m2 m3 : outside p n m1 m2 -> outside p n m2 m3 -> outside p n m1 m3.
Proof. intros H1 H2 x Hx. rewrite H2 by done. by apply H1. Qed.

Lemma outside_mono p n p' n' m m' : outside p n m m' -> p' <= p -> p + n <= p' + n' -> outside p' n' m m'.
Proof. intros H Hp Hn x Hx. apply H. lia. Qed.

Ltac keep_outside :=
  repeat first
    [ apply outside_refl
    | apply outside_be16; [|lia|lia] | apply outside_be32; [|lia|lia] | apply outside_store8; [|lia]
    | apply outside_clear; [|lia|lia|lia] | apply outside_move; [|lia|lia|lia] | apply outside_copy; [|lia|lia|lia]
    | apply outside_store; [|lia|cbn [length]; lia] ].

Lemma serialize_tcp_outside m src d sp dp q a f w p n o c b : 0 <= n ->
  outside o c m (fst (fst (serialize_tcp m src d sp dp q a f w p n o c b))).
Proof.
  intros Hn. unfold serialize_tcp. do 2 (case_match; [apply outside_refl|]).
  destruct (Z.ltb_spec c (TCP_MIN_HEADER_SIZE + n)); [apply outside_refl|]. cbn [fst]. unfold TCP_MIN_HEADER_SIZE in *. keep_outside.
Qed.

Lemma serialize_ipv4_outside m h p n o c b : 0 <= n -> ip_ok (h_source h) -> ip_ok (h_destination h) ->
  outside o c m (fst (fst (serialize_ipv4 m h p n o c b))).
Proof.
  intros Hn [H1 _] [H2 _]. unfold serialize_ipv4. do 3 (case_match; [apply outside_refl|]).
  destruct (Z.ltb_spec c (IPV4_MIN_HEADER_SIZE + n)); [apply outside_refl|]. case_match; [apply outside_refl|]. cbn [fst].
  unfold IPV4_MIN_HEADER_SIZE in *. destruct (n =? 0); keep_outside.
Qed.

Lemma serialize_ethernet_outside m d src t p n o c b : 0 <= n -> mac_ok d -> mac_ok src ->
  outside o c m (fst (fst (serialize_ethernet m d src t p n o c b))).
Proof.
  intros Hn [H1 _] [H2 _]. unfold serialize_ethernet. do 3 (case_match; [apply outside_refl|]).
  destruct (Z.ltb_spec c (ETHERNET_HEADER_SIZE + n)); [apply outside_refl|]. case_match; [apply outside_refl|]. cbn [fst].
  unfold ETHERNET_HEADER_SIZE, MAC_ADDRESS_LENGTH in *. destruct (n =? 0); keep_outside.
Qed.

Lemma serialize_arp_outside m p o c b : arp_ok p -> outside o c m (fst (fst (serialize_arp m p o c b))).
Proof.
  intros ([H1 _] & [H2 _] & [H3 _] & [H4 _]). unfold serialize_arp. case_match; [apply outside_refl|].
  destruct (Z.ltb_spec c ARP_PACKET_SIZE); [apply outside_refl|]. cbn [fst]. unfold ARP_PACKET_SIZE in *. keep_outside.
Qed.

Lemma serialize_tcp_length m src d sp dp q a f w p n o c b : 0 <= n -> 0 <= default 0 (snd (serialize_tcp m src d sp dp q a f w p n o c b)).
Proof. intros Hn. unfold serialize_tcp, TCP_MIN_HEADER_SIZE. repeat case_match; cbn; lia. Qed.

Lemma serialize_ipv4_length m h p n o c b : 0 <= n -> 0 <= default 0 (snd (serialize_ipv4 m h p n o c b)).
Proof. intros Hn. unfold serialize_ipv4, IPV4_MIN_HEADER_SIZE. repeat case_match; cbn; lia. Qed.

Lemma serialize_arp_length m p o c b : 0 <= default 0 (snd (serialize_arp m p o c b)).
Proof. unfold serialize_arp, ARP_PACKET_SIZE. repeat case_match; cbn; lia. Qed.

Section writes.
Context {W : Type}.
Implicit Types (s : Net W).

Definition writes s s' : Prop := outside (transmit_buffer (stack s)) ETHERNET_MAX_FRAME_SIZE (mem s) (mem s').

Lemma writes_refl s : writes s s.
Proof. apply outside_refl. Qed.

Lemma writes_trans s1 s2 s3 : writes s1 s2 -> same_setup (stack s1) (stack s2) -> writes s2 s3 -> writes s1 s3.
Proof. intros H1 (_ & _ & E & _) H2. unfold writes in *. rewrite E in H2. by apply (outside_trans _ _ _ (mem s2)). Qed.

Lemma transmit_mem s n : mem (fst (transmit_stack_frame s n)) = mem s.
Proof. destruct (transmit_stack_frame_eq s n) as (w & t & st & ->). done. Qed.

Lemma count_mem c s (b : bool) : mem (if b then count c s else s) = mem s.
Proof. by destruct b. Qed.

Lemma writes_send_frame s d t n : net_ok s -> mac_ok d -> 0 <= n -> writes s (fst (send_frame s d t n)).
Proof.
  intros Hs Hd Hn. unfold send_frame, writes.
  pose proof (serialize_ethernet_outside (mem s) d (hardware_address (interface (stack s))) t (transmit_buffer (stack s) + ETHERNET_HEADER_SIZE) n
    (transmit_buffer (stack s)) ETHERNET_MAX_FRAME_SIZE true Hn Hd (so_mac _ (proj2 Hs))) as H.
  destruct (serialize_ethernet _ _ _ _ _ _ _ _ _) as [[m st] l]. destruct (negb _); [exact H|]. by rewrite transmit_mem.
Qed.

Lemma writes_send_arp_packet s d p : net_ok s -> mac_ok d -> arp_ok p -> writes s (fst (send_arp_packet s d p)).
Proof.
  intros Hs Hd Hp. unfold send_arp_packet.
  pose proof (serialize_arp_outside (mem s) p (transmit_buffer (stack s) + ETHERNET_HEADER_SIZE) ETHERNET_MTU true Hp) as H.
  pose proof (serialize_arp_length (mem s) p (transmit_buffer (stack s) + ETHERNET_HEADER_SIZE) ETHERNET_MTU true) as Hl.
  pose proof (serialize_arp_bytes (mem s) p (transmit_buffer (stack s) + ETHERNET_HEADER_SIZE) ETHERNET_MTU true (proj1 Hs) Hp) as Hb.
  destruct (serialize_arp _ _ _ _ _) as [[m st] l]. cbn [fst snd] in *.
  assert (writes s (set_mem s m)) as H1.
  { apply (outside_mono _ _ _ _ _ _ H); unfold ETHERNET_HEADER_SIZE, ETHERNET_MAX_FRAME_SIZE, ETHERNET_HEADER_SIZE, ETHERNET_MTU; lia. }
  destruct (negb _); [exact H1|].
  pose proof (writes_send_frame (set_mem s m) d ETHER_TYPE_ARP (default 0 l) (conj Hb (proj2 Hs)) Hd Hl) as H2.
  destruct (send_frame _ _ _ _) as [s2 st2]. cbn [fst] in *. unfold writes in *. rewrite count_mem. by apply (outside_trans _ _ _ m).
Qed.

Lemma writes_resolve s ip : net_ok s -> ip_ok ip -> writes s (fst (resolve_destination s ip)).
Proof.
  intros Hs Hip. unfold resolve_destination. destruct (negb _ && _); [apply writes_refl|]. destruct (find_neighbor _ _); [apply writes_refl|].
  unfold send_arp_request. match goal with |- context [send_arp_packet s ?a ?b] => pose proof (writes_send_arp_packet s a b Hs broadcast_mac_ok) as H;
    destruct (send_arp_packet s a b) as [s' st] end. cbn [fst] in *. unfold writes in *. rewrite count_mem. apply H.
  repeat split; cbn; try apply Hs; try apply zero_mac_ok; case_match; try apply Hip; apply Hs.
Qed.

Lemma writes_send_transport s d ip protocol p n : net_ok s -> mac_ok d -> ip_ok ip -> is_u8 protocol -> 0 <= n ->
  writes s (fst (send_transport_packet s d ip protocol p n)).
Proof.
  intros Hs Hd Hip Hp Hn. unfold send_transport_packet. destruct (negb _); [apply writes_refl|]. unfold send_ipv4.
  set (s0 := set_stack s (set_identification (stack s) (u16 (next_identification (stack s) + 1)))).
  set (h := mkIPv4Header _ _ _ _ _ _). change (mem s0) with (mem s).
  assert (ip_ok (h_source h)) as Hsrc by apply Hs.
  match goal with |- context [serialize_ipv4 ?a ?b ?c ?d ?e ?f ?g] =>
    pose proof (serialize_ipv4_outside a b c d e f g Hn Hsrc Hip) as H; pose proof (serialize_ipv4_length a b c d e f g Hn) as Hl;
    pose proof (serialize_ipv4_bytes a b c d e f g (proj1 Hs) Hsrc Hip ltac:(cbn; word_lia) Hp) as Hb;
    destruct (serialize_ipv4 a b c d e f g) as [[m st] l] end. cbn [fst snd] in *.
  assert (writes s (set_mem s0 m)) as H1.
  { apply (outside_mono _ _ _ _ _ _ H); unfold ETHERNET_HEADER_SIZE, ETHERNET_MAX_FRAME_SIZE, ETHERNET_HEADER_SIZE, ETHERNET_MTU; lia. }
  destruct (negb (bool_decide (st = Ok))); [unfold writes in *; cbn [fst]; by rewrite count_mem|].
  assert (net_ok (set_mem s0 m)) as Hs1 by (split; [exact Hb|]; apply (keeps_identification s (next_identification (stack s) + 1) Hs)).
  pose proof (writes_send_frame (set_mem s0 m) d ETHER_TYPE_IPV4 (default 0 l) Hs1 Hd Hl) as H2.
  destruct (send_frame _ _ _ _) as [s2 st2]. cbn [fst] in *. unfold writes in *. rewrite count_mem. by apply (outside_trans _ _ _ m).
Qed.

(** A segment is sent from the transmit buffer: the rest of the memory stays. *)
Lemma writes_send_tcp s ip sp dp q a f w p n : net_ok s -> ip_ok ip -> is_u8 f -> 0 <= n ->
  writes s (fst (send_tcp s ip sp dp q a f w p n)).
Proof.
  intros Hs Hip Hf Hn. unfold send_tcp. do 3 (case_match; [apply writes_refl|]).
  pose proof (writes_resolve s ip Hs Hip) as Hw. destruct (keeps_resolve s ip Hs Hip) as [[Hk Hsame] Hm].
  destruct (resolve_destination _ _) as [s' [st|mac]]; [done|]. cbn [fst snd] in *. specialize (Hm mac eq_refl).
  apply (writes_trans s s'); [done|done|].
  match goal with |- context [serialize_tcp ?m ?a1 ?a2 ?a3 ?a4 ?a5 ?a6 ?a7 ?a8 ?a9 ?b1 ?b2 ?b3 ?b4] =>
    pose proof (serialize_tcp_outside m a1 a2 a3 a4 a5 a6 a7 a8 a9 b1 b2 b3 b4 Hn) as Hout;
    pose proof (serialize_tcp_length m a1 a2 a3 a4 a5 a6 a7 a8 a9 b1 b2 b3 b4 Hn) as Hl;
    pose proof (serialize_tcp_bytes m a1 a2 a3 a4 a5 a6 a7 a8 a9 b1 b2 b3 b4 (proj1 Hk) Hf) as Hb;
    destruct (serialize_tcp m a1 a2 a3 a4 a5 a6 a7 a8 a9 b1 b2 b3 b4) as [[m1 st] l] end. cbn [fst snd] in *.
  assert (writes s' (set_mem s' m1)) as Hw1.
  { apply (outside_mono _ _ _ _ _ _ Hout); unfold ETHERNET_HEADER_SIZE, IPV4_MIN_HEADER_SIZE, ETHERNET_MAX_FRAME_SIZE, ETHERNET_HEADER_SIZE, ETHERNET_MTU; lia. }
  destruct (negb (bool_decide (st = Ok))); [done|].
  pose proof (writes_send_transport (set_mem s' m1) mac ip IPV4_PROTOCOL_TCP (transmit_buffer (stack s') + (ETHERNET_HEADER_SIZE + IPV4_MIN_HEADER_SIZE))
    (default 0 l) (conj Hb (proj2 Hk)) Hm Hip ltac:(unfold IPV4_PROTOCOL_TCP; word_lia) Hl) as Hw2.
  change (stack s') with (stack (set_mem s' m1)) in Hw2 at 1.
  destruct (send_transport_packet _ _ _ _ _ _) as [s2 st2]. cbn [fst] in *. unfold writes in *. rewrite count_mem. by apply (outside_trans _ _ _ m1).
Qed.
End writes.

(** ** The stream at the interface *)

(** Data of the peer changes neither the connection nor, but for the end of the
    stream, its state. *)
Definition moves (c c' : Client) : Prop :=
  same_conn c c' /\ (state c' = state c \/ state c' = CloseWait \/ state c' = FinWait1).

Lemma moves_refl c : moves c c.
Proof. split; [apply same_conn_refl|by left]. Qed.

Lemma moves_trans c1 c2 c3 : moves c1 c2 -> moves c2 c3 -> moves c1 c3.
Proof. intros [E1 H1] [E2 H2]. split; [by eapply same_conn_trans|]. destruct H2 as [->|?]; [done|by right]. Qed.

Lemma append_moves c data : moves c (fst (append_pending c data)).
Proof. unfold append_pending, compact_pending. repeat case_match; split; try done; cbn; auto. Qed.

Lemma ingest_moves c q f p n : moves c (fst (ingest_contiguous c q f p n)).
Proof.
  unfold ingest_contiguous. destruct (_ <? n); [apply moves_refl|].
  match goal with |- moves c (fst (match ?d with inl _ => _ | inr _ => _ end)) =>
    assert (match d with inl c1 | inr (c1, _) => moves c c1 end) as H; [|destruct d as [c1|[c1 q1]]] end.
  - destruct (n =? 0); [apply moves_refl|]. destruct (sequence_after _ _); [apply moves_refl|]. destruct (n <? _); [apply moves_refl|].
    destruct (_ =? 0); [apply moves_refl|]. match goal with |- context [append_pending c ?d] => pose proof (append_moves c d) as H; destruct (append_pending c d) as [c2 q2] end.
    destruct (negb _); [exact H|]. exact H.
  - destruct (_ && _); [|exact H]. eapply moves_trans; [exact H|]. split; [done|]. cbn. destruct (bool_decide _); auto.
  - exact H.
Qed.

Lemma flush_round_moves c : match flush_round c with inl c' | inr (c', _) => moves c c' end.
Proof.
  unfold flush_round. destruct (flush_scan _ _ _ _ _ _) as [[[l n] r] d]. assert (moves c (set_out_of_order c l n)) as H0 by (split; [done|by left]). destruct d as [i|]; [|by destruct r].
  match goal with |- context [ingest_contiguous ?c ?a ?b ?d ?e] => pose proof (ingest_moves c a b d e) as H; destruct (ingest_contiguous c a b d e) as [c' st] end.
  cbn [fst] in H. destruct (negb (bool_decide (st = Ok))); [exact H|]. destruct (peer_closed _); exact H.
Qed.

Lemma flush_moves fuel : forall c c' st, flush_loop fuel c = Some (c', st) -> moves c c'.
Proof.
  induction fuel as [|fuel IH]; intros c c' st; cbn [flush_loop]; [done|]. pose proof (flush_round_moves c) as H.
  destruct (flush_round c) as [c1|[c1 st1]]; [|by intros [= <- <-]]. intros E. by eapply moves_trans, IH.
Qed.

Lemma queue_moves c t : moves c (fst (queue_out_of_order c t)).
Proof. unfold queue_out_of_order. repeat case_match; split; try done; cbn; auto. Qed.

Lemma acked_conn c t : has_stack (acked c t) = has_stack c /\ peer (acked c t) = peer c /\ local_port (acked c t) = local_port c /\
  remote_port (acked c t) = remote_port c /\ connected (acked c t) = connected c /\ state (acked c t) = state c /\
  send_next (acked c t) = send_next c.
Proof. unfold acked, record_ack. by repeat case_match. Qed.

Section net.
Context {W : Type}.
Implicit Types (s : Net W) (c : Client).

(** A call changes the network by an acknowledgement at most. *)
Definition acks c s s' : Prop := s' = s \/ exists c1, peer c1 = peer c /\ s' = fst (acknowledge_or_defer c1 s).

Lemma acks_one c c1 s s' q : acknowledge_or_defer c1 s = (s', q) -> moves c c1 -> acks c s s'.
Proof. intros E [(_ & Hp & _) _]. right. exists c1. by rewrite E. Qed.

Lemma process_data_moves c s t c' s' st : process_data c s t = Some (c', s', st) -> moves c c' /\ acks c s s'.
Proof.
  unfold process_data. case_match; [intros [= <- <- <-]; split; [apply moves_refl|by left]|]. case_match.
  { destruct (acknowledge_or_defer c s) eqn:E. intros [= <- <- <-]. split; [apply moves_refl|]. by eapply acks_one, moves_refl. }
  case_match.
  { pose proof (queue_moves c t) as Hm. destruct (queue_out_of_order c t) as [c1 q]. cbn [fst] in Hm.
    case_match; [intros [= <- <- <-]; by split; [|left]|]. destruct (acknowledge_or_defer c1 s) eqn:E. intros [= <- <- <-]. split; [done|]. by eapply acks_one. }
  match goal with |- context [ingest_contiguous ?c ?a ?b ?d ?e] => pose proof (ingest_moves c a b d e) as Hm; destruct (ingest_contiguous c a b d e) as [c1 q] end.
  cbn [fst] in Hm. case_match; [destruct (acknowledge_or_defer c1 s) eqn:E; intros [= <- <- <-]; split; [done|by eapply acks_one]|].
  case_match; [intros [= <- <- <-]; by split; [|left]|].
  destruct (flush_out_of_order c1) as [[c2 q2]|] eqn:E2; [|done]. apply flush_moves in E2. cbn [mbind option_bind].
  assert (moves c c2) as Hm2 by (by eapply moves_trans). case_match; [intros [= <- <- <-]; by split; [|left]|].
  destruct (acknowledge_or_defer c2 s) eqn:E. intros [= <- <- <-]. split; [done|]. by eapply acks_one.
Qed.

Lemma process_moves c s t c' s' st : process_incoming c s t = Some (c', s', st) -> state c ≠ SynSent ->
  state c' ≠ SynSent /\ peer c' = peer c /\ acks c s s'.
Proof.
  unfold process_incoming. case_match; [intros [= <- <- <-] ?; split_and!; [done|done|by left]|].
  case_match; [intros [= <- <- <-] ?; split_and!; [done|done|by left]|].
  fold (acked c t). intros [[(_ & Hp & _) Hst] Ha]%process_data_moves Hs. destruct (acked_conn c t) as (_ & Ep & _ & _ & _ & Es & _).
  rewrite Es in Hst. unfold acks in *. rewrite Ep in *. split_and!; [by destruct Hst as [->|[->| ->]]|done|done].
Qed.

Context (base : Z) (stream : list Z).
Local Abbreviation core := (core base stream) (only parsing).
Local Abbreviation queue := (queue base stream) (only parsing).
Local Abbreviation size := (Z.of_nat (length stream)) (only parsing).

(** A segment the peer may send: before the connection, the answer to the SYN
    announces [base]; then, acknowledgements and slices of the stream. *)
Definition good (c : Client) (t : TcpSegment) : Prop :=
  has_flag (t_flags t) TcpRst = false ->
  (state c = SynSent -> is_syn_ack t (send_next c) = true -> u32 (t_sequence t + 1) = u32 base) /\
  (state c ≠ SynSent -> (t_payload_length t = 0 /\ has_flag (t_flags t) TcpFin = false) \/
     forall pos, core pos c -> in_stream base stream pos t).

(** The next segment that a call takes is one of those. *)
Definition honest (c : Client) s : Prop :=
  forall c1 s1 s2 t, resend_syn c s = inl (c1, s1) -> take_or_poll_one c1 s1 = (s2, Ok, Some t) -> good c1 t.

(** Nothing received yet. *)
Record fresh (c : Client) : Prop := {
  fr_peer : ip_ok (peer c);
  fr_offset : pending_offset c = 0;
  fr_length : pending_length c = 0;
  fr_size : Z.of_nat (length (pending c)) = STREAM_RECEIVE_CAPACITY;
  fr_queue : length (out_of_order c) = OUT_OF_ORDER_QUEUE_DEPTH;
  fr_payload : Forall (fun b => Z.of_nat (length (b_payload b)) = OUT_OF_ORDER_PAYLOAD_CAPACITY) (out_of_order c);
  fr_valid : forall b, b ∈ out_of_order c -> b_valid b = false;
  fr_count : out_of_order_count c = 0;
  fr_closed : peer_closed c = false;
  fr_connected : connected c = false;
  fr_state : state c = SynSent \/ state c = Reset \/ state c = Error }.

(** What the application has taken is a prefix, and what follows is pending or waits. *)
Definition streams (out : list Z) (c : Client) : Prop :=
  exists pos, core pos c /\ queue 0 pos (out_of_order c) (out_of_order_count c) /\
    taken stream pos c = Z.of_nat (length out) /\ out = take (length out) stream /\ state c ≠ SynSent /\ ip_ok (peer c).

Definition conn_inv (out : list Z) (c : Client) : Prop :=
  (fresh c /\ out = []) \/ streams out c \/ (c = initialize /\ out = take (length out) stream).

Lemma fresh_start peer lp rp q : ip_ok peer -> fresh (start_client peer lp rp q).
Proof.
  intros Hpeer. constructor; [exact Hpeer|reflexivity|reflexivity| | | | |reflexivity|reflexivity|reflexivity|by left].
  - unfold start_client, initialize. cbn [pending]. by rewrite length_replicate.
  - unfold start_client, initialize. cbn [out_of_order]. by rewrite length_replicate.
  - unfold start_client, initialize. cbn [out_of_order]. apply (Forall_replicate _ OUT_OF_ORDER_QUEUE_DEPTH). cbn [b_payload empty_buffered]. unfold ZERO_INBOX. by rewrite length_replicate.
  - unfold start_client, initialize. cbn [out_of_order]. by intros b [-> _]%elem_of_replicate.
Qed.

(** A change of the fields that do not belong to the stream. *)
Lemma streams_same out c c' : receive_next c' = receive_next c -> peer_closed c' = peer_closed c -> pending c' = pending c ->
  pending_offset c' = pending_offset c -> pending_length c' = pending_length c -> out_of_order c' = out_of_order c ->
  out_of_order_count c' = out_of_order_count c -> peer c' = peer c -> state c' ≠ SynSent -> streams out c -> streams out c'.
Proof.
  intros E1 E2 E3 E4 E5 E6 E7 E8 Hs (pos & [] & Hq & Ht & Ho & _ & Hp). exists pos. rewrite E6, E7, E8. unfold taken in *. rewrite E5. split_and!; try done.
  unfold pending_bytes in *. by constructor; unfold pending_bytes; rewrite ?E1, ?E2, ?E3, ?E4, ?E5.
Qed.

(** A connection just after the answer to the SYN. *)
Record started (c : Client) : Prop := {
  sa_core : core 0 c;
  sa_queue : queue 0 0 (out_of_order c) (out_of_order_count c);
  sa_valid : forall b, b ∈ out_of_order c -> b_valid b = false;
  sa_pending : pending_length c = 0 }.

Lemma establish_started c s t c' s' st : fresh c -> u32 (t_sequence t + 1) = u32 base -> establish c s t = (c', s', st) ->
  started c' /\ peer c' = peer c /\ state c' ≠ SynSent.
Proof.
  intros [] Hq. unfold establish. destruct (acknowledge_or_defer _ _) as [s1 a].
  set (c1 := set_state _ _ _ _). assert (started c1) as [H1 H2 H3 H4].
  { constructor; [| |done|done].
    - unfold STREAM_RECEIVE_CAPACITY in *. constructor; cbn [c1 set_state set_window set_send set_receive_next receive_next peer_closed pending pending_offset pending_length].
      + by rewrite Z.add_0_r.
      + lia.
      + rewrite fr_closed0. lia.
      + done.
      + lia.
      + lia.
      + unfold STREAM_RECEIVE_CAPACITY. lia.
      + unfold pending_bytes. cbn [c1 set_state set_window set_send set_receive_next pending pending_offset pending_length]. by rewrite fr_length0.
    - constructor; cbn; try done.
      + intros b Hb' Hv. by rewrite fr_valid0 in Hv.
      + rewrite fr_count0, countb_false_all; done. }
  destruct (negb _); intros [= <- <- <-]; (split; [|done]); [|done]. constructor; try done. by destruct H1.
Qed.

Lemma establish_streams c s t c' s' st : fresh c -> u32 (t_sequence t + 1) = u32 base ->
  establish c s t = (c', s', st) -> streams [] c'.
Proof.
  intros Hf Hq E. destruct (establish_started _ _ _ _ _ _ Hf Hq E) as ([H1 H2 _ H4] & Hp & Hs). exists 0.
  split_and!; [done|done|unfold taken; rewrite H4; cbn; lia|done|done|rewrite Hp; apply Hf].
Qed.

Lemma process_streams out c s t c' s' st : streams out c -> segment_for_client c t = true ->
  (has_flag (t_flags t) TcpRst = false -> (t_payload_length t = 0 /\ has_flag (t_flags t) TcpFin = false) \/
     forall pos, core pos c -> in_stream base stream pos t) ->
  process_incoming c s t = Some (c', s', st) -> streams out c'.
Proof.
  intros Hst Hfor Hgood E. pose proof Hst as (pos & Hc & Hq & Ht & Ho & Hs & Hip). destruct (process_moves _ _ _ _ _ _ E Hs) as (Hs' & Hpeer & _). rewrite <- Hpeer in Hip.
  unfold process_incoming in E. rewrite Hfor in E. cbn [negb] in E. destruct (has_flag (t_flags t) TcpRst).
  { injection E as <- <- <-. by eapply streams_same, Hst. }
  fold (acked c t) in E. pose proof (core_acked base stream pos c t Hc) as Hc1. destruct (acked_out_of_order c t) as [El En].
  assert (taken stream pos (acked c t) = taken stream pos c) as Et by (unfold taken; by rewrite acked_pending).
  destruct (Hgood eq_refl) as [[E0 Ef]|Hin].
  - unfold process_data in E. rewrite E0, Ef in E. cbn in E. injection E as <- <- <-. exists pos. rewrite El, En. split_and!; try done. by rewrite Et.
  - destruct (process_data_ok base stream pos (acked c t) s t Hc1 ltac:(by rewrite El, En) (Hin pos Hc)) as (c2 & s2 & st2 & pos2 & E2 & [A1 A2 A3 A4 A5] & _).
    rewrite E2 in E. injection E as <- <- <-. exists pos2. split_and!; try done. by rewrite A5, Et.
Qed.


Lemma fresh_same c c' : pending_offset c' = pending_offset c -> pending_length c' = pending_length c -> pending c' = pending c ->
  out_of_order c' = out_of_order c -> out_of_order_count c' = out_of_order_count c -> peer_closed c' = peer_closed c ->
  connected c' = connected c -> peer c' = peer c -> (state c' = state c \/ state c' = Reset \/ state c' = Error) -> fresh c -> fresh c'.
Proof.
  intros E1 E2 E3 E4 E5 E6 E7 E8 Hs []. constructor; rewrite ?E1, ?E2, ?E3, ?E4, ?E5, ?E6, ?E7, ?E8; try done.
  destruct Hs as [->|?]; [done|by right].
Qed.

(** The client after a change of its state or of its send numbers. *)
Lemma conn_inv_same out c c' : pending_offset c' = pending_offset c -> pending_length c' = pending_length c -> pending c' = pending c ->
  out_of_order c' = out_of_order c -> out_of_order_count c' = out_of_order_count c -> peer_closed c' = peer_closed c ->
  connected c' = connected c -> peer c' = peer c -> receive_next c' = receive_next c -> has_stack c = true ->
  (state c' = state c \/ state c' = Reset \/ state c' = Error) -> conn_inv out c -> conn_inv out c'.
Proof.
  intros E1 E2 E3 E4 E5 E6 E7 E8 E9 Hst Hs [[H1 H2]|[H|[-> _]]]; [left; split; [|done]; by eapply fresh_same, H1| |done].
  right. left. eapply streams_same, H; try done. destruct H as (? & _ & _ & _ & _ & Hn & _). by destruct Hs as [->|[->| ->]].
Qed.

Lemma take_or_poll_for c s s' t : take_or_poll_one c s = (s', Ok, Some t) -> segment_for_client c t = true.
Proof.
  unfold take_or_poll_one. destruct (negb _); [done|]. destruct (take_tcp_segment s true) as [[s1 st1] o1].
  assert (forall s2 (r : Net W * Status * option TcpSegment), r = (s', Ok, Some t) ->
    (let '(s, _, poll_status) := poll s2 1 in
     if negb (acceptable_poll_status poll_status) then (s, poll_status, None)
     else if bool_decide (poll_status = InterfaceError) || bool_decide (poll_status = WouldBlock) then (s, WouldBlock, None)
     else match take_tcp_segment s true with
          | (s, Ok, Some segment) => if negb (segment_for_client c segment) then (s, NotForUs, None) else (s, Ok, Some segment)
          | (s, _, _) => (s, WouldBlock, None)
          end) = r -> segment_for_client c t = true) as Hpoll.
  { intros s2 r ->. destruct (poll s2 1) as [[s3 n3] st3]. do 2 (case_match; [done|]). destruct (take_tcp_segment s3 true) as [[s4 st4] o4].
    destruct st4, o4; try done. destruct (segment_for_client c t0) eqn:E; [|done]. by intros [= _ <-]. }
  destruct st1, o1; intros E; try by eapply Hpoll.
  destruct (segment_for_client c t0) eqn:E1; [|done]. by injection E as _ <-.
Qed.

Lemma resend_inv out c s : conn_inv out c -> has_stack c = true ->
  match resend_syn c s with
  | inl (c1, s1) => conn_inv out c1 /\ state c1 = state c /\ has_stack c1 = true
  | inr (c1, s1, st) => conn_inv out c1
  end.
Proof.
  intros H Hs. unfold resend_syn. destruct (_ && _); [|done]. destruct (send_segment _ _ _ _ _ _ _) as [s1 st1].
  destruct (retryable_transmit_status st1); [done|].
  destruct (negb _); [apply (conn_inv_same out c); auto|]. split_and!; [|done|done]. apply (conn_inv_same out c); auto.
Qed.

(** One step of the connection keeps the invariant. *)
Lemma progress_inv out c s c' s' st : conn_inv out c -> honest c s -> progress c s = Some (c', s', st) -> conn_inv out c'.
Proof.
  intros Hinv Hh. unfold progress. destruct (has_stack c) eqn:Est; cbn [negb]; [|by intros [= <- <- <-]].
  destruct (bool_decide (state c = Closed)); [by intros [= <- <- <-]|].
  destruct (bool_decide (state c = Reset)) eqn:Er; [by intros [= <- <- <-]|].
  destruct (bool_decide (state c = Error)) eqn:Ee; [by intros [= <- <- <-]|]. cbn [orb].
  apply bool_decide_eq_false in Er, Ee.
  pose proof (resend_inv out c s Hinv Est) as H1. unfold honest in Hh.
  destruct (resend_syn c s) as [[c1 s1]|[[c1 s1] q1]]; [|by intros [= <- <- <-]]. destruct H1 as (H1 & Es & Est1). rewrite <- Es in Er, Ee.
  specialize (Hh c1 s1). clear Hinv Es Est. rename H1 into Hinv. 
  destruct (take_or_poll_one c1 s1) as [[s2 q2] o] eqn:E2.
  assert (forall q : Status, (if bool_decide (q = WouldBlock) || bool_decide (q = NotForUs) then Some (c1, s2, WouldBlock)
    else Some (to_state c1 Error, s2, q)) = Some (c', s', st) -> conn_inv out c') as Hfail.
  { intros q. destruct (_ || _); intros [= <- <- <-]; [done|]. apply (conn_inv_same out c1); auto. }
  destruct q2; try (lazymatch goal with |- context [bool_decide (?q = NotForUs)] => exact (Hfail q) end). destruct o as [t|]; [|exact (Hfail Ok)]. clear Hfail.
  pose proof (take_or_poll_for _ _ _ _ E2) as Hfor. specialize (Hh s2 t eq_refl eq_refl). unfold good in Hh.
  destruct (decide (state c1 = SynSent)) as [Esyn|Esyn].
  - rewrite bool_decide_true by done. destruct Hinv as [[Hf ->]|[(? & _ & _ & _ & _ & Hn & _)|[-> _]]]; [|done..].
    destruct (has_flag (t_flags t) TcpRst); [intros [= <- <- <-]; left; split; [|done]; eapply fresh_same, Hf; auto|].
    destruct (is_syn_ack t (send_next c1)) eqn:Esa; cbn [negb]; [|intros [= <- <- <-]; by left].
    intros [= E]. right. left. eapply establish_streams, E; [done|]. by apply Hh.
  - rewrite bool_decide_false by done.
    destruct Hinv as [[Hf _]|[Hst|[-> _]]]; [by destruct (fr_state _ Hf) as [?|[?|?]]| |done].
    destruct (process_incoming c1 s2 t) as [[[c2 s3] st2]|] eqn:E3; [|done]. cbn [mbind option_bind].
    assert (streams out c2) as H2 by (eapply process_streams, E3; [done|done|]; intros Hr; by apply Hh).
    destruct (_ && _); [intros [= <- <- <-]; right; by left|]. destruct (bool_decide _); [|intros [= <- <- <-]; right; by left].
    destruct (_ && _); intros [= <- <- <-]; right; [right; split; [done|by destruct H2 as (?&?&?&?&?&?)]|left; by eapply streams_same, H2].
Qed.

(** The network after a call is still well formed, and has the same buffers. *)
Lemma keeps_send_segment c s q a f p n : net_ok s -> ip_ok (peer c) -> is_u8 f -> keeps s (fst (send_segment c s q a f p n)).
Proof. apply keeps_send_tcp. Qed.

Lemma keeps_acknowledge c s : net_ok s -> ip_ok (peer c) -> keeps s (fst (acknowledge_or_defer c s)).
Proof.
  intros Hs Hip. unfold acknowledge_or_defer, acknowledge. destruct (negb _); [by apply keeps_refl|].
  pose proof (keeps_send_segment c s (send_next c) (receive_next c) TcpAck 0 0 Hs Hip ltac:(done)) as H. by destruct (send_segment _ _ _ _ _ _ _).
Qed.

Lemma writes_acknowledge c s : net_ok s -> ip_ok (peer c) -> writes s (fst (acknowledge_or_defer c s)).
Proof.
  intros Hs Hip. unfold acknowledge_or_defer, acknowledge. destruct (negb _); [apply writes_refl|].
  pose proof (writes_send_tcp s (peer c) (local_port c) (remote_port c) (send_next c) (receive_next c) TcpAck (advertised_window c) 0 0 Hs Hip ltac:(done) ltac:(done)) as H.
  unfold send_segment. by destruct (send_tcp _ _ _ _ _ _ _ _ _ _).
Qed.

Lemma keeps_acks c s s' : net_ok s -> ip_ok (peer c) -> acks c s s' -> keeps s s'.
Proof. intros Hs Hip [->|(c1 & E & ->)]; [by apply keeps_refl|]. apply keeps_acknowledge; [done|by rewrite E]. Qed.

Lemma keeps_take_or_poll c s : net_ok s -> device_ok (interface (stack s)) -> keeps s (fst (fst (take_or_poll_one c s))).
Proof.
  intros Hs Hd. unfold take_or_poll_one. destruct (negb _); [by apply keeps_refl|].
  pose proof (keeps_take_tcp s true Hs) as H1. destruct (take_tcp_segment s true) as [[s1 st1] o1]. cbn [fst] in H1.
  pose proof (keeps_poll s1 1 (proj1 H1) ltac:(destruct H1 as (_ & -> & _); done)) as H2.
  destruct (poll s1 1) as [[s2 n2] st2]. cbn [fst] in H2.
  pose proof (keeps_take_tcp s2 true (proj1 H2)) as H3. destruct (take_tcp_segment s2 true) as [[s3 st3] o3]. cbn [fst] in H3.
  assert (keeps s s2) as H12 by (eapply keeps_trans; [exact H1|done]). assert (keeps s s3) as H13 by (eapply keeps_trans; [exact H12|done]).
  assert (forall q o s', keeps s s' -> keeps s (fst (fst (match q, o with
    | Ok, Some segment => if negb (segment_for_client c segment) then (s', NotForUs, None) else (s', Ok, Some segment)
    | _, _ => (s', WouldBlock, None) end)))) as Htake by (by intros [] [t|] s' H'; try done; destruct (negb _)).
  specialize (Htake st3 o3 s3 H13).
  destruct st1; try (destruct (negb _); [done|]; destruct (_ || _); [done|]; exact Htake).
  destruct o1; [by destruct (negb _)|]. destruct (negb _); [done|]; destruct (_ || _); [done|]; exact Htake.
Qed.

Lemma keeps_progress c s c' s' st : net_ok s -> device_ok (interface (stack s)) -> ip_ok (peer c) ->
  progress c s = Some (c', s', st) -> keeps s s'.
Proof.
  intros Hs Hd Hip. unfold progress. do 3 (case_match; [intros [= <- <- <-]; by apply keeps_refl|]).
  assert (match resend_syn c s with inl (c1, s1) => keeps s s1 /\ peer c1 = peer c | inr (_, s1, _) => keeps s s1 end) as H1'.
  { unfold resend_syn. destruct (_ && _); [|split; [by apply keeps_refl|done]].
    pose proof (keeps_send_segment c s (send_unacknowledged c) 0 TcpSyn 0 0 Hs Hip ltac:(done)) as Hk. destruct (send_segment _ _ _ _ _ _ _). cbn [fst] in Hk. destruct (retryable_transmit_status _); [done|]. by destruct (negb (bool_decide (_ = Ok))). }
  destruct (resend_syn c s) as [[c1 s1]|[[c1 s1] q1]]; [|by intros [= <- <- <-]]. destruct H1' as [H1' Ep]. rewrite <- Ep in Hip. clear Ep.
  pose proof (keeps_take_or_poll c1 s1 (proj1 H1') ltac:(destruct H1' as (_ & -> & _); done)) as H2'.
  destruct (take_or_poll_one c1 s1) as [[s2 q2] o]. cbn [fst] in H2'. assert (keeps s s2) as H12 by (eapply keeps_trans; [exact H1'|done]).
  assert (forall o : option TcpSegment, match o with Some t =>
    if bool_decide (state c1 = SynSent) then True else forall c2 s3 q, process_incoming c1 s2 t = Some (c2, s3, q) -> keeps s s3 | None => True end) as Hproc.
  { intros [t'|]; [|done]. destruct (bool_decide (state c1 = SynSent)) eqn:Esyn; [done|]. apply bool_decide_eq_false in Esyn. intros c2 s3 q Ep.
    destruct (process_moves _ _ _ _ _ _ Ep Esyn) as (_ & _ & Ha). eapply keeps_trans; [exact H12|]. intros. by eapply keeps_acks. }
  assert (forall t c2 s3 q, establish c1 s2 t = (c2, s3, q) -> keeps s s3) as Hest.
  { intros t' c2 s3 q. unfold establish.
    match goal with |- context [acknowledge_or_defer ?a ?b] => pose proof (keeps_acknowledge a b (proj1 H12) Hip) as Hk; destruct (acknowledge_or_defer a b) end.
    intros E. eapply keeps_trans; [exact H12|]. intros _. destruct (negb (bool_decide (_ = Ok))); by injection E as <- <- <-. }
  destruct q2, o as [t|]; try (case_match; by intros [= <- <- <-]). specialize (Hproc (Some t)). cbn in Hproc.
  destruct (bool_decide (state c1 = SynSent)).
  - do 2 (case_match; [by intros [= <- <- <-]|]). intros [= E]. by eapply Hest.
  - destruct (process_incoming c1 s2 t) as [[[c2 s3] q]|]; [|done]. specialize (Hproc _ _ _ eq_refl). cbn [mbind option_bind].
    repeat case_match; by intros [= <- <- <-].
Qed.

(** ** Taking bytes *)

(** The application's buffer, apart from the transmit buffer of the stack. *)
Record room s (output capacity : Z) : Prop := {
  ro_capacity : 0 <= capacity;
  ro_apart : output + capacity <= transmit_buffer (stack s) \/ transmit_buffer (stack s) + ETHERNET_MAX_FRAME_SIZE <= output }.

Lemma room_keeps s s' output capacity : room s output capacity -> keeps s s' -> room s' output capacity.
Proof. intros [] (_ & _ & _ & E & _). by constructor; rewrite ?E. Qed.

Lemma writes_load s s' output capacity n : room s output capacity -> writes s s' -> 0 <= n <= capacity ->
  load (mem s') output n = load (mem s) output n.
Proof. intros [] Hw Hn. apply load_eq. intros k Hk. apply Hw. lia. Qed.

Lemma tcpt_take_slice off len : 0 <= off -> 0 <= len -> take (Z.to_nat off) stream ++ slice stream off len = take (Z.to_nat (off + len)) stream.
Proof. intros. unfold slice. rewrite take_take_drop. f_equal. lia. Qed.

Lemma streams_eof out c : streams out c -> peer_closed c = true -> pending_length c = 0 -> out = stream.
Proof.
  intros (pos & [] & _ & Ht & Ho & _) Hc Hl. unfold taken in Ht. rewrite co_closed in Hc. apply Z.eqb_eq in Hc.
  rewrite Ho. apply take_ge. lia.
Qed.

Lemma inv_empty out c : conn_inv out c -> pending_length c ≠ 0 -> streams out c.
Proof. intros [[[] _]|[H|[-> _]]] Hn; [lia|done|done]. Qed.

Lemma inv_eof out c : conn_inv out c -> peer_closed c = true -> pending_length c = 0 -> out = stream.
Proof. intros [[[] _]|[H|[-> _]]] Hn; [congruence|by apply streams_eof|done]. Qed.

Lemma pending_at c k : 0 <= k <= pending_length c -> take (Z.to_nat k) (pending_bytes c) = take (Z.to_nat k) (drop (Z.to_nat (pending_offset c)) (pending c)).
Proof. intros Hk. unfold pending_bytes. rewrite take_take. f_equal. lia. Qed.

(** Draining: nothing, or the next bytes of the stream. *)
Lemma drain_inv out c s output capacity b c' s' st n : Forall is_u8 stream -> conn_inv out c -> net_ok s -> 0 <= capacity ->
  drain_pending c s output capacity b = (c', s', st, n) ->
  (st ≠ Ok /\ n = 0 /\ c' = c /\ s' = s /\ (output ≠ 0 -> capacity ≠ 0 -> b = true -> pending_length c = 0)) \/
  (st = Ok /\ 0 < n <= capacity /\ streams (out ++ load (mem s') output n) c' /\ keeps s s' /\ peer c' = peer c).
Proof.
  intros Hu8 Hinv Hs Hcap. unfold drain_pending. destruct (_ || _) eqn:E0.
  { intros [= <- <- <- <-]. left. split_and!; try done. intros H1 H2 ->. lia. }
  destruct (Z.eqb_spec (pending_length c) 0) as [E1|E1]; [intros [= <- <- <- <-]; by left|]. intros H. right.
  pose proof (inv_empty _ _ Hinv E1) as (pos & Hcore & Hq & Ht & Ho & Hst & Hip). pose proof Hcore as []. cbv zeta in H.
  set (amount := if _ <? _ then _ else _) in *. assert (0 < amount <= capacity /\ amount <= pending_length c) as [Ha Ha'] by (unfold amount; destruct (Z.ltb_spec (pending_length c) capacity); lia).
  clearbody amount. injection H as <- <- <- <-. set (t := Z.min pos size - pending_length c) in *. unfold taken in Ht. fold t in Ht.
  assert (take (Z.to_nat amount) (drop (Z.to_nat (pending_offset c)) (pending c)) = slice stream t amount) as Eb.
  { rewrite <- pending_at, co_bytes by lia. unfold slice. rewrite take_take. f_equal. lia. }
  rewrite Eb. assert (Z.of_nat (length (slice stream t amount)) = amount) as El by (apply tcps_slice_length; lia).
  assert (Forall is_u8 (slice stream t amount)) as Hb by (by apply Forall_take, Forall_drop).
  pose proof (load_store_same (mem s) output (slice stream t amount)) as Eload. rewrite El in Eload.
  cbn [mem set_mem]. rewrite Eload. split_and!; [done|lia|lia| |by apply keeps_mem, packet_store_bytes_ok; [|apply Hs|]|done].
  exists pos. split_and!.
  - constructor; cbn [set_pending receive_next peer_closed pending pending_offset pending_length]; try done; [destruct (Z.eqb_spec (pending_length c - amount) 0); lia|lia|destruct (Z.eqb_spec (pending_length c - amount) 0); lia|].
    unfold pending_bytes. cbn [set_pending pending pending_offset pending_length].
    replace (Z.min pos size - (pending_length c - amount)) with (t + amount) by lia.
    destruct (Z.eqb_spec (pending_length c - amount) 0) as [->|E]; [unfold slice; by rewrite !firstn_O|].
    rewrite <- slice_drop by lia. rewrite <- co_bytes. unfold pending_bytes. rewrite skipn_firstn_comm, drop_drop. f_equal; [lia|]. f_equal. lia.
  - done.
  - unfold taken. cbn [set_pending pending_length]. rewrite length_app. lia.
  - rewrite length_app. replace (length out + _)%nat with (Z.to_nat (t + amount)) by lia. rewrite <- tcpt_take_slice by lia. f_equal. rewrite Ho. f_equal. lia.
  - done.
  - done.
Qed.

Lemma inv_ip out c : conn_inv out c -> has_stack c = true -> ip_ok (peer c).
Proof. intros [[H _]|[(? & _ & _ & _ & _ & _ & H)|[-> _]]]; [intros _; apply H|done|done]. Qed.

(** What a drain gave stays in the application's buffer while the acknowledgement
    is sent. *)
Lemma drained_inv out c s output capacity n : room s output capacity -> net_ok s -> 0 < n <= capacity ->
  streams (out ++ load (mem s) output n) c ->
  conn_inv (out ++ load (mem (fst (acknowledge_or_defer c s))) output n) c.
Proof.
  intros Hr Hs Hn H. right. left. assert (ip_ok (peer c)) as Hip by (by destruct H as (? & ? & ? & ? & ? & ? & ?)).
  by rewrite (writes_load s _ output capacity) by (try done; try lia; by apply writes_acknowledge).
Qed.

Lemma receive_inv out c s output capacity b c' s' st n : Forall is_u8 stream -> conn_inv out c -> honest c s ->
  net_ok s -> device_ok (interface (stack s)) -> room s output capacity ->
  try_receive c s output capacity b = Some (c', s', st, n) ->
  conn_inv (out ++ load (mem s') output n) c' /\ (st = Ok -> n = 0 -> out = stream).
Proof.
  intros Hu8 Hinv Hh Hs Hd Hr. pose proof (ro_capacity _ _ _ Hr) as Hcap. unfold try_receive. destruct (_ || negb b) eqn:Eg.
  { intros [= <- <- <- <-]. by rewrite load_nil, app_nil_r. }
  apply orb_false_iff in Eg as [[[Est%negb_false_iff Eo]%orb_false_iff Ec]%orb_false_iff Eb%negb_false_iff]. subst b.
  destruct (drain_pending c s output capacity true) as [[[c1 s1] st1] n1] eqn:E1.
  destruct (drain_inv out _ _ _ _ _ _ _ _ _ Hu8 Hinv Hs Hcap E1) as [(Hne & -> & -> & -> & Hz)|(-> & Hn & Hst & Hk & _)]; cycle 1.
  { rewrite bool_decide_true by done. intros [= <- <- <- <-]. split; [|lia]. eapply drained_inv, Hst; [by eapply room_keeps|apply Hk|done]. }
  rewrite bool_decide_false by done. specialize (Hz ltac:(lia) ltac:(lia) eq_refl). destruct (peer_closed c) eqn:Epc.
  { intros [= <- <- <- <-]. rewrite load_nil, app_nil_r. split; [done|]. intros _ _. by eapply inv_eof. }
  destruct (negb (connected c)); [intros [= <- <- <- <-]; by rewrite load_nil, app_nil_r|].
  destruct (progress c s) as [[[c2 s2] st2]|] eqn:E2; [|done]. cbn [mbind option_bind].
  pose proof (keeps_progress _ _ _ _ _ Hs Hd (inv_ip _ _ Hinv Est) E2) as Hk2.
  pose proof (progress_inv _ _ _ _ _ _ Hinv Hh E2) as Hinv2.
  destruct (_ && _) eqn:E3; [intros [= <- <- <- <-]; rewrite load_nil, app_nil_r; split; [done|]; intros ->; done|].
  destruct (drain_pending c2 s2 output capacity true) as [[[c3 s3] st3] n3] eqn:E4.
  destruct (drain_inv out _ _ _ _ _ _ _ _ _ Hu8 Hinv2 (proj1 Hk2) Hcap E4) as [(Hne3 & -> & -> & -> & Hz3)|(-> & Hn & Hst & Hk & _)]; cycle 1.
  { rewrite bool_decide_true by done. intros [= <- <- <- <-]. split; [|lia].
    eapply drained_inv, Hst; [eapply room_keeps; [by eapply room_keeps|done]|apply Hk|done]. }
  rewrite bool_decide_false by done. intros [= <- <- <- <-]. rewrite load_nil, app_nil_r. split; [done|].
  destruct (peer_closed c2) eqn:Epc2; [|done]. intros _ _. eapply inv_eof; [done|done|]. apply Hz3; [lia|lia|done].
Qed.

Lemma send_inv out c s data len b c' s' st n : conn_inv out c -> try_send c s data len b = (c', s', st, n) -> conn_inv out c'.
Proof.
  intros Hinv. unfold try_send. destruct (_ || (negb (len =? 0) && _)) eqn:Eg; [by intros [= <- <- <- <-]|].
  apply orb_false_iff in Eg as [[_ Est%negb_false_iff]%orb_false_iff _].
  destruct (_ || peer_closed c); [by intros [= <- <- <- <-]|]. destruct (len =? 0); [by intros [= <- <- <- <-]|]. cbv zeta.
  destruct (peer_window c <=? _); [by intros [= <- <- <- <-]|]. destruct (_ =? 0); [by intros [= <- <- <- <-]|].
  destruct (send_segment _ _ _ _ _ _ _) as [s1 st1]. destruct (retryable_transmit_status st1); [by intros [= <- <- <- <-]|].
  destruct (negb (bool_decide (st1 = Ok))); intros [= <- <- <- <-].
  - destruct Hinv as [[Hf ->]|[H|[-> _]]]; [left; split; [|done]|right; left|done].
    + destruct Hf. constructor; try done. by right; right.
    + by eapply streams_same, H.
  - apply (conn_inv_same out c); auto.
Qed.

Lemma close_inv out c s c' s' st : conn_inv out c -> begin_close c s = (c', s', st) -> conn_inv out c'.
Proof.
  intros Hinv. assert (conn_inv out initialize) as Hinit.
  { right. right. split; [done|]. destruct Hinv as [[_ ->]|[(? & _ & _ & _ & H & _)|[_ H]]]; done. }
  unfold begin_close. destruct (_ || _) eqn:Eg; [by intros [= <- <- <-]|].
  apply orb_false_iff in Eg as [Ec%negb_false_iff Est%negb_false_iff].
  destruct (bool_decide (state c = Reset)); [by intros [= <- <- <-]|].
  destruct (bool_decide (state c = Error)); [by intros [= <- <- <-]|]. destruct (bool_decide (state c = FinWait1)); [by intros [= <- <- <-]|].
  destruct (_ && _); [by intros [= <- <- <-]|]. destruct (negb (_ =? _)); [by intros [= <- <- <-]|].
  destruct (send_segment _ _ _ _ _ _ _) as [s1 st1]. destruct (retryable_transmit_status st1); [by intros [= <- <- <-]|].
  destruct (negb (bool_decide (st1 = Ok))); intros [= <- <- <-]; [apply (conn_inv_same out c); auto|].
  destruct Hinv as [[Hf _]|[H|[-> _]]]; [by rewrite (fr_connected _ Hf) in Ec| |done]. right. left. by eapply streams_same, H.
Qed.

(** The segment that waits in the inbox is the next one. *)
Lemma honest_inbox c s : stack_ok (stack s) -> t_valid (last_tcp_segment (stack s)) = true ->
  send_next c ≠ send_unacknowledged c \/ state c ≠ SynSent -> good c (last_tcp_segment (stack s)) -> honest c s.
Proof.
  intros Hk Hv Hc Hgood c1 s1 s2 t E1 E2. unfold resend_syn in E1.
  assert (bool_decide (state c = SynSent) && (send_next c =? send_unacknowledged c) = false) as Hg.
  { destruct Hc as [Hc|Hc]; [rewrite (proj2 (Z.eqb_neq _ _) Hc); apply andb_false_r|by rewrite bool_decide_false]. }
  rewrite Hg in E1. injection E1 as <- <-. unfold take_or_poll_one in E2. destruct (negb (has_stack c)); [done|].
  unfold take_tcp_segment in E2. rewrite (so_initialized _ Hk) in E2. cbn [negb] in E2. rewrite Hv in E2. cbn [negb] in E2.
  destruct (segment_for_client c _); cbn [negb] in E2; [by injection E2 as _ <-|done].
Qed.

(** ** Runs *)

(** The calls of the application that do not wait, with the bytes it has received
    so far; between two calls the network may change in any way. *)
Inductive call : Client * list Z -> Client * list Z -> Prop :=
  | call_progress c out s c' s' st : honest c s -> progress c s = Some (c', s', st) -> call (c, out) (c', out)
  | call_receive c out s output capacity b c' s' st n : honest c s -> net_ok s -> device_ok (interface (stack s)) ->
      room s output capacity -> try_receive c s output capacity b = Some (c', s', st, n) ->
      call (c, out) (c', out ++ load (mem s') output n)
  | call_send c out s data len b c' s' st n : try_send c s data len b = (c', s', st, n) -> call (c, out) (c', out)
  | call_close c out s c' s' st : begin_close c s = (c', s', st) -> call (c, out) (c', out).

Lemma tcpt_call_inv x y : Forall is_u8 stream -> call x y -> conn_inv x.2 x.1 -> conn_inv y.2 y.1.
Proof.
  intros Hu8 [] Hinv; cbn [fst snd] in *.
  - by eapply progress_inv.
  - refine (proj1 (receive_inv _ _ _ _ _ _ _ _ _ _ Hu8 Hinv _ _ _ _ _)); [..|eassumption]; done.
  - by eapply send_inv.
  - by eapply close_inv.
Qed.

Lemma begin_connect_inv c s b ip lp rp q c' s' st : ip_ok ip -> begin_connect c s b ip lp rp q = (c', s', st) -> st ≠ InvalidArgument ->
  conn_inv [] c'.
Proof.
  intros Hip. unfold begin_connect. destruct (bad_endpoint _ _ _ _ _); [by intros [= <- <- <-] []|]. pose proof (fresh_start ip lp rp q Hip) as Hf.
  destruct (send_segment _ _ _ _ _ _ _) as [s1 st1].
  destruct (bool_decide (st1 = Ok)); [|destruct (retryable_transmit_status st1)]; intros [= <- <- <-] _; left; (split; [|done]).
  - eapply fresh_same, Hf; auto.
  - done.
  - eapply fresh_same, Hf; auto.
Qed.

Lemma calls_inv c s b ip lp rp q c0 s0 st x : Forall is_u8 stream -> ip_ok ip ->
  begin_connect c s b ip lp rp q = (c0, s0, st) -> st ≠ InvalidArgument -> rtc call (c0, []) x -> conn_inv x.2 x.1.
Proof.
  intros Hu8 Hip E Hst Hrun. apply (begin_connect_inv _ _ _ _ _ _ _ _ _ _ Hip E) in Hst.
  change (conn_inv (c0, @nil Z).2 (c0, @nil Z).1) in Hst. revert Hst. induction Hrun as [|x y z Hxy _ IH]; [done|].
  intros H. by eapply IH, tcpt_call_inv.
Qed.

(** C5: After [begin_connect], whatever the network does between the calls, the
    bytes that [try_receive] has delivered are a prefix of the stream the peer
    sends, even when its segments arrive late, out of order, repeated or
    overlapping; and when [try_receive] reports the end of the stream (success
    with no byte), all of the stream has been delivered. *)
Theorem tcp_stream_prefix c s b ip lp rp q c0 s0 st c1 out : Forall is_u8 stream -> ip_ok ip ->
  begin_connect c s b ip lp rp q = (c0, s0, st) -> st ≠ InvalidArgument -> rtc call (c0, []) (c1, out) ->
  out = take (length out) stream /\
  forall s1 output capacity has_out c2 s2, honest c1 s1 -> net_ok s1 -> device_ok (interface (stack s1)) -> room s1 output capacity ->
    try_receive c1 s1 output capacity has_out = Some (c2, s2, Ok, 0) -> out = stream.
Proof.
  intros Hu8 Hip E Hst Hrun. pose proof (calls_inv _ _ _ _ _ _ _ _ _ _ _ Hu8 Hip E Hst Hrun) as Hinv. cbn [fst snd] in Hinv.
  split.
  - destruct Hinv as [[_ ->]|[(? & _ & _ & _ & H & _)|[_ H]]]; done.
  - intros s1 output capacity has_out c2 s2 Hh Hs Hd Hr Er. by apply (receive_inv _ _ _ _ _ _ _ _ _ _ Hu8 Hinv Hh Hs Hd Hr Er).
Qed.

(** ** All of the stream *)

Fixpoint deliver (l : list TcpSegment) c s : option (Client * Net W) :=
  match l with
  | [] => Some (c, s)
  | t :: l => '(c, s, _) ← process_incoming c s t; deliver l c s
  end.

(** A segment for the client with the bytes from [off] on. *)
Record piece (c : Client) (off : Z) (t : TcpSegment) : Prop := {
  pi_client : segment_for_client c t = true;
  pi_reset : has_flag (t_flags t) TcpRst = false;
  pi_carries : carries base stream off (t_sequence t) (t_flags t) (t_payload t) (t_payload_length t);
  pi_data : 0 < reach (buffered t) }.

(** What holds after the segments [l] have gathered in some order. *)
Record gathered (l : list TcpSegment) (pos : Z) (c : Client) : Prop := {
  ar_core : core pos c;
  ar_queue : queue 0 pos (out_of_order c) (out_of_order_count c);
  ar_settled : settled base pos (out_of_order c);
  ar_taken : taken stream pos c = 0;
  ar_count : countb b_valid (out_of_order c) <= Z.of_nat (length l);
  ar_all : forall t off, t ∈ l -> carries base stream off (t_sequence t) (t_flags t) (t_payload t) (t_payload_length t) ->
    covered (out_of_order c) (buffered t) \/ received base stream pos (buffered t) }.

Lemma same_client c c' t : peer c' = peer c -> local_port c' = local_port c -> remote_port c' = remote_port c ->
  segment_for_client c' t = segment_for_client c t.
Proof. intros E1 E2 E3. unfold segment_for_client. by rewrite E1, E2, E3. Qed.

Lemma arrive_one l pos c s off t : size <= STREAM_RECEIVE_CAPACITY -> (length l < OUT_OF_ORDER_QUEUE_DEPTH)%nat ->
  gathered l pos c -> piece c off t ->
  exists c' s' st pos', process_incoming c s t = Some (c', s', st) /\ gathered (t :: l) pos' c' /\
    forall t', segment_for_client c' t' = segment_for_client c t'.
Proof.
  intros Hsize Hl [H1 H2 H3 H4 H5 H6] [P1 P2 P3 P4]. unfold STREAM_RECEIVE_CAPACITY in Hsize.
  unfold process_incoming. rewrite P1, P2. cbn [negb]. fold (acked c t).
  destruct (acked_out_of_order c t) as [El En]. destruct (acked_conn c t) as (_ & Ep & Elp & Erp & _).
  assert (taken stream pos (acked c t) = taken stream pos c) as Et by (unfold taken; by rewrite acked_pending).
  pose proof (end_of_bounds _ _ _ _ _ _ _ P3) as Hb. pose proof (cr_off _ _ _ _ _ _ _ P3). pose proof (co_pos _ _ _ _ H1) as Hpos.
  destruct (process_data_ok base stream pos (acked c t) s t (core_acked _ _ _ _ _ H1) ltac:(by rewrite El, En))
    as (c2 & s2 & st2 & pos2 & E2 & [A1 A2 A3 A4 A5] & Hlive); [exists off; split_and!; [done|lia|lia]|].
  exists c2, s2, st2, pos2. split; [done|]. rewrite El, Et, H4 in Hlive. unfold STREAM_RECEIVE_CAPACITY, OUT_OF_ORDER_QUEUE_DEPTH in *.
  destruct (Hlive P4 H3 ltac:(lia) ltac:(lia)) as (L1 & L2 & L3 & L4). destruct A4 as (_ & B1 & B2 & B3 & _). split.
  - constructor; [done|done|done|congruence|cbn [length]; lia|]. intros t' off' [->|Ht']%elem_of_cons Hc; [done|].
    destruct (H6 t' off' Ht' Hc) as [Hcov|Hrec]; [apply (L2 ltac:(lia)); [done|by exists off']|right; by apply (received_mono _ _ pos)].
  - intros t'. apply same_client; congruence.
Qed.

Lemma arrive_all c0 l : size <= STREAM_RECEIVE_CAPACITY -> forall k pos c s, (length l + length k <= OUT_OF_ORDER_QUEUE_DEPTH)%nat ->
  gathered k pos c -> (forall t', segment_for_client c t' = segment_for_client c0 t') -> (forall t, t ∈ l -> exists off, piece c0 off t) ->
  exists c' s' pos', deliver l c s = Some (c', s') /\ gathered (rev l ++ k) pos' c'.
Proof.
  intros Hsize. induction l as [|t l IH]; intros k pos c s Hl Hk Hfor Hall; [by exists c, s, pos|]. cbn [length] in Hl.
  destruct (Hall t ltac:(left)) as (off & [P1 P2 P3 P4]).
  destruct (arrive_one k pos c s off t Hsize ltac:(lia) Hk) as (c1 & s1 & st1 & pos1 & E1 & Hk1 & Hsame); [constructor; try done; by rewrite Hfor|].
  destruct (IH (t :: k) pos1 c1 s1) as (c2 & s2 & pos2 & E2 & H2); [cbn [length]; lia|done|intros t'; by rewrite Hsame| |].
  { intros t' Ht'. apply Hall. by right. }
  exists c2, s2, pos2. cbn [deliver rev]. rewrite E1. cbn [mbind option_bind]. split; [done|]. by rewrite <- app_assoc.
Qed.

(** When the segments reach past every position, nothing is missing. *)
Lemma gathered_complete l pos c : size <= STREAM_RECEIVE_CAPACITY -> gathered l pos c ->
  (forall i, 0 <= i <= size -> exists t off, t ∈ l /\ carries base stream off (t_sequence t) (t_flags t) (t_payload t) (t_payload_length t) /\
    off <= i < end_of off (t_flags t) (t_payload_length t)) ->
  pos = size + 1.
Proof.
  intros Hsize [H1 [_ _ Hw _] H3 _ _ H6] Hcover. unfold STREAM_RECEIVE_CAPACITY in Hsize. pose proof (co_pos _ _ _ _ H1) as Hpos.
  destruct (decide (pos = size + 1)) as [|Hne]; [done|exfalso]. destruct (Hcover pos ltac:(lia)) as (t & off & Ht & Hc & Hi).
  pose proof (end_of_bounds _ _ _ _ _ _ _ Hc) as B. pose proof (cr_off _ _ _ _ _ _ _ Hc) as B0.
  assert (forall off' flags payload len, carries base stream off' (t_sequence t) flags payload len -> off' = off) as Hoff.
  { intros off' flags payload len Hc'. pose proof (end_of_bounds _ _ _ _ _ _ _ Hc'). pose proof (cr_off _ _ _ _ _ _ _ Hc').
    apply (u32_inj base); [lia|]. rewrite <- (cr_sequence _ _ _ _ _ _ _ Hc), <- (cr_sequence _ _ _ _ _ _ _ Hc'). done. }
  destruct (H6 t off Ht Hc) as [(b & Hb & Hv & Hs & Hr)|(off' & Hc' & He)].
  - destruct (Hw b Hb Hv) as (off' & Hc' & W1 & W2). cbn [buffered b_sequence] in Hs. pose proof (end_of_bounds _ _ _ _ _ _ _ Hc') as B'.
    pose proof Hc' as Hc2. rewrite Hs in Hc2. apply Hoff in Hc2 as ->. specialize (H3 b Hb). unfold eligible, buffered_end_sequence in H3.
    rewrite (end_sequence_eq _ _ _ _ _ _ _ Hc'), Hv, (cr_sequence _ _ _ _ _ _ _ Hc'), !seq_after_iff in H3 by lia. lia.
  - cbn [buffered b_sequence b_flags b_payload b_payload_length] in *. apply Hoff in Hc' as ->. lia.
Qed.

(** C13: Reassembly loses nothing: after the answer to the SYN, as many segments as
    the queue holds, in any order and with any overlap, that together carry a
    stream of up to 8192 bytes and its end leave all of the stream ready for the
    application, and the end seen, whatever becomes of the acknowledgements. *)
Theorem reassembly_complete c0 s0 t0 c s st l : fresh c0 -> u32 (t_sequence t0 + 1) = u32 base -> establish c0 s0 t0 = (c, s, st) ->
  size <= STREAM_RECEIVE_CAPACITY -> (length l <= OUT_OF_ORDER_QUEUE_DEPTH)%nat -> (forall t, t ∈ l -> exists off, piece c off t) ->
  (forall i, 0 <= i <= size -> exists t off, t ∈ l /\ piece c off t /\ off <= i < end_of off (t_flags t) (t_payload_length t)) ->
  exists c' s', deliver l c s = Some (c', s') /\ pending_bytes c' = stream /\ peer_closed c' = true.
Proof.
  intros Hf Hq E Hsize Hl Hall Hcover. destruct (establish_started _ _ _ _ _ _ Hf Hq E) as ([S1 S2 S3 S4] & _).
  assert (gathered [] 0 c) as Hstart.
  { constructor; [done|done| |unfold taken; lia| |by intros ? ? ?%elem_of_nil].
    - intros b Hb. unfold eligible. by rewrite (S3 b Hb).
    - by rewrite countb_false_all. }
  destruct (arrive_all c l Hsize [] 0 c s) as (c' & s' & pos & Ed & Ha); [cbn [length]; lia|done|done|done|]. rewrite app_nil_r in Ha.
  exists c', s'. split; [done|]. assert (pos = size + 1) as ->.
  { apply (gathered_complete _ _ _ Hsize Ha). intros i Hi. destruct (Hcover i Hi) as (t & off & Ht & Hp & Hr). exists t, off.
    split_and!; [apply list_elem_of_In; rewrite <- in_rev; by apply list_elem_of_In|apply Hp|lia|lia]. }
  destruct Ha as [[] _ _ Ht _ _]. unfold taken in Ht. rewrite Z.min_r in * by lia. split; [|rewrite co_closed; lia].
  rewrite co_bytes. replace (pending_length c') with size by lia. rewrite Z.sub_diag. unfold slice. rewrite drop_0. apply take_ge. lia.
Qed.
End net.
