(* ===== verification/TcpCalls.v ===== *)
(** * The calls of the TCP client

    The calls that wait end, and what they leave; what [send] and [try_send] do to
    the sequence numbers; the bytes on their way from one client to another; and
    the concrete runs at which the theorems are applied. *)

From S2P Require Import Prelude Packet Network Protocols NetworkStack NetworkTheorems TcpClient TcpStream TcpTheorems.

(** ** Calls that wait *)

Section wait.
Context {W : Type} `{!Clock W} (fuel : positive).
Implicit Types (s : Net W) (c : Client).

Lemma open_step_eq {R : Type} (started t : Z) (body : Client -> Net W -> Client * Net W * option R) attempt c s :
  open_step started t body (attempt, (c, s)) =
    let '(s, is_open) := window_open s started t attempt in
    if negb is_open then inr (c, s, None)
    else match body c s with (c, s, None) => inl (u64 (attempt + 1), (c, s)) | (c, s, Some r) => inr (c, s, Some r) end.
Proof. done. Qed.

(** An invariant of the rounds of a wait, and what holds when one ends it. *)
Lemma while_open_inv {R : Type} (I : Client -> Prop) (Q : R -> Client -> Prop) (t : Z) (body : Client -> Net W -> Client * Net W * option R) c s c' s' r :
  (forall c s, I c -> match body c s with (c', _, None) => I c' | (c', _, Some r) => Q r c' end) ->
  I c -> while_open fuel t body c s = Some (c', s', r) -> match r with None => I c' | Some r => Q r c' end.
Proof.
  intros Hbody Hc. unfold while_open. destruct (start_clock s) as [s0 started]. rewrite iterate_repeat. generalize 0 as attempt.
  revert c s0 Hc. induction (Pos.to_nat fuel) as [|n IH]; intros c s0 Hc attempt; cbn [repeat_body]; [done|].
  rewrite open_step_eq. destruct (window_open s0 started t attempt) as [s1 []]; cbn [negb]; [|by intros [= <- <- <-]].
  specialize (Hbody c s1 Hc). destruct (body c s1) as [[c1 s2] [r1|]]; [by intros [= <- <- <-]|]. by apply IH.
Qed.

Lemma while_open_partial_inv {R : Type} (I : Client -> Prop) (Q : R -> Client -> Prop) (t : Z) (body : Client -> Net W -> option (Client * Net W * option R)) c s c' s' r :
  (forall c s c' s' r, I c -> body c s = Some (c', s', r) -> match r with None => I c' | Some r => Q r c' end) ->
  I c -> while_open_partial fuel t body c s = Some (c', s', r) -> match r with None => I c' | Some r => Q r c' end.
Proof.
  intros Hbody Hc. unfold while_open_partial. destruct (while_open _ _ _ _ _) as [[[c1 s1] r1]|] eqn:E; [|done]. cbn [mbind option_bind].
  apply (while_open_inv I (fun r c => match r with None => True | Some r => Q r c end)) in E; [|clear -Hbody|done].
  - destruct r1 as [[r1|]|]; intros [= <- <- <-]; done.
  - intros c s Hc. unfold lift_round. destruct (body c s) as [[[c1 s1] [r|]]|] eqn:E; [| |done]; exact (Hbody _ _ _ _ _ Hc E).
Qed.

(** Without a timer the wait is a number of polls. *)
Lemma while_open_total {R : Type} (t : Z) (body : Client -> Net W -> Client * Net W * option R) c s :
  (forall w, pit_initialized w = false) -> (800001 <= fuel)%positive -> exists r, while_open fuel t body c s = Some r.
Proof.
  intros Hpit Hfuel. unfold while_open. destruct (start_clock s) as [s0 started]. rewrite iterate_repeat.
  assert (forall n attempt c s, 0 <= attempt -> kFallbackPollBudget < attempt + Z.of_nat n -> attempt <= kFallbackPollBudget ->
    exists r, repeat_body n (open_step started t body) (attempt, (c, s)) = inr r) as H.
  { clear c s s0. induction n as [|n IH]; intros attempt c s H0 H1 H2; [lia|]. cbn [repeat_body]. rewrite open_step_eq. unfold window_open, timeout_ticks.
    rewrite Hpit. cbn [negb Z.eqb andb]. destruct (Z.ltb_spec attempt kFallbackPollBudget) as [H3|H3]; cbn [negb]; [|by eexists].
    destruct (body c s) as [[c1 s1] [r|]]; [by eexists|]. unfold kFallbackPollBudget in *. unfold u64. rewrite Z.mod_small by lia. apply IH; lia. }
  destruct (H (Pos.to_nat fuel) 0 c s0) as [r E]; [lia|unfold kFallbackPollBudget; lia|unfold kFallbackPollBudget; lia|].
  exists r. by rewrite E.
Qed.

Lemma queue_segment_total c s q a f p n t : (forall w, pit_initialized w = false) -> (800001 <= fuel)%positive ->
  is_Some (queue_segment_with_backpressure fuel c s q a f p n t).
Proof.
  intros Hpit Hfuel. unfold queue_segment_with_backpressure. case_match; [by eexists|].
  destruct (while_open_total t (queue_round q a f p n) c s Hpit Hfuel) as [[[c1 s1] r] E]. rewrite E. by eexists.
Qed.

(** ** Sending *)

(** The bytes that the peer has not acknowledged, as [try_send] computes them. *)
Definition in_flight (c : Client) : Z := u32 (send_next c - send_unacknowledged c).

Lemma record_ack_flight c t : in_flight c < 2 ^ 31 -> in_flight (record_ack c t) <= in_flight c.
Proof.
  intros H. unfold record_ack. destruct (negb _); [done|]. destruct (sequence_after _ _) eqn:E1; [done|]. destruct (sequence_after _ (send_unacknowledged c)) eqn:E2; [|done].
  unfold sequence_after, sequence_before, in_flight, u32 in *. cbn [set_send send_next send_unacknowledged]. zdm.
Qed.

Lemma process_sent c s t c' s' st : process_incoming c s t = Some (c', s', st) ->
  send_next c' = send_next c /\ (in_flight c < 2 ^ 31 -> in_flight c' <= in_flight c) /\ (0 <= peer_window c -> 0 <= peer_window c').
Proof.
  unfold process_incoming. assert (0 <= u16 (t_window t)) as Hw by (unfold u16; apply Z.mod_pos_bound; lia).
  case_match; [by intros [= <- <- <-]|]. case_match; [by intros [= <- <- <-]|].
  intros [[(_ & _ & _ & _ & E1 & E2 & E3 & _) _] _]%process_data_moves. unfold in_flight. rewrite E1, E2.
  rewrite E3. split_and!; [unfold record_ack; by repeat case_match| |].
  - intros Hf. by apply (record_ack_flight (set_window c (t_window t)) t).
  - intros _. unfold record_ack. by repeat case_match.
Qed.

Lemma take_or_poll_some c s s' o : take_or_poll_one c s = (s', Ok, o) -> is_Some o.
Proof.
  unfold take_or_poll_one. destruct (negb _); [done|].
  assert (forall s2, (let '(s, _, poll_status) := poll s2 1 in
     if negb (acceptable_poll_status poll_status) then (s, poll_status, None)
     else if bool_decide (poll_status = InterfaceError) || bool_decide (poll_status = WouldBlock) then (s, WouldBlock, None)
     else match take_tcp_segment s true with
          | (s, Ok, Some segment) => if negb (segment_for_client c segment) then (s, NotForUs, None) else (s, Ok, Some segment)
          | (s, _, _) => (s, WouldBlock, None)
          end) = (s', Ok, o) -> is_Some o) as Hpoll.
  { intros s2. destruct (poll s2 1) as [[s3 n3] st3]. destruct (acceptable_poll_status st3) eqn:Ea; cbn [negb]; [|by intros [= _ -> _]].
    destruct (_ || _); [done|]. destruct (take_tcp_segment s3 true) as [[s4 st4] [t4|]]; destruct st4; try done. destruct (negb _); [done|]. by intros [= _ <-]. }
  destruct (take_tcp_segment s true) as [[s1 st1] [t1|]]; destruct st1; try exact (Hpoll s1). destruct (negb _); [done|]. by intros [= _ <-].
Qed.

(** [next] is the next sequence number, and at most [bound] bytes wait for their
    acknowledgement. *)
Record sending (next bound : Z) (c : Client) : Prop := {
  se_next : send_next c = next;
  se_flight : in_flight c <= bound;
  se_window : 0 <= peer_window c }.

(** A wait for an acknowledgement: all is acknowledged, or the connection is over. *)
Lemma acknowledged_round_ok expected B c s c' s' r : B < 2 ^ 31 -> is_u32 expected ->
  sending expected B c -> acknowledged_round expected c s = Some (c', s', r) ->
  match r with
  | None => sending expected B c'
  | Some q => (q = Ok /\ sending expected 0 c') \/ (q ≠ Ok /\ connected c' = false)
  end.
Proof.
  intros HB He Hsend. pose proof Hsend as [H1 H2 H3]. unfold acknowledged_round. destruct (take_or_poll_one c s) as [[s1 q] o] eqn:E.
  assert (forall q : Status, q ≠ Ok -> (if bool_decide (q = WouldBlock) || bool_decide (q = NotForUs) then Some (c, wait_progress s1, None)
    else Some (disconnect c Error, s1, Some q)) = Some (c', s', r) ->
    match r with None => sending expected B c' | Some q => (q = Ok /\ sending expected 0 c') \/ (q ≠ Ok /\ connected c' = false) end) as Hfail.
  { intros q' Hq. destruct (_ || _); intros [= <- <- <-]; [done|]. by right. }
  destruct q; try (lazymatch goal with |- context [bool_decide (?q = NotForUs)] => exact (Hfail q ltac:(done)) end).
  destruct (take_or_poll_some _ _ _ _ E) as [t ->]. clear Hfail.
  destruct (process_incoming c s1 t) as [[[c2 s2] st2]|] eqn:E2; [|done]. cbn [mbind option_bind].
  destruct (process_sent _ _ _ _ _ _ E2) as (P1 & P2 & P3). specialize (P2 ltac:(lia)).
  destruct (_ && _) eqn:E3; [intros [= <- <- <-]; right; split; [|done]; by intros ->|].
  destruct (sequence_before _ _) eqn:E4; cbn [negb]; intros [= <- <- <-]; [constructor; [congruence|lia|auto]|].
  left. split; [done|]. constructor; [congruence| |auto]. unfold sequence_before, in_flight, u32 in *. rewrite P1, H1 in *. zdm.
Qed.

(** The transmissions of one chunk. *)
Lemma transmit_chunk_ok n sequence data chunk slice c s B (committed : bool) c' s' r : 0 < chunk <= MAX_SEGMENT_PAYLOAD -> 0 <= B <= 65535 ->
  is_u32 sequence ->
  (if committed then sending (u32 (sequence + chunk)) (B + chunk) c else sending sequence B c) ->
  transmit_chunk fuel n c s sequence data chunk slice committed = Some (c', s', r) ->
  match r with
  | inl (committed', acknowledged) =>
      if committed' then sending (u32 (sequence + chunk)) (if acknowledged : bool then 0 else B + chunk) c'
      else sending sequence B c' /\ acknowledged = false
  | inr st => st ≠ Ok /\ connected c' = false
  end.
Proof.
  unfold MAX_SEGMENT_PAYLOAD. intros Hchunk HB Hseq. revert c s committed. induction n as [|n IH]; intros c s committed Hc; cbn [transmit_chunk].
  { intros [= <- <- <-]. by destruct committed. }
  destruct (queue_segment_with_backpressure _ _ _ _ _ _ _ _ _) as [[s1 st1]|]; [|done]. cbn [mbind option_bind].
  destruct (bool_decide (st1 = WouldBlock)); [by apply IH|].
  destruct (bool_decide (st1 = Ok)) eqn:E1; cbn [negb]; [|intros [= <- <- <-]; split; [by apply bool_decide_eq_false in E1|done]].
  assert (u32 (sequence + u32 chunk) = u32 (sequence + chunk)) as -> by (f_equal; f_equal; unfold u32; apply Z.mod_small; lia).
  set (c1 := if negb committed then _ else c).
  assert (sending (u32 (sequence + chunk)) (B + chunk) c1) as H1.
  { unfold c1. destruct committed; cbn [negb]; [done|]. destruct Hc as [Hc1 Hc2 Hc3]. constructor; [done| |done].
    unfold in_flight, u32 in *. cbn [set_send send_next send_unacknowledged]. rewrite Hc1 in Hc2. zdm. }
  destruct (while_open_partial _ _ _ _ _) as [[[c2 s2] r2]|] eqn:E2; [|done]. cbn [mbind option_bind].
  apply (while_open_partial_inv (sending (u32 (sequence + chunk)) (B + chunk))
    (fun q c => (q = Ok /\ sending (u32 (sequence + chunk)) 0 c) \/ (q ≠ Ok /\ connected c = false))) in E2; [|clear -HB Hchunk|done].
  - destruct r2 as [q|]; [|by apply IH].
    destruct E2 as [(-> & Hq)|[Hq1 Hq2]]; [by intros [= <- <- <-]|]. destruct q; by intros [= <- <- <-].
  - intros c s c' s' r Hc E. eapply acknowledged_round_ok; [| |exact Hc|exact E]; [lia|]. unfold u32. apply Z.mod_pos_bound. lia.
Qed.

(** What [send] leaves: all acknowledged; or [k] bytes acknowledged and the rest not
    taken; or the end of the connection. *)
Definition sent_until (next window from length : Z) (c' : Client) (st : Status) : Prop :=
  (st = Ok /\ send_next c' = u32 (next + length) /\ in_flight c' = 0) \/
  (st = WouldBlock /\ exists k, from <= k < length /\ send_next c' = u32 (next + k) /\
     (k = from \/ from + MAX_SEGMENT_PAYLOAD <= k \/ from + window <= k)) \/
  (st ≠ Ok /\ connected c' = false).

Lemma u32_sum (x y z : Z) : u32 (u32 (x + y) + z) = u32 (x + (y + z)).
Proof. unfold u32. rewrite Zplus_mod_idemp_l. f_equal. lia. Qed.

Lemma send_loop_ok n next data length timeout : forall c s offset c' s' st, 0 <= offset < length ->
  sending (u32 (next + offset)) 65535 c -> send_loop fuel n c s data length offset timeout = Some (c', s', st) ->
  sent_until next (peer_window c) offset length c' st.
Proof.
  induction n as [|n IH]; intros c s offset c' s' st Ho [H1 H2 H3]; cbn [send_loop]; (replace (offset <? length) with true by lia); cbn [negb]; [done|].
  assert (forall c : Client, send_next c = u32 (next + offset) -> sent_until next (peer_window c) offset length c WouldBlock) as Hblock.
  { intros c0 E. right. left. split; [done|]. exists offset. split_and!; [lia|lia|done|by left]. }
  destruct (Z.eqb_spec (peer_window c) 0) as [E0|E0]; [intros [= <- <- <-]; by apply Hblock|].
  unfold MAX_SEGMENT_PAYLOAD. set (chunk0 := if length - offset <? 1400 then length - offset else 1400).
  set (chunk := if peer_window c <? chunk0 then peer_window c else chunk0).
  assert (0 < chunk <= 1400 /\ chunk <= length - offset /\ (chunk = length - offset \/ chunk = 1400 \/ chunk = peer_window c)) as (C1 & C2 & C3).
  { unfold chunk, chunk0. destruct (Z.ltb_spec (length - offset) 1400); case_match; lia. }
  clearbody chunk. clear chunk0. replace (chunk =? 0) with false by lia. cbv zeta.
  destruct (transmit_chunk _ _ _ _ _ _ _ _ _) as [[[c1 s1] r]|] eqn:E; [|done]. cbn [mbind option_bind].
  rewrite H1 in E. apply (transmit_chunk_ok _ _ _ _ _ _ _ 65535) in E; [|done|lia|unfold u32; apply Z.mod_pos_bound; lia|by constructor].
  destruct r as [[committed acknowledged]|q]; [|intros [= <- <- <-]; by right; right].
  destruct committed; cbn [negb]; [|intros [= <- <- <-]; destruct E as [[P1 P2 P3] _]].
  - destruct acknowledged; cbn [negb].
    + destruct E as [P1 P2 P3]. rewrite u32_sum in P1. destruct (decide (offset + chunk < length)) as [Hlt|Hge].
      * intros E. apply IH in E; [|lia|constructor; [done|lia|done]].
        destruct E as [?|[(-> & k & K1 & K2 & K3)|?]]; [by left| |by right; right]. right. left. split; [done|]. exists k.
        split_and!; [lia|lia|done|]. unfold MAX_SEGMENT_PAYLOAD. right. lia.
      * destruct n; cbn [send_loop]; (replace (offset + chunk <? length) with false by lia); cbn [negb]; intros [= <- <- <-];
          left; (split; [done|]); (split; [rewrite P1; do 2 f_equal; lia|]); unfold in_flight in *; pose proof (Z.mod_pos_bound (send_next c1 - send_unacknowledged c1) (2 ^ 32) ltac:(lia)); unfold u32 in *; lia.
    + rewrite H1. case_match; [|intros [= <- <- <-]; by right; right]. intros [= <- <- <-].
      right. left. split; [done|]. exists offset. split_and!; [lia|lia|done|by left].
  - right. left. split; [done|]. exists offset. split_and!; [lia|lia|done|by left].
Qed.

(** ** Every call ends *)

Lemma append_queue c data : out_of_order (fst (append_pending c data)) = out_of_order c.
Proof. unfold append_pending, compact_pending. by repeat case_match. Qed.

Lemma ingest_queue c q f p n : out_of_order (fst (ingest_contiguous c q f p n)) = out_of_order c.
Proof.
  unfold ingest_contiguous. destruct (_ <? n); [done|].
  match goal with |- out_of_order (fst (match ?d with inl _ => _ | inr _ => _ end)) = _ =>
    assert (match d with inl c1 | inr (c1, _) => out_of_order c1 = out_of_order c end) as H; [|destruct d as [c1|[c1 q1]]] end.
  - destruct (n =? 0); [done|]. destruct (sequence_after _ _); [done|]. destruct (n <? _); [done|]. destruct (_ =? 0); [done|].
    match goal with |- context [append_pending c ?d] => pose proof (append_queue c d) as H; destruct (append_pending c d) as [c2 q2] end.
    by destruct (negb _).
  - by destruct (_ && _).
  - exact H.
Qed.

Lemma flush_scan_valid next l : forall index count removed candidate l' count' removed' candidate',
  flush_scan l next index count removed candidate = (l', count', removed', candidate') ->
  length l' = length l /\ countb b_valid l' <= countb b_valid l /\
  (removed' = true -> removed = true \/ countb b_valid l' < countb b_valid l) /\
  (forall i, candidate' = Some i -> (exists q, candidate = Some (i, q)) \/ exists j b, i = (index + j)%nat /\ l' !! j = Some b /\ b_valid b = true).
Proof.
  induction l as [|b l IH]; intros index count removed candidate l' count' removed' candidate'; cbn [flush_scan countb].
  - intros [= <- <- <- <-]. split_and!; [done|done|by left|]. intros i. destruct candidate as [[k q]|]; [|done]. intros [= ->]. left. by exists q.
  - destruct (scan_element _ _ _ _ _ _) as [[[b1 n1] r1] d1] eqn:E1. destruct (flush_scan _ _ _ _ _ _) as [[[l2 n2] r2] d2] eqn:E2.
    intros [= <- <- <- <-]. destruct (IH _ _ _ _ _ _ _ _ E2) as (H1 & H2 & H3 & H4). cbn [countb length].
    assert (Z.b2z (b_valid b1) <= Z.b2z (b_valid b) /\ (r1 = true -> removed = true \/ Z.b2z (b_valid b1) < Z.b2z (b_valid b)) /\
      (d1 = candidate \/ d1 = Some (index, b_sequence b) /\ b_valid b1 = true)) as (S1 & S2 & S3).
    { unfold scan_element in E1. destruct (b_valid b) eqn:Ev; cbn [negb] in E1; [|injection E1 as <- <- <- <-; rewrite Ev; auto with lia].
      destruct (negb _); [injection E1 as <- <- <- <-; cbn; auto with lia|]. destruct (sequence_after _ _); [injection E1 as <- <- <- <-; rewrite Ev; auto with lia|].
      destruct candidate as [[k q]|]; [destruct (sequence_before _ q)|]; injection E1 as <- <- <- <-; rewrite Ev; auto with lia. }
    split_and!; [by rewrite H1|lia| |].
    + intros E. destruct (H3 E) as [E'|?]; [destruct (S2 E'); [by left|right; lia]|right; lia].
    + intros i E. destruct (H4 i E) as [[q Hq]|(j & x & -> & Hj & Hx)]; [|right; exists (S j), x; split_and!; [lia|done|done]].
      destruct S3 as [->|[-> Hv]]; [left; by exists q|]. injection Hq as <- <-. right. exists 0%nat, b1. split_and!; [lia|done|done].
Qed.

(** Every round but the last frees an element. *)
Lemma flush_round_frees c : match flush_round c with
  | inl c' => length (out_of_order c') = length (out_of_order c) /\ countb b_valid (out_of_order c') < countb b_valid (out_of_order c)
  | inr (c', _) => length (out_of_order c') = length (out_of_order c) end.
Proof.
  unfold flush_round. destruct (flush_scan _ _ _ _ _ _) as [[[l n] r] d] eqn:E. destruct (flush_scan_valid _ _ _ _ _ _ _ _ _ _ E) as (H1 & H2 & H3 & H4).
  destruct d as [i|]; [|destruct r; [|done]; split; [done|]; by destruct (H3 eq_refl)].
  match goal with |- context [ingest_contiguous ?c ?a ?b ?d ?e] => pose proof (ingest_queue c a b d e) as Hq; destruct (ingest_contiguous c a b d e) as [c' st] end.
  cbn [fst set_out_of_order out_of_order] in Hq. destruct (negb (bool_decide (st = Ok))); [congruence|]. cbv zeta.
  assert (length (<[i := invalidate (nth i l empty_buffered)]> l) = length (out_of_order c)) as Hl by (by rewrite length_insert).
  destruct (peer_closed _); cbn [clear_out_of_order set_out_of_order out_of_order]; rewrite Hq; [by rewrite length_fmap|]. split; [done|].
  destruct (H4 i eq_refl) as [[q Hi]|(j & b & -> & Hj & Hv)]; [done|]. rewrite Nat.add_0_l in *.
  rewrite (countb_insert _ _ _ b) by done. rewrite Hv. cbn [invalidate b_valid Z.b2z]. lia.
Qed.

Lemma flush_loop_total n : forall c, countb b_valid (out_of_order c) < Z.of_nat n ->
  exists c' st, flush_loop n c = Some (c', st) /\ length (out_of_order c') = length (out_of_order c).
Proof.
  induction n as [|n IH]; intros c Hn; [pose proof (countb_nonneg b_valid (out_of_order c)); lia|]. cbn [flush_loop].
  pose proof (flush_round_frees c) as H. destruct (flush_round c) as [c1|[c1 st1]]; [|by exists c1, st1].
  destruct (IH c1) as (c2 & st2 & E & El); [lia|]. exists c2, st2. split; [done|]. destruct H. congruence.
Qed.

(** The queue has its four elements, and the window is a number of bytes. *)
Record shaped (c : Client) : Prop := {
  sh_queue : length (out_of_order c) = OUT_OF_ORDER_QUEUE_DEPTH;
  sh_window : 0 <= peer_window c }.

Lemma queue_shaped c t : length (out_of_order (fst (queue_out_of_order c t))) = length (out_of_order c).
Proof. unfold queue_out_of_order, store_at. repeat case_match; cbn; by rewrite ?length_insert. Qed.

Lemma process_data_total c s t : length (out_of_order c) = OUT_OF_ORDER_QUEUE_DEPTH ->
  exists c' s' st, process_data c s t = Some (c', s', st) /\ length (out_of_order c') = OUT_OF_ORDER_QUEUE_DEPTH.
Proof.
  intros Hc. unfold process_data. destruct (_ && _); [by eexists _, _, _|]. destruct (negb _); [destruct (acknowledge_or_defer c s); by eexists _, _, _|].
  destruct (sequence_after _ _).
  { pose proof (queue_shaped c t) as Hq. destruct (queue_out_of_order c t) as [c1 q]. cbn [fst] in Hq. rewrite Hc in Hq.
    destruct (negb _); [by eexists _, _, _|]. destruct (acknowledge_or_defer c1 s). by eexists _, _, _. }
  match goal with |- context [ingest_contiguous ?c ?a ?b ?d ?e] => pose proof (ingest_queue c a b d e) as Hq; destruct (ingest_contiguous c a b d e) as [c1 q] end.
  cbn [fst] in Hq. rewrite <- Hq in Hc.
  destruct (bool_decide _); [destruct (acknowledge_or_defer c1 s); by eexists _, _, _|]. destruct (negb _); [by eexists _, _, _|].
  destruct (flush_loop_total flush_fuel c1) as (c2 & st2 & E & El).
  { pose proof (countb_le_length b_valid (out_of_order c1)). rewrite Hc in *. unfold flush_fuel. lia. }
  unfold flush_out_of_order. rewrite E. cbn [mbind option_bind]. rewrite Hc in El.
  destruct (_ && _); [by eexists _, _, _|]. destruct (acknowledge_or_defer c2 s). by eexists _, _, _.
Qed.

Lemma process_total c s t : shaped c -> exists c' s' st, process_incoming c s t = Some (c', s', st) /\ shaped c'.
Proof.
  intros [H1 H2]. assert (exists c' s' st, process_incoming c s t = Some (c', s', st) /\ length (out_of_order c') = OUT_OF_ORDER_QUEUE_DEPTH)
    as (c' & s' & st & E & Hl); [|exists c', s', st; split; [done|]; split; [done|]; by apply (process_sent _ _ _ _ _ _ E)].
  unfold process_incoming. destruct (negb _); [by eexists _, _, _|]. destruct (has_flag _ TcpRst); [by eexists _, _, _|]. fold (acked c t).
  apply process_data_total. by rewrite (proj1 (acked_out_of_order c t)).
Qed.

(** A call that returns, with a client whose shape is kept. *)
Definition returns {R : Type} (x : option (Client * Net W * R)) : Prop := exists c s r, x = Some (c, s, r) /\ shaped c.

Lemma returns_some {R : Type} c s (r : R) : shaped c -> returns (Some (c, s, r)).
Proof. intros. by exists c, s, r. Qed.

(** The shared end of the rounds: a segment, nothing yet, or a failure. *)
Lemma returns_poll {R : Type} c s (f : Client * Net W * Status -> option (Client * Net W * R)) (g : Net W -> Status -> option (Client * Net W * R)) :
  shaped c -> (forall c' s' st, shaped c' -> returns (f (c', s', st))) -> (forall s' st, returns (g s' st)) ->
  returns (match take_or_poll_one c s with
           | (s, Ok, Some segment) => r ← process_incoming c s segment; f r
           | (s, status, _) => g s status
           end).
Proof.
  intros Hc Hf Hg. destruct (take_or_poll_one c s) as [[s1 q] o]. destruct q; try apply Hg. destruct o as [t|]; [|apply Hg].
  destruct (process_total c s1 t Hc) as (c1 & s2 & st & -> & Hc1). by apply Hf.
Qed.

Lemma while_open_partial_total {R : Type} (t : Z) (body : Client -> Net W -> option (Client * Net W * option R)) c s :
  (forall w, pit_initialized w = false) -> (800001 <= fuel)%positive -> (forall c s, shaped c -> returns (body c s)) -> shaped c ->
  returns (while_open_partial fuel t body c s).
Proof.
  intros Hpit Hfuel Hbody Hc. unfold while_open_partial. destruct (while_open_total t (lift_round body) c s Hpit Hfuel) as [[[c1 s1] r] E].
  rewrite E. cbn [mbind option_bind].
  apply (while_open_inv shaped (fun r c => r ≠ None /\ shaped c)) in E; [|clear -Hbody|done].
  - destruct r as [[r|]|]; [by apply returns_some, E|by destruct E|by apply returns_some].
  - intros c s Hc. unfold lift_round. destruct (Hbody c s Hc) as (c1 & s1 & r & E & Hc1). rewrite E. by destruct r.
Qed.

Section fallback.
Context (no_timer : forall w, pit_initialized w = false) (enough : (800001 <= fuel)%positive).

Lemma drain_shaped c s o n b c' s' st k : drain_pending c s o n b = (c', s', st, k) -> shaped c -> shaped c'.
Proof. unfold drain_pending. intros E [H1 H2]. repeat case_match; by simplify_eq/=. Qed.

Ltac step_returns :=
  repeat match goal with
    | |- returns (if ?b then _ else _) => destruct b
    | |- returns (Some (if ?b then _ else _, _, _)) => destruct b
    | |- returns (Some _) => apply returns_some; try done
    | |- context [acknowledge_or_defer ?a ?b] => destruct (acknowledge_or_defer a b)
    | |- context [drain_pending ?c ?s ?o ?n ?b] => let E := fresh "E" in
        destruct (drain_pending c s o n b) as [[[? ?] ?] ?] eqn:E; apply drain_shaped in E; [|done]
    end.

Lemma establish_shaped c s t : shaped c -> returns (Some (establish c s t)).
Proof.
  intros [H1 H2]. unfold establish. destruct (acknowledge_or_defer _ _) as [s1 st1].
  assert (0 <= u16 (t_window t)) as Hw by (unfold u16; apply Z.mod_pos_bound; lia). destruct (negb _); by apply returns_some.
Qed.

Lemma acknowledged_round_total expected c s : shaped c -> returns (acknowledged_round expected c s).
Proof.
  intros Hc. unfold acknowledged_round. apply returns_poll; [done| |].
  - intros c' s' st' Hc'. step_returns; by destruct Hc'.
  - intros s' st'. step_returns; by destruct Hc.
Qed.

Lemma receive_round_total output capacity c s : shaped c -> returns (receive_round output capacity c s).
Proof.
  intros Hc. unfold receive_round. apply returns_poll; [done| |].
  - intros c' s' st' Hc'. by step_returns.
  - intros s' st'. by step_returns.
Qed.

Lemma initialize_shaped : shaped initialize.
Proof. by constructor. Qed.

Lemma close_round_total expected c s : shaped c -> returns (close_round expected c s).
Proof.
  intros Hc. unfold close_round. apply returns_poll; [done| |].
  - intros c' s' st' Hc'. step_returns; by first [apply initialize_shaped | destruct Hc'].
  - intros s' st'. step_returns; by destruct Hc.
Qed.

Lemma handshake_total slice q c s : shaped c -> returns (while_open fuel slice (handshake_round q) c s).
Proof.
  intros Hc. destruct (while_open_total slice (handshake_round q) c s no_timer enough) as [[[c1 s1] r] E]. rewrite E. apply returns_some.
  apply (while_open_inv shaped (fun _ => shaped)) in E; [by destruct r|clear c s Hc c1 s1 r E|done].
  intros c s Hc. unfold handshake_round. destruct (take_or_poll_one c s) as [[s1 st1] o].
  assert (forall st : Status, match (if bool_decide (st = WouldBlock) || bool_decide (st = NotForUs) then (c, wait_progress s1, None)
    else (to_state c Error, s1, Some st)) with (c', _, None) => shaped c' | (c', _, Some _) => shaped c' end) as Hfail.
  { intros st. destruct (_ || _); [done|by destruct Hc]. }
  destruct st1; try (lazymatch goal with |- context [bool_decide (?q = NotForUs)] => exact (Hfail q) end).
  destruct o as [t|]; [|exact (Hfail Ok)]. destruct (has_flag _ _); [by destruct Hc|]. destruct (is_syn_ack _ _); [|done].
  destruct (establish_shaped (set_send c (send_unacknowledged c) (u32 (q + 1))) s1 t) as (c2 & s2 & st2 & [= E] & Hc2); [by destruct Hc|].
  by rewrite E.
Qed.

Lemma connect_loop_total n : forall c s q slice, shaped c -> returns (connect_loop fuel n c s q slice).
Proof.
  induction n as [|n IH]; intros c s q slice Hc; cbn [connect_loop]; [apply returns_some; by destruct Hc|].
  destruct (queue_segment_total c s q 0 TcpSyn 0 0 slice no_timer enough) as [[s1 st1] ->]. cbn [mbind option_bind].
  destruct (_ && _); [apply returns_some; by destruct Hc|]. set (c1 := if bool_decide _ then _ else c).
  assert (shaped c1) as H1 by (unfold c1; destruct (bool_decide _); by destruct Hc).
  destruct (handshake_total slice q c1 s1 H1) as (c2 & s2 & r & -> & H2). cbn [mbind option_bind]. destruct r; [by apply returns_some|by apply IH].
Qed.

Lemma transmit_chunk_total n sequence data chunk slice : forall c s committed, shaped c ->
  returns (transmit_chunk fuel n c s sequence data chunk slice committed).
Proof.
  induction n as [|n IH]; intros c s committed Hc; cbn [transmit_chunk]; [by apply returns_some|].
  destruct (queue_segment_total c s sequence (receive_next c) (Z.lor TcpPsh TcpAck) data chunk slice no_timer enough) as [[s1 st1] ->].
  cbn [mbind option_bind]. destruct (bool_decide (st1 = WouldBlock)); [by apply IH|]. destruct (negb _); [apply returns_some; by destruct Hc|]. cbv zeta.
  match goal with |- context [while_open_partial fuel slice ?b ?c1 s1] =>
    destruct (while_open_partial_total slice b c1 s1 no_timer enough) as (c2 & s2 & r & -> & H2) end.
  - intros. by apply acknowledged_round_total.
  - destruct (negb committed); by destruct Hc.
  - cbn [mbind option_bind]. destruct r as [[]|]; try by apply returns_some. by apply IH.
Qed.

Lemma send_loop_total n : forall c s data length offset timeout, shaped c -> length - offset <= Z.of_nat n ->
  returns (send_loop fuel n c s data length offset timeout).
Proof.
  induction n as [|n IH]; intros c s data length offset timeout Hc Hn; cbn [send_loop];
    (destruct (Z.ltb_spec offset length) as [Hlt|Hge]; cbn [negb]; [|by apply returns_some]); [lia|].
  destruct (Z.eqb_spec (peer_window c) 0) as [Ew|Ew]; [by apply returns_some|]. cbv zeta. unfold MAX_SEGMENT_PAYLOAD.
  set (chunk := if peer_window c <? _ then _ else _). assert (0 < chunk) as Hchunk.
  { unfold chunk. pose proof (sh_window _ Hc). destruct (Z.ltb_spec (length - offset) 1400); case_match; lia. }
  clearbody chunk. replace (chunk =? 0) with false by lia.
  destruct (transmit_chunk_total kDataTransmissionLimit (send_next c) (data + offset) chunk (transmission_slice_ms timeout) c s false Hc)
    as (c1 & s1 & r & -> & H1). cbn [mbind option_bind].
  destruct r as [[committed acknowledged]|st]; [|by apply returns_some]. destruct (negb committed); [by apply returns_some|].
  destruct (negb acknowledged); [case_match; apply returns_some; by destruct H1|]. apply IH; [done|lia].
Qed.

Lemma send_total c s data length timeout : shaped c -> returns (send fuel c s data length timeout).
Proof. intros Hc. unfold send. step_returns. apply send_loop_total; [done|lia]. Qed.

Lemma connect_total c s b ip lp rp q timeout : shaped c -> returns (connect fuel c s b ip lp rp q timeout).
Proof. intros Hc. unfold connect. destruct (_ || _); [by apply returns_some|]. by apply connect_loop_total. Qed.

Lemma abort_total c s : shaped c -> returns (abort fuel c s).
Proof.
  intros Hc. unfold abort.
  destruct (queue_segment_total c s (send_next c) (receive_next c) (Z.lor TcpRst TcpAck) 0 0 kAbortTimeoutMs no_timer enough) as [[s1 st1] ->].
  cbn [mbind option_bind]. by step_returns.
Qed.

Lemma close_total c s : shaped c -> returns (close fuel c s).
Proof.
  intros Hc. unfold close. destruct (_ || negb (has_stack c)); [by apply returns_some|].
  do 2 (match goal with |- returns (if ?b then _ else _) => destruct b end; [by apply returns_some|]).
  destruct (bool_decide (state c = FinWait1)); [by apply abort_total|].
  do 2 (match goal with |- returns (if ?b then _ else _) => destruct b end; [by apply returns_some|]).
  destruct (queue_segment_total c s (send_next c) (receive_next c) (Z.lor TcpFin TcpAck) 0 0 kGracefulCloseTimeoutMs no_timer enough) as [[s1 st1] ->].
  cbn [mbind option_bind]. destruct (negb _); [by apply returns_some|]. cbv zeta.
  match goal with |- context [while_open_partial fuel ?t ?b ?c1 s1] =>
    destruct (while_open_partial_total t b c1 s1 no_timer enough) as (c2 & s2 & r & -> & H2) end.
  - intros. by apply close_round_total.
  - by destruct Hc.
  - cbn [mbind option_bind]. destruct r as [st|]; [by apply returns_some|]. destruct (abort_total c2 s2 H2) as (c3 & s3 & st3 & -> & H3).
    cbn [mbind option_bind]. apply returns_some. destruct (bool_decide _); [done|by destruct H3].
Qed.

Lemma progress_total c s : shaped c -> returns (progress c s).
Proof.
  intros Hc. unfold progress. do 3 (match goal with |- returns (if ?b then _ else _) => destruct b end; [by apply returns_some|]).
  assert (match resend_syn c s with inl (c1, _) => shaped c1 | inr (c1, _, _) => shaped c1 end) as H1.
  { unfold resend_syn. destruct (_ && _); [|done]. destruct (send_segment _ _ _ _ _ _ _) as [s1 st1].
    destruct (retryable_transmit_status st1); [done|]. destruct (negb _); by destruct Hc. }
  destruct (resend_syn c s) as [[c1 s1]|[[c1 s1] st1]]; [|by apply returns_some].
  destruct (take_or_poll_one c1 s1) as [[s2 q] o].
  assert (forall st : Status, returns (if bool_decide (st = WouldBlock) || bool_decide (st = NotForUs) then Some (c1, s2, WouldBlock)
    else Some (to_state c1 Error, s2, st))) as Hfail by (intros st; step_returns; by destruct H1).
  destruct q; try (lazymatch goal with |- context [bool_decide (?q = NotForUs)] => exact (Hfail q) end). destruct o as [t|]; [|exact (Hfail Ok)].
  destruct (bool_decide (state c1 = SynSent)).
  - destruct (has_flag _ _); [apply returns_some; by destruct H1|]. destruct (negb _); [by apply returns_some|]. by apply establish_shaped.
  - destruct (process_total c1 s2 t H1) as (c3 & s3 & st3 & -> & H3). cbn [mbind option_bind]. cbv zeta. step_returns. by destruct H3.
Qed.

(** The same for the calls that also return a length. *)
Definition returns_length (x : option (Client * Net W * Status * Z)) : Prop := exists c s st n, x = Some (c, s, st, n) /\ shaped c.

Lemma returns_length_some c s st n : shaped c -> returns_length (Some (c, s, st, n)).
Proof. intros. by exists c, s, st, n. Qed.

Lemma try_receive_total c s output capacity b : shaped c -> returns_length (try_receive c s output capacity b).
Proof.
  intros Hc. unfold try_receive. destruct (_ || negb b); [by apply returns_length_some|].
  destruct (drain_pending c s output capacity b) as [[[c1 s1] st1] n1] eqn:E1. apply drain_shaped in E1; [|done].
  do 3 (match goal with |- returns_length (if ?b then _ else _) => destruct b end; [by apply returns_length_some|]).
  destruct (progress_total c1 s1 E1) as (c2 & s2 & st2 & -> & H2). cbn [mbind option_bind]. destruct (_ && _); [by apply returns_length_some|].
  destruct (drain_pending c2 s2 output capacity b) as [[[c3 s3] st3] n3] eqn:E3. apply drain_shaped in E3; [|done].
  destruct (bool_decide (st3 = Ok)); by apply returns_length_some.
Qed.

Lemma receive_total c s output capacity b timeout : shaped c -> returns_length (receive fuel c s output capacity b timeout).
Proof.
  intros Hc. unfold receive. do 2 (match goal with |- returns_length (if ?b then _ else _) => destruct b end; [by apply returns_length_some|]).
  destruct (drain_pending c s output capacity b) as [[[c1 s1] st1] n1] eqn:E1. apply drain_shaped in E1; [|done].
  do 3 (match goal with |- returns_length (if ?b then _ else _) => destruct b end; [by apply returns_length_some|]).
  destruct (while_open_partial_total timeout (receive_round output capacity) c1 s1 no_timer enough) as (c2 & s2 & r & -> & H2);
    [intros; by apply receive_round_total|done|]. cbn [mbind option_bind]. by apply returns_length_some.
Qed.

(** C36: Without a timer, and with fuel for the 800000 polls of a wait, every call of
    the client returns, on any network and any device, and leaves a client on which
    every call returns again. *)
Theorem tcp_calls_return c s : shaped c ->
  returns (progress c s) /\ (forall b ip lp rp q timeout, returns (connect fuel c s b ip lp rp q timeout)) /\
  (forall data length timeout, returns (send fuel c s data length timeout)) /\ returns (close fuel c s) /\
  (forall output capacity b, returns_length (try_receive c s output capacity b)) /\
  (forall output capacity b timeout, returns_length (receive fuel c s output capacity b timeout)).
Proof.
  intros Hc. split_and!; intros.
  - by apply progress_total.
  - by apply connect_total.
  - by apply send_total.
  - by apply close_total.
  - by apply try_receive_total.
  - by apply receive_total.
Qed.
End fallback.

(** [send] never reports success for a byte that the peer has not acknowledged:
    on success the next sequence number has moved over all of the data and nothing
    waits for an acknowledgement.  When it would block, the sequence number has
    moved over exactly the chunks that the peer acknowledged, and over none when
    the data is one chunk.  Otherwise the connection is over or the call was refused. *)
Theorem tcp_send_outcome c s data length timeout c' s' st : is_u32 (send_next c) -> 0 <= length -> in_flight c <= 65535 -> 0 <= peer_window c ->
  send fuel c s data length timeout = Some (c', s', st) ->
  (st = Ok /\ send_next c' = u32 (send_next c + length) /\ (0 < length -> in_flight c' = 0)) \/
  (st = WouldBlock /\ exists k, 0 <= k < length /\ send_next c' = u32 (send_next c + k) /\
     (length <= MAX_SEGMENT_PAYLOAD -> length <= peer_window c -> k = 0)) \/
  (st ≠ Ok /\ (c' = c \/ connected c' = false)).
Proof.
  intros Hn Hl Hf Hw. unfold send. destruct (_ || (timeout =? 0)); [intros [= <- <- <-]; right; right; split; [done|by left]|].
  destruct (_ || peer_closed c); [intros [= <- <- <-]; right; right; split; [done|by left]|].
  assert (u32 (send_next c) = send_next c) as Eu by (unfold u32; apply Z.mod_small; word_lia).
  destruct (Z.eqb_spec length 0) as [->|E0]; [intros [= <- <- <-]; left; split_and!; [done|by rewrite Z.add_0_r|lia]|].
  intros E. apply (send_loop_ok _ (send_next c)) in E; [|lia|constructor; [by rewrite Z.add_0_r|done|done]].
  destruct E as [(-> & E1 & E2)|[(-> & k & K1 & K2 & K3)|[E1 E2]]]; [by left| |right; right; split; [done|by right]].
  right. left. split; [done|]. exists k. split_and!; [lia|lia|done|]. intros. lia.
Qed.
End wait.

(** ** From one client to another *)

(** A client that is connected and has nothing that waits for a gap. *)
Record idle (c : Client) : Prop := {
  id_size : Z.of_nat (length (pending c)) = STREAM_RECEIVE_CAPACITY;
  id_offset : 0 <= pending_offset c;
  id_length : 0 <= pending_length c;
  id_fits : pending_offset c + pending_length c <= STREAM_RECEIVE_CAPACITY;
  id_next : is_u32 (receive_next c);
  id_valid : forall b, b ∈ out_of_order c -> b_valid b = false;
  id_open : peer_closed c = false }.

Lemma flush_scan_none next l : forall index count removed candidate, (forall b, b ∈ l -> b_valid b = false) ->
  flush_scan l next index count removed candidate = (l, count, removed, fst <$> candidate).
Proof.
  induction l as [|b l IH]; intros index count removed candidate H; [done|]. cbn [flush_scan]. unfold scan_element.
  rewrite (H b) by left. cbn [negb]. rewrite IH; [done|]. intros x Hx. apply H. by right.
Qed.

Lemma flush_none c : (forall b, b ∈ out_of_order c -> b_valid b = false) ->
  flush_out_of_order c = Some (set_out_of_order c (out_of_order c) (out_of_order_count c), Ok).
Proof. intros H. unfold flush_out_of_order, flush_fuel. cbn [flush_loop]. unfold flush_round. by rewrite flush_scan_none. Qed.

(** The pending bytes and the next ones as a stream. *)
Lemma idle_core c more : idle c -> core (receive_next c - pending_length c) (pending_bytes c ++ more) (pending_length c) c.
Proof.
  intros []. unfold STREAM_RECEIVE_CAPACITY in *. assert (Z.of_nat (length (pending_bytes c)) = pending_length c) as Hl.
  { unfold pending_bytes. rewrite length_take, length_drop. lia. }
  constructor; rewrite ?length_app; try done; try lia.
  - unfold u32. rewrite Z.mod_small; [lia|]. word_lia.
  - rewrite Z.min_l by lia. rewrite Z.sub_diag. unfold slice. rewrite drop_0, take_app_le by lia. by rewrite take_ge by lia.
Qed.

(** The next segment of the stream is appended to what is pending. *)
Lemma process_next {W} c (s : Net W) t n : idle c -> segment_for_client c t = true -> has_flag (t_flags t) TcpRst = false ->
  has_flag (t_flags t) TcpFin = false -> t_sequence t = receive_next c -> t_payload_length t = n ->
  0 < n <= OUT_OF_ORDER_PAYLOAD_CAPACITY -> n <= Z.of_nat (length (t_payload t)) -> pending_length c + n <= STREAM_RECEIVE_CAPACITY ->
  exists c' s' st, process_incoming c s t = Some (c', s', st) /\ idle c' /\
    pending_bytes c' = pending_bytes c ++ take (Z.to_nat n) (t_payload t) /\ receive_next c' = u32 (receive_next c + n).
Proof.
  intros Hid Hfor Hrst Hfin Hseq Hlen Hn Hpay Hroom. unfold process_incoming. rewrite Hfor, Hrst. cbn [negb]. fold (acked c t).
  set (bytes := take (Z.to_nat n) (t_payload t)). assert (Z.of_nat (length bytes) = n) as Hb by (unfold bytes; rewrite length_take; lia).
  set (base := receive_next c - pending_length c). set (stream := pending_bytes c ++ bytes). set (pos := pending_length c).
  pose proof (idle_core c bytes Hid) as Hcore0. fold base stream pos in Hcore0. pose proof (core_acked _ _ _ _ t Hcore0) as Hcore.
  assert (Z.of_nat (length (pending_bytes c)) = pos) as Hpl.
  { destruct Hid. unfold pending_bytes, pos, STREAM_RECEIVE_CAPACITY in *. rewrite length_take, length_drop. lia. }
  assert (Z.of_nat (length stream) = pos + n) as Hsize by (unfold stream; rewrite length_app; lia).
  pose proof (id_length _ Hid) as Hpos. fold pos in Hpos, Hroom.
  assert (carries base stream pos (t_sequence t) (t_flags t) (t_payload t) (t_payload_length t)) as Hcar.
  { rewrite Hlen. constructor; [by rewrite Hseq, <- (co_next _ _ _ _ Hcore0)|lia|lia|lia| |by rewrite Hfin]. unfold slice, stream.
    rewrite drop_app_le, drop_ge by lia. cbn [app]. by rewrite (take_ge bytes) by lia. }
  unfold process_data. rewrite Hlen, Hfin. replace (n =? 0) with false by lia. cbn [andb].
  unfold incoming_end_sequence. rewrite (end_sequence_eq _ _ _ _ _ _ _ Hcar), (co_next _ _ _ _ Hcore).
  unfold OUT_OF_ORDER_PAYLOAD_CAPACITY, TRANSPORT_INBOX_CAPACITY, ETHERNET_MTU, STREAM_RECEIVE_CAPACITY in Hn, Hroom.
  assert (end_of pos (t_flags t) (t_payload_length t) = pos + n) as Eend by (unfold end_of, fin; rewrite Hfin, Hlen; cbn; lia).
  rewrite Eend, (cr_sequence _ _ _ _ _ _ _ Hcar), !seq_after_iff by lia. replace (pos <? pos + n) with true by lia. replace (pos <? pos) with false by lia. cbn [negb].
  destruct (ingest_ok base stream pos (acked c t) pos _ _ _ _ Hcore Hcar) as (c1 & st & E & Hsame & Hl1 & _ & Hcase); [lia|lia|].
  rewrite Hlen, (cr_sequence _ _ _ _ _ _ _ Hcar) in E. rewrite E. rewrite Hlen, acked_pending in Hcase.
  destruct Hcase as [(-> & Hc1 & Hp1)|(_ & _ & _ & _ & Hfull)]; [|unfold STREAM_RECEIVE_CAPACITY in Hfull; fold pos in Hfull; lia].
  rewrite <- Hlen, Eend in Hc1. rewrite bool_decide_false, bool_decide_true by done. cbn [negb].
  assert (forall b, b ∈ out_of_order c1 -> b_valid b = false) as Hvalid.
  { rewrite Hl1, (proj1 (acked_out_of_order c t)). apply (id_valid _ Hid). }
  rewrite (flush_none c1 Hvalid). cbn [mbind option_bind]. rewrite bool_decide_true by done. cbn [negb andb].
  match goal with |- context [acknowledge_or_defer ?a ?b] => destruct (acknowledge_or_defer a b) as [s2 st2] end.
  eexists _, s2, st2. split; [reflexivity|]. destruct Hc1 as [F1 F2 F3 F4 F5 F6 F7 F8]. fold pos in Hp1.
  assert (pending_length c1 = pos + n) as Hp2 by lia. rewrite Hsize, Z.min_l, Hp2, Z.sub_diag in F8 by lia. split_and!.
  - constructor; cbn [set_out_of_order pending pending_offset pending_length receive_next out_of_order peer_closed]; try done; [lia|rewrite F1; apply Z.mod_pos_bound; lia|rewrite F3; lia].
  - change (pending_bytes (set_out_of_order c1 (out_of_order c1) (out_of_order_count c1))) with (pending_bytes c1). rewrite F8.
    unfold slice. rewrite drop_0, take_ge by lia. done.
  - cbn [set_out_of_order receive_next]. rewrite F1. f_equal. unfold base, pos. lia.
Qed.

(** What [try_send] sends when it accepts bytes. *)
Lemma try_send_ok {W} c (s : Net W) data len b c' s' n : try_send c s data len b = (c', s', Ok, n) -> 0 < n -> 0 <= in_flight c -> is_u32 (send_next c) ->
  in_flight c <= 65535 -> peer_window c <= 65535 ->
  send_segment c s (send_next c) (receive_next c) (Z.lor TcpPsh TcpAck) data n = (s', Ok) /\
  n <= len /\ n <= MAX_SEGMENT_PAYLOAD /\ in_flight c' = in_flight c + n /\ in_flight c' <= peer_window c /\
  c' = set_send c (send_unacknowledged c) (u32 (send_next c + n)).
Proof.
  intros E Hn Hf0 Hu Hf Hw. unfold try_send in E. destruct (_ || (negb (len =? 0) && _)); [done|]. destruct (_ || peer_closed c); [done|].
  destruct (len =? 0); [injection E as <- <- <-; lia|]. cbv zeta in E. fold (in_flight c) in E. destruct (Z.leb_spec (peer_window c) (in_flight c)); [done|].
  unfold MAX_SEGMENT_PAYLOAD in *. set (chunk := if peer_window c - in_flight c <? _ then _ else _) in E.
  assert (chunk <= len /\ chunk <= 1400 /\ chunk <= peer_window c - in_flight c) as (C1 & C2 & C3).
  { clear E. unfold chunk. destruct (Z.ltb_spec len 1400); (match goal with |- context [?a <? ?b] => destruct (Z.ltb_spec a b) end); lia. }
  clearbody chunk. destruct (chunk =? 0); [done|]. destruct (send_segment _ _ _ _ _ _ _) as [s1 st1] eqn:E1.
  destruct (retryable_transmit_status st1); [done|]. destruct (bool_decide (st1 = Ok)) eqn:E2; cbn [negb] in E; [|injection E as <- <- -> <-; lia].
  apply bool_decide_eq_true in E2 as ->. injection E as <- <- <-.
  assert (u32 chunk = chunk) as -> by (unfold u32; apply Z.mod_small; lia). split_and!; try done.
  - unfold in_flight, u32 in *. cbn [set_send send_next send_unacknowledged]. clear -Hn C2 Hf Hf0. zdm.
  - assert (in_flight (set_send c (send_unacknowledged c) (u32 (send_next c + chunk))) = in_flight c + chunk) as ->; [|lia].
    unfold in_flight, u32 in *. cbn [set_send send_next send_unacknowledged]. clear -Hn C2 Hf Hf0. zdm.
Qed.

Lemma advertised_window_range c : 0 <= advertised_window c < 2 ^ 16.
Proof. unfold advertised_window, u16. repeat case_match; try lia; apply Z.mod_pos_bound; lia. Qed.

Lemma inbox_take bytes n : Z.of_nat (length bytes) = n -> 0 <= n <= TRANSPORT_INBOX_CAPACITY ->
  take (Z.to_nat n) (inbox bytes) = bytes /\ n <= Z.of_nat (length (inbox bytes)).
Proof.
  intros Hl Hn. unfold inbox. assert (length ZERO_INBOX = Z.to_nat TRANSPORT_INBOX_CAPACITY) as Hz by (unfold ZERO_INBOX; by rewrite length_replicate).
  rewrite length_inserts. split; [|lia]. rewrite inserts_app by lia. rewrite firstn_O, app_nil_l. by apply take_app_length'; lia.
Qed.

(** A connected client that takes the segment in the inbox. *)
Lemma progress_takes {W} c (s : Net W) t : stack_ok (stack s) -> last_tcp_segment (stack s) = t -> segment_for_client c t = true ->
  has_stack c = true -> state c = Established ->
  exists s1, progress c s = (process_incoming c s1 t ≫= fun '(c, s, status) => Some (c, s,
    if negb (bool_decide (status = Ok)) && negb (bool_decide (status = NotForUs)) then status else Ok)).
Proof.
  intros [Hi _ _ _ _ _ _ _ _ _ _] Ht Hfor Hst Hs. eexists. unfold progress. rewrite Hst, Hs. cbn [negb].
  rewrite !bool_decide_false by done. cbn [orb]. unfold resend_syn. rewrite Hs, bool_decide_false by done. cbn [andb].
  unfold take_or_poll_one. rewrite Hst. cbn [negb]. unfold take_tcp_segment. rewrite Hi. cbn [negb]. rewrite Ht.
  assert (t_valid t = true) as -> by (unfold segment_for_client in Hfor; by destruct (t_valid t)). cbn [negb]. rewrite Hfor. cbn [negb].
  rewrite Hs, bool_decide_false by done. match goal with |- context [process_incoming c ?s1 t] => destruct (process_incoming c s1 t) as [[[c2 s2] st2]|] eqn:E end;
    cycle 1.
  { cbn [mbind option_bind]. rewrite E. done. }
  rewrite E. cbn [mbind option_bind]. change (bool_decide (Established = FinWait1)) with false. by destruct (_ && _).
Qed.

(** C14: End to end: when [try_send] accepts [n] bytes, the peer that receives the
    frame and makes one step has exactly these bytes appended to what its
    application can read, and acknowledges the sequence number that the sender
    reached; the bytes in flight never exceed the window the peer announced. *)
Theorem tcp_end_to_end {W V} (A A' : Net W) (B : Net V) ca ca' cb data len n :
  net_ok A -> net_ok B -> ip_ok (peer ca) -> 0 <= local_port ca < 2 ^ 16 -> 0 <= remote_port ca < 2 ^ 16 ->
  is_u32 (send_next ca) -> is_u32 (receive_next ca) -> in_flight ca <= 65535 -> peer_window ca <= 65535 ->
  c_address (config (stack B)) = peer ca -> c_address (config (stack A)) ≠ peer ca ->
  snd (resolve_destination A (peer ca)) = inr (hardware_address (interface (stack B))) ->
  payload_free (stack A) TCP_MIN_HEADER_SIZE data n ->
  try_send ca A data len true = (ca', A', Ok, n) -> 0 < n ->
  idle cb -> has_stack cb = true -> state cb = Established -> peer cb = c_address (config (stack A)) ->
  local_port cb = remote_port ca -> remote_port cb = local_port ca -> receive_next cb = send_next ca ->
  pending_length cb + n <= STREAM_RECEIVE_CAPACITY ->
  n <= MAX_SEGMENT_PAYLOAD /\ in_flight ca' = in_flight ca + n /\ in_flight ca' <= peer_window ca /\
  exists frame, sent A frame A' /\ forall at_, arrived B at_ frame -> exists B' cb' B'' st,
    NetworkStack.receive B at_ (Z.of_nat (length frame)) = (B', Ok) /\ progress cb B' = Some (cb', B'', st) /\ idle cb' /\
    pending_bytes cb' = pending_bytes cb ++ load (mem A) data n /\ receive_next cb' = send_next ca'.
Proof.
  intros HA HB Hip Hlp Hrp Hsn Hrn Hfl Hwin Hdst Hne Hres Hpl Hsend Hn Hid Hst Hs Hpeer Hp1 Hp2 Hnext Hroom.
  assert (0 <= in_flight ca) as Hf0 by (unfold in_flight, u32; apply Z.mod_pos_bound; lia).
  destruct (try_send_ok _ _ _ _ _ _ _ _ Hsend Hn Hf0 Hsn Hfl Hwin) as (E & _ & Hmax & Hf1 & Hf2 & ->). split_and!; [done..|].
  unfold MAX_SEGMENT_PAYLOAD in Hmax.
  set (f := mkTcpFields (local_port ca) (remote_port ca) (send_next ca) (receive_next ca) (Z.lor TcpPsh TcpAck) (advertised_window ca)).
  destruct (tcp_delivered A A' B (peer ca) f data n) as (frame & Hsent & Hrecv); try done; [apply advertised_window_range|lia|].
  exists frame. split; [done|]. intros at_ Harr. destruct (Hrecv at_ Harr) as (B' & Er & _ & _ & HB' & Ht).
  set (t := mkTcpSegment _ _ _ _ _ _ _ _ _ _ _) in Ht.
  assert (segment_for_client cb t = true) as Hfor.
  { unfold segment_for_client, t. cbn. rewrite Hpeer, ipv4_equal_refl, Hp1, Hp2, !Z.eqb_refl. done. }
  destruct (progress_takes cb B' t (proj2 HB') Ht Hfor Hst Hs) as (s1 & Ep).
  destruct (inbox_take (load (mem A) data n) n) as [Hin1 Hin2]; [apply load_length; lia|unfold TRANSPORT_INBOX_CAPACITY, ETHERNET_MTU; lia|].
  destruct (process_next cb s1 t n) as (cb' & B'' & st & Eq & Hid' & Hbytes & Hrcv); try done.
  { unfold OUT_OF_ORDER_PAYLOAD_CAPACITY, TRANSPORT_INBOX_CAPACITY, ETHERNET_MTU. lia. }
  rewrite Eq in Ep. cbn [mbind option_bind] in Ep. eexists B', cb', B'', _. split_and!; [done|exact Ep|done| |].
  - rewrite Hbytes. unfold t. cbn [t_payload]. by rewrite Hin1.
  - cbn [set_send send_next]. by rewrite Hrcv, Hnext.
Qed.

(** ** Instances *)

(** A device with no timer. *)
#[export] Instance example_clock : Clock (list (list Z)) := {
  pit_initialized := fun _ => false; frequency_hz := fun _ => 0; read_ticks := fun w => (w, 0); wait_for_progress := fun w => w }.

Lemma example_no_timer (w : list (list Z)) : pit_initialized w = false.
Proof. done. Qed.

Definition example_segment (q a flags window : Z) (bytes : list Z) : TcpSegment :=
  mkTcpSegment true ip_b ip_a 80 5000 q a flags window (inbox bytes) (Z.of_nat (length bytes)).

(** The client of station A, connected to port 80 of B. *)
Definition example_client (window : Z) : Client :=
  set_state (set_receive_next (set_window (start_client ip_b 5000 80 1000) window) 2001) Established true false.
Definition example_peer : Client :=
  set_state (set_receive_next (start_client ip_a 80 5000 2001) 1000) Established true false.

Definition station_ba : Net (list (list Z)) := fst (update_neighbor station_b ip_a mac_a).

(** The frames with which B acknowledges two bytes and closes its window, and four
    bytes more. *)
Definition example_ack : list Z :=
  Eval vm_compute in nth 0 (dev (fst (send_tcp station_ba ip_a 80 5000 2001 1002 TcpAck 0 0 0))) [].
Definition example_ack2 : list Z :=
  Eval vm_compute in nth 0 (dev (fst (send_tcp station_ba ip_a 80 5000 2001 1006 TcpAck 10 0 0))) [].

(** A device that answers the first two frames with them. *)
Definition answering : NetworkInterface (list (list Z)) :=
  mkInterface (transmit (example_interface mac_a))
    (Some (fun w capacity =>
       match w with
       | [_] => (w, Ok, Z.of_nat (length example_ack), example_ack)
       | [_; _] => (w, Ok, Z.of_nat (length example_ack2), example_ack2)
       | _ => (w, WouldBlock, 0, [])
       end))
    mac_a ETHERNET_MTU.

Definition with_interface (s : Net (list (list Z))) (i : NetworkInterface (list (list Z))) : Net (list (list Z)) :=
  let k := stack s in
  mkNet (mem s) (dev s) (mkStack i (config k) (neighbors k) (stats k) (last_ping_reply k) (last_udp_datagram k) (last_tcp_segment k)
    (receive_buffer k) (transmit_buffer k) (next_identification k) (neighbor_eviction_cursor k) (neighbor_update_sequence k)
    (initialized k) (ipv4_configured k)).

Definition station_answering : Net (list (list Z)) := with_interface station_ab answering.

(** The sequence number and the payload of a frame. *)
Definition frame_data (frame : list Z) : list Z * list Z := (take 4 (drop 38 frame), drop 54 frame).

(** A [send] of more than the peer's window may report that it would block after
    the peer has acknowledged its first chunk; the retry that the header describes
    then sends the same bytes a second time, at a new sequence number, and the peer
    receives six bytes for the four of the application. *)
Theorem send_retry_duplicates : exists c1 s1 c2 s2,
  send 10 (example_client 2) station_answering 16 4 100 = Some (c1, s1, WouldBlock) /\
  send_next c1 ≠ send_next (example_client 2) /\
  send 10 (set_window c1 10) s1 16 4 100 = Some (c2, s2, Ok) /\
  frame_data <$> dev s2 = [(be32 1000, [16; 17]); (be32 1002, [16; 17; 18; 19])].
Proof.
  assert (match send 10 (example_client 2) station_answering 16 4 100 with
    | Some (c1, s1, st1) => match send 10 (set_window c1 10) s1 16 4 100 with
        | Some (c2, s2, st2) => Some (st1, send_next c1, st2, frame_data <$> dev s2) | None => None end
    | None => None end = Some (WouldBlock, 1002, Ok, [(be32 1000, [16; 17]); (be32 1002, [16; 17; 18; 19])])) as H by (vm_compute; reflexivity).
  destruct (send 10 (example_client 2) station_answering 16 4 100) as [[[c1 s1] st1]|]; [|discriminate H].
  destruct (send 10 (set_window c1 10) s1 16 4 100) as [[[c2 s2] st2]|] eqn:E; [|discriminate H].
  injection H as -> H1 -> H2. exists c1, s1, c2, s2. split_and!; [reflexivity|rewrite H1; discriminate|exact E|exact H2].
Qed.

Lemma some_default {A : Type} (x : option A) (d : A) : (if x then true else false) = true -> x = Some (default d x).
Proof. by destruct x. Qed.

Lemma example_shaped window : shaped (example_client window).
Proof. constructor; [done|]. cbn. unfold u16. apply Z.mod_pos_bound. lia. Qed.

Lemma tcp_calls_return_witness :
  exists c s st, connect 800001 initialize station_ab true ip_b 5000 80 1000 100 = Some (c, s, st) /\
    returns (send 800001 c s 16 4 100) /\ returns (close 800001 c s).
Proof.
  destruct (tcp_calls_return 800001 example_no_timer ltac:(lia) initialize station_ab initialize_shaped) as (_ & H & _).
  destruct (H true ip_b 5000 80 1000 100) as (c & s & st & E & Hc). exists c, s, st. split; [exact E|].
  destruct (tcp_calls_return 800001 example_no_timer ltac:(lia) c s Hc) as (_ & _ & H1 & H2 & _). split; [apply H1|exact H2].
Defined.

Lemma tcp_send_outcome_witness :
  let r := send 10 (example_client 2) station_answering 16 4 100 in
  let d := (example_client 2, station_answering, Ok) in
  let c' := fst (fst (default d r)) in
  exists k, 0 <= k < 4 /\ send_next c' = u32 (1000 + k).
Proof.
  intros r d c'. destruct (default d r) as [[c1 s1] st1] eqn:E.
  assert (r = Some (default d r)) as Er by (apply some_default; vm_compute; reflexivity). rewrite E in Er.
  assert (snd (default d r) = WouldBlock) as Est by (vm_compute; reflexivity). rewrite E in Est. cbn [snd] in Est.
  destruct (tcp_send_outcome 10 (example_client 2) station_answering 16 4 100 c1 s1 st1) as [(-> & _)|[(_ & k & K1 & K2 & _)|(_ & [->|Hc])]].
  - vm_compute. split; [discriminate|reflexivity].
  - lia.
  - vm_compute. discriminate.
  - vm_compute. discriminate.
  - exact Er.
  - discriminate Est.
  - exists k. unfold c'. split; [exact K1|exact K2].
  - exists 0. split; [lia|]. unfold c'. reflexivity.
  - exfalso. assert (connected (fst (fst (default d r))) = true) as Hc' by (vm_compute; reflexivity). rewrite E in Hc'. cbn [fst] in Hc'. congruence.
Defined.

Lemma example_idle : idle example_peer.
Proof.
  constructor; [vm_compute; reflexivity|vm_compute; discriminate|vm_compute; discriminate|vm_compute; discriminate|cbn; unfold is_u32; lia| |reflexivity].
  unfold example_peer, start_client, initialize. cbn [set_state set_receive_next out_of_order]. by intros b [-> _]%elem_of_replicate.
Qed.

Lemma station_ba_ok : net_ok station_ba.
Proof. apply (keeps_update_neighbor station_b ip_a mac_a station_b_ok); [by apply example_ip_ok|by apply example_mac_ok]. Qed.

Lemma tcp_end_to_end_witness :
  let r := try_send (example_client 10) station_ab 16 4 true in
  let ca' := fst (fst (fst r)) in let A' := snd (fst (fst r)) in
  exists frame, sent station_ab frame A' /\ forall at_, arrived station_ba at_ frame -> exists B' cb' B'' st,
    NetworkStack.receive station_ba at_ (Z.of_nat (length frame)) = (B', Ok) /\ progress example_peer B' = Some (cb', B'', st) /\
    pending_bytes cb' = [16; 17; 18; 19] /\ receive_next cb' = 1004.
Proof.
  intros r ca' A'.
  destruct (tcp_end_to_end station_ab A' station_ba (example_client 10) ca' example_peer 16 4 4) as (_ & _ & _ & frame & Hsent & Hrecv).
  - apply station_ab_ok.
  - apply station_ba_ok.
  - by apply (example_ip_ok 2).
  - cbn; lia.
  - cbn; lia.
  - vm_compute. split; [discriminate|reflexivity].
  - vm_compute. split; [discriminate|reflexivity].
  - vm_compute. discriminate.
  - vm_compute. discriminate.
  - vm_compute. reflexivity.
  - vm_compute. discriminate.
  - vm_compute. reflexivity.
  - split; [lia|right; left; vm_compute; discriminate].
  - assert (snd (fst r) = Ok) as E1 by (vm_compute; reflexivity). assert (snd r = 4) as E2 by (vm_compute; reflexivity).
    unfold ca', A'. fold r. destruct r as [[[a b] c] d]. cbn [fst snd] in *. by subst.
  - lia.
  - apply example_idle.
  - reflexivity.
  - reflexivity.
  - vm_compute. reflexivity.
  - reflexivity.
  - reflexivity.
  - reflexivity.
  - vm_compute. discriminate.
  - exists frame. split; [exact Hsent|]. intros at_ Harr. destruct (Hrecv at_ Harr) as (B' & cb' & B'' & st & H1 & H2 & _ & H3 & H4).
    exists B', cb', B'', st. split; [exact H1|]. split; [exact H2|]. split; [rewrite H3; vm_compute; reflexivity|]. rewrite H4. vm_compute. reflexivity.
Defined.

(** A segment in the inbox of A. *)
Definition with_segment (s : Net (list (list Z))) (t : TcpSegment) : Net (list (list Z)) :=
  set_stack s (set_inboxes (stack s) (last_ping_reply (stack s)) (last_udp_datagram (stack s)) t).

Lemma with_segment_ok s t : net_ok s -> net_ok (with_segment s t).
Proof. intros Hs. apply (keeps_inboxes s (last_ping_reply (stack s)) (last_udp_datagram (stack s)) t Hs). Qed.

Lemma with_segment_honest base stream c t : t_valid t = true -> send_next c ≠ send_unacknowledged c \/ state c ≠ SynSent ->
  good base stream c t -> honest base stream c (with_segment station_ab t).
Proof.
  intros Hv Hc Hg. apply honest_inbox; [apply (with_segment_ok station_ab t station_ab_ok)|exact Hv|exact Hc|exact Hg].
Qed.

(** The peer sends three bytes and closes; the end comes first. *)
Definition example_stream : list Z := [7; 8; 9].
Definition syn_ack : TcpSegment := example_segment 2000 1000 (Z.lor TcpSyn TcpAck) 500 [].
Definition segment_end : TcpSegment := example_segment 2002 1000 (Z.lor TcpFin TcpAck) 500 [8; 9].
Definition segment_start : TcpSegment := example_segment 2001 1000 TcpAck 500 [7; 8].

Lemma segment_end_carries : carries 2001 example_stream 1 (t_sequence segment_end) (t_flags segment_end) (t_payload segment_end) (t_payload_length segment_end).
Proof. constructor; cbn; try done; lia. Qed.

Lemma segment_start_carries : carries 2001 example_stream 0 (t_sequence segment_start) (t_flags segment_start) (t_payload segment_start) (t_payload_length segment_start).
Proof. constructor; cbn; try done; lia. Qed.

Lemma segment_start_end : end_of 0 (t_flags segment_start) (t_payload_length segment_start) = 2.
Proof. reflexivity. Qed.

Lemma segment_end_end : end_of 1 (t_flags segment_end) (t_payload_length segment_end) = 4.
Proof. reflexivity. Qed.

Lemma segment_good c t off : carries 2001 example_stream off (t_sequence t) (t_flags t) (t_payload t) (t_payload_length t) -> state c ≠ SynSent ->
  good 2001 example_stream c t.
Proof.
  intros Hc Hs _. split; [done|]. intros _. right. intros pos Hcore. exists off. pose proof (end_of_bounds _ _ _ _ _ _ _ Hc).
  pose proof (co_pos _ _ _ _ Hcore). pose proof (cr_off _ _ _ _ _ _ _ Hc). cbn [length example_stream] in *. split; [done|lia].
Qed.

Definition after (x : option (Client * Net (list (list Z)) * Status)) (c : Client) : Client :=
  match x with Some (c, _, _) => c | None => c end.

Lemma progress_after c s : (if progress c s then true else false) = true -> exists s' st, progress c s = Some (after (progress c s) c, s', st).
Proof. destruct (progress c s) as [[[c' s'] st]|]; [|done]. intros _. by exists s', st. Qed.

Definition opened : Client * Net (list (list Z)) * Status := begin_connect initialize station_ab true ip_b 5000 80 999.
Definition client0 : Client := fst (fst opened).
Definition client1 : Client := after (progress client0 (with_segment station_ab syn_ack)) client0.
Definition client2 : Client := after (progress client1 (with_segment station_ab segment_end)) client1.

Lemma opened_eq : begin_connect initialize station_ab true ip_b 5000 80 999 = (client0, snd (fst opened), WouldBlock).
Proof.
  assert (snd opened = WouldBlock) as E by (vm_compute; reflexivity). unfold client0. rewrite <- E. unfold opened.
  destruct (begin_connect _ _ _ _ _ _ _) as [[c s] st]. reflexivity.
Qed.

Lemma client0_fresh : fresh client0.
Proof.
  assert (conn_inv 2001 example_stream [] client0) as [[H _]|[(? & _ & _ & _ & _ & H & _)|[H _]]].
  - eapply begin_connect_inv; [|exact opened_eq|discriminate]. by apply (example_ip_ok 2).
  - exact H.
  - exfalso. apply H. vm_compute. reflexivity.
  - exfalso. assert (has_stack client0 = true) as H' by (vm_compute; reflexivity). rewrite H in H'. discriminate H'.
Qed.

Lemma ip_b_ok : ip_ok ip_b.
Proof. by apply (example_ip_ok 2). Qed.

Lemma example_stream_u8 : Forall is_u8 example_stream.
Proof. repeat (apply Forall_cons_2; [unfold is_u8; lia|]). by apply Forall_nil. Qed.

Lemma tcp_stream_prefix_witness :
  let r := try_receive client2 (with_segment station_ab segment_start) 100000 10 true in
  exists c s, r = Some (c, s, Ok, 3) /\ load (mem s) 100000 3 = take (length (load (mem s) 100000 3)) example_stream.
Proof.
  intros r. assert ((match r with Some (_, _, st, n) => bool_decide (st = Ok) && (n =? 3) | None => false end) = true) as Er by (vm_compute; reflexivity).
  destruct r as [[[[c s] st] n]|] eqn:E; [|discriminate Er]. apply andb_true_iff in Er as [->%bool_decide_eq_true ->%Z.eqb_eq].
  exists c, s. split; [reflexivity|].
  assert (state client1 ≠ SynSent) as H1 by (vm_compute; discriminate). assert (state client2 ≠ SynSent) as H2 by (vm_compute; discriminate).
  destruct (progress_after client0 (with_segment station_ab syn_ack)) as (s1 & q1 & P1); [vm_compute; reflexivity|].
  destruct (progress_after client1 (with_segment station_ab segment_end)) as (s2 & q2 & P2); [vm_compute; reflexivity|].
  refine (proj1 (tcp_stream_prefix 2001 example_stream initialize station_ab true ip_b 5000 80 999 client0 (snd (fst opened)) WouldBlock c
    (load (mem s) 100000 3) _ _ _ _ _)).
  - exact example_stream_u8.
  - exact ip_b_ok.
  - exact opened_eq.
  - discriminate.
  - apply (rtc_l _ _ (client1, [])); [eapply call_progress, P1|apply (rtc_l _ _ (client2, [])); [eapply call_progress, P2|apply rtc_once]].
    + apply with_segment_honest; [reflexivity|left; vm_compute; discriminate|]. intros _. split; [intros _ _; vm_compute; reflexivity|intros _; left; split; reflexivity].
    + apply with_segment_honest; [reflexivity|right; exact H1|]. exact (segment_good _ _ _ segment_end_carries H1).
    + apply (call_receive 2001 example_stream client2 [] (with_segment station_ab segment_start) 100000 10 true c s Ok 3); [| | | |exact E].
      * apply with_segment_honest; [reflexivity|right; exact H2|]. exact (segment_good _ _ _ segment_start_carries H2).
      * apply with_segment_ok, station_ab_ok.
      * apply (example_device mac_a).
      * constructor; [lia|right; vm_compute; discriminate].
Defined.

Definition established1 : Client * Net (list (list Z)) * Status := establish client0 (with_segment station_ab syn_ack) syn_ack.

Lemma pair_eta {A B C : Type} (x : A * B * C) : x = (fst (fst x), snd (fst x), snd x).
Proof. by destruct x as [[? ?] ?]. Qed.

Lemma established1_eq : establish client0 (with_segment station_ab syn_ack) syn_ack =
  (fst (fst established1), snd (fst established1), snd established1).
Proof. unfold established1. exact (pair_eta (establish client0 (with_segment station_ab syn_ack) syn_ack)). Qed.

Lemma reassembly_complete_witness :
  let c := fst (fst established1) in
  exists c' s', deliver [segment_end; segment_start] c (snd (fst established1)) = Some (c', s') /\
    pending_bytes c' = example_stream /\ peer_closed c' = true.
Proof.
  intros c. assert (segment_for_client c segment_end = true /\ segment_for_client c segment_start = true) as [F1 F2] by (vm_compute; by split).
  assert (piece 2001 example_stream c 1 segment_end) as P1 by (constructor; [exact F1|reflexivity|exact segment_end_carries|vm_compute; reflexivity]).
  assert (piece 2001 example_stream c 0 segment_start) as P2 by (constructor; [exact F2|reflexivity|exact segment_start_carries|vm_compute; reflexivity]).
  apply (reassembly_complete 2001 example_stream client0 (with_segment station_ab syn_ack) syn_ack c (snd (fst established1)) (snd established1)).
  - exact client0_fresh.
  - vm_compute. reflexivity.
  - exact established1_eq.
  - vm_compute. discriminate.
  - vm_compute. lia.
  - intros t [->|[->|[]%elem_of_nil]%elem_of_cons]%elem_of_cons; [by exists 1|by exists 0].
  - intros i Hi. cbn [length example_stream] in Hi. destruct (decide (i < 2)) as [H|H].
    + exists segment_start, 0. split; [right; left|]. split; [exact P2|]. rewrite segment_start_end. clear -Hi H. lia.
    + exists segment_end, 1. split; [left|]. split; [exact P1|]. rewrite segment_end_end. clear -Hi H. lia.
Defined.
