(* ===== verification/Scheduler2.v ===== *)
(** * The policy of the preemptive scheduler

    task/scheduler2.cpp keeps the threads of the preemptive scheduler and a run
    queue per processor, and decides which thread a processor runs next: the ready
    thread of highest priority of its own queue, round robin among equals, or else
    one that it takes from another queue.  Every entry point holds the policy lock
    ([TicketLock]), so that calls happen one after the other.

    The theorems: the tables stay consistent under any sequence of calls
    ([scheduler2_invariant]); [pick_next] chooses as documented ([pick_next_ok]);
    a thread is given to one processor at a time ([dispatch_exclusive]); and among
    threads of equal priority each has its turn ([round_robin]). *)

From S2P Require Import Prelude.

(** ** Data *)

Definition MAX_CPUS : nat := 64.
Definition MAX_SCHEDULABLE_THREADS : nat := 64.
Definition MAX_PRIORITY : Z := 31.
Definition INVALID_THREAD_ID : Z := 0.

Inductive Status :=
  | Ok | NotInitialized | AlreadyInitialized | InvalidArgument | InvalidCpu | InvalidAffinity | AlreadyExists | NotFound
  | CapacityReached | QueueFull.

#[export] Instance Status_eq_dec : EqDecision Status.
Proof. solve_decision. Defined.

Inductive State := Ready | Running | Blocked | Sleeping | Terminated.

#[export] Instance State_eq_dec : EqDecision State.
Proof. solve_decision. Defined.

Record ThreadStat := mkStat {
  id : Z; state : State; priority : Z; affinity : Z; home_cpu : nat; last_cpu : nat; dispatches : Z; migrations : Z }.

Record CpuStat := mkCpuStat { c_cpu : nat; c_queued : nat; c_ready : nat; c_dispatches : Z; c_steals : Z }.

Record ThreadSlot := mkSlot { stat_of : ThreadStat; used : bool }.

(** The array of a queue keeps old values behind its first [count]. *)
Record RunQueue := mkQueue { ids : list Z; count : nat; cursor : nat; q_dispatches : Z; steals : Z }.

Record Scheduler := mkScheduler { threads : list ThreadSlot; queues : list RunQueue; cpu_count : nat; initialized : bool }.

Definition empty_stat : ThreadStat := mkStat 0 Ready 0 0 0 0 0 0.
Definition empty_slot : ThreadSlot := mkSlot empty_stat false.
Definition empty_queue : RunQueue := mkQueue (replicate MAX_SCHEDULABLE_THREADS 0) 0 0 0 0.

Definition set_threads (s : Scheduler) (l : list ThreadSlot) : Scheduler := mkScheduler l (queues s) (cpu_count s) (initialized s).
Definition set_queues (s : Scheduler) (l : list RunQueue) : Scheduler := mkScheduler (threads s) l (cpu_count s) (initialized s).
Definition set_queue (s : Scheduler) (cpu : nat) (q : RunQueue) : Scheduler := set_queues s (<[cpu := q]> (queues s)).
Definition set_stat (s : Scheduler) (i : nat) (t : ThreadStat) : Scheduler := set_threads s (<[i := mkSlot t true]> (threads s)).

Definition slot_at (s : Scheduler) (i : nat) : ThreadSlot := nth i (threads s) empty_slot.
Definition thread_at (s : Scheduler) (i : nat) : ThreadStat := stat_of (slot_at s i).
Definition queue_at (s : Scheduler) (cpu : nat) : RunQueue := nth cpu (queues s) empty_queue.

(** Changes of single fields. *)
Definition with_state (t : ThreadStat) (st : State) : ThreadStat :=
  mkStat (id t) st (priority t) (affinity t) (home_cpu t) (last_cpu t) (dispatches t) (migrations t).
Definition with_priority (t : ThreadStat) (p : Z) : ThreadStat :=
  mkStat (id t) (state t) p (affinity t) (home_cpu t) (last_cpu t) (dispatches t) (migrations t).
Definition with_affinity (t : ThreadStat) (mask : Z) : ThreadStat :=
  mkStat (id t) (state t) (priority t) mask (home_cpu t) (last_cpu t) (dispatches t) (migrations t).
(** A migration to [cpu]. *)
Definition with_home (t : ThreadStat) (cpu : nat) : ThreadStat :=
  mkStat (id t) (state t) (priority t) (affinity t) cpu (last_cpu t) (dispatches t) (u64 (migrations t + 1)).
(** The reservation of a selected thread. *)
Definition with_dispatch (t : ThreadStat) (cpu : nat) : ThreadStat :=
  mkStat (id t) Running (priority t) (affinity t) (home_cpu t) cpu (u64 (dispatches t + 1)) (migrations t).

Definition with_cursor (q : RunQueue) (c : nat) : RunQueue := mkQueue (ids q) (count q) c (q_dispatches q) (steals q).

(** ** Helpers *)

Definition mask_for_cpu (cpu : nat) : Z := if (cpu <? MAX_CPUS)%nat then Z.shiftl 1 (Z.of_nat cpu) else 0.

Definition online_mask_unlocked (s : Scheduler) : Z :=
  if negb (initialized s) || (cpu_count s =? 0)%nat then 0
  else if (cpu_count s =? MAX_CPUS)%nat then UINT64_MAX else Z.shiftl 1 (Z.of_nat (cpu_count s)) - 1.

Definition cpu_allowed (s : Scheduler) (mask : Z) (cpu : nat) : bool :=
  (cpu <? cpu_count s)%nat && negb (Z.land mask (mask_for_cpu cpu) =? 0).

Definition find_thread (s : Scheduler) (thread : Z) : option nat :=
  if thread =? INVALID_THREAD_ID then None else find_index (fun slot => used slot && (id (stat_of slot) =? thread)) (threads s).

Definition queue_contains (q : RunQueue) (thread : Z) : bool := existsb (fun x => x =? thread) (take (count q) (ids q)).

Definition queue_add (s : Scheduler) (cpu : nat) (thread : Z) : Scheduler * Status :=
  if negb (cpu <? cpu_count s)%nat then (s, InvalidCpu)
  else
    let q := queue_at s cpu in
    if queue_contains q thread then (s, Ok)
    else if (MAX_SCHEDULABLE_THREADS <=? count q)%nat then (s, QueueFull)
    else
      let n := S (count q) in
      (set_queue s cpu (mkQueue (<[count q := thread]> (ids q)) n (if (n =? 1)%nat then 0%nat else cursor q) (q_dispatches q) (steals q)), Ok).

(** [n] rounds of the loop that moves the elements behind [i] one place down. *)
Fixpoint shift_down (n i : nat) (l : list Z) : list Z :=
  match n with
  | O => l
  | S n' => shift_down n' (S i) (<[i := nth (S i) l 0]> l)
  end.

Definition remove_at (q : RunQueue) (i : nat) : RunQueue :=
  let n := (count q - 1)%nat in
  mkQueue (shift_down (n - i) i (ids q)) n
    (if (n =? 0)%nat then 0%nat else if (n <=? cursor q)%nat then (cursor q mod n)%nat else cursor q) (q_dispatches q) (steals q).

Definition queue_remove (s : Scheduler) (cpu : nat) (thread : Z) : Scheduler :=
  if negb (cpu <? cpu_count s)%nat then s
  else
    let q := queue_at s cpu in
    match find_index (fun x => x =? thread) (take (count q) (ids q)) with
    | Some i => set_queue s cpu (remove_at q i)
    | None => s
    end.

(** The loop of [choose_home] over the processors [cpus]. *)
Fixpoint least_loaded (s : Scheduler) (mask : Z) (cpus : list nat) (best : option nat) (load : nat) : option nat :=
  match cpus with
  | [] => best
  | cpu :: cpus =>
      if cpu_allowed s mask cpu && (count (queue_at s cpu) <? load)%nat
      then least_loaded s mask cpus (Some cpu) (count (queue_at s cpu)) else least_loaded s mask cpus best load
  end.

Definition choose_home (s : Scheduler) (mask : Z) (preferred_cpu : nat) : option nat :=
  if (preferred_cpu <? cpu_count s)%nat && cpu_allowed s mask preferred_cpu then Some preferred_cpu
  else least_loaded s mask (seq 0 (cpu_count s)) None (S MAX_SCHEDULABLE_THREADS).

(** The thread of a queue's element, when [cpu] may run it now. *)
Definition runnable (s : Scheduler) (cpu : nat) (excluded thread : Z) : option nat :=
  if thread =? excluded then None
  else
    match find_thread s thread with
    | None => None
    | Some i => let t := thread_at s i in if bool_decide (state t = Ready) && cpu_allowed s (affinity t) cpu then Some i else None
    end.

(** One element of a selection: the index of the thread, a place, and the priority. *)
Definition better {A : Type} (best : option (nat * A * Z)) (i : nat) (place : A) (p : Z) : option (nat * A * Z) :=
  match best with
  | None => Some (i, place, p)
  | Some (_, _, p') => if p' <? p then Some (i, place, p) else best
  end.

(** The loop over a queue from the cursor on. *)
Fixpoint select_loop (s : Scheduler) (cpu : nat) (excluded : Z) (q : RunQueue) (offsets : list nat) (best : option (nat * nat * Z))
  : option (nat * nat * Z) :=
  match offsets with
  | [] => best
  | offset :: offsets =>
      let place := ((cursor q + offset) mod count q)%nat in
      select_loop s cpu excluded q offsets
        (match runnable s cpu excluded (nth place (ids q) 0) with
         | Some i => better best i place (priority (thread_at s i))
         | None => best
         end)
  end.

Definition select_from_queue (s : Scheduler) (cpu : nat) (excluded : Z) : Scheduler * option nat :=
  let q := queue_at s cpu in
  if (count q =? 0)%nat then (s, None)
  else
    match select_loop s cpu excluded q (seq 0 (count q)) None with
    | Some (i, place, _) => (set_queue s cpu (with_cursor q (S place mod count q)), Some i)
    | None => (s, None)
    end.

Fixpoint steal_loop (s : Scheduler) (destination : nat) (excluded : Z) (cpus : list nat) (best : option (nat * nat * Z))
  : option (nat * nat * Z) :=
  match cpus with
  | [] => best
  | cpu :: cpus =>
      steal_loop s destination excluded cpus
        (if (cpu =? destination)%nat then best
         else let q := queue_at s cpu in select_loop s destination excluded q (seq 0 (count q)) best)
  end.

Definition select_steal_candidate (s : Scheduler) (destination : nat) (excluded : Z) : option nat :=
  (fun best => fst (fst best)) <$> steal_loop s destination excluded (seq 0 (cpu_count s)) None.

(** ** Entry points *)

Definition configure (s : Scheduler) (online_cpus : nat) : Scheduler * Status :=
  if (online_cpus =? 0)%nat || (MAX_CPUS <? online_cpus)%nat then (s, InvalidArgument)
  else (mkScheduler (replicate MAX_SCHEDULABLE_THREADS empty_slot) (replicate MAX_CPUS empty_queue) online_cpus true, Ok).

Definition initialize (s : Scheduler) (online_cpus : nat) : Scheduler * Status :=
  if initialized s then (s, AlreadyInitialized) else configure s online_cpus.

Definition reset (s : Scheduler) (online_cpus : nat) : Scheduler * Status := configure s online_cpus.

(** [for (cpu = first; cpu < first + n; ++cpu) g_queues[cpu] = {};] *)
Definition clear_queues (first n : nat) (l : list RunQueue) : list RunQueue :=
  foldl (fun l cpu => <[cpu := empty_queue]> l) l (seq first n).

Definition expand_cpu_count (s : Scheduler) (online_cpus : nat) : Scheduler * Status :=
  if negb (initialized s) then (s, NotInitialized)
  else if (online_cpus =? 0)%nat || (MAX_CPUS <? online_cpus)%nat || (online_cpus <? cpu_count s)%nat then (s, InvalidArgument)
  else if (online_cpus =? cpu_count s)%nat then (s, Ok)
  else (mkScheduler (threads s) (clear_queues (cpu_count s) (online_cpus - cpu_count s) (queues s)) online_cpus true, Ok).

Definition bad_affinity (s : Scheduler) (mask : Z) : bool :=
  let valid_affinity := Z.land mask (online_mask_unlocked s) in (valid_affinity =? 0) || negb (valid_affinity =? mask).

Definition register_thread (s : Scheduler) (thread prio mask : Z) (preferred_cpu : nat) : Scheduler * Status :=
  if negb (initialized s) then (s, NotInitialized)
  else if (thread =? INVALID_THREAD_ID) || (MAX_PRIORITY <? prio) then (s, InvalidArgument)
  else if bad_affinity s mask then (s, InvalidAffinity)
  else if find_thread s thread then (s, AlreadyExists)
  else
    match find_index (fun slot => negb (used slot)) (threads s) with
    | None => (s, CapacityReached)
    | Some free_slot =>
        match choose_home s mask preferred_cpu with
        | None => (s, InvalidAffinity)
        | Some home =>
            let '(s, status) := queue_add s home thread in
            if negb (bool_decide (status = Ok)) then (s, QueueFull)
            else (set_stat s free_slot (mkStat thread Ready prio mask home MAX_CPUS 0 0), Ok)
        end
    end.

Definition unregister_thread (s : Scheduler) (thread : Z) : Scheduler * Status :=
  if negb (initialized s) then (s, NotInitialized)
  else
    match find_thread s thread with
    | None => (s, NotFound)
    | Some i =>
        let s := queue_remove s (home_cpu (thread_at s i)) thread in
        (set_threads s (<[i := empty_slot]> (threads s)), Ok)
    end.

Definition set_state (s : Scheduler) (thread : Z) (st : State) : Scheduler * Status :=
  if negb (initialized s) then (s, NotInitialized)
  else
    match find_thread s thread with
    | None => (s, NotFound)
    | Some i => (set_stat s i (with_state (thread_at s i) st), Ok)
    end.

Definition set_affinity (s : Scheduler) (thread mask : Z) : Scheduler * Status :=
  if negb (initialized s) then (s, NotInitialized)
  else if bad_affinity s mask then (s, InvalidAffinity)
  else
    match find_thread s thread with
    | None => (s, NotFound)
    | Some i =>
        let t := with_affinity (thread_at s i) mask in
        let s := set_stat s i t in
        if cpu_allowed s mask (home_cpu t) then (s, Ok)
        else
          match choose_home s mask MAX_CPUS with
          | None => (s, InvalidAffinity)
          | Some destination =>
              let previous := home_cpu t in
              let s := queue_remove s previous thread in
              let '(s, add_status) := queue_add s destination thread in
              if negb (bool_decide (add_status = Ok)) then
                let s := fst (queue_add s previous thread) in
                (set_stat s i (with_affinity t (Z.lor mask (mask_for_cpu previous))), add_status)
              else (set_stat s i (with_home t destination), Ok)
          end
    end.

Definition set_priority (s : Scheduler) (thread prio : Z) : Scheduler * Status :=
  if negb (initialized s) then (s, NotInitialized)
  else if MAX_PRIORITY <? prio then (s, InvalidArgument)
  else
    match find_thread s thread with
    | None => (s, NotFound)
    | Some i => (set_stat s i (with_priority (thread_at s i) prio), Ok)
    end.

(** The part of [pick_next] that takes a thread from another processor: the thread
    selected afterwards, or the status to return. *)
Definition steal (s : Scheduler) (cpu : nat) (excluded : Z) : Scheduler * (option nat + Status) :=
  match select_steal_candidate s cpu excluded with
  | None => (s, inl None)
  | Some i =>
      let t := thread_at s i in
      let donor := home_cpu t in
      let s := queue_remove s donor (id t) in
      let '(s, add_status) := queue_add s cpu (id t) in
      if negb (bool_decide (add_status = Ok)) then (fst (queue_add s donor (id t)), inr add_status)
      else
        let s := set_stat s i (with_home t cpu) in
        let q := queue_at s cpu in
        let s := set_queue s cpu (mkQueue (ids q) (count q) (cursor q) (q_dispatches q) (u64 (steals q + 1))) in
        let '(s, selected) := select_from_queue s cpu excluded in (s, inl selected)
  end.

(** The reservation of the selected thread. *)
Definition dispatch (s : Scheduler) (cpu i : nat) : Scheduler :=
  let s := set_stat s i (with_dispatch (thread_at s i) cpu) in
  let q := queue_at s cpu in
  set_queue s cpu (mkQueue (ids q) (count q) (cursor q) (u64 (q_dispatches q + 1)) (steals q)).

(** The last component is what is stored in [*out_id]. *)
Definition pick_next (s : Scheduler) (cpu : nat) (excluded : Z) (has_out : bool) : Scheduler * Status * Z :=
  if negb (initialized s) then (s, NotInitialized, INVALID_THREAD_ID)
  else if negb has_out then (s, InvalidArgument, INVALID_THREAD_ID)
  else if negb (cpu <? cpu_count s)%nat then (s, InvalidCpu, INVALID_THREAD_ID)
  else
    let '(s, selected) := select_from_queue s cpu excluded in
    let '(s, selected) := match selected with Some i => (s, inl (Some i)) | None => steal s cpu excluded end in
    match selected with
    | inr status => (s, status, INVALID_THREAD_ID)
    | inl None => (s, NotFound, INVALID_THREAD_ID)
    | inl (Some i) => (dispatch s cpu i, Ok, id (thread_at s i))
    end.

Definition cancel_dispatch (s : Scheduler) (thread : Z) (cpu : nat) : Scheduler * Status :=
  if negb (initialized s) then (s, NotInitialized)
  else if negb (cpu <? cpu_count s)%nat then (s, InvalidCpu)
  else
    match find_thread s thread with
    | None => (s, NotFound)
    | Some i =>
        let t := thread_at s i in
        if negb (bool_decide (state t = Running)) || negb (last_cpu t =? cpu)%nat then (s, InvalidArgument)
        else (set_stat s i (with_state t Ready), Ok)
    end.

Definition stat (s : Scheduler) (thread : Z) (has_out : bool) : Status * option ThreadStat :=
  if negb (initialized s) then (NotInitialized, None)
  else if negb has_out then (InvalidArgument, None)
  else
    match find_thread s thread with
    | None => (NotFound, Some empty_stat)
    | Some i => (Ok, Some (thread_at s i))
    end.

Definition cpu_stat (s : Scheduler) (cpu : nat) (has_out : bool) : Status * option CpuStat :=
  if negb (initialized s) then (NotInitialized, None)
  else if negb has_out then (InvalidArgument, None)
  else if negb (cpu <? cpu_count s)%nat then (InvalidCpu, None)
  else
    let q := queue_at s cpu in
    let ready := length (filter (fun x =>
      Is_true (match find_thread s x with
               | None => false
               | Some i => bool_decide (state (thread_at s i) = Ready) && cpu_allowed s (affinity (thread_at s i)) cpu
               end)) (take (count q) (ids q))) in
    (Ok, Some (mkCpuStat cpu (count q) ready (q_dispatches q) (steals q))).

Definition cpu_count_of (s : Scheduler) : nat := if initialized s then cpu_count s else 0%nat.
Definition online_mask (s : Scheduler) : Z := online_mask_unlocked s.

(** ** Queues *)

(** The elements of a queue. *)
Definition live (q : RunQueue) : list Z := take (count q) (ids q).

Record queue_ok (q : RunQueue) : Prop := {
  qo_ids : length (ids q) = MAX_SCHEDULABLE_THREADS;
  qo_count : (count q <= MAX_SCHEDULABLE_THREADS)%nat;
  qo_cursor : (cursor q < count q)%nat \/ (cursor q = 0)%nat;
  qo_distinct : NoDup (live q) }.

Lemma sched2_live_length q : queue_ok q -> length (live q) = count q.
Proof. intros []. unfold live. rewrite length_take. lia. Qed.

Lemma sched2_empty_queue_ok : queue_ok empty_queue.
Proof. constructor; [done|cbn; lia|by right|apply NoDup_nil_2]. Qed.

Lemma shift_down_eq n : forall i (l : list Z), (i + n < length l)%nat ->
  shift_down n i l = take i l ++ take n (drop (S i) l) ++ drop (i + n) l.
Proof.
  induction n as [|n IH]; intros i l Hl; cbn [shift_down].
  - by rewrite firstn_O, app_nil_l, Nat.add_0_r, take_drop.
  - destruct (lookup_lt_is_Some_2 l (S i)) as [x Hx]; [lia|]. rewrite (nth_lookup_Some _ _ _ _ Hx).
    assert (length (<[i := x]> l) = length l) as Hli by apply length_insert.
    rewrite IH by lia. rewrite (drop_S l x (S i) Hx). rewrite firstn_cons.
    rewrite (take_S_r _ i x) by (apply list_lookup_insert_eq; lia). rewrite take_insert_ge by lia.
    rewrite !drop_insert_lt by lia. rewrite <- app_assoc. cbn [app]. by replace (i + S n)%nat with (S i + n)%nat by lia.
Qed.

Lemma live_remove q i : queue_ok q -> (i < count q)%nat -> live (remove_at q i) = delete i (live q).
Proof.
  intros [H1 H2 _ _] Hi. unfold live, remove_at. cbn [ids count]. rewrite shift_down_eq by lia.
  rewrite delete_take_drop, take_take, Nat.min_l by lia. rewrite take_app_ge by (rewrite length_take; lia).
  rewrite length_take, Nat.min_l by lia. f_equal. rewrite take_app_le by (rewrite length_take, length_drop; lia).
  rewrite take_ge by (rewrite length_take, length_drop; lia). rewrite skipn_firstn_comm. f_equal. lia.
Qed.

Lemma sched2_remove_ok q i : queue_ok q -> (i < count q)%nat -> queue_ok (remove_at q i).
Proof.
  intros Hq Hi. pose proof Hq as [H1 H2 H3 H4]. constructor.
  - unfold remove_at. cbn [ids]. rewrite shift_down_eq by lia. rewrite !length_app, !length_take, !length_drop. lia.
  - unfold remove_at. cbn [count]. lia.
  - unfold remove_at. cbn [count cursor]. destruct (Nat.eqb_spec (count q - 1) 0); [by right|]. left.
    destruct (Nat.leb_spec (count q - 1) (cursor q)); [apply Nat.mod_upper_bound; lia|lia].
  - rewrite live_remove by done. eapply sublist_NoDup; [apply H4|apply sublist_delete].
Qed.

Lemma queue_contains_spec q x : queue_contains q x = true <-> x ∈ live q.
Proof.
  unfold queue_contains, live. rewrite existsb_exists. split.
  - intros (y & Hy & ->%Z.eqb_eq). by apply list_elem_of_In.
  - intros H. exists x. split; [by apply list_elem_of_In|apply Z.eqb_refl].
Qed.

(** ** The invariant *)

Definition has (s : Scheduler) (i : nat) (t : ThreadStat) : Prop := threads s !! i = Some (mkSlot t true).

Record stat_ok (s : Scheduler) (t : ThreadStat) : Prop := {
  to_id : id t ≠ INVALID_THREAD_ID;
  to_priority : priority t <= MAX_PRIORITY;
  to_home : cpu_allowed s (affinity t) (home_cpu t) = true;
  to_mask : bad_affinity s (affinity t) = false }.

Record inv (s : Scheduler) : Prop := {
  iv_threads : length (threads s) = MAX_SCHEDULABLE_THREADS;
  iv_queues : length (queues s) = MAX_CPUS;
  iv_cpus : (0 < cpu_count s <= MAX_CPUS)%nat;
  iv_init : initialized s = true;
  iv_stat : forall i t, has s i t -> stat_ok s t;
  iv_ids : forall i j t t', has s i t -> has s j t' -> id t = id t' -> i = j;
  iv_queue : forall c q, queues s !! c = Some q -> queue_ok q;
  iv_live : forall c x, (c < cpu_count s)%nat -> x ∈ live (queue_at s c) <-> exists i t, has s i t /\ id t = x /\ home_cpu t = c }.

Lemma has_thread_at s i t : has s i t -> thread_at s i = t.
Proof. intros H. unfold thread_at, slot_at. by rewrite (nth_lookup_Some _ _ _ _ H). Qed.

Lemma queue_at_ok s c : inv s -> (c < cpu_count s)%nat -> queues s !! c = Some (queue_at s c) /\ queue_ok (queue_at s c).
Proof.
  intros Hs Hc. destruct (lookup_lt_is_Some_2 (queues s) c) as [q Hq]; [rewrite (iv_queues _ Hs); pose proof (iv_cpus _ Hs); lia|].
  unfold queue_at. rewrite (nth_lookup_Some _ _ _ _ Hq). split; [done|by apply (iv_queue _ Hs c)].
Qed.

Lemma find_thread_some s x i : find_thread s x = Some i -> exists t, has s i t /\ id t = x /\ x ≠ INVALID_THREAD_ID.
Proof.
  unfold find_thread. destruct (Z.eqb_spec x INVALID_THREAD_ID) as [|Hx]; [done|]. intros ((slot & Hi & [Hu He%Z.eqb_eq]%andb_true_iff) & _)%find_index_Some.
  exists (stat_of slot). split_and!; [|done|done]. unfold has. rewrite Hi. destruct slot as [t u]. cbn in *. by subst u.
Qed.

Lemma find_thread_has s i t : inv s -> has s i t -> find_thread s (id t) = Some i.
Proof.
  intros Hs Hi. unfold find_thread. rewrite (proj2 (Z.eqb_neq _ _) (to_id _ _ (iv_stat _ Hs _ _ Hi))).
  destruct (find_index _ _) as [j|] eqn:E.
  - apply find_index_Some in E as ((slot & Hj & [Hu He%Z.eqb_eq]%andb_true_iff) & _). f_equal.
    apply (iv_ids _ Hs j i (stat_of slot) t); [|done|done]. unfold has. rewrite Hj. destruct slot as [t' u]. cbn in *. by subst u.
  - exfalso. pose proof (proj1 (find_index_None _ _) E i _ Hi) as H. cbn in H. by rewrite Z.eqb_refl in H.
Qed.

Lemma online_mask_eq s : initialized s = true -> (0 < cpu_count s <= MAX_CPUS)%nat ->
  online_mask_unlocked s = 2 ^ Z.of_nat (cpu_count s) - 1.
Proof.
  intros Hi Hc. unfold online_mask_unlocked. rewrite Hi. cbn [negb orb].
  destruct (Nat.eqb_spec (cpu_count s) 0); [lia|]. destruct (Nat.eqb_spec (cpu_count s) MAX_CPUS) as [->|]; [done|].
  by rewrite Z.shiftl_1_l.
Qed.

Lemma bad_affinity_iff s mask : initialized s = true -> (0 < cpu_count s <= MAX_CPUS)%nat ->
  bad_affinity s mask = false <-> 0 < mask < 2 ^ Z.of_nat (cpu_count s).
Proof.
  intros Hi Hc. unfold bad_affinity. rewrite online_mask_eq, land_low by (done || lia).
  pose proof (Z.mod_pos_bound mask (2 ^ Z.of_nat (cpu_count s)) ltac:(lia)). split.
  - intros E. lia.
  - intros Hm. rewrite Z.mod_small by lia. lia.
Qed.

Lemma cpu_allowed_iff s mask cpu : (cpu_count s <= MAX_CPUS)%nat ->
  cpu_allowed s mask cpu = true <-> (cpu < cpu_count s)%nat /\ Z.testbit mask (Z.of_nat cpu) = true.
Proof.
  intros Hs. unfold cpu_allowed, mask_for_cpu. destruct (Nat.ltb_spec cpu (cpu_count s)) as [Hc|Hc]; cbn [andb]; [|split; [done|lia]].
  replace (cpu <? MAX_CPUS)%nat with true by (symmetry; apply Nat.ltb_lt; lia). rewrite testbit_land_pow2, negb_involutive by lia.
  split; [intros H; split; [lia|exact H]|by intros [_ ?]].
Qed.

(** A mask of online processors allows one. *)
Lemma allowed_exists s mask : inv s -> bad_affinity s mask = false -> exists cpu, (cpu < cpu_count s)%nat /\ cpu_allowed s mask cpu = true.
Proof.
  intros Hs Hm%bad_affinity_iff; [|apply Hs|apply Hs]. pose proof (iv_cpus _ Hs) as Hc. exists (Z.to_nat (Z.log2 mask)).
  assert (Z.log2 mask < Z.of_nat (cpu_count s)) by (apply Z.log2_lt_pow2; lia). pose proof (Z.log2_nonneg mask).
  split; [lia|]. apply cpu_allowed_iff; [lia|]. split; [lia|]. rewrite Z2Nat.id by lia. apply Z.bit_log2. lia.
Qed.

Lemma least_loaded_ok s mask cpus : forall best load,
  match least_loaded s mask cpus best load with
  | Some c => best = Some c \/ c ∈ cpus /\ cpu_allowed s mask c = true
  | None => best = None /\ forall c, c ∈ cpus -> cpu_allowed s mask c = true -> (load <= count (queue_at s c))%nat
  end.
Proof.
  induction cpus as [|cpu cpus IH]; intros best load; cbn [least_loaded].
  - destruct best; [by left|]. split; [done|]. by intros c ?%elem_of_nil.
  - destruct (cpu_allowed s mask cpu) eqn:Ea; cbn [andb]; [destruct (Nat.ltb_spec (count (queue_at s cpu)) load)|].
    + specialize (IH (Some cpu) (count (queue_at s cpu))). destruct (least_loaded _ _ _ _ _) as [c|]; [|by destruct IH].
      destruct IH as [[= <-]|[? ?]]; right; [split; [left|done]|split; [by right|done]].
    + specialize (IH best load). destruct (least_loaded _ _ _ _ _) as [c|].
      * destruct IH as [?|[? ?]]; [by left|]. right. split; [by right|done].
      * destruct IH as [? IH]. split; [done|]. intros c [->|Hc]%elem_of_cons Hac; [done|by apply IH].
    + specialize (IH best load). destruct (least_loaded _ _ _ _ _) as [c|].
      * destruct IH as [?|[? ?]]; [by left|]. right. split; [by right|done].
      * destruct IH as [? IH]. split; [done|]. intros c [->|Hc]%elem_of_cons Hac; [congruence|by apply IH].
Qed.

(** There is always a home, and the mask allows it. *)
Lemma choose_home_ok s mask preferred : inv s -> bad_affinity s mask = false ->
  exists home, choose_home s mask preferred = Some home /\ cpu_allowed s mask home = true.
Proof.
  intros Hs Hm. unfold choose_home. destruct (_ && cpu_allowed s mask preferred) eqn:E; [apply andb_true_iff in E as [_ E]; by exists preferred|].
  pose proof (least_loaded_ok s mask (seq 0 (cpu_count s)) None (S MAX_SCHEDULABLE_THREADS)) as H. destruct (least_loaded _ _ _ _ _) as [c|].
  - destruct H as [?|[_ H]]; [done|]. by exists c.
  - exfalso. destruct (allowed_exists s mask Hs Hm) as (c & Hc & Ha). destruct H as [_ H]. specialize (H c ltac:(apply elem_of_seq; lia) Ha).
    destruct (queue_at_ok s c Hs Hc) as [_ Hq]. pose proof (qo_count _ Hq). lia.
Qed.

(** ** Every call keeps the invariant *)

Definition queues_ok (s : Scheduler) : Prop := length (queues s) = MAX_CPUS /\ forall c q, queues s !! c = Some q -> queue_ok q.

Lemma inv_queues_ok s : inv s -> queues_ok s.
Proof. intros []. by split. Qed.

(** The threads other than the one in slot [i]. *)
Definition others (s : Scheduler) (i c : nat) (x : Z) : Prop := exists j t, j ≠ i /\ has s j t /\ id t = x /\ home_cpu t = c.

Lemma has_lt s i t : inv s -> has s i t -> (i < MAX_SCHEDULABLE_THREADS)%nat.
Proof. intros Hs H%lookup_lt_Some. by rewrite (iv_threads _ Hs) in H. Qed.

(** Distinct threads outside a slot are fewer than the slots. *)
Lemma capacity s i l : inv s -> (i < MAX_SCHEDULABLE_THREADS)%nat -> NoDup l -> (forall x, x ∈ l -> exists c, others s i c x) ->
  (length l < MAX_SCHEDULABLE_THREADS)%nat.
Proof.
  intros Hs Hi Hd Hl. set (f := fun x => default 0%nat (find_thread s x)).
  assert (forall x, x ∈ l -> exists t, has s (f x) t /\ id t = x /\ f x ≠ i) as Hf.
  { intros x Hx. destruct (Hl x Hx) as (c & j & t & Hj & Ht & <- & _). exists t. unfold f. by rewrite (find_thread_has s j t Hs Ht). }
  assert (NoDup (i :: (f <$> l))) as Hnd.
  { constructor.
    - intros (x & -> & Hx)%list_elem_of_fmap. destruct (Hf x Hx) as (_ & _ & _ & H). done.
    - apply NoDup_fmap_2_strong; [|done]. intros x y Hx Hy E. destruct (Hf x Hx) as (t & H1 & <- & _), (Hf y Hy) as (t' & H2 & <- & _).
      rewrite E in H1. unfold has in *. congruence. }
  assert (i :: (f <$> l) ⊆+ seq 0 MAX_SCHEDULABLE_THREADS) as Hsub.
  { apply NoDup_submseteq; [done|]. intros j Hj. apply elem_of_seq. apply elem_of_cons in Hj as [->|(x & -> & Hx)%list_elem_of_fmap]; [lia|].
    destruct (Hf x Hx) as (t & Ht & _). apply has_lt in Ht; [lia|done]. }
  apply submseteq_length in Hsub. cbn [length] in Hsub. rewrite length_fmap, length_seq in Hsub. lia.
Qed.

Lemma queue_at_set s c q c' : (c < length (queues s))%nat -> queue_at (set_queue s c q) c' = if decide (c' = c) then q else queue_at s c'.
Proof.
  intros Hc. unfold queue_at, set_queue, set_queues. cbn [queues]. destruct (decide (c' = c)) as [->|Hne].
  - apply nth_lookup_Some. by apply list_lookup_insert_eq.
  - rewrite !nth_lookup. by rewrite list_lookup_insert_ne.
Qed.

Lemma queues_ok_set s c q : queues_ok s -> queue_ok q -> queues_ok (set_queue s c q).
Proof.
  intros [H1 H2] Hq. split; [cbn; by rewrite length_insert|]. intros c' q' [(-> & -> & _)|(_ & H)]%list_lookup_insert_Some; [done|by apply (H2 c')].
Qed.

(** Adding a thread that is not in the queue. *)
Lemma queue_add_ok s cpu x : queues_ok s -> (cpu < cpu_count s <= MAX_CPUS)%nat -> x ∉ live (queue_at s cpu) ->
  (length (live (queue_at s cpu)) < MAX_SCHEDULABLE_THREADS)%nat ->
  exists l, queue_add s cpu x = (set_queues s l, Ok) /\ queues_ok (set_queues s l) /\
    forall c y, y ∈ live (queue_at (set_queues s l) c) <-> y ∈ live (queue_at s c) \/ c = cpu /\ y = x.
Proof.
  intros Hq Hcpu Hx Hlen. pose proof Hq as [H1 H2]. unfold queue_add. replace (cpu <? cpu_count s)%nat with true by (symmetry; apply Nat.ltb_lt; lia). cbn [negb].
  assert (queue_ok (queue_at s cpu)) as Hok.
  { destruct (lookup_lt_is_Some_2 (queues s) cpu) as [q E]; [lia|]. unfold queue_at. rewrite (nth_lookup_Some _ _ _ _ E). by apply (H2 cpu). }
  rewrite sched2_live_length in Hlen by done. set (q := queue_at s cpu) in *.
  destruct (queue_contains q x) eqn:E; [by apply queue_contains_spec in E|]. replace (_ <=? count q)%nat with false by (symmetry; apply Nat.leb_gt; lia).
  match goal with |- context [set_queue s cpu ?q'] => set (q1 := q') end. assert (live q1 = live q ++ [x]) as El.
  { unfold live, q1. cbn [ids count]. rewrite (take_S_r _ _ x) by (apply list_lookup_insert_eq; rewrite (qo_ids _ Hok); lia).
    by rewrite take_insert_ge by lia. }
  assert (queue_ok q1) as Hq1.
  { destruct Hok as [K1 K2 K3 K4]. constructor.
    - unfold q1. cbn [ids]. by rewrite length_insert.
    - unfold q1. cbn [count]. lia.
    - unfold q1. cbn [count cursor]. destruct (Nat.eqb_spec (S (count q)) 1); [by right|]. left. lia.
    - rewrite El. apply NoDup_app. split_and!; [done| |by apply NoDup_singleton]. intros y Hy ->%list_elem_of_singleton. done. }
  exists (<[cpu := q1]> (queues s)). split; [done|]. split; [by apply queues_ok_set|]. intros c y.
  change (set_queues s (<[cpu := q1]> (queues s))) with (set_queue s cpu q1). rewrite queue_at_set by lia. destruct (decide (c = cpu)) as [->|Hne].
  - rewrite El, elem_of_app, list_elem_of_singleton. naive_solver.
  - naive_solver.
Qed.

(** Removing a thread from its queue leaves the others. *)
Lemma queue_remove_ok s i t : inv s -> has s i t ->
  exists l, queue_remove s (home_cpu t) (id t) = set_queues s l /\ queues_ok (set_queues s l) /\
    forall c y, (c < cpu_count s)%nat -> y ∈ live (queue_at (set_queues s l) c) <-> others s i c y.
Proof.
  intros Hs Ht. pose proof (iv_stat _ Hs _ _ Ht) as Hok. pose proof (iv_cpus _ Hs) as Hcpus.
  assert (home_cpu t < cpu_count s)%nat as Hhome by (apply (cpu_allowed_iff s (affinity t)), Hok; lia).
  destruct (queue_at_ok s _ Hs Hhome) as [Hq1 Hq2]. unfold queue_remove. rewrite (proj2 (Nat.ltb_lt _ _) Hhome). cbn [negb].
  set (q := queue_at s (home_cpu t)) in *. change (take (count q) (ids q)) with (live q).
  assert (id t ∈ live q) as Hin by (apply (iv_live _ Hs); [done|by exists i, t]).
  assert (forall c y, (c < cpu_count s)%nat -> others s i c y <-> y ∈ live (queue_at s c) /\ y ≠ id t) as Hoth.
  { intros c y Hc. rewrite (iv_live _ Hs) by done. split.
    - intros (j & t' & Hj & Ht' & <- & <-). split; [by exists j, t'|]. intros E. by destruct (Hj (iv_ids _ Hs _ _ _ _ Ht' Ht E)).
    - intros [(j & t' & Ht' & <- & <-) Hne]. exists j, t'. split_and!; try done. intros ->. unfold has in *. congruence. }
  destruct (find_index _ (live q)) as [k|] eqn:E.
  - apply find_index_Some in E as ((y & Hk & ->%Z.eqb_eq) & _). pose proof (lookup_lt_Some _ _ _ Hk) as Hlt. rewrite sched2_live_length in Hlt by done.
    exists (<[home_cpu t := remove_at q k]> (queues s)). split; [done|]. split; [apply queues_ok_set; [by apply inv_queues_ok|by apply sched2_remove_ok]|].
    intros c y Hc. change (set_queues s ?l) with (set_queue s (home_cpu t) (remove_at q k)). rewrite Hoth by done.
    rewrite queue_at_set by (rewrite (iv_queues _ Hs); lia). destruct (decide (c = home_cpu t)) as [->|Hne].
    + fold q. rewrite live_remove by done. pose proof (qo_distinct _ Hq2) as Hd. rewrite <- (take_drop_middle _ _ _ Hk) in Hd.
      rewrite delete_take_drop. rewrite <- (take_drop_middle _ _ _ Hk) at 3. rewrite !elem_of_app, elem_of_cons.
      apply NoDup_app in Hd as (_ & D1 & D2). apply NoDup_cons in D2 as [D2 _]. specialize (D1 (id t)). split.
      * intros [H|H]; (split; [by auto|]); intros ->; [apply (D1 H); by left|done].
      * intros [[H|[->|H]] Hne]; [by left|done|by right].
    + split; [|by intros [? _]]. intros H. split; [done|]. intros ->. apply (iv_live _ Hs) in H as (j & t' & Ht' & E & <-); [|done].
      pose proof (iv_ids _ Hs _ _ _ _ Ht' Ht E) as ->. unfold has in *. congruence.
  - exfalso. apply list_elem_of_lookup in Hin as [k Hk]. pose proof (proj1 (find_index_None _ _) E k _ Hk) as H. cbn beta in H. by rewrite Z.eqb_refl in H.
Qed.

Lemma stat_ok_same s s' t : cpu_count s' = cpu_count s -> initialized s' = initialized s -> stat_ok s t -> stat_ok s' t.
Proof.
  intros E1 E2 []. constructor; try done; unfold cpu_allowed, bad_affinity, online_mask_unlocked in *; by rewrite ?E1, ?E2.
Qed.

(** A call that changes one slot and the queues. *)
Lemma inv_update s s' i slot : inv s -> (i < MAX_SCHEDULABLE_THREADS)%nat ->
  cpu_count s' = cpu_count s -> initialized s' = initialized s -> threads s' = <[i := slot]> (threads s) -> queues_ok s' ->
  (used slot = true -> stat_ok s (stat_of slot) /\ forall j t, j ≠ i -> has s j t -> id t ≠ id (stat_of slot)) ->
  (forall c x, (c < cpu_count s)%nat -> x ∈ live (queue_at s' c) <->
     others s i c x \/ used slot = true /\ id (stat_of slot) = x /\ home_cpu (stat_of slot) = c) ->
  inv s'.
Proof.
  intros Hs Hi E1 E2 E3 [Q1 Q2] Hslot Hlive.
  assert (forall j t, has s' j t <-> j = i /\ slot = mkSlot t true \/ j ≠ i /\ has s j t) as Hhas.
  { intros j t. unfold has. rewrite E3, list_lookup_insert_Some, (iv_threads _ Hs). naive_solver. }
  constructor.
  - by rewrite E3, length_insert, (iv_threads _ Hs).
  - done.
  - rewrite E1. apply Hs.
  - rewrite E2. apply Hs.
  - intros j t [(-> & ->)|[_ H]]%Hhas; apply (stat_ok_same s); try done; [by apply Hslot|by apply (iv_stat _ Hs j)].
  - intros j k t t' [(-> & ->)|[Hj H]]%Hhas [(-> & E)|[Hk H']]%Hhas Eid; [done| | |by apply (iv_ids _ Hs j k t t')].
    + exfalso. by apply (proj2 (Hslot eq_refl) k t').
    + subst slot. exfalso. by apply (proj2 (Hslot eq_refl) j t).
  - done.
  - intros c x Hc. rewrite E1 in Hc. rewrite Hlive by done. split.
    + intros [(j & t & Hj & Ht & Ex & Eh)|(Hu & Ex & Eh)]; [exists j, t; split_and!; [apply Hhas; by right|done|done]|].
      exists i, (stat_of slot). split_and!; [|done|done]. apply Hhas. left. split; [done|]. destruct slot as [t u]. cbn in *. by subst u.
    + intros (j & t & [(-> & ->)|[Hj Ht]]%Hhas & Ex & Eh); [by right|]. left. by exists j, t.
Qed.

(** A change of a thread that keeps its name and its home. *)
Lemma inv_set_stat s i t t' : inv s -> has s i t -> id t' = id t -> home_cpu t' = home_cpu t -> stat_ok s t' -> inv (set_stat s i t').
Proof.
  intros Hs Ht E1 E2 Hok. refine (inv_update s (set_stat s i t') i (mkSlot t' true) Hs (has_lt s i t Hs Ht) eq_refl eq_refl eq_refl (inv_queues_ok s Hs) _ _).
  - intros _. split; [done|]. cbn [stat_of]. intros j tj Hj Htj E. apply Hj. by apply (iv_ids _ Hs j i tj t); [| |congruence].
  - intros c x Hc. change (queue_at (set_stat s i t') c) with (queue_at s c). rewrite (iv_live _ Hs) by done. cbn [used stat_of]. split.
    + intros (j & tj & Hj & Ex & Eh). destruct (decide (j = i)) as [->|Hne]; [|left; by exists j, tj].
      right. unfold has in *. split_and!; [done|congruence|congruence].
    + intros [(j & tj & _ & Hj & Ex & Eh)|(_ & Ex & Eh)]; [by exists j, tj|]. exists i, t. split_and!; [done|congruence|congruence].
Qed.

Lemma inv_set_queue s c q : inv s -> (c < cpu_count s)%nat -> queue_ok q -> live q = live (queue_at s c) -> inv (set_queue s c q).
Proof.
  intros Hs Hc Hq El. destruct (queues_ok_set s c q (inv_queues_ok s Hs) Hq) as [Q1 Q2]. pose proof (iv_cpus _ Hs) as Hcpus.
  refine (Build_inv (set_queue s c q) (iv_threads s Hs) Q1 Hcpus (iv_init s Hs) _ (iv_ids s Hs) Q2 _).
  - intros i t Ht. by apply (stat_ok_same s), (iv_stat s Hs i).
  - intros c' x Hc'. rewrite queue_at_set by (rewrite (iv_queues _ Hs); lia). rewrite <- (iv_live s Hs c' x Hc').
    destruct (decide (c' = c)) as [->|]; [by rewrite El|done].
Qed.

Lemma with_state_ok s t st : stat_ok s t -> stat_ok s (with_state t st).
Proof. by intros []. Qed.

Lemma set_state_inv s x st : inv s -> inv (fst (set_state s x st)).
Proof.
  intros Hs. unfold set_state. destruct (negb _); [done|]. destruct (find_thread s x) as [i|] eqn:E; [|done].
  destruct (find_thread_some _ _ _ E) as (t & Ht & _). rewrite (has_thread_at _ _ _ Ht).
  eapply inv_set_stat; [done|exact Ht|done|done|]. by apply with_state_ok, (iv_stat _ Hs i).
Qed.

Lemma sched2_cancel_inv s x cpu : inv s -> inv (fst (cancel_dispatch s x cpu)).
Proof.
  intros Hs. unfold cancel_dispatch. do 2 (destruct (negb _); [done|]). destruct (find_thread s x) as [i|] eqn:E; [|done].
  destruct (find_thread_some _ _ _ E) as (t & Ht & _). cbv zeta. rewrite (has_thread_at _ _ _ Ht). destruct (_ || _); [done|].
  eapply inv_set_stat; [done|exact Ht|done|done|]. by apply with_state_ok, (iv_stat _ Hs i).
Qed.

Lemma set_priority_inv s x p : inv s -> inv (fst (set_priority s x p)).
Proof.
  intros Hs. unfold set_priority. destruct (negb _); [done|]. destruct (Z.ltb_spec MAX_PRIORITY p); [done|].
  destruct (find_thread s x) as [i|] eqn:E; [|done]. destruct (find_thread_some _ _ _ E) as (t & Ht & _). rewrite (has_thread_at _ _ _ Ht).
  eapply inv_set_stat; [done|exact Ht|done|done|]. pose proof (iv_stat _ Hs i t Ht) as []. by constructor.
Qed.

(** Moving a thread to the queue of another processor. *)
Lemma move_ok s i t cpu : inv s -> has s i t -> (cpu < cpu_count s)%nat -> exists l,
  queue_add (queue_remove s (home_cpu t) (id t)) cpu (id t) = (set_queues s l, Ok) /\ queues_ok (set_queues s l) /\
  forall c y, (c < cpu_count s)%nat -> y ∈ live (queue_at (set_queues s l) c) <-> others s i c y \/ c = cpu /\ y = id t.
Proof.
  intros Hs Ht Hcpu. pose proof (iv_cpus _ Hs) as Hcpus. destruct (queue_remove_ok s i t Hs Ht) as (l1 & E1 & Q1 & L1). rewrite E1.
  destruct (queue_add_ok (set_queues s l1) cpu (id t)) as (l2 & E2 & Q2 & L2); [done|cbn; lia| | |].
  - intros (j & t' & Hj & Ht' & E & _)%L1; [|done]. apply Hj. by apply (iv_ids _ Hs j i t' t).
  - apply (capacity s i); [done|by apply (has_lt s i t)| |].
    + destruct Q1 as [Q1 Q1']. destruct (lookup_lt_is_Some_2 l1 cpu) as [q Hq]; [cbn in Q1; lia|]. unfold queue_at. cbn [queues set_queues].
      rewrite (nth_lookup_Some _ _ _ _ Hq). by apply (qo_distinct q), (Q1' cpu).
    + intros x Hx%L1; [|done]. by exists cpu.
  - exists l2. split; [exact E2|]. split; [exact Q2|]. intros c y Hc. change (set_queues s l2) with (set_queues (set_queues s l1) l2).
    rewrite L2, L1 by done. done.
Qed.

Lemma move_inv s i t cpu l t' : inv s -> has s i t -> (cpu < cpu_count s)%nat -> queues_ok (set_queues s l) ->
  (forall c y, (c < cpu_count s)%nat -> y ∈ live (queue_at (set_queues s l) c) <-> others s i c y \/ c = cpu /\ y = id t) ->
  id t' = id t -> home_cpu t' = cpu -> stat_ok s t' -> inv (set_stat (set_queues s l) i t').
Proof.
  intros Hs Ht Hcpu Hq Hl E1 E2 Hok. refine (inv_update s (set_stat (set_queues s l) i t') i (mkSlot t' true) Hs (has_lt s i t Hs Ht) eq_refl eq_refl eq_refl Hq _ _).
  - intros _. split; [done|]. cbn [stat_of]. intros j tj Hj Htj E. apply Hj. by apply (iv_ids _ Hs j i tj t); [| |congruence].
  - intros c x Hc. change (queue_at (set_stat (set_queues s l) i t') c) with (queue_at (set_queues s l) c). rewrite Hl by done. cbn [used stat_of].
    rewrite E1, E2. naive_solver.
Qed.

Lemma home_lt s i t : inv s -> has s i t -> (home_cpu t < cpu_count s)%nat.
Proof. intros Hs Ht. pose proof (iv_cpus _ Hs). apply (cpu_allowed_iff s (affinity t)); [lia|]. apply (to_home _ _ (iv_stat _ Hs i t Ht)). Qed.

Lemma move_inv_ok s i t cpu t' : inv s -> has s i t -> (cpu < cpu_count s)%nat ->
  id t' = id t -> home_cpu t' = cpu -> stat_ok s t' -> exists l,
  queue_add (queue_remove s (home_cpu t) (id t)) cpu (id t) = (set_queues s l, Ok) /\ inv (set_stat (set_queues s l) i t').
Proof.
  intros Hs Ht Hcpu E1 E2 Hok. destruct (move_ok s i t cpu Hs Ht Hcpu) as (l & E & Hq & Hl). exists l. split; [exact E|].
  by apply (move_inv s i t cpu).
Qed.

Lemma set_stat_stat s i t t' : set_stat (set_stat s i t) i t' = set_stat s i t'.
Proof. unfold set_stat, set_threads. cbn. f_equal. apply list_insert_insert_eq. Qed.

(** What happens to the queues does not depend on the table of threads. *)
Lemma queue_remove_stat s i t cpu x : queue_remove (set_stat s i t) cpu x = set_stat (queue_remove s cpu x) i t.
Proof.
  unfold queue_remove. change (cpu_count (set_stat s i t)) with (cpu_count s). destruct (negb _); [done|].
  change (queue_at (set_stat s i t) cpu) with (queue_at s cpu). cbv zeta. by destruct (find_index _ _).
Qed.

Lemma queue_add_stat s i t cpu x : queue_add (set_stat s i t) cpu x = let '(s', e) := queue_add s cpu x in (set_stat s' i t, e).
Proof.
  unfold queue_add. change (cpu_count (set_stat s i t)) with (cpu_count s). destruct (negb _); [done|].
  change (queue_at (set_stat s i t) cpu) with (queue_at s cpu). cbv zeta. destruct (queue_contains _ _); [done|].
  by destruct (_ <=? _)%nat.
Qed.

Lemma choose_home_stat s i t mask preferred : choose_home (set_stat s i t) mask preferred = choose_home s mask preferred.
Proof.
  unfold choose_home. change (cpu_allowed (set_stat s i t)) with (cpu_allowed s). change (cpu_count (set_stat s i t)) with (cpu_count s).
  destruct (_ && _); [done|]. generalize (S MAX_SCHEDULABLE_THREADS), (@None nat). induction (seq 0 (cpu_count s)) as [|c l IH]; intros n o; [done|].
  cbn [least_loaded]. change (cpu_allowed (set_stat s i t)) with (cpu_allowed s). change (queue_at (set_stat s i t)) with (queue_at s).
  by destruct (_ && _).
Qed.

Lemma set_affinity_inv s x mask : inv s -> inv (fst (set_affinity s x mask)).
Proof.
  intros Hs. unfold set_affinity. destruct (negb _); [done|]. destruct (bad_affinity s mask) eqn:Em; [done|].
  destruct (find_thread s x) as [i|] eqn:E; [|done]. destruct (find_thread_some _ _ _ E) as (t & Ht & <- & _). cbv zeta. rewrite (has_thread_at _ _ _ Ht).
  pose proof (iv_stat _ Hs i t Ht) as [T1 T2 T3 T4]. set (t1 := with_affinity t mask).
  change (cpu_allowed (set_stat s i t1)) with (cpu_allowed s). rewrite choose_home_stat.
  destruct (cpu_allowed s mask (home_cpu t1)) eqn:Ea.
  { eapply inv_set_stat; [done|exact Ht|done|done|]. by constructor. }
  destruct (choose_home_ok s mask MAX_CPUS Hs Em) as (d & -> & Hd).
  assert (d < cpu_count s)%nat as Hdc by (pose proof (iv_cpus _ Hs); apply (cpu_allowed_iff s mask); [lia|done]).
  destruct (move_inv_ok s i t d (with_home t1 d) Hs Ht Hdc eq_refl eq_refl) as (l & El & Hl); [by constructor|].
  rewrite queue_remove_stat, queue_add_stat. change (home_cpu t1) with (home_cpu t). rewrite El. cbv beta iota.
  change (negb (bool_decide (Ok = Ok))) with false. cbv beta iota. by rewrite set_stat_stat.
Qed.

(** A thread that was not there. *)
Lemma find_thread_none s x i t : find_thread s x = None -> x ≠ INVALID_THREAD_ID -> has s i t -> id t ≠ x.
Proof.
  unfold find_thread. intros H Hx Ht <-. rewrite (proj2 (Z.eqb_neq _ _) Hx) in H.
  pose proof (proj1 (find_index_None _ _) H i _ Ht) as K. cbn in K. by rewrite Z.eqb_refl in K.
Qed.

Lemma unused_others s i slot c x : inv s -> threads s !! i = Some slot -> used slot = false -> (c < cpu_count s)%nat ->
  others s i c x <-> x ∈ live (queue_at s c).
Proof.
  intros Hs Hi Hu Hc. rewrite (iv_live _ Hs) by done. split; [intros (j & t & _ & H); by exists j, t|]. intros (j & t & Hj & H). exists j, t.
  split; [|done]. intros ->. unfold has in Hj. rewrite Hi in Hj. injection Hj as ->. done.
Qed.

Lemma register_inv s x p mask preferred : inv s -> inv (fst (register_thread s x p mask preferred)).
Proof.
  intros Hs. unfold register_thread. destruct (negb _); [done|].
  destruct (Z.eqb_spec x INVALID_THREAD_ID) as [|Hx]; [done|]. destruct (Z.ltb_spec MAX_PRIORITY p) as [|Hp]; [done|]. cbn [orb].
  destruct (bad_affinity s mask) eqn:Em; [done|]. destruct (find_thread s x) eqn:Ef; [done|]. destruct (find_index _ _) as [i|] eqn:Ei; [|done].
  apply find_index_Some in Ei as ((slot & Hi & Hu%negb_true_iff) & _). destruct (choose_home_ok s mask preferred Hs Em) as (h & -> & Hh).
  pose proof (iv_cpus _ Hs) as Hcpus. assert (h < cpu_count s)%nat as Hhc by (apply (cpu_allowed_iff s mask); [lia|done]).
  assert (i < MAX_SCHEDULABLE_THREADS)%nat as Hil by (rewrite <- (iv_threads _ Hs); by apply lookup_lt_Some in Hi).
  destruct (queue_add_ok s h x (inv_queues_ok s Hs)) as (l & -> & Hq & Hl); [lia| | |].
  - intros (j & t & Hj & E & _)%(iv_live _ Hs); [|done]. by apply (find_thread_none s x j t).
  - apply (capacity s i); [done|done|apply (queue_at_ok s h Hs Hhc)|]. intros y Hy. exists h. by apply (unused_others s i slot).
  - cbv beta iota. change (negb (bool_decide (Ok = Ok))) with false. cbv beta iota. set (t1 := mkStat x Ready p mask h MAX_CPUS 0 0).
    refine (inv_update s (set_stat (set_queues s l) i t1) i (mkSlot t1 true) Hs Hil eq_refl eq_refl eq_refl Hq _ _).
    + intros _. split; [by constructor|]. intros j t _ Hj. by apply (find_thread_none s x j t).
    + intros c y Hc. change (queue_at (set_stat (set_queues s l) i t1) c) with (queue_at (set_queues s l) c).
      rewrite Hl, <- (unused_others s i slot) by done. cbn. naive_solver.
Qed.

Lemma unregister_inv s x : inv s -> inv (fst (unregister_thread s x)).
Proof.
  intros Hs. unfold unregister_thread. destruct (negb _); [done|]. destruct (find_thread s x) as [i|] eqn:E; [|done].
  destruct (find_thread_some _ _ _ E) as (t & Ht & <- & _). rewrite (has_thread_at _ _ _ Ht).
  destruct (queue_remove_ok s i t Hs Ht) as (l & -> & Hq & Hl). cbv zeta.
  refine (inv_update s (set_threads (set_queues s l) (<[i := empty_slot]> (threads s))) i empty_slot Hs (has_lt s i t Hs Ht) eq_refl eq_refl eq_refl Hq _ _).
  - done.
  - intros c y Hc. change (queue_at (set_threads ?a ?b) c) with (queue_at a c). rewrite Hl by done. split; [by left|]. by intros [?|[? _]].
Qed.

Lemma no_threads n s i t : threads s = replicate n empty_slot -> ~ has s i t.
Proof. intros E H. unfold has in H. rewrite E in H. by apply lookup_replicate in H as [[=] _]. Qed.

Lemma configure_inv s n : inv (fst (configure s n)) \/ configure s n = (s, InvalidArgument).
Proof.
  unfold configure. destruct (Nat.eqb_spec n 0) as [|H0]; [by right|]. destruct (Nat.ltb_spec MAX_CPUS n) as [|H1]; [by right|]. left. cbn [orb fst].
  set (s0 := mkScheduler _ _ _ _). assert (forall i t, ~ has s0 i t) as Hno by (intros i t; by apply (no_threads MAX_SCHEDULABLE_THREADS)).
  refine (Build_inv s0 eq_refl eq_refl (conj _ H1) eq_refl _ _ _ _).
  - cbn. lia.
  - intros i t H. by destruct (Hno i t).
  - intros i j t t' H. by destruct (Hno i t).
  - intros c q Hq. change (queues s0) with (replicate MAX_CPUS empty_queue) in Hq. apply lookup_replicate in Hq as [-> _]. apply sched2_empty_queue_ok.
  - intros c x Hc. unfold queue_at. change (queues s0) with (replicate MAX_CPUS empty_queue). rewrite (nth_lookup_Some _ _ _ empty_queue) by (apply lookup_replicate_2; cbn in Hc; lia).
    split; [by intros ?%elem_of_nil|]. intros (i & t & H & _). by destruct (Hno i t).
Qed.

Lemma clear_queues_lookup n : forall first l c,
  clear_queues first n l !! c = if decide (first <= c < first + n)%nat then (fun _ => empty_queue) <$> l !! c else l !! c.
Proof.
  induction n as [|n IH]; intros first l c; unfold clear_queues; cbn [seq foldl]; [by destruct (decide _); [lia|]|].
  fold (clear_queues (S first) n (<[first := empty_queue]> l)). rewrite IH. destruct (decide (c = first)) as [->|Hne].
  - destruct (decide (S first <= first < S first + n)%nat); [lia|]. destruct (decide (first <= first < first + S n)%nat); [|lia].
    destruct (l !! first) eqn:E; [by rewrite list_lookup_insert_eq by (by apply lookup_lt_Some in E)|].
    apply lookup_ge_None in E. by rewrite list_insert_ge, (proj2 (lookup_ge_None _ _)) by done.
  - rewrite list_lookup_insert_ne by done. by destruct (decide (S first <= c < S first + n)%nat), (decide (first <= c < first + S n)%nat); try lia.
Qed.

Lemma clear_queues_length n first l : length (clear_queues first n l) = length l.
Proof. unfold clear_queues. revert l. induction (seq first n) as [|c cs IH]; intros l; [done|]. cbn [foldl]. by rewrite IH, length_insert. Qed.

Lemma expand_inv s n : inv s -> inv (fst (expand_cpu_count s n)).
Proof.
  intros Hs. unfold expand_cpu_count. destruct (negb _); [done|]. destruct (Nat.eqb_spec n 0) as [|H0]; [done|].
  destruct (Nat.ltb_spec MAX_CPUS n) as [|H1]; [done|]. destruct (Nat.ltb_spec n (cpu_count s)) as [|H2]; [done|]. cbn [orb].
  destruct (Nat.eqb_spec n (cpu_count s)) as [|H3]; [done|]. cbn [fst]. pose proof (iv_cpus _ Hs) as Hcpus. set (s0 := mkScheduler _ _ _ _).
  assert (forall c, queue_at s0 c = if decide (cpu_count s <= c < n)%nat then empty_queue else queue_at s c) as Hq.
  { intros c. unfold queue_at. rewrite !nth_lookup. change (queues s0) with (clear_queues (cpu_count s) (n - cpu_count s) (queues s)).
    rewrite clear_queues_lookup. replace (cpu_count s + (n - cpu_count s))%nat with n by lia. destruct (decide _); [|done].
    by destruct (queues s !! c). }
  refine (Build_inv s0 (iv_threads s Hs) _ (conj _ H1) eq_refl _ (iv_ids s Hs) _ _).
  - cbn. rewrite clear_queues_length. apply Hs.
  - cbn. lia.
  - intros i t Ht. destruct (iv_stat s Hs i t Ht) as [T1 T2 T3 T4]. constructor; [done|done| |].
    + apply cpu_allowed_iff in T3; [|lia]. apply cpu_allowed_iff; [done|]. cbn. split; [lia|apply T3].
    + apply bad_affinity_iff in T4; [|by apply Hs|done]. apply bad_affinity_iff; [done|cbn; lia|]. cbn. split; [lia|].
      apply (Z.lt_le_trans _ (2 ^ Z.of_nat (cpu_count s))); [lia|]. apply Z.pow_le_mono_r; lia.
  - intros c q. change (queues s0) with (clear_queues (cpu_count s) (n - cpu_count s) (queues s)). rewrite clear_queues_lookup.
    destruct (decide _); [|apply (iv_queue s Hs)]. destruct (queues s !! c); [|done]. intros [= <-]. apply sched2_empty_queue_ok.
  - intros c x Hc. cbn in Hc. change (has s0) with (has s). rewrite Hq. destruct (decide _) as [Hd|Hd]; [|apply (iv_live s Hs); lia].
    split; [by intros ?%elem_of_nil|]. intros (i & t & Ht & _ & <-). pose proof (home_lt s i t Hs Ht). lia.
Qed.

(** ** Selection *)

(** A thread that processor [cpu] may run. *)
Definition eligible (s : Scheduler) (cpu : nat) (excluded : Z) (t : ThreadStat) : Prop :=
  (exists i, has s i t) /\ id t ≠ excluded /\ state t = Ready /\ cpu_allowed s (affinity t) cpu = true.

Lemma runnable_some s cpu ex x i : runnable s cpu ex x = Some i -> exists t, has s i t /\ id t = x /\ eligible s cpu ex t.
Proof.
  unfold runnable. destruct (Z.eqb_spec x ex) as [|Hx]; [done|]. destruct (find_thread s x) as [j|] eqn:E; [|done].
  destruct (find_thread_some _ _ _ E) as (t & Ht & <- & _). cbv zeta. rewrite (has_thread_at _ _ _ Ht).
  destruct (bool_decide _ && _) eqn:E2; [|done]. intros [= <-]. apply andb_true_iff in E2 as [E2%bool_decide_eq_true E3].
  exists t. split_and!; [done|done|]. split_and!; [by exists j|done|done|done].
Qed.

Lemma runnable_eligible s cpu ex i t : inv s -> has s i t -> eligible s cpu ex t -> runnable s cpu ex (id t) = Some i.
Proof.
  intros Hs Ht (_ & Hx & Hr & Ha). unfold runnable. rewrite (proj2 (Z.eqb_neq _ _) Hx), (find_thread_has s i t Hs Ht). cbv zeta.
  by rewrite (has_thread_at _ _ _ Ht), Ha, bool_decide_eq_true_2.
Qed.

(** The element of a queue at an offset from the cursor. *)
Definition place_of (q : RunQueue) (offset : nat) : nat := (cursor q + offset) mod count q.
Definition element (q : RunQueue) (offset : nat) : Z := nth (place_of q offset) (ids q) 0.

(** The loop finds the first of the most important threads: those before it are
    less important, those after it not more. *)
Definition selects (s : Scheduler) (cpu : nat) (ex : Z) (q : RunQueue) (offs : list nat) (i place : nat) (p : Z) : Prop :=
  exists pre o post, offs = pre ++ o :: post /\ place = place_of q o /\ runnable s cpu ex (element q o) = Some i /\ priority (thread_at s i) = p /\
    (forall o' j, o' ∈ pre -> runnable s cpu ex (element q o') = Some j -> priority (thread_at s j) < p) /\
    (forall o' j, o' ∈ post -> runnable s cpu ex (element q o') = Some j -> priority (thread_at s j) <= p).

Definition none_runnable (s : Scheduler) (cpu : nat) (ex : Z) (q : RunQueue) (offs : list nat) : Prop :=
  forall o, o ∈ offs -> runnable s cpu ex (element q o) = None.

Lemma select_loop_spec s cpu ex q offs : forall best,
  match select_loop s cpu ex q offs best with
  | None => best = None /\ none_runnable s cpu ex q offs
  | Some (i, place, p) =>
      best = Some (i, place, p) /\ (forall o j, o ∈ offs -> runnable s cpu ex (element q o) = Some j -> priority (thread_at s j) <= p) \/
      selects s cpu ex q offs i place p /\ (forall i' pl p', best = Some (i', pl, p') -> p' < p)
  end.
Proof.
  induction offs as [|o offs IH]; intros best; cbn [select_loop].
  - destruct best as [[[i pl] p]|]; [left; split; [done|]; by intros o j ?%elem_of_nil|]. split; [done|]. by intros o ?%elem_of_nil.
  - change (nth ((cursor q + o) mod count q) (ids q) 0) with (element q o). change ((cursor q + o) mod count q)%nat with (place_of q o). cbv zeta.
    destruct (runnable s cpu ex (element q o)) as [j|] eqn:Er.
    + set (pj := priority (thread_at s j)). assert (better best j (place_of q o) pj = Some (j, place_of q o, pj) /\
        (forall i' pl p', best = Some (i', pl, p') -> p' < pj) \/ better best j (place_of q o) pj = best /\ exists i' pl p', best = Some (i', pl, p') /\ pj <= p') as Hb.
      { unfold better. destruct best as [[[i' pl] p']|]; [|by left]. destruct (Z.ltb_spec p' pj); [left|right].
        - split; [done|]. by intros ? ? ? [= -> -> ->].
        - split; [done|]. by exists i', pl, p'. }
      specialize (IH (better best j (place_of q o) pj)). destruct (select_loop _ _ _ _ _ _) as [[[i place] p]|].
      * destruct IH as [[E Hle]|[Hsel Hlt]], Hb as [[Eb Hb]|[Eb (i' & pl & p' & Ebest & Hb)]]; rewrite Eb in *.
        -- injection E as <- <- <-. right. split; [|done]. exists [], o, offs. split_and!; try done. by intros o' ? ?%elem_of_nil.
        -- left. split; [done|]. intros o' k [->|Ho]%elem_of_cons Hk; [|by apply (Hle o')]. rewrite Er in Hk. injection Hk as <-.
           rewrite Ebest in E. injection E as -> -> ->. done.
        -- right. specialize (Hlt _ _ _ eq_refl). split; [|intros i' pl p' Hp; specialize (Hb _ _ _ Hp); lia].
           destruct Hsel as (pre & o1 & post & -> & H1 & H2 & H3 & H4 & H5). exists (o :: pre), o1, post. split_and!; try done.
           intros o' k [->|Ho]%elem_of_cons Hk; [|by apply (H4 o')]. rewrite Er in Hk. by injection Hk as <-.
        -- right. pose proof (Hlt _ _ _ Ebest) as Hpp. split; [|done].
           destruct Hsel as (pre & o1 & post & -> & H1 & H2 & H3 & H4 & H5). exists (o :: pre), o1, post. split_and!; try done.
           intros o' k [->|Ho]%elem_of_cons Hk; [|by apply (H4 o')]. rewrite Er in Hk. injection Hk as <-. fold pj. lia.
      * destruct IH as [E _]. destruct Hb as [[Eb _]|[Eb (? & ? & ? & ? & _)]]; congruence.
    + specialize (IH best). destruct (select_loop _ _ _ _ _ _) as [[[i place] p]|].
      * destruct IH as [[E Hle]|[Hsel Hlt]].
        -- left. split; [done|]. intros o' k [->|Ho]%elem_of_cons Hk; [congruence|by apply (Hle o')].
        -- right. split; [|done]. destruct Hsel as (pre & o1 & post & -> & H1 & H2 & H3 & H4 & H5). exists (o :: pre), o1, post. split_and!; try done.
           intros o' k [->|Ho]%elem_of_cons Hk; [congruence|by apply (H4 o')].
      * destruct IH as [-> IH]. split; [done|]. intros o' [->|Ho]%elem_of_cons; [done|by apply IH].
Qed.

Lemma select_loop_max s cpu ex q offs best :
  match select_loop s cpu ex q offs best with
  | None => best = None /\ none_runnable s cpu ex q offs
  | Some (i, place, p) =>
      (best = Some (i, place, p) \/ exists o, o ∈ offs /\ runnable s cpu ex (element q o) = Some i /\ priority (thread_at s i) = p) /\
      (forall o j, o ∈ offs -> runnable s cpu ex (element q o) = Some j -> priority (thread_at s j) <= p) /\
      (forall i' pl p', best = Some (i', pl, p') -> p' <= p)
  end.
Proof.
  pose proof (select_loop_spec s cpu ex q offs best) as H. destruct (select_loop _ _ _ _ _ _) as [[[i pl] p]|]; [|done].
  destruct H as [[-> H]|[(pre & o & post & -> & -> & H1 & H2 & H3 & H4) H]].
  - split_and!; [by left|done|]. by intros ? ? ? [= -> -> ->].
  - split_and!.
    + right. exists o. split; [apply elem_of_app; right; left|done].
    + intros o' j [Ho|[->|Ho]%elem_of_cons]%elem_of_app Hj; [pose proof (H3 o' j Ho Hj); lia| |by apply (H4 o')].
      rewrite H1 in Hj. injection Hj as <-. by rewrite H2.
    + intros i' pl' p' E. specialize (H _ _ _ E). lia.
Qed.

Lemma steal_loop_max s d ex cpus : forall best,
  match steal_loop s d ex cpus best with
  | None => best = None /\ forall c, c ∈ cpus -> c ≠ d -> none_runnable s d ex (queue_at s c) (seq 0 (count (queue_at s c)))
  | Some (i, place, p) =>
      (best = Some (i, place, p) \/ exists c o, c ≠ d /\ runnable s d ex (element (queue_at s c) o) = Some i /\ priority (thread_at s i) = p) /\
      (forall c o j, c ∈ cpus -> c ≠ d -> o ∈ seq 0 (count (queue_at s c)) -> runnable s d ex (element (queue_at s c) o) = Some j -> priority (thread_at s j) <= p) /\
      (forall i' pl p', best = Some (i', pl, p') -> p' <= p)
  end.
Proof.
  induction cpus as [|c cpus IH]; intros best; cbn [steal_loop].
  - destruct best as [[[i pl] p]|]; [|split; [done|]; by intros c ?%elem_of_nil]. split_and!; [by left| |by intros ? ? ? [= -> -> ->]].
    by intros c o j ?%elem_of_nil.
  - destruct (Nat.eqb_spec c d) as [->|Hc].
    + specialize (IH best). destruct (steal_loop _ _ _ _ _) as [[[i pl] p]|].
      * destruct IH as (H1 & H2 & H3). split_and!; [done| |done]. intros c o j [->|Hc]%elem_of_cons Hne; [done|by apply (H2 c)].
      * destruct IH as [H1 H2]. split; [done|]. intros c [->|Hc]%elem_of_cons Hne; [done|by apply H2].
    + cbv zeta. set (q := queue_at s c). pose proof (select_loop_max s d ex q (seq 0 (count q)) best) as Hs.
      specialize (IH (select_loop s d ex q (seq 0 (count q)) best)). destruct (steal_loop _ _ _ _ _) as [[[i pl] p]|].
      * destruct IH as (H1 & H2 & H3). destruct (select_loop _ _ _ _ _ _) as [[[i1 pl1] p1]|].
        -- specialize (H3 _ _ _ eq_refl). destruct Hs as (S1 & S2 & S3). split_and!.
           ++ destruct H1 as [[= -> -> ->]|H1]; [|by right]. destruct S1 as [S1|(o & _ & S1)]; [by left|right; by exists c, o].
           ++ intros c' o j [->|Hc']%elem_of_cons Hne Ho Hj; [specialize (S2 o j Ho Hj); lia|by apply (H2 c' o)].
           ++ intros i' pl' p' E. specialize (S3 _ _ _ E). lia.
        -- destruct Hs as [-> Hs]. split_and!; [by destruct H1 as [|H1]; [|right]| |done].
           intros c' o j [->|Hc']%elem_of_cons Hne Ho Hj; [|by apply (H2 c' o)]. fold q in Ho, Hj. by rewrite (Hs o Ho) in Hj.
      * destruct IH as [E H2]. rewrite E in Hs. destruct Hs as [-> Hs]. split; [done|].
        intros c' [->|Hc']%elem_of_cons Hne; [exact Hs|by apply H2].
Qed.

(** *** The elements of a queue, seen from the cursor *)

Lemma place_of_lt q o : (0 < count q)%nat -> (place_of q o < count q)%nat.
Proof. intros H. unfold place_of. apply Nat.mod_upper_bound. lia. Qed.

Lemma live_nth q k : queue_ok q -> (k < count q)%nat -> live q !! k = Some (nth k (ids q) 0).
Proof.
  intros Hq Hk. unfold live. rewrite lookup_take_lt by done. rewrite nth_lookup.
  destruct (lookup_lt_is_Some_2 (ids q) k) as [x ->]; [|done]. rewrite (qo_ids _ Hq). pose proof (qo_count _ Hq). lia.
Qed.

Lemma element_lookup q o : queue_ok q -> (0 < count q)%nat -> live q !! place_of q o = Some (element q o).
Proof. intros Hq Hc. by apply live_nth, place_of_lt. Qed.

Lemma element_exists q x : queue_ok q -> x ∈ live q -> exists o, o ∈ seq 0 (count q) /\ element q o = x.
Proof.
  intros Hq [k Hk]%list_elem_of_lookup. pose proof (lookup_lt_Some _ _ _ Hk) as Hlt. rewrite sched2_live_length in Hlt by done.
  assert (cursor q < count q)%nat as Hcur by (destruct (qo_cursor _ Hq); lia).
  assert (exists o, (o < count q)%nat /\ place_of q o = k) as (o & Ho & E).
  { unfold place_of. destruct (Nat.leb_spec (cursor q) k).
    - exists (k - cursor q)%nat. split; [lia|]. replace (cursor q + (k - cursor q))%nat with k by lia. apply Nat.mod_small. lia.
    - exists (k + count q - cursor q)%nat. split; [lia|]. replace (cursor q + (k + count q - cursor q))%nat with (k + 1 * count q)%nat by lia.
      rewrite Nat.Div0.mod_add. apply Nat.mod_small. lia. }
  exists o. split; [apply elem_of_seq; lia|]. pose proof (element_lookup q o Hq ltac:(lia)) as El. rewrite E, Hk in El. congruence.
Qed.

(** A thread that may run is found in the queue of its home. *)
Lemma eligible_element s cpu ex t : inv s -> eligible s cpu ex t -> exists i o,
  has s i t /\ o ∈ seq 0 (count (queue_at s (home_cpu t))) /\ runnable s cpu ex (element (queue_at s (home_cpu t)) o) = Some i.
Proof.
  intros Hs He. pose proof He as ((i & Ht) & _). pose proof (home_lt s i t Hs Ht) as Hc. destruct (queue_at_ok s _ Hs Hc) as [_ Hq].
  destruct (element_exists (queue_at s (home_cpu t)) (id t) Hq) as (o & Ho & E); [apply (iv_live s Hs); [done|by exists i, t]|].
  exists i, o. split_and!; [done|done|]. rewrite E. by apply runnable_eligible.
Qed.

Lemma element_home s c o i t : inv s -> (c < cpu_count s)%nat -> (0 < count (queue_at s c))%nat -> has s i t -> element (queue_at s c) o = id t ->
  home_cpu t = c.
Proof.
  intros Hs Hc Hn Ht E. destruct (queue_at_ok s c Hs Hc) as [_ Hq].
  assert (id t ∈ live (queue_at s c)) as Hin by (rewrite <- E; apply list_elem_of_lookup; eexists; by apply element_lookup).
  apply (iv_live s Hs) in Hin as (j & t' & Ht' & Ei & <-); [|done]. pose proof (iv_ids s Hs _ _ _ _ Ht' Ht Ei) as ->.
  unfold has in *. congruence.
Qed.

Lemma with_cursor_ok q c : queue_ok q -> (0 < count q)%nat -> queue_ok (with_cursor q (c mod count q)).
Proof. intros [H1 H2 H3 H4] H. constructor; [done|done| |done]. left. cbn. apply Nat.mod_upper_bound. lia. Qed.

(** The choice among the threads of the processor's own queue. *)
Lemma select_from_queue_ok s cpu ex : inv s -> (cpu < cpu_count s)%nat ->
  match select_from_queue s cpu ex with
  | (s', None) => s' = s /\ forall t, eligible s cpu ex t -> home_cpu t ≠ cpu
  | (s', Some i) => exists t c, has s i t /\ eligible s cpu ex t /\ home_cpu t = cpu /\
      s' = set_queue s cpu (with_cursor (queue_at s cpu) c) /\ inv s' /\
      forall t', eligible s cpu ex t' -> home_cpu t' = cpu -> priority t' <= priority t
  end.
Proof.
  intros Hs Hc. destruct (queue_at_ok s cpu Hs Hc) as [_ Hq]. unfold select_from_queue. set (q := queue_at s cpu) in *. cbv zeta.
  assert (forall t, eligible s cpu ex t -> home_cpu t = cpu -> exists i o, has s i t /\ o ∈ seq 0 (count q) /\ runnable s cpu ex (element q o) = Some i) as Hel.
  { intros t He E. destruct (eligible_element s cpu ex t Hs He) as (i & o & H). rewrite E in H. by exists i, o. }
  destruct (Nat.eqb_spec (count q) 0) as [E0|E0].
  { split; [done|]. intros t He E. destruct (Hel t He E) as (i & o & _ & Ho%elem_of_seq & _). lia. }
  pose proof (select_loop_max s cpu ex q (seq 0 (count q)) None) as H. destruct (select_loop _ _ _ _ _ _) as [[[i pl] p]|].
  - destruct H as ([?|(o & Ho & Hr & Hp)] & Hmax & _); [done|]. destruct (runnable_some _ _ _ _ _ Hr) as (t & Ht & Eid & He).
    assert (home_cpu t = cpu) as Eh by (apply (element_home s cpu o i t Hs Hc); [unfold q in E0; lia|done|by rewrite Eid]).
    exists t, (S pl mod count q)%nat. split_and!; [done|done|done|done| |].
    + apply inv_set_queue; [done|done| |done]. apply with_cursor_ok; [done|lia].
    + intros t' He' Eh'. destruct (Hel t' He' Eh') as (j & o' & Hj & Ho' & Hr'). rewrite <- (has_thread_at s j t' Hj), <- (has_thread_at s i t Ht), Hp.
      by apply (Hmax o').
  - destruct H as [_ H]. split; [done|]. intros t He E. destruct (Hel t He E) as (i & o & _ & Ho & Hr). rewrite (H o Ho) in Hr. done.
Qed.

(** Frame: everything but the slot [i] and the queues is unchanged. *)
Definition only_slot (s s' : Scheduler) (i : nat) : Prop :=
  (forall j, j ≠ i -> threads s' !! j = threads s !! j) /\ cpu_count s' = cpu_count s /\ initialized s' = initialized s.

Lemma only_slot_trans s1 s2 s3 i : only_slot s1 s2 i -> only_slot s2 s3 i -> only_slot s1 s3 i.
Proof.
  intros (H1 & H2 & H3) (K1 & K2 & K3). split_and!; [|congruence|congruence]. intros j Hj. rewrite K1 by done. by apply H1.
Qed.

Lemma only_slot_set_stat s i t : only_slot s (set_stat s i t) i.
Proof. split_and!; [|done|done]. intros j Hj. cbn. by rewrite list_lookup_insert_ne. Qed.

Lemma only_slot_queues s l i : only_slot s (set_queues s l) i.
Proof. by split_and!. Qed.

Lemma has_set_stat s i t t' : has s i t -> has (set_stat s i t') i t'.
Proof. intros H%lookup_lt_Some. unfold has. cbn. by apply list_lookup_insert_eq. Qed.

Lemma count_stat_inv s cpu q : inv s -> (cpu < cpu_count s)%nat ->
  ids q = ids (queue_at s cpu) -> count q = count (queue_at s cpu) -> cursor q = cursor (queue_at s cpu) -> inv (set_queue s cpu q).
Proof.
  intros Hs Hc E1 E2 E3. destruct (queue_at_ok s cpu Hs Hc) as [_ [H1 H2 H3 H4]].
  apply inv_set_queue; [done|done| |unfold live; by rewrite E1, E2]. constructor; unfold live; by rewrite ?E1, ?E2, ?E3.
Qed.

(** Taking a thread from another processor, when the own queue has none to run. *)
Lemma steal_ok s cpu ex : inv s -> (cpu < cpu_count s)%nat -> (forall t, eligible s cpu ex t -> home_cpu t ≠ cpu) ->
  match steal s cpu ex with
  | (s', inl None) => s' = s /\ forall t, ~ eligible s cpu ex t
  | (s', inl (Some i)) => exists t, has s i t /\ eligible s cpu ex t /\ home_cpu t ≠ cpu /\ inv s' /\ has s' i (with_home t cpu) /\ only_slot s s' i /\
      forall t', eligible s cpu ex t' -> priority t' <= priority t
  | (_, inr _) => False
  end.
Proof.
  intros Hs Hc Hloc. unfold steal, select_steal_candidate. pose proof (steal_loop_max s cpu ex (seq 0 (cpu_count s)) None) as H.
  assert (forall t, eligible s cpu ex t -> home_cpu t ∈ seq 0 (cpu_count s)) as Hhome.
  { intros t He. pose proof He as ((i & Ht) & _). apply elem_of_seq. pose proof (home_lt s i t Hs Ht). lia. }
  destruct (steal_loop _ _ _ _ _) as [[[i pl] p]|]; cbn [fmap option_fmap option_map fst].
  - destruct H as ([?|(c & o & Hne & Hr & Hp)] & Hmax & _); [done|]. destruct (runnable_some _ _ _ _ _ Hr) as (t & Ht & Eid & He).
    cbv zeta. rewrite (has_thread_at _ _ _ Ht) in *. pose proof (Hloc t He) as Hhc.
    destruct (move_inv_ok s i t cpu (with_home t cpu) Hs Ht Hc eq_refl eq_refl) as (l & -> & Hinv).
    { destruct (iv_stat s Hs i t Ht) as [T1 T2 T3 T4]. constructor; [done|done|apply He|done]. }
    cbv beta iota. change (negb (bool_decide (Ok = Ok))) with false. cbv beta iota zeta. change (thread_at (set_queues s l) i) with (thread_at s i).
    rewrite ?(has_thread_at _ _ _ Ht). set (s1 := set_stat (set_queues s l) i (with_home t cpu)) in *. set (q2 := mkQueue _ _ _ _ _).
    assert (has s1 i (with_home t cpu)) as H1 by (eapply (has_set_stat (set_queues s l)); exact Ht).
    assert (only_slot s (set_queue s1 cpu q2) i) as Hframe.
    { apply (only_slot_trans s s1 _ i); [apply (only_slot_set_stat (set_queues s l))|apply only_slot_queues]. }
    assert (inv (set_queue s1 cpu q2)) as Hinv2 by (by apply count_stat_inv). set (s2 := set_queue s1 cpu q2) in *.
    assert (forall t', eligible s cpu ex t' -> priority t' <= priority t) as Hbest.
    { intros t' He'. destruct (eligible_element s cpu ex t' Hs He') as (j & o' & Hj & Ho' & Hr'). rewrite Hp.
      rewrite <- (has_thread_at s j t' Hj). apply (Hmax (home_cpu t') o'); [by apply Hhome|by apply Hloc|done|done]. }
    pose proof (select_from_queue_ok s2 cpu ex Hinv2 Hc) as H2. destruct (select_from_queue s2 cpu ex) as [s3 [j|]].
    + destruct H2 as (u & c' & Hu & Heu & Ehu & -> & Hinv3 & _). assert (j = i) as ->.
      { destruct (decide (j = i)); [done|]. exfalso. apply (Hloc u); [|done]. destruct Heu as (_ & Heu). split; [|exact Heu].
        exists j. unfold has in *. rewrite <- (proj1 Hframe j) by done. exact Hu. }
      exists t. split_and!; [done|done|done|done|done| |done]. by apply (only_slot_trans s s2 _ i).
    + destruct H2 as [_ H2]. exfalso. apply (H2 (with_home t cpu)); [|done]. destruct He as (_ & He). split; [by exists i|exact He].
  - destruct H as [_ H]. split; [done|]. intros t He. destruct (eligible_element s cpu ex t Hs He) as (i & o & _ & Ho & Hr).
    rewrite (H (home_cpu t) (Hhome t He) (Hloc t He) o Ho) in Hr. done.
Qed.

(** What the thread selected is on the way: the record before its reservation. *)
Definition moved (t : ThreadStat) (cpu : nat) : ThreadStat := if (home_cpu t =? cpu)%nat then t else with_home t cpu.

Lemma dispatch_ok s cpu i t : inv s -> (cpu < cpu_count s)%nat -> has s i t ->
  inv (dispatch s cpu i) /\ has (dispatch s cpu i) i (with_dispatch t cpu) /\ only_slot s (dispatch s cpu i) i.
Proof.
  intros Hs Hc Ht. unfold dispatch. rewrite (has_thread_at _ _ _ Ht). cbv zeta. set (s1 := set_stat s i (with_dispatch t cpu)).
  assert (inv s1) as H1 by (eapply inv_set_stat; [done|exact Ht|done|done|]; by destruct (iv_stat s Hs i t Ht)).
  assert (has s1 i (with_dispatch t cpu)) as H2 by (eapply has_set_stat; exact Ht).
  split_and!; [by apply count_stat_inv|done|]. apply (only_slot_trans s s1 _ i); [apply only_slot_set_stat|apply only_slot_queues].
Qed.

(** What [pick_next] answers. *)
Definition picks (s : Scheduler) (cpu : nat) (ex : Z) (s' : Scheduler) (x : Z) : Prop :=
  exists i t, has s i t /\ id t = x /\ eligible s cpu ex t /\
    (forall t', eligible s cpu ex t' -> home_cpu t' = cpu -> home_cpu t = cpu) /\
    (forall t', eligible s cpu ex t' -> home_cpu t' = cpu \/ home_cpu t ≠ cpu -> priority t' <= priority t) /\
    has s' i (with_dispatch (moved t cpu) cpu) /\ only_slot s s' i /\ inv s'.

Lemma pick_next_spec s cpu ex : inv s -> (cpu < cpu_count s)%nat ->
  match pick_next s cpu ex true with
  | (s', Ok, x) => picks s cpu ex s' x
  | (s', NotFound, x) => s' = s /\ x = INVALID_THREAD_ID /\ forall t, ~ eligible s cpu ex t
  | _ => False
  end.
Proof.
  intros Hs Hc. unfold pick_next. rewrite (iv_init s Hs). cbn [negb]. rewrite (proj2 (Nat.ltb_lt _ _) Hc). cbn [negb].
  pose proof (select_from_queue_ok s cpu ex Hs Hc) as H. destruct (select_from_queue s cpu ex) as [s1 [i|]].
  - destruct H as (t & c & Ht & He & Eh & -> & Hinv & Hmax). set (s1 := set_queue s cpu _) in *.
    change (has s i t) with (has s1 i t) in Ht. destruct (dispatch_ok s1 cpu i t Hinv Hc Ht) as (D1 & D2 & D3).
    rewrite (has_thread_at _ _ _ Ht). exists i, t. unfold moved. rewrite (proj2 (Nat.eqb_eq _ _) Eh). split_and!; [done|done|done| | |done| |done].
    + done.
    + intros t' He' [H|H]; [by apply Hmax|done].
    + apply (only_slot_trans s s1 _ i); [apply only_slot_queues|done].
  - destruct H as [-> Hloc]. pose proof (steal_ok s cpu ex Hs Hc Hloc) as H. destruct (steal s cpu ex) as [s1 [[i|]|e]]; [| |done].
    + destruct H as (t & Ht & He & Eh & Hinv & Ht1 & Hf & Hmax). assert (cpu < cpu_count s1)%nat as Hc1 by (destruct Hf as (_ & -> & _); done).
      destruct (dispatch_ok s1 cpu i _ Hinv Hc1 Ht1) as (D1 & D2 & D3). rewrite (has_thread_at _ _ _ Ht1). exists i, t.
      unfold moved. rewrite (proj2 (Nat.eqb_neq _ _) Eh). split_and!; [done|done|done| | |done| |done].
      * intros t' He' E. by destruct (Hloc t').
      * intros t' He' _. by apply Hmax.
      * by apply (only_slot_trans s s1 _ i).
    + destruct H as [-> H]. by split_and!.
Qed.

Lemma pick_next_inv s cpu ex has_out : inv s -> inv (fst (fst (pick_next s cpu ex has_out))).
Proof.
  intros Hs. destruct has_out; [|unfold pick_next; by destruct (negb _)]. destruct (Nat.ltb_spec cpu (cpu_count s)) as [Hc|Hc].
  - pose proof (pick_next_spec s cpu ex Hs Hc) as H. destruct (pick_next s cpu ex true) as [[s' []] x]; try done.
    + by destruct H as (i & t & _ & _ & _ & _ & _ & _ & _ & H).
    + by destruct H as [-> _].
  - unfold pick_next. rewrite (proj2 (Nat.ltb_ge _ _) Hc). by destruct (negb _).
Qed.

(** ** Sequences of calls *)

Inductive call :=
  | CInitialize (online_cpus : nat) | CReset (online_cpus : nat) | CExpand (online_cpus : nat)
  | CRegister (thread prio mask : Z) (preferred_cpu : nat) | CUnregister (thread : Z)
  | CSetState (thread : Z) (st : State) | CSetAffinity (thread mask : Z) | CSetPriority (thread prio : Z)
  | CPick (cpu : nat) (excluded : Z) (has_out : bool) | CCancel (thread : Z) (cpu : nat).

Definition step (s : Scheduler) (c : call) : Scheduler :=
  match c with
  | CInitialize n => fst (initialize s n)
  | CReset n => fst (reset s n)
  | CExpand n => fst (expand_cpu_count s n)
  | CRegister x p mask cpu => fst (register_thread s x p mask cpu)
  | CUnregister x => fst (unregister_thread s x)
  | CSetState x st => fst (set_state s x st)
  | CSetAffinity x mask => fst (set_affinity s x mask)
  | CSetPriority x p => fst (set_priority s x p)
  | CPick cpu ex b => fst (fst (pick_next s cpu ex b))
  | CCancel x cpu => fst (cancel_dispatch s x cpu)
  end.

Definition run (s : Scheduler) (calls : list call) : Scheduler := foldl step s calls.

(** The tables before the first call. *)
Definition zeroed : Scheduler :=
  mkScheduler (replicate MAX_SCHEDULABLE_THREADS empty_slot) (replicate MAX_CPUS empty_queue) 0 false.

Lemma sched2_initialize_inv s n : inv s -> inv (fst (initialize s n)).
Proof. intros Hs. unfold initialize. by rewrite (iv_init s Hs). Qed.

Lemma sched2_reset_inv s n : inv s -> inv (fst (reset s n)).
Proof. intros Hs. unfold reset. by destruct (configure_inv s n) as [| ->]. Qed.

#[local] Hint Resolve sched2_initialize_inv sched2_reset_inv expand_inv register_inv unregister_inv set_state_inv set_affinity_inv set_priority_inv
  pick_next_inv sched2_cancel_inv : core.

Lemma sched2_step_inv s c : inv s -> inv (step s c).
Proof. intros Hs. destruct c; cbn [step]; auto. Qed.

Lemma sched2_run_inv calls : forall s, inv s -> inv (run s calls).
Proof. induction calls as [|c calls IH]; intros s Hs; [done|]. apply IH. by apply sched2_step_inv. Qed.

(** Before [initialize] nothing changes. *)
Lemma step_uninitialised s c : initialized s = false -> step s c = s \/ inv (step s c).
Proof.
  intros Hi. destruct c; cbn [step]; try (left; unfold expand_cpu_count, register_thread, unregister_thread, set_state, set_affinity,
    set_priority, pick_next, cancel_dispatch; by rewrite Hi).
  - unfold initialize. rewrite Hi. destruct (configure_inv s online_cpus) as [| ->]; [by right|by left].
  - unfold reset. destruct (configure_inv s online_cpus) as [| ->]; [by right|by left].
Qed.

(** C26: whatever sequence of calls is made, once the scheduler is initialised its
    tables agree: names are unique and not zero, a thread's home is allowed by its
    affinity and online, every affinity names online processors only, priorities are in
    range, the queues hold distinct names and have a cursor inside, and a thread is in
    the queue of its home and in no other. *)
Theorem scheduler2_invariant calls : initialized (run zeroed calls) = true -> inv (run zeroed calls).
Proof.
  assert (run zeroed calls = zeroed \/ inv (run zeroed calls)) as [->|]; [|done|done].
  induction calls as [|c calls IH] using rev_ind; [by left|]. unfold run in *. rewrite foldl_app. cbn [foldl].
  destruct IH as [->|H]; [|right; by apply sched2_step_inv]. by destruct (step_uninitialised zeroed c eq_refl) as [->|]; [left|right].
Qed.

(** C20: [pick_next] gives the most important thread that may run on the processor
    among those of its own queue; only when there is none, the most important one of
    all queues, which moves here.  It answers [NotFound] exactly when no thread may
    run, and then as on every error changes nothing and stores the invalid name.  The
    slot of the thread becomes Running, last on this processor, and no other slot
    changes; [QueueFull] is never answered. *)
Theorem pick_next_ok s cpu ex has_out : inv s ->
  match pick_next s cpu ex has_out with
  | (s', Ok, x) => (cpu < cpu_count s)%nat /\ has_out = true /\ picks s cpu ex s' x
  | (s', NotFound, x) => (cpu < cpu_count s)%nat /\ has_out = true /\ s' = s /\ x = INVALID_THREAD_ID /\ forall t, ~ eligible s cpu ex t
  | (s', InvalidArgument, x) => has_out = false /\ s' = s /\ x = INVALID_THREAD_ID
  | (s', InvalidCpu, x) => (cpu_count s <= cpu)%nat /\ has_out = true /\ s' = s /\ x = INVALID_THREAD_ID
  | _ => False
  end.
Proof.
  intros Hs. destruct has_out; [|unfold pick_next; by rewrite (iv_init s Hs)]. destruct (Nat.ltb_spec cpu (cpu_count s)) as [Hc|Hc].
  - pose proof (pick_next_spec s cpu ex Hs Hc) as H. destruct (pick_next s cpu ex true) as [[s' []] x]; done.
  - unfold pick_next. rewrite (iv_init s Hs). cbn [negb]. by rewrite (proj2 (Nat.ltb_ge _ _) Hc).
Qed.

(** ** A reservation *)

(** Thread [x] runs on [cpu]. *)
Definition reserved (s : Scheduler) (x : Z) (cpu : nat) : Prop :=
  exists i t, has s i t /\ id t = x /\ state t = Running /\ last_cpu t = cpu.

(** The calls that may end it. *)
Definition releases (x : Z) (cpu : nat) (c : call) : bool :=
  match c with
  | CReset _ => true
  | CUnregister y | CSetState y _ => y =? x
  | CCancel y cpu' => (y =? x) && (cpu' =? cpu)%nat
  | _ => false
  end.

Lemma reserved_threads s s' x cpu : threads s' = threads s -> reserved s x cpu -> reserved s' x cpu.
Proof. intros E. unfold reserved, has. by rewrite E. Qed.

Lemma reserved_insert s s' x cpu k slot : threads s' = <[k := slot]> (threads s) -> reserved s x cpu ->
  (forall t, has s k t -> id t = x -> state t = Running -> last_cpu t = cpu ->
    used slot = true /\ id (stat_of slot) = x /\ state (stat_of slot) = Running /\ last_cpu (stat_of slot) = cpu) -> reserved s' x cpu.
Proof.
  intros E (i & t & Ht & H1 & H2 & H3) Hk. destruct (decide (k = i)) as [->|Hne].
  - destruct (Hk t Ht H1 H2 H3) as (K0 & K1 & K2 & K3). exists i, (stat_of slot). split_and!; [|done|done|done].
    unfold has. rewrite E. rewrite list_lookup_insert_eq by (by apply lookup_lt_Some in Ht). destruct slot as [u b]. cbn in *. by subst b.
  - exists i, t. split_and!; [|done|done|done]. unfold has. rewrite E. by rewrite list_lookup_insert_ne.
Qed.

Lemma queue_add_threads s cpu x : threads (fst (queue_add s cpu x)) = threads s.
Proof. unfold queue_add. destruct (negb _); [done|]. cbv zeta. destruct (queue_contains _ _); [done|]. by destruct (_ <=? _)%nat. Qed.

Lemma queue_remove_threads s cpu x : threads (queue_remove s cpu x) = threads s.
Proof. unfold queue_remove. destruct (negb _); [done|]. cbv zeta. by destruct (find_index _ _). Qed.

(** A change of the thread called [y] in place. *)
Lemma reserved_set_stat s s' x cpu k t t' : inv s -> has s k t -> threads s' = <[k := mkSlot t' true]> (threads s) ->
  reserved s x cpu -> (id t = x -> id t' = x /\ state t' = state t /\ last_cpu t' = last_cpu t) -> reserved s' x cpu.
Proof.
  intros Hs Ht E Hr H. apply (reserved_insert s s' x cpu k _ E Hr). intros u Hu E1 E2 E3. assert (u = t) as -> by (unfold has in *; congruence).
  destruct (H E1) as (K1 & K2 & K3). split_and!; [done|done|cbn; congruence|cbn; congruence].
Qed.

Lemma reserved_found s x cpu : inv s -> reserved s x cpu -> exists i, find_thread s x = Some i /\ state (thread_at s i) = Running /\ last_cpu (thread_at s i) = cpu.
Proof. intros Hs (i & t & Ht & <- & H). exists i. rewrite (has_thread_at _ _ _ Ht). split; [by apply find_thread_has|done]. Qed.

Lemma reserved_not_picked s x cpu s' cpu' ex y : reserved s x cpu -> picks s cpu' ex s' y -> inv s -> y ≠ x /\ reserved s' x cpu.
Proof.
  intros (i & t & Ht & E1 & E2 & E3) (j & u & Hu & Eu & (_ & _ & Er & _) & _ & _ & _ & (Hf & _) & _) Hs.
  assert (i ≠ j) as Hne by (intros ->; unfold has in *; congruence). split.
  - intros E. apply Hne. apply (iv_ids s Hs i j t u); [done|done|congruence].
  - exists i, t. split_and!; [|done|done|done]. unfold has. by rewrite Hf.
Qed.

Lemma set_affinity_threads s x mask : inv s -> threads (fst (set_affinity s x mask)) = threads s \/
  exists i t t', has s i t /\ id t = x /\ threads (fst (set_affinity s x mask)) = <[i := mkSlot t' true]> (threads s) /\
    id t' = id t /\ state t' = state t /\ last_cpu t' = last_cpu t.
Proof.
  intros Hs. unfold set_affinity. destruct (negb _); [by left|]. destruct (bad_affinity s mask) eqn:Em; [by left|].
  destruct (find_thread s x) as [i|] eqn:E; [|by left]. destruct (find_thread_some _ _ _ E) as (t & Ht & <- & _). cbv zeta. rewrite (has_thread_at _ _ _ Ht).
  right. set (t1 := with_affinity t mask). destruct (cpu_allowed _ _ _); [by exists i, t, t1|].
  destruct (choose_home _ _ _) as [d|]; [|by exists i, t, t1]. rewrite queue_remove_stat, queue_add_stat.
  destruct (queue_add (queue_remove s (home_cpu t1) (id t)) d (id t)) as [s1 e] eqn:Ea.
  assert (threads s1 = threads s) as E1.
  { change s1 with (fst (s1, e)). by rewrite <- Ea, queue_add_threads, queue_remove_threads. }
  destruct (negb _); cbn [fst].
  - exists i, t, (with_affinity t1 (Z.lor mask (mask_for_cpu (home_cpu t1)))). split_and!; try done.
    cbn [threads set_stat set_threads]. rewrite queue_add_threads. cbn [threads set_stat set_threads]. by rewrite E1, list_insert_insert_eq.
  - exists i, t, (with_home t1 d). split_and!; try done. cbn [threads set_stat set_threads]. by rewrite E1, list_insert_insert_eq.
Qed.

Lemma step_reserved s x cpu c : inv s -> reserved s x cpu -> releases x cpu c = false -> reserved (step s c) x cpu.
Proof.
  intros Hs Hr Hrel. destruct c as [n|n|n|y p mask h|y|y st|y mask|y p|cpu' ex b|y cpu']; cbn [step releases] in *.
  - unfold initialize. by rewrite (iv_init s Hs).
  - done.
  - apply (reserved_threads s); [|done]. unfold expand_cpu_count. destruct (negb _); [done|]. destruct (_ || _ || _); [done|]. by destruct (_ =? _)%nat.
  - unfold register_thread. destruct (negb _); [done|]. destruct ((_ =? _) || _); [done|]. destruct (bad_affinity _ _); [done|].
    destruct (find_thread s y); [done|]. destruct (find_index _ _) as [k|] eqn:Ek; [|done]. destruct (choose_home _ _ _) as [d|]; [|done].
    destruct (queue_add s d y) as [s1 e] eqn:Ea. assert (threads s1 = threads s) as E1 by (change s1 with (fst (s1, e)); by rewrite <- Ea, queue_add_threads).
    destruct (negb _); [by apply (reserved_threads s)|]. cbn [fst]. eapply (reserved_insert s); [by rewrite <- E1|done|].
    intros t Ht _. apply find_index_Some in Ek as ((slot & Hk & Hu) & _). unfold has in Ht. rewrite Hk in Ht. by injection Ht as ->.
  - unfold unregister_thread. destruct (negb _); [done|]. destruct (find_thread s y) as [k|] eqn:Ek; [|done].
    destruct (find_thread_some _ _ _ Ek) as (t & Ht & <- & _). cbn [fst]. refine (reserved_insert s (set_threads _ _) x cpu k empty_slot (f_equal _ (queue_remove_threads _ _ _)) Hr _).
    intros u Hu E. assert (u = t) as -> by (unfold has in *; congruence). lia.
  - unfold set_state. destruct (negb _); [done|]. destruct (find_thread s y) as [k|] eqn:Ek; [|done].
    destruct (find_thread_some _ _ _ Ek) as (t & Ht & <- & _). cbn [fst]. refine (reserved_set_stat s (set_stat s k _) x cpu k t _ Hs Ht eq_refl Hr _). lia.
  - destruct (set_affinity_threads s y mask Hs) as [E|(k & t & t' & Ht & _ & E & K1 & K2 & K3)]; [by apply (reserved_threads s)|].
    apply (reserved_set_stat s _ x cpu k t _ Hs Ht E Hr). intros <-. done.
  - unfold set_priority. destruct (negb _); [done|]. destruct (_ <? _); [done|]. destruct (find_thread s y) as [k|] eqn:Ek; [|done].
    destruct (find_thread_some _ _ _ Ek) as (t & Ht & <- & _). cbn [fst]. rewrite (has_thread_at _ _ _ Ht).
    refine (reserved_set_stat s (set_stat s k _) x cpu k t _ Hs Ht eq_refl Hr _). done.
  - destruct b; [|unfold pick_next; by rewrite (iv_init s Hs)]. destruct (Nat.ltb_spec cpu' (cpu_count s)) as [Hc|Hc].
    + pose proof (pick_next_spec s cpu' ex Hs Hc) as H. destruct (pick_next s cpu' ex true) as [[s' []] z]; try done; cbn [fst].
      * by apply (reserved_not_picked s x cpu s' cpu' ex z).
      * by destruct H as [-> _].
    + unfold pick_next. rewrite (iv_init s Hs), (proj2 (Nat.ltb_ge _ _) Hc). done.
  - unfold cancel_dispatch. destruct (negb _); [done|]. destruct (negb _); [done|]. destruct (find_thread s y) as [k|] eqn:Ek; [|done].
    destruct (find_thread_some _ _ _ Ek) as (t & Ht & <- & _). cbv zeta. rewrite (has_thread_at _ _ _ Ht).
    destruct (bool_decide (state t = Running)) eqn:E1, (Nat.eqb_spec (last_cpu t) cpu') as [E2|]; cbn [negb orb fst]; try done.
    refine (reserved_insert s (set_stat s k _) x cpu k _ eq_refl Hr _). intros u Hu E3 _ E4. assert (u = t) as -> by (unfold has in *; congruence). lia.
Qed.

Lemma run_reserved calls x cpu : forall s, inv s -> reserved s x cpu -> forallb (fun c => negb (releases x cpu c)) calls = true -> reserved (run s calls) x cpu.
Proof.
  induction calls as [|c calls IH]; intros s Hs Hr Hc; [done|]. cbn [forallb] in Hc. apply andb_true_iff in Hc as [Hc1%negb_true_iff Hc].
  apply IH; [by apply sched2_step_inv|by apply step_reserved|done].
Qed.

(** C16: a thread that [pick_next] gave to a processor is given to no processor again,
    whatever calls follow, until its state is set, its dispatch is cancelled by that
    same processor, it is unregistered or the scheduler is reset: until then it stays
    Running on that processor, another processor's [cancel_dispatch] for it included. *)
Theorem dispatch_exclusive s cpu ex s' x calls : inv s -> pick_next s cpu ex true = (s', Ok, x) ->
  forallb (fun c => negb (releases x cpu c)) calls = true ->
  (exists t, stat (run s' calls) x true = (Ok, Some t) /\ state t = Running /\ last_cpu t = cpu) /\
  (forall cpu' ex' b, snd (pick_next (run s' calls) cpu' ex' b) ≠ x) /\
  (forall cpu', cpu' ≠ cpu -> fst (cancel_dispatch (run s' calls) x cpu') = run s' calls).
Proof.
  intros Hs Hp Hcalls. destruct (Nat.ltb_spec cpu (cpu_count s)) as [Hc|Hc].
  2: { unfold pick_next in Hp. rewrite (iv_init s Hs), (proj2 (Nat.ltb_ge _ _) Hc) in Hp. done. }
  pose proof (pick_next_spec s cpu ex Hs Hc) as H. rewrite Hp in H. destruct H as (i & t & Ht & Ex & He & _ & _ & Ht' & _ & Hs').
  assert (x ≠ INVALID_THREAD_ID) as Hx by (rewrite <- Ex; apply (to_id _ _ (iv_stat s Hs i t Ht))).
  assert (reserved s' x cpu) as Hr by (exists i, (with_dispatch (moved t cpu) cpu); split_and!; [done| |done|done]; unfold moved; by destruct (_ =? _)%nat).
  apply (run_reserved calls) in Hr; [|done|done]. set (s1 := run s' calls) in *. assert (inv s1) as Hs1 by by apply sched2_run_inv.
  destruct (reserved_found s1 x cpu Hs1 Hr) as (j & Ej & Est & Ecpu). split_and!.
  - exists (thread_at s1 j). unfold stat. rewrite (iv_init s1 Hs1), Ej. done.
  - intros cpu' ex' b. destruct b; [|unfold pick_next; rewrite (iv_init s1 Hs1); cbn; congruence].
    destruct (Nat.ltb_spec cpu' (cpu_count s1)) as [Hc'|Hc'].
    + pose proof (pick_next_spec s1 cpu' ex' Hs1 Hc') as H. destruct (pick_next s1 cpu' ex' true) as [[s2 []] z]; try done; cbn [snd].
      * by apply (reserved_not_picked s1 x cpu s2 cpu' ex' z).
      * destruct H as (_ & -> & _). congruence.
    + unfold pick_next. rewrite (iv_init s1 Hs1), (proj2 (Nat.ltb_ge _ _) Hc'). cbn. congruence.
  - intros cpu' Hne. unfold cancel_dispatch. destruct (negb _); [done|]. destruct (negb _); [done|]. rewrite Ej. cbv zeta. rewrite Ecpu.
    rewrite (proj2 (Nat.eqb_neq _ _)), orb_true_r by congruence. done.
Qed.

(** ** Round robin *)

(** [n] turns on a processor: each thread picked runs and is made ready again. *)
Fixpoint turns (n : nat) (s : Scheduler) (cpu : nat) (ex : Z) : list Z :=
  match n with
  | O => []
  | S n' => let '(s', _, x) := pick_next s cpu ex true in x :: turns n' (fst (set_state s' x Ready)) cpu ex
  end.

(** Thread [t] may run on its own processor, and no thread there is more important. *)
Definition top (s : Scheduler) (cpu : nat) (ex : Z) (i : nat) (t : ThreadStat) : Prop :=
  has s i t /\ eligible s cpu ex t /\ home_cpu t = cpu /\ forall t', eligible s cpu ex t' -> home_cpu t' = cpu -> priority t' <= priority t.

(** One turn, when the loop over the queue finds slot [k] at an offset. *)
Lemma turn_eq s cpu ex k o : inv s -> (cpu < cpu_count s)%nat -> (0 < count (queue_at s cpu))%nat ->
  (exists p, select_loop s cpu ex (queue_at s cpu) (seq 0 (count (queue_at s cpu))) None = Some (k, place_of (queue_at s cpu) o, p)) ->
  forall u, has s k u -> exists s' e,
    pick_next s cpu ex true = (s', Ok, id u) /\ fst (set_state s' (id u) Ready) = e /\ inv e /\ cpu_count e = cpu_count s /\
    threads e = <[k := mkSlot (with_state (with_dispatch u cpu) Ready) true]> (threads s) /\
    ids (queue_at e cpu) = ids (queue_at s cpu) /\ count (queue_at e cpu) = count (queue_at s cpu) /\
    cursor (queue_at e cpu) = (S (place_of (queue_at s cpu) o) mod count (queue_at s cpu))%nat.
Proof.
  intros Hs Hc H0 (p & Hsel) u Hu. pose proof (select_from_queue_ok s cpu ex Hs Hc) as H. unfold pick_next.
  rewrite (iv_init s Hs), (proj2 (Nat.ltb_lt _ _) Hc). cbn [negb]. unfold select_from_queue in *. cbv zeta in *.
  destruct (Nat.eqb_spec (count (queue_at s cpu)) 0); [lia|]. rewrite Hsel in *. destruct H as (_ & _ & _ & _ & _ & _ & Hs1 & _).
  set (s1 := set_queue s cpu _) in *. assert (has s1 k u) as Hu1 by exact Hu. destruct (dispatch_ok s1 cpu k u Hs1 Hc Hu1) as (D1 & D2 & D3).
  rewrite (has_thread_at _ _ _ Hu1). exists (dispatch s1 cpu k). eexists. split; [done|]. split; [done|]. split; [by apply set_state_inv|].
  unfold set_state. rewrite (iv_init _ D1). cbn [negb]. rewrite (find_thread_has _ k (with_dispatch u cpu) D1 D2 : find_thread _ (id u) = _). cbn [fst].
  rewrite (has_thread_at _ _ _ D2). assert (cpu < length (queues s))%nat as Hlen by (rewrite (iv_queues s Hs); pose proof (iv_cpus s Hs); lia).
  assert (queue_at (dispatch s1 cpu k) cpu = mkQueue (ids (queue_at s1 cpu)) (count (queue_at s1 cpu)) (cursor (queue_at s1 cpu))
    (u64 (q_dispatches (queue_at s1 cpu) + 1)) (steals (queue_at s1 cpu))) as Eq.
  { unfold dispatch. cbv zeta. rewrite queue_at_set by (cbn; by rewrite length_insert). by rewrite decide_True. }
  split; [apply D3|]. split.
  - cbn. by rewrite (has_thread_at _ _ _ Hu1), list_insert_insert_eq.
  - match goal with |- context [queue_at (set_stat ?a ?b ?c) cpu] => change (queue_at (set_stat a b c) cpu) with (queue_at a cpu) end.
    rewrite Eq. cbn [ids count cursor]. unfold s1. rewrite queue_at_set by done. by rewrite decide_True.
Qed.

Lemma place_of_next c o d n : (0 < n)%nat -> ((S ((c + o) mod n) mod n + d) mod n = (c + (o + S d)) mod n)%nat.
Proof.
  intros Hn. rewrite Nat.Div0.add_mod_idemp_l. replace (S ((c + o) mod n) + d)%nat with ((c + o) mod n + S d)%nat by lia.
  rewrite Nat.Div0.add_mod_idemp_l. f_equal. lia.
Qed.

(** A turn of another thread leaves [t] the first, and brings the cursor nearer. *)
Lemma top_turn s e cpu ex i t k u : inv s -> inv e -> cpu_count e = cpu_count s -> top s cpu ex i t -> has s k u -> eligible s cpu ex u -> k ≠ i ->
  threads e = <[k := mkSlot (with_state (with_dispatch u cpu) Ready) true]> (threads s) -> top e cpu ex i t.
Proof.
  intros Hs He Ec (Ht & Hel & Eh & Hmax) Hu Heu Hne E. assert (has e i t) as Ht' by (unfold has; rewrite E; by rewrite list_lookup_insert_ne).
  assert (forall m, cpu_allowed e m cpu = cpu_allowed s m cpu) as Hal by (intros m; unfold cpu_allowed; by rewrite Ec).
  split_and!; [done| |done|].
  - destruct Hel as (_ & H1 & H2 & H3). split_and!; [by exists i|done|done|by rewrite Hal].
  - intros t' ((j & Hj) & H1 & H2 & H3) H4. unfold has in Hj. rewrite E in Hj. rewrite Hal in H3.
    apply list_lookup_insert_Some in Hj as [(_ & [= <-] & _)|(_ & Hj)].
    + by apply (Hmax u).
    + apply Hmax; [|done]. split_and!; [by exists j|done|done|done].
Qed.

Lemma turns_reach n : forall s cpu ex i t o, inv s -> (cpu < cpu_count s)%nat -> top s cpu ex i t ->
  (o < count (queue_at s cpu))%nat -> element (queue_at s cpu) o = id t -> (o < n)%nat -> id t ∈ turns n s cpu ex.
Proof.
  induction n as [|n IH]; intros s cpu ex i t o Hs Hc Htop Ho Eo Hn; [lia|]. pose proof Htop as (Ht & Hel & Eh & Hmax). cbn [turns].
  set (q := queue_at s cpu) in *. pose proof (runnable_eligible s cpu ex i t Hs Ht Hel) as Hr. rewrite <- Eo in Hr.
  destruct (queue_at_ok s cpu Hs Hc) as [_ Hq]. fold q in Hq. pose proof (select_loop_spec s cpu ex q (seq 0 (count q)) None) as Hsel.
  destruct (select_loop s cpu ex q (seq 0 (count q)) None) as [[[k pl] p]|] eqn:Esel; [|destruct Hsel as [_ Hno]; rewrite (Hno o) in Hr; [done|apply elem_of_seq; lia]].
  destruct Hsel as [[? _]|[(pre & o1 & post & Eseq & -> & Hr1 & Hp & Hpre & Hpost) _]]; [done|].
  assert (o1 < count q)%nat as Ho1 by (assert (o1 ∈ seq 0 (count q)) as H by (rewrite Eseq; apply elem_of_app; right; left); apply elem_of_seq in H; lia).
  destruct (runnable_some _ _ _ _ _ Hr1) as (u & Hu & Eu & Heu).
  assert (home_cpu u = cpu) as Ehu by (apply (element_home s cpu o1 k u Hs Hc); [unfold q in Ho; lia|done|by rewrite Eu]).
  rewrite (has_thread_at _ _ _ Hu) in Hp. pose proof (Hmax u Heu Ehu) as Hup.
  assert (o1 <= o)%nat as Hle.
  { destruct (Nat.leb_spec o1 o) as [|Hlt]; [done|]. exfalso. assert (o ∈ pre) as Hin.
    { assert (pre = seq 0 o1) as ->.
      { assert (length pre = o1) as El.
        { assert (seq 0 (count q) !! length pre = Some o1) as El by (rewrite Eseq; by apply list_lookup_middle).
          apply lookup_seq in El as [El _]. lia. }
        rewrite <- (take_app_length pre (o1 :: post)), <- Eseq, El, take_seq. f_equal. lia. }
      apply elem_of_seq. lia. }
    pose proof (Hpre o i Hin Hr) as H. rewrite (has_thread_at _ _ _ Ht) in H. lia. }
  destruct (turn_eq s cpu ex k o1 Hs Hc ltac:(fold q; lia) (ex_intro _ p Esel) u Hu) as (s' & e & Ep & Ee & He & Ecount & Eth & Eids & Ecnt & Ecur).
  rewrite Ep, Ee. destruct (decide (k = i)) as [->|Hki].
  - assert (u = t) as -> by (unfold has in *; congruence). left.
  - right. assert (o1 ≠ o) as Hoo by (intros ->; rewrite Eo in Eu; apply Hki; by apply (iv_ids s Hs k i u t)).
    apply (IH e cpu ex i t (o - S o1)%nat); [done|by rewrite Ecount|by apply (top_turn s e cpu ex i t k u)|rewrite Ecnt; fold q; lia| |lia].
    unfold element, place_of. rewrite Eids, Ecnt, Ecur. fold q. unfold place_of. rewrite place_of_next by lia.
    replace (o1 + S (o - S o1))%nat with o by lia. exact Eo.
Qed.

(** C25: round robin.  A thread that may run on its processor, where none is more
    important, has its turn within as many turns as the queue has threads, whatever
    the others of the same priority are. *)
Theorem round_robin s cpu ex i t : inv s -> top s cpu ex i t -> id t ∈ turns (count (queue_at s cpu)) s cpu ex.
Proof.
  intros Hs Htop. pose proof Htop as (Ht & Hel & Eh & _). pose proof (home_lt s i t Hs Ht) as Hc. rewrite Eh in Hc.
  destruct (queue_at_ok s cpu Hs Hc) as [_ Hq]. destruct (element_exists (queue_at s cpu) (id t) Hq) as (o & Ho & Eo).
  - apply (iv_live s Hs); [done|by exists i, t].
  - apply elem_of_seq in Ho. by apply (turns_reach _ s cpu ex i t o); [| | |lia| |lia].
Qed.

(** ** Witnesses *)

Lemma top_by_priority s cpu ex i t : has s i t -> id t ≠ ex -> state t = Ready -> cpu_allowed s (affinity t) cpu = true -> home_cpu t = cpu ->
  forallb (fun slot => negb (used slot) || (priority (stat_of slot) <=? priority t)) (threads s) = true -> top s cpu ex i t.
Proof.
  intros H1 H2 H3 H4 H5 Hall. split_and!; [done| |done|].
  - split_and!; [by exists i|done|done|done].
  - intros t' ((j & Hj) & _) _. rewrite forallb_forall in Hall. specialize (Hall (mkSlot t' true)). cbn in Hall. apply Z.leb_le, Hall.
    apply list_elem_of_In, list_elem_of_lookup. by exists j.
Qed.

(** Two processors, three threads on the first, one on the second. *)
Definition sample_calls : list call :=
  [CInitialize 2; CRegister 7 5 3 0; CRegister 8 5 3 0; CRegister 9 2 1 0; CRegister 10 4 2 1; CSetState 10 Blocked].
Definition sample : Scheduler := run zeroed sample_calls.

Lemma sched2_sample_inv : inv sample.
Proof.
  unfold sample, run, sample_calls. cbn [foldl]. assert (inv (step zeroed (CInitialize 2))) as H.
  { cbn [step]. unfold initialize. change (initialized zeroed) with false. destruct (configure_inv zeroed 2) as [H|H]; [exact H|].
    apply (f_equal snd) in H. discriminate H. }
  do 5 apply sched2_step_inv. exact H.
Qed.

Lemma scheduler2_invariant_witness : initialized sample = true /\ inv sample.
Proof. split; [vm_compute; reflexivity|]. apply (scheduler2_invariant sample_calls). vm_compute. reflexivity. Defined.

(** The second processor takes a thread from the first. *)
Lemma pick_next_ok_witness : exists s', pick_next sample 1 0 true = (s', Ok, 7) /\ picks sample 1 0 s' 7.
Proof.
  pose proof (pick_next_ok sample 1 0 true sched2_sample_inv) as H. assert (snd (fst (pick_next sample 1 0 true)) = Ok) as E1 by (vm_compute; reflexivity).
  assert (snd (pick_next sample 1 0 true) = 7) as E2 by (vm_compute; reflexivity). destruct (pick_next sample 1 0 true) as [[s' e] x].
  cbn [fst snd] in E1, E2. subst e x. exists s'. split; [reflexivity|]. apply H.
Defined.

Lemma dispatch_exclusive_witness : exists s', pick_next sample 0 0 true = (s', Ok, 7) /\
  let s1 := run s' [CPick 1 0 true; CCancel 7 1; CSetAffinity 7 2; CPick 0 0 true] in
  forall cpu' ex' b, snd (pick_next s1 cpu' ex' b) ≠ 7.
Proof.
  assert (snd (fst (pick_next sample 0 0 true)) = Ok) as E1 by (vm_compute; reflexivity).
  assert (snd (pick_next sample 0 0 true) = 7) as E2 by (vm_compute; reflexivity).
  destruct (pick_next sample 0 0 true) as [[s' e] x] eqn:E. cbn [fst snd] in E1, E2. subst e x. exists s'. split; [reflexivity|].
  destruct (dispatch_exclusive sample 0 0 s' 7 [CPick 1 0 true; CCancel 7 1; CSetAffinity 7 2; CPick 0 0 true] sched2_sample_inv E eq_refl) as (_ & H & _).
  exact H.
Defined.

Lemma round_robin_witness : 8 ∈ turns (count (queue_at sample 0)) sample 0 0 /\ turns 3 sample 0 0 = [7; 8; 7].
Proof.
  split; [|vm_compute; reflexivity]. apply (round_robin sample 0 0 1 (mkStat 8 Ready 5 3 0 64 0 0)); [exact sched2_sample_inv|].
  apply top_by_priority; vm_compute; first [reflexivity | intros X; discriminate X].
Defined.
