(* ===== verification/Sockets.v ===== *)
(** * Sockets (kernel/net/socket.cpp)

    The table of sockets that processes reach by handle: datagram sockets with a
    queue of received datagrams each, and stream sockets that own one of a few TCP
    sessions.  The transport below (a struct of function pointers in the code, which
    user/runtime.cpp fills with the network stack and the TCP client) is the class
    [Backend] over the state [W] of whatever is behind it; every theorem is for any
    backend.  A buffer of the caller is the list of its bytes, [None] when its pointer
    is null; references to slots and sessions are their indices, so that a call reads
    what earlier parts of it have stored.

    The datagrams a socket holds are a ring buffer ([Ring]). *)

From S2P Require Import Prelude Ring Packet Network Protocols NetworkStack TcpClient.

(** ** Data *)

Definition INVALID_HANDLE : Z := 0.
Definition MAX_SOCKETS : nat := 32.
Definition MAX_RX_DATAGRAMS : nat := 4.
Definition MAX_TCP_SESSIONS : nat := 4.
Definition EPHEMERAL_PORT_FIRST : Z := 49152.
Definition TCP_CONNECT_TIMEOUT_MS : Z := 7000.
Definition TCP_SYN_RETRY_MS : Z := 1750.
Definition TCP_CONNECT_TRANSMISSION_LIMIT : Z := 4.

Inductive Type_ := Datagram | Stream.
Inductive Protocol := Udp | Tcp.

#[export] Instance Type_eq_dec : EqDecision Type_.
Proof. solve_decision. Defined.
#[export] Instance Protocol_eq_dec : EqDecision Protocol.
Proof. solve_decision. Defined.

Definition ReadyRead : Z := Z.shiftl 1 0.
Definition ReadyWrite : Z := Z.shiftl 1 1.
Definition ReadyConnected : Z := Z.shiftl 1 2.
Definition ReadyHangup : Z := Z.shiftl 1 3.
Definition ReadyError : Z := Z.shiftl 1 4.
Definition ReadyAll : Z := Z.lor (Z.lor (Z.lor (Z.lor ReadyRead ReadyWrite) ReadyConnected) ReadyHangup) ReadyError.

Inductive Status :=
  | Ok | AlreadyInitialized | NotInitialized | InvalidArgument | NotSupported | CapacityReached | AccessDenied | StaleHandle
  | AddressInUse | NotBound | NotConnected | WouldBlock | BufferTooSmall | PayloadTooLarge | ConnectionRefused | ConnectionReset
  | TimedOut | TransportError.

#[export] Instance socket_Status_eq_dec : EqDecision Status.
Proof. solve_decision. Defined.

Record Endpoint := mkEndpoint { address : IPv4Address; port : Z }.

Record QueuedDatagram := mkQueued { source : Endpoint; payload : list Z; size : Z }.

Record Slot := mkSlot {
  owner : Z; generation : Z; type : Type_; protocol : Protocol; local_ : Endpoint; remote : Endpoint;
  rx : list QueuedDatagram; rx_head : nat; rx_tail : nat; rx_count : nat; tcp_session : nat;
  active : bool; bound : bool; connected : bool }.

Record TcpSession := mkSession {
  client : Client; initial_sequence : Z; connect_started_ms : Z; connect_last_transmit_ms : Z;
  terminal_status : Status; connect_transmissions : Z; was_connected : bool; s_active : bool }.

(** The transport behind the table.  Each function takes and returns the state
    behind [context]; the [tcp_client::Client] it is given is passed and returned. *)
Class Backend (W : Type) := {
  send_udp : W -> IPv4Address -> Z -> Z -> list Z -> W * Network.Status;
  poll : W -> Z -> W * Network.Status * Z;
  take_udp : W -> W * Network.Status * UdpDatagram;
  backend_monotonic_ms : W -> W * Z;
  tcp_begin_connect : W -> Client -> IPv4Address -> Z -> Z -> Z -> W * Client * Network.Status;
  tcp_progress : W -> Client -> W * Client * Network.Status;
  tcp_try_send : W -> Client -> list Z -> W * Client * Network.Status * Z;
  (** The bytes stored in the output buffer and the length stored in [*out_length]. *)
  tcp_try_receive : W -> Client -> Z -> W * Client * Network.Status * list Z * Z;
  tcp_begin_close : W -> Client -> W * Client * Network.Status }.

Record State (W : Type) := mkState {
  world : W; slots : list Slot; sessions : list TcpSession; initialized : bool; next_ephemeral : Z; next_tcp_sequence : Z }.
Arguments mkState {W} _ _ _ _ _ _.
Arguments world {W} _.
Arguments slots {W} _.
Arguments sessions {W} _.
Arguments initialized {W} _.
Arguments next_ephemeral {W} _.
Arguments next_tcp_sequence {W} _.

Definition zero_endpoint : Endpoint := mkEndpoint ZERO_IP 0.
Definition empty_queued : QueuedDatagram := mkQueued zero_endpoint (replicate (Z.to_nat UDP_MAX_PAYLOAD) 0) 0.

(** A slot that is cleared but for its generation.  The zero of the two enumerations
    is none of their values; it is never read, as the slot is not active. *)
Definition cleared (g : Z) : Slot :=
  mkSlot 0 g Datagram Udp zero_endpoint zero_endpoint (replicate MAX_RX_DATAGRAMS empty_queued) 0 0 0 MAX_TCP_SESSIONS false false false.
Definition empty_session : TcpSession := mkSession TcpClient.initialize 0 0 0 Ok 0 false false.

(** Changes of single fields. *)
Definition set_local (l : Slot) (e : Endpoint) : Slot :=
  mkSlot (owner l) (generation l) (type l) (protocol l) e (remote l) (rx l) (rx_head l) (rx_tail l) (rx_count l) (tcp_session l) (active l) true (connected l).
Definition set_remote (l : Slot) (e : Endpoint) : Slot :=
  mkSlot (owner l) (generation l) (type l) (protocol l) (local_ l) e (rx l) (rx_head l) (rx_tail l) (rx_count l) (tcp_session l) (active l) (bound l) (connected l).
Definition set_connected (l : Slot) (b : bool) : Slot :=
  mkSlot (owner l) (generation l) (type l) (protocol l) (local_ l) (remote l) (rx l) (rx_head l) (rx_tail l) (rx_count l) (tcp_session l) (active l) (bound l) b.
Definition set_rx (l : Slot) (q : list QueuedDatagram) (head tail count : nat) : Slot :=
  mkSlot (owner l) (generation l) (type l) (protocol l) (local_ l) (remote l) q head tail count (tcp_session l) (active l) (bound l) (connected l).
Definition set_session_index (l : Slot) (j : nat) : Slot :=
  mkSlot (owner l) (generation l) (type l) (protocol l) (local_ l) (remote l) (rx l) (rx_head l) (rx_tail l) (rx_count l) j (active l) (bound l) (connected l).

Definition with_client (x : TcpSession) (c : Client) : TcpSession :=
  mkSession c (initial_sequence x) (connect_started_ms x) (connect_last_transmit_ms x) (terminal_status x) (connect_transmissions x) (was_connected x) (s_active x).
Definition with_terminal (x : TcpSession) (st : Status) : TcpSession :=
  mkSession (client x) (initial_sequence x) (connect_started_ms x) (connect_last_transmit_ms x) st (connect_transmissions x) (was_connected x) (s_active x).
Definition with_was_connected (x : TcpSession) : TcpSession :=
  mkSession (client x) (initial_sequence x) (connect_started_ms x) (connect_last_transmit_ms x) (terminal_status x) (connect_transmissions x) true (s_active x).
(** Another transmission of the connection request. *)
Definition with_transmission (x : TcpSession) (now : Z) : TcpSession :=
  mkSession (client x) (initial_sequence x) (connect_started_ms x) now (terminal_status x) (u8 (connect_transmissions x + 1)) (was_connected x) (s_active x).

(** ** Addresses and handles *)

Definition address_equal (left right : IPv4Address) : bool :=
  forallb (fun i => word_at left i =? word_at right i) (seqZ 0 IPV4_ADDRESS_LENGTH).
Definition address_zero (a : IPv4Address) : bool := forallb (fun i => word_at a i =? 0) (seqZ 0 IPV4_ADDRESS_LENGTH).
Definition address_loopback (a : IPv4Address) : bool := word_at a 0 =? 127.

Definition encode_handle (index : nat) (g : Z) : Z := Z.lor (Z.shiftl g 32) (Z.of_nat index + 1).

Definition decode_index (handle : Z) : option (nat * Z) :=
  if handle =? INVALID_HANDLE then None
  else
    let encoded := Z.land handle 0xFFFFFFFF in
    if (encoded =? 0) || (Z.of_nat MAX_SOCKETS <? encoded) then None
    else
      let g := u32 (Z.shiftr handle 32) in
      if g =? 0 then None else Some (Z.to_nat (encoded - 1), g).

Definition endpoints_overlap (left right : Endpoint) : bool :=
  if negb (port left =? port right) then false
  else address_zero (address left) || address_zero (address right) || address_equal (address left) (address right).

Definition transport_status (status : Network.Status) : Status :=
  match status with
  | Network.Ok | Network.NotForUs | Network.UnsupportedProtocol => Ok
  | Network.WouldBlock | Network.QueueFull | Network.NeighborResolutionPending => WouldBlock
  | Network.BufferTooSmall => BufferTooSmall
  | Network.PayloadTooLarge => PayloadTooLarge
  | Network.NotInitialized | Network.NotConfigured => NotInitialized
  | Network.InvalidArgument | Network.InvalidConfiguration => InvalidArgument
  | _ => TransportError
  end.

(** Neither [Ok] nor [WouldBlock]. *)
Definition failed (status : Status) : bool := negb (bool_decide (status = Ok)) && negb (bool_decide (status = WouldBlock)).

(** ** Datagrams *)

Definition slot_accepts_datagram (l : Slot) (src destination : Endpoint) : bool :=
  if negb (active l) || negb (bound l) || negb (bool_decide (protocol l = Udp)) || negb (port (local_ l) =? port destination) then false
  else if negb (address_zero (address (local_ l))) && negb (address_equal (address (local_ l)) (address destination)) then false
  else negb (connected l) || (port (remote l) =? port src) && address_equal (address (remote l)) (address src).

Definition datagram_matches (l : Slot) (d : UdpDatagram) : bool :=
  slot_accepts_datagram l (mkEndpoint (u_source d) (u_source_port d)) (mkEndpoint (u_destination d) (u_destination_port d)).

(** [None] when the datagram is not queued; [bytes] is not null in either caller. *)
Definition enqueue_payload (l : Slot) (src : Endpoint) (bytes : list Z) (payload_length : Z) : option Slot :=
  if (MAX_RX_DATAGRAMS <=? rx_count l)%nat || (payload_length =? 0) || (UDP_MAX_PAYLOAD <? payload_length) then None
  else
    let n := Z.to_nat payload_length in
    let queued := mkQueued src (take n bytes ++ replicate (Z.to_nat UDP_MAX_PAYLOAD - n) 0) payload_length in
    Some (set_rx l (<[rx_head l := queued]> (rx l)) ((rx_head l + 1) mod MAX_RX_DATAGRAMS) (rx_tail l) (S (rx_count l))).

(** The length is a [size_t], whatever the backend stores in it. *)
Definition enqueue (l : Slot) (d : UdpDatagram) : option Slot :=
  enqueue_payload l (mkEndpoint (u_source d) (u_source_port d)) (u_payload d) (u64 (u_payload_length d)).

Definition canonical_loopback : IPv4Address := [127; 0; 0; 1].

Section sockets.
Context {W : Type} `{Backend W}.
Implicit Type s : State W.

(** ** The table *)

Definition slot_at s (i : nat) : Slot := nth i (slots s) (cleared 0).
Definition session_at s (j : nat) : TcpSession := nth j (sessions s) empty_session.
Definition set_world s (w : W) : State W := mkState w (slots s) (sessions s) (initialized s) (next_ephemeral s) (next_tcp_sequence s).
Definition set_slots s (l : list Slot) : State W := mkState (world s) l (sessions s) (initialized s) (next_ephemeral s) (next_tcp_sequence s).
Definition set_slot s (i : nat) (l : Slot) : State W := set_slots s (<[i := l]> (slots s)).
Definition set_sessions s (l : list TcpSession) : State W := mkState (world s) (slots s) l (initialized s) (next_ephemeral s) (next_tcp_sequence s).
Definition set_session s (j : nat) (x : TcpSession) : State W := set_sessions s (<[j := x]> (sessions s)).
Definition set_next_ephemeral s (p : Z) : State W := mkState (world s) (slots s) (sessions s) (initialized s) p (next_tcp_sequence s).
Definition set_next_sequence s (n : Z) : State W := mkState (world s) (slots s) (sessions s) (initialized s) (next_ephemeral s) n.

Definition resolve s (process handle : Z) : nat + Status :=
  match decode_index handle with
  | None => inr StaleHandle
  | Some (index, g) =>
      let slot := slot_at s index in
      if negb (active slot) || negb (generation slot =? g) then inr StaleHandle
      else if negb (owner slot =? process) then inr AccessDenied else inl index
  end.

Definition release_tcp_session s (i : nat) : State W :=
  let slot := slot_at s i in
  if (MAX_TCP_SESSIONS <=? tcp_session slot)%nat then s
  else set_slot (set_session s (tcp_session slot) empty_session) i (set_session_index slot MAX_TCP_SESSIONS).

Definition clear_slot s (i : nat) : State W :=
  let s := release_tcp_session s i in set_slot s i (cleared (generation (slot_at s i))).

Definition endpoint_in_use s (endpoint : Endpoint) (proto : Protocol) (ignored : nat) : bool :=
  existsb (fun i => let slot := slot_at s i in
    if negb (active slot) || negb (bound slot) || (i =? ignored)%nat || negb (bool_decide (protocol slot = proto)) then false
    else endpoints_overlap (local_ slot) endpoint) (seq 0 MAX_SOCKETS).

(** [n] attempts to find a free port for the slot [ignored]; 0 is none. *)
Fixpoint ephemeral_loop (n : nat) s (ignored : nat) : State W * Z :=
  match n with
  | O => (s, 0)
  | S n' =>
      let candidate := next_ephemeral s in
      let next := u16 (next_ephemeral s + 1) in
      let s := set_next_ephemeral s (if next <? EPHEMERAL_PORT_FIRST then EPHEMERAL_PORT_FIRST else next) in
      if negb (endpoint_in_use s (mkEndpoint ZERO_IP candidate) (protocol (slot_at s ignored)) ignored) then (s, candidate)
      else ephemeral_loop n' s ignored
  end.

Definition allocate_ephemeral_port s (ignored : nat) : State W * Z :=
  ephemeral_loop (Z.to_nat (65536 - EPHEMERAL_PORT_FIRST)) s ignored.

Definition first_tcp_sequence : Z := 0x4b550001.
Definition next_tcp_initial_sequence s : State W * Z :=
  let next := u32 (next_tcp_sequence s + 0x00010001) in
  (set_next_sequence s (if next =? 0 then first_tcp_sequence else next), next_tcp_sequence s).

Definition reserve_tcp_session s : State W * option nat :=
  match find_index (fun x => negb (s_active x)) (sessions s) with
  | Some j => (set_session s j (mkSession TcpClient.initialize 0 0 0 Ok 0 false true), Some j)
  | None => (s, None)
  end.

Definition monotonic_ms s : State W * Z := let '(w, now) := backend_monotonic_ms (world s) in (set_world s w, now).

(** ** TCP connections *)

Definition tcp_progress_status s (j : nat) (status : Network.Status) : State W * Status :=
  let session := session_at s j in
  if negb (bool_decide (terminal_status session = Ok)) then (s, terminal_status session)
  else if bool_decide (TcpClient.state (client session) = Reset) then
    let e := if was_connected session then ConnectionReset else ConnectionRefused in
    (set_session s j (with_terminal session e), e)
  else if bool_decide (TcpClient.state (client session) = Error) && negb (bool_decide (status = Network.WouldBlock)) then
    (set_session s j (with_terminal session TransportError), TransportError)
  else (s, transport_status status).

(** [slot.connected = session.client.connected; if (slot.connected) session.was_connected = true;] *)
Definition note_connection s (i j : nat) : State W :=
  let c := TcpClient.connected (client (session_at s j)) in
  let s := set_slot s i (set_connected (slot_at s i) c) in
  if c then set_session s j (with_was_connected (session_at s j)) else s.

(** A call of the backend with the client of session [j]. *)
Definition call_begin_connect s (i j : nat) : State W * Network.Status :=
  let slot := slot_at s i in
  let '(w, c, status) := tcp_begin_connect (world s) (client (session_at s j)) (address (remote slot)) (port (local_ slot)) (port (remote slot))
    (initial_sequence (session_at s j)) in
  (set_session (set_world s w) j (with_client (session_at s j) c), status).
Definition call_progress s (j : nat) : State W * Network.Status :=
  let '(w, c, status) := tcp_progress (world s) (client (session_at s j)) in
  (set_session (set_world s w) j (with_client (session_at s j) c), status).

(** The part of [progress_tcp_connection] from the clock on. *)
Definition connect_timer s (i j : nat) : State W * Status :=
  let '(s, now) := monotonic_ms s in
  let session := session_at s j in
  if TCP_CONNECT_TIMEOUT_MS <=? u64 (now - connect_started_ms session) then
    (set_session s j (with_terminal (with_client session (TcpClient.disconnect (client session) Error)) TimedOut), TimedOut)
  else if (connect_transmissions session <? TCP_CONNECT_TRANSMISSION_LIMIT) &&
          (TCP_SYN_RETRY_MS <=? u64 (now - connect_last_transmit_ms session)) then
    let '(s, retry_status) := call_begin_connect s i j in
    let s := set_session s j (with_transmission (session_at s j) now) in
    let s := note_connection s i j in
    let '(s, mapped) := tcp_progress_status s j retry_status in
    if failed mapped then (s, mapped) else if connected (slot_at s i) then (s, Ok) else (s, WouldBlock)
  else (s, WouldBlock).

Definition progress_tcp_connection s (i j : nat) : State W * Status :=
  if negb (bool_decide (terminal_status (session_at s j) = Ok)) then (s, terminal_status (session_at s j))
  else
    let '(s, backend_status) := call_progress s j in
    let s := note_connection s i j in
    let '(s, mapped) := tcp_progress_status s j backend_status in
    if failed mapped then (s, mapped)
    else if connected (slot_at s i) then (s, Ok)
    else if negb (bool_decide (TcpClient.state (client (session_at s j)) = SynSent)) then
      (s, if bool_decide (mapped = Ok) then WouldBlock else mapped)
    else connect_timer s i j.

(** ** Datagrams between sockets and from the network *)

Definition send_loopback s (i : nat) (bytes : list Z) : State W * Status :=
  let sender := slot_at s i in
  let src := mkEndpoint (if address_zero (address (local_ sender)) then canonical_loopback else address (local_ sender)) (port (local_ sender)) in
  let destination := remote sender in
  match find_index (fun slot => slot_accepts_datagram slot src destination) (slots s) with
  | None => (s, Ok)
  | Some k =>
      match enqueue_payload (slot_at s k) src bytes (Z.of_nat (length bytes)) with
      | Some slot => (set_slot s k slot, Ok)
      | None => (s, WouldBlock)
      end
  end.

Fixpoint pump_loop (n : nat) s (routed : Z) (queue_full : bool) : State W * Status * Z :=
  match n with
  | O => (s, if queue_full then WouldBlock else Ok, routed)
  | S n' =>
      let '(w, poll_result, processed) := poll (world s) 1 in
      let s := set_world s w in
      if failed (transport_status poll_result) then (s, transport_status poll_result, routed)
      else
        let '(w, take_status, datagram) := take_udp (world s) in
        let s := set_world s w in
        if bool_decide (take_status = Network.Ok) then
          match find_index (fun slot => datagram_matches slot datagram) (slots s) with
          | None => pump_loop n' s routed queue_full
          | Some k =>
              match enqueue (slot_at s k) datagram with
              | Some slot => pump_loop n' (set_slot s k slot) (routed + 1) queue_full
              | None => pump_loop n' s routed true
              end
          end
        else if negb (bool_decide (take_status = Network.WouldBlock)) && negb (bool_decide (take_status = Network.NotForUs)) then
          (s, transport_status take_status, routed)
        else if processed =? 0 then (s, if queue_full then WouldBlock else Ok, routed)
        else pump_loop n' s routed queue_full
  end.

(** ** Entry points *)

(** [complete] says that no pointer of the backend is null. *)
Definition initialize s (complete : bool) : State W * Status :=
  if initialized s then (s, AlreadyInitialized)
  else if negb complete then (s, InvalidArgument)
  else (mkState (world s) (replicate MAX_SOCKETS (cleared 0)) (replicate MAX_TCP_SESSIONS empty_session) true EPHEMERAL_PORT_FIRST
          first_tcp_sequence, Ok).

Definition create s (process : Z) (ty : Type_) (proto : Protocol) (has_output : bool) : State W * Status * Z :=
  if negb (initialized s) then (s, NotInitialized, INVALID_HANDLE)
  else if (process =? 0) || negb has_output then (s, InvalidArgument, INVALID_HANDLE)
  else if negb (bool_decide (ty = Datagram /\ proto = Udp)) && negb (bool_decide (ty = Stream /\ proto = Tcp)) then
    (s, NotSupported, INVALID_HANDLE)
  else
    match find_index (fun slot => negb (active slot)) (slots s) with
    | None => (s, CapacityReached, INVALID_HANDLE)
    | Some index =>
        let next := u32 (generation (slot_at s index) + 1) in
        let g := if next =? 0 then 1 else next in
        (set_slot s index (mkSlot process g ty proto zero_endpoint zero_endpoint (replicate MAX_RX_DATAGRAMS empty_queued) 0 0 0
           MAX_TCP_SESSIONS true false false), Ok, encode_handle index g)
    end.

Definition bind s (process handle : Z) (endpoint : Endpoint) : State W * Status :=
  if negb (initialized s) then (s, NotInitialized)
  else if port endpoint =? 0 then (s, InvalidArgument)
  else
    match resolve s process handle with
    | inr failure => (s, failure)
    | inl i =>
        if endpoint_in_use s endpoint (protocol (slot_at s i)) i then (s, AddressInUse)
        else (set_slot s i (set_local (slot_at s i) endpoint), Ok)
    end.

(** The ephemeral port that [connect] binds: [false] when there is none. *)
Definition bind_ephemeral s (i : nat) : State W * bool :=
  if bound (slot_at s i) then (s, true)
  else
    let '(s, p) := allocate_ephemeral_port s i in
    if p =? 0 then (s, false) else (set_slot s i (set_local (slot_at s i) (mkEndpoint ZERO_IP p)), true).

(** The first attempt to connect, with a new session. *)
Definition open_session s (i : nat) (endpoint : Endpoint) : State W * Status :=
  match reserve_tcp_session s with
  | (s, None) => (s, CapacityReached)
  | (s, Some j) =>
      let s := set_slot s i (set_remote (set_session_index (slot_at s i) j) endpoint) in
      let '(s, sequence) := next_tcp_initial_sequence s in
      let '(s, now) := monotonic_ms s in
      let s := set_session s j (mkSession (client (session_at s j)) sequence now now Ok 1 false (s_active (session_at s j))) in
      let '(s, begin_status) := call_begin_connect s i j in
      let s := note_connection s i j in
      let '(s, mapped) := tcp_progress_status s j begin_status in
      if failed mapped then (release_tcp_session s i, mapped) else (s, if connected (slot_at s i) then Ok else WouldBlock)
  end.

Definition connect s (process handle : Z) (endpoint : Endpoint) : State W * Status :=
  if negb (initialized s) then (s, NotInitialized)
  else if (port endpoint =? 0) || address_zero (address endpoint) then (s, InvalidArgument)
  else
    match resolve s process handle with
    | inr failure => (s, failure)
    | inl i =>
        let '(s, has_port) := bind_ephemeral s i in
        if negb has_port then (s, CapacityReached)
        else
          let slot := slot_at s i in
          if bool_decide (protocol slot = Udp /\ type slot = Datagram) then
            (set_slot s i (set_connected (set_remote slot endpoint) true), Ok)
          else if negb (bool_decide (protocol slot = Tcp)) || negb (bool_decide (type slot = Stream)) then (s, NotSupported)
          else if (tcp_session slot <? MAX_TCP_SESSIONS)%nat then
            if negb (address_equal (address (remote slot)) (address endpoint)) || negb (port (remote slot) =? port endpoint) then
              (s, InvalidArgument)
            else progress_tcp_connection s i (tcp_session slot)
          else open_session s i endpoint
    end.

(** The last component is what is stored in [*out_sent]. *)
Definition send s (process handle : Z) (data : option (list Z)) : State W * Status * Z :=
  if negb (initialized s) then (s, NotInitialized, 0)
  else
    match data with
    | None | Some [] => (s, InvalidArgument, 0)
    | Some bytes =>
        match resolve s process handle with
        | inr failure => (s, failure, 0)
        | inl i =>
            let slot := slot_at s i in
            let n := Z.of_nat (length bytes) in
            if negb (bound slot) then (s, NotBound, 0)
            else if bool_decide (protocol slot = Udp /\ type slot = Datagram) then
              if UDP_MAX_PAYLOAD <? n then (s, PayloadTooLarge, 0)
              else if negb (connected slot) then (s, NotConnected, 0)
              else
                let '(s, status) :=
                  if address_loopback (address (remote slot)) then send_loopback s i bytes
                  else
                    let '(w, st) := send_udp (world s) (address (remote slot)) (port (local_ slot)) (port (remote slot)) bytes in
                    (set_world s w, transport_status st) in
                (s, status, if bool_decide (status = Ok) then n else 0)
            else if negb (bool_decide (protocol slot = Tcp)) || negb (bool_decide (type slot = Stream)) ||
                    (MAX_TCP_SESSIONS <=? tcp_session slot)%nat then (s, NotConnected, 0)
            else
              let j := tcp_session slot in
              let '(s, progress_status) := if connected slot then (s, Ok) else progress_tcp_connection s i j in
              if negb (bool_decide (progress_status = Ok)) then (s, progress_status, 0)
              else
                let '(w, c, st, sent) := tcp_try_send (world s) (client (session_at s j)) bytes in
                let s := set_session (set_world s w) j (with_client (session_at s j) c) in
                let '(s, status) := tcp_progress_status s j st in
                (s, status, if bool_decide (status = Ok) then sent else 0)
        end
    end.

(** The last component is what is stored in [*out_routed]. *)
Definition pump s (budget : nat) : State W * Status * Z :=
  if negb (initialized s) then (s, NotInitialized, 0)
  else if (budget =? 0)%nat then (s, Ok, 0) else pump_loop budget s 0 false.

Record Received := mkReceived { output : list Z; out_size : Z; out_source : option Endpoint }.
Definition nothing : Received := mkReceived [] 0 None.

(** [slot.rx[slot.rx_tail]] is returned and cleared. *)
Definition dequeue (l : Slot) : Slot :=
  set_rx l (<[rx_tail l := empty_queued]> (rx l)) (rx_head l) ((rx_tail l + 1) mod MAX_RX_DATAGRAMS) (rx_count l - 1).

Definition receive_stream s (i : nat) (capacity : Z) : State W * Status * Received :=
  let slot := slot_at s i in
  if (MAX_TCP_SESSIONS <=? tcp_session slot)%nat then (s, NotConnected, nothing)
  else
    let j := tcp_session slot in
    if bool_decide (TcpClient.state (client (session_at s j)) = Closed) then (s, Ok, mkReceived [] 0 (Some (remote slot)))
    else
      let '(s, progress_status) := if connected slot then (s, Ok) else progress_tcp_connection s i j in
      if negb (bool_decide (progress_status = Ok)) then (s, progress_status, nothing)
      else
        let '(w, c, st, bytes, n) := tcp_try_receive (world s) (client (session_at s j)) capacity in
        let s := set_session (set_world s w) j (with_client (session_at s j) c) in
        let '(s, status) := tcp_progress_status s j st in
        let s := set_slot s i (set_connected (slot_at s i) (TcpClient.connected (client (session_at s j)))) in
        (s, status, mkReceived bytes n (Some (remote (slot_at s i)))).

(** [pump] when there is no datagram to read: the status on which to return. *)
Definition refill s (i : nat) : State W * Status :=
  if (rx_count (slot_at s i) =? 0)%nat then
    let '(s, pump_status, _) := pump s 8 in (s, if failed pump_status then pump_status else Ok)
  else (s, Ok).

Definition receive_datagram s (i : nat) (capacity : Z) : State W * Status * Received :=
  let '(s, status) := refill s i in
  if failed status then (s, status, nothing)
  else
    let slot := slot_at s i in
    if (rx_count slot =? 0)%nat then (s, WouldBlock, nothing)
    else
      let queued := nth (rx_tail slot) (rx slot) empty_queued in
      if capacity <? size queued then (s, BufferTooSmall, mkReceived [] (size queued) None)
      else (set_slot s i (dequeue slot), Ok, mkReceived (take (Z.to_nat (size queued)) (payload queued)) (size queued) (Some (source queued))).

Definition receive s (process handle : Z) (has_output : bool) (capacity : Z) (has_out_size : bool) : State W * Status * Received :=
  if negb (initialized s) then (s, NotInitialized, nothing)
  else if negb has_output || (capacity =? 0) || negb has_out_size then (s, InvalidArgument, nothing)
  else
    match resolve s process handle with
    | inr failure => (s, failure, nothing)
    | inl i =>
        let slot := slot_at s i in
        if negb (bound slot) then (s, NotBound, nothing)
        else if bool_decide (protocol slot = Tcp /\ type slot = Stream) then receive_stream s i capacity
        else if negb (bool_decide (protocol slot = Udp)) || negb (bool_decide (type slot = Datagram)) then (s, NotSupported, nothing)
        else receive_datagram s i capacity
    end.

(** [close] of a stream socket whose session [j] is open. *)
Definition close_session s (i j : nat) : State W * Status :=
  let '(w, c, st) := tcp_begin_close (world s) (client (session_at s j)) in
  let s := set_session (set_world s w) j (with_client (session_at s j) c) in
  let '(s, begin_status) := tcp_progress_status s j st in
  if failed begin_status then (s, begin_status)
  else
    let '(s, progress_status) :=
      if negb (bool_decide (TcpClient.state (client (session_at s j)) = Closed)) then
        let '(s, st) := call_progress s j in tcp_progress_status s j st
      else (s, Ok) in
    if failed progress_status then (s, progress_status)
    else if negb (bool_decide (TcpClient.state (client (session_at s j)) = Closed)) then (s, WouldBlock)
    else (clear_slot s i, Ok).

Definition close s (process handle : Z) : State W * Status :=
  if negb (initialized s) then (s, NotInitialized)
  else
    match resolve s process handle with
    | inr failure => (s, failure)
    | inl i =>
        let slot := slot_at s i in
        if negb (bool_decide (protocol slot = Tcp)) || negb (bool_decide (type slot = Stream)) ||
           (MAX_TCP_SESSIONS <=? tcp_session slot)%nat then (clear_slot s i, Ok)
        else
          let session := session_at s (tcp_session slot) in
          if negb (bool_decide (terminal_status session = Ok)) || bool_decide (TcpClient.state (client session) = Closed) then
            (clear_slot s i, Ok)
          else close_session s i (tcp_session slot)
    end.

Definition flag (b : bool) (f : Z) : Z := if b then f else 0.

(** The flags of a stream socket with session [j]. *)
Definition stream_flags (l : Slot) (x : TcpSession) : Z :=
  let c := client x in
  Z.lor (Z.lor (Z.lor (Z.lor
    (flag (connected l) ReadyConnected)
    (flag (connected l && bool_decide (TcpClient.state c = Established)) ReadyWrite))
    (flag (negb (pending_length c =? 0) || peer_closed c) ReadyRead))
    (flag (peer_closed c || bool_decide (TcpClient.state c = CloseWait) || bool_decide (TcpClient.state c = Closed)) ReadyHangup))
    (flag (bool_decide (TcpClient.state c = Reset) || bool_decide (TcpClient.state c = Error)) ReadyError).

(** The last component is what is stored in [*out_ready]. *)
Definition readiness s (process handle requested : Z) (has_out : bool) : State W * Status * Z :=
  if negb (initialized s) then (s, NotInitialized, 0)
  else if negb has_out || (requested =? 0) || negb (Z.land requested (Z.lnot ReadyAll) =? 0) then (s, InvalidArgument, 0)
  else
    match resolve s process handle with
    | inr failure => (s, failure, 0)
    | inl i =>
        let slot := slot_at s i in
        if bool_decide (protocol slot = Udp /\ type slot = Datagram) then
          let '(s, status) := if negb (Z.land requested ReadyRead =? 0) then refill s i else (s, Ok) in
          if failed status then (s, status, 0)
          else
            let slot := slot_at s i in
            let ready := Z.lor (flag (negb (rx_count slot =? 0)%nat) ReadyRead)
              (flag (bound slot && connected slot) (Z.lor ReadyWrite ReadyConnected)) in
            (s, Ok, Z.land ready requested)
        else if negb (bool_decide (protocol slot = Tcp)) || negb (bool_decide (type slot = Stream)) then (s, NotSupported, 0)
        else if (MAX_TCP_SESSIONS <=? tcp_session slot)%nat then (s, Ok, 0)
        else
          let j := tcp_session slot in
          let '(s, progress) := progress_tcp_connection s i j in
          let ready := stream_flags (slot_at s i) (session_at s j) in
          if failed progress && (Z.land ready ReadyError =? 0) then (s, progress, 0) else (s, Ok, Z.land ready requested)
    end.

Definition release_slot s (process : Z) (i : nat) : State W :=
  if active (slot_at s i) && (owner (slot_at s i) =? process) then clear_slot s i else s.
Definition release_process s (process : Z) : State W :=
  if negb (initialized s) || (process =? 0) then s else foldl (fun s i => release_slot s process i) s (seq 0 MAX_SOCKETS).

Definition active_count s (process : Z) : Z :=
  if negb (initialized s) then 0 else countb (fun slot => active slot && ((process =? 0) || (owner slot =? process))) (slots s).

End sockets.
