(* ===== verification/SocketTheorems.v ===== *)
(** * Theorems on sockets

    The invariant of the socket table of [Sockets] and what every call keeps of it,
    for any transport: the steps on a stream socket's session ([progresses]), the
    arrival of datagrams ([receives]) and the entry points ([effect], [sockt_step_ok]).
    Then the theorems: the tables agree ([socket_invariant]), processes are isolated
    from each other ([socket_isolation]), closed handles stay stale
    ([closed_handle_stale]), a datagram socket is a queue ([datagram_fifo]) and the
    loopback fills it ([loopback_delivery]), a port is always found
    ([ephemeral_port_found]) and a connection attempt ends ([connect_deadline]). *)

From S2P Require Import Prelude Ring Packet Network Protocols NetworkStack TcpClient Sockets.

(** ** The invariant *)

(** The datagrams a slot holds, oldest first. *)
Definition rx_list (l : Slot) : list QueuedDatagram := ring_list empty_queued (rx l) (rx_tail l) (rx_count l).

Definition queued_ok (q : QueuedDatagram) : Prop := 0 < size q <= UDP_MAX_PAYLOAD.

Record slot_ok (l : Slot) : Prop := {
  so_generation : 1 <= generation l < 2 ^ 32;
  so_owner : owner l ≠ 0;
  so_kind : type l = Datagram /\ protocol l = Udp /\ tcp_session l = MAX_TCP_SESSIONS \/
            type l = Stream /\ protocol l = Tcp /\ (tcp_session l <= MAX_TCP_SESSIONS)%nat /\ rx_count l = 0%nat;
  so_ring : ring_ok MAX_RX_DATAGRAMS (rx l) (rx_tail l) (rx_head l) (rx_count l);
  so_queue : Forall queued_ok (rx_list l);
  so_port : bound l = true -> port (local_ l) ≠ 0;
  so_session : (tcp_session l < MAX_TCP_SESSIONS)%nat -> bound l = true }.

Definition slot_fine (l : Slot) : Prop := if active l then slot_ok l else exists g, 0 <= g < 2 ^ 32 /\ l = cleared g.

Definition session_fine (x : TcpSession) : Prop := if s_active x then 0 <= connect_transmissions x <= TCP_CONNECT_TRANSMISSION_LIMIT else x = empty_session.

(** No two sockets of a protocol receive what is sent to one address and port. *)
Definition apart (l m : Slot) : Prop :=
  active l = true -> bound l = true -> active m = true -> bound m = true -> protocol l = protocol m -> endpoints_overlap (local_ l) (local_ m) = false.

Section theory.
Context {W : Type} `{Backend W}.
Implicit Type s : State W.

Record inv s : Prop := {
  iv_initialized : initialized s = true;
  iv_slots : length (slots s) = MAX_SOCKETS;
  iv_sessions : length (sessions s) = MAX_TCP_SESSIONS;
  iv_slot : forall i, (i < MAX_SOCKETS)%nat -> slot_fine (slot_at s i);
  iv_session : forall j, (j < MAX_TCP_SESSIONS)%nat -> session_fine (session_at s j);
  iv_owned : forall i, (i < MAX_SOCKETS)%nat -> (tcp_session (slot_at s i) < MAX_TCP_SESSIONS)%nat -> s_active (session_at s (tcp_session (slot_at s i))) = true;
  iv_owner : forall j, (j < MAX_TCP_SESSIONS)%nat -> s_active (session_at s j) = true -> exists i, (i < MAX_SOCKETS)%nat /\ tcp_session (slot_at s i) = j;
  iv_unique : forall i k, (i < MAX_SOCKETS)%nat -> (k < MAX_SOCKETS)%nat -> (tcp_session (slot_at s i) < MAX_TCP_SESSIONS)%nat ->
    tcp_session (slot_at s i) = tcp_session (slot_at s k) -> i = k;
  iv_apart : forall i k, (i < MAX_SOCKETS)%nat -> (k < MAX_SOCKETS)%nat -> i ≠ k -> apart (slot_at s i) (slot_at s k);
  iv_ephemeral : EPHEMERAL_PORT_FIRST <= next_ephemeral s < 65536 }.

(** ** Updates of the table *)

Lemma slot_at_set s i l k : (i < length (slots s))%nat -> slot_at (set_slot s i l) k = if decide (k = i) then l else slot_at s k.
Proof.
  intros Hi. unfold slot_at, set_slot, set_slots. cbn [slots]. destruct (decide (k = i)) as [->|Hne].
  - apply nth_lookup_Some. by apply list_lookup_insert_eq.
  - rewrite !nth_lookup. by rewrite list_lookup_insert_ne.
Qed.

Lemma session_at_set s j x k : (j < length (sessions s))%nat -> session_at (set_session s j x) k = if decide (k = j) then x else session_at s k.
Proof.
  intros Hj. unfold session_at, set_session, set_sessions. cbn [sessions]. destruct (decide (k = j)) as [->|Hne].
  - apply nth_lookup_Some. by apply list_lookup_insert_eq.
  - rewrite !nth_lookup. by rewrite list_lookup_insert_ne.
Qed.

Lemma overlap_sym e f : endpoints_overlap e f = endpoints_overlap f e.
Proof.
  unfold endpoints_overlap. rewrite (Z.eqb_sym (port f)). destruct (port e =? port f); cbn [negb]; [|done].
  assert (address_equal (address f) (address e) = address_equal (address e) (address f)) as ->.
  { unfold address_equal. generalize (seqZ 0 IPV4_ADDRESS_LENGTH). intros l. induction l as [|i l IH]; [done|]. cbn [forallb]. by rewrite IH, Z.eqb_sym. }
  by rewrite (orb_comm (address_zero (address f))).
Qed.

Lemma apart_sym l m : apart l m -> apart m l.
Proof. intros Ha H1 H2 H3 H4 H5. rewrite overlap_sym. by apply Ha. Qed.

Lemma slot_lookup s i : inv s -> (i < MAX_SOCKETS)%nat -> slots s !! i = Some (slot_at s i).
Proof.
  intros Hs Hi. destruct (lookup_lt_is_Some_2 (slots s) i) as [l Hl]; [rewrite (iv_slots s Hs); lia|]. unfold slot_at. by rewrite (nth_lookup_Some _ _ _ _ Hl).
Qed.

(** A change of a slot that keeps its session. *)
Lemma inv_set_slot s i l : inv s -> (i < MAX_SOCKETS)%nat -> slot_fine l -> tcp_session l = tcp_session (slot_at s i) ->
  (forall k, (k < MAX_SOCKETS)%nat -> k ≠ i -> apart l (slot_at s k)) -> inv (set_slot s i l).
Proof.
  intros Hs Hi Hl Et Ha. assert (i < length (slots s))%nat as Hlen by (rewrite (iv_slots s Hs); lia).
  assert (forall k, tcp_session (slot_at (set_slot s i l) k) = tcp_session (slot_at s k)) as Htcp.
  { intros k. rewrite slot_at_set by done. by destruct (decide (k = i)) as [->|]. }
  refine (Build_inv (set_slot s i l) (iv_initialized s Hs) _ (iv_sessions s Hs) _ (iv_session s Hs) _ _ _ _ (iv_ephemeral s Hs)).
  - cbn. rewrite length_insert. apply Hs.
  - intros k Hk. rewrite slot_at_set by done. destruct (decide (k = i)); [done|by apply Hs].
  - intros k Hk. rewrite Htcp. by apply (iv_owned s Hs).
  - intros j Hj Hx. destruct (iv_owner s Hs j Hj Hx) as (k & Hk & E). exists k. by rewrite Htcp.
  - intros k m Hk Hm. rewrite !Htcp. by apply (iv_unique s Hs).
  - intros k m Hk Hm Hne. rewrite !slot_at_set by done. destruct (decide (k = i)) as [->|], (decide (m = i)) as [->|]; [done| | |by apply (iv_apart s Hs)].
    + by apply Ha.
    + by apply apart_sym, Ha.
Qed.

(** A change that also keeps where the slot receives. *)
Lemma inv_keep_slot s i l : inv s -> (i < MAX_SOCKETS)%nat -> active (slot_at s i) = true -> active l = true -> slot_ok l ->
  tcp_session l = tcp_session (slot_at s i) -> bound l = bound (slot_at s i) -> local_ l = local_ (slot_at s i) -> protocol l = protocol (slot_at s i) ->
  inv (set_slot s i l).
Proof.
  intros Hs Hi Ha0 Ha Hl Et Eb El Ep. apply inv_set_slot; [done|done|unfold slot_fine; by rewrite Ha|done|].
  intros k Hk Hne _ Hb Hak Hbk Epk. rewrite El. rewrite Eb in Hb. rewrite Ep in Epk. by apply (iv_apart s Hs i k Hi Hk (not_eq_sym Hne)).
Qed.

Lemma inv_set_session s j x : inv s -> (j < MAX_TCP_SESSIONS)%nat -> s_active (session_at s j) = true -> s_active x = true -> session_fine x ->
  inv (set_session s j x).
Proof.
  intros Hs Hj Ha Hx Hf. assert (j < length (sessions s))%nat as Hlen by (rewrite (iv_sessions s Hs); lia).
  assert (forall k, s_active (session_at (set_session s j x) k) = s_active (session_at s k)) as Hact.
  { intros k. rewrite session_at_set by done. destruct (decide (k = j)) as [->|]; congruence. }
  refine (Build_inv (set_session s j x) (iv_initialized s Hs) (iv_slots s Hs) _ (iv_slot s Hs) _ _ _ (iv_unique s Hs) (iv_apart s Hs) (iv_ephemeral s Hs)).
  - cbn. rewrite length_insert. apply Hs.
  - intros k Hk. rewrite session_at_set by done. destruct (decide (k = j)); [done|by apply Hs].
  - intros i Hi Ht. rewrite Hact. by apply (iv_owned s Hs).
  - intros k Hk. rewrite Hact. by apply (iv_owner s Hs).
Qed.

Lemma inv_ext s s' : slots s' = slots s -> sessions s' = sessions s -> initialized s' = initialized s ->
  EPHEMERAL_PORT_FIRST <= next_ephemeral s' < 65536 -> inv s -> inv s'.
Proof.
  intros E1 E2 E3 E4 []. constructor; unfold slot_at, session_at in *; rewrite ?E1, ?E2, ?E3; done.
Qed.

Lemma inv_world s w : inv s -> inv (set_world s w).
Proof. intros Hs. by apply (inv_ext s); [| | |apply Hs|]. Qed.

Lemma owned_active s i : inv s -> (i < MAX_SOCKETS)%nat -> (tcp_session (slot_at s i) < MAX_TCP_SESSIONS)%nat -> active (slot_at s i) = true.
Proof.
  intros Hs Hi Ht. pose proof (iv_slot s Hs i Hi) as Hf. unfold slot_fine in Hf. destruct (active (slot_at s i)) eqn:E; [done|].
  destruct Hf as (g & _ & E'). rewrite E' in Ht. cbn in Ht. lia.
Qed.

Lemma active_ok s i : inv s -> (i < MAX_SOCKETS)%nat -> active (slot_at s i) = true -> slot_ok (slot_at s i).
Proof. intros Hs Hi Ha. pose proof (iv_slot s Hs i Hi) as Hf. unfold slot_fine in Hf. by rewrite Ha in Hf. Qed.

Lemma session_le s i : inv s -> (i < MAX_SOCKETS)%nat -> (tcp_session (slot_at s i) <= MAX_TCP_SESSIONS)%nat.
Proof.
  intros Hs Hi. pose proof (iv_slot s Hs i Hi) as Hf. unfold slot_fine in Hf. destruct (active (slot_at s i)) eqn:E.
  - destruct (so_kind _ Hf) as [(_ & _ & ->)|(_ & _ & ? & _)]; lia.
  - destruct Hf as (g & _ & ->). cbn. lia.
Qed.

(** ** What a call leaves alone *)

(** A slot that only received datagrams. *)
Definition grown (l m : Slot) : Prop :=
  m = set_rx l (rx m) (rx_head m) (rx_tail m) (rx_count m) /\ exists more, rx_list m = rx_list l ++ more.

Lemma grown_refl l : grown l l.
Proof. split; [by destruct l|]. exists []. by rewrite app_nil_r. Qed.

Lemma grown_trans l m n : grown l m -> grown m n -> grown l n.
Proof.
  intros [E1 (q1 & E2)] [E3 (q2 & E4)]. split; [rewrite E3, E1; by destruct l|]. exists (q1 ++ q2). by rewrite E4, E2, app_assoc.
Qed.

(** The slots other than [i] only received datagrams, and their sessions did not change. *)
Definition kept s s' (i : nat) : Prop := forall k, (k < MAX_SOCKETS)%nat -> k ≠ i ->
  grown (slot_at s k) (slot_at s' k) /\
  ((tcp_session (slot_at s k) < MAX_TCP_SESSIONS)%nat -> session_at s' (tcp_session (slot_at s k)) = session_at s (tcp_session (slot_at s k))).

Lemma grown_session l m : grown l m -> tcp_session m = tcp_session l.
Proof. intros [-> _]. done. Qed.

Lemma sockt_kept_refl s i : kept s s i.
Proof. intros k _ _. split; [apply grown_refl|done]. Qed.

Lemma kept_trans s1 s2 s3 i : kept s1 s2 i -> kept s2 s3 i -> kept s1 s3 i.
Proof.
  intros H1 H2 k Hk Hne. destruct (H1 k Hk Hne) as [G1 S1], (H2 k Hk Hne) as [G2 S2]. split; [by eapply grown_trans|].
  intros Ht. rewrite (grown_session _ _ G1) in S2. rewrite S2, S1; done.
Qed.

(** The same tables with other backend state or counters. *)
Lemma kept_ext s s' i : slots s' = slots s -> sessions s' = sessions s -> kept s s' i.
Proof. intros E1 E2 k _ _. unfold slot_at, session_at. rewrite E1, E2. split; [apply grown_refl|done]. Qed.

Lemma kept_set_slot s i l : inv s -> (i < MAX_SOCKETS)%nat -> kept s (set_slot s i l) i.
Proof.
  intros Hs Hi k Hk Hne. rewrite slot_at_set by (rewrite (iv_slots s Hs); lia). rewrite decide_False by done. split; [apply grown_refl|done].
Qed.

(** A session belongs to one slot. *)
Lemma kept_set_session s i x : inv s -> (i < MAX_SOCKETS)%nat -> (tcp_session (slot_at s i) < MAX_TCP_SESSIONS)%nat ->
  kept s (set_session s (tcp_session (slot_at s i)) x) i.
Proof.
  intros Hs Hi Ht k Hk Hne. split; [apply grown_refl|]. intros Htk. rewrite session_at_set by (rewrite (iv_sessions s Hs); lia).
  destruct (decide _) as [E|]; [|done]. destruct Hne. symmetry. by apply (iv_unique s Hs).
Qed.

(** ** Stream sockets *)

(** Slot [i] owns session [j]. *)
Definition owns s (i j : nat) : Prop := inv s /\ (i < MAX_SOCKETS)%nat /\ tcp_session (slot_at s i) = j /\ (j < MAX_TCP_SESSIONS)%nat.

(** A step on the connection of slot [i]: of the slots, only whether [i] is
    connected changes, and of the sessions, only the slot's own. *)
Record progresses s s' (i : nat) : Prop := {
  pg_inv : inv s';
  pg_kept : kept s s' i;
  pg_own : exists b, slot_at s' i = set_connected (slot_at s i) b }.

Lemma progresses_refl s i : inv s -> progresses s s i.
Proof. intros Hs. constructor; [done|apply sockt_kept_refl|]. exists (connected (slot_at s i)). by destruct (slot_at s i). Qed.

Lemma progresses_trans s1 s2 s3 i : progresses s1 s2 i -> progresses s2 s3 i -> progresses s1 s3 i.
Proof.
  intros [I1 K1 (b & E1)] [I2 K2 (b' & E2)]. constructor; [done|by apply (kept_trans s1 s2)|]. exists b'. by rewrite E2, E1.
Qed.

Lemma progresses_owns s s' i j : owns s i j -> progresses s s' i -> owns s' i j.
Proof. intros (Hs & Hi & E & Hj) [Hs' _ (b & E')]. split_and!; [done|done| |done]. by rewrite E'. Qed.

Lemma progresses_world s w i : inv s -> progresses s (set_world s w) i.
Proof.
  intros Hs. constructor; [by apply inv_world|by apply kept_ext|]. exists (connected (slot_at s i)). by destruct (slot_at s i) eqn:E.
Qed.

Lemma owns_active s i j : owns s i j -> s_active (session_at s j) = true /\ session_fine (session_at s j) /\ (j < length (sessions s))%nat.
Proof.
  intros (Hs & Hi & <- & Hj). split_and!; [by apply (iv_owned s Hs)|by apply (iv_session s Hs)|by rewrite (iv_sessions s Hs)].
Qed.

Lemma progresses_session s i j x : owns s i j -> s_active x = true -> session_fine x -> progresses s (set_session s j x) i.
Proof.
  intros Ho Hx Hf. destruct (owns_active s i j Ho) as (Ha & _ & _). destruct Ho as (Hs & Hi & <- & Hj). constructor.
  - by apply inv_set_session.
  - by apply kept_set_session.
  - exists (connected (slot_at s i)). change (slot_at (set_session s _ x) i) with (slot_at s i). by destruct (slot_at s i).
Qed.

(** A change of the session that keeps its count of transmissions. *)
Lemma progresses_same s i j x : owns s i j -> s_active x = s_active (session_at s j) -> connect_transmissions x = connect_transmissions (session_at s j) ->
  progresses s (set_session s j x) i.
Proof.
  intros Ho E1 E2. destruct (owns_active s i j Ho) as (Ha & Hf & _). rewrite Ha in E1. apply progresses_session; [done|done|].
  unfold session_fine in *. by rewrite E1, E2, Ha in *.
Qed.

Lemma progresses_connected s i j b : owns s i j -> progresses s (set_slot s i (set_connected (slot_at s i) b)) i.
Proof.
  intros (Hs & Hi & E & Hj). constructor.
  - pose proof (owned_active s i Hs Hi ltac:(rewrite E; done)) as Ha. apply inv_keep_slot; try done. by destruct (active_ok s i Hs Hi Ha).
  - by apply kept_set_slot.
  - exists b. rewrite slot_at_set by (rewrite (iv_slots s Hs); lia). by rewrite decide_True.
Qed.

Lemma note_connection_ok s i j : owns s i j -> progresses s (note_connection s i j) i.
Proof.
  intros Ho. unfold note_connection. pose proof (progresses_connected s i j (TcpClient.connected (client (session_at s j))) Ho) as Hp.
  destruct (TcpClient.connected _) eqn:E; [|done]. eapply progresses_trans; [exact Hp|]. by apply progresses_same; [apply (progresses_owns s)| |].
Qed.

Lemma tcp_progress_status_ok s i j status : owns s i j -> progresses s (fst (tcp_progress_status s j status)) i.
Proof.
  intros Ho. assert (inv s) as Hs by apply Ho. unfold tcp_progress_status. destruct (negb _); [by apply progresses_refl|].
  destruct (bool_decide _); [by apply progresses_same|]. destruct (_ && _); [by apply progresses_same|by apply progresses_refl].
Qed.

Lemma client_session_ok s i j w c : owns s i j -> progresses s (set_session (set_world s w) j (with_client (session_at s j) c)) i.
Proof.
  intros Ho. assert (inv s) as Hs by apply Ho. pose proof (progresses_world s w i Hs) as Hw. eapply progresses_trans; [exact Hw|].
  by apply progresses_same; [apply (progresses_owns s)| |].
Qed.

Lemma call_begin_connect_ok s i j : owns s i j -> progresses s (fst (call_begin_connect s i j)) i /\
  connect_transmissions (session_at (fst (call_begin_connect s i j)) j) = connect_transmissions (session_at s j).
Proof.
  intros Ho. destruct (owns_active s i j Ho) as (_ & _ & Hl). unfold call_begin_connect. destruct (tcp_begin_connect _ _ _ _ _ _) as [[w c] st].
  cbn [fst]. split; [by apply client_session_ok|]. rewrite session_at_set by done. by rewrite decide_True.
Qed.

Lemma call_progress_ok s i j : owns s i j -> progresses s (fst (call_progress s j)) i.
Proof. intros Ho. unfold call_progress. destruct (tcp_progress _ _) as [[w c] st]. by apply client_session_ok. Qed.

Lemma monotonic_ms_ok s i : inv s -> progresses s (fst (monotonic_ms s)) i.
Proof. intros Hs. unfold monotonic_ms. destruct (backend_monotonic_ms _) as [w now]. by apply progresses_world. Qed.

(** After the step [P] of a call the slot still owns its session, and the rest of
    the call remains. *)
Ltac onward Ho P O :=
  pose proof (progresses_owns _ _ _ _ Ho P) as O;
  eapply progresses_trans; [exact P|].

Lemma connect_timer_ok s i j : owns s i j -> progresses s (fst (connect_timer s i j)) i.
Proof.
  intros Ho. unfold connect_timer. pose proof (monotonic_ms_ok s i ltac:(apply Ho)) as P1. destruct (monotonic_ms s) as [s1 now]. cbn [fst] in P1.
  onward Ho P1 O1. clear s Ho P1.
  destruct (_ <=? _); [by apply progresses_same|]. destruct (_ && _) eqn:Et; [|apply progresses_refl, O1]. apply andb_true_iff in Et as [Et _].
  destruct (call_begin_connect_ok s1 i j O1) as [P2 E2]. destruct (call_begin_connect s1 i j) as [s2 st]. cbn [fst] in P2, E2.
  onward O1 P2 O2.
  assert (progresses s2 (set_session s2 j (with_transmission (session_at s2 j) now)) i) as P3.
  { destruct (owns_active s2 i j O2) as (Ha & Hf & _). apply progresses_session; [done|done|]. unfold session_fine in *. rewrite Ha in Hf. cbn.
    rewrite Ha. unfold u8, TCP_CONNECT_TRANSMISSION_LIMIT in *. rewrite Z.mod_small; lia. }
  onward O2 P3 O3. set (s3 := set_session s2 j _) in *.
  pose proof (note_connection_ok s3 i j O3) as P4. onward O3 P4 O4.
  pose proof (tcp_progress_status_ok _ i j st O4) as P5. destruct (tcp_progress_status _ _ _) as [s5 mapped]. cbn [fst] in P5.
  destruct (failed mapped); [done|]. by destruct (connected _).
Qed.

Lemma progress_tcp_connection_ok s i j : owns s i j -> progresses s (fst (progress_tcp_connection s i j)) i.
Proof.
  intros Ho. unfold progress_tcp_connection. destruct (negb _); [apply progresses_refl, Ho|].
  pose proof (call_progress_ok s i j Ho) as P1. destruct (call_progress s j) as [s1 st]. cbn [fst] in P1.
  onward Ho P1 O1.
  pose proof (note_connection_ok s1 i j O1) as P2. onward O1 P2 O2.
  pose proof (tcp_progress_status_ok _ i j st O2) as P3. destruct (tcp_progress_status _ _ _) as [s3 mapped]. cbn [fst] in P3.
  onward O2 P3 O3.
  destruct (failed mapped); [apply progresses_refl, O3|]. destruct (connected _); [apply progresses_refl, O3|].
  destruct (negb _); [apply progresses_refl, O3|]. by apply connect_timer_ok.
Qed.

(** ** Datagrams *)

(** A step in which sockets only receive. *)
Record receives s s' : Prop := {
  rc_inv : inv s';
  rc_grown : forall k, (k < MAX_SOCKETS)%nat -> grown (slot_at s k) (slot_at s' k);
  rc_sessions : sessions s' = sessions s }.

Lemma receives_refl s : inv s -> receives s s.
Proof. intros Hs. constructor; [done| |done]. intros k _. apply grown_refl. Qed.

Lemma receives_trans s1 s2 s3 : receives s1 s2 -> receives s2 s3 -> receives s1 s3.
Proof.
  intros [I1 G1 S1] [I2 G2 S2]. constructor; [done| |by rewrite S2]. intros k Hk. eapply grown_trans; [by apply G1|by apply G2].
Qed.

Lemma receives_world s w : inv s -> receives s (set_world s w).
Proof. intros Hs. constructor; [by apply inv_world| |done]. intros k _. apply grown_refl. Qed.

Lemma receives_kept s s' i : receives s s' -> kept s s' i.
Proof. intros [_ G E] k Hk _. split; [by apply G|]. intros _. unfold session_at. by rewrite E. Qed.

(** Queueing a datagram. *)
Lemma enqueue_payload_ok l src bytes n m : slot_ok l -> protocol l = Udp -> 0 <= n -> enqueue_payload l src bytes n = Some m ->
  slot_ok m /\ m = set_rx l (rx m) (rx_head m) (rx_tail m) (rx_count m) /\ (rx_count l < MAX_RX_DATAGRAMS)%nat /\
  exists q, rx_list m = rx_list l ++ [q] /\ source q = src /\ size q = n /\
    take (Z.to_nat n) (payload q) = take (Z.to_nat n) (take (Z.to_nat n) bytes ++ replicate (Z.to_nat UDP_MAX_PAYLOAD - Z.to_nat n) 0).
Proof.
  intros [H1 H2 H3 H4 H5 H6 H7] Hu Hn. unfold enqueue_payload. destruct (Nat.leb_spec MAX_RX_DATAGRAMS (rx_count l)) as [|Hc]; [done|].
  destruct (Z.eqb_spec n 0); [done|]. destruct (Z.ltb_spec UDP_MAX_PAYLOAD n) as [|Hmax]; [done|]. cbn [orb]. intros [= <-].
  set (q := mkQueued src _ n). destruct (ring_push empty_queued _ _ _ _ _ q H4 Hc) as [R1 R2].
  set (m := set_rx l _ _ _ _). assert (rx_list m = rx_list l ++ [q]) as El by exact R2. split_and!; [|done|done|by exists q].
  refine (Build_slot_ok m H1 H2 _ R1 _ H6 H7).
  - left. destruct H3 as [?|(_ & ? & _)]; [done|congruence].
  - rewrite El. apply Forall_app. split; [done|]. apply Forall_singleton. unfold queued_ok. cbn. lia.
Qed.

Lemma enqueue_receives s k src bytes n m : inv s -> (k < MAX_SOCKETS)%nat -> active (slot_at s k) = true -> protocol (slot_at s k) = Udp -> 0 <= n ->
  enqueue_payload (slot_at s k) src bytes n = Some m -> receives s (set_slot s k m).
Proof.
  intros Hs Hk Ha Hu Hn E. destruct (enqueue_payload_ok _ _ _ _ _ (active_ok s k Hs Hk Ha) Hu Hn E) as (Hok & Em & _ & q & Eq & _).
  constructor; [| |done].
  - apply inv_keep_slot; try done; by rewrite Em.
  - intros k' Hk'. rewrite slot_at_set by (rewrite (iv_slots s Hs); lia). destruct (decide (k' = k)) as [->|]; [|apply grown_refl].
    split; [exact Em|by exists [q]].
Qed.

Lemma accepts_udp l src dst : slot_accepts_datagram l src dst = true -> active l = true /\ protocol l = Udp /\ bound l = true.
Proof.
  unfold slot_accepts_datagram. destruct (active l), (bound l), (bool_decide (protocol l = Udp)) eqn:E; cbn [negb orb]; try done.
  by apply bool_decide_eq_true in E.
Qed.

Lemma find_slot s f k : inv s -> find_index f (slots s) = Some k -> (k < MAX_SOCKETS)%nat /\ f (slot_at s k) = true.
Proof.
  intros Hs Hf. pose proof (find_index_lt _ _ _ Hf) as Hk. rewrite (iv_slots s Hs) in Hk. apply find_index_Some in Hf as ((l & Hl & Hfl) & _).
  split; [done|]. unfold slot_at. by rewrite (nth_lookup_Some _ _ _ _ Hl).
Qed.

Lemma send_loopback_receives s i bytes : inv s -> receives s (fst (send_loopback s i bytes)).
Proof.
  intros Hs. unfold send_loopback. cbv zeta. destruct (find_index _ _) as [k|] eqn:E; [|by apply receives_refl].
  destruct (find_slot _ _ _ Hs E) as [Hk (Ha & Hu & _)%accepts_udp]. destruct (enqueue_payload _ _ _ _) as [m|] eqn:Em; [|by apply receives_refl].
  eapply (enqueue_receives s k); [done|done|done|done| |exact Em]. lia.
Qed.

Lemma pump_loop_receives n : forall s routed full, inv s -> receives s (fst (fst (pump_loop n s routed full))).
Proof.
  induction n as [|n IH]; intros s routed full Hs; cbn [pump_loop]; [by apply receives_refl|].
  destruct (poll (world s) 1) as [[w st] processed]. destruct (failed _); [by apply receives_world|].
  destruct (take_udp _) as [[w2 st2] d]. set (s2 := set_world (set_world s w) w2). assert (receives s s2) as P2 by (eapply receives_trans; [by apply (receives_world s w)|by apply receives_world, inv_world]).
  pose proof (rc_inv _ _ P2) as Hs2. destruct (bool_decide _).
  - destruct (find_index _ _) as [k|] eqn:E; [|eapply receives_trans; [exact P2|by apply IH]].
    destruct (find_slot _ _ _ Hs2 E) as [Hk (Ha & Hu & _)%accepts_udp]. destruct (enqueue _ _) as [m|] eqn:Em; [|eapply receives_trans; [exact P2|by apply IH]].
    assert (receives s2 (set_slot s2 k m)) as P3.
    { eapply (enqueue_receives s2 k); [done|done|done|done| |exact Em]. apply u64_range. }
    eapply receives_trans; [exact P2|]. eapply receives_trans; [exact P3|]. apply IH, P3.
  - destruct (_ && _); [done|]. destruct (_ =? _); [done|]. eapply receives_trans; [exact P2|by apply IH].
Qed.

Lemma pump_receives s budget : inv s -> receives s (fst (fst (pump s budget))).
Proof.
  intros Hs. unfold pump. destruct (negb _); [by apply receives_refl|]. destruct (_ =? _)%nat; [by apply receives_refl|]. by apply pump_loop_receives.
Qed.

Lemma refill_receives s i : inv s -> receives s (fst (refill s i)).
Proof.
  intros Hs. unfold refill. destruct (_ =? _)%nat; [|by apply receives_refl]. pose proof (pump_receives s 8 Hs) as Hp.
  by destruct (pump s 8) as [[s' st] n].
Qed.

(** ** Closing *)

Lemma cleared_fine g : 0 <= g < 2 ^ 32 -> slot_fine (cleared g).
Proof. intros Hg. by exists g. Qed.

Lemma generation_range s i : inv s -> (i < MAX_SOCKETS)%nat -> 0 <= generation (slot_at s i) < 2 ^ 32.
Proof.
  intros Hs Hi. pose proof (iv_slot s Hs i Hi) as Hf. unfold slot_fine in Hf. destruct (active _).
  - pose proof (so_generation _ Hf). lia.
  - by destruct Hf as (g & Hg & ->).
Qed.

(** Giving a session back. *)
Lemma sockt_release_ok s i : inv s -> (i < MAX_SOCKETS)%nat ->
  inv (release_tcp_session s i) /\ kept s (release_tcp_session s i) i /\
  slot_at (release_tcp_session s i) i = set_session_index (slot_at s i) MAX_TCP_SESSIONS.
Proof.
  intros Hs Hi. assert (i < length (slots s))%nat as Hlen by (rewrite (iv_slots s Hs); lia). unfold release_tcp_session. cbv zeta.
  set (j := tcp_session (slot_at s i)). set (l := set_session_index (slot_at s i) MAX_TCP_SESSIONS).
  destruct (Nat.leb_spec MAX_TCP_SESSIONS j) as [Hj|Hj].
  { split_and!; [done|apply sockt_kept_refl|]. pose proof (session_le s i Hs Hi) as Hle. fold j in Hle. unfold l.
    replace MAX_TCP_SESSIONS with j by lia. unfold j. by destruct (slot_at s i). }
  assert (slot_fine l) as Hl.
  { pose proof (iv_slot s Hs i Hi) as Hf. pose proof (owned_active s i Hs Hi Hj) as Ha. unfold slot_fine in *. change (active l) with (active (slot_at s i)).
    rewrite Ha in *. destruct Hf as [H1 H2 H3 H4 H5 H6 H7]. refine (Build_slot_ok l H1 H2 _ H4 H5 H6 _); [|cbn; lia].
    destruct H3 as [(? & ? & _)|(? & ? & _ & ?)]; [by left|right; cbn; split_and!; done || lia]. }
  set (s1 := set_session s j empty_session). assert (forall k, slot_at (set_slot s1 i l) k = if decide (k = i) then l else slot_at s k) as Hsl.
  { intros k. by rewrite slot_at_set. }
  assert (forall k, session_at (set_slot s1 i l) k = if decide (k = j) then empty_session else session_at s k) as Hse.
  { intros k. change (session_at (set_slot s1 i l) k) with (session_at s1 k). unfold s1. by rewrite session_at_set by (rewrite (iv_sessions s Hs); lia). }
  assert (forall k, (k < MAX_SOCKETS)%nat -> k ≠ i -> tcp_session (slot_at s k) ≠ j) as Hne.
  { intros k Hk Hki E. apply Hki. symmetry. by apply (iv_unique s Hs). }
  split_and!; [|intros k Hk Hki; rewrite Hsl, decide_False by done; split; [apply grown_refl|intros _; rewrite Hse, decide_False by (by apply Hne); done]|by rewrite Hsl, decide_True].
  refine (Build_inv (set_slot s1 i l) (iv_initialized s Hs) _ _ _ _ _ _ _ _ (iv_ephemeral s Hs)).
  - cbn. rewrite length_insert. apply Hs.
  - cbn. rewrite length_insert. apply Hs.
  - intros k Hk. rewrite Hsl. destruct (decide (k = i)); [done|by apply Hs].
  - intros k Hk. rewrite Hse. destruct (decide (k = j)); [done|by apply Hs].
  - intros k Hk. rewrite Hsl. destruct (decide (k = i)); [cbn; lia|]. intros Ht. rewrite Hse, decide_False by (by apply Hne). by apply (iv_owned s Hs).
  - intros k Hk. rewrite Hse. destruct (decide (k = j)) as [|Hkj]; [done|]. intros Hx. destruct (iv_owner s Hs k Hk Hx) as (m & Hm & E). exists m.
    rewrite Hsl. destruct (decide (m = i)) as [->|]; [destruct Hkj; symmetry; exact E|done].
  - intros k m Hk Hm. rewrite !Hsl. destruct (decide (k = i)); [cbn; lia|]. destruct (decide (m = i)) as [->|]; [cbn; lia|]. by apply (iv_unique s Hs).
  - intros k m Hk Hm Hkm. rewrite !Hsl. destruct (decide (k = i)) as [->|], (decide (m = i)) as [->|]; [done|by apply (iv_apart s Hs)..].
Qed.

Lemma clear_slot_ok s i : inv s -> (i < MAX_SOCKETS)%nat ->
  inv (clear_slot s i) /\ kept s (clear_slot s i) i /\ slot_at (clear_slot s i) i = cleared (generation (slot_at s i)).
Proof.
  intros Hs Hi. destruct (sockt_release_ok s i Hs Hi) as (Hs1 & K1 & E1). pose proof (generation_range s i Hs Hi) as Hg. unfold clear_slot. cbv zeta.
  set (s1 := release_tcp_session s i) in *. rewrite E1. cbn [generation set_session_index]. split_and!.
  - apply inv_set_slot; [done|done|by apply cleared_fine|by rewrite E1|done].
  - eapply kept_trans; [exact K1|]. by apply kept_set_slot.
  - rewrite slot_at_set by (rewrite (iv_slots s1 Hs1); lia). by rewrite decide_True.
Qed.

(** ** Addresses *)

Lemma endpoint_in_use_spec s e proto ignored : endpoint_in_use s e proto ignored = false ->
  forall k, (k < MAX_SOCKETS)%nat -> k ≠ ignored -> active (slot_at s k) = true -> bound (slot_at s k) = true -> protocol (slot_at s k) = proto ->
    endpoints_overlap e (local_ (slot_at s k)) = false.
Proof.
  intros Hu k Hk Hne Ha Hb Hp. destruct (endpoints_overlap e _) eqn:E; [|done]. exfalso. apply (proj2 (not_true_iff_false _) Hu).
  apply existsb_exists. exists k. split; [apply in_seq; lia|]. cbv zeta. rewrite Ha, Hb, (proj2 (Nat.eqb_neq _ _) Hne), bool_decide_eq_true_2 by done.
  cbn [negb orb]. by rewrite overlap_sym.
Qed.

(** Binding a slot to an endpoint that is free. *)
Lemma bind_slot_ok s i e : inv s -> (i < MAX_SOCKETS)%nat -> active (slot_at s i) = true -> port e ≠ 0 ->
  endpoint_in_use s e (protocol (slot_at s i)) i = false -> inv (set_slot s i (set_local (slot_at s i) e)).
Proof.
  intros Hs Hi Ha He Hu. destruct (active_ok s i Hs Hi Ha) as [H1 H2 H3 H4 H5 H6 H7].
  apply inv_set_slot; [done|done|unfold slot_fine; cbn; rewrite Ha; by constructor|done|].
  intros k Hk Hne _ _ Hak Hbk Ep. by apply (endpoint_in_use_spec s e (protocol (slot_at s i)) i Hu k).
Qed.

Lemma next_ephemeral_range p : EPHEMERAL_PORT_FIRST <= p < 65536 ->
  EPHEMERAL_PORT_FIRST <= (if u16 (p + 1) <? EPHEMERAL_PORT_FIRST then EPHEMERAL_PORT_FIRST else u16 (p + 1)) < 65536.
Proof. unfold EPHEMERAL_PORT_FIRST, u16. intros Hp. destruct (Z.ltb_spec ((p + 1) mod 2 ^ 16) 49152); zdm. Qed.

Lemma ephemeral_loop_ok n : forall s i, inv s ->
  let '(s', p) := ephemeral_loop n s i in
  inv s' /\ slots s' = slots s /\ sessions s' = sessions s /\
  (p ≠ 0 -> EPHEMERAL_PORT_FIRST <= p < 65536 /\ endpoint_in_use s' (mkEndpoint ZERO_IP p) (protocol (slot_at s' i)) i = false).
Proof.
  induction n as [|n IH]; intros s i Hs; cbn [ephemeral_loop]; [by split_and!|]. set (q := if u16 _ <? _ then _ else _).
  assert (inv (set_next_ephemeral s q)) as Hs1 by (apply (inv_ext s); try done; apply next_ephemeral_range, Hs).
  destruct (endpoint_in_use _ _ _ _) eqn:E; cbn [negb].
  - specialize (IH (set_next_ephemeral s q) i Hs1). by destruct (ephemeral_loop n _ _).
  - split_and!; [done|done|done|]. intros _. split; [apply Hs|exact E].
Qed.

Lemma sockt_resolve_ok s p h i : resolve s p h = inl i -> (i < MAX_SOCKETS)%nat /\ active (slot_at s i) = true /\ owner (slot_at s i) = p /\
  decode_index h = Some (i, generation (slot_at s i)).
Proof.
  unfold resolve. destruct (decode_index h) as [[k g]|] eqn:E; [|done]. cbv zeta. destruct (active (slot_at s k)) eqn:Ea, (Z.eqb_spec (generation (slot_at s k)) g); cbn [negb orb]; try done.
  destruct (Z.eqb_spec (owner (slot_at s k)) p); cbn [negb]; [|done]. intros [= <-]. split_and!; [|done|done|by subst g].
  unfold decode_index in E. destruct (h =? INVALID_HANDLE); [done|]. cbv zeta in E. destruct ((Z.land h 0xFFFFFFFF =? 0) || _) eqn:E2; [done|].
  destruct (u32 (Z.shiftr h 32) =? 0); [done|]. injection E as E _. assert (0 <= Z.land h 0xFFFFFFFF) by (apply Z.land_nonneg; lia).
  unfold MAX_SOCKETS in *. lia.
Qed.

(** ** Entry points *)

(** The socket is the same one and may hold more datagrams. *)
Definition alive (l m : Slot) : Prop :=
  active m = active l /\ owner m = owner l /\ generation m = generation l /\ type m = type l /\ protocol m = protocol l /\
  exists more, rx_list m = rx_list l ++ more.

Lemma alive_trans l m n : alive l m -> alive m n -> alive l n.
Proof.
  intros (A1 & A2 & A3 & A4 & A5 & q1 & A6) (B1 & B2 & B3 & B4 & B5 & q2 & B6). split_and!; [congruence..|].
  exists (q1 ++ q2). by rewrite B6, A6, app_assoc.
Qed.

(** The fields that [alive] speaks of are unchanged. *)
Lemma alive_same l m : active m = active l -> owner m = owner l -> generation m = generation l -> type m = type l -> protocol m = protocol l ->
  rx_list m = rx_list l -> alive l m.
Proof. intros. split_and!; try done. exists []. by rewrite app_nil_r. Qed.

Lemma grown_alive l m : grown l m -> alive l m.
Proof. intros [E (q & Eq)]. split_and!; [by rewrite E..|by exists q]. Qed.

(** A step of a call on slot [i] that does not close it. *)
Definition effect s s' (i : nat) : Prop := inv s' /\ kept s s' i /\ alive (slot_at s i) (slot_at s' i).

Lemma effect_refl s i : inv s -> effect s s i.
Proof. intros Hs. split_and!; [done|apply sockt_kept_refl|by apply alive_same]. Qed.

Lemma effect_trans s1 s2 s3 i : effect s1 s2 i -> effect s2 s3 i -> effect s1 s3 i.
Proof. intros (I1 & K1 & A1) (I2 & K2 & A2). split_and!; [done|by eapply kept_trans|by eapply alive_trans]. Qed.

Lemma progresses_effect s s' i : progresses s s' i -> effect s s' i.
Proof. intros [I K (b & E)]. split_and!; [done|done|]. rewrite E. by apply alive_same. Qed.

Lemma receives_effect s s' i : (i < MAX_SOCKETS)%nat -> receives s s' -> effect s s' i.
Proof. intros Hi Hr. pose proof Hr as [I G E]. split_and!; [done|by apply receives_kept|by apply grown_alive, G]. Qed.

(** A change of slot [i] itself. *)
Lemma effect_set_slot s i l : inv s -> (i < MAX_SOCKETS)%nat -> inv (set_slot s i l) -> alive (slot_at s i) l -> effect s (set_slot s i l) i.
Proof.
  intros Hs Hi Hs' Ha. split_and!; [done|by apply kept_set_slot|]. rewrite slot_at_set by (rewrite (iv_slots s Hs); lia). by rewrite decide_True.
Qed.

Lemma effect_ext s s' i : slots s' = slots s -> sessions s' = sessions s -> inv s' -> effect s s' i.
Proof. intros E1 E2 I. split_and!; [done|by apply kept_ext|]. unfold slot_at. rewrite E1. by apply alive_same. Qed.

(** [onward] in a call that is more than a step on the connection. *)
Ltac onward_effect Ho P O :=
  pose proof (progresses_owns _ _ _ _ Ho P) as O; eapply effect_trans; [apply progresses_effect; exact P|].

Lemma bind_effect s p h e : inv s -> forall i, resolve s p h = inl i -> effect s (fst (bind s p h e)) i.
Proof.
  intros Hs i Hr. destruct (sockt_resolve_ok _ _ _ _ Hr) as (Hi & Ha & _). unfold bind. destruct (negb _); [by apply effect_refl|].
  destruct (Z.eqb_spec (port e) 0); [by apply effect_refl|]. rewrite Hr. destruct (endpoint_in_use _ _ _ _) eqn:E; [by apply effect_refl|].
  apply effect_set_slot; [done|done|by apply bind_slot_ok|by apply alive_same].
Qed.

Lemma bind_ephemeral_ok s i : inv s -> (i < MAX_SOCKETS)%nat -> active (slot_at s i) = true ->
  let '(s', has_port) := bind_ephemeral s i in
  effect s s' i /\ type (slot_at s' i) = type (slot_at s i) /\ protocol (slot_at s' i) = protocol (slot_at s i) /\
  (has_port = true -> bound (slot_at s' i) = true).
Proof.
  intros Hs Hi Ha. unfold bind_ephemeral. destruct (bound (slot_at s i)) eqn:Eb; [split_and!; try done; by apply effect_refl|].
  unfold allocate_ephemeral_port. pose proof (ephemeral_loop_ok (Z.to_nat (65536 - EPHEMERAL_PORT_FIRST)) s i Hs) as H1.
  destruct (ephemeral_loop _ s i) as [s1 p]. destruct H1 as (I1 & E1 & E2 & Hp). assert (slot_at s1 i = slot_at s i) as Es by (unfold slot_at; by rewrite E1).
  destruct (Z.eqb_spec p 0) as [|Hp0]; [rewrite Es; split_and!; try done; by apply effect_ext|]. destruct (Hp Hp0) as [_ Hu].
  assert (inv (set_slot s1 i (set_local (slot_at s1 i) (mkEndpoint ZERO_IP p)))) as I2 by (apply bind_slot_ok; try done; by rewrite Es).
  rewrite slot_at_set by (rewrite (iv_slots s1 I1); lia). rewrite decide_True by done. cbn [type protocol bound set_local]. rewrite Es. split_and!; try done.
  eapply effect_trans; [by apply (effect_ext s s1)|]. rewrite <- Es. apply effect_set_slot; [done|done|done|by apply alive_same].
Qed.

(** A new session for a slot that has none. *)
Lemma attach_ok s i j x e : inv s -> (i < MAX_SOCKETS)%nat -> active (slot_at s i) = true -> bound (slot_at s i) = true -> type (slot_at s i) = Stream ->
  protocol (slot_at s i) = Tcp -> tcp_session (slot_at s i) = MAX_TCP_SESSIONS -> (j < MAX_TCP_SESSIONS)%nat -> s_active (session_at s j) = false ->
  s_active x = true -> session_fine x ->
  let s' := set_slot (set_session s j x) i (set_remote (set_session_index (slot_at s i) j) e) in effect s s' i /\ owns s' i j.
Proof.
  intros Hs Hi Ha Hb Ety Ep Et Hj Hfree Hx Hf. cbv zeta. set (s1 := set_session s j x). set (l := set_remote (set_session_index (slot_at s i) j) e).
  assert (i < length (slots s))%nat as Hlen by (rewrite (iv_slots s Hs); lia).
  assert (forall k, slot_at (set_slot s1 i l) k = if decide (k = i) then l else slot_at s k) as Hsl by (intros k; by rewrite slot_at_set).
  assert (forall k, session_at (set_slot s1 i l) k = if decide (k = j) then x else session_at s k) as Hse.
  { intros k. change (session_at (set_slot s1 i l) k) with (session_at s1 k). unfold s1. by rewrite session_at_set by (rewrite (iv_sessions s Hs); lia). }
  assert (forall k, (k < MAX_SOCKETS)%nat -> (tcp_session (slot_at s k) < MAX_TCP_SESSIONS)%nat -> tcp_session (slot_at s k) ≠ j) as Hne.
  { intros k Hk Hl E. pose proof (iv_owned s Hs k Hk Hl) as Hact. rewrite E in Hact. congruence. }
  assert (slot_ok l) as Hl.
  { destruct (active_ok s i Hs Hi Ha) as [H1 H2 H3 H4 H5 H6 H7]. refine (Build_slot_ok l H1 H2 _ H4 H5 H6 _); [|done].
    destruct H3 as [(? & _)|(? & ? & _ & ?)]; [congruence|right; cbn; split_and!; done || lia]. }
  assert (inv (set_slot s1 i l)) as Hs'.
  { refine (Build_inv (set_slot s1 i l) (iv_initialized s Hs) _ _ _ _ _ _ _ _ (iv_ephemeral s Hs)).
    - cbn. rewrite length_insert. apply Hs.
    - cbn. rewrite length_insert. apply Hs.
    - intros k Hk. rewrite Hsl. destruct (decide (k = i)); [unfold slot_fine; change (active l) with (active (slot_at s i)); by rewrite Ha|by apply Hs].
    - intros k Hk. rewrite Hse. destruct (decide (k = j)); [done|by apply Hs].
    - intros k Hk. rewrite Hsl. destruct (decide (k = i)); [intros _; rewrite Hse; by rewrite decide_True|].
      intros Ht. rewrite Hse, decide_False by (by apply Hne). by apply (iv_owned s Hs).
    - intros k Hk. rewrite Hse. destruct (decide (k = j)) as [->|Hkj].
      + intros _. exists i. rewrite Hsl. by rewrite decide_True.
      + intros Hxk. destruct (iv_owner s Hs k Hk Hxk) as (m & Hm & E). exists m. rewrite Hsl. destruct (decide (m = i)) as [->|]; [lia|done].
    - intros k m Hk Hm. rewrite !Hsl. destruct (decide (k = i)) as [->|], (decide (m = i)) as [->|]; [done| | |by apply (iv_unique s Hs)].
      + cbn. intros _ E. by destruct (Hne m Hm); [lia|].
      + cbn. intros Hlt E. by destruct (Hne k Hk).
    - intros k m Hk Hm Hkm. rewrite !Hsl. destruct (decide (k = i)) as [->|], (decide (m = i)) as [->|]; [done|by apply (iv_apart s Hs)..]. }
  split; [split_and!; [done| |]|split_and!; [done|done| |done]].
  - intros k Hk Hki. rewrite Hsl, decide_False by done. split; [apply grown_refl|]. intros Ht. rewrite Hse, decide_False by (by apply Hne). done.
  - rewrite Hsl, decide_True by done. by apply alive_same.
  - rewrite Hsl. by rewrite decide_True.
Qed.

Lemma open_session_effect s i e : inv s -> (i < MAX_SOCKETS)%nat -> active (slot_at s i) = true -> bound (slot_at s i) = true -> type (slot_at s i) = Stream ->
  protocol (slot_at s i) = Tcp -> tcp_session (slot_at s i) = MAX_TCP_SESSIONS -> effect s (fst (open_session s i e)) i.
Proof.
  intros Hs Hi Ha Hb Ety Ep Et. unfold open_session, reserve_tcp_session. destruct (find_index _ _) as [j|] eqn:Ej; [|by apply effect_refl].
  pose proof (find_index_lt _ _ _ Ej) as Hj. rewrite (iv_sessions s Hs) in Hj. apply find_index_Some in Ej as ((x0 & Hx0 & Hfree%negb_true_iff) & _).
  assert (s_active (session_at s j) = false) as Hfr by (unfold session_at; by rewrite (nth_lookup_Some _ _ _ _ Hx0)). set (x1 := mkSession _ 0 0 0 Ok 0 false true).
  change (slot_at (set_session s j x1) i) with (slot_at s i). destruct (attach_ok s i j x1 e Hs Hi Ha Hb Ety Ep Et Hj Hfr eq_refl ltac:(done)) as [F1 O1].
  cbv zeta in F1, O1. set (s1 := set_slot _ _ _) in *. eapply effect_trans; [exact F1|]. unfold next_tcp_initial_sequence. cbv zeta. set (s2 := set_next_sequence s1 _).
  assert (progresses s1 s2 i) as P2.
  { constructor; [by apply (inv_ext s1); try done; apply O1|by apply kept_ext|]. exists (connected (slot_at s1 i)). change (slot_at s2 i) with (slot_at s1 i). by destruct (slot_at s1 i). }
  onward_effect O1 P2 O2.
  pose proof (monotonic_ms_ok s2 i ltac:(apply O2)) as P3. destruct (monotonic_ms s2) as [s3 now]. cbn [fst] in P3.
  onward_effect O2 P3 O3. set (x3 := mkSession _ _ now now Ok 1 false _).
  assert (progresses s3 (set_session s3 j x3) i) as P4.
  { destruct (owns_active s3 i j O3) as (Hact & _ & _). apply progresses_session; [done|done|]. unfold session_fine. unfold x3. cbn. by rewrite Hact. }
  onward_effect O3 P4 O4. set (s4 := set_session s3 j x3) in *.
  destruct (call_begin_connect_ok s4 i j O4) as [P5 _]. destruct (call_begin_connect s4 i j) as [s5 st]. cbn [fst] in P5.
  onward_effect O4 P5 O5.
  pose proof (note_connection_ok s5 i j O5) as P6. onward_effect O5 P6 O6.
  pose proof (tcp_progress_status_ok _ i j st O6) as P7. destruct (tcp_progress_status _ _ _) as [s7 mapped]. cbn [fst] in P7.
  onward_effect O6 P7 O7.
  destruct (failed mapped); [|apply effect_refl, O7]. destruct O7 as (I7 & _). destruct (sockt_release_ok s7 i I7 Hi) as (I8 & K8 & E8).
  split_and!; [done|done|]. cbn [fst]. rewrite E8. by apply alive_same.
Qed.

Lemma stream_owns s i : inv s -> (i < MAX_SOCKETS)%nat -> (MAX_TCP_SESSIONS <=? tcp_session (slot_at s i))%nat = false -> owns s i (tcp_session (slot_at s i)).
Proof. intros Hs Hi Ht%Nat.leb_gt. by split_and!. Qed.

Lemma connect_effect s p h e : inv s -> forall i, resolve s p h = inl i -> effect s (fst (connect s p h e)) i.
Proof.
  intros Hs i Hr. destruct (sockt_resolve_ok _ _ _ _ Hr) as (Hi & Ha & _). unfold connect. destruct (negb _); [by apply effect_refl|].
  destruct (_ || _); [by apply effect_refl|]. rewrite Hr. pose proof (bind_ephemeral_ok s i Hs Hi Ha) as F1. destruct (bind_ephemeral s i) as [s1 b].
  destruct F1 as (F1 & Ety & Ep & Hb). destruct b; cbn [negb]; [|exact F1]. specialize (Hb eq_refl). pose proof F1 as (I1 & _ & A1 & _).
  rewrite Ha in A1. pose proof (active_ok s1 i I1 Hi A1) as Hok. cbv zeta. eapply effect_trans; [exact F1|].
  destruct (bool_decide (protocol (slot_at s1 i) = Udp /\ type (slot_at s1 i) = Datagram)) eqn:Eu.
  - apply effect_set_slot; [done|done| |by apply alive_same]. apply inv_keep_slot; try done. destruct Hok as [H1 H2 H3 H4 H5 H6 H7].
    refine (Build_slot_ok (set_connected (set_remote (slot_at s1 i) e) true) H1 H2 H3 H4 H5 H6 H7).
  - destruct (bool_decide (protocol (slot_at s1 i) = Tcp)) eqn:E1; cbn [negb orb]; [|by apply effect_refl].
    destruct (bool_decide (type (slot_at s1 i) = Stream)) eqn:E2; cbn [negb]; [|by apply effect_refl].
    apply bool_decide_eq_true in E1, E2. destruct (Nat.ltb_spec (tcp_session (slot_at s1 i)) MAX_TCP_SESSIONS) as [Hlt|Hge].
    + destruct (_ || _); [by apply effect_refl|]. apply progresses_effect, progress_tcp_connection_ok. by split_and!.
    + apply open_session_effect; try done. pose proof (session_le s1 i I1 Hi). lia.
Qed.

Lemma send_effect s p h data : inv s -> forall i, resolve s p h = inl i -> effect s (fst (fst (send s p h data))) i.
Proof.
  intros Hs i Hr. destruct (sockt_resolve_ok _ _ _ _ Hr) as (Hi & Ha & _). unfold send. destruct (negb _); [by apply effect_refl|].
  destruct data as [[|b bytes]|]; [by apply effect_refl| |by apply effect_refl]. rewrite Hr. set (data := b :: bytes). cbv zeta.
  destruct (negb (bound _)); [by apply effect_refl|]. destruct (bool_decide (protocol (slot_at s i) = Udp /\ _)).
  - destruct (_ <? _); [by apply effect_refl|]. destruct (negb (connected _)); [by apply effect_refl|]. destruct (address_loopback _).
    + pose proof (send_loopback_receives s i data Hs) as Hl. destruct (send_loopback s i data) as [s1 st]. by apply receives_effect.
    + destruct (send_udp _ _ _ _ _) as [w st]. apply receives_effect; [done|by apply receives_world].
  - destruct (negb _ || negb _ || _) eqn:E; [by apply effect_refl|]. apply orb_false_iff in E as [_ E]. pose proof (stream_owns s i Hs Hi E) as Ho.
    set (j := tcp_session (slot_at s i)) in *. assert (progresses s (fst (if connected (slot_at s i) then (s, Ok) else progress_tcp_connection s i j)) i) as P1.
    { destruct (connected _); [by apply progresses_refl|by apply progress_tcp_connection_ok]. }
    destruct (if connected _ then _ else _) as [s1 st1]. cbn [fst] in P1. onward_effect Ho P1 O1. destruct (negb _); [apply effect_refl, O1|].
    destruct (tcp_try_send _ _ _) as [[[w c] st] sent]. pose proof (client_session_ok s1 i j w c O1) as P2. onward_effect O1 P2 O2. set (s2 := set_session _ _ _) in *. pose proof (tcp_progress_status_ok s2 i j st O2) as P3.
    destruct (tcp_progress_status s2 j st) as [s3 st3]. by apply progresses_effect.
Qed.

Lemma receive_stream_effect s i capacity : inv s -> (i < MAX_SOCKETS)%nat -> effect s (fst (fst (receive_stream s i capacity))) i.
Proof.
  intros Hs Hi. unfold receive_stream. cbv zeta. destruct (_ <=? _)%nat eqn:E; [by apply effect_refl|]. pose proof (stream_owns s i Hs Hi E) as Ho.
  set (j := tcp_session (slot_at s i)) in *. destruct (bool_decide _); [by apply effect_refl|].
  assert (progresses s (fst (if connected (slot_at s i) then (s, Ok) else progress_tcp_connection s i j)) i) as P1.
  { destruct (connected _); [by apply progresses_refl|by apply progress_tcp_connection_ok]. }
  destruct (if connected _ then _ else _) as [s1 st1]. cbn [fst] in P1. onward_effect Ho P1 O1. destruct (negb _); [apply effect_refl, O1|].
  destruct (tcp_try_receive _ _ _) as [[[[w c] st] bytes] n]. pose proof (client_session_ok s1 i j w c O1) as P2. onward_effect O1 P2 O2. set (s2 := set_session _ _ _) in *. pose proof (tcp_progress_status_ok s2 i j st O2) as P3.
  destruct (tcp_progress_status s2 j st) as [s3 st3]. cbn [fst] in P3. onward_effect O2 P3 O3. apply progresses_effect. by apply (progresses_connected s3 i j).
Qed.

(** What the application is given of a datagram. *)
Definition delivered (q : QueuedDatagram) : Received := mkReceived (take (Z.to_nat (size q)) (payload q)) (size q) (Some (source q)).

(** The same socket, whatever it holds. *)
Definition same_socket (l m : Slot) : Prop :=
  active m = active l /\ owner m = owner l /\ generation m = generation l /\ type m = type l /\ protocol m = protocol l.

Lemma alive_socket l m : alive l m -> same_socket l m.
Proof. intros (? & ? & ? & ? & ? & _). by split_and!. Qed.

(** Taking a datagram: what was held and what arrives is what is delivered and what remains. *)
Definition takes (l m : Slot) (st : Status) (r : Received) : Prop :=
  same_socket l m /\ exists more out, rx_list l ++ more = out ++ rx_list m /\
    if bool_decide (st = Ok) then exists q, out = [q] /\ r = delivered q else out = [].

Lemma alive_takes l m st r : alive l m -> st ≠ Ok -> takes l m st r.
Proof.
  intros Ha Hst. split; [by apply alive_socket|]. destruct Ha as (_ & _ & _ & _ & _ & more & E). exists more, []. by rewrite bool_decide_eq_false_2.
Qed.

Lemma dequeue_ok l : slot_ok l -> rx_count l ≠ 0%nat ->
  slot_ok (dequeue l) /\ rx_list l = nth (rx_tail l) (rx l) empty_queued :: rx_list (dequeue l).
Proof.
  intros [H1 H2 H3 H4 H5 H6 H7] Hc. destruct (rx_count l) as [|n] eqn:En; [done|]. destruct (ring_pop empty_queued _ _ _ _ _ empty_queued H4) as [R1 R2].
  assert (rx_list (dequeue l) = ring_list empty_queued (<[rx_tail l := empty_queued]> (rx l)) ((rx_tail l + 1) mod MAX_RX_DATAGRAMS) n) as El.
  { unfold rx_list, dequeue. cbn [rx rx_tail rx_count set_rx]. by rewrite En, Nat.sub_1_r. }
  assert (rx_list l = nth (rx_tail l) (rx l) empty_queued :: rx_list (dequeue l)) as Ecl by (rewrite El; unfold rx_list; rewrite En; exact R2).
  split; [|exact Ecl]. refine (Build_slot_ok (dequeue l) H1 H2 _ _ _ H6 H7).
  - destruct H3 as [?|(_ & _ & _ & ?)]; [by left|lia].
  - unfold dequeue. cbn [rx rx_tail rx_head rx_count set_rx]. rewrite En. cbn [Nat.sub]. rewrite Nat.sub_0_r. exact R1.
  - rewrite Ecl in H5. by apply Forall_cons in H5 as [_ ?].
Qed.

Lemma receive_datagram_ok s i capacity : inv s -> (i < MAX_SOCKETS)%nat -> active (slot_at s i) = true ->
  let '(s', st, r) := receive_datagram s i capacity in
  inv s' /\ kept s s' i /\ takes (slot_at s i) (slot_at s' i) st r.
Proof.
  intros Hs Hi Ha. unfold receive_datagram. pose proof (refill_receives s i Hs) as P1. destruct (refill s i) as [s1 st1]. cbn [fst] in P1.
  destruct (receives_effect s s1 i Hi P1) as (I1 & K1 & A1). assert (forall st : Status, failed st = true -> st ≠ Ok) as Hfail by (by intros ? ? ->).
  destruct (failed st1) eqn:Ef; [split_and!; [done|done|by apply alive_takes, Hfail]|]. cbv zeta.
  destruct (Nat.eqb_spec (rx_count (slot_at s1 i)) 0) as [|Hc]; [split_and!; [done|done|by apply alive_takes]|].
  destruct (_ <? _); [split_and!; [done|done|by apply alive_takes]|]. set (q := nth _ _ empty_queued).
  assert (active (slot_at s1 i) = true) as Ha1 by (destruct A1 as (-> & _); done). destruct (dequeue_ok _ (active_ok s1 i I1 Hi Ha1) Hc) as [Hok El].
  assert (inv (set_slot s1 i (dequeue (slot_at s1 i)))) as I2 by (by apply inv_keep_slot). split_and!; [done|eapply kept_trans; [exact K1|by apply kept_set_slot]|].
  rewrite slot_at_set by (rewrite (iv_slots s1 I1); lia). rewrite decide_True by done. split.
  - apply alive_socket in A1. exact A1.
  - destruct A1 as (_ & _ & _ & _ & _ & more & E). exists more, [q]. rewrite <- E, El. split; [done|]. rewrite bool_decide_eq_true_2 by done. by exists q.
Qed.

(** A receive on a datagram socket, or any other. *)
Lemma receive_ok s p h b capacity b' : inv s -> forall i, resolve s p h = inl i ->
  let '(s', st, r) := receive s p h b capacity b' in
  inv s' /\ kept s s' i /\ same_socket (slot_at s i) (slot_at s' i) /\ (protocol (slot_at s i) = Udp -> takes (slot_at s i) (slot_at s' i) st r).
Proof.
  intros Hs i Hr. destruct (sockt_resolve_ok _ _ _ _ Hr) as (Hi & Ha & _).
  assert (forall st r, st ≠ Ok -> inv s /\ kept s s i /\ same_socket (slot_at s i) (slot_at s i) /\ (protocol (slot_at s i) = Udp -> takes (slot_at s i) (slot_at s i) st r)) as Hstay.
  { intros st r Hst. destruct (effect_refl s i Hs) as (_ & K & A). split_and!; try done. intros _. by apply alive_takes. }
  unfold receive. destruct (negb _); [by apply Hstay|]. destruct (_ || _); [by apply Hstay|]. rewrite Hr. cbv zeta. destruct (negb (bound _)); [by apply Hstay|].
  destruct (bool_decide (protocol _ = Tcp /\ _)) eqn:Et.
  - apply bool_decide_eq_true in Et as [Ep _]. pose proof (receive_stream_effect s i capacity Hs Hi) as F. destruct (receive_stream s i capacity) as [[s' st] r].
    destruct F as (I & K & A). split_and!; [done|done|by apply alive_socket|]. rewrite Ep. done.
  - destruct (_ || _); [by apply Hstay|]. pose proof (receive_datagram_ok s i capacity Hs Hi Ha) as F. destruct (receive_datagram s i capacity) as [[s' st] r].
    destruct F as (I & K & T). split_and!; [done|done|apply T|done].
Qed.

Lemma readiness_effect s p h requested b : inv s -> forall i, resolve s p h = inl i -> effect s (fst (fst (readiness s p h requested b))) i.
Proof.
  intros Hs i Hr. destruct (sockt_resolve_ok _ _ _ _ Hr) as (Hi & Ha & _). unfold readiness. destruct (negb (initialized s)); [by apply effect_refl|].
  destruct (_ || _); [by apply effect_refl|]. rewrite Hr. cbv zeta. destruct (bool_decide (_ /\ _)).
  - assert (receives s (fst (if negb (Z.land requested ReadyRead =? 0) then refill s i else (s, Ok)))) as P1.
    { destruct (negb _); [by apply refill_receives|by apply receives_refl]. }
    destruct (if negb _ then _ else _) as [s1 st]. cbn [fst] in P1. destruct (failed st); by apply receives_effect.
  - destruct (_ || _); [by apply effect_refl|]. destruct (_ <=? _)%nat eqn:E; [by apply effect_refl|].
    pose proof (progress_tcp_connection_ok s i _ (stream_owns s i Hs Hi E)) as P1. destruct (progress_tcp_connection _ _ _) as [s1 st].
    destruct (_ && _); by apply progresses_effect.
Qed.

(** Closing, when it is done, leaves the slot cleared. *)
Lemma close_ok s p h : inv s -> forall i, resolve s p h = inl i ->
  let '(s', st) := close s p h in
  inv s' /\ kept s s' i /\ if bool_decide (st = Ok) then slot_at s' i = cleared (generation (slot_at s i)) else alive (slot_at s i) (slot_at s' i).
Proof.
  intros Hs i Hr. destruct (sockt_resolve_ok _ _ _ _ Hr) as (Hi & Ha & _). unfold close. rewrite (iv_initialized s Hs). cbn [negb]. rewrite Hr. cbv zeta.
  assert (forall s1, inv s1 -> kept s s1 i -> generation (slot_at s1 i) = generation (slot_at s i) ->
    inv (clear_slot s1 i) /\ kept s (clear_slot s1 i) i /\ slot_at (clear_slot s1 i) i = cleared (generation (slot_at s i))) as Hclear.
  { intros s1 I1 K1 <-. destruct (clear_slot_ok s1 i I1 Hi) as (I2 & K2 & E2). split_and!; [done|by eapply kept_trans|done]. }
  destruct (negb _ || negb _ || _) eqn:E1; [by apply Hclear; [|apply sockt_kept_refl|]|]. apply orb_false_iff in E1 as [_ E1].
  destruct (negb _ || _); [by apply Hclear; [|apply sockt_kept_refl|]|]. pose proof (stream_owns s i Hs Hi E1) as Ho. set (j := tcp_session (slot_at s i)) in *.
  unfold close_session. destruct (tcp_begin_close _ _) as [[w c] st]. pose proof (client_session_ok s i j w c Ho) as P1. pose proof (progresses_owns _ _ _ _ Ho P1) as O1.
  set (s1 := set_session _ _ _) in *. pose proof (tcp_progress_status_ok s1 i j st O1) as P2. destruct (tcp_progress_status s1 j st) as [s2 st2]. cbn [fst] in P2.
  pose proof (progresses_trans _ _ _ _ P1 P2) as P12. pose proof (progresses_owns _ _ _ _ Ho P12) as O2.
  assert (forall s3 st3, failed st3 = true -> progresses s s3 i -> inv s3 /\ kept s s3 i /\
    if bool_decide (st3 = Ok) then slot_at s3 i = cleared (generation (slot_at s i)) else alive (slot_at s i) (slot_at s3 i)) as Hstop.
  { intros s3 st3 Hf (I3 & K3 & A3)%progresses_effect. split_and!; [done|done|]. rewrite bool_decide_eq_false_2; [done|]. by intros ->. }
  destruct (failed st2) eqn:E2; [by apply Hstop|].
  assert (progresses s2 (fst (if negb (bool_decide (TcpClient.state (client (session_at s2 j)) = Closed)) then
    let '(s, st) := call_progress s2 j in tcp_progress_status s j st else (s2, Ok))) i) as P3.
  { destruct (negb _); [|apply progresses_refl, O2]. pose proof (call_progress_ok s2 i j O2) as Q1. destruct (call_progress s2 j) as [s3 st3]. cbn [fst] in Q1.
    eapply progresses_trans; [exact Q1|]. apply tcp_progress_status_ok. by eapply progresses_owns. }
  destruct (if negb (bool_decide (TcpClient.state (client (session_at s2 j)) = Closed)) then _ else _) as [s3 st3]. cbn [fst] in P3.
  pose proof (progresses_trans _ _ _ _ P12 P3) as P123. destruct (failed st3) eqn:E3; [by apply Hstop|]. pose proof (progresses_effect _ _ _ P123) as (I3 & K3 & A3).
  destruct (negb _); [by split_and!|]. apply Hclear; [done|done|]. apply A3.
Qed.

(** ** Every call *)

Inductive call :=
  | Initialize (complete : bool)
  | Create (process : Z) (ty : Type_) (proto : Protocol) (has_output : bool)
  | Bind (process handle : Z) (endpoint : Endpoint)
  | Connect (process handle : Z) (endpoint : Endpoint)
  | Send (process handle : Z) (data : option (list Z))
  | Receive (process handle : Z) (has_output : bool) (capacity : Z) (has_out_size : bool)
  | Close (process handle : Z)
  | Readiness (process handle requested : Z) (has_out : bool)
  | ReleaseProcess (process : Z)
  | Pump (budget : nat).

Definition step s (c : call) : State W :=
  match c with
  | Initialize b => fst (initialize s b)
  | Create p ty proto b => fst (fst (create s p ty proto b))
  | Bind p h e => fst (bind s p h e)
  | Connect p h e => fst (connect s p h e)
  | Send p h data => fst (fst (send s p h data))
  | Receive p h b capacity b' => fst (fst (receive s p h b capacity b'))
  | Close p h => fst (close s p h)
  | Readiness p h requested b => fst (fst (readiness s p h requested b))
  | ReleaseProcess p => release_process s p
  | Pump n => fst (fst (pump s n))
  end.

Definition run s (calls : list call) : State W := foldl step s calls.

(** The process that calls, and the handle it names. *)
Definition caller (c : call) : option Z :=
  match c with
  | Create p _ _ _ | Bind p _ _ | Connect p _ _ | Send p _ _ | Receive p _ _ _ _ | Close p _ | Readiness p _ _ _ | ReleaseProcess p => Some p
  | Initialize _ | Pump _ => None
  end.

Definition target (c : call) : option (Z * Z) :=
  match c with
  | Bind p h _ | Connect p h _ | Send p h _ | Receive p h _ _ _ | Close p h | Readiness p h _ _ => Some (p, h)
  | _ => None
  end.

(** A call with a handle that does not resolve changes nothing. *)
Lemma unresolved_step s c p h failure : target c = Some (p, h) -> resolve s p h = inr failure -> step s c = s.
Proof.
  intros Ht Hr. destruct c; cbn [target] in Ht; try done; injection Ht as -> ->; cbn [step].
  - unfold bind. destruct (negb _); [done|]. destruct (_ =? _); [done|]. by rewrite Hr.
  - unfold connect. destruct (negb _); [done|]. destruct (_ || _); [done|]. by rewrite Hr.
  - unfold send. destruct (negb _); [done|]. destruct data as [[|]|]; [done| |done]. by rewrite Hr.
  - unfold receive. destruct (negb _); [done|]. destruct (_ || _); [done|]. by rewrite Hr.
  - unfold close. destruct (negb _); [done|]. by rewrite Hr.
  - unfold readiness. destruct (negb _); [done|]. destruct (_ || _); [done|]. by rewrite Hr.
Qed.

Definition next_generation (g : Z) : Z := if u32 (g + 1) =? 0 then 1 else u32 (g + 1).

(** What one call can do to one slot, apart from its datagrams. *)
Inductive slot_step (l m : Slot) : Prop :=
  | stays : same_socket l m -> slot_step l m
  | closes_ : active l = true -> m = cleared (generation l) -> slot_step l m
  | opens : active l = false -> active m = true -> generation m = next_generation (generation l) -> slot_step l m.

Lemma same_socket_refl l : same_socket l l.
Proof. by split_and!. Qed.

Lemma grown_socket l m : grown l m -> same_socket l m.
Proof. intros Hg. by apply alive_socket, grown_alive. Qed.

(** A call of a process on its slot [i], for the whole table. *)
Definition local_step s s' (i : nat) : Prop := inv s' /\ kept s s' i /\ slot_step (slot_at s i) (slot_at s' i).

Lemma effect_local s s' i : effect s s' i -> local_step s s' i.
Proof. intros (I & K & A). split_and!; [done|done|by apply stays, alive_socket]. Qed.

Lemma target_step s c p h i : inv s -> target c = Some (p, h) -> resolve s p h = inl i -> local_step s (step s c) i.
Proof.
  intros Hs Ht Hr. destruct c; cbn [target] in Ht; try done; injection Ht as -> ->; cbn [step].
  - by apply effect_local, bind_effect.
  - by apply effect_local, connect_effect.
  - by apply effect_local, send_effect.
  - pose proof (receive_ok s p h has_output capacity has_out_size Hs i Hr) as F. destruct (receive _ _ _ _ _ _) as [[s' st] r]. destruct F as (I & K & A & _).
    split_and!; [done|done|by apply stays].
  - pose proof (close_ok s p h Hs i Hr) as F. destruct (sockt_resolve_ok _ _ _ _ Hr) as (_ & Ha & _). destruct (close s p h) as [s' st]. destruct F as (I & K & A).
    split_and!; [done|done|]. destruct (bool_decide _); [by apply closes_|by apply stays, alive_socket].
  - by apply effect_local, readiness_effect.
Qed.

Lemma create_step s p ty proto b : inv s ->
  fst (fst (create s p ty proto b)) = s \/
  exists i, (i < MAX_SOCKETS)%nat /\ active (slot_at s i) = false /\ local_step s (fst (fst (create s p ty proto b))) i.
Proof.
  intros Hs. unfold create. destruct (negb _); [by left|]. destruct (Z.eqb_spec p 0) as [|Hp]; [by left|]. destruct b; [|by left]. cbn [orb negb].
  destruct (negb _ && negb _) eqn:Ek; [by left|]. destruct (find_index _ _) as [i|] eqn:Ei; [|by left]. right.
  destruct (find_slot _ _ _ Hs Ei) as [Hi Hfree%negb_true_iff]. exists i. split; [done|]. split; [done|]. cbv zeta. cbn [fst].
  pose proof (generation_range s i Hs Hi) as Hg. set (g := if _ =? 0 then 1 else _). assert (1 <= g < 2 ^ 32) as Hg' by (unfold g, u32; destruct (Z.eqb_spec ((generation (slot_at s i) + 1) mod 2 ^ 32) 0); zdm).
  set (l := mkSlot p g ty proto _ _ _ 0 0 0 _ true false false). assert (ring_ok MAX_RX_DATAGRAMS (replicate MAX_RX_DATAGRAMS empty_queued) 0 0 0) as Hring by (apply ring_empty; [apply length_replicate|unfold MAX_RX_DATAGRAMS; lia]).
  assert (slot_ok l) as Hl.
  { refine (Build_slot_ok l Hg' Hp _ Hring (Forall_nil_2 _) _ _); [|done|intros Hlt; cbn in Hlt; lia].
    apply andb_false_iff in Ek as [[-> ->]%negb_false_iff%bool_decide_eq_true|[-> ->]%negb_false_iff%bool_decide_eq_true]; [by left|right; by split_and!; cbn; done || lia]. }
  assert (tcp_session (slot_at s i) = MAX_TCP_SESSIONS) as Et.
  { pose proof (iv_slot s Hs i Hi) as Hf. unfold slot_fine in Hf. rewrite Hfree in Hf. by destruct Hf as (? & _ & ->). }
  split_and!; [|by apply kept_set_slot|].
  - apply inv_set_slot; [done|done|exact Hl|by rewrite Et|]. intros k _ _ _ Hb. done.
  - rewrite slot_at_set by (rewrite (iv_slots s Hs); lia). rewrite decide_True by done. by apply opens.
Qed.

(** Slots of other processes, for calls that touch several slots. *)
Definition kept_others s s' (p : Z) : Prop := forall k, (k < MAX_SOCKETS)%nat -> active (slot_at s k) = true -> owner (slot_at s k) ≠ p ->
  grown (slot_at s k) (slot_at s' k) /\
  ((tcp_session (slot_at s k) < MAX_TCP_SESSIONS)%nat -> session_at s' (tcp_session (slot_at s k)) = session_at s (tcp_session (slot_at s k))).

Lemma kept_others_refl s p : kept_others s s p.
Proof. intros k _ _ _. split; [apply grown_refl|done]. Qed.

Lemma kept_others_trans s1 s2 s3 p : kept_others s1 s2 p -> kept_others s2 s3 p -> kept_others s1 s3 p.
Proof.
  intros H1 H2 k Hk Ha Hp. destruct (H1 k Hk Ha Hp) as [G1 S1]. destruct (grown_socket _ _ G1) as (Ea & Eo & _).
  destruct (H2 k Hk) as [G2 S2]; [by rewrite Ea|by rewrite Eo|]. split; [by eapply grown_trans|]. intros Ht. rewrite (grown_session _ _ G1) in S2. rewrite S2, S1; done.
Qed.

Lemma kept_kept_others s s' i p : kept s s' i -> (active (slot_at s i) = true -> owner (slot_at s i) = p) -> kept_others s s' p.
Proof. intros K Ho k Hk Ha Hp. apply K; [done|]. intros ->. by apply Hp, Ho. Qed.

Lemma clear_slot_ne s i k : inv s -> (i < MAX_SOCKETS)%nat -> k ≠ i -> slot_at (clear_slot s i) k = slot_at s k.
Proof.
  intros Hs Hi Hne. destruct (sockt_release_ok s i Hs Hi) as (Hs1 & _ & _). unfold clear_slot. cbv zeta.
  rewrite slot_at_set by (rewrite (iv_slots _ Hs1); lia). rewrite decide_False by done. unfold release_tcp_session. cbv zeta. destruct (_ <=? _)%nat; [done|].
  rewrite slot_at_set by (cbn; rewrite (iv_slots s Hs); lia). by rewrite decide_False.
Qed.

(** The slot [k] after the process [p] is released. *)
Definition released (p : Z) (l : Slot) : Slot := if active l && (owner l =? p) then cleared (generation l) else l.

Lemma release_slot_ok s p i : inv s -> (i < MAX_SOCKETS)%nat ->
  inv (release_slot s p i) /\ kept_others s (release_slot s p i) p /\
  forall k, (k < MAX_SOCKETS)%nat -> slot_at (release_slot s p i) k = if decide (k = i) then released p (slot_at s k) else slot_at s k.
Proof.
  intros Hs Hi. unfold release_slot. destruct (active (slot_at s i) && (owner (slot_at s i) =? p)) eqn:E.
  - pose proof E as [Ha Ho%Z.eqb_eq]%andb_true_iff. destruct (clear_slot_ok s i Hs Hi) as (I & K & Ec). split_and!; [done|by apply (kept_kept_others s _ i)|].
    intros k Hk. destruct (decide (k = i)) as [->|Hne]; [|by apply clear_slot_ne]. unfold released. by rewrite E.
  - split_and!; [done|apply kept_others_refl|]. intros k _. destruct (decide (k = i)) as [->|]; [|done]. unfold released. by rewrite E.
Qed.

Lemma released_released p l : released p (released p l) = released p l.
Proof. unfold released. destruct (active l && (owner l =? p)) eqn:E; [done|]. by rewrite E. Qed.

Lemma release_slots_ok p js : forall s, inv s -> (forall i, i ∈ js -> (i < MAX_SOCKETS)%nat) ->
  let s' := foldl (fun s i => release_slot s p i) s js in
  inv s' /\ kept_others s s' p /\ forall k, (k < MAX_SOCKETS)%nat -> slot_at s' k = if decide (k ∈ js) then released p (slot_at s k) else slot_at s k.
Proof.
  induction js as [|i js IH]; intros s Hs His; cbn [foldl].
  - split_and!; [done|apply kept_others_refl|]. intros k _. destruct (decide (k ∈ [])) as [H0%elem_of_nil|]; done.
  - destruct (release_slot_ok s p i Hs (His i ltac:(left))) as (I1 & K1 & E1). destruct (IH _ I1 ltac:(intros k Hk; apply His; by right)) as (I2 & K2 & E2).
    split_and!; [done|by eapply kept_others_trans|]. intros k Hk. rewrite E2, E1 by done.
    destruct (decide (k = i)) as [->|Hne].
    + rewrite (decide_True (P := i ∈ i :: js)) by left. destruct (decide (i ∈ js)); [by rewrite released_released|done].
    + destruct (decide (k ∈ js)) as [Hin|Hin].
      * by rewrite decide_True by (by right).
      * by rewrite decide_False by (by intros [?|?]%elem_of_cons).
Qed.

Lemma release_process_ok s p : inv s -> inv (release_process s p) /\ kept_others s (release_process s p) p /\
  forall k, (k < MAX_SOCKETS)%nat -> slot_at (release_process s p) k = slot_at s k \/ slot_at (release_process s p) k = released p (slot_at s k).
Proof.
  intros Hs. unfold release_process. destruct (negb _ || _); [split_and!; [done|apply kept_others_refl|by left]|].
  destruct (release_slots_ok p (seq 0 MAX_SOCKETS) s Hs) as (I & K & E); [intros i Hi%elem_of_seq; lia|]. split_and!; [done|done|].
  intros k Hk. rewrite E by done. destruct (decide _); [by right|by left].
Qed.

Lemma released_step p l : slot_step l (released p l).
Proof.
  unfold released. destruct (active l && (owner l =? p)) eqn:E; [|apply stays, same_socket_refl]. apply andb_true_iff in E as [Ha _]. by apply closes_.
Qed.

(** Every call keeps the invariant, and what it can do to the slots. *)
Lemma sockt_step_ok s c : inv s -> inv (step s c) /\ (forall k, (k < MAX_SOCKETS)%nat -> slot_step (slot_at s k) (slot_at (step s c) k)) /\
  match caller c with Some p => kept_others s (step s c) p | None => receives s (step s c) end.
Proof.
  intros Hs. assert (forall s' i, (i < MAX_SOCKETS)%nat -> local_step s s' i -> inv s' /\ (forall k, (k < MAX_SOCKETS)%nat -> slot_step (slot_at s k) (slot_at s' k))) as Hloc.
  { intros s' i Hi (I & K & S). split; [done|]. intros k Hk. destruct (decide (k = i)) as [->|Hne]; [done|]. apply stays, grown_socket. by apply K. }
  assert (forall p h, target c = Some (p, h) -> caller c = Some p) as Hcaller by (intros p h; destruct c; cbn; intros [= -> ->]; done).
  destruct (target c) as [[p h]|] eqn:Et.
  - rewrite (Hcaller p h eq_refl). destruct (resolve s p h) as [i|failure] eqn:Er.
    + pose proof (target_step s c p h i Hs Et Er) as L. destruct (sockt_resolve_ok _ _ _ _ Er) as (Hi & Ha & Ho & _). destruct (Hloc _ i Hi L) as [I S]. split_and!; [done|done|].
      apply (kept_kept_others s _ i); [apply L|done].
    + rewrite (unresolved_step s c p h failure Et Er). split_and!; [done| |apply kept_others_refl]. intros k _. apply stays, same_socket_refl.
  - destruct c; cbn [target] in Et; try done; cbn [step caller].
    + assert (initialize s complete = (s, AlreadyInitialized)) as -> by (unfold initialize; by rewrite (iv_initialized s Hs)).
      split_and!; [done| |by apply receives_refl]. intros k _. apply stays, same_socket_refl.
    + destruct (create_step s process ty proto has_output Hs) as [->|(i & Hi & Ha & L)].
      { split_and!; [done| |apply kept_others_refl]. intros k _. apply stays, same_socket_refl. }
      destruct (Hloc _ i Hi L) as [I S]. split_and!; [done|done|]. apply (kept_kept_others s _ i); [apply L|congruence].
    + destruct (release_process_ok s process Hs) as (I & K & E). split_and!; [done| |done]. intros k Hk. destruct (E k Hk) as [->| ->]; [apply stays, same_socket_refl|apply released_step].
    + pose proof (pump_receives s budget Hs) as R. split_and!; [apply R| |done]. intros k Hk. apply stays, grown_socket. by apply R.
Qed.

Lemma sockt_run_inv calls : forall s, inv s -> inv (run s calls).
Proof. induction calls as [|c calls IH]; intros s Hs; [done|]. apply IH. by apply sockt_step_ok. Qed.

Lemma run_cons s c calls : run s (c :: calls) = run (step s c) calls.
Proof. done. Qed.

Lemma run_app s calls calls' : run s (calls ++ calls') = run (run s calls) calls'.
Proof. apply foldl_app. Qed.

Lemma initialize_step s : initialized s = false -> inv (step s (Initialize true)).
Proof.
  intros Hi. cbn [step]. unfold initialize. rewrite Hi. cbn [negb fst]. set (s0 := mkState _ _ _ _ _ _).
  assert (forall i, (i < MAX_SOCKETS)%nat -> slot_at s0 i = cleared 0) as Hsl.
  { intros i Hi'. unfold slot_at. change (slots s0) with (replicate MAX_SOCKETS (cleared 0)). apply nth_lookup_Some. by apply lookup_replicate_2. }
  assert (forall j, (j < MAX_TCP_SESSIONS)%nat -> session_at s0 j = empty_session) as Hse.
  { intros j Hj. unfold session_at. change (sessions s0) with (replicate MAX_TCP_SESSIONS empty_session). apply nth_lookup_Some. by apply lookup_replicate_2. }
  refine (Build_inv s0 eq_refl (length_replicate _ _) (length_replicate _ _) _ _ _ _ _ _ _).
  - intros i Hi'. rewrite Hsl by done. apply cleared_fine. lia.
  - intros j Hj. by rewrite Hse.
  - intros i Hi'. rewrite Hsl by done. cbn. lia.
  - intros j Hj. rewrite Hse by done. done.
  - intros i k Hi' Hk. rewrite Hsl by done. cbn. lia.
  - intros i k Hi' Hk _. rewrite Hsl by done. done.
  - cbn. unfold EPHEMERAL_PORT_FIRST. lia.
Qed.

Lemma uninitialized_step s c : initialized s = false -> step s c = s \/ inv (step s c).
Proof.
  intros Hi. destruct c; cbn [step]; try (left; unfold create, bind, connect, send, receive, close, readiness, release_process, pump; by rewrite Hi).
  destruct complete; [right; by apply initialize_step|left]. unfold initialize. by rewrite Hi.
Qed.

(** C29: whatever the processes and the network do, once the table is initialised:
    slots and sessions that are not in use are cleared; a socket in use has an owner,
    a generation and a well-formed queue of at most four datagrams; every session in use
    belongs to exactly one socket and has transmitted its request at most four times; a
    bound socket has a port; and no two sockets of a protocol can both receive what is
    sent to one address and port. *)
Theorem socket_invariant s calls : initialized s = false -> initialized (run s calls) = true -> inv (run s calls).
Proof.
  intros Hi. assert (run s calls = s \/ inv (run s calls)) as [->|Hs]; [|congruence|done].
  induction calls as [|c calls IH] using rev_ind; [by left|]. rewrite run_app. cbn [run foldl].
  destruct IH as [->|Hs]; [by apply uninitialized_step|right; by apply sockt_step_ok].
Qed.

(** C19: isolation.  A call changes a socket of another process only by queueing
    datagrams behind those it holds, and never its TCP session; and a call with a handle
    of another process's socket changes nothing at all. *)
Theorem socket_isolation s c k : inv s -> (k < MAX_SOCKETS)%nat -> active (slot_at s k) = true -> caller c ≠ Some (owner (slot_at s k)) ->
  grown (slot_at s k) (slot_at (step s c) k) /\
  ((tcp_session (slot_at s k) < MAX_TCP_SESSIONS)%nat -> session_at (step s c) (tcp_session (slot_at s k)) = session_at s (tcp_session (slot_at s k))) /\
  (forall p h, target c = Some (p, h) -> decode_index h = Some (k, generation (slot_at s k)) -> resolve s p h = inr AccessDenied /\ step s c = s).
Proof.
  intros Hs Hk Ha Hc. destruct (sockt_step_ok s c Hs) as (_ & _ & K). split_and!.
  - destruct (caller c) as [p|]; [apply K; [done|done|congruence]|by apply K].
  - intros Ht. destruct (caller c) as [p|]; [apply K; [done|done|congruence|done]|]. unfold session_at. by rewrite (rc_sessions _ _ K).
  - intros p h Ht Hd. assert (caller c = Some p) as Hp by (destruct c; cbn in *; congruence).
    assert (resolve s p h = inr AccessDenied) as Hr; [|split; [done|by eapply unresolved_step]].
    unfold resolve. rewrite Hd. cbv zeta. rewrite Ha, Z.eqb_refl. cbn [negb orb]. destruct (Z.eqb_spec (owner (slot_at s k)) p); [congruence|done].
Qed.

(** ** Handles that have been closed *)

(** [d] generations after [g]. *)
Definition later (g d : Z) : Z := 1 + (g - 1 + d) mod (2 ^ 32 - 1).

Lemma next_later g d : next_generation (later g d) = later g (d + 1).
Proof. unfold next_generation, later, u32. destruct (Z.eqb_spec ((1 + (g - 1 + d) mod (2 ^ 32 - 1) + 1) mod 2 ^ 32) 0); zdm. Qed.

(** The slot's generation has moved at most [n] times, and once at least if it is in use. *)
Definition moved_on (g n : Z) (l : Slot) : Prop := exists d, 0 <= d <= n /\ generation l = later g d /\ (active l = true -> 1 <= d).

Lemma slot_step_moved g n l m : moved_on g n l -> slot_step l m -> moved_on g (n + 1) m.
Proof.
  intros (d & Hd & Hg & Ha) [(Ea & _ & Eg & _)|_ ->|E1 _ Eg].
  - exists d. rewrite Ea, Eg. split_and!; [lia|lia|done|done].
  - exists d. split_and!; [lia|lia|done|done].
  - exists (d + 1). rewrite Eg, Hg, next_later. split_and!; [lia|lia|done|lia].
Qed.

Lemma run_moved calls k g : forall s n, inv s -> (k < MAX_SOCKETS)%nat -> moved_on g n (slot_at s k) ->
  moved_on g (n + Z.of_nat (length calls)) (slot_at (run s calls) k).
Proof.
  induction calls as [|c calls IH]; intros s n Hs Hk Hm; [cbn; by rewrite Z.add_0_r|]. destruct (sockt_step_ok s c Hs) as (Hs' & Hst & _).
  rewrite run_cons. cbn [length]. replace (n + Z.of_nat (S (length calls))) with (n + 1 + Z.of_nat (length calls)) by lia.
  apply IH; [done|done|]. eapply slot_step_moved; [exact Hm|by apply Hst].
Qed.

(** C31: a handle whose socket has been closed stays stale for everyone through the
    next 2^32 - 2 calls, whoever reuses the slot: the generation of the slot has to
    run through all its values first. *)
Theorem closed_handle_stale s p h s' calls p' : inv s -> close s p h = (s', Ok) -> Z.of_nat (length calls) < 2 ^ 32 - 1 ->
  resolve (run s' calls) p' h = inr StaleHandle.
Proof.
  intros Hs Hc Hn. destruct (resolve s p h) as [k|e] eqn:Er.
  2: { unfold close in Hc. rewrite (iv_initialized s Hs), Er in Hc. cbn in Hc. injection Hc as _ ->. unfold resolve in Er.
       destruct (decode_index h) as [[i g]|]; [|done]. cbv zeta in Er. destruct (negb _ || _); [done|]. by destruct (negb _). }
  destruct (sockt_resolve_ok _ _ _ _ Er) as (Hk & Ha & _ & Hd). pose proof (so_generation _ (active_ok s k Hs Hk Ha)) as Hg. set (g := generation (slot_at s k)) in *.
  pose proof (close_ok s p h Hs k Er) as F. rewrite Hc in F. destruct F as (Hs' & _ & E). rewrite bool_decide_eq_true_2 in E by done. fold g in E.
  destruct (run_moved calls k g s' 0 Hs' Hk) as (d & Hd1 & Hgen & Hact).
  { exists 0. rewrite E. split_and!; [lia|lia| |done]. cbn. unfold later. zdm. }
  unfold resolve. rewrite Hd. cbv zeta. destruct (active (slot_at (run s' calls) k)); [|done]. specialize (Hact eq_refl). rewrite Hgen.
  replace (later g d =? g) with false; [done|]. symmetry. apply Z.eqb_neq. unfold later. zdm.
Qed.

(** ** Datagrams in order *)

(** Whether the call gives up the socket in slot [k]. *)
Definition gives_up s (c : call) (k : nat) : bool :=
  match c with
  | Close p h => bool_decide (resolve s p h = inl k)
  | ReleaseProcess p => owner (slot_at s k) =? p
  | _ => false
  end.

Fixpoint stays_open s (calls : list call) (k : nat) : bool :=
  match calls with
  | [] => true
  | c :: calls => negb (gives_up s c k) && stays_open (step s c) calls k
  end.

(** What the call returns of the datagrams of slot [k]. *)
Definition received_by s (c : call) (k : nat) : list Received :=
  match c with
  | Receive p h b capacity b' =>
      let '(_, st, r) := receive s p h b capacity b' in if bool_decide (st = Ok) && bool_decide (resolve s p h = inl k) then [r] else []
  | _ => []
  end.

Fixpoint received s (calls : list call) (k : nat) : list Received :=
  match calls with
  | [] => []
  | c :: calls => received_by s c k ++ received (step s c) calls k
  end.

Definition held s (k : nat) : list Received := delivered <$> rx_list (slot_at s k).

Lemma alive_held s s' k : alive (slot_at s k) (slot_at s' k) -> exists more, held s k ++ more = held s' k.
Proof. intros (_ & _ & _ & _ & _ & more & E). exists (delivered <$> more). unfold held. by rewrite E, fmap_app. Qed.

(** A call on slot [i], when the slot looked at is another one. *)
Lemma kept_held s s' i k : kept s s' i -> (k < MAX_SOCKETS)%nat -> k ≠ i ->
  same_socket (slot_at s k) (slot_at s' k) /\ exists more, held s k ++ more = held s' k.
Proof. intros K Hk Hne. destruct (K k Hk Hne) as [G _]. split; [by apply grown_socket|by apply alive_held, grown_alive]. Qed.

Lemma step_held s c k : inv s -> (k < MAX_SOCKETS)%nat -> active (slot_at s k) = true -> protocol (slot_at s k) = Udp -> gives_up s c k = false ->
  same_socket (slot_at s k) (slot_at (step s c) k) /\ exists more, held s k ++ more = received_by s c k ++ held (step s c) k.
Proof.
  intros Hs Hk Ha Hu Hopen. assert (forall s', alive (slot_at s k) (slot_at s' k) -> same_socket (slot_at s k) (slot_at s' k) /\ exists more, held s k ++ more = held s' k) as Halive.
  { intros s' A. split; [by apply alive_socket|by apply alive_held]. }
  assert (same_socket (slot_at s k) (slot_at s k) /\ exists more, held s k ++ more = held s k) as Hsame.
  { split; [apply same_socket_refl|]. exists []. by rewrite app_nil_r. }
  destruct (target c) as [[p h]|] eqn:Et.
  - destruct (resolve s p h) as [i|e] eqn:Er.
    + destruct (target_step s c p h i Hs Et Er) as (I & K & _). destruct (decide (k = i)) as [<-|Hne].
      * destruct c; cbn [target] in Et; try done; injection Et as -> ->; cbn [step received_by app].
        -- by apply Halive, bind_effect.
        -- by apply Halive, connect_effect.
        -- by apply Halive, send_effect.
        -- pose proof (receive_ok s p h has_output capacity has_out_size Hs k Er) as F. destruct (receive _ _ _ _ _ _) as [[s' st] r]. destruct F as (_ & _ & A & T).
           destruct (T Hu) as (_ & more & out & E & Ho). split; [exact A|]. exists (delivered <$> more). unfold held. rewrite (bool_decide_eq_true_2 (resolve s p h = inl k)) by done.
           cbn [fst]. rewrite <- fmap_app, E, fmap_app. destruct (bool_decide (st = Ok)); cbn [andb]; [by destruct Ho as (q & -> & ->)|by rewrite Ho].
        -- pose proof (close_ok s p h Hs k Er) as F. cbn [gives_up] in Hopen. by rewrite (bool_decide_eq_true_2 _ Er) in Hopen.
        -- by apply Halive, readiness_effect.
      * assert (received_by s c k = []) as ->; [|by apply (kept_held s _ i)]. destruct c; cbn [target] in Et; try done; injection Et as -> ->; cbn [received_by].
        destruct (receive _ _ _ _ _ _) as [[s' st] r]. rewrite (bool_decide_eq_false_2 (resolve s p h = inl k)) by congruence. by rewrite andb_false_r.
    + rewrite (unresolved_step s c p h e Et Er). assert (received_by s c k = []) as ->; [|exact Hsame].
      destruct c; cbn [target] in Et; try done; injection Et as -> ->; cbn [received_by]. destruct (receive _ _ _ _ _ _) as [[s' st] r].
      rewrite (bool_decide_eq_false_2 (resolve s p h = inl k)) by congruence. by rewrite andb_false_r.
  - destruct c; cbn [target] in Et; try done; cbn [step received_by app].
    + assert (initialize s complete = (s, AlreadyInitialized)) as -> by (unfold initialize; by rewrite (iv_initialized s Hs)). exact Hsame.
    + destruct (create_step s process ty proto has_output Hs) as [->|(i & Hi & Hfree & _ & K & _)]; [exact Hsame|]. apply (kept_held s _ i); [done|done|congruence].
    + destruct (release_process_ok s process Hs) as (_ & K & _). destruct (K k Hk Ha) as [G _]; [|by apply Halive, grown_alive].
      cbn [gives_up] in Hopen. by apply Z.eqb_neq in Hopen.
    + apply Halive, grown_alive. by apply pump_receives.
Qed.

(** a datagram socket is a queue.  Through any calls that do not close it, what
    its owner receives is, in order and each datagram once with its source, what the
    socket held at first and then what has arrived since; the rest is still held. *)
Theorem datagram_fifo s k calls : inv s -> (k < MAX_SOCKETS)%nat -> active (slot_at s k) = true -> protocol (slot_at s k) = Udp ->
  stays_open s calls k = true ->
  exists arrived, held s k ++ arrived = received s calls k ++ held (run s calls) k.
Proof.
  revert s. induction calls as [|c calls IH]; intros s Hs Hk Ha Hu Hopen; [exists []; by rewrite app_nil_r|].
  cbn [stays_open] in Hopen. apply andb_true_iff in Hopen as [Hc%negb_true_iff Hopen].
  destruct (step_held s c k Hs Hk Ha Hu Hc) as ((Ea & _ & _ & _ & Ep) & more & E).
  destruct (IH (step s c)) as (arrived & E2); [by apply sockt_step_ok|done|by rewrite Ea|by rewrite Ep|done|].
  exists (more ++ arrived). cbn [received]. rewrite run_cons, app_assoc, E, <- !app_assoc. f_equal. exact E2.
Qed.

(** ** Datagrams on the loopback *)

Lemma address_equal_spec a b : address_equal a b = true <-> forall i, i ∈ seqZ 0 IPV4_ADDRESS_LENGTH -> word_at a i = word_at b i.
Proof.
  unfold address_equal. rewrite forallb_forall. split.
  - intros Hall i Hi. apply Z.eqb_eq, Hall. by apply list_elem_of_In.
  - intros Hall i Hi. apply Z.eqb_eq, Hall. by apply list_elem_of_In.
Qed.

Lemma accepts_spec l src dst : slot_accepts_datagram l src dst = true ->
  port (local_ l) = port dst /\ (address_zero (address (local_ l)) = true \/ address_equal (address (local_ l)) (address dst) = true).
Proof.
  intros Hacc. destruct (accepts_udp _ _ _ Hacc) as (Ha & Hu & Hb). unfold slot_accepts_datagram in Hacc. rewrite Ha, Hb, bool_decide_eq_true_2 in Hacc by done.
  cbn [negb orb] in Hacc. destruct (Z.eqb_spec (port (local_ l)) (port dst)); cbn [negb] in Hacc; [|done]. split; [done|].
  destruct (address_zero _); [by left|]. cbn [negb andb] in Hacc. destruct (address_equal (address (local_ l)) (address dst)); [by right|done].
Qed.

(** At most one socket accepts a datagram. *)
Lemma accepts_unique s k m src dst : inv s -> (k < MAX_SOCKETS)%nat -> (m < MAX_SOCKETS)%nat ->
  slot_accepts_datagram (slot_at s k) src dst = true -> slot_accepts_datagram (slot_at s m) src dst = true -> k = m.
Proof.
  intros Hs Hk Hm H1 H2. destruct (decide (k = m)) as [|Hne]; [done|]. exfalso.
  destruct (accepts_udp _ _ _ H1) as (Ka & Ku & Kb), (accepts_udp _ _ _ H2) as (Ma & Mu & Mb). destruct (accepts_spec _ _ _ H1) as [P1 A1], (accepts_spec _ _ _ H2) as [P2 A2].
  pose proof (iv_apart s Hs k m Hk Hm Hne Ka Kb Ma Mb ltac:(congruence)) as Ho. unfold endpoints_overlap in Ho. rewrite P1, P2, Z.eqb_refl in Ho. cbn [negb] in Ho.
  apply orb_false_iff in Ho as [Ho E3]. apply orb_false_iff in Ho as [E1 E2]. destruct A1 as [A1|A1], A2 as [A2|A2]; try congruence.
  apply (proj2 (not_true_iff_false _) E3). apply address_equal_spec. intros i Hi. rewrite address_equal_spec in A1, A2. by rewrite A1, A2.
Qed.

(** The endpoint that a datagram on the loopback comes from. *)
Definition loopback_source (l : Slot) : Endpoint :=
  mkEndpoint (if address_zero (address (local_ l)) then canonical_loopback else address (local_ l)) (port (local_ l)).

(** C24: a datagram sent to a loopback address goes to the one socket that accepts it:
    it is the last that socket holds, byte for byte and with the sender's endpoint, and
    nothing else changes.  When that socket holds four already, [send] would block
    and changes nothing; when no socket accepts it, it is dropped; and the network never sees it. *)
Theorem loopback_delivery s p h bytes i : inv s -> resolve s p h = inl i -> protocol (slot_at s i) = Udp -> type (slot_at s i) = Datagram ->
  bound (slot_at s i) = true -> connected (slot_at s i) = true -> address_loopback (address (remote (slot_at s i))) = true ->
  bytes ≠ [] -> Z.of_nat (length bytes) <= UDP_MAX_PAYLOAD ->
  let accepts k := slot_accepts_datagram (slot_at s k) (loopback_source (slot_at s i)) (remote (slot_at s i)) in
  let n := Z.of_nat (length bytes) in
  let '(s', st, sent) := send s p h (Some bytes) in
  world s' = world s /\ sessions s' = sessions s /\
  ((exists k, (k < MAX_SOCKETS)%nat /\ accepts k = true /\ (forall m, (m < MAX_SOCKETS)%nat -> accepts m = true -> m = k) /\
      if (rx_count (slot_at s k) <? MAX_RX_DATAGRAMS)%nat
      then st = Ok /\ sent = n /\ held s' k = held s k ++ [mkReceived bytes n (Some (loopback_source (slot_at s i)))] /\
           (forall m, m ≠ k -> slot_at s' m = slot_at s m)
      else s' = s /\ st = WouldBlock /\ sent = 0) \/
   (forall m, (m < MAX_SOCKETS)%nat -> accepts m = false) /\ s' = s /\ st = Ok /\ sent = n).
Proof.
  intros Hs Hr Hu Hty Hb Hcon Hl Hne Hmax. destruct (sockt_resolve_ok _ _ _ _ Hr) as (Hi & Ha & _). cbv zeta.
  assert (send s p h (Some bytes) = let '(s', st) := send_loopback s i bytes in (s', st, if bool_decide (st = Ok) then Z.of_nat (length bytes) else 0)) as ->.
  { unfold send. rewrite (iv_initialized s Hs). destruct bytes as [|x bytes]; [done|]. cbn [negb]. rewrite Hr. cbv zeta. rewrite Hb, Hcon, Hl.
    rewrite (bool_decide_eq_true_2 (protocol (slot_at s i) = Udp /\ type (slot_at s i) = Datagram)) by done. cbn [negb]. by rewrite (proj2 (Z.ltb_ge _ _) Hmax). }
  unfold send_loopback. cbv zeta. change (mkEndpoint _ (port (local_ (slot_at s i)))) with (loopback_source (slot_at s i)).
  set (src := loopback_source (slot_at s i)). set (dst := remote (slot_at s i)). destruct (find_index _ _) as [k|] eqn:E.
  - destruct (find_slot _ _ _ Hs E) as [Hk Hacc]. destruct (accepts_udp _ _ _ Hacc) as (Ka & Ku & _).
    assert (forall m, (m < MAX_SOCKETS)%nat -> slot_accepts_datagram (slot_at s m) src dst = true -> m = k) as Huniq.
    { intros m Hm Hm'. by apply (accepts_unique s m k src dst). }
    assert (0 < Z.of_nat (length bytes)) as Hpos by (destruct bytes; [done|cbn [length]; lia]).
    destruct (enqueue_payload (slot_at s k) src bytes (Z.of_nat (length bytes))) as [l|] eqn:Eq.
    + destruct (enqueue_payload_ok _ _ _ _ _ (active_ok s k Hs Hk Ka) Ku (Z.lt_le_incl _ _ Hpos) Eq) as (_ & _ & Hcount & q & El & Eqs & Eqn & Eqp).
      split_and!; [done|done|]. left. exists k. split_and!; [done|done|done|]. rewrite (proj2 (Nat.ltb_lt _ _) Hcount). split_and!; [done|done| |].
      * unfold held. rewrite slot_at_set by (rewrite (iv_slots s Hs); lia). rewrite decide_True by done. rewrite El, fmap_app. cbn [fmap list_fmap]. f_equal. f_equal.
        unfold delivered. rewrite Eqs, Eqn, Eqp. f_equal. rewrite Nat2Z.id, (take_ge bytes) by lia. by rewrite take_app_length.
      * intros m Hm. rewrite slot_at_set by (rewrite (iv_slots s Hs); lia). by rewrite decide_False.
    + split_and!; [done|done|]. left. exists k. split_and!; [done|done|done|]. unfold enqueue_payload in Eq.
      destruct (Nat.leb_spec MAX_RX_DATAGRAMS (rx_count (slot_at s k))) as [Hfull|]; [by rewrite (proj2 (Nat.ltb_ge _ _) Hfull)|].
      destruct (Z.eqb_spec (Z.of_nat (length bytes)) 0); [lia|]. by rewrite (proj2 (Z.ltb_ge _ _) Hmax) in Eq.
  - split_and!; [done|done|]. right. split_and!; try done. intros m Hm. by apply (proj1 (find_index_None _ _) E m), slot_lookup.
Qed.

(** ** Ephemeral ports *)

(** The port tried in attempt [a]. *)
Definition candidate s (a : nat) : Z := EPHEMERAL_PORT_FIRST + (next_ephemeral s - EPHEMERAL_PORT_FIRST + Z.of_nat a) mod (65536 - EPHEMERAL_PORT_FIRST).

Lemma in_use_spec s e proto ignored : endpoint_in_use s e proto ignored = true ->
  exists k, (k < MAX_SOCKETS)%nat /\ k ≠ ignored /\ port (local_ (slot_at s k)) = port e.
Proof.
  unfold endpoint_in_use. intros (k & Hk & E)%existsb_exists. apply in_seq in Hk. cbv zeta in E. exists k.
  destruct (Nat.eqb_spec k ignored); [by rewrite orb_true_r in E|]. split_and!; [lia|done|]. destruct (_ || _); [done|].
  unfold endpoints_overlap in E. by destruct (Z.eqb_spec (port (local_ (slot_at s k))) (port e)).
Qed.

Lemma ephemeral_exhausted n i : forall s, inv s -> snd (ephemeral_loop n s i) = 0 ->
  forall a, (a < n)%nat -> exists k, (k < MAX_SOCKETS)%nat /\ k ≠ i /\ port (local_ (slot_at s k)) = candidate s a.
Proof.
  induction n as [|n IH]; intros s Hs He a Hlt; [lia|]. cbn [ephemeral_loop] in He. cbv zeta in He. set (q := if u16 _ <? _ then _ else _) in *.
  pose proof (iv_ephemeral s Hs) as Hr. pose proof (next_ephemeral_range _ Hr) as Hq. fold q in Hq.
  assert (inv (set_next_ephemeral s q)) as Hs1 by (by apply (inv_ext s)). destruct (endpoint_in_use _ _ _ _) eqn:E; cbn [negb] in He.
  - destruct a as [|a].
    + apply in_use_spec in E as (k & Hk & Hne & Ek). exists k. split_and!; [done|done|]. cbn [port] in Ek. change (slot_at (set_next_ephemeral s q) k) with (slot_at s k) in Ek.
      rewrite Ek. unfold candidate, EPHEMERAL_PORT_FIRST in *. zdm.
    + destruct (IH _ Hs1 He a ltac:(lia)) as (k & Hk & Hne & Ek). exists k. split_and!; [done|done|]. change (slot_at (set_next_ephemeral s q) k) with (slot_at s k) in Ek.
      rewrite Ek. unfold candidate. cbn [next_ephemeral set_next_ephemeral]. unfold q, u16, EPHEMERAL_PORT_FIRST in *.
      destruct (Z.ltb_spec ((next_ephemeral s + 1) mod 2 ^ 16) 49152); zdm.
  - exfalso. cbn [snd] in He. unfold EPHEMERAL_PORT_FIRST in Hr. lia.
Qed.

(** there is always an ephemeral port: the search of [connect] ends with one that
    no other socket of the protocol uses, so that a socket that is not bound never
    fails to be. *)
Theorem ephemeral_port_found s i : inv s -> (i < MAX_SOCKETS)%nat ->
  let '(s', p) := allocate_ephemeral_port s i in
  EPHEMERAL_PORT_FIRST <= p < 65536 /\ endpoint_in_use s' (mkEndpoint ZERO_IP p) (protocol (slot_at s' i)) i = false /\ slots s' = slots s.
Proof.
  intros Hs Hi. unfold allocate_ephemeral_port. set (n := Z.to_nat (65536 - EPHEMERAL_PORT_FIRST)). pose proof (ephemeral_loop_ok n s i Hs) as F.
  destruct (ephemeral_loop n s i) as [s' p] eqn:E. destruct F as (_ & Esl & _ & F).
  assert (p ≠ 0) as Hp; [|destruct (F Hp) as [Q1 Q2]; split; [exact Q1|split; [exact Q2|exact Esl]]]. intros ->.
  assert (MAX_SOCKETS <= n)%nat as Hn by (unfold n, MAX_SOCKETS, EPHEMERAL_PORT_FIRST; lia). clearbody n.
  set (ports := (fun k => port (local_ (slot_at s k))) <$> filter (fun k => k ≠ i) (seq 0 MAX_SOCKETS)).
  assert ((candidate s <$> seq 0 MAX_SOCKETS) ⊆+ ports) as Hsub.
  { apply NoDup_submseteq.
    - apply NoDup_fmap_2_strong; [|apply NoDup_seq]. intros a b Ha%elem_of_seq Hb%elem_of_seq Eab. unfold candidate, EPHEMERAL_PORT_FIRST, MAX_SOCKETS in *. zdm.
    - intros x (a & -> & Ha%elem_of_seq)%list_elem_of_fmap. destruct (ephemeral_exhausted n i s Hs ltac:(by rewrite E) a ltac:(lia)) as (k & Hk & Hne & <-).
      unfold ports. apply list_elem_of_fmap. exists k. split; [done|]. apply list_elem_of_filter. split; [done|]. apply elem_of_seq. lia. }
  apply submseteq_length in Hsub. unfold ports in Hsub. rewrite !length_fmap, length_seq in Hsub.
  assert (length (filter (fun k => k ≠ i) (seq 0 MAX_SOCKETS)) < length (seq 0 MAX_SOCKETS))%nat as Hlt.
  { apply (length_filter_lt (fun k => k ≠ i) _ i); [apply elem_of_seq; lia|by intros ?]. }
  rewrite length_seq in Hlt. lia.
Qed.

(** ** The deadline of a connection *)

(** A step on session [j] that keeps when its connection was started. *)
Definition same_start s s' (j : nat) : Prop := connect_started_ms (session_at s' j) = connect_started_ms (session_at s j).

Lemma set_session_start s j x : (j < length (sessions s))%nat -> connect_started_ms x = connect_started_ms (session_at s j) -> same_start s (set_session s j x) j.
Proof. intros Hj E. unfold same_start. rewrite session_at_set by done. by rewrite decide_True. Qed.

Lemma note_connection_same s i j : (j < length (sessions s))%nat ->
  same_start s (note_connection s i j) j /\ terminal_status (session_at (note_connection s i j) j) = terminal_status (session_at s j).
Proof.
  intros Hj. unfold note_connection, same_start. destruct (TcpClient.connected _); [|done]. rewrite session_at_set by done. by rewrite decide_True.
Qed.

Lemma tcp_progress_status_spec s j status : (j < length (sessions s))%nat -> terminal_status (session_at s j) = Ok ->
  let '(s', st) := tcp_progress_status s j status in
  st ≠ TimedOut /\ same_start s s' j /\ world s' = world s /\ (failed st = false -> s' = s).
Proof.
  intros Hj Ht. unfold tcp_progress_status. rewrite Ht. cbn [bool_decide]. rewrite bool_decide_eq_true_2 by done. cbn [negb].
  destruct (bool_decide _); [split_and!; [by destruct (was_connected _)|by apply set_session_start|done|by destruct (was_connected _)]|].
  destruct (_ && _); [by split_and!; [|apply set_session_start| |]|]. split_and!; [by destruct status|done|done|done].
Qed.

Lemma progress_deadline s i j : owns s i j -> terminal_status (session_at s j) = Ok ->
  (forall w c st, tcp_progress (world s) (client (session_at s j)) = (w, c, st) ->
     TCP_CONNECT_TIMEOUT_MS <= u64 (snd (backend_monotonic_ms w) - connect_started_ms (session_at s j))) ->
  let '(s', st) := progress_tcp_connection s i j in
  (st = WouldBlock -> TcpClient.state (client (session_at s' j)) ≠ SynSent) /\ (st = TimedOut -> terminal_status (session_at s' j) = TimedOut).
Proof.
  intros Ho Ht Hlate. destruct (owns_active s i j Ho) as (_ & _ & Hj). unfold progress_tcp_connection. rewrite Ht, bool_decide_eq_true_2 by done. cbn [negb].
  unfold call_progress. destruct (tcp_progress _ _) as [[w c] st] eqn:Ep. specialize (Hlate w c st eq_refl).
  set (s1 := set_session (set_world s w) j (with_client (session_at s j) c)). assert (session_at s1 j = with_client (session_at s j) c) as E1.
  { unfold s1. rewrite session_at_set by done. by rewrite decide_True. }
  assert (progresses s s1 i) as P1 by (by apply client_session_ok). pose proof (progresses_owns _ _ _ _ Ho P1) as O1.
  destruct (owns_active s1 i j O1) as (_ & _ & Hj1). destruct (note_connection_same s1 i j Hj1) as [N1 N2]. pose proof (note_connection_ok s1 i j O1) as P2.
  pose proof (progresses_owns _ _ _ _ O1 P2) as O2. destruct (owns_active _ i j O2) as (_ & _ & Hj2).
  assert (world (note_connection s1 i j) = w) as Ew by (unfold note_connection; by destruct (TcpClient.connected _)). set (s2 := note_connection s1 i j) in *.
  assert (terminal_status (session_at s2 j) = Ok) as Ht2 by (rewrite N2, E1; exact Ht). pose proof (tcp_progress_status_spec s2 j st Hj2 Ht2) as Q.
  destruct (tcp_progress_status s2 j st) as [s3 mapped]. destruct Q as (Q1 & Q2 & Q3 & Q4). destruct (failed mapped) eqn:Ef.
  { split; [intros ->; done|done]. }
  rewrite (Q4 eq_refl) in *. destruct (connected (slot_at s2 i)); [by split|].
  destruct (bool_decide (TcpClient.state (client (session_at s2 j)) = SynSent)) eqn:Es; cbn [negb].
  2: { apply bool_decide_eq_false in Es. split; [done|]. by destruct (bool_decide (mapped = Ok)). }
  unfold connect_timer, monotonic_ms. rewrite Ew. destruct (backend_monotonic_ms w) as [w' now]. cbn [snd] in Hlate. cbv zeta.
  change (session_at (set_world s2 w') j) with (session_at s2 j). unfold same_start in N1. rewrite N1, E1. cbn [connect_started_ms with_client].
  rewrite (proj2 (Z.leb_le _ _) Hlate). split; [done|]. intros _. rewrite session_at_set by done. by rewrite decide_True.
Qed.


End theory.

(** ** Witnesses *)

(** A transport whose state is its clock; asking for progress takes eight seconds. *)
Definition clock_backend : Backend Z := {|
  send_udp w _ _ _ _ := (w, Network.Ok);
  poll w _ := (w, Network.Ok, 0);
  take_udp w := (w, Network.WouldBlock, empty_udp_datagram);
  backend_monotonic_ms w := (w, w);
  tcp_begin_connect w c _ _ _ _ := (w, TcpClient.to_state c SynSent, Network.WouldBlock);
  tcp_progress w c := (w + 8000, c, Network.WouldBlock);
  tcp_try_send w c _ := (w, c, Network.WouldBlock, 0);
  tcp_try_receive w c _ := (w, c, Network.WouldBlock, [], 0);
  tcp_begin_close w c := (w, c, Network.WouldBlock) |}.
#[local] Existing Instance clock_backend.

Definition blank : State Z := mkState 0 [] [] false 0 0.
Definition h0 : Z := encode_handle 0 1.
Definition h1 : Z := encode_handle 1 1.
Definition h2 : Z := encode_handle 2 1.
Definition server : Endpoint := mkEndpoint [10; 0; 0; 1] 80.

(** A socket on port 53, one connected to it, and a stream socket that waits for an answer. *)
Definition sample_calls : list call :=
  [Initialize true; Create 7 Datagram Udp true; Bind 7 h0 (mkEndpoint ZERO_IP 53); Create 8 Datagram Udp true;
   Connect 8 h1 (mkEndpoint canonical_loopback 53); Send 8 h1 (Some [1; 2; 3]); Create 9 Stream Tcp true; Connect 9 h2 server].
Definition sample : State Z := run blank sample_calls.

Lemma sockt_sample_inv : inv sample.
Proof. unfold sample, sample_calls. rewrite run_cons. apply sockt_run_inv. by apply initialize_step. Qed.

Lemma socket_invariant_witness : initialized sample = true /\ inv sample.
Proof. split; [vm_compute; reflexivity|]. apply (socket_invariant blank sample_calls); vm_compute; reflexivity. Defined.

Lemma socket_isolation_witness : resolve sample 8 h0 = inr AccessDenied /\ step sample (Close 8 h0) = sample.
Proof.
  destruct (socket_isolation sample (Close 8 h0) 0 sockt_sample_inv) as (_ & _ & H); [unfold MAX_SOCKETS; lia|vm_compute; reflexivity|vm_compute; intros X; discriminate X|].
  apply H; [reflexivity|vm_compute; reflexivity].
Defined.

Lemma closed_handle_stale_witness : exists s', close sample 7 h0 = (s', Ok) /\
  forall p', resolve (run s' [Create 9 Datagram Udp true; Create 9 Datagram Udp true]) p' h0 = inr StaleHandle.
Proof.
  assert (snd (close sample 7 h0) = Ok) as E by (vm_compute; reflexivity). destruct (close sample 7 h0) as [s' st] eqn:Ec. cbn [snd] in E. subst st.
  exists s'. split; [reflexivity|]. intros p'. apply (closed_handle_stale sample 7 h0 s' _ p' sockt_sample_inv Ec). cbn. lia.
Defined.

Definition sample_receives : list call := [Send 8 h1 (Some [4]); Receive 7 h0 true 100 true; Receive 7 h0 true 100 true; Send 8 h1 (Some [5])].

Lemma datagram_fifo_witness : output <$> received sample sample_receives 0 = [[1; 2; 3]; [4]] /\
  exists arrived, held sample 0 ++ arrived = received sample sample_receives 0 ++ held (run sample sample_receives) 0.
Proof.
  split; [vm_compute; reflexivity|]. apply (datagram_fifo sample 0 sample_receives sockt_sample_inv); [unfold MAX_SOCKETS; lia|vm_compute; reflexivity..].
Defined.

Lemma loopback_delivery_witness : exists s', send sample 8 h1 (Some [4; 5]) = (s', Ok, 2) /\ world s' = world sample /\ length (held s' 0) = 2%nat.
Proof.
  assert (length (held (fst (fst (send sample 8 h1 (Some [4; 5])))) 0) = 2%nat) as E0 by (vm_compute; reflexivity).
  assert (snd (fst (send sample 8 h1 (Some [4; 5]))) = Ok) as E1 by (vm_compute; reflexivity).
  assert (snd (send sample 8 h1 (Some [4; 5])) = 2) as E2 by (vm_compute; reflexivity).
  assert (resolve sample 8 h1 = inl 1%nat) as Hr by (vm_compute; reflexivity).
  pose proof (loopback_delivery sample 8 h1 [4; 5] 1 sockt_sample_inv Hr ltac:(vm_compute; reflexivity) ltac:(vm_compute; reflexivity) ltac:(vm_compute; reflexivity)
    ltac:(vm_compute; reflexivity) ltac:(vm_compute; reflexivity) ltac:(intros X; discriminate X) ltac:(vm_compute; intros X; discriminate X)) as H.
  cbv zeta in H. destruct (send sample 8 h1 (Some [4; 5])) as [[s' st] n]. cbn [fst snd] in E0, E1, E2. subst st n. exists s'.
  split; [reflexivity|]. split; [apply H|exact E0].
Defined.

Lemma ephemeral_port_found_witness : EPHEMERAL_PORT_FIRST <= snd (allocate_ephemeral_port sample 2) < 65536.
Proof.
  pose proof (ephemeral_port_found sample 2 sockt_sample_inv ltac:(unfold MAX_SOCKETS; lia)) as H. destruct (allocate_ephemeral_port sample 2) as [s' p]. apply H.
Defined.

