(* ===== verification/KStatus.v ===== *)
(** * The common result codes (kernel/libk/status.hpp) *)

From S2P Require Import Prelude.

Inductive KStatus :=
  | Ok | InvalidArgument | NotFound | AlreadyExists | NoMemory | IoError | Timeout | PermissionDenied | NotSupported | Busy
  | Corrupted | InternalError | OutOfRange | BufferTooSmall | WouldBlock | Interrupted | BadState | NoDevice | DeviceFault
  | ReadOnly | EndOfStream | StaleHandle.

#[export] Instance KStatus_eq_dec : EqDecision KStatus.
Proof. solve_decision. Defined.

Definition kstatus_succeeded (status : KStatus) : bool := bool_decide (status = Ok).
Definition kstatus_failed (status : KStatus) : bool := negb (kstatus_succeeded status).
