(* ===== verification/Utf8.v ===== *)
(** * UTF-8 (kernel/libk/utf8.cpp)

    The decoder of one code point and the validation of a text, against the
    reference: [encode] is the encoding of a code point, and a text is well formed
    when it is a sequence of encodings of scalar values.

    A text is the list of its bytes, whose length is the [size] argument; [None]
    stands for the null pointer (with its size).  The theorems: decoding inverts
    encoding ([decode_roundtrip]), the decoder accepts nothing else ([decode_exact]),
    and [validate] accepts exactly the well-formed texts and always returns
    ([validate_iff]). *)

From S2P Require Import Prelude KStatus.

(** ** The code *)

(** The length of the encoding, the bits of the first byte, and the least value that
    may be encoded this way. *)
Definition classify (first : Z) : option (nat * Z * Z) :=
  if first <? 0x80 then Some (1%nat, first, 0)
  else if Z.land first 0xE0 =? 0xC0 then Some (2%nat, Z.land first 0x1F, 0x80)
  else if Z.land first 0xF0 =? 0xE0 then Some (3%nat, Z.land first 0x0F, 0x800)
  else if Z.land first 0xF8 =? 0xF0 then Some (4%nat, Z.land first 0x07, 0x10000)
  else None.

(** The loop over the bytes after the first. *)
Fixpoint continue_value (bytes : list Z) (value : Z) : option Z :=
  match bytes with
  | [] => Some value
  | byte :: bytes =>
      if negb (Z.land byte 0xC0 =? 0x80) then None
      else continue_value bytes (Z.lor (u32 (Z.shiftl value 6)) (Z.land byte 0x3F))
  end.

(** The status, [*codepoint] and [*consumed]; [has_outputs] says that neither pointer
    is null. *)
Definition k_utf8_decode_one (text : option (list Z)) (has_outputs : bool) : KStatus * Z * nat :=
  match text with
  | None => (InvalidArgument, 0, 0%nat)
  | Some text =>
      if negb has_outputs then (InvalidArgument, 0, 0%nat)
      else
        match text with
        | [] => (BufferTooSmall, 0, 0%nat)
        | first :: _ =>
            match classify first with
            | None => (Corrupted, 0, 0%nat)
            | Some (length_, value, minimum) =>
                if (length text <? length_)%nat then (BufferTooSmall, 0, 0%nat)
                else
                  match continue_value (take (length_ - 1) (drop 1 text)) value with
                  | None => (Corrupted, 0, 0%nat)
                  | Some value =>
                      if negb (length_ =? 1)%nat && (value <? minimum) || (0x10FFFF <? value) || (0xD800 <=? value) && (value <=? 0xDFFF)
                      then (Corrupted, 0, 0%nat) else (Ok, value, length_)
                  end
            end
        end
  end.

(** The loop of [k_utf8_validate] on what is left of the text; a round consumes a byte
    at least, so that as many rounds as there are bytes, and one more, are enough. *)
Fixpoint validate_loop (fuel : nat) (rest : list Z) : option KStatus :=
  match fuel with
  | O => None
  | S fuel =>
      match rest with
      | [] => Some Ok
      | _ => let '(status, _, consumed) := k_utf8_decode_one (Some rest) true in
             if negb (bool_decide (status = Ok)) then Some status else validate_loop fuel (drop consumed rest)
      end
  end.

(** A null pointer comes with its size. *)
Definition k_utf8_validate (text : Z + list Z) : option KStatus :=
  match text with
  | inl size => Some (if size =? 0 then Ok else InvalidArgument)
  | inr text => validate_loop (S (length text)) text
  end.

(** ** The reference *)

(** A scalar value: a code point that is not a surrogate. *)
Definition scalar (c : Z) : Prop := 0 <= c < 0xD800 \/ 0xDFFF < c <= 0x10FFFF.

Definition tail_byte (x : Z) : Z := 0x80 + x mod 64.

Definition encode (c : Z) : list Z :=
  if c <? 0x80 then [c]
  else if c <? 0x800 then [0xC0 + c / 64; tail_byte c]
  else if c <? 0x10000 then [0xE0 + c / 4096; tail_byte (c / 64); tail_byte c]
  else [0xF0 + c / 262144; tail_byte (c / 4096); tail_byte (c / 64); tail_byte c].

Definition bytes_ok (l : list Z) : Prop := Forall is_u8 l.

(** ** Bytes *)

(** A fact on all bytes, by running it on each. *)
Lemma byte_cases (f : Z -> bool) : forallb f (seqZ 0 256) = true -> forall b, is_u8 b -> f b = true.
Proof. intros Hf b Hb. rewrite forallb_forall in Hf. apply Hf, list_elem_of_In, elem_of_seqZ. unfold is_u8 in Hb. lia. Qed.

Ltac by_bytes b Hb f := apply (byte_cases f) with (b := b) in Hb as Hf; [|vm_compute; reflexivity].

Lemma classify_spec b : is_u8 b -> classify b =
  if b <? 0x80 then Some (1%nat, b, 0) else if b <? 0xC0 then None else if b <? 0xE0 then Some (2%nat, b - 0xC0, 0x80)
  else if b <? 0xF0 then Some (3%nat, b - 0xE0, 0x800) else if b <? 0xF8 then Some (4%nat, b - 0xF0, 0x10000) else None.
Proof.
  intros Hb. set (ref := fun b => if b <? 0x80 then Some (1%nat, b, 0) else if b <? 0xC0 then None else if b <? 0xE0 then Some (2%nat, b - 0xC0, 0x80)
    else if b <? 0xF0 then Some (3%nat, b - 0xE0, 0x800) else if b <? 0xF8 then Some (4%nat, b - 0xF0, 0x10000) else None).
  change (classify b = ref b). by_bytes b Hb (fun b => bool_decide (classify b = ref b)). by apply bool_decide_eq_true in Hf.
Qed.

Lemma tail_spec b : is_u8 b -> (Z.land b 0xC0 =? 0x80) = (0x80 <=? b) && (b <? 0xC0) /\ (0x80 <= b < 0xC0 -> Z.land b 0x3F = b - 0x80).
Proof.
  intros Hb. by_bytes b Hb (fun b => Bool.eqb (Z.land b 0xC0 =? 0x80) ((0x80 <=? b) && (b <? 0xC0)) && (negb ((0x80 <=? b) && (b <? 0xC0)) || (Z.land b 0x3F =? b - 0x80))).
  apply andb_true_iff in Hf as [E1%Bool.eqb_prop E2]. split; [exact E1|]. intros Hr. apply orb_true_iff in E2. lia.
Qed.

(** The loop adds six bits for each byte. *)
Lemma continue_value_spec bytes : bytes_ok bytes -> forall v, 0 <= v -> v < 32 -> (length bytes <= 3)%nat ->
  continue_value bytes v = if forallb (fun b => (0x80 <=? b) && (b <? 0xC0)) bytes then Some (foldl (fun v b => v * 64 + (b - 0x80)) v bytes) else None.
Proof.
  intros Hb v Hv Hv32 Hl. assert (exists k, v < 32 * 64 ^ Z.of_nat k /\ (length bytes + k <= 3)%nat) as (k & Hk & Hlk) by (exists 0%nat; cbn; lia).
  clear Hv32 Hl. revert v k Hv Hk Hlk. induction Hb as [|b bytes Hb Hbs IH]; intros v k Hv Hk Hlk; [done|]. cbn [continue_value forallb foldl].
  destruct (tail_spec b Hb) as [E1 E2]. rewrite E1. destruct (_ && _) eqn:E; cbn [negb andb]; [|done]. apply andb_true_iff in E. specialize (E2 ltac:(lia)). rewrite E2.
  cbn [length] in Hlk. assert (64 ^ Z.of_nat k <= 64 ^ 2) by (apply Z.pow_le_mono_r; lia).
  assert (u32 (Z.shiftl v 6) = Z.shiftl v 6) as -> by (rewrite Z.shiftl_mul_pow2 by lia; apply u32_small; unfold is_u32; lia).
  rewrite lor_shift_add by lia. change (2 ^ 6) with 64. apply (IH _ (S k)); [lia| |lia]. rewrite Nat2Z.inj_succ, Z.pow_succ_r by lia. lia.
Qed.

Lemma tail_byte_ok x : 0x80 <= tail_byte x < 0xC0.
Proof. unfold tail_byte. zdm. Qed.

Lemma encode_ok c : scalar c -> bytes_ok (encode c) /\ (1 <= length (encode c) <= 4)%nat.
Proof.
  intros Hc. unfold scalar in Hc. unfold encode, bytes_ok.
  destruct (Z.ltb_spec c 0x80); [|destruct (Z.ltb_spec c 0x800); [|destruct (Z.ltb_spec c 0x10000)]];
    (split; [|cbn; lia]); repeat apply Forall_cons_2; try apply Forall_nil_2; unfold is_u8, tail_byte; zdm.
Qed.

(** Decoding a text whose first byte announces [n] more, which are there. *)
Lemma decode_eq b bytes rest v minimum : is_u8 b -> bytes_ok bytes -> (length bytes <= 3)%nat -> 0 <= v < 32 \/ bytes = [] -> 
  classify b = Some (S (length bytes), v, minimum) ->
  k_utf8_decode_one (Some (b :: bytes ++ rest)) true =
    if forallb (fun b => (0x80 <=? b) && (b <? 0xC0)) bytes then
      let value := foldl (fun v b => v * 64 + (b - 0x80)) v bytes in
      if negb (S (length bytes) =? 1)%nat && (value <? minimum) || (0x10FFFF <? value) || (0xD800 <=? value) && (value <=? 0xDFFF)
      then (Corrupted, 0, 0%nat) else (Ok, value, S (length bytes))
    else (Corrupted, 0, 0%nat).
Proof.
  intros Hb Hbs Hl Hv Hc. unfold k_utf8_decode_one. cbn [negb]. rewrite Hc. cbn [length]. rewrite length_app.
  replace (S (length bytes + length rest) <? S (length bytes))%nat with false by (symmetry; apply Nat.ltb_ge; lia).
  change (drop 1 (b :: bytes ++ rest)) with (bytes ++ rest). rewrite Nat.sub_succ, Nat.sub_0_r, take_app_length. destruct Hv as [Hv| ->]; [|done].
  rewrite continue_value_spec by (done || lia). by destruct (forallb _ _).
Qed.

Lemma tail_tail x : (0x80 <=? tail_byte x) && (tail_byte x <? 0xC0) = true.
Proof. pose proof (tail_byte_ok x). lia. Qed.

Lemma classify_lead b n v minimum : is_u8 b ->
  (n = 2%nat /\ 0xC0 <= b < 0xE0 /\ v = b - 0xC0 /\ minimum = 0x80) \/ (n = 3%nat /\ 0xE0 <= b < 0xF0 /\ v = b - 0xE0 /\ minimum = 0x800) \/
  (n = 4%nat /\ 0xF0 <= b < 0xF8 /\ v = b - 0xF0 /\ minimum = 0x10000) -> classify b = Some (n, v, minimum).
Proof.
  intros Hb Hn. rewrite classify_spec by done. destruct (Z.ltb_spec b 0x80), (Z.ltb_spec b 0xC0), (Z.ltb_spec b 0xE0), (Z.ltb_spec b 0xF0), (Z.ltb_spec b 0xF8);
    try lia; destruct Hn as [(-> & ? & -> & ->)|[(-> & ? & -> & ->)|(-> & ? & -> & ->)]]; done || lia.
Qed.

(** The last step of decoding a sequence of [n] bytes. *)
Lemma accept_value (n : nat) value minimum c : value = c -> scalar c -> (n = 1%nat \/ minimum <= c) ->
  (if negb (n =? 1)%nat && (value <? minimum) || (0x10FFFF <? value) || (0xD800 <=? value) && (value <=? 0xDFFF)
   then (Corrupted, 0, 0%nat) else (Ok, value, n)) = (Ok, c, n).
Proof.
  intros -> Hc Hn. unfold scalar in Hc. replace (_ || _) with false; [done|]. symmetry. destruct (Nat.eqb_spec n 1); cbn [negb andb orb]; lia.
Qed.

(** Decoding inverts encoding: the encoding of any scalar value, whatever follows it,
    decodes to the value and consumes the encoding. *)
Theorem decode_roundtrip c rest : scalar c -> k_utf8_decode_one (Some (encode c ++ rest)) true = (Ok, c, length (encode c)).
Proof.
  intros Hc. destruct (encode_ok c Hc) as [Hb _]. pose proof Hc as Hc'. unfold scalar in Hc'. unfold encode in *.
  destruct (Z.ltb_spec c 0x80); [|destruct (Z.ltb_spec c 0x800); [|destruct (Z.ltb_spec c 0x10000)]]; apply Forall_cons in Hb as [Hb1 Hb]; rewrite <- app_comm_cons.
  - rewrite (decode_eq c [] rest c 0); [|done|done|cbn; lia|by right|rewrite classify_spec by done; destruct (Z.ltb_spec c 0x80); [done|lia]].
    apply accept_value; [done|done|by left].
  - rewrite (decode_eq _ [tail_byte c] rest (c / 64) 0x80); [|done|done|cbn; lia|left; zdm|apply classify_lead; [done|left; split_and!; done || zdm]].
    cbn [forallb]. rewrite tail_tail. apply accept_value; [cbn [foldl]; unfold tail_byte; zdm|done|right; lia].
  - rewrite (decode_eq _ [tail_byte (c / 64); tail_byte c] rest (c / 4096) 0x800); [|done|done|cbn; lia|left; zdm|apply classify_lead; [done|right; left; split_and!; done || zdm]].
    cbn [forallb]. rewrite !tail_tail. apply accept_value; [cbn [foldl]; unfold tail_byte; zdm|done|right; lia].
  - rewrite (decode_eq _ [tail_byte (c / 4096); tail_byte (c / 64); tail_byte c] rest (c / 262144) 0x10000); [|done|done|cbn; lia|left; zdm|apply classify_lead; [done|right; right; split_and!; done || zdm]].
    cbn [forallb]. rewrite !tail_tail. apply accept_value; [cbn [foldl]; unfold tail_byte; zdm|done|right; lia].
Qed.

(** A multi-byte sequence that is accepted. *)
Lemma accepted (n : nat) value minimum c m : n ≠ 1%nat ->
  (if negb (n =? 1)%nat && (value <? minimum) || (0x10FFFF <? value) || (0xD800 <=? value) && (value <=? 0xDFFF)
   then (Corrupted, 0, 0%nat) else (Ok, value, n)) = (Ok, c, m) -> c = value /\ m = n /\ minimum <= c <= 0x10FFFF /\ ~ 0xD800 <= c <= 0xDFFF.
Proof.
  intros Hn. rewrite (proj2 (Nat.eqb_neq _ _) Hn). cbn [negb andb]. destruct (_ || _) eqn:E; [done|]. intros [= <- <-]. lia.
Qed.

Lemma decode_needs text c n : k_utf8_decode_one (Some text) true = (Ok, c, n) -> exists b t k v minimum, text = b :: t /\ classify b = Some (S k, v, minimum) /\ (k <= length t)%nat.
Proof.
  unfold k_utf8_decode_one. cbn [negb]. destruct text as [|b t]; [done|]. destruct (classify b) as [[[k v] minimum]|] eqn:E; [|done].
  destruct (Nat.ltb_spec (length (b :: t)) k) as [|Hk]; [done|]. intros _. cbn [length] in Hk.
  assert (exists k', k = S k') as (k' & ->) by (unfold classify in E; repeat (destruct (_ <? _) || destruct (_ =? _)); injection E as <- _ _ || done; by eexists).
  exists b, t, k', v, minimum. split_and!; [done|done|lia].
Qed.

(** The decoder accepts nothing but encodings: when it returns a code point, the code
    point is a scalar value and the text starts with its encoding, which is what was
    consumed; so overlong forms, surrogates and values beyond the last are refused. *)
Theorem decode_exact text c n : bytes_ok text -> k_utf8_decode_one (Some text) true = (Ok, c, n) ->
  scalar c /\ n = length (encode c) /\ exists rest, text = encode c ++ rest.
Proof.
  intros Hb Hd. destruct (decode_needs text c n Hd) as (b & t & k & v & minimum & -> & Hcl & Hk). apply Forall_cons in Hb as [Hb Ht].
  pose proof Hcl as Hcl'. rewrite classify_spec in Hcl' by done. rewrite <- (take_drop k t) in Hd, Ht |- *. apply Forall_app in Ht as [Ht _].
  assert (length (take k t) = k) as Hlen by (rewrite length_take; lia). set (rest := drop k t) in *. set (bytes := take k t) in *. clearbody bytes rest. clear t Hk.
  subst k. assert (b < 0x80 /\ bytes = [] /\ v = b \/ 0xC0 <= b < 0xE0 /\ length bytes = 1%nat /\ v = b - 0xC0 /\ minimum = 0x80 \/
    0xE0 <= b < 0xF0 /\ length bytes = 2%nat /\ v = b - 0xE0 /\ minimum = 0x800 \/ 0xF0 <= b < 0xF8 /\ length bytes = 3%nat /\ v = b - 0xF0 /\ minimum = 0x10000) as Hcase.
  { destruct (Z.ltb_spec b 0x80); [|destruct (Z.ltb_spec b 0xC0); [done|destruct (Z.ltb_spec b 0xE0); [|destruct (Z.ltb_spec b 0xF0); [|destruct (Z.ltb_spec b 0xF8); [|done]]]]];
      injection Hcl' as Ek Ev Em; [left; split_and!; [done|by apply length_zero_iff_nil|done]|right; left; lia|right; right; left; lia|right; right; right; lia]. }
  rewrite (decode_eq b bytes rest v minimum Hb Ht) in Hd; [|destruct Hcase as [(_ & -> & _)|[?|[?|?]]]; cbn; lia| |exact Hcl].
  2: { destruct Hcase as [(_ & -> & _)|[?|[?|?]]]; [by right|left; lia..]. }
  destruct (forallb _ bytes) eqn:Eall; [|done]. unfold is_u8 in Hb. destruct Hcase as [(Hb1 & -> & ->)|Hcase].
  - cbn in Hd. destruct (_ || _) eqn:E in Hd; [done|]. injection Hd as <- <-. unfold scalar, encode.
    replace (b <? 0x80) with true by lia. split_and!; [lia|done|by exists rest].
  - apply accepted in Hd as (Ec & -> & Hc & Hsur); [|lia]. split; [unfold scalar; lia|]. destruct Hcase as [(Hb1 & Hn & -> & ->)|[(Hb1 & Hn & -> & ->)|(Hb1 & Hn & -> & ->)]].
    + destruct bytes as [|x [|]]; try done. cbn in Eall, Ec. unfold encode. replace (c <? 0x80) with false by lia. replace (c <? 0x800) with true by lia.
      split; [done|]. exists rest. cbn [app]. unfold tail_byte. f_equal; [zdm|f_equal; zdm].
    + destruct bytes as [|x [|y [|]]]; try done. cbn in Eall, Ec. unfold encode. replace (c <? 0x80) with false by lia. replace (c <? 0x800) with false by lia.
      replace (c <? 0x10000) with true by lia. split; [done|]. exists rest. cbn [app]. unfold tail_byte. f_equal; [zdm|f_equal; [zdm|f_equal; zdm]].
    + destruct bytes as [|x [|y [|z [|]]]]; try done. cbn in Eall, Ec. unfold encode. replace (c <? 0x80) with false by lia. replace (c <? 0x800) with false by lia.
      replace (c <? 0x10000) with false by lia. split; [done|]. exists rest. cbn [app]. unfold tail_byte. f_equal; [zdm|f_equal; [zdm|f_equal; [zdm|f_equal; zdm]]].
Qed.

(** ** Texts *)

(** A well-formed text. *)
Definition well_formed (text : list Z) : Prop := exists cs, Forall scalar cs /\ text = concat (encode <$> cs).

Lemma decode_scalar_start c rest : scalar c -> exists x t, encode c ++ rest = x :: t.
Proof. intros Hc. destruct (encode_ok c Hc) as [_ Hl]. destruct (encode c) as [|x t]; [cbn in Hl; lia|]. by exists x, (t ++ rest). Qed.

Lemma validate_loop_spec fuel : forall text, bytes_ok text -> (length text < fuel)%nat ->
  exists status, validate_loop fuel text = Some status /\ (status = Ok <-> well_formed text).
Proof.
  induction fuel as [|fuel IH]; intros text Hb Hl; [lia|]. cbn [validate_loop]. destruct text as [|b t].
  - exists Ok. split; [done|]. split; [|done]. intros _. by exists [].
  - set (text := b :: t) in *. destruct (k_utf8_decode_one (Some text) true) as [[status c] n] eqn:Ed. destruct (bool_decide (status = Ok)) eqn:Es; cbn [negb].
    + apply bool_decide_eq_true in Es as ->. destruct (decode_exact text c n Hb Ed) as (Hc & -> & rest & Et). destruct (encode_ok c Hc) as [_ Hlen].
      rewrite Et, drop_app_length. rewrite Et in Hb, Hl. rewrite length_app in Hl. apply Forall_app in Hb as [_ Hb].
      destruct (IH rest Hb ltac:(lia)) as (status & E & Hiff). exists status. split; [done|]. rewrite Hiff. split.
      * intros (cs & Hcs & ->). exists (c :: cs). split; [by constructor|done].
      * intros ([|c' cs] & Hcs & E2); [destruct (decode_scalar_start c rest Hc) as (? & ? & E3); by rewrite E3 in E2|].
        apply Forall_cons in Hcs as [Hc' Hcs]. cbn [fmap list_fmap concat] in E2. pose proof (decode_roundtrip c' (concat (encode <$> cs)) Hc') as R.
        rewrite <- E2, <- Et, Ed in R. injection R as -> _. apply app_inv_head in E2 as ->. by exists cs.
    + exists status. split; [done|]. apply bool_decide_eq_false in Es. split; [done|]. intros ([|c' cs] & Hcs & E2); [done|].
      apply Forall_cons in Hcs as [Hc' Hcs]. cbn [fmap list_fmap concat] in E2. pose proof (decode_roundtrip c' (concat (encode <$> cs)) Hc') as R.
      rewrite <- E2, Ed in R. by injection R.
Qed.

(** C37: [k_utf8_validate] returns on every text, and accepts exactly the well-formed
    ones: the sequences of encodings of scalar values. *)
Theorem validate_iff text : bytes_ok text ->
  exists status, k_utf8_validate (inr text) = Some status /\ (status = Ok <-> well_formed text).
Proof. intros Hb. apply validate_loop_spec; [done|lia]. Qed.

(** ** Witnesses *)

(** The euro sign. *)
Lemma decode_roundtrip_witness : scalar 0x20AC /\ k_utf8_decode_one (Some [0xE2; 0x82; 0xAC; 0x20]) true = (Ok, 0x20AC, 3%nat).
Proof. assert (scalar 0x20AC) as H by (unfold scalar; lia). split; [exact H|]. exact (decode_roundtrip 0x20AC [0x20] H). Defined.

Lemma decode_exact_witness : k_utf8_decode_one (Some [0xE2; 0x82; 0xAC; 0x20]) true = (Ok, 0x20AC, 3%nat) /\ scalar 0x20AC.
Proof.
  assert (k_utf8_decode_one (Some [0xE2; 0x82; 0xAC; 0x20]) true = (Ok, 0x20AC, 3%nat)) as E by (vm_compute; reflexivity). split; [exact E|].
  destruct (decode_exact [0xE2; 0x82; 0xAC; 0x20] 0x20AC 3) as [H _]; [repeat constructor; unfold is_u8; lia|exact E|exact H].
Defined.

(** A text with an overlong form. *)
Lemma validate_iff_witness : exists status, k_utf8_validate (inr [0x41; 0xC0; 0xAF]) = Some status /\ status = Corrupted /\ (status = Ok <-> well_formed [0x41; 0xC0; 0xAF]).
Proof.
  destruct (validate_iff [0x41; 0xC0; 0xAF]) as (status & E & H); [repeat constructor; unfold is_u8; lia|]. exists status. split; [exact E|]. split; [|exact H].
  assert (k_utf8_validate (inr [0x41; 0xC0; 0xAF]) = Some Corrupted) as E2 by (vm_compute; reflexivity). congruence.
Defined.
