(* ===== verification/EventRing.v ===== *)
(** * The ring of diagnostic events (kernel/diagnostics/event_ring.cpp)

    [record] and [copy_recent] run on any processor at any time, without a lock: a
    writer draws a sequence number, marks the guard of a slot, stores the event piece
    by piece and marks the guard complete; a reader copies a slot piece by piece
    between two looks at its guard.  A thread is one call in progress and a step is one
    access to shared memory, so that every interleaving of accesses is a run.  Accesses
    are sequentially consistent (the guards are stored with release and loaded with
    acquire ordering).  An event is the list of its [CELLS] pieces in the order of the
    struct: seven numbers and the bytes of the two strings.

    As long as no writer is still busy with a slot when its sequence number comes round
    again ([spaced]), readers return only events that were recorded, unaltered and in
    order ([events_not_torn]), and all of the most recent when nothing interferes
    ([quiet_read]).  Without that condition a torn event can be returned
    ([torn_event_returned]). *)

From stdpp Require Import sorting relations.
From S2P Require Import Prelude.

(** ** Data *)

Definition EVENT_CAPACITY : nat := 64.
Definition SUBSYSTEM_CAPACITY : nat := 24.
Definition MESSAGE_CAPACITY : nat := 96.
Definition CELLS : nat := 7 + SUBSYSTEM_CAPACITY + MESSAGE_CAPACITY.

(** The arguments of [record]; a string is the list of its bytes, null is [None]. *)
Record Args := mkArgs {
  monotonic_tick : Z; subsystem : option (list Z); severity : Z; cpu : Z; pid : Z; tid : Z; code : Z; message : option (list Z) }.

(** Of each slot, the guard and the event. *)
Record Memory := mkMemory { g_next_sequence : Z; guards : list Z; events : list (list Z) }.

Definition zeroed : Memory := mkMemory 0 (replicate EVENT_CAPACITY 0) (replicate EVENT_CAPACITY (replicate CELLS 0)).

(** ** [record] *)

(** At most [room] bytes of a string, up to its end. *)
Fixpoint bounded_text (room : nat) (source : list Z) : list Z :=
  match room, source with
  | S room, c :: source => if c =? 0 then [] else c :: bounded_text room source
  | _, _ => []
  end.

Definition null_text : list Z := [40; 110; 117; 108; 108; 41].

(** What [copy_bounded] leaves at the destination: each byte is stored once, in order. *)
Definition copy_bounded (capacity : nat) (source : option (list Z)) : list Z :=
  let text := bounded_text (capacity - 1) (default null_text source) in text ++ replicate (capacity - length text) 0.

Definition writing_guard (sequence : Z) : Z := Z.lor (u64 (Z.shiftl sequence 1)) 1.
Definition complete_guard (sequence : Z) : Z := Z.lor (u64 (Z.shiftl sequence 1)) 2.

(** The pieces of an event, in the order in which they are stored. *)
Definition event_of (sequence : Z) (a : Args) : list Z :=
  [sequence; monotonic_tick a; pid a; tid a; cpu a; code a; severity a] ++ copy_bounded SUBSYSTEM_CAPACITY (subsystem a) ++
  copy_bounded MESSAGE_CAPACITY (message a).

Definition slot_index (sequence : Z) : nat := Z.to_nat (sequence mod Z.of_nat EVENT_CAPACITY).

Definition guard_at (m : Memory) (sequence : Z) : Z := nth (slot_index sequence) (guards m) 0.
Definition event_at (m : Memory) (sequence : Z) : list Z := nth (slot_index sequence) (events m) [].

Definition store_guard (m : Memory) (sequence guard : Z) : Memory :=
  mkMemory (g_next_sequence m) (<[slot_index sequence := guard]> (guards m)) (events m).
Definition store_cell (m : Memory) (sequence : Z) (k : nat) (value : Z) : Memory :=
  mkMemory (g_next_sequence m) (guards m) (<[slot_index sequence := <[k := value]> (event_at m sequence)]> (events m)).

(** ** Calls in progress *)

Inductive thread :=
  | WDraw (a : Args)
  | WGuard (sequence : Z) (a : Args)
  | WStore (sequence : Z) (a : Args) (k : nat)
  | WComplete (sequence : Z) (a : Args)
  | WDone
  | RStart (capacity : Z)
  | RCheck (sequence end_ : Z) (output : list (list Z))
  | RCopy (sequence end_ : Z) (output : list (list Z)) (candidate : list Z)
  | RRecheck (sequence end_ : Z) (output : list (list Z)) (candidate : list Z)
  | RDone (output : list (list Z)).

(** The loop head of [copy_recent]. *)
Definition next_event (sequence end_ : Z) (output : list (list Z)) : thread :=
  if sequence <? end_ then RCheck sequence end_ output else RDone output.

(** One access to shared memory of a call, with what the call does before its next.  A
    reader without an output buffer is one of capacity 0. *)
Definition access (m : Memory) (t : thread) : Memory * thread :=
  match t with
  | WDraw a => (mkMemory (u64 (g_next_sequence m + 1)) (guards m) (events m), WGuard (g_next_sequence m) a)
  | WGuard sequence a => (store_guard m sequence (writing_guard sequence), WStore sequence a 0)
  | WStore sequence a k =>
      (store_cell m sequence k (nth k (event_of sequence a) 0), if (S k <? CELLS)%nat then WStore sequence a (S k) else WComplete sequence a)
  | WComplete sequence a => (store_guard m sequence (complete_guard sequence), WDone)
  | RStart capacity =>
      if capacity =? 0 then (m, RDone [])
      else
        let end_ := g_next_sequence m in
        let available := if end_ <? Z.of_nat EVENT_CAPACITY then end_ else Z.of_nat EVENT_CAPACITY in
        let available := if capacity <? available then capacity else available in
        (m, next_event (end_ - available) end_ [])
  | RCheck sequence end_ output =>
      (m, if negb (guard_at m sequence =? complete_guard sequence) then next_event (sequence + 1) end_ output else RCopy sequence end_ output [])
  | RCopy sequence end_ output candidate =>
      let candidate := candidate ++ [nth (length candidate) (event_at m sequence) 0] in
      (m, if (length candidate <? CELLS)%nat then RCopy sequence end_ output candidate else RRecheck sequence end_ output candidate)
  | RRecheck sequence end_ output candidate =>
      (m, if negb (guard_at m sequence =? complete_guard sequence) || negb (nth 0 candidate 0 =? sequence)
          then next_event (sequence + 1) end_ output else next_event (sequence + 1) end_ (output ++ [candidate]))
  | WDone | RDone _ => (m, t)
  end.

(** [total_recorded]. *)
Definition total_recorded (m : Memory) : Z := g_next_sequence m.

(** A state: the memory, the calls, and the arguments with which each sequence number
    was drawn. *)
Record State := mkState { memory : Memory; threads : list thread; recorded : list Args }.

Definition drawn (t : thread) : list Args := match t with WDraw a => [a] | _ => [] end.

Definition step (s : State) (i : nat) : State :=
  match threads s !! i with
  | Some t => let '(m, t') := access (memory s) t in mkState m (<[i := t']> (threads s)) (recorded s ++ drawn t)
  | None => s
  end.

(** A run: the thread that makes each access. *)
Definition run (s : State) (schedule : list nat) : State := foldl step s schedule.

(** A call that has not begun. *)
Definition fresh (t : thread) : bool := match t with WDraw _ => true | RStart capacity => 0 <=? capacity | _ => false end.
Definition start (ts : list thread) : State := mkState zeroed ts [].

(** The sequence number that a writer is busy with. *)
Definition busy (t : thread) : option Z :=
  match t with WGuard sequence _ | WStore sequence _ _ | WComplete sequence _ => Some sequence | _ => None end.

(** A step that draws a sequence number finds no writer busy with the slot of that
    number; and there are fewer than 2^63 records. *)
Definition spaced_step (s : State) (i : nat) : bool :=
  match threads s !! i with
  | Some (WDraw _) =>
      (g_next_sequence (memory s) <? 2 ^ 63 - 1) &&
      forallb (fun t => match busy t with Some q => negb (slot_index q =? slot_index (g_next_sequence (memory s)))%nat | None => true end) (threads s)
  | _ => true
  end.

Fixpoint spaced (s : State) (schedule : list nat) : bool :=
  match schedule with
  | [] => true
  | i :: schedule => spaced_step s i && spaced (step s i) schedule
  end.

(** ** Guards and slots *)

Lemma copy_bounded_length capacity source : (0 < capacity)%nat -> length (copy_bounded capacity source) = capacity.
Proof.
  intros Hc. unfold copy_bounded. cbv zeta. assert (forall room l, (length (bounded_text room l) <= room)%nat) as Hb.
  { induction room as [|room IH]; intros [|c l]; cbn; [lia..|]. destruct (c =? 0); cbn; [lia|]. specialize (IH l). lia. }
  rewrite length_app, length_replicate. specialize (Hb (capacity - 1)%nat (default null_text source)). lia.
Qed.

Lemma event_of_length q a : length (event_of q a) = CELLS.
Proof. unfold event_of. rewrite !length_app, !copy_bounded_length by (unfold SUBSYSTEM_CAPACITY, MESSAGE_CAPACITY; lia). done. Qed.

Definition seq_ok (q : Z) : Prop := 0 <= q < 2 ^ 63.

Lemma slot_index_lt q : (slot_index q < EVENT_CAPACITY)%nat.
Proof. unfold slot_index, EVENT_CAPACITY. change (Z.of_nat 64) with 64. zdm. Qed.

Lemma slot_index_eq q r : slot_index q = slot_index r -> q mod 64 = r mod 64.
Proof. unfold slot_index. change (Z.of_nat EVENT_CAPACITY) with 64. intros E. zdm. Qed.

Lemma shl1 q : seq_ok q -> u64 (Z.shiftl q 1) = Z.shiftl q 1.
Proof. intros Hq. apply u64_small. unfold is_u64, seq_ok in *. rewrite Z.shiftl_mul_pow2 by lia. lia. Qed.

Lemma writing_not_complete q r : seq_ok q -> seq_ok r -> writing_guard q ≠ complete_guard r.
Proof.
  intros Hq Hr E. apply (f_equal (fun z => Z.testbit z 0)) in E. unfold writing_guard, complete_guard in E. rewrite !shl1, !Z.lor_spec in E by done.
  rewrite !Z.shiftl_spec_low in E by lia. done.
Qed.

Lemma complete_guard_inj q r : seq_ok q -> seq_ok r -> slot_index q = slot_index r -> complete_guard q = complete_guard r -> q = r.
Proof.
  intros Hq Hr Hs%slot_index_eq E. apply (f_equal (fun z => Z.shiftr z 2)) in E. unfold complete_guard in E. rewrite !shl1, !Z.shiftr_lor in E by done.
  change (Z.shiftr 2 2) with 0 in E. rewrite !Z.lor_0_r, !Z.shiftr_shiftl_r in E by lia. change (2 - 1) with 1 in E. rewrite !Z.shiftr_div_pow2 in E by lia. zdm.
Qed.

Lemma zero_not_complete q : seq_ok q -> complete_guard q ≠ 0.
Proof.
  intros Hq E. unfold complete_guard in E. apply Z.lor_eq_0_iff in E as [_ E]. done.
Qed.

(** Two numbers of one slot are 64 apart. *)
Lemma same_slot q r : slot_index q = slot_index r -> q = r \/ 64 <= Z.abs (q - r).
Proof. intros E%slot_index_eq. zdm. Qed.

Record memory_ok (m : Memory) : Prop := {
  mo_guards : length (guards m) = EVENT_CAPACITY;
  mo_events : length (events m) = EVENT_CAPACITY;
  mo_cells : forall q, length (event_at m q) = CELLS }.

Lemma guard_store m q g r : memory_ok m -> guard_at (store_guard m q g) r = if decide (slot_index r = slot_index q) then g else guard_at m r.
Proof.
  intros Hm. unfold guard_at, store_guard. cbn [guards]. destruct (decide _) as [->|Hne].
  - apply nth_lookup_Some, list_lookup_insert_eq. rewrite (mo_guards m Hm). apply slot_index_lt.
  - by rewrite !nth_lookup, list_lookup_insert_ne.
Qed.

Lemma event_store m q k v r : memory_ok m -> event_at (store_cell m q k v) r = if decide (slot_index r = slot_index q) then <[k := v]> (event_at m q) else event_at m r.
Proof.
  intros Hm. unfold event_at at 1, store_cell. cbn [events]. destruct (decide _) as [->|Hne].
  - apply nth_lookup_Some, list_lookup_insert_eq. rewrite (mo_events m Hm). apply slot_index_lt.
  - unfold event_at. by rewrite !nth_lookup, list_lookup_insert_ne.
Qed.

Lemma store_guard_ok m q g : memory_ok m -> memory_ok (store_guard m q g).
Proof. intros [H1 H2 H3]. constructor; [cbn; by rewrite length_insert|done|done]. Qed.

Lemma store_cell_ok m q k v : memory_ok m -> memory_ok (store_cell m q k v).
Proof.
  intros Hm. pose proof Hm as [H1 H2 H3]. constructor; [done|cbn; by rewrite length_insert|]. intros r. rewrite event_store by done.
  destruct (decide _); [by rewrite length_insert|done].
Qed.

(** ** The invariant *)

(** The event recorded with a number. *)
Definition event_for (s : State) (q : Z) (e : list Z) : Prop := 0 <= q /\ exists a, recorded s !! Z.to_nat q = Some a /\ e = event_of q a.

(** What a reader has collected: recorded events with increasing numbers below [q]. *)
Definition collected (s : State) (q : Z) (output : list (list Z)) : Prop :=
  exists qs, StronglySorted Z.lt qs /\ Forall (fun r => r < q) qs /\ Forall2 (event_for s) qs output.

(** No writer is busy with [q]. *)
Definition nobody (s : State) (q : Z) : Prop := forall i t, threads s !! i = Some t -> busy t ≠ Some q.

Definition thread_ok (s : State) (t : thread) : Prop :=
  let m := memory s in
  match t with
  | WDraw _ | WDone => True
  | RStart capacity => 0 <= capacity
  | WGuard q a => 0 <= q < g_next_sequence m /\ recorded s !! Z.to_nat q = Some a /\ guard_at m q ≠ complete_guard q
  | WStore q a k => 0 <= q < g_next_sequence m /\ recorded s !! Z.to_nat q = Some a /\ guard_at m q = writing_guard q /\ (k < CELLS)%nat /\
      take k (event_at m q) = take k (event_of q a)
  | WComplete q a => 0 <= q < g_next_sequence m /\ recorded s !! Z.to_nat q = Some a /\ guard_at m q = writing_guard q /\ event_at m q = event_of q a
  | RCheck q end_ output => 0 <= q < end_ /\ end_ <= g_next_sequence m /\ collected s q output
  | RCopy q end_ output candidate => 0 <= q < end_ /\ end_ <= g_next_sequence m /\ collected s q output /\ nobody s q /\ (length candidate < CELLS)%nat /\
      (guard_at m q = complete_guard q -> candidate = take (length candidate) (event_at m q))
  | RRecheck q end_ output candidate => 0 <= q < end_ /\ end_ <= g_next_sequence m /\ collected s q output /\ nobody s q /\
      (guard_at m q = complete_guard q -> candidate = event_at m q)
  | RDone output => collected s (g_next_sequence m) output
  end.

Record inv (s : State) : Prop := {
  iv_memory : memory_ok (memory s);
  iv_next : seq_ok (g_next_sequence (memory s));
  iv_recorded : Z.of_nat (length (recorded s)) = g_next_sequence (memory s);
  iv_threads : forall i t, threads s !! i = Some t -> thread_ok s t;
  iv_unique : forall i j t u q r, threads s !! i = Some t -> threads s !! j = Some u -> busy t = Some q -> busy u = Some r ->
    slot_index q = slot_index r -> i = j;
  iv_window : forall i t q, threads s !! i = Some t -> busy t = Some q -> g_next_sequence (memory s) <= q + 64;
  iv_past : forall q, seq_ok q -> guard_at (memory s) q = complete_guard q -> q < g_next_sequence (memory s);
  iv_complete : forall q, 0 <= q < g_next_sequence (memory s) -> guard_at (memory s) q = complete_guard q -> event_for s q (event_at (memory s) q);
  iv_recent : forall q, 0 <= q < g_next_sequence (memory s) -> g_next_sequence (memory s) - 64 <= q ->
    guard_at (memory s) q = complete_guard q \/ exists i t, threads s !! i = Some t /\ busy t = Some q }.

Lemma busy_range s i t q : inv s -> threads s !! i = Some t -> busy t = Some q -> 0 <= q < g_next_sequence (memory s).
Proof. intros Hs Ht Hb. pose proof (iv_threads s Hs i t Ht) as Hok. destruct t; cbn in Hb; try done; injection Hb as ->; apply Hok. Qed.

Lemma busy_seq_ok s i t q : inv s -> threads s !! i = Some t -> busy t = Some q -> seq_ok q.
Proof. intros Hs Ht Hb. pose proof (busy_range s i t q Hs Ht Hb). pose proof (iv_next s Hs). unfold seq_ok in *. lia. Qed.

(** Recording more does not change what was recorded. *)
Lemma event_for_more s s' q e l : recorded s' = recorded s ++ l -> event_for s q e -> event_for s' q e.
Proof. intros E [Hq (a & Ha & He)]. split; [done|]. exists a. split; [|done]. rewrite E. by apply lookup_app_l_Some. Qed.

Lemma collected_more s s' q q' output l : recorded s' = recorded s ++ l -> q <= q' -> collected s q output -> collected s' q' output.
Proof.
  intros E Hq (qs & H1 & H2 & H3). exists qs. split_and!; [done| |].
  - eapply Forall_impl; [exact H2|]. cbn. intros r Hr. lia.
  - eapply Forall2_impl; [exact H3|]. intros r e. by apply (event_for_more s s' r e l).
Qed.

Lemma collected_snoc s q output e : collected s q output -> event_for s q e -> collected s (q + 1) (output ++ [e]).
Proof.
  intros (qs & H1 & H2 & H3) He. exists (qs ++ [q]). split_and!.
  - apply StronglySorted_app_2; [|done|by repeat constructor]. intros x y Hx ->%list_elem_of_singleton. by apply (proj1 (Forall_forall _ _) H2).
  - apply Forall_app. split; [|apply Forall_singleton; lia]. eapply Forall_impl; [exact H2|]. cbn. lia.
  - apply Forall2_app; [done|]. constructor; [done|constructor].
Qed.

(** ** Steps *)

Lemma nobody_set s m i t' l q : nobody s q -> busy t' ≠ Some q -> nobody (mkState m (<[i := t']> (threads s)) l) q.
Proof. intros Hn Ht j u [(-> & -> & _)|(_ & Hu)]%list_lookup_insert_Some; [done|]. by apply (Hn j). Qed.

(** A step of a reader, or none. *)
Lemma inv_reader s i t t' : inv s -> threads s !! i = Some t -> busy t = None -> busy t' = None ->
  thread_ok s t' -> inv (mkState (memory s) (<[i := t']> (threads s)) (recorded s)).
Proof.
  intros [H1 H2 H3 H4 H5 H6 H7 H8 H9] Ht Hb Hb' Hok. set (s' := mkState _ _ _).
  assert (forall q, nobody s q -> nobody s' q) as Hn by (intros q Hq; apply nobody_set; [done|by rewrite Hb']).
  assert (forall j u q, threads s' !! j = Some u -> busy u = Some q -> j ≠ i /\ threads s !! j = Some u) as Hbusy.
  { intros j u q [(-> & -> & _)|(Hne & Hu)]%list_lookup_insert_Some Hq; [congruence|by split]. }
  assert (forall u, thread_ok s u -> thread_ok s' u) as Hframe.
  { intros u Hu. destruct u; cbn in *; try done; destruct_and!; split_and!; auto. }
  refine (Build_inv s' H1 H2 H3 _ _ _ H7 H8 _).
  - intros j u [(-> & -> & _)|(_ & Hu)]%list_lookup_insert_Some; apply Hframe; [done|by apply (H4 j)].
  - intros j k u v q r Hu Hv Hq Hr. apply (Hbusy j u q) in Hu as [_ Hu]; [|done]. apply (Hbusy k v r) in Hv as [_ Hv]; [|done]. by apply (H5 j k u v q r).
  - intros j u q Hu Hq. apply (Hbusy j u q) in Hu as [_ Hu]; [|done]. by apply (H6 j u).
  - intros q Hq Hw. destruct (H9 q Hq Hw) as [|(j & u & Hu & Hbu)]; [by left|right]. exists j, u. split; [|done]. cbn.
    rewrite list_lookup_insert_ne; [done|]. intros ->. congruence.
Qed.

Lemma next_event_ok s q end_ output : 0 <= q -> q <= end_ -> end_ <= g_next_sequence (memory s) -> collected s q output ->
  thread_ok s (next_event q end_ output) /\ busy (next_event q end_ output) = None.
Proof.
  intros H0 H1 H2 H3. unfold next_event. destruct (Z.ltb_spec q end_); [by split_and!|]. split; [|done]. cbn.
  apply (collected_more s s q _ _ []); [by rewrite app_nil_r|lia|done].
Qed.

(** While the guard is complete, no writer is busy with the number. *)
Lemma complete_nobody s q : inv s -> 0 <= q < g_next_sequence (memory s) -> guard_at (memory s) q = complete_guard q -> nobody s q.
Proof.
  intros Hs Hq Hg i t Ht Hb. pose proof (iv_threads s Hs i t Ht) as Hok. pose proof (busy_seq_ok s i t q Hs Ht Hb) as Hsq.
  destruct t as [| r a|r a k|r a| | | | | |]; cbn in Hb, Hok; try done; injection Hb as ->.
  - by destruct Hok as (_ & _ & Hne).
  - destruct Hok as (_ & _ & Hw & _). rewrite Hg in Hw. by apply (writing_not_complete q q).
  - destruct Hok as (_ & _ & Hw & _). rewrite Hg in Hw. by apply (writing_not_complete q q).
Qed.

Lemma take_snoc_nth (l : list Z) n : (n < length l)%nat -> take n l ++ [nth n l 0] = take (S n) l.
Proof. intros Hn. destruct (lookup_lt_is_Some_2 l n Hn) as [x Hx]. rewrite (nth_lookup_Some _ _ _ _ Hx). by rewrite (take_S_r _ _ _ Hx). Qed.

Lemma reader_step s i t : inv s -> threads s !! i = Some t -> busy t = None -> (forall a, t ≠ WDraw a) ->
  inv (mkState (fst (access (memory s) t)) (<[i := snd (access (memory s) t)]> (threads s)) (recorded s)).
Proof.
  intros Hs Ht Hb Hd. pose proof (iv_threads s Hs i t Ht) as Hok. pose proof (iv_next s Hs) as Hnext. unfold seq_ok in Hnext.
  assert (forall q q' output, q <= q' -> collected s q output -> collected s q' output) as Hmore.
  { intros q q' output Hq. apply (collected_more s s q q' output []); [by rewrite app_nil_r|done]. }
  assert (forall t', thread_ok s t' /\ busy t' = None -> inv (mkState (memory s) (<[i := t']> (threads s)) (recorded s))) as Hgo.
  { intros t' [H1 H2]. by apply (inv_reader s i t t'). }
  destruct t as [a|q a|q a k|q a| |capacity|q e output|q e output c|q e output c|output]; try done; cbn [access fst snd]; [by destruct (Hd a)|by apply Hgo| | | | |by apply Hgo].
  - destruct (capacity =? 0); cbn [fst snd]; [apply Hgo; split; [|done]; exists []; by split_and!; constructor|]. cbn in Hok.
    change (Z.of_nat EVENT_CAPACITY) with 64. set (available := if capacity <? _ then _ else _). assert (0 <= available <= g_next_sequence (memory s)) as Hav.
    { unfold available. destruct (Z.ltb_spec (g_next_sequence (memory s)) 64); [destruct (Z.ltb_spec capacity (g_next_sequence (memory s)))|destruct (Z.ltb_spec capacity 64)]; lia. }
    apply Hgo, next_event_ok; [lia|lia|lia|]. exists []. by split_and!; constructor.
  - destruct Hok as (Hq & He & Hc). cbn [fst snd]. destruct (Z.eqb_spec (guard_at (memory s) q) (complete_guard q)) as [Hg|Hg]; cbn [negb]; apply Hgo.
    + split; [|done]. split; [exact Hq|]. split; [exact He|]. split; [exact Hc|]. split; [apply complete_nobody; [done|lia|done]|]. split; [unfold CELLS; cbn; lia|done].
    + apply next_event_ok; [lia|lia|done|]. apply (Hmore q); [lia|done].
  - destruct Hok as (Hq & He & Hc & Hn & Hl & Hcand). cbn [fst snd]. rewrite length_app. cbn [length].
    pose proof (mo_cells _ (iv_memory s Hs) q) as Hcells.
    assert (guard_at (memory s) q = complete_guard q -> c ++ [nth (length c) (event_at (memory s) q) 0] = take (S (length c)) (event_at (memory s) q)) as Hcand'.
    { intros Hg. rewrite (Hcand Hg) at 1. apply take_snoc_nth. lia. }
    destruct (Nat.ltb_spec (length c + 1) CELLS); apply Hgo; (split; [|done]).
    + split; [exact Hq|]. split; [exact He|]. split; [exact Hc|]. split; [exact Hn|]. split; [rewrite length_app; cbn [length]; lia|]. intros Hg. rewrite length_app. cbn [length]. rewrite Nat.add_1_r. by apply Hcand'.
    + split; [exact Hq|]. split; [exact He|]. split; [exact Hc|]. split; [exact Hn|]. intros Hg. rewrite (Hcand' Hg). apply take_ge. lia.
  - destruct Hok as (Hq & He & Hc & Hn & Hcand). cbn [fst snd]. destruct (_ || _) eqn:E; apply Hgo.
    + apply next_event_ok; [lia|lia|done|]. apply (Hmore q); [lia|done].
    + apply orb_false_iff in E as [E _]. apply next_event_ok; [lia|lia|done|]. apply collected_snoc; [done|].
      assert (guard_at (memory s) q = complete_guard q) as Hg by (destruct (Z.eqb_spec (guard_at (memory s) q) (complete_guard q)); done).
      rewrite (Hcand Hg). apply (iv_complete s Hs); [lia|done].
Qed.

(** The other threads at a step of thread [i]. *)
Lemma set_thread s i t' m l j u : threads (mkState m (<[i := t']> (threads s)) l) !! j = Some u -> j = i /\ u = t' \/ j ≠ i /\ threads s !! j = Some u.
Proof. intros [(-> & -> & _)|(Hne & Hu)]%list_lookup_insert_Some; [by left|by right]. Qed.

Lemma draw_step s i a : inv s -> threads s !! i = Some (WDraw a) -> spaced_step s i = true -> inv (step s i).
Proof.
  intros Hs Ht Hsp. unfold spaced_step in Hsp. rewrite Ht in Hsp. apply andb_true_iff in Hsp as [Hlt%Z.ltb_lt Hfree]. rewrite forallb_forall in Hfree.
  unfold step. rewrite Ht. cbn [access drawn]. set (next := g_next_sequence (memory s)) in *. pose proof (iv_next s Hs) as Hnext. fold next in Hnext. unfold seq_ok in Hnext.
  assert (u64 (next + 1) = next + 1) as -> by (apply u64_small; unfold is_u64; lia). set (s' := mkState _ _ _).
  assert (forall j u q, j ≠ i -> threads s !! j = Some u -> busy u = Some q -> slot_index q ≠ slot_index next) as Hslot.
  { intros j u q _ Hu Hb E. specialize (Hfree u). rewrite Hb, E, Nat.eqb_refl in Hfree. assert (false = true); [|done]. apply Hfree. apply list_elem_of_In, list_elem_of_lookup. by exists j. }
  assert (recorded s !! Z.to_nat next = None) as Hnone by (apply lookup_ge_None; pose proof (iv_recorded s Hs) as Hr; fold next in Hr; lia).
  assert (forall u, thread_ok s u -> thread_ok s' u) as Hframe.
  { assert (forall q, q < next -> nobody s q -> nobody s' q) as Hn by (intros q Hq Hn; apply nobody_set; [done|cbn; intros [= ->]; lia]).
    assert (forall q q' output, q <= q' -> collected s q output -> collected s' q' output) as Hmore by (intros q q' output; by apply (collected_more s s' q q' output [a])).
    assert (forall q b, recorded s !! q = Some b -> recorded s' !! q = Some b) as Hrec by (intros q b Hb; by apply lookup_app_l_Some).
    intros u Hu. destruct u as [b|r b|r b k|r b| |capacity|r e output|r e output c|r e output c|output]; cbn in Hu |- *; fold next in Hu; try done.
    - destruct Hu as (H1 & H2 & H3). split; [lia|]. split; [by apply Hrec|exact H3].
    - destruct Hu as (H1 & H2 & H3). split; [lia|]. split; [by apply Hrec|exact H3].
    - destruct Hu as (H1 & H2 & H3). split; [lia|]. split; [by apply Hrec|exact H3].
    - destruct Hu as (H1 & H2 & H3). split; [lia|]. split; [lia|]. apply (Hmore r); [lia|done].
    - destruct Hu as (H1 & H2 & H3 & H4 & H5). split; [lia|]. split; [lia|]. split; [apply (Hmore r); [lia|done]|]. split; [apply Hn; [lia|done]|exact H5].
    - destruct Hu as (H1 & H2 & H3 & H4 & H5). split; [lia|]. split; [lia|]. split; [apply (Hmore r); [lia|done]|]. split; [apply Hn; [lia|done]|exact H5].
    - apply (Hmore next); [lia|done]. }
  refine (Build_inv s' _ _ _ _ _ _ _ _ _).
  - destruct (iv_memory s Hs) as [H1 H2 H3]. by constructor.
  - unfold seq_ok. cbn. lia.
  - cbn. rewrite length_app. cbn [length]. pose proof (iv_recorded s Hs) as Hr. fold next in Hr. lia.
  - intros j u [(-> & ->)|(_ & Hu)]%set_thread; [|by apply Hframe, (iv_threads s Hs j)]. cbn. split; [lia|]. split.
    + rewrite lookup_app_r by (apply lookup_ge_None; done). pose proof (iv_recorded s Hs) as Hr. fold next in Hr.
      replace (Z.to_nat next - length (recorded s))%nat with 0%nat by lia. done.
    + intros Hg. pose proof (iv_past s Hs next (iv_next s Hs) Hg) as Hp. fold next in Hp. lia.
  - intros j k u v q r [(-> & ->)|(Hj & Hu)]%set_thread [(-> & ->)|(Hk & Hv)]%set_thread Hq Hr E; [done| | |by apply (iv_unique s Hs j k u v q r)].
    + cbn in Hq. injection Hq as <-. by destruct (Hslot k v r Hk Hv Hr).
    + cbn in Hr. injection Hr as <-. by destruct (Hslot j u q Hj Hu Hq).
  - intros j u q [(-> & ->)|(Hj & Hu)]%set_thread Hq; cbn; [cbn in Hq; injection Hq as <-; lia|].
    pose proof (iv_window s Hs j u q Hu Hq) as Hw. fold next in Hw. pose proof (Hslot j u q Hj Hu Hq) as Hne.
    destruct (decide (next = q + 64)) as [E|]; [|lia]. destruct Hne. unfold slot_index. change (Z.of_nat EVENT_CAPACITY) with 64. f_equal. rewrite E. zdm.
  - intros q Hq Hg. cbn. pose proof (iv_past s Hs q Hq Hg) as Hp. fold next in Hp. lia.
  - intros q Hq Hg. cbn in Hq. apply (event_for_more s s' q _ [a] eq_refl). apply (iv_complete s Hs); [|exact Hg]. fold next.
    pose proof (iv_past s Hs q ltac:(unfold seq_ok; lia) Hg) as Hp. fold next in Hp. lia.
  - intros q Hq Hw. cbn in Hq, Hw. destruct (decide (q = next)) as [->|Hne].
    + right. exists i, (WGuard next a). split; [|done]. cbn. apply list_lookup_insert_eq. by apply lookup_lt_Some in Ht.
    + destruct (iv_recent s Hs q) as [Hg|(j & u & Hu & Hb)]; [fold next; lia|fold next; lia|by left|right]. exists j, u. split; [|done]. cbn.
      rewrite list_lookup_insert_ne; [done|]. intros ->. rewrite Ht in Hu. by injection Hu as <-.
Qed.

(** What stays the same of the other threads when the writer of [q] stores to its slot. *)
Lemma other_threads s m i q j u : inv s -> (exists t, threads s !! i = Some t /\ busy t = Some q) -> g_next_sequence m = g_next_sequence (memory s) ->
  (forall r, slot_index r ≠ slot_index q -> guard_at m r = guard_at (memory s) r /\ event_at m r = event_at (memory s) r) ->
  (forall r, seq_ok r -> slot_index r = slot_index q -> guard_at m r = complete_guard r -> r = q) ->
  forall t', (forall r, r ≠ q -> busy t' ≠ Some r) -> j ≠ i -> threads s !! j = Some u ->
  thread_ok (mkState m (<[i := t']> (threads s)) (recorded s)) u.
Proof.
  intros Hs (t & Ht & Hb) En Hother Hsame t' Ht' Hj Hu. set (s' := mkState _ _ _). pose proof (iv_threads s Hs j u Hu) as Hok. pose proof (iv_next s Hs) as Hnx. unfold seq_ok in Hnx.
  assert (forall r, busy u = Some r -> slot_index r ≠ slot_index q) as Hslot by (intros r Hr E; apply Hj; by apply (iv_unique s Hs j i u t r q)).
  assert (forall r, nobody s r -> nobody s' r /\ (r < 2 ^ 63 -> 0 <= r -> guard_at m r = complete_guard r -> guard_at (memory s) r = complete_guard r /\ event_at m r = event_at (memory s) r)) as Hn.
  { intros r Hr. assert (r ≠ q) as Hrq by (intros ->; by destruct (Hr i t Ht)). split; [apply nobody_set; [done|by apply Ht']|]. intros H1 H2 Hg.
    destruct (decide (slot_index r = slot_index q)) as [E|E]; [by destruct Hrq; apply Hsame|]. destruct (Hother r E) as [E1 E2]. by rewrite <- E1, E2. }
  assert (forall r q' output, r <= q' -> collected s r output -> collected s' q' output) as Hmore by (intros r q' output; apply (collected_more s s' r q' output []); by rewrite app_nil_r).
  destruct u as [b|r b|r b k|r b| |capacity|r e output|r e output c|r e output c|output]; cbn in Hok |- *; rewrite ?En; try done.
  - destruct (Hother r (Hslot r eq_refl)) as [-> _]. exact Hok.
  - destruct (Hother r (Hslot r eq_refl)) as [-> ->]. exact Hok.
  - destruct (Hother r (Hslot r eq_refl)) as [-> ->]. exact Hok.
  - destruct Hok as (H1 & H2 & H3 & H4 & H5 & H6). destruct (Hn r H4) as [N1 N2]. split; [exact H1|]. split; [exact H2|]. split; [apply (Hmore r); [lia|done]|]. split; [exact N1|]. split; [exact H5|].
    intros Hg. destruct (N2 ltac:(lia) ltac:(lia) Hg) as [E1 ->]. by apply H6.
  - destruct Hok as (H1 & H2 & H3 & H4 & H6). destruct (Hn r H4) as [N1 N2]. split; [exact H1|]. split; [exact H2|]. split; [apply (Hmore r); [lia|done]|]. split; [exact N1|].
    intros Hg. destruct (N2 ltac:(lia) ltac:(lia) Hg) as [E1 ->]. by apply H6.
Qed.

(** A store of the writer of [q], which goes on or is done. *)
Lemma writer_step s m i t t' q : inv s -> threads s !! i = Some t -> busy t = Some q -> memory_ok m -> g_next_sequence m = g_next_sequence (memory s) ->
  (forall r, slot_index r ≠ slot_index q -> guard_at m r = guard_at (memory s) r /\ event_at m r = event_at (memory s) r) ->
  (forall r, seq_ok r -> slot_index r = slot_index q -> guard_at m r = complete_guard r -> r = q) ->
  (forall r, busy t' = Some r -> r = q) -> thread_ok (mkState m (<[i := t']> (threads s)) (recorded s)) t' ->
  (guard_at m q = complete_guard q -> event_for s q (event_at m q)) -> (busy t' = Some q \/ guard_at m q = complete_guard q) ->
  inv (mkState m (<[i := t']> (threads s)) (recorded s)).
Proof.
  intros Hs Ht Hb Hm En Hother Hsame Ht' Hok Hev Hdone. set (s' := mkState _ _ _). pose proof (busy_range s i t q Hs Ht Hb) as Hq. pose proof (iv_next s Hs) as Hnx. unfold seq_ok in Hnx.
  assert (forall j u r, threads s' !! j = Some u -> busy u = Some r -> exists v, threads s !! j = Some v /\ busy v = Some r) as Hbusy.
  { intros j u r [(-> & ->)|(Hj & Hu)]%set_thread Hr; [apply Ht' in Hr as ->; by exists t|by exists u]. }
  refine (Build_inv s' Hm _ _ _ _ _ _ _ _).
  - cbn. rewrite En. apply Hs.
  - cbn. rewrite En. apply Hs.
  - intros j u [(-> & ->)|(Hj & Hu)]%set_thread; [exact Hok|]. apply (other_threads s m i q j u Hs); try done; [by exists t|]. intros r Hr Er. by apply Hr, Ht'.
  - intros j k u v r r' Hu Hv Hr Hr' E. destruct (Hbusy j u r Hu Hr) as (u' & Hu' & Hbu'), (Hbusy k v r' Hv Hr') as (v' & Hv' & Hbv').
    by apply (iv_unique s Hs j k u' v' r r').
  - intros j u r Hu Hr. destruct (Hbusy j u r Hu Hr) as (u' & Hu' & Hbu'). cbn. rewrite En. by apply (iv_window s Hs j u').
  - intros r Hr Hg. cbn in *. rewrite En. destruct (decide (slot_index r = slot_index q)) as [E|E]; [rewrite (Hsame r Hr E Hg); lia|].
    destruct (Hother r E) as [E1 _]. apply (iv_past s Hs); [done|congruence].
  - intros r Hr Hg. cbn in Hr, Hg. rewrite En in Hr. cbn [memory s']. destruct (decide (slot_index r = slot_index q)) as [E|E].
    + assert (r = q) as -> by (apply Hsame; [unfold seq_ok; lia|done|done]). by apply Hev.
    + destruct (Hother r E) as [E1 E2]. rewrite E2. apply (iv_complete s Hs r Hr). congruence.
  - intros r Hr Hw. cbn in Hr, Hw. rewrite En in Hr, Hw. cbn [memory s']. destruct (decide (r = q)) as [->|Hne].
    + destruct Hdone as [Hd|Hd]; [|by left]. right. exists i, t'. split; [|done]. cbn. apply list_lookup_insert_eq. by apply lookup_lt_Some in Ht.
    + pose proof (iv_window s Hs i t q Ht Hb) as Hwin. assert (slot_index r ≠ slot_index q) as E by (intros E; destruct (same_slot r q E); lia).
      destruct (Hother r E) as [E1 _]. destruct (iv_recent s Hs r Hr Hw) as [Hg|(j & u & Hu & Hbu)]; [left; congruence|right]. exists j, u. split; [|done]. cbn.
      rewrite list_lookup_insert_ne; [done|]. intros ->. congruence.
Qed.

Lemma ring_step_inv s i : inv s -> spaced_step s i = true -> inv (step s i).
Proof.
  intros Hs Hsp. destruct (threads s !! i) as [t|] eqn:Ht; [|unfold step; by rewrite Ht]. pose proof (iv_threads s Hs i t Ht) as Hok. pose proof (iv_memory s Hs) as Hm.
  assert (forall t', threads s !! i = Some t' -> busy t' = None -> (forall a, t' ≠ WDraw a) -> inv (step s i)) as Hread.
  { intros t' Ht' Hb Hd. pose proof (reader_step s i t' Hs Ht' Hb Hd) as R. unfold step. rewrite Ht'.
    assert (fst (access (memory s) t') = memory s) as Em by (destruct t' as [b| | | | |capacity| | | |]; try done; [by destruct (Hd b)|cbn; by destruct (capacity =? 0)]). destruct (access (memory s) t') as [m t'']. cbn [fst snd] in *. subst m.
    assert (drawn t' = []) as -> by (destruct t' as [b| | | | | | | | |]; [by destruct (Hd b)|done..]). by rewrite app_nil_r. }
  destruct t as [a|q a|q a k|q a| |capacity|q e output|q e output c|q e output c|output]; try (by eapply Hread); [by eapply draw_step| | |].
  all: pose proof (busy_seq_ok s i _ q Hs Ht eq_refl) as Hq; unfold step; rewrite Ht; cbn [access drawn]; rewrite app_nil_r.
  - assert (guard_at (store_guard (memory s) q (writing_guard q)) q = writing_guard q) as Eg by (rewrite guard_store by done; by rewrite decide_True).
    refine (writer_step s _ i _ _ q Hs Ht eq_refl (store_guard_ok _ _ _ Hm) eq_refl _ _ _ _ _ _).
    + intros r Hr. split; [|done]. rewrite guard_store by done. by rewrite decide_False.
    + intros r Hr E Hg. rewrite guard_store, decide_True in Hg by done. by destruct (writing_not_complete q r Hq Hr).
    + by intros r [= ->].
    + destruct Hok as (H1 & H2 & H3). split; [exact H1|]. split; [exact H2|]. split; [exact Eg|]. split; [unfold CELLS; lia|done].
    + intros Hg. rewrite Eg in Hg. by destruct (writing_not_complete q q Hq Hq).
    + by left.
  - destruct Hok as (H1 & H2 & H3 & H4 & H5). set (v := nth k (event_of q a) 0). pose proof (mo_cells _ Hm q) as Hc.
    assert (event_at (store_cell (memory s) q k v) q = <[k := v]> (event_at (memory s) q)) as Ee by (rewrite event_store by done; by rewrite decide_True).
    assert (take (S k) (<[k := v]> (event_at (memory s) q)) = take (S k) (event_of q a)) as Et.
    { rewrite (take_S_r _ k v) by (apply list_lookup_insert_eq; lia). rewrite take_insert_ge by lia. rewrite H5. apply take_snoc_nth. rewrite event_of_length. lia. }
    refine (writer_step s _ i _ _ q Hs Ht eq_refl (store_cell_ok _ _ _ _ Hm) eq_refl _ _ _ _ _ _).
    + intros r Hr. split; [done|]. rewrite event_store by done. by rewrite decide_False.
    + intros r Hr E Hg. change (guard_at (store_cell (memory s) q k v) r) with (guard_at (memory s) r) in Hg. unfold guard_at in Hg, H3. rewrite E, H3 in Hg. by destruct (writing_not_complete q r Hq Hr).
    + intros r. destruct (_ <? _)%nat; by intros [= ->].
    + destruct (Nat.ltb_spec (S k) CELLS).
      * split; [exact H1|]. split; [exact H2|]. split; [exact H3|]. split; [lia|]. rewrite <- Et, <- Ee. done.
      * split; [exact H1|]. split; [exact H2|]. split; [exact H3|]. cbn [memory]. rewrite Ee. rewrite !take_ge in Et by (rewrite ?length_insert, ?event_of_length; lia). exact Et.
    + intros Hg. change (guard_at (store_cell (memory s) q k v) q) with (guard_at (memory s) q) in Hg. rewrite H3 in Hg. by destruct (writing_not_complete q q Hq Hq).
    + left. by destruct (_ <? _)%nat.
  - destruct Hok as (H1 & H2 & H3 & H4).
    refine (writer_step s _ i _ _ q Hs Ht eq_refl (store_guard_ok _ _ _ Hm) eq_refl _ _ _ _ _ _).
    + intros r Hr. split; [|done]. rewrite guard_store by done. by rewrite decide_False.
    + intros r Hr E Hg. rewrite guard_store, decide_True in Hg by done. symmetry. by apply complete_guard_inj.
    + done.
    + done.
    + intros _. split; [lia|]. by exists a.
    + right. rewrite guard_store by done. by rewrite decide_True.
Qed.

(** ** Runs *)

Lemma event_at_zeroed q : event_at zeroed q = replicate CELLS 0.
Proof. unfold event_at. apply nth_lookup_Some, lookup_replicate_2, slot_index_lt. Qed.

Lemma guard_at_zeroed q : guard_at zeroed q = 0.
Proof. unfold guard_at. apply nth_lookup_Some, lookup_replicate_2, slot_index_lt. Qed.

Lemma start_inv ts : forallb fresh ts = true -> inv (start ts).
Proof.
  rewrite forallb_forall. intros Hf. assert (forall i t, ts !! i = Some t -> fresh t = true) as Hfresh.
  { intros i t Ht. apply Hf, list_elem_of_In, list_elem_of_lookup. by exists i. }
  assert (forall i t q, threads (start ts) !! i = Some t -> busy t ≠ Some q) as Hidle by (intros i t q Ht Hb; apply Hfresh in Ht; by destruct t).
  refine (Build_inv (start ts) _ _ _ _ _ _ _ _ _).
  - split; [apply length_replicate|apply length_replicate|]. intros q. cbn [memory start]. by rewrite event_at_zeroed, length_replicate.
  - unfold seq_ok. cbn. lia.
  - done.
  - intros i t Ht. apply Hfresh in Ht. destruct t; try done. cbn in *. lia.
  - intros i j t u q r Ht _ Hq. by destruct (Hidle i t q Ht).
  - intros i t q Ht Hq. by destruct (Hidle i t q Ht).
  - intros q Hq Hg. cbn [memory start] in Hg. rewrite guard_at_zeroed in Hg. by destruct (zero_not_complete q Hq).
  - cbn. lia.
  - cbn. lia.
Qed.

Lemma run_inv schedule : forall s, inv s -> spaced s schedule = true -> inv (run s schedule).
Proof.
  induction schedule as [|i schedule IH]; intros s Hs Hsp; [done|]. cbn [spaced] in Hsp. apply andb_true_iff in Hsp as [H1 H2].
  change (run s (i :: schedule)) with (run (step s i) schedule). apply IH; [by apply ring_step_inv|done].
Qed.

(** C23: In every interleaving of accesses in which no writer is overtaken by 64 later
    records, whatever a call of [copy_recent] returns is a list of recorded events,
    unaltered, with strictly increasing sequence numbers. *)
Theorem events_not_torn ts schedule i output : forallb fresh ts = true -> spaced (start ts) schedule = true ->
  threads (run (start ts) schedule) !! i = Some (RDone output) ->
  exists qs, StronglySorted Z.lt qs /\ Forall (fun q => 0 <= q < total_recorded (memory (run (start ts) schedule))) qs /\
    Forall2 (fun q e => exists a, recorded (run (start ts) schedule) !! Z.to_nat q = Some a /\ e = event_of q a) qs output.
Proof.
  intros Hf Hsp Ht. pose proof (run_inv schedule (start ts) (start_inv ts Hf) Hsp) as Hs. set (s := run (start ts) schedule) in *.
  destruct (iv_threads s Hs i _ Ht) as (qs & H1 & H2 & H3). exists qs. split; [done|]. split.
  - apply Forall_forall. intros q Hq. pose proof (proj1 (Forall_forall _ _) H2 q Hq) as Hlt. cbn beta in Hlt. split; [|exact Hlt].
    apply list_elem_of_lookup in Hq as (k & Hk). destruct (Forall2_lookup_l _ _ _ _ _ H3 Hk) as (e & _ & Hq & _). exact Hq.
  - eapply Forall2_impl; [exact H3|]. intros q e [_ He]. exact He.
Qed.

(** ** A reader alone *)

Definition reader (t : thread) : bool := match t with RStart _ | RCheck _ _ _ | RCopy _ _ _ _ | RRecheck _ _ _ _ => true | _ => false end.

(** A step of a call that does not write. *)
Definition look (m : Memory) (t t' : thread) : Prop := reader t = true /\ t' = snd (access m t).

Lemma look_memory m t : reader t = true -> fst (access m t) = m.
Proof. destruct t as [| | | | |capacity| | | |]; try done. intros _. cbn. by destruct (capacity =? 0). Qed.

Lemma run_look m i t t' : rtc (look m) t t' -> forall s, memory s = m -> threads s !! i = Some t -> exists n,
  threads (run s (replicate n i)) !! i = Some t'.
Proof.
  intros Hr. induction Hr as [t|t u t' [Hl ->] _ IH]; intros s Hm Ht; [by exists 0%nat|].
  destruct (IH (step s i)) as (n & Hn); [| |by exists (S n)].
  - unfold step. rewrite Ht. pose proof (look_memory (memory s) t Hl) as E. by destruct (access (memory s) t); cbn in *; subst.
  - unfold step. rewrite Ht. subst m. destruct (access (memory s) t) as [m t'']. cbn. apply list_lookup_insert_eq. by apply lookup_lt_Some in Ht.
Qed.

Lemma copy_all m q end_ output : length (event_at m q) = CELLS -> forall k, (k < CELLS)%nat ->
  rtc (look m) (RCopy q end_ output (take k (event_at m q))) (RRecheck q end_ output (event_at m q)).
Proof.
  intros Hl k. remember (CELLS - k)%nat as d eqn:Ed. revert k Ed. induction d as [|d IH]; intros k Ed Hk; [lia|].
  eapply rtc_l; [split; [done|reflexivity]|]. cbn [access snd]. rewrite length_take_le by lia. rewrite take_snoc_nth by lia. rewrite length_take_le by lia.
  destruct (Nat.ltb_spec (S k) CELLS); [apply IH; lia|]. rewrite take_ge by lia. done.
Qed.

Lemma read_all m n : forall q end_ output, end_ = q + Z.of_nat n ->
  (forall r, q <= r < end_ -> guard_at m r = complete_guard r /\ length (event_at m r) = CELLS /\ nth 0 (event_at m r) 0 = r) ->
  rtc (look m) (next_event q end_ output) (RDone (output ++ (event_at m <$> seqZ q (Z.of_nat n)))).
Proof.
  induction n as [|n IH]; intros q end_ output Ee Hall; unfold next_event.
  - destruct (Z.ltb_spec q end_); [lia|]. by rewrite app_nil_r.
  - destruct (Z.ltb_spec q end_); [|lia]. destruct (Hall q ltac:(lia)) as (Hg & Hl & Hn). eapply rtc_l; [split; [done|reflexivity]|].
    cbn [access snd]. rewrite Hg, Z.eqb_refl. cbn [negb]. change [] with (take 0 (event_at m q)) at 1. etransitivity; [apply copy_all; [done|unfold CELLS; lia]|].
    eapply rtc_l; [split; [done|reflexivity]|]. cbn [access snd]. rewrite Hg, Hn, !Z.eqb_refl. cbn [negb orb].
    rewrite Nat2Z.inj_succ, seqZ_cons by lia. rewrite Z.pred_succ, fmap_cons. specialize (IH (q + 1) end_ (output ++ [event_at m q])).
    rewrite <- app_assoc in IH. apply IH; [lia|]. intros r Hr. apply Hall. lia.
Qed.

(** When no record is in progress, a call of [copy_recent] that runs without
    interference returns, and what it returns are the most recent events, oldest first:
    as many as were recorded, the ring holds and the caller has room for. *)
Theorem quiet_read ts schedule i capacity : forallb fresh ts = true -> spaced (start ts) schedule = true ->
  let s := run (start ts) schedule in
  (forall j t, threads s !! j = Some t -> busy t = None) -> threads s !! i = Some (RStart capacity) ->
  let available := Z.min capacity (Z.min (total_recorded (memory s)) 64) in
  exists n output, threads (run s (replicate n i)) !! i = Some (RDone output) /\
    Forall2 (fun q e => exists a, recorded s !! Z.to_nat q = Some a /\ e = event_of q a) (seqZ (total_recorded (memory s) - available) available) output.
Proof.
  intros Hf Hsp s Hidle Ht available. pose proof (run_inv schedule (start ts) (start_inv ts Hf) Hsp) as Hs. fold s in Hs.
  pose proof (iv_threads s Hs i _ Ht) as Hcap. pose proof (iv_next s Hs) as Hn. cbn in Hcap. unfold seq_ok in Hn. set (next := total_recorded (memory s)) in *. change (g_next_sequence (memory s)) with next in Hn.
  assert (forall r, next - available <= r < next -> guard_at (memory s) r = complete_guard r /\ event_for s r (event_at (memory s) r)) as Hall.
  { intros r Hr. destruct (iv_recent s Hs r) as [Hg|(j & t & Hj & Hb)]; [fold (total_recorded (memory s)); fold next; lia..| |by rewrite (Hidle j t Hj) in Hb].
    split; [done|]. apply (iv_complete s Hs); [fold (total_recorded (memory s)); fold next; lia|done]. }
  assert (rtc (look (memory s)) (RStart capacity) (RDone (event_at (memory s) <$> seqZ (next - available) available))) as Hread.
  { eapply rtc_l; [split; [done|reflexivity]|]. cbn [access]. destruct (Z.eqb_spec capacity 0) as [E|E].
    - replace available with 0 by lia. done.
    - cbn [snd]. change (Z.of_nat EVENT_CAPACITY) with 64. fold (total_recorded (memory s)). fold next.
      replace (if capacity <? (if next <? 64 then next else 64) then capacity else if next <? 64 then next else 64) with available
        by (unfold available; destruct (Z.ltb_spec next 64); [destruct (Z.ltb_spec capacity next)|destruct (Z.ltb_spec capacity 64)]; lia).
      pose proof (read_all (memory s) (Z.to_nat available) (next - available) next [] ltac:(lia)) as R. rewrite Z2Nat.id in R by lia. apply R. intros r Hr.
      destruct (Hall r Hr) as [Hg (_ & a & _ & ->)]. split; [done|]. by rewrite event_of_length. }
  destruct (run_look (memory s) i _ _ Hread s eq_refl Ht) as (n & Hrun). exists n, (event_at (memory s) <$> seqZ (next - available) available). split; [exact Hrun|].
  apply Forall2_fmap_r, Forall_Forall2_diag, Forall_forall. intros q Hq%elem_of_seqZ. destruct (Hall q ltac:(lia)) as [_ [_ He]]. exact He.
Qed.

(** ** Overtaken writers *)

Definition call_A : Args := mkArgs 100 (Some [65]) 2 0 7 7 1 (Some [65; 65]).
Definition call_B : Args := mkArgs 200 (Some [66]) 4 1 8 8 2 (Some [66; 66]).

(** Thread 0 stalls after storing the number 0; the threads 1 to 64 draw the next 64
    numbers, and the last of them, whose number is 64 and shares the slot, completes;
    thread 0 goes on with the two following cells; thread 65 reads. *)
Definition torn_threads : list thread := WDraw call_A :: replicate 64 (WDraw call_B) ++ [RStart 1].
Definition torn_schedule : list nat :=
  replicate 3 0%nat ++ seq 1 64 ++ replicate (CELLS + 2) 64%nat ++ replicate 2 0%nat ++ replicate (CELLS + 3) 65%nat.


(** ** Witnesses *)

(** Thread 0 is in the middle of its record when thread 1 makes its own; the reader
    sees the second only. *)
Definition quick_threads : list thread := [WDraw call_A; WDraw call_B; RStart 8; RStart 8].
Definition quick_schedule : list nat := replicate 9 0%nat ++ replicate (CELLS + 3) 1%nat ++ replicate (CELLS + 4) 2%nat.

Lemma events_not_torn_witness : threads (run (start quick_threads) quick_schedule) !! 2%nat = Some (RDone [event_of 1 call_B]) /\
  exists qs, StronglySorted Z.lt qs /\ Forall (fun q => 0 <= q < total_recorded (memory (run (start quick_threads) quick_schedule))) qs /\
    Forall2 (fun q e => exists a, recorded (run (start quick_threads) quick_schedule) !! Z.to_nat q = Some a /\ e = event_of q a) qs [event_of 1 call_B].
Proof.
  assert (threads (run (start quick_threads) quick_schedule) !! 2%nat = Some (RDone [event_of 1 call_B])) as E by (vm_compute; reflexivity).
  split; [exact E|]. apply (events_not_torn quick_threads quick_schedule 2 [event_of 1 call_B]); [vm_compute; reflexivity|vm_compute; reflexivity|exact E].
Defined.

(** Both records are complete. *)
Definition quiet_schedule : list nat := replicate 9 0%nat ++ replicate (CELLS + 3) 1%nat ++ replicate CELLS 0%nat.

Lemma quiet_read_witness : exists n output, threads (run (run (start quick_threads) quiet_schedule) (replicate n 3%nat)) !! 3%nat = Some (RDone output) /\
    Forall2 (fun q e => exists a, recorded (run (start quick_threads) quiet_schedule) !! Z.to_nat q = Some a /\ e = event_of q a) [0; 1] output.
Proof.
  refine (quiet_read quick_threads quiet_schedule 3 8 _ _ _ _); [vm_compute; reflexivity|vm_compute; reflexivity| |vm_compute; reflexivity].
  assert (threads (run (start quick_threads) quiet_schedule) = [WDone; WDone; RStart 8; RStart 8]) as -> by (vm_compute; reflexivity).
  intros [|[|[|[|j]]]] t E; try discriminate E; injection E as <-; reflexivity.
Defined.
