(* ===== verification/Devices.v ===== *)
(** * The table of devices (kernel/drivers/core/device_manager.cpp)

    A device is reached by its id, which is its slot, or by a handle, which also names
    the generation of the slot; changing the owner of a device gives it a new
    generation.  Devices form a forest: buses and controllers have children.

    A C string is the list of its bytes before the NUL, and an array with a count is
    the list of its used entries (the others are never read).  A function that takes
    a pointer to a device takes and returns the device; it is stored back at its id.

    The theorems: the invariant of the table ([devices_invariant]), the outcome of a
    registration ([register_device_ok]), handles ([device_handle_resolves],
    [device_handle_stale]) and what a device's capabilities say ([device_capabilities]). *)

From S2P Require Import Prelude KStatus.

(** ** Data *)

Definition MAXIMUM_DEVICES : nat := 192.
Definition MAXIMUM_RESOURCES : nat := 8.
Definition MAXIMUM_CHILDREN : nat := 16.
Definition MAXIMUM_NAME_LENGTH : nat := 47.
Definition MAXIMUM_DRIVER_NAME_LENGTH : nat := 31.

Definition INVALID_DEVICE_ID : Z := UINT32_MAX.
Definition INVALID_DRIVER_ID : Z := UINT32_MAX.
Definition INVALID_DEVICE_HANDLE : Z := 0.

Definition CapabilityNone : Z := 0.
Definition CapabilityIoPort : Z := Z.shiftl 1 0.
Definition CapabilityMmio : Z := Z.shiftl 1 1.
Definition CapabilityInterrupt : Z := Z.shiftl 1 2.
Definition CapabilityDma : Z := Z.shiftl 1 3.
Definition CapabilityChildEnumeration : Z := Z.shiftl 1 4.
Definition CapabilityHotRemove : Z := Z.shiftl 1 5.
Definition CapabilityDriverBinding : Z := Z.shiftl 1 6.

Inductive Type_ := Unknown | Platform | Processor | Display | StorageController | Block | Input | Network | UsbController | Bridge.
Inductive Bus := PlatformBus | Pci | Usb | Virtual.
Inductive Requirement := Optional | BootCritical.
Inductive Status := Discovered | Probing | Initializing | Ready | Degraded | Failed | Disabled.
Inductive ResourceType := IoPort | Mmio | Irq | Dma.

#[export] Instance device_Type_eq_dec : EqDecision Type_.
Proof. solve_decision. Defined.
#[export] Instance device_Bus_eq_dec : EqDecision Bus.
Proof. solve_decision. Defined.
#[export] Instance Requirement_eq_dec : EqDecision Requirement.
Proof. solve_decision. Defined.
#[export] Instance device_Status_eq_dec : EqDecision Status.
Proof. solve_decision. Defined.
#[export] Instance ResourceType_eq_dec : EqDecision ResourceType.
Proof. solve_decision. Defined.

Record Resource := mkResource { r_type : ResourceType; r_start : Z; r_length : Z; r_flags : Z }.
Record BusAddress := mkAddress { a_segment : Z; a_bus : Z; a_slot : Z; a_function : Z }.

(** [None] is a null pointer; the array of resources has at least [d_resource_count]
    of them. *)
Record Descriptor := mkDescriptor {
  d_type : Type_; d_bus : Bus; d_name : option (list Z); d_vendor_id : Z; d_device_id : Z; d_class_code : Z; d_subclass : Z;
  d_programming_interface : Z; d_bus_address : BusAddress; d_parent : Z; d_resources : option (list Resource);
  d_resource_count : nat; d_requirement : Requirement }.

Record Device := mkDevice {
  id : Z; generation : Z; lifecycle_generation : Z; capabilities : Z; type : Type_; bus : Bus; name : list Z; vendor_id : Z;
  device_id : Z; class_code : Z; subclass : Z; programming_interface : Z; bus_address : BusAddress; requirement : Requirement;
  status : Status; driver : Z; driver_name : list Z; resources : list Resource; parent : Z; children : list Z; active : bool }.

Record Devices := mkDevices { g_devices : list Device; g_count : nat; g_active_count : nat; g_initialized : bool }.

(** A device of zeroes, but for the fields given. *)
Definition blank (index : Z) (g drv up : Z) : Device :=
  mkDevice index g 0 0 Unknown PlatformBus [] 0 0 0 0 0 (mkAddress 0 0 0 0) Optional Discovered drv [] [] up [] false.

Definition zeroed : Devices := mkDevices (replicate MAXIMUM_DEVICES (blank 0 0 0 0)) 0 0 false.

(** ** Changes of single fields *)

Definition with_children (d : Device) (c : list Z) : Device :=
  mkDevice (id d) (generation d) (lifecycle_generation d) (capabilities d) (type d) (bus d) (name d) (vendor_id d) (device_id d) (class_code d)
    (subclass d) (programming_interface d) (bus_address d) (requirement d) (status d) (driver d) (driver_name d) (resources d) (parent d) c (active d).
Definition with_status (d : Device) (st : Status) : Device :=
  mkDevice (id d) (generation d) (lifecycle_generation d) (capabilities d) (type d) (bus d) (name d) (vendor_id d) (device_id d) (class_code d)
    (subclass d) (programming_interface d) (bus_address d) (requirement d) st (driver d) (driver_name d) (resources d) (parent d) (children d) (active d).
Definition with_driver (d : Device) (drv : Z) (drv_name : list Z) : Device :=
  mkDevice (id d) (generation d) (lifecycle_generation d) (capabilities d) (type d) (bus d) (name d) (vendor_id d) (device_id d) (class_code d)
    (subclass d) (programming_interface d) (bus_address d) (requirement d) (status d) drv drv_name (resources d) (parent d) (children d) (active d).
Definition with_generations (d : Device) (g lg : Z) : Device :=
  mkDevice (id d) g lg (capabilities d) (type d) (bus d) (name d) (vendor_id d) (device_id d) (class_code d)
    (subclass d) (programming_interface d) (bus_address d) (requirement d) (status d) (driver d) (driver_name d) (resources d) (parent d) (children d) (active d).

Definition store (s : Devices) (index : Z) (d : Device) : Devices :=
  mkDevices (<[Z.to_nat index := d]> (g_devices s)) (g_count s) (g_active_count s) (g_initialized s).

(** ** Texts *)

(** What a buffer of [capacity] bytes holds after the copy. *)
Definition copy_text (capacity : nat) (source : option (list Z)) : list Z := take (capacity - 1) (default [] source).

Fixpoint text_equal (x y : list Z) : bool :=
  match x, y with
  | [], [] => true
  | l :: x, r :: y => (l =? r) && text_equal x y
  | _, _ => false
  end.

(** ** Capabilities *)

Definition resource_capability (t : ResourceType) : Z :=
  match t with IoPort => CapabilityIoPort | Mmio => CapabilityMmio | Irq => CapabilityInterrupt | Dma => CapabilityDma end.

(** The resources that the registration reads. *)
Definition given_resources (descriptor : Descriptor) : list Resource := take (d_resource_count descriptor) (default [] (d_resources descriptor)).

Definition derive_capabilities (descriptor : Descriptor) : Z :=
  let c := foldl (fun c r => Z.lor c (resource_capability (r_type r))) CapabilityDriverBinding (given_resources descriptor) in
  let c := match d_type descriptor with Platform | Bridge | StorageController | UsbController => Z.lor c CapabilityChildEnumeration | _ => c end in
  match d_bus descriptor with Usb | Virtual => Z.lor c CapabilityHotRemove | _ => c end.

(** ** Handles *)

Definition encode_handle (index g : Z) : Z :=
  if (index =? INVALID_DEVICE_ID) || (g =? 0) then INVALID_DEVICE_HANDLE else Z.lor (Z.shiftl g 32) (index + 1).

Definition decode_handle (handle : Z) : option (Z * Z) :=
  if handle =? INVALID_DEVICE_HANDLE then None
  else
    let encoded_id := Z.land handle 0xffffffff in
    let encoded_generation := u32 (Z.shiftr handle 32) in
    if (encoded_id =? 0) || (Z.of_nat MAXIMUM_DEVICES <? encoded_id) || (encoded_generation =? 0) then None
    else Some (u32 (encoded_id - 1), encoded_generation).

(** A counter that skips 0. *)
Definition bump (g : Z) : Z := let g := u32 (g + 1) in if g =? 0 then 1 else g.
Definition bump_lifecycle (d : Device) : Device := with_generations d (generation d) (bump (lifecycle_generation d)).
Definition bump_handle_generation (d : Device) : Device := with_generations d (bump (generation d)) (lifecycle_generation d).

(** The first entry equal to [child] is taken out. *)
Fixpoint unlink_child (entries : list Z) (child : Z) : list Z :=
  match entries with
  | [] => []
  | c :: entries => if negb (c =? child) then c :: unlink_child entries child else entries
  end.

(** ** Operations *)

Definition initialize (s : Devices) : Devices :=
  mkDevices (imap (fun index d => blank (Z.of_nat index) (generation d) INVALID_DRIVER_ID INVALID_DEVICE_ID) (g_devices s)) 0 0 true.

Definition get (s : Devices) (index : Z) : option Device :=
  if index <? Z.of_nat (g_count s) then
    match g_devices s !! Z.to_nat index with Some d => if active d then Some d else None | None => None end
  else None.

Definition handle_for (s : Devices) (index : Z) : Z :=
  match get s index with None => INVALID_DEVICE_HANDLE | Some d => encode_handle (id d) (generation d) end.

(** [resolve_checked] and [resolve_mutable_checked]. *)
Definition resolve_checked (s : Devices) (handle : Z) : KStatus * option Device :=
  match decode_handle handle with
  | None => (InvalidArgument, None)
  | Some (index, g) =>
      match get s index with
      | None => (StaleHandle, None)
      | Some d => if negb (generation d =? g) then (StaleHandle, None) else (Ok, Some d)
      end
  end.

(** [resolve] and [resolve_mutable]. *)
Definition resolve (s : Devices) (handle : Z) : option Device :=
  let '(st, d) := resolve_checked s handle in if bool_decide (st = Ok) then d else None.

Definition get_resource (s : Devices) (handle : Z) (index : nat) : KStatus * option Resource :=
  let '(st, d) := resolve_checked s handle in
  match d with
  | None => (st, None)
  | Some d => match resources d !! index with None => (OutOfRange, None) | Some r => (Ok, Some r) end
  end.

Definition has_capability (s : Devices) (handle capability_mask : Z) : bool :=
  if capability_mask =? CapabilityNone then false
  else match resolve s handle with None => false | Some d => Z.land (capabilities d) capability_mask =? capability_mask end.

Definition at_pci (b sl f : Z) (d : Device) : bool :=
  active d && bool_decide (bus d = Pci) && (a_bus (bus_address d) =? b) && (a_slot (bus_address d) =? sl) && (a_function (bus_address d) =? f).

Definition find_pci (s : Devices) (b sl f : Z) : option Device :=
  find_index (at_pci b sl f) (take (g_count s) (g_devices s)) ≫= fun i => g_devices s !! i.

(** The slot of a new device, and the count with it. *)
Definition free_slot (s : Devices) : option (nat * nat) :=
  match find_index (fun d => negb (active d)) (take (g_count s) (g_devices s)) with
  | Some i => Some (i, g_count s)
  | None => if (MAXIMUM_DEVICES <=? g_count s)%nat then None else Some (g_count s, S (g_count s))
  end.

Definition new_device (descriptor : Descriptor) (slot : nat) (g : Z) : Device :=
  mkDevice (Z.of_nat slot) (bump g) 1 (derive_capabilities descriptor) (d_type descriptor) (d_bus descriptor)
    (copy_text (MAXIMUM_NAME_LENGTH + 1) (d_name descriptor)) (d_vendor_id descriptor) (d_device_id descriptor) (d_class_code descriptor)
    (d_subclass descriptor) (d_programming_interface descriptor) (d_bus_address descriptor) (d_requirement descriptor) Discovered
    INVALID_DRIVER_ID [] (given_resources descriptor) (d_parent descriptor) [] true.

(** The last part of [register_device]: the device is stored and its parent told. *)
Definition place (s : Devices) (descriptor : Descriptor) (up : option Device) : Devices * KStatus * option Z :=
  match free_slot s with
  | None => (s, NoMemory, Some INVALID_DEVICE_ID)
  | Some (slot, count) =>
      let g := match g_devices s !! slot with Some d => generation d | None => 0 end in
      let value := new_device descriptor slot g in
      let s := store (mkDevices (g_devices s) count (g_active_count s) (g_initialized s)) (Z.of_nat slot) value in
      let s := match up with Some p => store s (id p) (with_children p (children p ++ [id value])) | None => s end in
      (mkDevices (g_devices s) (g_count s) (S (g_active_count s)) (g_initialized s), Ok, Some (id value))
  end.

(** The third result is what is stored in [*id], if anything. *)
Definition register_device (s : Devices) (descriptor : Descriptor) (has_id : bool) : Devices * KStatus * option Z :=
  if negb (g_initialized s) then (s, BadState, None)
  else if negb has_id || match d_name descriptor with None | Some [] => true | _ => false end || (MAXIMUM_RESOURCES <? d_resource_count descriptor)%nat ||
     negb (d_resource_count descriptor =? 0)%nat && negb (bool_decide (is_Some (d_resources descriptor)))
  then (s, InvalidArgument, None)
  else
    let occupied := bool_decide (d_bus descriptor = Pci) &&
      match find_pci s (a_bus (d_bus_address descriptor)) (a_slot (d_bus_address descriptor)) (a_function (d_bus_address descriptor)) with
      | Some _ => true | None => false end in
    if negb (d_parent descriptor =? INVALID_DEVICE_ID) then
      match get s (d_parent descriptor) with
      | None => (s, NotFound, Some INVALID_DEVICE_ID)
      | Some p =>
          if (MAXIMUM_CHILDREN <=? length (children p))%nat then (s, Busy, Some INVALID_DEVICE_ID)
          else if occupied then (s, AlreadyExists, Some INVALID_DEVICE_ID) else place s descriptor (Some p)
      end
    else if occupied then (s, AlreadyExists, Some INVALID_DEVICE_ID) else place s descriptor None.

Definition remove_device (s : Devices) (index : Z) : Devices * KStatus :=
  match get s index with
  | None => (s, NotFound)
  | Some d =>
      if negb (driver d =? INVALID_DRIVER_ID) || negb (length (children d) =? 0)%nat then (s, Busy)
      else if Z.land (capabilities d) CapabilityHotRemove =? 0 then (s, PermissionDenied)
      else
        let s := if negb (parent d =? INVALID_DEVICE_ID) then
            match get s (parent d) with Some p => store s (parent d) (with_children p (unlink_child (children p) index)) | None => s end
          else s in
        let s := store s index (blank index (generation d) INVALID_DRIVER_ID INVALID_DEVICE_ID) in
        (mkDevices (g_devices s) (g_count s) (g_active_count s - 1) (g_initialized s), Ok)
  end.

Definition set_status (s : Devices) (index : Z) (st : Status) : Devices * KStatus :=
  match get s index with
  | None => (s, NotFound)
  | Some d => (if negb (bool_decide (status d = st)) then store s index (bump_lifecycle (with_status d st)) else s, Ok)
  end.

Definition claim (s : Devices) (index drv : Z) (drv_name : option (list Z)) : Devices * KStatus :=
  match get s index with
  | None => (s, NotFound)
  | Some d =>
      if (drv =? INVALID_DRIVER_ID) || match drv_name with None | Some [] => true | _ => false end then (s, InvalidArgument)
      else if negb (driver d =? INVALID_DRIVER_ID) then
        (s, if (driver d =? drv) && text_equal (driver_name d) (default [] drv_name) then AlreadyExists else Busy)
      else
        let d := with_driver d drv (copy_text (MAXIMUM_DRIVER_NAME_LENGTH + 1) drv_name) in
        (store s index (bump_lifecycle (bump_handle_generation d)), Ok)
  end.

Definition release (s : Devices) (index drv : Z) : Devices * KStatus :=
  match get s index with
  | None => (s, NotFound)
  | Some d =>
      if negb (driver d =? drv) || (drv =? INVALID_DRIVER_ID) then (s, PermissionDenied)
      else (store s index (bump_lifecycle (bump_handle_generation (with_status (with_driver d INVALID_DRIVER_ID []) Discovered))), Ok)
  end.

(** The loop of [visit] from slot [index]; there are at most [fuel] slots left.  The
    callback may call the operations, and tells whether to go on. *)
Fixpoint visit_loop {W} (callback : Devices -> W -> Z -> Devices * W * bool) (fuel : nat) (s : Devices) (w : W) (index : nat) : Devices * W :=
  match fuel with
  | O => (s, w)
  | S fuel =>
      if negb (index <? g_count s)%nat then (s, w)
      else
        match get s (Z.of_nat index) with
        | None => visit_loop callback fuel s w (S index)
        | Some _ => let '(s, w, more) := callback s w (Z.of_nat index) in if negb more then (s, w) else visit_loop callback fuel s w (S index)
        end
  end.

Definition visit {W} (callback : option (Devices -> W -> Z -> Devices * W * bool)) (s : Devices) (w : W) : Devices * W :=
  match callback with None => (s, w) | Some callback => visit_loop callback MAXIMUM_DEVICES s w 0 end.

(** ** Single steps *)

Lemma text_equal_eq x y : text_equal x y = bool_decide (x = y).
Proof.
  revert y. induction x as [|c x IH]; intros [|d y]; [done..|]. cbn [text_equal]. rewrite IH.
  destruct (Z.eqb_spec c d) as [->|]; cbn [andb]; [|symmetry; apply bool_decide_eq_false; congruence].
  apply bool_decide_ext. split; [by intros ->|by intros [= ->]].
Qed.

Lemma bump_range g : is_u32 (bump g) /\ bump g ≠ 0.
Proof.
  unfold bump. cbv zeta. pose proof (u32_range (g + 1)) as H. destruct (Z.eqb_spec (u32 (g + 1)) 0); by split.
Qed.

(** Counting [n] times over the values 1 to 2^32 - 1. *)
Lemma bump_cycle g n : 1 <= g < 2 ^ 32 -> 0 <= n -> bump (1 + (g - 1 + n) mod (2 ^ 32 - 1)) = 1 + (g - 1 + (n + 1)) mod (2 ^ 32 - 1).
Proof.
  intros Hg Hn. unfold bump, u32. cbv zeta. set (M := 2 ^ 32 - 1). change (2 ^ 32) with (M + 1). assert (M = 4294967295) as HM by done. clearbody M.
  pose proof (Z.mod_pos_bound (g - 1 + n) M ltac:(lia)) as Hr. rewrite (Z.add_assoc _ n 1), <- (Zplus_mod_idemp_l (g - 1 + n) 1 M). set (r := (g - 1 + n) mod M) in *.
  destruct (decide (r = M - 1)) as [E|E].
  - rewrite E. replace (1 + (M - 1) + 1) with (M + 1) by lia. replace (M - 1 + 1) with M by lia. by rewrite !Z_mod_same by lia.
  - rewrite (Z.mod_small (1 + r + 1)), (Z.mod_small (r + 1)) by lia. destruct (Z.eqb_spec (1 + r + 1) 0); lia.
Qed.

Lemma elem_of_unlink l x c : NoDup l -> c ∈ unlink_child l x <-> c ∈ l /\ c ≠ x.
Proof.
  induction l as [|y l IH]; intros Hl; cbn [unlink_child]; [set_solver|]. apply NoDup_cons in Hl as [Hy Hl].
  destruct (Z.eqb_spec y x) as [->|]; cbn [negb]; [set_solver|]. rewrite !elem_of_cons, IH by done. set_solver.
Qed.

Lemma unlink_NoDup l x : NoDup l -> NoDup (unlink_child l x) /\ (length (unlink_child l x) <= length l)%nat.
Proof.
  induction l as [|y l IH]; intros Hl; cbn [unlink_child]; [done|]. pose proof Hl as Hl'. apply NoDup_cons in Hl as [Hy Hl].
  destruct (IH Hl) as [H1 H2]. destruct (Z.eqb_spec y x) as [->|]; cbn [negb length]; [by split; [|lia]|]. split; [|lia].
  apply NoDup_cons. split; [|done]. by intros [? _]%elem_of_unlink.
Qed.

(** ** The invariant *)

(** What holds of a device in use; its capabilities are those of some registration. *)
Record device_ok (d : Device) : Prop := {
  do_generation : generation d ≠ 0;
  do_name : name d ≠ [] /\ (length (name d) <= MAXIMUM_NAME_LENGTH)%nat;
  do_driver : (driver d = INVALID_DRIVER_ID <-> driver_name d = []) /\ (length (driver_name d) <= MAXIMUM_DRIVER_NAME_LENGTH)%nat;
  do_resources : (length (resources d) <= MAXIMUM_RESOURCES)%nat;
  do_children : NoDup (children d) /\ (length (children d) <= MAXIMUM_CHILDREN)%nat;
  do_capabilities : exists descriptor, capabilities d = derive_capabilities descriptor /\ d_type descriptor = type d /\ d_bus descriptor = bus d /\
    given_resources descriptor = resources d }.

(** The devices in use, by id: they form a forest in which both directions of the
    links agree, and no two are at the same place of the PCI bus. *)
Record links_ok (g : Z -> option Device) : Prop := {
  lk_range : forall i d, 0 <= i -> g i = Some d -> i ≠ INVALID_DEVICE_ID;
  lk_ok : forall i d, 0 <= i -> g i = Some d -> device_ok d;
  lk_children : forall i d c, 0 <= i -> g i = Some d -> c ∈ children d -> 0 <= c /\ exists e, g c = Some e /\ parent e = i;
  lk_parents : forall i e, 0 <= i -> g i = Some e -> parent e ≠ INVALID_DEVICE_ID -> 0 <= parent e /\ exists d, g (parent e) = Some d /\ i ∈ children d;
  lk_forest : exists rank : Z -> nat, forall i e, 0 <= i -> g i = Some e -> parent e ≠ INVALID_DEVICE_ID -> (rank (parent e) < rank i)%nat;
  lk_pci : forall i j d e, 0 <= i -> 0 <= j -> g i = Some d -> g j = Some e -> bus d = Pci -> bus e = Pci ->
    a_bus (bus_address d) = a_bus (bus_address e) -> a_slot (bus_address d) = a_slot (bus_address e) ->
    a_function (bus_address d) = a_function (bus_address e) -> i = j }.

Record devices_ok (s : Devices) : Prop := {
  dv_length : length (g_devices s) = MAXIMUM_DEVICES;
  dv_count : (g_count s <= MAXIMUM_DEVICES)%nat;
  dv_slots : forall i d, g_devices s !! i = Some d -> id d = Z.of_nat i /\ is_u32 (generation d);
  dv_beyond : forall i d, g_devices s !! i = Some d -> (g_count s <= i)%nat -> active d = false;
  dv_active : Z.of_nat (g_active_count s) = countb active (g_devices s);
  dv_links : links_ok (get s) }.

Lemma get_Some s i d : devices_ok s -> 0 <= i -> get s i = Some d <-> g_devices s !! Z.to_nat i = Some d /\ active d = true.
Proof.
  intros Hs Hi. unfold get. split.
  - destruct (_ <? _); [|done]. destruct (g_devices s !! Z.to_nat i) as [x|]; [|done]. destruct (active x) eqn:E; [|done]. by intros [= ->].
  - intros [Hl Ha]. rewrite Hl, Ha. destruct (Z.ltb_spec i (Z.of_nat (g_count s))); [done|]. pose proof (dv_beyond s Hs _ _ Hl ltac:(lia)). congruence.
Qed.

Lemma get_id s i d : devices_ok s -> 0 <= i -> get s i = Some d -> id d = i /\ i < Z.of_nat (g_count s) /\ is_u32 (generation d) /\ generation d ≠ 0.
Proof.
  intros Hs Hi Hg. pose proof (lk_ok _ (dv_links s Hs) i d Hi Hg) as Hok. assert (i < Z.of_nat (g_count s)).
  { unfold get in Hg. by destruct (Z.ltb_spec i (Z.of_nat (g_count s))). }
  apply get_Some in Hg as [Hl _]; [|done..]. destruct (dv_slots s Hs _ _ Hl) as [E Hu]. split; [lia|]. split; [done|]. split; [done|apply Hok].
Qed.

(** ** Links *)

Lemma links_ext g g' : (forall i, 0 <= i -> g' i = g i) -> links_ok g -> links_ok g'.
Proof.
  intros E [H0' H1 H2 H3 [rank H4] H5]. constructor.
  - intros i d Hi. rewrite E by done. by apply H0'.
  - intros i d Hi. rewrite E by done. by apply H1.
  - intros i d c Hi. rewrite E by done. intros Hg Hc. destruct (H2 i d c Hi Hg Hc) as (H0 & e & He & Hp). split; [done|]. exists e. by rewrite E.
  - intros i e Hi. rewrite E by done. intros Hg Hp. destruct (H3 i e Hi Hg Hp) as (H0 & d & Hd & Hc). split; [done|]. exists d. by rewrite E.
  - exists rank. intros i e Hi. rewrite E by done. by apply H4.
  - intros i j d e Hi Hj. rewrite !E by done. by apply H5.
Qed.

(** A device that takes the place of another without moving in the forest. *)
Definition same_place (d d' : Device) : Prop := parent d' = parent d /\ children d' = children d /\ bus d' = bus d /\ bus_address d' = bus_address d.

Lemma links_update g g' i d d' : links_ok g -> g i = Some d -> same_place d d' -> device_ok d' ->
  (forall j, 0 <= j -> g' j = if decide (j = i) then Some d' else g j) -> links_ok g'.
Proof.
  intros [H0' H1 H2 H3 [rank H4] H5] Hi (S1 & S2 & S3 & S4) Hok E.
  assert (forall j x, 0 <= j -> g' j = Some x -> exists y, g j = Some y /\ same_place y x) as Hback.
  { intros j x Hj. rewrite E by done. destruct (decide (j = i)) as [->|]; [intros [= <-]; by exists d|intros Hx; by exists x]. }
  assert (forall j y, 0 <= j -> g j = Some y -> exists x, g' j = Some x /\ same_place y x) as Hto.
  { intros j y Hj Hy. rewrite E by done. destruct (decide (j = i)) as [->|]; [|by exists y]. exists d'. split; [done|]. by rewrite Hi in Hy; injection Hy as <-. }
  constructor.
  - intros j x Hj Hx. destruct (Hback j x Hj Hx) as (y & Hy & _). by apply (H0' j y).
  - intros j x Hj. rewrite E by done. destruct (decide (j = i)); [by intros [= <-]|by apply H1].
  - intros j x c Hj Hx Hc. destruct (Hback j x Hj Hx) as (y & Hy & T1 & T2 & T3 & T4). rewrite T2 in Hc. destruct (H2 j y c Hj Hy Hc) as (H0 & e & He & Hp).
    split; [done|]. destruct (Hto c e H0 He) as (e' & He' & U1 & _). exists e'. split; [done|congruence].
  - intros j x Hj Hx Hp. destruct (Hback j x Hj Hx) as (y & Hy & T1 & T2 & T3 & T4). rewrite T1 in Hp |- *. destruct (H3 j y Hj Hy Hp) as (H0 & e & He & Hc).
    split; [done|]. destruct (Hto _ e H0 He) as (e' & He' & _ & U2 & _). exists e'. split; [done|congruence].
  - exists rank. intros j x Hj Hx Hp. destruct (Hback j x Hj Hx) as (y & Hy & T1 & _). rewrite T1 in Hp |- *. by apply H4.
  - intros j k x y Hj Hk Hx Hy. destruct (Hback j x Hj Hx) as (x' & Hx' & _ & _ & T3 & T4), (Hback k y Hk Hy) as (y' & Hy' & _ & _ & U3 & U4).
    rewrite T3, T4, U3, U4. by apply H5.
Qed.

(** A device with a changed list of children. *)
Lemma with_children_ok d c : device_ok d -> NoDup c -> (length c <= MAXIMUM_CHILDREN)%nat -> device_ok (with_children d c).
Proof. intros [H1 H2 H3 H4 H5 H6] Hc Hl. by constructor. Qed.

(** What becomes of device [j] when the new device [n] below [up] is registered. *)
Definition adopt (up n j : Z) (d : Device) : Device :=
  if decide (up ≠ INVALID_DEVICE_ID /\ j = up) then with_children d (children d ++ [n]) else d.

Lemma adopt_shape up n j d : parent (adopt up n j d) = parent d /\ bus (adopt up n j d) = bus d /\ bus_address (adopt up n j d) = bus_address d /\
  (forall c, c ∈ children (adopt up n j d) <-> c ∈ children d \/ up ≠ INVALID_DEVICE_ID /\ j = up /\ c = n).
Proof.
  unfold adopt. destruct (decide _) as [[H1 H2]|Hn]; (split; [done|]); (split; [done|]); (split; [done|]); intros c.
  - cbn. rewrite elem_of_app, list_elem_of_singleton. naive_solver.
  - naive_solver.
Qed.

Lemma links_add g g' n v : links_ok g -> 0 <= n -> n ≠ INVALID_DEVICE_ID -> g n = None -> children v = [] -> device_ok v ->
  (parent v ≠ INVALID_DEVICE_ID -> 0 <= parent v /\ exists p, g (parent v) = Some p /\ (length (children p) < MAXIMUM_CHILDREN)%nat) ->
  (bus v = Pci -> forall j d, 0 <= j -> g j = Some d -> bus d = Pci -> a_bus (bus_address d) = a_bus (bus_address v) ->
    a_slot (bus_address d) = a_slot (bus_address v) -> a_function (bus_address d) = a_function (bus_address v) -> False) ->
  (forall j, 0 <= j -> g' j = if decide (j = n) then Some v else adopt (parent v) n j <$> g j) -> links_ok g'.
Proof.
  intros Hg Hn Hn2 Hfree Hch Hok Hup Hpci E. pose proof Hg as [H0' H1 H2 H3 [rank H4] H5].
  assert (forall j x, 0 <= j -> j ≠ n -> g' j = Some x -> exists y, g j = Some y /\ x = adopt (parent v) n j y) as Hback.
  { intros j x Hj Hne. rewrite E, decide_False by done. intros (y & -> & Hy)%fmap_Some. by exists y. }
  assert (forall j y, 0 <= j -> g j = Some y -> g' j = Some (adopt (parent v) n j y)) as Hto.
  { intros j y Hj Hy. rewrite E, decide_False by (done || congruence). by rewrite Hy. }
  assert (g' n = Some v) as Hnew by (rewrite E by done; by rewrite decide_True).
  assert (forall j y c, 0 <= j -> g j = Some y -> c ∈ children y -> c ≠ n) as Hnot.
  { intros j y c Hj Hy Hc ->. destruct (H2 j y n Hj Hy Hc) as (_ & e & He & _). congruence. }
  constructor.
  - intros j x Hj Hx. destruct (decide (j = n)) as [->|Hne]; [done|]. destruct (Hback j x Hj Hne Hx) as (y & Hy & _). by apply (H0' j y).
  - intros j x Hj Hx. destruct (decide (j = n)) as [->|Hne]; [congruence|]. destruct (Hback j x Hj Hne Hx) as (y & Hy & ->). pose proof (H1 j y Hj Hy) as Hyok.
    unfold adopt. destruct (decide _) as [[Hu ->]|]; [|done]. destruct (Hup Hu) as (_ & p & Hp & Hl). assert (p = y) as -> by congruence.
    apply with_children_ok; [done| |rewrite length_app; cbn [length]; lia]. apply NoDup_app. split; [apply Hyok|]. split; [|apply NoDup_singleton].
    intros c Hc ->%list_elem_of_singleton. by destruct (Hnot _ y n Hj Hy Hc).
  - intros j x c Hj Hx Hc. destruct (decide (j = n)) as [->|Hne].
    { assert (x = v) as -> by congruence. rewrite Hch in Hc. by apply elem_of_nil in Hc. }
    destruct (Hback j x Hj Hne Hx) as (y & Hy & ->). apply adopt_shape in Hc as [Hc|(Hu & -> & ->)]; [|split; [done|by exists v]].
    destruct (H2 j y c Hj Hy Hc) as (H0 & e & He & Hp). split; [done|]. exists (adopt (parent v) n c e). split; [by apply Hto|].
    by destruct (adopt_shape (parent v) n c e) as [-> _].
  - intros j x Hj Hx Hp. destruct (decide (j = n)) as [->|Hne].
    + assert (x = v) as -> by congruence. destruct (Hup Hp) as (H0 & p & Hpp & _). split; [done|]. exists (adopt (parent v) n (parent v) p).
      split; [by apply Hto|]. apply adopt_shape. by right.
    + destruct (Hback j x Hj Hne Hx) as (y & Hy & ->). destruct (adopt_shape (parent v) n j y) as [S1 _]. rewrite S1 in *. destruct (H3 j y Hj Hy Hp) as (H0 & d & Hd & Hc).
      split; [done|]. exists (adopt (parent v) n (parent y) d). split; [by apply Hto|]. apply adopt_shape. by left.
  - exists (fun j => if decide (j = n) then S (rank (parent v)) else rank j). intros j x Hj Hx Hp. destruct (decide (j = n)) as [->|Hne].
    + assert (x = v) as -> by congruence. destruct (Hup Hp) as (_ & p & Hpp & _). destruct (decide (parent v = n)) as [En|]; [congruence|]. destruct (decide (n = n)); [lia|done].
    + destruct (Hback j x Hj Hne Hx) as (y & Hy & ->). destruct (adopt_shape (parent v) n j y) as [S1 _]. rewrite S1 in *. destruct (decide (j = n)); [done|].
      destruct (decide (parent y = n)) as [En|]; [|by apply H4]. destruct (H3 j y Hj Hy Hp) as (_ & d & Hd & _). congruence.
  - intros j k x y Hj Hk Hx Hy Hbx Hby E1 E2 E3. destruct (decide (j = n)) as [->|Hjn], (decide (k = n)) as [->|Hkn]; [done| | |].
    + assert (x = v) as -> by congruence. destruct (Hback k y Hk Hkn Hy) as (y' & Hy' & ->). destruct (adopt_shape (parent v) n k y') as (_ & S2 & S3 & _). rewrite S2, S3 in *.
      by destruct (Hpci Hbx k y').
    + assert (y = v) as -> by congruence. destruct (Hback j x Hj Hjn Hx) as (x' & Hx' & ->). destruct (adopt_shape (parent v) n j x') as (_ & S2 & S3 & _). rewrite S2, S3 in *.
      by destruct (Hpci Hby j x').
    + destruct (Hback j x Hj Hjn Hx) as (x' & Hx' & ->), (Hback k y Hk Hkn Hy) as (y' & Hy' & ->).
      destruct (adopt_shape (parent v) n j x') as (_ & S2 & S3 & _), (adopt_shape (parent v) n k y') as (_ & T2 & T3 & _). rewrite S2, S3, T2, T3 in *. by apply (H5 j k x' y').
Qed.

(** What becomes of device [j] when the device [n] below [up] is removed. *)
Definition orphan (up n j : Z) (d : Device) : Device :=
  if decide (up ≠ INVALID_DEVICE_ID /\ j = up) then with_children d (unlink_child (children d) n) else d.

Lemma orphan_shape up n j d : device_ok d -> parent (orphan up n j d) = parent d /\ bus (orphan up n j d) = bus d /\
  bus_address (orphan up n j d) = bus_address d /\ device_ok (orphan up n j d) /\
  (forall c, c ∈ children (orphan up n j d) <-> c ∈ children d /\ ~ (up ≠ INVALID_DEVICE_ID /\ j = up /\ c = n)).
Proof.
  intros Hd. destruct (do_children d Hd) as [Hn Hl]. unfold orphan. destruct (decide _) as [[H1 H2]|Hne]; (split; [done|]); (split; [done|]); (split; [done|]).
  - destruct (unlink_NoDup (children d) n Hn) as [U1 U2]. split; [apply with_children_ok; [done|done|lia]|]. intros c. cbn. rewrite elem_of_unlink by done. naive_solver.
  - split; [done|]. naive_solver.
Qed.

Lemma links_remove g g' n d : links_ok g -> 0 <= n -> g n = Some d -> children d = [] ->
  (forall j, 0 <= j -> g' j = if decide (j = n) then None else orphan (parent d) n j <$> g j) -> links_ok g'.
Proof.
  intros [H0' H1 H2 H3 [rank H4] H5] Hn Hd Hch E.
  assert (forall j x, 0 <= j -> g' j = Some x -> j ≠ n /\ exists y, g j = Some y /\ x = orphan (parent d) n j y /\ device_ok y) as Hback.
  { intros j x Hj. rewrite E by done. destruct (decide _) as [|Hne]; [done|]. intros (y & Hy & ->)%fmap_Some. split; [done|]. exists y. split; [done|]. split; [done|]. by apply (H1 j). }
  assert (forall j y, 0 <= j -> j ≠ n -> g j = Some y -> g' j = Some (orphan (parent d) n j y)) as Hto.
  { intros j y Hj Hne Hy. rewrite E, decide_False by done. by rewrite Hy. }
  constructor.
  - intros j x Hj Hx. destruct (Hback j x Hj Hx) as (_ & y & Hy & _). by apply (H0' j y).
  - intros j x Hj Hx. destruct (Hback j x Hj Hx) as (_ & y & Hy & -> & Hok). by apply orphan_shape.
  - intros j x c Hj Hx Hc. destruct (Hback j x Hj Hx) as (Hne & y & Hy & -> & Hok). apply (orphan_shape _ _ _ y Hok) in Hc as [Hc Hnot].
    destruct (H2 j y c Hj Hy Hc) as (H0 & e & He & Hp). assert (c ≠ n) as Hcn.
    { intros ->. assert (e = d) as -> by congruence. apply Hnot. split; [|done]. rewrite Hp. by apply (H0' j y). }
    split; [done|]. exists (orphan (parent d) n c e). split; [by apply Hto|]. by rewrite (proj1 (orphan_shape (parent d) n c e (H1 c e H0 He))).
  - intros j x Hj Hx Hp. destruct (Hback j x Hj Hx) as (Hne & y & Hy & -> & Hok). rewrite (proj1 (orphan_shape (parent d) n j y Hok)) in *.
    destruct (H3 j y Hj Hy Hp) as (H0 & e & He & Hc). split; [done|]. assert (parent y ≠ n) as Hpn.
    { intros En. rewrite En in He. assert (e = d) as -> by congruence. rewrite Hch in Hc. by apply elem_of_nil in Hc. }
    exists (orphan (parent d) n (parent y) e). split; [by apply Hto|]. apply (orphan_shape _ _ _ e (H1 _ _ H0 He)). split; [done|]. intros (_ & _ & E2). done.
  - exists rank. intros j x Hj Hx Hp. destruct (Hback j x Hj Hx) as (Hne & y & Hy & -> & Hok). rewrite (proj1 (orphan_shape (parent d) n j y Hok)) in *. by apply H4.
  - intros j k x y Hj Hk Hx Hy. destruct (Hback j x Hj Hx) as (_ & x' & Hx' & -> & Hox), (Hback k y Hk Hy) as (_ & y' & Hy' & -> & Hoy).
    destruct (orphan_shape (parent d) n j x' Hox) as (_ & -> & -> & _), (orphan_shape (parent d) n k y' Hoy) as (_ & -> & -> & _). by apply H5.
Qed.

(** ** Operations keep the invariant *)

(** What the operations leave of the table itself. *)
Record table_ok (s : Devices) : Prop := {
  tb_length : length (g_devices s) = MAXIMUM_DEVICES;
  tb_count : (g_count s <= MAXIMUM_DEVICES)%nat;
  tb_slots : forall i d, g_devices s !! i = Some d -> id d = Z.of_nat i /\ is_u32 (generation d);
  tb_beyond : forall i d, g_devices s !! i = Some d -> (g_count s <= i)%nat -> active d = false }.

Lemma devices_table s : devices_ok s -> table_ok s.
Proof. intros [H1 H2 H3 H4 H5 H6]. by constructor. Qed.

Lemma devices_intro s : table_ok s -> Z.of_nat (g_active_count s) = countb active (g_devices s) -> links_ok (get s) -> devices_ok s.
Proof. intros [H1 H2 H3 H4] H5 H6. by constructor. Qed.

Lemma store_table s i d : table_ok s -> 0 <= i < Z.of_nat (g_count s) -> id d = i -> is_u32 (generation d) -> table_ok (store s i d).
Proof.
  intros [H1 H2 H3 H4] Hi Hd Hg. constructor; cbn; [by rewrite length_insert|done| |].
  - intros j x [(<- & -> & _)|(_ & Hx)]%list_lookup_insert_Some; [split; [lia|done]|by apply H3].
  - intros j x [(<- & -> & _)|(_ & Hx)]%list_lookup_insert_Some Hj; [lia|by apply (H4 j)].
Qed.

Lemma get_store s i d j : table_ok s -> 0 <= i < Z.of_nat (g_count s) -> 0 <= j ->
  get (store s i d) j = if decide (j = i) then (if active d then Some d else None) else get s j.
Proof.
  intros [H1 H2 H3 H4] Hi Hj. unfold get, store. cbn [g_devices g_count]. destruct (decide (j = i)) as [->|Hne].
  - rewrite list_lookup_insert_eq by lia. destruct (Z.ltb_spec i (Z.of_nat (g_count s))); [done|lia].
  - rewrite list_lookup_insert_ne by lia. done.
Qed.

(** A device is replaced, in its place, by another. *)
Lemma store_in_place s i d d' : devices_ok s -> 0 <= i -> get s i = Some d -> same_place d d' -> id d' = id d -> active d' = true ->
  is_u32 (generation d') -> device_ok d' -> devices_ok (store s i d').
Proof.
  intros Hs Hi Hd Hp Hid Ha Hg Hok. destruct (get_id s i d Hs Hi Hd) as (E1 & E2 & _). pose proof (devices_table s Hs) as Ht.
  pose proof (proj1 (get_Some s i d Hs Hi) Hd) as [Hl Hact]. apply devices_intro.
  - apply store_table; [done|lia|congruence|done].
  - cbn. rewrite (countb_insert _ _ _ d) by done. rewrite Ha, Hact. pose proof (dv_active s Hs). lia.
  - apply (links_update (get s) _ i d d'); [apply Hs|done|done|done|]. intros j Hj. rewrite get_store by (done || lia). by rewrite Ha.
Qed.

Lemma set_status_ok s i st : devices_ok s -> 0 <= i -> devices_ok (fst (set_status s i st)).
Proof.
  intros Hs Hi. unfold set_status. destruct (get s i) as [d|] eqn:Hd; [|done]. cbn [fst]. destruct (negb _); [|done].
  destruct (get_id s i d Hs Hi Hd) as (_ & _ & Hg & _). pose proof (proj1 (get_Some s i d Hs Hi) Hd) as [_ Ha].
  apply (store_in_place s i d); try done. destruct (lk_ok _ (dv_links s Hs) i d Hi Hd) as [H1 H2 H3 H4 H5 H6]. by constructor.
Qed.

Lemma copied_text n c l : (0 < n)%nat -> copy_text (S n) (Some (c :: l)) ≠ [] /\ (length (copy_text (S n) (Some (c :: l))) <= n)%nat.
Proof. intros Hn. unfold copy_text. cbn [default]. rewrite length_take. split; [|lia]. destruct n; [lia|done]. Qed.

(** A device with a new generation. *)
Lemma bumped_ok d drv txt st : device_ok d -> (drv = INVALID_DRIVER_ID <-> txt = []) -> (length txt <= MAXIMUM_DRIVER_NAME_LENGTH)%nat ->
  device_ok (bump_lifecycle (bump_handle_generation (with_status (with_driver d drv txt) st))).
Proof. intros [H1 H2 H3 H4 H5 H6] Hd Hl. constructor; try done. apply bump_range. Qed.

Lemma claim_ok s i drv txt : devices_ok s -> 0 <= i -> devices_ok (fst (claim s i drv txt)).
Proof.
  intros Hs Hi. unfold claim. destruct (get s i) as [d|] eqn:Hd; [|done]. destruct (Z.eqb_spec drv INVALID_DRIVER_ID) as [|Hdrv]; [done|]. cbn [orb].
  destruct txt as [[|c txt]|]; [done| |done]. destruct (negb _); [done|]. cbn [fst]. pose proof (proj1 (get_Some s i d Hs Hi) Hd) as [_ Ha].
  change (with_driver d drv (copy_text (MAXIMUM_DRIVER_NAME_LENGTH + 1) (Some (c :: txt)))) with
    (with_status (with_driver d drv (copy_text (S MAXIMUM_DRIVER_NAME_LENGTH) (Some (c :: txt)))) (status d)).
  destruct (copied_text MAXIMUM_DRIVER_NAME_LENGTH c txt) as [C1 C2]; [unfold MAXIMUM_DRIVER_NAME_LENGTH; lia|].
  apply (store_in_place s i d); try done; [by apply bump_range|]. apply bumped_ok; [by apply (lk_ok _ (dv_links s Hs) i)|done|done].
Qed.

Lemma dev_release_ok s i drv : devices_ok s -> 0 <= i -> devices_ok (fst (release s i drv)).
Proof.
  intros Hs Hi. unfold release. destruct (get s i) as [d|] eqn:Hd; [|done]. destruct (_ || _); [done|]. cbn [fst].
  pose proof (proj1 (get_Some s i d Hs Hi) Hd) as [_ Ha]. apply (store_in_place s i d); try done; [by apply bump_range|].
  apply bumped_ok; [by apply (lk_ok _ (dv_links s Hs) i)|done|cbn; lia].
Qed.

(** [remove_device], when it succeeds. *)
Lemma remove_get s i d : devices_ok s -> 0 <= i -> get s i = Some d -> snd (remove_device s i) = Ok ->
  driver d = INVALID_DRIVER_ID /\ children d = [] /\ Z.land (capabilities d) CapabilityHotRemove ≠ 0 /\ table_ok (fst (remove_device s i)) /\
  (exists x, g_devices (fst (remove_device s i)) !! Z.to_nat i = Some x /\ generation x = generation d) /\
  Z.of_nat (g_active_count (fst (remove_device s i))) = countb active (g_devices (fst (remove_device s i))) /\
  forall j, 0 <= j -> get (fst (remove_device s i)) j = if decide (j = i) then None else orphan (parent d) i j <$> get s j.
Proof.
  intros Hs Hi Hd. unfold remove_device. rewrite Hd. destruct (Z.eqb_spec (driver d) INVALID_DRIVER_ID) as [E1|]; [|done]. cbn [negb orb].
  destruct (Nat.eqb_spec (length (children d)) 0) as [E2%length_zero_iff_nil|]; [|done]. cbn [negb]. destruct (Z.eqb_spec (Z.land (capabilities d) CapabilityHotRemove) 0) as [|E3]; [done|].
  intros _. split; [done|]. split; [done|]. split; [done|]. destruct (get_id s i d Hs Hi Hd) as (Hid & Hlt & Hg & _).
  pose proof (devices_table s Hs) as Ht. pose proof (proj1 (get_Some s i d Hs Hi) Hd) as [Hl Ha].
  set (s1 := if negb (parent d =? INVALID_DEVICE_ID) then _ else _).
  assert (table_ok s1 /\ g_count s1 = g_count s /\ g_active_count s1 = g_active_count s /\ countb active (g_devices s1) = countb active (g_devices s) /\
    g_devices s1 !! Z.to_nat i = Some d /\ forall j, 0 <= j -> j ≠ i -> get s1 j = orphan (parent d) i j <$> get s j) as (T1 & T2 & T3 & T4 & T5 & T6).
  { unfold s1. destruct (Z.eqb_spec (parent d) INVALID_DEVICE_ID) as [Ep|Ep]; cbn [negb].
    - split; [done|]. split; [done|]. split; [done|]. split; [done|]. split; [done|]. intros j Hj Hne. unfold orphan. destruct (get s j); [|done]. cbn. by rewrite decide_False by naive_solver.
    - destruct (lk_parents _ (dv_links s Hs) i d Hi Hd Ep) as (H0 & p & Hp & Hc). rewrite Hp. destruct (get_id s _ p Hs H0 Hp) as (Hpid & Hplt & Hpg & _).
      pose proof (proj1 (get_Some s _ p Hs H0) Hp) as [Hpl Hpa]. assert (parent d ≠ i) as Hpi.
      { intros E. rewrite E in Hp. assert (p = d) as -> by congruence. rewrite E2 in Hc. by apply elem_of_nil in Hc. }
      split; [apply store_table; [done|lia|done|done]|]. split; [done|]. split; [done|]. split.
      { cbn. rewrite (countb_insert _ _ _ p) by done. cbn. rewrite Hpa. lia. }
      split; [cbn; rewrite list_lookup_insert_ne by lia; done|]. intros j Hj Hne. rewrite get_store by (done || lia). unfold orphan.
      destruct (decide (j = parent d)) as [->|]; [rewrite Hp; cbn; rewrite Hpa, decide_True by done; done|].
      destruct (get s j); [|done]. cbn. by rewrite decide_False by naive_solver. }
  cbn [fst]. set (b := blank _ _ _ _). assert (table_ok (store s1 i b)) as Tb by (apply store_table; [done|lia|done|done]).
  split; [by constructor; apply Tb|]. split; [exists b; split; [cbn; apply list_lookup_insert_eq; rewrite (tb_length _ T1); pose proof (tb_count _ T1); lia|done]|]. split.
  - cbn. rewrite (countb_insert _ _ _ d) by done. rewrite Ha, T4, T3. cbn. pose proof (dv_active s Hs) as Hc. pose proof (countb_insert active _ _ d b Hl) as Hc2.
    rewrite Ha in Hc2. cbn in Hc2. pose proof (countb_nonneg active (<[Z.to_nat i := b]> (g_devices s))). lia.
  - intros j Hj. transitivity (get (store s1 i b) j); [reflexivity|]. rewrite get_store by (done || lia). destruct (decide (j = i)); [done|by apply T6].
Qed.

Lemma dev_remove_ok s i : devices_ok s -> 0 <= i -> devices_ok (fst (remove_device s i)).
Proof.
  intros Hs Hi. destruct (decide (snd (remove_device s i) = Ok)) as [E|E].
  - destruct (get s i) as [d|] eqn:Hd; [|by unfold remove_device in E; rewrite Hd in E]. destruct (remove_get s i d Hs Hi Hd E) as (_ & H2 & _ & H4 & _ & H5 & H6).
    apply devices_intro; [done|done|]. by apply (links_remove (get s) _ i d (dv_links s Hs)).
  - unfold remove_device in *. destruct (get s i) as [d|]; [|done]. by repeat (destruct (_ || _) || destruct (_ =? 0)).
Qed.

(** The slot of a new device was not in use, and there is one unless all are. *)
Lemma free_slot_spec s : devices_ok s -> match free_slot s with
  | None => countb active (g_devices s) = Z.of_nat MAXIMUM_DEVICES
  | Some (slot, count) => (slot < count)%nat /\ (g_count s <= count <= MAXIMUM_DEVICES)%nat /\
      (forall i d, g_devices s !! i = Some d -> (count <= i)%nat -> active d = false) /\ exists old, g_devices s !! slot = Some old /\ active old = false end.
Proof.
  intros Hs. pose proof (dv_length s Hs) as Hlen. pose proof (dv_count s Hs) as Hcount. unfold free_slot. destruct (find_index _ _) as [i|] eqn:E.
  - apply find_index_Some in E as [(d & Hd & Ha) _]. apply lookup_take_Some in Hd as [Hd Hi]. split; [done|]. split; [lia|]. split; [apply (dv_beyond s Hs)|].
    exists d. split; [done|]. by destruct (active d).
  - rewrite find_index_None in E. assert (forall i d, g_devices s !! i = Some d -> (i < g_count s)%nat -> active d = true) as Hall.
    { intros i d Hd Hi. specialize (E i d ltac:(by apply lookup_take_Some)). by destruct (active d). }
    destruct (Nat.leb_spec MAXIMUM_DEVICES (g_count s)).
    + rewrite <- Hlen. apply countb_true_all. intros d (i & Hi)%list_elem_of_lookup. apply (Hall i d Hi). apply lookup_lt_Some in Hi. lia.
    + split; [lia|]. split; [lia|]. split; [intros i d Hd Hi; apply (dv_beyond s Hs i d Hd); lia|].
      destruct (lookup_lt_is_Some_2 (g_devices s) (g_count s) ltac:(lia)) as [old Hold]. exists old. split; [done|]. apply (dv_beyond s Hs _ _ Hold). lia.
Qed.

Lemma get_none s i d : devices_ok s -> g_devices s !! i = Some d -> active d = false -> get s (Z.of_nat i) = None.
Proof. intros Hs Hd Ha. unfold get. rewrite Nat2Z.id, Hd, Ha. by destruct (_ <? _). Qed.

(** The last part of a registration, when there is a slot. *)
Lemma place_get s descriptor up slot count old : devices_ok s -> free_slot s = Some (slot, count) -> g_devices s !! slot = Some old ->
  match up with Some p => d_parent descriptor ≠ INVALID_DEVICE_ID /\ 0 <= d_parent descriptor /\ get s (d_parent descriptor) = Some p
           | None => d_parent descriptor = INVALID_DEVICE_ID end ->
  let v := new_device descriptor slot (generation old) in
  exists s', place s descriptor up = (s', Ok, Some (Z.of_nat slot)) /\ table_ok s' /\ g_initialized s' = g_initialized s /\ g_active_count s' = S (g_active_count s) /\
    Z.of_nat (g_active_count s') = countb active (g_devices s') /\
    (forall i, g_devices s' !! i = if decide (i = slot) then Some v else adopt (d_parent descriptor) (Z.of_nat slot) (Z.of_nat i) <$> g_devices s !! i) /\
    forall j, 0 <= j -> get s' j = if decide (j = Z.of_nat slot) then Some v else adopt (d_parent descriptor) (Z.of_nat slot) j <$> get s j.
Proof.
  intros Hs Hfree Hold Hup v. pose proof (free_slot_spec s Hs) as Hsp. rewrite Hfree in Hsp. destruct Hsp as (Hlt & Hc & Hbeyond & old' & Hold' & Hina). assert (old' = old) as -> by congruence.
  unfold place. rewrite Hfree, Hold. fold v. set (s0 := mkDevices (g_devices s) count (g_active_count s) (g_initialized s)). set (s1 := store s0 (Z.of_nat slot) v).
  destruct (devices_table s Hs) as [T1 T2 T3 T4]. assert (table_ok s0) as H0 by (constructor; [done|cbn; lia|done|done]). destruct (T3 slot old Hold) as [_ Hog].
  assert (table_ok s1) as H1 by (apply store_table; [done|cbn; lia|done|apply bump_range]).
  assert (forall j, 0 <= j -> get s0 j = get s j) as Hg0.
  { intros j Hj. unfold get. cbn. destruct (Z.ltb_spec j (Z.of_nat count)), (Z.ltb_spec j (Z.of_nat (g_count s))); try done; [|lia].
    destruct (g_devices s !! Z.to_nat j) as [x|] eqn:Hx; [|done]. by rewrite (T4 _ _ Hx) by lia. }
  assert (forall j, 0 <= j -> get s1 j = if decide (j = Z.of_nat slot) then Some v else get s j) as Hg1.
  { intros j Hj. unfold s1. rewrite get_store by (done || cbn; lia). cbn [active v new_device]. destruct (decide _); [done|by apply Hg0]. }
  assert (Z.of_nat (S (g_active_count s)) = countb active (g_devices s1)) as Hact.
  { cbn. rewrite Nat2Z.id, (countb_insert _ _ _ old) by done. rewrite Hina. cbn. pose proof (dv_active s Hs). lia. }
  assert (forall i, g_devices s1 !! i = if decide (i = slot) then Some v else g_devices s !! i) as Hl1.
  { intros i. cbn. rewrite Nat2Z.id. destruct (decide (i = slot)) as [->|]; [apply list_lookup_insert_eq; lia|by rewrite list_lookup_insert_ne]. }
  destruct up as [p|].
  - destruct Hup as (Hu & Hu0 & Hp). destruct (get_id s _ p Hs Hu0 Hp) as (Hpid & Hplt & Hpg & _). pose proof (proj1 (get_Some s _ p Hs Hu0) Hp) as [Hpl Hpa].
    assert (d_parent descriptor ≠ Z.of_nat slot) as Hne by (intros E; rewrite E, (get_none s slot old Hs Hold Hina) in Hp; done). rewrite Hpid. set (q := with_children p _).
    assert (table_ok (store s1 (d_parent descriptor) q)) as H2 by (apply store_table; [done|cbn; lia|done|done]).
    eexists. split; [reflexivity|]. split; [by constructor; apply H2|]. split; [done|]. split; [done|]. split; [|split].
    + transitivity (countb active (g_devices s1)); [exact Hact|].
      change (countb active (g_devices s1) = countb active (<[Z.to_nat (d_parent descriptor) := q]> (g_devices s1))).
      rewrite (countb_insert _ _ _ p); [cbn; rewrite Hpa; lia|]. rewrite Hl1, decide_False by lia. done.
    + intros i. change (<[Z.to_nat (d_parent descriptor) := q]> (g_devices s1) !! i = if decide (i = slot) then Some v else adopt (d_parent descriptor) (Z.of_nat slot) (Z.of_nat i) <$> g_devices s !! i).
      destruct (decide (i = slot)) as [->|Hi].
      * rewrite list_lookup_insert_ne by lia. rewrite Hl1. by rewrite decide_True.
      * destruct (decide (Z.of_nat i = d_parent descriptor)) as [E|E].
        -- assert (i = Z.to_nat (d_parent descriptor)) as -> by lia. rewrite list_lookup_insert_eq by (rewrite (tb_length _ H1); lia). rewrite Hpl. cbn. unfold adopt. by rewrite decide_True.
        -- rewrite list_lookup_insert_ne by lia. rewrite Hl1, decide_False by done. unfold adopt. destruct (g_devices s !! i); [|done]. cbn. by rewrite decide_False by naive_solver.
    + intros j Hj. transitivity (get (store s1 (d_parent descriptor) q) j); [reflexivity|]. rewrite get_store by (done || cbn; lia). rewrite Hg1 by done. unfold adopt.
      destruct (decide (j = d_parent descriptor)) as [->|E]; [rewrite (decide_False (P := _ = Z.of_nat slot)) by done; rewrite Hp; cbn; rewrite Hpa; by rewrite decide_True|].
      destruct (decide (j = _)); [done|]. destruct (get s j); [|done]. cbn. by rewrite decide_False by naive_solver.
  - assert (forall i x, adopt (d_parent descriptor) (Z.of_nat slot) i x = x) as Hno by (intros i x; unfold adopt; by rewrite decide_False by naive_solver).
    eexists. split; [reflexivity|]. split; [by constructor; apply H1|]. split; [done|]. split; [done|]. split; [done|]. split.
    + intros i. transitivity (g_devices s1 !! i); [reflexivity|]. rewrite Hl1. destruct (decide _); [done|]. destruct (g_devices s !! i); [|done]. cbn. by rewrite Hno.
    + intros j Hj. transitivity (get s1 j); [reflexivity|]. rewrite Hg1 by done. destruct (decide _); [done|]. destruct (get s j); [|done]. cbn. by rewrite Hno.
Qed.

(** The checks of a registration, in one. *)
Definition admissible (s : Devices) (descriptor : Descriptor) : Prop :=
  g_initialized s = true /\ (exists c text, d_name descriptor = Some (c :: text)) /\ (d_resource_count descriptor <= MAXIMUM_RESOURCES)%nat /\
  (d_resource_count descriptor = 0%nat \/ is_Some (d_resources descriptor)) /\
  (d_parent descriptor = INVALID_DEVICE_ID \/ exists p, get s (d_parent descriptor) = Some p /\ (length (children p) < MAXIMUM_CHILDREN)%nat) /\
  (d_bus descriptor = Pci -> find_pci s (a_bus (d_bus_address descriptor)) (a_slot (d_bus_address descriptor)) (a_function (d_bus_address descriptor)) = None).

(** A registration that is not admissible changes nothing and fails; one that is has
    its device placed. *)
Lemma register_cases s descriptor has_id : 
  (admissible s descriptor /\ has_id = true /\ exists up, register_device s descriptor has_id = place s descriptor up /\
    match up with Some p => d_parent descriptor ≠ INVALID_DEVICE_ID /\ get s (d_parent descriptor) = Some p | None => d_parent descriptor = INVALID_DEVICE_ID end) \/
  ((~ admissible s descriptor \/ has_id = false) /\ fst (fst (register_device s descriptor has_id)) = s /\ snd (fst (register_device s descriptor has_id)) ≠ Ok).
Proof.
  unfold register_device. destruct (g_initialized s) eqn:Ei; cbn [negb]; [|right; split; [left; by intros [? _]; congruence|done]].
  destruct has_id; cbn [negb orb]; [|right; split; [by right|done]].
  destruct (match d_name descriptor with None | Some [] => true | _ => false end) eqn:En; cbn [orb].
  { right. split; [|done]. left. intros (_ & (c & text & E) & _). by rewrite E in En. }
  destruct (Nat.ltb_spec MAXIMUM_RESOURCES (d_resource_count descriptor)) as [Hr|Hr]; cbn [orb].
  { right. split; [|done]. left. intros (_ & _ & H & _). lia. }
  destruct (negb (d_resource_count descriptor =? 0)%nat && negb (bool_decide (is_Some (d_resources descriptor)))) eqn:Ea.
  { right. split; [|done]. left. intros (_ & _ & _ & H & _). apply andb_true_iff in Ea as [E1 E2]. rewrite !negb_true_iff, Nat.eqb_neq, bool_decide_eq_false in *. naive_solver. }
  assert (d_resource_count descriptor = 0%nat \/ is_Some (d_resources descriptor)) as Hres.
  { apply andb_false_iff in Ea as [E1|E2]; rewrite negb_false_iff in *; [left; by apply Nat.eqb_eq|right; by apply bool_decide_eq_true in E2]. }
  assert (exists c text, d_name descriptor = Some (c :: text)) as Hname by (destruct (d_name descriptor) as [[|c text]|]; [done|by exists c, text|done]).
  set (occupied := _ && _). assert (occupied = true -> ~ admissible s descriptor) as Hocc.
  { unfold occupied. intros E (_ & _ & _ & _ & _ & H). apply andb_true_iff in E as [E1%bool_decide_eq_true E2]. rewrite (H E1) in E2. done. }
  assert (occupied = false -> d_bus descriptor = Pci -> find_pci s (a_bus (d_bus_address descriptor)) (a_slot (d_bus_address descriptor)) (a_function (d_bus_address descriptor)) = None) as Hfree.
  { unfold occupied. intros E Hb. apply andb_false_iff in E as [E|E]; [by apply bool_decide_eq_false in E|]. by destruct (find_pci _ _ _ _). }
  destruct (Z.eqb_spec (d_parent descriptor) INVALID_DEVICE_ID) as [Ep|Ep]; cbn [negb].
  - destruct occupied; [right; split; [left; by apply Hocc|done]|]. left. split; [|split; [done|by exists None]]. split_and!; try done; [by left|by apply Hfree].
  - destruct (get s (d_parent descriptor)) as [p|] eqn:Hp; [|right; split; [|done]; left; intros (_ & _ & _ & _ & [H|(p & H & _)] & _); congruence].
    destruct (Nat.leb_spec MAXIMUM_CHILDREN (length (children p))) as [Hl|Hl].
    { right. split; [|done]. left. intros (_ & _ & _ & _ & [H|(p' & H & H2)] & _); [done|]. assert (p' = p) as -> by congruence. lia. }
    destruct occupied; [right; split; [left; by apply Hocc|done]|]. left. split; [|split; [done|by exists (Some p)]]. split_and!; try done; [right; by exists p|by apply Hfree].
Qed.

Lemma find_pci_None s b sl f : devices_ok s -> find_pci s b sl f = None -> forall j d, 0 <= j -> get s j = Some d -> at_pci b sl f d = false.
Proof.
  intros Hs E j d Hj Hd. pose proof (proj1 (get_Some s j d Hs Hj) Hd) as [Hl _]. destruct (get_id s j d Hs Hj Hd) as (_ & Hlt & _). unfold find_pci in E.
  destruct (find_index _ _) as [i|] eqn:Ei.
  - apply find_index_Some in Ei as [(x & Hx & _) _]. apply lookup_take_Some in Hx as [Hx _]. cbn in E. congruence.
  - rewrite find_index_None in Ei. apply (Ei (Z.to_nat j) d). apply lookup_take_Some. split; [done|lia].
Qed.

Lemma new_device_ok s descriptor slot g : admissible s descriptor -> device_ok (new_device descriptor slot g).
Proof.
  intros (_ & (c & text & E) & Hr & _). destruct (copied_text MAXIMUM_NAME_LENGTH c text) as [C1 C2]; [unfold MAXIMUM_NAME_LENGTH; lia|].
  constructor; cbn [generation name driver driver_name resources children new_device].
  - apply bump_range.
  - rewrite E. done.
  - split; [done|]. cbn. lia.
  - unfold given_resources. rewrite length_take. lia.
  - split; [by constructor|]. cbn. lia.
  - by exists descriptor.
Qed.

Lemma register_ok s descriptor has_id : devices_ok s -> 0 <= d_parent descriptor -> devices_ok (fst (fst (register_device s descriptor has_id))).
Proof.
  intros Hs Hp. destruct (register_cases s descriptor has_id) as [(Hadm & _ & up & -> & Hup)|(_ & -> & _)]; [|done].
  destruct (free_slot s) as [[slot count]|] eqn:Ef; [|unfold place; by rewrite Ef]. pose proof (free_slot_spec s Hs) as Hsp. rewrite Ef in Hsp. destruct Hsp as (Hlt & Hc & _ & old & Hold & Hina).
  destruct (place_get s descriptor up slot count old Hs Ef Hold) as (s' & -> & Ht & _ & _ & Hact & _ & Hget); [destruct up; naive_solver|].
  apply devices_intro; [done|done|]. assert (INVALID_DEVICE_ID = 4294967295) as HI by done. unfold MAXIMUM_DEVICES in Hc.
  refine (links_add (get s) _ (Z.of_nat slot) (new_device descriptor slot (generation old)) (dv_links s Hs) _ _ _ _ _ _ _ Hget); [lia|lia|by apply (get_none s slot old)|done|by apply (new_device_ok s)| |].
  - cbn [parent new_device]. intros Hne. split; [done|]. destruct Hadm as (_ & _ & _ & _ & [H|H] & _); done.
  - cbn [bus bus_address new_device]. intros Hb j d Hj Hd Hbd E1 E2 E3. destruct Hadm as (_ & _ & _ & _ & _ & Hfree).
    pose proof (find_pci_None s _ _ _ Hs (Hfree Hb) j d Hj Hd) as Hno. pose proof (proj1 (get_Some s j d Hs Hj) Hd) as [_ Ha]. unfold at_pci in Hno.
    rewrite Ha, bool_decide_eq_true_2, E1, E2, E3, !Z.eqb_refl in Hno by done. done.
Qed.

(** From any table of words, such as the zeroed one. *)
Lemma dev_initialize_ok s : length (g_devices s) = MAXIMUM_DEVICES -> (forall i d, g_devices s !! i = Some d -> is_u32 (generation d)) -> devices_ok (initialize s).
Proof.
  intros Hl Hg. assert (forall i d, g_devices (initialize s) !! i = Some d -> active d = false /\ id d = Z.of_nat i /\ is_u32 (generation d)) as Hb.
  { intros i d Hd. cbn in Hd. rewrite list_lookup_imap in Hd. destruct (g_devices s !! i) as [x|] eqn:Hx; [|done]. injection Hd as <-. cbn. split; [done|]. split; [done|]. by apply (Hg i). }
  assert (forall i, get (initialize s) i = None \/ i < 0) as Hnone by (intros i; unfold get; cbn [g_count initialize]; destruct (Z.ltb_spec i (Z.of_nat 0)); [right; lia|by left]).
  apply devices_intro.
  - constructor; [cbn; by rewrite length_imap|cbn; lia|intros i d Hd; by apply Hb|intros i d Hd _; by apply (Hb i)].
  - transitivity 0; [done|]. symmetry. assert (forall l : list Device, (forall i d, l !! i = Some d -> active d = false) -> countb active l = 0) as Hcount.
    { induction l as [|x l IH]; intros H; [done|]. cbn. rewrite (H 0%nat x eq_refl), IH; [done|]. intros i. apply (H (S i)). }
    apply Hcount. intros i d Hd. by apply (Hb i).
  - constructor; try (intros i d; destruct (Hnone i) as [E|]; [rewrite E; done|lia]).
    + exists (fun _ => 0%nat). intros i e Hi He. destruct (Hnone i) as [E|]; [congruence|lia].
Qed.

(** ** Runs *)

Inductive op :=
  | OInitialize
  | ORegister (descriptor : Descriptor) (has_id : bool)
  | ORemove (index : Z)
  | OStatus (index : Z) (st : Status)
  | OClaim (index drv : Z) (drv_name : option (list Z))
  | ORelease (index drv : Z).

Definition perform (s : Devices) (o : op) : Devices * KStatus :=
  match o with
  | OInitialize => (initialize s, Ok)
  | ORegister descriptor has_id => fst (register_device s descriptor has_id)
  | ORemove index => remove_device s index
  | OStatus index st => set_status s index st
  | OClaim index drv drv_name => claim s index drv drv_name
  | ORelease index drv => release s index drv
  end.

Definition step (s : Devices) (o : op) : Devices := fst (perform s o).
Definition run (s : Devices) (ops : list op) : Devices := foldl step s ops.

(** Ids are unsigned. *)
Definition op_ok (o : op) : Prop :=
  match o with
  | OInitialize => True
  | ORegister descriptor _ => 0 <= d_parent descriptor
  | ORemove index | OStatus index _ | OClaim index _ _ | ORelease index _ => 0 <= index
  end.

Lemma dev_step_ok s o : devices_ok s -> op_ok o -> devices_ok (step s o).
Proof.
  intros Hs Ho. destruct o; cbn in Ho; unfold step; cbn [perform].
  - apply dev_initialize_ok; [apply Hs|]. intros i d Hd. by apply (dv_slots s Hs i).
  - by apply register_ok.
  - by apply dev_remove_ok.
  - by apply set_status_ok.
  - by apply claim_ok.
  - by apply dev_release_ok.
Qed.

Lemma dev_run_ok ops : forall s, devices_ok s -> Forall op_ok ops -> devices_ok (run s ops).
Proof.
  induction ops as [|o ops IH]; intros s Hs Hops; [done|]. apply Forall_cons in Hops as [Ho Hops]. apply (IH (step s o)); [by apply dev_step_ok|done].
Qed.

Lemma zeroed_words : length (g_devices zeroed) = MAXIMUM_DEVICES /\ forall i d, g_devices zeroed !! i = Some d -> is_u32 (generation d).
Proof. split; [apply length_replicate|]. intros i d [-> _]%lookup_replicate. done. Qed.

Lemma initial_ok : devices_ok (initialize zeroed).
Proof. apply dev_initialize_ok; apply zeroed_words. Qed.

(** C27: Under any sequence of calls the table is consistent: devices in use form a
    forest whose links agree in both directions, no two share a PCI address, the
    count of devices is exact, and every device has a name, a valid handle
    generation, an owner exactly when it has an owner's name, and the capabilities of
    its registration. *)
Theorem devices_invariant ops : Forall op_ok ops -> devices_ok (run (initialize zeroed) ops).
Proof. intros H. apply dev_run_ok; [exact initial_ok|done]. Qed.

(** A registration succeeds exactly when it is admissible and there is room; it then
    makes one device, where none was, and adds it to its parent's children; otherwise
    it changes nothing. *)
Theorem register_device_ok s descriptor : devices_ok s -> 0 <= d_parent descriptor ->
  let '(s', st, out) := register_device s descriptor true in
  (st = Ok <-> admissible s descriptor /\ (g_active_count s < MAXIMUM_DEVICES)%nat) /\ (st ≠ Ok -> s' = s) /\
  (st = Ok -> exists i g, out = Some i /\ 0 <= i < Z.of_nat MAXIMUM_DEVICES /\ get s i = None /\ g_active_count s' = S (g_active_count s) /\
     get s' i = Some (new_device descriptor (Z.to_nat i) g) /\
     forall j, 0 <= j -> j ≠ i -> get s' j = adopt (d_parent descriptor) i j <$> get s j).
Proof.
  intros Hs Hp. pose proof (register_cases s descriptor true) as Hcases. destruct (register_device s descriptor true) as [[s' st] out] eqn:E. cbn [fst snd] in Hcases.
  destruct Hcases as [(Hadm & _ & up & Epl & Hup)|([Hadm|] & -> & Hne)]; [|split; [|done]; split; [done|by intros [? _]]|done].
  pose proof (free_slot_spec s Hs) as Hsp. pose proof (dv_active s Hs) as Hact. destruct (free_slot s) as [[slot count]|] eqn:Ef.
  - destruct Hsp as (Hlt & Hc & _ & old & Hold & Hina). destruct (place_get s descriptor up slot count old Hs Ef Hold) as (s2 & E2 & _ & _ & Hn & _ & _ & Hget); [destruct up; naive_solver|].
    rewrite E2 in Epl. injection Epl as -> -> ->. split; [|split; [done|]].
    + split; [|done]. intros _. split; [done|]. assert (countb active (g_devices s) ≠ Z.of_nat MAXIMUM_DEVICES) as Hne.
      { rewrite <- (dv_length s Hs). intros Hall. rewrite countb_true_all in Hall. rewrite (Hall old) in Hina; [done|]. apply list_elem_of_lookup. by exists slot. }
      pose proof (countb_le_length active (g_devices s)) as Hle. rewrite (dv_length s Hs) in Hle. lia.
    + intros _. exists (Z.of_nat slot), (generation old). split; [done|]. split; [lia|]. split; [by apply (get_none s slot old)|]. split; [done|]. rewrite Nat2Z.id. split.
      * rewrite Hget by lia. by rewrite decide_True.
      * intros j Hj Hne. rewrite Hget by done. by rewrite decide_False.
  - unfold place in Epl. rewrite Ef in Epl. injection Epl as -> -> ->. split; [|done]. split; [done|]. intros [_ H]. lia.
Qed.

(** ** Handles *)

Lemma encode_value i g : 0 <= i < Z.of_nat MAXIMUM_DEVICES -> is_u32 g -> g ≠ 0 -> encode_handle i g = g * 2 ^ 32 + (i + 1).
Proof.
  intros Hi Hg Hne. unfold MAXIMUM_DEVICES in Hi. unfold encode_handle, is_u32 in *. destruct (Z.eqb_spec i INVALID_DEVICE_ID) as [E|]; [rewrite E in Hi; unfold INVALID_DEVICE_ID, UINT32_MAX in Hi; lia|].
  destruct (Z.eqb_spec g 0); [done|]. cbn [orb]. apply lor_shift_add; lia.
Qed.

Lemma decode_encode i g : 0 <= i < Z.of_nat MAXIMUM_DEVICES -> is_u32 g -> g ≠ 0 -> decode_handle (encode_handle i g) = Some (i, g).
Proof.
  intros Hi Hg Hne. rewrite encode_value by done. unfold MAXIMUM_DEVICES in *. unfold decode_handle, is_u32 in *. cbv zeta.
  assert (Z.land (g * 2 ^ 32 + (i + 1)) 0xffffffff = i + 1) as -> by (change 0xffffffff with (2 ^ 32 - 1); rewrite land_low by lia; zdm).
  assert (u32 (Z.shiftr (g * 2 ^ 32 + (i + 1)) 32) = g) as -> by (rewrite Z.shiftr_div_pow2 by lia; unfold u32; zdm).
  destruct (Z.eqb_spec (g * 2 ^ 32 + (i + 1)) INVALID_DEVICE_HANDLE) as [E|]; [unfold INVALID_DEVICE_HANDLE in E; lia|].
  replace (Z.of_nat MAXIMUM_DEVICES <? i + 1) with false by (unfold MAXIMUM_DEVICES; lia). destruct (Z.eqb_spec (i + 1) 0); [lia|].
  destruct (Z.eqb_spec g 0); [done|]. cbn [orb]. replace (i + 1 - 1) with i by lia. by rewrite u32_small by (unfold is_u32; lia).
Qed.

Lemma dev_decode_Some h i g : is_u64 h -> decode_handle h = Some (i, g) -> 0 <= i < Z.of_nat MAXIMUM_DEVICES /\ is_u32 g /\ g ≠ 0 /\ h = encode_handle i g.
Proof.
  unfold decode_handle. cbv zeta. intros Hh. destruct (_ =? INVALID_DEVICE_HANDLE); [done|]. destruct (_ || _) eqn:E; [done|]. intros [= <- <-].
  change 0xffffffff with (2 ^ 32 - 1) in *. rewrite land_low in * by lia. unfold is_u64 in Hh. rewrite Z.shiftr_div_pow2 in * by lia.
  assert (u32 (h / 2 ^ 32) = h / 2 ^ 32) as Eg by (apply u32_small; unfold is_u32; zdm). rewrite Eg in *. unfold MAXIMUM_DEVICES in *.
  apply orb_false_iff in E as [[E1 E2]%orb_false_iff E3]. pose proof (Z.mod_pos_bound h (2 ^ 32) ltac:(lia)) as Hm.
  assert (u32 (h mod 2 ^ 32 - 1) = h mod 2 ^ 32 - 1) as -> by (apply u32_small; unfold is_u32; lia).
  assert (is_u32 (h / 2 ^ 32)) by (unfold is_u32; zdm). split; [lia|]. split; [done|]. split; [lia|]. rewrite encode_value by first [done|lia|unfold MAXIMUM_DEVICES; lia]. zdm.
Qed.

Lemma resolve_Some s h d : resolve s h = Some d <-> exists i g, decode_handle h = Some (i, g) /\ get s i = Some d /\ generation d = g.
Proof.
  unfold resolve, resolve_checked. destruct (decode_handle h) as [[i g]|]; [|split; [done|naive_solver]].
  destruct (get s i) as [x|] eqn:Ex; [|split; [done|naive_solver]]. destruct (Z.eqb_spec (generation x) g); cbn [negb]; case_bool_decide; naive_solver.
Qed.

(** A handle resolves to a device exactly when it is the handle that [handle_for]
    gives for the device now. *)
Theorem device_handle_resolves s h d : devices_ok s -> is_u64 h ->
  resolve s h = Some d <-> exists i, 0 <= i /\ get s i = Some d /\ h = handle_for s i.
Proof.
  intros Hs Hh. rewrite resolve_Some. split.
  - intros (i & g & Hd & Hg & E). destruct (dev_decode_Some h i g Hh Hd) as (Hi & Hu & Hne & ->). exists i. split; [lia|]. split; [done|].
    unfold handle_for. rewrite Hg. destruct (get_id s i d Hs ltac:(lia) Hg) as (-> & _). by rewrite E.
  - intros (i & Hi & Hg & ->). destruct (get_id s i d Hs Hi Hg) as (Hid & Hlt & Hu & Hne). exists i, (generation d). split; [|done].
    unfold handle_for. rewrite Hg, Hid. apply decode_encode; [|done|done]. pose proof (dv_count s Hs). lia.
Qed.

(** The generation of a slot. *)
Definition slot_generation (s : Devices) (i : nat) : Z := match g_devices s !! i with Some d => generation d | None => 0 end.

Lemma slot_generation_store s j d i : (i < length (g_devices s))%nat -> slot_generation (store s j d) i = if decide (i = Z.to_nat j) then generation d else slot_generation s i.
Proof.
  intros Hi. unfold slot_generation, store. cbn [g_devices]. destruct (decide _) as [->|]; [by rewrite list_lookup_insert_eq|by rewrite list_lookup_insert_ne].
Qed.

(** What a call does to the generation of a slot: it stays, and then the slot is not
    taken if it was free, or it is the next one. *)
Definition generation_step (s s' : Devices) (i : nat) : Prop :=
  slot_generation s' i = slot_generation s i /\ (get s (Z.of_nat i) = None -> get s' (Z.of_nat i) = None) \/
  slot_generation s' i = bump (slot_generation s i).

Lemma generation_step_refl s i : generation_step s s i.
Proof. by left. Qed.

(** A call that stores a device in use. *)
Lemma generation_store s j d d' i : devices_ok s -> 0 <= j -> get s j = Some d -> (generation d' = generation d \/ generation d' = bump (generation d)) ->
  (i < MAXIMUM_DEVICES)%nat -> generation_step s (store s j d') i.
Proof.
  intros Hs Hj Hd Hg Hi. pose proof (dv_length s Hs) as Hl. destruct (get_id s j d Hs Hj Hd) as (_ & Hlt & _). pose proof (proj1 (get_Some s j d Hs Hj) Hd) as [Hld _].
  unfold generation_step. rewrite slot_generation_store by lia. destruct (decide (i = Z.to_nat j)) as [->|Hne].
  - assert (slot_generation s (Z.to_nat j) = generation d) as -> by (unfold slot_generation; by rewrite Hld). rewrite Z2Nat.id by done.
    destruct Hg as [->| ->]; [left; split; [done|congruence]|by right].
  - left. split; [done|]. rewrite get_store by first [lia|by apply devices_table]. by rewrite decide_False by lia.
Qed.

Lemma remove_generation s j i : devices_ok s -> 0 <= j -> (i < MAXIMUM_DEVICES)%nat -> generation_step s (fst (remove_device s j)) i.
Proof.
  intros Hs Hj Hi. destruct (decide (snd (remove_device s j) = Ok)) as [E|E].
  - destruct (get s j) as [d|] eqn:Hd; [|by unfold remove_device in E; rewrite Hd in E]. destruct (remove_get s j d Hs Hj Hd E) as (_ & _ & _ & _ & _ & _ & Hget).
    left. split; [|intros Hn; rewrite Hget, Hn by lia; by destruct (decide _)]. pose proof (dv_length s Hs) as Hl. pose proof (proj1 (get_Some s j d Hs Hj) Hd) as [Hld _].
    unfold remove_device in *. rewrite Hd in *. destruct (_ || _); [done|]. destruct (_ =? 0); [done|]. cbn [fst].
    match goal with |- slot_generation (mkDevices (g_devices (store ?x j ?b)) _ _ _) i = _ => set (s1 := x); change (slot_generation (store s1 j b) i = slot_generation s i) end.
    assert (length (g_devices s1) = length (g_devices s) /\ slot_generation s1 i = slot_generation s i) as [L1 G1].
    { unfold s1. destruct (Z.eqb_spec (parent d) INVALID_DEVICE_ID) as [|Ep]; cbn [negb]; [done|]. destruct (lk_parents _ (dv_links s Hs) j d Hj Hd Ep) as (H0 & p & Hp & _). rewrite Hp.
      split; [cbn; apply length_insert|]. rewrite slot_generation_store by lia. destruct (decide _) as [->|]; [|done]. pose proof (proj1 (get_Some s _ p Hs H0) Hp) as [Hpl _].
      unfold slot_generation. by rewrite Hpl. }
    rewrite slot_generation_store by lia. destruct (decide _) as [->|]; [|done]. unfold slot_generation. by rewrite Hld.
  - unfold remove_device in *. destruct (get s j) as [d|]; [|apply generation_step_refl]. destruct (_ || _); [apply generation_step_refl|]. destruct (_ =? 0); [apply generation_step_refl|done].
Qed.

Lemma step_generation s o i : devices_ok s -> op_ok o -> (i < MAXIMUM_DEVICES)%nat -> generation_step s (step s o) i.
Proof.
  intros Hs Ho Hi. destruct o as [|descriptor has_id|j|j st|j drv txt|j drv]; cbn in Ho; unfold step; cbn [perform].
  - left. split; [|intros _; unfold get; cbn [fst initialize g_count]; destruct (Z.ltb_spec (Z.of_nat i) (Z.of_nat 0)); [lia|done]].
    unfold slot_generation. cbn. rewrite list_lookup_imap. by destruct (g_devices s !! i).
  - destruct (register_cases s descriptor has_id) as [(_ & _ & up & -> & Hup)|(_ & -> & _)]; [|apply generation_step_refl]. pose proof (free_slot_spec s Hs) as Hsp.
    destruct (free_slot s) as [[slot count]|] eqn:Ef; [|unfold place; rewrite Ef; apply generation_step_refl]. destruct Hsp as (_ & _ & _ & old & Hold & _).
    destruct (place_get s descriptor up slot count old Hs Ef Hold) as (s' & -> & _ & _ & _ & _ & Hl & Hget); [destruct up; naive_solver|]. cbn [fst].
    unfold generation_step, slot_generation. rewrite Hl. destruct (decide (i = slot)) as [->|Hne]; [right; by rewrite Hold|]. left. split.
    + destruct (g_devices s !! i); [|done]. cbn. unfold adopt. by destruct (decide _).
    + intros Hn. rewrite Hget, Hn by lia. by rewrite decide_False by lia.
  - by apply remove_generation.
  - unfold set_status. destruct (get s j) as [d|] eqn:Hd; [|apply generation_step_refl]. cbn [fst]. destruct (negb _); [|apply generation_step_refl].
    apply (generation_store s j d); try done. by left.
  - unfold claim. destruct (get s j) as [d|] eqn:Hd; [|apply generation_step_refl]. destruct (_ || _); [apply generation_step_refl|]. destruct (negb _); [apply generation_step_refl|].
    apply (generation_store s j d); try done. by right.
  - unfold release. destruct (get s j) as [d|] eqn:Hd; [|apply generation_step_refl]. destruct (_ || _); [apply generation_step_refl|].
    apply (generation_store s j d); try done. by right.
Qed.

(** Slot [i] is [k] generations past [g], and without a device if there was none. *)
Definition past (s : Devices) (i : nat) (g k : Z) : Prop :=
  0 <= k /\ slot_generation s i = 1 + (g - 1 + k) mod (2 ^ 32 - 1) /\ (k = 0 -> get s (Z.of_nat i) = None).

Lemma past_step s o i g k : devices_ok s -> op_ok o -> (i < MAXIMUM_DEVICES)%nat -> 1 <= g < 2 ^ 32 -> past s i g k ->
  exists k', k <= k' <= k + 1 /\ past (step s o) i g k'.
Proof.
  intros Hs Ho Hi Hg (Hk & Eg & Hn). destruct (step_generation s o i Hs Ho Hi) as [[E1 E2]|E].
  - exists k. split; [lia|]. split; [done|]. split; [congruence|]. intros E. by apply E2, Hn.
  - exists (k + 1). split; [lia|]. split; [lia|]. split; [|lia]. rewrite E, Eg. by apply bump_cycle.
Qed.

Lemma past_run ops : forall s i g k, devices_ok s -> Forall op_ok ops -> (i < MAXIMUM_DEVICES)%nat -> 1 <= g < 2 ^ 32 -> past s i g k ->
  exists k', k <= k' <= k + Z.of_nat (length ops) /\ past (run s ops) i g k'.
Proof.
  induction ops as [|o ops IH]; intros s i g k Hs Hops Hi Hg Hp; [exists k; split; [cbn; lia|done]|]. apply Forall_cons in Hops as [Ho Hops].
  destruct (past_step s o i g k Hs Ho Hi Hg Hp) as (k1 & H1 & Hp1). destruct (IH (step s o) i g k1 (dev_step_ok s o Hs Ho) Hops Hi Hg Hp1) as (k2 & H2 & Hp2).
  exists k2. split; [cbn [length]; lia|done].
Qed.

(** A call that takes device [i] away or changes its owner. *)
Definition ends (o : op) (i : Z) : Prop :=
  match o with OInitialize => True | ORemove j | OClaim j _ _ | ORelease j _ => j = i | ORegister _ _ | OStatus _ _ => False end.

Lemma ends_past s o i d : devices_ok s -> op_ok o -> 0 <= i -> get s i = Some d -> ends o i -> snd (perform s o) = Ok ->
  exists k, 0 <= k <= 1 /\ past (step s o) (Z.to_nat i) (generation d) k.
Proof.
  intros Hs Ho Hi Hd He Hok. destruct (get_id s i d Hs Hi Hd) as (_ & Hlt & Hu & Hne). pose proof (proj1 (get_Some s i d Hs Hi) Hd) as [Hl _]. unfold is_u32 in Hu. pose proof (dv_count s Hs) as Hc.
  assert (slot_generation s (Z.to_nat i) = generation d) as Eg by (unfold slot_generation; by rewrite Hl).
  assert (forall s', slot_generation s' (Z.to_nat i) = bump (generation d) -> past s' (Z.to_nat i) (generation d) 1) as Hnext.
  { intros s' E. split; [lia|]. split; [|lia]. rewrite E. pose proof (bump_cycle (generation d) 0 ltac:(lia) ltac:(lia)) as B. rewrite !Z.add_0_r, Z.mod_small, Z.add_0_l in B by lia. replace (1 + (generation d - 1)) with (generation d) in B by lia. exact B. }
  assert (forall s', slot_generation s' (Z.to_nat i) = generation d -> get s' i = None -> past s' (Z.to_nat i) (generation d) 0) as Hgone.
  { intros s' E En. split; [lia|]. rewrite E, Z.add_0_r, Z.mod_small by lia. split; [lia|]. intros _. by rewrite Z2Nat.id. }
  assert (forall d', slot_generation (store s i d') (Z.to_nat i) = generation d') as Hst.
  { intros d'. rewrite slot_generation_store by (rewrite (dv_length s Hs); lia). by rewrite decide_True. }
  destruct o as [|descriptor has_id|j|j st|j drv txt|j drv]; cbn in Ho, He; try done; try subst j; unfold step; cbn [perform] in *.
  - exists 0. split; [lia|]. apply Hgone; [|unfold get; cbn [fst initialize g_count]; destruct (Z.ltb_spec i (Z.of_nat 0)); [lia|done]].
    rewrite <- Eg. unfold slot_generation. cbn. rewrite list_lookup_imap. by rewrite Hl.
  - exists 0. split; [lia|]. destruct (remove_get s i d Hs Hi Hd Hok) as (_ & _ & _ & _ & (x & Hx & Ex) & _ & Hget). apply Hgone; [unfold slot_generation; by rewrite Hx|].
    rewrite Hget by done. by rewrite decide_True.
  - exists 1. split; [lia|]. apply Hnext. unfold claim in *. rewrite Hd in *. destruct (_ || _); [done|]. destruct (negb _); [by destruct (_ && _)|]. apply Hst.
  - exists 1. split; [lia|]. apply Hnext. unfold release in *. rewrite Hd in *. destruct (_ || _); [done|]. apply Hst.
Qed.

(** Once its device is removed, claimed or released, or the table initialized, a handle
    resolves no more, whatever the following 2^32 - 3 calls are. *)
Theorem device_handle_stale s o ops h d : devices_ok s -> is_u64 h -> resolve s h = Some d -> op_ok o -> ends o (id d) -> snd (perform s o) = Ok ->
  Forall op_ok ops -> Z.of_nat (length ops) < 2 ^ 32 - 2 -> resolve (run (step s o) ops) h = None.
Proof.
  intros Hs Hh Hr Ho He Hok Hops Hlen. apply resolve_Some in Hr as (i & g & Hd & Hg & <-). destruct (dev_decode_Some h i _ Hh Hd) as (Hi & Hu & Hne & _). unfold is_u32 in Hu.
  destruct (get_id s i d Hs ltac:(lia) Hg) as (Hid & _). rewrite Hid in He. destruct (ends_past s o i d Hs Ho ltac:(lia) Hg He Hok) as (k & Hk & Hp).
  pose proof (dev_step_ok s o Hs Ho) as Hs1. assert (Z.to_nat i < MAXIMUM_DEVICES)%nat as Hi2 by lia. assert (1 <= generation d < 2 ^ 32) as Hgd by lia.
  destruct (past_run ops _ _ _ k Hs1 Hops Hi2 Hgd Hp) as (k' & Hk' & _ & Eg & Hnone).
  pose proof (dev_run_ok ops _ Hs1 Hops) as Hs2. set (s2 := run (step s o) ops) in *. rewrite Z2Nat.id in Hnone by lia.
  destruct (resolve s2 h) as [x|] eqn:Ex; [exfalso|done]. apply resolve_Some in Ex as (i' & g' & Hd' & Hx & Egx). rewrite Hd in Hd'. injection Hd' as <- <-.
  pose proof (proj1 (get_Some s2 i x Hs2 ltac:(lia)) Hx) as [Hlx _]. unfold slot_generation in Eg. rewrite Hlx, Egx in Eg.
  assert (k' = 0) as E0; [|by rewrite Hnone in Hx]. change (2 ^ 32) with 4294967296 in *. clear - Eg Hu Hne Hk Hk' Hlen.
  set (M := 4294967296 - 1) in *. assert (M = 4294967295) as HM by done. clearbody M. zdm.
Qed.

(** ** Capabilities *)

Lemma foldl_capabilities rs n : forall c, Z.testbit (foldl (fun c r => Z.lor c (resource_capability (r_type r))) c rs) n =
  Z.testbit c n || existsb (fun r => Z.testbit (resource_capability (r_type r)) n) rs.
Proof. induction rs as [|r rs IH]; intros c; cbn [foldl existsb]; [by rewrite orb_false_r|]. by rewrite IH, Z.lor_spec, orb_assoc. Qed.

Definition capability_bit (t : ResourceType) : Z := match t with IoPort => 0 | Mmio => 1 | Irq => 2 | Dma => 3 end.

Lemma derive_resource_bit descriptor t : Z.testbit (derive_capabilities descriptor) (capability_bit t) = existsb (fun r => bool_decide (r_type r = t)) (given_resources descriptor).
Proof.
  unfold derive_capabilities. cbv zeta. set (c := foldl _ _ _).
  assert (Z.testbit c (capability_bit t) = existsb (fun r => bool_decide (r_type r = t)) (given_resources descriptor)) as <-.
  { unfold c. rewrite foldl_capabilities. replace (Z.testbit CapabilityDriverBinding (capability_bit t)) with false by (by destruct t). cbn [orb].
    induction (given_resources descriptor) as [|r rs IH]; [done|]. cbn [existsb]. rewrite IH. f_equal. by destruct (r_type r), t. }
  destruct (d_bus descriptor), (d_type descriptor); rewrite ?Z.lor_spec; destruct t; cbn [capability_bit]; by rewrite ?orb_false_r.
Qed.

Lemma derive_hot_bit descriptor : Z.testbit (derive_capabilities descriptor) 5 = bool_decide (d_bus descriptor = Usb \/ d_bus descriptor = Virtual).
Proof.
  unfold derive_capabilities. cbv zeta. set (c := foldl _ _ _). assert (Z.testbit c 5 = false) as Hc.
  { unfold c. rewrite foldl_capabilities. change (Z.testbit CapabilityDriverBinding 5) with false. cbn [orb].
    induction (given_resources descriptor) as [|r rs IH]; [done|]. cbn [existsb]. rewrite IH. by destruct (r_type r). }
  destruct (d_bus descriptor), (d_type descriptor); rewrite ?Z.lor_spec, ?Hc; done.
Qed.

Lemma land_bit c n : 0 <= n -> (Z.land c (Z.shiftl 1 n) =? Z.shiftl 1 n) = Z.testbit c n.
Proof.
  intros Hn. pose proof (testbit_land_pow2 c n Hn) as H. rewrite Z.shiftl_1_l in *. assert (Z.land c (2 ^ n) = if Z.testbit c n then 2 ^ n else 0) as ->.
  { apply Z.bits_inj'. intros k Hk. rewrite Z.land_spec, Z.pow2_bits_eqb by lia. destruct (Z.eqb_spec n k) as [->|Hne].
    - rewrite andb_true_r. destruct (Z.testbit c k); [by rewrite Z.pow2_bits_true|by rewrite Z.bits_0].
    - rewrite andb_false_r. destruct (Z.testbit c n); [by rewrite Z.pow2_bits_false|by rewrite Z.bits_0]. }
  destruct (Z.testbit c n); [apply Z.eqb_refl|]. apply Z.eqb_neq. pose proof (Z.pow_pos_nonneg 2 n ltac:(lia) Hn). lia.
Qed.

(** A device has the capability of a kind of resource exactly when it was registered
    with one, and may be removed while running exactly on the USB and virtual buses. *)
Theorem device_capabilities s i d t : devices_ok s -> 0 <= i -> get s i = Some d ->
  (has_capability s (handle_for s i) (resource_capability t) = true <-> exists r, r ∈ resources d /\ r_type r = t) /\
  (has_capability s (handle_for s i) CapabilityHotRemove = true <-> bus d = Usb \/ bus d = Virtual).
Proof.
  intros Hs Hi Hd. destruct (get_id s i d Hs Hi Hd) as (Hid & Hlt & Hu & Hne). pose proof (dv_count s Hs) as Hc.
  assert (resolve s (handle_for s i) = Some d) as Hr.
  { apply resolve_Some. exists i, (generation d). split; [|done]. unfold handle_for. rewrite Hd, Hid. apply decode_encode; [lia|done|done]. }
  destruct (do_capabilities d (lk_ok _ (dv_links s Hs) i d Hi Hd)) as (descriptor & Ec & _ & Eb & Er). unfold has_capability. rewrite Hr, Ec. split.
  - replace (resource_capability t =? CapabilityNone) with false by (by destruct t).
    replace (resource_capability t) with (Z.shiftl 1 (capability_bit t)) by (by destruct t). rewrite land_bit by (destruct t; cbn; lia).
    rewrite derive_resource_bit, Er, existsb_exists. split; intros (r & H1 & H2); exists r; (split; [by apply list_elem_of_In|by apply bool_decide_eq_true in H2 || by apply bool_decide_eq_true_2]).
  - change (CapabilityHotRemove =? CapabilityNone) with false. unfold CapabilityHotRemove. rewrite land_bit by lia. rewrite derive_hot_bit, Eb. apply bool_decide_eq_true.
Qed.

(** ** Witnesses *)

Definition example_bus : Descriptor :=
  mkDescriptor Bridge Virtual (Some [98; 117; 115]) 0 0 0 0 0 (mkAddress 0 0 0 0) INVALID_DEVICE_ID None 0 Optional.
Definition example_disk (up : Z) : Descriptor :=
  mkDescriptor StorageController Usb (Some [100; 105; 115; 107]) 0x8086 0x2922 1 6 1 (mkAddress 0 0 0 0) up (Some [mkResource Irq 11 1 0]) 1 BootCritical.
Definition example_driver : option (list Z) := Some [117; 115; 98].
Definition example_ops : list op :=
  [ORegister example_bus true; ORegister (example_disk 0) true; ORegister (example_disk 0) true; OClaim 1 3 example_driver; ORemove 2;
   ORegister (example_disk 1) true; ORelease 1 3; OStatus 0 Ready].

Lemma devices_invariant_witness : Forall op_ok example_ops /\ g_active_count (run (initialize zeroed) example_ops) = 3%nat /\
  children <$> get (run (initialize zeroed) example_ops) 1 = Some [2] /\ devices_ok (run (initialize zeroed) example_ops).
Proof.
  assert (Forall op_ok example_ops) as H by (repeat (apply Forall_cons_2; [cbn; unfold INVALID_DEVICE_ID, UINT32_MAX; lia|]); apply Forall_nil_2).
  split; [exact H|]. split; [vm_compute; reflexivity|]. split; [vm_compute; reflexivity|]. exact (devices_invariant example_ops H).
Defined.

Definition example_table : Devices := run (initialize zeroed) [ORegister example_bus true; ORegister (example_disk 0) true].

Lemma example_table_ok : devices_ok example_table.
Proof. apply dev_run_ok; [exact initial_ok|]. repeat (apply Forall_cons_2; [cbn; unfold INVALID_DEVICE_ID, UINT32_MAX; lia|]); apply Forall_nil_2. Qed.

Lemma register_device_ok_witness : let '(s', st, out) := register_device example_table (example_disk 1) true in
  st = Ok /\ out = Some 2 /\ exists g, get s' 2 = Some (new_device (example_disk 1) 2 g).
Proof.
  pose proof (register_device_ok example_table (example_disk 1) example_table_ok ltac:(cbn; lia)) as H.
  destruct (register_device example_table (example_disk 1) true) as [[s' st] out] eqn:E. destruct H as (_ & _ & H).
  assert (snd (fst (register_device example_table (example_disk 1) true)) = Ok) as E1 by (vm_compute; reflexivity).
  assert (snd (register_device example_table (example_disk 1) true) = Some 2) as E2 by (vm_compute; reflexivity). rewrite E in E1, E2. cbn [fst snd] in E1, E2.
  destruct (H E1) as (i & g & Ei & _ & _ & _ & Hget & _). split; [exact E1|]. split; [exact E2|]. exists g.
  assert (i = 2) as -> by congruence. exact Hget.
Defined.

Lemma device_handle_resolves_witness : resolve example_table (handle_for example_table 1) ≠ None /\
  forall d, resolve example_table (handle_for example_table 1) = Some d <-> exists i, 0 <= i /\ get example_table i = Some d /\ handle_for example_table 1 = handle_for example_table i.
Proof.
  split; [vm_compute; discriminate|]. intros d. apply (device_handle_resolves example_table (handle_for example_table 1) d); [exact example_table_ok|].
  assert (handle_for example_table 1 = 4294967298) as -> by (vm_compute; reflexivity). unfold is_u64. lia.
Defined.

Definition is_some {A} (x : option A) : bool := match x with Some _ => true | None => false end.

Lemma device_handle_stale_witness : is_some (resolve example_table 4294967298) = true /\
  resolve (run (step example_table (OClaim 1 3 example_driver)) [ORelease 1 3; ORemove 1; ORegister (example_disk 0) true]) 4294967298 = None.
Proof.
  assert (is_some (resolve example_table 4294967298) = true) as E by (vm_compute; reflexivity). split; [exact E|].
  assert (match resolve example_table 4294967298 with Some d => id d | None => 0 end = 1) as E1 by (vm_compute; reflexivity).
  destruct (resolve example_table 4294967298) as [d|] eqn:Ed; [|discriminate E].
  apply (device_handle_stale example_table (OClaim 1 3 example_driver) [ORelease 1 3; ORemove 1; ORegister (example_disk 0) true] 4294967298 d);
    [exact example_table_ok|unfold is_u64; lia|exact Ed|cbn; lia|cbn; congruence|vm_compute; reflexivity| |cbn; lia].
  repeat (apply Forall_cons_2; [cbn; lia|]); apply Forall_nil_2.
Defined.
