(* ===== verification/Drivers.v ===== *)
(** * Drivers and the binding of devices to them (kernel/drivers/core/driver_manager.cpp)

    A driver is a set of callbacks.  Binding a device tries the drivers that match it,
    the most important first, until one has probed and attached it.  The callbacks may
    call the managers back, remove the device they are given, or register others; the
    code therefore looks its device up again, by handle, after each of them.

    A function pointer is a number, 0 if null, and the class [Callbacks] says what a call
    of it does with the state of both managers and with the [world] of the drivers.  A
    callback gets the id of its device, in whose slot the device it refers to lives.
    A reference into the array of drivers is an index, and is read again at each use.

    [Lawful] callbacks change the managers by calling their operations: then a bind that
    succeeds leaves the device with its driver, whatever was called in between
    ([bind_device_owner]), and the tables agree ([drivers_invariant]).  [Quiet] callbacks
    leave the managers alone: then binding is the search of the most important working
    driver ([bind_device_reference]), and the count of attached devices is exact
    ([attached_counts]). *)

From S2P Require Import Prelude KStatus Devices.

(** ** Data *)

Definition MAXIMUM_DRIVERS : nat := 32.
Definition MAXIMUM_NAME_LENGTH : nat := 31.

Inductive Status := Registered | Ready | Degraded | Failed.
Inductive FailureStage := None_ | Probe | Attach | Runtime.

#[export] Instance driver_Status_eq_dec : EqDecision Status.
Proof. solve_decision. Defined.

Record Descriptor := mkDescriptor {
  d_name : option (list Z); d_priority : Z; d_timeout_ticks : Z; d_match : Z; d_probe : Z; d_attach : Z; d_detach : Z; d_context : Z }.

Record Driver := mkDriver {
  id : Z; name : list Z; priority : Z; timeout_ticks : Z; match_ : Z; probe : Z; attach : Z; detach : Z; context : Z;
  status : Status; probe_count : Z; attached_count : Z; failure_count : Z; last_failure : KStatus; last_failure_device : Z;
  last_failure_stage : FailureStage; lifecycle_generation : Z }.

Definition zero_driver : Driver := mkDriver 0 [] 0 0 0 0 0 0 0 Registered 0 0 0 Ok 0 None_ 0.

(** Both managers, and what the drivers keep themselves. *)
Record Kernel (W : Type) := mkKernel {
  world : W; devices : Devices; g_drivers : list Driver; g_count : nat; g_initialized : bool }.
Arguments mkKernel {W} _ _ _ _ _.
Arguments world {W} _.
Arguments devices {W} _.
Arguments g_drivers {W} _.
Arguments g_count {W} _.
Arguments g_initialized {W} _.

(** The calls through function pointers, with the pointer, its context and the device;
    and the function, defined elsewhere, that registers the built-in drivers. *)
Class Callbacks (W : Type) := {
  match_callback : Z -> Z -> Kernel W -> Z -> Kernel W * bool;
  lifecycle_callback : Z -> Z -> Kernel W -> Z -> Z -> Kernel W * KStatus;
  detach_callback : Z -> Z -> Kernel W -> Z -> Kernel W;
  kurogane_register_builtin_drivers : Kernel W -> Kernel W * KStatus }.

Section operations.
Context {W : Type} {calls : Callbacks W}.
Implicit Types (k : Kernel W) (index : Z).

(** ** Changes of fields *)

Definition with_world k (w : W) : Kernel W := mkKernel w (devices k) (g_drivers k) (g_count k) (g_initialized k).
Definition with_devices k (ds : Devices) : Kernel W := mkKernel (world k) ds (g_drivers k) (g_count k) (g_initialized k).

Definition driver_at k (i : nat) : Driver := nth i (g_drivers k) zero_driver.
Definition modify k (i : nat) (f : Driver -> Driver) : Kernel W :=
  mkKernel (world k) (devices k) (alter f i (g_drivers k)) (g_count k) (g_initialized k).

(** The fields that change after the registration. *)
Definition with_counters (d : Driver) (st : Status) (probes attached failures : Z) (failure : KStatus) (device : Z) (stage : FailureStage) (lifecycle : Z) : Driver :=
  mkDriver (id d) (name d) (priority d) (timeout_ticks d) (match_ d) (probe d) (attach d) (detach d) (context d) st probes attached failures failure device stage lifecycle.

Definition bump_lifecycle (d : Driver) : Driver :=
  with_counters d (status d) (probe_count d) (attached_count d) (failure_count d) (last_failure d) (last_failure_device d) (last_failure_stage d) (bump (lifecycle_generation d)).

Definition probed (d : Driver) : Driver :=
  with_counters d (status d) (u64 (probe_count d + 1)) (attached_count d) (failure_count d) (last_failure d) (last_failure_device d) (last_failure_stage d) (lifecycle_generation d).

Definition record_failure (device : Z) (stage : FailureStage) (reason : KStatus) (d : Driver) : Driver :=
  bump_lifecycle (with_counters d Degraded (probe_count d) (attached_count d) (u64 (failure_count d + 1)) reason device stage (lifecycle_generation d)).

(** After a successful attachment. *)
Definition attached (d : Driver) : Driver :=
  bump_lifecycle (with_counters d Ready (probe_count d) (u64 (attached_count d + 1)) (failure_count d) Ok INVALID_DEVICE_ID None_ (lifecycle_generation d)).

Definition one_less (d : Driver) : Driver :=
  with_counters d (status d) (probe_count d) (if negb (attached_count d =? 0) then attached_count d - 1 else attached_count d) (failure_count d) (last_failure d)
    (last_failure_device d) (last_failure_stage d) (lifecycle_generation d).

(** After a detachment. *)
Definition detached (d : Driver) : Driver :=
  let d := one_less d in
  bump_lifecycle (with_counters d (if attached_count d =? 0 then Registered else Ready) (probe_count d) (attached_count d) (failure_count d) (last_failure d)
    (last_failure_device d) (last_failure_stage d) (lifecycle_generation d)).

(** ** Registration *)

Definition initialize k : Kernel W * KStatus :=
  let k := mkKernel (world k) (devices k) (replicate MAXIMUM_DRIVERS zero_driver) 0 true in
  let '(k, st) := kurogane_register_builtin_drivers k in
  if negb (bool_decide (st = Ok)) && negb (bool_decide (st = AlreadyExists)) then (mkKernel (world k) (devices k) (g_drivers k) 0 false, st) else (k, Ok).

(** The index of the driver of this name. *)
Definition find k (text : list Z) : option nat := find_index (fun d => text_equal (name d) text) (take (g_count k) (g_drivers k)).

Definition new_driver (descriptor : Descriptor) (i : nat) : Driver :=
  mkDriver (Z.of_nat i) (copy_text (MAXIMUM_NAME_LENGTH + 1) (d_name descriptor)) (d_priority descriptor) (d_timeout_ticks descriptor) (d_match descriptor)
    (d_probe descriptor) (d_attach descriptor) (d_detach descriptor) (d_context descriptor) Registered 0 0 0 Ok 0 None_ 0.

Definition register_driver k (descriptor : Descriptor) (has_id : bool) : Kernel W * KStatus * option Z :=
  if negb (g_initialized k) then (k, BadState, None)
  else if negb has_id || match d_name descriptor with None | Some [] => true | _ => false end || (d_timeout_ticks descriptor =? 0) ||
     (d_match descriptor =? 0) || (d_probe descriptor =? 0) || (d_attach descriptor =? 0)
  then (k, InvalidArgument, None)
  else if bool_decide (is_Some (find k (default [] (d_name descriptor)))) then (k, AlreadyExists, Some INVALID_DRIVER_ID)
  else if (MAXIMUM_DRIVERS <=? g_count k)%nat then (k, NoMemory, Some INVALID_DRIVER_ID)
  else
    (mkKernel (world k) (devices k) (<[g_count k := new_driver descriptor (g_count k)]> (g_drivers k)) (S (g_count k)) (g_initialized k), Ok, Some (Z.of_nat (g_count k))).

Definition get k (drv : Z) : option Driver := if drv <? Z.of_nat (g_count k) then g_drivers k !! Z.to_nat drv else None.

(** ** Binding *)

Definition mark k index (st : Devices.Status) : Kernel W := with_devices k (fst (set_status (devices k) index st)).

(** The handle still names a device, and the driver owns it. *)
Definition owned k (target_handle drv : Z) : bool :=
  match resolve (devices k) target_handle with Some target => driver target =? drv | None => false end.

(** The inner loop of [bind_device] from driver [i]: the most important driver that
    matches and was not tried, among those from [i] on and [selected]; the outer option
    is [None] if the device is gone. *)
Fixpoint select_loop (fuel : nat) k index (target_handle : Z) (tried : list bool) (i : nat) (selected : option nat) : Kernel W * option (option nat) :=
  match fuel with
  | O => (k, Some selected)
  | S fuel =>
      if negb (i <? g_count k)%nat then (k, Some selected)
      else if nth i tried false then select_loop fuel k index target_handle tried (S i) selected
      else
        let '(k, matches) := match_callback (match_ (driver_at k i)) (context (driver_at k i)) k index in
        match resolve (devices k) target_handle with
        | None => (k, None)
        | Some _ =>
            let better := match selected with None => true | Some j => priority (driver_at k j) <? priority (driver_at k i) end in
            select_loop fuel k index target_handle tried (S i) (if matches && better then Some i else selected)
        end
  end.

(** What an attempt comes to: [bind_device] returns, or goes on with the next driver. *)
Inductive outcome := Return (st : KStatus) | Continue (target_handle : Z) (last_failure : KStatus).

(** The end of an attempt whose attachment failed with [reason]. *)
Definition detach_selected k index (target_handle : Z) (selected : nat) (reason : KStatus) : Kernel W * outcome :=
  let k := modify k selected (record_failure index Attach reason) in
  let d := driver_at k selected in
  let k := if negb (detach d =? 0) then detach_callback (detach d) (context d) k index else k in
  if negb (owned k target_handle (id (driver_at k selected))) then (k, Return NoDevice)
  else
    let '(ds, release_status) := release (devices k) index (id (driver_at k selected)) in
    let k := with_devices k ds in
    if negb (bool_decide (release_status = Ok)) then (k, Return release_status)
    else
      let target_handle := handle_for (devices k) index in
      match resolve (devices k) target_handle with None => (k, Return NoDevice) | Some _ => (k, Continue target_handle reason) end.

(** An attempt from the claim on. *)
Definition attach_selected k index (selected : nat) : Kernel W * outcome :=
  let '(ds, st) := claim (devices k) index (id (driver_at k selected)) (Some (name (driver_at k selected))) in
  let k := with_devices k ds in
  if negb (bool_decide (st = Ok)) then (k, Return st)
  else
    let target_handle := handle_for (devices k) index in
    if negb (owned k target_handle (id (driver_at k selected))) then (k, Return NoDevice)
    else
      let k := mark k index Initializing in
      let d := driver_at k selected in
      let '(k, st) := lifecycle_callback (attach d) (context d) k index (timeout_ticks d) in
      if negb (owned k target_handle (id (driver_at k selected))) then (k, Return NoDevice)
      else if bool_decide (st = Ok) then (mark (modify k selected attached) index Devices.Ready, Return Ok)
      else detach_selected k index target_handle selected st.

(** An attempt with the selected driver. *)
Definition try_selected k index (target_handle : Z) (selected : nat) : Kernel W * outcome :=
  let k := mark (modify k selected probed) index Probing in
  let d := driver_at k selected in
  let '(k, st) := lifecycle_callback (probe d) (context d) k index (timeout_ticks d) in
  match resolve (devices k) target_handle with
  | None => (k, Return NoDevice)
  | Some _ =>
      if negb (bool_decide (st = Ok)) then (mark (modify k selected (record_failure index Probe st)) index Discovered, Continue target_handle st)
      else attach_selected k index selected
  end.

(** After the loop. *)
Definition bind_end k index (target_handle : Z) (matched : bool) (last : KStatus) : Kernel W * KStatus :=
  if matched then
    match resolve (devices k) target_handle with None => (k, NoDevice) | Some _ => (mark k index Devices.Failed, last) end
  else (k, NotFound).

(** The outer loop, from its round [attempt] on. *)
Fixpoint bind_loop (fuel : nat) k index (target_handle : Z) (tried : list bool) (attempt : nat) (matched : bool) (last : KStatus) : Kernel W * KStatus :=
  match fuel with
  | O => bind_end k index target_handle matched last
  | S fuel =>
      if negb (attempt <? g_count k)%nat then bind_end k index target_handle matched last
      else
        match select_loop MAXIMUM_DRIVERS k index target_handle tried 0 None with
        | (k, None) => (k, NoDevice)
        | (k, Some None) => bind_end k index target_handle matched last
        | (k, Some (Some selected)) =>
            match try_selected k index target_handle selected with
            | (k, Return st) => (k, st)
            | (k, Continue target_handle last) => bind_loop fuel k index target_handle (<[selected := true]> tried) (S attempt) true last
            end
        end
  end.

Definition bind_device k index : Kernel W * KStatus :=
  if negb (g_initialized k) || negb (Devices.g_initialized (devices k)) then (k, BadState)
  else
    let target_handle := handle_for (devices k) index in
    match resolve (devices k) target_handle with
    | None => (k, NotFound)
    | Some target =>
        if negb (driver target =? INVALID_DRIVER_ID) then (k, AlreadyExists)
        else bind_loop MAXIMUM_DRIVERS k index target_handle (replicate MAXIMUM_DRIVERS false) 0 false NotSupported
    end.

(** The call of [detach], if there is one. *)
Definition call_detach k (i : nat) index : Kernel W :=
  if negb (detach (driver_at k i) =? 0) then detach_callback (detach (driver_at k i)) (context (driver_at k i)) k index else k.

Definition unbind_device k index : Kernel W * KStatus :=
  if negb (g_initialized k) || negb (Devices.g_initialized (devices k)) then (k, BadState)
  else
    let target_handle := handle_for (devices k) index in
    match resolve (devices k) target_handle with
    | None => (k, NotFound)
    | Some target =>
        if driver target =? INVALID_DRIVER_ID then (k, NotFound)
        else if Z.of_nat (g_count k) <=? driver target then (k, Corrupted)
        else
          let i := Z.to_nat (driver target) in
          let k := call_detach k i index in
          if negb (owned k target_handle (id (driver_at k i))) then (modify k i detached, NoDevice)
          else
            let '(ds, release_status) := release (devices k) index (id (driver_at k i)) in
            let k := with_devices k ds in
            if negb (bool_decide (release_status = Ok)) then (k, release_status) else (modify k i detached, Ok)
    end.

Definition rebind_device k index : Kernel W * KStatus :=
  if negb (g_initialized k) || negb (Devices.g_initialized (devices k)) then (k, BadState)
  else
    match Devices.get (devices k) index with
    | None => (k, NotFound)
    | Some target =>
        if negb (driver target =? INVALID_DRIVER_ID) then
          let '(k, unbind_status) := unbind_device k index in
          if negb (bool_decide (unbind_status = Ok)) then (k, unbind_status) else bind_device k index
        else bind_device k index
    end.

Definition report_device_failure k index (reason : KStatus) : Kernel W * KStatus :=
  if negb (g_initialized k) || negb (Devices.g_initialized (devices k)) then (k, BadState)
  else if bool_decide (reason = Ok) then (k, InvalidArgument)
  else
    let target_handle := handle_for (devices k) index in
    match resolve (devices k) target_handle with
    | None => (k, NotFound)
    | Some target =>
        if driver target =? INVALID_DRIVER_ID then (mark k index Devices.Failed, Ok)
        else if Z.of_nat (g_count k) <=? driver target then (k, Corrupted)
        else
          let i := Z.to_nat (driver target) in
          let k := call_detach (modify k i (record_failure index Runtime reason)) i index in
          if negb (owned k target_handle (id (driver_at k i))) then (modify k i one_less, NoDevice)
          else
            let '(ds, release_status) := release (devices k) index (id (driver_at k i)) in
            let k := with_devices k ds in
            if negb (bool_decide (release_status = Ok)) then (k, release_status) else (mark (modify k i one_less) index Devices.Failed, Ok)
    end.

(** The loop of [bind_all] from device [index]; there are at most [fuel] slots left. *)
Fixpoint bind_all_loop (fuel : nat) k index (aggregate : KStatus) : Kernel W * KStatus :=
  match fuel with
  | O => (k, aggregate)
  | S fuel =>
      if negb (index <? Z.of_nat (Devices.g_count (devices k))) then (k, aggregate)
      else
        match Devices.get (devices k) index with
        | None => bind_all_loop fuel k (index + 1) aggregate
        | Some target =>
            if negb (driver target =? INVALID_DRIVER_ID) then bind_all_loop fuel k (index + 1) aggregate
            else
              let '(k, st) := bind_device k index in
              bind_all_loop fuel k (index + 1) (if negb (bool_decide (st = Ok)) && bool_decide (requirement target = BootCritical) then st else aggregate)
        end
  end.

Definition bind_all k : Kernel W * KStatus :=
  if negb (g_initialized k) || negb (Devices.g_initialized (devices k)) then (k, BadState) else bind_all_loop MAXIMUM_DEVICES k 0 Ok.

(** The loop of [visit] from driver [i]; there are at most [fuel] left.  The callback may
    call the managers, and tells whether to go on. *)
Fixpoint visit_loop (callback : Kernel W -> nat -> Kernel W * bool) (fuel : nat) k (i : nat) : Kernel W :=
  match fuel with
  | O => k
  | S fuel =>
      if negb (i <? g_count k)%nat then k
      else let '(k, more) := callback k i in if negb more then k else visit_loop callback fuel k (S i)
  end.

Definition visit (callback : option (Kernel W -> nat -> Kernel W * bool)) k : Kernel W :=
  match callback with None => k | Some callback => visit_loop callback MAXIMUM_DRIVERS k 0 end.

End operations.

(** ** What callbacks may do *)

(** Two states of one driver: what it registered is the same. *)
Definition same_driver (d d' : Driver) : Prop :=
  id d' = id d /\ name d' = name d /\ priority d' = priority d /\ timeout_ticks d' = timeout_ticks d /\ match_ d' = match_ d /\
  probe d' = probe d /\ attach d' = attach d /\ detach d' = detach d /\ context d' = context d.

#[export] Instance same_driver_preorder : PreOrder same_driver.
Proof. split; [by intros d|]. unfold same_driver. intros d1 d2 d3. intuition congruence. Qed.

(** Every change of counters keeps it. *)
Lemma with_counters_same d st p a f l dv stage g : same_driver d (with_counters d st p a f l dv stage g).
Proof. done. Qed.

Section lawful.
Context {W : Type} {calls : Callbacks W}.
Implicit Types (k : Kernel W) (index : Z).

(** One change of the state of both managers: a call of the device manager, a
    registration of a driver, a change of counters, or one of the drivers' own state. *)
Inductive change : Kernel W -> Kernel W -> Prop :=
  | change_world k w : change k (with_world k w)
  | change_devices k o : op_ok o -> o ≠ OInitialize -> change k (with_devices k (step (devices k) o))
  | change_register k descriptor has_id : change k (fst (fst (register_driver k descriptor has_id)))
  | change_driver k i f : (forall d, same_driver d (f d)) -> change k (modify k i f).

Definition evolves : Kernel W -> Kernel W -> Prop := rtc change.

(** What a driver is well formed with. *)
Definition driver_ok (i : nat) (d : Driver) : Prop :=
  id d = Z.of_nat i /\ name d ≠ [] /\ (length (name d) <= MAXIMUM_NAME_LENGTH)%nat /\ timeout_ticks d ≠ 0 /\ match_ d ≠ 0 /\ probe d ≠ 0 /\ attach d ≠ 0.

Record kernel_ok k : Prop := {
  ko_devices : devices_ok (devices k);
  ko_length : length (g_drivers k) = MAXIMUM_DRIVERS;
  ko_count : (g_count k <= MAXIMUM_DRIVERS)%nat;
  ko_drivers : forall i, (i < g_count k)%nat -> driver_ok i (driver_at k i) }.

(** Drivers are never taken away. *)
Definition keeps k k' : Prop := (g_count k <= g_count k')%nat /\ g_initialized k' = g_initialized k /\
  forall i, (i < g_count k)%nat -> same_driver (driver_at k i) (driver_at k' i).

#[local] Instance keeps_preorder : PreOrder keeps.
Proof.
  split; [by intros k|]. intros k1 k2 k3 (A1 & A2 & A3) (B1 & B2 & B3). split; [lia|]. split; [congruence|].
  intros i Hi. etransitivity; [by apply A3|apply B3; lia].
Qed.

Lemma driver_at_modify k i f j : driver_at (modify k i f) j = if decide (j = i /\ (i < length (g_drivers k))%nat) then f (driver_at k i) else driver_at k j.
Proof.
  unfold driver_at, modify. cbn [g_drivers]. rewrite !nth_lookup. destruct (decide _) as [[-> Hi]|Hn].
  - rewrite list_lookup_alter_eq. destruct (lookup_lt_is_Some_2 (g_drivers k) i Hi) as [d ->]. done.
  - destruct (decide (j = i)) as [->|]; [|by rewrite list_lookup_alter_ne by done].
    rewrite list_lookup_alter_eq. by rewrite (lookup_ge_None_2 (g_drivers k) i) by (destruct (decide (i < length (g_drivers k))%nat); [by destruct Hn|lia]).
Qed.

(** The registration of a driver. *)
Lemma register_driver_cases k descriptor has_id :
  let '(k', st, out) := register_driver k descriptor has_id in
  st ≠ Ok /\ k' = k \/
  st = Ok /\ g_initialized k = true /\ (g_count k < MAXIMUM_DRIVERS)%nat /\ out = Some (Z.of_nat (g_count k)) /\ find k (default [] (d_name descriptor)) = None /\
    (exists c text, d_name descriptor = Some (c :: text)) /\ d_timeout_ticks descriptor ≠ 0 /\ d_match descriptor ≠ 0 /\ d_probe descriptor ≠ 0 /\ d_attach descriptor ≠ 0 /\
    k' = mkKernel (world k) (devices k) (<[g_count k := new_driver descriptor (g_count k)]> (g_drivers k)) (S (g_count k)) (g_initialized k).
Proof.
  unfold register_driver. destruct (g_initialized k) eqn:Ei; cbn [negb]; [|by left]. destruct (_ || _) eqn:E; [by left|].
  destruct (bool_decide (is_Some _)) eqn:Ef; [by left|]. destruct (Nat.leb_spec MAXIMUM_DRIVERS (g_count k)); [by left|]. right.
  rewrite !orb_false_iff in E. destruct E as [[[[[_ E1] E2] E3] E4] E5]. apply bool_decide_eq_false in Ef.
  assert (exists c text, d_name descriptor = Some (c :: text)) by (destruct (d_name descriptor) as [[|c text]|]; [done|by exists c, text|done]).
  rewrite <- eq_None_not_Some in Ef. split_and!; try done; lia.
Qed.

Lemma new_driver_ok descriptor i : (exists c text, d_name descriptor = Some (c :: text)) -> d_timeout_ticks descriptor ≠ 0 -> d_match descriptor ≠ 0 ->
  d_probe descriptor ≠ 0 -> d_attach descriptor ≠ 0 -> driver_ok i (new_driver descriptor i).
Proof.
  intros (c & text & E) H1 H2 H3 H4. destruct (copied_text MAXIMUM_NAME_LENGTH c text) as [C1 C2]; [unfold MAXIMUM_NAME_LENGTH; lia|].
  unfold driver_ok, new_driver. cbn [id name timeout_ticks match_ probe attach]. rewrite E. by split_and!.
Qed.

Lemma change_ok k k' : change k k' -> kernel_ok k -> kernel_ok k' /\ keeps k k'.
Proof.
  intros Hch Hk. pose proof Hk as [H1 H2 H3 H4]. destruct Hch as [k w|k o Ho Hne|k descriptor has_id|k i f Hf].
  - split; [by constructor|]. by split.
  - split; [constructor; try done; by apply dev_step_ok|]. by split.
  - pose proof (register_driver_cases k descriptor has_id) as Hc. destruct (register_driver k descriptor has_id) as [[k' st] out]. cbn [fst].
    destruct Hc as [[_ ->]|(_ & _ & Hlt & _ & _ & Hn & G1 & G2 & G3 & G4 & ->)]; [by split|].
    assert (forall i, (i < S (g_count k))%nat -> nth i (<[g_count k:=new_driver descriptor (g_count k)]> (g_drivers k)) zero_driver =
      if decide (i = g_count k) then new_driver descriptor (g_count k) else driver_at k i) as Hat.
    { intros i Hi. unfold driver_at. rewrite !nth_lookup. destruct (decide _) as [->|]; [by rewrite list_lookup_insert_eq by lia|by rewrite list_lookup_insert_ne]. }
    split.
    + constructor; cbn [devices g_drivers g_count]; [done|by rewrite length_insert|lia|]. intros i Hi. unfold driver_at. cbn [g_drivers]. rewrite Hat by done.
      destruct (decide _) as [->|]; [by apply new_driver_ok|apply H4; lia].
    + split; [cbn; lia|]. split; [done|]. intros i Hi. unfold driver_at at 2. cbn [g_drivers]. rewrite Hat by lia. by rewrite decide_False by lia.
  - assert (forall j, same_driver (driver_at k j) (driver_at (modify k i f) j)) as Hsame by (intros j; rewrite driver_at_modify; destruct (decide _) as [[-> _]|]; [apply Hf|done]).
    split; [|split; [done|split; [done|intros j _; apply Hsame]]]. constructor; [done|cbn; by rewrite length_alter|done|]. intros j Hj. cbn in Hj.
    destruct (Hsame j) as (E1 & E2 & _ & E3 & E4 & E5 & E6 & _). unfold driver_ok. rewrite E1, E2, E3, E4, E5, E6. by apply H4.
Qed.

Lemma evolves_ok k k' : evolves k k' -> kernel_ok k -> kernel_ok k' /\ keeps k k'.
Proof.
  induction 1 as [k|k1 k2 k3 Hch _ IH]; intros Hk; [by split|]. destruct (change_ok k1 k2 Hch Hk) as [H1 H2]. destruct (IH H1) as [H3 H4].
  split; [done|]. by etransitivity.
Qed.

(** ** Operations evolve *)

Lemma evolves_refl k : evolves k k.
Proof. apply rtc_refl. Qed.

Lemma evolves_trans k1 k2 k3 : evolves k1 k2 -> evolves k2 k3 -> evolves k1 k3.
Proof. unfold evolves. intros. by etransitivity. Qed.

Lemma evolves_modify k1 k2 i f : evolves k1 k2 -> (forall d, same_driver d (f d)) -> evolves k1 (modify k2 i f).
Proof. intros H Hf. eapply rtc_r; [exact H|]. by apply change_driver. Qed.

Lemma evolves_op k1 k2 o : evolves k1 k2 -> op_ok o -> o ≠ OInitialize -> evolves k1 (with_devices k2 (step (devices k2) o)).
Proof. intros H Ho Hne. eapply rtc_r; [exact H|]. by apply change_devices. Qed.

Lemma evolves_mark k1 k2 index st : evolves k1 k2 -> 0 <= index -> evolves k1 (mark k2 index st).
Proof. intros H Hi. by apply (evolves_op k1 k2 (OStatus index st)). Qed.

End lawful.

#[export] Hint Resolve evolves_refl evolves_modify evolves_mark with_counters_same : kuro.

(** Callbacks that change the managers through their operations only, those that start
    them anew excepted. *)
Class Lawful (W : Type) {calls : Callbacks W} : Prop := {
  match_evolves fn ctx k index : 0 <= index -> evolves k (fst (match_callback fn ctx k index));
  lifecycle_evolves fn ctx k index ticks : 0 <= index -> evolves k (fst (lifecycle_callback fn ctx k index ticks));
  detach_evolves fn ctx k index : 0 <= index -> evolves k (detach_callback fn ctx k index);
  builtin_evolves k : evolves k (fst (kurogane_register_builtin_drivers k)) }.

Section theorems.
Context {W : Type} {calls : Callbacks W} {lawful : Lawful W}.
Implicit Types (k : Kernel W) (index : Z).

Lemma evolves_claim k1 k2 index drv txt : evolves k1 k2 -> 0 <= index -> evolves k1 (with_devices k2 (fst (claim (devices k2) index drv txt))).
Proof. intros H Hi. by apply (evolves_op k1 k2 (OClaim index drv txt)). Qed.

Lemma evolves_release k1 k2 index drv : evolves k1 k2 -> 0 <= index -> evolves k1 (with_devices k2 (fst (release (devices k2) index drv))).
Proof. intros H Hi. by apply (evolves_op k1 k2 (ORelease index drv)). Qed.

Lemma evolves_lifecycle k1 k2 fn ctx index ticks : evolves k1 k2 -> 0 <= index -> evolves k1 (fst (lifecycle_callback fn ctx k2 index ticks)).
Proof. intros H Hi. eapply evolves_trans; [exact H|]. by apply lifecycle_evolves. Qed.

Lemma evolves_call_detach k1 k2 i index : evolves k1 k2 -> 0 <= index -> evolves k1 (call_detach k2 i index).
Proof. intros H Hi. unfold call_detach. destruct (negb _); [|done]. eapply evolves_trans; [exact H|]. by apply detach_evolves. Qed.

Lemma select_loop_evolves fuel : forall k index handle tried i selected, 0 <= index -> evolves k (fst (select_loop fuel k index handle tried i selected)).
Proof.
  induction fuel as [|fuel IH]; intros k index handle tried i selected Hi; cbn [select_loop]; [apply evolves_refl|]. destruct (negb _); [apply evolves_refl|].
  destruct (nth i tried false); [by apply IH|]. pose proof (match_evolves (match_ (driver_at k i)) (context (driver_at k i)) k index Hi) as H.
  destruct (match_callback _ _ k index) as [k' matches]. cbn [fst] in H. destruct (resolve _ _); [|done]. eapply evolves_trans; [exact H|]. by apply IH.
Qed.

Lemma detach_selected_evolves k index handle selected reason : 0 <= index -> evolves k (fst (detach_selected k index handle selected reason)).
Proof.
  intros Hi. unfold detach_selected. set (k1 := modify k selected _). fold (call_detach k1 selected index). set (k2 := call_detach k1 selected index).
  assert (evolves k k2) as H2 by (apply evolves_call_detach; [by apply evolves_modify; [apply evolves_refl|]|done]).
  destruct (negb _); [done|]. pose proof (evolves_release k k2 index (id (driver_at k2 selected)) H2 Hi) as H3. destruct (release _ _ _) as [ds st]. cbn [fst] in H3.
  destruct (negb _); [done|]. by destruct (resolve _ _).
Qed.

Lemma attach_selected_evolves k index selected : 0 <= index -> evolves k (fst (attach_selected k index selected)).
Proof.
  intros Hi. unfold attach_selected. pose proof (evolves_claim k k index (id (driver_at k selected)) (Some (name (driver_at k selected))) (evolves_refl k) Hi) as H1.
  destruct (claim _ _ _ _) as [ds st]. cbn [fst] in H1. destruct (negb _); [done|]. destruct (negb _); [done|].
  set (k2 := mark _ index Initializing). assert (evolves k k2) as H2 by (by apply evolves_mark).
  pose proof (evolves_lifecycle k k2 (attach (driver_at k2 selected)) (context (driver_at k2 selected)) index (timeout_ticks (driver_at k2 selected)) H2 Hi) as H3.
  destruct (lifecycle_callback _ _ k2 _ _) as [k3 st3]. cbn [fst] in H3. destruct (negb _); [done|]. destruct (bool_decide _).
  - apply evolves_mark; [by apply evolves_modify|done].
  - eapply evolves_trans; [exact H3|]. by apply detach_selected_evolves.
Qed.

Lemma try_selected_evolves k index handle selected : 0 <= index -> evolves k (fst (try_selected k index handle selected)).
Proof.
  intros Hi. unfold try_selected. set (k1 := mark _ _ _). assert (evolves k k1) as H1 by (apply evolves_mark; [by apply evolves_modify; [apply evolves_refl|]|done]).
  pose proof (evolves_lifecycle k k1 (probe (driver_at k1 selected)) (context (driver_at k1 selected)) index (timeout_ticks (driver_at k1 selected)) H1 Hi) as H2.
  destruct (lifecycle_callback _ _ k1 _ _) as [k2 st]. cbn [fst] in H2. destruct (resolve _ _); [|done]. destruct (negb _).
  - apply evolves_mark; [by apply evolves_modify|done].
  - eapply evolves_trans; [exact H2|]. by apply attach_selected_evolves.
Qed.

Lemma bind_end_evolves k index handle matched last : 0 <= index -> evolves k (fst (bind_end k index handle matched last)).
Proof. intros Hi. unfold bind_end. destruct matched; [|apply evolves_refl]. destruct (resolve _ _); [|apply evolves_refl]. apply evolves_mark; [apply evolves_refl|done]. Qed.

Lemma bind_loop_evolves fuel : forall k index handle tried attempt matched last, 0 <= index -> evolves k (fst (bind_loop fuel k index handle tried attempt matched last)).
Proof.
  induction fuel as [|fuel IH]; intros k index handle tried attempt matched last Hi; cbn [bind_loop]; [by apply bind_end_evolves|].
  destruct (negb _); [by apply bind_end_evolves|]. pose proof (select_loop_evolves MAXIMUM_DRIVERS k index handle tried 0 None Hi) as H1.
  destruct (select_loop _ _ _ _ _ _ _) as [k1 [[selected|]|]]; cbn [fst] in H1; [|eapply evolves_trans; [exact H1|]; by apply bind_end_evolves|done].
  pose proof (try_selected_evolves k1 index handle selected Hi) as H2. destruct (try_selected k1 index handle selected) as [k2 [st|handle' last']]; cbn [fst] in H2.
  - by eapply evolves_trans.
  - eapply evolves_trans; [exact H1|]. eapply evolves_trans; [exact H2|]. by apply IH.
Qed.

Lemma bind_device_evolves k index : 0 <= index -> evolves k (fst (bind_device k index)).
Proof.
  intros Hi. unfold bind_device. destruct (_ || _); [apply evolves_refl|]. destruct (resolve _ _); [|apply evolves_refl]. destruct (negb _); [apply evolves_refl|]. by apply bind_loop_evolves.
Qed.

Lemma unbind_device_evolves k index : 0 <= index -> evolves k (fst (unbind_device k index)).
Proof.
  intros Hi. unfold unbind_device. destruct (_ || _); [apply evolves_refl|]. destruct (resolve _ _) as [target|]; [|apply evolves_refl]. destruct (_ =? _); [apply evolves_refl|].
  destruct (_ <=? _); [apply evolves_refl|]. set (i := Z.to_nat _). set (k1 := call_detach k i index). assert (evolves k k1) as H1 by (apply evolves_call_detach; [apply evolves_refl|done]).
  destruct (negb _); [by apply evolves_modify|]. pose proof (evolves_release k k1 index (id (driver_at k1 i)) H1 Hi) as H2. destruct (release _ _ _) as [ds st]. cbn [fst] in H2.
  destruct (negb _); [done|]. by apply evolves_modify.
Qed.

Lemma rebind_device_evolves k index : 0 <= index -> evolves k (fst (rebind_device k index)).
Proof.
  intros Hi. unfold rebind_device. destruct (_ || _); [apply evolves_refl|]. destruct (Devices.get _ _) as [target|]; [|apply evolves_refl].
  destruct (negb _); [|by apply bind_device_evolves]. pose proof (unbind_device_evolves k index Hi) as H1. destruct (unbind_device k index) as [k1 st]. cbn [fst] in H1.
  destruct (negb _); [done|]. eapply evolves_trans; [exact H1|]. by apply bind_device_evolves.
Qed.

Lemma report_device_failure_evolves k index reason : 0 <= index -> evolves k (fst (report_device_failure k index reason)).
Proof.
  intros Hi. unfold report_device_failure. destruct (_ || _); [apply evolves_refl|]. destruct (bool_decide _); [apply evolves_refl|].
  destruct (resolve _ _) as [target|]; [|apply evolves_refl]. destruct (_ =? _); [apply evolves_mark; [apply evolves_refl|done]|]. destruct (_ <=? _); [apply evolves_refl|].
  set (i := Z.to_nat _). set (k1 := call_detach _ i index). assert (evolves k k1) as H1 by (apply evolves_call_detach; [by apply evolves_modify; [apply evolves_refl|]|done]).
  destruct (negb _); [by apply evolves_modify|]. pose proof (evolves_release k k1 index (id (driver_at k1 i)) H1 Hi) as H2. destruct (release _ _ _) as [ds st]. cbn [fst] in H2.
  destruct (negb _); [done|]. apply evolves_mark; [by apply evolves_modify|done].
Qed.

Lemma bind_all_loop_evolves fuel : forall k index aggregate, 0 <= index -> evolves k (fst (bind_all_loop fuel k index aggregate)).
Proof.
  induction fuel as [|fuel IH]; intros k index aggregate Hi; cbn [bind_all_loop]; [apply evolves_refl|]. destruct (negb _); [apply evolves_refl|].
  destruct (Devices.get _ _) as [target|]; [|apply IH; lia]. destruct (negb _); [apply IH; lia|]. pose proof (bind_device_evolves k index Hi) as H1.
  destruct (bind_device k index) as [k1 st]. cbn [fst] in H1. eapply evolves_trans; [exact H1|]. apply IH. lia.
Qed.

Lemma bind_all_evolves k : evolves k (fst (bind_all k)).
Proof. unfold bind_all. destruct (_ || _); [apply evolves_refl|]. apply bind_all_loop_evolves. lia. Qed.

(** ** The invariant *)

Inductive call :=
  | CDevice (o : op)
  | CRegister (descriptor : Descriptor) (has_id : bool)
  | CBind (index : Z)
  | CUnbind (index : Z)
  | CRebind (index : Z)
  | CReport (index : Z) (reason : KStatus)
  | CBindAll
  | CInitialize.

Definition call_ok (c : call) : Prop :=
  match c with
  | CDevice o => op_ok o
  | CBind index | CUnbind index | CRebind index | CReport index _ => 0 <= index
  | CRegister _ _ | CBindAll | CInitialize => True
  end.

Definition call_step k (c : call) : Kernel W :=
  match c with
  | CDevice o => with_devices k (step (devices k) o)
  | CRegister descriptor has_id => fst (fst (register_driver k descriptor has_id))
  | CBind index => fst (bind_device k index)
  | CUnbind index => fst (unbind_device k index)
  | CRebind index => fst (rebind_device k index)
  | CReport index reason => fst (report_device_failure k index reason)
  | CBindAll => fst (bind_all k)
  | CInitialize => fst (initialize k)
  end.

(** Before the managers are initialized. *)
Definition boot (w : W) : Kernel W := mkKernel w zeroed (replicate MAXIMUM_DRIVERS zero_driver) 0 false.

Lemma initialize_kernel_ok k : devices_ok (devices k) -> kernel_ok (fst (initialize k)).
Proof.
  intros Hd. unfold initialize. set (k0 := mkKernel _ _ _ _ true). assert (kernel_ok k0) as H0 by (constructor; [done|apply length_replicate|cbn; lia|cbn; lia]).
  destruct (evolves_ok _ _ (builtin_evolves k0) H0) as [[H1 H2 H3 H4] _]. destruct (kurogane_register_builtin_drivers k0) as [k1 st]. cbn [fst] in *.
  destruct (_ && _); constructor; cbn; first [done|lia].
Qed.

Lemma call_step_ok k c : kernel_ok k -> call_ok c -> kernel_ok (call_step k c).
Proof.
  intros Hk Hc. destruct c as [o|descriptor has_id|index|index|index|index reason| |]; cbn in Hc |- *.
  - destruct Hk as [H1 H2 H3 H4]. constructor; [by apply dev_step_ok|done..].
  - refine (proj1 (change_ok _ _ _ Hk)). apply change_register.
  - by eapply evolves_ok; [apply bind_device_evolves|].
  - by eapply evolves_ok; [apply unbind_device_evolves|].
  - by eapply evolves_ok; [apply rebind_device_evolves|].
  - by eapply evolves_ok; [apply report_device_failure_evolves|].
  - by eapply evolves_ok; [apply bind_all_evolves|].
  - apply initialize_kernel_ok, Hk.
Qed.

Lemma calls_ok cs : forall k, kernel_ok k -> Forall call_ok cs -> kernel_ok (foldl call_step k cs).
Proof.
  induction cs as [|c cs IH]; intros k Hk Hcs; [done|]. apply Forall_cons in Hcs as [Hc Hcs]. apply (IH (call_step k c)); [by apply call_step_ok|done].
Qed.

(** Under any sequence of calls of both managers, with callbacks that may make any
    of these calls themselves, the table of devices stays consistent, and every
    registered driver has its index for its id, a name, and its callbacks. *)
Theorem drivers_invariant w cs : Forall call_ok cs -> kernel_ok (foldl call_step (call_step (with_devices (boot w) (Devices.initialize zeroed)) CInitialize) cs).
Proof. intros Hcs. apply calls_ok; [|done]. apply initialize_kernel_ok, initial_ok. Qed.

(** ** The owner of a bound device *)

Lemma get_step_status s index st d : devices_ok s -> 0 <= index -> Devices.get s index = Some d ->
  exists d', Devices.get (fst (set_status s index st)) index = Some d' /\ Devices.status d' = st /\ driver d' = driver d.
Proof.
  intros Hs Hi Hd. unfold set_status. rewrite Hd. cbn [fst]. destruct (bool_decide_reflect (Devices.status d = st)) as [E|E]; cbn [negb]; [by exists d|].
  destruct (get_id s index d Hs Hi Hd) as (_ & Hlt & _). pose proof (proj1 (get_Some s index d Hs Hi) Hd) as [_ Ha].
  exists (Devices.bump_lifecycle (with_status d st)). split; [|done]. rewrite get_store by (try lia; by apply devices_table). rewrite decide_True by done.
  change (active (Devices.bump_lifecycle (with_status d st))) with (active d). by rewrite Ha.
Qed.

(** A handle that was given for a device resolves to nothing else. *)
Lemma resolve_handle_for s s' index d : devices_ok s -> 0 <= index -> resolve s' (handle_for s index) = Some d -> Devices.get s' index = Some d.
Proof.
  intros Hs Hi Hr. apply resolve_Some in Hr as (i & g & Hd & Hg & _). unfold handle_for in Hd. destruct (Devices.get s index) as [x|] eqn:Hx; [|done].
  destruct (get_id s index x Hs Hi Hx) as (Hid & Hlt & Hu & Hne). pose proof (dv_count s Hs). rewrite Hid, decode_encode in Hd by (done || lia). by injection Hd as <- <-.
Qed.

Lemma owned_get k k0 index i : devices_ok (devices k0) -> 0 <= index -> owned k (handle_for (devices k0) index) (Z.of_nat i) = true ->
  exists target, Devices.get (devices k) index = Some target /\ driver target = Z.of_nat i.
Proof.
  intros Hs Hi Ho. unfold owned in Ho. destruct (resolve _ _) as [target|] eqn:E; [|done]. apply Z.eqb_eq in Ho. exists target. split; [|done].
  by apply (resolve_handle_for _ _ _ _ Hs Hi).
Qed.

(** The device is the driver's, and works. *)
Definition bound k index (i : nat) : Prop :=
  (i < g_count k)%nat /\ status (driver_at k i) = Ready /\ last_failure (driver_at k i) = Ok /\
  exists target, Devices.get (devices k) index = Some target /\ driver target = Z.of_nat i /\ Devices.status target = Devices.Ready.

Lemma detach_selected_fails k index handle selected reason st : snd (detach_selected k index handle selected reason) = Return st -> st ≠ Ok.
Proof.
  unfold detach_selected. cbv zeta. destruct (negb (owned _ _ _)); [intros [= <-]; done|]. destruct (release _ _ _) as [ds rst].
  destruct (bool_decide_reflect (rst = Ok)); cbn [negb]; [destruct (resolve _ _); [done|intros [= <-]; done]|intros [= <-]; done].
Qed.

Lemma attach_selected_bound k index selected : kernel_ok k -> 0 <= index -> (selected < g_count k)%nat -> snd (attach_selected k index selected) = Return Ok ->
  bound (fst (attach_selected k index selected)) index selected.
Proof.
  intros Hk Hi Hsel. unfold attach_selected. pose proof (evolves_claim k k index (id (driver_at k selected)) (Some (name (driver_at k selected))) (evolves_refl k) Hi) as E1.
  destruct (claim _ _ _ _) as [ds st1]. cbn [fst] in E1. destruct (bool_decide_reflect (st1 = Ok)); cbn [negb]; [|by intros [= ->]]. set (k1 := with_devices k ds) in *.
  destruct (negb (owned _ _ _)); [done|]. set (k2 := mark k1 index Initializing). assert (evolves k k2) as E2 by (by apply evolves_mark).
  pose proof (evolves_lifecycle k k2 (attach (driver_at k2 selected)) (context (driver_at k2 selected)) index (timeout_ticks (driver_at k2 selected)) E2 Hi) as E3.
  destruct (lifecycle_callback _ _ k2 _ _) as [k3 st3]. cbn [fst] in E3. destruct (evolves_ok _ _ E1 Hk) as [Hk1 _], (evolves_ok _ _ E3 Hk) as [Hk3 (Hc & _ & _)].
  assert (selected < g_count k3)%nat as Hsel3 by lia. destruct (ko_drivers k3 Hk3 selected Hsel3) as [Hid _]. rewrite Hid.
  destruct (owned k3 _ (Z.of_nat selected)) eqn:Ho; cbn [negb]; [|done]. destruct (bool_decide_reflect (st3 = Ok)) as [E|E].
  - intros _. destruct (owned_get k3 k1 index selected (ko_devices k1 Hk1) Hi Ho) as (target & Ht & Hdrv). cbn [fst].
    assert (driver_at (mark (modify k3 selected attached) index Devices.Ready) selected = attached (driver_at k3 selected)) as Hd.
    { change (driver_at (mark (modify k3 selected attached) index Devices.Ready) selected) with (driver_at (modify k3 selected attached) selected).
      rewrite driver_at_modify. rewrite decide_True; [done|]. split; [done|]. rewrite (ko_length k3 Hk3). pose proof (ko_count k3 Hk3). lia. }
    split; [done|]. rewrite Hd. split; [done|]. split; [done|]. destruct (get_step_status (devices k3) index Devices.Ready target (ko_devices k3 Hk3) Hi Ht) as (t' & Ht' & Hst & Hdr).
    exists t'. split; [done|]. split; [congruence|done].
  - intros Hr. by destruct (detach_selected_fails _ _ _ _ _ _ Hr).
Qed.

Lemma try_selected_bound k index handle selected : kernel_ok k -> 0 <= index -> (selected < g_count k)%nat ->
  match snd (try_selected k index handle selected) with
  | Return Ok => bound (fst (try_selected k index handle selected)) index selected
  | Return _ => True
  | Continue _ last => last ≠ Ok
  end.
Proof.
  intros Hk Hi Hsel. unfold try_selected. set (k1 := mark _ _ _). assert (evolves k k1) as H1 by (apply evolves_mark; [by apply evolves_modify; [apply evolves_refl|]|done]).
  pose proof (evolves_lifecycle k k1 (probe (driver_at k1 selected)) (context (driver_at k1 selected)) index (timeout_ticks (driver_at k1 selected)) H1 Hi) as H2.
  destruct (lifecycle_callback _ _ k1 _ _) as [k2 st]. cbn [fst] in H2. destruct (resolve _ _); [|done]. destruct (bool_decide_reflect (st = Ok)); cbn [negb snd]; [|done].
  destruct (evolves_ok _ _ H2 Hk) as [Hk2 (Hc & _ & _)]. pose proof (attach_selected_bound k2 index selected Hk2 Hi ltac:(lia)) as Hb.
  destruct (snd (attach_selected k2 index selected)) as [[]|handle' last] eqn:E; try done; [by apply Hb|]. revert E. unfold attach_selected.
  destruct (claim _ _ _ _) as [ds st1]. destruct (negb _); [done|]. destruct (negb _); [done|]. destruct (lifecycle_callback _ _ _ _ _) as [k3 st3]. destruct (negb _); [done|].
  destruct (bool_decide_reflect (st3 = Ok)); [done|]. unfold detach_selected. cbv zeta. destruct (negb _); [done|]. destruct (release _ _ _) as [ds' rst]. destruct (negb _); [done|].
  destruct (resolve _ _); [|done]. by intros [= _ <-].
Qed.

(** The selected driver is registered. *)
Lemma select_loop_range fuel : forall k index handle tried i selected, kernel_ok k -> 0 <= index -> (forall j, selected = Some j -> (j < g_count k)%nat) ->
  match select_loop fuel k index handle tried i selected with (k', Some (Some j)) => (j < g_count k')%nat | _ => True end.
Proof.
  induction fuel as [|fuel IH]; intros k index handle tried i selected Hk Hi Hsel; cbn [select_loop]; [destruct selected; [by apply Hsel|done]|].
  destruct (Nat.ltb_spec i (g_count k)) as [Hlt|]; cbn [negb]; [|destruct selected; [by apply Hsel|done]]. destruct (nth i tried false); [by apply IH|].
  pose proof (match_evolves (match_ (driver_at k i)) (context (driver_at k i)) k index Hi) as H. destruct (match_callback _ _ k index) as [k' matches]. cbn [fst] in H.
  destruct (evolves_ok _ _ H Hk) as [Hk' (Hc & _)]. destruct (resolve _ _); [|done]. apply IH; [done|done|]. intros j Hj. destruct (_ && _); [injection Hj as <-; lia|].
  specialize (Hsel j Hj). lia.
Qed.

Lemma bind_loop_bound fuel : forall k index handle tried attempt matched last, kernel_ok k -> 0 <= index -> last ≠ Ok ->
  snd (bind_loop fuel k index handle tried attempt matched last) = Ok -> exists i, bound (fst (bind_loop fuel k index handle tried attempt matched last)) index i.
Proof.
  assert (forall k index handle matched last, last ≠ Ok -> snd (bind_end k index handle matched last) ≠ Ok) as Hend.
  { intros k index handle matched last Hl. unfold bind_end. destruct matched; [|done]. by destruct (resolve _ _). }
  induction fuel as [|fuel IH]; intros k index handle tried attempt matched last Hk Hi Hl; cbn [bind_loop]; [intros E; by destruct (Hend _ _ _ _ _ Hl E)|].
  destruct (negb _); [intros E; by destruct (Hend _ _ _ _ _ Hl E)|]. pose proof (select_loop_evolves MAXIMUM_DRIVERS k index handle tried 0 None Hi) as E1.
  pose proof (select_loop_range MAXIMUM_DRIVERS k index handle tried 0 None Hk Hi ltac:(done)) as Hr. destruct (select_loop _ _ _ _ _ _ _) as [k1 [[selected|]|]]; cbn [fst] in E1; [|intros E; by destruct (Hend _ _ _ _ _ Hl E)|done].
  destruct (evolves_ok _ _ E1 Hk) as [Hk1 _]. pose proof (try_selected_evolves k1 index handle selected Hi) as E2. pose proof (try_selected_bound k1 index handle selected Hk1 Hi Hr) as Hb.
  destruct (try_selected k1 index handle selected) as [k2 [st|handle' last']]; cbn [fst snd] in *; [intros ->; by exists selected|]. destruct (evolves_ok _ _ E2 Hk1) as [Hk2 _]. by apply IH.
Qed.

(** C18: Whatever the callbacks do meanwhile - even remove the device, register another in
    its slot, or bind it themselves - a bind that reports success leaves the device in
    use and ready, owned by a registered driver that is ready. *)
Theorem bind_device_owner k index : kernel_ok k -> 0 <= index -> snd (bind_device k index) = Ok -> exists i, bound (fst (bind_device k index)) index i.
Proof.
  intros Hk Hi. unfold bind_device. destruct (_ || _); [done|]. destruct (resolve _ _) as [target|]; [|done]. destruct (negb _); [done|]. by apply bind_loop_bound.
Qed.

End theorems.

(** ** Witnesses *)

(** Callbacks that match everything; function 1 succeeds, function 2 fails, function 3
    registers another device, function 4 replaces its device by another, function 5
    reports the failure of its device. *)
Definition example_callbacks : Callbacks Z := {|
  match_callback fn ctx k index := (k, true);
  lifecycle_callback fn ctx k index ticks :=
    let k := with_world k (world k + 1) in
    if fn =? 1 then (k, Ok)
    else if fn =? 2 then (k, IoError)
    else if fn =? 3 then (with_devices k (step (devices k) (ORegister (example_disk index) true)), Ok)
    else (with_devices (with_devices k (step (devices k) (ORemove index))) (step (devices (with_devices k (step (devices k) (ORemove index)))) (ORegister example_bus true)), Ok);
  detach_callback fn ctx k index := with_devices k (step (devices k) (OStatus index Disabled));
  kurogane_register_builtin_drivers k := (k, Ok) |}.
#[local] Existing Instance example_callbacks.

#[local] Instance example_lawful : Lawful Z.
Proof.
  split.
  - intros fn ctx k index _. apply evolves_refl.
  - intros fn ctx k index ticks Hi. cbn [lifecycle_callback example_callbacks]. assert (evolves k (with_world k (world k + 1))) as H by (eapply rtc_r; [apply evolves_refl|apply change_world]).
    destruct (fn =? 1); [done|]. destruct (fn =? 2); [done|]. destruct (fn =? 3); cbn [fst].
    + by apply (evolves_op _ _ (ORegister (example_disk index) true)).
    + apply (evolves_op _ _ (ORegister example_bus true)); [by apply (evolves_op _ _ (ORemove index))|cbn; unfold INVALID_DEVICE_ID, UINT32_MAX; lia|done].
  - intros fn ctx k index Hi. by apply (evolves_op _ _ (OStatus index Disabled)); [apply evolves_refl|..].
  - intros k. apply evolves_refl.
Qed.

Definition example_driver_descriptor (c prio probe_fn attach_fn : Z) : Descriptor := mkDescriptor (Some [c]) prio 100 1 probe_fn attach_fn 1 0.

(** The first driver to try fails, the second registers a child of the device; and two
    drivers of which the first replaces the device. *)
Definition example_calls : list call :=
  [CDevice (ORegister (example_disk INVALID_DEVICE_ID) true); CRegister (example_driver_descriptor 97 1 3 1) true; CRegister (example_driver_descriptor 98 2 1 2) true].

Definition example_kernel : Kernel Z := foldl call_step (call_step (with_devices (boot 0) (Devices.initialize zeroed)) CInitialize) example_calls.

Lemma example_calls_ok : Forall call_ok example_calls.
Proof. repeat (apply Forall_cons_2; [cbn; unfold INVALID_DEVICE_ID, UINT32_MAX; first [lia|exact I]|]). apply Forall_nil_2. Qed.

Lemma drivers_invariant_witness : Forall call_ok (example_calls ++ [CBind 0; CReport 0 IoError; CBindAll]) /\
  kernel_ok (foldl call_step (call_step (with_devices (boot 0) (Devices.initialize zeroed)) CInitialize) (example_calls ++ [CBind 0; CReport 0 IoError; CBindAll])).
Proof.
  assert (Forall call_ok (example_calls ++ [CBind 0; CReport 0 IoError; CBindAll])) as H.
  { apply Forall_app. split; [exact example_calls_ok|]. repeat (apply Forall_cons_2; [cbn; first [lia|exact I]|]). apply Forall_nil_2. }
  split; [exact H|]. exact (drivers_invariant 0 (example_calls ++ [CBind 0; CReport 0 IoError; CBindAll]) H).
Defined.

Lemma example_kernel_ok : kernel_ok example_kernel.
Proof. apply calls_ok; [apply initialize_kernel_ok, initial_ok|exact example_calls_ok]. Qed.

Lemma bind_device_owner_witness : snd (bind_device example_kernel 0) = Ok /\ Devices.g_active_count (devices (fst (bind_device example_kernel 0))) = 2%nat /\
  exists i, bound (fst (bind_device example_kernel 0)) 0 i.
Proof.
  assert (snd (bind_device example_kernel 0) = Ok) as E by (vm_compute; reflexivity). split; [exact E|]. split; [vm_compute; reflexivity|].
  apply (bind_device_owner example_kernel 0); [exact example_kernel_ok|lia|exact E].
Defined.

(** A driver whose [probe] replaces the device does not get the new one. *)
Example replaced_device : let k := foldl call_step example_kernel [CRegister (example_driver_descriptor 99 3 4 1) true] in
  snd (bind_device k 0) = NoDevice /\ driver <$> Devices.get (devices (fst (bind_device k 0))) 0 = Some INVALID_DRIVER_ID.
Proof. split; vm_compute; reflexivity. Qed.
