(* ===== verification/DriverBinding.v ===== *)
(** * Binding with callbacks that leave the managers alone

    [Quiet] callbacks only look at the device and change the drivers' own state.  Then
    binding tries the matching drivers by falling priority, the earlier registered first
    among equals, until one probes and attaches the device ([bind_device_reference]); and
    the number of attached devices that each driver reports is the number of devices it
    owns, after any sequence of calls ([attached_counts]). *)

From stdpp Require Import sorting.
From S2P Require Import Prelude KStatus Devices Drivers.

(** What the callbacks do: whether a driver matches a device, what a call of [probe] or
    [attach] makes of the drivers' state, and what [detach] makes of it. *)
Class Quiet (W : Type) {calls : Callbacks W} := {
  matches : Z -> Z -> Z -> bool;
  effect : Z -> Z -> W -> Z -> Z -> W * KStatus;
  undo : Z -> Z -> W -> Z -> W;
  match_quiet fn ctx (k : Kernel W) index : match_callback fn ctx k index = (k, matches fn ctx index);
  lifecycle_quiet fn ctx (k : Kernel W) index ticks :
    lifecycle_callback fn ctx k index ticks = (with_world k (fst (effect fn ctx (world k) index ticks)), snd (effect fn ctx (world k) index ticks));
  detach_quiet fn ctx (k : Kernel W) index : detach_callback fn ctx k index = with_world k (undo fn ctx (world k) index);
  builtin_quiet (k : Kernel W) : evolves k (fst (kurogane_register_builtin_drivers k)) }.

#[export] Instance quiet_lawful {W} {calls : Callbacks W} {quiet : Quiet W} : Lawful W.
Proof.
  split.
  - intros fn ctx k index _. rewrite match_quiet. apply evolves_refl.
  - intros fn ctx k index ticks _. rewrite lifecycle_quiet. eapply rtc_r; [apply evolves_refl|apply change_world].
  - intros fn ctx k index _. rewrite detach_quiet. eapply rtc_r; [apply evolves_refl|apply change_world].
  - apply builtin_quiet.
Qed.

(** ** Single calls of the device manager *)

(** [s'] differs from [s] at device [i] only, where it has [d]. *)
Definition only_at (s s' : Devices) (i : Z) (d : Device) : Prop :=
  Devices.get s' i = Some d /\ (forall j, 0 <= j -> j ≠ i -> Devices.get s' j = Devices.get s j) /\ Devices.g_initialized s' = Devices.g_initialized s /\
  Devices.g_count s' = Devices.g_count s.

Lemma only_at_refl s i d : Devices.get s i = Some d -> only_at s s i d.
Proof. done. Qed.

Lemma only_at_trans s1 s2 s3 i d e : only_at s1 s2 i d -> only_at s2 s3 i e -> only_at s1 s3 i e.
Proof. intros (A1 & A2 & A3 & A4) (B1 & B2 & B3 & B4). split; [done|]. split; [|split; congruence]. intros j Hj Hne. by rewrite B2, A2. Qed.

Lemma store_only_at s i d d' : devices_ok s -> 0 <= i -> Devices.get s i = Some d -> active d' = active d -> only_at s (store s i d') i d'.
Proof.
  intros Hs Hi Hd Ha. destruct (get_id s i d Hs Hi Hd) as (_ & Hlt & _). pose proof (proj1 (get_Some s i d Hs Hi) Hd) as [_ Hact]. rewrite Hact in Ha.
  split; [rewrite get_store, decide_True, Ha by (try lia; try by apply devices_table); done|]. split; [|done].
  intros j Hj Hne. rewrite get_store, decide_False by (try lia; try by apply devices_table); done.
Qed.

(** A change of status keeps the device's handle and owner. *)
Lemma mark_only_at s i d st : devices_ok s -> 0 <= i -> Devices.get s i = Some d ->
  exists d', only_at s (fst (set_status s i st)) i d' /\ Devices.status d' = st /\ driver d' = driver d /\ handle_for (fst (set_status s i st)) i = handle_for s i.
Proof.
  intros Hs Hi Hd. unfold set_status. rewrite Hd. cbn [fst]. destruct (bool_decide_reflect (Devices.status d = st)) as [E|E]; cbn [negb].
  - exists d. split; [by apply only_at_refl|]. done.
  - exists (Devices.bump_lifecycle (with_status d st)). pose proof (store_only_at s i d (Devices.bump_lifecycle (with_status d st)) Hs Hi Hd eq_refl) as H.
    split; [done|]. split; [done|]. split; [done|]. unfold handle_for. destruct H as [-> _]. by rewrite Hd.
Qed.

Lemma claim_only_at s i d drv c text : devices_ok s -> 0 <= i -> Devices.get s i = Some d -> driver d = INVALID_DRIVER_ID -> drv ≠ INVALID_DRIVER_ID ->
  exists d', snd (claim s i drv (Some (c :: text))) = Ok /\ only_at s (fst (claim s i drv (Some (c :: text)))) i d' /\ driver d' = drv.
Proof.
  intros Hs Hi Hd Hn Hdrv. unfold claim. rewrite Hd, Hn. destruct (Z.eqb_spec drv INVALID_DRIVER_ID); [done|]. cbn [orb negb Z.eqb fst snd]. eexists. split; [done|].
  split; [apply store_only_at with (d := d); [done|done|done|done]|done].
Qed.

Lemma release_only_at s i d drv : devices_ok s -> 0 <= i -> Devices.get s i = Some d -> driver d = drv -> drv ≠ INVALID_DRIVER_ID ->
  exists d', snd (release s i drv) = Ok /\ only_at s (fst (release s i drv)) i d' /\ driver d' = INVALID_DRIVER_ID.
Proof.
  intros Hs Hi Hd <- Hdrv. unfold release. rewrite Hd, Z.eqb_refl. destruct (Z.eqb_spec (driver d) INVALID_DRIVER_ID); [done|]. cbn [orb negb fst snd]. eexists. split; [done|].
  split; [apply store_only_at with (d := d); [done|done|done|done]|done].
Qed.

(** The handle of a device resolves to it. *)
Lemma resolve_current s i d : devices_ok s -> 0 <= i -> Devices.get s i = Some d -> resolve s (handle_for s i) = Some d.
Proof.
  intros Hs Hi Hd. destruct (get_id s i d Hs Hi Hd) as (Hid & Hlt & Hu & Hne). apply resolve_Some. exists i, (generation d). split; [|done].
  unfold handle_for. rewrite Hd, Hid. apply decode_encode; [|done|done]. pose proof (dv_count s Hs). lia.
Qed.

Section binding.
Context {W : Type} {calls : Callbacks W} {quiet : Quiet W}.
Implicit Types (k : Kernel W) (index : Z).

(** ** The reference *)

Definition candidate k index (i : nat) : bool := matches (match_ (driver_at k i)) (context (driver_at k i)) index.

(** Driver [i] comes before driver [j]. *)
Definition precedes k (i j : nat) : Prop :=
  priority (driver_at k j) < priority (driver_at k i) \/ priority (driver_at k j) = priority (driver_at k i) /\ (i <= j)%nat.

#[global] Instance precedes_dec k : RelDecision (precedes k).
Proof. intros i j. unfold precedes. apply _. Defined.
#[global] Instance precedes_total k : Total (precedes k).
Proof. intros i j. unfold precedes. lia. Qed.
#[global] Instance precedes_trans k : Transitive (precedes k).
Proof. intros i j l. unfold precedes. lia. Qed.

(** The matching drivers, in the order in which they are to be tried. *)
Definition ranking k index : list nat := merge_sort (precedes k) (filter (fun i => candidate k index i = true) (seq 0 (g_count k))).

(** The search among the drivers of a list: the driver that took the device, if any, the
    last failure, and the drivers' state after all that was tried. *)
Fixpoint search k (w : W) index (order : list nat) (last : KStatus) : W * option nat * KStatus :=
  match order with
  | [] => (w, None, last)
  | i :: order =>
      let d := driver_at k i in
      let '(w, st) := effect (probe d) (context d) w index (timeout_ticks d) in
      if negb (bool_decide (st = Ok)) then search k w index order st
      else
        let '(w, st) := effect (attach d) (context d) w index (timeout_ticks d) in
        if bool_decide (st = Ok) then (w, Some i, last)
        else search k (if negb (detach d =? 0) then undo (detach d) (context d) w index else w) index order st
  end.

Lemma ranking_elem k index i : i ∈ ranking k index <-> (i < g_count k)%nat /\ candidate k index i = true.
Proof. unfold ranking. rewrite merge_sort_Permutation, list_elem_of_filter, elem_of_seq. intuition lia. Qed.

Lemma ranking_NoDup k index : NoDup (ranking k index).
Proof. unfold ranking. rewrite merge_sort_Permutation. apply NoDup_filter, NoDup_seq. Qed.

Lemma ranking_length k index : (length (ranking k index) <= g_count k)%nat.
Proof. unfold ranking. rewrite merge_sort_Permutation. etransitivity; [apply length_filter|]. by rewrite length_seq. Qed.

Lemma ranking_sorted k index : StronglySorted (precedes k) (ranking k index).
Proof. apply StronglySorted_merge_sort; apply _. Qed.

(** ** The selection *)

(** The drivers that the selection looks at from [i] on. *)
Definition eligible k index (tried : list bool) (j : nat) : Prop := (j < g_count k)%nat /\ nth j tried false = false /\ candidate k index j = true.

Lemma select_quiet fuel : forall k index handle tried i selected, is_Some (resolve (devices k) handle) -> (g_count k <= fuel + i)%nat ->
  (forall j, selected = Some j -> (j < i)%nat) ->
  exists r, select_loop fuel k index handle tried i selected = (k, Some r) /\
    match r with
    | None => selected = None /\ forall j, (i <= j)%nat -> ~ eligible k index tried j
    | Some m => (selected = Some m \/ eligible k index tried m) /\ (forall j, (i <= j)%nat -> eligible k index tried j -> precedes k m j) /\
        (forall j, selected = Some j -> precedes k m j)
    end.
Proof.
  assert (forall k j, precedes k j j) as Hrefl by (intros k j; unfold precedes; lia).
  induction fuel as [|fuel IH]; intros k index handle tried i selected Hr Hf Hsel; cbn [select_loop].
  - exists selected. split; [done|]. destruct selected as [m|]; [|split; [done|intros j Hj (Hlt & _); lia]]. split; [by left|]. split; [intros j Hj (Hlt & _); lia|by intros j [= <-]].
  - destruct (Nat.ltb_spec i (g_count k)) as [Hlt|Hge]; cbn [negb].
    2: { exists selected. split; [done|]. destruct selected as [m|]; [|split; [done|intros j Hj (Hlt & _); lia]]. split; [by left|]. split; [intros j Hj (Hlt & _); lia|by intros j [= <-]]. }
    assert (forall j, (i <= j)%nat -> eligible k index tried j -> j = i \/ (S i <= j)%nat) as Hsplit by (intros j Hj _; lia).
    destruct (nth i tried false) eqn:Et.
    + destruct (IH k index handle tried (S i) selected Hr ltac:(lia)) as (r & -> & Hres); [intros j Hj; specialize (Hsel j Hj); lia|]. exists r. split; [done|].
      assert (~ eligible k index tried i) as Hno by (intros (_ & E & _); congruence). destruct r as [m|].
      * destruct Hres as (H1 & H2 & H3). split; [done|]. split; [|done]. intros j Hj He. destruct (Hsplit j Hj He) as [->|]; [done|by apply H2].
      * destruct Hres as (H1 & H2). split; [done|]. intros j Hj He. destruct (Hsplit j Hj He) as [->|H]; [done|by apply (H2 j H)].
    + rewrite match_quiet. destruct Hr as [t Hr]. rewrite Hr. fold (candidate k index i).
      set (better := match selected with None => true | Some j => priority (driver_at k j) <? priority (driver_at k i) end).
      destruct (IH k index handle tried (S i) (if candidate k index i && better then Some i else selected) (ex_intro _ t Hr) ltac:(lia)) as (r & -> & Hres).
      { intros j. destruct (_ && _); [intros [= <-]; lia|]. intros Hj. specialize (Hsel j Hj). lia. }
      exists r. split; [done|]. destruct (candidate k index i) eqn:Ec; cbn [andb] in Hres.
      2: { assert (~ eligible k index tried i) as Hno by (intros (_ & _ & E); congruence). destruct r as [m|].
        - destruct Hres as (H1 & H2 & H3). split; [done|]. split; [|done]. intros j Hj He. destruct (Hsplit j Hj He) as [->|]; [done|by apply H2].
        - destruct Hres as (H1 & H2). split; [done|]. intros j Hj He. destruct (Hsplit j Hj He) as [->|H]; [done|by apply (H2 j H)]. }
      assert (eligible k index tried i) as Hel by done. destruct better eqn:Eb; destruct r as [m|]; try (by destruct Hres).
      * destruct Hres as (H1 & H2 & H3). pose proof (H3 i eq_refl) as Hmi. split; [right; destruct H1 as [[= <-]|]; done|]. split.
        -- intros j Hj He. destruct (Hsplit j Hj He) as [->|]; [done|by apply H2].
        -- intros j ->. transitivity i; [done|]. cbn in Eb. left. lia.
      * destruct Hres as (H1 & H2 & H3). split; [done|]. split; [|done]. intros j Hj He. destruct (Hsplit j Hj He) as [->|]; [|by apply H2].
        unfold better in Eb. destruct selected as [s|]; [|done]. transitivity s; [by apply H3|]. specialize (Hsel s eq_refl). unfold precedes. lia.
      * destruct Hres as (H1 & _). unfold better in Eb. by rewrite H1 in Eb.
Qed.

(** ** An attempt *)

(** [k] differs from [k0] by changes of device [index], which is now [d], and by changes of
    the drivers' counters and state; of the counts of attached devices only those in
    [counts] differ. *)
Record differs k0 k index (d : Device) (counts : nat -> Z) : Prop := {
  df_ok : kernel_ok k;
  df_keeps : keeps k0 k;
  df_count : g_count k = g_count k0;
  df_device : only_at (devices k0) (devices k) index d;
  df_attached : forall i, (i < g_count k0)%nat -> attached_count (driver_at k i) = counts i }.

Definition same_counts k (i : nat) : Z := attached_count (driver_at k i).

Lemma differs_refl k index d : kernel_ok k -> Devices.get (devices k) index = Some d -> differs k k index d (same_counts k).
Proof. intros Hk Hd. by constructor. Qed.

Lemma differs_world k0 k index d c w : differs k0 k index d c -> differs k0 (with_world k w) index d c.
Proof. intros [[H1 H2 H3 H4] (K1 & K2 & K3) H6 H7 H8]. by constructor. Qed.

(** A step that the managers take on their own. *)
Lemma differs_evolves k0 k k' index d d' c c' : differs k0 k index d c -> evolves k k' -> g_count k' = g_count k -> only_at (devices k) (devices k') index d' ->
  (forall i, (i < g_count k0)%nat -> attached_count (driver_at k i) = c i -> attached_count (driver_at k' i) = c' i) -> differs k0 k' index d' c'.
Proof.
  intros [H1 H2 H3 H4 H5] He Hc Hd Hcounts. destruct (evolves_ok _ _ He H1) as [Hk (K1 & K2 & K3)]. constructor; [done| |congruence| |].
  - destruct H2 as (A1 & A2 & A3). split; [lia|]. split; [congruence|]. intros i Hi. etransitivity; [by apply A3|apply K3; lia].
  - by eapply only_at_trans.
  - intros i Hi. apply Hcounts; [done|by apply H5].
Qed.

Lemma differs_modify k0 k index d c i f : differs k0 k index d c -> (i < g_count k0)%nat -> (forall x, same_driver x (f x)) ->
  differs k0 (modify k i f) index d (fun j => if decide (j = i) then attached_count (f (driver_at k i)) else c j).
Proof.
  intros H Hi Hf. pose proof H as [H1 (A1 & A2 & A3) H3 H4 H5]. apply (differs_evolves k0 k _ index d d c); [done|by apply evolves_modify; [apply evolves_refl|]|done|by apply only_at_refl, H4|].
  intros j Hj E. rewrite driver_at_modify. destruct (decide (j = i)) as [->|].
  - rewrite decide_True; [done|]. split; [done|]. rewrite (ko_length k H1). pose proof (ko_count k H1). lia.
  - by rewrite decide_False by naive_solver.
Qed.

(** Changes that keep the counts of attached devices. *)
Lemma differs_modify_same k0 k index d c i f : differs k0 k index d c -> (i < g_count k0)%nat -> (forall x, same_driver x (f x)) ->
  (forall x, attached_count (f x) = attached_count x) -> differs k0 (modify k i f) index d c.
Proof.
  intros H Hi Hf Ha. pose proof (differs_modify k0 k index d c i f H Hi Hf) as [H1 H2 H3 H4 H5]. constructor; try done. intros j Hj. rewrite (H5 j Hj), Ha.
  destruct (decide (j = i)) as [->|]; [by apply (df_attached _ _ _ _ _ H)|done].
Qed.

Lemma differs_mark k0 k index d c st : differs k0 k index d c -> 0 <= index ->
  exists d', differs k0 (mark k index st) index d' c /\ Devices.status d' = st /\ driver d' = driver d /\
    handle_for (devices (mark k index st)) index = handle_for (devices k) index /\ world (mark k index st) = world k.
Proof.
  intros H Hi. pose proof H as [H1 H2 H3 H4 H5]. destruct (mark_only_at (devices k) index d st (ko_devices k H1) Hi (proj1 H4)) as (d' & D1 & D2 & D3 & D4).
  exists d'. split; [|done]. apply (differs_evolves k0 k _ index d d' c); try done. apply evolves_mark; [apply evolves_refl|done].
Qed.

Lemma differs_resolve k0 k index d c : differs k0 k index d c -> 0 <= index -> resolve (devices k) (handle_for (devices k) index) = Some d.
Proof. intros [H1 _ _ H4 _] Hi. apply resolve_current; [apply H1|done|apply H4]. Qed.

Lemma differs_owned k0 k index d c i : differs k0 k index d c -> 0 <= index -> driver d = Z.of_nat i -> owned k (handle_for (devices k) index) (Z.of_nat i) = true.
Proof. intros H Hi E. unfold owned. rewrite (differs_resolve _ _ _ _ _ H Hi), E. apply Z.eqb_refl. Qed.

Lemma differs_id k0 k index d c i : differs k0 k index d c -> (i < g_count k0)%nat -> id (driver_at k i) = Z.of_nat i /\ same_driver (driver_at k0 i) (driver_at k i) /\ Z.of_nat i ≠ INVALID_DRIVER_ID.
Proof.
  intros [H1 (A1 & A2 & A3) H3 H4 H5] Hi. destruct (ko_drivers k H1 i ltac:(lia)) as [E _]. split; [done|]. split; [by apply A3|].
  pose proof (ko_count k H1) as Hc. unfold MAXIMUM_DRIVERS in Hc. unfold INVALID_DRIVER_ID, UINT32_MAX. lia.
Qed.

(** The claim of a device that nobody owns. *)
Lemma differs_claim k0 k index d c i : differs k0 k index d c -> 0 <= index -> (i < g_count k0)%nat -> driver d = INVALID_DRIVER_ID ->
  exists ds d', claim (devices k) index (id (driver_at k i)) (Some (name (driver_at k i))) = (ds, Ok) /\ differs k0 (with_devices k ds) index d' c /\ driver d' = Z.of_nat i.
Proof.
  intros H Hi Hlt Hd. pose proof H as [H1 H2 H3 H4 H5]. destruct (differs_id _ _ _ _ _ i H Hlt) as (Hid & _ & Hne). destruct (ko_drivers k H1 i ltac:(lia)) as (_ & Hname & _). rewrite Hid.
  destruct (name (driver_at k i)) as [|ch text]; [done|]. destruct (claim_only_at (devices k) index d (Z.of_nat i) ch text (ko_devices k H1) Hi (proj1 H4) Hd Hne) as (d' & E & Ho & Hdr).
  exists (fst (claim (devices k) index (Z.of_nat i) (Some (ch :: text)))), d'. split; [by rewrite <- E, <- surjective_pairing|]. split; [|done].
  apply (differs_evolves k0 k _ index d d' c); try done. by apply evolves_claim; [apply evolves_refl|].
Qed.

Lemma differs_release k0 k index d c i : differs k0 k index d c -> 0 <= index -> (i < g_count k0)%nat -> driver d = Z.of_nat i ->
  exists ds d', release (devices k) index (id (driver_at k i)) = (ds, Ok) /\ differs k0 (with_devices k ds) index d' c /\ driver d' = INVALID_DRIVER_ID.
Proof.
  intros H Hi Hlt Hd. pose proof H as [H1 H2 H3 H4 H5]. destruct (differs_id _ _ _ _ _ i H Hlt) as (Hid & _ & Hne). rewrite Hid.
  destruct (release_only_at (devices k) index d (Z.of_nat i) (ko_devices k H1) Hi (proj1 H4) Hd Hne) as (d' & E & Ho & Hdr).
  exists (fst (release (devices k) index (Z.of_nat i))), d'. split; [by rewrite <- E, <- surjective_pairing|]. split; [|done].
  apply (differs_evolves k0 k _ index d d' c); try done. by apply evolves_release; [apply evolves_refl|].
Qed.

(** The state after an attempt of driver [i] that went on. *)
Definition goes_on k0 index (w : W) (st : KStatus) (result : Kernel W * outcome) : Prop :=
  snd result = Continue (handle_for (devices (fst result)) index) st /\ world (fst result) = w /\
  exists d, differs k0 (fst result) index d (same_counts k0) /\ driver d = INVALID_DRIVER_ID.

(** The state after driver [i] has taken the device. *)
Definition one_more k (i j : nat) : Z := if decide (j = i) then u64 (same_counts k i + 1) else same_counts k j.

Definition taken k0 index (w : W) (i : nat) (result : Kernel W * outcome) : Prop :=
  snd result = Return Ok /\ world (fst result) = w /\
  exists d, differs k0 (fst result) index d (one_more k0 i) /\ driver d = Z.of_nat i /\ Devices.status d = Devices.Ready.

Definition after_detach k0 (i : nat) index (w : W) : W :=
  if negb (detach (driver_at k0 i) =? 0) then undo (detach (driver_at k0 i)) (context (driver_at k0 i)) w index else w.

(** The call of [detach], if there is one, which changes nothing else. *)
Lemma call_detach_quiet k i index : call_detach k i index = with_world k (after_detach k i index (world k)).
Proof. unfold call_detach, after_detach. destruct (negb _); [apply detach_quiet|by destruct k]. Qed.

Lemma after_detach_same k0 k i index w : same_driver (driver_at k0 i) (driver_at k i) -> after_detach k i index w = after_detach k0 i index w.
Proof. intros (_ & _ & _ & _ & _ & _ & _ & E1 & E2). unfold after_detach. by rewrite E1, E2. Qed.

Lemma detach_selected_quiet k0 k index d i reason : differs k0 k index d (same_counts k0) -> 0 <= index -> (i < g_count k0)%nat -> driver d = Z.of_nat i ->
  goes_on k0 index (after_detach k0 i index (world k)) reason (detach_selected k index (handle_for (devices k) index) i reason).
Proof.
  intros H Hi Hlt Hd. unfold detach_selected. set (k1 := modify k i (record_failure index Attach reason)). fold (call_detach k1 i index). rewrite call_detach_quiet.
  assert (differs k0 k1 index d (same_counts k0)) as H1 by (by apply differs_modify_same). destruct (differs_id _ _ _ _ _ i H1 Hlt) as (_ & Hsame & _).
  rewrite (after_detach_same k0 k1) by done. set (w := after_detach k0 i index (world k1)). set (k2 := with_world k1 w).
  assert (differs k0 k2 index d (same_counts k0)) as H2 by (by apply differs_world). destruct (differs_id _ _ _ _ _ i H2 Hlt) as (Hid & _ & _).
  change (handle_for (devices k) index) with (handle_for (devices k2) index). rewrite Hid at 1. rewrite (differs_owned _ _ _ _ _ i H2 Hi Hd). cbn [negb].
  destruct (differs_release _ _ _ _ _ i H2 Hi Hlt Hd) as (ds & d' & -> & H3 & Hd'). rewrite bool_decide_eq_true_2 by done. cbn [negb].
  rewrite (differs_resolve _ _ _ _ _ H3 Hi). split; [done|]. split; [done|]. by exists d'.
Qed.

Lemma attach_selected_quiet k0 k index d i : differs k0 k index d (same_counts k0) -> 0 <= index -> (i < g_count k0)%nat -> driver d = INVALID_DRIVER_ID ->
  let a := driver_at k0 i in
  let '(w, st) := effect (attach a) (context a) (world k) index (timeout_ticks a) in
  if bool_decide (st = Ok) then taken k0 index w i (attach_selected k index i)
  else goes_on k0 index (after_detach k0 i index w) st (attach_selected k index i).
Proof.
  intros H Hi Hlt Hd a. unfold attach_selected. destruct (differs_claim _ _ _ _ _ i H Hi Hlt Hd) as (ds & d1 & -> & H1 & Hd1). rewrite bool_decide_eq_true_2 by done. cbn [negb].
  set (k1 := with_devices k ds) in *. destruct (differs_id _ _ _ _ _ i H1 Hlt) as (-> & _ & _). rewrite (differs_owned _ _ _ _ _ i H1 Hi Hd1). cbn [negb].
  destruct (differs_mark _ _ _ _ _ Initializing H1 Hi) as (d2 & H2 & _ & Hd2 & Hh2 & Hw2). set (k2 := mark k1 index Initializing) in *.
  destruct (differs_id _ _ _ _ _ i H2 Hlt) as (_ & (_ & _ & _ & Et & _ & _ & Ea & _ & Ec) & _). rewrite Et, Ea, Ec. fold a. rewrite lifecycle_quiet, Hw2. change (world k1) with (world k).
  destruct (effect (attach a) (context a) (world k) index (timeout_ticks a)) as [w st]. cbn [fst snd]. set (k3 := with_world k2 w).
  assert (differs k0 k3 index d2 (same_counts k0)) as H3 by (by apply differs_world). destruct (differs_id _ _ _ _ _ i H3 Hlt) as (-> & _ & _).
  rewrite <- Hh2. change (handle_for (devices k2) index) with (handle_for (devices k3) index). rewrite (differs_owned _ _ _ _ _ i H3 Hi (eq_trans Hd2 Hd1)). cbn [negb].
  destruct (bool_decide_reflect (st = Ok)) as [E|E].
  - pose proof (differs_modify _ _ _ _ _ i attached H3 Hlt (fun _ => with_counters_same _ _ _ _ _ _ _ _ _)) as H4.
    destruct (differs_mark _ _ _ _ _ Devices.Ready H4 Hi) as (d5 & H5 & Hs5 & Hd5 & _ & _). split; [done|]. split; [done|]. exists d5. split; [|split; [congruence|done]].
    cbn [fst]. destruct H5 as [A1 A2 A3 A4 A5]. constructor; try done. intros j Hj. rewrite (A5 j Hj). unfold one_more. destruct (decide (j = i)) as [->|]; [|done].
    rewrite <- (df_attached _ _ _ _ _ H3 i Hlt). done.
  - apply (detach_selected_quiet k0 k3 index d2 i st H3 Hi Hlt). congruence.
Qed.

Lemma try_selected_quiet k0 k index d i : differs k0 k index d (same_counts k0) -> 0 <= index -> (i < g_count k0)%nat -> driver d = INVALID_DRIVER_ID ->
  let a := driver_at k0 i in
  let '(w, st) := effect (probe a) (context a) (world k) index (timeout_ticks a) in
  let result := try_selected k index (handle_for (devices k) index) i in
  if negb (bool_decide (st = Ok)) then goes_on k0 index w st result
  else
    let '(w, st) := effect (attach a) (context a) w index (timeout_ticks a) in
    if bool_decide (st = Ok) then taken k0 index w i result else goes_on k0 index (after_detach k0 i index w) st result.
Proof.
  intros H Hi Hlt Hd a. unfold try_selected. set (k1 := modify k i probed). assert (differs k0 k1 index d (same_counts k0)) as H1 by (by apply differs_modify_same).
  destruct (differs_mark _ _ _ _ _ Probing H1 Hi) as (d2 & H2 & _ & Hd2 & Hh2 & Hw2). set (k2 := mark k1 index Probing) in *.
  destruct (differs_id _ _ _ _ _ i H2 Hlt) as (_ & (_ & _ & _ & Et & _ & Ep & _ & _ & Ec) & _). rewrite Et, Ep, Ec. fold a. rewrite lifecycle_quiet, Hw2. change (world k1) with (world k).
  destruct (effect (probe a) (context a) (world k) index (timeout_ticks a)) as [w st]. cbn [fst snd]. set (k3 := with_world k2 w).
  assert (differs k0 k3 index d2 (same_counts k0)) as H3 by (by apply differs_world). change (handle_for (devices k) index) with (handle_for (devices k1) index).
  rewrite <- Hh2. change (handle_for (devices k2) index) with (handle_for (devices k3) index). rewrite (differs_resolve _ _ _ _ _ H3 Hi).
  destruct (bool_decide_reflect (st = Ok)) as [E|E]; cbn [negb].
  - apply (attach_selected_quiet k0 k3 index d2 i H3 Hi Hlt). congruence.
  - assert (differs k0 (modify k3 i (record_failure index Probe st)) index d2 (same_counts k0)) as H4 by (by apply differs_modify_same).
    destruct (differs_mark _ _ _ _ _ Discovered H4 Hi) as (d5 & H5 & Hs5 & Hd5 & Hh5 & _). split; [cbn [fst snd]; by rewrite Hh5|]. split; [done|]. exists d5. split; [done|]. congruence.
Qed.

(** ** The loop *)

(** Drivers that were tried are marked. *)
Definition marks (tried : list bool) (done_ : list nat) : Prop := length tried = MAXIMUM_DRIVERS /\ forall j, nth j tried false = true <-> j ∈ done_.

Lemma marks_insert tried done_ i : marks tried done_ -> (i < MAXIMUM_DRIVERS)%nat -> marks (<[i := true]> tried) (done_ ++ [i]).
Proof.
  intros [H1 H2] Hi. split; [by rewrite length_insert|]. intros j. rewrite elem_of_app, list_elem_of_singleton, nth_lookup. destruct (decide (j = i)) as [->|Hne].
  - rewrite list_lookup_insert_eq by lia. naive_solver.
  - rewrite list_lookup_insert_ne, <- nth_lookup, H2 by done. naive_solver.
Qed.

(** The selection takes the first of the ranking that was not tried. *)
Lemma select_next k0 k index d tried done_ rest : differs k0 k index d (same_counts k0) -> 0 <= index -> ranking k0 index = done_ ++ rest -> marks tried done_ ->
  select_loop MAXIMUM_DRIVERS k index (handle_for (devices k) index) tried 0 None = (k, Some (head rest)).
Proof.
  intros H Hi Er [_ Hm]. pose proof (differs_resolve _ _ _ _ _ H Hi) as Hres.
  destruct (select_quiet MAXIMUM_DRIVERS k index (handle_for (devices k) index) tried 0 None) as (r & -> & Hr); [by exists d|pose proof (ko_count k (df_ok _ _ _ _ _ H)); lia|done|].
  assert (forall j, (j < g_count k0)%nat -> same_driver (driver_at k0 j) (driver_at k j)) as Hsame by (intros j Hj; by eapply differs_id).
  assert (forall j, eligible k index tried j <-> j ∈ rest) as Hel.
  { intros j. unfold eligible. rewrite (df_count _ _ _ _ _ H). pose proof (ranking_elem k0 index j) as He. rewrite Er, elem_of_app in He. pose proof (ranking_NoDup k0 index) as Hnd. rewrite Er in Hnd.
    apply NoDup_app in Hnd as (_ & Hdis & _). assert ((j < g_count k0)%nat -> candidate k index j = candidate k0 index j) as Hc.
    { intros Hj. destruct (Hsame j Hj) as (_ & _ & _ & _ & E1 & _ & _ & _ & E2). unfold candidate. by rewrite E1, E2. }
    rewrite <- not_true_iff_false, Hm. split; [intros (Hj & Hn & E); rewrite Hc in E by done; naive_solver|]. intros Hin. destruct (proj1 He (or_intror Hin)) as [Hj E].
    split; [done|]. split; [|by rewrite Hc]. intros Hd. by apply (Hdis j). }
  do 2 f_equal. destruct rest as [|m rest]; cbn [head].
  - destruct r as [j|]; [|done]. destruct Hr as ([|Hj] & _); [done|]. apply Hel in Hj. by apply elem_of_nil in Hj.
  - destruct r as [j|]; [|destruct Hr as [_ Hno]; destruct (Hno m ltac:(lia)); apply Hel; by constructor]. destruct Hr as ([|Hj] & Hbest & _); [done|]. f_equal.
    assert (m ∈ m :: rest) as Hin by constructor. apply Hel in Hin as Hem. pose proof (Hbest m ltac:(lia) Hem) as P1. apply Hel in Hj as Hjr. apply elem_of_cons in Hjr as [->|Hjr]; [done|].
    pose proof (ranking_sorted k0 index) as Hs. rewrite Er in Hs. apply StronglySorted_app_1_r in Hs. apply StronglySorted_inv in Hs as [_ Hall].
    pose proof (proj1 (Forall_forall _ _) Hall j Hjr) as P2. cbn in P2. destruct Hem as (Hm1 & _), Hj as (Hj1 & _). rewrite (df_count _ _ _ _ _ H) in Hm1, Hj1.
    destruct (Hsame m Hm1) as (_ & _ & Pm & _), (Hsame j Hj1) as (_ & _ & Pj & _). unfold precedes in P1, P2. rewrite Pm, Pj in P1. lia.
Qed.

(** What binding comes to: the device belongs to the winner, or to nobody. *)
Definition bind_result k0 index (matched : bool) (found : W * option nat * KStatus) (result : Kernel W * KStatus) : Prop :=
  let '(w, winner, last) := found in
  world (fst result) = w /\
  match winner with
  | Some i => snd result = Ok /\ exists d, differs k0 (fst result) index d (one_more k0 i) /\ driver d = Z.of_nat i /\ Devices.status d = Devices.Ready
  | None => snd result = (if matched then last else NotFound) /\
      exists d, differs k0 (fst result) index d (same_counts k0) /\ driver d = INVALID_DRIVER_ID /\ (matched = true -> Devices.status d = Devices.Failed)
  end.

Lemma bind_end_quiet k0 k index d matched last : differs k0 k index d (same_counts k0) -> 0 <= index -> driver d = INVALID_DRIVER_ID ->
  bind_result k0 index matched (world k, None, last) (bind_end k index (handle_for (devices k) index) matched last).
Proof.
  intros H Hi Hd. unfold bind_end, bind_result. destruct matched; [|split; [done|]; split; [done|]; by exists d]. rewrite (differs_resolve _ _ _ _ _ H Hi).
  destruct (differs_mark _ _ _ _ _ Devices.Failed H Hi) as (d2 & H2 & Hs2 & Hd2 & _ & Hw2). split; [done|]. split; [done|]. exists d2. split; [done|]. split; [congruence|done].
Qed.

Definition not_empty (l : list nat) : bool := negb (bool_decide (l = [])).

Lemma bind_loop_quiet k0 rest : forall fuel k index d tried done_ last, differs k0 k index d (same_counts k0) -> 0 <= index -> driver d = INVALID_DRIVER_ID ->
  ranking k0 index = done_ ++ rest -> marks tried done_ -> fuel = (MAXIMUM_DRIVERS - length done_)%nat ->
  bind_result k0 index (not_empty done_ || not_empty rest) (search k0 (world k) index rest last)
    (bind_loop fuel k index (handle_for (devices k) index) tried (length done_) (not_empty done_) last).
Proof.
  induction rest as [|i rest IH]; intros fuel k index d tried done_ last H Hi Hd Er Hm Ef.
  - cbn [search]. rewrite orb_false_r. pose proof (bind_end_quiet k0 k index d (not_empty done_) last H Hi Hd) as Hend. destruct fuel as [|fuel]; cbn [bind_loop]; [done|].
    destruct (negb _); [done|]. by rewrite (select_next k0 k index d tried done_ []).
  - pose proof (ranking_length k0 index) as Hlen. rewrite Er, length_app in Hlen. cbn [length] in Hlen. pose proof (ko_count k (df_ok _ _ _ _ _ H)) as Hc. pose proof (df_count _ _ _ _ _ H) as Ec.
    destruct fuel as [|fuel]; [lia|]. cbn [bind_loop search]. destruct (Nat.ltb_spec (length done_) (g_count k)); [|lia]. cbn [negb].
    rewrite (select_next k0 k index d tried done_ (i :: rest)) by done. cbn [head].
    assert (i < g_count k0)%nat as Hlt by (apply (ranking_elem k0 index i); rewrite Er; set_solver). pose proof (try_selected_quiet k0 k index d i H Hi Hlt Hd) as Htry. cbv zeta in Htry.
    assert (not_empty done_ || not_empty (i :: rest) = true) as -> by (by destruct (not_empty done_)).
    assert (forall w st k' handle' last', goes_on k0 index w st (k', Continue handle' last') ->
      bind_result k0 index true (search k0 w index rest st) (bind_loop fuel k' index handle' (<[i := true]> tried) (S (length done_)) true last')) as Hgo.
    { intros w st k' handle' last' ([= -> ->] & <- & d' & H' & Hd'). cbn [fst] in *. pose proof (IH fuel k' index d' (<[i := true]> tried) (done_ ++ [i]) st H' Hi Hd') as G.
      rewrite <- app_assoc in G. specialize (G Er (marks_insert tried done_ i Hm ltac:(lia))). rewrite length_app in G. cbn [length] in G. rewrite Nat.add_1_r in G. specialize (G ltac:(lia)).
      assert (not_empty (done_ ++ [i]) = true) as E by (by destruct done_). by rewrite E in G. }
    destruct (try_selected k index _ i) as [k' [st'|handle' last']], (effect (probe (driver_at k0 i)) _ _ _ _) as [w st]; (destruct (negb (bool_decide (st = Ok)));
      [try (by destruct Htry); by apply Hgo|destruct (effect (attach (driver_at k0 i)) _ _ _ _) as [w2 st2]; destruct (bool_decide (st2 = Ok))]); try (by destruct Htry).
    + destruct Htry as ([= ->] & Hw & d' & Hd'). split; [done|]. split; [done|]. by exists d'.
    + apply Hgo. exact Htry.
Qed.

Lemma bind_free k index d : kernel_ok k -> g_initialized k = true -> Devices.g_initialized (devices k) = true -> 0 <= index ->
  Devices.get (devices k) index = Some d -> driver d = INVALID_DRIVER_ID ->
  bind_result k index (not_empty (ranking k index)) (search k (world k) index (ranking k index) NotSupported) (bind_device k index).
Proof.
  intros Hk G1 G2 Hi Hd Hfree. unfold bind_device. rewrite G1, G2. cbn [negb orb]. pose proof (differs_refl k index d Hk Hd) as H. rewrite (differs_resolve _ _ _ _ _ H Hi), Hfree. cbn [negb Z.eqb].
  apply (bind_loop_quiet k (ranking k index) MAXIMUM_DRIVERS k index d (replicate MAXIMUM_DRIVERS false) [] NotSupported); try done.
  split; [apply length_replicate|]. intros j. rewrite nth_lookup. split; [|by intros ?%elem_of_nil]. destruct (replicate _ _ !! j) eqn:E; [|done]. by apply lookup_replicate in E as [-> _].
Qed.


(** ** The counts of attached devices *)

Definition owner (s : Devices) (j : Z) : Z :=
  if j <? 0 then INVALID_DRIVER_ID else match Devices.get s j with Some d => driver d | None => INVALID_DRIVER_ID end.

(** The number of devices that driver [i] owns. *)
Definition owner_count (s : Devices) (i : nat) : Z := countb (fun j => owner s j =? Z.of_nat i) (seqZ 0 (Z.of_nat MAXIMUM_DEVICES)).

Record exact k : Prop := {
  ex_ok : kernel_ok k;
  ex_owners : forall j, owner (devices k) j = INVALID_DRIVER_ID \/ 0 <= owner (devices k) j < Z.of_nat (g_count k);
  ex_counts : forall i, (i < g_count k)%nat -> attached_count (driver_at k i) = owner_count (devices k) i }.

Lemma owner_get s j d : 0 <= j -> Devices.get s j = Some d -> owner s j = driver d.
Proof. intros Hj Hd. unfold owner. destruct (Z.ltb_spec j 0); [lia|]. by rewrite Hd. Qed.

Lemma owner_count_range s i : 0 <= owner_count s i <= 192.
Proof. unfold owner_count. pose proof (countb_nonneg (fun j => owner s j =? Z.of_nat i) (seqZ 0 (Z.of_nat MAXIMUM_DEVICES))) as H1. pose proof (countb_le_length (fun j => owner s j =? Z.of_nat i) (seqZ 0 (Z.of_nat MAXIMUM_DEVICES))) as H2. rewrite length_seqZ in H2. unfold MAXIMUM_DEVICES in *. lia. Qed.

Lemma owner_count_ext s s' i : (forall j, owner s' j = owner s j) -> owner_count s' i = owner_count s i.
Proof. intros E. apply countb_ext. intros j _. by rewrite E. Qed.

(** A change of the owner of device [index]. *)
Lemma owner_count_update s s' index d i : 0 <= index < Z.of_nat MAXIMUM_DEVICES -> only_at s s' index d ->
  owner_count s' i = owner_count s i - Z.b2z (owner s index =? Z.of_nat i) + Z.b2z (driver d =? Z.of_nat i).
Proof.
  intros Hi (Hd & Ho & _). unfold owner_count. rewrite (countb_update (fun j => owner s j =? Z.of_nat i) (fun j => owner s' j =? Z.of_nat i) _ index).
  - by rewrite (owner_get s' index d) by (done || lia).
  - apply NoDup_seqZ.
  - apply elem_of_seqZ. lia.
  - intros j Hne. unfold owner. destruct (Z.ltb_spec j 0); [done|]. by rewrite Ho.
Qed.

Lemma exact_differs k0 k index d0 d c : exact k0 -> differs k0 k index d c -> 0 <= index -> Devices.get (devices k0) index = Some d0 ->
  (driver d = INVALID_DRIVER_ID \/ 0 <= driver d < Z.of_nat (g_count k0)) ->
  (forall i, (i < g_count k0)%nat -> c i = same_counts k0 i - Z.b2z (driver d0 =? Z.of_nat i) + Z.b2z (driver d =? Z.of_nat i)) -> exact k.
Proof.
  intros [X1 X2 X3] [H1 H2 H3 H4 H5] Hi Hd0 Hd Hc. destruct (get_id (devices k0) index d0 (ko_devices k0 X1) Hi Hd0) as (_ & Hlt & _). pose proof (dv_count _ (ko_devices k0 X1)) as Hmax.
  constructor; [done| |].
  - intros j. rewrite H3. destruct (decide (0 <= j)) as [Hj|Hj]; [|unfold owner; destruct (Z.ltb_spec j 0); [by left|lia]]. destruct (decide (j = index)) as [->|Hne].
    + by rewrite (owner_get _ _ d) by (done || apply H4).
    + assert (owner (devices k) j = owner (devices k0) j) as ->; [|apply X2]. unfold owner. destruct (j <? 0); [done|]. by rewrite (proj1 (proj2 H4) j Hj Hne).
  - intros i Hlti. rewrite H3 in Hlti. rewrite H5, Hc by done. rewrite (owner_count_update (devices k0) (devices k) index d i) by (done || lia).
    rewrite (owner_get _ _ d0) by done. unfold same_counts. by rewrite X3.
Qed.

(** A change of the device manager that leaves the owners. *)
Lemma exact_devices k ds : exact k -> devices_ok ds -> (forall j, 0 <= j -> owner ds j = owner (devices k) j) -> exact (with_devices k ds).
Proof.
  intros [[H1 H2 H3 H4] X2 X3] Hds E. assert (forall j, owner ds j = owner (devices k) j) as E' by (intros j; destruct (decide (0 <= j)); [by apply E|unfold owner; by replace (j <? 0) with true by lia]).
  constructor; [by constructor|intros j; cbn [devices with_devices g_count]; rewrite E'; apply X2|]. intros i Hi. cbn [devices with_devices]. rewrite (owner_count_ext _ _ i E'). by apply X3.
Qed.

(** Calls by which devices and drivers come and go; the owner of a device is changed by
    the driver manager only. *)
Definition plain (c : call) : Prop :=
  call_ok c /\ match c with CDevice (ORegister _ _) | CDevice (ORemove _) | CDevice (OStatus _ _) => True | CDevice _ | CInitialize => False | _ => True end.

Lemma exact_register_device k descriptor has_id : exact k -> 0 <= d_parent descriptor -> exact (with_devices k (fst (fst (register_device (devices k) descriptor has_id)))).
Proof.
  intros Hx Hp. pose proof (ko_devices k (ex_ok k Hx)) as Hs. apply exact_devices; [done|by apply register_ok|]. intros j Hj.
  destruct (register_cases (devices k) descriptor has_id) as [(_ & _ & up & -> & Hup)|(_ & -> & _)]; [|done]. pose proof (free_slot_spec _ Hs) as Hsp.
  destruct (free_slot (devices k)) as [[slot count]|] eqn:Ef; [|unfold place; by rewrite Ef]. destruct Hsp as (_ & _ & _ & old & Hold & Hina).
  destruct (place_get _ descriptor up slot count old Hs Ef Hold) as (s' & -> & _ & _ & _ & _ & _ & Hget); [destruct up; naive_solver|]. cbn [fst]. unfold owner. destruct (j <? 0); [done|].
  rewrite Hget by done. destruct (decide _) as [->|]; [by rewrite (get_none _ slot old)|]. destruct (Devices.get (devices k) j) as [x|]; [|done]. cbn. unfold adopt. by destruct (decide _).
Qed.

Lemma exact_remove_device k index : exact k -> 0 <= index -> exact (with_devices k (fst (remove_device (devices k) index))).
Proof.
  intros Hx Hi. pose proof (ko_devices k (ex_ok k Hx)) as Hs. apply exact_devices; [done|by apply dev_remove_ok|]. intros j Hj. destruct (decide (snd (remove_device (devices k) index) = KStatus.Ok)) as [E|E].
  - destruct (Devices.get (devices k) index) as [d|] eqn:Hd; [|by unfold remove_device in E; rewrite Hd in E]. destruct (remove_get _ index d Hs Hi Hd E) as (Hdrv & _ & _ & _ & _ & _ & Hget).
    unfold owner. destruct (j <? 0); [done|]. rewrite Hget by done. destruct (decide _) as [->|]; [by rewrite Hd|]. destruct (Devices.get (devices k) j) as [x|]; [|done]. cbn. unfold orphan. by destruct (decide _).
  - unfold remove_device in *. destruct (Devices.get (devices k) index) as [d|]; [|done]. destruct (_ || _); [done|]. by destruct (_ =? 0).
Qed.

Lemma exact_mark k index st : exact k -> 0 <= index -> exact (mark k index st).
Proof.
  intros Hx Hi. pose proof (ko_devices k (ex_ok k Hx)) as Hs. apply exact_devices; [done|by apply set_status_ok|]. intros j Hj.
  destruct (Devices.get (devices k) index) as [d|] eqn:Hd; [|by unfold set_status; rewrite Hd]. destruct (mark_only_at _ index d st Hs Hi Hd) as (d' & (D1 & D2 & _) & _ & D3 & _).
  destruct (decide (j = index)) as [->|Hne]; [by rewrite (owner_get _ _ d'), (owner_get _ _ d)|]. unfold owner. by rewrite (D2 j Hj Hne).
Qed.

Lemma exact_register_driver k descriptor has_id : exact k -> exact (fst (fst (register_driver k descriptor has_id))).
Proof.
  intros [X1 X2 X3]. pose proof (proj1 (change_ok _ _ (change_register k descriptor has_id) X1)) as Hok. pose proof (register_driver_cases k descriptor has_id) as Hc. pose proof (ko_length k X1) as Hl.
  destruct (register_driver k descriptor has_id) as [[k' st] out]. cbn [fst] in *. destruct Hc as [[_ ->]|(_ & _ & Hlt & _ & _ & _ & _ & _ & _ & _ & ->)]; [done|]. constructor; [done| |].
  - intros j. cbn [devices g_count]. destruct (X2 j); [by left|right; lia].
  - intros i Hi. cbn [devices g_count] in *. unfold driver_at. cbn [g_drivers]. rewrite nth_lookup. destruct (decide (i = g_count k)) as [->|Hne].
    + rewrite list_lookup_insert_eq by lia. cbn. symmetry. unfold owner_count. assert (forall l, countb (fun j => owner (devices k) j =? Z.of_nat (g_count k)) l = 0) as H0; [|apply H0].
      induction l as [|j l IH]; [done|]. cbn [countb]. rewrite IH. destruct (Z.eqb_spec (owner (devices k) j) (Z.of_nat (g_count k))) as [E|]; [|done].
      destruct (X2 j) as [E2|]; [|lia]. rewrite E2 in E. unfold INVALID_DRIVER_ID, UINT32_MAX in E. unfold MAXIMUM_DRIVERS in Hlt. lia.
    + rewrite list_lookup_insert_ne, <- nth_lookup by done. apply X3. lia.
Qed.

Lemma owner_count_positive s j i : 0 <= j < Z.of_nat MAXIMUM_DEVICES -> owner s j = Z.of_nat i -> 1 <= owner_count s i.
Proof.
  intros Hj E. unfold owner_count. assert (j ∈ seqZ 0 (Z.of_nat MAXIMUM_DEVICES)) as (l1 & l2 & ->)%list_elem_of_split by (apply elem_of_seqZ; lia).
  rewrite countb_app. cbn [countb]. rewrite E, Z.eqb_refl. pose proof (countb_nonneg (fun j => owner s j =? Z.of_nat i) l1). pose proof (countb_nonneg (fun j => owner s j =? Z.of_nat i) l2). cbn. lia.
Qed.

(** Without a device there is no handle. *)
Lemma resolve_none s index : Devices.get s index = None -> resolve s (handle_for s index) = None.
Proof. intros E. unfold handle_for. by rewrite E. Qed.

Lemma not_invalid k i : kernel_ok k -> (i < g_count k)%nat -> (INVALID_DRIVER_ID =? Z.of_nat i) = false.
Proof. intros Hk Hi. pose proof (ko_count k Hk) as Hc. unfold MAXIMUM_DRIVERS in Hc. unfold INVALID_DRIVER_ID, UINT32_MAX. lia. Qed.

Lemma search_winner k index order : forall w last w' i last', search k w index order last = (w', Some i, last') -> i ∈ order.
Proof.
  induction order as [|j order IH]; intros w last w' i last'; cbn [search]; [done|]. destruct (effect _ _ _ _ _) as [w1 st1]. destruct (negb _); [intros E%IH; by right|].
  destruct (effect _ _ _ _ _) as [w2 st2]. destruct (bool_decide _); [intros [= _ <- _]; by left|intros E%IH; by right].
Qed.

Lemma exact_bind k index : exact k -> 0 <= index -> exact (fst (bind_device k index)).
Proof.
  intros Hx Hi. pose proof (ex_ok k Hx) as Hk. destruct (g_initialized k) eqn:G1; [|unfold bind_device; by rewrite G1].
  destruct (Devices.g_initialized (devices k)) eqn:G2; [|unfold bind_device; by rewrite G1, G2].
  destruct (Devices.get (devices k) index) as [d0|] eqn:Hd; [|unfold bind_device; by rewrite G1, G2, resolve_none].
  destruct (Z.eqb_spec (driver d0) INVALID_DRIVER_ID) as [Hfree|Hne].
  2: { unfold bind_device. rewrite G1, G2, (differs_resolve _ _ _ _ _ (differs_refl k index d0 Hk Hd) Hi). cbn [negb orb]. apply Z.eqb_neq in Hne as ->. done. }
  pose proof (bind_free k index d0 Hk G1 G2 Hi Hd Hfree) as R. unfold bind_result in R.
  destruct (search _ _ _ _ _) as [[w [i|]] last] eqn:Es; destruct R as (_ & _ & d & Hdf & Hdr & _); apply (exact_differs k _ index d0 d _ Hx Hdf Hi Hd).
  - right. apply search_winner, ranking_elem in Es as [Hlt _]. lia.
  - intros j Hj. rewrite Hfree, Hdr, (not_invalid k j Hk Hj). unfold one_more, same_counts. destruct (decide (j = i)) as [->|Hne].
    + rewrite Z.eqb_refl, (ex_counts k Hx i Hj). pose proof (owner_count_range (devices k) i). rewrite u64_small by (unfold is_u64; lia). cbn. lia.
    + replace (Z.of_nat i =? Z.of_nat j) with false by lia. cbn. lia.
  - by left.
  - intros j Hj. rewrite Hfree, Hdr. unfold same_counts. lia.
Qed.

(** A device with an owner among the registered drivers. *)
Lemma owner_range k index d : exact k -> 0 <= index -> Devices.get (devices k) index = Some d -> driver d ≠ INVALID_DRIVER_ID ->
  exists i, driver d = Z.of_nat i /\ (i < g_count k)%nat /\ attached_count (driver_at k i) ≠ 0.
Proof.
  intros Hx Hi Hd Hne. destruct (ex_owners k Hx index) as [E|E]; rewrite (owner_get _ _ d) in E by done; [done|]. exists (Z.to_nat (driver d)). split; [lia|]. split; [lia|].
  rewrite (ex_counts k Hx) by lia. destruct (get_id _ index d (ko_devices k (ex_ok k Hx)) Hi Hd) as (_ & Hlt & _). pose proof (dv_count _ (ko_devices k (ex_ok k Hx))).
  assert (1 <= owner_count (devices k) (Z.to_nat (driver d))); [|lia]. apply (owner_count_positive _ index); [lia|]. rewrite (owner_get _ _ d) by done. lia.
Qed.

(** The device is given up by driver [i], whose count goes down. *)
Lemma exact_given_up k0 k index d0 d i f : exact k0 -> differs k0 k index d (same_counts k0) -> 0 <= index -> Devices.get (devices k0) index = Some d0 ->
  driver d0 = Z.of_nat i -> (i < g_count k0)%nat -> attached_count (driver_at k0 i) ≠ 0 -> driver d = INVALID_DRIVER_ID ->
  (forall x, same_driver x (f x)) -> (forall x, attached_count x ≠ 0 -> attached_count (f x) = attached_count x - 1) -> exact (modify k i f).
Proof.
  intros Hx H Hi Hd0 Hdr0 Hlt Hpos Hdr Hf Hone. apply (exact_differs k0 _ index d0 d _ Hx (differs_modify _ _ _ _ _ i f H Hlt Hf) Hi Hd0); [by left|].
  intros j Hj. rewrite Hdr0, Hdr, (not_invalid k0 j (ex_ok k0 Hx) Hj). destruct (decide (j = i)) as [->|Hne].
  - rewrite Hone; rewrite (df_attached _ _ _ _ _ H i Hlt); unfold same_counts; [|done]. rewrite Z.eqb_refl. cbn. lia.
  - replace (Z.of_nat i =? Z.of_nat j) with false by lia. cbn. lia.
Qed.

(** [unbind_device] and [report_device_failure] call [detach] and release the device. *)
Lemma detach_release k0 k index d0 i : differs k0 k index d0 (same_counts k0) -> 0 <= index -> (i < g_count k0)%nat -> driver d0 = Z.of_nat i ->
  let k1 := call_detach k i index in
  owned k1 (handle_for (devices k) index) (id (driver_at k1 i)) = true /\
  exists ds d, release (devices k1) index (id (driver_at k1 i)) = (ds, Ok) /\ differs k0 (with_devices k1 ds) index d (same_counts k0) /\ driver d = INVALID_DRIVER_ID.
Proof.
  intros H Hi Hlt Hd k1. unfold k1. rewrite call_detach_quiet. set (w := after_detach _ _ _ _). assert (differs k0 (with_world k w) index d0 (same_counts k0)) as H1 by (by apply differs_world).
  split; [|by apply (differs_release k0 _ _ d0 (same_counts k0))]. destruct (differs_id _ _ _ _ _ i H1 Hlt) as (-> & _). change (handle_for (devices k) index) with (handle_for (devices (with_world k w)) index).
  by apply (differs_owned k0 _ _ d0 (same_counts k0)).
Qed.

Lemma exact_unbind k index : exact k -> 0 <= index -> exact (fst (unbind_device k index)).
Proof.
  intros Hx Hi. pose proof (ex_ok k Hx) as Hk. unfold unbind_device. destruct (_ || _); [done|].
  destruct (Devices.get (devices k) index) as [d0|] eqn:Hd; [|by rewrite resolve_none]. pose proof (differs_refl k index d0 Hk Hd) as H0. rewrite (differs_resolve _ _ _ _ _ H0 Hi).
  destruct (Z.eqb_spec (driver d0) INVALID_DRIVER_ID) as [|Hne]; [done|]. destruct (owner_range k index d0 Hx Hi Hd Hne) as (i & Edr & Hlt & Hpos).
  rewrite Edr. destruct (Z.leb_spec (Z.of_nat (g_count k)) (Z.of_nat i)); [lia|]. rewrite Nat2Z.id. destruct (detach_release k k index d0 i H0 Hi Hlt Edr) as (-> & ds & d & -> & H1 & Hdr).
  cbn [negb]. rewrite bool_decide_eq_true_2 by done. cbn [negb fst].
  apply (exact_given_up k _ index d0 d i detached Hx H1 Hi Hd Edr Hlt Hpos Hdr); [done|]. intros x Hpx. cbn. by apply Z.eqb_neq in Hpx as ->.
Qed.

Lemma exact_report k index reason : exact k -> 0 <= index -> exact (fst (report_device_failure k index reason)).
Proof.
  intros Hx Hi. pose proof (ex_ok k Hx) as Hk. unfold report_device_failure. destruct (_ || _); [done|]. destruct (bool_decide _); [done|].
  destruct (Devices.get (devices k) index) as [d0|] eqn:Hd; [|by rewrite resolve_none]. pose proof (differs_refl k index d0 Hk Hd) as H0. rewrite (differs_resolve _ _ _ _ _ H0 Hi).
  destruct (Z.eqb_spec (driver d0) INVALID_DRIVER_ID) as [|Hne]; [by apply exact_mark|]. destruct (owner_range k index d0 Hx Hi Hd Hne) as (i & Edr & Hlt & Hpos).
  rewrite Edr. destruct (Z.leb_spec (Z.of_nat (g_count k)) (Z.of_nat i)); [lia|]. rewrite Nat2Z.id. set (kf := modify k i _).
  assert (differs k kf index d0 (same_counts k)) as Hf by (by apply differs_modify_same). change (handle_for (devices k) index) with (handle_for (devices kf) index).
  destruct (detach_release k kf index d0 i Hf Hi Hlt Edr) as (-> & ds & d & -> & H1 & Hdr). cbn [negb]. rewrite bool_decide_eq_true_2 by done. cbn [negb fst].
  apply exact_mark; [|done]. apply (exact_given_up k _ index d0 d i one_less Hx H1 Hi Hd Edr Hlt Hpos Hdr); [done|]. intros x Hpx. cbn. by apply Z.eqb_neq in Hpx as ->.
Qed.

Lemma exact_rebind k index : exact k -> 0 <= index -> exact (fst (rebind_device k index)).
Proof.
  intros Hx Hi. unfold rebind_device. destruct (_ || _); [done|]. destruct (Devices.get _ _) as [target|]; [|done]. destruct (negb _); [|by apply exact_bind].
  pose proof (exact_unbind k index Hx Hi) as H. destruct (unbind_device k index) as [k1 st]. cbn [fst] in H. destruct (negb _); [done|]. by apply exact_bind.
Qed.

Lemma exact_bind_all k : exact k -> exact (fst (bind_all k)).
Proof.
  intros Hx. unfold bind_all. destruct (_ || _); [done|]. assert (forall fuel k index aggregate, exact k -> 0 <= index -> exact (fst (bind_all_loop fuel k index aggregate))) as H; [|by apply H].
  clear k Hx. induction fuel as [|fuel IH]; intros k index aggregate Hx Hi; cbn [bind_all_loop]; [done|]. destruct (negb _); [done|].
  destruct (Devices.get _ _) as [target|]; [|apply IH; [done|lia]]. destruct (negb _); [apply IH; [done|lia]|]. pose proof (exact_bind k index Hx Hi) as H.
  destruct (bind_device k index) as [k1 st]. apply IH; [done|lia].
Qed.

Lemma exact_step k c : exact k -> plain c -> exact (call_step k c).
Proof.
  intros Hx [Hc Hp]. destruct c as [[|descriptor has_id|index|index st|index drv txt|index drv]|descriptor has_id|index|index|index|index reason| |]; cbn in Hc, Hp; try done.
  - by apply (exact_register_device k descriptor has_id).
  - by apply (exact_remove_device k index).
  - by apply (exact_mark k index st).
  - by apply exact_register_driver.
  - by apply exact_bind.
  - by apply exact_unbind.
  - by apply exact_rebind.
  - by apply exact_report.
  - by apply exact_bind_all.
Qed.

(** Both managers initialized, and no driver yet. *)
Definition ready (w : W) : Kernel W := mkKernel w (Devices.initialize zeroed) (replicate MAXIMUM_DRIVERS zero_driver) 0 true.

Lemma ready_exact w : exact (ready w).
Proof.
  constructor.
  - constructor; [exact initial_ok|apply length_replicate|cbn; lia|cbn; lia].
  - intros j. left. unfold owner. destruct (Z.ltb_spec j 0); [done|]. unfold Devices.get. cbn [devices ready Devices.g_count Devices.initialize]. destruct (Z.ltb_spec j (Z.of_nat 0)); [lia|done].
  - cbn. lia.
Qed.


End binding.

(** ** Witnesses *)

(** Matching by the context and the device; function 2 fails, every call is counted. *)
#[local] Instance plain_callbacks : Callbacks Z := {|
  match_callback fn ctx k index := (k, ctx <=? index);
  lifecycle_callback fn ctx k index ticks := (with_world k (world k + fn), if fn =? 2 then IoError else Ok);
  detach_callback fn ctx k index := with_world k (world k + 100);
  kurogane_register_builtin_drivers k := (k, Ok) |}.

#[local] Instance plain_quiet : Quiet Z.
Proof.
  refine (Build_Quiet Z plain_callbacks (fun fn ctx index => ctx <=? index) (fun fn ctx w index ticks => (w + fn, if fn =? 2 then IoError else Ok))
    (fun fn ctx w index => w + 100) _ _ _ _); reflexivity.
Defined.

(** Of five drivers the most important does not match, the next two fail in different
    ways, and of two equals the first is taken. *)
Definition plain_descriptor (c prio probe_fn attach_fn ctx : Z) : Drivers.Descriptor := Drivers.mkDescriptor (Some [c]) prio 100 1 probe_fn attach_fn 1 ctx.
Definition plain_calls : list call :=
  [CDevice (ORegister (example_disk INVALID_DEVICE_ID) true); CDevice (ORegister (example_disk 0) true); CRegister (plain_descriptor 97 1 1 1 0) true;
   CRegister (plain_descriptor 98 1 1 1 0) true; CRegister (plain_descriptor 99 5 1 2 0) true; CRegister (plain_descriptor 100 4 2 1 0) true;
   CRegister (plain_descriptor 101 9 1 1 7) true].

Lemma plain_calls_ok : Forall plain plain_calls.
Proof. repeat (apply Forall_cons_2; [split; cbn; first [exact I|unfold INVALID_DEVICE_ID, UINT32_MAX; lia]|]). apply Forall_nil_2. Qed.

Definition plain_kernel : Kernel Z := foldl call_step (ready 0) plain_calls.

Lemma plain_kernel_ok : kernel_ok plain_kernel.
Proof. apply calls_ok; [constructor; [exact initial_ok|apply length_replicate|cbn; lia|cbn; lia]|]. eapply Forall_impl; [exact plain_calls_ok|]. by intros c [H _]. Qed.



(** ** A failure reported during [attach] *)

(** Function 5 reports the failure of device 1; the driver has no [detach]. *)
Definition early_callbacks : Callbacks Z := {|
  match_callback fn ctx k index := (k, true);
  lifecycle_callback fn ctx k index ticks := if (fn =? 5) && (index =? 1) then (fst (@report_device_failure Z plain_callbacks k index IoError), Ok) else (k, Ok);
  detach_callback fn ctx k index := k;
  kurogane_register_builtin_drivers k := (k, Ok) |}.

(** Without the quiet callbacks the counts can be wrong: the failure of a device that its
    driver reports while it is being attached is subtracted, although the device was
    not counted yet, and a device attached before is lost from the count. *)
Theorem early_failure_miscounts : @Lawful Z early_callbacks /\ exists cs, Forall plain cs /\ let k := foldl (@call_step Z early_callbacks) (ready 0) cs in
  (0 < g_count k)%nat /\ attached_count (driver_at k 0) = 0 /\ owner_count (devices k) 0 = 1.
Proof.
  split.
  - split; intros; cbn; try apply evolves_refl. destruct (_ && _); [|apply evolves_refl]. by apply (@report_device_failure_evolves Z plain_callbacks quiet_lawful).
  - exists [CDevice (ORegister (example_disk INVALID_DEVICE_ID) true); CDevice (ORegister (example_disk INVALID_DEVICE_ID) true);
      CRegister (Drivers.mkDescriptor (Some [97]) 1 100 1 1 5 0 0) true; CBind 0; CBind 1]. split.
    + repeat (apply Forall_cons_2; [split; cbn; first [exact I|unfold INVALID_DEVICE_ID, UINT32_MAX; lia]|]). apply Forall_nil_2.
    + split; [apply Nat.ltb_lt; vm_compute; reflexivity|]. split; vm_compute; reflexivity.
Qed.
